(* ===== verification/_CoqProject ===== *)
-Q . S2P
Prelude.v
MathOps.v
Serialization.v
Blocks.v
EngineSpec.v
LinearIO.v
Bitset.v
FreeList.v
Allocator.v
NodeAllocator.v
Stack.v
BumpAllocator.v
Extent.v
Array.v
BTreeNodes.v
BTree.v
BTreeShape.v
BTreeStore.v
BTreeSearch.v
BTreePaths.v
BTreeSplit.v
BTreeCursors.v
BTreeInsert.v
BTreeLeafInsert.v
BTreeLeafSplit.v
BTreeOps.v
BTreeSession.v
BTreeRemove.v
BTreeZone.v
BTreeRebalance.v
BTreeLeafBalance.v
BTreeInnerBalance.v
BTreePropagate.v
BTreeErase.v
BTreeClear.v
BTreeHeight.v
BTreeHistory.v
RawBTree.v
TypedBTree.v
IdGenerator.v
MetaAllocator.v
DefaultAllocator.v
DefaultTrees.v
DefaultState.v
DefaultFree.v
DefaultSpace.v
DefaultAllocate.v
DefaultReallocate.v
DefaultSpec.v
DefaultSession.v
DefaultPolicy.v
Files.v
EngineBase.v
Handles.v
FileEngine.v
Journal.v
JournalLog.v
JournalSpec.v
Recovery.v
Checkpoint.v
TransactionEngine.v
TxSessions.v
