(* ===== verification/Prelude.v ===== *)
(** * Prequel: a verification of the storage library under src/

    Prequel stores C++ objects in the blocks of a file.  The layers of the
    library, from the bottom up, and the files that model them:

    - integers and serialization: MathOps.v (include/prequel/math.hpp,
      src/hash.cpp), Serialization.v (serialization.hpp, binary_format.hpp),
      Blocks.v (block_index.hpp, address.hpp, the address arithmetic of
      engine.hpp), Bitset.v (detail/bitset.hpp);
    - files: Files.v (vfs.hpp, the memory file of src/vfs.cpp);
    - engines, which present a file as an array of blocks: EngineSpec.v (the
      interface and src/memory_engine.cpp), EngineBase.v (the block cache,
      src/engine/engine_base.ipp and its helpers), Handles.v (block handles,
      src/engine.cpp), FileEngine.v (src/engine/file_engine.ipp), and the
      transactional engine: Journal.v (src/engine/journal.ipp), JournalLog.v,
      JournalSpec.v, Recovery.v, Checkpoint.v (its theorems),
      TransactionEngine.v (src/engine/transaction_engine.ipp) and
      TxSessions.v (its theorems);
    - access to ranges of bytes: LinearIO.v (src/address.cpp,
      src/block_index.cpp);
    - allocation of blocks: FreeList.v (src/detail/free_list.cpp),
      Allocator.v (container/allocator.hpp), NodeAllocator.v
      (src/container/node_allocator.cpp), BumpAllocator.v (a simple allocator
      of ranges, the example that instantiates the interface);
    - containers: Stack.v (src/container/stack.cpp), Extent.v
      (src/container/extent.cpp), Array.v (src/container/array.cpp), and the
      B+ tree of src/container/btree/: BTreeNodes.v (leaf_node.ipp,
      internal_node.ipp on the bytes of a block), BTree.v (tree.ipp,
      cursor.ipp), and its verification in BTreeShape.v (abstract trees),
      BTreeStore.v (the blocks of a tree), BTreeSearch.v (search and the steps
      to neighbouring leaves), BTreePaths.v and BTreeSplit.v (paths of
      cursors, and what a split does to them), BTreeCursors.v (the invariant,
      search and moves of cursors), BTreeInsert.v (the descent that splits
      full nodes), BTreeLeafInsert.v and BTreeLeafSplit.v (the insertion into
      the leaf), BTreeOps.v (the operations), BTreeSession.v (the
      theorems without removals), BTreeRemove.v (erase and clear of tree.ipp,
      cursor.ipp), BTreeZone.v and BTreeRebalance.v (a group of neighbouring
      children and the cursors in it), BTreeLeafBalance.v and
      BTreeInnerBalance.v (values and children that move between neighbours,
      merged neighbours), BTreePropagate.v (the removal of a child from its
      parents), BTreeErase.v, BTreeClear.v (the operations) and
      BTreeHistory.v (the theorems with removals);
    - clients of the tree: RawBTree.v (the public interface of
      src/container/btree.cpp, with cursor objects and their destructors),
      TypedBTree.v (the class template [btree] of container/btree.hpp),
      BTreeHeight.v (which operations change the height) and IdGenerator.v
      (src/container/id_generator.cpp);
    - the general allocator, src/container/default_allocator.cpp, which keeps
      its free extents in two trees: MetaAllocator.v (its allocator of tree
      nodes), DefaultAllocator.v (the operations), DefaultTrees.v (two trees
      over one allocator), DefaultState.v (the invariant), DefaultFree.v,
      DefaultSpace.v, DefaultAllocate.v, DefaultReallocate.v (specifications
      of the operations), DefaultSpec.v (the allocator interface),
      DefaultSession.v and DefaultPolicy.v (the theorems).

    ** Conventions

    A computation is a function from a state to a state and a result
    ([M S A]); an exception keeps the assignments made before it was thrown.
    [wp m s Q] says that [m] returns without exception and its outcome
    satisfies [Q], so every specification stated with [wp] includes that no
    exception, failed assertion or failed check occurs.  Assertions of debug
    builds are part of the model.  Integers are elements of [Z]; where the
    code uses a [w]-bit type, the results are wrapped at width [w] ([u32],
    [u64]).  Blocks are lists of bytes, structures stored in a block are read
    and written at their offsets with the serialized representation, and a
    node or handle that is identified by its block is the index of the block.
    Records for classes have the members of the class; an anchor's members
    are members of the record, and creating an object from an anchor is a
    function of them.

    ** Interfaces

    Components are verified against interfaces: a class of operations
    ([File], [Backend], [Impl], [Engine], [Allocator]) with a class of laws
    ([FileSpec], [EngineSpec], [AllocatorSpec], ...).  The memory file
    implements [FileSpec], the memory engine and every file engine implement
    [EngineSpec], the node allocator, the metadata allocator and the default
    allocator over any engine implement [AllocatorSpec].  Theorems about a client hold for all implementations.
    The functions of the options of a B+ tree are arguments of its
    operations; the order of the keys is a strict weak order ([KeyOrder]).
    A typed tree needs a binary format of its values and keys ([Format],
    [FormatSpec]).

    ** Theorems

    - Engines: sessions of operations on a file engine return what an array
      of blocks returns, with any cache size ([file_engine_session]); the
      cache keeps its invariant and loses nothing when the storage fails
      ([pin_keeps_contents], [flush_writes_back], [api_reachable]).
    - Transactions: the journal implements lists of transactions
      ([journal_session]); after a crash exactly the committed ones are
      recovered ([crash_recovery], [commit_atomic]); checkpoints transfer
      them and can be repeated ([checkpoint_transfers],
      [checkpoint_resumes]); the engine on top simulates a transactional
      database, also across crashes ([transaction_session],
      [transaction_crash]).  [grow_only_commit] shows a defect.
    - Byte ranges: reads, writes and overlapping copies act on one flat array
      of bytes ([linear_write_read], [copy_is_memmove],
      [block_range_operations]).
    - Allocation and containers: the free list, the node allocator, the
      stack and the array implement abstract stacks, allocators and lists of
      values and leave blocks of others alone ([free_list_session],
      [node_allocator_session], [stack_session], [array_session]).
    - B+ tree: a tree and its cursors observe a list sorted by key
      ([btree_refines_list]); searches are lookups by key
      ([btree_find_correct]); cursors stay at their values while insertions
      split nodes ([btree_insert_keeps_cursor]); the tree is balanced and its
      counters fit their types ([btree_anchor_bounds]); refused operations
      change nothing ([btree_cursor_errors]).  With removals the tree refines
      an abstract machine ([btree_refines_machine]); a removal is exact
      ([btree_erase_correct]), [clear] frees the blocks of the tree
      ([btree_clear_correct]), and iteration with a cursor ends and is
      complete ([btree_scan_complete]).
    - Id generator: the intervals of free ids in a tree implement a set of
      allocated ids ([id_generator_refines_set]).
    - Default allocator: clients see a map from the blocks in use to their
      contents, and the statistics are exact ([default_allocator_session]);
      allocation is best fit ([allocate_takes_best_fit]); without growth it
      fails cleanly and only when it must ([allocate_without_growth]); the
      metadata reserve is balanced by loops that end
      ([fix_freelist_terminates]); regions can be added ([add_region_spec]).
    - Data: serialization round trips and soundness ([serialize_roundtrip],
      [deserialize_sound], [member_access]), address round trips
      ([address_roundtrip]), the word-level bitset ([bitset_session]) and
      the integer functions ([round_towards_pow2_correct]).

    ** Fuel and bounds

    Loops over a range are structural on the length of the range.  The
    recovery loop of the journal is bounded by the length of the file, since
    every record is at least one byte long; the loops over the nodes of a
    stack by the node counter of its anchor; the binary searches in the nodes
    of a tree by the number of elements; the descents are structural on the
    height; the loops that balance the metadata of the default allocator by
    the number of metadata blocks and of free blocks.  The specifications show that this fuel suffices.  An insertion
    into a tree allocates at most 65 blocks ([insert_room]), one for each
    level and a new root, since a tree has less than 65 levels.  The counter of
    internal nodes has 32 bits; removals are verified for trees of at most
    2^32 values, whose counter does not wrap, and the default allocator for
    files of at most 2^32 blocks.  An allocation of [n] blocks by the default
    allocator lets the file grow by at most [n] times three chunks and 26
    blocks ([demand]).  Hypotheses on sizes ([al_room], [log_room] and the
    like) say that the address space of 2^64 - 1 bytes is not exhausted.

    ** Not modelled

    The operating system files (src/vfs_unix.cpp, src/vfs_win32.cpp) and the
    memory mapped engine are system calls; the engines are verified for every
    file that satisfies [FileSpec].  Typed wrappers (handle.hpp and the class
    templates of the containers other than the tree) only serialize values
    around the functions modelled here.  Text output ([dump]), floating point statistics
    ([fill_factor], [overhead]) and exception messages are left out.  Of the
    B+ tree, validation and bulk loading are not modelled, of the default
    allocator the validation.  Lists, hash tables and heaps are not modelled;
    they are clients of the allocator interface of Allocator.v. *)

From stdpp Require Export list gmap fin_maps.
From Stdlib Require Export ZArith Lia.
From Stdlib Require Import Strings.Byte.

#[global] Open Scope Z_scope.

(** ** Exceptions

    The exception classes of include/prequel/exception.hpp, together with
    [std::overflow_error] (thrown by the checked arithmetic of math.hpp) and
    the two ways the program aborts: [assert_failure] for PREQUEL_ASSERT and
    PREQUEL_CONSTEXPR_ASSERT (debug builds only) and [check_failure] for
    PREQUEL_CHECK / PREQUEL_ABORT.  [exception] is the base class, thrown as
    such by id_generator. *)
Inductive error : Set :=
  | exception
  | bad_alloc
  | corruption_error
  | unsupported
  | io_error
  | bad_operation
  | bad_cursor
  | bad_argument
  | overflow_error
  | assert_failure
  | check_failure.

#[global] Instance error_eq_dec : EqDecision error.
Proof. solve_decision. Defined.

Inductive result (A : Type) : Type :=
  | Ok (a : A)
  | Err (e : error).
Arguments Ok {A} a.
Arguments Err {A} e.

(** ** The state and error monad

    A C++ exception does not undo the assignments made before it was thrown,
    so a computation returns its final state in both cases. *)
Definition M (S A : Type) : Type := S -> S * result A.

Definition ret {S A} (a : A) : M S A := fun s => (s, Ok a).
Definition throw {S A} (e : error) : M S A := fun s => (s, Err e).
Definition bind {S A B} (m : M S A) (k : A -> M S B) : M S B :=
  fun s => match m s with
           | (s', Ok a) => k a s'
           | (s', Err e) => (s', Err e)
           end.
Definition get {S} : M S S := fun s => (s, Ok s).
Definition gets {S A} (f : S -> A) : M S A := fun s => (s, Ok (f s)).
Definition put {S} (s : S) : M S unit := fun _ => (s, Ok tt).
Definition modify {S} (f : S -> S) : M S unit := fun s => (f s, Ok tt).
Definition guard_else {S} (b : bool) (e : error) : M S unit :=
  if b then ret tt else throw e.
Definition lift_result {S A} (r : result A) : M S A := fun s => (s, r).

Declare Scope prequel_scope.
Delimit Scope prequel_scope with prequel.
#[global] Open Scope prequel_scope.

Notation "'let*' x ':=' m 'in' k" := (bind m (fun x => k))
  (at level 10, x pattern, m at level 100, k at level 200)
  : prequel_scope.
Notation "m ;;; k" := (bind m (fun _ => k))
  (at level 199, right associativity) : prequel_scope.
Notation "'assert!' b" := (guard_else b assert_failure) (at level 100) : prequel_scope.
Notation "'check!' b" := (guard_else b check_failure) (at level 100) : prequel_scope.

(** PREQUEL_THROW guarded by a condition: [throw_if c e] throws when [c]. *)
Definition throw_if {S} (c : bool) (e : error) : M S unit :=
  if c then throw e else ret tt.

Lemma bind_ok {S A B} (m : M S A) (k : A -> M S B) s s' a :
  m s = (s', Ok a) -> bind m k s = k a s'.
Proof. intros H. unfold bind. by rewrite H. Qed.

Lemma bind_err {S A B} (m : M S A) (k : A -> M S B) s s' e :
  m s = (s', Err e) -> bind m k s = (s', Err e).
Proof. intros H. unfold bind. by rewrite H. Qed.

Lemma bind_ok_inv {S A B} (m : M S A) (k : A -> M S B) s s'' b :
  bind m k s = (s'', Ok b) -> exists s' a, m s = (s', Ok a) /\ k a s' = (s'', Ok b).
Proof. unfold bind. destruct (m s) as [s' [a|e]]; naive_solver. Qed.

Lemma guard_true {S A} (b : bool) e (k : unit -> M S A) s :
  b = true -> bind (guard_else b e) k s = k tt s.
Proof. by intros ->. Qed.

Lemma guard_false {S A} (b : bool) e (k : unit -> M S A) s :
  b = false -> bind (guard_else b e) k s = (s, Err e).
Proof. by intros ->. Qed.

(** [wp m s Q]: [m] run in state [s] returns without an exception and its
    value and final state satisfy [Q] (total correctness). *)
Definition wp {S A} (m : M S A) (s : S) (Q : A -> S -> Prop) : Prop :=
  match m s with
  | (s', Ok a) => Q a s'
  | (_, Err _) => False
  end.

Section wp.
Context {S A : Type}.
Implicit Types (s : S) (Q : A -> S -> Prop).

Lemma wp_run (m : M S A) s Q : wp m s Q <-> exists s' a, m s = (s', Ok a) /\ Q a s'.
Proof. unfold wp. destruct (m s) as [s' [a|e]]; naive_solver. Qed.

Lemma wp_ret (a : A) s Q : Q a s -> wp (ret a) s Q.
Proof. done. Qed.

Lemma wp_bind {B} (m : M S B) (k : B -> M S A) s Q :
  wp m s (fun b s' => wp (k b) s' Q) -> wp (bind m k) s Q.
Proof. unfold wp, bind. by destruct (m s) as [s' [b|e]]. Qed.

Lemma wp_mono (m : M S A) s Q Q' :
  wp m s Q -> (forall a s', Q a s' -> Q' a s') -> wp m s Q'.
Proof. unfold wp. destruct (m s) as [s' [a|e]]; naive_solver. Qed.

Lemma wp_gets (f : S -> A) s Q : Q (f s) s -> wp (gets f) s Q.
Proof. done. Qed.

Lemma wp_lift_result (a : A) s Q : Q a s -> wp (lift_result (Ok a)) s Q.
Proof. done. Qed.
End wp.

Lemma wp_guard {S} b e (s : S) (Q : unit -> S -> Prop) :
  b = true -> Q tt s -> wp (guard_else b e) s Q.
Proof. by intros ->. Qed.

Lemma wp_throw_if {S} b e (s : S) (Q : unit -> S -> Prop) :
  b = false -> Q tt s -> wp (throw_if b e) s Q.
Proof. by intros ->. Qed.

Lemma wp_get {S} (s : S) (Q : S -> S -> Prop) : Q s s -> wp get s Q.
Proof. done. Qed.

Lemma wp_modify {S} (f : S -> S) s (Q : unit -> S -> Prop) : Q tt (f s) -> wp (modify f) s Q.
Proof. done. Qed.

(** One step of symbolic execution; arithmetic guards are left to [lia]. *)
Ltac wp_step :=
  lazymatch goal with
  | |- wp (bind _ _) _ _ => apply wp_bind
  | |- wp (ret _) _ _ => apply wp_ret
  | |- wp get _ _ => apply wp_get
  | |- wp (gets _) _ _ => apply wp_gets
  | |- wp (modify _) _ _ => apply wp_modify
  | |- wp (lift_result (Ok _)) _ _ => apply wp_lift_result
  | |- wp (guard_else _ _) _ _ => apply wp_guard; [try done; try lia|]
  | |- wp (throw_if _ _) _ _ => apply wp_throw_if; [try done; try lia|]
  end.
Ltac wp_steps := repeat (wp_step; cbn beta).

(** Running a computation on a component of a larger state. *)
Definition zoom {S T A} (view : S -> T) (upd : T -> S -> S) (m : M T A) : M S A :=
  fun s => let (t, r) := m (view s) in (upd t s, r).

Lemma wp_zoom {S T A} (view : S -> T) (upd : T -> S -> S) (m : M T A) s Q :
  wp m (view s) (fun a t => Q a (upd t s)) -> wp (zoom view upd m) s Q.
Proof. unfold wp, zoom. by destruct (m (view s)) as [t [a|e]]. Qed.

(** [wpx m s Q R] also covers the exceptions: [Q] holds when [m] returns, [R]
    holds of the error and of the state it leaves when [m] throws. *)
Definition wpx {S A} (m : M S A) (s : S) (Q : A -> S -> Prop) (R : error -> S -> Prop) : Prop :=
  match m s with
  | (s', Ok a) => Q a s'
  | (s', Err e) => R e s'
  end.

Section wpx.
Context {S A : Type}.
Implicit Types (s : S) (Q : A -> S -> Prop) (R : error -> S -> Prop).

Lemma wpx_ret (a : A) s Q R : Q a s -> wpx (ret a) s Q R.
Proof. done. Qed.

Lemma wpx_bind {B} (m : M S B) (k : B -> M S A) s Q R :
  wpx m s (fun b s' => wpx (k b) s' Q R) R -> wpx (bind m k) s Q R.
Proof. unfold wpx, bind. by destruct (m s) as [s' [b|e]]. Qed.

Lemma wpx_mono (m : M S A) s Q Q' R R' :
  wpx m s Q R -> (forall a s', Q a s' -> Q' a s') -> (forall e s', R e s' -> R' e s') ->
  wpx m s Q' R'.
Proof. unfold wpx. destruct (m s) as [s' [a|e]]; naive_solver. Qed.

Lemma wpx_gets (f : S -> A) s Q R : Q (f s) s -> wpx (gets f) s Q R.
Proof. done. Qed.

Lemma wpx_lift_result (a : A) s Q R : Q a s -> wpx (lift_result (Ok a)) s Q R.
Proof. done. Qed.

Lemma wpx_throw e s Q R : R e s -> wpx (@throw S A e) s Q R.
Proof. done. Qed.

Lemma wp_wpx (m : M S A) s Q R : wp m s Q -> wpx m s Q R.
Proof. unfold wp, wpx. by destruct (m s) as [s' [a|e]]. Qed.

Lemma wpx_wp (m : M S A) s Q : wpx m s Q (fun _ _ => False) -> wp m s Q.
Proof. done. Qed.
End wpx.

Lemma wpx_modify {S} (f : S -> S) s (Q : unit -> S -> Prop) R :
  Q tt (f s) -> wpx (modify f) s Q R.
Proof. done. Qed.

Lemma wpx_guard {S} b e (s : S) (Q : unit -> S -> Prop) R :
  b = true -> Q tt s -> wpx (guard_else b e) s Q R.
Proof. by intros ->. Qed.

Lemma wpx_throw_if {S} b e (s : S) (Q : unit -> S -> Prop) R :
  (b = true -> R e s) -> (b = false -> Q tt s) -> wpx (throw_if b e) s Q R.
Proof. destruct b; naive_solver. Qed.

Ltac wpx_step :=
  lazymatch goal with
  | |- wpx (bind _ _) _ _ _ => apply wpx_bind
  | |- wpx (ret _) _ _ _ => apply wpx_ret
  | |- wpx (throw _) _ _ _ => apply wpx_throw
  | |- wpx (gets _) _ _ _ => apply wpx_gets
  | |- wpx (modify _) _ _ _ => apply wpx_modify
  | |- wpx (lift_result (Ok _)) _ _ _ => apply wpx_lift_result
  | |- wpx (guard_else _ _) _ _ _ => apply wpx_guard; [try done|]
  | |- wpx (throw_if _ _) _ _ _ => apply wpx_throw_if; intros ?
  end.
Ltac wpx_steps := repeat (wpx_step; cbn beta).

Lemma wpx_zoom {S T A} (view : S -> T) (upd : T -> S -> S) (m : M T A) s Q R :
  wpx m (view s) (fun a t => Q a (upd t s)) (fun e t => R e (upd t s)) ->
  wpx (zoom view upd m) s Q R.
Proof. unfold wpx, zoom. by destruct (m (view s)) as [t [a|e]]. Qed.

(** A [deferred] guard that is disabled on the normal path: [cleanup] runs
    when [m] throws, then the exception continues. *)
Definition on_exception {S A} (m : M S A) (cleanup : M S unit) : M S A :=
  fun s => match m s with
           | (s', Ok a) => (s', Ok a)
           | (s', Err e) => (fst (cleanup s'), Err e)
           end.

Lemma wpx_on_exception {S A} (m : M S A) (cleanup : M S unit) s Q R :
  wpx m s Q (fun e s' => wp cleanup s' (fun _ s'' => R e s'')) ->
  wpx (on_exception m cleanup) s Q R.
Proof.
  unfold wpx, wp, on_exception. destruct (m s) as [s' [a|e]]; [done|].
  by destruct (cleanup s') as [s'' [[]|e']].
Qed.

(** ** Machine integers: values of [Z] with the wrap-around written out. *)
Definition u32_max : Z := 2 ^ 32 - 1.
Definition u64_max : Z := 2 ^ 64 - 1.
Definition wrap (w z : Z) : Z := z mod 2 ^ w.
Abbreviation u32 := (wrap 32).
Abbreviation u64 := (wrap 64).
Definition is_word (w z : Z) : Prop := 0 <= z < 2 ^ w.
Abbreviation is_u32 := (is_word 32).
Abbreviation is_u64 := (is_word 64).

Lemma wrap_small w z : is_word w z -> wrap w z = z.
Proof. unfold is_word, wrap. intros. by apply Z.mod_small. Qed.

Lemma wrap_word w z : 0 <= w -> is_word w (wrap w z).
Proof. intros. unfold is_word, wrap. apply Z.mod_pos_bound. lia. Qed.

(** ** Bytes *)
Abbreviation byte := Byte.byte.
Abbreviation bytes := (list Byte.byte).

Definition byte_val (b : byte) : Z := Z.of_N (Byte.to_N b).
Definition byte_of (z : Z) : byte :=
  match Byte.of_N (Z.to_N (z mod 256)) with Some b => b | None => x00 end.

#[global] Instance byte_eq_dec : EqDecision byte := Byte.byte_eq_dec.

Lemma byte_val_range b : 0 <= byte_val b < 256.
Proof. unfold byte_val. pose proof (Byte.to_N_bounded b). lia. Qed.

Lemma byte_val_of z : byte_val (byte_of z) = z mod 256.
Proof.
  unfold byte_val, byte_of. pose proof (Z.mod_pos_bound z 256 ltac:(lia)).
  destruct (Byte.of_N _) eqn:E.
  - apply Byte.to_of_N in E. rewrite E. lia.
  - apply Byte.of_N_None_iff in E. lia.
Qed.

Lemma byte_of_val b : byte_of (byte_val b) = b.
Proof.
  unfold byte_of, byte_val. pose proof (Byte.to_N_bounded b).
  rewrite Z.mod_small by lia. rewrite N2Z.id. by rewrite Byte.of_to_N.
Qed.

Lemma byte_val_inj a b : byte_val a = byte_val b -> a = b.
Proof. intros H. by rewrite <- (byte_of_val a), <- (byte_of_val b), H. Qed.

Definition zeros (n : Z) : bytes := replicate (Z.to_nat n) x00.

(** ** Ranges of lists, addressed with [Z] offsets

    [slice off n l] is what a memmove of [n] elements from [l + off] reads,
    [splice off x l] what a memmove of [x] to [l + off] leaves behind. *)
Abbreviation zlen l := (Z.of_nat (length l)).

Definition slice {A} (off n : Z) (l : list A) : list A :=
  take (Z.to_nat n) (drop (Z.to_nat off) l).

Definition splice {A} (off : Z) (x l : list A) : list A :=
  take (Z.to_nat off) l ++ x ++ drop (Z.to_nat off + length x) l.

Create Rewrite HintDb prequel_len.
#[export] Hint Rewrite @length_app @length_take @length_drop @length_replicate
  @length_insert @length_fmap @length_seq : prequel_len.

(** Asks for a proof of the first premise of [H] and specializes [H] with it. *)
Ltac premise H :=
  match type of H with
  | ?P -> _ => let Hp := fresh in assert P as Hp; [|specialize (H Hp); clear Hp]
  end.

(** Evaluates a closed decidable proposition. *)
Ltac by_decide := refine (bool_decide_unpack _ _); vm_compute; exact I.

(** Solves goals about lengths and offsets. *)
Ltac len := autorewrite with prequel_len in *; simpl in *; lia.

Section ranges.
Context {A : Type}.
Implicit Types (l x y : list A) (off n m : Z).

Lemma lookup_slice off n l (i : nat) :
  slice off n l !! i = if decide (Z.of_nat i < n) then l !! (Z.to_nat off + i)%nat else None.
Proof.
  unfold slice. case_decide.
  - rewrite lookup_take_lt by lia. apply lookup_drop.
  - apply lookup_take_ge. lia.
Qed.

Lemma lookup_splice off x l (i : nat) :
  0 <= off -> off + zlen x <= zlen l ->
  splice off x l !! i =
    if decide (off <= Z.of_nat i < off + zlen x) then x !! (i - Z.to_nat off)%nat else l !! i.
Proof.
  intros Ho Hl. unfold splice. case_decide.
  - rewrite lookup_app_r by len. rewrite lookup_app_l by len. f_equal. len.
  - destruct (decide (Z.of_nat i < off)).
    + rewrite lookup_app_l by len. apply lookup_take_lt. lia.
    + rewrite lookup_app_r by len. rewrite lookup_app_r by len.
      rewrite lookup_drop. f_equal. len.
Qed.

Lemma length_slice off n l :
  0 <= off -> 0 <= n -> off + n <= zlen l -> zlen (slice off n l) = n.
Proof. intros. unfold slice. len. Qed.

Lemma length_splice off x l :
  0 <= off -> off + zlen x <= zlen l -> length (splice off x l) = length l.
Proof. intros. unfold splice. len. Qed.

Lemma splice_nil off l : splice off [] l = l.
Proof. unfold splice. simpl. rewrite Nat.add_0_r. apply take_drop. Qed.

Lemma slice_all n l : n = zlen l -> slice 0 n l = l.
Proof. intros ->. unfold slice. simpl. rewrite Nat2Z.id. by rewrite firstn_all. Qed.

Lemma splice_all x l : length x = length l -> splice 0 x l = x.
Proof. intros H. unfold splice. simpl. rewrite H, drop_all. apply app_nil_r. Qed.

Lemma slice_zero off l : slice off 0 l = [].
Proof. done. Qed.

Lemma slice_splice_same off n x l :
  0 <= off -> off + zlen x <= zlen l -> n = zlen x -> slice off n (splice off x l) = x.
Proof.
  intros Ho Hl ->. apply list_eq. intros i. rewrite lookup_slice, lookup_splice by done.
  repeat case_decide; try lia.
  - f_equal. lia.
  - symmetry. apply lookup_ge_None. lia.
Qed.

Lemma slice_splice_disjoint off x l off' n :
  0 <= off -> off + zlen x <= zlen l -> 0 <= off' ->
  off' + n <= off \/ off + zlen x <= off' ->
  slice off' n (splice off x l) = slice off' n l.
Proof.
  intros Ho Hl Ho' Hd. apply list_eq. intros i.
  rewrite !lookup_slice. case_decide; [|done]. rewrite lookup_splice by done.
  case_decide; [lia|done].
Qed.

Lemma splice_splice_adjacent off x y l :
  0 <= off -> off + zlen x + zlen y <= zlen l ->
  splice (off + zlen x) y (splice off x l) = splice off (x ++ y) l.
Proof.
  intros Ho Hl. apply list_eq. intros i.
  rewrite lookup_splice by (rewrite ?length_splice by lia; lia).
  rewrite lookup_splice by lia. rewrite lookup_splice by len.
  rewrite length_app. repeat case_decide; try lia; try done.
  - rewrite lookup_app_r by lia. f_equal. lia.
  - by rewrite lookup_app_l by lia.
Qed.

Lemma splice_slice_id off n l :
  0 <= off -> 0 <= n -> off + n <= zlen l -> splice off (slice off n l) l = l.
Proof.
  intros. apply list_eq. intros i.
  rewrite lookup_splice by (rewrite ?length_slice; lia).
  case_decide as Hd; [|done]. rewrite length_slice in Hd by lia.
  rewrite lookup_slice, decide_True by lia. f_equal. lia.
Qed.

Lemma slice_add off n m l :
  0 <= off -> 0 <= n -> 0 <= m -> off + n <= zlen l ->
  slice off (n + m) l = slice off n l ++ slice (off + n) m l.
Proof.
  intros. apply list_eq. intros i. rewrite lookup_slice.
  assert (length (slice off n l) = Z.to_nat n) as Hn
    by (pose proof (length_slice off n l); lia).
  destruct (decide (Z.of_nat i < n)).
  - rewrite lookup_app_l by lia. rewrite lookup_slice.
    repeat case_decide; try lia. done.
  - rewrite lookup_app_r by lia. rewrite lookup_slice, Hn.
    repeat case_decide; try lia; [|done]. f_equal. lia.
Qed.

Lemma slice_slice off n off' n' l :
  0 <= off -> 0 <= off' -> off' + n' <= n ->
  slice off' n' (slice off n l) = slice (off + off') n' l.
Proof.
  intros. apply list_eq. intros i. rewrite !lookup_slice.
  repeat case_decide; try lia; [|done]. f_equal. lia.
Qed.

(** Splicing inside of a prefix. *)
Lemma slice_splice_prefix off x n l :
  0 <= off -> off + zlen x <= n -> n <= zlen l ->
  splice off x (slice 0 n l) = slice 0 n (splice off x l).
Proof.
  intros. apply list_eq. intros i. rewrite lookup_splice by (rewrite ?length_slice; lia).
  rewrite !lookup_slice. simpl. rewrite lookup_splice by lia.
  repeat case_decide; try lia; done.
Qed.

(** Splicing into one of the pieces of an append. *)
Lemma splice_app_l off x l1 l2 :
  0 <= off -> off + zlen x <= zlen l1 ->
  splice off x (l1 ++ l2) = splice off x l1 ++ l2.
Proof.
  intros. apply list_eq. intros i. rewrite lookup_splice by len.
  destruct (decide (i < length l1)%nat).
  - rewrite (lookup_app_l (splice off x l1)) by (rewrite length_splice by lia; lia).
    rewrite lookup_splice by lia. case_decide; [done|]. by rewrite lookup_app_l by lia.
  - rewrite (lookup_app_r (splice off x l1)) by (rewrite length_splice by lia; lia).
    rewrite length_splice by lia. case_decide; [lia|]. by rewrite lookup_app_r by lia.
Qed.

Lemma splice_app_r off x l1 l2 :
  zlen l1 <= off -> off + zlen x <= zlen l1 + zlen l2 ->
  splice off x (l1 ++ l2) = l1 ++ splice (off - zlen l1) x l2.
Proof.
  intros. apply list_eq. intros i. rewrite lookup_splice by len.
  destruct (decide (i < length l1)%nat).
  - rewrite lookup_app_l by lia. case_decide; [lia|]. by rewrite lookup_app_l by lia.
  - rewrite (lookup_app_r l1 (splice _ _ _)) by lia. rewrite lookup_splice by lia.
    repeat case_decide; try lia; [f_equal; lia|]. by rewrite lookup_app_r by lia.
Qed.

Lemma slice_app_l off n l1 l2 :
  0 <= off -> off + n <= zlen l1 -> slice off n (l1 ++ l2) = slice off n l1.
Proof.
  intros. apply list_eq. intros i. rewrite !lookup_slice.
  case_decide; [|done]. by rewrite lookup_app_l by lia.
Qed.

Lemma slice_app_r off n l1 l2 :
  zlen l1 <= off -> slice off n (l1 ++ l2) = slice (off - zlen l1) n l2.
Proof.
  intros. apply list_eq. intros i. rewrite !lookup_slice.
  case_decide; [|done]. rewrite lookup_app_r by lia. f_equal. lia.
Qed.
End ranges.

Lemma length_zeros n : 0 <= n -> zlen (zeros n) = n.
Proof. intros. unfold zeros. len. Qed.

Lemma zeros_add n m : 0 <= n -> 0 <= m -> zeros (n + m) = zeros n ++ zeros m.
Proof. intros. unfold zeros. rewrite Z2Nat.inj_add by lia. apply replicate_add. Qed.

(** *** Concatenations of lists of the same length *)

Lemma concat_values {A} vs (vals : list (list A)) : Forall (fun v => zlen v = vs) vals -> 0 <= vs ->
  zlen (concat vals) = vs * zlen vals.
Proof. intros Hf Hv. induction Hf; cbn; [lia|]. rewrite length_app. lia. Qed.

Lemma slice_concat {A} vs (vals : list (list A)) j v : Forall (fun v => zlen v = vs) vals -> 0 <= vs ->
  vals !! j = Some v -> slice (vs * Z.of_nat j) vs (concat vals) = v.
Proof.
  intros Hf Hv. revert j. induction Hf as [|x vals Hx Hf IH]; intros [|j]; cbn; try done.
  - intros [= ->]. replace (vs * Z.of_nat 0) with 0 by lia. rewrite slice_app_l by lia. by apply slice_all.
  - intros Hj. rewrite slice_app_r by nia. replace (vs * Z.of_nat (S j) - zlen x) with (vs * Z.of_nat j) by lia.
    by apply IH.
Qed.
