(* ===== verification/MathOps.v ===== *)
(** * Math functions (include/prequel/math.hpp) and the FNV-1a hash (src/hash.cpp)

    Every function is a template over an unsigned type; [w] is the width of
    that type in bits.  A value of the type is a [Z] below [2 ^ w]. *)

From S2P Require Import Prelude.

Definition range_in_bounds (size offset n : Z) : bool :=
  (offset <=? size) && (n <=? size - offset).

(** The loop [for (u64 i = 1; i < sizeof(T) * CHAR_BIT; i *= 2) v |= v >> i;]. *)
Fixpoint pow2_smear (fuel : nat) (w i v : Z) : Z :=
  match fuel with
  | O => v
  | S fuel => if i <? w then pow2_smear fuel w (2 * i) (Z.lor v (Z.shiftr v i)) else v
  end.

Definition round_towards_pow2 (w v : Z) : Z :=
  let v := wrap w (v - 1) in
  let v := pow2_smear (Z.to_nat w) w 1 v in
  wrap w (v + 1).

(** The loop [while (v >>= 1) ++log;] and the assertion [v != 0]. *)
Fixpoint log2_loop (fuel : nat) (w v log : Z) : Z :=
  match fuel with
  | O => log
  | S fuel =>
    let v := Z.shiftr v 1 in
    if v =? 0 then log else log2_loop fuel w v (wrap w (log + 1))
  end.

Definition log2 (w v : Z) : result Z :=
  if v =? 0 then Err assert_failure else Ok (log2_loop (Z.to_nat w) w v 0).

Definition is_pow2 (w v : Z) : bool :=
  negb (v =? 0) && (Z.land v (wrap w (v - 1)) =? 0).

Definition mod_pow2 (w a b : Z) : result Z :=
  if is_pow2 w b then Ok (Z.land a (wrap w (b - 1))) else Err assert_failure.

Definition is_aligned (w a b : Z) : result bool :=
  match mod_pow2 w a b with
  | Ok r => Ok (r =? 0)
  | Err e => Err e
  end.

Definition ceil_div (w a b : Z) : result Z :=
  if (b <=? 0) then Err assert_failure
  else Ok (wrap w (wrap w (a + b) - 1) / b).

(** Conversion to the signed type of the same width (two's complement). *)
Definition to_signed (w z : Z) : Z :=
  let z := wrap w z in if z <? 2 ^ (w - 1) then z else z - 2 ^ w.

Definition signed_difference (w a b : Z) : Z :=
  if b <=? a then to_signed w (a - b) else - to_signed w (b - a).

(** [__builtin_*_overflow] on an unsigned type. *)
Definition add_overflows (w a b : Z) : bool := negb (a + b <? 2 ^ w).
Definition sub_overflows (w a b : Z) : bool := a <? b.
Definition mul_overflows (w a b : Z) : bool := negb (a * b <? 2 ^ w).

Definition checked_add (w a b : Z) : result Z :=
  if add_overflows w a b then Err overflow_error else Ok (wrap w (a + b)).
Definition checked_sub (w a b : Z) : result Z :=
  if sub_overflows w a b then Err overflow_error else Ok (wrap w (a - b)).
Definition checked_mul (w a b : Z) : result Z :=
  if mul_overflows w a b then Err overflow_error else Ok (wrap w (a * b)).

(** src/hash.cpp *)
Definition fnv_magic_prime : Z := 0x00000100000001b3.
Definition fnv_1a (data : bytes) : Z :=
  fold_left (fun hash b => u64 (Z.lxor hash (byte_val b) * fnv_magic_prime)) data
            0xcbf29ce484222325.

(** ** round_towards_pow2 *)

(** After the smearing step with shift [i], bit [j] is set iff one of the
    [i] original bits starting at [j] is. *)
Definition smeared (v v' i : Z) : Prop :=
  0 <= v' /\ forall j, 0 <= j ->
    (Z.testbit v' j = true <-> exists k, 0 <= k < i /\ Z.testbit v (j + k) = true).

Lemma smeared_start v : 0 <= v -> smeared v v 1.
Proof.
  intros Hv. split; [done|]. intros j Hj. split.
  - intros H. exists 0. split; [lia|]. by rewrite Z.add_0_r.
  - intros (k & Hk & H). by replace (j + k) with j in H by lia.
Qed.

Lemma smeared_step v v' i :
  0 < i -> smeared v v' i -> smeared v (Z.lor v' (Z.shiftr v' i)) (2 * i).
Proof.
  intros Hi [Hv H]. split.
  { apply Z.lor_nonneg. split; [done|]. by apply Z.shiftr_nonneg. }
  intros j Hj. rewrite Z.lor_spec, Z.shiftr_spec by done. rewrite orb_true_iff, !H by lia.
  split.
  - intros [(k & Hk & Hb)|(k & Hk & Hb)].
    + exists k. split; [lia|done].
    + exists (i + k). split; [lia|]. by rewrite Z.add_assoc.
  - intros (k & Hk & Hb). destruct (decide (k < i)).
    + left. exists k. split; [lia|done].
    + right. exists (k - i). split; [lia|]. by replace (j + i + (k - i)) with (j + k) by lia.
Qed.

Lemma pow2_smear_smeared fuel w v : forall i v',
  0 < i -> smeared v v' i -> w <= i + Z.of_nat fuel ->
  exists i', w <= i' /\ smeared v (pow2_smear fuel w i v') i'.
Proof.
  induction fuel as [|fuel IH]; intros i v' Hi Hs Hw; simpl.
  { exists i. split; [lia|done]. }
  destruct (Z.ltb_spec i w) as [Hlt|Hge].
  - apply IH; [lia| |lia]. by apply smeared_step.
  - exists i. split; [lia|done].
Qed.

Lemma smeared_ones w v v' i :
  0 < v < 2 ^ w -> w <= i -> smeared v v' i -> v' = 2 ^ (Z.log2 v + 1) - 1.
Proof.
  intros Hv Hi [Hv' H]. pose proof (Z.log2_nonneg v).
  assert (Z.log2 v < w) as Hw by (apply Z.log2_lt_pow2; lia).
  replace (2 ^ (Z.log2 v + 1) - 1) with (Z.ones (Z.log2 v + 1))
    by (rewrite Z.ones_equiv; lia).
  apply Z.bits_inj'. intros j Hj. apply eq_true_iff_eq.
  rewrite H, Z.ones_spec_iff by lia. split.
  - intros (k & Hk & Hb). destruct (decide (j + k <= Z.log2 v)); [lia|].
    rewrite Z.bits_above_log2 in Hb by lia. done.
  - intros Hjl. exists (Z.log2 v - j). split; [lia|].
    replace (j + (Z.log2 v - j)) with (Z.log2 v) by lia. apply Z.bit_log2. lia.
Qed.

Lemma pow2_smear_spec w v :
  0 < w -> 0 < v < 2 ^ w ->
  pow2_smear (Z.to_nat w) w 1 v = 2 ^ (Z.log2 v + 1) - 1.
Proof.
  intros Hw Hv.
  destruct (pow2_smear_smeared (Z.to_nat w) w v 1 v) as (i & Hi & Hs);
    [lia|apply smeared_start; lia|lia|].
  by eapply smeared_ones.
Qed.

Lemma pow2_smear_zero fuel w : forall i, pow2_smear fuel w i 0 = 0.
Proof.
  induction fuel as [|fuel IH]; intros i; simpl; [done|].
  destruct (i <? w); [|done]. by rewrite Z.shiftr_0_l.
Qed.

Lemma log2_pred v : 1 < v -> Z.log2 (v - 1) + 1 = Z.log2_up v.
Proof. intros. unfold Z.log2_up. rewrite Z.sub_1_r. destruct (Z.compare_spec 1 v); lia. Qed.

(** [round_towards_pow2] on every input: zero stays zero, up to half the
    range the result is the least power of two above the input, beyond that
    the result does not fit and wraps to zero. *)
Lemma round_towards_pow2_eq w v :
  0 < w -> is_word w v ->
  round_towards_pow2 w v =
    if v =? 0 then 0 else if v <=? 2 ^ (w - 1) then 2 ^ Z.log2_up v else 0.
Proof.
  unfold is_word. intros Hw Hv. unfold round_towards_pow2.
  assert (2 ^ w = 2 * 2 ^ (w - 1)) as Hp
    by (rewrite <- Z.pow_succ_r by lia; f_equal; lia).
  pose proof (Z.pow_pos_nonneg 2 (w - 1) ltac:(lia) ltac:(lia)).
  destruct (Z.eqb_spec v 0) as [->|Hv0].
  { replace (wrap w (0 - 1)) with (2 ^ w - 1)
      by (unfold wrap; rewrite <- (Z.mod_add _ 1), Z.mod_small by lia; lia).
    rewrite pow2_smear_spec by lia.
    replace (Z.log2 (2 ^ w - 1)) with (w - 1).
    2:{ symmetry. apply Z.log2_unique; [lia|]. replace (Z.succ (w - 1)) with w by lia. lia. }
    replace (w - 1 + 1) with w by lia. unfold wrap.
    replace (2 ^ w - 1 + 1) with (2 ^ w) by lia. apply Z.mod_same. lia. }
  rewrite (wrap_small w (v - 1)) by (unfold is_word; lia).
  destruct (decide (v = 1)) as [->|Hv1].
  { rewrite pow2_smear_zero. destruct (Z.leb_spec 1 (2 ^ (w - 1))); [|lia].
    change (2 ^ Z.log2_up 1) with (0 + 1). apply wrap_small. unfold is_word. lia. }
  rewrite pow2_smear_spec by lia. rewrite log2_pred by lia.
  replace (2 ^ Z.log2_up v - 1 + 1) with (2 ^ Z.log2_up v) by lia.
  destruct (Z.leb_spec v (2 ^ (w - 1))).
  - apply wrap_small. unfold is_word. split; [apply Z.pow_nonneg; lia|].
    apply Z.pow_lt_mono_r; [lia|lia|]. apply Z.log2_up_le_pow2 in H0; lia.
  - replace (Z.log2_up v) with w; [apply Z.mod_same; lia|].
    symmetry. apply Z.log2_up_unique; [lia|]. replace (Z.pred w) with (w - 1) by lia. lia.
Qed.

(** ** log2, is_pow2, mod_pow2 *)

Lemma log2_loop_spec fuel w : forall v log,
  0 < v -> 0 <= log -> Z.log2 v <= Z.of_nat fuel -> log + Z.log2 v < 2 ^ w ->
  log2_loop fuel w v log = log + Z.log2 v.
Proof.
  induction fuel as [|fuel IH]; intros v log Hv Hlog Hf Hw; simpl.
  { pose proof (Z.log2_nonneg v). lia. }
  pose proof (Z.log2_shiftr v 1 Hv) as Hs.
  assert (0 <= Z.shiftr v 1) by (apply Z.shiftr_nonneg; lia).
  destruct (Z.eqb_spec (Z.shiftr v 1) 0) as [Hz|Hnz].
  - apply Z.shiftr_eq_0_iff in Hz as [->|[_ Hz]]; [lia|]. pose proof (Z.log2_nonneg v). lia.
  - assert (1 <= Z.log2 v).
    { apply Z.log2_le_pow2; [lia|]. rewrite Z.pow_1_r.
      destruct (decide (v = 1)) as [->|]; [done|lia]. }
    rewrite IH; rewrite ?wrap_small; unfold is_word; lia.
Qed.

Lemma log2_spec w v :
  0 < w -> is_word w v -> log2 w v = if v =? 0 then Err assert_failure else Ok (Z.log2 v).
Proof.
  unfold is_word. intros Hw Hv. unfold log2. destruct (Z.eqb_spec v 0); [done|].
  assert (Z.log2 v < w) by (apply Z.log2_lt_pow2; lia).
  pose proof (Z.pow_gt_lin_r 2 w ltac:(lia) ltac:(lia)).
  rewrite log2_loop_spec by lia. done.
Qed.

Lemma land_pred_pow2 v :
  0 < v -> Z.land v (v - 1) = 0 <-> v = 2 ^ Z.log2 v.
Proof.
  intros Hv. pose proof (Z.log2_spec v Hv) as Hl. pose proof (Z.log2_nonneg v).
  split.
  - intros Hz. destruct (decide (v = 2 ^ Z.log2 v)) as [|Hne]; [done|exfalso].
    assert (Z.log2 (v - 1) = Z.log2 v) as Hl' by (apply Z.log2_unique; lia).
    assert (Z.testbit (Z.land v (v - 1)) (Z.log2 v) = true) as Hb.
    { rewrite Z.land_spec, Z.bit_log2 by lia. rewrite <- Hl'.
      rewrite Z.bit_log2 by lia. done. }
    rewrite Hz, Z.bits_0 in Hb. done.
  - intros Hp. rewrite Hp.
    replace (2 ^ Z.log2 v - 1) with (Z.ones (Z.log2 v)) by (rewrite Z.ones_equiv; lia).
    rewrite Z.land_ones by lia. apply Z.mod_same. lia.
Qed.

Lemma is_pow2_spec w v :
  0 < w -> is_word w v -> is_pow2 w v = true <-> exists k, 0 <= k < w /\ v = 2 ^ k.
Proof.
  unfold is_word. intros Hw Hv. unfold is_pow2.
  rewrite andb_true_iff, negb_true_iff, Z.eqb_neq, Z.eqb_eq. split.
  - intros [Hne Hz]. rewrite wrap_small in Hz by (unfold is_word; lia).
    apply land_pred_pow2 in Hz; [|lia]. exists (Z.log2 v).
    pose proof (Z.log2_nonneg v). split; [|done]. split; [done|].
    apply Z.log2_lt_pow2; lia.
  - intros (k & Hk & ->). pose proof (Z.pow_pos_nonneg 2 k ltac:(lia) ltac:(lia)).
    rewrite wrap_small by (unfold is_word; lia). split; [lia|].
    apply land_pred_pow2; [lia|]. by rewrite Z.log2_pow2 by lia.
Qed.

Lemma mod_pow2_spec w a b :
  0 < w -> is_word w b ->
  mod_pow2 w a b = if is_pow2 w b then Ok (a mod b) else Err assert_failure.
Proof.
  intros Hw Hb. unfold mod_pow2. destruct (is_pow2 w b) eqn:E; [|done].
  apply is_pow2_spec in E as (k & Hk & ->); [|done..].
  pose proof (Z.pow_pos_nonneg 2 k ltac:(lia) ltac:(lia)).
  rewrite wrap_small by (unfold is_word in *; lia).
  rewrite <- Z.land_ones by lia. by rewrite Z.ones_equiv, Z.sub_1_r.
Qed.

(** ** ceil_div and the checked operations *)

Lemma ceil_div_spec w a b :
  is_word w a -> is_word w b -> 0 < b -> a + b - 1 < 2 ^ w ->
  exists q, ceil_div w a b = Ok q /\ b * (q - 1) < a <= b * q.
Proof.
  unfold is_word. intros Ha Hb Hb0 Hov. unfold ceil_div.
  destruct (Z.leb_spec b 0); [lia|]. eexists. split; [done|].
  assert (wrap w (wrap w (a + b) - 1) = a + b - 1) as ->.
  { unfold wrap. rewrite Zminus_mod_idemp_l. apply Z.mod_small. lia. }
  pose proof (Z.div_mod (a + b - 1) b ltac:(lia)).
  pose proof (Z.mod_pos_bound (a + b - 1) b ltac:(lia)). nia.
Qed.

Lemma checked_add_spec w a b :
  is_word w a -> is_word w b ->
  checked_add w a b = if a + b <? 2 ^ w then Ok (a + b) else Err overflow_error.
Proof.
  unfold is_word. intros. unfold checked_add, add_overflows.
  destruct (Z.ltb_spec (a + b) (2 ^ w)); simpl; [|done].
  rewrite wrap_small; [done|]. unfold is_word. lia.
Qed.

Lemma checked_mul_spec w a b :
  is_word w a -> is_word w b ->
  checked_mul w a b = if a * b <? 2 ^ w then Ok (a * b) else Err overflow_error.
Proof.
  unfold is_word. intros. unfold checked_mul, mul_overflows.
  destruct (Z.ltb_spec (a * b) (2 ^ w)); simpl; [|done].
  rewrite wrap_small; [done|]. unfold is_word. nia.
Qed.

(** ** Properties *)

(** C39: For every width [w] and every [v] between 1 and [2 ^ (w - 1)],
    [round_towards_pow2] returns the least power of two that is not smaller
    than [v], the result is accepted by [is_pow2], and [log2] computes its
    exponent. *)
Theorem round_towards_pow2_correct w v :
  0 < w -> is_word w v -> 1 <= v <= 2 ^ (w - 1) ->
  exists k, 0 <= k < w /\ round_towards_pow2 w v = 2 ^ k /\ v <= 2 ^ k /\
    (forall k', 0 <= k' -> v <= 2 ^ k' -> 2 ^ k <= 2 ^ k') /\
    is_pow2 w (round_towards_pow2 w v) = true /\
    log2 w (round_towards_pow2 w v) = Ok k.
Proof.
  intros Hw Hv Hr. rewrite round_towards_pow2_eq by done.
  destruct (Z.eqb_spec v 0); [lia|]. destruct (Z.leb_spec v (2 ^ (w - 1))); [|lia].
  exists (Z.log2_up v). pose proof (Z.log2_up_nonneg v).
  assert (Z.log2_up v <= w - 1) by (apply Z.log2_up_le_pow2; lia).
  pose proof (Z.pow_lt_mono_r 2 (Z.log2_up v) w ltac:(lia) ltac:(lia) ltac:(lia)).
  assert (is_word w (2 ^ Z.log2_up v)) by (unfold is_word; split; [apply Z.pow_nonneg; lia|lia]).
  split_and!; [lia|lia|done|apply Z.log2_up_le_pow2; lia| | |].
  - intros k' Hk' Hle. apply Z.pow_le_mono_r; [lia|]. by apply Z.log2_up_le_pow2; [lia|].
  - apply is_pow2_spec; [done..|]. exists (Z.log2_up v). split; [lia|done].
  - rewrite log2_spec by done. destruct (Z.eqb_spec (2 ^ Z.log2_up v) 0); [lia|].
    by rewrite Z.log2_pow2 by lia.
Qed.

Lemma round_towards_pow2_correct_witness :
  exists k, 0 <= k < 64 /\ round_towards_pow2 64 1000 = 2 ^ k /\ 1000 <= 2 ^ k /\
    (forall k', 0 <= k' -> 1000 <= 2 ^ k' -> 2 ^ k <= 2 ^ k') /\
    is_pow2 64 (round_towards_pow2 64 1000) = true /\
    log2 64 (round_towards_pow2 64 1000) = Ok k.
Proof. apply (round_towards_pow2_correct 64 1000); unfold is_word; lia. Defined.
