(* ===== verification/Serialization.v ===== *)
(** * Binary serialization (include/prequel/serialization.hpp, binary_format.hpp)

    The C++ code selects a serializer by the static type of the value.  The
    types it supports form the inductive type [ty], a value is an untyped
    [value] and [has_type] relates them.  [serialize] and [deserialize] follow
    the serializer templates constructor by constructor.

    The size of a C++ object in memory ([sizeof], used for the storage of
    variants) is decided by the compiler: it is a parameter of the section. *)

From S2P Require Import Prelude MathOps.
From Stdlib Require Import Strings.Byte.

(** ** Big endian integers: [native_to_big_inplace] followed by memcpy *)

Fixpoint be_encode (n : nat) (z : Z) : bytes :=
  match n with
  | O => []
  | S n => byte_of (z / 256 ^ Z.of_nat n) :: be_encode n z
  end.

Definition be_decode (b : bytes) : Z :=
  fold_left (fun acc c => acc * 256 + byte_val c) b 0.

Lemma length_be_encode n z : length (be_encode n z) = n.
Proof. induction n; simpl; congruence. Qed.
#[export] Hint Rewrite length_be_encode : prequel_len.

Lemma be_decode_from b : forall acc,
  fold_left (fun acc c => acc * 256 + byte_val c) b acc =
    acc * 256 ^ zlen b + be_decode b.
Proof.
  unfold be_decode. induction b as [|c b IH]; intros acc; cbn [fold_left length].
  { change (256 ^ Z.of_nat 0) with 1. lia. }
  rewrite (IH (acc * 256 + _)), (IH (0 * 256 + _)). rewrite Nat2Z.inj_succ, Z.pow_succ_r by lia. lia.
Qed.

Lemma be_decode_cons c b : be_decode (c :: b) = byte_val c * 256 ^ zlen b + be_decode b.
Proof. unfold be_decode at 1. simpl. apply be_decode_from. Qed.

Lemma be_decode_range b : 0 <= be_decode b < 256 ^ zlen b.
Proof.
  induction b as [|c b IH]; [done|].
  rewrite be_decode_cons. pose proof (byte_val_range c).
  cbn -[Z.pow Z.of_nat]. rewrite Nat2Z.inj_succ, Z.pow_succ_r by lia. nia.
Qed.

Lemma be_decode_encode n z : be_decode (be_encode n z) = z mod 256 ^ Z.of_nat n.
Proof.
  induction n as [|n IH]; [by rewrite Z.mod_1_r|].
  cbn [be_encode]. rewrite be_decode_cons, length_be_encode, IH, byte_val_of.
  pose proof (Z.pow_pos_nonneg 256 (Z.of_nat n) ltac:(lia) ltac:(lia)).
  rewrite Nat2Z.inj_succ, Z.pow_succ_r by lia.
  rewrite (Z.mul_comm 256), Z.rem_mul_r by lia. lia.
Qed.

Lemma be_decode_encode_small n z :
  0 <= z < 256 ^ Z.of_nat n -> be_decode (be_encode n z) = z.
Proof. intros. rewrite be_decode_encode. by apply Z.mod_small. Qed.

(** Only the low [n] bytes of a value are encoded. *)
Lemma be_encode_high n m k z :
  Z.of_nat n <= m -> be_encode n (k * 256 ^ m + z) = be_encode n z.
Proof.
  induction n as [|n IHn]; intros Hn; [done|]. cbn [be_encode]. f_equal; [|apply IHn; lia].
  apply byte_val_inj. rewrite !byte_val_of.
  replace m with (Z.of_nat n + Z.succ (m - Z.of_nat n - 1)) by lia.
  rewrite Z.pow_add_r, Z.pow_succ_r by lia.
  set (p := 256 ^ (m - Z.of_nat n - 1)).
  replace (k * (256 ^ Z.of_nat n * (256 * p)) + z)
    with (k * p * 256 * 256 ^ Z.of_nat n + z) by lia.
  pose proof (Z.pow_pos_nonneg 256 (Z.of_nat n) ltac:(lia) ltac:(lia)).
  rewrite Z.div_add_l, Z.add_comm by lia. apply Z.mod_add. lia.
Qed.

Lemma be_encode_decode b : be_encode (length b) (be_decode b) = b.
Proof.
  induction b as [|c b IH]; [done|]. cbn [length be_encode].
  pose proof (be_decode_range b). pose proof (byte_val_range c).
  pose proof (Z.pow_pos_nonneg 256 (zlen b) ltac:(lia) ltac:(lia)).
  rewrite be_decode_cons, be_encode_high, IH by lia. f_equal.
  apply byte_val_inj. rewrite byte_val_of.
  rewrite Z.div_add_l, (Z.div_small (be_decode b)), Z.add_0_r by lia.
  by apply Z.mod_small.
Qed.

(** ** The serializable types *)

#[warnings="-register-all"]
Inductive ty : Set :=
  | t_byte                    (* char, signed char, unsigned char, u8, i8: memcpy *)
  | t_uint (size : nat)       (* u16, u32, u64 *)
  | t_int (size : nat)        (* i16, i32, i64 *)
  | t_float (size : nat)      (* float, double: copied into an unsigned value *)
  | t_bool
  | t_array (n : nat) (t : ty)        (* T[N], std::array<T, N> *)
  | t_pair (t1 t2 : ty)
  | t_tuple (ts : list ty)
  | t_enum (underlying : ty)
  | t_optional (t : ty)
  | t_variant (ts : list ty)
  | t_monostate
  | t_struct (fields : list ty).      (* types with get_binary_format() *)

#[warnings="-register-all"]
Inductive value : Set :=
  | v_int (z : Z)
  | v_bool (b : bool)
  | v_seq (vs : list value)           (* arrays, pairs, tuples and structs *)
  | v_none
  | v_some (v : value)
  | v_alt (index : nat) (v : value)
  | v_valueless                       (* valueless_by_exception() *)
  | v_unit.

Section ty_ind.
Variable P : ty -> Prop.
Hypothesis Hbyte : P t_byte.
Hypothesis Huint : forall n, P (t_uint n).
Hypothesis Hint : forall n, P (t_int n).
Hypothesis Hfloat : forall n, P (t_float n).
Hypothesis Hbool : P t_bool.
Hypothesis Harray : forall n t, P t -> P (t_array n t).
Hypothesis Hpair : forall t1 t2, P t1 -> P t2 -> P (t_pair t1 t2).
Hypothesis Htuple : forall ts, Forall P ts -> P (t_tuple ts).
Hypothesis Henum : forall t, P t -> P (t_enum t).
Hypothesis Hoptional : forall t, P t -> P (t_optional t).
Hypothesis Hvariant : forall ts, Forall P ts -> P (t_variant ts).
Hypothesis Hmonostate : P t_monostate.
Hypothesis Hstruct : forall ts, Forall P ts -> P (t_struct ts).

Fixpoint ty_nested_ind (t : ty) : P t :=
  let all := fix all (ts : list ty) : Forall P ts :=
    match ts with
    | [] => @Forall_nil_2 _ P
    | t :: ts => @Forall_cons_2 _ P t ts (ty_nested_ind t) (all ts)
    end in
  match t with
  | t_byte => Hbyte
  | t_uint n => Huint n
  | t_int n => Hint n
  | t_float n => Hfloat n
  | t_bool => Hbool
  | t_array n t => Harray n t (ty_nested_ind t)
  | t_pair t1 t2 => Hpair t1 t2 (ty_nested_ind t1) (ty_nested_ind t2)
  | t_tuple ts => Htuple ts (all ts)
  | t_enum t => Henum t (ty_nested_ind t)
  | t_optional t => Hoptional t (ty_nested_ind t)
  | t_variant ts => Hvariant ts (all ts)
  | t_monostate => Hmonostate
  | t_struct ts => Hstruct ts (all ts)
  end.
End ty_ind.

#[local] Arguments Nat.leb : simpl never.
#[local] Arguments Z.of_nat : simpl never.
#[local] Arguments Z.mul : simpl never.
#[local] Arguments Z.pow : simpl never.

Section Serializer.
(** In-memory size of a type, chosen by the compiler. *)
Context (sizeof : ty -> nat).

Definition sum_nat (l : list nat) : nat := foldr Nat.add 0%nat l.
Definition max_nat (l : list nat) : nat := foldr Nat.max 0%nat l.

(** [max_size<T...>()] *)
Definition max_size (ts : list ty) : nat := max_nat (map sizeof ts).

Fixpoint serialized_size (t : ty) : nat :=
  match t with
  | t_byte => 1
  | t_uint n | t_int n | t_float n => n
  | t_bool => 1
  | t_array n t => n * serialized_size t
  | t_pair t1 t2 => serialized_size t1 + serialized_size t2
  | t_tuple ts | t_struct ts => sum_nat (map serialized_size ts)
  | t_enum t => serialized_size t
  | t_optional t => 1 + serialized_size t
  | t_variant ts => 1 + max_size ts
  | t_monostate => 0
  end%nat.

(** The elements of a sequence are serialized one after the other, every
    element behind its predecessor ([b = serialize_impl(elem, b)]). *)
Fixpoint serialize_seq (fs : list (value -> result bytes)) (vs : list value) : result bytes :=
  match fs, vs with
  | f :: fs, v :: vs =>
    match f v with
    | Err e => Err e
    | Ok b =>
      match serialize_seq fs vs with
      | Err e => Err e
      | Ok bs => Ok (b ++ bs)
      end
    end
  | _, _ => Ok []
  end.

Fixpoint deserialize_seq (fs : list (nat * (bytes -> result value))) (b : bytes)
  : result (list value) :=
  match fs with
  | [] => Ok []
  | (size, f) :: fs =>
    match f b with
    | Err e => Err e
    | Ok v =>
      match deserialize_seq fs (drop size b) with
      | Err e => Err e
      | Ok vs => Ok (v :: vs)
      end
    end
  end.

(** The switch over the alternatives of a variant. *)
Fixpoint serialize_alt (fs : list (value -> result bytes)) (i : nat) (v : value)
  : result bytes :=
  match fs, i with
  | f :: _, O => f v
  | _ :: fs, S i => serialize_alt fs i v
  | [], _ => Ok []
  end.

Fixpoint deserialize_alt (fs : list (bytes -> result value)) (i : nat) (b : bytes)
  : result value :=
  match fs, i with
  | f :: _, O => f b
  | _ :: fs, S i => deserialize_alt fs i b
  | [], _ => Err corruption_error
  end.

(** The bytes written to the buffer; a value that does not have the type
    is rejected by the C++ compiler and yields no bytes here. *)
Fixpoint serialize (t : ty) (v : value) : result bytes :=
  match t, v with
  | t_byte, v_int z => Ok [byte_of z]
  | t_uint n, v_int z | t_int n, v_int z | t_float n, v_int z => Ok (be_encode n z)
  | t_bool, v_bool b => Ok [if b then x01 else x00]
  | t_array n t, v_seq vs => serialize_seq (replicate n (serialize t)) vs
  | t_pair t1 t2, v_seq vs => serialize_seq [serialize t1; serialize t2] vs
  | t_tuple ts, v_seq vs | t_struct ts, v_seq vs => serialize_seq (map serialize ts) vs
  | t_enum t, v => serialize t v
  | t_optional t, v_some v =>
    match serialize t v with
    | Ok b => Ok (x01 :: b)
    | Err e => Err e
    end
  | t_optional t, v_none => Ok (replicate (1 + serialized_size t) x00)
  | t_variant ts, v_valueless => Err bad_argument
  | t_variant ts, v_alt i v =>
    match serialize_alt (map serialize ts) i v with
    | Ok b => Ok (byte_of (Z.of_nat i) :: b ++ replicate (max_size ts - length b) x00)
    | Err e => Err e
    end
  | _, _ => Ok []
  end.

Fixpoint deserialize (t : ty) (b : bytes) : result value :=
  match t with
  | t_byte => Ok (v_int (be_decode (take 1 b)))
  | t_uint n | t_float n => Ok (v_int (be_decode (take n b)))
  | t_int n => Ok (v_int (to_signed (8 * Z.of_nat n) (be_decode (take n b))))
  | t_bool => Ok (v_bool (negb (be_decode (take 1 b) =? 0)))
  | t_array n t =>
    match deserialize_seq (replicate n (serialized_size t, deserialize t)) b with
    | Ok vs => Ok (v_seq vs)
    | Err e => Err e
    end
  | t_pair t1 t2 =>
    match deserialize_seq [(serialized_size t1, deserialize t1); (serialized_size t2, deserialize t2)] b with
    | Ok vs => Ok (v_seq vs)
    | Err e => Err e
    end
  | t_tuple ts | t_struct ts =>
    match deserialize_seq (map (fun t => (serialized_size t, deserialize t)) ts) b with
    | Ok vs => Ok (v_seq vs)
    | Err e => Err e
    end
  | t_enum t => deserialize t b
  | t_optional t =>
    let flag := be_decode (take 1 b) in
    if flag =? 0 then Ok v_none
    else if flag =? 1 then
      match deserialize t (drop 1 b) with
      | Ok v => Ok (v_some v)
      | Err e => Err e
      end
    else Err corruption_error
  | t_variant ts =>
    let which := be_decode (take 1 b) in
    if which <? zlen ts then
      match deserialize_alt (map deserialize ts) (Z.to_nat which) (drop 1 b) with
      | Ok v => Ok (v_alt (Z.to_nat which) v)
      | Err e => Err e
      end
    else Err corruption_error
  | t_monostate => Ok v_unit
  end.

(** ** Types and values of the C++ program *)

Fixpoint seq_has_type (ps : list (value -> bool)) (vs : list value) : bool :=
  match ps, vs with
  | [], [] => true
  | p :: ps, v :: vs => p v && seq_has_type ps vs
  | _, _ => false
  end.

Fixpoint alt_has_type (ps : list (value -> bool)) (i : nat) (v : value) : bool :=
  match ps, i with
  | p :: _, O => p v
  | _ :: ps, S i => alt_has_type ps i v
  | [], _ => false
  end.

Fixpoint has_type (t : ty) (v : value) : bool :=
  match t, v with
  | t_byte, v_int z => (0 <=? z) && (z <? 256)
  | t_uint n, v_int z | t_float n, v_int z => (0 <=? z) && (z <? 256 ^ Z.of_nat n)
  | t_int n, v_int z =>
    (- 2 ^ (8 * Z.of_nat n - 1) <=? z) && (z <? 2 ^ (8 * Z.of_nat n - 1))
  | t_bool, v_bool _ => true
  | t_array n t, v_seq vs => seq_has_type (replicate n (has_type t)) vs
  | t_pair t1 t2, v_seq vs => seq_has_type [has_type t1; has_type t2] vs
  | t_tuple ts, v_seq vs | t_struct ts, v_seq vs => seq_has_type (map has_type ts) vs
  | t_enum t, v => has_type t v
  | t_optional _, v_none => true
  | t_optional t, v_some v => has_type t v
  | t_variant ts, v_alt i v => alt_has_type (map has_type ts) i v
  | t_monostate, v_unit => true
  | _, _ => false
  end.

(** What the static assertions of the header and the listing of every
    member "exactly once" give: integer sizes are positive, a variant has
    at most 16 alternatives and none of them serializes to more bytes than
    the object occupies in memory. *)
Fixpoint wf_ty (t : ty) : bool :=
  match t with
  | t_byte | t_bool | t_monostate => true
  | t_uint n | t_int n | t_float n => (1 <=? n)%nat
  | t_array _ t | t_enum t | t_optional t => wf_ty t
  | t_pair t1 t2 => wf_ty t1 && wf_ty t2
  | t_tuple ts | t_struct ts => forallb wf_ty ts
  | t_variant ts =>
    (length ts <=? 16)%nat && forallb (fun t => wf_ty t && (serialized_size t <=? sizeof t)%nat) ts
  end.

(** ** Members of structs: [serialized_offset], [deserialize_member], [serialize_member]

    A path of member pointers is a list of field positions. *)

(** The loop of [serialized_offset_impl] over the fields of the format. *)
Fixpoint serialized_offset_impl (fields : list ty) (field : nat) : option nat :=
  match fields, field with
  | [], _ => None
  | _ :: _, O => Some 0%nat
  | t :: fields, S field =>
    match serialized_offset_impl fields field with
    | Some off => Some (serialized_size t + off)%nat
    | None => None
    end
  end.

Fixpoint serialized_offset (t : ty) (path : list nat) : option nat :=
  match path with
  | [] => Some 0%nat
  | i :: path =>
    match t with
    | t_struct fields =>
      match serialized_offset_impl fields i, fields !! i with
      | Some off, Some ft =>
        match serialized_offset ft path with
        | Some off' => Some (off + off')%nat
        | None => None
        end
      | _, _ => None
      end
    | _ => None
    end
  end.

Fixpoint member_type (t : ty) (path : list nat) : option ty :=
  match path, t with
  | [], _ => Some t
  | i :: path, t_struct fields =>
    match fields !! i with Some ft => member_type ft path | None => None end
  | _, _ => None
  end.

Fixpoint get_member (v : value) (path : list nat) : option value :=
  match path, v with
  | [], _ => Some v
  | i :: path, v_seq vs =>
    match vs !! i with Some v => get_member v path | None => None end
  | _, _ => None
  end.

Fixpoint set_member (v : value) (path : list nat) (new : value) : value :=
  match path, v with
  | [], _ => new
  | i :: path, v_seq vs =>
    match vs !! i with Some w => v_seq (<[i := set_member w path new]> vs) | None => v end
  | _, _ => v
  end.

(** The assertion checks [offset <= object_size - serialized_size<member_type>()]. *)
Definition deserialize_member (t : ty) (path : list nat) (b : bytes) : result value :=
  match serialized_offset t path, member_type t path with
  | Some off, Some mt =>
    if (off <=? serialized_size t - serialized_size mt)%nat
    then deserialize mt (drop off b) else Err assert_failure
  | _, _ => Err assert_failure
  end.

Definition serialize_member (t : ty) (path : list nat) (new : value) (b : bytes) : result bytes :=
  match serialized_offset t path, member_type t path with
  | Some off, Some mt =>
    if (off <=? serialized_size t - serialized_size mt)%nat then
      match serialize mt new with
      | Ok nb => Ok (splice (Z.of_nat off) nb b)
      | Err e => Err e
      end
    else Err assert_failure
  | _, _ => Err assert_failure
  end.

(** ** Round trip *)

(** A serializer with its size, its two directions and its type. *)
Record codec : Type := Codec {
  c_size : nat;
  c_ser : value -> result bytes;
  c_des : bytes -> result value;
  c_typ : value -> bool
}.

Definition codec_of (t : ty) : codec :=
  Codec (serialized_size t) (serialize t) (deserialize t) (has_type t).

Definition roundtrips (c : codec) : Prop := forall v,
  c_typ c v = true -> exists b,
    c_ser c v = Ok b /\ length b = c_size c /\ forall rest, c_des c (b ++ rest) = Ok v.

Definition sound (c : codec) : Prop := forall b,
  (c_size c <= length b)%nat ->
  match c_des c b with
  | Ok v => c_typ c v = true
  | Err e => e = corruption_error
  end.

Lemma seq_roundtrips (cs : list codec) (vs : list value) :
  Forall roundtrips cs -> seq_has_type (map c_typ cs) vs = true ->
  exists b, serialize_seq (map c_ser cs) vs = Ok b /\ length b = sum_nat (map c_size cs) /\
    forall rest, deserialize_seq (map (fun c => (c_size c, c_des c)) cs) (b ++ rest) = Ok vs.
Proof.
  intros Hcs. revert vs. induction Hcs as [|c cs Hc _ IH]; intros [|v vs] Ht; try done.
  { by exists []. }
  simpl in Ht. apply andb_true_iff in Ht as [Hv Hvs].
  destruct (Hc v Hv) as (b & Hb & Hlen & Hd).
  destruct (IH vs Hvs) as (bs & Hbs & Hlens & Hds).
  exists (b ++ bs). simpl. rewrite Hb, Hbs. split_and!; [done|len|].
  intros rest. rewrite <- app_assoc, Hd, drop_app_length'; [|done]. by rewrite Hds.
Qed.

Lemma seq_sound (cs : list codec) (b : bytes) :
  Forall sound cs -> (sum_nat (map c_size cs) <= length b)%nat ->
  match deserialize_seq (map (fun c => (c_size c, c_des c)) cs) b with
  | Ok vs => seq_has_type (map c_typ cs) vs = true
  | Err e => e = corruption_error
  end.
Proof.
  intros Hcs. revert b. induction Hcs as [|c cs Hc _ IH]; intros b Hlen; [done|].
  simpl in *. specialize (Hc b ltac:(lia)). destruct (c_des c b) as [v|e]; [|done].
  specialize (IH (drop (c_size c) b) ltac:(len)).
  destruct (deserialize_seq _ _) as [vs|e]; [|done]. simpl. by rewrite Hc, IH.
Qed.

Lemma alt_roundtrips (cs : list codec) (i : nat) (v : value) :
  Forall roundtrips cs -> alt_has_type (map c_typ cs) i v = true ->
  exists c b, cs !! i = Some c /\ serialize_alt (map c_ser cs) i v = Ok b /\
    length b = c_size c /\ forall rest, deserialize_alt (map c_des cs) i (b ++ rest) = Ok v.
Proof.
  intros Hcs. revert i. induction Hcs as [|c cs Hc _ IH]; intros [|i] Ht; try done.
  - destruct (Hc v Ht) as (b & ? & ? & ?). by exists c, b.
  - by apply IH.
Qed.

Lemma alt_sound (cs : list codec) (i : nat) (b : bytes) :
  Forall (fun c => sound c /\ (c_size c <= length b)%nat) cs ->
  match deserialize_alt (map c_des cs) i b with
  | Ok v => alt_has_type (map c_typ cs) i v = true
  | Err e => e = corruption_error
  end.
Proof.
  intros Hcs. revert i. induction Hcs as [|c cs [Hc Hl] _ IH]; intros [|i]; simpl; try done.
  - by apply Hc.
  - apply IH.
Qed.

Lemma codec_maps ts :
  map c_ser (map codec_of ts) = map serialize ts /\
  map c_des (map codec_of ts) = map deserialize ts /\
  map c_typ (map codec_of ts) = map has_type ts /\
  map c_size (map codec_of ts) = map serialized_size ts /\
  map (fun c => (c_size c, c_des c)) (map codec_of ts) =
    map (fun t => (serialized_size t, deserialize t)) ts.
Proof. by rewrite !map_map. Qed.

Ltac codec_maps_in H :=
  let ts := match type of H with context [map codec_of ?ts] => ts end in
  let E1 := fresh in let E2 := fresh in let E3 := fresh in
  let E4 := fresh in let E5 := fresh in
  destruct (codec_maps ts) as (E1 & E2 & E3 & E4 & E5);
  rewrite ?E5, ?E1, ?E2, ?E3, ?E4 in H; clear E1 E2 E3 E4 E5.

Lemma map_replicate {A B} (f : A -> B) n a : map f (replicate n a) = replicate n (f a).
Proof. induction n; simpl; congruence. Qed.

Lemma sum_nat_replicate n k : sum_nat (replicate n k) = (n * k)%nat.
Proof. induction n; simpl; lia. Qed.

Lemma le_max_nat l n : n ∈ l -> (n <= max_nat l)%nat.
Proof. induction l as [|k l IH]; simpl; [set_solver|]. intros [->|?%IH]%elem_of_cons; lia. Qed.

Lemma be_decode_take1 c rest : be_decode (take 1 (c :: rest)) = byte_val c.
Proof. unfold be_decode. by simpl. Qed.

Lemma be_decode_take_encode n z rest :
  be_decode (take n (be_encode n z ++ rest)) = z mod 256 ^ Z.of_nat n.
Proof. rewrite take_app_length' by (by rewrite length_be_encode). apply be_decode_encode. Qed.

Lemma pow256 n : 256 ^ Z.of_nat n = 2 ^ (8 * Z.of_nat n).
Proof. rewrite Z.pow_mul_r by lia. done. Qed.

Lemma to_signed_wrap w z :
  0 < w -> - 2 ^ (w - 1) <= z < 2 ^ (w - 1) -> to_signed w (z mod 2 ^ w) = z.
Proof.
  intros Hw Hz. unfold to_signed, wrap.
  assert (2 ^ w = 2 * 2 ^ (w - 1)) as Hp
    by (rewrite <- Z.pow_succ_r by lia; f_equal; lia).
  rewrite Z.mod_mod by lia. destruct (decide (0 <= z)).
  - rewrite Z.mod_small by lia. destruct (Z.ltb_spec z (2 ^ (w - 1))); lia.
  - replace (z mod 2 ^ w) with (z + 2 ^ w)
      by (rewrite <- (Z.mod_add z 1), Z.mul_1_l, Z.mod_small by lia; lia).
    destruct (Z.ltb_spec (z + 2 ^ w) (2 ^ (w - 1))); lia.
Qed.

Lemma to_signed_range w z :
  0 < w -> - 2 ^ (w - 1) <= to_signed w z < 2 ^ (w - 1).
Proof.
  intros Hw. unfold to_signed.
  assert (2 ^ w = 2 * 2 ^ (w - 1)) as Hp
    by (rewrite <- Z.pow_succ_r by lia; f_equal; lia).
  pose proof (wrap_word w z ltac:(lia)) as Hr. unfold is_word in Hr.
  destruct (Z.ltb_spec (wrap w z) (2 ^ (w - 1))); lia.
Qed.

Lemma variant_roundtrips ts :
  (length ts <= 16)%nat ->
  Forall (fun t => (serialized_size t <= sizeof t)%nat) ts ->
  Forall roundtrips (map codec_of ts) -> roundtrips (codec_of (t_variant ts)).
Proof.
  intros Hn Hsz Hrt v Hv. destruct v as [| | | | |i v| |]; simpl in Hv; try done.
  destruct (alt_roundtrips (map codec_of ts) i v) as (c & b & Hc & Hb & Hlen & Hd);
    [done|by rewrite (proj1 (proj2 (proj2 (codec_maps ts))))|].
  apply list_lookup_fmap_Some in Hc as (t & -> & Ht).
  pose proof (lookup_lt_Some _ _ _ Ht) as Hi.
  rewrite Forall_lookup in Hsz. specialize (Hsz _ _ Ht).
  assert (sizeof t <= max_size ts)%nat as Hm.
  { apply le_max_nat. rewrite list_elem_of_In, in_map_iff. exists t. split; [done|].
    apply list_elem_of_In. by eapply list_elem_of_lookup_2. }
  codec_maps_in Hb. codec_maps_in Hd. unfold codec_of in *. simpl in *.
  rewrite Hb. eexists. split; [done|]. split.
  { simpl. rewrite length_app, length_replicate. lia. }
  intros rest. rewrite <- app_comm_cons, be_decode_take1, byte_val_of.
  rewrite Z.mod_small by lia. destruct (Z.ltb_spec (Z.of_nat i) (zlen ts)); [|lia].
  rewrite Nat2Z.id. simpl. rewrite drop_0, <- app_assoc.
  by rewrite Hd.
Qed.

Lemma forallb_Forall {A} (f : A -> bool) l : forallb f l = true <-> Forall (fun x => f x = true) l.
Proof.
  induction l as [|x l IH]; simpl; [by rewrite Forall_nil|].
  by rewrite andb_true_iff, IH, Forall_cons.
Qed.

Lemma Forall_codecs (P : codec -> Prop) ts :
  Forall (fun t => wf_ty t = true -> P (codec_of t)) ts -> forallb wf_ty ts = true ->
  Forall P (map codec_of ts).
Proof.
  intros IH Hwf. apply forallb_Forall in Hwf. apply Forall_fmap.
  rewrite Forall_forall in IH, Hwf. apply Forall_forall. intros t Ht. simpl. by apply IH, Hwf.
Qed.

Lemma array_roundtrips n t : roundtrips (codec_of t) -> roundtrips (codec_of (t_array n t)).
Proof.
  intros Ht v Hv. destruct v as [| |vs| | | | |]; simpl in Hv; try done.
  destruct (seq_roundtrips (replicate n (codec_of t)) vs) as (b & Hb & Hl & Hd);
    [by apply Forall_replicate|by rewrite map_replicate|].
  rewrite map_replicate in Hb. rewrite map_replicate, sum_nat_replicate in Hl.
  rewrite map_replicate in Hd. exists b. simpl in *. split_and!; [done..|].
  intros rest. by rewrite Hd.
Qed.

Lemma seq_codec_roundtrips ts vs :
  Forall roundtrips (map codec_of ts) -> seq_has_type (map has_type ts) vs = true ->
  exists b, serialize_seq (map serialize ts) vs = Ok b /\
    length b = sum_nat (map serialized_size ts) /\
    forall rest, deserialize_seq (map (fun t => (serialized_size t, deserialize t)) ts) (b ++ rest)
      = Ok vs.
Proof.
  intros Hc Hv. destruct (seq_roundtrips (map codec_of ts) vs) as (b & Hb & Hl & Hd);
    [done|by rewrite (proj1 (proj2 (proj2 (codec_maps ts))))|].
  codec_maps_in Hb. codec_maps_in Hl. codec_maps_in Hd. by exists b.
Qed.

Lemma int_has_type_to_signed n b :
  (1 <= n)%nat -> has_type (t_int n) (v_int (to_signed (8 * Z.of_nat n) b)) = true.
Proof. intros. simpl. pose proof (to_signed_range (8 * Z.of_nat n) b). lia. Qed.

Lemma byte_val_take1 (b : bytes) : (1 <= length b)%nat -> 0 <= be_decode (take 1 b) < 256.
Proof.
  intros. destruct b as [|c b]; [simpl in *; lia|].
  rewrite be_decode_take1. apply byte_val_range.
Qed.

Ltac value_cases := let v := fresh "v" in let Hv := fresh "Hv" in
  intros v Hv; destruct v; simpl in *; try done.

(** Every serializer of a well-formed type round trips ... *)
Lemma codec_roundtrips t : wf_ty t = true -> roundtrips (codec_of t).
Proof.
  induction t using ty_nested_ind; intros Hwf.
  - value_cases. exists [byte_of z]. split_and!; [done..|]. intros rest. cbn [app].
    rewrite be_decode_take1, byte_val_of. rewrite Z.mod_small by lia. done.
  - value_cases. exists (be_encode n z). rewrite length_be_encode. split_and!; [done..|].
    intros rest. rewrite be_decode_take_encode, Z.mod_small by lia. done.
  - value_cases. exists (be_encode n z). rewrite length_be_encode. split_and!; [done..|].
    intros rest. apply Nat.leb_le in Hwf. apply andb_true_iff in Hv as [H1%Z.leb_le H2%Z.ltb_lt].
    by rewrite be_decode_take_encode, pow256, to_signed_wrap by lia.
  - value_cases. exists (be_encode n z). rewrite length_be_encode. split_and!; [done..|].
    intros rest. rewrite be_decode_take_encode, Z.mod_small by lia. done.
  - value_cases. eexists. split_and!; [done..|]. intros rest. by destruct b.
  - by apply array_roundtrips, IHt.
  - value_cases. apply andb_true_iff in Hwf as [H1 H2].
    destruct (seq_codec_roundtrips [t1; t2] vs) as (b & Hb & Hl & Hd);
      [repeat constructor; auto|done|].
    exists b. simpl in *. split_and!; [done|lia|]. intros rest. by rewrite Hd.
  - value_cases. destruct (seq_codec_roundtrips ts vs) as (b & Hb & Hl & Hd);
      [by apply Forall_codecs|done|].
    exists b. split_and!; [done..|]. intros rest. by rewrite Hd.
  - exact (IHt Hwf).
  - value_cases.
    + eexists. split_and!; [done|by rewrite length_cons, length_replicate|]. intros rest. done.
    + destruct (IHt Hwf v Hv) as (b & Hb & Hl & Hd). simpl in *. rewrite Hb. eexists.
      split_and!; [done|by rewrite length_cons, Hl|]. intros rest.
      rewrite <- app_comm_cons, be_decode_take1. simpl. by rewrite drop_0, Hd.
  - simpl in Hwf. apply andb_true_iff in Hwf as [Hn%Nat.leb_le Hwf].
    apply forallb_Forall in Hwf. apply variant_roundtrips; [done| |].
    + eapply Forall_impl; [exact Hwf|]. simpl. by intros t [_ ?%Nat.leb_le]%andb_true_iff.
    + apply Forall_codecs; [done|]. apply forallb_Forall.
      eapply Forall_impl; [exact Hwf|]. simpl. by intros t [? _]%andb_true_iff.
  - value_cases. exists []. by split_and!.
  - value_cases. destruct (seq_codec_roundtrips ts vs) as (b & Hb & Hl & Hd);
      [by apply Forall_codecs|done|].
    exists b. split_and!; [done..|]. intros rest. by rewrite Hd.
Qed.

Lemma seq_codec_sound ts b :
  Forall sound (map codec_of ts) -> (sum_nat (map serialized_size ts) <= length b)%nat ->
  match deserialize_seq (map (fun t => (serialized_size t, deserialize t)) ts) b with
  | Ok vs => seq_has_type (map has_type ts) vs = true
  | Err e => e = corruption_error
  end.
Proof.
  intros Hc Hl. pose proof (seq_sound (map codec_of ts) b Hc) as H.
  codec_maps_in H. by apply H.
Qed.

Lemma variant_sound ts :
  Forall (fun t => (serialized_size t <= sizeof t)%nat) ts ->
  Forall sound (map codec_of ts) -> sound (codec_of (t_variant ts)).
Proof.
  intros Hsz Hs b Hl. simpl in *.
  destruct (_ <? _); [|done].
  pose proof (alt_sound (map codec_of ts) (Z.to_nat (be_decode (take 1 b))) (drop 1 b)) as H.
  codec_maps_in H. simpl in H.
  premise H.
  { rewrite Forall_fmap in *. apply Forall_forall. intros t Ht.
    rewrite Forall_forall in Hs, Hsz. split; [by apply Hs|].
    simpl. specialize (Hsz t Ht).
    assert (sizeof t <= max_size ts)%nat.
    { apply le_max_nat. rewrite list_elem_of_In, in_map_iff. exists t. split; [done|].
      by apply list_elem_of_In. }
    rewrite length_drop. lia. }
  by destruct (deserialize_alt _ _ _).
Qed.

(** ... and decodes every buffer to a value of its type or rejects it. *)
Lemma codec_sound t : wf_ty t = true -> sound (codec_of t).
Proof.
  induction t using ty_nested_ind; intros Hwf; try (intros b Hl; simpl in * ).
  - pose proof (byte_val_take1 b Hl) as H. simpl in H. lia.
  - pose proof (be_decode_range (take n b)) as Hr.
    rewrite length_take_le in Hr by done. lia.
  - apply (int_has_type_to_signed n). by apply Nat.leb_le.
  - pose proof (be_decode_range (take n b)) as Hr.
    rewrite length_take_le in Hr by done. lia.
  - done.
  - pose proof (seq_sound (replicate n (codec_of t)) b) as H.
    rewrite !map_replicate, sum_nat_replicate in H. simpl in H.
    premise H; [by apply Forall_replicate, IHt|]. premise H; [done|].
    by destruct (deserialize_seq _ _).
  - apply andb_true_iff in Hwf as [H1 H2].
    pose proof (seq_codec_sound [t1; t2] b) as H. simpl in H.
    premise H; [repeat constructor; auto|]. premise H; [lia|].
    by destruct (deserialize t1 b) as [v1|]; [destruct (deserialize t2 _) as [v2|]|].
  - pose proof (seq_codec_sound ts b) as Hs.
    premise Hs; [by apply Forall_codecs|]. premise Hs; [done|].
    by destruct (deserialize_seq _ _).
  - by apply IHt.
  - destruct (_ =? 0); [done|]. destruct (_ =? 1); [|done].
    specialize (IHt Hwf (drop 1 b)). simpl in IHt. rewrite length_drop in IHt.
    specialize (IHt ltac:(lia)). by destruct (deserialize t _).
  - apply andb_true_iff in Hwf as [Hn Hwf]. apply forallb_Forall in Hwf.
    revert b Hl. apply variant_sound.
    + eapply Forall_impl; [exact Hwf|]. simpl. by intros t [_ ?%Nat.leb_le]%andb_true_iff.
    + apply Forall_codecs; [done|]. apply forallb_Forall.
      eapply Forall_impl; [exact Hwf|]. simpl. by intros t [? _]%andb_true_iff.
  - done.
  - pose proof (seq_codec_sound ts b) as Hs.
    premise Hs; [by apply Forall_codecs|]. premise Hs; [done|].
    by destruct (deserialize_seq _ _).
Qed.

(** ** Members *)

(** A field of a serialized struct is a contiguous piece of its bytes, at
    the offset [serialized_offset_impl] computes. *)
Lemma serialize_seq_member fields vs b i ft :
  Forall roundtrips (map codec_of fields) ->
  seq_has_type (map has_type fields) vs = true ->
  serialize_seq (map serialize fields) vs = Ok b -> fields !! i = Some ft ->
  exists off v pre mb post,
    serialized_offset_impl fields i = Some off /\ vs !! i = Some v /\
    has_type ft v = true /\ serialize ft v = Ok mb /\ b = pre ++ mb ++ post /\
    length pre = off /\
    forall v' mb', has_type ft v' = true -> serialize ft v' = Ok mb' ->
      serialize_seq (map serialize fields) (<[i := v']> vs) = Ok (pre ++ mb' ++ post) /\
      seq_has_type (map has_type fields) (<[i := v']> vs) = true.
Proof.
  revert vs b i. induction fields as [|t fields IH]; intros [|v vs] b i Hc Ht Hs Hi; try done.
  simpl in Hc, Ht, Hs. apply Forall_cons in Hc as [Hct Hcs].
  apply andb_true_iff in Ht as [Hv Hvs].
  destruct (Hct v Hv) as (b1 & Hb1 & Hl1 & _). simpl in Hb1, Hl1. rewrite Hb1 in Hs.
  destruct (serialize_seq _ vs) as [bs|] eqn:Hbs; [|done]. injection Hs as <-.
  destruct i as [|i]; simpl in Hi.
  - injection Hi as ->. exists 0%nat, v, [], b1, bs. split_and!; try done.
    intros v' mb' Hv' Hmb'. simpl. by rewrite Hmb', Hbs, Hv'.
  - destruct (IH vs bs i Hcs Hvs Hbs Hi)
      as (off & w & pre & mb & post & Hoff & Hw & Hwt & Hmb & -> & Hpre & Hnew).
    exists (serialized_size t + off)%nat, w, (b1 ++ pre), mb, post.
    simpl. rewrite Hoff. split_and!; [done..|by rewrite app_assoc|len|].
    intros v' mb' Hv' Hmb'. destruct (Hnew v' mb' Hv' Hmb') as [Hn1 Hn2].
    by rewrite Hb1, Hn1, Hv, Hn2, app_assoc.
Qed.

Lemma serialize_member_split path : forall t v b mt,
  wf_ty t = true -> has_type t v = true -> serialize t v = Ok b ->
  member_type t path = Some mt ->
  exists off mv pre mb post,
    serialized_offset t path = Some off /\ get_member v path = Some mv /\
    wf_ty mt = true /\ has_type mt mv = true /\ serialize mt mv = Ok mb /\
    b = pre ++ mb ++ post /\ length pre = off /\
    forall new nb, has_type mt new = true -> serialize mt new = Ok nb ->
      serialize t (set_member v path new) = Ok (pre ++ nb ++ post) /\
      has_type t (set_member v path new) = true.
Proof.
  induction path as [|i path IH]; intros t v b mt Hwf Hv Hs Hmt.
  - simpl in Hmt. injection Hmt as <-. exists 0%nat, v, [], b, []. simpl.
    rewrite app_nil_r. split_and!; try done. intros. by rewrite app_nil_r.
  - destruct t as [| | | | | | | | | | | |fields]; try done. simpl in Hmt, Hwf.
    destruct (fields !! i) as [ft|] eqn:Hi; [|done].
    destruct v as [| |vs| | | | |]; try done. simpl in Hv, Hs.
    assert (Forall roundtrips (map codec_of fields)) as Hc.
    { apply Forall_codecs; [|done]. apply Forall_forall. intros. by apply codec_roundtrips. }
    assert (wf_ty ft = true) as Hwft.
    { apply forallb_Forall in Hwf. rewrite Forall_lookup in Hwf. by eapply Hwf. }
    destruct (serialize_seq_member fields vs b i ft Hc Hv Hs Hi)
      as (off & w & pre & mb & post & Hoff & Hw & Hwt & Hmb & -> & Hpre & Hnew).
    destruct (IH ft w mb mt Hwft Hwt Hmb Hmt)
      as (off' & mv & pre' & mb' & post' & Hoff' & Hmv & ? & ? & ? & -> & Hpre' & Hnew').
    exists (off + off')%nat, mv, (pre ++ pre'), mb', (post' ++ post).
    simpl. rewrite Hoff, Hi, Hoff', Hw. split_and!; try done; [by rewrite !app_assoc|len|].
    intros new nb Hnt Hnb. destruct (Hnew' new nb Hnt Hnb) as [Hs1 Ht1].
    destruct (Hnew _ _ Ht1 Hs1) as [Hs2 Ht2]. rewrite Hs2, Ht2. by rewrite !app_assoc.
Qed.

(** ** Properties *)

(** C35: Every well-typed value of a well-formed type is serialized to exactly
    [serialized_size] bytes, and deserializing these bytes, whatever follows
    them in the buffer, returns the value. *)
Theorem serialize_roundtrip t v rest :
  wf_ty t = true -> has_type t v = true ->
  exists b, serialize t v = Ok b /\ length b = serialized_size t /\
    deserialize t (b ++ rest) = Ok v.
Proof.
  intros Hwf Hv. destruct (codec_roundtrips t Hwf v Hv) as (b & ? & ? & Hd).
  exists b. split_and!; [done..|]. apply Hd.
Qed.


(** C37: For every path of member pointers, [deserialize_member] reads the
    member of a serialized struct, and [serialize_member] replaces it in
    place: deserializing the whole struct afterwards returns the old value
    with just that member replaced. *)
Theorem member_access t v path mt new rest :
  wf_ty t = true -> has_type t v = true -> member_type t path = Some mt ->
  has_type mt new = true ->
  exists b mv b',
    serialize t v = Ok b /\ get_member v path = Some mv /\
    deserialize_member t path (b ++ rest) = Ok mv /\
    serialize t (set_member v path new) = Ok b' /\
    serialize_member t path new (b ++ rest) = Ok (b' ++ rest).
Proof.
  intros Hwf Hv Hmt Hnew.
  destruct (codec_roundtrips t Hwf v Hv) as (b & Hb & Hlen & _). simpl in Hb, Hlen.
  destruct (serialize_member_split path t v b mt Hwf Hv Hb Hmt)
    as (off & mv & pre & mb & post & Hoff & Hmv & Hwfm & Hmvt & Hmb & -> & Hpre & Hn).
  destruct (codec_roundtrips mt Hwfm mv Hmvt) as (mb2 & Hmb2 & Hml & Hd). simpl in *.
  rewrite Hmb in Hmb2. injection Hmb2 as <-.
  destruct (codec_roundtrips mt Hwfm new Hnew) as (nb & Hnb & Hnl & _). simpl in *.
  destruct (Hn new nb Hnew Hnb) as [Hsn _].
  exists (pre ++ mb ++ post), mv, (pre ++ nb ++ post). split_and!; try done.
  - unfold deserialize_member. rewrite Hoff, Hmt.
    destruct (Nat.leb_spec off (serialized_size t - serialized_size mt)); [|len].
    rewrite <- app_assoc, drop_app_length' by done. rewrite <- app_assoc. apply Hd.
  - unfold serialize_member. rewrite Hoff, Hmt, Hnb.
    destruct (Nat.leb_spec off (serialized_size t - serialized_size mt)); [|len].
    f_equal. rewrite <- !app_assoc. rewrite splice_app_r by len.
    replace (Z.of_nat off - zlen pre) with 0 by lia.
    rewrite splice_app_l by len. by rewrite splice_all by lia.
Qed.

End Serializer.

(** ** Witnesses *)

Definition sample_ty : ty :=
  t_struct [t_uint 2; t_optional (t_int 4); t_variant [t_byte; t_uint 8];
            t_struct [t_array 2 (t_uint 4); t_bool]].

Definition sample_value : value :=
  v_seq [v_int 513; v_some (v_int (-2)); v_alt 1 (v_int 258);
         v_seq [v_seq [v_int 7; v_int 9]; v_bool true]].

(** An ABI in which every object occupies 16 bytes. *)
Definition sizeof16 (t : ty) : nat := 16.

Lemma serialize_roundtrip_witness :
  exists b, serialize sizeof16 sample_ty sample_value = Ok b /\
    length b = serialized_size sizeof16 sample_ty /\
    deserialize sizeof16 sample_ty (b ++ [x00]) = Ok sample_value.
Proof. by apply (serialize_roundtrip sizeof16 sample_ty sample_value [x00]). Defined.


Lemma member_access_witness :
  exists b mv b',
    serialize sizeof16 sample_ty sample_value = Ok b /\
    get_member sample_value [3; 1]%nat = Some mv /\
    deserialize_member sizeof16 sample_ty [3; 1]%nat (b ++ []) = Ok mv /\
    serialize sizeof16 sample_ty (set_member sample_value [3; 1]%nat (v_bool false)) = Ok b' /\
    serialize_member sizeof16 sample_ty [3; 1]%nat (v_bool false) (b ++ []) = Ok (b' ++ []).
Proof. by apply (member_access sizeof16 sample_ty sample_value [3; 1]%nat t_bool). Defined.

(** The storage of a variant is measured with [sizeof], not with
    [serialized_size]: with the usual 64-bit layout of [std::optional<u64>]
    (16 bytes) a variant of it takes 17 bytes on disk, where the largest
    serialized alternative needs 9. *)
Lemma variant_size_uses_sizeof :
  serialized_size sizeof16 (t_variant [t_optional (t_uint 8)]) = 17%nat /\
  serialized_size sizeof16 (t_optional (t_uint 8)) = 9%nat.
Proof. done. Qed.
