(* ===== verification/Blocks.v ===== *)
(** * Block indices and addresses

    include/prequel/block_index.hpp, include/prequel/address.hpp and the
    address arithmetic of include/prequel/engine.hpp. *)

From S2P Require Import Prelude MathOps.

(** ** block_index *)

Definition invalid_value : Z := u64_max.
Definition index_valid (i : Z) : bool := negb (i =? invalid_value).

(** [operator+=] and [operator-=] assert that the index is valid. *)
Definition index_add (i offset : Z) : result Z :=
  if index_valid i then Ok (u64 (i + offset)) else Err assert_failure.
Definition index_sub (i offset : Z) : result Z :=
  if index_valid i then Ok (u64 (i - offset)) else Err assert_failure.

(** "+1": the invalid index is the smallest one. *)
Definition index_ltb (a b : Z) : bool := u64 (a + 1) <? u64 (b + 1).
Definition index_eqb (a b : Z) : bool := a =? b.

Lemma index_ltb_spec a b :
  is_u64 a -> is_u64 b ->
  index_ltb a b = (if index_valid b then (if index_valid a then a <? b else true) else false).
Proof.
  unfold is_word, index_ltb, index_valid, invalid_value, u64_max, wrap. intros Ha Hb.
  destruct (Z.eqb_spec a (2 ^ 64 - 1)) as [->|], (Z.eqb_spec b (2 ^ 64 - 1)) as [->|]; simpl.
  - apply Z.ltb_irrefl.
  - replace (2 ^ 64 - 1 + 1) with (2 ^ 64) by lia. rewrite Z.mod_same by lia.
    rewrite Z.mod_small by lia. lia.
  - replace (2 ^ 64 - 1 + 1) with (2 ^ 64) by lia. rewrite Z.mod_same by lia.
    rewrite Z.mod_small by lia. lia.
  - rewrite !Z.mod_small by lia. lia.
Qed.

(** ** raw_address and address<T>

    [size] is [serialized_size<T>()]. *)

Definition addr_valid (a : Z) : bool := negb (a =? invalid_value).
Definition addr_add (a offset : Z) : result Z :=
  if addr_valid a then Ok (u64 (a + offset)) else Err assert_failure.
Definition addr_sub (a offset : Z) : result Z :=
  if addr_valid a then Ok (u64 (a - offset)) else Err assert_failure.
Definition addr_ltb (a b : Z) : bool := u64 (a + 1) <? u64 (b + 1).
Definition addr_leb (a b : Z) : bool := negb (addr_ltb b a).
Definition typed_addr_add (size a offset : Z) : result Z := addr_add a (u64 (offset * size)).
Definition typed_addr_sub (size a offset : Z) : result Z := addr_sub a (u64 (offset * size)).

Definition addr_difference (from to : Z) : result Z :=
  if addr_valid from && addr_valid to then Ok (signed_difference 64 to from)
  else Err assert_failure.

Definition addr_distance (a b : Z) : result Z :=
  if addr_valid a && addr_valid b
  then Ok (if addr_leb a b then u64 (b - a) else u64 (a - b))
  else Err assert_failure.

Definition typed_addr_distance (size from to : Z) : result Z :=
  match addr_distance from to with
  | Ok d => Ok (d / size)
  | Err e => Err e
  end.

Lemma addr_distance_spec a b :
  is_u64 a -> is_u64 b -> addr_valid a = true -> addr_valid b = true ->
  addr_distance a b = Ok (Z.abs (a - b)).
Proof.
  intros Ha Hb Va Vb. unfold addr_distance. rewrite Va, Vb. simpl. f_equal.
  pose proof (index_ltb_spec b a Hb Ha) as Hlt.
  unfold addr_leb, addr_ltb. unfold index_ltb in Hlt. rewrite Hlt.
  change (index_valid a) with (addr_valid a). change (index_valid b) with (addr_valid b).
  rewrite Va, Vb. unfold is_word in *.
  destruct (Z.ltb_spec b a); simpl; rewrite wrap_small; unfold is_word; lia.
Qed.

(** ** Address arithmetic of [engine] *)

Record geometry : Set := Geometry {
  g_block_size : Z;
  g_block_size_log : Z;
  g_offset_mask : Z
}.

(** The constructor [engine::engine]. *)
Definition make_geometry (block_size : Z) : result geometry :=
  if is_pow2 32 block_size then
    match log2 32 block_size with
    | Ok l => Ok (Geometry block_size l (u32 (block_size - 1)))
    | Err e => Err e
    end
  else Err bad_argument.

Section Geometry.
Context (g : geometry).

Definition to_address (index offset_in_block : Z) : result Z :=
  if offset_in_block <? g_block_size g then
    if index_valid index
    then Ok (Z.lor (u64 (Z.shiftl index (g_block_size_log g))) offset_in_block)
    else Ok invalid_value
  else Err assert_failure.

Definition to_block (addr : Z) : Z :=
  if addr_valid addr then Z.shiftr addr (g_block_size_log g) else invalid_value.

Definition to_offset (addr : Z) : Z :=
  if addr_valid addr then Z.land (u32 addr) (g_offset_mask g) else 0.

Definition to_byte_size (block_count : Z) : Z :=
  u64 (Z.shiftl block_count (g_block_size_log g)).
End Geometry.

(** What the constructor establishes. *)
Definition wf_geometry (g : geometry) : Prop :=
  exists k, 0 <= k < 32 /\ g = Geometry (2 ^ k) k (2 ^ k - 1).

Lemma geometry_pos g : wf_geometry g -> 0 < g_block_size g < 2 ^ 32 /\
  g_block_size g = 2 ^ g_block_size_log g /\ 0 <= g_block_size_log g.
Proof.
  intros (k & Hk & ->). simpl. split_and!; [apply Z.pow_pos_nonneg|apply Z.pow_lt_mono_r|..]; lia.
Qed.

Lemma make_geometry_spec bs :
  is_u32 bs ->
  match make_geometry bs with
  | Ok g => wf_geometry g /\ g_block_size g = bs
  | Err e => e = bad_argument /\ ~ exists k, 0 <= k < 32 /\ bs = 2 ^ k
  end.
Proof.
  intros Hbs. unfold make_geometry. destruct (is_pow2 32 bs) eqn:E.
  - apply is_pow2_spec in E as (k & Hk & ->); [|lia|done].
    pose proof (Z.pow_pos_nonneg 2 k ltac:(lia) ltac:(lia)).
    rewrite log2_spec by (lia || done). destruct (Z.eqb_spec (2 ^ k) 0); [lia|].
    split; [|done]. exists k. split; [done|].
    rewrite Z.log2_pow2, wrap_small by (unfold is_word in *; lia). done.
  - split; [done|]. intros H. apply is_pow2_spec in H; [congruence|lia|done].
Qed.

Lemma land_mask_small x k : 0 <= k -> Z.land x (2 ^ k - 1) = x mod 2 ^ k.
Proof. intros. rewrite <- Z.land_ones by lia. by rewrite Z.ones_equiv, Z.sub_1_r. Qed.

Lemma mod_mod_pow2 x j k : 0 <= k <= j -> (x mod 2 ^ j) mod 2 ^ k = x mod 2 ^ k.
Proof.
  intros Hk. replace j with (k + (j - k)) by lia. rewrite Z.pow_add_r by lia.
  pose proof (Z.pow_pos_nonneg 2 k ltac:(lia) ltac:(lia)).
  pose proof (Z.pow_pos_nonneg 2 (j - k) ltac:(lia) ltac:(lia)).
  rewrite Z.rem_mul_r by lia.
  rewrite Z.mul_comm, Z.mod_add, Z.mod_mod by lia. done.
Qed.

(** The two parts of an address do not share a bit. *)
Lemma land_shifted i k off : 0 <= k -> 0 <= off < 2 ^ k -> Z.land (i * 2 ^ k) off = 0.
Proof.
  intros Hk Ho. apply Z.bits_inj'. intros j Hj. rewrite Z.land_spec, Z.bits_0.
  destruct (decide (j < k)); [by rewrite Z.mul_pow2_bits_low by lia|].
  rewrite <- (Z.mod_small off (2 ^ k)), Z.mod_pow2_bits_high by lia. apply andb_false_r.
Qed.

(** The three conversions as arithmetic on the block size. *)
Lemma to_address_eq g i off :
  wf_geometry g -> 0 <= i -> 0 <= off < g_block_size g ->
  i * g_block_size g + off < invalid_value ->
  to_address g i off = Ok (i * g_block_size g + off).
Proof.
  intros (k & Hk & ->). simpl. intros Hi Ho Hmax. unfold to_address, invalid_value, u64_max in *. simpl.
  pose proof (Z.pow_pos_nonneg 2 k ltac:(lia) ltac:(lia)).
  assert (i <= i * 2 ^ k) by nia.
  destruct (Z.ltb_spec off (2 ^ k)); [|lia].
  unfold index_valid, invalid_value, u64_max.
  destruct (Z.eqb_spec i (2 ^ 64 - 1)); simpl; [lia|]. f_equal.
  rewrite Z.shiftl_mul_pow2 by lia. rewrite wrap_small by (unfold is_word; lia).
  rewrite <- Z.lxor_lor by (apply land_shifted; lia). symmetry.
  apply Z.add_nocarry_lxor, land_shifted; lia.
Qed.

Lemma to_block_eq g a :
  wf_geometry g -> 0 <= a < invalid_value -> to_block g a = a / g_block_size g.
Proof.
  intros (k & Hk & ->) Ha. unfold to_block, addr_valid. simpl.
  destruct (Z.eqb_spec a invalid_value); [lia|]. simpl. apply Z.shiftr_div_pow2. lia.
Qed.

Lemma to_offset_eq g a :
  wf_geometry g -> 0 <= a < invalid_value -> to_offset g a = a mod g_block_size g.
Proof.
  intros (k & Hk & ->) Ha. unfold to_offset, addr_valid. simpl.
  destruct (Z.eqb_spec a invalid_value); [lia|]. simpl.
  rewrite land_mask_small by lia. unfold wrap. apply mod_mod_pow2. lia.
Qed.

Lemma to_byte_size_eq g n :
  wf_geometry g -> 0 <= n -> n * g_block_size g < 2 ^ 64 -> to_byte_size g n = n * g_block_size g.
Proof.
  intros (k & Hk & ->) Hn Hm. unfold to_byte_size. simpl in *.
  pose proof (Z.pow_pos_nonneg 2 k ltac:(lia) ltac:(lia)).
  rewrite Z.shiftl_mul_pow2 by lia. apply wrap_small. unfold is_word. nia.
Qed.

(** C38: An engine with a valid block size maps a block index and an offset
    to a valid 64 bit address from which [to_block] and [to_offset] recover
    both, as long as the address is in the address space. *)
Theorem address_roundtrip bs g i off :
  is_u32 bs -> make_geometry bs = Ok g ->
  0 <= i -> 0 <= off < bs -> i * bs + off < invalid_value ->
  exists a, to_address g i off = Ok a /\ to_block g a = i /\ to_offset g a = off /\
    is_u64 a /\ addr_valid a = true.
Proof.
  intros Hbs Hg Hi Ho Hm. pose proof (make_geometry_spec bs Hbs) as H.
  rewrite Hg in H. destruct H as [Hwf <-].
  exists (i * g_block_size g + off). rewrite to_address_eq by done.
  assert (0 <= i * g_block_size g + off) by nia.
  rewrite to_block_eq, to_offset_eq by (done || lia).
  split_and!; [done| | |unfold is_word, invalid_value, u64_max in *; lia|].
  - rewrite Z.div_add_l, Z.div_small by lia. lia.
  - rewrite Z.add_comm, Z.mod_add by lia. by apply Z.mod_small.
  - unfold addr_valid. destruct (Z.eqb_spec (i * g_block_size g + off) invalid_value); [lia|done].
Qed.

Lemma address_roundtrip_witness :
  exists a, to_address (Geometry 4096 12 4095) 77 130 = Ok a /\
    to_block (Geometry 4096 12 4095) a = 77 /\ to_offset (Geometry 4096 12 4095) a = 130 /\
    is_u64 a /\ addr_valid a = true.
Proof. apply (address_roundtrip 4096); unfold is_word, invalid_value, u64_max; done || lia. Defined.
