(* ===== verification/EngineSpec.v ===== *)
(** * The engine interface and the memory engine

    [Engine] holds the operations of include/prequel/engine.hpp that the
    containers and the linear I/O functions call.  A block handle is alive
    between [read] and the end of its scope; [eng_read] is [read(i)] followed
    by a read of [data()], [eng_update] is [read(i)] followed by a
    modification through [writable_data()].  Handles to the same block share
    its data, so both always act on the current contents.

    [EngineSpec] is the contract: in a good state ([eng_inv]) an engine
    behaves like the array of blocks [eng_view], whatever it caches.
    src/memory_engine.cpp discharges it here, the file engine in
    FileEngine.v. *)

From S2P Require Import Prelude MathOps Blocks.

(** ** The abstract disk *)

Record disk : Set := Disk {
  d_geo : geometry;
  d_blocks : list bytes
}.

Definition d_bs (d : disk) : Z := g_block_size (d_geo d).
Definition d_size (d : disk) : Z := zlen (d_blocks d).
Definition disk_block (d : disk) (i : Z) : bytes := d_blocks d !!! Z.to_nat i.
Definition disk_set (i : Z) (b : bytes) (d : disk) : disk :=
  Disk (d_geo d) (<[Z.to_nat i := b]> (d_blocks d)).
Definition disk_append (bs : list bytes) (d : disk) : disk :=
  Disk (d_geo d) (d_blocks d ++ bs).

(** The bytes of the disk as one array; the address of a byte is its index. *)
Definition flat (d : disk) : bytes := concat (d_blocks d).

(** Every block has the block size, every byte and the end of the last
    block have a valid address. *)
Definition wf_disk (d : disk) : Prop :=
  wf_geometry (d_geo d) /\
  Forall (fun b => zlen b = d_bs d) (d_blocks d) /\
  d_size d * d_bs d < invalid_value.

Definition in_disk (d : disk) (i : Z) : Prop := 0 <= i < d_size d.

(** [initialize_data_t::apply] on a block of [block_size] bytes. *)
Definition initialize_data (block_size : Z) (data : bytes) : bytes :=
  data ++ zeros (block_size - zlen data).

(** ** Interface *)

Class Engine (E : Type) : Type := {
  eng_view : E -> disk;
  eng_inv : E -> Prop;
  eng_read : Z -> M E bytes;
  eng_update : Z -> (bytes -> bytes) -> M E unit;
  eng_overwrite : Z -> bytes -> M E unit;
  eng_overwrite_zero : Z -> M E unit;
  eng_grow : Z -> M E unit
}.

Class EngineSpec (E : Type) `{Engine E} : Prop := {
  spec_wf : forall e, eng_inv e -> wf_disk (eng_view e);
  spec_read : forall e i, eng_inv e -> in_disk (eng_view e) i ->
    wp (eng_read i) e (fun b e' =>
      b = disk_block (eng_view e) i /\ eng_inv e' /\ eng_view e' = eng_view e);
  spec_update : forall e i f, eng_inv e -> in_disk (eng_view e) i ->
    length (f (disk_block (eng_view e) i)) = length (disk_block (eng_view e) i) ->
    wp (eng_update i f) e (fun _ e' =>
      eng_inv e' /\ eng_view e' = disk_set i (f (disk_block (eng_view e) i)) (eng_view e));
  spec_overwrite : forall e i data, eng_inv e -> in_disk (eng_view e) i ->
    zlen data <= d_bs (eng_view e) ->
    wp (eng_overwrite i data) e (fun _ e' =>
      eng_inv e' /\
      eng_view e' = disk_set i (initialize_data (d_bs (eng_view e)) data) (eng_view e));
  spec_overwrite_zero : forall e i, eng_inv e -> in_disk (eng_view e) i ->
    wp (eng_overwrite_zero i) e (fun _ e' =>
      eng_inv e' /\ eng_view e' = disk_set i (zeros (d_bs (eng_view e))) (eng_view e));
  (** The contents of new blocks are not specified. *)
  spec_grow : forall e n, eng_inv e -> 0 <= n ->
    (d_size (eng_view e) + n) * d_bs (eng_view e) < invalid_value ->
    wp (eng_grow n) e (fun _ e' => eng_inv e' /\
      exists new, zlen new = n /\ eng_view e' = disk_append new (eng_view e));
  spec_invalid : forall e f data,
    eng_read invalid_value e = (e, Err bad_argument) /\
    eng_update invalid_value f e = (e, Err bad_argument) /\
    eng_overwrite invalid_value data e = (e, Err bad_argument) /\
    eng_overwrite_zero invalid_value e = (e, Err bad_argument)
}.

(** ** Lemmas on disks *)

Section disk.
Implicit Types (d : disk) (i : Z) (b : bytes).

Lemma wf_bs_pos d : wf_disk d -> 0 < d_bs d < 2 ^ 32.
Proof.
  intros ((k & Hk & Hg) & _). unfold d_bs. rewrite Hg. simpl.
  split; [apply Z.pow_pos_nonneg; lia|]. apply Z.pow_lt_mono_r; lia.
Qed.

Lemma disk_block_lookup d i :
  in_disk d i -> d_blocks d !! Z.to_nat i = Some (disk_block d i).
Proof.
  unfold in_disk, d_size, disk_block. intros.
  apply list_lookup_lookup_total_lt. lia.
Qed.

Lemma length_disk_block d i : wf_disk d -> in_disk d i -> zlen (disk_block d i) = d_bs d.
Proof.
  intros (_ & Hb & _) Hi%disk_block_lookup. rewrite Forall_lookup in Hb. by eapply Hb.
Qed.

Lemma disk_set_geo d i b : d_geo (disk_set i b d) = d_geo d.
Proof. done. Qed.

Lemma disk_set_size d i b : d_size (disk_set i b d) = d_size d.
Proof. unfold d_size. simpl. by rewrite length_insert. Qed.

Lemma disk_set_bs d i b : d_bs (disk_set i b d) = d_bs d.
Proof. done. Qed.

Lemma disk_set_wf d i b : wf_disk d -> zlen b = d_bs d -> wf_disk (disk_set i b d).
Proof.
  intros (Hg & Hb & Hs) Hl. split_and!; [done| |].
  - apply Forall_insert; done.
  - by rewrite disk_set_size.
Qed.

Lemma disk_set_block_eq d i b : in_disk d i -> disk_block (disk_set i b d) i = b.
Proof.
  unfold in_disk, d_size, disk_block. intros. simpl.
  apply list_lookup_total_insert_eq. lia.
Qed.

Lemma disk_set_block_ne d i j b :
  0 <= i -> 0 <= j -> i <> j -> disk_block (disk_set i b d) j = disk_block d j.
Proof. intros. unfold disk_block. simpl. apply list_lookup_total_insert_ne. lia. Qed.

Lemma disk_set_id d i : in_disk d i -> disk_set i (disk_block d i) d = d.
Proof.
  intros Hi%disk_block_lookup. unfold disk_set. rewrite list_insert_id by done. by destruct d.
Qed.

Lemma disk_set_set d i b b' : disk_set i b' (disk_set i b d) = disk_set i b' d.
Proof. unfold disk_set. simpl. by rewrite list_insert_insert_eq. Qed.

Lemma disk_set_in d i j b : in_disk (disk_set i b d) j <-> in_disk d j.
Proof. unfold in_disk. by rewrite disk_set_size. Qed.

Lemma length_concat (n : nat) (l : list bytes) :
  Forall (fun b => length b = n) l -> length (concat l) = (length l * n)%nat.
Proof. induction 1; simpl; [done|]. rewrite length_app. lia. Qed.

Lemma length_flat d : wf_disk d -> zlen (flat d) = d_size d * d_bs d.
Proof.
  intros Hwf. pose proof (wf_bs_pos d Hwf). destruct Hwf as (_ & Hb & _). unfold flat, d_size.
  rewrite (length_concat (Z.to_nat (d_bs d))); [nia|].
  eapply Forall_impl; [exact Hb|]. simpl. lia.
Qed.

Lemma concat_split d i : in_disk d i ->
  flat d = concat (take (Z.to_nat i) (d_blocks d)) ++ disk_block d i ++
           concat (drop (S (Z.to_nat i)) (d_blocks d)).
Proof.
  intros Hi%disk_block_lookup. unfold flat.
  rewrite <- (take_drop_middle _ _ _ Hi) at 1. by rewrite concat_app.
Qed.

Lemma length_concat_take d i : wf_disk d -> in_disk d i ->
  zlen (concat (take (Z.to_nat i) (d_blocks d))) = i * d_bs d.
Proof.
  intros Hwf Hi. pose proof (wf_bs_pos d Hwf). destruct Hwf as (_ & Hb & _).
  rewrite (length_concat (Z.to_nat (d_bs d))).
  - rewrite length_take. unfold in_disk, d_size in Hi. nia.
  - apply Forall_take. eapply Forall_impl; [exact Hb|]. simpl. lia.
Qed.

(** Writing into a block is writing at the byte's address. *)
Lemma flat_splice d i off x :
  wf_disk d -> in_disk d i -> 0 <= off -> off + zlen x <= d_bs d ->
  flat (disk_set i (splice off x (disk_block d i)) d) = splice (i * d_bs d + off) x (flat d).
Proof.
  intros Hwf Hi Ho Hx. pose proof (length_disk_block d i Hwf Hi) as Hl.
  pose proof (length_concat_take d i Hwf Hi) as Ht.
  rewrite (concat_split d i Hi).
  assert (in_disk (disk_set i (splice off x (disk_block d i)) d) i) as Hi'
    by (by apply disk_set_in).
  rewrite (concat_split _ i Hi'), disk_set_block_eq by done. simpl.
  rewrite take_insert_ge, drop_insert_lt by lia.
  rewrite splice_app_r by (rewrite ?length_app; nia).
  f_equal. rewrite Ht. replace (i * d_bs d + off - i * d_bs d) with off by lia.
  by rewrite splice_app_l by lia.
Qed.

Lemma flat_slice d i off n :
  wf_disk d -> in_disk d i -> 0 <= off -> off + n <= d_bs d ->
  slice (i * d_bs d + off) n (flat d) = slice off n (disk_block d i).
Proof.
  intros Hwf Hi Ho Hn. pose proof (length_disk_block d i Hwf Hi) as Hl.
  pose proof (length_concat_take d i Hwf Hi) as Ht.
  rewrite (concat_split d i Hi), slice_app_r by nia. rewrite Ht.
  replace (i * d_bs d + off - i * d_bs d) with off by lia.
  by rewrite slice_app_l by lia.
Qed.

Lemma in_disk_valid d i : wf_disk d -> in_disk d i -> index_valid i = true.
Proof.
  intros Hwf Hi. pose proof (wf_bs_pos d Hwf). destruct Hwf as (_ & _ & Hs).
  unfold in_disk in Hi. unfold index_valid.
  assert (d_size d <= d_size d * d_bs d) by nia.
  destruct (Z.eqb_spec i invalid_value); [lia|done].
Qed.

Lemma flat_append d new : flat (disk_append new d) = flat d ++ concat new.
Proof. unfold flat. simpl. apply concat_app. Qed.
End disk.

(** ** src/memory_engine.cpp *)

Module memory_engine.

Record memory_engine : Set := MemoryEngine {
  geo : geometry;
  m_blocks : list bytes
}.

(** [create_buffer]: malloc succeeds and the buffer is zeroed. *)
Definition create_buffer (size : Z) : bytes := zeros size.

Definition size (e : memory_engine) : Z := zlen (m_blocks e).

(** [memory_engine_impl::access] *)
Definition access (index : Z) : M memory_engine bytes :=
  let* e := get in
  throw_if (size e <=? index) io_error ;;;
  ret (m_blocks e !!! Z.to_nat index).

Definition grow (n : Z) : M memory_engine unit :=
  modify (fun e => MemoryEngine (geo e)
    (m_blocks e ++ replicate (Z.to_nat n) (create_buffer (g_block_size (geo e))))).

Definition store (index : Z) (b : bytes) : M memory_engine unit :=
  modify (fun e => MemoryEngine (geo e) (<[Z.to_nat index := b]> (m_blocks e))).

(** [engine::read], [overwrite_zero], [overwrite] and [grow] of the base
    class; [do_pin] is [access] for every initializer. *)
Definition read (index : Z) : M memory_engine bytes :=
  throw_if (negb (index_valid index)) bad_argument ;;;
  access index.

Definition update (index : Z) (f : bytes -> bytes) : M memory_engine unit :=
  let* b := read index in
  store index (f b).

Definition overwrite_zero (index : Z) : M memory_engine unit :=
  throw_if (negb (index_valid index)) bad_argument ;;;
  let* _ := access index in
  let* bs := gets (fun e => g_block_size (geo e)) in
  store index (zeros bs).

Definition overwrite (index : Z) (data : bytes) : M memory_engine unit :=
  throw_if (negb (index_valid index)) bad_argument ;;;
  let* bs := gets (fun e => g_block_size (geo e)) in
  throw_if (bs <? zlen data) bad_argument ;;;
  let* _ := access index in
  store index (initialize_data bs data).

Definition engine_grow (n : Z) : M memory_engine unit :=
  if 0 <? n then grow n else ret tt.

Definition view (e : memory_engine) : disk := Disk (geo e) (m_blocks e).

#[global] Instance engine : Engine memory_engine := {|
  eng_view := view;
  eng_inv := fun e => wf_disk (view e);
  eng_read := read;
  eng_update := update;
  eng_overwrite := overwrite;
  eng_overwrite_zero := overwrite_zero;
  eng_grow := engine_grow
|}.

#[global] Instance engine_spec : EngineSpec memory_engine.
Proof.
  split.
  - done.
  - intros e i Hwf Hi. unfold eng_read; simpl. unfold read, access, get.
    rewrite (in_disk_valid _ i Hwf Hi). repeat wp_step.
    unfold wp, bind. unfold in_disk, d_size in Hi. simpl in Hi.
    unfold size. rewrite (proj2 (Z.leb_gt _ _)) by lia. done.
  - intros e i f Hwf Hi Hf. unfold eng_update; simpl. unfold update, read, access.
    rewrite (in_disk_valid _ i Hwf Hi). unfold wp, bind, get. unfold in_disk, d_size in Hi. simpl in *.
    unfold size. rewrite (proj2 (Z.leb_gt _ _)) by lia. simpl. split; [|done].
    apply (disk_set_wf (view e)); [done|]. pose proof (length_disk_block (view e) i Hwf Hi). simpl in *.
    unfold disk_block in *. simpl in *. lia.
  - intros e i data Hwf Hi Hd. unfold eng_overwrite; simpl. unfold overwrite, access.
    rewrite (in_disk_valid _ i Hwf Hi). pose proof Hi as Hi'.
    unfold wp, bind, get, gets. unfold in_disk, d_size in Hi. simpl in *.
    unfold d_bs in Hd. simpl in Hd. unfold size.
    rewrite (proj2 (Z.ltb_ge _ _)) by lia. simpl.
    rewrite (proj2 (Z.leb_gt _ _)) by lia. simpl. split; [|done].
    apply (disk_set_wf (view e)); [done|]. unfold initialize_data, d_bs. simpl.
    rewrite length_app, Nat2Z.inj_add, length_zeros by lia. lia.
  - intros e i Hwf Hi. unfold eng_overwrite_zero; simpl. unfold overwrite_zero, access.
    rewrite (in_disk_valid _ i Hwf Hi). pose proof (wf_bs_pos _ Hwf).
    unfold wp, bind, get, gets. unfold in_disk, d_size in Hi. simpl in *. unfold size.
    rewrite (proj2 (Z.leb_gt _ _)) by lia. simpl. split; [|done].
    apply (disk_set_wf (view e)); [done|]. apply length_zeros. lia.
  - intros e n Hwf Hn Hm. unfold eng_grow; simpl. unfold engine_grow.
    pose proof (wf_bs_pos _ Hwf) as Hbs. destruct Hwf as (Hg & Hb & Hs).
    destruct (Z.ltb_spec 0 n).
    + unfold wp; simpl. split.
      * split_and!; [done| |].
        -- apply Forall_app. split; [done|]. apply Forall_replicate.
           unfold d_bs, create_buffer. simpl. apply length_zeros.
           unfold d_bs in Hbs. simpl in Hbs. lia.
        -- unfold d_size, d_bs in *. simpl in *. rewrite length_app, length_replicate. lia.
      * eexists. split; [|done]. rewrite length_replicate. lia.
    + unfold wp; simpl. split; [done|]. exists []. split; [simpl; lia|].
      unfold disk_append. simpl. by rewrite app_nil_r.
  - intros e f data. done.
Qed.

End memory_engine.
