(* ===== verification/LinearIO.v ===== *)
(** * Linear I/O (src/address.cpp, src/block_index.cpp)

    Reads, writes, zeroing and overlapping copies of byte ranges that span
    blocks.  The engine is any instance of the interface; the specification
    is the same operation on the flat array of bytes [flat (eng_view e)]. *)

From Stdlib Require Import Strings.Byte.
From S2P Require Import Prelude MathOps Blocks EngineSpec.

Section LinearIO.
Context {E : Type} `{Engine E}.

Definition engine_geometry : M E geometry := gets (fun e => d_geo (eng_view e)).

(** The loop "Write as many full blocks as possible". *)
Fixpoint write_full (fuel : nat) (bs index : Z) (buffer : bytes) : M E (Z * bytes) :=
  if bs <=? zlen buffer then
    match fuel with
    | O => throw check_failure
    | S fuel =>
      eng_overwrite index (slice 0 bs buffer) ;;;
      let* index := lift_result (index_add index 1) in
      write_full fuel bs index (drop (Z.to_nat bs) buffer)
    end
  else ret (index, buffer).

Definition write (address : Z) (data : bytes) : M E unit :=
  if zlen data =? 0 then ret tt else
  let* g := engine_geometry in
  let bs := g_block_size g in
  let index := to_block g address in
  let offset := to_offset g address in
  let* (index, buffer) :=
    (if negb (offset =? 0) then
       let n := Z.min (zlen data) (u32 (bs - offset)) in
       eng_update index (splice offset (slice 0 n data)) ;;;
       let* index := lift_result (index_add index 1) in
       ret (index, drop (Z.to_nat n) data)
     else ret (index, data)) in
  let* (index, buffer) := write_full (length data) bs index buffer in
  if 0 <? zlen buffer then eng_update index (splice 0 buffer) else ret tt.

(** "Full block reads"; [acc] is the part of the buffer already filled. *)
Fixpoint read_full (fuel : nat) (bs index size : Z) (acc : bytes) : M E (Z * Z * bytes) :=
  if bs <=? size then
    match fuel with
    | O => throw check_failure
    | S fuel =>
      let* block := eng_read index in
      let* index := lift_result (index_add index 1) in
      read_full fuel bs index (size - bs) (acc ++ slice 0 bs block)
    end
  else ret (index, size, acc).

Definition read (address size : Z) : M E bytes :=
  if size =? 0 then ret [] else
  let* g := engine_geometry in
  let bs := g_block_size g in
  let index := to_block g address in
  let offset := to_offset g address in
  let* (index, remaining, acc) :=
    (if negb (offset =? 0) then
       let n := Z.min size (u32 (bs - offset)) in
       let* block := eng_read index in
       let* index := lift_result (index_add index 1) in
       ret (index, size - n, slice offset n block)
     else ret (index, size, [])) in
  let* (index, remaining, acc) := read_full (Z.to_nat size) bs index remaining acc in
  if 0 <? remaining then
    let* block := eng_read index in
    ret (acc ++ slice 0 remaining block)
  else ret acc.

Fixpoint zero_full (fuel : nat) (bs index size : Z) : M E (Z * Z) :=
  if bs <=? size then
    match fuel with
    | O => throw check_failure
    | S fuel =>
      eng_overwrite_zero index ;;;
      let* index := lift_result (index_add index 1) in
      zero_full fuel bs index (size - bs)
    end
  else ret (index, size).

Definition zero (address size : Z) : M E unit :=
  if size =? 0 then ret tt else
  let* g := engine_geometry in
  let bs := g_block_size g in
  let index := to_block g address in
  let offset := to_offset g address in
  let* (index, remaining) :=
    (if negb (offset =? 0) then
       let n := Z.min size (u32 (bs - offset)) in
       eng_update index (splice offset (zeros n)) ;;;
       let* index := lift_result (index_add index 1) in
       ret (index, size - n)
     else ret (index, size)) in
  let* (index, remaining) := zero_full (Z.to_nat size) bs index remaining in
  if 0 <? remaining then eng_update index (splice 0 (zeros remaining)) else ret tt.

(** The handle variables of the copy loops: the index of the block they
    refer to, or [None] for an invalid handle. *)
Definition handle : Set := option Z.

Definition handle_valid (h : handle) : bool := match h with Some _ => true | None => false end.
Definition handle_index (h : handle) : Z := match h with Some i => i | None => invalid_value end.

Fixpoint copy_forward_loop (fuel : nat) (g : geometry) (can_overwrite : bool)
    (src_handle dest_handle : handle) (src dest size : Z) : M E unit :=
  if 0 <? size then
    match fuel with
    | O => throw check_failure
    | S fuel =>
      let bs := g_block_size g in
      let* dest_handle :=
        (if negb (handle_valid dest_handle) || (to_offset g dest =? 0) then
           if can_overwrite && (to_offset g dest =? 0) && (bs <=? size)
           then eng_overwrite_zero (to_block g dest) ;;; ret (Some (to_block g dest))
           else eng_read (to_block g dest) ;;; ret (Some (to_block g dest))
         else ret dest_handle) in
      let* src_handle :=
        (if negb (handle_valid src_handle) || (to_offset g src =? 0)
         then eng_read (to_block g src) ;;; ret (Some (to_block g src))
         else ret src_handle) in
      let chunk := Z.min (u32 (bs - to_offset g src)) (u32 (bs - to_offset g dest)) in
      let chunk := if size <? chunk then size else chunk in
      assert! (handle_index dest_handle =? to_block g dest) ;;;
      assert! (handle_index src_handle =? to_block g src) ;;;
      let* data := eng_read (handle_index src_handle) in
      eng_update (handle_index dest_handle)
        (splice (to_offset g dest) (slice (to_offset g src) chunk data)) ;;;
      let* src := lift_result (addr_add src chunk) in
      let* dest := lift_result (addr_add dest chunk) in
      copy_forward_loop fuel g can_overwrite src_handle dest_handle src dest (size - chunk)
    end
  else ret tt.

Definition copy_forward (src dest size : Z) : M E unit :=
  let* g := engine_geometry in
  let* distance := lift_result (addr_distance src dest) in
  copy_forward_loop (Z.to_nat size) g (g_block_size g <=? distance) None None src dest size.

Fixpoint copy_backward_loop (fuel : nat) (g : geometry) (can_overwrite : bool)
    (src_handle dest_handle : handle) (src dest size : Z) : M E unit :=
  if 0 <? size then
    match fuel with
    | O => throw check_failure
    | S fuel =>
      let bs := g_block_size g in
      let* dest_handle :=
        (if negb (handle_valid dest_handle) || (to_offset g dest =? 0) then
           let* last := lift_result (addr_sub dest 1) in
           if can_overwrite && (to_offset g dest =? 0) && (bs <=? size)
           then eng_overwrite_zero (to_block g last) ;;; ret (Some (to_block g last))
           else eng_read (to_block g last) ;;; ret (Some (to_block g last))
         else ret dest_handle) in
      let* src_handle :=
        (if negb (handle_valid src_handle) || (to_offset g src =? 0) then
           let* last := lift_result (addr_sub src 1) in
           eng_read (to_block g last) ;;; ret (Some (to_block g last))
         else ret src_handle) in
      let chunk := Z.min (if to_offset g src =? 0 then bs else to_offset g src)
                         (if to_offset g dest =? 0 then bs else to_offset g dest) in
      let chunk := if size <? chunk then size else chunk in
      let* src := lift_result (addr_sub src chunk) in
      let* dest := lift_result (addr_sub dest chunk) in
      assert! (handle_index dest_handle =? to_block g dest) ;;;
      assert! (handle_index src_handle =? to_block g src) ;;;
      let* data := eng_read (handle_index src_handle) in
      eng_update (handle_index dest_handle)
        (splice (to_offset g dest) (slice (to_offset g src) chunk data)) ;;;
      copy_backward_loop fuel g can_overwrite src_handle dest_handle src dest (size - chunk)
    end
  else ret tt.

Definition copy_backward (src dest size : Z) : M E unit :=
  let* g := engine_geometry in
  let* distance := lift_result (addr_distance src dest) in
  let* src := lift_result (addr_add src size) in
  let* dest := lift_result (addr_add dest size) in
  copy_backward_loop (Z.to_nat size) g (g_block_size g <=? distance) None None src dest size.

Definition copy (src dest size : Z) : M E unit :=
  assert! (addr_valid dest) ;;;
  assert! (addr_valid src) ;;;
  if (dest =? src) || (size =? 0) then ret tt else
  if addr_ltb dest src then copy_forward src dest size else
  let* src_end := lift_result (addr_add src size) in
  if addr_leb src_end dest then copy_forward src dest size
  else copy_backward src dest size.

Definition zero_blocks (index size : Z) : M E unit :=
  let* g := engine_geometry in
  let* a := lift_result (to_address g index 0) in
  zero a (to_byte_size g size).

Definition copy_blocks (src dest size : Z) : M E unit :=
  let* g := engine_geometry in
  let* s := lift_result (to_address g src 0) in
  let* d := lift_result (to_address g dest 0) in
  copy s d (to_byte_size g size).
End LinearIO.

(** ** Specifications *)

(** [d'] is [d] with the bytes [x] written at address [a]. *)
Definition writes_at (d : disk) (a : Z) (x : bytes) (d' : disk) : Prop :=
  wf_disk d' /\ d_geo d' = d_geo d /\ d_size d' = d_size d /\ flat d' = splice a x (flat d).

Lemma writes_at_nil d a : wf_disk d -> writes_at d a [] d.
Proof. intros. unfold writes_at. by rewrite splice_nil. Qed.

Lemma writes_at_bs d a x d' : writes_at d a x d' -> d_bs d' = d_bs d.
Proof. intros (_ & Hg & _). unfold d_bs. by rewrite Hg. Qed.

Lemma writes_at_app d a x d' b y d'' :
  wf_disk d -> 0 <= a -> a + zlen x + zlen y <= d_size d * d_bs d -> b = a + zlen x ->
  writes_at d a x d' -> writes_at d' b y d'' -> writes_at d a (x ++ y) d''.
Proof.
  intros Hwf Ha Hl -> (_ & Hg & Hs & Hf) (Hwf' & Hg' & Hs' & Hf').
  split_and!; [done|congruence|congruence|].
  rewrite Hf', Hf. apply splice_splice_adjacent; [done|]. rewrite length_flat by done. lia.
Qed.

Section LinearIO_spec.
Context {E : Type} `{EngineSpec E}.
Implicit Types (e : E).

Abbreviation bs e := (d_bs (eng_view e)).
Abbreviation total e := (d_size (eng_view e) * d_bs (eng_view e)).

Lemma update_writes_at e i off x :
  eng_inv e -> in_disk (eng_view e) i -> 0 <= off -> off + zlen x <= bs e ->
  wp (eng_update i (splice off x)) e (fun _ e' =>
    eng_inv e' /\ writes_at (eng_view e) (i * bs e + off) x (eng_view e')).
Proof.
  intros Hinv Hi Ho Hx. pose proof (spec_wf e Hinv) as Hwf.
  pose proof (length_disk_block _ i Hwf Hi) as Hl.
  assert (zlen (splice off x (disk_block (eng_view e) i)) = bs e) as Hl'
    by (rewrite length_splice; lia).
  eapply wp_mono; [apply spec_update; [done..|lia]|]. simpl. intros _ e' [Hinv' Hv].
  split; [done|]. rewrite Hv. split_and!.
  - by apply disk_set_wf.
  - done.
  - apply disk_set_size.
  - by apply flat_splice.
Qed.

Lemma overwrite_writes_at e i x :
  eng_inv e -> in_disk (eng_view e) i -> zlen x = bs e ->
  wp (eng_overwrite i x) e (fun _ e' =>
    eng_inv e' /\ writes_at (eng_view e) (i * bs e) x (eng_view e')).
Proof.
  intros Hinv Hi Hx. pose proof (spec_wf e Hinv) as Hwf.
  pose proof (length_disk_block _ i Hwf Hi) as Hl.
  eapply wp_mono; [apply spec_overwrite; [done..|lia]|]. simpl. intros _ e' [Hinv' Hv].
  split; [done|]. rewrite Hv. unfold initialize_data. rewrite Hx, Z.sub_diag.
  change (zeros 0) with (@nil byte). rewrite app_nil_r. split_and!.
  - by apply disk_set_wf.
  - done.
  - apply disk_set_size.
  - rewrite <- (splice_all x (disk_block (eng_view e) i)) at 1 by lia.
    rewrite flat_splice by (done || lia). f_equal. lia.
Qed.

Lemma overwrite_zero_writes_at e i :
  eng_inv e -> in_disk (eng_view e) i ->
  wp (eng_overwrite_zero i) e (fun _ e' =>
    eng_inv e' /\ writes_at (eng_view e) (i * bs e) (zeros (bs e)) (eng_view e')).
Proof.
  intros Hinv Hi. pose proof (spec_wf e Hinv) as Hwf. pose proof (wf_bs_pos _ Hwf).
  pose proof (length_disk_block _ i Hwf Hi) as Hl.
  assert (zlen (zeros (bs e)) = bs e) as Hz by (apply length_zeros; lia).
  eapply wp_mono; [by apply spec_overwrite_zero|]. simpl. intros _ e' [Hinv' Hv].
  split; [done|]. rewrite Hv. split_and!.
  - by apply disk_set_wf.
  - done.
  - apply disk_set_size.
  - rewrite <- (splice_all (zeros (bs e)) (disk_block (eng_view e) i)) at 1 by lia.
    rewrite flat_splice by (done || lia). f_equal. lia.
Qed.

Lemma index_add_one e i :
  eng_inv e -> in_disk (eng_view e) i -> index_add i 1 = Ok (i + 1).
Proof.
  intros Hinv Hi. pose proof (spec_wf e Hinv) as Hwf.
  unfold index_add. rewrite (in_disk_valid _ i Hwf Hi). f_equal. apply wrap_small.
  pose proof (wf_bs_pos _ Hwf). destruct Hwf as (_ & _ & Hs). unfold in_disk in Hi.
  unfold is_word. unfold invalid_value, u64_max in Hs.
  assert (d_size (eng_view e) <= total e) by nia. lia.
Qed.

(** Decomposition of an address inside the disk. *)
Lemma address_parts e a :
  eng_inv e -> 0 <= a < total e ->
  let g := d_geo (eng_view e) in
  exists i off, to_block g a = i /\ to_offset g a = off /\ a = i * bs e + off /\
    0 <= off < bs e /\ in_disk (eng_view e) i.
Proof.
  intros Hinv Ha g. pose proof (spec_wf e Hinv) as Hwf. pose proof (wf_bs_pos _ Hwf) as Hb.
  destruct Hwf as (Hg & _ & Hs).
  assert (bs e <> 0) as Hbz by lia.
  exists (a / bs e), (a mod bs e). subst g. rewrite to_block_eq, to_offset_eq by (done || lia).
  pose proof (Z.div_mod a (bs e) Hbz). pose proof (Z.mod_pos_bound a (bs e) (proj1 Hb)).
  split_and!; try done; try lia. unfold in_disk. nia.
Qed.

Lemma u32_sub_offset e off :
  eng_inv e -> 0 <= off < bs e -> u32 (bs e - off) = bs e - off.
Proof.
  intros Hinv Ho. pose proof (wf_bs_pos _ (spec_wf e Hinv)). apply wrap_small.
  unfold is_word. lia.
Qed.

Lemma write_full_spec fuel : forall e i buf,
  eng_inv e -> 0 <= i -> i * bs e + zlen buf <= total e -> zlen buf <= Z.of_nat fuel ->
  wp (write_full fuel (bs e) i buf) e (fun r e' => eng_inv e' /\
    exists x, buf = x ++ snd r /\ fst r * bs e = i * bs e + zlen x /\ 0 <= fst r /\
      zlen (snd r) < bs e /\ writes_at (eng_view e) (i * bs e) x (eng_view e')).
Proof.
  induction fuel as [|fuel IH]; intros e i buf Hinv Hi Hl Hf;
    pose proof (spec_wf e Hinv) as Hwf; pose proof (wf_bs_pos _ Hwf); cbn [write_full];
    destruct (Z.leb_spec (bs e) (zlen buf)) as [Hge|Hlt]; try lia.
  1,3: apply wp_ret; split; [done|]; exists []; split_and!; try done; simpl; try lia;
    by apply writes_at_nil.
  assert (in_disk (eng_view e) i) as Hin by (unfold in_disk; nia).
  assert (zlen (slice 0 (bs e) buf) = bs e) as Hsl by (apply length_slice; lia).
  apply wp_bind. eapply wp_mono; [by apply overwrite_writes_at|].
  cbn beta. intros _ e1 [Hinv1 Hw1].
  rewrite (index_add_one e i Hinv Hin). apply wp_bind, wp_lift_result.
  pose proof (writes_at_bs _ _ _ _ Hw1) as Hbs1. pose proof Hw1 as (_ & _ & Hs1 & _).
  rewrite <- Hbs1.
  eapply wp_mono; [apply IH; rewrite ?Hbs1, ?Hs1; try done; len || nia|].
  cbn beta. intros [i' rest] e2 (Hinv2 & x & Hx & Hi' & Hi0 & Hr & Hw2). simpl in *.
  split; [done|]. rewrite Hbs1 in *. exists (slice 0 (bs e) buf ++ x).
  assert (buf = slice 0 (bs e) buf ++ x ++ rest) as Hbuf.
  { rewrite <- Hx. unfold slice. simpl. by rewrite drop_0, take_drop. }
  rewrite length_app. split_and!; [by rewrite <- app_assoc|lia|done|done|].
  apply (f_equal length) in Hbuf. rewrite !length_app in Hbuf.
  eapply writes_at_app; [done| | | |exact Hw1|exact Hw2]; nia.
Qed.

(** The state between two phases of a linear write: [x] has been written,
    [rest] has not, and the cursor is at the next block boundary. *)
Definition write_phase e a data (r : Z * bytes) e' : Prop :=
  eng_inv e' /\ exists x, data = x ++ snd r /\
    writes_at (eng_view e) a x (eng_view e') /\
    (snd r = [] \/ 0 <= fst r /\ fst r * bs e = a + zlen x).

Lemma write_full_phase e e1 a data i rest fuel :
  eng_inv e -> 0 <= a -> a + zlen data <= total e -> zlen data <= Z.of_nat fuel ->
  write_phase e a data (i, rest) e1 ->
  wp (write_full fuel (bs e) i rest) e1 (fun r e2 =>
    write_phase e a data r e2 /\ zlen (snd r) < bs e).
Proof.
  intros Hinv Ha Hl Hf (Hinv1 & x & Hx & Hw & Hpos). simpl in *.
  pose proof (spec_wf e Hinv) as Hwf. pose proof (wf_bs_pos _ Hwf).
  pose proof (writes_at_bs _ _ _ _ Hw) as Hbs. pose proof Hw as (_ & _ & Hs & _).
  assert (zlen data = zlen x + zlen rest) as Hlen by (rewrite Hx; len).
  destruct rest as [|c rest].
  { destruct fuel; cbn [write_full length]; (destruct (Z.leb_spec (bs e) (Z.of_nat 0)); [lia|]);
      (apply wp_ret; split; [|simpl; lia]; split; [done|]; exists x; simpl; auto). }
  destruct Hpos as [Hpos|[Hi Hpos]]; [done|].
  rewrite <- Hbs. eapply wp_mono; [apply write_full_spec; rewrite ?Hbs, ?Hs; done || lia|].
  cbn beta. rewrite Hbs. intros [i' rest'] e2 (Hinv2 & y & Hy & Hi' & Hi0 & Hr & Hw2). simpl in *.
  split; [|done]. split; [done|]. exists (x ++ y). simpl.
  split_and!; [by rewrite <- app_assoc, <- Hy| |right; len].
  rewrite Hpos in Hw2.
  assert (S (length rest) = length y + length rest')%nat by (rewrite <- length_app, <- Hy; done).
  eapply writes_at_app; [done|done| |reflexivity|exact Hw|exact Hw2]. lia.
Qed.

Lemma write_spec e a data :
  eng_inv e -> 0 <= a -> a + zlen data <= total e ->
  wp (write a data) e (fun _ e' =>
    eng_inv e' /\ writes_at (eng_view e) a data (eng_view e')).
Proof.
  intros Hinv Ha Hl. pose proof (spec_wf e Hinv) as Hwf. pose proof (wf_bs_pos _ Hwf).
  unfold write. destruct (Z.eqb_spec (zlen data) 0) as [Hz|Hz].
  { destruct data; [|simpl in Hz; lia]. apply wp_ret. split; [done|]. by apply writes_at_nil. }
  unfold engine_geometry. wp_steps.
  destruct (address_parts e a Hinv ltac:(lia)) as (i & off & -> & -> & Hai & Ho & Hi).
  change (g_block_size (d_geo (eng_view e))) with (bs e).
  eapply wp_mono with (Q := write_phase e a data).
  - destruct (Z.eqb_spec off 0) as [->|Hoff]; simpl.
    { apply wp_ret. split; [done|]. exists []. simpl.
      split_and!; [done|by apply writes_at_nil|right; unfold in_disk in Hi; lia]. }
    rewrite u32_sub_offset by done. set (n := Z.min _ _).
    assert (zlen (slice 0 n data) = n) as Hn by (apply length_slice; lia).
    wp_step. eapply wp_mono; [apply update_writes_at; done || lia|].
    cbn beta. intros _ e1 [Hinv1 Hw1]. rewrite (index_add_one e i Hinv Hi). wp_steps.
    split; [done|]. exists (slice 0 n data). simpl. rewrite <- Hai in Hw1. split_and!.
    + unfold slice. simpl. by rewrite drop_0, take_drop.
    + done.
    + destruct (decide (n = zlen data)) as [->|]; [left; apply drop_ge; lia|].
      right. unfold in_disk in Hi. lia.
  - intros [i1 rest] e1 Hph. wp_steps.
    eapply wp_mono; [by apply (write_full_phase e e1 a data)|].
    cbn beta. intros [i2 rest2] e2 ((Hinv2 & x & Hx & Hw & Hpos) & Hr). simpl in *.
    destruct (Z.ltb_spec 0 (zlen rest2)) as [Hp|Hp].
    2:{ apply wp_ret. destruct rest2; [|simpl in Hp; lia]. rewrite app_nil_r in Hx. by subst. }
    destruct Hpos as [->|[Hi2 Hpos]]; [simpl in Hp; lia|].
    pose proof (writes_at_bs _ _ _ _ Hw) as Hbs. pose proof Hw as (_ & _ & Hs & _).
    assert (zlen data = zlen x + zlen rest2) as Hlen by (rewrite Hx; len).
    eapply wp_mono; [apply update_writes_at; unfold in_disk; rewrite ?Hs, ?Hbs; done || nia|].
    cbn beta. intros _ e3 [Hinv3 Hw3]. split; [done|]. rewrite Hx.
    rewrite Hbs, Hpos, Z.add_0_r in Hw3.
    eapply writes_at_app; [done|done| |reflexivity|exact Hw|exact Hw3]. lia.
Qed.

(** *** Reading *)

Definition read_phase e a size (r : Z * Z * bytes) e' : Prop :=
  eng_inv e' /\ eng_view e' = eng_view e /\ exists k, 0 <= k /\ 0 <= snd (fst r) /\
    size = k + snd (fst r) /\ snd r = slice a k (flat (eng_view e)) /\
    (snd (fst r) = 0 \/ 0 <= fst (fst r) /\ fst (fst r) * bs e = a + k).

(** Appending a piece of the block under the cursor. *)
Lemma slice_flat_app e a k i n :
  eng_inv e -> 0 <= a -> 0 <= k -> 0 <= n <= bs e -> in_disk (eng_view e) i -> i * bs e = a + k ->
  slice a k (flat (eng_view e)) ++ slice 0 n (disk_block (eng_view e) i) =
    slice a (k + n) (flat (eng_view e)).
Proof.
  intros Hinv Ha Hk Hn Hi Hp. pose proof (spec_wf e Hinv) as Hwf.
  rewrite slice_add by (rewrite ?length_flat by done; unfold in_disk in *; nia).
  f_equal. rewrite <- Hp, <- (Z.add_0_r (i * bs e)). symmetry. by apply flat_slice; [| |lia|lia].
Qed.

Lemma read_full_phase fuel : forall e e1 a size i rem acc,
  eng_inv e -> 0 <= a -> a + size <= total e -> rem <= Z.of_nat fuel ->
  read_phase e a size (i, rem, acc) e1 ->
  wp (read_full fuel (bs e) i rem acc) e1 (fun r e2 =>
    read_phase e a size r e2 /\ snd (fst r) < bs e).
Proof.
  induction fuel as [|fuel IH]; intros e e1 a size i rem acc Hinv Ha Hl Hf Hph;
    pose proof (wf_bs_pos _ (spec_wf e Hinv)); cbn [read_full];
    (destruct (Z.leb_spec (bs e) rem); [|apply wp_ret; by split]).
  { destruct Hph as (_ & _ & k & ? & ? & _). simpl in *. lia. }
  destruct Hph as (Hinv1 & Hv & k & Hk & Hr & Hsz & Hacc & Hpos). simpl in *.
  destruct Hpos as [?|[Hi Hpos]]; [lia|].
  assert (in_disk (eng_view e) i) as Hin by (unfold in_disk; nia).
  wp_step. eapply wp_mono; [apply spec_read; by rewrite ?Hv|].
  cbn beta. intros b e2 (-> & Hinv2 & Hv2).
  rewrite (index_add_one e i Hinv Hin). wp_steps.
  apply IH; try done; [lia|]. split; [done|]. split; [congruence|].
  exists (k + bs e). simpl. rewrite Hv, Hacc. split_and!; try lia.
  rewrite slice_flat_app; done || lia.
Qed.

Lemma read_spec e a size :
  eng_inv e -> 0 <= a -> 0 <= size -> a + size <= total e ->
  wp (read a size) e (fun b e' =>
    eng_inv e' /\ eng_view e' = eng_view e /\ b = slice a size (flat (eng_view e))).
Proof.
  intros Hinv Ha Hs Hl. pose proof (spec_wf e Hinv) as Hwf. pose proof (wf_bs_pos _ Hwf).
  unfold read. destruct (Z.eqb_spec size 0) as [->|Hz]; [by apply wp_ret|].
  unfold engine_geometry. wp_steps.
  destruct (address_parts e a Hinv ltac:(lia)) as (i & off & -> & -> & Hai & Ho & Hi).
  change (g_block_size (d_geo (eng_view e))) with (bs e).
  eapply wp_mono with (Q := read_phase e a size).
  - destruct (Z.eqb_spec off 0) as [->|Hoff]; simpl.
    { apply wp_ret. split; [done|]. split; [done|]. exists 0. simpl.
      unfold in_disk in Hi. split_and!; try lia. done. }
    rewrite u32_sub_offset by done. set (n := Z.min _ _).
    wp_step. eapply wp_mono; [by apply spec_read|]. cbn beta. intros b e1 (-> & Hinv1 & Hv1).
    rewrite (index_add_one e i Hinv Hi). wp_steps.
    split; [done|]. split; [done|]. exists n. simpl. unfold in_disk in Hi.
    split_and!; try lia. rewrite Hai. symmetry. apply flat_slice; done || lia.
  - intros [[i1 rem] acc] e1 Hph. wp_steps.
    assert (rem <= size) by (destruct Hph as (_ & _ & k & ? & ? & ? & _); simpl in *; lia).
    eapply wp_mono; [apply (read_full_phase _ e e1 a size); done || lia|].
    cbn beta. intros [[i2 rem2] acc2] e2 ((Hinv2 & Hv2 & k & Hk & Hr0 & Hsz & Hacc & Hpos) & Hr).
    simpl in *. destruct (Z.ltb_spec 0 rem2) as [Hp|Hp].
    + destruct Hpos as [?|[Hi2 Hpos]]; [lia|].
      assert (in_disk (eng_view e) i2) as Hin by (unfold in_disk; nia).
      wp_step. eapply wp_mono; [apply spec_read; by rewrite ?Hv2|].
      cbn beta. intros b e3 (-> & Hinv3 & Hv3). wp_steps. split_and!; [done|congruence|].
      rewrite Hv2, Hacc, Hsz. apply slice_flat_app; done || lia.
    + apply wp_ret. split_and!; [done..|]. rewrite Hacc. f_equal. lia.
Qed.

(** *** Zeroing *)

Definition zero_phase e a size (r : Z * Z) e' : Prop :=
  eng_inv e' /\ exists k, 0 <= k /\ 0 <= snd r /\ size = k + snd r /\
    writes_at (eng_view e) a (zeros k) (eng_view e') /\
    (snd r = 0 \/ 0 <= fst r /\ fst r * bs e = a + k).

Lemma writes_at_zeros e e1 e2 a k n :
  eng_inv e -> 0 <= a -> 0 <= k -> 0 <= n -> a + k + n <= total e ->
  writes_at (eng_view e) a (zeros k) (eng_view e1) ->
  writes_at (eng_view e1) (a + k) (zeros n) (eng_view e2) ->
  writes_at (eng_view e) a (zeros (k + n)) (eng_view e2).
Proof.
  intros Hinv Ha Hk Hn Hl H1 H2. rewrite zeros_add by done.
  eapply writes_at_app; [by apply spec_wf|done| | |exact H1|exact H2]; rewrite !length_zeros; lia.
Qed.

Lemma zero_full_phase fuel : forall e e1 a size i rem,
  eng_inv e -> 0 <= a -> a + size <= total e -> rem <= Z.of_nat fuel ->
  zero_phase e a size (i, rem) e1 ->
  wp (zero_full fuel (bs e) i rem) e1 (fun r e2 =>
    zero_phase e a size r e2 /\ snd r < bs e).
Proof.
  induction fuel as [|fuel IH]; intros e e1 a size i rem Hinv Ha Hl Hf Hph;
    pose proof (wf_bs_pos _ (spec_wf e Hinv)); cbn [zero_full];
    (destruct (Z.leb_spec (bs e) rem); [|apply wp_ret; by split]).
  { destruct Hph as (_ & k & ? & ? & _). simpl in *. lia. }
  destruct Hph as (Hinv1 & k & Hk & Hr & Hsz & Hw & Hpos). simpl in *.
  destruct Hpos as [?|[Hi Hpos]]; [lia|].
  pose proof (writes_at_bs _ _ _ _ Hw) as Hbs. pose proof Hw as (_ & _ & Hs & _).
  assert (in_disk (eng_view e1) i) as Hin by (unfold in_disk; rewrite Hs; nia).
  wp_step. eapply wp_mono; [by apply overwrite_zero_writes_at|].
  cbn beta. rewrite Hbs, Hpos. intros _ e2 (Hinv2 & Hw2).
  rewrite (index_add_one e1 i Hinv1 Hin). wp_steps.
  apply IH; try done; [lia|]. split; [done|].
  exists (k + bs e). simpl. split_and!; try lia. apply (writes_at_zeros e e1 e2); done || lia.
Qed.

Lemma zero_spec e a size :
  eng_inv e -> 0 <= a -> 0 <= size -> a + size <= total e ->
  wp (zero a size) e (fun _ e' =>
    eng_inv e' /\ writes_at (eng_view e) a (zeros size) (eng_view e')).
Proof.
  intros Hinv Ha Hs Hl. pose proof (spec_wf e Hinv) as Hwf. pose proof (wf_bs_pos _ Hwf).
  unfold zero. destruct (Z.eqb_spec size 0) as [->|Hz].
  { apply wp_ret. split; [done|]. by apply writes_at_nil. }
  unfold engine_geometry. wp_steps.
  destruct (address_parts e a Hinv ltac:(lia)) as (i & off & -> & -> & Hai & Ho & Hi).
  change (g_block_size (d_geo (eng_view e))) with (bs e).
  eapply wp_mono with (Q := zero_phase e a size).
  - destruct (Z.eqb_spec off 0) as [->|Hoff]; simpl.
    { apply wp_ret. split; [done|]. exists 0. simpl. unfold in_disk in Hi.
      split_and!; try lia. by apply writes_at_nil. }
    rewrite u32_sub_offset by done. set (n := Z.min _ _).
    wp_step. eapply wp_mono; [apply update_writes_at; rewrite ?length_zeros; done || lia|].
    cbn beta. rewrite <- Hai. intros _ e1 (Hinv1 & Hw1).
    rewrite (index_add_one e i Hinv Hi). wp_steps.
    split; [done|]. exists n. simpl. unfold in_disk in Hi. split_and!; try lia. done.
  - intros [i1 rem] e1 Hph. wp_steps.
    assert (rem <= size) by (destruct Hph as (_ & k & ? & ? & ? & _); simpl in *; lia).
    eapply wp_mono; [apply (zero_full_phase _ e e1 a size); done || lia|].
    cbn beta. intros [i2 rem2] e2 ((Hinv2 & k & Hk & Hr0 & Hsz & Hw & Hpos) & Hr). simpl in *.
    destruct (Z.ltb_spec 0 rem2) as [Hp|Hp].
    2:{ apply wp_ret. replace rem2 with 0 in Hsz by lia. rewrite Z.add_0_r in Hsz. by subst. }
    destruct Hpos as [?|[Hi2 Hpos]]; [lia|].
    pose proof (writes_at_bs _ _ _ _ Hw) as Hbs. pose proof Hw as (_ & _ & Hs2 & _).
    eapply wp_mono; [apply update_writes_at; unfold in_disk;
      rewrite ?Hs2, ?Hbs, ?length_zeros; done || nia|].
    cbn beta. rewrite Hbs, Hpos, Z.add_0_r. intros _ e3 (Hinv3 & Hw3). split; [done|].
    rewrite Hsz. apply (writes_at_zeros e e2 e3); done || lia.
Qed.
End LinearIO_spec.

(** ** Copying overlapping ranges

    Offsets into the copied range are split into those already copied
    ([done]) and those whose source bytes are still needed ([todo]). *)

Definition zget (l : bytes) (z : Z) : option byte := l !! Z.to_nat z.

Record copy_inv (d0 : disk) (src dest size : Z) (done todo : Z -> Prop) (d : disk) : Prop := {
  ci_wf : wf_disk d;
  ci_geo : d_geo d = d_geo d0;
  ci_size : d_size d = d_size d0;
  ci_done : forall o, done o -> 0 <= o < size ->
    zget (flat d) (dest + o) = zget (flat d0) (src + o);
  ci_frame : forall z, 0 <= z -> ~ (dest <= z < dest + size) ->
    zget (flat d) z = zget (flat d0) z;
  ci_todo : forall o, todo o -> 0 <= o < size ->
    zget (flat d) (src + o) = zget (flat d0) (src + o)
}.

Lemma zget_splice a x l z :
  0 <= a -> a + zlen x <= zlen l -> 0 <= z ->
  zget (splice a x l) z = if decide (a <= z < a + zlen x) then zget x (z - a) else zget l z.
Proof.
  intros. unfold zget. rewrite lookup_splice by done. repeat case_decide; try lia; [|done].
  f_equal. lia.
Qed.

Lemma zget_slice a n l o :
  0 <= a -> 0 <= o < n -> zget (slice a n l) o = zget l (a + o).
Proof.
  intros. unfold zget. rewrite lookup_slice, decide_True by lia. f_equal. lia.
Qed.

Section copy_steps.
Context (d0 : disk) (src dest size : Z).
Context (Hwf0 : wf_disk d0) (Hsrc : 0 <= src) (Hdest : 0 <= dest) (Hsize : 0 <= size).
Context (Hsb : src + size <= d_size d0 * d_bs d0) (Hdb : dest + size <= d_size d0 * d_bs d0).
Abbreviation inv := (copy_inv d0 src dest size).

Lemma copy_inv_bs done todo d : inv done todo d -> d_bs d = d_bs d0.
Proof. intros []. unfold d_bs. by rewrite ci_geo0. Qed.

Lemma copy_inv_length done todo d : inv done todo d -> zlen (flat d) = d_size d0 * d_bs d0.
Proof.
  intros Hd. pose proof (copy_inv_bs _ _ _ Hd) as Hb. destruct Hd.
  rewrite length_flat, ci_size0, Hb by done. done.
Qed.

Lemma copy_inv_chunk done todo todo' d d' o1 c :
  inv done todo d -> 0 <= o1 -> 0 <= c -> o1 + c <= size ->
  (forall o, o1 <= o < o1 + c -> todo o) ->
  (forall o, 0 <= o < size -> todo' o ->
     todo o /\ ~ (dest + o1 <= src + o < dest + o1 + c)) ->
  writes_at d (dest + o1) (slice (src + o1) c (flat d)) d' ->
  inv (fun o => done o \/ o1 <= o < o1 + c) todo' d'.
Proof.
  intros Hd Ho1 Hc Hoc Htodo Htodo' (Hwf' & Hg' & Hs' & Hf').
  pose proof (copy_inv_length _ _ _ Hd) as Hl. destruct Hd.
  assert (zlen (slice (src + o1) c (flat d)) = c) as Hlc by (apply length_slice; lia).
  split; [done|congruence|congruence|..]; intros;
    rewrite Hf', zget_splice by lia; rewrite Hlc; case_decide as Hcase; try lia.
  - rewrite zget_slice by lia.
    replace (src + o1 + (dest + o - (dest + o1))) with (src + o) by lia.
    apply ci_todo0; [apply Htodo|]; lia.
  - apply ci_done0; [|lia]. destruct H; [done|lia].
  - by apply ci_frame0.
  - destruct (Htodo' o); [lia|done|lia].
  - apply ci_todo0; [by apply Htodo'|lia].
Qed.

(** Zeroing a block of the destination before it is filled. *)
Lemma copy_inv_zero done todo d d' o1 n :
  inv done todo d -> 0 <= n -> 0 <= o1 -> o1 + n <= size ->
  (forall o, 0 <= o < size -> done o -> ~ (o1 <= o < o1 + n)) ->
  (forall o, 0 <= o < size -> todo o -> ~ (dest + o1 <= src + o < dest + o1 + n)) ->
  writes_at d (dest + o1) (zeros n) d' -> inv done todo d'.
Proof.
  intros Hd Hn Ho1 Hon Hdone Htodo (Hwf' & Hg' & Hs' & Hf').
  pose proof (copy_inv_length _ _ _ Hd) as Hl. destruct Hd.
  pose proof (length_zeros n Hn) as Hln.
  split; [done|congruence|congruence|..]; intros;
    rewrite Hf', zget_splice by lia; rewrite Hln; case_decide as Hcase; try lia.
  - destruct (Hdone o); done || lia.
  - by apply ci_done0.
  - by apply ci_frame0.
  - destruct (Htodo o); done || lia.
  - by apply ci_todo0.
Qed.

(** When everything is copied the result is that of a memmove. *)
Lemma copy_inv_finish (done todo : Z -> Prop) d :
  inv done todo d -> (forall o, 0 <= o < size -> done o) ->
  writes_at d0 dest (slice src size (flat d0)) d.
Proof.
  intros Hd Hdone. pose proof (copy_inv_length _ _ _ Hd) as Hl. destruct Hd.
  split_and!; [done..|]. pose proof (length_flat d0 Hwf0) as Hl0.
  assert (zlen (slice src size (flat d0)) = size) as Hls by (apply length_slice; lia).
  apply list_eq. intros j.
  pose proof (zget_splice dest (slice src size (flat d0)) (flat d0) (Z.of_nat j)) as Hz.
  unfold zget in Hz at 1. rewrite Nat2Z.id in Hz. rewrite Hz, Hls by lia. clear Hz.
  case_decide as Hcase.
  - rewrite zget_slice by lia.
    rewrite <- ci_done0 by (lia || (apply Hdone; lia)).
    unfold zget. f_equal. lia.
  - rewrite <- ci_frame0 by lia. unfold zget. f_equal. lia.
Qed.
End copy_steps.

Section copy_loops.
Context {E : Type} `{EngineSpec E}.
Context (d0 : disk) (src dest size : Z).
Context (Hwf0 : wf_disk d0) (Hsrc : 0 <= src) (Hdest : 0 <= dest) (Hsize : 0 <= size).
Context (Hsb : src + size <= d_size d0 * d_bs d0) (Hdb : dest + size <= d_size d0 * d_bs d0).
Implicit Types (e : E) (h : handle).
Abbreviation inv := (copy_inv d0 src dest size).
Abbreviation g := (d_geo d0).
Abbreviation bs := (d_bs d0).

(** A handle kept from the previous iteration is for the block of [a]
    whenever it is used again. *)
Definition handle_ok (h : handle) (a : Z) : Prop :=
  handle_valid h = true -> to_offset g a <> 0 -> handle_index h = to_block g a.

Lemma inv_parts e done todo a :
  eng_inv e -> inv done todo (eng_view e) -> 0 <= a < d_size d0 * bs ->
  exists i off, to_block g a = i /\ to_offset g a = off /\ a = i * bs + off /\
    0 <= off < bs /\ in_disk (eng_view e) i.
Proof.
  intros Hinv Hc Ha. pose proof (copy_inv_bs _ _ _ _ _ _ _ Hc) as Hb.
  destruct Hc. destruct (address_parts e a Hinv) as (i & off & Hi); [by rewrite ci_size0, Hb|].
  rewrite ci_geo0, Hb in Hi. by exists i, off.
Qed.

Lemma block_of_parts a i off :
  0 <= a < invalid_value -> a = i * bs + off -> 0 <= off < bs ->
  to_block g a = i /\ to_offset g a = off.
Proof.
  intros Ha -> Ho. destruct Hwf0 as (Hg & _).
  rewrite to_block_eq, to_offset_eq by done. change (g_block_size g) with bs. split.
  - rewrite Z.div_add_l, Z.div_small by lia. lia.
  - rewrite Z.add_comm, Z.mod_add by lia. by apply Z.mod_small.
Qed.

Lemma total_valid : d_size d0 * bs < invalid_value.
Proof. by destruct Hwf0 as (_ & _ & ?). Qed.

Lemma addr_add_in a n :
  0 <= a < invalid_value -> 0 <= n -> a + n < invalid_value -> addr_add a n = Ok (a + n).
Proof.
  intros. unfold addr_add, addr_valid. destruct (Z.eqb_spec a invalid_value); [lia|]. simpl.
  rewrite wrap_small; [done|]. unfold is_word, invalid_value, u64_max in *. lia.
Qed.

Lemma addr_sub_in a n :
  0 <= a < invalid_value -> 0 <= n <= a -> addr_sub a n = Ok (a - n).
Proof.
  intros. unfold addr_sub, addr_valid. destruct (Z.eqb_spec a invalid_value); [lia|]. simpl.
  rewrite wrap_small; [done|]. unfold is_word, invalid_value, u64_max in *. lia.
Qed.

Lemma read_keeps e done todo i (Q : bytes -> E -> Prop) :
  eng_inv e -> inv done todo (eng_view e) -> in_disk (eng_view e) i ->
  (forall e', eng_inv e' -> eng_view e' = eng_view e -> Q (disk_block (eng_view e) i) e') ->
  wp (eng_read i) e Q.
Proof.
  intros Hinv Hc Hi HQ. eapply wp_mono; [by apply spec_read|].
  simpl. intros b e' (-> & ? & ?). by apply HQ.
Qed.

(** The memmove at the heart of both loops. *)
Lemma memmove_chunk e done todo todo' o1 c si so di do_ (k : M E unit) (Q : unit -> E -> Prop) :
  eng_inv e -> inv done todo (eng_view e) -> 0 <= o1 -> 0 <= c -> o1 + c <= size ->
  in_disk (eng_view e) si -> in_disk (eng_view e) di ->
  src + o1 = si * bs + so -> 0 <= so -> so + c <= bs ->
  dest + o1 = di * bs + do_ -> 0 <= do_ -> do_ + c <= bs ->
  (forall o, o1 <= o < o1 + c -> todo o) ->
  (forall o, 0 <= o < size -> todo' o ->
     todo o /\ ~ (dest + o1 <= src + o < dest + o1 + c)) ->
  (forall e', eng_inv e' -> inv (fun o => done o \/ o1 <= o < o1 + c) todo' (eng_view e') ->
     wp k e' Q) ->
  wp (let* data := eng_read si in
      eng_update di (splice do_ (slice so c data)) ;;; k) e Q.
Proof.
  intros Hinv Hc Ho1 Hc0 Hoc Hsi Hdi Hs Hso Hsoc Hd Hdo Hdoc Ht Ht' HQ.
  pose proof (copy_inv_bs _ _ _ _ _ _ _ Hc) as Hb. pose proof (spec_wf e Hinv) as Hwf.
  pose proof (length_disk_block _ si Hwf Hsi) as Hl.
  wp_step. eapply read_keeps; [done..|]. intros e1 Hinv1 Hv1.
  assert (zlen (slice so c (disk_block (eng_view e) si)) = c) as Hlc by (apply length_slice; lia).
  wp_step. eapply wp_mono; [apply update_writes_at; rewrite ?Hv1; done || lia|].
  cbn beta. intros _ e2 [Hinv2 Hw]. apply HQ; [done|].
  eapply copy_inv_chunk; try done. rewrite Hv1, Hb, <- Hd in Hw.
  rewrite Hs. rewrite <- Hb at 1. rewrite flat_slice by (done || lia). done.
Qed.

(** *** Forward *)

Lemma forward_dest_handle e co h k (Q : handle -> E -> Prop) :
  eng_inv e -> inv (fun o => o < k) (fun o => k <= o) (eng_view e) ->
  0 <= k < size -> (co = true -> bs <= Z.abs (src - dest)) -> (dest < src \/ src + size <= dest) ->
  handle_ok h (dest + k) ->
  (forall h' e', eng_inv e' -> inv (fun o => o < k) (fun o => k <= o) (eng_view e') ->
     handle_index h' = to_block g (dest + k) -> handle_valid h' = true -> Q h' e') ->
  wp (if negb (handle_valid h) || (to_offset g (dest + k) =? 0) then
        if co && (to_offset g (dest + k) =? 0) && (g_block_size g <=? size - k)
        then eng_overwrite_zero (to_block g (dest + k)) ;;; ret (Some (to_block g (dest + k)))
        else eng_read (to_block g (dest + k)) ;;; ret (Some (to_block g (dest + k)))
      else ret h) e Q.
Proof.
  intros Hinv Hc Hk Hco Hdir Hh HQ. change (g_block_size g) with bs.
  destruct (inv_parts e _ _ (dest + k) Hinv Hc ltac:(lia)) as (i & off & Hi & Hoff & Hp & Ho & Hin).
  unfold handle_ok in Hh. rewrite Hi, Hoff in *.
  destruct (negb (handle_valid h) || (off =? 0)) eqn:Hcond.
  2:{ apply orb_false_iff in Hcond as [Hv%negb_false_iff Hz%Z.eqb_neq].
      apply wp_ret. apply HQ; try done. by apply Hh. }
  destruct (co && (off =? 0) && (bs <=? size - k)) eqn:Hzero.
  - apply andb_true_iff in Hzero as [[Hcot Hz%Z.eqb_eq]%andb_true_iff Hb%Z.leb_le].
    specialize (Hco Hcot). pose proof (copy_inv_bs _ _ _ _ _ _ _ Hc) as Hbs.
    wp_step. eapply wp_mono; [by apply overwrite_zero_writes_at|].
    cbn beta. rewrite Hbs. intros _ e1 [Hinv1 Hw]. apply wp_ret. apply HQ; try done.
    replace (i * bs) with (dest + k) in Hw by lia.
    eapply copy_inv_zero with (o1 := k) (n := bs); try done; lia.
  - wp_step. eapply read_keeps; [done..|]. intros e1 Hinv1 Hv1. apply wp_ret.
    apply HQ; try done. by rewrite Hv1.
Qed.

Lemma src_handle e done todo h a (Q : handle -> E -> Prop) :
  eng_inv e -> inv done todo (eng_view e) -> 0 <= a < d_size d0 * bs -> handle_ok h a ->
  (forall h' e', eng_inv e' -> inv done todo (eng_view e') ->
     handle_index h' = to_block g a -> handle_valid h' = true -> Q h' e') ->
  wp (if negb (handle_valid h) || (to_offset g a =? 0)
      then eng_read (to_block g a) ;;; ret (Some (to_block g a)) else ret h) e Q.
Proof.
  intros Hinv Hc Ha Hh HQ.
  destruct (inv_parts e _ _ a Hinv Hc Ha) as (i & off & Hi & Hoff & Hp & Ho & Hin).
  unfold handle_ok in Hh. rewrite Hi, Hoff in *.
  destruct (negb (handle_valid h) || (off =? 0)) eqn:Hcond.
  - wp_step. eapply read_keeps; [done..|]. intros e1 Hinv1 Hv1. apply wp_ret.
    apply HQ; try done. by rewrite Hv1.
  - apply orb_false_iff in Hcond as [Hv%negb_false_iff Hz%Z.eqb_neq].
    apply wp_ret. apply HQ; try done. by apply Hh.
Qed.

(** A chunk that stays inside a block leaves the handle usable. *)
Lemma handle_ok_advance h a i off c :
  handle_index h = i -> a = i * bs + off -> 0 <= off -> 0 <= c -> off + c <= bs ->
  0 <= a -> a + c < invalid_value -> handle_ok h (a + c).
Proof.
  intros Hh Ha Ho Hc Hoc Ha0 Hm. intros _ Hz. rewrite Hh.
  pose proof (wf_bs_pos _ Hwf0). destruct (decide (off + c = bs)).
  - destruct (block_of_parts (a + c) (i + 1) 0); [lia..|]. congruence.
  - destruct (block_of_parts (a + c) i (off + c)); [lia..|]. done.
Qed.

Lemma copy_forward_loop_spec co fuel : forall e k sh dh,
  eng_inv e -> inv (fun o => o < k) (fun o => k <= o) (eng_view e) ->
  0 <= k <= size -> size - k <= Z.of_nat fuel ->
  (co = true -> bs <= Z.abs (src - dest)) -> (dest < src \/ src + size <= dest) ->
  handle_ok sh (src + k) -> handle_ok dh (dest + k) ->
  wp (copy_forward_loop fuel g co sh dh (src + k) (dest + k) (size - k)) e
    (fun _ e' => eng_inv e' /\ inv (fun o => o < size) (fun o => size <= o) (eng_view e')).
Proof.
  induction fuel as [|fuel IH]; intros e k sh dh Hinv Hc Hk Hf Hco Hdir Hsh Hdh;
    cbn [copy_forward_loop]; destruct (Z.ltb_spec 0 (size - k)); try lia;
    try (apply wp_ret; split; [done|]; by replace k with size in Hc by lia).
  pose proof total_valid as Htv. wp_step.
  apply (forward_dest_handle e co dh k); [done..|lia|done|done|done|].
  intros dh' e1 Hinv1 Hc1 Hdi Hdv. wp_step.
  eapply (src_handle e1); [done|exact Hc1|lia|done|].
  intros sh' e2 Hinv2 Hc2 Hsi Hsv.
  destruct (inv_parts e2 _ _ (src + k) Hinv2 Hc2 ltac:(lia))
    as (si & so & Hsb1 & Hso & Hsp & Hsr & Hsin).
  destruct (inv_parts e2 _ _ (dest + k) Hinv2 Hc2 ltac:(lia))
    as (di & do_ & Hdb1 & Hdo & Hdp & Hdr & Hdin).
  rewrite Hsb1, Hso, Hdb1, Hdo in *. change (g_block_size g) with bs.
  pose proof (wf_bs_pos _ Hwf0). rewrite !wrap_small by (unfold is_word; lia).
  set (c := if size - k <? _ then _ else _).
  assert (0 < c <= size - k /\ so + c <= bs /\ do_ + c <= bs) as (Hc0 & Hcs & Hcd)
    by (subst c; destruct (Z.ltb_spec (size - k) (Z.min (bs - so) (bs - do_))); lia).
  do 4 wp_step. rewrite Hsi, Hdi.
  apply (memmove_chunk e2 (fun o => o < k) (fun o => k <= o) (fun o => k + c <= o) k c);
    try done; try lia. intros e3 Hinv3 Hc3.
  rewrite !addr_add_in by lia. wp_steps. rewrite <- !Z.add_assoc.
  replace (size - k - c) with (size - (k + c)) by lia.
  apply IH; try done; try lia.
  - destruct Hc3. split; try done. intros o Ho1 Ho2. apply ci_done0; lia.
  - rewrite Z.add_assoc. apply (handle_ok_advance _ _ si so); done || lia.
  - rewrite Z.add_assoc. apply (handle_ok_advance _ _ di do_); done || lia.
Qed.

(** *** Backward

    The cursor points behind the byte to copy next; [p] is the offset of
    that byte in its block [i]. *)
Lemma cursor_parts e done todo a :
  eng_inv e -> inv done todo (eng_view e) -> 0 < a <= d_size d0 * bs ->
  exists i p, to_block g (a - 1) = i /\ a = i * bs + p + 1 /\ 0 <= p < bs /\
    in_disk (eng_view e) i /\
    to_offset g a = (if p + 1 =? bs then 0 else p + 1) /\
    (to_offset g a <> 0 -> to_block g a = i).
Proof.
  intros Hinv Hc Ha. pose proof total_valid.
  destruct (inv_parts e done todo (a - 1) Hinv Hc ltac:(lia)) as (i & p & Hi & _ & Hp & Hpr & Hin).
  exists i, p. split_and!; try done; try lia.
  - destruct (Z.eqb_spec (p + 1) bs).
    + destruct (block_of_parts a (i + 1) 0); [lia..|]. done.
    + destruct (block_of_parts a i (p + 1)); [lia..|]. done.
  - intros Hz. destruct (decide (p + 1 = bs)).
    + destruct (block_of_parts a (i + 1) 0); [lia..|]. congruence.
    + destruct (block_of_parts a i (p + 1)); [lia..|]. done.
Qed.

Lemma backward_dest_handle e co h r (Q : handle -> E -> Prop) :
  eng_inv e -> inv (fun o => r <= o) (fun o => o < r) (eng_view e) ->
  0 < r <= size -> (co = true -> bs <= Z.abs (src - dest)) -> src < dest ->
  handle_ok h (dest + r) ->
  (forall h' e', eng_inv e' -> inv (fun o => r <= o) (fun o => o < r) (eng_view e') ->
     handle_index h' = to_block g (dest + r - 1) -> Q h' e') ->
  wp (if negb (handle_valid h) || (to_offset g (dest + r) =? 0) then
        let* last := lift_result (addr_sub (dest + r) 1) in
        if co && (to_offset g (dest + r) =? 0) && (g_block_size g <=? r)
        then eng_overwrite_zero (to_block g last) ;;; ret (Some (to_block g last))
        else eng_read (to_block g last) ;;; ret (Some (to_block g last))
      else ret h) e Q.
Proof.
  intros Hinv Hc Hr Hco Hdir Hh HQ. change (g_block_size g) with bs. pose proof total_valid.
  destruct (cursor_parts e _ _ (dest + r) Hinv Hc ltac:(lia))
    as (i & p & Hi & Hp & Hpr & Hin & Hoff & Hbl).
  unfold handle_ok in Hh. rewrite Hi in HQ.
  destruct (negb (handle_valid h) || (to_offset g (dest + r) =? 0)) eqn:Hcond.
  2:{ apply orb_false_iff in Hcond as [Hv%negb_false_iff Hz%Z.eqb_neq].
      apply wp_ret. apply HQ; try done. rewrite <- Hbl by done. by apply Hh. }
  rewrite addr_sub_in by lia. do 2 wp_step. rewrite Hi.
  destruct (co && (to_offset g (dest + r) =? 0) && (bs <=? r)) eqn:Hzero.
  - apply andb_true_iff in Hzero as [[Hcot Hz%Z.eqb_eq]%andb_true_iff Hb%Z.leb_le].
    specialize (Hco Hcot). pose proof (copy_inv_bs _ _ _ _ _ _ _ Hc) as Hbs.
    wp_step. eapply wp_mono; [by apply overwrite_zero_writes_at|].
    cbn beta. rewrite Hbs. intros _ e1 [Hinv1 Hw]. apply wp_ret. apply HQ; try done.
    assert (p + 1 = bs) by (destruct (Z.eqb_spec (p + 1) bs); lia).
    replace (i * bs) with (dest + (r - bs)) in Hw by lia.
    eapply copy_inv_zero with (o1 := r - bs) (n := bs); try done; lia.
  - wp_step. eapply read_keeps; [done..|]. intros e1 Hinv1 Hv1. apply wp_ret.
    apply HQ; try done. by rewrite Hv1.
Qed.

Lemma backward_src_handle e done todo h a (Q : handle -> E -> Prop) :
  eng_inv e -> inv done todo (eng_view e) -> 0 < a <= d_size d0 * bs -> handle_ok h a ->
  (forall h' e', eng_inv e' -> inv done todo (eng_view e') ->
     handle_index h' = to_block g (a - 1) -> Q h' e') ->
  wp (if negb (handle_valid h) || (to_offset g a =? 0) then
        let* last := lift_result (addr_sub a 1) in
        eng_read (to_block g last) ;;; ret (Some (to_block g last))
      else ret h) e Q.
Proof.
  intros Hinv Hc Ha Hh HQ. pose proof total_valid.
  destruct (cursor_parts e _ _ a Hinv Hc Ha) as (i & p & Hi & Hp & Hpr & Hin & Hoff & Hbl).
  unfold handle_ok in Hh. rewrite Hi in HQ.
  destruct (negb (handle_valid h) || (to_offset g a =? 0)) eqn:Hcond.
  - rewrite addr_sub_in by lia. do 2 wp_step. rewrite Hi.
    wp_step. eapply read_keeps; [done..|]. intros e1 Hinv1 Hv1. apply wp_ret.
    apply HQ; try done. by rewrite Hv1.
  - apply orb_false_iff in Hcond as [Hv%negb_false_iff Hz%Z.eqb_neq].
    apply wp_ret. apply HQ; try done. rewrite <- Hbl by done. by apply Hh.
Qed.

Lemma copy_backward_loop_spec co fuel : forall e r sh dh,
  eng_inv e -> inv (fun o => r <= o) (fun o => o < r) (eng_view e) ->
  0 <= r <= size -> r <= Z.of_nat fuel ->
  (co = true -> bs <= Z.abs (src - dest)) -> src < dest ->
  handle_ok sh (src + r) -> handle_ok dh (dest + r) ->
  wp (copy_backward_loop fuel g co sh dh (src + r) (dest + r) r) e
    (fun _ e' => eng_inv e' /\ inv (fun o => 0 <= o) (fun o => o < 0) (eng_view e')).
Proof.
  induction fuel as [|fuel IH]; intros e r sh dh Hinv Hc Hr Hf Hco Hdir Hsh Hdh;
    cbn [copy_backward_loop]; destruct (Z.ltb_spec 0 r); try lia;
    try (apply wp_ret; split; [done|]; by replace r with 0 in Hc by lia).
  pose proof total_valid as Htv. wp_step.
  apply (backward_dest_handle e co dh r); [done..|lia|done|done|done|].
  intros dh' e1 Hinv1 Hc1 Hdi. wp_step.
  eapply (backward_src_handle e1); [done|exact Hc1|lia|done|].
  intros sh' e2 Hinv2 Hc2 Hsi.
  destruct (cursor_parts e2 _ _ (src + r) Hinv2 Hc2 ltac:(lia))
    as (si & sp & Hsb1 & Hsp & Hsr & Hsin & Hso & _).
  destruct (cursor_parts e2 _ _ (dest + r) Hinv2 Hc2 ltac:(lia))
    as (di & dp & Hdb1 & Hdp & Hdr & Hdin & Hdo & _).
  rewrite Hsb1 in Hsi. rewrite Hdb1 in Hdi. change (g_block_size g) with bs.
  replace (if to_offset g (src + r) =? 0 then bs else to_offset g (src + r)) with (sp + 1)
    by (rewrite Hso; destruct (Z.eqb_spec (sp + 1) bs); simpl;
        [lia|destruct (Z.eqb_spec (sp + 1) 0); lia]).
  replace (if to_offset g (dest + r) =? 0 then bs else to_offset g (dest + r)) with (dp + 1)
    by (rewrite Hdo; destruct (Z.eqb_spec (dp + 1) bs); simpl;
        [lia|destruct (Z.eqb_spec (dp + 1) 0); lia]).
  set (c := if r <? _ then _ else _).
  assert (0 < c <= r /\ c <= sp + 1 /\ c <= dp + 1) as (Hc0 & Hcs & Hcd)
    by (subst c; destruct (Z.ltb_spec r (Z.min (sp + 1) (dp + 1))); lia).
  rewrite !addr_sub_in by lia. do 4 wp_step.
  destruct (block_of_parts (src + r - c) si (sp + 1 - c)) as [Hsb2 Hso2]; [lia..|].
  destruct (block_of_parts (dest + r - c) di (dp + 1 - c)) as [Hdb2 Hdo2]; [lia..|].
  rewrite Hsb2, Hso2, Hdb2, Hdo2. do 4 wp_step. rewrite Hsi, Hdi.
  apply (memmove_chunk e2 (fun o => r <= o) (fun o => o < r) (fun o => o < r - c) (r - c) c);
    try done; try lia. intros e3 Hinv3 Hc3.
  replace (src + r - c) with (src + (r - c)) in * by lia.
  replace (dest + r - c) with (dest + (r - c)) in * by lia.
  apply IH; try done; try lia.
  - destruct Hc3. split; try done. intros o Ho1 Ho2. apply ci_done0; lia.
  - intros _ _. congruence.
  - intros _ _. congruence.
Qed.
End copy_loops.

(** ** Properties *)

Section LinearIO_properties.
Context {E : Type} `{EngineSpec E}.
Abbreviation bs e := (d_bs (eng_view e)).
Abbreviation total e := (d_size (eng_view e) * d_bs (eng_view e)).

Lemma addr_compare (e : E) a b :
  eng_inv e -> 0 <= a <= total e -> 0 <= b <= total e ->
  addr_ltb a b = (a <? b) /\ addr_valid a = true.
Proof.
  intros Hinv Ha Hb. destruct (spec_wf e Hinv) as (_ & _ & Ht).
  assert (forall x, 0 <= x <= total e -> addr_valid x = true) as Hv.
  { intros x Hx. unfold addr_valid. destruct (Z.eqb_spec x invalid_value); [lia|done]. }
  split; [|by apply Hv]. unfold invalid_value, u64_max in Ht.
  pose proof (index_ltb_spec a b) as Hl. unfold index_ltb in Hl. unfold addr_ltb.
  rewrite Hl by (unfold is_word; lia). change (index_valid a) with (addr_valid a).
  change (index_valid b) with (addr_valid b). by rewrite !Hv.
Qed.

Lemma copy_spec (e : E) src dest size :
  eng_inv e -> 0 <= src -> 0 <= dest -> 0 <= size ->
  src + size <= total e -> dest + size <= total e ->
  wp (copy src dest size) e (fun _ e' => eng_inv e' /\
    writes_at (eng_view e) dest (slice src size (flat (eng_view e))) (eng_view e')).
Proof.
  intros Hinv Hs Hd Hn Hsb Hdb. pose proof (spec_wf e Hinv) as Hwf.
  pose proof Hwf as (_ & _ & Ht). pose proof (length_flat _ Hwf) as Hlf.
  destruct (addr_compare e src dest Hinv ltac:(lia) ltac:(lia)) as [_ Hvs].
  destruct (addr_compare e dest src Hinv ltac:(lia) ltac:(lia)) as [Hlt Hvd].
  unfold copy. do 4 wp_step.
  destruct ((dest =? src) || (size =? 0)) eqn:Hcond.
  { apply wp_ret. split; [done|]. split_and!; [done..|]. symmetry.
    apply orb_true_iff in Hcond as [Hq%Z.eqb_eq|Hq%Z.eqb_eq]; subst; [|apply splice_nil].
    apply splice_slice_id; lia. }
  apply orb_false_iff in Hcond as [Hne%Z.eqb_neq Hz%Z.eqb_neq].
  assert (addr_distance src dest = Ok (Z.abs (src - dest))) as Hdist.
  { apply addr_distance_spec; try done; unfold is_word, invalid_value, u64_max in *; lia. }
  assert (dest < src \/ src + size <= dest -> wp (copy_forward src dest size) e (fun _ e' =>
    eng_inv e' /\ writes_at (eng_view e) dest (slice src size (flat (eng_view e))) (eng_view e')))
    as Hfwd.
  { intros Hdir. unfold copy_forward, engine_geometry. rewrite Hdist. wp_steps.
    pose proof (copy_forward_loop_spec (eng_view e) src dest size Hwf Hs Hd Hsb Hdb
      (bs e <=? Z.abs (src - dest)) (Z.to_nat size) e 0 None None) as Hloop.
    rewrite !Z.add_0_r, Z.sub_0_r in Hloop.
    eapply wp_mono; [apply Hloop; try done; try lia|].
    - split; try done. intros. lia.
    - simpl. intros _ e' [Hinv' Hc]. split; [done|].
      eapply copy_inv_finish; try done. simpl. lia. }
  rewrite Hlt. destruct (Z.ltb_spec dest src); [apply Hfwd; lia|].
  rewrite addr_add_in by lia. wp_steps.
  destruct (addr_compare e dest (src + size) Hinv ltac:(lia) ltac:(lia)) as [Hlt2 _].
  unfold addr_leb. rewrite Hlt2.
  destruct (Z.ltb_spec dest (src + size)); simpl; [|apply Hfwd; lia].
  unfold copy_backward, engine_geometry. rewrite Hdist.
  rewrite !addr_add_in by lia. wp_steps.
  eapply wp_mono; [apply (copy_backward_loop_spec (eng_view e) src dest size Hwf Hs Hd Hsb Hdb);
    try done; try lia|].
  - split; try done. intros. lia.
  - by intros ?%Z.leb_le.
  - simpl. intros _ e' [Hinv' Hc]. split; [done|]. eapply copy_inv_finish; try done. simpl. lia.
Qed.

Lemma block_address (e : E) i :
  eng_inv e -> 0 <= i <= d_size (eng_view e) ->
  to_address (d_geo (eng_view e)) i 0 = Ok (i * bs e).
Proof.
  intros Hinv Hi. pose proof (spec_wf e Hinv) as Hwf. pose proof (wf_bs_pos _ Hwf).
  pose proof Hwf as (Hg & _ & Ht). unfold d_bs in *.
  rewrite to_address_eq; [by rewrite Z.add_0_r|done|lia|lia|nia].
Qed.

Lemma block_bytes (e : E) n :
  eng_inv e -> 0 <= n <= d_size (eng_view e) ->
  to_byte_size (d_geo (eng_view e)) n = n * bs e.
Proof.
  intros Hinv Hn. pose proof (spec_wf e Hinv) as (Hg & _ & Ht).
  pose proof (wf_bs_pos _ (spec_wf e Hinv)). unfold invalid_value, u64_max, d_bs in *.
  apply to_byte_size_eq; [done|lia|nia].
Qed.

(** C32: A linear [write] followed by a linear [read] of any range, both
    possibly spanning several blocks of any engine that meets its
    contract, behaves as the same two operations on one flat array of
    bytes: nothing else changes and no assertion fails. *)
Theorem linear_write_read (e : E) a data a' n :
  eng_inv e -> 0 <= a -> a + zlen data <= total e ->
  0 <= a' -> 0 <= n -> a' + n <= total e ->
  wp (write a data ;;; read a' n) e (fun b e' => eng_inv e' /\
    b = slice a' n (splice a data (flat (eng_view e))) /\
    flat (eng_view e') = splice a data (flat (eng_view e)) /\
    d_geo (eng_view e') = d_geo (eng_view e) /\ d_size (eng_view e') = d_size (eng_view e)).
Proof.
  intros Hinv Ha Hd Ha' Hn Hr. wp_step. eapply wp_mono; [by apply write_spec|].
  intros _ e1 [Hinv1 Hw]. pose proof (writes_at_bs _ _ _ _ Hw) as Hbs.
  destruct Hw as (_ & Hg & Hs & Hf). eapply wp_mono; [apply read_spec; try done; congruence|].
  simpl. intros b e2 (Hinv2 & -> & ->). by rewrite Hf.
Qed.

(** C23: [copy] is memmove on the flat array of bytes, for every pair of
    ranges inside the engine and also when they overlap: the destination
    range ends up with the bytes the source range held before, and all
    other bytes keep their value, although the code overwrites whole
    destination blocks with zeros before it copies into them. *)
Theorem copy_is_memmove (e : E) src dest size :
  eng_inv e -> 0 <= src -> 0 <= dest -> 0 <= size ->
  src + size <= total e -> dest + size <= total e ->
  wp (copy src dest size) e (fun _ e' => eng_inv e' /\
    flat (eng_view e') = splice dest (slice src size (flat (eng_view e))) (flat (eng_view e)) /\
    d_geo (eng_view e') = d_geo (eng_view e) /\ d_size (eng_view e') = d_size (eng_view e)).
Proof.
  intros. eapply wp_mono; [by apply copy_spec|].
  simpl. intros _ e' (? & _ & ? & ? & ?). done.
Qed.

(** C33: [zero_blocks] and [copy_blocks] act on whole blocks: the blocks of
    the (destination) range are zeroed, or hold the old contents of the
    source range, and the other blocks are unchanged. *)
Theorem block_range_operations (e : E) i j n :
  eng_inv e -> 0 <= i -> 0 <= j -> 0 <= n ->
  i + n <= d_size (eng_view e) -> j + n <= d_size (eng_view e) ->
  wp (zero_blocks j n) e (fun _ e' => eng_inv e' /\
    writes_at (eng_view e) (j * bs e) (zeros (n * bs e)) (eng_view e')) /\
  wp (copy_blocks i j n) e (fun _ e' => eng_inv e' /\
    writes_at (eng_view e) (j * bs e)
      (slice (i * bs e) (n * bs e) (flat (eng_view e))) (eng_view e')).
Proof.
  intros Hinv Hi Hj Hn Hin Hjn. pose proof (wf_bs_pos _ (spec_wf e Hinv)).
  split; unfold zero_blocks, copy_blocks, engine_geometry; wp_step; wp_step;
    rewrite !block_address, block_bytes by (done || lia); wp_steps.
  - apply zero_spec; [done|nia..].
  - apply copy_spec; [done|nia..].
Qed.
End LinearIO_properties.

(** A memory engine with three blocks of four bytes. *)
Definition sample_engine : memory_engine.memory_engine :=
  memory_engine.MemoryEngine (Geometry 4 2 3)
    [[x00; x01; x02; x03]; [x04; x05; x06; x07]; [x08; x09; x0a; x0b]].

Lemma sample_engine_inv : eng_inv sample_engine.
Proof.
  split_and!; [exists 2; split; [lia|done]| |done]. repeat constructor.
Qed.

Lemma linear_write_read_witness :
  wp (write 3 [xaa; xbb; xcc; xdd; xee; xff] ;;; read 2 5) sample_engine (fun b e' =>
    eng_inv e' /\
    b = slice 2 5 (splice 3 [xaa; xbb; xcc; xdd; xee; xff] (flat (eng_view sample_engine))) /\
    flat (eng_view e') =
      splice 3 [xaa; xbb; xcc; xdd; xee; xff] (flat (eng_view sample_engine)) /\
    d_geo (eng_view e') = d_geo (eng_view sample_engine) /\
    d_size (eng_view e') = d_size (eng_view sample_engine)).
Proof. apply (linear_write_read sample_engine); try apply sample_engine_inv; vm_compute; done. Defined.

Lemma copy_is_memmove_witness :
  wp (copy 0 2 9) sample_engine (fun _ e' => eng_inv e' /\
    flat (eng_view e') =
      splice 2 (slice 0 9 (flat (eng_view sample_engine))) (flat (eng_view sample_engine)) /\
    d_geo (eng_view e') = d_geo (eng_view sample_engine) /\
    d_size (eng_view e') = d_size (eng_view sample_engine)).
Proof. apply (copy_is_memmove sample_engine); try apply sample_engine_inv; vm_compute; done. Defined.

Lemma block_range_operations_witness :
  wp (zero_blocks 1 2) sample_engine (fun _ e' => eng_inv e' /\
    writes_at (eng_view sample_engine) (1 * 4) (zeros (2 * 4)) (eng_view e')) /\
  wp (copy_blocks 0 1 2) sample_engine (fun _ e' => eng_inv e' /\
    writes_at (eng_view sample_engine) (1 * 4)
      (slice (0 * 4) (2 * 4) (flat (eng_view sample_engine))) (eng_view e')).
Proof.
  change 4 with (d_bs (eng_view sample_engine)).
  apply (block_range_operations sample_engine 0 1 2); try apply sample_engine_inv; vm_compute; done.
Defined.
