(* ===== verification/Bitset.v ===== *)
(** * Bitsets (include/prequel/detail/bitset.hpp)

    A vector of 64 bit blocks.  An access outside of the vector, which is
    undefined behaviour in C++, fails in the model, so the theorems also
    exclude it.  [block_ffs] and [block_popcount] are the documented results
    of the compiler builtins. *)

From S2P Require Import Prelude MathOps.

Module bitset.

Definition bits_per_block : Z := 64.
Definition npos : Z := u64_max.

Record bitset : Set := Bitset { m_bits : Z; m_blocks : list Z }.

Abbreviation B := (M bitset).

Definition block_index (bit : Z) : Z := bit / bits_per_block.
Definition bit_index (bit : Z) : Z := Z.land bit (bits_per_block - 1).

(** [__builtin_ffsll]: one plus the index of the lowest set bit, or zero. *)
Fixpoint ffs_loop (fuel : nat) (b i : Z) : Z :=
  match fuel with
  | O => 0
  | S fuel => if Z.testbit b i then i + 1 else ffs_loop fuel b (i + 1)
  end.
Definition block_ffs (b : Z) : Z := ffs_loop 64 b 0.
(** [~b] of a 64 bit block *)
Definition complement (b : Z) : Z := u64_max - b.
Definition block_ffz (b : Z) : Z := block_ffs (complement b).

(** The number of [i] in [[a, a + n)] with [P i]. *)
Fixpoint cnt (P : Z -> bool) (a : Z) (n : nat) : Z :=
  match n with
  | O => 0
  | S n => (if P a then 1 else 0) + cnt P (a + 1) n
  end.
(** [__builtin_popcountll] *)
Definition block_popcount (b : Z) : Z := cnt (Z.testbit b) 0 64.

Definition block_at (i : Z) : B Z :=
  let* s := get in
  match m_blocks s !! Z.to_nat i with
  | Some b => ret b
  | None => throw assert_failure
  end.
Definition set_block (i b : Z) : B unit :=
  modify (fun s => Bitset (m_bits s) (<[Z.to_nat i := b]> (m_blocks s))).

Definition resize_blocks (n : Z) (l : list Z) : list Z :=
  take (Z.to_nat n) l ++ replicate (Z.to_nat n - length l) 0.

Definition make (bits : Z) : result bitset :=
  match ceil_div 64 bits bits_per_block with
  | Ok n => Ok (Bitset bits (replicate (Z.to_nat n) 0))
  | Err e => Err e
  end.
Definition size (s : bitset) : Z := m_bits s.
Definition clear : B unit := put (Bitset 0 []).
Definition resize (bits : Z) : B unit :=
  let* n := lift_result (ceil_div 64 bits bits_per_block) in
  modify (fun s => Bitset bits (resize_blocks n (m_blocks s))).
Definition reset : B unit :=
  modify (fun s => Bitset (m_bits s) (replicate (length (m_blocks s)) 0)).

Definition test (bit : Z) : B bool :=
  let* s := get in
  assert! (bit <? m_bits s) ;;;
  let* b := block_at (block_index bit) in
  ret (negb (Z.land b (Z.shiftl 1 (bit_index bit)) =? 0)).
Definition set (bit : Z) : B unit :=
  let* s := get in
  assert! (bit <? m_bits s) ;;;
  let* b := block_at (block_index bit) in
  set_block (block_index bit) (Z.lor b (Z.shiftl 1 (bit_index bit))).
Definition unset (bit : Z) : B unit :=
  let* s := get in
  assert! (bit <? m_bits s) ;;;
  let* b := block_at (block_index bit) in
  set_block (block_index bit) (Z.land b (complement (Z.shiftl 1 (bit_index bit)))).

(** The lambdas of [count]. *)
Definition mask_front (block index : Z) : Z := u64 (Z.shiftl (Z.shiftr block index) index).
Definition mask_back (block index : Z) : Z :=
  let offset := bits_per_block - index in Z.shiftr (u64 (Z.shiftl block offset)) offset.

Fixpoint count_blocks (n : nat) (current_block : Z) : B Z :=
  match n with
  | O => ret 0
  | S n =>
    let* b := block_at current_block in
    let* rest := count_blocks n (current_block + 1) in
    ret (block_popcount b + rest)
  end.

(** The blocks up to the last one and the remainder in the last one. *)
Definition count_rest (current_block last_block end_ : Z) : B Z :=
  let* full := count_blocks (Z.to_nat (last_block - current_block)) current_block in
  if negb (bit_index end_ =? 0) then
    let* b := block_at (Z.max current_block last_block) in
    ret (full + block_popcount (mask_back b (bit_index end_)))
  else ret full.

Definition count (begin n : Z) : B Z :=
  let* s := get in
  if (m_bits s <=? begin) || (n =? 0) then ret 0 else
  let end_ := Z.min (u64 (begin + n)) (m_bits s) in
  let current_block := block_index begin in
  let last_block := block_index end_ in
  if negb (bit_index begin =? 0) then
    let* b := block_at current_block in
    let blk := mask_front b (bit_index begin) in
    if last_block =? current_block then ret (block_popcount (mask_back blk (bit_index end_)))
    else
      let* rest := count_rest (current_block + 1) last_block end_ in
      ret (block_popcount blk + rest)
  else count_rest current_block last_block end_.

(** [count()] and [count(begin)] *)
Definition count_all : B Z := let* s := get in count 0 (m_bits s).
Definition count_from (begin : Z) : B Z := let* s := get in count begin (u64 (m_bits s - begin)).

(** The loops of [do_ffs] and [do_ffz] over the blocks from index [b]. *)
Fixpoint find_block (ffs : Z -> Z) (blocks : list Z) (b : Z) : Z :=
  match blocks with
  | [] => npos
  | w :: blocks =>
    let s := ffs w in
    if negb (s =? 0) then u64 (b * bits_per_block + s - 1) else find_block ffs blocks (b + 1)
  end.
Definition do_ffs (s : bitset) (b : Z) : Z := find_block block_ffs (drop (Z.to_nat b) (m_blocks s)) b.
Definition do_ffz (s : bitset) (b : Z) : Z := find_block block_ffz (drop (Z.to_nat b) (m_blocks s)) b.

Definition find_set (n : Z) : B Z :=
  let* s := get in
  if m_bits s <=? n then ret npos else
  let b := block_index n in
  let i := bit_index n in
  if negb (i =? 0) then
    let* w := block_at b in
    let f := block_ffs (Z.shiftr w i) in
    if negb (f =? 0) then ret (u64 (n + f - 1)) else ret (do_ffs s (b + 1))
  else ret (do_ffs s b).

Definition find_unset (n : Z) : B Z :=
  let* s := get in
  if m_bits s <=? n then ret npos else
  let b := block_index n in
  let i := bit_index n in
  let* r :=
    (if negb (i =? 0) then
       let* w := block_at b in
       let f := block_ffs (Z.shiftr (complement w) i) in
       if negb (f =? 0) then ret (u64 (n + f - 1)) else ret (do_ffz s (b + 1))
     else ret (do_ffz s b)) in
  ret (if r <? m_bits s then r else npos).

(** ** Specification *)

(** Bit [i], also behind the end of the bitset. *)
Definition bit (s : bitset) (i : Z) : bool :=
  Z.testbit (default 0 (m_blocks s !! Z.to_nat (i / 64))) (i mod 64).

Record wf (s : bitset) : Prop := {
  wf_bits : 0 <= m_bits s <= 2 ^ 64 - 64;
  wf_size : 64 * (zlen (m_blocks s) - 1) < m_bits s <= 64 * zlen (m_blocks s);
  wf_blocks : Forall (is_word 64) (m_blocks s)
}.

(** "The last few bits beyond the size are always unset." *)
Definition trimmed (s : bitset) : Prop := forall i, m_bits s <= i -> bit s i = false.

Lemma bit_index_mod i : bit_index i = i mod 64.
Proof. unfold bit_index. apply (Z.land_ones i 6). lia. Qed.

Lemma lookup_block s i :
  wf s -> 0 <= i < m_bits s ->
  exists b, m_blocks s !! Z.to_nat (block_index i) = Some b /\ is_word 64 b /\
    forall j, 0 <= j < 64 -> bit s (block_index i * 64 + j) = Z.testbit b j.
Proof.
  intros [Hb Hs Hw] Hi. unfold block_index, bits_per_block.
  pose proof (Z.div_mod i 64 ltac:(lia)). pose proof (Z.mod_pos_bound i 64 ltac:(lia)).
  destruct (lookup_lt_is_Some_2 (m_blocks s) (Z.to_nat (i / 64))) as [b Hlk]; [lia|].
  exists b. split_and!; [done| |].
  - rewrite Forall_lookup in Hw. by eapply Hw.
  - intros j Hj. unfold bit. rewrite Z.div_add_l, (Z.div_small j), Z.add_0_r by lia.
    rewrite Hlk. cbn. f_equal. rewrite Z.add_comm, Z.mod_add by lia. by apply Z.mod_small.
Qed.

Lemma block_at_spec s i (Q : Z -> bitset -> Prop) b :
  m_blocks s !! Z.to_nat i = Some b -> Q b s -> wp (block_at i) s Q.
Proof. intros Hb HQ. unfold block_at. wp_steps. rewrite Hb. by wp_steps. Qed.

Lemma decompose i : 0 <= i -> i = block_index i * 64 + i mod 64 /\ 0 <= i mod 64 < 64 /\ 0 <= block_index i.
Proof.
  intros. unfold block_index, bits_per_block. pose proof (Z.div_mod i 64 ltac:(lia)).
  pose proof (Z.mod_pos_bound i 64 ltac:(lia)). pose proof (Z.div_pos i 64). lia.
Qed.

Lemma test_mask b k : 0 <= k -> negb (Z.land b (Z.shiftl 1 k) =? 0) = Z.testbit b k.
Proof.
  intros Hk. rewrite Z.shiftl_1_l. destruct (Z.testbit b k) eqn:Hb.
  - apply negb_true_iff, Z.eqb_neq. intros Hz. apply (f_equal (fun z => Z.testbit z k)) in Hz.
    rewrite Z.land_spec, Hb, Z.pow2_bits_true, Z.bits_0 in Hz by done. done.
  - apply negb_false_iff, Z.eqb_eq. apply Z.bits_inj'. intros j Hj.
    rewrite Z.land_spec, Z.bits_0, Z.pow2_bits_eqb by done.
    destruct (Z.eqb_spec k j); [subst; by rewrite Hb|apply andb_false_r].
Qed.

Lemma test_spec s i :
  wf s -> 0 <= i < m_bits s -> wp (test i) s (fun r s' => r = bit s i /\ s' = s).
Proof.
  intros Hwf Hi. destruct (lookup_block s i Hwf Hi) as (b & Hb & _ & Hbits).
  destruct (decompose i) as (He & Hm & _); [lia|].
  unfold test. do 4 wp_step. wp_step. eapply block_at_spec; [done|]. wp_step.
  rewrite bit_index_mod, test_mask by lia. rewrite <- Hbits by lia. by rewrite <- He.
Qed.

(** Replacing one block. *)
Lemma set_block_bits s i b b' :
  wf s -> 0 <= i < m_bits s -> m_blocks s !! Z.to_nat (block_index i) = Some b ->
  is_word 64 b' -> (forall j, 0 <= j < 64 -> j <> i mod 64 -> Z.testbit b' j = Z.testbit b j) ->
  wp (set_block (block_index i) b') s (fun _ s' => wf s' /\ m_bits s' = m_bits s /\
    bit s' i = Z.testbit b' (i mod 64) /\ forall k, 0 <= k -> k <> i -> bit s' k = bit s k).
Proof.
  intros Hwf Hi Hb Hw Hj. unfold set_block. wp_step. pose proof Hwf as [Hbits Hs Hbl].
  destruct (decompose i) as (He & Hm & Hbi); [lia|].
  assert (forall k, 0 <= k -> bit (Bitset (m_bits s) (<[Z.to_nat (block_index i) := b']> (m_blocks s))) k =
    if block_index k =? block_index i then Z.testbit b' (k mod 64) else bit s k) as Hk.
  { intros k Hk. unfold bit. cbn [m_blocks]. destruct (decompose k Hk) as (_ & _ & Hkb).
    unfold block_index, bits_per_block in *. destruct (Z.eqb_spec (k / 64) (i / 64)) as [->|Hne].
    - rewrite list_lookup_insert_eq; [done|]. by eapply lookup_lt_Some.
    - rewrite list_lookup_insert_ne by lia. done. }
  split_and!; try done.
  - split; cbn; [done|by rewrite length_insert|]. by apply Forall_insert.
  - rewrite Hk by lia. by rewrite Z.eqb_refl.
  - intros k Hk0 Hne. rewrite Hk by done. destruct (Z.eqb_spec (block_index k) (block_index i)) as [Heq|]; [|done].
    destruct (decompose k Hk0) as (Hek & Hmk & _).
    rewrite Hj by lia. unfold bit. unfold block_index, bits_per_block in *. by rewrite Heq, Hb.
Qed.

(** A word has no bits from 64 on. *)
Lemma word_bits z : is_word 64 z <-> 0 <= z /\ forall j, 64 <= j -> Z.testbit z j = false.
Proof.
  unfold is_word. split.
  - intros Hz. split; [lia|]. intros j Hj. rewrite <- (Z.mod_small z (2 ^ 64)) by lia.
    apply Z.mod_pow2_bits_high. lia.
  - intros [Hz Hj]. assert (z = z mod 2 ^ 64) as ->; [|apply Z.mod_pos_bound; lia].
    apply Z.bits_inj'. intros j Hj0. destruct (Z.ltb_spec j 64).
    + by rewrite Z.mod_pow2_bits_low.
    + rewrite Z.mod_pow2_bits_high by lia. by apply Hj.
Qed.

Lemma lor_word a b : is_word 64 a -> is_word 64 b -> is_word 64 (Z.lor a b).
Proof.
  rewrite !word_bits. intros [Ha Ha'] [Hb Hb']. split; [by apply Z.lor_nonneg|].
  intros j Hj. by rewrite Z.lor_spec, Ha', Hb'.
Qed.

Lemma land_word a b : is_word 64 a -> is_word 64 b -> is_word 64 (Z.land a b).
Proof.
  rewrite !word_bits. intros [Ha Ha'] [Hb Hb']. split; [apply Z.land_nonneg; by left|].
  intros j Hj. by rewrite Z.land_spec, Ha'.
Qed.

Lemma complement_spec b j : is_word 64 b -> 0 <= j < 64 -> Z.testbit (complement b) j = negb (Z.testbit b j).
Proof.
  intros Hb Hj. unfold complement, u64_max. unfold is_word in Hb.
  replace (2 ^ 64 - 1 - b) with ((Z.lnot b) mod 2 ^ 64).
  - rewrite Z.mod_pow2_bits_low by lia. by rewrite Z.lnot_spec by lia.
  - unfold Z.lnot. rewrite <- (Z.mod_add _ 1) by lia. rewrite Z.mod_small; lia.
Qed.

Lemma set_spec s i :
  wf s -> 0 <= i < m_bits s -> wp (set i) s (fun _ s' => wf s' /\ m_bits s' = m_bits s /\
    bit s' i = true /\ forall k, 0 <= k -> k <> i -> bit s' k = bit s k).
Proof.
  intros Hwf Hi. destruct (lookup_block s i Hwf Hi) as (b & Hb & Hw & _).
  destruct (decompose i) as (_ & Hm & _); [lia|].
  unfold set. do 4 wp_step. wp_step. eapply block_at_spec; [done|]. rewrite bit_index_mod, Z.shiftl_1_l.
  assert (is_word 64 (2 ^ (i mod 64))) as Hp.
  { unfold is_word. split; [apply Z.pow_nonneg; lia|apply Z.pow_lt_mono_r; lia]. }
  eapply wp_mono; [apply (set_block_bits s i b); try done; [by apply lor_word|]|].
  - intros j Hj Hne. rewrite Z.lor_spec, Z.pow2_bits_false by lia. apply orb_false_r.
  - cbn beta. intros _ s' (? & ? & Hbit & ?). split_and!; try done.
    rewrite Hbit, Z.lor_spec, Z.pow2_bits_true by lia. apply orb_true_r.
Qed.

Lemma unset_spec s i :
  wf s -> 0 <= i < m_bits s -> wp (unset i) s (fun _ s' => wf s' /\ m_bits s' = m_bits s /\
    bit s' i = false /\ forall k, 0 <= k -> k <> i -> bit s' k = bit s k).
Proof.
  intros Hwf Hi. destruct (lookup_block s i Hwf Hi) as (b & Hb & Hw & _).
  destruct (decompose i) as (_ & Hm & _); [lia|].
  unfold unset. do 4 wp_step. wp_step. eapply block_at_spec; [done|]. rewrite bit_index_mod, Z.shiftl_1_l.
  assert (is_word 64 (2 ^ (i mod 64))) as Hp.
  { unfold is_word. split; [apply Z.pow_nonneg; lia|apply Z.pow_lt_mono_r; lia]. }
  assert (is_word 64 (complement (2 ^ (i mod 64)))) as Hc by (unfold is_word, complement, u64_max in *; lia).
  eapply wp_mono; [apply (set_block_bits s i b); try done|].
  - by apply land_word.
  - intros j Hj Hne. rewrite Z.land_spec, complement_spec by done. rewrite Z.pow2_bits_false by lia.
    apply andb_true_r.
  - cbn beta. intros _ s' (? & ? & Hbit & ?). split_and!; try done.
    rewrite Hbit, Z.land_spec, complement_spec by done. rewrite Z.pow2_bits_true by lia. apply andb_false_r.
Qed.

(** *** Searching *)

(** [r] is the first index in [[a, e)] with [P]. *)
Definition first_at (P : Z -> bool) (a e r : Z) : Prop :=
  a <= r < e /\ P r = true /\ forall j, a <= j < r -> P j = false.
Definition none_at (P : Z -> bool) (a e : Z) : Prop := forall j, a <= j < e -> P j = false.

Lemma ffs_loop_spec b fuel : forall i,
  0 <= i ->
  (ffs_loop fuel b i = 0 /\ none_at (Z.testbit b) i (i + Z.of_nat fuel)) \/
  exists k, ffs_loop fuel b i = k + 1 /\ first_at (Z.testbit b) i (i + Z.of_nat fuel) k.
Proof.
  induction fuel as [|fuel IH]; intros i Hi; cbn [ffs_loop].
  - left. split; [done|]. intros j Hj. lia.
  - destruct (Z.testbit b i) eqn:Hb.
    + right. exists i. split; [done|]. split_and!; [lia|lia|done|]. intros j Hj. lia.
    + assert (forall j, i <= j -> ~ (i + 1 <= j) -> Z.testbit b j = false) as Hfst.
      { intros j ? ?. by replace j with i by lia. }
      destruct (IH (i + 1)) as [[-> Hn]|(k & -> & (Hk & Hbk & Hn))]; [lia|left|right].
      * split; [done|]. intros j Hj. destruct (decide (i + 1 <= j)); [apply Hn; lia|apply Hfst; lia].
      * exists k. split; [done|]. split_and!; [lia|lia|done|]. intros j Hj.
        destruct (decide (i + 1 <= j)); [apply Hn; lia|apply Hfst; lia].
Qed.

(** What [block_ffs] and [block_ffz] have in common: the first [j] in a
    block with [G w j]. *)
Definition finds (ffs : Z -> Z) (G : Z -> Z -> bool) : Prop := forall w, is_word 64 w ->
  (ffs w = 0 /\ none_at (G w) 0 64) \/ exists k, ffs w = k + 1 /\ first_at (G w) 0 64 k.

Lemma block_ffs_finds : finds block_ffs Z.testbit.
Proof. intros w _. exact (ffs_loop_spec w 64 0 ltac:(lia)). Qed.

Lemma block_ffz_finds : finds block_ffz (fun w j => negb (Z.testbit w j)).
Proof.
  intros w Hw. pose proof (fun j => complement_spec w j Hw) as Hc.
  destruct (ffs_loop_spec (complement w) 64 0 ltac:(lia)) as [[H0 Hn]|(k & H0 & (Hk & Hb & Hn))].
  - left. split; [done|]. intros j Hj. rewrite <- Hc by lia. apply Hn. lia.
  - right. exists k. split; [done|]. split_and!; [lia|lia|by rewrite <- Hc by lia|].
    intros j Hj. rewrite <- Hc by lia. apply Hn. lia.
Qed.

Lemma find_block_spec s ffs G (P : Z -> bool) : forall blocks b,
  wf s -> finds ffs G -> 0 <= b ->
  (forall k w j, 0 <= k -> m_blocks s !! Z.to_nat k = Some w -> 0 <= j < 64 -> P (k * 64 + j) = G w j) ->
  drop (Z.to_nat b) (m_blocks s) = blocks ->
  let e := 64 * zlen (m_blocks s) in
  let r := find_block ffs blocks b in
  (r = npos /\ none_at P (b * 64) e) \/ first_at P (b * 64) e r.
Proof.
  induction blocks as [|w blocks IH]; intros b Hwf Hf Hb HP Hd e r; subst r; cbn [find_block].
  - left. split; [done|]. intros j Hj. apply (f_equal length) in Hd. rewrite length_drop in Hd.
    change (length []) with 0%nat in Hd. lia.
  - assert (m_blocks s !! Z.to_nat b = Some w) as Hw.
    { rewrite <- (Nat.add_0_r (Z.to_nat b)), <- lookup_drop, Hd. done. }
    assert (Z.of_nat (Z.to_nat b) < zlen (m_blocks s)) as Hlen by (apply lookup_lt_Some in Hw; lia).
    pose proof Hwf as [Hbits Hsz Hbl]. rewrite Forall_lookup in Hbl. pose proof (HP b w) as HPb.
    assert (forall j, b * 64 <= j -> ~ ((b + 1) * 64 <= j) -> P j = G w (j - b * 64)) as Hfst.
    { intros j ? ?. rewrite <- HPb by (done || lia). f_equal. lia. }
    destruct (Hf w) as [[-> Hn]|(k & -> & (Hk & Hg & Hn))]; [by eapply Hbl| |].
    + cbn [Z.eqb negb]. assert (drop (Z.to_nat (b + 1)) (m_blocks s) = blocks) as Hd'.
      { rewrite Z2Nat.inj_add, <- drop_drop, Hd by lia. done. }
      destruct (IH (b + 1)) as [[-> Hr]|(Hk & Hg & Hr)]; [done..|lia|done|done|left|right].
      * split; [done|]. intros j Hj. destruct (decide ((b + 1) * 64 <= j)); [apply Hr; fold e; lia|].
        rewrite Hfst by lia. apply Hn. lia.
      * split_and!; [lia|fold e; lia|done|]. intros j Hj. destruct (decide ((b + 1) * 64 <= j)); [apply Hr; lia|].
        rewrite Hfst by lia. apply Hn. lia.
    + rewrite (proj2 (Z.eqb_neq _ _)) by lia. cbn [negb]. right.
      replace (b * bits_per_block + (k + 1) - 1) with (b * 64 + k) by (unfold bits_per_block; lia).
      rewrite wrap_small by (unfold is_word; lia). split_and!; [lia|lia|by rewrite HPb by (done || lia)|].
      intros j Hj. rewrite Hfst by lia. apply Hn. lia.
Qed.

(** [find_set] and [find_unset] up to the end of the last block. *)
Lemma find_spec s n ffs G (P : Z -> bool) (shift : Z -> Z) :
  wf s -> 0 <= n < m_bits s -> finds ffs G ->
  (forall k w j, 0 <= k -> m_blocks s !! Z.to_nat k = Some w -> 0 <= j < 64 -> P (k * 64 + j) = G w j) ->
  (forall w j, is_word 64 w -> 0 <= j < 64 -> Z.testbit (shift w) j = G w j) ->
  (forall w, is_word 64 w -> is_word 64 (shift w)) ->
  let e := 64 * zlen (m_blocks s) in
  wp (if negb (bit_index n =? 0) then
        let* w := block_at (block_index n) in
        let f := block_ffs (Z.shiftr (shift w) (bit_index n)) in
        if negb (f =? 0) then ret (u64 (n + f - 1))
        else ret (find_block ffs (drop (Z.to_nat (block_index n + 1)) (m_blocks s)) (block_index n + 1))
      else ret (find_block ffs (drop (Z.to_nat (block_index n)) (m_blocks s)) (block_index n))) s
    (fun r s' => s' = s /\ ((r = npos /\ none_at P n e) \/ first_at P n e r)).
Proof.
  intros Hwf Hn Hf HP Hshift Hword e. destruct (decompose n) as (He & Hm & Hb); [lia|].
  rewrite bit_index_mod. set (b := block_index n) in *.
  destruct (Z.eqb_spec (n mod 64) 0) as [Hz|Hz]; cbn [negb].
  - wp_step. split; [done|]. replace n with (b * 64) at 1 2 by lia. by eapply find_block_spec.
  - destruct (lookup_block s n Hwf Hn) as (w & Hw & Hww & _). fold b in Hw.
    pose proof (find_block_spec s ffs G P _ (b + 1) Hwf Hf ltac:(lia) HP eq_refl) as Hrest.
    pose proof (wf_size _ Hwf) as Hsz. pose proof (wf_bits _ Hwf) as Hbits.
    assert (b < zlen (m_blocks s)) as Hlen by (apply lookup_lt_Some in Hw; lia).
    assert (forall j, 0 <= j -> Z.testbit (Z.shiftr (shift w) (n mod 64)) j =
      if n mod 64 + j <? 64 then P (n + j) else false) as Hbit.
    { intros j Hj. rewrite Z.shiftr_spec by done. destruct (Z.ltb_spec (n mod 64 + j) 64).
      - rewrite (Z.add_comm j), Hshift, <- (HP b w) by (done || lia). f_equal. lia.
      - apply (proj2 (proj1 (word_bits _) (Hword w Hww))). lia. }
    wp_step. eapply block_at_spec; [done|].
    destruct (ffs_loop_spec (Z.shiftr (shift w) (n mod 64)) 64 0 ltac:(lia)) as [[H0 Hno]|(k & H0 & (Hk & Hg & Hno))];
      fold (block_ffs (Z.shiftr (shift w) (n mod 64))) in H0; rewrite H0.
    + cbn [Z.eqb negb]. wp_step. split; [done|].
      assert (forall j, n <= j -> ~ ((b + 1) * 64 <= j) -> P j = false) as Hfst.
      { intros j ? ?. specialize (Hno (j - n) ltac:(lia)). rewrite Hbit in Hno by lia.
        rewrite (proj2 (Z.ltb_lt _ _)) in Hno by lia. by replace (n + (j - n)) with j in Hno by lia. }
      destruct Hrest as [[-> Hr]|(Hr1 & Hr2 & Hr3)]; [left|right].
      * split; [done|]. intros j Hj. destruct (decide ((b + 1) * 64 <= j)); [apply Hr; fold e; lia|apply Hfst; lia].
      * split_and!; [lia|fold e in Hr1; lia|done|]. intros j Hj.
        destruct (decide ((b + 1) * 64 <= j)); [apply Hr3; lia|apply Hfst; lia].
    + rewrite (proj2 (Z.eqb_neq _ _)) by lia. cbn [negb]. wp_step. split; [done|]. right.
      rewrite Hbit in Hg by lia. destruct (Z.ltb_spec (n mod 64 + k) 64) as [Hlt|]; [|done].
      rewrite wrap_small by (unfold is_word; lia). replace (n + (k + 1) - 1) with (n + k) by lia.
      split_and!; [lia|subst e; lia|done|]. intros j Hj. specialize (Hno (j - n) ltac:(lia)).
      rewrite Hbit in Hno by lia. rewrite (proj2 (Z.ltb_lt _ _)) in Hno by lia.
      by replace (n + (j - n)) with j in Hno by lia.
Qed.

Lemma bit_block s k w j :
  0 <= k -> m_blocks s !! Z.to_nat k = Some w -> 0 <= j < 64 -> bit s (k * 64 + j) = Z.testbit w j.
Proof.
  intros Hk Hw Hj. unfold bit. rewrite Z.div_add_l, (Z.div_small j), Z.add_0_r by lia.
  rewrite Hw. cbn. f_equal. rewrite Z.add_comm, Z.mod_add by lia. by apply Z.mod_small.
Qed.

Lemma find_set_spec s n :
  wf s -> trimmed s -> 0 <= n ->
  wp (find_set n) s (fun r s' => s' = s /\
    ((r = npos /\ none_at (bit s) n (m_bits s)) \/ first_at (bit s) n (m_bits s) r)).
Proof.
  intros Hwf Ht Hn. unfold find_set. do 2 wp_step. pose proof (wf_size _ Hwf) as Hs.
  destruct (Z.leb_spec (m_bits s) n).
  { wp_step. split; [done|]. left. split; [done|]. intros j Hj. lia. }
  eapply wp_mono; [apply (find_spec s n block_ffs Z.testbit (bit s) id); try done; [apply block_ffs_finds|apply bit_block]|].
  cbn beta. intros r ? [-> [[-> Hno]|(Hr & Hb & Hno)]]; split; try done.
  - left. split; [done|]. intros j Hj. apply Hno. lia.
  - right. split_and!; try done; [lia|]. destruct (decide (r < m_bits s)); [done|].
    rewrite Ht in Hb; [done|lia].
Qed.

Lemma find_unset_spec s n :
  wf s -> 0 <= n ->
  wp (find_unset n) s (fun r s' => s' = s /\
    let unset_at i := negb (bit s i) in
    ((r = npos /\ none_at unset_at n (m_bits s)) \/ first_at unset_at n (m_bits s) r)).
Proof.
  intros Hwf Hn. unfold find_unset. do 2 wp_step. pose proof (wf_size _ Hwf) as Hs. pose proof (wf_bits _ Hwf).
  destruct (Z.leb_spec (m_bits s) n).
  { wp_step. split; [done|]. left. split; [done|]. intros j Hj. lia. }
  wp_step. eapply wp_mono.
  { apply (find_spec s n block_ffz (fun w j => negb (Z.testbit w j)) (fun i => negb (bit s i)) complement);
      try done; [apply block_ffz_finds| |by apply complement_spec|].
    - intros k w j ? ? ?. by rewrite (bit_block s k w j).
    - intros w. unfold is_word, complement, u64_max. lia. }
  cbn beta. intros r ? [-> [[-> Hno]|(Hr & Hb & Hno)]]; wp_step; split; try done; cbn zeta.
  - left. unfold npos, u64_max. rewrite (proj2 (Z.ltb_ge _ _)) by lia. split; [done|].
    intros j Hj. apply Hno. lia.
  - destruct (Z.ltb_spec r (m_bits s)); [right; split_and!; done || lia|left].
    split; [done|]. intros j Hj. apply Hno. lia.
Qed.

(** *** Counting *)

Lemma cnt_add P n m : forall a, cnt P a (n + m) = cnt P a n + cnt P (a + Z.of_nat n) m.
Proof.
  induction n as [|n IH]; intros a; [by rewrite Z.add_0_r|].
  change (S n + m)%nat with (S (n + m)). cbn [cnt]. rewrite IH.
  replace (a + Z.of_nat (S n)) with (a + 1 + Z.of_nat n) by lia. lia.
Qed.

Lemma cnt_ext P Q n k : forall a, (forall j, a <= j < a + Z.of_nat n -> P j = Q (j + k)) ->
  cnt P a n = cnt Q (a + k) n.
Proof.
  induction n as [|n IH]; intros a Hj; [done|]. cbn [cnt]. rewrite Hj by lia. f_equal.
  replace (a + k + 1) with (a + 1 + k) by lia. apply IH. intros j ?. apply Hj. lia.
Qed.

Lemma cnt_none P n : forall a, (forall j, a <= j < a + Z.of_nat n -> P j = false) -> cnt P a n = 0.
Proof.
  induction n as [|n IH]; intros a Hj; [done|]. cbn [cnt]. rewrite Hj by lia. rewrite IH; [done|].
  intros j ?. apply Hj. lia.
Qed.

Lemma cnt_range P n : forall a, 0 <= cnt P a n <= Z.of_nat n.
Proof. induction n as [|n IH]; intros a; cbn [cnt]; [lia|]. specialize (IH (a + 1)). destruct (P a); lia. Qed.

(** The number of set bits in [[a, e)]. *)
Definition set_bits (s : bitset) (a e : Z) : Z := cnt (bit s) a (Z.to_nat (e - a)).

Lemma set_bits_split s a m e : a <= m <= e -> set_bits s a e = set_bits s a m + set_bits s m e.
Proof.
  intros. unfold set_bits. replace (Z.to_nat (e - a)) with (Z.to_nat (m - a) + Z.to_nat (e - m))%nat by lia.
  rewrite cnt_add. do 2 f_equal. lia.
Qed.

(** The popcount of a block of which only the bits in [[i, j)] are left. *)
Lemma popcount_range s k w b i j :
  0 <= k -> m_blocks s !! Z.to_nat k = Some w -> 0 <= i <= j -> j <= 64 ->
  (forall l, 0 <= l < 64 -> Z.testbit b l = (i <=? l) && (l <? j) && Z.testbit w l) ->
  block_popcount b = set_bits s (k * 64 + i) (k * 64 + j).
Proof.
  intros Hk Hw Hi Hj Hb. unfold block_popcount.
  replace 64%nat with (Z.to_nat i + (Z.to_nat (j - i) + Z.to_nat (64 - j)))%nat by lia.
  rewrite !cnt_add, (cnt_none _ (Z.to_nat i)), (cnt_none _ (Z.to_nat (64 - j))).
  - unfold set_bits. replace (k * 64 + j - (k * 64 + i)) with (j - i) by lia.
    rewrite (cnt_ext _ (bit s) _ (k * 64)); [replace (0 + Z.of_nat (Z.to_nat i) + k * 64) with (k * 64 + i) by lia; lia|].
    intros l Hl. rewrite Hb by lia. rewrite (proj2 (Z.leb_le _ _)), (proj2 (Z.ltb_lt _ _)) by lia. cbn.
    rewrite <- (bit_block s k w l) by (done || lia). f_equal. lia.
  - intros l Hl. rewrite Hb by lia. rewrite (proj2 (Z.ltb_ge l j)) by lia. by rewrite andb_false_r.
  - intros l Hl. rewrite Hb by lia. by rewrite (proj2 (Z.leb_gt i l)) by lia.
Qed.

Lemma mask_front_spec w i l : is_word 64 w -> 0 <= i < 64 -> 0 <= l < 64 ->
  Z.testbit (mask_front w i) l = (i <=? l) && Z.testbit w l.
Proof.
  intros Hw Hi Hl. unfold mask_front, wrap. rewrite Z.mod_pow2_bits_low, Z.shiftl_spec by lia.
  destruct (Z.leb_spec i l); cbn.
  - rewrite Z.shiftr_spec by lia. f_equal. lia.
  - apply Z.testbit_neg_r. lia.
Qed.

Lemma mask_back_spec w j l : 0 < j < 64 -> 0 <= l < 64 ->
  Z.testbit (mask_back w j) l = (l <? j) && Z.testbit w l.
Proof.
  intros Hj Hl. unfold mask_back, wrap, bits_per_block. rewrite Z.shiftr_spec by lia.
  destruct (Z.ltb_spec l j); cbn.
  - rewrite Z.mod_pow2_bits_low, Z.shiftl_spec by lia. f_equal. lia.
  - apply Z.mod_pow2_bits_high. lia.
Qed.

Lemma count_blocks_spec s n : forall k,
  0 <= k -> k + Z.of_nat n <= zlen (m_blocks s) ->
  wp (count_blocks n k) s (fun r s' => s' = s /\ r = set_bits s (k * 64) ((k + Z.of_nat n) * 64)).
Proof.
  induction n as [|n IH]; intros k Hk Hn; cbn [count_blocks].
  - wp_step. split; [done|]. unfold set_bits. by replace (Z.to_nat _) with 0%nat by lia.
  - destruct (lookup_lt_is_Some_2 (m_blocks s) (Z.to_nat k)) as [w Hw]; [lia|].
    wp_step. eapply block_at_spec; [done|]. wp_step. eapply wp_mono; [apply IH; lia|]. cbn beta.
    intros r ? [-> ->]. wp_step. split; [done|].
    rewrite (popcount_range s k w w 0 64) by (done || lia || (intros l ?;
      rewrite (proj2 (Z.leb_le 0 l)), (proj2 (Z.ltb_lt l 64)) by lia; done)).
    replace (k * 64 + 64) with ((k + 1) * 64) by lia. rewrite Z.add_0_r.
    replace (k + Z.of_nat (S n)) with (k + 1 + Z.of_nat n) by lia.
    symmetry. apply set_bits_split. lia.
Qed.

Lemma count_rest_spec s cur e :
  wf s -> 0 <= cur <= block_index e -> 0 <= e <= m_bits s ->
  wp (count_rest cur (block_index e) e) s (fun r s' => s' = s /\ r = set_bits s (cur * 64) e).
Proof.
  intros Hwf Hc He. destruct (decompose e) as (Hde & Hm & Hb); [lia|].
  pose proof (wf_size _ Hwf) as Hsz. set (b := block_index e) in *. unfold count_rest.
  wp_step. eapply wp_mono; [apply count_blocks_spec; lia|]. cbn beta. intros r ? [-> ->].
  replace (cur + Z.of_nat (Z.to_nat (b - cur))) with b by lia. rewrite bit_index_mod.
  destruct (Z.eqb_spec (e mod 64) 0) as [Hz|Hz]; cbn [negb].
  - wp_step. split; [done|]. f_equal. lia.
  - rewrite Z.max_r by lia. destruct (lookup_lt_is_Some_2 (m_blocks s) (Z.to_nat b)) as [w Hw]; [lia|].
    wp_step. eapply block_at_spec; [done|]. wp_step. split; [done|].
    rewrite (popcount_range s b w _ 0 (e mod 64)) by (done || lia || (intros l ?;
      rewrite (proj2 (Z.leb_le 0 l)), mask_back_spec by lia; done)).
    rewrite Z.add_0_r, <- Hde. symmetry. apply set_bits_split. lia.
Qed.

Lemma count_spec s begin n :
  wf s -> 0 <= begin -> 0 <= n -> begin + n < 2 ^ 64 ->
  wp (count begin n) s (fun r s' => s' = s /\ r = set_bits s begin (Z.min (begin + n) (m_bits s))).
Proof.
  intros Hwf Hb Hn Hov. unfold count. do 2 wp_step. rewrite wrap_small by (unfold is_word; lia).
  destruct (Z.leb_spec (m_bits s) begin); cbn [orb].
  { wp_step. split; [done|]. unfold set_bits. by replace (Z.to_nat _) with 0%nat by lia. }
  destruct (Z.eqb_spec n 0) as [->|Hn0].
  { wp_step. split; [done|]. unfold set_bits. by replace (Z.to_nat _) with 0%nat by lia. }
  set (e := Z.min (begin + n) (m_bits s)). assert (begin < e <= m_bits s) as He by lia.
  destruct (decompose begin Hb) as (Hdb & Hmb & Hbb). destruct (decompose e) as (Hde & Hme & Hbe); [lia|].
  rewrite !bit_index_mod. destruct (Z.eqb_spec (begin mod 64) 0) as [Hz|Hz]; cbn [negb].
  - eapply wp_mono; [apply count_rest_spec; [done|lia|lia]|]. cbn beta. intros r ? [-> ->].
    split; [done|]. f_equal. lia.
  - destruct (lookup_block s begin Hwf) as (w & Hw & Hww & _); [lia|].
    set (cb := block_index begin) in *. set (eb := block_index e) in *.
    wp_step. eapply block_at_spec; [done|].
    destruct (Z.eqb_spec eb cb) as [Heq|Hne].
    + wp_step. split; [done|].
      rewrite (popcount_range s cb w _ (begin mod 64) (e mod 64)); try done; try lia.
      * f_equal; lia.
      * intros l Hl. rewrite mask_back_spec, mask_front_spec by (done || lia).
        rewrite andb_assoc. f_equal. apply andb_comm.
    + wp_step. eapply wp_mono; [apply count_rest_spec; [done|fold eb; lia|lia]|]. cbn beta.
      intros r ? [-> ->]. wp_step. split; [done|].
      rewrite (popcount_range s cb w _ (begin mod 64) 64); try done; try lia.
      * rewrite <- Hdb. replace (cb * 64 + 64) with ((cb + 1) * 64) by lia.
        symmetry. apply set_bits_split. lia.
      * intros l Hl. rewrite mask_front_spec by (done || lia). rewrite (proj2 (Z.ltb_lt l 64)) by lia.
        by rewrite andb_true_r.
Qed.

(** *** Size *)

Lemma make_spec bits : 0 <= bits <= 2 ^ 64 - 64 ->
  exists s, make bits = Ok s /\ wf s /\ m_bits s = bits /\ forall i, bit s i = false.
Proof.
  intros Hb. unfold make. destruct (ceil_div_spec 64 bits bits_per_block) as (q & -> & Hq);
    [unfold is_word; lia|unfold is_word, bits_per_block; lia|done|unfold bits_per_block; lia|].
  unfold bits_per_block in Hq. eexists. split; [done|]. split_and!; try done.
  - split; cbn; [lia|rewrite length_replicate; lia|]. apply Forall_replicate. done.
  - intros i. unfold bit. cbn. destruct (replicate _ _ !! _) as [b|] eqn:Hl; cbn; [|apply Z.bits_0].
    apply lookup_replicate in Hl as [-> _]. apply Z.bits_0.
Qed.

(** Growing keeps the bits and adds zeros. *)
Lemma bitset_grow_spec s bits :
  wf s -> trimmed s -> m_bits s <= bits <= 2 ^ 64 - 64 ->
  wp (resize bits) s (fun _ s' => wf s' /\ trimmed s' /\ m_bits s' = bits /\ forall i, bit s' i = bit s i).
Proof.
  intros Hwf Ht Hb. pose proof Hwf as [Hbits Hsz Hbl]. unfold resize.
  destruct (ceil_div_spec 64 bits bits_per_block) as (q & -> & Hq);
    [unfold is_word; lia|unfold is_word, bits_per_block; lia|done|unfold bits_per_block; lia|].
  unfold bits_per_block in Hq. do 2 wp_step. wp_step.
  assert (forall i, bit (Bitset bits (resize_blocks q (m_blocks s))) i = bit s i) as Heq.
  { intros i. unfold bit, resize_blocks. cbn. rewrite take_ge by lia. rewrite lookup_app.
    destruct (m_blocks s !! Z.to_nat (i / 64)) as [w|]; [done|]. cbn.
    destruct (replicate _ _ !! _) as [b|] eqn:Hl; [|done]. by apply lookup_replicate in Hl as [-> _]. }
  split_and!; try done.
  - split; cbn; [lia| |].
    + unfold resize_blocks. rewrite length_app, length_take, length_replicate. lia.
    + unfold resize_blocks. apply Forall_app. split; [by apply Forall_take|]. by apply Forall_replicate.
  - intros i Hi. cbn in Hi. rewrite Heq. apply Ht. lia.
Qed.

(** ** Sessions *)

Inductive op : Set :=
| Test (i : Z)
| Set_ (i : Z)
| Unset (i : Z)
| FindSet (n : Z)
| FindUnset (n : Z)
| Count (begin n : Z)
| Grow (bits : Z).

Definition op_run (o : op) : B Z :=
  match o with
  | Test i => let* b := test i in ret (if b then 1 else 0)
  | Set_ i => set i ;;; ret 0
  | Unset i => unset i ;;; ret 0
  | FindSet n => find_set n
  | FindUnset n => find_unset n
  | Count begin n => count begin n
  | Grow bits => resize bits ;;; ret 0
  end.

(** A set of numbers below a bound. *)
Fixpoint search (P : Z -> bool) (n : Z) (fuel : nat) : Z :=
  match fuel with
  | O => npos
  | S fuel => if P n then n else search P (n + 1) fuel
  end.

Definition op_spec (o : op) (size : Z) (P : Z -> bool) : Z * (Z * (Z -> bool)) :=
  match o with
  | Test i => (if P i then 1 else 0, (size, P))
  | Set_ i => (0, (size, fun j => if j =? i then true else P j))
  | Unset i => (0, (size, fun j => if j =? i then false else P j))
  | FindSet n => (search P n (Z.to_nat (size - n)), (size, P))
  | FindUnset n => (search (fun j => negb (P j)) n (Z.to_nat (size - n)), (size, P))
  | Count begin n => (cnt P begin (Z.to_nat (Z.min (begin + n) size - begin)), (size, P))
  | Grow bits => (0, (bits, P))
  end.

Definition op_allowed (o : op) (size : Z) : Prop :=
  match o with
  | Test i | Set_ i | Unset i => 0 <= i < size
  | FindSet n | FindUnset n => 0 <= n
  | Count begin n => 0 <= begin /\ 0 <= n /\ begin + n < 2 ^ 64
  | Grow bits => size <= bits <= 2 ^ 64 - 64
  end.

Fixpoint ops_run (ops : list op) : B (list Z) :=
  match ops with
  | [] => ret []
  | o :: ops => let* r := op_run o in let* rs := ops_run ops in ret (r :: rs)
  end.
Fixpoint ops_spec (ops : list op) (size : Z) (P : Z -> bool) : list Z :=
  match ops with
  | [] => []
  | o :: ops => let '(r, (size', P')) := op_spec o size P in r :: ops_spec ops size' P'
  end.
Fixpoint ops_allowed (ops : list op) (size : Z) : Prop :=
  match ops with
  | [] => True
  | o :: ops => op_allowed o size /\ ops_allowed ops (op_spec o size (fun _ => false)).2.1
  end.

Lemma search_spec P a e r :
  a <= e -> (r = npos /\ none_at P a e) \/ first_at P a e r -> r = search P a (Z.to_nat (e - a)).
Proof.
  remember (Z.to_nat (e - a)) as n eqn:Hn. revert a Hn. induction n as [|n IH]; intros a Hn Hae Hr; cbn.
  - destruct Hr as [[-> _]|(Hr & _)]; [done|lia].
  - destruct (P a) eqn:HPa.
    + destruct Hr as [[_ Hno]|(Hr & _ & Hno)]; [rewrite Hno in HPa by lia; done|].
      destruct (decide (a < r)); [rewrite Hno in HPa by lia; done|lia].
    + apply IH; [lia|lia|]. destruct Hr as [[-> Hno]|(Hr & HPr & Hno)]; [left|right].
      * split; [done|]. intros j Hj. apply Hno. lia.
      * assert (r <> a) by (intros ->; congruence). split_and!; [lia|lia|done|]. intros j Hj. apply Hno. lia.
Qed.

Lemma search_ext P Q n : forall a, (forall j, a <= j -> P j = Q j) -> search P a n = search Q a n.
Proof.
  induction n as [|n IH]; intros a Hj; cbn; [done|]. rewrite Hj by lia. rewrite IH; [done|].
  intros j ?. apply Hj. lia.
Qed.

Definition models (s : bitset) (size : Z) (P : Z -> bool) : Prop :=
  wf s /\ trimmed s /\ m_bits s = size /\ forall i, 0 <= i -> bit s i = P i.

Lemma search_models s size P n r (neg : bool -> bool) :
  models s size P -> 0 <= n ->
  ((r = npos /\ none_at (fun i => neg (bit s i)) n size) \/ first_at (fun i => neg (bit s i)) n size r) ->
  r = search (fun i => neg (P i)) n (Z.to_nat (size - n)).
Proof.
  intros (_ & _ & _ & HP) Hn Hr. destruct (decide (n <= size)).
  - apply search_spec in Hr; [|done]. rewrite Hr. apply search_ext. intros j ?. by rewrite HP by lia.
  - destruct Hr as [[-> _]|(Hr & _)]; [|lia]. by replace (Z.to_nat _) with 0%nat by lia.
Qed.

Lemma update_models s s' size P i v :
  models s size P -> 0 <= i < size -> wf s' -> m_bits s' = m_bits s -> bit s' i = v ->
  (forall k, 0 <= k -> k <> i -> bit s' k = bit s k) ->
  models s' size (fun j => if j =? i then v else P j).
Proof.
  intros (Hwf & Ht & Hb & HP) Hi Hwf' Hb' Hv Ho.
  assert (forall k, 0 <= k -> bit s' k = if k =? i then v else P k) as Hk.
  { intros k Hk. destruct (Z.eqb_spec k i) as [->|]; [done|]. by rewrite Ho, HP. }
  split_and!; try done; [|congruence]. intros k Hk0. pose proof (wf_bits _ Hwf).
  rewrite Hk by lia. destruct (Z.eqb_spec k i); [lia|]. rewrite <- HP by lia. apply Ht. lia.
Qed.

Lemma op_models s size P o :
  models s size P -> op_allowed o size ->
  wp (op_run o) s (fun r s' => r = (op_spec o size P).1 /\
    models s' (op_spec o size P).2.1 (op_spec o size P).2.2).
Proof.
  intros Hm Ho. pose proof Hm as (Hwf & Ht & Hb & HP).
  destruct o as [i|i|i|n|n|b n|bits]; cbn [op_run op_spec op_allowed fst snd] in *; try wp_step.
  - eapply wp_mono; [apply test_spec; [done|lia]|]. cbn beta. intros r ? [-> ->]. wp_step.
    by rewrite HP by lia.
  - eapply wp_mono; [apply set_spec; [done|lia]|]. cbn beta. intros _ s' (? & ? & ? & ?). wp_step.
    split; [done|]. by eapply update_models.
  - eapply wp_mono; [apply unset_spec; [done|lia]|]. cbn beta. intros _ s' (? & ? & ? & ?). wp_step.
    split; [done|]. by eapply update_models.
  - eapply wp_mono; [by apply find_set_spec|]. cbn beta. rewrite Hb. intros r ? [-> Hr]. split; [|done].
    exact (search_models s size P n r id Hm Ho Hr).
  - eapply wp_mono; [by apply find_unset_spec|]. cbn beta zeta. rewrite Hb. intros r ? [-> Hr]. split; [|done].
    exact (search_models s size P n r negb Hm Ho Hr).
  - eapply wp_mono; [apply count_spec; [done|lia..]|]. cbn beta. intros r ? [-> ->]. split; [|done].
    unfold set_bits. rewrite Hb, (cnt_ext (bit s) P _ 0), Z.add_0_r; [done|].
    intros j Hj. rewrite Z.add_0_r. apply HP. lia.
  - eapply wp_mono; [apply bitset_grow_spec; [done|done|lia]|]. cbn beta. intros _ s' (Hwf' & Ht' & Hb' & Hbit). wp_step.
    split; [done|]. split_and!; try done. intros i Hi. by rewrite Hbit, HP.
Qed.

Lemma ops_models ops : forall s size P,
  models s size P -> ops_allowed ops size ->
  wp (ops_run ops) s (fun rs s' => rs = ops_spec ops size P).
Proof.
  induction ops as [|o ops IH]; intros s size P Hm Ho; cbn [ops_run ops_spec]; [by wp_step|].
  destruct Ho as [Ho Hops]. wp_step. eapply wp_mono; [by apply op_models|]. cbn beta.
  intros r s' [-> Hm']. wp_step.
  assert ((op_spec o size P).2.1 = (op_spec o size (fun _ => false)).2.1) as Hsz by (by destruct o).
  eapply wp_mono; [apply IH; [done|by rewrite Hsz]|]. cbn beta. intros rs s'' ->. wp_step.
  by destruct (op_spec o size P) as [r [size' P']].
Qed.

(** C34: The bitset behaves like a function from indices to booleans.  For
    every permitted sequence of test, set, unset, find_set, find_unset, count
    and growing resize, the word-level implementation returns what a bit by
    bit search and count return, never accesses a block outside of its vector
    and never fails. *)
Theorem bitset_session bits ops :
  0 <= bits <= 2 ^ 64 - 64 -> ops_allowed ops bits ->
  exists s s', make bits = Ok s /\ ops_run ops s = (s', Ok (ops_spec ops bits (fun _ => false))).
Proof.
  intros Hb Hops. destruct (make_spec bits Hb) as (s & Hmake & Hwf & Hs & Hbit).
  pose proof (ops_models ops s bits (fun _ => false)) as Hw. premise Hw.
  { split_and!; try done. intros i _. apply Hbit. }
  specialize (Hw Hops). apply wp_run in Hw as (s' & rs & Hrun & ->). by exists s, s'.
Qed.

Definition sample_ops : list op :=
  [Set_ 3; Set_ 70; Count 0 100; FindSet 4; Unset 70; FindSet 4; FindUnset 3; Grow 200; Test 150; Set_ 150; FindSet 64].

Lemma bitset_session_witness :
  exists s s', make 100 = Ok s /\
    ops_run sample_ops s = (s', Ok [0; 0; 2; 70; 0; npos; 4; 0; 0; 0; 150]).
Proof. apply (bitset_session 100 sample_ops); cbn; lia. Defined.

(** Shrinking does not clear the bits behind the new size: a later search
    returns an index that is out of bounds, and growing exposes them again,
    although "newly added bits are set to zero". *)
Lemma shrink_keeps_bits s :
  make 128 = Ok s ->
  ((set 70 ;;; resize 66 ;;; find_set 0) s).2 = Ok 70 /\
  ((set 70 ;;; resize 66 ;;; resize 128 ;;; test 70) s).2 = Ok true.
Proof. intros [= <-]. by vm_compute. Qed.
End bitset.
