(* ===== verification/FreeList.v ===== *)
(** * The free list (include/prequel/detail/free_list.hpp, src/detail/free_list.cpp)

    A linked list of nodes, each an array of block indices; the nodes are
    themselves free blocks.  [fl_inv] relates the bytes of the nodes to one
    stack of block indices: [push] and [pop] are its push and pop, and touch
    no block outside of it. *)

From Stdlib Require Import Strings.Byte.
From S2P Require Import Prelude MathOps Serialization Blocks EngineSpec.

(** ** Data *)

(** [serialized_size] of [free_list_header] and of [block_index] *)
Definition header_size : Z := 12.
Definition value_size : Z := 8.

(** [free_list_node::capacity] *)
Definition capacity (block_size : Z) : Z :=
  if block_size <=? header_size then 0 else (block_size - header_size) / value_size.

(** The engine and the anchor. *)
Record free_list (E : Type) : Type := FreeList { fl_engine : E; fl_head : Z }.
Arguments FreeList {E}.
Arguments fl_engine {E} _.
Arguments fl_head {E} _.

(** Fields of a node inside of its block. *)
Definition offset_of_value (index : Z) : Z := u32 (header_size + value_size * index).
Definition get_next (b : bytes) : Z := be_decode (slice 0 8 b).
Definition get_size (b : bytes) : Z := be_decode (slice 8 4 b).
Definition get_value (index : Z) (b : bytes) : Z := be_decode (slice (offset_of_value index) 8 b).
Definition put_next (next : Z) (b : bytes) : bytes := splice 0 (be_encode 8 next) b.
Definition put_size (size : Z) (b : bytes) : bytes := splice 8 (be_encode 4 size) b.
Definition put_value (index value : Z) (b : bytes) : bytes :=
  splice (offset_of_value index) (be_encode 8 value) b.
(** [m_handle.set(free_list_header())] *)
Definition put_header (b : bytes) : bytes :=
  splice 0 (be_encode 8 invalid_value ++ be_encode 4 0) b.

Section free_list_ops.
Context {E : Type} `{Engine E}.
Abbreviation L := (free_list E).

Definition set_engine (e : E) (s : L) : L := FreeList e (fl_head s).
Definition set_head (h : Z) : M L unit := modify (fun s => FreeList (fl_engine s) h).
Definition on_engine {A} (m : M E A) : M L A := zoom fl_engine set_engine m.

Definition node_read {A} (i : Z) (f : bytes -> A) : M L A :=
  let* b := on_engine (eng_read i) in ret (f b).
Definition node_write (i : Z) (f : bytes -> bytes) : M L unit := on_engine (eng_update i f).

(** [m_block_capacity] *)
Definition block_capacity : M L Z :=
  gets (fun s => capacity (d_bs (eng_view (fl_engine s)))).

Definition node_full (i : Z) : M L bool :=
  let* cap := block_capacity in
  let* sz := node_read i get_size in
  ret (sz =? cap).
Definition node_empty (i : Z) : M L bool :=
  let* sz := node_read i get_size in
  ret (sz =? 0).
Definition node_set_size (i new_size : Z) : M L unit :=
  let* cap := block_capacity in
  assert! (new_size <=? cap) ;;;
  node_write i (put_size new_size).

Definition node_push (i block : Z) : M L unit :=
  let* full := node_full i in
  assert! (negb full) ;;;
  let* size := node_read i get_size in
  let* cap := block_capacity in
  assert! (size <=? cap) ;;;
  node_write i (put_value size block) ;;;
  node_set_size i (u32 (size + 1)).

Definition node_pop (i : Z) : M L Z :=
  let* empty := node_empty i in
  assert! (negb empty) ;;;
  let* size := node_read i get_size in
  let* cap := block_capacity in
  assert! (u32 (size - 1) <=? cap) ;;;
  let* result := node_read i (get_value (u32 (size - 1))) in
  node_set_size i (u32 (size - 1)) ;;;
  ret result.

(** The constructor. *)
Definition make_free_list (e : E) (head : Z) : result L :=
  if 0 <? capacity (d_bs (eng_view e)) then Ok (FreeList e head) else Err check_failure.

Definition empty : M L bool := gets (fun s => negb (index_valid (fl_head s))).

Definition push (block : Z) : M L unit :=
  let* head := gets fl_head in
  let* pushed :=
    (if index_valid head then
       let* full := node_full head in
       if negb full then node_push head block ;;; ret true else ret false
     else ret false) in
  if pushed : bool then ret tt else
  on_engine (eng_overwrite_zero block) ;;;
  node_write block put_header ;;;
  node_write block (put_next head) ;;;
  set_head block.

Definition pop : M L Z :=
  let* head := gets fl_head in
  throw_if (negb (index_valid head)) bad_operation ;;;
  let* empty := node_empty head in
  if negb empty then node_pop head else
  let* next := node_read head get_next in
  set_head next ;;;
  ret head.
End free_list_ops.

(** ** Fields *)

(** The header is laid out as its binary format says. *)
Definition header_format : ty := t_struct [t_uint 8; t_uint 4].

Lemma header_layout sizeof next size :
  Z.of_nat (serialized_size sizeof header_format) = header_size /\
  serialize sizeof header_format (v_seq [v_int next; v_int size]) = Ok (be_encode 8 next ++ be_encode 4 size).
Proof. split; reflexivity. Qed.

Section fields.
Implicit Types (b : bytes) (k : Z).

Lemma offset_of_value_eq k : 0 <= k -> 12 + 8 * k < 2 ^ 32 -> offset_of_value k = 12 + 8 * k.
Proof.
  intros. unfold offset_of_value, header_size, value_size. rewrite wrap_small; [done|].
  unfold is_word. lia.
Qed.

(** A field of [n] bytes at [off] in the block. *)
Lemma field_same off n z b :
  0 <= off -> off + Z.of_nat n <= zlen b -> 0 <= z < 256 ^ Z.of_nat n ->
  be_decode (slice off (Z.of_nat n) (splice off (be_encode n z) b)) = z.
Proof.
  intros. rewrite slice_splice_same by (rewrite ?length_be_encode; lia).
  by apply be_decode_encode_small.
Qed.

Lemma field_other off n z b off' m :
  0 <= off -> off + Z.of_nat n <= zlen b -> 0 <= off' -> 0 <= m ->
  off' + m <= off \/ off + Z.of_nat n <= off' ->
  slice off' m (splice off (be_encode n z) b) = slice off' m b.
Proof. intros. apply slice_splice_disjoint; rewrite ?length_be_encode; lia. Qed.

Lemma put_next_fields z b :
  is_u64 z -> 12 <= zlen b ->
  get_next (put_next z b) = z /\ get_size (put_next z b) = get_size b.
Proof.
  unfold is_word. intros. unfold get_next, get_size, put_next. split.
  - by apply (field_same 0 8); simpl; lia.
  - by rewrite field_other by (simpl; lia).
Qed.

Lemma put_size_fields z b :
  is_u32 z -> 12 <= zlen b ->
  get_size (put_size z b) = z /\ get_next (put_size z b) = get_next b /\
  forall k, 0 <= k -> 12 + 8 * k < 2 ^ 32 -> get_value k (put_size z b) = get_value k b.
Proof.
  unfold is_word. intros. unfold get_next, get_size, get_value, put_size. split_and!.
  - by apply (field_same 8 4); simpl; lia.
  - by rewrite field_other by (simpl; lia).
  - intros k Hk Hlt. rewrite (offset_of_value_eq k) by lia. by rewrite field_other by (simpl; lia).
Qed.

Lemma put_value_fields k z b :
  is_u64 z -> 0 <= k -> 12 + 8 * (k + 1) <= zlen b -> zlen b < 2 ^ 32 ->
  get_value k (put_value k z b) = z /\
  get_size (put_value k z b) = get_size b /\ get_next (put_value k z b) = get_next b /\
  forall j, 0 <= j < k -> get_value j (put_value k z b) = get_value j b.
Proof.
  unfold is_word. intros. unfold get_next, get_size, get_value, put_value.
  rewrite (offset_of_value_eq k) by lia. split_and!.
  - by apply (field_same _ 8); simpl; lia.
  - by rewrite field_other by (simpl; lia).
  - by rewrite field_other by (simpl; lia).
  - intros j Hj. rewrite (offset_of_value_eq j) by lia. by rewrite field_other by (simpl; lia).
Qed.

Lemma length_put_next z b : 12 <= zlen b -> length (put_next z b) = length b.
Proof. intros. apply length_splice; len. Qed.

Lemma length_put_size z b : 12 <= zlen b -> length (put_size z b) = length b.
Proof. intros. apply length_splice; len. Qed.

Lemma length_put_value k z b :
  0 <= k -> 12 + 8 * (k + 1) <= zlen b -> zlen b < 2 ^ 32 ->
  length (put_value k z b) = length b.
Proof. intros. unfold put_value. rewrite offset_of_value_eq by lia. apply length_splice; len. Qed.

Lemma length_put_header b : 12 <= zlen b -> length (put_header b) = length b.
Proof. intros. apply length_splice; rewrite ?length_app, ?length_be_encode; lia. Qed.

(** A node after [init] and [set_next]. *)
Lemma fresh_node_fields next b :
  is_u64 next -> 12 <= zlen b ->
  get_next (put_next next (put_header b)) = next /\ get_size (put_next next (put_header b)) = 0.
Proof.
  intros Hn Hb. pose proof (length_put_header b Hb) as Hl.
  destruct (put_next_fields next (put_header b)) as [-> ->]; [done|lia|]. split; [done|].
  unfold get_size, put_header. change 8 with (0 + 8) at 1.
  rewrite <- (slice_slice 0 12) by lia.
  rewrite slice_splice_same by (rewrite ?length_app, ?length_be_encode; lia). done.
Qed.
End fields.

(** ** Specification *)

Section free_list_spec.
Context {E : Type} `{EngineSpec E}.
Implicit Types (s : free_list E) (d : disk).

(** A node [(i, vals)] in the disk. *)
Definition node_ok d (i : Z) (vals : list Z) (next : Z) : Prop :=
  let b := disk_block d i in
  in_disk d i /\ zlen vals <= capacity (d_bs d) /\
  get_next b = next /\ get_size b = zlen vals /\
  forall k v, vals !! k = Some v -> get_value (Z.of_nat k) b = v.

Fixpoint chain d (head : Z) (nodes : list (Z * list Z)) : Prop :=
  match nodes with
  | [] => head = invalid_value
  | (i, vals) :: nodes =>
    head = i /\ exists next, node_ok d i vals next /\ chain d next nodes
  end.

Definition node_stack (n : Z * list Z) : list Z := rev n.2 ++ [n.1].
Definition stack_of (nodes : list (Z * list Z)) : list Z := concat (map node_stack nodes).

(** [s] holds the blocks of [stack], the next one to be popped first. *)
Definition fl_inv s (stack : list Z) : Prop :=
  let d := eng_view (fl_engine s) in
  eng_inv (fl_engine s) /\ 0 < capacity (d_bs d) /\ NoDup stack /\ Forall (in_disk d) stack /\
  exists nodes, chain d (fl_head s) nodes /\ stack = stack_of nodes.

Lemma capacity_bound bs : 0 < capacity bs -> 12 + 8 * capacity bs <= bs.
Proof.
  unfold capacity, header_size, value_size. destruct (Z.leb_spec bs 12); [lia|]. intros _.
  pose proof (Z.mul_div_le (bs - 12) 8). lia.
Qed.

Lemma wp_on_engine {A} (m : M E A) s Q :
  wp m (fl_engine s) (fun a e => Q a (set_engine e s)) -> wp (on_engine m) s Q.
Proof. apply wp_zoom. Qed.

(** Two states with the same disk and head. *)
Definition same_view s s' : Prop :=
  eng_inv (fl_engine s') /\ eng_view (fl_engine s') = eng_view (fl_engine s) /\ fl_head s' = fl_head s.

Lemma node_read_spec {A} s i (f : bytes -> A) (Q : A -> free_list E -> Prop) :
  eng_inv (fl_engine s) -> in_disk (eng_view (fl_engine s)) i ->
  (forall s', same_view s s' -> Q (f (disk_block (eng_view (fl_engine s)) i)) s') ->
  wp (node_read i f) s Q.
Proof.
  intros Hi Hin HQ. unfold node_read. wp_step. apply wp_on_engine.
  eapply wp_mono; [by apply spec_read|]. cbn beta. intros b e (-> & Hi' & Hv). wp_step.
  apply HQ. by split_and!.
Qed.

Lemma node_write_spec s i f (Q : unit -> free_list E -> Prop) :
  eng_inv (fl_engine s) -> in_disk (eng_view (fl_engine s)) i ->
  (forall b, zlen b = d_bs (eng_view (fl_engine s)) -> length (f b) = length b) ->
  (forall s', eng_inv (fl_engine s') -> fl_head s' = fl_head s ->
     eng_view (fl_engine s') =
       disk_set i (f (disk_block (eng_view (fl_engine s)) i)) (eng_view (fl_engine s)) -> Q tt s') ->
  wp (node_write i f) s Q.
Proof.
  intros Hi Hin Hf HQ. unfold node_write. apply wp_on_engine.
  eapply wp_mono; [apply spec_update; try done|].
  { apply Hf. apply length_disk_block; [by apply spec_wf|done]. }
  cbn beta. intros [] e (Hi' & Hv). by apply HQ.
Qed.

Lemma node_block_length s i vals next :
  eng_inv (fl_engine s) -> 0 < capacity (d_bs (eng_view (fl_engine s))) ->
  node_ok (eng_view (fl_engine s)) i vals next ->
  let d := eng_view (fl_engine s) in
  zlen (disk_block d i) = d_bs d /\ d_bs d < 2 ^ 32 /\
  12 + 8 * capacity (d_bs d) <= zlen (disk_block d i) /\ zlen vals <= capacity (d_bs d).
Proof.
  intros Hi Hc (Hin & Hl & _) d. pose proof (spec_wf _ Hi) as Hwf.
  pose proof (wf_bs_pos _ Hwf). pose proof (capacity_bound _ Hc).
  rewrite length_disk_block by done. unfold d. lia.
Qed.

(** [s'] differs from [s] in block [i] and perhaps in the cache. *)
Definition wrote (i : Z) s s' : Prop :=
  eng_inv (fl_engine s') /\ fl_head s' = fl_head s /\
  exists b, eng_view (fl_engine s') = disk_set i b (eng_view (fl_engine s)).

Section node.
Context s (i : Z) (vals : list Z) (next : Z) (d := eng_view (fl_engine s)).
Context (Hinv : eng_inv (fl_engine s)) (Hcap : 0 < capacity (d_bs d)) (Hnode : node_ok d i vals next).

Lemma node_full_spec (Q : bool -> free_list E -> Prop) :
  (forall s', same_view s s' -> Q (zlen vals =? capacity (d_bs d)) s') -> wp (node_full i) s Q.
Proof.
  intros HQ. destruct Hnode as (Hin & _ & _ & Hsz & _). unfold node_full, block_capacity.
  do 3 wp_step. apply node_read_spec; try done. fold d. intros s' Hs'. wp_step. rewrite Hsz.
  by apply HQ.
Qed.

Lemma node_empty_spec (Q : bool -> free_list E -> Prop) :
  (forall s', same_view s s' -> Q (zlen vals =? 0) s') -> wp (node_empty i) s Q.
Proof.
  intros HQ. destruct Hnode as (Hin & _ & _ & Hsz & _). unfold node_empty.
  wp_step. apply node_read_spec; try done. fold d. intros s' Hs'. wp_step. rewrite Hsz.
  by apply HQ.
Qed.
End node.

Lemma node_ok_push d i vals next b :
  node_ok d i vals next -> wf_disk d -> zlen vals < capacity (d_bs d) -> is_u64 b ->
  node_ok (disk_set i (put_size (zlen vals + 1) (put_value (zlen vals) b (disk_block d i))) d)
    i (vals ++ [b]) next.
Proof.
  intros (Hin & Hl & Hn & Hs & Hv) Hwf Hlt Hb. pose proof (length_disk_block d i Hwf Hin) as Hlen.
  pose proof (wf_bs_pos d Hwf). pose proof (capacity_bound (d_bs d) ltac:(lia)).
  destruct (put_value_fields (zlen vals) b (disk_block d i)) as (Hv1 & Hv2 & Hv3 & Hv4); [done|lia..|].
  pose proof (length_put_value (zlen vals) b (disk_block d i)) as Hpl.
  do 3 (premise Hpl; [lia|]).
  destruct (put_size_fields (zlen vals + 1) (put_value (zlen vals) b (disk_block d i)))
    as (Hs1 & Hs2 & Hs3); [unfold is_word; lia|lia|].
  unfold node_ok. rewrite disk_set_in, disk_set_bs, disk_set_block_eq, Hs1, Hs2 by done.
  split_and!; [done|rewrite length_app; simpl; lia|congruence|rewrite length_app; simpl; lia|].
  intros k v Hk. rewrite Hs3 by (apply lookup_lt_Some in Hk; rewrite length_app in Hk; simpl in *; lia).
  apply lookup_snoc_Some in Hk as [[Hk1 Hk2]|[-> ->]]; [|done].
  rewrite Hv4 by lia. by apply Hv.
Qed.

Lemma node_ok_pop d i vals next b :
  node_ok d i (vals ++ [b]) next -> wf_disk d -> 0 < capacity (d_bs d) ->
  get_value (zlen vals) (disk_block d i) = b /\
  node_ok (disk_set i (put_size (zlen vals) (disk_block d i)) d) i vals next.
Proof.
  intros (Hin & Hl & Hn & Hs & Hv) Hwf Hc. pose proof (length_disk_block d i Hwf Hin) as Hlen.
  rewrite length_app in *. simpl in *.
  pose proof (wf_bs_pos d Hwf). pose proof (capacity_bound (d_bs d) Hc).
  split; [apply Hv; by apply list_lookup_middle|].
  destruct (put_size_fields (zlen vals) (disk_block d i)) as (Hs1 & Hs2 & Hs3); [unfold is_word; lia..|].
  unfold node_ok. rewrite disk_set_in, disk_set_bs, disk_set_block_eq, Hs1, Hs2 by done.
  split_and!; [done|lia|done|done|].
  intros k v Hk. pose proof (lookup_lt_Some _ _ _ Hk). rewrite Hs3 by lia.
  apply Hv. by apply lookup_app_l_Some.
Qed.

(** The engine after the reads of a node function. *)
Lemma same_view_node s s' i vals next :
  same_view s s' -> node_ok (eng_view (fl_engine s)) i vals next ->
  node_ok (eng_view (fl_engine s')) i vals next.
Proof. by intros (_ & -> & _). Qed.

Lemma node_set_size_spec s i z (Q : unit -> free_list E -> Prop) :
  let d := eng_view (fl_engine s) in
  eng_inv (fl_engine s) -> in_disk d i -> 0 < capacity (d_bs d) -> z <= capacity (d_bs d) ->
  (forall s', eng_inv (fl_engine s') -> fl_head s' = fl_head s ->
     eng_view (fl_engine s') = disk_set i (put_size z (disk_block d i)) d -> Q tt s') ->
  wp (node_set_size i z) s Q.
Proof.
  intros d Hi Hin Hc Hz HQ. unfold node_set_size, block_capacity. do 2 wp_step. fold d.
  wp_step. wp_step. pose proof (capacity_bound _ Hc).
  apply node_write_spec; try done. intros b Hb. apply length_put_size. fold d in Hb. lia.
Qed.

Lemma node_push_spec s i vals next b (Q : unit -> free_list E -> Prop) :
  let d := eng_view (fl_engine s) in
  eng_inv (fl_engine s) -> node_ok d i vals next -> zlen vals < capacity (d_bs d) -> is_u64 b ->
  (forall s', wrote i s s' -> node_ok (eng_view (fl_engine s')) i (vals ++ [b]) next -> Q tt s') ->
  wp (node_push i b) s Q.
Proof.
  intros d Hi Hn Hlt Hb HQ. pose proof (spec_wf _ Hi) as Hwf. fold d in Hwf.
  pose proof (node_block_length s i vals next Hi ltac:(unfold d in *; lia) Hn) as (Hl & Hbs & Hcl & _).
  fold d in Hl, Hbs, Hcl. unfold node_push. wp_step.
  apply (node_full_spec s i vals next); try done. intros s1 (Hi1 & Hv1 & Hh1). wp_step.
  wp_step; [unfold d in *; lia|]. wp_step. destruct Hn as (Hin & Hn').
  apply node_read_spec; [done|by rewrite Hv1|]. intros s2 (Hi2 & Hv2 & Hh2).
  rewrite Hv1 in *. fold d. destruct Hn' as (Hle & Hnx & Hsz & Hvs). rewrite Hsz.
  unfold block_capacity at 1. do 2 wp_step. rewrite Hv2. fold d. wp_step. wp_step. wp_step.
  apply node_write_spec; [done|by rewrite Hv2| |].
  { intros c Hc. rewrite Hv2 in Hc. fold d in Hc. apply length_put_value; lia. }
  intros s3 Hi3 Hh3 Hv3. rewrite Hv2 in Hv3. fold d in Hv3.
  rewrite wrap_small by (unfold is_word; lia).
  apply node_set_size_spec; rewrite ?Hv3, ?disk_set_bs, ?disk_set_in; try done; try lia.
  rewrite disk_set_block_eq by done. intros s4 Hi4 Hh4 Hv4. rewrite disk_set_set in Hv4. apply HQ.
  - split_and!; [done|congruence|]. rewrite Hv4. by eexists.
  - rewrite Hv4. by apply node_ok_push.
Qed.

Lemma node_pop_spec s i vals next b (Q : Z -> free_list E -> Prop) :
  let d := eng_view (fl_engine s) in
  eng_inv (fl_engine s) -> node_ok d i (vals ++ [b]) next -> 0 < capacity (d_bs d) ->
  (forall s', wrote i s s' -> node_ok (eng_view (fl_engine s')) i vals next -> Q b s') ->
  wp (node_pop i) s Q.
Proof.
  intros d Hi Hn Hc HQ. pose proof (spec_wf _ Hi) as Hwf. fold d in Hwf.
  pose proof (node_block_length s i _ next Hi Hc Hn) as (_ & Hbs & Hcl & Hlv).
  rewrite length_app in Hlv. simpl in Hlv. fold d in Hbs, Hcl, Hlv.
  pose proof (capacity_bound _ Hc) as Hcb.
  pose proof (node_ok_pop d i vals next b Hn Hwf Hc) as [Hval Hok]. unfold node_pop. wp_step.
  apply (node_empty_spec s i (vals ++ [b]) next); try done. intros s1 (Hi1 & Hv1 & Hh1). wp_step.
  rewrite length_app. cbn [length]. wp_step; [destruct (Z.eqb_spec (Z.of_nat (length vals + 1)) 0); [lia|done]|]. wp_step. destruct Hn as (Hin & _ & _ & Hsz & _).
  apply node_read_spec; [done|by rewrite Hv1|]. intros s2 (Hi2 & Hv2 & Hh2).
  rewrite Hv1 in *. fold d. rewrite Hsz, length_app. simpl.
  rewrite wrap_small by (unfold is_word; lia).
  replace (Z.of_nat (length vals + 1) - 1) with (zlen vals) by lia.
  unfold block_capacity at 1. do 2 wp_step. rewrite Hv2. fold d. wp_step. wp_step. wp_step.
  apply node_read_spec; [done|by rewrite Hv2|]. intros s3 (Hi3 & Hv3 & Hh3). rewrite Hv2 in *. fold d.
  wp_step. apply node_set_size_spec; rewrite ?Hv3; try done; try (fold d; lia).
  intros s4 Hi4 Hh4 Hv4. fold d in Hv4. wp_step. rewrite Hval. apply HQ.
  - split_and!; [done|congruence|]. rewrite Hv4. by eexists.
  - by rewrite Hv4.
Qed.

(** *** The chain of nodes *)

Lemma chain_valid d h nodes : wf_disk d -> chain d h nodes ->
  is_u64 h /\ (index_valid h = false -> nodes = []) /\ (index_valid h = true -> nodes <> []).
Proof.
  intros Hwf Hch. destruct nodes as [|[i vals] nodes].
  - simpl in Hch. subst h. split_and!; [unfold is_word, invalid_value, u64_max; lia|done|done].
  - destruct Hch as (-> & next & (Hin & _) & _). pose proof (in_disk_valid d i Hwf Hin) as Hv.
    split_and!; [|congruence|done]. destruct Hwf as (? & ? & ?).
    unfold is_word, in_disk, invalid_value, u64_max in *. pose proof (geometry_pos _ ltac:(done)).
    unfold d_bs in *. nia.
Qed.

Lemma node_stack_head n : n.1 ∈ node_stack n.
Proof. unfold node_stack. set_solver. Qed.

(** Only the nodes themselves matter. *)
Lemma chain_mono d d' h nodes :
  d_bs d' = d_bs d -> d_size d <= d_size d' ->
  (forall i, in_disk d i -> i ∈ stack_of nodes -> disk_block d' i = disk_block d i) ->
  chain d h nodes -> chain d' h nodes.
Proof.
  intros Hbs Hsz. revert h. induction nodes as [|[j vals] nodes IH]; [done|].
  intros h Hsame (-> & next & Hn & Hch). unfold stack_of in *. cbn in Hsame.
  split; [done|]. exists next. split.
  - destruct Hn as (Hin & Hn). unfold node_ok. rewrite Hsame, Hbs by (try done; apply elem_of_app; left; apply (node_stack_head (j, vals))).
    split; [unfold in_disk in *; lia|done].
  - apply IH; [|done]. intros i Hi Hin. apply Hsame; [done|]. apply elem_of_app. by right.
Qed.

Lemma chain_set d h nodes i b :
  wf_disk d -> in_disk d i -> chain d h nodes -> i ∉ stack_of nodes -> chain (disk_set i b d) h nodes.
Proof.
  intros Hwf Hi Hch Hni. apply (chain_mono d); try done; [rewrite disk_set_size; lia|].
  intros j Hj Hin. apply disk_set_block_ne; [unfold in_disk in *; lia..|]. by intros <-.
Qed.

Lemma stack_of_cons i vals nodes : stack_of ((i, vals) :: nodes) = rev vals ++ i :: stack_of nodes.
Proof. unfold stack_of, node_stack. simpl. by rewrite <- app_assoc. Qed.

(** *** [push] and [pop] *)

(** Blocks outside of [l] keep their contents. *)
Definition frame (l : list Z) d d' : Prop :=
  d_geo d' = d_geo d /\ d_size d' = d_size d /\
  forall i, in_disk d i -> i ∉ l -> disk_block d' i = disk_block d i.

Lemma frame_refl l d : frame l d d.
Proof. by split_and!. Qed.

Lemma frame_set l d i b : in_disk d i -> i ∈ l -> frame l d (disk_set i b d).
Proof.
  intros Hi Hl. split_and!; [done|apply disk_set_size|]. intros j Hj Hnl.
  apply disk_set_block_ne; [unfold in_disk in *; lia..|]. by intros ->.
Qed.

Lemma frame_trans l l' l'' d d' d'' :
  l ⊆ l'' -> l' ⊆ l'' -> frame l d d' -> frame l' d' d'' -> frame l'' d d''.
Proof.
  intros Hs Hs' (Hg & Hz & Hb) (Hg' & Hz' & Hb'). split_and!; [congruence|congruence|].
  intros i Hi Hni. rewrite Hb', Hb; [done|..]; try set_solver. unfold in_disk in *. congruence.
Qed.

Lemma frame_in l d d' : frame l d d' -> forall i, in_disk d' i <-> in_disk d i.
Proof. intros (_ & Hz & _) i. unfold in_disk. by rewrite Hz. Qed.

Lemma in_disk_u64 d i : wf_disk d -> in_disk d i -> is_u64 i.
Proof.
  intros (Hg & _ & Hs) Hi. pose proof (geometry_pos _ Hg).
  unfold is_word, in_disk, invalid_value, u64_max, d_bs in *. nia.
Qed.

(** The outcome of an operation that turns the stack into [stack]. *)
Definition fl_post (l stack : list Z) s s' : Prop :=
  fl_inv s' stack /\ frame l (eng_view (fl_engine s)) (eng_view (fl_engine s')).

Lemma push_new_node s stack b :
  fl_inv s stack -> in_disk (eng_view (fl_engine s)) b -> b ∉ stack ->
  wp (on_engine (eng_overwrite_zero b) ;;; node_write b put_header ;;;
      node_write b (put_next (fl_head s)) ;;; set_head b) s
    (fun _ s' => fl_post (b :: stack) (b :: stack) s s').
Proof.
  intros (Hi & Hc & Hnd & Hf & nodes & Hch & ->) Hb Hnb. set (d := eng_view (fl_engine s)) in *.
  pose proof (spec_wf _ Hi) as Hwf. fold d in Hwf. pose proof (capacity_bound _ Hc).
  pose proof (wf_bs_pos d Hwf) as Hbs. pose proof (chain_valid d _ nodes Hwf Hch) as [Hh _].
  assert (zlen (zeros (d_bs d)) = d_bs d) as Hz by (apply length_zeros; lia).
  wp_step. apply wp_on_engine. eapply wp_mono; [by apply spec_overwrite_zero|].
  cbn beta. intros [] e1 [Hi1 Hv1]. fold d in Hv1. wp_step.
  apply node_write_spec; cbn [fl_engine set_engine fl_head]; rewrite ?Hv1, ?disk_set_in; try done.
  { intros c Hcl. rewrite disk_set_bs in Hcl. apply length_put_header. lia. }
  rewrite disk_set_block_eq, disk_set_set by done. intros s2 Hi2 Hh2 Hv2. wp_step.
  apply node_write_spec; rewrite ?Hv2, ?disk_set_in; try done.
  { intros c Hcl. rewrite disk_set_bs in Hcl. apply length_put_next. lia. }
  rewrite disk_set_block_eq, disk_set_set by done. intros s3 Hi3 Hh3 Hv3. unfold set_head. wp_step.
  destruct (fresh_node_fields (fl_head s) (zeros (d_bs d))) as [Hf1 Hf2]; [done|lia|].
  split; [|cbn [fl_engine]; rewrite Hv3; apply frame_set; [done|by left]].
  unfold fl_inv. cbn [fl_engine fl_head]. rewrite Hv3, disk_set_bs.
  split_and!; [done|done|by constructor| |].
  - apply Forall_cons. split; [by apply disk_set_in|].
    eapply Forall_impl; [exact Hf|]. intros. by apply disk_set_in.
  - exists ((b, []) :: nodes). rewrite stack_of_cons. split; [|done]. split; [done|]. exists (fl_head s).
    split; [|by apply chain_set]. unfold node_ok.
    rewrite disk_set_in, disk_set_bs, disk_set_block_eq by done. by split_and!; [..|simpl; lia|simpl| |].
Qed.

Lemma same_view_inv s s' stack : same_view s s' -> fl_inv s stack -> fl_inv s' stack.
Proof. intros (Hi & Hv & Hh) (_ & Hr). unfold fl_inv. rewrite Hv, Hh. by split. Qed.

(** Changes to other blocks and a larger file do not matter. *)
Lemma fl_inv_mono s s' stack :
  let d := eng_view (fl_engine s) in
  let d' := eng_view (fl_engine s') in
  fl_inv s stack -> eng_inv (fl_engine s') -> fl_head s' = fl_head s -> d_bs d' = d_bs d ->
  d_size d <= d_size d' -> (forall i, i ∈ stack -> disk_block d' i = disk_block d i) ->
  fl_inv s' stack.
Proof.
  intros d d' (Hi & Hc & Hnd & Hf & nodes & Hch & ->) Hi' Hh Hbs Hsz Hsame.
  unfold fl_inv. fold d'. rewrite Hbs, Hh. split_and!; try done.
  - eapply Forall_impl; [exact Hf|]. intros i. unfold in_disk. fold d. lia.
  - exists nodes. split; [|done]. apply (chain_mono d); try done. intros i _. apply Hsame.
Qed.

(** The head node was rewritten to hold [vals']. *)
Lemma wrote_head s s' i vals nodes next vals' :
  fl_inv s (stack_of ((i, vals) :: nodes)) -> fl_head s = i ->
  chain (eng_view (fl_engine s)) next nodes ->
  wrote i s s' -> node_ok (eng_view (fl_engine s')) i vals' next ->
  NoDup (stack_of ((i, vals') :: nodes)) ->
  Forall (in_disk (eng_view (fl_engine s))) (stack_of ((i, vals') :: nodes)) ->
  fl_post [i] (stack_of ((i, vals') :: nodes)) s s'.
Proof.
  intros (Hi & Hc & Hnd & Hf & _) Hh Hch (Hi' & Hh' & b & Hv) Hn Hnd' Hf'.
  assert (in_disk (eng_view (fl_engine s)) i) as Hin.
  { rewrite stack_of_cons in Hf. apply Forall_app in Hf as [_ Hf]. by apply Forall_cons in Hf as [? _]. }
  split; [|rewrite Hv; apply frame_set; [done|by left]].
  unfold fl_inv. rewrite Hv, disk_set_bs in *. split_and!; [done|done|done| |].
  - eapply Forall_impl; [exact Hf'|]. intros. by apply disk_set_in.
  - exists ((i, vals') :: nodes). split; [|done]. split; [congruence|]. exists next. split; [done|].
    apply chain_set; [by apply spec_wf|done|done|]. rewrite stack_of_cons in Hnd'.
    apply NoDup_app in Hnd' as (_ & _ & Hnd'). by apply NoDup_cons in Hnd' as [? _].
Qed.

Lemma fl_post_weaken l l' stack s s' : l ⊆ l' -> fl_post l stack s s' -> fl_post l' stack s s'.
Proof. intros Hl [Hi Hf]. split; [done|]. eapply frame_trans; [exact Hl|done|exact Hf|apply frame_refl]. Qed.

Lemma fl_post_pre l stack s0 s s' :
  eng_view (fl_engine s) = eng_view (fl_engine s0) -> fl_post l stack s s' -> fl_post l stack s0 s'.
Proof. intros Hv [Hi Hf]. split; [done|]. by rewrite <- Hv. Qed.

Lemma push_spec s stack b :
  fl_inv s stack -> in_disk (eng_view (fl_engine s)) b -> b ∉ stack ->
  wp (push b) s (fun _ s' => fl_post (b :: stack) (b :: stack) s s').
Proof.
  intros Hinv Hb Hnb. pose proof Hinv as (Hi & Hc & Hnd & Hf & nodes & Hch & Hst).
  pose proof (spec_wf _ Hi) as Hwf. pose proof (chain_valid _ _ nodes Hwf Hch) as (_ & _ & Hne).
  unfold push. do 3 wp_step. destruct (index_valid (fl_head s)) eqn:Hv.
  2:{ wp_step. by apply push_new_node. }
  specialize (Hne eq_refl). destruct nodes as [|[i vals] nodes]; [done|].
  destruct Hch as (Hh & next & Hn & Hch). wp_step. rewrite Hh.
  apply (node_full_spec s i vals next); try done. intros s1 Hs1. pose proof Hs1 as (Hi1 & Hv1 & Hh1).
  assert (fl_inv s1 stack) as Hinv1 by (by eapply same_view_inv).
  pose proof Hn as (Hin & Hle & _).
  destruct (Z.eqb_spec (zlen vals) (capacity (d_bs (eng_view (fl_engine s))))); cbn [negb].
  - wp_step. rewrite <- Hh, <- Hh1.
    eapply wp_mono; [apply push_new_node; rewrite ?Hv1; done|]. cbn beta. intros [] s'.
    by apply fl_post_pre.
  - wp_step. apply (node_push_spec s1 i vals next); rewrite ?Hv1; try done; [lia|by eapply in_disk_u64|].
    intros s2 Hw Hn2. do 2 wp_step. apply (fl_post_pre _ _ s s1 s2 Hv1).
    assert (stack_of ((i, vals ++ [b]) :: nodes) = b :: stack) as Hst2.
    { rewrite Hst, !stack_of_cons, rev_app_distr. done. }
    rewrite <- Hst2. apply (fl_post_weaken [i]); [rewrite Hst2, Hst, stack_of_cons; set_solver|].
    apply (wrote_head _ _ i vals _ next); rewrite ?Hst2, ?Hv1, <- ?Hst; try done; [congruence|..].
    + by constructor.
    + by constructor.
Qed.

Lemma pop_spec s b stack :
  fl_inv s (b :: stack) -> wp pop s (fun r s' => r = b /\ fl_post (b :: stack) stack s s').
Proof.
  intros Hinv. pose proof Hinv as (Hi & Hc & Hnd & Hf & nodes & Hch & Hst).
  pose proof (spec_wf _ Hi) as Hwf. pose proof (chain_valid _ _ nodes Hwf Hch) as (_ & Hnv & _).
  unfold pop. do 3 wp_step. destruct (index_valid (fl_head s)) eqn:Hv; [|by rewrite Hnv in Hst].
  wp_step. destruct nodes as [|[i vals] nodes]; [done|]. destruct Hch as (Hh & next & Hn & Hch).
  rewrite Hh. wp_step. apply (node_empty_spec s i vals next); try done.
  intros s1 Hs1. pose proof Hs1 as (Hi1 & Hv1 & Hh1).
  rewrite stack_of_cons in Hst. destruct vals as [|v vals _] using rev_ind.
  - simpl in Hst. injection Hst as -> ->. change (zlen (@nil Z) =? 0) with true. cbn [negb]. wp_step.
    pose proof Hn as (Hin & _ & Hnx & _).
    apply node_read_spec; rewrite ?Hv1; try done. intros s2 (Hi2 & Hv2 & Hh2). rewrite Hv1 in *.
    rewrite Hnx. unfold set_head. do 3 wp_step. split; [done|].
    split; cbn [fl_engine]; [|rewrite Hv2; apply frame_refl].
    unfold fl_inv. cbn [fl_engine fl_head]. rewrite Hv2. apply NoDup_cons in Hnd as [_ Hnd].
    apply Forall_cons in Hf as [_ Hf]. split_and!; try done. by exists nodes.
  - rewrite rev_app_distr in Hst. simpl in Hst. injection Hst as -> Hst. rewrite length_app.
    cbn [length]. destruct (Z.eqb_spec (Z.of_nat (length vals + 1)) 0); [lia|]. cbn [negb].
    apply (node_pop_spec s1 i vals next v); rewrite ?Hv1; try done. intros s2 Hw Hn2. split; [done|].
    apply (fl_post_pre _ _ s s1 s2 Hv1). rewrite Hst, <- stack_of_cons in *.
    apply NoDup_cons in Hnd as [Hvn Hnd]. apply Forall_cons in Hf as [Hvf Hf].
    apply (fl_post_weaken [i]); [rewrite stack_of_cons; set_solver|].
    apply (wrote_head _ _ i (vals ++ [v]) _ next); rewrite ?Hv1; try done; [|congruence].
    rewrite stack_of_cons, rev_app_distr, <- app_assoc. rewrite stack_of_cons in *.
    by eapply same_view_inv.
Qed.

Lemma pop_empty s : fl_inv s [] -> pop s = (s, Err bad_operation).
Proof.
  intros (Hi & _ & _ & _ & nodes & Hch & Hst). destruct nodes as [|[i vals] nodes].
  - simpl in Hch. unfold pop, bind, gets. by rewrite Hch.
  - rewrite stack_of_cons in Hst. by destruct (rev vals).
Qed.

Lemma empty_spec s stack :
  fl_inv s stack -> empty s = (s, Ok (match stack with [] => true | _ => false end)).
Proof.
  intros (Hi & _ & _ & _ & nodes & Hch & ->). unfold empty, gets. do 2 f_equal.
  destruct (chain_valid _ _ nodes (spec_wf _ Hi) Hch) as (_ & Hnv & Hne).
  destruct (index_valid (fl_head s)).
  - specialize (Hne eq_refl). destruct nodes as [|[i vals] nodes]; [done|]. rewrite stack_of_cons.
    by destruct (rev vals).
  - by rewrite Hnv.
Qed.

(** *** Sessions *)

Inductive fl_op : Set := op_push (block : Z) | op_pop | op_empty.
Inductive fl_out : Set := out_unit | out_block (block : Z) | out_bool (b : bool).

Definition run_op (o : fl_op) : M (free_list E) fl_out :=
  match o with
  | op_push b => push b ;;; ret out_unit
  | op_pop => let* b := pop in ret (out_block b)
  | op_empty => let* b := empty in ret (out_bool b)
  end.

(** The client catches the exceptions. *)
Fixpoint run_ops (ops : list fl_op) (s : free_list E) : free_list E * list (result fl_out) :=
  match ops with
  | [] => (s, [])
  | o :: ops =>
    let '(s1, r) := run_op o s in
    let '(s2, rs) := run_ops ops s1 in (s2, r :: rs)
  end.

(** A stack of block indices. *)
Definition stack_op (o : fl_op) (stack : list Z) : list Z * result fl_out :=
  match o, stack with
  | op_push b, _ => (b :: stack, Ok out_unit)
  | op_pop, [] => ([], Err bad_operation)
  | op_pop, b :: stack => (stack, Ok (out_block b))
  | op_empty, [] => ([], Ok (out_bool true))
  | op_empty, _ => (stack, Ok (out_bool false))
  end.

Fixpoint stack_ops (ops : list fl_op) (stack : list Z) : list Z * list (result fl_out) :=
  match ops with
  | [] => (stack, [])
  | o :: ops =>
    let '(st1, r) := stack_op o stack in
    let '(st2, rs) := stack_ops ops st1 in (st2, r :: rs)
  end.

(** Only blocks that are not in the list are pushed. *)
Fixpoint legal (n : Z) (ops : list fl_op) (stack : list Z) : Prop :=
  match ops with
  | [] => True
  | o :: ops =>
    match o with op_push b => 0 <= b < n /\ b ∉ stack | _ => True end /\
    legal n ops (stack_op o stack).1
  end.

Definition pushed (ops : list fl_op) : list Z :=
  omap (fun o => match o with op_push b => Some b | _ => None end) ops.

Lemma run_op_spec s stack o :
  fl_inv s stack ->
  match o with op_push b => in_disk (eng_view (fl_engine s)) b /\ b ∉ stack | _ => True end ->
  let '(s', r) := run_op o s in
  r = (stack_op o stack).2 /\ fl_post (pushed [o] ++ stack) (stack_op o stack).1 s s'.
Proof.
  intros Hinv Hl.
  assert (fl_post stack stack s s) as Hid by (split; [done|apply frame_refl]).
  destruct o as [b| |]; cbn [pushed omap list_omap app]; unfold run_op.
  - destruct Hl as [Hb Hn]. pose proof (push_spec s stack b Hinv Hb Hn) as Hp. unfold wp, bind in *.
    destruct (push b s) as [s' [[]|]]; [|done]. by split.
  - destruct stack as [|b stack]; [unfold bind; by rewrite pop_empty|].
    pose proof (pop_spec s b stack Hinv) as Hp. unfold wp, bind in *.
    destruct (pop s) as [s' [r|]]; [|done]. destruct Hp as [-> ?]. by split.
  - unfold bind. rewrite (empty_spec s stack Hinv). by destruct stack.
Qed.

Lemma stack_op_sub o stack : (stack_op o stack).1 ⊆ pushed [o] ++ stack.
Proof. destruct o as [b| |], stack; simpl; set_solver. Qed.

Lemma run_ops_spec ops : forall s stack,
  fl_inv s stack -> legal (d_size (eng_view (fl_engine s))) ops stack ->
  let '(s', out) := run_ops ops s in
  let '(stack', out') := stack_ops ops stack in
  out = out' /\ fl_post (pushed ops ++ stack) stack' s s'.
Proof.
  induction ops as [|o ops IH]; intros s stack Hinv Hl.
  { split; [done|]. split; [done|apply frame_refl]. }
  destruct Hl as [Ho Hl]. pose proof (run_op_spec s stack o Hinv Ho) as Hs. cbn [run_ops stack_ops].
  destruct (run_op o s) as [s1 r]. pose proof (stack_op_sub o stack) as Hsub.
  destruct (stack_op o stack) as [st1 r'].
  destruct Hs as (-> & Hi1 & Hf1). cbn [fst snd] in *. pose proof Hf1 as (_ & Hz & _). rewrite <- Hz in Hl.
  specialize (IH s1 st1 Hi1 Hl). destruct (run_ops ops s1) as [s2 out], (stack_ops ops st1) as [st2 out'].
  destruct IH as (-> & Hi2 & Hf2). split; [done|]. split; [done|].
  assert (pushed (o :: ops) = pushed [o] ++ pushed ops) as Hp by (unfold pushed; by destruct o).
  rewrite Hp. eapply frame_trans; [..|exact Hf1|exact Hf2]; set_solver.
Qed.

Lemma make_free_list_spec e s :
  eng_inv e -> make_free_list e invalid_value = Ok s -> fl_inv s [] /\ fl_engine s = e.
Proof.
  unfold make_free_list. intros Hi Hm.
  destruct (Z.ltb_spec 0 (capacity (d_bs (eng_view e)))); simplify_eq. split; [|done].
  split_and!; try done; [constructor|]. by exists [].
Qed.

(** C24: The free list is a stack of block indices.  From a fresh anchor, any
    sequence of [push], [pop] and [empty] that only pushes blocks of the
    engine that are not in the list at that time returns exactly what a stack
    returns (with [bad_operation] for [pop] on the empty list and no other
    error), although the nodes live in the freed blocks themselves; blocks
    that were never pushed keep their contents. *)
Theorem free_list_session e s ops :
  eng_inv e -> make_free_list e invalid_value = Ok s ->
  legal (d_size (eng_view e)) ops [] ->
  (run_ops ops s).2 = (stack_ops ops []).2 /\
  fl_inv (run_ops ops s).1 (stack_ops ops []).1 /\
  forall i, in_disk (eng_view e) i -> i ∉ pushed ops ->
    disk_block (eng_view (fl_engine (run_ops ops s).1)) i = disk_block (eng_view e) i.
Proof.
  intros Hi Hm Hl. destruct (make_free_list_spec e s Hi Hm) as [Hinv <-].
  pose proof (run_ops_spec ops s [] Hinv Hl) as Hr.
  destruct (run_ops ops s) as [s' out], (stack_ops ops []) as [st out'].
  destruct Hr as (-> & Hinv' & _ & _ & Hb). rewrite app_nil_r in Hb. done.
Qed.
End free_list_spec.

(** Blocks of 32 bytes: a node holds two entries. *)
Definition example_engine : memory_engine.memory_engine :=
  memory_engine.MemoryEngine (Geometry 32 5 31) (replicate 8 (replicate 32 xff)).
Definition example_ops : list fl_op :=
  [op_pop; op_push 1; op_push 2; op_push 3; op_push 4; op_push 6; op_pop; op_pop; op_push 6; op_empty;
   op_pop; op_pop; op_pop; op_pop; op_empty; op_pop].

Lemma free_list_session_witness :
  (run_ops example_ops (FreeList example_engine invalid_value)).2 =
    [Err bad_operation; Ok out_unit; Ok out_unit; Ok out_unit; Ok out_unit; Ok out_unit;
     Ok (out_block 6); Ok (out_block 4); Ok out_unit; Ok (out_bool false);
     Ok (out_block 6); Ok (out_block 3); Ok (out_block 2); Ok (out_block 1); Ok (out_bool true);
     Err bad_operation] /\
  disk_block (eng_view (fl_engine (run_ops example_ops (FreeList example_engine invalid_value)).1)) 5 =
    replicate 32 xff.
Proof.
  destruct (free_list_session example_engine (FreeList example_engine invalid_value) example_ops)
    as (H1 & H2 & H3).
  - split_and!; [by exists 5|by repeat constructor|done].
  - reflexivity.
  - cbn [legal example_ops stack_op fst]. change (d_size (eng_view example_engine)) with 8.
    split_and!; first [exact I|lia|by_decide].
  - split; [exact H1|]. rewrite H3; [reflexivity|change (0 <= 5 < 8); lia|].
    by_decide.
Defined.
