(* ===== verification/Allocator.v ===== *)
(** * Allocators (include/prequel/container/allocator.hpp)

    [Allocator] holds the virtual functions of the class [allocator] together
    with the engine that it manages; [AllocatorSpec] is what containers rely
    on: blocks that were handed out are disjoint and belong to the client
    until they are freed.  The set of these blocks is a ghost argument of
    [al_inv]; the allocators themselves do not record it. *)

From S2P Require Import Prelude MathOps Blocks EngineSpec.

(** ** Interface *)

Class Allocator (A : Type) : Type := {
  al_engine :: Engine A;
  do_allocate : Z -> M A Z;
  do_reallocate : Z -> Z -> Z -> M A Z;
  do_free : Z -> Z -> M A unit
}.

(** The blocks [b, b + n). *)
Definition blocks (b n : Z) : gset Z := list_to_set (seqZ b n).

Lemma elem_of_blocks b n i : i ∈ blocks b n <-> b <= i < b + n.
Proof. unfold blocks. rewrite elem_of_list_to_set, elem_of_seqZ. lia. Qed.

Lemma blocks_1 b : blocks b 1 = {[b]}.
Proof. apply set_eq. intros i. rewrite elem_of_blocks, elem_of_singleton. lia. Qed.

(** What an operation that consumes [k] blocks of room leaves alone: the
    geometry and the contents of the blocks [U].  [room a n] says that at least
    [n] more blocks can be allocated. *)
Definition al_step_with {A} `{Allocator A} (room : A -> Z -> Prop) (U : gset Z) (k : Z) (a a' : A) : Prop :=
  d_geo (eng_view a') = d_geo (eng_view a) /\
  (forall i, i ∈ U -> disk_block (eng_view a') i = disk_block (eng_view a) i) /\
  (forall j, 0 <= j -> room a (k + j) -> room a' j).

Section al_step.
Context {A : Type} `{Allocator A} {room : A -> Z -> Prop}.
Abbreviation al_step := (al_step_with room).
Implicit Types (a : A) (U : gset Z).

Lemma al_step_refl U a : al_step U 0 a a.
Proof. by split_and!. Qed.

Lemma al_step_trans U U1 U2 k1 k2 a a1 a2 :
  U ⊆ U1 -> U ⊆ U2 -> 0 <= k1 -> 0 <= k2 ->
  al_step U1 k1 a a1 -> al_step U2 k2 a1 a2 -> al_step U (k1 + k2) a a2.
Proof.
  intros H1 H2 Hk1 Hk2 (Hg & Hb & Hr) (Hg' & Hb' & Hr'). split_and!; [congruence| |].
  - intros i Hi. rewrite Hb', Hb by set_solver. done.
  - intros j Hj Hroom. apply Hr'; [done|]. apply Hr; [lia|].
    by replace (k1 + (k2 + j)) with (k1 + k2 + j) by lia.
Qed.

Lemma al_step_mono U U' k a a' : U' ⊆ U -> al_step U k a a' -> al_step U' k a a'.
Proof. intros HU (Hg & Hb & Hr). split_and!; [done| |done]. intros i Hi. apply Hb. set_solver. Qed.

End al_step.

(** The blocks in use, the sizes that can be allocated, the room that is left
    and the laws of the functions. *)
Class AllocatorSpec (A : Type) `{Allocator A} : Type := {
  al_inv : A -> gset Z -> Prop;
  al_supports : Z -> Prop;
  al_room : A -> Z -> Prop;
  al_room_mono : forall a U n m, al_inv a U -> 0 <= m <= n -> al_room a n -> al_room a m;
  al_wf : forall a U, al_inv a U ->
    wf_disk (eng_view a) /\ forall i, i ∈ U -> in_disk (eng_view a) i;
  al_read : forall a U i, al_inv a U -> i ∈ U ->
    wp (eng_read i) a (fun b a' =>
      b = disk_block (eng_view a) i /\ al_inv a' U /\ al_step_with al_room U 0 a a');
  al_update : forall a U i f, al_inv a U -> i ∈ U ->
    length (f (disk_block (eng_view a) i)) = length (disk_block (eng_view a) i) ->
    wp (eng_update i f) a (fun _ a' =>
      al_inv a' U /\ al_step_with al_room (U ∖ {[i]}) 0 a a' /\
      disk_block (eng_view a') i = f (disk_block (eng_view a) i));
  al_overwrite_zero : forall a U i, al_inv a U -> i ∈ U ->
    wp (eng_overwrite_zero i) a (fun _ a' =>
      al_inv a' U /\ al_step_with al_room (U ∖ {[i]}) 0 a a' /\
      disk_block (eng_view a') i = zeros (d_bs (eng_view a)));
  al_allocate : forall a U n, al_inv a U -> 0 < n -> al_supports n -> al_room a n ->
    wp (do_allocate n) a (fun b a' =>
      al_inv a' (U ∪ blocks b n) /\ blocks b n ## U /\ al_step_with al_room U n a a');
  al_reallocate : forall a U b n m, al_inv a U -> 0 < n -> 0 < m -> n <> m ->
    al_supports n -> al_supports m -> al_room a m -> blocks b n ⊆ U ->
    wp (do_reallocate b n m) a (fun b' a' =>
      al_inv a' ((U ∖ blocks b n) ∪ blocks b' m) /\ blocks b' m ## U ∖ blocks b n /\
      al_step_with al_room (U ∖ blocks b n) m a a' /\
      forall k, 0 <= k < Z.min n m ->
        disk_block (eng_view a') (b' + k) = disk_block (eng_view a) (b + k));
  al_free : forall a U b n, al_inv a U -> 0 < n -> al_supports n -> blocks b n ⊆ U ->
    wp (do_free b n) a (fun _ a' =>
      al_inv a' (U ∖ blocks b n) /\ al_step_with al_room (U ∖ blocks b n) 0 a a')
}.
Abbreviation al_step := (al_step_with al_room).

(** ** The public functions *)

Section allocator.
Context {A : Type} `{Allocator A}.

Definition allocate (size : Z) : M A Z :=
  throw_if (size =? 0) bad_argument ;;;
  let* result := do_allocate size in
  assert! (index_valid result) ;;;
  ret result.

Definition free (block size : Z) : M A unit :=
  if negb (index_valid block) || (size =? 0) then ret tt else do_free block size.

Definition reallocate (block size new_size : Z) : M A Z :=
  if negb (index_valid block) then
    throw_if (negb (size =? 0)) bad_argument ;;;
    allocate new_size
  else
  throw_if (size =? 0) bad_argument ;;;
  if size =? new_size then ret block else
  if new_size =? 0 then free block size ;;; ret invalid_value else
  let* result := do_reallocate block size new_size in
  assert! (index_valid result) ;;;
  ret result.
End allocator.

(** ** Specification *)

Section allocator_spec.
Context {A : Type} `{AllocatorSpec A}.
Implicit Types (a : A) (U : gset Z) (b n : Z).

Lemma al_used_valid a U i : al_inv a U -> i ∈ U -> index_valid i = true /\ 0 <= i.
Proof.
  intros Hinv Hi. destruct (al_wf a U Hinv) as [Hwf Hin]. specialize (Hin i Hi).
  split; [by eapply in_disk_valid|]. unfold in_disk in Hin. lia.
Qed.

Lemma al_used_bound a U : al_inv a U -> Z.of_nat (size U) <= d_size (eng_view a).
Proof.
  intros Hinv. destruct (al_wf a U Hinv) as [_ Hin].
  assert (U ⊆ blocks 0 (d_size (eng_view a))) as Hsub.
  { intros i Hi. apply elem_of_blocks. specialize (Hin i Hi). unfold in_disk in Hin. lia. }
  apply subseteq_size in Hsub. unfold blocks in Hsub.
  rewrite (size_list_to_set (seqZ _ _)), length_seqZ in Hsub by apply NoDup_seqZ. unfold d_size in *. lia.
Qed.

Lemma al_step_weaken U V k k' a a' :
  al_inv a' V -> 0 <= k <= k' -> al_step U k a a' -> al_step U k' a a'.
Proof.
  intros Hinv Hk (Hg & Hb & Hr). split_and!; [done..|]. intros j Hj Hroom.
  apply (al_room_mono a' V (k' - k + j)); [done|lia|]. apply Hr; [lia|].
  by replace (k + (k' - k + j)) with (k' + j) by lia.
Qed.

Lemma allocate_spec a U n :
  al_inv a U -> 0 < n -> al_supports n -> al_room a n ->
  wp (allocate n) a (fun b a' =>
    al_inv a' (U ∪ blocks b n) /\ blocks b n ## U /\ al_step U n a a').
Proof.
  intros Hinv Hn Hs Hr. unfold allocate. wp_step. wp_step. wp_step.
  eapply wp_mono; [by apply al_allocate|]. cbn beta. intros b a' (Hinv' & Hd & Hst). wp_step.
  wp_step; [|by wp_step].
  apply (al_used_valid _ _ b Hinv'). apply elem_of_union_r, elem_of_blocks. lia.
Qed.

Lemma free_spec a U b n :
  al_inv a U -> 0 < n -> al_supports n -> blocks b n ⊆ U ->
  wp (free b n) a (fun _ a' => al_inv a' (U ∖ blocks b n) /\ al_step (U ∖ blocks b n) 0 a a').
Proof.
  intros Hinv Hn Hs Hsub. unfold free.
  destruct (al_used_valid a U b Hinv) as [-> _].
  { apply Hsub, elem_of_blocks. lia. }
  cbn. destruct (Z.eqb_spec n 0); [lia|]. by apply al_free.
Qed.

(** The ranges that [reallocate] accepts. *)
Definition range_ok U b n : Prop :=
  if index_valid b then 0 < n /\ al_supports n /\ blocks b n ⊆ U else n = 0.
Definition range_blocks b n : gset Z := if index_valid b then blocks b n else ∅.

Lemma reallocate_spec a U b n m :
  al_inv a U -> range_ok U b n -> 0 <= m -> (m <> 0 -> al_supports m) -> al_room a m ->
  (index_valid b = true \/ m <> 0) ->
  wp (reallocate b n m) a (fun b' a' =>
    al_inv a' ((U ∖ range_blocks b n) ∪ range_blocks b' m) /\
    range_blocks b' m ## U ∖ range_blocks b n /\
    index_valid b' = negb (m =? 0) /\ (index_valid b' = true -> 0 <= b') /\
    al_step (U ∖ range_blocks b n) m a a' /\
    forall k, 0 <= k < Z.min n m ->
      disk_block (eng_view a') (b' + k) = disk_block (eng_view a) (b + k)).
Proof.
  intros Hinv Hok Hm Hs Hr Hcase. unfold reallocate, range_ok, range_blocks in *.
  destruct (index_valid b) eqn:Hb; cbn [negb].
  - destruct Hok as (Hn & Hsn & Hsub). do 2 wp_step. destruct (Z.eqb_spec n m) as [<-|Hne].
    { wp_step. rewrite Hb. destruct (Z.eqb_spec n 0); [lia|].
      replace (U ∖ blocks b n ∪ blocks b n) with U by (rewrite union_comm_L; by apply union_difference_L).
      split_and!; try done; [set_solver| |].
      + intros _. apply (al_used_valid a U b Hinv), Hsub, elem_of_blocks. lia.
      + split_and!; [done..|]. intros j Hj. apply (al_room_mono a U); [done|lia]. }
    destruct (Z.eqb_spec m 0) as [->|Hm0].
    + wp_step. eapply wp_mono; [by apply free_spec|]. cbn beta. intros _ a' [Hinv' Hst]. wp_step.
      change (index_valid invalid_value) with false. rewrite union_empty_r_L. split_and!; try done; try set_solver; lia.
    + wp_step. eapply wp_mono; [apply al_reallocate; try done; [lia|by apply Hs]|]. cbn beta.
      intros b' a' (Hinv' & Hd & Hst & Hc).
      assert (b' ∈ U ∖ blocks b n ∪ blocks b' m) as Hb' by (apply elem_of_union_r, elem_of_blocks; lia).
      destruct (al_used_valid _ _ _ Hinv' Hb') as [Hv Hge]. wp_step. wp_step. wp_step.
      rewrite Hv. by split_and!.
  - destruct Hcase as [|Hm0]; [done|]. subst n. wp_step. wp_step.
    eapply wp_mono; [apply allocate_spec; try done; [lia|by apply Hs]|]. cbn beta. intros b' a' (Hinv' & Hd & Hst).
    assert (b' ∈ U ∪ blocks b' m) as Hb' by (apply elem_of_union_r, elem_of_blocks; lia).
    destruct (al_used_valid _ _ _ Hinv' Hb') as [Hv Hge]. rewrite Hv, difference_empty_L.
    destruct (Z.eqb_spec m 0); [lia|]. split_and!; try done; lia.
Qed.
End allocator_spec.
