(* ===== verification/NodeAllocator.v ===== *)
(** * The node allocator (include/prequel/container/node_allocator.hpp, src/container/node_allocator.cpp)

    Hands out single blocks.  Freed blocks go to the free list of FreeList.v;
    when it is empty the file grows by a chunk.  The anchor is the head of the
    free list and two counters. *)

From Stdlib Require Import Strings.Byte.
From S2P Require Import Prelude MathOps Blocks EngineSpec FreeList Allocator.

Record node_allocator (E : Type) : Type := NodeAllocator {
  m_list : free_list E;
  m_total : Z;
  m_free : Z;
  m_chunk_size : Z
}.
Arguments NodeAllocator {E}.
Arguments m_list {E} _.
Arguments m_total {E} _.
Arguments m_free {E} _.
Arguments m_chunk_size {E} _.

Section node_allocator.
Context {E : Type} `{Engine E}.
Abbreviation N := (node_allocator E).

Definition set_list (l : free_list E) (a : N) : N :=
  NodeAllocator l (m_total a) (m_free a) (m_chunk_size a).
Definition set_total (n : Z) (a : N) : N := NodeAllocator (m_list a) n (m_free a) (m_chunk_size a).
Definition set_free (n : Z) (a : N) : N := NodeAllocator (m_list a) (m_total a) n (m_chunk_size a).
Definition on_list {X} (m : M (free_list E) X) : M N X := zoom m_list set_list m.

(** The constructor, with the anchor [(head, total, free)]. *)
Definition make_node_allocator (e : E) (head total free : Z) : result N :=
  match make_free_list e head with
  | Ok l => Ok (NodeAllocator l total free 32)
  | Err er => Err er
  end.

Definition chunk_size (size : Z) : M N unit :=
  check! (1 <=? size) ;;;
  modify (fun a => NodeAllocator (m_list a) (m_total a) (m_free a) size).

Definition data_total (a : N) : Z := m_total a.
Definition data_free (a : N) : Z := m_free a.
Definition data_used (a : N) : Z := u64 (data_total a - data_free a).

(** [for (auto i = end; i-- > begin;) m_list.push(i);] *)
Fixpoint push_range (begin : Z) (n : nat) : M N unit :=
  match n with
  | O => ret tt
  | S n => on_list (push (begin + Z.of_nat n)) ;;; push_range begin n
  end.

(** The first part of [do_allocate]: grow the file if the list is empty. *)
Definition refill : M N unit :=
  let* empty := on_list FreeList.empty in
  if empty : bool then
    let* begin := gets (fun a => d_size (eng_view (fl_engine (m_list a)))) in
    let* chunk := gets m_chunk_size in
    let* _ := lift_result (index_add begin chunk) in
    on_list (on_engine (eng_grow chunk)) ;;;
    push_range begin (Z.to_nat chunk) ;;;
    modify (fun a => set_total (u64 (m_total a + chunk)) a) ;;;
    modify (fun a => set_free (u64 (m_free a + chunk)) a)
  else ret tt.

Definition node_allocate (n : Z) : M N Z :=
  throw_if (negb (n =? 1)) unsupported ;;;
  refill ;;;
  modify (fun a => set_free (u64 (m_free a - 1)) a) ;;;
  on_list pop.

Definition node_reallocate (a s n : Z) : M N Z :=
  if n =? 1 then ret a else throw unsupported.

Definition node_free (a s : Z) : M N unit :=
  throw_if (negb (s =? 1)) unsupported ;;;
  modify (fun n => set_free (u64 (m_free n + 1)) n) ;;;
  on_list (push a).
End node_allocator.

(** ** The engine and the allocator interface *)

Section node_allocator_spec.
Context {E : Type} `{EngineSpec E}.
Abbreviation N := (node_allocator E).
Implicit Types (a : N) (U : gset Z).

Abbreviation na_engine a := (fl_engine (m_list a)).

#[local] Instance node_allocator_engine : Engine N := {|
  eng_view a := eng_view (na_engine a);
  eng_inv a := eng_inv (na_engine a);
  eng_read i := on_list (on_engine (eng_read i));
  eng_update i f := on_list (on_engine (eng_update i f));
  eng_overwrite i d := on_list (on_engine (eng_overwrite i d));
  eng_overwrite_zero i := on_list (on_engine (eng_overwrite_zero i));
  eng_grow n := on_list (on_engine (eng_grow n))
|}.

(** The blocks [U] are in use, those of the free list are not; the counters
    agree with both. *)
Record na_inv a U : Prop := {
  na_stack : exists stack, fl_inv (m_list a) stack /\ m_free a = zlen stack /\
    forall i, i ∈ stack -> i ∉ U;
  na_used : forall i, i ∈ U -> in_disk (eng_view (na_engine a)) i;
  na_total : m_total a = m_free a + Z.of_nat (size U);
  na_chunk : 1 <= m_chunk_size a < 2 ^ 32
}.

Definition na_room a (n : Z) : Prop :=
  let d := eng_view (na_engine a) in (d_size d + n * m_chunk_size a) * d_bs d < invalid_value.

#[export] Instance node_allocator_allocator : Allocator N := {|
  do_allocate := node_allocate;
  do_reallocate := node_reallocate;
  do_free := node_free
|}.

Lemma wp_on_list {X} (m : M (free_list E) X) a Q :
  wp m (m_list a) (fun x l => Q x (set_list l a)) -> wp (on_list m) a Q.
Proof. apply wp_zoom. Qed.

(** The list of distinct blocks of a disk is at most as long as the disk. *)
Lemma stack_bound d stack U :
  NoDup stack -> Forall (in_disk d) stack -> (forall i, i ∈ U -> in_disk d i) ->
  (forall i, i ∈ stack -> i ∉ U) -> zlen stack + Z.of_nat (size U) <= d_size d.
Proof.
  intros Hnd Hf HU Hdis.
  assert (list_to_set stack ∪ U ⊆ blocks 0 (d_size d)) as Hsub.
  { intros i. rewrite elem_of_union, elem_of_list_to_set, elem_of_blocks, Z.add_0_l.
    intros [Hi|Hi]; [rewrite Forall_forall in Hf; apply Hf; done|by apply HU]. }
  apply subseteq_size in Hsub. rewrite size_union in Hsub by set_solver.
  rewrite size_list_to_set in Hsub by done. unfold blocks in Hsub.
  rewrite (size_list_to_set (seqZ _ _)) in Hsub by apply NoDup_seqZ. rewrite length_seqZ in Hsub.
  unfold d_size in *. lia.
Qed.

(** *** Accesses of the client to its blocks *)

Lemma na_engine_op a U e' :
  na_inv a U -> eng_inv e' ->
  d_geo (eng_view e') = d_geo (eng_view (na_engine a)) ->
  d_size (eng_view e') = d_size (eng_view (na_engine a)) ->
  (forall i, in_disk (eng_view (na_engine a)) i -> i ∉ U ->
     disk_block (eng_view e') i = disk_block (eng_view (na_engine a)) i) ->
  na_inv (set_list (FreeList.set_engine e' (m_list a)) a) U.
Proof.
  intros [(stack & Hfl & Hfree & Hdis) Hu Ht Hc] Hi Hg Hs Hsame.
  pose proof Hfl as (_ & _ & _ & Hf & _). split; cbn; try done.
  - exists stack. split_and!; try done. apply (fl_inv_mono (m_list a)); cbn; try done.
    + unfold d_bs. by rewrite Hg.
    + lia.
    + intros i Hi'. apply Hsame; [|by apply Hdis]. rewrite Forall_forall in Hf. by apply Hf.
  - intros i Hi'. unfold in_disk. rewrite Hs. by apply Hu.
Qed.

Lemma na_wf a U : na_inv a U -> wf_disk (eng_view (na_engine a)) /\ eng_inv (na_engine a).
Proof. intros [(stack & (Hi & _) & _) _ _ _]. split; [by apply spec_wf|done]. Qed.

Lemma na_write_step a U e' i b :
  na_inv a U -> i ∈ U -> eng_inv e' -> eng_view e' = disk_set i b (eng_view (na_engine a)) ->
  let a' := set_list (FreeList.set_engine e' (m_list a)) a in
  na_inv a' U /\ al_step_with na_room (U ∖ {[i]}) 0 a a' /\ disk_block (eng_view a') i = b.
Proof.
  intros Hinv Hi He Hv a'. pose proof (na_used _ _ Hinv i Hi) as Hin. unfold a'. split_and!.
  - apply na_engine_op; try done; rewrite Hv; [done|apply disk_set_size|].
    intros j Hj Hnj. apply disk_set_block_ne; [unfold in_disk in *; lia..|]. by intros ->.
  - split_and!; cbn; [by rewrite Hv| |].
    + rewrite Hv. intros j Hj. apply elem_of_difference in Hj as [Hj Hne]. rewrite elem_of_singleton in Hne.
      pose proof (na_used _ _ Hinv j Hj). apply disk_set_block_ne; unfold in_disk in *; try lia.
    + intros j Hj. unfold na_room. cbn. rewrite Hv, disk_set_size, disk_set_bs. done.
  - cbn. rewrite Hv. by apply disk_set_block_eq.
Qed.

Lemma na_read a U i : na_inv a U -> i ∈ U ->
  wp (eng_read i) a (fun b a' =>
    b = disk_block (eng_view a) i /\ na_inv a' U /\ al_step_with na_room U 0 a a').
Proof.
  intros Hinv Hi. pose proof (na_wf a U Hinv) as [_ He]. cbn [eng_read node_allocator_engine].
  apply wp_on_list, wp_on_engine.
  eapply wp_mono; [apply spec_read; [done|by apply (na_used _ _ Hinv)]|]. cbn beta.
  intros b e' (-> & He' & Hv). split_and!; [done| |].
  - apply na_engine_op; try done; by rewrite Hv.
  - split_and!; cbn; [by rewrite Hv|by rewrite Hv|]. intros j Hj. unfold na_room. cbn. by rewrite Hv.
Qed.

Lemma na_update a U i f : na_inv a U -> i ∈ U ->
  length (f (disk_block (eng_view a) i)) = length (disk_block (eng_view a) i) ->
  wp (eng_update i f) a (fun _ a' =>
    na_inv a' U /\ al_step_with na_room (U ∖ {[i]}) 0 a a' /\
    disk_block (eng_view a') i = f (disk_block (eng_view a) i)).
Proof.
  intros Hinv Hi Hl. pose proof (na_wf a U Hinv) as [_ He]. cbn [eng_update node_allocator_engine].
  apply wp_on_list, wp_on_engine.
  eapply wp_mono; [apply spec_update; [done|by apply (na_used _ _ Hinv)|done]|]. cbn beta.
  intros _ e' (He' & Hv). by apply (na_write_step a U e' i _ Hinv Hi).
Qed.

Lemma na_overwrite_zero a U i : na_inv a U -> i ∈ U ->
  wp (eng_overwrite_zero i) a (fun _ a' =>
    na_inv a' U /\ al_step_with na_room (U ∖ {[i]}) 0 a a' /\
    disk_block (eng_view a') i = zeros (d_bs (eng_view a))).
Proof.
  intros Hinv Hi. pose proof (na_wf a U Hinv) as [_ He]. cbn [eng_overwrite_zero node_allocator_engine].
  apply wp_on_list, wp_on_engine.
  eapply wp_mono; [apply spec_overwrite_zero; [done|by apply (na_used _ _ Hinv)]|]. cbn beta.
  intros _ e' (He' & Hv). by apply (na_write_step a U e' i _ Hinv Hi).
Qed.

(** *** Allocation *)

Lemma push_range_spec begin n : forall a stack,
  fl_inv (m_list a) stack ->
  (forall i, begin <= i < begin + Z.of_nat n -> in_disk (eng_view (na_engine a)) i /\ i ∉ stack) ->
  wp (push_range begin n) a (fun _ a' => exists l,
    a' = set_list l a /\ fl_inv l (seqZ begin (Z.of_nat n) ++ stack) /\
    frame (seqZ begin (Z.of_nat n) ++ stack) (eng_view (na_engine a)) (eng_view (fl_engine l))).
Proof.
  induction n as [|n IH]; intros a stack Hfl Hnew; cbn [push_range].
  - wp_step. exists (m_list a). split_and!; [by destruct a|done|apply frame_refl].
  - destruct (Hnew (begin + Z.of_nat n)) as [Hin Hni]; [lia|]. wp_step. apply wp_on_list.
    eapply wp_mono; [by apply push_spec|]. cbn beta. intros _ l1 [Hfl1 Hf1].
    eapply wp_mono; [apply (IH (set_list l1 a) (begin + Z.of_nat n :: stack)); [done|]|].
    { intros i Hi. cbn. destruct (Hnew i) as [Hi1 Hi2]; [lia|]. rewrite elem_of_cons.
      split; [by apply (frame_in _ _ _ Hf1)|]. intros [->|?]; [lia|done]. }
    cbn beta. intros _ a' (l & -> & Hfl2 & Hf2). exists l.
    rewrite seqZ_S, <- app_assoc. cbn [app]. split_and!; [done|done|].
    eapply frame_trans; [..|exact Hf1|exact Hf2]; set_solver.
Qed.

(** The list after growing the file by a chunk. *)
Lemma grow_list_spec (l : free_list E) chunk :
  fl_inv l [] -> 0 <= chunk ->
  (d_size (eng_view (fl_engine l)) + chunk) * d_bs (eng_view (fl_engine l)) < invalid_value ->
  wp (on_engine (eng_grow chunk)) l (fun _ l' =>
    fl_inv l' [] /\ d_geo (eng_view (fl_engine l')) = d_geo (eng_view (fl_engine l)) /\
    d_size (eng_view (fl_engine l')) = d_size (eng_view (fl_engine l)) + chunk /\
    forall i, in_disk (eng_view (fl_engine l)) i ->
      disk_block (eng_view (fl_engine l')) i = disk_block (eng_view (fl_engine l)) i).
Proof.
  intros Hfl Hc Hroom. pose proof Hfl as (Hi & _). apply wp_on_engine.
  eapply wp_mono; [by apply spec_grow|]. cbn beta. intros _ e' (Hi' & new & Hn & Hv). cbn.
  assert (d_size (eng_view e') = d_size (eng_view (fl_engine l)) + chunk) as Hs.
  { rewrite Hv. unfold d_size, disk_append. cbn. rewrite length_app. lia. }
  split_and!; [|by rewrite Hv|done|].
  - apply (fl_inv_mono l); cbn; try done; [by rewrite Hv|lia|]. intros i Hin. by apply elem_of_nil in Hin.
  - intros i Hin. rewrite Hv. unfold disk_block, disk_append, in_disk, d_size in *. cbn.
    apply lookup_total_app_l. lia.
Qed.

(** Sizes fit into the counters. *)
Lemma na_bounds a U : na_inv a U ->
  0 <= m_free a /\ m_total a <= d_size (eng_view (na_engine a)) < 2 ^ 64 /\ m_free a <= m_total a.
Proof.
  intros [(stack & Hfl & Hf & Hdis) Hu Ht Hc]. pose proof Hfl as (Hi & _ & Hnd & Hfa & _).
  pose proof (stack_bound _ _ _ Hnd Hfa Hu Hdis). destruct (spec_wf _ Hi) as (Hg & _ & Hs).
  pose proof (geometry_pos _ Hg). unfold d_bs, invalid_value, u64_max in *.
  assert (0 <= d_size (eng_view (na_engine a))) by (unfold d_size; lia). split_and!; nia.
Qed.

(** Growing by a chunk keeps room for the rest. *)
Lemma na_room_grown a a' k :
  d_geo (eng_view (na_engine a')) = d_geo (eng_view (na_engine a)) ->
  m_chunk_size a' = m_chunk_size a ->
  wf_disk (eng_view (na_engine a)) -> d_size (eng_view (na_engine a')) <=
    d_size (eng_view (na_engine a)) + k * m_chunk_size a ->
  forall j, 0 <= j -> na_room a (k + j) -> na_room a' j.
Proof.
  intros Hg Hc Hwf Hs j Hj. unfold na_room, d_bs. rewrite Hg, Hc.
  pose proof (wf_bs_pos _ Hwf). unfold d_bs in *. nia.
Qed.

Lemma refill_spec a U :
  na_inv a U -> na_room a 1 ->
  wp refill a (fun _ a' => na_inv a' U /\ al_step_with na_room U 1 a a' /\ 0 < m_free a').
Proof.
  intros Hinv Hroom. pose proof (na_bounds a U Hinv) as (Hb1 & Hb2 & Hb3).
  pose proof (na_wf a U Hinv) as [Hwf _].
  pose proof Hinv as [(stack & Hfl & Hf & Hdis) Hu Ht Hc]. unfold refill. wp_step. apply wp_on_list.
  unfold wp at 1. rewrite (empty_spec _ _ Hfl). destruct stack as [|b stack].
  2:{ wp_step. replace (set_list (m_list a) a) with a by (by destruct a). split_and!; [done| |].
      - split_and!; try done. apply na_room_grown; try done; lia.
      - rewrite Hf. cbn [length]. lia. }
  do 4 wp_step. cbn [m_list m_chunk_size set_list]. set (d := eng_view (na_engine a)) in *.
  unfold na_room in Hroom. fold d in Hroom.
  pose proof (wf_bs_pos d Hwf).
  assert (d_size d + m_chunk_size a < invalid_value) as Hlt by (unfold d_size in *; nia).
  unfold index_add, index_valid. destruct (Z.eqb_spec (d_size d) invalid_value); [lia|]. cbn [negb].
  do 3 wp_step. apply wp_on_list. eapply wp_mono; [apply grow_list_spec; cbn; try done; try lia|].
  { fold d. lia. }
  cbn beta. intros _ l1 (Hfl1 & Hg1 & Hs1 & Hd1). cbn [m_list set_list] in *. fold d in Hg1, Hs1, Hd1.
  wp_step. eapply wp_mono; [apply (push_range_spec _ _ _ []); cbn; [done|]|].
  { intros i Hi. split; [|apply not_elem_of_nil]. unfold in_disk. rewrite Hs1. unfold d_size in *. lia. }
  cbn beta. intros _ a' (l & -> & Hfl2 & Hfr). rewrite app_nil_r, Z2Nat.id in * by lia.
  cbn [m_list set_list] in *. do 3 wp_step. cbn [m_list m_total m_free m_chunk_size set_list set_total set_free].
  assert (forall i, i ∈ U -> disk_block (eng_view (fl_engine l)) i = disk_block d i) as Hsame.
  { intros i Hi. pose proof (Hu i Hi) as Hin. fold d in Hin. destruct Hfr as (_ & _ & Hfr). rewrite Hfr.
    - by apply Hd1.
    - unfold in_disk in *. lia.
    - rewrite elem_of_seqZ. unfold in_disk in Hin. lia. }
  pose proof Hfr as (Hgr & Hsr & _). rewrite Hf in *. cbn [length] in *.
  assert (d_size d < 2 ^ 64 - 1) by (unfold invalid_value, u64_max in *; lia).
  rewrite !wrap_small by (unfold is_word, invalid_value, u64_max in *; lia). split_and!.
  - split; cbn [m_list m_total m_free m_chunk_size set_list set_total set_free].
    + exists (seqZ (d_size d) (m_chunk_size a)). split_and!; [done|rewrite length_seqZ; lia|].
      intros i Hi HiU. apply elem_of_seqZ in Hi. specialize (Hu i HiU). fold d in Hu. unfold in_disk in Hu. lia.
    + intros i Hi. specialize (Hu i Hi). unfold in_disk in *. rewrite Hsr, Hs1. fold d in Hu. lia.
    + lia.
    + done.
  - split_and!; cbn; [by rewrite Hgr, Hg1|done|]. apply na_room_grown; cbn; try done; fold d; [by rewrite Hgr, Hg1|rewrite Hsr, Hs1; lia].
  - cbn. lia.
Qed.

Lemma node_allocate_spec a U :
  na_inv a U -> na_room a 1 ->
  wp (node_allocate 1) a (fun b a' => na_inv a' (U ∪ {[b]}) /\ b ∉ U /\ al_step_with na_room U 1 a a').
Proof.
  intros Hinv Hroom. unfold node_allocate. do 3 wp_step.
  eapply wp_mono; [by apply refill_spec|]. cbn beta. intros _ a1 (Hinv1 & Hst1 & Hfree).
  pose proof (na_bounds a1 U Hinv1) as (Hb1 & Hb2 & Hb3). pose proof (na_wf a1 U Hinv1) as [Hwf1 _].
  destruct Hinv1 as [(stack & Hfl & Hf & Hdis) Hu Ht Hc]. do 2 wp_step.
  rewrite wrap_small by (unfold is_word; lia). apply wp_on_list.
  destruct stack as [|b stack]; [cbn in Hf; lia|].
  eapply wp_mono; [by apply pop_spec|]. cbn beta. intros r l (-> & Hfl' & Hfr).
  pose proof Hfl as (_ & _ & Hnd & Hfa & _). apply NoDup_cons in Hnd as [Hnb Hnd].
  apply Forall_cons in Hfa as [Hbin Hfa]. pose proof (Hdis b ltac:(by left)) as HbU.
  pose proof Hfr as (Hgr & Hsr & Hbr). cbn [m_list set_free] in *. split_and!; [|done|].
  - split; cbn [m_list m_total m_free m_chunk_size set_list set_free].
    + exists stack. split_and!; [done|rewrite Hf; cbn [length]; lia|].
      intros i Hi. rewrite elem_of_union, elem_of_singleton. intros [HiU| ->]; [|done].
      apply (Hdis i); [by right|done].
    + intros i. rewrite elem_of_union, elem_of_singleton. unfold in_disk. rewrite Hsr.
      intros [Hi| ->]; [by apply Hu|done].
    + rewrite size_union, size_singleton by set_solver. lia.
    + done.
  - change 1 with (1 + 0). eapply al_step_trans; [reflexivity|reflexivity|lia|lia|exact Hst1|].
    split_and!; cbn; [done| |].
    + intros i Hi. apply Hbr; [by apply Hu|]. intros Hs. by apply (Hdis i).
    + apply na_room_grown; cbn; try done. rewrite Hsr. lia.
Qed.

Lemma node_free_spec a U b :
  na_inv a U -> b ∈ U ->
  wp (node_free b 1) a (fun _ a' => na_inv a' (U ∖ {[b]}) /\ al_step_with na_room (U ∖ {[b]}) 0 a a').
Proof.
  intros Hinv Hb. pose proof (na_bounds a U Hinv) as (Hb1 & Hb2 & Hb3).
  pose proof (na_wf a U Hinv) as [Hwf _]. destruct Hinv as [(stack & Hfl & Hf & Hdis) Hu Ht Hc].
  assert (b ∉ stack) as Hns by (intros Hs; by apply (Hdis b)).
  assert (size U = S (size (U ∖ {[b]}))) as Hsz.
  { rewrite (union_difference_singleton_L b U) at 1 by done.
    rewrite size_union, size_singleton by set_solver. done. }
  unfold node_free. do 2 wp_step. do 2 wp_step. rewrite wrap_small by (unfold is_word; lia).
  apply wp_on_list. eapply wp_mono; [apply push_spec; cbn; [done|by apply Hu|done]|]. cbn beta.
  intros _ l (Hfl' & Hfr). cbn [m_list set_free] in *. pose proof Hfr as (Hgr & Hsr & Hbr).
  assert (forall i, i ∈ U ∖ {[b]} -> i ∉ b :: stack) as Hout.
  { intros i Hi. apply elem_of_difference in Hi as [Hi Hne]. rewrite elem_of_singleton in Hne.
    rewrite elem_of_cons. intros [?|Hs]; [done|]. by apply (Hdis i). }
  split.
  - split; cbn [m_list m_total m_free m_chunk_size set_list set_free].
    + exists (b :: stack). split_and!; [done|rewrite Hf; cbn [length]; lia|].
      intros i Hi HiU. by apply (Hout i).
    + intros i Hi. unfold in_disk. rewrite Hsr. apply Hu. set_solver.
    + lia.
    + done.
  - split_and!; cbn; [done| |].
    + intros i Hi. apply Hbr; [apply Hu; set_solver|by apply Hout].
    + apply na_room_grown; cbn; try done. rewrite Hsr. lia.
Qed.

Lemma na_room_mono a U n m : na_inv a U -> 0 <= m <= n -> na_room a n -> na_room a m.
Proof.
  intros Hinv Hm. unfold na_room. pose proof (na_chunk _ _ Hinv).
  pose proof (wf_bs_pos _ (proj1 (na_wf _ _ Hinv))). apply Z.le_lt_trans.
  apply Z.mul_le_mono_nonneg_r; [lia|]. apply Zplus_le_compat_l, Z.mul_le_mono_nonneg_r; lia.
Qed.

#[export] Instance node_allocator_spec : AllocatorSpec N.
Proof.
  refine {| al_inv := na_inv; al_supports n := n = 1; al_room := na_room |}.
  - exact na_room_mono.
  - intros a U Hinv. split; [by apply (na_wf a U)|apply Hinv].
  - by apply na_read.
  - by apply na_update.
  - by apply na_overwrite_zero.
  - intros a U n Hinv Hn Hs Hr. cbn in Hs. subst n. cbn [do_allocate node_allocator_allocator].
    eapply wp_mono; [by apply node_allocate_spec|]. cbn beta. intros b a' (Hi & Hd & Hst).
    rewrite blocks_1. split_and!; [done|set_solver|done].
  - intros a U b n m Hinv Hn Hm Hne H1 H2. cbn in H1, H2. lia.
  - intros a U b n Hinv Hn Hs Hsub. cbn in Hs. subst n. rewrite blocks_1 in *.
    cbn [do_free node_allocator_allocator]. apply node_free_spec; [done|set_solver].
Defined.
End node_allocator_spec.

(** ** Clients *)

Inductive na_op : Set :=
| NAlloc (n : Z)
| NFree (b n : Z)
| NRealloc (b n m : Z)
| NRead (b : Z)
| NWrite (b : Z) (data : bytes).
Inductive na_out : Set := out_index (b : Z) | out_data (data : bytes) | out_none.

(** A client decides on the next call when it knows the results of the
    previous ones. *)
Inductive client : Type :=
| Done
| Call (o : na_op) (k : result na_out -> client).

(** The abstract allocator: the blocks in use with their contents. *)
Inductive na_step (m : gmap Z bytes) : na_op -> result na_out -> gmap Z bytes -> Prop :=
| step_alloc b c : m !! b = None -> index_valid b = true ->
    na_step m (NAlloc 1) (Ok (out_index b)) (<[b := c]> m)
| step_alloc_zero : na_step m (NAlloc 0) (Err bad_argument) m
| step_alloc_many n : n <> 0 -> n <> 1 -> na_step m (NAlloc n) (Err unsupported) m
| step_free b : index_valid b = true -> na_step m (NFree b 1) (Ok out_none) (delete b m)
| step_free_nothing b n : index_valid b = false \/ n = 0 -> na_step m (NFree b n) (Ok out_none) m
| step_free_many b n : index_valid b = true -> n <> 0 -> n <> 1 ->
    na_step m (NFree b n) (Err unsupported) m
| step_realloc_same b : index_valid b = true -> na_step m (NRealloc b 1 1) (Ok (out_index b)) m
| step_realloc_free b : index_valid b = true ->
    na_step m (NRealloc b 1 0) (Ok (out_index invalid_value)) (delete b m)
| step_realloc_many b n : index_valid b = true -> n <> 0 -> n <> 1 ->
    na_step m (NRealloc b 1 n) (Err unsupported) m
| step_realloc_invalid b n k : index_valid b = false -> n <> 0 ->
    na_step m (NRealloc b n k) (Err bad_argument) m
| step_realloc_zero b k : index_valid b = true -> na_step m (NRealloc b 0 k) (Err bad_argument) m
| step_read b c : m !! b = Some c -> na_step m (NRead b) (Ok (out_data c)) m
| step_write b c : is_Some (m !! b) -> na_step m (NWrite b c) (Ok out_none) (<[b := c]> m).

Inductive na_steps : gmap Z bytes -> client -> list (result na_out) -> gmap Z bytes -> Prop :=
| na_steps_done m : na_steps m Done [] m
| na_steps_call m o k r m1 rs m2 :
    na_step m o r m1 -> na_steps m1 (k r) rs m2 -> na_steps m (Call o k) (r :: rs) m2.

(** What a client may ask for: it frees and accesses only blocks it owns. *)
Definition na_allowed (bs : Z) (m : gmap Z bytes) (o : na_op) : Prop :=
  match o with
  | NAlloc n => 0 <= n
  | NFree b n => 0 <= n /\ (n = 1 -> index_valid b = true -> is_Some (m !! b))
  | NRealloc b n k => (index_valid b = true -> n = 0 \/ n = 1 /\ is_Some (m !! b)) /\
      (index_valid b = false -> n <> 0) /\ 0 <= k
  | NRead b => is_Some (m !! b)
  | NWrite b data => is_Some (m !! b) /\ zlen data = bs
  end.
Fixpoint na_safe (bs : Z) (m : gmap Z bytes) (c : client) : Prop :=
  match c with
  | Done => True
  | Call o k => na_allowed bs m o /\ forall r m', na_step m o r m' -> na_safe bs m' (k r)
  end.
Fixpoint calls (c : client) (n : Z) : Prop :=
  match c with
  | Done => 0 <= n
  | Call o k => 1 <= n /\ forall r, calls (k r) (n - 1)
  end.

Section sessions.
Context {E : Type} `{EngineSpec E}.
Abbreviation N := (node_allocator E).
Implicit Types (a : N) (m : gmap Z bytes).

Definition na_run_op (o : na_op) : M N na_out :=
  match o with
  | NAlloc n => let* b := allocate n in ret (out_index b)
  | NFree b n => free b n ;;; ret out_none
  | NRealloc b n k => let* b := reallocate b n k in ret (out_index b)
  | NRead b => let* d := eng_read b in ret (out_data d)
  | NWrite b data => eng_update b (fun _ => data) ;;; ret out_none
  end.

Fixpoint na_run (c : client) (a : N) : N * list (result na_out) :=
  match c with
  | Done => (a, [])
  | Call o k =>
    let '(a1, r) := na_run_op o a in
    let '(a2, rs) := na_run (k r) a1 in (a2, r :: rs)
  end.

Definition na_models a m : Prop :=
  na_inv a (dom m) /\ forall b c, m !! b = Some c -> disk_block (eng_view a) b = c.

(** The blocks other than [b] keep their contents. *)
Lemma na_models_step a a' m m' U k :
  na_inv a' (dom m') -> al_step U k a a' -> na_models a m ->
  (forall b c, m' !! b = Some c -> (b ∈ U /\ m !! b = Some c) \/ disk_block (eng_view a') b = c) ->
  na_models a' m'.
Proof.
  intros Hinv (_ & Hsame & _) [_ Hm] Hc. split; [done|]. intros b c Hb.
  destruct (Hc b c Hb) as [[HbU Hmb]|]; [|done]. rewrite Hsame by done. by apply Hm.
Qed.

(** The outcome of one operation. *)
Definition na_post a m (o : na_op) (r : result na_out) a' : Prop :=
  exists m', na_step m o r m' /\ na_models a' m' /\
    d_bs (eng_view a') = d_bs (eng_view a) /\ forall j, 0 <= j -> na_room a (1 + j) -> na_room a' j.

Lemma na_post_same a m o r : na_models a m -> na_step m o r m -> na_post a m o r a.
Proof.
  intros Hm Hs. exists m. split_and!; try done. pose proof Hm as [Hinv _].
  apply na_room_grown; try done; [by apply (na_wf _ _ Hinv)|]. pose proof (na_chunk _ _ Hinv). lia.
Qed.

Lemma na_post_step a a' m m' o r U k :
  na_models a m -> na_inv a' (dom m') -> al_step U k a a' -> 0 <= k <= 1 ->
  (forall b c, m' !! b = Some c -> (b ∈ U /\ m !! b = Some c) \/ disk_block (eng_view a') b = c) ->
  na_step m o r m' -> na_post a m o r a'.
Proof.
  intros Hm Hinv Hst Hk Hc Hs. exists m'. pose proof Hst as (Hg & _ & Hroom). split_and!; [done| | |].
  - by eapply na_models_step.
  - exact (f_equal g_block_size Hg).
  - intros j Hj Hr. apply Hroom; [done|]. pose proof Hm as [Hi _].
    apply (na_room_mono a (dom m) (1 + j)); [done|lia|done].
Qed.

Lemma wp_post a m o :
  wp (na_run_op o) a (fun x a' => na_post a m o (Ok x) a') ->
  let '(a', r) := na_run_op o a in na_post a m o r a'.
Proof. intros Hw. unfold wp in Hw. by destruct (na_run_op o a) as [a' [x|er]]. Qed.

Lemma alloc_post a m : na_models a m -> na_room a 1 ->
  wp (na_run_op (NAlloc 1)) a (fun x a' => na_post a m (NAlloc 1) (Ok x) a').
Proof.
  intros Hm Hroom. pose proof Hm as [Hinv _]. cbn [na_run_op]. wp_step.
  eapply wp_mono; [by apply (allocate_spec a (dom m))|]. cbn beta.
  intros b a' (Hi & Hd & Hst). wp_step. rewrite blocks_1 in *.
  assert (b ∉ dom m) as Hb by set_solver.
  destruct (al_used_valid a' _ b Hi) as [Hv _]; [set_solver|].
  apply (na_post_step a a' m (<[b := disk_block (eng_view a') b]> m) _ _ (dom m) 1); try done.
  - by rewrite dom_insert_L, union_comm_L.
  - intros i c Hic. apply lookup_insert_Some in Hic as [[-> <-]|[Hne Hic]]; [by right|left].
    split; [by eapply elem_of_dom_2|done].
  - apply step_alloc; [by apply not_elem_of_dom|done].
Qed.

Lemma freed_post a a' m b o r :
  na_models a m -> na_step m o r (delete b m) ->
  na_inv a' (dom m ∖ {[b]}) -> al_step (dom m ∖ {[b]}) 0 a a' -> na_post a m o r a'.
Proof.
  intros Hm Hs Hi Hst. apply (na_post_step a a' m (delete b m) o _ (dom m ∖ {[b]}) 0); try done.
  - by rewrite dom_delete_L.
  - intros i c Hic. left. apply lookup_delete_Some in Hic as [Hne Hic]. split; [|done].
    apply elem_of_difference. split; [by eapply elem_of_dom_2|]. set_solver.
Qed.

Lemma free_post a m b : na_models a m -> is_Some (m !! b) -> index_valid b = true ->
  wp (free b 1) a (fun _ a' => al_inv a' (dom m ∖ {[b]}) /\ al_step (dom m ∖ {[b]}) 0 a a').
Proof.
  intros [Hinv _] Hb Hv. apply elem_of_dom in Hb. rewrite <- (blocks_1 b).
  apply (free_spec a (dom m) b 1); try done.
  rewrite blocks_1. set_solver.
Qed.

Lemma write_post a m b data :
  na_models a m -> is_Some (m !! b) -> zlen data = d_bs (eng_view a) ->
  wp (na_run_op (NWrite b data)) a (fun x a' => na_post a m (NWrite b data) (Ok x) a').
Proof.
  intros Hm Hb Hl. pose proof Hm as [Hinv _]. pose proof Hb as Hd%elem_of_dom. cbn [na_run_op]. wp_step.
  eapply wp_mono; [apply (al_update a (dom m)); try done|].
  { destruct (na_wf _ _ Hinv) as [Hwf _].
    pose proof (length_disk_block _ b Hwf (na_used _ _ Hinv b Hd)). cbn in *. lia. }
  cbn beta. intros _ a' (Hi & Hst & Hc). wp_step.
  apply (na_post_step a a' m (<[b := data]> m) _ _ (dom m ∖ {[b]}) 0); try done.
  - by rewrite dom_insert_lookup_L.
  - intros i c Hic. apply lookup_insert_Some in Hic as [[-> <-]|[Hne Hic]]; [by right|left].
    split; [|done]. apply elem_of_dom_2 in Hic. set_solver.
  - by apply step_write.
Qed.

Lemma read_post a m b : na_models a m -> is_Some (m !! b) ->
  wp (na_run_op (NRead b)) a (fun x a' => na_post a m (NRead b) (Ok x) a').
Proof.
  intros Hm [c Hb]. pose proof Hm as [Hinv Hc]. cbn [na_run_op]. wp_step.
  eapply wp_mono; [apply (al_read a (dom m)); [done|by eapply elem_of_dom_2]|]. cbn beta.
  intros d a' (-> & Hi & Hst). wp_step. apply (na_post_step a a' m m _ _ (dom m) 0); try done.
  - intros i c' Hic. left. split; [by eapply elem_of_dom_2|done].
  - apply step_read. by rewrite (Hc b c Hb).
Qed.

Lemma na_run_op_spec a m o :
  na_models a m -> na_allowed (d_bs (eng_view a)) m o -> na_room a 1 ->
  let '(a', r) := na_run_op o a in na_post a m o r a'.
Proof.
  intros Hm Ho Hroom. destruct o as [n|b n|b n k|b|b data]; cbn [na_allowed] in Ho.
  - destruct (decide (n = 0)) as [->|Hn0]; [by apply na_post_same, step_alloc_zero|].
    destruct (decide (n = 1)) as [->|Hn1]; [by apply wp_post, alloc_post|].
    unfold na_run_op, allocate, throw_if, guard_else, bind. rewrite (proj2 (Z.eqb_neq n 0)) by done. cbn.
    unfold node_allocate, throw_if, guard_else, bind. rewrite (proj2 (Z.eqb_neq n 1)) by done. cbn.
    by apply na_post_same, step_alloc_many.
  - destruct Ho as [Hn Ho]. destruct (index_valid b) eqn:Hv.
    2:{ unfold na_run_op, free, bind. rewrite Hv. by apply na_post_same, step_free_nothing; [|left]. }
    destruct (decide (n = 0)) as [->|Hn0].
    { unfold na_run_op, free, bind. rewrite orb_true_r. by apply na_post_same, step_free_nothing; [|right]. }
    destruct (decide (n = 1)) as [->|Hn1].
    + apply wp_post. cbn [na_run_op]. wp_step. eapply wp_mono; [apply (free_post a m b); auto|]. cbn beta.
      intros _ a' [Hi Hst]. wp_step. by eapply freed_post; [|apply step_free|..].
    + unfold na_run_op, free, bind. rewrite Hv, (proj2 (Z.eqb_neq n 0)) by done. cbn.
      unfold node_free, throw_if, guard_else, bind. rewrite (proj2 (Z.eqb_neq n 1)) by done. cbn.
      by apply na_post_same, step_free_many.
  - destruct Ho as (Ho1 & Ho2 & Hk). destruct (index_valid b) eqn:Hv.
    2:{ unfold na_run_op, reallocate, throw_if, guard_else, bind. rewrite Hv, (proj2 (Z.eqb_neq n 0)) by auto.
        by apply na_post_same, step_realloc_invalid; auto. }
    destruct (Ho1 eq_refl) as [->|[-> Hb]].
    { unfold na_run_op, reallocate, bind. rewrite Hv. by apply na_post_same, step_realloc_zero. }
    destruct (decide (k = 0)) as [->|Hk0].
    + apply wp_post. cbn [na_run_op]. unfold reallocate. rewrite Hv. cbn [negb Z.eqb]. do 4 wp_step.
      eapply wp_mono; [apply (free_post a m b); auto|]. cbn beta.
      intros _ a' [Hi Hst]. do 2 wp_step. by eapply freed_post; [|apply step_realloc_free|..].
    + unfold na_run_op, reallocate, bind. rewrite Hv. cbn [negb throw_if guard_else].
      destruct (Z.eqb_spec 1 k) as [<-|Hk1]; [by apply na_post_same, step_realloc_same|].
      rewrite (proj2 (Z.eqb_neq k 0)) by done. cbn. unfold node_reallocate.
      rewrite (proj2 (Z.eqb_neq k 1)) by auto. cbn. by apply na_post_same, step_realloc_many; auto.
  - by apply wp_post, read_post.
  - destruct Ho. by apply wp_post, write_post.
Qed.

Lemma na_run_spec c : forall a m n,
  na_models a m -> na_safe (d_bs (eng_view a)) m c -> calls c n -> na_room a n ->
  exists m', na_steps m c (na_run c a).2 m' /\ na_models (na_run c a).1 m'.
Proof.
  induction c as [|o k IH]; intros a m n Hm Hs Hn Hroom; cbn [na_run].
  { exists m. split; [constructor|done]. }
  destruct Hs as [Ho Hs], Hn as [Hn Hk]. pose proof Hm as [Hinv _].
  assert (na_room a 1) as Hr1 by (apply (na_room_mono a (dom m) n); [done|lia|done]).
  pose proof (na_run_op_spec a m o Hm Ho Hr1) as Hp. destruct (na_run_op o a) as [a1 r].
  destruct Hp as (m1 & Hst & Hm1 & Hbs & Hr). specialize (Hs r m1 Hst). rewrite <- Hbs in Hs.
  destruct (IH r a1 m1 (n - 1) Hm1 Hs (Hk r)) as (m' & Hsts & Hm').
  { apply Hr; [lia|]. by replace (1 + (n - 1)) with n by lia. }
  destruct (na_run (k r) a1) as [a2 rs]. exists m'. split; [by econstructor|done].
Qed.

Lemma make_node_allocator_spec e a :
  eng_inv e -> make_node_allocator e invalid_value 0 0 = Ok a ->
  na_models a ∅ /\ eng_view a = eng_view e /\ m_chunk_size a = 32.
Proof.
  unfold make_node_allocator. intros Hi Hm. destruct (make_free_list e invalid_value) as [l|] eqn:Hl; [|done].
  injection Hm as <-. destruct (make_free_list_spec e l Hi Hl) as [Hfl He].
  split_and!; [|cbn; by rewrite He|done]. split; [|by intros b c; rewrite lookup_empty].
  rewrite dom_empty_L. split; cbn [m_list m_total m_free m_chunk_size].
  - exists []. split_and!; [done|done|]. intros i Hin. by apply elem_of_nil in Hin.
  - intros i Hin. by apply elem_of_empty in Hin.
  - by rewrite size_empty.
  - lia.
Qed.

(** C25: The node allocator hands out blocks that belong to the client alone.
    From a fresh anchor, every client program that frees and accesses only
    blocks it owns observes exactly the abstract allocator: [allocate(1)]
    returns a valid block that is not in use, blocks in use keep the contents
    that the client wrote although the free list stores its nodes in freed
    blocks, other sizes throw [unsupported], zero sizes and reallocations of
    nothing throw [bad_argument], and no other error occurs.  At the end
    [data_used] is the number of blocks in use and [data_total] counts the
    used and the free ones. *)
Theorem node_allocator_session e a c n :
  eng_inv e -> make_node_allocator e invalid_value 0 0 = Ok a ->
  na_safe (d_bs (eng_view e)) ∅ c -> calls c n ->
  (d_size (eng_view e) + n * 32) * d_bs (eng_view e) < invalid_value ->
  exists m, na_steps ∅ c (na_run c a).2 m /\
    data_used (na_run c a).1 = Z.of_nat (size m) /\
    data_total (na_run c a).1 = data_free (na_run c a).1 + Z.of_nat (size m) /\
    forall b d, m !! b = Some d -> disk_block (eng_view (na_run c a).1) b = d.
Proof.
  intros Hi Hm Hs Hn Hroom. destruct (make_node_allocator_spec e a Hi Hm) as (Hma & Hv & Hc).
  destruct (na_run_spec c a ∅ n Hma) as (m & Hst & Hinv & Hcont); [by rewrite Hv|done| |].
  { cbn in Hv. unfold na_room. by rewrite Hc, Hv. }
  exists m. pose proof (na_total _ _ Hinv) as Ht. pose proof (na_bounds _ _ Hinv) as (Hb1 & Hb2 & Hb3).
  rewrite size_dom in Ht. split_and!; try done. unfold data_used, data_total, data_free.
  rewrite wrap_small by (unfold is_word; lia). lia.
Qed.
End sessions.

(** A client that allocates two blocks, writes the first, returns the second
    and reads the first. *)
Definition sample_client : client :=
  Call (NAlloc 1) (fun r1 =>
    match r1 with
    | Ok (out_index b1) =>
      Call (NWrite b1 (replicate 32 x07)) (fun _ =>
      Call (NAlloc 1) (fun r2 =>
        match r2 with
        | Ok (out_index b2) =>
          Call (NFree b2 1) (fun _ => Call (NAlloc 5) (fun _ => Call (NRead b1) (fun _ => Done)))
        | _ => Done
        end))
    | _ => Done
    end).
Definition sample_allocator : node_allocator memory_engine.memory_engine :=
  NodeAllocator (FreeList.FreeList (memory_engine.MemoryEngine (Geometry 32 5 31) []) invalid_value) 0 0 32.

Lemma sample_client_safe : na_safe 32 ∅ sample_client.
Proof.
  split; [cbn; lia|]. intros r1 m1 H1. inversion H1; subst; try done. clear H1.
  split; [split; [by rewrite lookup_insert_eq|done]|]. intros r m2 H2. inversion H2; subst; try done. clear H2.
  split; [cbn; lia|]. intros r2 m3 H3. inversion H3; subst; try done. clear H3.
  assert (b0 <> b) as Hne by (intros ->; by rewrite insert_insert_eq, lookup_insert_eq in *).
  split; [split; [lia|by rewrite lookup_insert_eq]|]. intros r3 m4 H4.
  assert (m4 !! b = Some (replicate 32 x07)) as Hb.
  { by inversion H4; subst; rewrite ?lookup_delete_ne, lookup_insert_ne, lookup_insert_eq by done. }
  split; [cbn; lia|]. intros r5 m5 H5. inversion H5; subst; try done. split; [by eexists|done].
Qed.

Lemma node_allocator_session_witness :
  (na_run sample_client sample_allocator).2 =
    [Ok (out_index 0); Ok out_none; Ok (out_index 1); Ok out_none; Err unsupported;
     Ok (out_data (replicate 32 x07))] /\
  exists m, na_steps ∅ sample_client (na_run sample_client sample_allocator).2 m /\
    data_used (na_run sample_client sample_allocator).1 = Z.of_nat (size m) /\
    data_total (na_run sample_client sample_allocator).1 =
      data_free (na_run sample_client sample_allocator).1 + Z.of_nat (size m) /\
    forall b d, m !! b = Some d ->
      disk_block (eng_view (na_run sample_client sample_allocator).1) b = d.
Proof.
  split; [vm_compute; reflexivity|].
  apply (node_allocator_session (memory_engine.MemoryEngine (Geometry 32 5 31) []) sample_allocator sample_client 6).
  - split_and!; [by exists 5|constructor|done].
  - reflexivity.
  - exact sample_client_safe.
  - cbn. split; [lia|]. intros [[]|]; cbn; try lia. split; [lia|]. intros _. split; [lia|].
    intros [[]|]; cbn; try lia. repeat (split; [lia|intros _]). lia.
  - reflexivity.
Defined.
