(* ===== verification/Stack.v ===== *)
(** * Stacks (include/prequel/container/stack.hpp, src/container/stack.cpp)

    A linked list of nodes, each a block with an array of values; the top is
    the last value of the first node that is not empty.  The topmost two
    nodes are kept in a buffer ([m_buf], a deque of node handles; a node is
    identified by the index of its block), and the top node may be empty so
    that alternating pushes and pops do not allocate.

    The stack is a client of the allocator interface: [st_inv] relates the
    anchor, the buffer and the blocks to the list of values, and leaves the
    blocks of other clients alone. *)

From Stdlib Require Import Strings.Byte.
From S2P Require Import Prelude MathOps Serialization Blocks EngineSpec FreeList Allocator NodeAllocator.

Module raw_stack.

(** ** raw_stack_node *)

(** [serialized_size<header>()] for the format [(prev, size)] *)
Definition header_size : Z := 12.
Definition compute_capacity (block_size value_size : Z) : Z :=
  if block_size <=? header_size then 0 else (block_size - header_size) / value_size.
Definition offset_of_index (value_size index : Z) : Z := u32 (header_size + u32 (value_size * index)).

Definition get_prev (b : bytes) : Z := be_decode (slice 0 8 b).
Definition get_size (b : bytes) : Z := be_decode (slice 8 4 b).
Definition put_prev (prev : Z) (b : bytes) : bytes := splice 0 (be_encode 8 prev) b.
Definition put_size (size : Z) (b : bytes) : bytes := splice 8 (be_encode 4 size) b.
Definition put_header (b : bytes) : bytes := splice 0 (be_encode 8 invalid_value ++ be_encode 4 0) b.
Definition get_value (value_size index : Z) (b : bytes) : bytes :=
  slice (offset_of_index value_size index) value_size b.
Definition put_value (value_size index : Z) (value b : bytes) : bytes :=
  splice (offset_of_index value_size index) value b.

(** ** raw_stack_impl *)

Record raw_stack (A : Type) : Type := RawStack {
  m_alloc : A;
  m_size : Z;
  m_nodes : Z;
  m_top : Z;
  m_value_size : Z;
  m_node_capacity : Z;
  m_buf : list Z
}.
Arguments RawStack {A}.
Arguments m_alloc {A} _.
Arguments m_size {A} _.
Arguments m_nodes {A} _.
Arguments m_top {A} _.
Arguments m_value_size {A} _.
Arguments m_node_capacity {A} _.
Arguments m_buf {A} _.

Section stack_ops.
Context {A : Type} `{Allocator A}.
Abbreviation S := (raw_stack A).

Definition set_alloc (a : A) (s : S) : S :=
  RawStack a (m_size s) (m_nodes s) (m_top s) (m_value_size s) (m_node_capacity s) (m_buf s).
Definition set_size (n : Z) (s : S) : S :=
  RawStack (m_alloc s) n (m_nodes s) (m_top s) (m_value_size s) (m_node_capacity s) (m_buf s).
Definition set_nodes (n : Z) (s : S) : S :=
  RawStack (m_alloc s) (m_size s) n (m_top s) (m_value_size s) (m_node_capacity s) (m_buf s).
Definition set_top_node (t : Z) (s : S) : S :=
  RawStack (m_alloc s) (m_size s) (m_nodes s) t (m_value_size s) (m_node_capacity s) (m_buf s).
Definition set_buf (b : list Z) (s : S) : S :=
  RawStack (m_alloc s) (m_size s) (m_nodes s) (m_top s) (m_value_size s) (m_node_capacity s) b.
Definition on_alloc {X} (m : M A X) : M S X := zoom m_alloc set_alloc m.

(** Members of a node. *)
Definition node_get {X} (i : Z) (f : bytes -> X) : M S X :=
  let* b := on_alloc (eng_read i) in ret (f b).
Definition node_set (i : Z) (f : bytes -> bytes) : M S unit := on_alloc (eng_update i f).

Definition node_set_size (i new_size : Z) : M S unit :=
  let* cap := gets m_node_capacity in
  assert! (new_size <=? cap) ;;;
  node_set i (put_size new_size).
Definition full (i : Z) : M S bool :=
  let* cap := gets m_node_capacity in
  let* sz := node_get i get_size in
  ret (sz =? cap).
Definition node_empty (i : Z) : M S bool :=
  let* sz := node_get i get_size in
  ret (sz =? 0).
Definition node_push (i : Z) (value : bytes) : M S unit :=
  let* f := full i in
  assert! (negb f) ;;;
  let* size := node_get i get_size in
  let* vs := gets m_value_size in
  node_set i (put_value vs size value) ;;;
  node_set_size i (u32 (size + 1)).
Definition node_pop (i : Z) : M S unit :=
  let* e := node_empty i in
  assert! (negb e) ;;;
  let* size := node_get i get_size in
  node_set_size i (u32 (size - 1)).
Definition node_top (i : Z) : M S bytes :=
  let* e := node_empty i in
  assert! (negb e) ;;;
  let* size := node_get i get_size in
  let index := u32 (size - 1) in
  let* size := node_get i get_size in
  assert! (index <? size) ;;;
  let* vs := gets m_value_size in
  node_get i (get_value vs index).

(** The constructor of [raw_stack_node]. *)
Definition check_capacity : M S unit :=
  let* s := get in
  assert! (m_node_capacity s =? compute_capacity (d_bs (eng_view (m_alloc s))) (m_value_size s)).
Definition read_node (i : Z) : M S Z :=
  let* _ := on_alloc (eng_read i) in
  check_capacity ;;;
  ret i.

Definition create_node : M S Z :=
  let* index := on_alloc (allocate 1) in
  on_alloc (eng_overwrite_zero index) ;;;
  check_capacity ;;;
  node_set index put_header ;;;
  modify (fun s => set_nodes (u64 (m_nodes s + 1)) s) ;;;
  ret index.

Definition free_node (index : Z) : M S unit :=
  let* n := gets m_nodes in
  assert! (0 <? n) ;;;
  on_alloc (free index 1) ;;;
  modify (fun s => set_nodes (u64 (m_nodes s - 1)) s).

(** [m_buf.front()] and [m_buf.back()]; undefined for an empty deque. *)
Definition front : M S Z :=
  let* b := gets m_buf in
  match b with [] => throw assert_failure | i :: _ => ret i end.
Definition back : M S Z :=
  let* b := gets m_buf in
  match last b with None => throw assert_failure | Some i => ret i end.

Definition is_empty : M S bool := gets (fun s => m_size s =? 0).

(** Checked in debug builds. *)
Definition check_buffer_invariants : M S unit :=
  let* s := get in
  if m_size s =? 0 then assert! (match m_buf s with [] => true | _ => false end) else
  if m_nodes s =? 1 then
    let* f := front in
    assert! (f =? m_top s) ;;;
    assert! (length (m_buf s) =? 1)%nat
  else
  assert! (length (m_buf s) =? 2)%nat ;;;
  let* b0 := front in
  let* b1 := back in
  assert! (b1 =? m_top s) ;;;
  let* prev := node_get b1 get_prev in
  assert! (b0 =? prev) ;;;
  let* e := node_empty b0 in
  assert! (negb e).

(** The constructor; [(size, nodes, top)] is the anchor. *)
Definition load_buffer : M S unit :=
  let* top := gets m_top in
  if index_valid top then
    let* t := read_node top in
    modify (set_buf [t]) ;;;
    let* prev := node_get t get_prev in
    if index_valid prev then
      let* p := read_node prev in
      modify (set_buf [p; t])
    else ret tt
  else ret tt.
Definition make_stack (a : A) (size nodes top value_size : Z) : S * result unit :=
  let cap := compute_capacity (d_bs (eng_view a)) value_size in
  let s := RawStack a size nodes top value_size cap [] in
  (throw_if (cap =? 0) bad_argument ;;; load_buffer) s.

(** [m_buf.size() > 1 && !m_buf.back().empty()] *)
Definition choose_back : M S bool :=
  let* buf := gets m_buf in
  if 1 <? zlen buf then let* b := back in let* e := node_empty b in ret (negb e) else ret false.

(** A null pointer as buffer is [false] or [None]. *)
Definition top (buffer : bool) : M S bytes :=
  throw_if (negb buffer) bad_argument ;;;
  let* e := is_empty in
  throw_if e bad_operation ;;;
  check_buffer_invariants ;;;
  let* use_back := choose_back in
  let* node := (if use_back : bool then back else front) in
  node_top node.

Definition append_node (prev : Z) : M S Z :=
  let* node := create_node in
  node_set node (put_prev prev) ;;;
  modify (set_top_node node) ;;;
  ret node.

(** "Make a new node if the last node in the buffer is full" *)
Definition make_room : M S unit :=
  let* buf := gets m_buf in
  if zlen buf =? 0 then
    let* n := append_node invalid_value in
    modify (fun s => set_buf (m_buf s ++ [n]) s)
  else
    let* b := back in
    let* f := full b in
    if f : bool then
      let* n := append_node b in
      modify (fun s => set_buf (m_buf s ++ [n]) s) ;;;
      let* buf := gets m_buf in
      if 2 <? zlen buf then modify (fun s => set_buf (drop 1 (m_buf s)) s) else ret tt
    else ret tt.

Definition push (value : option bytes) : M S unit :=
  match value with
  | None => throw bad_argument
  | Some value =>
    check_buffer_invariants ;;;
    make_room ;;;
    let* fr := front in
    let* f := full fr in
    let* node := (if negb f then front else back) in
    node_push node value ;;;
    modify (fun s => set_size (u64 (m_size s + 1)) s)
  end.

(** The end of [pop]: the first buffered node has become empty. *)
Definition drop_first (first : Z) : M S unit :=
  let* buf := gets m_buf in
  (if 1 <? zlen buf then
     let* second := back in
     free_node second ;;;
     modify (fun s => set_buf (take (length (m_buf s) - 1) (m_buf s)) s) ;;;
     modify (set_top_node first)
   else ret tt) ;;;
  let* prev := node_get first get_prev in
  if index_valid prev then
    let* p := read_node prev in
    modify (fun s => set_buf (p :: m_buf s) s)
  else
    free_node first ;;;
    modify (set_buf []) ;;;
    modify (set_top_node invalid_value).

Definition pop : M S unit :=
  let* e := is_empty in
  throw_if e bad_operation ;;;
  check_buffer_invariants ;;;
  let* use_back := choose_back in
  if use_back : bool then
    let* b := back in
    node_pop b ;;;
    modify (fun s => set_size (u64 (m_size s - 1)) s)
  else
  let* first := front in
  let* e := node_empty first in
  assert! (negb e) ;;;
  node_pop first ;;;
  modify (fun s => set_size (u64 (m_size s - 1)) s) ;;;
  let* e := node_empty first in
  if e : bool then drop_first first else ret tt.

(** Every iteration frees a node, and [free_node] requires the node counter
    to be positive: its value bounds the number of iterations. *)
Fixpoint reset_loop (fuel : nat) (index : Z) : M S unit :=
  if negb (index_valid index) then ret tt else
  match fuel with
  | O => throw check_failure
  | Datatypes.S fuel =>
    let* node := read_node index in
    let* prev := node_get node get_prev in
    free_node node ;;;
    reset_loop fuel prev
  end.
Definition reset : M S unit :=
  let* top := gets m_top in
  let* n := gets m_nodes in
  reset_loop (Datatypes.S (Z.to_nat n)) top ;;;
  modify (set_buf []) ;;;
  modify (set_top_node invalid_value) ;;;
  modify (set_size 0) ;;;
  modify (set_nodes 0).
Definition clear : M S unit := reset.

(** [ERROR(...)] throws [corruption_error]; so does a list that is longer
    than the node counter, at the latest when it ends (the C++ loop does not
    end on a cyclic list, where the model throws too). *)
Fixpoint validate_loop (fuel : nat) (index total_values total_nodes : Z) : M S (Z * Z) :=
  if negb (index_valid index) then ret (total_values, total_nodes) else
  match fuel with
  | O => throw corruption_error
  | Datatypes.S fuel =>
    let* node := read_node index in
    let* sz := node_get node get_size in
    let* cap := gets m_node_capacity in
    throw_if (cap <? sz) corruption_error ;;;
    let* top := gets m_top in
    throw_if (negb (index =? top) && (sz =? 0)) corruption_error ;;;
    let* prev := node_get node get_prev in
    validate_loop fuel prev (u64 (total_values + sz)) (u64 (total_nodes + 1))
  end.
Definition validate : M S unit :=
  let* s := get in
  throw_if ((m_size s =? 0) && index_valid (m_top s)) corruption_error ;;;
  throw_if (negb (m_size s =? 0) && negb (index_valid (m_top s))) corruption_error ;;;
  let* totals := validate_loop (Z.to_nat (m_nodes s)) (m_top s) 0 0 in
  throw_if (negb (totals.1 =? m_size s)) corruption_error ;;;
  throw_if (negb (totals.2 =? m_nodes s)) corruption_error.
End stack_ops.

(** ** Fields *)

Section fields.
Implicit Types (b v : bytes) (vs k : Z).

Lemma stack_capacity_bound bs vs :
  0 < vs -> 0 < compute_capacity bs vs -> 12 + vs * compute_capacity bs vs <= bs.
Proof.
  unfold compute_capacity, header_size. intros Hv. destruct (Z.leb_spec bs 12); [lia|]. intros _.
  pose proof (Z.mul_div_le (bs - 12) vs). lia.
Qed.

Lemma offset_of_index_eq vs k : 0 <= vs -> 0 <= k -> 12 + vs * k < 2 ^ 32 ->
  offset_of_index vs k = 12 + vs * k.
Proof.
  intros. unfold offset_of_index, header_size. rewrite (wrap_small 32 (vs * k)) by (unfold is_word; nia).
  apply wrap_small. unfold is_word. nia.
Qed.

Lemma put_prev_fields z b : is_u64 z -> 12 <= zlen b ->
  get_prev (put_prev z b) = z /\ get_size (put_prev z b) = get_size b.
Proof. exact (put_next_fields z b). Qed.

Lemma stack_put_size_fields vs z b : 0 <= vs -> is_u32 z -> 12 <= zlen b ->
  get_size (put_size z b) = z /\ get_prev (put_size z b) = get_prev b /\
  forall k, 0 <= k -> 12 + vs * k < 2 ^ 32 -> get_value vs k (put_size z b) = get_value vs k b.
Proof.
  intros Hv Hz Hb. destruct (FreeList.put_size_fields z b Hz Hb) as (H1 & H2 & _).
  split_and!; [exact H1|exact H2|]. intros k Hk Hlt. unfold get_value, put_size.
  rewrite offset_of_index_eq by done. apply field_other; cbn; nia.
Qed.

Lemma stack_put_value_fields vs k v b :
  0 < vs -> zlen v = vs -> 0 <= k -> 12 + vs * (k + 1) <= zlen b -> zlen b < 2 ^ 32 ->
  get_value vs k (put_value vs k v b) = v /\
  get_size (put_value vs k v b) = get_size b /\ get_prev (put_value vs k v b) = get_prev b /\
  length (put_value vs k v b) = length b /\
  forall j, 0 <= j < k -> get_value vs j (put_value vs k v b) = get_value vs j b.
Proof.
  intros Hv Hl Hk Hb Hlt. unfold get_value, get_size, get_prev, put_value.
  rewrite (offset_of_index_eq vs k) by nia. split_and!.
  - apply slice_splice_same; nia.
  - f_equal. apply slice_splice_disjoint; nia.
  - f_equal. apply slice_splice_disjoint; nia.
  - apply length_splice; nia.
  - intros j Hj. rewrite (offset_of_index_eq vs j) by nia. apply slice_splice_disjoint; nia.
Qed.

Lemma stack_length_put_size z b : 12 <= zlen b -> length (put_size z b) = length b.
Proof. exact (FreeList.length_put_size z b). Qed.
Lemma length_put_prev z b : 12 <= zlen b -> length (put_prev z b) = length b.
Proof. exact (length_put_next z b). Qed.
Lemma stack_length_put_header b : 12 <= zlen b -> length (put_header b) = length b.
Proof. exact (FreeList.length_put_header b). Qed.

Lemma put_header_fields b : 12 <= zlen b -> get_size (put_header b) = 0.
Proof.
  intros Hb. pose proof (stack_length_put_header b Hb).
  assert (is_u64 0) as H0 by (unfold is_word; lia). destruct (fresh_node_fields 0 b H0 Hb) as [_ Hs].
  destruct (put_prev_fields 0 (put_header b) H0) as [_ Hs']; [lia|]. by rewrite <- Hs'.
Qed.
End fields.

(** ** Specification *)

Section stack_spec.
Context {A : Type} `{AllocatorSpec A}.
Abbreviation S := (raw_stack A).
Implicit Types (a : A) (s : S) (U : gset Z) (nodes : list (Z * list bytes)).

(** The block [b] of a node holds [vals], the first pushed first. *)
Definition block_ok (vs cap : Z) (b : bytes) (vals : list bytes) (prev : Z) : Prop :=
  zlen vals <= cap /\ Forall (fun v => zlen v = vs) vals /\
  get_prev b = prev /\ get_size b = zlen vals /\
  forall k v, vals !! k = Some v -> get_value vs (Z.of_nat k) b = v.
Definition node_ok a (vs cap i : Z) (vals : list bytes) (prev : Z) : Prop :=
  block_ok vs cap (disk_block (eng_view a) i) vals prev.

Fixpoint chain a (vs cap top : Z) nodes : Prop :=
  match nodes with
  | [] => top = invalid_value
  | (i, vals) :: nodes =>
    top = i /\ exists prev, node_ok a vs cap i vals prev /\ chain a vs cap prev nodes
  end.

Definition head_index nodes : Z := match nodes with [] => invalid_value | (i, _) :: _ => i end.
Definition node_set_of nodes : gset Z := list_to_set (map fst nodes).

(** The top node may be empty; if it is not, the second one is full. *)
Definition shape (cap : Z) nodes : Prop :=
  match nodes with
  | [] => True
  | [(_, v)] => v <> []
  | (_, v0) :: (_, v1) :: rest =>
    v1 <> [] /\ (v0 <> [] -> zlen v1 = cap) /\ Forall (fun n => n.2 <> []) rest
  end.
Definition buffer nodes : list Z :=
  match nodes with
  | [] => []
  | [(i, _)] => [i]
  | (i0, _) :: (i1, _) :: _ => [i1; i0]
  end.

(** The values, the top first. *)
Definition contents nodes : list bytes := concat (map (fun n => rev n.2) nodes).

(** The blocks of the stack are well-formed and disjoint from [U]. *)
Record heap s U nodes : Prop := {
  h_inv : al_inv (m_alloc s) (U ∪ node_set_of nodes);
  h_disj : forall i, i ∈ map fst nodes -> i ∉ U;
  h_nodup : NoDup (map fst nodes);
  h_chain : chain (m_alloc s) (m_value_size s) (m_node_capacity s) (head_index nodes) nodes;
  h_vs : 0 < m_value_size s;
  h_cap : 0 < m_node_capacity s;
  h_capacity : m_node_capacity s = compute_capacity (d_bs (eng_view (m_alloc s))) (m_value_size s);
  h_one : al_supports 1
}.

Record st_inv s U nodes : Prop := {
  s_heap : heap s U nodes;
  s_top : m_top s = head_index nodes;
  s_size : m_size s = zlen (contents nodes);
  s_nodes : m_nodes s = zlen nodes;
  s_buf : m_buf s = buffer nodes;
  s_shape : shape (m_node_capacity s) nodes
}.

Abbreviation blk s i := (disk_block (eng_view (m_alloc s)) i).

Lemma wp_on_alloc {X} (m : M A X) s Q :
  wp m (m_alloc s) (fun x a => Q x (set_alloc a s)) -> wp (on_alloc m) s Q.
Proof. apply wp_zoom. Qed.

Lemma elem_of_nodes nodes i : i ∈ node_set_of nodes <-> i ∈ map fst nodes.
Proof. apply elem_of_list_to_set. Qed.

Lemma chain_top a vs cap top nodes : chain a vs cap top nodes -> top = head_index nodes.
Proof. destruct nodes as [|[i vals] nodes]; [done|]. by intros [-> _]. Qed.

Lemma chain_lookup a vs cap top pre i vals post :
  chain a vs cap top (pre ++ (i, vals) :: post) -> node_ok a vs cap i vals (head_index post).
Proof.
  revert top. induction pre as [|[j vj] pre IH]; cbn; intros top.
  - intros (-> & prev & Hn & Hch). by rewrite <- (chain_top _ _ _ _ _ Hch).
  - intros (-> & prev & _ & Hch). by eapply IH.
Qed.

(** A chain after a change of one of its nodes. *)
Lemma chain_update a a' vs cap top pre i vals vals' post :
  NoDup (map fst (pre ++ (i, vals) :: post)) ->
  (forall j, j ∈ map fst (pre ++ (i, vals) :: post) -> j <> i ->
     disk_block (eng_view a') j = disk_block (eng_view a) j) ->
  node_ok a' vs cap i vals' (head_index post) ->
  chain a vs cap top (pre ++ (i, vals) :: post) -> chain a' vs cap top (pre ++ (i, vals') :: post).
Proof.
  revert top. induction pre as [|[j vj] pre IH]; cbn; intros top Hnd Hsame Hok.
  - intros (-> & prev & Hn & Hch). apply NoDup_cons in Hnd as [Hni _]. split; [done|].
    exists (head_index post). split; [done|]. rewrite <- (chain_top _ _ _ _ _ Hch).
    clear Hok Hn. revert prev Hch. assert (forall j, j ∈ map fst post ->
      disk_block (eng_view a') j = disk_block (eng_view a) j) as Hsame'.
    { intros j Hj. apply Hsame; [by right|]. by intros ->. }
    clear Hsame Hni. induction post as [|[j vj] post IHp]; [done|]. cbn.
    intros prev (-> & p & Hj & Hch). split; [done|]. exists p. split.
    + unfold node_ok. rewrite Hsame' by (cbn; set_solver). done.
    + apply IHp; [|done]. intros k Hk. apply Hsame'. cbn. set_solver.
  - intros (-> & prev & Hn & Hch). apply NoDup_cons in Hnd as [Hni Hnd]. split; [done|]. exists prev.
    split; [|apply IH; try done; intros k Hk; apply Hsame; by right].
    unfold node_ok. rewrite Hsame; [done|by left|]. intros ->. apply Hni. rewrite map_app. cbn. set_solver.
Qed.

Lemma chain_same a a' vs cap top nodes :
  (forall j, j ∈ map fst nodes -> disk_block (eng_view a') j = disk_block (eng_view a) j) ->
  chain a vs cap top nodes -> chain a' vs cap top nodes.
Proof.
  revert top. induction nodes as [|[j vj] nodes IH]; [done|]. cbn. intros top Hsame (-> & p & Hn & Hch).
  split; [done|]. exists p. split; [|apply IH; [|done]; intros k Hk; apply Hsame; by right].
  unfold node_ok. by rewrite Hsame by (by left).
Qed.

Lemma heap_block s U nodes i : heap s U nodes -> i ∈ map fst nodes ->
  zlen (blk s i) = d_bs (eng_view (m_alloc s)) /\ d_bs (eng_view (m_alloc s)) < 2 ^ 32 /\
  12 + m_value_size s * m_node_capacity s <= zlen (blk s i) /\ i ∈ U ∪ node_set_of nodes.
Proof.
  intros Hh Hi. destruct (al_wf _ _ (h_inv _ _ _ Hh)) as [Hwf Hin]. apply elem_of_nodes in Hi as Hi'.
  pose proof (wf_bs_pos _ Hwf). pose proof (h_cap _ _ _ Hh) as Hc. rewrite (h_capacity _ _ _ Hh) in Hc.
  pose proof (stack_capacity_bound _ _ (h_vs _ _ _ Hh) Hc) as Hb. rewrite <- (h_capacity _ _ _ Hh) in Hb.
  assert (i ∈ U ∪ node_set_of nodes) as Hu by set_solver.
  rewrite (length_disk_block _ i Hwf (Hin i Hu)). split_and!; try done. lia.
Qed.

(** A state that differs in the cache only. *)
Lemma heap_same s U nodes a' :
  heap s U nodes -> al_inv a' (U ∪ node_set_of nodes) ->
  al_step (U ∪ node_set_of nodes) 0 (m_alloc s) a' -> heap (set_alloc a' s) U nodes.
Proof.
  intros [Hi Hd Hn Hch Hv Hc Hcap H1] Hi' (Hg & Hsame & _). split; cbn; try done.
  - eapply chain_same; [|exact Hch]. intros j Hj. apply Hsame. apply elem_of_union_r. by apply elem_of_nodes.
  - rewrite Hcap. unfold d_bs. by rewrite Hg.
Qed.

Lemma node_get_spec {X} s U nodes i (f : bytes -> X) (Q : X -> S -> Prop) :
  heap s U nodes -> i ∈ map fst nodes ->
  (forall a', heap (set_alloc a' s) U nodes -> al_step U 0 (m_alloc s) a' ->
     Q (f (blk s i)) (set_alloc a' s)) ->
  wp (node_get i f) s Q.
Proof.
  intros Hh Hi HQ. destruct (heap_block s U nodes i Hh Hi) as (_ & _ & _ & Hu).
  unfold node_get. wp_step. apply wp_on_alloc.
  eapply wp_mono; [by apply (al_read _ _ i (h_inv _ _ _ Hh))|]. cbn beta. intros b a' (-> & Hi' & Hst). wp_step.
  apply HQ; [by apply heap_same|]. eapply al_step_mono; [|exact Hst]. set_solver.
Qed.

Lemma map_fst_update (pre post : list (Z * list bytes)) i vals vals' :
  map fst (pre ++ (i, vals') :: post) = map fst (pre ++ (i, vals) :: post).
Proof. by rewrite !map_app. Qed.

Lemma head_index_update (pre post : list (Z * list bytes)) i vals vals' :
  head_index (pre ++ (i, vals') :: post) = head_index (pre ++ (i, vals) :: post).
Proof. by destruct pre as [|[j vj] pre]. Qed.

Lemma node_set_spec s U pre i vals post vals' f (Q : unit -> S -> Prop) :
  heap s U (pre ++ (i, vals) :: post) ->
  length (f (blk s i)) = length (blk s i) ->
  block_ok (m_value_size s) (m_node_capacity s) (f (blk s i)) vals' (head_index post) ->
  (forall a', heap (set_alloc a' s) U (pre ++ (i, vals') :: post) ->
     disk_block (eng_view a') i = f (blk s i) -> al_step U 0 (m_alloc s) a' -> Q tt (set_alloc a' s)) ->
  wp (node_set i f) s Q.
Proof.
  intros Hh Hl Hok HQ. assert (i ∈ map fst (pre ++ (i, vals) :: post)) as Hi.
  { rewrite map_app. cbn. set_solver. }
  destruct (heap_block _ _ _ i Hh Hi) as (_ & _ & _ & Hu). unfold node_set. apply wp_on_alloc.
  eapply wp_mono; [by apply (al_update _ _ i f (h_inv _ _ _ Hh))|]. cbn beta. intros [] a' (Hinv' & Hst & Hc).
  pose proof Hst as (Hg & Hsame & _). apply HQ; [|done|].
  - destruct Hh as [Hinv Hd Hn Hch Hv Hcp Hcap H1]. split; cbn; try done.
    + unfold node_set_of in *. by rewrite (map_fst_update pre post i vals).
    + intros j. rewrite (map_fst_update pre post i vals). apply Hd.
    + by rewrite (map_fst_update pre post i vals).
    + rewrite (head_index_update pre post i vals).
      eapply chain_update; [exact Hn| |unfold node_ok; by rewrite Hc|exact Hch].
      intros j Hj Hne. apply Hsame. apply elem_of_nodes in Hj. set_solver.
    + rewrite Hcap. unfold d_bs. by rewrite Hg.
  - eapply al_step_mono; [|exact Hst]. pose proof (h_disj _ _ _ Hh i Hi). set_solver.
Qed.

(** *** The operations of a node *)

Lemma node_in (pre post : list (Z * list bytes)) i vals : i ∈ map fst (pre ++ (i, vals) :: post).
Proof. rewrite map_app. cbn. set_solver. Qed.

Section node.
Context s U (pre : list (Z * list bytes)) (i : Z) (vals : list bytes) (post : list (Z * list bytes)).
Abbreviation nodes := (pre ++ (i, vals) :: post).
Context (Hh : heap s U nodes).

Lemma node_block : block_ok (m_value_size s) (m_node_capacity s) (blk s i) vals (head_index post).
Proof. eapply (chain_lookup (m_alloc s) _ _ (head_index nodes) pre), Hh. Qed.

Lemma full_spec (Q : bool -> S -> Prop) :
  (forall a', heap (set_alloc a' s) U nodes -> al_step U 0 (m_alloc s) a' ->
     Q (zlen vals =? m_node_capacity s) (set_alloc a' s)) -> wp (full i) s Q.
Proof.
  intros HQ. destruct node_block as (_ & _ & _ & Hsz & _). unfold full. do 3 wp_step.
  apply (node_get_spec _ U nodes); [done|apply node_in|]. intros a' Hh' Hst. wp_step. rewrite Hsz. by apply HQ.
Qed.

Lemma stack_node_empty_spec (Q : bool -> S -> Prop) :
  (forall a', heap (set_alloc a' s) U nodes -> al_step U 0 (m_alloc s) a' ->
     Q (zlen vals =? 0) (set_alloc a' s)) -> wp (node_empty i) s Q.
Proof.
  intros HQ. destruct node_block as (_ & _ & _ & Hsz & _). unfold node_empty. wp_step.
  apply (node_get_spec _ U nodes); [done|apply node_in|]. intros a' Hh' Hst. wp_step. rewrite Hsz. by apply HQ.
Qed.

Lemma get_size_spec (Q : Z -> S -> Prop) :
  (forall a', heap (set_alloc a' s) U nodes -> al_step U 0 (m_alloc s) a' ->
     Q (zlen vals) (set_alloc a' s)) -> wp (node_get i get_size) s Q.
Proof.
  intros HQ. destruct node_block as (_ & _ & _ & Hsz & _).
  apply (node_get_spec _ U nodes); [done|apply node_in|]. rewrite Hsz. exact HQ.
Qed.

Lemma get_prev_spec (Q : Z -> S -> Prop) :
  (forall a', heap (set_alloc a' s) U nodes -> al_step U 0 (m_alloc s) a' ->
     Q (head_index post) (set_alloc a' s)) -> wp (node_get i get_prev) s Q.
Proof.
  intros HQ. destruct node_block as (_ & _ & Hp & _).
  apply (node_get_spec _ U nodes); [done|apply node_in|]. rewrite Hp. exact HQ.
Qed.

Lemma read_node_spec (Q : Z -> S -> Prop) :
  (forall a', heap (set_alloc a' s) U nodes -> al_step U 0 (m_alloc s) a' -> Q i (set_alloc a' s)) ->
  wp (read_node i) s Q.
Proof.
  intros HQ. destruct (heap_block _ _ _ i Hh (node_in pre post i vals)) as (_ & _ & _ & Hu).
  unfold read_node, check_capacity. wp_step. apply wp_on_alloc.
  eapply wp_mono; [by apply (al_read _ _ i (h_inv _ _ _ Hh))|]. cbn beta. intros b a' (_ & Hi' & Hst).
  pose proof (heap_same _ _ _ _ Hh Hi' Hst) as Hh'. do 3 wp_step.
  wp_step; [|wp_step; apply HQ; [done|eapply al_step_mono; [|exact Hst]; set_solver]].
  rewrite (h_capacity _ _ _ Hh') at 1. apply Z.eqb_refl.
Qed.

Lemma stack_node_set_size_spec z vals' (Q : unit -> S -> Prop) :
  z = zlen vals' -> zlen vals' <= m_node_capacity s ->
  Forall (fun v => zlen v = m_value_size s) vals' ->
  (forall k v, vals' !! k = Some v -> get_value (m_value_size s) (Z.of_nat k) (blk s i) = v) ->
  (forall a', heap (set_alloc a' s) U (pre ++ (i, vals') :: post) -> al_step U 0 (m_alloc s) a' ->
     Q tt (set_alloc a' s)) ->
  wp (node_set_size i z) s Q.
Proof.
  intros -> Hle Hf Hv HQ. destruct (heap_block _ _ _ i Hh (node_in pre post i vals)) as (Hl & Hb & Hc & _).
  pose proof (h_vs _ _ _ Hh). pose proof (h_cap _ _ _ Hh). destruct node_block as (_ & _ & Hp & _ & _).
  unfold node_set_size. do 3 wp_step. wp_step.
  destruct (stack_put_size_fields (m_value_size s) (zlen vals') (blk s i)) as (Hs1 & Hs2 & Hs3);
    [lia|unfold is_word; nia|lia|].
  apply (node_set_spec _ U pre i vals post vals'); try done.
  - apply stack_length_put_size. lia.
  - split_and!; try done; [congruence|]. intros k v Hk. pose proof (lookup_lt_Some _ _ _ Hk).
    rewrite Hs3 by nia. by apply Hv.
  - intros a' Hh' _ Hst. by apply HQ.
Qed.
End node.

Lemma al_step_trans0 U k a a1 a2 :
  0 <= k -> al_step U 0 a a1 -> al_step U k a1 a2 -> al_step U k a a2.
Proof. intros Hk. apply (al_step_trans U U U 0 k); done || lia. Qed.

Lemma stack_node_push_spec s U pre i vals post v (Q : unit -> S -> Prop) :
  heap s U (pre ++ (i, vals) :: post) -> zlen vals < m_node_capacity s -> zlen v = m_value_size s ->
  (forall a', heap (set_alloc a' s) U (pre ++ (i, vals ++ [v]) :: post) ->
     al_step U 0 (m_alloc s) a' -> Q tt (set_alloc a' s)) ->
  wp (node_push i v) s Q.
Proof.
  intros Hh Hlt Hv HQ. unfold node_push. wp_step. apply (full_spec s U pre i vals post Hh).
  intros a1 Hh1 Hst1. wp_step. wp_step. wp_step.
  apply (get_size_spec _ U pre i vals post Hh1). intros a2 Hh2 Hst2. do 3 wp_step.
  change (set_alloc a2 (set_alloc a1 s)) with (set_alloc a2 s) in *. cbn [m_value_size set_alloc].
  destruct (heap_block _ _ _ i Hh2 (node_in pre post i vals)) as (Hl & Hb & Hc & _). cbn in Hl, Hb, Hc.
  pose proof (h_vs _ _ _ Hh). pose proof (node_block _ _ _ _ _ _ Hh2) as (Hle & Hf & Hp & Hsz & Hvals).
  cbn in Hle, Hf, Hp, Hsz, Hvals.
  destruct (stack_put_value_fields (m_value_size s) (zlen vals) v (disk_block (eng_view a2) i))
    as (Hv1 & Hv2 & Hv3 & Hv4 & Hv5); [done|done|lia|nia|lia|].
  apply (node_set_spec _ U pre i vals post vals); try done.
  { cbn [m_alloc set_alloc m_value_size]. split_and!; try done; [congruence|congruence|]. intros k w Hk.
    rewrite Hv5 by (apply lookup_lt_Some in Hk; lia). by apply Hvals. }
  cbn. intros a3 Hh3 Hb3 Hst3. change (set_alloc a3 (set_alloc a2 s)) with (set_alloc a3 s) in *.
  rewrite wrap_small by (unfold is_word; nia).
  apply (stack_node_set_size_spec _ U pre i vals post Hh3 _ (vals ++ [v])); cbn; rewrite ?length_app; cbn; try lia.
  - apply Forall_app. by split; [|constructor].
  - rewrite Hb3. intros k w Hk. apply lookup_snoc_Some in Hk as [[Hk1 Hk2]|[-> ->]]; [|done].
    rewrite Hv5 by lia. by apply Hvals.
  - intros a4 Hh4 Hst4. apply HQ; [done|]. do 3 (eapply al_step_trans0; [done|eassumption|]). done.
Qed.

Lemma stack_node_pop_spec s U pre i vals v post (Q : unit -> S -> Prop) :
  heap s U (pre ++ (i, vals ++ [v]) :: post) ->
  (forall a', heap (set_alloc a' s) U (pre ++ (i, vals) :: post) ->
     al_step U 0 (m_alloc s) a' -> Q tt (set_alloc a' s)) ->
  wp (node_pop i) s Q.
Proof.
  intros Hh HQ. pose proof (h_vs _ _ _ Hh). unfold node_pop. wp_step.
  apply (stack_node_empty_spec s U pre i _ post Hh). intros a1 Hh1 Hst1. wp_step. rewrite length_app. cbn [length].
  wp_step; [by destruct (Z.eqb_spec (Z.of_nat (length vals + 1)) 0); [lia|]|]. wp_step.
  apply (get_size_spec _ U pre i _ post Hh1). intros a2 Hh2 Hst2.
  change (set_alloc a2 (set_alloc a1 s)) with (set_alloc a2 s) in *.
  destruct (heap_block _ _ _ i Hh2 (node_in pre post i _)) as (Hl & Hb & Hc & _). cbn in Hl, Hb, Hc.
  pose proof (node_block _ _ _ _ _ _ Hh2) as (Hle & Hf & Hp & Hsz & Hvals). cbn in Hle, Hf, Hp, Hsz, Hvals.
  rewrite length_app in *. cbn [length] in *. rewrite wrap_small by (unfold is_word; nia).
  apply (stack_node_set_size_spec _ U pre i _ post Hh2 _ vals); cbn; try lia.
  - by apply Forall_app in Hf as [Hf _].
  - intros k w Hk. apply Hvals. by apply lookup_app_l_Some.
  - intros a3 Hh3 Hst3. apply HQ; [done|]. do 2 (eapply al_step_trans0; [done|eassumption|]). done.
Qed.

Lemma node_top_spec s U pre i vals v post (Q : bytes -> S -> Prop) :
  heap s U (pre ++ (i, vals ++ [v]) :: post) ->
  (forall a', heap (set_alloc a' s) U (pre ++ (i, vals ++ [v]) :: post) ->
     al_step U 0 (m_alloc s) a' -> Q v (set_alloc a' s)) ->
  wp (node_top i) s Q.
Proof.
  intros Hh HQ. pose proof (h_vs _ _ _ Hh). unfold node_top. wp_step.
  apply (stack_node_empty_spec s U pre i _ post Hh). intros a1 Hh1 Hst1. wp_step. rewrite length_app. cbn [length].
  wp_step; [by destruct (Z.eqb_spec (Z.of_nat (length vals + 1)) 0); [lia|]|]. wp_step.
  apply (get_size_spec _ U pre i _ post Hh1). intros a2 Hh2 Hst2. wp_step.
  apply (get_size_spec _ U pre i _ post Hh2). intros a3 Hh3 Hst3. rewrite length_app. cbn [length].
  change (set_alloc a3 (set_alloc a2 (set_alloc a1 s))) with (set_alloc a3 s) in *.
  destruct (heap_block _ _ _ i Hh3 (node_in pre post i _)) as (Hl & Hb & Hc & _). cbn in Hl, Hb, Hc.
  pose proof (node_block _ _ _ _ _ _ Hh3) as (Hle & Hf & Hp & Hsz & Hvals). cbn in Hle, Hf, Hp, Hsz, Hvals.
  rewrite length_app in Hle. cbn [length] in Hle. rewrite wrap_small by (unfold is_word; nia).
  wp_step. wp_step. do 2 wp_step.
  apply (node_get_spec _ U (pre ++ (i, vals ++ [v]) :: post)); [done|apply node_in|]. cbn. intros a4 Hh4 Hst4.
  replace (Z.of_nat (length vals + 1) - 1) with (zlen vals) by lia.
  rewrite (Hvals (length vals) v) by (by apply list_lookup_middle).
  apply HQ; [done|]. do 3 (eapply al_step_trans0; [done|eassumption|]). done.
Qed.

(** *** Allocating and freeing nodes *)

(** The heap does not depend on the counters, the buffer and the top. *)
Lemma heap_members s s' U nodes :
  m_alloc s' = m_alloc s -> m_value_size s' = m_value_size s -> m_node_capacity s' = m_node_capacity s ->
  heap s U nodes -> heap s' U nodes.
Proof. intros Ha Hv Hc [H1 H2 H3 H4 H5 H6 H7 H8]. split; rewrite ?Ha, ?Hv, ?Hc; done. Qed.

Lemma free_node_spec s U i vals post (Q : unit -> S -> Prop) :
  heap s U ((i, vals) :: post) -> 0 < m_nodes s < 2 ^ 64 ->
  (forall a', heap (set_alloc a' s) U post -> al_step U 0 (m_alloc s) a' ->
     Q tt (set_nodes (m_nodes s - 1) (set_alloc a' s))) ->
  wp (free_node i) s Q.
Proof.
  intros Hh Hn HQ. pose proof Hh as [Hinv Hd Hnd Hch Hv Hc Hcap H1]. cbn in Hd, Hnd.
  apply NoDup_cons in Hnd as [Hni Hnd]. unfold free_node. do 3 wp_step. wp_step. wp_step. apply wp_on_alloc.
  eapply wp_mono; [apply (free_spec _ (U ∪ node_set_of ((i, vals) :: post)) i 1 Hinv); try done|].
  { rewrite blocks_1. intros j ->%elem_of_singleton. apply elem_of_union_r, elem_of_nodes. by left. }
  rewrite blocks_1. cbn beta. intros _ a' [Hi' Hst].
  assert ((U ∪ node_set_of ((i, vals) :: post)) ∖ {[i]} = U ∪ node_set_of post) as Heq.
  { assert (i ∉ U) by (apply Hd; by left). assert (i ∉ node_set_of post) by (by rewrite elem_of_nodes).
    apply set_eq. intros j. unfold node_set_of. cbn. fold (node_set_of post). set_solver. }
  rewrite Heq in Hi', Hst. pose proof Hst as (Hg & Hsame & _). wp_step. cbn [m_nodes set_alloc].
  rewrite wrap_small by (unfold is_word; lia). apply HQ; [|eapply al_step_mono; [|exact Hst]; set_solver].
  split; cbn; try done.
  - intros j Hj. apply Hd. by right.
  - destruct Hch as (_ & p & _ & Hch). rewrite (chain_top _ _ _ _ _ Hch) in Hch.
    eapply chain_same; [|exact Hch]. intros j Hj. apply Hsame. apply elem_of_union_r. by apply elem_of_nodes.
  - rewrite Hcap. unfold d_bs. by rewrite Hg.
Qed.

(** The freshly created node. *)
Lemma created_block (bs prev : Z) : is_u64 prev -> 12 <= bs ->
  forall vs cap, 0 <= cap -> block_ok vs cap (put_prev prev (put_header (zeros bs))) [] prev.
Proof.
  intros Hp Hb vs cap Hc. assert (zlen (zeros bs) = bs) as Hz by (apply length_zeros; lia).
  pose proof (stack_length_put_header (zeros bs)) as Hl. premise Hl; [lia|].
  destruct (put_prev_fields prev (put_header (zeros bs))) as [H1 H2]; [done|lia|].
  pose proof (put_header_fields (zeros bs)) as H3. premise H3; [lia|].
  split_and!; [done|constructor|done|by rewrite H2, H3|done].
Qed.

Lemma append_node_spec s U nodes (Q : Z -> S -> Prop) :
  heap s U nodes -> 0 <= m_nodes s < 2 ^ 64 - 1 -> al_room (m_alloc s) 1 ->
  (forall i a', heap (set_alloc a' s) U ((i, []) :: nodes) -> al_step U 1 (m_alloc s) a' ->
     Q i (set_top_node i (set_nodes (m_nodes s + 1) (set_alloc a' s)))) ->
  wp (append_node (head_index nodes)) s Q.
Proof.
  intros Hh Hn Hroom HQ. pose proof Hh as [Hinv Hd Hnd Hch Hv Hc Hcap H1].
  unfold append_node, create_node, check_capacity. do 2 wp_step. apply wp_on_alloc.
  eapply wp_mono; [by apply (allocate_spec _ _ 1 Hinv)|]. cbn beta.
  intros i a1 (Hi1 & Hdis & Hst1). rewrite blocks_1 in *. set (V := U ∪ node_set_of nodes) in *.
  assert (i ∉ V) as HiV by set_solver. wp_step. apply wp_on_alloc. cbn [m_alloc set_alloc].
  eapply wp_mono; [apply (al_overwrite_zero _ _ i Hi1); set_solver|]. cbn beta. intros _ a2 (Hi2 & Hst2 & Hb2).
  pose proof Hst1 as (Hg1 & Hs1 & _). pose proof Hst2 as (Hg2 & Hs2 & _).
  assert (d_bs (eng_view a1) = d_bs (eng_view (m_alloc s))) as Hbs1 by (unfold d_bs; by rewrite Hg1).
  assert (d_bs (eng_view a2) = d_bs (eng_view (m_alloc s))) as Hbs2 by (unfold d_bs; by rewrite Hg2).
  pose proof (stack_capacity_bound (d_bs (eng_view (m_alloc s))) (m_value_size s) Hv) as Hcb. rewrite <- Hcap in Hcb.
  specialize (Hcb Hc). set (bs := d_bs (eng_view (m_alloc s))) in *.
  assert (zlen (zeros bs) = bs) as Hz by (apply length_zeros; lia).
  do 4 wp_step; [cbn; rewrite Hbs2; lia|]. wp_step. unfold node_set at 1. apply wp_on_alloc. cbn [m_alloc set_alloc].
  eapply wp_mono; [apply (al_update _ _ i _ Hi2); [set_solver|]|].
  { rewrite Hb2, Hbs1. apply stack_length_put_header. nia. }
  cbn beta. intros _ a3 (Hi3 & Hst3 & Hb3). rewrite Hb2, Hbs1 in Hb3. pose proof Hst3 as (Hg3 & Hs3 & _).
  do 4 wp_step. unfold node_set. apply wp_on_alloc. cbn [m_alloc set_alloc set_nodes m_nodes].
  eapply wp_mono; [apply (al_update _ _ i _ Hi3); [set_solver|]|].
  { rewrite Hb3. pose proof (stack_length_put_header (zeros bs)) as Hl. premise Hl; [nia|].
    apply length_put_prev. nia. }
  cbn beta. intros _ a4 (Hi4 & Hst4 & Hb4). rewrite Hb3 in Hb4. pose proof Hst4 as (Hg4 & Hs4 & _).
  do 3 wp_step. cbn. rewrite wrap_small by (unfold is_word; lia).
  assert (forall j, j ∈ V -> disk_block (eng_view a4) j = disk_block (eng_view (m_alloc s)) j) as Hsame.
  { intros j Hj. rewrite Hs4, Hs3, Hs2, Hs1; set_solver. }
  apply HQ.
  - split; cbn; try done.
    + replace (U ∪ node_set_of ((i, []) :: nodes)) with (V ∪ {[i]}); [done|].
      unfold V, node_set_of. cbn. set_solver.
    + intros j [->|Hj]%elem_of_cons; [set_solver|by apply Hd].
    + constructor; [|done]. intros Hj%elem_of_nodes. set_solver.
    + split; [done|]. exists (head_index nodes). split.
      * unfold node_ok. rewrite Hb4. apply created_block; [|nia|lia].
        destruct nodes as [|[j vj] nodes]; [cbn [head_index]; unfold is_word, invalid_value, u64_max; lia|]. cbn.
        destruct (al_wf _ _ Hinv) as [Hwf Hin]. eapply in_disk_u64; [exact Hwf|]. apply Hin.
        apply elem_of_union_r, elem_of_nodes. by left.
      * eapply chain_same; [|exact Hch]. intros j Hj. apply Hsame. apply elem_of_union_r. by apply elem_of_nodes.
    + rewrite Hcap. unfold bs, d_bs. congruence.
  - change 1 with (1 + 0). apply (al_step_trans U U U 1 0 _ a1); try done; [by eapply al_step_mono; [|exact Hst1]; set_solver|].
    apply (al_step_trans0 U 0 _ a2); [done|eapply al_step_mono; [|exact Hst2]; set_solver|].
    apply (al_step_trans0 U 0 _ a3); [done|eapply al_step_mono; [|exact Hst3]; set_solver|].
    eapply al_step_mono; [|exact Hst4]. set_solver.
Qed.

(** *** Consequences of the invariant *)

Lemma st_inv_alloc s U nodes a' :
  st_inv s U nodes -> heap (set_alloc a' s) U nodes -> st_inv (set_alloc a' s) U nodes.
Proof. intros [H1 H2 H3 H4 H5 H6] Hh. by split. Qed.

Lemma contents_nil cap nodes : shape cap nodes -> contents nodes = [] -> nodes = [].
Proof.
  destruct nodes as [|[i0 v0] [|[i1 v1] rest]]; [done|..]; unfold contents; cbn.
  - rewrite app_nil_r. intros Hv Hr. apply (f_equal (@rev _)) in Hr. by rewrite rev_involutive in Hr.
  - intros (Hv & _) Hr. apply app_eq_nil in Hr as [_ Hr]. apply app_eq_nil in Hr as [Hr _].
    apply (f_equal (@rev _)) in Hr. by rewrite rev_involutive in Hr.
Qed.

Lemma contents_length a vs cap top nodes :
  chain a vs cap top nodes -> zlen (contents nodes) <= zlen nodes * cap.
Proof.
  revert top. induction nodes as [|[i v] nodes IH]; intros top; [done|]. cbn.
  intros (_ & p & (Hle & _) & Hch). specialize (IH p Hch). unfold contents in *. cbn.
  rewrite length_app, length_rev. lia.
Qed.

Lemma st_bounds s U nodes : st_inv s U nodes ->
  m_size s < 2 ^ 64 - 1 /\ m_nodes s < 2 ^ 64 - 1.
Proof.
  intros [Hh Ht Hs Hn Hb Hshape]. pose proof Hh as [Hinv Hd Hnd Hch Hv Hc Hcap _].
  pose proof (contents_length _ _ _ _ _ Hch) as Hl. pose proof (al_used_bound _ _ Hinv) as Hu.
  assert (node_set_of nodes ⊆ U ∪ node_set_of nodes) as Hsub by set_solver. apply subseteq_size in Hsub.
  unfold node_set_of at 1 in Hsub. rewrite size_list_to_set, length_map in Hsub by done.
  destruct (al_wf _ _ Hinv) as [(Hg & _ & Hmax) _]. pose proof (geometry_pos _ Hg) as (Hbs & _).
  pose proof (stack_capacity_bound (d_bs (eng_view (m_alloc s))) _ Hv) as Hcb. rewrite <- Hcap in Hcb. specialize (Hcb Hc).
  rewrite Hs, Hn. unfold d_bs, invalid_value, u64_max in *.
  assert (zlen nodes * m_node_capacity s <= zlen nodes * g_block_size (d_geo (eng_view (m_alloc s)))) by nia.
  assert (zlen nodes * g_block_size (d_geo (eng_view (m_alloc s))) <=
    d_size (eng_view (m_alloc s)) * g_block_size (d_geo (eng_view (m_alloc s)))) by nia.
  split; nia.
Qed.

Lemma heap_valid s U nodes i : heap s U nodes -> i ∈ map fst nodes -> index_valid i = true.
Proof.
  intros Hh Hi. apply (al_used_valid _ _ i (h_inv _ _ _ Hh)). apply elem_of_union_r. by apply elem_of_nodes.
Qed.

(** [check_buffer_invariants] never fails. *)
Lemma check_spec s U nodes (Q : unit -> S -> Prop) :
  st_inv s U nodes ->
  (forall a', st_inv (set_alloc a' s) U nodes -> al_step U 0 (m_alloc s) a' -> Q tt (set_alloc a' s)) ->
  wp check_buffer_invariants s Q.
Proof.
  intros Hinv HQ. pose proof Hinv as [Hh Ht Hs Hn Hb Hsh].
  assert (Q tt s) as Hid by (replace s with (set_alloc (m_alloc s) s) by (by destruct s);
    apply HQ; [by destruct s|apply al_step_refl]).
  unfold check_buffer_invariants, front, back. do 2 wp_step. rewrite Hs, Hn, Ht, Hb.
  destruct (Z.eqb_spec (zlen (contents nodes)) 0) as [Hz|Hz].
  { rewrite (contents_nil _ nodes Hsh); [|by destruct (contents nodes)]. by wp_step. }
  destruct nodes as [|[i0 v0] [|[i1 v1] rest]]; [done|..]; cbn [buffer head_index length].
  - change (Z.of_nat 1 =? 1) with true. cbn iota. do 3 wp_step. rewrite Hb. cbn [buffer]. do 2 wp_step.
    wp_step. by wp_step.
  - destruct (Z.eqb_spec (Z.of_nat (Datatypes.S (Datatypes.S (length rest)))) 1); [lia|].
    do 2 wp_step. do 3 wp_step. rewrite Hb. cbn [buffer]. wp_step. do 3 wp_step. rewrite Hb. cbn [buffer last]. wp_step.
    do 2 wp_step. wp_step. apply (get_prev_spec s U [] i0 v0 _ Hh). intros a1 Hh1 Hst1. cbn [head_index].
    do 2 wp_step. wp_step. apply (stack_node_empty_spec _ U [(i0, v0)] i1 v1 rest Hh1). intros a2 Hh2 Hst2.
    change (set_alloc a2 (set_alloc a1 s)) with (set_alloc a2 s) in *. destruct Hsh as (Hv1 & _).
    wp_step; [by destruct v1|]. apply HQ; [by apply st_inv_alloc|by eapply al_step_trans0].
Qed.

(** *** The operations of the stack *)

Lemma front_spec s i l (Q : Z -> S -> Prop) : m_buf s = i :: l -> Q i s -> wp front s Q.
Proof. intros Hb HQ. unfold front. do 2 wp_step. rewrite Hb. by wp_step. Qed.
Lemma back_spec s i (Q : Z -> S -> Prop) : last (m_buf s) = Some i -> Q i s -> wp back s Q.
Proof. intros Hb HQ. unfold back. do 2 wp_step. rewrite Hb. by wp_step. Qed.

Definition top_in_back nodes : bool :=
  match nodes with (_, _ :: _) :: _ :: _ => true | _ => false end.

Lemma choose_back_spec s U nodes (Q : bool -> S -> Prop) :
  st_inv s U nodes ->
  (forall a', st_inv (set_alloc a' s) U nodes -> al_step U 0 (m_alloc s) a' ->
     Q (top_in_back nodes) (set_alloc a' s)) ->
  wp choose_back s Q.
Proof.
  intros Hinv HQ. pose proof Hinv as [Hh Ht Hs Hn Hb Hsh].
  assert (Q (top_in_back nodes) s) as Hid by (replace s with (set_alloc (m_alloc s) s) by (by destruct s);
    apply HQ; [by destruct s|apply al_step_refl]).
  unfold choose_back. do 2 wp_step. rewrite Hb.
  destruct nodes as [|[i0 v0] [|[i1 v1] rest]]; cbn [buffer length]; [exact Hid|by destruct v0|].
  change (1 <? Z.of_nat 2) with true. cbn iota. wp_step. apply (back_spec s i0); [by rewrite Hb|].
  wp_step. apply (stack_node_empty_spec _ U [] i0 v0 _ Hh). intros a' Hh' Hst. wp_step.
  replace (negb (zlen v0 =? 0)) with (top_in_back ((i0, v0) :: (i1, v1) :: rest)) by (by destruct v0).
  apply HQ; [by apply st_inv_alloc|done].
Qed.

Lemma contents_cons i vals nodes : contents ((i, vals) :: nodes) = rev vals ++ contents nodes.
Proof. done. Qed.

(** The node with the value on top. *)
Lemma top_node_cases cap nodes v rest :
  shape cap nodes -> contents nodes = v :: rest ->
  (exists i vals post, nodes = (i, vals ++ [v]) :: post /\ rest = contents ((i, vals) :: post) /\
     (post = [] \/ top_in_back nodes = true)) \/
  (exists i0 i vals post, nodes = (i0, []) :: (i, vals ++ [v]) :: post /\
     rest = contents ((i, vals) :: post) /\ top_in_back nodes = false).
Proof.
  intros Hsh Hc. destruct nodes as [|[i0 v0] nodes]; [done|].
  destruct v0 as [|x v0 _] using rev_ind.
  - right. destruct nodes as [|[i1 v1] nodes]; [done|]. destruct Hsh as (Hv1 & _).
    destruct v1 as [|y v1 _] using rev_ind; [done|].
    rewrite !contents_cons, rev_app_distr in Hc. cbn in Hc. injection Hc as -> <-.
    by exists i0, i1, v1, nodes.
  - left. rewrite contents_cons, rev_app_distr in Hc. cbn in Hc. injection Hc as -> <-.
    exists i0, v0, nodes. split_and!; try done. destruct nodes; [by left|right]. by destruct v0.
Qed.

Lemma is_empty_spec s U nodes (Q : bool -> S -> Prop) :
  st_inv s U nodes -> Q (match contents nodes with [] => true | _ => false end) s -> wp is_empty s Q.
Proof. intros Hinv HQ. unfold is_empty. wp_step. rewrite (s_size _ _ _ Hinv). by destruct (contents nodes). Qed.

(** [s'] manages the same kind of values in the same kind of nodes. *)
Definition same_format s s' : Prop :=
  m_value_size s' = m_value_size s /\ m_node_capacity s' = m_node_capacity s.

Lemma top_spec s U nodes v rest :
  st_inv s U nodes -> contents nodes = v :: rest ->
  wp (top true) s (fun r s' => r = v /\ st_inv s' U nodes /\
    al_step U 0 (m_alloc s) (m_alloc s') /\ same_format s s').
Proof.
  intros Hinv Hc. unfold top. wp_step. wp_step. wp_step. apply (is_empty_spec s U nodes); [done|]. rewrite Hc.
  do 3 wp_step. apply (check_spec s U nodes); [done|]. intros a1 Hi1 Hst1. wp_step.
  apply (choose_back_spec _ U nodes); [done|]. intros a2 Hi2 Hst2.
  change (set_alloc a2 (set_alloc a1 s)) with (set_alloc a2 s) in *.
  pose proof (al_step_trans0 _ _ _ _ _ ltac:(done) Hst1 Hst2) as Hst. cbn [m_alloc set_alloc] in Hst.
  pose proof (s_buf _ _ _ Hi2) as Hb. pose proof (s_heap _ _ _ Hi2) as Hh2.
  destruct (top_node_cases _ _ _ _ (s_shape _ _ _ Hi2) Hc) as
    [(i & vals & post & -> & _ & Hpost)|(i0 & i & vals & post & -> & _ & Htb)].
  - assert (forall Q : Z -> S -> Prop, Q i (set_alloc a2 s) ->
      wp (if top_in_back ((i, vals ++ [v]) :: post) then back else front) (set_alloc a2 s) Q) as Hnode.
    { intros Q HQ. destruct post as [|[j vj] post].
      - destruct vals; apply (front_spec _ i []); done.
      - destruct Hpost as [Hp|Hp]; [done|]. rewrite Hp. apply (back_spec _ i); [by rewrite Hb|done]. }
    wp_step. apply Hnode. apply (node_top_spec _ U [] i vals v post); [done|]. intros a3 Hh3 Hst3.
    split_and!; [done|by apply st_inv_alloc|by eapply al_step_trans0|done].
  - rewrite Htb. wp_step. apply (front_spec _ i [i0]); [done|].
    apply (node_top_spec _ U [(i0, [])] i vals v post); [done|]. intros a3 Hh3 Hst3.
    split_and!; [done|by apply st_inv_alloc|by eapply al_step_trans0|done].
Qed.

Lemma top_errors s U : st_inv s U [] ->
  top true s = (s, Err bad_operation) /\ pop s = (s, Err bad_operation).
Proof.
  intros Hinv. pose proof (s_size _ _ _ Hinv) as Hs.
  assert (forall X (m : bool -> M S X), bind is_empty m s = m true s) as He
    by (intros X m; unfold is_empty, bind, gets, ret; by rewrite Hs).
  split; [unfold top|unfold pop; by rewrite He].
  rewrite (bind_ok _ _ s s tt) by done. by rewrite He.
Qed.

(** The anchor and the buffer after a change of the nodes. *)
Lemma st_inv_intro s s' U nodes nodes' a' :
  st_inv s U nodes -> heap (set_alloc a' s) U nodes' ->
  m_alloc s' = a' -> m_value_size s' = m_value_size s -> m_node_capacity s' = m_node_capacity s ->
  m_top s' = head_index nodes' -> m_size s' = zlen (contents nodes') -> m_nodes s' = zlen nodes' ->
  m_buf s' = buffer nodes' -> shape (m_node_capacity s) nodes' ->
  st_inv s' U nodes'.
Proof.
  intros Hinv Hh Ha Hv Hc Ht Hs Hn Hb Hsh. split; try done; [|by rewrite Hc].
  eapply heap_members; [..|exact Hh]; done.
Qed.

(** The invariant without the shape. *)
Definition st_base s U nodes : Prop :=
  heap s U nodes /\ m_top s = head_index nodes /\ m_size s = zlen (contents nodes) /\
  m_nodes s = zlen nodes /\ m_buf s = buffer nodes.

(** The next value goes to the first node if it is the only one or the second
    one is full, else to the second one. *)
Definition ready (cap : Z) nodes : Prop :=
  match nodes with
  | [] => False
  | [(_, v0)] => zlen v0 < cap
  | (_, v0) :: (_, v1) :: rest =>
    v1 <> [] /\ Forall (fun n => n.2 <> []) rest /\
    (v0 = [] /\ zlen v1 < cap \/ zlen v1 = cap /\ zlen v0 < cap)
  end.

Lemma st_inv_base s U nodes : st_inv s U nodes -> st_base s U nodes.
Proof. by intros [? ? ? ? ? ?]. Qed.

Lemma node_length s U nodes pre i vals post :
  heap s U nodes -> nodes = pre ++ (i, vals) :: post -> zlen vals <= m_node_capacity s.
Proof. intros Hh ->. by destruct (node_block _ _ _ _ _ _ Hh) as (Hle & _). Qed.

Lemma shape_ready s U i v0 nodes :
  st_inv s U ((i, v0) :: nodes) -> zlen v0 < m_node_capacity s -> ready (m_node_capacity s) ((i, v0) :: nodes).
Proof.
  intros [Hh _ _ _ _ Hsh] Hlt. destruct nodes as [|[i1 v1] rest]; [done|].
  destruct Hsh as (Hv1 & Hf & Hr). split_and!; [done..|].
  pose proof (node_length _ _ _ [(i, v0)] i1 v1 rest Hh eq_refl).
  destruct (decide (v0 = [])) as [->|Hne]; [|right; split; [by apply Hf|done]].
  destruct (decide (zlen v1 = m_node_capacity s)); [by right|left]. split; [done|lia].
Qed.

Lemma make_room_spec s U nodes :
  st_inv s U nodes -> al_room (m_alloc s) 1 ->
  wp make_room s (fun _ s' => exists nodes', st_base s' U nodes' /\
    ready (m_node_capacity s') nodes' /\ contents nodes' = contents nodes /\
    m_value_size s' = m_value_size s /\ m_node_capacity s' = m_node_capacity s /\
    al_step U 1 (m_alloc s) (m_alloc s')).
Proof.
  intros Hinv Hroom. pose proof (st_bounds _ _ _ Hinv) as [Hbs Hbn].
  pose proof Hinv as [Hh Ht Hs Hn Hb Hsh]. pose proof (h_cap _ _ _ Hh) as Hcap.
  unfold make_room. do 2 wp_step. rewrite Hb. destruct nodes as [|[i0 v0] nodes].
  - cbn [buffer length]. change (Z.of_nat 0 =? 0) with true. cbn iota. wp_step.
    apply (append_node_spec s U []); [done|lia|done|]. intros i a' Hh' Hst. wp_step.
    exists [(i, [])]. unfold st_base. cbn. split_and!; try done.
    + eapply heap_members; [..|exact Hh']; done.
    + by rewrite Hn.
    + by rewrite Hb.
  - assert (zlen (buffer ((i0, v0) :: nodes)) =? 0 = false) as -> by (by destruct nodes as [|[]]).
    assert (last (m_buf s) = Some i0) as Hlast by (rewrite Hb; by destruct nodes as [|[]]).
    wp_step. apply (back_spec s i0); [done|]. wp_step. apply (full_spec s U [] i0 v0 nodes Hh).
    intros a1 Hh1 Hst1. pose proof (st_inv_alloc _ _ _ _ Hinv Hh1) as Hi1.
    pose proof (node_length _ _ _ [] i0 v0 nodes Hh eq_refl) as Hle.
    destruct (Z.eqb_spec (zlen v0) (m_node_capacity s)) as [Hfull|Hnf].
    + wp_step. apply (append_node_spec (set_alloc a1 s) U ((i0, v0) :: nodes)); [done|cbn; lia| |].
      { destruct Hst1 as (_ & _ & Hr). apply Hr; [lia|done]. }
      intros i a' Hh' Hst. do 4 wp_step. cbn [m_buf set_buf set_top_node set_nodes set_alloc].
      assert (exists l, m_buf s ++ [i] = l ++ [i0; i] /\ (length l <= 1)%nat) as (l & Hl & Hll).
      { rewrite Hb. destruct nodes as [|[i1 v1] rest]; [exists []|exists [i1]]; split; cbn; done || lia. }
      assert (forall s', m_alloc s' = a' -> m_value_size s' = m_value_size s ->
        m_node_capacity s' = m_node_capacity s -> m_top s' = i -> m_size s' = m_size s ->
        m_nodes s' = m_nodes s + 1 -> m_buf s' = [i0; i] ->
        exists nodes', st_base s' U nodes' /\ ready (m_node_capacity s') nodes' /\
          contents nodes' = contents ((i0, v0) :: nodes) /\ m_value_size s' = m_value_size s /\
          m_node_capacity s' = m_node_capacity s /\ al_step U 1 (m_alloc s) (m_alloc s')) as Hgoal.
      { intros s' Ha Hv' Hc' Ht' Hs' Hn' Hb'. exists ((i, []) :: (i0, v0) :: nodes).
        rewrite Hc'. unfold st_base. cbn [ready]. split_and!; try done; try congruence.
        - eapply heap_members; [..|exact Hh']; done.
        - by rewrite Hs', Hs.
        - rewrite Hn', Hn. cbn [length]. lia.
        - by destruct v0; [cbn in Hfull; lia|].
        - destruct nodes as [|[i1 v1] rest]; [constructor|]. destruct Hsh as (? & _ & ?). by constructor.
        - right. cbn. lia.
        - rewrite Ha. by eapply al_step_trans0. }
      rewrite Hl, length_app. cbn [length]. destruct l as [|x [|]]; cbn in Hll; [..|lia].
      * cbn [length Nat.add]. change (2 <? Z.of_nat 2) with false. cbn iota. wp_step. by apply Hgoal.
      * cbn [length Nat.add]. change (2 <? Z.of_nat 3) with true. cbn iota. wp_step. by apply Hgoal; cbn; rewrite ?Hl.
    + wp_step. exists ((i0, v0) :: nodes). split_and!; try done.
      * apply (shape_ready _ U _ _ _ Hi1). cbn. lia.
      * apply (al_step_weaken U (U ∪ node_set_of ((i0, v0) :: nodes)) 0); [apply Hh1|lia|done].
Qed.

(** The node that takes the next value. *)
Lemma ready_cases cap nodes : ready cap nodes ->
  (exists i v post, nodes = (i, v) :: post /\ zlen v < cap /\ (post = [] \/
     exists i1 v1 rest, post = (i1, v1) :: rest /\ zlen v1 = cap /\ v1 <> [] /\ Forall (fun n => n.2 <> []) rest)) \/
  (exists i0 i v post, nodes = (i0, []) :: (i, v) :: post /\ zlen v < cap /\ v <> [] /\
     Forall (fun n => n.2 <> []) post).
Proof.
  destruct nodes as [|[i0 v0] [|[i1 v1] rest]]; [done|..]; cbn.
  - intros Hlt. left. exists i0, v0, []. auto.
  - intros (Hne & Hf & [[-> Hlt]|[Hc Hlt]]); [right; by exists i0, i1, v1, rest|].
    left. exists i0, v0, ((i1, v1) :: rest). split_and!; try done. right. by exists i1, v1, rest.
Qed.

Lemma push_ready s U nodes v (Q : unit -> S -> Prop) :
  st_base s U nodes -> ready (m_node_capacity s) nodes -> zlen v = m_value_size s -> m_size s < 2 ^ 64 - 1 ->
  (forall a' nodes', st_inv (set_size (m_size s + 1) (set_alloc a' s)) U nodes' ->
     contents nodes' = v :: contents nodes -> al_step U 0 (m_alloc s) a' ->
     Q tt (set_size (m_size s + 1) (set_alloc a' s))) ->
  wp (let* fr := front in
      let* f := full fr in
      let* node := (if negb f then front else back) in
      node_push node v ;;;
      modify (fun s => set_size (u64 (m_size s + 1)) s)) s Q.
Proof.
  intros (Hh & Ht & Hs & Hn & Hb) Hr Hv Hlt HQ.
  assert (forall a1 pre i vals post, al_step U 0 (m_alloc s) a1 ->
    heap (set_alloc a1 s) U (pre ++ (i, vals) :: post) ->
    nodes = pre ++ (i, vals) :: post -> zlen vals < m_node_capacity s ->
    buffer (pre ++ (i, vals ++ [v]) :: post) = buffer nodes ->
    shape (m_node_capacity s) (pre ++ (i, vals ++ [v]) :: post) ->
    contents (pre ++ (i, vals ++ [v]) :: post) = v :: contents nodes ->
    wp (node_push i v ;;; modify (fun s => set_size (u64 (m_size s + 1)) s)) (set_alloc a1 s) Q) as Hpush.
  { intros a1 pre i vals post Hst1 Hh1 Hnodes Hl Hbuf Hsh Hcon. wp_step.
    apply (stack_node_push_spec _ U pre i vals post); [done..|]. intros a2 Hh2 Hst2. wp_step.
    change (set_alloc a2 (set_alloc a1 s)) with (set_alloc a2 s) in *. cbn [m_size set_alloc].
    rewrite wrap_small by (unfold is_word; lia).
    apply (HQ a2 (pre ++ (i, vals ++ [v]) :: post)); [|done|by eapply al_step_trans0].
    split; try done.
    - eapply heap_members; [..|exact Hh2]; done.
    - cbn. rewrite Ht, Hnodes. symmetry. apply head_index_update.
    - cbn. rewrite Hcon, Hs. cbn [length]. lia.
    - cbn. rewrite Hn, Hnodes, !length_app. done.
    - cbn. by rewrite Hb, Hbuf. }
  destruct (ready_cases _ _ Hr) as [(i & vals & post & -> & Hl & Hpost)|(i0 & i & vals & post & -> & Hl & Hne & Hf)].
  - assert (v :: contents ((i, vals) :: post) = contents ((i, vals ++ [v]) :: post)) as Hcon.
    { rewrite !contents_cons, rev_app_distr. done. }
    destruct Hpost as [->|(i1 & v1 & rest & -> & Hc1 & Hne1 & Hf)].
    + wp_step. apply (front_spec _ i []); [done|]. wp_step. apply (full_spec _ U [] i vals [] Hh).
      intros a1 Hh1 Hst1. destruct (Z.eqb_spec (zlen vals) (m_node_capacity s)); [lia|]. cbn [negb]. wp_step.
      apply (front_spec _ i []); [done|]. apply (Hpush a1 [] i vals []); try done. by destruct vals.
    + wp_step. apply (front_spec _ i1 [i]); [done|]. wp_step. apply (full_spec _ U [(i, vals)] i1 v1 rest Hh).
      intros a1 Hh1 Hst1. rewrite (proj2 (Z.eqb_eq _ _) Hc1). cbn [negb]. wp_step.
      apply (back_spec _ i); [cbn; by rewrite Hb|]. by apply (Hpush a1 [] i vals ((i1, v1) :: rest)).
  - wp_step. apply (front_spec _ i [i0]); [done|]. wp_step. apply (full_spec _ U [(i0, [])] i vals post Hh).
    intros a1 Hh1 Hst1. destruct (Z.eqb_spec (zlen vals) (m_node_capacity s)); [lia|]. cbn [negb]. wp_step.
    apply (front_spec _ i [i0]); [done|]. apply (Hpush a1 [(i0, [])] i vals post); try done.
    + split_and!; [by destruct vals|done|done].
    + cbn [app]. rewrite !contents_cons, rev_app_distr. done.
Qed.

Lemma stack_push_spec s U nodes v :
  st_inv s U nodes -> zlen v = m_value_size s -> al_room (m_alloc s) 1 ->
  wp (push (Some v)) s (fun _ s' => exists nodes', st_inv s' U nodes' /\
    contents nodes' = v :: contents nodes /\ same_format s s' /\ al_step U 1 (m_alloc s) (m_alloc s')).
Proof.
  intros Hinv Hv Hroom. unfold push. wp_step. apply (check_spec s U nodes); [done|]. intros a1 Hi1 Hst1.
  wp_step. eapply wp_mono; [apply (make_room_spec _ U nodes Hi1)|].
  { destruct Hst1 as (_ & _ & Hr). apply Hr; [lia|done]. }
  cbn beta. intros _ s2 (nodes2 & Hb2 & Hr2 & Hc2 & Hv2 & Hcap2 & Hst2).
  apply (push_ready s2 U nodes2); [done..|by rewrite Hv2| |].
  - destruct Hb2 as (_ & _ & -> & _). rewrite Hc2, <- (s_size _ _ _ Hi1). by apply (st_bounds _ _ _ Hi1).
  - intros a3 nodes3 Hi3 Hc3 Hst3. exists nodes3. cbn. split_and!; try done; [congruence|].
    apply (al_step_trans0 U 1 _ a1); [lia|done|].
    change 1 with (1 + 0). by apply (al_step_trans U U U 1 0 _ (m_alloc s2)).
Qed.
(** The state in which the first buffered node [i] has become empty; [pre] is
    the empty node above it, if any. *)
Record drained s U (pre : list (Z * list bytes)) (i : Z) (post : list (Z * list bytes)) : Prop := {
  dr_heap : heap s U (pre ++ (i, []) :: post);
  dr_nodes : m_nodes s = zlen (pre ++ (i, []) :: post) /\ m_nodes s < 2 ^ 64;
  dr_size : m_size s = zlen (contents post);
  dr_top : m_top s = head_index (pre ++ (i, []) :: post);
  dr_buf : m_buf s = i :: map fst pre;
  dr_full : Forall (fun n => n.2 <> []) post;
}.

Lemma drained_alloc s U pre i post a' :
  drained s U pre i post -> heap (set_alloc a' s) U (pre ++ (i, []) :: post) ->
  drained (set_alloc a' s) U pre i post.
Proof. intros [H1 H2 H3 H4 H5 H6] Hh. by split. Qed.

Lemma drop_only_spec s U i post :
  drained s U [] i post ->
  wp (let* prev := node_get i get_prev in
      if index_valid prev then
        let* p := read_node prev in
        modify (fun s => set_buf (p :: m_buf s) s)
      else
        free_node i ;;;
        modify (set_buf []) ;;;
        modify (set_top_node invalid_value)) s
    (fun _ s' => exists nodes', st_inv s' U nodes' /\ contents nodes' = contents post /\
       same_format s s' /\ al_step U 0 (m_alloc s) (m_alloc s')).
Proof.
  intros Hd. pose proof Hd as [Hh [Hn Hnb] Hs Ht Hb Hf]. cbn [app map] in *. wp_step.
  apply (get_prev_spec s U [] i [] post Hh). intros a1 Hh1 Hst1. cbn [app] in Hh1.
  destruct post as [|[j vj] post].
  - cbn [head_index]. change (index_valid invalid_value) with false. cbn iota. wp_step.
    apply (free_node_spec _ U i [] []); [done|cbn [m_nodes set_alloc]; rewrite Hn in *; cbn [length] in *; lia|].
    intros a2 Hh2 Hst2. do 2 wp_step. wp_step. exists []. split_and!; try done; [|by eapply al_step_trans0].
    split; try done.
    + eapply heap_members; [..|exact Hh2]; done.
    + cbn. rewrite Hn. cbn. lia.
  - cbn [head_index]. rewrite (heap_valid _ U _ j Hh) by (cbn; set_solver). wp_step.
    apply (read_node_spec _ U [(i, [])] j vj post Hh1). intros a2 Hh2 Hst2. wp_step.
    exists ((i, []) :: (j, vj) :: post). split_and!; try done; [|by eapply al_step_trans0].
    apply Forall_cons in Hf as [Hj Hf]. split; try done.
    + eapply heap_members; [..|exact Hh2]; done.
    + cbn. by rewrite Hb.
Qed.

Lemma drop_first_spec s U pre i post :
  drained s U pre i post -> pre = [] \/ (exists i0, pre = [(i0, [])]) ->
  wp (drop_first i) s (fun _ s' => exists nodes', st_inv s' U nodes' /\ contents nodes' = contents post /\
    same_format s s' /\ al_step U 0 (m_alloc s) (m_alloc s')).
Proof.
  intros Hd Hpre. pose proof Hd as [Hh [Hn Hnb] Hs Ht Hb Hf]. unfold drop_first. do 2 wp_step. rewrite Hb.
  destruct Hpre as [->|(i0 & ->)]; cbn [map fst length].
  - change (1 <? Z.of_nat 1) with false. cbn iota. do 2 wp_step. by apply drop_only_spec.
  - change (1 <? Z.of_nat 2) with true. cbn iota. do 2 wp_step. apply (back_spec _ i0); [by rewrite Hb|].
    wp_step. apply (free_node_spec s U i0 [] ((i, []) :: post)); [done|rewrite Hn in *; cbn [length app] in *; lia|].
    intros a1 Hh1 Hst1. do 3 wp_step. cbn [m_buf set_nodes set_alloc]. rewrite Hb. cbn [length take Nat.sub map fst].
    eapply wp_mono; [apply (drop_only_spec _ U i post)|].
    + split; try done.
      * eapply heap_members; [..|exact Hh1]; done.
      * cbn [m_nodes set_top_node set_buf set_nodes set_alloc]. rewrite Hn in *. cbn [length app] in *. lia.
    + cbn beta. intros _ s' (nodes' & Hi' & Hc' & Hfm & Hst'). exists nodes'. split_and!; try done.
      by eapply al_step_trans0.
Qed.
(** The first buffered node when the topmost one has no value to pop. *)
Lemma pop_front_spec s U nodes pre i vals v post :
  st_inv s U nodes -> nodes = pre ++ (i, vals ++ [v]) :: post ->
  pre = [] /\ post = [] \/ (exists i0, pre = [(i0, [])]) ->
  wp (let* first := front in
      let* e := node_empty first in
      assert! (negb e) ;;;
      node_pop first ;;;
      modify (fun s => set_size (u64 (m_size s - 1)) s) ;;;
      let* e := node_empty first in
      if e : bool then drop_first first else ret tt) s
    (fun _ s' => exists nodes', st_inv s' U nodes' /\ contents nodes' = contents ((i, vals) :: post) /\
       same_format s s' /\ al_step U 0 (m_alloc s) (m_alloc s')).
Proof.
  intros Hinv -> Hpre. pose proof Hinv as [Hh Ht Hs Hn Hb Hsh]. pose proof (st_bounds _ _ _ Hinv) as [Hbs Hbn].
  assert (contents (pre ++ (i, vals ++ [v]) :: post) = v :: contents ((i, vals) :: post)) as Hc.
  { destruct Hpre as [[-> ->]|[i0 ->]]; cbn [app]; rewrite !contents_cons, rev_app_distr; done. }
  rewrite Hc in Hs. cbn [length] in Hs.
  assert (m_buf s = i :: map fst pre) as Hbuf by (rewrite Hb; by destruct Hpre as [[-> ->]|[i0 ->]]).
  assert (Forall (fun n => n.2 <> []) post) as Hf.
  { destruct Hpre as [[-> ->]|[i0 ->]]; [constructor|by destruct Hsh as (_ & _ & ?)]. }
  wp_step. apply (front_spec _ i (map fst pre)); [done|]. wp_step.
  apply (stack_node_empty_spec s U pre i _ post Hh). intros a1 Hh1 Hst1. rewrite length_app. cbn [length].
  wp_step. wp_step; [by destruct (Z.eqb_spec (Z.of_nat (length vals + 1)) 0); [lia|]|]. wp_step.
  apply (stack_node_pop_spec _ U pre i vals v post); [done|]. intros a2 Hh2 Hst2. do 3 wp_step.
  change (set_alloc a2 (set_alloc a1 s)) with (set_alloc a2 s) in *. cbn [m_size set_alloc].
  rewrite wrap_small by (unfold is_word; lia).
  assert (heap (set_size (m_size s - 1) (set_alloc a2 s)) U (pre ++ (i, vals) :: post)) as Hh2'
    by (eapply heap_members; [..|exact Hh2]; done).
  apply (stack_node_empty_spec _ U pre i vals post Hh2'). intros a3 Hh3 Hst3. cbn [m_alloc set_alloc set_size] in Hst3.
  set (s3 := set_alloc a3 (set_size (m_size s - 1) (set_alloc a2 s))) in *.
  assert (al_step U 0 (m_alloc s) (m_alloc s3)) as Hst
    by (do 2 (eapply al_step_trans0; [done|eassumption|]); done).
  destruct (Z.eqb_spec (zlen vals) 0) as [Hz|Hz].
  - assert (vals = []) as -> by (by destruct vals).
    eapply wp_mono; [apply (drop_first_spec s3 U pre i post)|].
    + split; try done.
      * split; [cbn; rewrite Hn, !length_app; done|cbn; lia].
      * cbn. rewrite Hs. unfold contents. cbn. lia.
      * cbn. rewrite Ht. apply head_index_update.
    + destruct Hpre as [[-> _]|Hpre]; [by left|by right].
    + cbn beta. intros _ s' (nodes' & Hi' & Hc' & Hfm & Hst'). exists nodes'. split_and!; try done.
      by eapply al_step_trans0.
  - wp_step. exists (pre ++ (i, vals) :: post).
    assert (contents (pre ++ (i, vals) :: post) = contents ((i, vals) :: post)) as Hc'
      by (by destruct Hpre as [[-> ->]|[i0 ->]]).
    split_and!; try done. split; try done.
    + cbn. rewrite Ht. apply head_index_update.
    + cbn. rewrite Hs, Hc'. lia.
    + cbn. rewrite Hn, !length_app. done.
    + cbn. rewrite Hb. by destruct Hpre as [[-> ->]|[i0 ->]].
    + cbn [m_node_capacity s3 set_alloc set_size].
      destruct Hpre as [[-> ->]|[i0 ->]]; cbn; [by destruct vals|]. split_and!; [by destruct vals|done|done].
Qed.

Lemma stack_pop_spec s U nodes v rest :
  st_inv s U nodes -> contents nodes = v :: rest ->
  wp pop s (fun _ s' => exists nodes', st_inv s' U nodes' /\ contents nodes' = rest /\
    same_format s s' /\ al_step U 0 (m_alloc s) (m_alloc s')).
Proof.
  intros Hinv Hc. unfold pop. wp_step. apply (is_empty_spec s U nodes); [done|]. rewrite Hc.
  do 3 wp_step. apply (check_spec s U nodes); [done|]. intros a1 Hi1 Hst1. wp_step.
  apply (choose_back_spec _ U nodes); [done|]. intros a2 Hi2 Hst2.
  change (set_alloc a2 (set_alloc a1 s)) with (set_alloc a2 s) in *.
  pose proof (al_step_trans0 _ _ _ _ _ ltac:(done) Hst1 Hst2) as Hst. cbn [m_alloc set_alloc] in Hst.
  pose proof Hi2 as [Hh2 Ht Hs Hn Hb Hsh].
  assert (forall pre i vals post, nodes = pre ++ (i, vals ++ [v]) :: post ->
    pre = [] /\ post = [] \/ (exists i0, pre = [(i0, [])]) -> rest = contents ((i, vals) :: post) ->
    top_in_back nodes = false ->
    wp (if top_in_back nodes then
          let* b := back in node_pop b ;;; modify (fun s => set_size (u64 (m_size s - 1)) s)
        else
        let* first := front in
        let* e := node_empty first in
        assert! (negb e) ;;;
        node_pop first ;;;
        modify (fun s => set_size (u64 (m_size s - 1)) s) ;;;
        let* e := node_empty first in
        if e : bool then drop_first first else ret tt) (set_alloc a2 s)
      (fun _ s' => exists nodes', st_inv s' U nodes' /\ contents nodes' = rest /\
         same_format s s' /\ al_step U 0 (m_alloc s) (m_alloc s'))) as Hfront.
  { intros pre i vals post -> Hpre -> ->. eapply wp_mono; [by apply (pop_front_spec _ U _ pre i vals v post Hi2)|].
    cbn beta. intros _ s' (nodes' & Hi' & Hc' & Hfm & Hst'). exists nodes'. split_and!; try done.
    by eapply al_step_trans0. }
  destruct (top_node_cases _ _ _ _ Hsh Hc) as
    [(i & vals & post & -> & -> & Hpost)|(i0 & i & vals & post & -> & -> & Htb)].
  - destruct post as [|[j vj] post].
    { apply (Hfront [] i vals []); try done; [by left|by destruct vals]. }
    destruct Hpost as [|Hp]; [done|]. rewrite Hp. wp_step. apply (back_spec _ i); [by rewrite Hb|]. wp_step.
    apply (stack_node_pop_spec _ U [] i vals v ((j, vj) :: post)); [done|]. intros a3 Hh3 Hst3. wp_step.
    change (set_alloc a3 (set_alloc a2 s)) with (set_alloc a3 s) in *. cbn [m_size set_alloc].
    pose proof (st_bounds _ _ _ Hi2) as [Hbs _]. cbn [m_size set_alloc] in Hs, Hbs.
    rewrite Hc in Hs. cbn [length] in Hs. rewrite wrap_small by (unfold is_word; lia).
    exists ((i, vals) :: (j, vj) :: post). split_and!; try done; [|by eapply al_step_trans0].
    destruct Hsh as (Hv1 & Hfull & Hf). split; try done.
    + eapply heap_members; [..|exact Hh3]; done.
    + cbn [m_size set_size]. lia.
    + split_and!; try done. intros _. apply Hfull. by destruct vals.
  - apply (Hfront [(i0, [])] i vals post); try done. right. by exists i0.
Qed.
(** *** Clearing, validating and reopening *)

Lemma reset_loop_spec nodes s U fuel :
  heap s U nodes -> m_nodes s = zlen nodes -> zlen nodes < 2 ^ 64 -> (length nodes < fuel)%nat ->
  wp (reset_loop fuel (head_index nodes)) s (fun _ s' =>
    heap s' U [] /\ same_format s s' /\ al_step U 0 (m_alloc s) (m_alloc s')).
Proof.
  revert s fuel. induction nodes as [|[i vals] nodes IH]; intros s [|fuel] Hh Hn Hb Hf; try (cbn in Hf; lia).
  { cbn [head_index reset_loop]. change (index_valid invalid_value) with false. cbn [negb]. wp_step.
    split_and!; [done|done|apply al_step_refl]. }
  cbn [head_index reset_loop]. rewrite (heap_valid _ U _ i Hh) by (cbn; set_solver). cbn [negb]. wp_step.
  apply (read_node_spec s U [] i vals nodes Hh). intros a1 Hh1 Hst1. wp_step.
  apply (get_prev_spec _ U [] i vals nodes Hh1). intros a2 Hh2 Hst2. wp_step.
  change (set_alloc a2 (set_alloc a1 s)) with (set_alloc a2 s) in *. cbn [length] in Hn, Hb, Hf.
  apply (free_node_spec _ U i vals nodes); [done|cbn [m_nodes set_alloc]; lia|]. intros a3 Hh3 Hst3.
  change (set_alloc a3 (set_alloc a2 s)) with (set_alloc a3 s) in *. cbn [m_nodes set_alloc].
  eapply wp_mono; [apply IH|]; [|cbn; lia..|].
  - eapply heap_members; [..|exact Hh3]; done.
  - cbn beta. intros _ s' (Hh' & Hfm & Hst'). split_and!; try done.
    do 3 (eapply al_step_trans0; [done|eassumption|]). done.
Qed.

Lemma reset_spec s U nodes :
  st_inv s U nodes ->
  wp reset s (fun _ s' => st_inv s' U [] /\ same_format s s' /\ al_step U 0 (m_alloc s) (m_alloc s')).
Proof.
  intros Hinv. pose proof Hinv as [Hh Ht Hs Hn Hb Hsh]. pose proof (st_bounds _ _ _ Hinv) as [_ Hbn].
  unfold reset. do 4 wp_step. wp_step. rewrite Ht. eapply wp_mono; [apply (reset_loop_spec nodes s U); try done; lia|].
  cbn beta. intros _ s' (Hh' & Hfm & Hst'). do 5 wp_step. wp_step. wp_step. split_and!; try done.
  split; try done. eapply heap_members; [..|exact Hh']; done.
Qed.

Lemma validate_loop_spec nodes pre s U fuel tv tn :
  heap s U (pre ++ nodes) -> m_top s = head_index (pre ++ nodes) -> (length nodes <= fuel)%nat ->
  0 <= tv -> 0 <= tn -> tv + zlen (contents nodes) < 2 ^ 64 -> tn + zlen nodes < 2 ^ 64 ->
  (forall i vals, (i, vals) ∈ nodes -> vals = [] -> i = m_top s) ->
  wp (validate_loop fuel (head_index nodes) tv tn) s (fun r s' =>
    r = (tv + zlen (contents nodes), tn + zlen nodes) /\
    exists a', s' = set_alloc a' s /\ heap s' U (pre ++ nodes) /\ al_step U 0 (m_alloc s) a').
Proof.
  revert pre s fuel tv tn. induction nodes as [|[i vals] nodes IH];
    intros pre s fuel tv tn Hh Ht Hf Htv Htn Hbv Hbn Hempty.
  { replace (validate_loop fuel (head_index []) tv tn) with (ret (tv, tn) : M S _) by (by destruct fuel).
    wp_step. cbn. rewrite !Z.add_0_r. split; [done|]. exists (m_alloc s).
    split_and!; [by destruct s|done|apply al_step_refl]. }
  destruct fuel as [|fuel]; [cbn in Hf; lia|]. cbn [head_index validate_loop].
  rewrite (heap_valid _ U _ i Hh) by apply node_in. cbn [negb]. wp_step.
  apply (read_node_spec s U pre i vals nodes Hh). intros a1 Hh1 Hst1. wp_step.
  apply (get_size_spec _ U pre i vals nodes Hh1). intros a2 Hh2 Hst2. do 2 wp_step.
  change (set_alloc a2 (set_alloc a1 s)) with (set_alloc a2 s) in *. cbn [m_node_capacity set_alloc].
  pose proof (node_block _ _ _ _ _ _ Hh2) as (Hle & _). cbn in Hle. wp_step.
  wp_step. do 2 wp_step. cbn [m_top set_alloc]. wp_step. wp_step.
  { destruct (Z.eqb_spec i (m_top s)) as [|Hne]; [done|]. cbn.
    destruct vals; [|done]. destruct Hne. apply (Hempty i []); [by left|done]. }
  wp_step. apply (get_prev_spec _ U pre i vals nodes Hh2). intros a3 Hh3 Hst3.
  change (set_alloc a3 (set_alloc a2 s)) with (set_alloc a3 s) in *.
  rewrite contents_cons, length_app, length_rev in *. cbn [length] in *.
  rewrite !wrap_small by (unfold is_word; lia).
  assert (pre ++ (i, vals) :: nodes = (pre ++ [(i, vals)]) ++ nodes) as Hpre by (by rewrite <- app_assoc).
  eapply wp_mono; [apply (IH (pre ++ [(i, vals)])); rewrite <- ?Hpre; try done; try lia|].
  - intros j vj Hj. apply Hempty. by right.
  - cbn beta. intros r s' (-> & a' & -> & Hh' & Hst'). split; [f_equal; lia|]. exists a'.
    rewrite <- Hpre in Hh'. split_and!; [done|done|]. do 3 (eapply al_step_trans0; [done|eassumption|]). done.
Qed.

Lemma shape_empty cap nodes i vals :
  shape cap nodes -> (i, vals) ∈ nodes -> vals = [] -> i = head_index nodes.
Proof.
  destruct nodes as [|[i0 v0] [|[i1 v1] rest]]; cbn.
  - set_solver.
  - by intros Hv [[= -> ->]|Hin%elem_of_nil]%elem_of_cons ->.
  - intros (Hv1 & _ & Hf) [[= -> ->]|[[= -> ->]|Hin]%elem_of_cons]%elem_of_cons ->; [done..|].
    rewrite Forall_forall in Hf. by destruct (Hf _ Hin).
Qed.

Lemma validate_spec s U nodes :
  st_inv s U nodes ->
  wp validate s (fun _ s' => exists a', s' = set_alloc a' s /\ st_inv s' U nodes /\
    al_step U 0 (m_alloc s) a').
Proof.
  intros Hinv. pose proof Hinv as [Hh Ht Hs Hn Hb Hsh]. pose proof (st_bounds _ _ _ Hinv) as [Hbs Hbn].
  assert (index_valid (m_top s) = negb (m_size s =? 0)) as Hvalid.
  { rewrite Ht, Hs. destruct nodes as [|[i v] nodes]; [done|]. cbn [head_index].
    rewrite (heap_valid _ U _ i Hh) by (cbn; set_solver).
    destruct (contents ((i, v) :: nodes)) eqn:Hc; [|done]. by apply (contents_nil _ _ Hsh) in Hc. }
  unfold validate. do 3 wp_step. rewrite Hvalid. wp_step. wp_step.
  wp_step. wp_step. rewrite Ht.
  eapply wp_mono; [apply (validate_loop_spec nodes [] s U); try done; try lia|].
  - intros i vals Hi Hv. rewrite Ht. by eapply shape_empty.
  - cbn beta. intros r s' (-> & a' & -> & Hh' & Hst). cbn [fst snd]. rewrite Hs, Hn.
    wp_step. wp_step.
    wp_step.
    exists a'. split_and!; [done|by apply st_inv_alloc|done].
Qed.

(** The constructor on the anchor of an existing stack. *)
Definition reopen : M S unit :=
  fun s => make_stack (m_alloc s) (m_size s) (m_nodes s) (m_top s) (m_value_size s).

Lemma reopen_spec s U nodes :
  st_inv s U nodes ->
  wp reopen s (fun _ s' => exists a', s' = set_alloc a' s /\ st_inv s' U nodes /\ al_step U 0 (m_alloc s) a').
Proof.
  intros Hinv. pose proof Hinv as [Hh Ht Hs Hn Hb Hsh]. pose proof (h_cap _ _ _ Hh) as Hc.
  assert (reopen s = (throw_if (m_node_capacity s =? 0) bad_argument ;;; load_buffer) (set_buf [] s)) as Hr.
  { unfold reopen, make_stack. rewrite <- (h_capacity _ _ _ Hh). done. }
  assert (wp (throw_if (m_node_capacity s =? 0) bad_argument ;;; load_buffer) (set_buf [] s)
    (fun _ s' => exists a', s' = set_alloc a' s /\ st_inv s' U nodes /\ al_step U 0 (m_alloc s) a'));
    [|unfold wp in *; by rewrite Hr].
  assert (heap (set_buf [] s) U nodes) as Hh0 by (eapply heap_members; [..|exact Hh]; done).
  assert (forall s' a', s' = set_buf (m_buf s) (set_alloc a' s) -> heap (set_alloc a' s) U nodes ->
    al_step U 0 (m_alloc s) a' ->
    exists a', s' = set_alloc a' s /\ st_inv s' U nodes /\ al_step U 0 (m_alloc s) a') as Hend.
  { intros s' a' -> Hh' Hst. exists a'. split_and!; [done|by apply (st_inv_alloc _ _ _ _ Hinv)|done]. }
  wp_step. wp_step. unfold load_buffer. do 2 wp_step. cbn [m_top set_buf]. rewrite Ht.
  destruct nodes as [|[i v] nodes]; cbn [head_index].
  { change (index_valid invalid_value) with false. cbn iota. wp_step. 
    apply (Hend _ (m_alloc s)); [rewrite Hb; by destruct s|by destruct s|apply al_step_refl]. }
  rewrite (heap_valid _ U _ i Hh) by (cbn; set_solver). wp_step.
  apply (read_node_spec _ U [] i v nodes Hh0). intros a1 Hh1 Hst1. do 3 wp_step.
  assert (heap (set_buf [i] (set_alloc a1 (set_buf [] s))) U ([] ++ (i, v) :: nodes)) as Hh1'
    by (eapply heap_members; [..|exact Hh1]; done).
  apply (get_prev_spec _ U [] i v nodes Hh1'). intros a2 Hh2 Hst2.
  assert (al_step U 0 (m_alloc s) a2) as Hst by (by eapply al_step_trans0).
  destruct nodes as [|[j vj] nodes]; cbn [head_index].
  - change (index_valid invalid_value) with false. cbn iota. wp_step. apply (Hend _ a2); [by rewrite Hb| |done].
    eapply heap_members; [..|exact Hh2]; done.
  - rewrite (heap_valid _ U _ j Hh) by (cbn; set_solver). wp_step.
    apply (read_node_spec _ U [(i, v)] j vj nodes Hh2). intros a3 Hh3 Hst3. wp_step.
    apply (Hend _ a3); [by rewrite Hb| |by eapply al_step_trans0].
    eapply heap_members; [..|exact Hh3]; done.
Qed.

(** *** Sessions *)

Inductive st_op : Type :=
| SPush (value : option bytes)
| SPop
| STop (buffer : bool)
| SClear
| SValidate
| SReopen
| SSize.
Inductive st_out : Type :=
| out_none
| out_value (v : bytes)
| out_size (n : Z).

Definition run_op (o : st_op) : M S st_out :=
  match o with
  | SPush v => push v ;;; ret out_none
  | SPop => pop ;;; ret out_none
  | STop buffer => let* v := top buffer in ret (out_value v)
  | SClear => clear ;;; ret out_none
  | SValidate => validate ;;; ret out_none
  | SReopen => reopen ;;; ret out_none
  | SSize => let* n := gets m_size in ret (out_size n)
  end.
Fixpoint run (ops : list st_op) (s : S) : S * list (result st_out) :=
  match ops with
  | [] => (s, [])
  | o :: ops => let '(s1, r) := run_op o s in let '(s2, rs) := run ops s1 in (s2, r :: rs)
  end.

(** The abstract stack: the list of values, the top first. *)
Definition spec_op (l : list bytes) (o : st_op) : list bytes * result st_out :=
  match o, l with
  | SPush None, _ => (l, Err bad_argument)
  | SPush (Some v), _ => (v :: l, Ok out_none)
  | SPop, [] => (l, Err bad_operation)
  | SPop, _ :: l' => (l', Ok out_none)
  | STop false, _ => (l, Err bad_argument)
  | STop true, [] => (l, Err bad_operation)
  | STop true, v :: _ => (l, Ok (out_value v))
  | SClear, _ => ([], Ok out_none)
  | (SValidate | SReopen), _ => (l, Ok out_none)
  | SSize, _ => (l, Ok (out_size (zlen l)))
  end.
Fixpoint spec_run (ops : list st_op) (l : list bytes) : list bytes * list (result st_out) :=
  match ops with
  | [] => (l, [])
  | o :: ops => let '(l1, r) := spec_op l o in let '(l2, rs) := spec_run ops l1 in (l2, r :: rs)
  end.

(** Pushed values have the size of the stack's values. *)
Definition op_ok (vs : Z) (o : st_op) : Prop :=
  match o with SPush (Some v) => zlen v = vs | _ => True end.

(** [s'] is a stack of the same format with the values [l]. *)
Definition st_post s U l s' : Prop :=
  exists nodes, st_inv s' U nodes /\ contents nodes = l /\ same_format s s' /\
    al_step U 1 (m_alloc s) (m_alloc s').

Lemma st_post_0 s U l s' nodes :
  st_inv s' U nodes -> contents nodes = l -> same_format s s' -> al_step U 0 (m_alloc s) (m_alloc s') ->
  st_post s U l s'.
Proof.
  intros Hi Hc Hfm Hst. exists nodes. split_and!; try done.
  apply (al_step_weaken U _ 0 1 _ _ (h_inv _ _ _ (s_heap _ _ _ Hi))); [lia|done].
Qed.

Lemma run_op_ok {X} (m : M S X) (f : X -> st_out) s U l r :
  wp m s (fun x s' => f x = r /\ st_post s U l s') ->
  exists s', (let* x := m in ret (f x)) s = (s', Ok r) /\ st_post s U l s'.
Proof. intros (s' & x & Hm & <- & Hp)%wp_run. exists s'. split; [|done]. by rewrite (bind_ok _ _ _ _ _ Hm). Qed.

Lemma run_op_err {X} (m : M S X) (f : X -> st_out) s U nodes e :
  st_inv s U nodes -> m s = (s, Err e) ->
  exists s', (let* x := m in ret (f x)) s = (s', Err e) /\ st_post s U (contents nodes) s'.
Proof.
  intros Hi Hm. exists s. split; [by unfold bind; rewrite Hm|].
  by apply (st_post_0 _ _ _ _ nodes); try done; apply al_step_refl.
Qed.

Lemma stack_run_op_spec s U nodes o :
  st_inv s U nodes -> op_ok (m_value_size s) o -> al_room (m_alloc s) 1 ->
  exists s', run_op o s = (s', (spec_op (contents nodes) o).2) /\
    st_post s U (spec_op (contents nodes) o).1 s'.
Proof.
  intros Hinv Hok Hroom.
  assert (forall s' l, (exists nodes', st_inv s' U nodes' /\ contents nodes' = l /\
    same_format s s' /\ al_step U 0 (m_alloc s) (m_alloc s')) -> st_post s U l s') as Hdone.
  { intros s' l (nodes' & Hi & Hc & Hfm & Hst). by eapply st_post_0. }
  destruct o as [[v|]| |[]| | | |]; cbn [run_op spec_op fst snd op_ok] in *.
  - apply (run_op_ok _ (fun _ => out_none)). eapply wp_mono; [by apply (stack_push_spec s U nodes v)|]. done.
  - by apply (run_op_err _ (fun _ => out_none)).
  - destruct (contents nodes) as [|v l] eqn:Hc.
    + rewrite <- Hc. apply (run_op_err _ (fun _ => out_none)); [done|].
      rewrite (contents_nil _ _ (s_shape _ _ _ Hinv) Hc) in Hinv. by destruct (top_errors s U Hinv).
    + apply (run_op_ok _ (fun _ => out_none)). eapply wp_mono; [by apply (stack_pop_spec s U nodes v l)|]. auto.
  - destruct (contents nodes) as [|v l] eqn:Hc.
    + rewrite <- Hc. apply run_op_err; [done|].
      rewrite (contents_nil _ _ (s_shape _ _ _ Hinv) Hc) in Hinv. by destruct (top_errors s U Hinv).
    + apply run_op_ok. eapply wp_mono; [by apply (top_spec s U nodes v l)|]. cbn beta.
      intros r s' (-> & Hi & Hst & Hfm). split; [done|]. apply Hdone. by exists nodes.
  - by apply run_op_err.
  - apply (run_op_ok _ (fun _ => out_none)). eapply wp_mono; [by apply (reset_spec s U nodes)|]. cbn beta.
    intros _ s' (Hi & Hfm & Hst). split; [done|]. apply Hdone. by exists [].
  - apply (run_op_ok _ (fun _ => out_none)). eapply wp_mono; [by apply (validate_spec s U nodes)|]. cbn beta.
    intros _ s' (a' & -> & Hi & Hst). split; [done|]. apply Hdone. by exists nodes.
  - apply (run_op_ok _ (fun _ => out_none)). eapply wp_mono; [by apply (reopen_spec s U nodes)|]. cbn beta.
    intros _ s' (a' & -> & Hi & Hst). split; [done|]. apply Hdone. by exists nodes.
  - apply (run_op_ok (gets m_size) out_size). wp_step. rewrite (s_size _ _ _ Hinv). split; [done|].
    apply Hdone. exists nodes. split_and!; done.
Qed.

Lemma stack_run_spec ops : forall s U nodes,
  st_inv s U nodes -> Forall (op_ok (m_value_size s)) ops -> al_room (m_alloc s) (zlen ops) ->
  (run ops s).2 = (spec_run ops (contents nodes)).2 /\
  exists nodes', st_inv (run ops s).1 U nodes' /\ contents nodes' = (spec_run ops (contents nodes)).1 /\
    al_step U (zlen ops) (m_alloc s) (m_alloc (run ops s).1).
Proof.
  induction ops as [|o ops IH]; intros s U nodes Hinv Hok Hroom.
  { split; [done|]. exists nodes. split_and!; done. }
  apply Forall_cons in Hok as [Ho Hok]. cbn [length] in *.
  pose proof (h_inv _ _ _ (s_heap _ _ _ Hinv)) as Hal.
  assert (al_room (m_alloc s) 1) as Hr1 by (apply (al_room_mono _ _ _ 1 Hal) in Hroom; [done|lia]).
  destruct (stack_run_op_spec s U nodes o Hinv Ho Hr1) as (s1 & Hrun & nodes1 & Hi1 & Hc1 & [Hvs Hcap] & Hst1).
  cbn [run spec_run]. rewrite Hrun. destruct (spec_op (contents nodes) o) as [l1 r]. cbn [fst snd] in *. subst l1.
  destruct (IH s1 U nodes1) as (Hrs & nodes' & Hi' & Hc' & Hst'); [done|by rewrite Hvs| |].
  { destruct Hst1 as (_ & _ & Hr). apply Hr; [lia|].
    by replace (1 + zlen ops) with (Z.of_nat (Datatypes.S (length ops))) by lia. }
  destruct (run ops s1) as [s2 rs], (spec_run ops (contents nodes1)) as [l2 rs']. cbn [fst snd] in *. subst rs'.
  split; [done|]. exists nodes'. split_and!; try done.
  replace (Z.of_nat (Datatypes.S (length ops))) with (1 + zlen ops) by lia.
  apply (al_step_trans U U U 1 (zlen ops) _ (m_alloc s1)); done || lia.
Qed.

(** A stack that was just created. *)
Lemma make_stack_inv a U vs s :
  al_inv a U -> al_supports 1 -> 0 < vs -> make_stack a 0 0 invalid_value vs = (s, Ok tt) ->
  st_inv s U [] /\ m_alloc s = a /\ m_value_size s = vs.
Proof.
  intros Hi H1 Hv Hm. set (cap := compute_capacity (d_bs (eng_view a)) vs).
  assert (0 <= cap) as Hge.
  { unfold cap, compute_capacity, header_size. destruct (Z.leb_spec (d_bs (eng_view a)) 12); [done|].
    apply Z.div_pos; lia. }
  assert (cap <> 0) as Hne.
  { intros Hz. revert Hm. unfold make_stack. fold cap. by rewrite Hz. }
  assert (s = RawStack a 0 0 invalid_value vs cap []) as ->.
  { revert Hm. unfold make_stack. fold cap. rewrite (proj2 (Z.eqb_neq cap 0) Hne). by intros [= <-]. }
  split; [|done]. split; try done. split; cbn; try done; [|set_solver|constructor|lia].
  unfold node_set_of. cbn. by rewrite union_empty_r_L.
Qed.

(** C26: A stack observes the abstract stack, a list of values.  For every
    allocator that satisfies the interface, every value size that fits into a
    block and every sequence of [push], [pop], [top], [clear], [validate],
    [size] and of reopening from the anchor, each call returns exactly what
    the list returns: values come back in reverse order, [bad_operation] is
    thrown for an empty stack and [bad_argument] for a null pointer, nothing
    else fails (in particular no assertion, although the topmost node may be
    empty and up to two nodes are buffered), and the blocks of the
    allocator's other clients keep their contents.  The stack uses at most
    one more block per operation. *)
Theorem stack_session a U vs s ops :
  al_inv a U -> al_supports 1 -> 0 < vs -> make_stack a 0 0 invalid_value vs = (s, Ok tt) ->
  Forall (op_ok vs) ops -> al_room a (zlen ops) ->
  (run ops s).2 = (spec_run ops []).2 /\
  m_size (run ops s).1 = zlen (spec_run ops []).1 /\
  exists nodes, st_inv (run ops s).1 U nodes /\ contents nodes = (spec_run ops []).1 /\
    forall i, i ∈ U ->
      disk_block (eng_view (m_alloc (run ops s).1)) i = disk_block (eng_view a) i.
Proof.
  intros Hi H1 Hv Hm Hok Hroom. destruct (make_stack_inv a U vs s Hi H1 Hv Hm) as (Hinv & <- & <-).
  destruct (stack_run_spec ops s U [] Hinv Hok Hroom) as (Hr & nodes & Hi' & Hc & _ & Hsame & _).
  split; [done|]. split; [by rewrite (s_size _ _ _ Hi'), Hc|]. by exists nodes.
Qed.
End stack_spec.

(** Nodes with two values each. *)
Definition sample_value (b : byte) : bytes := replicate 10 b.
Definition sample_ops : list st_op :=
  [STop true; SPush (Some (sample_value x01)); SPush (Some (sample_value x02)); SPush (Some (sample_value x03));
   STop true; SPop; SPush None; SPop; SReopen; STop true; SPush (Some (sample_value x04)); SValidate; SSize;
   SPop; SPop; SPop].
Definition sample_stack : raw_stack (node_allocator memory_engine.memory_engine) :=
  RawStack sample_allocator 0 0 invalid_value 10 2 [].

Lemma stack_session_witness :
  (run sample_ops sample_stack).2 =
    [Err bad_operation; Ok out_none; Ok out_none; Ok out_none; Ok (out_value (sample_value x03)); Ok out_none;
     Err bad_argument; Ok out_none; Ok out_none; Ok (out_value (sample_value x01)); Ok out_none; Ok out_none;
     Ok (out_size 2); Ok out_none; Ok out_none; Err bad_operation] /\
  m_size (run sample_ops sample_stack).1 = 0.
Proof.
  destruct (stack_session sample_allocator ∅ 10 sample_stack sample_ops) as (Hr & Hs & _).
  - apply (make_node_allocator_spec (memory_engine.MemoryEngine (Geometry 32 5 31) [])); [|reflexivity].
    split_and!; [by exists 5|constructor|done].
  - reflexivity.
  - reflexivity.
  - reflexivity.
  - by repeat constructor.
  - reflexivity.
  - rewrite Hr, Hs. split; reflexivity.
Defined.
End raw_stack.
