(* ===== verification/BumpAllocator.v ===== *)
(** * An allocator for arbitrary ranges

    The simplest allocator that satisfies the interface of Allocator.v for
    every size: it appends blocks to the file and never reuses any.  It shows
    that the interface can be implemented and is used to run the containers
    that need ranges of blocks. *)

From Stdlib Require Import Strings.Byte.
From S2P Require Import Prelude MathOps Blocks EngineSpec Allocator.

Record bump (E : Type) : Type := Bump { bump_engine : E }.
Arguments Bump {E}.
Arguments bump_engine {E} _.

Section bump.
Context {E : Type} `{Engine E}.
Abbreviation B := (bump E).

Definition on_bump {X} (m : M E X) : M B X := zoom bump_engine (fun e _ => Bump e) m.

#[export] Instance bump_as_engine : Engine B := {|
  eng_view a := eng_view (bump_engine a);
  eng_inv a := eng_inv (bump_engine a);
  eng_read i := on_bump (eng_read i);
  eng_update i f := on_bump (eng_update i f);
  eng_overwrite i d := on_bump (eng_overwrite i d);
  eng_overwrite_zero i := on_bump (eng_overwrite_zero i);
  eng_grow n := on_bump (eng_grow n)
|}.

Definition bump_allocate (n : Z) : M B Z :=
  let* begin := gets (fun a => d_size (eng_view a)) in
  on_bump (eng_grow n) ;;;
  ret begin.

(** Copies [n] blocks, the last one first. *)
Fixpoint move_blocks (src dst : Z) (n : nat) : M B unit :=
  match n with
  | O => ret tt
  | S n =>
    let* b := on_bump (eng_read (src + Z.of_nat n)) in
    on_bump (eng_overwrite (dst + Z.of_nat n) b) ;;;
    move_blocks src dst n
  end.
Definition bump_reallocate (b n m : Z) : M B Z :=
  let* begin := bump_allocate m in
  move_blocks b begin (Z.to_nat (Z.min n m)) ;;;
  ret begin.

Definition bump_inv (a : B) (U : gset Z) : Prop :=
  eng_inv (bump_engine a) /\ forall i, i ∈ U -> in_disk (eng_view a) i.

Definition bump_room (a : B) (n : Z) : Prop := (d_size (eng_view a) + n) * d_bs (eng_view a) < invalid_value.

#[export] Instance bump_allocator : Allocator B := {|
  do_allocate := bump_allocate;
  do_reallocate := bump_reallocate;
  do_free _ _ := ret tt
|}.
End bump.

Section bump_spec.
Context {E : Type} `{EngineSpec E}.
Abbreviation B := (bump E).
Implicit Types (a : B) (U : gset Z) (e : E).

Lemma wp_on_bump {X} (m : M E X) a Q :
  wp m (bump_engine a) (fun x e => Q x (Bump e)) -> wp (on_bump m) a Q.
Proof. apply (wp_zoom bump_engine (fun e _ => Bump e)). Qed.

Lemma bump_wf a U : bump_inv a U -> wf_disk (eng_view (bump_engine a)).
Proof. intros [Hi _]. by apply spec_wf. Qed.

(** A disk of the same geometry and at least the same size. *)
Lemma bump_step a U V k e' :
  bump_inv a U -> V ⊆ U -> eng_inv e' -> d_geo (eng_view e') = d_geo (eng_view (bump_engine a)) ->
  0 <= k -> d_size (eng_view (bump_engine a)) <= d_size (eng_view e') <= d_size (eng_view (bump_engine a)) + k ->
  (forall i, i ∈ V -> disk_block (eng_view e') i = disk_block (eng_view (bump_engine a)) i) ->
  bump_inv (Bump e') U /\ al_step_with bump_room V k a (Bump e').
Proof.
  intros Ha HV He Hg Hk Hs Hb. pose proof (bump_wf _ _ Ha) as Hwf. pose proof (wf_bs_pos _ Hwf) as Hbs.
  destruct Ha as [_ Hin]. split.
  - split; [done|]. intros i Hi. specialize (Hin i Hi). unfold in_disk in *. cbn in *. lia.
  - split_and!; [done|done|]. intros j Hj. unfold bump_room. cbn. unfold d_bs in *. rewrite Hg. nia.
Qed.

Lemma bump_write a U i b e' :
  bump_inv a U -> i ∈ U -> eng_inv e' -> eng_view e' = disk_set i b (eng_view (bump_engine a)) ->
  bump_inv (Bump e') U /\ al_step_with bump_room (U ∖ {[i]}) 0 a (Bump e') /\ disk_block (eng_view (Bump e')) i = b.
Proof.
  intros Ha Hi He Hv. pose proof Ha as [_ Hin]. specialize (Hin i Hi) as Hii.
  destruct (bump_step a U (U ∖ {[i]}) 0 e') as [H1 H2]; try done.
  - set_solver.
  - by rewrite Hv.
  - rewrite Hv, disk_set_size. lia.
  - intros j Hj. rewrite Hv. assert (j ∈ U /\ j <> i) as [Hj1 Hj2] by set_solver.
    apply disk_set_block_ne; [by apply (Hin i)|by apply (Hin j)|done].
  - split_and!; try done. cbn. rewrite Hv. by apply disk_set_block_eq.
Qed.

Lemma bump_allocate_spec a U n :
  bump_inv a U -> 0 < n -> bump_room a n ->
  wp (bump_allocate n) a (fun b a' =>
    bump_inv a' (U ∪ blocks b n) /\ blocks b n ## U /\ al_step_with bump_room U n a a' /\
    forall i, in_disk (eng_view a) i -> disk_block (eng_view a') i = disk_block (eng_view a) i).
Proof.
  intros Ha Hn Hroom. pose proof Ha as [Hi Hin]. unfold bump_allocate. do 3 wp_step. apply wp_on_bump.
  eapply wp_mono; [apply (spec_grow _ n Hi); [lia|done]|]. cbn beta. intros _ e' (Hi' & new & Hl & Hv). wp_step.
  assert (d_size (eng_view e') = d_size (eng_view (bump_engine a)) + n) as Hs.
  { rewrite Hv. unfold d_size, disk_append. cbn. rewrite length_app. lia. }
  assert (forall i, in_disk (eng_view a) i -> disk_block (eng_view e') i = disk_block (eng_view a) i) as Hold.
  { intros i Hi0. rewrite Hv. unfold disk_block, disk_append, in_disk, d_size in *. cbn in *.
    rewrite !list_lookup_total_alt, lookup_app_l by lia. done. }
  destruct (bump_step a U U n e') as [H1 H2]; try done; [by rewrite Hv|lia..|intros i Hi0; by apply Hold, Hin|].
  split_and!; try done.
  - split; [done|]. intros i [Hi0|Hi0]%elem_of_union; [by apply H1|]. apply elem_of_blocks in Hi0.
    unfold in_disk. cbn in *. rewrite Hs. unfold d_size in *. lia.
  - intros i Hi0%elem_of_blocks Hu%Hin. unfold in_disk in Hu. cbn in *. lia.
Qed.

(** The contents of the source range when the target range is disjoint. *)
Lemma move_blocks_spec (n : nat) : forall a U src dst,
  bump_inv a U -> blocks src (Z.of_nat n) ⊆ U -> blocks dst (Z.of_nat n) ⊆ U ->
  blocks src (Z.of_nat n) ## blocks dst (Z.of_nat n) ->
  wp (move_blocks src dst n) a (fun _ a' =>
    bump_inv a' U /\ al_step_with bump_room (U ∖ blocks dst (Z.of_nat n)) 0 a a' /\
    forall k, 0 <= k < Z.of_nat n -> disk_block (eng_view a') (dst + k) = disk_block (eng_view a) (src + k)).
Proof.
  induction n as [|n IH]; intros a U src dst Ha Hsrc Hdst Hdis; cbn [move_blocks].
  { wp_step. split_and!; [done|apply al_step_refl|lia]. }
  assert (forall b, blocks b (Z.of_nat n) ⊆ blocks b (Z.of_nat (S n))) as Hsub.
  { intros b i. rewrite !elem_of_blocks. lia. }
  assert (src + Z.of_nat n ∈ U) as Hs by (apply Hsrc, elem_of_blocks; lia).
  assert (dst + Z.of_nat n ∈ blocks dst (Z.of_nat (S n))) as Hd0 by (apply elem_of_blocks; lia).
  assert (dst + Z.of_nat n ∈ U) as Hd by set_solver. pose proof Ha as [Hi Hin].
  pose proof (bump_wf _ _ Ha) as Hwf. wp_step. apply wp_on_bump.
  eapply wp_mono; [by apply (spec_read _ _ Hi), Hin|]. cbn beta. intros b e1 (-> & Hi1 & Hv1).
  assert (in_disk (eng_view e1) (dst + Z.of_nat n)) as Hd1 by (rewrite Hv1; by apply Hin).
  pose proof (length_disk_block _ _ Hwf (Hin _ Hs)) as Hl.
  wp_step. apply wp_on_bump. cbn [bump_engine].
  eapply wp_mono; [apply (spec_overwrite _ _ _ Hi1 Hd1); rewrite Hv1, Hl; lia|]. cbn beta. intros _ e2 (Hi2 & Hv2).
  unfold initialize_data in Hv2. rewrite Hl in Hv2. rewrite Hv1, Z.sub_diag in Hv2.
  change (zeros 0) with (@nil byte) in Hv2. rewrite app_nil_r in Hv2.
  destruct (bump_write a U _ _ e2 Ha Hd Hi2 Hv2) as (Ha2 & Hst2 & Hb2).
  eapply wp_mono; [apply (IH (Bump e2) U src dst Ha2); set_solver|]. cbn beta.
  intros _ a' (Ha' & Hst' & Hc). split_and!; [done| |].
  - change 0 with (0 + 0). apply (al_step_trans _ (U ∖ {[dst + Z.of_nat n]}) (U ∖ blocks dst (Z.of_nat n)) 0 0 _ (Bump e2));
      set_solver || done.
  - intros k Hk. destruct (decide (k = Z.of_nat n)) as [->|Hne].
    + destruct Hst' as (_ & Hsame & _). rewrite Hsame; [done|]. apply elem_of_difference. split; [done|].
      rewrite elem_of_blocks. lia.
    + rewrite Hc by lia. destruct Hst2 as (_ & Hsame & _). apply Hsame.
      assert (src + k ∈ blocks src (Z.of_nat (S n))) as Hk' by (apply elem_of_blocks; lia).
      apply elem_of_difference. split; [by apply Hsrc|]. intros Heq%elem_of_singleton. rewrite Heq in Hk'. by apply (Hdis _ Hk').
Qed.

#[export] Instance bump_allocator_spec : AllocatorSpec B.
Proof.
  refine {| al_inv := bump_inv; al_supports _ := True; al_room := bump_room |}.
  - intros a U n m Ha Hm Hroom. unfold bump_room in *; cbn in *. pose proof (wf_bs_pos _ (bump_wf _ _ Ha)). nia.
  - intros a U Ha. split; [exact (bump_wf a U Ha)|apply Ha].
  - intros a U i Ha Hi. pose proof Ha as [He Hin]. apply wp_on_bump.
    eapply wp_mono; [by apply (spec_read _ _ He), Hin|]. cbn beta. intros b e' (-> & Hi' & Hv).
    destruct (bump_step a U U 0 e') as [H1 H2]; try done; [by rewrite Hv|rewrite Hv; lia|by rewrite Hv].
  - intros a U i f Ha Hi Hl. pose proof Ha as [He Hin]. apply wp_on_bump.
    eapply wp_mono; [by apply (spec_update _ _ _ He), Hl; apply Hin|]. cbn beta. intros _ e' (Hi' & Hv).
    by apply bump_write.
  - intros a U i Ha Hi. pose proof Ha as [He Hin]. apply wp_on_bump.
    eapply wp_mono; [by apply (spec_overwrite_zero _ _ He), Hin|]. cbn beta. intros _ e' (Hi' & Hv).
    by apply bump_write.
  - intros a U n Ha Hn _ Hroom. eapply wp_mono; [exact (bump_allocate_spec a U n Ha Hn Hroom)|]. cbn beta. tauto.
  - intros a U b n m Ha Hn Hm Hne _ _ Hroom Hsub. unfold do_reallocate, bump_allocator, bump_reallocate. wp_step.
    eapply wp_mono; [exact (bump_allocate_spec a U m Ha Hm Hroom)|]. cbn beta. intros b' a1 (Ha1 & Hd1 & Hst1 & Hold). wp_step.
    set (k := Z.min n m).
    assert (blocks b (Z.of_nat (Z.to_nat k)) ⊆ blocks b n) as Hk1 by (intros i; rewrite !elem_of_blocks; lia).
    assert (blocks b' (Z.of_nat (Z.to_nat k)) ⊆ blocks b' m) as Hk2 by (intros i; rewrite !elem_of_blocks; lia).
    eapply wp_mono; [apply (move_blocks_spec _ a1 (U ∪ blocks b' m) b b' Ha1); set_solver|]. cbn beta.
    intros _ a2 (Ha2 & Hst2 & Hc). wp_step. split_and!.
    + destruct Ha2 as [He2 Hin2]. split; [done|]. intros i Hi. apply Hin2. set_solver.
    + set_solver.
    + replace m with (m + 0) by lia.
      apply (al_step_trans _ U ((U ∪ blocks b' m) ∖ blocks b' (Z.of_nat (Z.to_nat k))) m 0 _ a1);
        [set_solver +| |lia|lia|done|done].
      intros i [Hi _]%elem_of_difference. apply elem_of_difference. split; [set_solver + Hi|].
      intros Hb%Hk2. by apply (Hd1 i).
    + intros j Hj. rewrite Hc by lia. apply Hold. apply Ha, Hsub, elem_of_blocks. lia.
  - intros a U b n Ha Hn _ Hsub. unfold do_free, bump_allocator. wp_step. split; [|apply al_step_refl].
    destruct Ha as [He Hin]. split; [done|]. intros i Hi. apply Hin. set_solver.
Defined.
End bump_spec.
