(* ===== verification/Extent.v ===== *)
(** * Extents (include/prequel/container/extent.hpp, src/container/extent.cpp)

    An extent is a range of contiguous blocks that can be resized.  A block
    handle is the index of its block: [read] and [overwrite_zero] return it,
    and [handle_read] and [handle_write] are the functions of the handle with
    the same names (include/prequel/engine.hpp). *)

From Stdlib Require Import Strings.Byte.
From S2P Require Import Prelude MathOps Blocks EngineSpec Allocator.

Module extent.

Record extent (A : Type) : Type := Extent {
  m_alloc : A;
  m_start : Z;
  m_size : Z
}.
Arguments Extent {A}.
Arguments m_alloc {A} _.
Arguments m_start {A} _.
Arguments m_size {A} _.

Section extent_ops.
Context {A : Type} `{Allocator A}.
Abbreviation X := (extent A).

Definition set_alloc (a : A) (x : X) : X := Extent a (m_start x) (m_size x).
Definition on_alloc {T} (m : M A T) : M X T := zoom m_alloc set_alloc m.
Definition block_size (x : X) : Z := d_bs (eng_view (m_alloc x)).

Definition check_range (offset size bs : Z) : bool := (offset <=? bs) && (size <=? bs - offset).
Definition handle_read (h offset size : Z) : M X bytes :=
  let* bs := gets block_size in
  assert! (check_range offset size bs) ;;;
  let* b := on_alloc (eng_read h) in
  ret (slice offset size b).
Definition handle_write (h offset : Z) (data : bytes) : M X unit :=
  let* bs := gets block_size in
  assert! (check_range offset (zlen data) bs) ;;;
  on_alloc (eng_update h (splice offset data)).

Definition check_index (index : Z) : M X unit :=
  let* size := gets m_size in
  throw_if (size <=? index) bad_argument.
Definition get (index : Z) : M X Z :=
  check_index index ;;;
  let* data := gets m_start in
  lift_result (index_add data index).
Definition read (index : Z) : M X Z :=
  let* i := get index in
  let* _ := on_alloc (eng_read i) in
  ret i.
Definition overwrite_zero (index : Z) : M X Z :=
  let* i := get index in
  on_alloc (eng_overwrite_zero i) ;;;
  ret i.
Definition overwrite (index : Z) (data : bytes) : M X Z :=
  let* i := get index in
  on_alloc (eng_overwrite i data) ;;;
  ret i.

Definition clear : M X unit :=
  let* x := Prelude.get in
  if m_size x =? 0 then ret tt else
  on_alloc (free (m_start x) (m_size x)) ;;;
  modify (fun x => Extent (m_alloc x) invalid_value (m_size x)) ;;;
  modify (fun x => Extent (m_alloc x) (m_start x) 0).

Definition resize (new_size : Z) : M X unit :=
  let* x := Prelude.get in
  if new_size =? m_size x then ret tt else
  let* new_data := on_alloc (reallocate (m_start x) (m_size x) new_size) in
  modify (fun x => Extent (m_alloc x) new_data (m_size x)) ;;;
  modify (fun x => Extent (m_alloc x) (m_start x) new_size).
End extent_ops.

(** ** Specification *)

Section extent_spec.
Context {A : Type} `{AllocatorSpec A}.
Abbreviation X := (extent A).
Implicit Types (x : X) (U : gset Z) (n k : Z).

(** The blocks of the extent belong to it alone. *)
Record inv x U : Prop := {
  x_alloc : al_inv (m_alloc x) (U ∪ range_blocks (m_start x) (m_size x));
  x_disj : range_blocks (m_start x) (m_size x) ## U;
  x_start : index_valid (m_start x) = negb (m_size x =? 0);
  x_size : 0 <= m_size x
}.

(** The block at position [k]. *)
Definition block x k : bytes := disk_block (eng_view (m_alloc x)) (m_start x + k).

Lemma wp_on_extent_alloc {T} (m : M A T) x Q :
  wp m (m_alloc x) (fun t a => Q t (set_alloc a x)) -> wp (on_alloc m) x Q.
Proof. apply wp_zoom. Qed.

Lemma block_used x U k : inv x U -> 0 <= k < m_size x ->
  m_start x + k ∈ U ∪ range_blocks (m_start x) (m_size x) /\ m_start x + k ∉ U.
Proof.
  intros [Ha Hd Hs _] Hk.
  assert (m_start x + k ∈ range_blocks (m_start x) (m_size x)) as Hin.
  { unfold range_blocks. rewrite Hs. destruct (Z.eqb_spec (m_size x) 0); [lia|]. apply elem_of_blocks. lia. }
  set_solver.
Qed.

Lemma get_spec x U k (Q : Z -> X -> Prop) :
  inv x U -> 0 <= k < m_size x -> Q (m_start x + k) x -> wp (get k) x Q.
Proof.
  intros Hi Hk HQ. destruct (block_used x U k Hi Hk) as [Hin _]. pose proof Hi as [Ha _ Hs _].
  destruct (al_wf _ _ Ha) as [Hwf Hdisk]. specialize (Hdisk _ Hin). unfold in_disk in Hdisk.
  pose proof (wf_bs_pos _ Hwf). destruct Hwf as (_ & _ & Hmax). unfold invalid_value, u64_max in Hmax.
  assert (d_size (eng_view (m_alloc x)) <= d_size (eng_view (m_alloc x)) * d_bs (eng_view (m_alloc x))) by nia.
  unfold get, check_index. do 3 wp_step. wp_step. do 2 wp_step.
  unfold index_add. rewrite Hs. destruct (Z.eqb_spec (m_size x) 0); [lia|]. cbn [negb].
  rewrite wrap_small by (unfold is_word; lia). by wp_step.
Qed.

Lemma get_error x k : m_size x <= k -> get k x = (x, Err bad_argument).
Proof.
  intros Hk. unfold get, check_index, bind, gets, throw_if. cbn.
  destruct (Z.leb_spec (m_size x) k); [done|lia].
Qed.

(** A state with other contents in the blocks [changed]. *)
Definition updated x U (changed : Z -> Prop) x' : Prop :=
  exists a', x' = set_alloc a' x /\ inv x' U /\ al_step U 0 (m_alloc x) a' /\
    forall k, 0 <= k < m_size x -> ~ changed k -> block x' k = block x k.

Lemma updated_trans x U P P' x1 x2 :
  updated x U P x1 -> updated x1 U P' x2 -> updated x U (fun k => P k \/ P' k) x2.
Proof.
  intros (a1 & -> & H1 & Hst1 & Hb1) (a2 & -> & H2 & Hst2 & Hb2). exists a2. split_and!; [done|done| |].
  - change 0 with (0 + 0). by apply (al_step_trans U U U 0 0 _ a1).
  - intros k Hk Hn. cbn in Hb2. rewrite Hb2, Hb1; [done|done|tauto|done|tauto].
Qed.

Lemma updated_weaken x U P (P' : Z -> Prop) x' :
  updated x U P x' -> (forall k, P k -> P' k) -> updated x U P' x'.
Proof.
  intros (a' & -> & H1 & Hst & Hb) HP. exists a'. split_and!; try done.
  intros k Hk Hn. apply Hb; [done|]. intros ?. by apply Hn, HP.
Qed.

Lemma updated_same x U x' : updated x U (fun _ => False) x' ->
  inv x' U /\ m_start x' = m_start x /\ m_size x' = m_size x /\ block_size x' = block_size x /\
  al_step U 0 (m_alloc x) (m_alloc x') /\ forall k, 0 <= k < m_size x -> block x' k = block x k.
Proof.
  intros (a' & -> & H1 & Hst & Hb). pose proof Hst as (Hg & _). split_and!; try done; [|auto].
  unfold block_size, d_bs. cbn. by rewrite Hg.
Qed.

Lemma read_block_update x U i k :
  inv x U -> i = m_start x + k -> 0 <= k < m_size x ->
  wp (on_alloc (eng_read i)) x (fun b x' => b = block x k /\ updated x U (fun _ => False) x').
Proof.
  intros Hi -> Hk. destruct (block_used x U k Hi Hk) as [Hin _]. pose proof Hi as [Ha Hd Hs Hz].
  apply wp_on_extent_alloc. eapply wp_mono; [by apply (al_read _ _ _ Ha)|]. cbn beta. intros b a' (-> & Ha' & Hst).
  split; [done|]. exists a'. split_and!; [done|by split| |].
  - eapply al_step_mono; [|exact Hst]. set_solver.
  - intros j Hj _. destruct Hst as (_ & Hsame & _). apply Hsame. by apply (block_used x U j Hi Hj).
Qed.

Lemma extent_read_spec x U k :
  inv x U -> 0 <= k < m_size x ->
  wp (read k) x (fun i x' => i = m_start x + k /\ updated x U (fun _ => False) x').
Proof.
  intros Hi Hk. unfold read. wp_step. apply (get_spec x U); [done..|]. wp_step.
  eapply wp_mono; [by apply (read_block_update x U _ k)|]. cbn beta. intros b x' [_ Hu]. by wp_step.
Qed.

(** A change of the block at [k]. *)
Lemma extent_write_block x U k b' a' :
  inv x U -> 0 <= k < m_size x ->
  al_inv a' (U ∪ range_blocks (m_start x) (m_size x)) ->
  al_step ((U ∪ range_blocks (m_start x) (m_size x)) ∖ {[m_start x + k]}) 0 (m_alloc x) a' ->
  disk_block (eng_view a') (m_start x + k) = b' ->
  updated x U (fun j => j = k) (set_alloc a' x) /\ block (set_alloc a' x) k = b'.
Proof.
  intros Hi Hk Ha' Hst Hb. destruct (block_used x U k Hi Hk) as [_ Hnu]. pose proof Hi as [Ha Hd Hs Hz].
  split; [|done]. exists a'. split_and!; [done|by split| |].
  - eapply al_step_mono; [|exact Hst]. set_solver.
  - intros j Hj Hne. destruct Hst as (_ & Hsame & _). apply Hsame.
    pose proof (block_used x U j Hi Hj) as [Hin _]. apply elem_of_difference. split; [done|].
    rewrite elem_of_singleton. cbn in *. lia.
Qed.

Lemma overwrite_zero_spec x U k :
  inv x U -> 0 <= k < m_size x ->
  wp (overwrite_zero k) x (fun i x' => i = m_start x + k /\ updated x U (fun j => j = k) x' /\
    block x' k = zeros (block_size x)).
Proof.
  intros Hi Hk. destruct (block_used x U k Hi Hk) as [Hin _]. pose proof Hi as [Ha _ _ _].
  unfold overwrite_zero. wp_step. apply (get_spec x U); [done..|]. wp_step. apply wp_on_extent_alloc.
  eapply wp_mono; [by apply (al_overwrite_zero _ _ _ Ha)|]. cbn beta. intros _ a' (Ha' & Hst & Hb). wp_step.
  split; [done|]. by apply (extent_write_block x U k _ a').
Qed.

Lemma block_size_length x U k : inv x U -> 0 <= k < m_size x -> zlen (block x k) = block_size x.
Proof.
  intros Hi Hk. destruct (block_used x U k Hi Hk) as [Hin _].
  destruct (al_wf _ _ (x_alloc _ _ Hi)) as [Hwf Hdisk]. apply (length_disk_block _ _ Hwf (Hdisk _ Hin)).
Qed.

Lemma extent_update_spec x U k f :
  inv x U -> 0 <= k < m_size x -> length (f (block x k)) = length (block x k) ->
  wp (on_alloc (eng_update (m_start x + k) f)) x (fun _ x' =>
    updated x U (fun j => j = k) x' /\ block x' k = f (block x k)).
Proof.
  intros Hi Hk Hl. destruct (block_used x U k Hi Hk) as [Hin _]. pose proof Hi as [Ha _ _ _].
  apply wp_on_extent_alloc. eapply wp_mono; [by apply (al_update _ _ _ _ Ha Hin)|].
  cbn beta. intros _ a' (Ha' & Hst & Hb). by apply (extent_write_block x U k _ a').
Qed.

Lemma handle_write_spec x U k off data :
  inv x U -> 0 <= k < m_size x -> 0 <= off -> off + zlen data <= block_size x ->
  wp (handle_write (m_start x + k) off data) x (fun _ x' =>
    updated x U (fun j => j = k) x' /\ block x' k = splice off data (block x k)).
Proof.
  intros Hi Hk Ho Hl. pose proof (block_size_length x U k Hi Hk) as Hbl.
  unfold handle_write, check_range. do 2 wp_step. wp_step. wp_step.
  apply extent_update_spec; [done..|]. apply length_splice; [lia|]. by rewrite Hbl.
Qed.

Lemma handle_read_spec x U k off n :
  inv x U -> 0 <= k < m_size x -> 0 <= off -> 0 <= n -> off + n <= block_size x ->
  wp (handle_read (m_start x + k) off n) x (fun d x' =>
    d = slice off n (block x k) /\ updated x U (fun _ => False) x').
Proof.
  intros Hi Hk Ho Hn Hl. unfold handle_read, check_range. do 5 wp_step.
  eapply wp_mono; [by apply (read_block_update x U _ k)|]. cbn beta. intros b x' [-> Hu]. by wp_step.
Qed.

(** The allocator supports every size. *)
Context (supports : forall n, 0 < n -> al_supports n).

Lemma resize_spec x U n :
  inv x U -> 0 <= n -> (n <> m_size x -> al_room (m_alloc x) n) ->
  wp (resize n) x (fun _ x' => inv x' U /\ m_size x' = n /\ block_size x' = block_size x /\
    (forall k, 0 <= k < Z.min (m_size x) n -> block x' k = block x k) /\
    al_step U (if n =? m_size x then 0 else n) (m_alloc x) (m_alloc x')).
Proof.
  intros Hi Hn Hroom. pose proof Hi as [Ha Hd Hs Hz]. unfold resize. do 2 wp_step.
  destruct (Z.eqb_spec n (m_size x)) as [->|Hne].
  { wp_step. split_and!; done. }
  wp_step. apply wp_on_extent_alloc. set (R := range_blocks (m_start x) (m_size x)) in *.
  assert ((U ∪ R) ∖ R = U) as HU by set_solver.
  eapply wp_mono; [apply (reallocate_spec _ (U ∪ R) _ _ n Ha)|]; try done.
  - unfold range_ok. rewrite Hs. destruct (Z.eqb_spec (m_size x) 0) as [|Hm0]; [done|]. cbn.
    split_and!; [lia|apply supports; lia|]. unfold R, range_blocks. rewrite Hs. cbn. set_solver.
  - intros Hn0. apply supports. lia.
  - by apply Hroom.
  - rewrite Hs. destruct (Z.eqb_spec (m_size x) 0); [right; lia|by left].
  - cbn beta. intros b' a' (Ha' & Hd' & Hv' & Hge & Hst & Hc). fold R in Ha', Hd', Hst.
    rewrite HU in Ha', Hd', Hst. do 2 wp_step. wp_step. cbn. split_and!; try done.
    + pose proof Hst as (Hg & _). unfold block_size, d_bs. cbn. by rewrite Hg.
Qed.

Lemma clear_spec x U :
  inv x U ->
  wp clear x (fun _ x' => inv x' U /\ m_size x' = 0 /\ block_size x' = block_size x /\
    al_step U 0 (m_alloc x) (m_alloc x')).
Proof.
  intros Hi. pose proof Hi as [Ha Hd Hs Hz]. unfold clear. do 2 wp_step.
  destruct (Z.eqb_spec (m_size x) 0) as [Hz0|Hz0].
  { wp_step. split_and!; done. }
  wp_step. apply wp_on_extent_alloc. unfold range_blocks in *. rewrite Hs in *. cbn [negb] in *.
  eapply wp_mono; [apply (free_spec _ _ _ _ Ha); [lia|apply supports; lia|set_solver]|].
  cbn beta. intros _ a' [Ha' Hst].
  assert ((U ∪ blocks (m_start x) (m_size x)) ∖ blocks (m_start x) (m_size x) = U) as HU by set_solver.
  rewrite HU in Ha', Hst. do 2 wp_step. wp_step. cbn. split_and!; try done.
  - split; cbn; try done. unfold range_blocks. change (index_valid invalid_value) with false.
    by rewrite union_empty_r_L. 
  - pose proof Hst as (Hg & _). unfold block_size, d_bs. cbn. by rewrite Hg.
Qed.
End extent_spec.
End extent.
