(* ===== verification/Array.v ===== *)
(** * Arrays (include/prequel/container/array.hpp, src/container/array.cpp)

    Values of a fixed size in the blocks of an extent; a value does not span
    two blocks.  [arr] relates the bytes of the extent to a list of values. *)

From Stdlib Require Import Strings.Byte.
From S2P Require Import Prelude MathOps Blocks EngineSpec Allocator BumpAllocator Extent.

Module raw_array.
Import extent.

Inductive growth_strategy : Type :=
| linear_growth (chunk_size : Z)
| exponential_growth.

Definition calc_block_capacity (block_size value_size : Z) : Z := block_size / value_size.
Definition calc_offset_in_block (value_size index : Z) : Z := u32 (value_size * index).

(** [std::visit] of the growth strategy. *)
Definition new_size (g : growth_strategy) (minimum : Z) : result Z :=
  match g with
  | linear_growth chunk =>
    match ceil_div 64 minimum chunk with
    | Ok q => Ok (u64 (q * chunk))
    | Err e => Err e
    end
  | exponential_growth => Ok (round_towards_pow2 64 minimum)
  end.

Record raw_array (A : Type) : Type := RawArray {
  m_extent : extent A;
  a_size : Z;
  m_value_size : Z;
  m_block_capacity : Z;
  m_growth : growth_strategy
}.
Arguments RawArray {A}.
Arguments m_extent {A} _.
Arguments a_size {A} _.
Arguments m_value_size {A} _.
Arguments m_block_capacity {A} _.
Arguments m_growth {A} _.

Section array_ops.
Context {A : Type} `{Allocator A}.
Abbreviation R := (raw_array A).

Definition set_extent (x : extent A) (s : R) : R :=
  RawArray x (a_size s) (m_value_size s) (m_block_capacity s) (m_growth s).
Definition set_size (n : Z) (s : R) : R :=
  RawArray (m_extent s) n (m_value_size s) (m_block_capacity s) (m_growth s).
Definition growth (g : growth_strategy) : M R unit :=
  modify (fun s => RawArray (m_extent s) (a_size s) (m_value_size s) (m_block_capacity s) g).
Definition on_extent {T} (m : M (extent A) T) : M R T := zoom m_extent set_extent m.

(** The constructor; the anchor is [((start, blocks), size)]. *)
Definition make_array (a : A) (start nblocks size value_size : Z) : result R :=
  let cap := calc_block_capacity (d_bs (eng_view a)) value_size in
  if cap =? 0 then Err bad_argument
  else Ok (RawArray (Extent a start nblocks) size value_size cap exponential_growth).

Definition nblocks (s : R) : Z := extent.m_size (m_extent s).
Definition capacity (s : R) : Z := u64 (nblocks s * m_block_capacity s).
Definition block_index (s : R) (index : Z) : Z := index / m_block_capacity s.
Definition block_offset (s : R) (index : Z) : Z := index mod m_block_capacity s.
Definition check_array_index (index : Z) : M R unit :=
  let* size := gets a_size in
  throw_if (size <=? index) bad_argument.

Definition resize_extent (minimum : Z) (exact : bool) : M R unit :=
  let* s := Prelude.get in
  let* size := (if exact then ret minimum else lift_result (new_size (m_growth s) minimum)) in
  on_extent (extent.resize size).

Definition get (index : Z) : M R bytes :=
  check_array_index index ;;;
  let* s := Prelude.get in
  let* h := on_extent (extent.read (block_index s index)) in
  on_extent (handle_read h (calc_offset_in_block (m_value_size s) (block_offset s index)) (m_value_size s)).
Definition set (index : Z) (value : bytes) : M R unit :=
  check_array_index index ;;;
  let* s := Prelude.get in
  let* h := on_extent (extent.read (block_index s index)) in
  on_extent (handle_write h (calc_offset_in_block (m_value_size s) (block_offset s index)) value).

Definition reserve (n : Z) : M R unit :=
  let* cap := gets m_block_capacity in
  let* needed_blocks := lift_result (ceil_div 64 n cap) in
  let* b := gets nblocks in
  (if b <? needed_blocks then resize_extent needed_blocks false else ret tt) ;;;
  let* c := gets capacity in
  assert! (n <=? c).
Definition reserve_additional (n : Z) : M R unit :=
  let* size := gets a_size in
  let* total := lift_result (checked_add 64 n size) in
  reserve total.

Definition shrink (exact : bool) : M R unit :=
  let* s := Prelude.get in
  let* needed_blocks := lift_result (ceil_div 64 (a_size s) (m_block_capacity s)) in
  resize_extent needed_blocks exact.

(** [blk_offset == 0 ? create(blk_index) : read(blk_index)] *)
Definition open_block (blk_index blk_offset : Z) : M R Z :=
  if blk_offset =? 0 then on_extent (extent.overwrite_zero blk_index) else on_extent (extent.read blk_index).

Definition push_back (value : bytes) : M R unit :=
  let* s := Prelude.get in
  let sz := a_size s in
  let blk_index := block_index s sz in
  let blk_offset := block_offset s sz in
  (if blk_index =? nblocks s then resize_extent (u64 (nblocks s + 1)) false else ret tt) ;;;
  let* h := open_block blk_index blk_offset in
  on_extent (handle_write h (calc_offset_in_block (m_value_size s) blk_offset) value) ;;;
  modify (set_size (u64 (sz + 1))) ;;;
  let* s := Prelude.get in
  assert! (a_size s <=? capacity s).

Definition pop_back : M R unit :=
  let* sz := gets a_size in
  throw_if (sz =? 0) bad_operation ;;;
  modify (set_size (u64 (sz - 1))).

(** The values written to one block by [resize]; [value] may be null. *)
Fixpoint fill_values (n : nat) (off : Z) (value b : bytes) : bytes :=
  match n with
  | O => b
  | S n => fill_values n (off + zlen value) value (splice off value b)
  end.
Definition fill (value_size off writable : Z) (value : option bytes) (b : bytes) : bytes :=
  match value with
  | Some v => fill_values (Z.to_nat writable) off v b
  | None => splice off (zeros (u32 (writable * value_size))) b
  end.

(** Every iteration writes at least one value: [remaining] bounds their
    number. *)
Fixpoint resize_loop (fuel : nat) (value : option bytes) (remaining blk_index blk_offset : Z) : M R unit :=
  if remaining <=? 0 then ret tt else
  match fuel with
  | O => throw check_failure
  | S fuel =>
    let* s := Prelude.get in
    let* h := open_block blk_index blk_offset in
    let off := calc_offset_in_block (m_value_size s) blk_offset in
    let writable := Z.min remaining (u32 (m_block_capacity s - blk_offset)) in
    on_extent (on_alloc (eng_update h (fill (m_value_size s) off writable value))) ;;;
    resize_loop fuel value (u64 (remaining - writable)) (u64 (blk_index + 1)) 0
  end.
Definition resize (n : Z) (value : option bytes) : M R unit :=
  let* s := Prelude.get in
  let sz := a_size s in
  if n =? sz then ret tt else
  if n <? sz then modify (set_size n) else
  reserve n ;;;
  let remaining := u64 (n - sz) in
  resize_loop (Z.to_nat remaining) value remaining (block_index s sz) (block_offset s sz) ;;;
  modify (set_size n).

Definition clear : M R unit := resize 0 None.
Definition reset : M R unit :=
  on_extent extent.clear ;;;
  modify (set_size 0).
End array_ops.

(** ** Specification *)

Section layout.
Implicit Types (b v : bytes) (vals : list bytes) (vs off : Z).

Lemma fill_values_concat n off v b :
  0 <= off -> off + zlen v * Z.of_nat n <= zlen b ->
  fill_values n off v b = splice off (concat (replicate n v)) b.
Proof.
  revert off b. induction n as [|n IH]; intros off b Ho Hl; cbn [fill_values replicate concat].
  { by rewrite splice_nil. }
  assert (zlen (concat (replicate n v)) = zlen v * Z.of_nat n) as Hc.
  { rewrite (concat_values (zlen v)), length_replicate; [done|by apply Forall_replicate|lia]. }
  pose proof (length_splice off v b) as Hs. premise Hs; [lia|]. premise Hs; [nia|].
  rewrite IH by (rewrite ?Hs; lia). apply splice_splice_adjacent; [lia|]. rewrite Hc. lia.
Qed.

Lemma concat_zeros n vs : 0 <= vs -> concat (replicate n (zeros vs)) = zeros (Z.of_nat n * vs).
Proof.
  intros Hv. induction n as [|n IH]; [done|]. cbn [replicate concat]. rewrite IH.
  rewrite <- zeros_add by lia. f_equal. lia.
Qed.

(** The value that [resize] appends. *)
Definition fill_value vs (value : option bytes) : bytes :=
  match value with Some v => v | None => zeros vs end.

Lemma fill_concat vs off n value b :
  0 < vs -> 0 <= n -> zlen (fill_value vs value) = vs ->
  0 <= off -> off + vs * n <= zlen b -> zlen b < 2 ^ 32 ->
  fill vs off n value b = splice off (concat (replicate (Z.to_nat n) (fill_value vs value))) b.
Proof.
  intros Hv Hn Hl Ho Hle Hb. destruct value as [v|]; cbn [fill fill_value] in *.
  - apply fill_values_concat; [done|]. rewrite Hl. lia.
  - rewrite concat_zeros, Z2Nat.id by lia. by rewrite wrap_small by (unfold is_word; nia).
Qed.

(** The block with [vals] at [off], and the value [i] of them. *)
Lemma slice_splice_values vs off vals b i v :
  0 < vs -> 0 <= off -> Forall (fun v => zlen v = vs) vals -> vs * (off + zlen vals) <= zlen b ->
  vals !! i = Some v -> slice (vs * (off + Z.of_nat i)) vs (splice (vs * off) (concat vals) b) = v.
Proof.
  intros Hv Ho Hf Hl Hi. pose proof (concat_values vs vals Hf ltac:(lia)) as Hc.
  pose proof (lookup_lt_Some _ _ _ Hi). rewrite <- (slice_concat vs vals i v Hf ltac:(lia) Hi).
  rewrite <- (slice_splice_same (vs * off) (vs * zlen vals) (concat vals) b) at 2 by nia.
  rewrite slice_slice by nia. f_equal. lia.
Qed.
End layout.

Section array_spec.
Context {A : Type} `{AllocatorSpec A}.
Abbreviation R := (raw_array A).
Implicit Types (s : R) (x : extent A) (U : gset Z) (l vals : list bytes).

(** The blocks of [x] hold the values [l]. *)
Definition holds x (vs cap : Z) l : Prop :=
  forall j v, l !! j = Some v ->
    slice (vs * (Z.of_nat j mod cap)) vs (block x (Z.of_nat j / cap)) = v.

Record arr s U l : Prop := {
  r_ext : inv (m_extent s) U;
  r_vs : 0 < m_value_size s;
  r_cap : 0 < m_block_capacity s;
  r_capacity : m_block_capacity s = calc_block_capacity (block_size (m_extent s)) (m_value_size s);
  r_fit : zlen l <= nblocks s * m_block_capacity s;
  r_vals : Forall (fun v => zlen v = m_value_size s) l;
  r_holds : holds (m_extent s) (m_value_size s) (m_block_capacity s) l
}.
Definition arr_inv s U l : Prop := arr s U l /\ a_size s = zlen l.

Lemma wp_on_extent {T} (m : M (extent A) T) s Q :
  wp m (m_extent s) (fun t x => Q t (set_extent x s)) -> wp (on_extent m) s Q.
Proof. apply wp_zoom. Qed.

Lemma block_length s U l k : arr s U l -> 0 <= k < nblocks s ->
  zlen (block (m_extent s) k) = block_size (m_extent s) /\ block_size (m_extent s) < 2 ^ 32 /\
  m_value_size s * m_block_capacity s <= block_size (m_extent s).
Proof.
  intros [Hx Hv Hc Hcap _ _ _] Hk. destruct (block_used _ U k Hx Hk) as [Hin _].
  destruct (al_wf _ _ (x_alloc _ _ Hx)) as [Hwf Hdisk]. split_and!.
  - apply (length_disk_block _ _ Hwf (Hdisk _ Hin)).
  - apply (wf_bs_pos _ Hwf).
  - rewrite Hcap. unfold calc_block_capacity. apply Z.mul_div_le. lia.
Qed.

Lemma array_bounds s U l : arr s U l ->
  nblocks s * m_block_capacity s < 2 ^ 64 - 1 /\ 0 <= nblocks s /\ m_block_capacity s < 2 ^ 32.
Proof.
  intros Ha. pose proof Ha as [Hx Hv Hc Hcap Hfit Hvals Hh]. pose proof (x_size _ _ Hx) as Hn.
  pose proof (al_used_bound _ _ (x_alloc _ _ Hx)) as Hu. destruct (al_wf _ _ (x_alloc _ _ Hx)) as [Hwf _].
  pose proof (wf_bs_pos _ Hwf) as Hbs. destruct Hwf as (_ & _ & Hmax). unfold invalid_value, u64_max in Hmax.
  assert (m_value_size s * m_block_capacity s <= block_size (m_extent s)) as Hle.
  { rewrite Hcap. unfold calc_block_capacity. apply Z.mul_div_le. lia. }
  assert (nblocks s <= d_size (eng_view (m_alloc (m_extent s)))) as Hnb.
  { unfold nblocks. destruct (Z.eqb_spec (extent.m_size (m_extent s)) 0) as [->|Hne]; [unfold d_size; lia|].
    assert (blocks (m_start (m_extent s)) (extent.m_size (m_extent s)) ⊆
      U ∪ range_blocks (m_start (m_extent s)) (extent.m_size (m_extent s))) as Hsub.
    { unfold range_blocks. rewrite (x_start _ _ Hx). rewrite (proj2 (Z.eqb_neq _ _) Hne). cbn. set_solver. }
    apply subseteq_size in Hsub. unfold blocks at 1 in Hsub.
    rewrite (size_list_to_set (seqZ _ _)), length_seqZ in Hsub by apply NoDup_seqZ. lia. }
  unfold block_size in *. split_and!; [|done|nia].
  unfold nblocks in *. nia.
Qed.

(** *** Values in blocks *)

Lemma position cap j blk off : 0 < cap -> j = blk * cap + off -> 0 <= off < cap ->
  j / cap = blk /\ j mod cap = off.
Proof.
  intros Hc -> Ho. split.
  - symmetry. apply (Z.div_unique_pos _ _ _ off); lia.
  - symmetry. apply (Z.mod_unique_pos _ _ blk); lia.
Qed.

Lemma positions_differ cap i j : 0 < cap -> i <> j -> i / cap = j / cap -> i mod cap <> j mod cap.
Proof. intros Hc Hne Hd Hm. pose proof (Z.div_mod i cap). pose proof (Z.div_mod j cap). nia. Qed.

Lemma holds_append x x' vs cap l vals blk off b0 :
  0 < vs -> 0 < cap -> 0 <= off < cap -> zlen l = blk * cap + off -> off + zlen vals <= cap ->
  Forall (fun v => zlen v = vs) vals -> vs * cap <= zlen b0 ->
  (off <> 0 -> forall j, 0 <= j < off -> slice (vs * j) vs b0 = slice (vs * j) vs (block x blk)) ->
  block x' blk = splice (vs * off) (concat vals) b0 ->
  (forall k, 0 <= k < blk -> block x' k = block x k) ->
  holds x vs cap l -> holds x' vs cap (l ++ vals).
Proof.
  intros Hv Hc Ho Hl Hn Hf Hb0 Hold Hnew Hsame Hh j v Hj.
  pose proof (concat_values vs vals Hf ltac:(lia)) as Hcl.
  apply lookup_app_Some in Hj as [Hj|[Hge Hj]].
  - pose proof (lookup_lt_Some _ _ _ Hj) as Hlt. specialize (Hh j v Hj).
    pose proof (Z.div_mod (Z.of_nat j) cap ltac:(lia)) as Hd. pose proof (Z.mod_pos_bound (Z.of_nat j) cap Hc) as Hm.
    set (q := Z.of_nat j / cap) in *. set (r := Z.of_nat j mod cap) in *.
    destruct (decide (q = blk)) as [->|Hq].
    + rewrite Hnew, slice_splice_disjoint by nia. rewrite Hold by nia. done.
    + rewrite Hsame by (assert (0 <= q) by (apply Z.div_pos; lia); nia). done.
  - pose proof (lookup_lt_Some _ _ _ Hj) as Hlt.
    destruct (position cap (Z.of_nat j) blk (off + Z.of_nat (j - length l))) as [-> ->]; [lia..|].
    rewrite Hnew. apply slice_splice_values; try done; nia.
Qed.

Lemma holds_set x x' vs cap l j v b :
  0 < vs -> 0 < cap -> zlen v = vs -> vs * cap <= zlen b -> (j < length l)%nat ->
  b = block x (Z.of_nat j / cap) ->
  block x' (Z.of_nat j / cap) = splice (vs * (Z.of_nat j mod cap)) v b ->
  (forall i, (i < length l)%nat -> Z.of_nat i / cap <> Z.of_nat j / cap ->
     block x' (Z.of_nat i / cap) = block x (Z.of_nat i / cap)) ->
  holds x vs cap l -> holds x' vs cap (<[j := v]> l).
Proof.
  intros Hv Hc Hl Hb Hlt -> Hnew Hsame Hh i w Hi.
  pose proof (Z.mod_pos_bound (Z.of_nat j) cap Hc) as Hmj. pose proof (Z.mod_pos_bound (Z.of_nat i) cap Hc) as Hmi.
  apply list_lookup_insert_Some in Hi as [(<- & <- & _)|[Hne Hi]].
  - rewrite Hnew. apply slice_splice_same; nia.
  - pose proof (lookup_lt_Some _ _ _ Hi). specialize (Hh i w Hi).
    destruct (decide (Z.of_nat i / cap = Z.of_nat j / cap)) as [Heq|Hq]; [|by rewrite Hsame].
    pose proof (positions_differ cap (Z.of_nat i) (Z.of_nat j) Hc ltac:(lia) Heq). rewrite Heq in *.
    rewrite Hnew, slice_splice_disjoint by nia. done.
Qed.

(** *** The operations *)

(** Operations that leave the counters alone and consume [k] blocks. *)
Definition same_array s U k s' : Prop :=
  a_size s' = a_size s /\ m_value_size s' = m_value_size s /\
  m_block_capacity s' = m_block_capacity s /\ m_growth s' = m_growth s /\
  al_step U k (m_alloc (m_extent s)) (m_alloc (m_extent s')).

(** The array after a change of the extent's contents. *)
Lemma arr_updated s U l l' P x' :
  arr s U l -> updated (m_extent s) U P x' -> length l' = length l \/ zlen l' <= nblocks s * m_block_capacity s ->
  Forall (fun v => zlen v = m_value_size s) l' ->
  holds x' (m_value_size s) (m_block_capacity s) l' ->
  arr (set_extent x' s) U l' /\ same_array s U 0 (set_extent x' s) /\ nblocks (set_extent x' s) = nblocks s.
Proof.
  intros [Hx Hv Hc Hcap Hfit Hvals Hh] (a' & -> & Hi & Hst & Hb) Hfit' Hvals' Hh'. split_and!; try done.
  split; try done; cbn.
  - rewrite Hcap. unfold block_size, d_bs. cbn. destruct Hst as (-> & _). done.
  - unfold nblocks in *. cbn. lia.
Qed.

Lemma holds_same x x' vs cap l n :
  (forall k, 0 <= k < n -> block x' k = block x k) -> 0 < cap -> zlen l <= n * cap ->
  holds x vs cap l -> holds x' vs cap l.
Proof.
  intros Hsame Hc Hl Hh j v Hj. rewrite Hsame; [by apply Hh|]. pose proof (lookup_lt_Some _ _ _ Hj).
  split; [apply Z.div_pos; lia|]. apply Z.div_lt_upper_bound; nia.
Qed.

Lemma open_block_spec s U l blk off (Q : Z -> R -> Prop) :
  arr s U l -> 0 <= blk < nblocks s ->
  (forall x1, updated (m_extent s) U (fun k => k = blk /\ off = 0) x1 ->
     Q (m_start (m_extent s) + blk) (set_extent x1 s)) ->
  wp (open_block blk off) s Q.
Proof.
  intros Ha Hblk HQ. pose proof (r_ext _ _ _ Ha) as Hx. unfold open_block.
  destruct (Z.eqb_spec off 0) as [->|Hoff]; apply wp_on_extent.
  - eapply wp_mono; [by apply (overwrite_zero_spec _ U)|]. cbn beta. intros h x1 (-> & Hu & Hz).
    apply HQ. eapply updated_weaken; [exact Hu|]. tauto.
  - eapply wp_mono; [by apply (extent_read_spec _ U)|]. cbn beta. intros h x1 (-> & Hu).
    apply HQ. eapply updated_weaken; [exact Hu|]. tauto.
Qed.

(** Opening the block behind the last value and writing [vals] there. *)
Lemma append_values s U l vals blk off x1 x2 :
  arr s U l -> zlen l = blk * m_block_capacity s + off -> 0 <= off < m_block_capacity s ->
  off + zlen vals <= m_block_capacity s -> 0 <= blk < nblocks s ->
  Forall (fun v => zlen v = m_value_size s) vals ->
  updated (m_extent s) U (fun k => k = blk /\ off = 0) x1 ->
  updated x1 U (fun k => k = blk) x2 ->
  block x2 blk = splice (m_value_size s * off) (concat vals) (block x1 blk) ->
  arr (set_extent x2 s) U (l ++ vals) /\ same_array s U 0 (set_extent x2 s) /\
  nblocks (set_extent x2 s) = nblocks s.
Proof.
  intros Ha Hl Ho Hn Hblk Hf Hu1 Hu2 Hb2. pose proof Ha as [Hx Hv Hc Hcap Hfit Hvals Hh].
  destruct (block_length s U l blk Ha Hblk) as (Hlen & Hbs & Hcap').
  pose proof (updated_trans _ _ _ _ _ _ Hu1 Hu2) as Hu.
  destruct Hu1 as (a1 & -> & Hi1 & Hst1 & Hb1). destruct Hu2 as (a2 & -> & Hi2 & Hst2 & Hb2').
  assert (zlen (block (extent.set_alloc a1 (m_extent s)) blk) = block_size (m_extent s)) as Hl1.
  { rewrite (block_size_length _ U) by done. unfold block_size, d_bs. cbn. by destruct Hst1 as (-> & _). }
  eapply arr_updated; [exact Ha|exact Hu|right; rewrite length_app; nia|by apply Forall_app|].
  eapply (holds_append (m_extent s)); [..|exact Hb2| |exact Hh]; try done; try lia.
  - intros Hoff j Hj. f_equal. apply Hb1; [done|]. tauto.
  - intros k Hk. unfold nblocks in Hblk. cbn in Hb2'. rewrite Hb2' by (cbn; lia). apply Hb1; [lia|]. lia.
Qed.

Lemma array_al_inv s U l : arr s U l ->
  al_inv (m_alloc (m_extent s)) (U ∪ range_blocks (m_start (m_extent s)) (extent.m_size (m_extent s))).
Proof. intros Ha. apply (r_ext _ _ _ Ha). Qed.

Lemma same_array_trans s U k1 k2 s1 s2 : 0 <= k1 -> 0 <= k2 ->
  same_array s U k1 s1 -> same_array s1 U k2 s2 -> same_array s U (k1 + k2) s2.
Proof.
  intros Hk1 Hk2 (H1 & H2 & H3 & H4 & Hst1) (H1' & H2' & H3' & H4' & Hst2).
  split_and!; [congruence..|]. by apply (al_step_trans U U U k1 k2 _ (m_alloc (m_extent s1))).
Qed.

Lemma same_array_weaken s U l k k' s' : arr s' U l -> 0 <= k <= k' ->
  same_array s U k s' -> same_array s U k' s'.
Proof.
  intros Ha Hk (H1 & H2 & H3 & H4 & Hst). split_and!; try done.
  eapply al_step_weaken; [by apply (array_al_inv s' U l)|exact Hk|done].
Qed.

(** The position of a value in range. *)
Lemma value_position s U l j : arr s U l -> 0 <= j < zlen l ->
  0 <= block_index s j < nblocks s /\ 0 <= block_offset s j < m_block_capacity s /\
  calc_offset_in_block (m_value_size s) (block_offset s j) = m_value_size s * block_offset s j /\
  m_value_size s * block_offset s j + m_value_size s <= block_size (m_extent s).
Proof.
  intros Ha Hj. pose proof Ha as [Hx Hv Hc Hcap Hfit _ _]. unfold block_index, block_offset.
  pose proof (Z.mod_pos_bound j _ Hc).
  assert (0 <= j / m_block_capacity s < nblocks s) as Hb.
  { split; [apply Z.div_pos; lia|]. apply Z.div_lt_upper_bound; nia. }
  destruct (block_length s U l _ Ha Hb) as (_ & Hbs & Hle). split_and!; try lia; [|nia].
  unfold calc_offset_in_block. apply wrap_small. unfold is_word. nia.
Qed.

Lemma array_get_spec s U l j v :
  arr_inv s U l -> l !! j = Some v ->
  wp (get (Z.of_nat j)) s (fun r s' => r = v /\ arr_inv s' U l /\ same_array s U 0 s').
Proof.
  intros [Ha Hs] Hj. pose proof (lookup_lt_Some _ _ _ Hj) as Hlt.
  destruct (value_position s U l (Z.of_nat j) Ha ltac:(lia)) as (Hb & Ho & Hoff & Hle).
  pose proof Ha as [Hx Hv Hc Hcap Hfit Hvals Hh].
  unfold get, check_array_index. do 3 wp_step. wp_step. do 2 wp_step. wp_step. apply wp_on_extent.
  eapply wp_mono; [by apply (extent_read_spec _ U)|]. cbn beta. intros h x1 (-> & Hu1). apply wp_on_extent. cbn [m_extent set_extent].
  destruct (updated_same _ _ _ Hu1) as (Hi1 & Hst1 & Hsz1 & Hbs1 & Hal1 & Hbl1). rewrite <- Hst1, Hoff.
  eapply wp_mono; [apply (handle_read_spec _ U); [done|by rewrite Hsz1|nia|lia|by rewrite Hbs1]|]. cbn beta.
  intros d x2 (-> & Hu2). split.
  - rewrite Hbl1 by done. by apply Hh.
  - change (set_extent x2 (set_extent x1 s)) with (set_extent x2 s).
    pose proof (updated_trans _ _ _ _ _ _ Hu1 Hu2) as Hu.
    destruct (arr_updated s U l l _ x2 Ha Hu) as (Ha' & Hsame & _); [by left|done| |by split].
    eapply (holds_same (m_extent s)); [|done|exact Hfit|done]. intros k Hk.
    destruct Hu as (a' & -> & _ & _ & Hblk). apply Hblk; [done|tauto].
Qed.

Lemma array_set_spec s U l j v :
  arr_inv s U l -> (j < length l)%nat -> zlen v = m_value_size s ->
  wp (set (Z.of_nat j) v) s (fun _ s' => arr_inv s' U (<[j := v]> l) /\ same_array s U 0 s').
Proof.
  intros [Ha Hs] Hj Hvl. destruct (value_position s U l (Z.of_nat j) Ha ltac:(lia)) as (Hb & Ho & Hoff & Hle).
  pose proof Ha as [Hx Hv Hc Hcap Hfit Hvals Hh]. destruct (block_length s U l _ Ha Hb) as (Hbl & _ & Hcb).
  unfold set, check_array_index. do 3 wp_step. wp_step. do 2 wp_step. wp_step. apply wp_on_extent.
  eapply wp_mono; [by apply (extent_read_spec _ U)|]. cbn beta. intros h x1 (-> & Hu1). apply wp_on_extent. cbn [m_extent set_extent].
  destruct (updated_same _ _ _ Hu1) as (Hi1 & Hst1 & Hsz1 & Hbs1 & Hal1 & Hbl1). rewrite <- Hst1, Hoff.
  eapply wp_mono; [apply (handle_write_spec _ U); [done|by rewrite Hsz1|nia|rewrite Hbs1, Hvl; lia]|]. cbn beta.
  intros _ x2 (Hu2 & Hb2). change (set_extent x2 (set_extent x1 s)) with (set_extent x2 s).
  pose proof (updated_trans _ _ _ _ _ _ Hu1 Hu2) as Hu. rewrite Hbl1 in Hb2 by done.
  destruct (arr_updated s U l (<[j := v]> l) _ x2 Ha Hu) as (Ha' & Hsame & _).
  - left. apply length_insert.
  - by apply Forall_insert.
  - eapply (holds_set (m_extent s)); [done|done|done| |done|done|exact Hb2| |done].
    + unfold block_index in *. lia.
    + intros i Hi Hne. destruct Hu as (a' & -> & _ & _ & Hblk). apply Hblk; [|tauto].
      destruct (value_position s U l (Z.of_nat i) Ha ltac:(lia)) as (Hb' & _). exact Hb'.
  - split; [split; [done|by rewrite length_insert]|done].
Qed.

Lemma array_index_errors s j v : a_size s <= j ->
  get j s = (s, Err bad_argument) /\ set j v s = (s, Err bad_argument).
Proof.
  intros Hj. unfold get, set, check_array_index, bind, gets, throw_if. cbn.
  by destruct (Z.leb_spec (a_size s) j); [|lia].
Qed.

Lemma pop_back_spec s U l v :
  arr_inv s U (l ++ [v]) ->
  wp pop_back s (fun _ s' => arr_inv s' U l /\ same_array (set_size (zlen l) s) U 0 s').
Proof.
  intros [Ha Hs]. destruct (array_bounds _ _ _ Ha) as (Hb & _ & _). pose proof Ha as [Hx Hv Hc Hcap Hfit Hvals Hh].
  rewrite length_app in *. cbn [length] in *. unfold pop_back. do 3 wp_step. wp_step. wp_step.
  rewrite Hs. rewrite wrap_small by (unfold is_word; lia).
  replace (Z.of_nat (length l + 1) - 1) with (zlen l) by lia. split; [|by split_and!]. split; [|done].
  split; try done; cbn.
  - unfold nblocks in *. cbn. lia.
  - by apply Forall_app in Hvals as [? _].
  - intros j w Hj. apply Hh. by apply lookup_app_l_Some.
Qed.

(** *** Growing and shrinking *)

Context (supports : forall n, 0 < n -> al_supports n).

(** [resize_extent minimum] results in [n] blocks, which can be allocated. *)
Definition can_resize s (minimum : Z) (exact : bool) (n : Z) : Prop :=
  (if exact then Ok minimum else new_size (m_growth s) minimum) = Ok n /\
  0 <= minimum <= n /\ al_room (m_alloc (m_extent s)) n.

Lemma resize_extent_spec s U l minimum exact n :
  arr s U l -> can_resize s minimum exact n -> zlen l <= minimum * m_block_capacity s ->
  wp (resize_extent minimum exact) s (fun _ s' => arr s' U l /\ same_array s U n s' /\ nblocks s' = n).
Proof.
  intros Ha (Hn & Hle & Hroom) Hl. pose proof Ha as [Hx Hv Hc Hcap Hfit Hvals Hh]. unfold resize_extent.
  do 2 wp_step. wp_step.
  assert (wp (if exact then ret minimum else lift_result (new_size (m_growth s) minimum)) s
    (fun size s' => size = n /\ s' = s)) as Hsize.
  { destruct exact; [injection Hn as ->; by wp_step|]. rewrite Hn. by wp_step. }
  eapply wp_mono; [exact Hsize|]. cbn beta. intros size s' [-> ->]. apply wp_on_extent.
  eapply wp_mono; [apply (extent.resize_spec supports _ U n Hx); [lia|done]|]. cbn beta.
  intros _ x' (Hi' & Hsz & Hbs & Hblk & Hst). split_and!; try done.
  - split; try done; cbn.
    + by rewrite Hcap, Hbs.
    + unfold nblocks. cbn. rewrite Hsz. nia.
    + eapply (holds_same (m_extent s) _ _ _ _ (Z.min (nblocks s) n)); [exact Hblk|done|nia|done].
  - split_and!; try done. cbn. eapply al_step_weaken; [apply Hi'| |exact Hst]. destruct (_ =? _); lia.
Qed.

(** Enough room for [n] values. *)
Definition can_reserve s (n : Z) (k : Z) : Prop :=
  exists q, ceil_div 64 n (m_block_capacity s) = Ok q /\ 0 <= n <= q * m_block_capacity s /\
    q * m_block_capacity s < 2 ^ 64 /\
    if nblocks s <? q then can_resize s q false k else k = 0.

Lemma reserve_spec s U l n k :
  arr s U l -> can_reserve s n k ->
  wp (reserve n) s (fun _ s' => arr s' U l /\ same_array s U k s' /\ n <= nblocks s' * m_block_capacity s').
Proof.
  intros Ha (q & Hq & Hn & Hq64 & Hk). pose proof Ha as [Hx Hv Hc Hcap Hfit Hvals Hh].
  unfold reserve. do 3 wp_step. rewrite Hq. wp_step. do 2 wp_step.
  assert (wp (if nblocks s <? q then resize_extent q false else ret tt) s (fun _ s' =>
    arr s' U l /\ same_array s U k s' /\ n <= nblocks s' * m_block_capacity s')) as Hr.
  { destruct (Z.ltb_spec (nblocks s) q).
    - eapply wp_mono; [apply (resize_extent_spec s U l q false k Ha Hk); nia|]. cbn beta.
      intros _ s' (Ha' & Hsame & Hnb). split_and!; try done. destruct Hk as (_ & Hle & _).
      destruct Hsame as (_ & _ & -> & _). rewrite Hnb. nia.
    - wp_step. subst k. split_and!; try done. nia. }
  wp_step. eapply wp_mono; [exact Hr|]. cbn beta. intros _ s' (Ha' & Hsame & Hfit').
  destruct (array_bounds _ _ _ Ha') as (Hb & Hnn & _). pose proof (r_cap _ _ _ Ha').
  do 2 wp_step. wp_step; [|done]. unfold capacity. rewrite wrap_small by (unfold is_word; nia). lia.
Qed.

(** What [push_back] needs. *)
Definition can_push s (k : Z) : Prop :=
  if block_index s (a_size s) =? nblocks s then can_resize s (nblocks s + 1) false k else k = 0.

Lemma push_back_spec s U l v k :
  arr_inv s U l -> zlen v = m_value_size s -> can_push s k ->
  wp (push_back v) s (fun _ s' => arr_inv s' U (l ++ [v]) /\ same_array (set_size (zlen l + 1) s) U k s').
Proof.
  intros [Ha Hs] Hvl Hk. pose proof Ha as [Hx Hv Hc Hcap Hfit Hvals Hh].
  destruct (array_bounds _ _ _ Ha) as (Hb & Hnn & Hc32). unfold push_back. do 2 wp_step. rewrite Hs.
  unfold can_push in Hk. rewrite Hs in Hk.
  set (blk := block_index s (zlen l)) in *. set (off := block_offset s (zlen l)) in *.
  assert (zlen l = blk * m_block_capacity s + off /\ 0 <= off < m_block_capacity s /\ 0 <= blk <= nblocks s)
    as (Hdm & Hoff & Hblk).
  { unfold blk, off, block_index, block_offset. pose proof (Z.div_mod (zlen l) (m_block_capacity s)).
    pose proof (Z.mod_pos_bound (zlen l) (m_block_capacity s)). split_and!; try lia; [apply Z.div_pos; lia|].
    apply Z.div_le_upper_bound; nia. }
  assert (wp (if blk =? nblocks s then resize_extent (u64 (nblocks s + 1)) false else ret tt) s (fun _ s1 =>
    arr s1 U l /\ same_array s U k s1 /\ blk < nblocks s1)) as Hr.
  { destruct (Z.eqb_spec blk (nblocks s)) as [Heq|Hne].
    - rewrite wrap_small by (unfold is_word; nia).
      eapply wp_mono; [apply (resize_extent_spec s U l _ false k Ha Hk); nia|]. cbn beta.
      intros _ s1 (Ha1 & Hsame & Hnb). split_and!; try done. destruct Hk as (_ & Hle & _). lia.
    - wp_step. subst k. split_and!; try done. lia. }
  wp_step. eapply wp_mono; [exact Hr|]. cbn beta. intros _ s1 (Ha1 & Hsame1 & Hlt).
  pose proof Hsame1 as (Hz1 & Hv1 & Hc1 & Hg1 & Hst1). rewrite <- Hc1 in Hdm, Hoff.
  destruct (block_length s1 U l blk Ha1 ltac:(lia)) as (Hbl & Hbs & Hcb).
  wp_step. apply (open_block_spec s1 U l); [done|lia|]. intros x2 Hu2. wp_step. apply wp_on_extent.
  cbn [m_extent set_extent]. pose proof Hu2 as (a2 & -> & Hi2 & Hst2 & _).
  assert (calc_offset_in_block (m_value_size s) off = m_value_size s1 * off) as ->.
  { unfold calc_offset_in_block. rewrite Hv1. apply wrap_small. unfold is_word. rewrite Hv1 in Hcb. nia. }
  eapply wp_mono; [apply (handle_write_spec (extent.set_alloc a2 (m_extent s1)) U blk); [done|cbn; unfold nblocks in Hlt; lia|nia|]|].
  { assert (block_size (extent.set_alloc a2 (m_extent s1)) = block_size (m_extent s1)) as ->.
    { unfold block_size, d_bs. cbn. by destruct Hst2 as (-> & _). }
    rewrite Hvl, <- Hv1. nia. }
  cbn beta. intros _ x3 (Hu3 & Hb3).
  destruct (append_values s1 U l [v] blk off (extent.set_alloc a2 (m_extent s1)) x3 Ha1) as (Ha3 & Hsame3 & Hn3); try done; try lia.
  { cbn [length]. lia. } { by rewrite Forall_singleton, Hv1. } { cbn [concat]. by rewrite app_nil_r. }
  change (set_extent x3 (set_extent (extent.set_alloc a2 (m_extent s1)) s1)) with (set_extent x3 s1).
  wp_step. wp_step. do 2 wp_step.
  destruct (array_bounds _ _ _ Ha3) as (Hb' & _ & _). pose proof (r_fit _ _ _ Ha3) as Hfit3.
  rewrite length_app in Hfit3. cbn [length] in Hfit3. rewrite wrap_small by (unfold is_word; lia).
  assert (arr (set_size (zlen l + 1) (set_extent x3 s1)) U (l ++ [v])) as Ha4 by (destruct Ha3; by split).
  wp_step.
  - unfold capacity. change (nblocks (set_size (zlen l + 1) (set_extent x3 s1))) with (nblocks (set_extent x3 s1)).
    cbn [a_size set_size m_block_capacity set_extent] in *. rewrite wrap_small by (unfold is_word; lia). lia.
  - split; [split; [done|rewrite length_app; cbn; lia]|].
    pose proof (same_array_trans s U k 0 s1 _ ltac:(destruct (blk =? nblocks s); [destruct Hk as (_ & ? & _)|]; lia) ltac:(lia) Hsame1 Hsame3) as (E1 & E2 & E3 & E4 & E5).
    rewrite Z.add_0_r in E5. by split_and!.
Qed.

Lemma replicate_split (v : bytes) n m : 0 <= n -> 0 <= m ->
  replicate (Z.to_nat (n + m)) v = replicate (Z.to_nat n) v ++ replicate (Z.to_nat m) v.
Proof. intros. by rewrite Z2Nat.inj_add, replicate_add by lia. Qed.

Lemma resize_loop_spec fuel : forall s U l value remaining blk off,
  arr s U l -> zlen (fill_value (m_value_size s) value) = m_value_size s ->
  0 <= remaining <= Z.of_nat fuel -> 0 <= blk -> 0 <= off < m_block_capacity s ->
  (0 < remaining -> zlen l = blk * m_block_capacity s + off) ->
  zlen l + remaining <= nblocks s * m_block_capacity s ->
  wp (resize_loop fuel value remaining blk off) s (fun _ s' =>
    arr s' U (l ++ replicate (Z.to_nat remaining) (fill_value (m_value_size s) value)) /\
    same_array s U 0 s' /\ nblocks s' = nblocks s).
Proof.
  induction fuel as [|fuel IH]; intros s U l value remaining blk off Ha Hval Hrem Hblk Hoff Hl Hfit.
  { assert (remaining = 0) as -> by lia. cbn [resize_loop]. change (0 <=? 0) with true. cbn iota. wp_step.
    cbn [Z.to_nat replicate]. by rewrite app_nil_r. }
  cbn [resize_loop]. destruct (Z.leb_spec remaining 0).
  { assert (remaining = 0) as -> by lia. wp_step. cbn [Z.to_nat replicate]. by rewrite app_nil_r. }
  specialize (Hl ltac:(lia)). destruct (array_bounds _ _ _ Ha) as (Hb & Hnn & Hc32).
  pose proof Ha as [Hx Hv Hc Hcap _ Hvals Hh]. do 2 wp_step.
  rewrite (wrap_small 32 (m_block_capacity s - off)) by (unfold is_word; lia).
  set (writable := Z.min remaining (m_block_capacity s - off)).
  assert (1 <= writable <= remaining /\ off + writable <= m_block_capacity s) as (Hw & Hw') by lia.
  assert (blk < nblocks s) as Hlt by nia. destruct (block_length s U l blk Ha ltac:(lia)) as (Hbl & Hbs & Hcb).
  wp_step. apply (open_block_spec s U l); [done|lia|]. intros x1 Hu1. wp_step. apply wp_on_extent.
  cbn [m_extent set_extent]. pose proof Hu1 as (a1 & -> & Hi1 & Hst1 & _).
  assert (calc_offset_in_block (m_value_size s) off = m_value_size s * off) as ->.
  { unfold calc_offset_in_block. apply wrap_small. unfold is_word. nia. }
  set (vals := replicate (Z.to_nat writable) (fill_value (m_value_size s) value)).
  assert (Forall (fun v => zlen v = m_value_size s) vals) as Hf by (by apply Forall_replicate).
  assert (zlen vals = writable) as Hvl by (unfold vals; rewrite length_replicate; lia).
  pose proof (concat_values (m_value_size s) vals Hf ltac:(lia)) as Hcl.
  assert (block_size (extent.set_alloc a1 (m_extent s)) = block_size (m_extent s)) as Hbs1.
  { unfold block_size, d_bs. cbn. by destruct Hst1 as (-> & _). }
  pose proof (block_size_length (extent.set_alloc a1 (m_extent s)) U blk Hi1 ltac:(unfold nblocks in Hlt; cbn; lia)) as Hbl1.
  assert (fill (m_value_size s) (m_value_size s * off) writable value (block (extent.set_alloc a1 (m_extent s)) blk) =
    splice (m_value_size s * off) (concat vals) (block (extent.set_alloc a1 (m_extent s)) blk)) as Hfill.
  { apply fill_concat; try lia; try done; nia. }
  eapply wp_mono; [apply (extent_update_spec (extent.set_alloc a1 (m_extent s)) U blk); [done|unfold nblocks in Hlt; cbn; lia|]|].
  { rewrite Hfill. apply length_splice; nia. }
  cbn beta. intros _ x2 (Hu2 & Hb2). rewrite Hfill in Hb2.
  destruct (append_values s U l vals blk off (extent.set_alloc a1 (m_extent s)) x2 Ha) as (Ha2 & Hsame2 & Hn2); try done; try lia.
  change (set_extent x2 (set_extent (extent.set_alloc a1 (m_extent s)) s)) with (set_extent x2 s).
  rewrite (wrap_small 64 (remaining - writable)), (wrap_small 64 (blk + 1)) by (unfold is_word; nia).
  eapply wp_mono; [apply (IH (set_extent x2 s) U (l ++ vals)); try done; try lia|].
  - intros Hr. rewrite length_app. cbn. nia.
  - rewrite Hn2, length_app. cbn [m_block_capacity set_extent]. lia.
  - cbn beta. intros _ s' (Ha' & Hsame' & Hn'). split_and!.
    + replace remaining with (writable + (remaining - writable)) by lia. rewrite replicate_split by lia.
      by rewrite app_assoc.
    + by apply (same_array_trans s U 0 0 (set_extent x2 s)).
    + congruence.
Qed.

(** What [resize] needs. *)
Definition can_grow s (n : Z) (k : Z) : Prop := if a_size s <? n then can_reserve s n k else k = 0 /\ 0 <= n.

Definition resized (l : list bytes) (n : Z) (v : bytes) : list bytes :=
  if zlen l <? n then l ++ replicate (Z.to_nat (n - zlen l)) v else take (Z.to_nat n) l.

Lemma arr_shorter s U l n : arr s U l -> arr s U (take n l).
Proof.
  intros [Hx Hv Hc Hcap Hfit Hvals Hh]. split; try done.
  - rewrite length_take. lia.
  - by apply Forall_take.
  - intros j v Hj. apply Hh. apply lookup_take_Some in Hj. tauto.
Qed.

Lemma array_resize_spec s U l n value k :
  arr_inv s U l -> zlen (fill_value (m_value_size s) value) = m_value_size s -> can_grow s n k ->
  wp (resize n value) s (fun _ s' =>
    arr_inv s' U (resized l n (fill_value (m_value_size s) value)) /\ same_array (set_size n s) U k s').
Proof.
  intros [Ha Hs] Hval Hk. unfold can_grow, resized in *. rewrite <- Hs. unfold resize. do 2 wp_step.
  destruct (Z.eqb_spec n (a_size s)) as [->|Hne].
  { rewrite Z.ltb_irrefl in *. destruct Hk as [-> _]. wp_step.
    rewrite Hs, Nat2Z.id, firstn_all. split; [done|]. by split_and!. }
  destruct (Z.ltb_spec n (a_size s)) as [Hlt|Hge].
  { destruct (Z.ltb_spec (a_size s) n); [lia|]. destruct Hk as [-> Hn0]. wp_step. split; [|by split_and!].
    split; [|cbn; rewrite length_take; lia]. apply arr_shorter with (n := Z.to_nat n) in Ha. destruct Ha. by split. }
  destruct (Z.ltb_spec (a_size s) n) as [Hlt|]; [|lia]. wp_step.
  eapply wp_mono; [by apply (reserve_spec s U l n k)|]. cbn beta. intros _ s1 (Ha1 & Hsame1 & Hfit1).
  pose proof Hsame1 as (Hz1 & Hv1 & Hc1 & Hg1 & Hst1). destruct (array_bounds _ _ _ Ha1) as (Hb1 & _ & _).
  rewrite (wrap_small 64 (n - a_size s)) by (unfold is_word; lia).
  pose proof (r_cap _ _ _ Ha) as Hc. pose proof (Z.mod_pos_bound (a_size s) _ Hc) as Hm.
  pose proof (Z.div_mod (a_size s) (m_block_capacity s) ltac:(lia)) as Hd.
  wp_step. eapply wp_mono; [apply (resize_loop_spec _ s1 U l); try done; try lia|].
  - by rewrite Hv1.
  - unfold block_index. apply Z.div_pos; lia.
  - rewrite Hc1. exact Hm.
  - intros _. rewrite Hc1. unfold block_index, block_offset. lia.
  - cbn beta. intros _ s2 (Ha2 & Hsame2 & _). wp_step. rewrite Hv1 in Ha2. split.
    + split; [destruct Ha2; by split|]. cbn. rewrite length_app, length_replicate. lia.
    + pose proof (same_array_trans s U k 0 s1 s2) as Ht.
      destruct Hk as (q & _ & _ & _ & Hk). premise Ht.
      { destruct (nblocks s <? q); [destruct Hk as (_ & ? & _)|]; lia. }
      destruct (Ht ltac:(lia) Hsame1 Hsame2) as (E1 & E2 & E3 & E4 & E5). rewrite Z.add_0_r in E5. by split_and!.
Qed.

Lemma shrink_spec s U l exact q k :
  arr_inv s U l -> a_size s + m_block_capacity s <= 2 ^ 64 ->
  ceil_div 64 (a_size s) (m_block_capacity s) = Ok q -> can_resize s q exact k ->
  wp (shrink exact) s (fun _ s' => arr_inv s' U l /\ same_array s U k s' /\ nblocks s' = k).
Proof.
  intros [Ha Hs] Hov Hq Hk. destruct (array_bounds _ _ _ Ha) as (Hb & Hnn & Hc32).
  pose proof (r_cap _ _ _ Ha) as Hc. pose proof (r_fit _ _ _ Ha) as Hfit.
  unfold shrink. do 3 wp_step. rewrite Hq. wp_step.
  eapply wp_mono; [apply (resize_extent_spec s U l q exact k Ha Hk)|].
  - destruct (ceil_div_spec 64 (a_size s) (m_block_capacity s)) as (q' & Hq' & Hb'); [unfold is_word; lia..|].
    rewrite Hq in Hq'. injection Hq' as <-. lia.
  - cbn beta. intros _ s' (Ha' & Hsame & Hn). split_and!; try done. split; [done|].
    destruct Hsame as (-> & _). done.
Qed.

Lemma array_reset_spec s U l :
  arr_inv s U l -> wp reset s (fun _ s' => arr_inv s' U [] /\ same_array (set_size 0 s) U 0 s').
Proof.
  intros [Ha Hs]. pose proof Ha as [Hx Hv Hc Hcap Hfit Hvals Hh]. unfold reset. wp_step. apply wp_on_extent.
  eapply wp_mono; [by apply (extent.clear_spec supports _ U)|]. cbn beta. intros _ x' (Hi' & Hsz & Hbs & Hst).
  wp_step. split; [|by split_and!]. split; [|done]. split; try done; cbn.
  - by rewrite Hcap, Hbs.
  - unfold nblocks. cbn. rewrite Hsz. lia.
Qed.

(** *** Sessions *)

Inductive ar_op : Type :=
| AGet (i : Z)
| ASet (i : Z) (v : bytes)
| APush (v : bytes)
| APop
| AResize (n : Z) (value : option bytes)
| AReserve (n : Z)
| AReserveAdditional (n : Z)
| AShrink (exact : bool)
| AClear
| AReset
| ASize.
Inductive ar_out : Type :=
| out_none
| out_value (v : bytes)
| out_size (n : Z).

Definition ar_run_op (o : ar_op) : M R ar_out :=
  match o with
  | AGet i => let* v := get i in ret (out_value v)
  | ASet i v => set i v ;;; ret out_none
  | APush v => push_back v ;;; ret out_none
  | APop => pop_back ;;; ret out_none
  | AResize n value => resize n value ;;; ret out_none
  | AReserve n => reserve n ;;; ret out_none
  | AReserveAdditional n => reserve_additional n ;;; ret out_none
  | AShrink exact => shrink exact ;;; ret out_none
  | AClear => clear ;;; ret out_none
  | AReset => reset ;;; ret out_none
  | ASize => let* n := gets a_size in ret (out_size n)
  end.
Fixpoint ar_run (ops : list ar_op) (s : R) : R * list (result ar_out) :=
  match ops with
  | [] => (s, [])
  | o :: ops => let '(s1, r) := ar_run_op o s in let '(s2, rs) := ar_run ops s1 in (s2, r :: rs)
  end.

(** The abstract array: a list of values of size [vs]. *)
Definition ar_spec_op (vs : Z) l (o : ar_op) : list bytes * result ar_out :=
  match o with
  | AGet i => (l, match l !! Z.to_nat i with Some v => Ok (out_value v) | None => Err bad_argument end)
  | ASet i v => if i <? zlen l then (<[Z.to_nat i := v]> l, Ok out_none) else (l, Err bad_argument)
  | APush v => (l ++ [v], Ok out_none)
  | APop => match l with [] => (l, Err bad_operation) | _ => (take (length l - 1) l, Ok out_none) end
  | AResize n value => (resized l n (fill_value vs value), Ok out_none)
  | AReserve _ | AShrink _ => (l, Ok out_none)
  | AReserveAdditional n => (l, if 2 ^ 64 <=? n + zlen l then Err overflow_error else Ok out_none)
  | AClear | AReset => ([], Ok out_none)
  | ASize => (l, Ok (out_size (zlen l)))
  end.
Fixpoint ar_spec_run (vs : Z) (ops : list ar_op) l : list bytes * list (result ar_out) :=
  match ops with
  | [] => (l, [])
  | o :: ops =>
    let '(l1, r) := ar_spec_op vs l o in let '(l2, rs) := ar_spec_run vs ops l1 in (l2, r :: rs)
  end.

(** Arguments are 64 bit integers and values of the right size, and the
    storage that the operation asks for is available. *)
Definition ar_ok s (o : ar_op) : Prop :=
  match o with
  | AGet i => 0 <= i
  | ASet i v => 0 <= i /\ zlen v = m_value_size s
  | APush v => zlen v = m_value_size s /\ exists k, can_push s k
  | AResize n value => zlen (fill_value (m_value_size s) value) = m_value_size s /\ exists k, can_grow s n k
  | AReserve n => exists k, can_reserve s n k
  | AReserveAdditional n => is_u64 n /\ (n + a_size s < 2 ^ 64 -> exists k, can_reserve s (n + a_size s) k)
  | AShrink exact => a_size s + m_block_capacity s <= 2 ^ 64 /\
      exists q k, ceil_div 64 (a_size s) (m_block_capacity s) = Ok q /\ can_resize s q exact k
  | APop | AClear | AReset | ASize => True
  end.
Fixpoint ar_oks s (ops : list ar_op) : Prop :=
  match ops with
  | [] => True
  | o :: ops => ar_ok s o /\ ar_oks (ar_run_op o s).1 ops
  end.

(** [s'] is an array with the values [l] of the same size, and the blocks of
    other clients are unchanged. *)
Definition ar_post s U l s' : Prop :=
  arr_inv s' U l /\ m_value_size s' = m_value_size s /\
  forall i, i ∈ U -> disk_block (eng_view (m_alloc (m_extent s'))) i =
    disk_block (eng_view (m_alloc (m_extent s))) i.

Lemma ar_post_intro s s0 U l k s' :
  arr_inv s' U l -> same_array s0 U k s' -> m_value_size s0 = m_value_size s ->
  m_extent s0 = m_extent s -> ar_post s U l s'.
Proof.
  intros Ha (_ & Hv & _ & _ & _ & Hb & _) Hv0 Hx. split_and!; [done|congruence|]. rewrite <- Hx. exact Hb.
Qed.

Lemma ar_run_ok {X} (m : M R X) (f : X -> ar_out) s U l r :
  wp m s (fun y s' => f y = r /\ ar_post s U l s') ->
  exists s', (let* y := m in ret (f y)) s = (s', Ok r) /\ ar_post s U l s'.
Proof. intros (s' & y & Hm & <- & Hp)%wp_run. exists s'. split; [|done]. by rewrite (bind_ok _ _ _ _ _ Hm). Qed.

Lemma ar_run_err {X} (m : M R X) (f : X -> ar_out) s U l e :
  arr_inv s U l -> m s = (s, Err e) ->
  exists s', (let* y := m in ret (f y)) s = (s', Err e) /\ ar_post s U l s'.
Proof. intros Ha Hm. exists s. split; [by unfold bind; rewrite Hm|by split_and!]. Qed.

Lemma ar_run_op_spec s U l o :
  arr_inv s U l -> ar_ok s o ->
  exists s', ar_run_op o s = (s', (ar_spec_op (m_value_size s) l o).2) /\
    ar_post s U (ar_spec_op (m_value_size s) l o).1 s'.
Proof.
  intros Ha Hok. pose proof Ha as [Hb Hs]. pose proof (r_vs _ _ _ Hb) as Hv.
  assert (0 <= m_value_size s) as Hv0 by lia.
  destruct o as [i|i v|v| |n value|n|n|exact| | |]; cbn [ar_run_op ar_spec_op ar_ok fst snd] in *.
  - destruct (l !! Z.to_nat i) as [v|] eqn:Hi.
    + apply ar_run_ok. rewrite <- (Z2Nat.id i) by done. eapply wp_mono; [by apply array_get_spec|]. cbn beta.
      intros r s' (-> & Ha' & Hsame). split; [done|]. by eapply ar_post_intro.
    + apply ar_run_err; [done|]. apply lookup_ge_None in Hi. apply (array_index_errors s i []). lia.
  - destruct Hok as [Hi Hvl]. destruct (Z.ltb_spec i (zlen l)); cbn [fst snd].
    + apply (ar_run_ok _ (fun _ => out_none)). rewrite <- (Z2Nat.id i) at 1 by done.
      eapply wp_mono; [apply array_set_spec; try done; lia|]. cbn beta.
      intros _ s' (Ha' & Hsame). split; [done|]. by eapply ar_post_intro.
    + apply (ar_run_err _ (fun _ => out_none)); [done|]. apply (array_index_errors s i v). lia.
  - destruct Hok as [Hvl [k Hk]]. apply (ar_run_ok _ (fun _ => out_none)).
    eapply wp_mono; [by apply (push_back_spec s U l v k)|]. cbn beta. intros _ s' (Ha' & Hsame).
    split; [done|]. by eapply ar_post_intro.
  - destruct l as [|v l _] using rev_ind.
    + apply (ar_run_err _ (fun _ => out_none)); [done|]. unfold pop_back, bind, gets, throw_if. cbn. by rewrite Hs.
    + assert (match l ++ [v] with [] => (l ++ [v], Err bad_operation)
        | _ :: _ => (take (length (l ++ [v]) - 1) (l ++ [v]), Ok out_none) end = (l, Ok out_none)) as Heq.
      { destruct (l ++ [v]) eqn:Hl; [by apply app_eq_nil in Hl as [_ ?]|]. rewrite <- Hl, length_app. cbn [length].
        rewrite Nat.add_sub. by rewrite take_app_length. }
      rewrite Heq. cbn [fst snd]. apply (ar_run_ok _ (fun _ => out_none)).
      eapply wp_mono; [by apply (pop_back_spec s U l v)|]. cbn beta. intros _ s' (Ha' & Hsame).
      split; [done|]. by eapply ar_post_intro.
  - destruct Hok as [Hvl [k Hk]]. apply (ar_run_ok _ (fun _ => out_none)).
    eapply wp_mono; [by apply (array_resize_spec s U l n value k)|]. cbn beta. intros _ s' (Ha' & Hsame).
    split; [done|]. by eapply ar_post_intro.
  - destruct Hok as [k Hk]. apply (ar_run_ok _ (fun _ => out_none)).
    eapply wp_mono; [by apply (reserve_spec s U l n k)|]. cbn beta. intros _ s' (Ha' & Hsame & _).
    split; [done|]. eapply ar_post_intro; [|exact Hsame|done|done]. split; [done|].
    destruct Hsame as (-> & _). done.
  - destruct Hok as [Hn Hk]. rewrite <- Hs. destruct (array_bounds _ _ _ Hb) as (Hb1 & _ & _).
    pose proof (r_fit _ _ _ Hb) as Hfit. pose proof (checked_add_spec 64 n (a_size s) Hn ltac:(unfold is_word; lia)) as Hca.
    destruct (Z.leb_spec (2 ^ 64) (n + a_size s)) as [Hov|Hov]; destruct (Z.ltb_spec (n + a_size s) (2 ^ 64)); try lia.
    + apply (ar_run_err _ (fun _ => out_none)); [done|]. unfold reserve_additional, bind, gets, lift_result.
      by rewrite Hca.
    + destruct (Hk Hov) as [k Hk']. apply (ar_run_ok _ (fun _ => out_none)). unfold reserve_additional.
      do 3 wp_step. rewrite Hca. wp_step. eapply wp_mono; [by apply (reserve_spec s U l _ k)|]. cbn beta.
      intros _ s' (Ha' & Hsame & _). split; [done|]. eapply ar_post_intro; [|exact Hsame|done|done].
      split; [done|]. by destruct Hsame as (-> & _).
  - destruct Hok as (Hov & q & k & Hq & Hk). apply (ar_run_ok _ (fun _ => out_none)).
    eapply wp_mono; [by apply (shrink_spec s U l exact q k)|]. cbn beta. intros _ s' (Ha' & Hsame & _).
    split; [done|]. by eapply ar_post_intro.
  - apply (ar_run_ok _ (fun _ => out_none)). unfold clear. eapply wp_mono; [apply (array_resize_spec s U l 0 None 0 Ha)|].
    + cbn. apply length_zeros. lia.
    + unfold can_grow. destruct (Z.ltb_spec (a_size s) 0); [lia|done].
    + cbn beta. unfold resized. destruct (Z.ltb_spec (zlen l) 0); [lia|]. intros _ s' (Ha' & Hsame).
      split; [done|]. by eapply ar_post_intro.
  - apply (ar_run_ok _ (fun _ => out_none)). eapply wp_mono; [by apply (array_reset_spec s U l)|]. cbn beta.
    intros _ s' (Ha' & Hsame). split; [done|]. by eapply ar_post_intro.
  - apply (ar_run_ok (gets a_size) out_size). wp_step. rewrite Hs. split; [done|]. by split_and!.
Qed.

Lemma ar_run_spec ops : forall s U l,
  arr_inv s U l -> ar_oks s ops ->
  (ar_run ops s).2 = (ar_spec_run (m_value_size s) ops l).2 /\
  ar_post s U (ar_spec_run (m_value_size s) ops l).1 (ar_run ops s).1.
Proof.
  induction ops as [|o ops IH]; intros s U l Ha Hok; [by split_and!|]. destruct Hok as [Ho Hok].
  destruct (ar_run_op_spec s U l o Ha Ho) as (s1 & Hrun & Ha1 & Hv1 & Hb1).
  cbn [ar_run ar_spec_run]. rewrite Hrun in *. cbn [fst] in Hok.
  destruct (ar_spec_op (m_value_size s) l o) as [l1 r]. cbn [fst snd] in *.
  destruct (IH s1 U l1 Ha1 Hok) as (Hrs & Ha2 & Hv2 & Hb2). rewrite Hv1 in *.
  destruct (ar_run ops s1) as [s2 rs], (ar_spec_run (m_value_size s) ops l1) as [l2 rs']. cbn [fst snd] in *.
  subst rs'. split; [done|]. split_and!; [done|congruence|]. intros i Hi. by rewrite Hb2, Hb1.
Qed.

Lemma make_array_inv a U vs s :
  al_inv a U -> 0 < vs -> make_array a invalid_value 0 0 vs = Ok s ->
  arr_inv s U [] /\ m_alloc (m_extent s) = a /\ m_value_size s = vs.
Proof.
  unfold make_array. intros Ha Hv Hm. destruct (Z.eqb_spec (calc_block_capacity (d_bs (eng_view a)) vs) 0) as [|Hc]; [done|].
  injection Hm as <-. split; [|done]. destruct (al_wf _ _ Ha) as [Hwf _]. pose proof (wf_bs_pos _ Hwf).
  assert (0 <= calc_block_capacity (d_bs (eng_view a)) vs) by (apply Z.div_pos; lia).
  split; [|done]. split; cbn; try done; [|lia].
  unfold range_blocks. change (index_valid invalid_value) with false. split; cbn; try done.
  - unfold range_blocks. change (index_valid invalid_value) with false. by rewrite union_empty_r_L.
Qed.

End array_spec.

(** Blocks with three values each. *)
Definition sample_bump : bump memory_engine.memory_engine :=
  Bump (memory_engine.MemoryEngine (Geometry 32 5 31) []).
Definition sample_array : raw_array (bump memory_engine.memory_engine) :=
  RawArray (Extent sample_bump invalid_value 0) 0 10 3 exponential_growth.
Definition sample_value (b : byte) : bytes := replicate 10 b.
Definition sample_array_ops : list ar_op :=
  [APop; APush (sample_value x01); AResize 7 (Some (sample_value x02)); ASet 6 (sample_value x03);
   AShrink true; AGet 0; AGet 5; AGet 6; AGet 7; AShrink false; AGet 6].


(** The storage after [shrink_to_fit] and after a further [shrink]. *)
Lemma shrink_enlarges :
  nblocks (ar_run (take 5 sample_array_ops) sample_array).1 = 3 /\
  nblocks (ar_run (take 10 sample_array_ops) sample_array).1 = 4.
Proof. vm_compute. done. Qed.
End raw_array.
