(* ===== verification/BTreeNodes.v ===== *)
(** * Nodes of B+ trees (src/container/btree/leaf_node, internal_node)

    A node operation works on the bytes of its block; it is a computation
    whose state is the block, or a pair of blocks for the operations that
    write two nodes.  The specifications say what happens to the list of
    values of a leaf, and to the lists of keys and children of an internal
    node. *)

From Stdlib Require Import Strings.Byte.
From S2P Require Import Prelude MathOps Serialization Blocks EngineSpec FreeList Allocator Extent.

(** ** Memory *)

(** [memmove] inside of a block, and from other data into a block. *)
Definition move_in (dst src n : Z) : M bytes unit := modify (fun b => splice dst (slice src n b) b).
Definition copy_from (data : bytes) (dst src n : Z) : M bytes unit :=
  modify (fun b => splice dst (slice src n data) b).

(** [write], [set] and [get] of a block handle check the range. *)
Definition block_write (offset : Z) (data : bytes) : M bytes unit :=
  let* b := get in
  assert! (extent.check_range offset (zlen data) (zlen b)) ;;;
  modify (splice offset data).
Definition block_get_index (offset : Z) : M bytes Z :=
  let* b := get in
  assert! (extent.check_range offset 8 (zlen b)) ;;;
  ret (be_decode (slice offset 8 b)).

(** The header of both kinds of nodes is the counter [size]. *)
Definition node_header_size : Z := 4.
Definition node_size (b : bytes) : Z := be_decode (slice 0 4 b).
Definition put_node_size (n : Z) (b : bytes) : bytes := splice 0 (be_encode 4 n) b.

(** ** leaf_node *)
Module leaf_node.
Section leaf_node.
(** [m_value_size] and [m_max_children] *)
Context (value_size max_children : Z).

Definition capacity (block_size : Z) : Z :=
  if block_size <? node_header_size then 0 else (block_size - node_header_size) / value_size.
Definition offset_of_value (index : Z) : Z := u32 (node_header_size + u32 (value_size * index)).
Definition min_size : Z := max_children / 2.

Definition get_size : M bytes Z := gets node_size.
Definition set_size (new_size : Z) : M bytes unit :=
  assert! (new_size <=? max_children) ;;;
  modify (put_node_size new_size).
Definition init : M bytes unit := modify (put_node_size 0).
Definition set (index : Z) (value : bytes) : M bytes unit :=
  assert! (index <? max_children) ;;;
  block_write (offset_of_value index) value.
Definition get (index : Z) : M bytes bytes :=
  assert! (index <? max_children) ;;;
  gets (slice (offset_of_value index) value_size).

Definition insert_nonfull (index : Z) (value : bytes) : M bytes unit :=
  assert! (index <? max_children) ;;;
  let* size := get_size in
  assert! (index <=? size) ;;;
  move_in (offset_of_value (u32 (index + 1))) (offset_of_value index) (u32 (u32 (size - index) * value_size)) ;;;
  modify (splice (offset_of_value index) value) ;;;
  set_size (u32 (size + 1)).

(** [values] is the data of [count] values. *)
Definition append_nonfull (values : bytes) (count : Z) : M bytes unit :=
  assert! (0 <? count) ;;;
  assert! (count <=? max_children) ;;;
  let* old_size := get_size in
  assert! (old_size <=? u32 (max_children - count)) ;;;
  copy_from values (offset_of_value old_size) 0 (u32 (value_size * count)) ;;;
  set_size (u32 (old_size + count)).

Definition remove (index : Z) : M bytes unit :=
  assert! (index <? max_children) ;;;
  let* size := get_size in
  assert! (index <? size) ;;;
  move_in (offset_of_value index) (offset_of_value (u32 (index + 1))) (u32 (u32 (size - index - 1) * value_size)) ;;;
  set_size (u32 (size - 1)).

Definition append_from_right (neighbor : bytes) : M bytes unit :=
  let* size := get_size in
  let neighbor_size := node_size neighbor in
  assert! (u32 (size + neighbor_size) <=? max_children) ;;;
  copy_from neighbor (offset_of_value size) (offset_of_value 0) (u32 (neighbor_size * value_size)) ;;;
  set_size (u32 (size + neighbor_size)).

Definition prepend_from_left (neighbor : bytes) : M bytes unit :=
  let* size := get_size in
  let neighbor_size := node_size neighbor in
  assert! (u32 (size + neighbor_size) <=? max_children) ;;;
  move_in (offset_of_value neighbor_size) (offset_of_value 0) (u32 (size * value_size)) ;;;
  copy_from neighbor (offset_of_value 0) (offset_of_value 0) (u32 (neighbor_size * value_size)) ;;;
  set_size (u32 (size + neighbor_size)).

(** Operations on two nodes; the state is [(left, right)]. *)
Definition on_left {X} (m : M bytes X) : M (bytes * bytes) X := zoom fst (fun l s => (l, s.2)) m.
Definition on_right {X} (m : M bytes X) : M (bytes * bytes) X := zoom snd (fun r s => (s.1, r)) m.

(** The lambda [move] of [sequence_insert]; the sequences start behind the
    header. *)
Definition seq_offset (index : Z) : Z := offset_of_value 0 + u32 (index * value_size).
Definition move_to_right (src_index dst_index n : Z) : M (bytes * bytes) unit :=
  let* s := Prelude.get in
  on_right (copy_from s.1 (seq_offset dst_index) (seq_offset src_index) (u32 (n * value_size))).

Definition sequence_insert (count mid insert_index : Z) (value : bytes) : M (bytes * bytes) unit :=
  assert! ((0 <? mid) && (mid <=? count)) ;;;
  assert! (insert_index <=? count) ;;;
  if insert_index <? mid then
    move_to_right (u32 (mid - 1)) 0 (u32 (count - mid + 1)) ;;;
    on_left (move_in (seq_offset (u32 (insert_index + 1))) (seq_offset insert_index)
               (u32 (u32 (mid - 1 - insert_index) * value_size))) ;;;
    on_left (copy_from value (seq_offset insert_index) 0 value_size)
  else
    let right_insert_index := u32 (insert_index - mid) in
    move_to_right mid 0 right_insert_index ;;;
    on_right (copy_from value (seq_offset right_insert_index) 0 value_size) ;;;
    move_to_right (u32 (mid + right_insert_index)) (u32 (right_insert_index + 1))
      (u32 (count - mid - right_insert_index)).

Definition insert_full (index : Z) (value : bytes) (mid : Z) : M (bytes * bytes) unit :=
  assert! (mid <=? max_children) ;;;
  let* right_size := on_right get_size in
  assert! (right_size =? 0) ;;;
  let* left_size := on_left get_size in
  assert! (left_size =? max_children) ;;;
  sequence_insert max_children mid index value ;;;
  on_left (set_size mid) ;;;
  on_right (set_size (u32 (max_children + 1 - mid))).
End leaf_node.
End leaf_node.

(** ** internal_node *)
Module internal_node.
Section internal_node.
(** [m_key_size] and [m_max_children] *)
Context (key_size max_children : Z).

Definition block_index_size : Z := 8.
Definition compute_max_children (block_size : Z) : Z :=
  if block_size <? node_header_size then 0
  else u32 (block_size - node_header_size + key_size) / u32 (key_size + block_index_size).
Definition compute_min_children (max_children : Z) : Z := max_children / 2.
Definition compute_size : Z :=
  u32 (node_header_size + u32 (u32 (max_children - 1) * key_size) + max_children * block_index_size).
Definition max_keys : Z := u32 (max_children - 1).
Definition min_children : Z := compute_min_children max_children.

(** The assertions on the index are part of the operations below. *)
Definition offset_of_child (index : Z) : Z :=
  u32 (node_header_size + u32 (max_keys * key_size) + index * block_index_size).
Definition offset_of_key (index : Z) : Z := u32 (node_header_size + u32 (key_size * index)).
Definition assert_child (index : Z) : M bytes unit := assert! (index <=? max_children).
Definition assert_key (index : Z) : M bytes unit := assert! (index <=? max_keys).

Definition get_child_count : M bytes Z := gets node_size.
Definition set_child_count (new_size : Z) : M bytes unit :=
  assert! (new_size <=? max_children) ;;;
  modify (put_node_size new_size).
Definition init : M bytes unit := modify (put_node_size 0).
Definition set_key (index : Z) (key : bytes) : M bytes unit :=
  assert_key index ;;;
  block_write (offset_of_key index) key.
Definition get_key (index : Z) : M bytes bytes :=
  assert_key index ;;;
  gets (slice (offset_of_key index) key_size).
Definition set_child (index child : Z) : M bytes unit :=
  assert_child index ;;;
  block_write (offset_of_child index) (be_encode 8 child).
Definition get_child (index : Z) : M bytes Z :=
  assert_child index ;;;
  block_get_index (offset_of_child index).

Definition insert_split_result (index : Z) (split_key : bytes) (new_child : Z) : M bytes unit :=
  let* child_count := get_child_count in
  assert! (child_count <? max_children) ;;;
  assert! ((1 <=? index) && (index <=? child_count)) ;;;
  assert_key (u32 (index - 1)) ;;;
  let key_begin := offset_of_key (u32 (index - 1)) in
  move_in (key_begin + key_size) key_begin (u32 (key_size * u32 (u32 (child_count - 1) - u32 (index - 1)))) ;;;
  modify (splice key_begin split_key) ;;;
  assert_child index ;;;
  let child_begin := offset_of_child index in
  move_in (child_begin + block_index_size) child_begin (u32 (block_index_size * u32 (child_count - index))) ;;;
  modify (splice child_begin (be_encode 8 new_child)) ;;;
  set_child_count (u32 (child_count + 1)).

Definition prepend_entry (key : bytes) (child : Z) : M bytes unit :=
  let* child_count := get_child_count in
  assert! (child_count <? max_children) ;;;
  assert_key 1 ;;;
  move_in (offset_of_key 1) (offset_of_key 0) (u32 (key_size * u32 (child_count - 1))) ;;;
  assert_child 1 ;;;
  move_in (offset_of_child 1) (offset_of_child 0) (u32 (block_index_size * child_count)) ;;;
  modify (splice (offset_of_key 0) key) ;;;
  modify (splice (offset_of_child 0) (be_encode 8 child)) ;;;
  set_child_count (u32 (child_count + 1)).

Definition append_entry (key : bytes) (child : Z) : M bytes unit :=
  let* child_count := get_child_count in
  assert! (child_count <? max_children) ;;;
  assert_key (u32 (child_count - 1)) ;;;
  modify (splice (offset_of_key (u32 (child_count - 1))) key) ;;;
  assert_child child_count ;;;
  modify (splice (offset_of_child child_count) (be_encode 8 child)) ;;;
  set_child_count (u32 (child_count + 1)).

Definition remove_child (index : Z) : M bytes unit :=
  let* child_count := get_child_count in
  assert! (index <? child_count) ;;;
  assert_child index ;;;
  assert_child (u32 (index + 1)) ;;;
  move_in (offset_of_child index) (offset_of_child (u32 (index + 1)))
    (u32 (block_index_size * u32 (child_count - index - 1))) ;;;
  (if negb (index =? u32 (child_count - 1)) then
     assert_key index ;;;
     assert_key (u32 (index + 1)) ;;;
     move_in (offset_of_key index) (offset_of_key (u32 (index + 1)))
       (u32 (key_size * u32 (child_count - index - 2)))
   else ret tt) ;;;
  set_child_count (u32 (child_count - 1)).

Definition append_from_right (split_key neighbor : bytes) : M bytes unit :=
  let* child_count := get_child_count in
  let neighbor_child_count := node_size neighbor in
  assert! (u32 (child_count + neighbor_child_count) <=? max_children) ;;;
  assert_key (u32 (child_count - 1)) ;;;
  modify (splice (offset_of_key (u32 (child_count - 1))) split_key) ;;;
  assert_key child_count ;;;
  copy_from neighbor (offset_of_key child_count) (offset_of_key 0)
    (u32 (u32 (neighbor_child_count - 1) * key_size)) ;;;
  assert_child child_count ;;;
  copy_from neighbor (offset_of_child child_count) (offset_of_child 0)
    (u32 (neighbor_child_count * block_index_size)) ;;;
  set_child_count (u32 (child_count + neighbor_child_count)).

Definition prepend_from_left (split_key neighbor : bytes) : M bytes unit :=
  let* child_count := get_child_count in
  let neighbor_child_count := node_size neighbor in
  assert! (u32 (child_count + neighbor_child_count) <=? max_children) ;;;
  assert_key neighbor_child_count ;;;
  move_in (offset_of_key neighbor_child_count) (offset_of_key 0) (u32 (u32 (child_count - 1) * key_size)) ;;;
  assert_child neighbor_child_count ;;;
  move_in (offset_of_child neighbor_child_count) (offset_of_child 0) (u32 (child_count * block_index_size)) ;;;
  copy_from neighbor (offset_of_key 0) (offset_of_key 0) (u32 (u32 (neighbor_child_count - 1) * key_size)) ;;;
  assert_key (u32 (neighbor_child_count - 1)) ;;;
  modify (splice (offset_of_key (u32 (neighbor_child_count - 1))) split_key) ;;;
  copy_from neighbor (offset_of_child 0) (offset_of_child 0) (u32 (neighbor_child_count * block_index_size)) ;;;
  set_child_count (u32 (child_count + neighbor_child_count)).

(** [set_entries]; [keys] holds the data of [child_count - 1] keys. *)
Fixpoint put_children (offset : Z) (children : list Z) : M bytes unit :=
  match children with
  | [] => ret tt
  | c :: children =>
    modify (splice offset (be_encode 8 c)) ;;;
    put_children (offset + block_index_size) children
  end.
Definition set_entries (keys : bytes) (children : list Z) (child_count : Z) : M bytes unit :=
  let* size := get_child_count in
  assert! (size =? 0) ;;;
  assert! (child_count <=? max_children) ;;;
  assert! (2 <=? child_count) ;;;
  copy_from keys (offset_of_key 0) 0 (u32 (key_size * u32 (child_count - 1))) ;;;
  put_children (offset_of_child 0) (take (Z.to_nat child_count) children) ;;;
  set_child_count child_count.

(** [split]; the state is [(left, right)], the result the split key. *)
Definition split : M (bytes * bytes) bytes :=
  let* child_count := leaf_node.on_left get_child_count in
  assert! (child_count =? max_children) ;;;
  let* right_size := leaf_node.on_right get_child_count in
  assert! (right_size =? 0) ;;;
  let left_count := u32 (child_count + 1) / 2 in
  let right_count := u32 (child_count - left_count) in
  leaf_node.on_left (assert_key left_count) ;;;
  let* s := Prelude.get in
  leaf_node.on_right (copy_from s.1 (offset_of_key 0) (offset_of_key left_count)
    (u32 (key_size * u32 (right_count - 1)))) ;;;
  leaf_node.on_left (assert_child left_count) ;;;
  leaf_node.on_right (copy_from s.1 (offset_of_child 0) (offset_of_child left_count)
    (u32 (block_index_size * right_count))) ;;;
  let* split_key := leaf_node.on_left (get_key (u32 (left_count - 1))) in
  leaf_node.on_left (set_child_count left_count) ;;;
  leaf_node.on_right (set_child_count right_count) ;;;
  ret split_key.
End internal_node.
End internal_node.

(** ** Cells

    An array of [n] elements of [sz] bytes that starts at [base]. *)
Section cells.
Implicit Types (b d : bytes) (base sz i k n src dst : Z).

Definition cell base sz i b : bytes := slice (base + sz * i) sz b.
Definition cells base sz (n : nat) b : list bytes :=
  (fun j : nat => cell base sz (Z.of_nat j) b) <$> seq 0 n.

Lemma lookup_cells base sz (n : nat) b (i : nat) :
  cells base sz n b !! i = if decide (i < n)%nat then Some (cell base sz (Z.of_nat i) b) else None.
Proof.
  unfold cells. rewrite list_lookup_fmap. case_decide.
  - by rewrite lookup_seq_lt.
  - by rewrite lookup_seq_ge by lia.
Qed.

Lemma length_cells base sz (n : nat) b : length (cells base sz n b) = n.
Proof. unfold cells. by rewrite length_fmap, length_seq. Qed.

Lemma slice_splice_inside off x b off' n :
  0 <= off -> off + zlen x <= zlen b -> off <= off' -> 0 <= n -> off' + n <= off + zlen x ->
  slice off' n (splice off x b) = slice (off' - off) n x.
Proof.
  intros. rewrite <- (slice_splice_same off (zlen x) x b) at 2 by lia. rewrite slice_slice by lia. f_equal. lia.
Qed.

Lemma length_copy base sz dst src n b d :
  0 <= base -> 0 < sz -> 0 <= dst -> 0 <= src -> 0 <= n ->
  base + sz * (dst + n) <= zlen b -> base + sz * (src + n) <= zlen d ->
  length (splice (base + sz * dst) (slice (base + sz * src) (sz * n) d) b) = length b.
Proof. intros. apply length_splice; [nia|]. rewrite length_slice by nia. nia. Qed.

(** Moving [n] elements. *)
Lemma cell_copy base sz dst src n b d i :
  0 <= base -> 0 < sz -> 0 <= dst -> 0 <= src -> 0 <= n -> 0 <= i ->
  base + sz * (dst + n) <= zlen b -> base + sz * (src + n) <= zlen d ->
  cell base sz i (splice (base + sz * dst) (slice (base + sz * src) (sz * n) d) b) =
    if decide (dst <= i < dst + n) then cell base sz (src + (i - dst)) d else cell base sz i b.
Proof.
  intros. assert (zlen (slice (base + sz * src) (sz * n) d) = sz * n) as Hl by (apply length_slice; nia).
  unfold cell. case_decide.
  - rewrite slice_splice_inside by nia. rewrite slice_slice by nia. f_equal. lia.
  - apply slice_splice_disjoint; nia.
Qed.

Lemma cell_put base sz k v b i :
  0 <= base -> 0 < sz -> 0 <= k -> 0 <= i -> zlen v = sz -> base + sz * (k + 1) <= zlen b ->
  cell base sz i (splice (base + sz * k) v b) = if decide (i = k) then v else cell base sz i b.
Proof.
  intros. unfold cell. case_decide.
  - subst i. apply slice_splice_same; nia.
  - apply slice_splice_disjoint; nia.
Qed.

(** A change outside of the element. *)
Lemma cell_other base sz i off x b :
  0 <= base -> 0 < sz -> 0 <= i -> 0 <= off -> off + zlen x <= zlen b ->
  off + zlen x <= base \/ base + sz * (i + 1) <= off ->
  cell base sz i (splice off x b) = cell base sz i b.
Proof. intros. unfold cell. apply slice_splice_disjoint; nia. Qed.

Lemma cells_eq base sz (n : nat) b (l : list bytes) :
  length l = n -> (forall (i : nat) v, l !! i = Some v -> cell base sz (Z.of_nat i) b = v) ->
  cells base sz n b = l.
Proof.
  intros Hl Hc. apply list_eq. intros i. rewrite lookup_cells. case_decide.
  - destruct (l !! i) as [v|] eqn:Hi; [by rewrite (Hc i v Hi)|]. apply lookup_ge_None in Hi. lia.
  - symmetry. apply lookup_ge_None. lia.
Qed.

Lemma cells_cell base sz (n : nat) b (i : nat) v :
  cells base sz n b !! i = Some v -> cell base sz (Z.of_nat i) b = v /\ (i < n)%nat.
Proof. rewrite lookup_cells. case_decide; [|done]. by intros [= ->]. Qed.

Lemma cells_same base sz (n : nat) b b' :
  (forall i, 0 <= i < Z.of_nat n -> cell base sz i b' = cell base sz i b) ->
  cells base sz n b' = cells base sz n b.
Proof.
  intros Hs. apply cells_eq; [apply length_cells|]. intros i v [<- Hi]%cells_cell. apply Hs. lia.
Qed.

Lemma Forall_cells base sz (n : nat) b :
  0 <= base -> 0 <= sz -> base + sz * Z.of_nat n <= zlen b ->
  Forall (fun v => zlen v = sz) (cells base sz n b).
Proof.
  intros Hb Hs Hl. apply Forall_lookup. intros i v [<- Hi]%cells_cell. unfold cell. apply length_slice; nia.
Qed.
End cells.

(** Inserting an element in front of position [k]. *)
Definition insert_at {A} (k : nat) (x : A) (l : list A) : list A := take k l ++ x :: drop k l.

Lemma lookup_insert_at {A} k (x : A) l i : (k <= length l)%nat ->
  insert_at k x l !! i =
    if decide (i < k)%nat then l !! i else if decide (i = k) then Some x else l !! (i - 1)%nat.
Proof.
  intros Hk. unfold insert_at. repeat case_decide.
  - rewrite lookup_app_l by (rewrite length_take; lia). by apply lookup_take_lt.
  - subst i. rewrite lookup_app_r, length_take by (rewrite length_take; lia).
    by replace (k - k `min` length l)%nat with 0%nat by lia.
  - rewrite lookup_app_r, length_take by (rewrite length_take; lia).
    rewrite lookup_cons_ne_0, lookup_drop by lia. f_equal. lia.
Qed.

Lemma length_insert_at {A} k (x : A) l : length (insert_at k x l) = S (length l).
Proof. unfold insert_at. rewrite length_app, length_take. cbn. rewrite length_drop. lia. Qed.

Lemma lookup_delete_at {A} k (l : list A) i :
  delete k l !! i = if decide (i < k)%nat then l !! i else l !! S i.
Proof.
  case_decide; [by apply list_lookup_delete_lt|]. apply list_lookup_delete_ge. lia.
Qed.

(** ** Leaves *)

(** Removes the wrap-around of expressions that do not overflow. *)
Ltac unwrap :=
  repeat match goal with
  | |- context [wrap 32 ?x] =>
    lazymatch x with
    | context [wrap 32 _] => fail
    | _ => rewrite (wrap_small 32 x) by (unfold is_word; nia)
    end
  end.

Lemma node_size_put n b : is_u32 n -> 4 <= zlen b -> node_size (put_node_size n b) = n.
Proof.
  intros Hn Hb. unfold node_size, put_node_size. apply (field_same 0 4); [done|cbn; lia|]. exact Hn.
Qed.

Lemma length_put_node_size n b : 4 <= zlen b -> length (put_node_size n b) = length b.
Proof. intros Hb. apply length_splice; [lia|]. rewrite length_be_encode. lia. Qed.

Lemma cell_put_node_size base sz i n b :
  4 <= base -> 0 < sz -> 0 <= i -> 4 <= zlen b -> cell base sz i (put_node_size n b) = cell base sz i b.
Proof. intros. apply cell_other; rewrite ?length_be_encode; lia. Qed.

Section leaf_spec.
Context (vs cap : Z).
Implicit Types (b : bytes) (v : bytes) (vals : list bytes).

(** The block [b] is a leaf with the values [vals]. *)
Record leaf_ok b vals : Prop := {
  l_vs : 0 < vs;
  l_len : node_header_size + vs * cap <= zlen b < 2 ^ 32;
  l_size : node_size b = zlen vals;
  l_cap : zlen vals <= cap;
  l_vals : cells node_header_size vs (length vals) b = vals
}.

Lemma leaf_offset b vals i : leaf_ok b vals -> 0 <= i <= cap ->
  leaf_node.offset_of_value vs i = node_header_size + vs * i.
Proof.
  intros [Hv Hl _ _ _] Hi. unfold leaf_node.offset_of_value, node_header_size in *.
  assert (0 <= vs * i <= vs * cap) by nia. by unwrap.
Qed.

Lemma leaf_cell b vals (i : nat) v : leaf_ok b vals -> vals !! i = Some v ->
  cell node_header_size vs (Z.of_nat i) b = v.
Proof. intros [_ _ _ _ Hc] Hi. rewrite <- Hc in Hi. by apply cells_cell in Hi as [? _]. Qed.

Lemma leaf_values b vals : leaf_ok b vals -> Forall (fun v => zlen v = vs) vals.
Proof.
  intros [Hv Hl _ Hcap <-]. apply Forall_cells; unfold node_header_size in *; rewrite ?length_cells; try lia. nia.
Qed.

(** A block whose elements and counter are [vals]. *)
Lemma leaf_intro b b0 vals vals0 :
  leaf_ok b0 vals0 -> length b = length b0 -> zlen vals <= cap ->
  (forall (i : nat) v, vals !! i = Some v -> cell node_header_size vs (Z.of_nat i) b = v) ->
  leaf_ok (put_node_size (zlen vals) b) vals.
Proof.
  intros [Hv Hl _ _ _] Hlen Hcap Hc. unfold node_header_size in *. split; try done.
  - rewrite length_put_node_size by nia. by rewrite Hlen.
  - apply node_size_put; [unfold is_word; nia|nia].
  - apply cells_eq; [done|]. intros i v Hi. unfold node_header_size.
    rewrite cell_put_node_size by nia. by apply Hc.
Qed.

Lemma leaf_set_size_spec b b0 vals vals0 n :
  leaf_ok b0 vals0 -> length b = length b0 -> zlen vals <= cap -> n = zlen vals ->
  (forall (i : nat) v, vals !! i = Some v -> cell node_header_size vs (Z.of_nat i) b = v) ->
  wp (leaf_node.set_size cap n) b (fun _ b' => leaf_ok b' vals /\ length b' = length b).
Proof.
  intros H0 Hlen Hcap -> Hc. unfold leaf_node.set_size. wp_step. wp_step. wp_step.
  split; [by eapply leaf_intro|]. apply length_put_node_size. destruct H0 as [? Hl _ _ _].
  unfold node_header_size in *. nia.
Qed.

Lemma leaf_get_spec b vals i v (Q : bytes -> bytes -> Prop) :
  leaf_ok b vals -> vals !! i = Some v -> Q v b -> wp (leaf_node.get vs cap (Z.of_nat i)) b Q.
Proof.
  intros Hok Hi HQ. pose proof (lookup_lt_Some _ _ _ Hi). pose proof (l_cap _ _ Hok).
  unfold leaf_node.get. wp_step. wp_step. wp_step. rewrite (leaf_offset b vals) by (done || lia).
  by rewrite (leaf_cell b vals i v Hok Hi : slice _ _ _ = _).
Qed.

Lemma leaf_insert_nonfull_spec b vals (k : nat) v :
  leaf_ok b vals -> (k <= length vals)%nat -> zlen vals < cap -> zlen v = vs ->
  wp (leaf_node.insert_nonfull vs cap (Z.of_nat k) v) b (fun _ b' =>
    leaf_ok b' (insert_at k v vals) /\ length b' = length b).
Proof.
  intros Hok Hk Hcap Hvl. pose proof Hok as [Hv Hl Hs Hc Hvals]. unfold node_header_size in Hl.
  unfold leaf_node.insert_nonfull, leaf_node.get_size, move_in. wp_step. wp_step. wp_step. wp_step. wp_step. wp_step.
  wp_step. wp_step. wp_step. wp_step. rewrite Hs. unwrap.
  rewrite !(leaf_offset b vals) by (done || lia). rewrite (Z.mul_comm _ vs).
  set (b1 := splice _ _ b).
  assert (length b1 = length b) as Hl1 by (apply length_copy; unfold node_header_size; nia).
  assert (length (splice (node_header_size + vs * Z.of_nat k) v b1) = length b) as Hl2.
  { rewrite length_splice; unfold node_header_size; nia. }
  eapply wp_mono; [apply (leaf_set_size_spec _ b (insert_at k v vals) vals); try done|].
  - rewrite length_insert_at. lia.
  - rewrite length_insert_at. lia.
  - intros i w Hi. rewrite cell_put by (unfold node_header_size; nia).
    rewrite lookup_insert_at in Hi by done. repeat case_decide; try lia; simplify_eq; try done.
    + unfold b1. rewrite cell_copy by (unfold node_header_size; nia). case_decide; [lia|]. by apply (leaf_cell b vals).
    + unfold b1. rewrite cell_copy by (unfold node_header_size; apply lookup_lt_Some in Hi; nia).
      apply lookup_lt_Some in Hi as Hi'. case_decide; [|lia].
      replace (Z.of_nat k + (Z.of_nat i - (Z.of_nat k + 1))) with (Z.of_nat (i - 1)) by lia. by apply (leaf_cell b vals).
  - cbn beta. intros _ b' [Hok' Hl']. split; [done|]. by rewrite Hl', Hl2.
Qed.

Lemma leaf_remove_spec b vals (k : nat) :
  leaf_ok b vals -> (k < length vals)%nat ->
  wp (leaf_node.remove vs cap (Z.of_nat k)) b (fun _ b' =>
    leaf_ok b' (delete k vals) /\ length b' = length b).
Proof.
  intros Hok Hk. pose proof Hok as [Hv Hl Hs Hc Hvals]. unfold node_header_size in Hl.
  unfold leaf_node.remove, leaf_node.get_size, move_in. wp_step. wp_step. do 2 wp_step. wp_step. wp_step.
  do 2 wp_step. rewrite Hs. unwrap. rewrite !(leaf_offset b vals) by (done || lia). rewrite (Z.mul_comm _ vs).
  set (b1 := splice _ _ b).
  assert (length b1 = length b) as Hl1 by (apply length_copy; unfold node_header_size; nia).
  eapply wp_mono; [apply (leaf_set_size_spec _ b (delete k vals) vals); try done|].
  - rewrite length_delete by (by apply lookup_lt_is_Some_2). lia.
  - rewrite length_delete by (by apply lookup_lt_is_Some_2). lia.
  - intros i w Hi. rewrite lookup_delete_at in Hi. apply lookup_lt_Some in Hi as Hi' || idtac.
    unfold b1. rewrite cell_copy by (unfold node_header_size; nia). repeat case_decide; try lia.
    + by apply (leaf_cell b vals).
    + replace (Z.of_nat k + 1 + (Z.of_nat i - Z.of_nat k)) with (Z.of_nat (S i)) by lia. by apply (leaf_cell b vals).
    + apply lookup_lt_Some in Hi. lia.
  - cbn beta. intros _ b' [Hok' Hl']. split; [done|]. by rewrite Hl', Hl1.
Qed.

Lemma leaf_set_spec b vals (k : nat) v :
  leaf_ok b vals -> (k < length vals)%nat -> zlen v = vs ->
  wp (leaf_node.set vs cap (Z.of_nat k) v) b (fun _ b' => leaf_ok b' (<[k := v]> vals) /\ length b' = length b).
Proof.
  intros Hok Hk Hvl. pose proof Hok as [Hv Hl Hs Hc Hvals]. unfold node_header_size in Hl.
  unfold leaf_node.set, block_write, extent.check_range. wp_step. wp_step. do 3 wp_step.
  rewrite (leaf_offset b vals) by (done || lia). rewrite Hvl. wp_step; [unfold node_header_size; nia|]. wp_step.
  assert (length (splice (node_header_size + vs * Z.of_nat k) v b) = length b) as Hl1.
  { apply length_splice; unfold node_header_size; nia. }
  split; [|done]. split; rewrite ?length_insert; try done.
  - by rewrite Hl1.
  - unfold node_size, node_header_size. rewrite slice_splice_disjoint by nia. exact Hs.
  - apply cells_eq; [apply length_insert|]. intros i w Hi. rewrite cell_put by (unfold node_header_size; nia).
    apply list_lookup_insert_Some in Hi as [(-> & -> & _)|[Hne Hi]]; [by rewrite decide_True|].
    rewrite decide_False by lia. by apply (leaf_cell b vals).
Qed.

Lemma leaf_append_nonfull_spec b vals news :
  leaf_ok b vals -> news <> [] -> zlen vals + zlen news <= cap -> Forall (fun v => zlen v = vs) news ->
  forall data, slice 0 (vs * zlen news) data = concat news -> vs * zlen news <= zlen data ->
  wp (leaf_node.append_nonfull vs cap data (zlen news)) b (fun _ b' =>
    leaf_ok b' (vals ++ news) /\ length b' = length b).
Proof.
  intros Hok Hne Hcap Hf data Hdata Hdl. pose proof Hok as [Hv Hl Hs Hc Hvals]. unfold node_header_size in Hl.
  assert (0 < zlen news) by (destruct news; [done|cbn; lia]).
  unfold leaf_node.append_nonfull, leaf_node.get_size, copy_from. wp_step. wp_step. wp_step. wp_step. do 2 wp_step.
  wp_step. rewrite Hs. unwrap. wp_step. do 2 wp_step. rewrite (leaf_offset b vals) by (done || lia). rewrite Hdata.
  pose proof (length_slice 0 (vs * zlen news) data ltac:(lia) ltac:(nia) ltac:(lia)) as Hcl. rewrite Hdata in Hcl.
  set (b1 := splice _ _ b). assert (length b1 = length b) as Hl1 by (apply length_splice; unfold node_header_size; nia).
  eapply wp_mono; [apply (leaf_set_size_spec _ b (vals ++ news) vals); rewrite ?length_app; try done; try lia|].
  - intros i w Hi. apply lookup_app_Some in Hi as [Hi|[Hge Hi]]; apply lookup_lt_Some in Hi as Hi'; unfold b1.
    + rewrite cell_other by (unfold node_header_size; nia). by apply (leaf_cell b vals).
    + unfold cell. rewrite slice_splice_inside by (unfold node_header_size; nia).
      replace (node_header_size + vs * Z.of_nat i - (node_header_size + vs * zlen vals))
        with (vs * Z.of_nat (i - length vals)) by nia.
      apply slice_concat; [done|lia|done].
  - cbn beta. intros _ b' [Hok' Hl']. split; [done|]. by rewrite Hl', Hl1.
Qed.

Lemma leaf_append_from_right_spec b vals nb nvals :
  leaf_ok b vals -> leaf_ok nb nvals -> zlen vals + zlen nvals <= cap ->
  wp (leaf_node.append_from_right vs cap nb) b (fun _ b' =>
    leaf_ok b' (vals ++ nvals) /\ length b' = length b).
Proof.
  intros Hok Hn Hcap. pose proof Hok as [Hv Hl Hs Hc Hvals]. pose proof Hn as [_ Hnl Hns _ Hnvals].
  unfold node_header_size in Hl, Hnl.
  unfold leaf_node.append_from_right, leaf_node.get_size, copy_from. do 3 wp_step. rewrite Hs, Hns. unwrap.
  wp_step. do 2 wp_step. rewrite !(leaf_offset b vals) by (done || lia). rewrite (Z.mul_comm _ vs).
  set (b1 := splice _ _ b).
  assert (length b1 = length b) as Hl1 by (apply length_copy; unfold node_header_size; nia).
  eapply wp_mono; [apply (leaf_set_size_spec _ b (vals ++ nvals) vals); rewrite ?length_app; try done; try lia|].
  - intros i w Hi. unfold b1. rewrite cell_copy by (unfold node_header_size; nia).
    apply lookup_app_Some in Hi as [Hi|[Hge Hi]]; apply lookup_lt_Some in Hi as Hi'; case_decide; try lia.
    + by apply (leaf_cell b vals).
    + replace (0 + (Z.of_nat i - zlen vals)) with (Z.of_nat (i - length vals)) by lia. by apply (leaf_cell nb nvals).
  - cbn beta. intros _ b' [Hok' Hl']. split; [done|]. by rewrite Hl', Hl1.
Qed.

Lemma leaf_prepend_from_left_spec b vals nb nvals :
  leaf_ok b vals -> leaf_ok nb nvals -> zlen vals + zlen nvals <= cap ->
  wp (leaf_node.prepend_from_left vs cap nb) b (fun _ b' =>
    leaf_ok b' (nvals ++ vals) /\ length b' = length b).
Proof.
  intros Hok Hn Hcap. pose proof Hok as [Hv Hl Hs Hc Hvals]. pose proof Hn as [_ Hnl Hns _ Hnvals].
  unfold node_header_size in Hl, Hnl.
  unfold leaf_node.prepend_from_left, leaf_node.get_size, move_in, copy_from. do 3 wp_step. rewrite Hs, Hns. unwrap.
  wp_step. do 4 wp_step. rewrite !(leaf_offset b vals) by (done || lia). rewrite !(Z.mul_comm _ vs).
  set (b1 := splice _ _ b).
  assert (length b1 = length b) as Hl1 by (apply length_copy; unfold node_header_size; nia).
  set (b2 := splice _ _ b1).
  assert (length b2 = length b) as Hl2 by (rewrite <- Hl1; apply length_copy; unfold node_header_size; nia).
  eapply wp_mono; [apply (leaf_set_size_spec _ b (nvals ++ vals) vals); rewrite ?length_app; try done; try lia|].
  - intros i w Hi. unfold b2. rewrite cell_copy by (unfold node_header_size; nia).
    apply lookup_app_Some in Hi as [Hi|[Hge Hi]]; apply lookup_lt_Some in Hi as Hi'; case_decide; try lia.
    + replace (0 + (Z.of_nat i - 0)) with (Z.of_nat i) by lia. by apply (leaf_cell nb nvals).
    + unfold b1. rewrite cell_copy by (unfold node_header_size; nia). case_decide; [|lia].
      replace (0 + (Z.of_nat i - zlen nvals)) with (Z.of_nat (i - length nvals)) by lia. by apply (leaf_cell b vals).
  - cbn beta. intros _ b' [Hok' Hl']. split; [done|]. by rewrite Hl', Hl2.
Qed.

Lemma leaf_on_left {X} (m : M bytes X) l r Q :
  wp m l (fun x l' => Q x (l', r)) -> wp (leaf_node.on_left m) (l, r) Q.
Proof. apply (wp_zoom fst (fun l s => (l, s.2)) m (l, r)). Qed.
Lemma leaf_on_right {X} (m : M bytes X) l r Q :
  wp m r (fun x r' => Q x (l, r')) -> wp (leaf_node.on_right m) (l, r) Q.
Proof. apply (wp_zoom snd (fun r s => (s.1, r)) m (l, r)). Qed.

Lemma seq_offset_eq b vals i : leaf_ok b vals -> 0 <= i <= cap ->
  leaf_node.seq_offset vs i = node_header_size + vs * i.
Proof.
  intros Hok Hi. unfold leaf_node.seq_offset. rewrite (leaf_offset b vals) by (done || (pose proof (l_cap _ _ Hok); lia)).
  destruct Hok as [Hv Hl _ _ _]. unfold node_header_size in *. assert (0 <= vs * i <= vs * cap) by nia.
  unwrap. lia.
Qed.

Lemma leaf_move_to_right_spec l r vals0 src dst n (Q : unit -> bytes * bytes -> Prop) :
  leaf_ok l vals0 -> length r = length l ->
  0 <= src -> 0 <= dst -> 0 <= n -> src + n <= cap -> dst + n <= cap ->
  Q tt (l, splice (node_header_size + vs * dst) (slice (node_header_size + vs * src) (vs * n) l) r) ->
  wp (leaf_node.move_to_right vs src dst n) (l, r) Q.
Proof.
  intros Hok Hlen Hs Hd Hn Hsn Hdn HQ. pose proof (l_vs _ _ Hok). pose proof (l_len _ _ Hok) as Hl.
  unfold node_header_size in Hl. unfold leaf_node.move_to_right, copy_from. do 2 wp_step. apply leaf_on_right. wp_step.
  cbn [fst]. rewrite !(seq_offset_eq l vals0) by (done || lia). unwrap. by rewrite (Z.mul_comm n vs).
Qed.

(** The values after [sequence_insert], before the counters are set. *)
Lemma sequence_insert_spec l r vals (k : nat) v mid :
  leaf_ok l vals -> leaf_ok r [] -> length r = length l -> zlen vals = cap -> 0 < mid <= cap ->
  (k <= length vals)%nat -> zlen v = vs ->
  wp (leaf_node.sequence_insert vs cap mid (Z.of_nat k) v) (l, r) (fun _ s =>
    length s.1 = length l /\ length s.2 = length r /\
    (forall (i : nat) w, take (Z.to_nat mid) (insert_at k v vals) !! i = Some w ->
       cell node_header_size vs (Z.of_nat i) s.1 = w) /\
    (forall (i : nat) w, drop (Z.to_nat mid) (insert_at k v vals) !! i = Some w ->
       cell node_header_size vs (Z.of_nat i) s.2 = w)).
Proof.
  intros Hok Hr Hlen Hfull Hmid Hk Hvl. pose proof Hok as [Hv Hl Hs Hc Hvals]. unfold node_header_size in Hl.
  assert (slice 0 vs v = v) as Hsv by (by apply slice_all).
  unfold leaf_node.sequence_insert. wp_step. wp_step. wp_step. wp_step.
  destruct (Z.ltb_spec (Z.of_nat k) mid) as [Hlt|Hge].
  - unwrap. wp_step. apply (leaf_move_to_right_spec l r vals); [done|done|lia..|]. unfold move_in, copy_from.
    wp_step. apply leaf_on_left. wp_step. apply leaf_on_left. wp_step. cbn [fst snd].
    rewrite !(seq_offset_eq l vals) by (done || lia). rewrite (Z.mul_comm _ vs), Hsv.
    set (b1 := splice _ _ l). assert (length b1 = length l) as Hl1 by (apply length_copy; unfold node_header_size; nia).
    split_and!.
    + rewrite length_splice; unfold node_header_size; nia.
    + apply length_copy; unfold node_header_size; nia.
    + intros i w [Hi Hm]%lookup_take_Some. rewrite lookup_insert_at in Hi by done.
      rewrite cell_put by (unfold node_header_size; nia). repeat case_decide; try lia; simplify_eq; try done.
      * unfold b1. rewrite cell_copy by (unfold node_header_size; nia). case_decide; [lia|]. by apply (leaf_cell l vals).
      * unfold b1. rewrite cell_copy by (unfold node_header_size; nia). case_decide; [|lia].
        replace (Z.of_nat k + (Z.of_nat i - (Z.of_nat k + 1))) with (Z.of_nat (i - 1)) by lia. by apply (leaf_cell l vals).
    + intros i w Hi. rewrite lookup_drop, lookup_insert_at in Hi by done. repeat case_decide; try lia.
      apply lookup_lt_Some in Hi as Hi'. rewrite cell_copy by (unfold node_header_size; nia). case_decide; [|lia].
      replace (mid - 1 + (Z.of_nat i - 0)) with (Z.of_nat (Z.to_nat mid + i - 1)) by lia. by apply (leaf_cell l vals).
  - unwrap. wp_step. apply (leaf_move_to_right_spec l r vals); [done|done|lia..|]. unfold copy_from at 1.
    set (r1 := splice _ _ r). assert (length r1 = length r) as Hl1 by (apply length_copy; unfold node_header_size; nia).
    wp_step. apply leaf_on_right. wp_step. rewrite !(seq_offset_eq l vals) by (done || lia). rewrite Hsv.
    set (r2 := splice _ v r1).
    assert (length r2 = length r) as Hl2 by (unfold r2; rewrite length_splice; unfold node_header_size; nia).
    apply (leaf_move_to_right_spec l r2 vals); [done|congruence|lia..|]. cbn [fst snd]. split_and!.
    + done.
    + rewrite length_copy; unfold node_header_size; lia || nia.
    + intros i w [Hi Hm]%lookup_take_Some. rewrite lookup_insert_at in Hi by done. repeat case_decide; try lia.
      by apply (leaf_cell l vals).
    + intros i w Hi. rewrite lookup_drop, lookup_insert_at in Hi by done.
      rewrite cell_copy by (unfold node_header_size; nia). repeat case_decide; try lia; simplify_eq.
      * unfold r2. rewrite cell_put by (unfold node_header_size; nia). case_decide; [lia|].
        unfold r1. rewrite cell_copy by (unfold node_header_size; nia). case_decide; [|lia].
        replace (mid + (Z.of_nat i - 0)) with (Z.of_nat (Z.to_nat mid + i)) by lia. by apply (leaf_cell l vals).
      * unfold r2. rewrite cell_put by (unfold node_header_size; nia). by case_decide; [|lia].
      * apply lookup_lt_Some in Hi as Hi'. 
        replace (mid + (Z.of_nat k - mid) + (Z.of_nat i - (Z.of_nat k - mid + 1))) with (Z.of_nat (Z.to_nat mid + i - 1)) by lia.
        by apply (leaf_cell l vals).
      * apply lookup_lt_Some in Hi as Hi'. lia.
Qed.

Lemma leaf_insert_full_spec l r vals (k : nat) v mid :
  leaf_ok l vals -> leaf_ok r [] -> length r = length l -> zlen vals = cap -> 0 < mid <= cap ->
  (k <= length vals)%nat -> zlen v = vs ->
  wp (leaf_node.insert_full vs cap (Z.of_nat k) v mid) (l, r) (fun _ s =>
    leaf_ok s.1 (take (Z.to_nat mid) (insert_at k v vals)) /\
    leaf_ok s.2 (drop (Z.to_nat mid) (insert_at k v vals)) /\
    length s.1 = length l /\ length s.2 = length r).
Proof.
  intros Hok Hr Hlen Hfull Hmid Hk Hvl. pose proof (l_len _ _ Hok) as Hl. pose proof (l_vs _ _ Hok).
  unfold node_header_size in Hl. unfold leaf_node.insert_full, leaf_node.get_size.
  wp_step. wp_step. wp_step. apply leaf_on_right. wp_step. rewrite (l_size _ _ Hr). wp_step. wp_step.
  wp_step. apply leaf_on_left. wp_step. rewrite (l_size _ _ Hok). wp_step. wp_step. wp_step.
  eapply wp_mono; [by apply (sequence_insert_spec l r vals)|]. cbn beta.
  intros _ [l1 r1] (Hl1 & Hr1 & Hcl & Hcr). cbn [fst snd] in *. unwrap. wp_step. apply leaf_on_left.
  eapply wp_mono; [apply (leaf_set_size_spec l1 l (take (Z.to_nat mid) (insert_at k v vals)) vals)|]; try done.
  - rewrite length_take. lia.
  - rewrite length_take, length_insert_at. lia.
  - cbn beta. intros _ l2 [Hl2 Hll2]. apply leaf_on_right.
    eapply wp_mono; [apply (leaf_set_size_spec r1 r (drop (Z.to_nat mid) (insert_at k v vals)) [])|]; try done.
    + rewrite length_drop, length_insert_at. lia.
    + rewrite length_drop, length_insert_at. lia.
    + cbn beta. intros _ r2 [Hr2 Hlr2]. cbn [fst snd]. split_and!; try done; congruence.
Qed.
End leaf_spec.

(** ** Internal nodes *)

Section internal_spec.
Context (ks mc : Z).
Implicit Types (b key : bytes) (keys : list bytes) (children : list Z) (c : Z).

Abbreviation kb := node_header_size.
Definition child_base : Z := node_header_size + ks * (mc - 1).
Definition child_at (i : Z) b : Z := be_decode (cell child_base 8 i b).

(** The block [b] is an internal node; a node without children is one that
    was just created. *)
Record internal_ok b keys children : Prop := {
  i_ks : 0 < ks;
  i_mc : 4 <= mc;
  i_len : child_base + 8 * mc <= zlen b < 2 ^ 32;
  i_size : node_size b = zlen children;
  i_count : zlen children <= mc;
  i_lengths : length keys = (length children - 1)%nat;
  i_keys : forall (i : nat) key, keys !! i = Some key -> cell kb ks (Z.of_nat i) b = key;
  i_children : forall (i : nat) c, children !! i = Some c -> child_at (Z.of_nat i) b = c
}.

Lemma internal_max_keys b keys children : internal_ok b keys children ->
  internal_node.max_keys mc = mc - 1.
Proof.
  intros [Hk Hm Hl _ _ _ _ _]. unfold internal_node.max_keys, child_base, node_header_size in *. by unwrap.
Qed.

Lemma internal_offset_key b keys children i : internal_ok b keys children -> 0 <= i <= mc - 1 ->
  internal_node.offset_of_key ks i = kb + ks * i.
Proof.
  intros [Hk Hm Hl _ _ _ _ _] Hi. unfold internal_node.offset_of_key, child_base, node_header_size in *.
  assert (0 <= ks * i <= ks * (mc - 1)) by nia. by unwrap.
Qed.

Lemma internal_offset_child b keys children i : internal_ok b keys children -> 0 <= i <= mc ->
  internal_node.offset_of_child ks mc i = child_base + 8 * i.
Proof.
  intros Hok Hi. unfold internal_node.offset_of_child. rewrite (internal_max_keys _ _ _ Hok).
  destruct Hok as [Hk Hm Hl _ _ _ _ _]. unfold child_base, internal_node.block_index_size, node_header_size in *.
  assert (0 <= (mc - 1) * ks) by nia. unwrap. lia.
Qed.

Lemma internal_key_length b keys children (i : nat) key :
  internal_ok b keys children -> keys !! i = Some key -> zlen key = ks.
Proof.
  intros [Hk Hm Hl _ Hc Hlen Hkeys _] Hi. rewrite <- (Hkeys i key Hi). apply lookup_lt_Some in Hi.
  unfold child_base, node_header_size in *. apply length_slice; nia.
Qed.

(** Changes of a key, a child or the counter. *)
Lemma key_put_key b i k key : 0 < ks -> 0 <= k < mc - 1 -> 0 <= i -> zlen key = ks ->
  child_base + 8 * mc <= zlen b ->
  cell kb ks i (splice (kb + ks * k) key b) = if decide (i = k) then key else cell kb ks i b.
Proof. intros. unfold child_base, node_header_size in *. apply cell_put; nia. Qed.

Lemma child_put_key b i k key : 0 < ks -> 0 <= k < mc - 1 -> 0 <= i -> zlen key = ks ->
  child_base + 8 * mc <= zlen b -> child_at i (splice (kb + ks * k) key b) = child_at i b.
Proof.
  intros. unfold child_at. f_equal. unfold child_base, node_header_size in *. apply cell_other; nia.
Qed.

Lemma key_put_child b i k c : 0 < ks -> 4 <= mc -> 0 <= k < mc -> 0 <= i < mc - 1 ->
  child_base + 8 * mc <= zlen b ->
  cell kb ks i (splice (child_base + 8 * k) (be_encode 8 c) b) = cell kb ks i b.
Proof.
  intros. unfold child_base, node_header_size in *. apply cell_other; rewrite ?length_be_encode; nia.
Qed.

Lemma child_put_child b i k c : 0 < ks -> 4 <= mc -> 0 <= k < mc -> 0 <= i -> is_u64 c ->
  child_base + 8 * mc <= zlen b ->
  child_at i (splice (child_base + 8 * k) (be_encode 8 c) b) = if decide (i = k) then c else child_at i b.
Proof.
  intros. unfold child_at. unfold child_base, node_header_size in *.
  rewrite cell_put by (rewrite ?length_be_encode; nia). case_decide; [|done]. by apply be_decode_encode_small.
Qed.

(** Moves of keys and children. *)
Lemma key_copy_keys b d i dst src n : 0 < ks -> 4 <= mc -> 0 <= dst -> 0 <= src -> 0 <= n -> 0 <= i ->
  dst + n <= mc - 1 -> src + n <= mc - 1 -> child_base + 8 * mc <= zlen b -> child_base + 8 * mc <= zlen d ->
  cell kb ks i (splice (kb + ks * dst) (slice (kb + ks * src) (ks * n) d) b) =
    if decide (dst <= i < dst + n) then cell kb ks (src + (i - dst)) d else cell kb ks i b.
Proof. intros. unfold child_base, node_header_size in *. apply cell_copy; nia. Qed.

Lemma child_copy_keys b d i dst src n : 0 < ks -> 4 <= mc -> 0 <= dst -> 0 <= src -> 0 <= n -> 0 <= i ->
  dst + n <= mc - 1 -> src + n <= mc - 1 -> child_base + 8 * mc <= zlen b -> child_base + 8 * mc <= zlen d ->
  child_at i (splice (kb + ks * dst) (slice (kb + ks * src) (ks * n) d) b) = child_at i b.
Proof.
  intros. unfold child_at. f_equal. unfold child_base, node_header_size in *.
  apply cell_other; rewrite ?length_slice; nia.
Qed.

Lemma key_copy_children b d i dst src n : 0 < ks -> 4 <= mc -> 0 <= dst -> 0 <= src -> 0 <= n -> 0 <= i < mc - 1 ->
  dst + n <= mc -> src + n <= mc -> child_base + 8 * mc <= zlen b -> child_base + 8 * mc <= zlen d ->
  cell kb ks i (splice (child_base + 8 * dst) (slice (child_base + 8 * src) (8 * n) d) b) = cell kb ks i b.
Proof.
  intros. unfold child_base, node_header_size in *. apply cell_other; rewrite ?length_slice; nia.
Qed.

Lemma child_copy_children b d i dst src n : 0 < ks -> 4 <= mc -> 0 <= dst -> 0 <= src -> 0 <= n -> 0 <= i ->
  dst + n <= mc -> src + n <= mc -> child_base + 8 * mc <= zlen b -> child_base + 8 * mc <= zlen d ->
  child_at i (splice (child_base + 8 * dst) (slice (child_base + 8 * src) (8 * n) d) b) =
    if decide (dst <= i < dst + n) then child_at (src + (i - dst)) d else child_at i b.
Proof.
  intros. unfold child_at. unfold child_base, node_header_size in *. rewrite cell_copy by nia. by case_decide.
Qed.

Lemma length_copy_keys b d dst src n : 0 < ks -> 4 <= mc -> 0 <= dst -> 0 <= src -> 0 <= n ->
  dst + n <= mc - 1 -> src + n <= mc - 1 -> child_base + 8 * mc <= zlen b -> child_base + 8 * mc <= zlen d ->
  length (splice (kb + ks * dst) (slice (kb + ks * src) (ks * n) d) b) = length b.
Proof. intros. unfold child_base, node_header_size in *. apply length_copy; nia. Qed.

Lemma length_copy_children b d dst src n : 0 < ks -> 4 <= mc -> 0 <= dst -> 0 <= src -> 0 <= n ->
  dst + n <= mc -> src + n <= mc -> child_base + 8 * mc <= zlen b -> child_base + 8 * mc <= zlen d ->
  length (splice (child_base + 8 * dst) (slice (child_base + 8 * src) (8 * n) d) b) = length b.
Proof. intros. unfold child_base, node_header_size in *. apply length_copy; nia. Qed.

Lemma length_put_key b k key : 0 < ks -> 0 <= k < mc - 1 -> zlen key = ks -> child_base + 8 * mc <= zlen b ->
  length (splice (kb + ks * k) key b) = length b.
Proof. intros. unfold child_base, node_header_size in *. apply length_splice; nia. Qed.

Lemma length_put_child b k c : 0 < ks -> 4 <= mc -> 0 <= k < mc -> child_base + 8 * mc <= zlen b ->
  length (splice (child_base + 8 * k) (be_encode 8 c) b) = length b.
Proof.
  intros. unfold child_base, node_header_size in *. apply length_splice; rewrite ?length_be_encode; nia.
Qed.

Lemma internal_set_child_count_spec b b0 keys0 children0 keys children n :
  internal_ok b0 keys0 children0 -> length b = length b0 -> zlen children <= mc -> n = zlen children ->
  length keys = (length children - 1)%nat ->
  (forall (i : nat) key, keys !! i = Some key -> cell kb ks (Z.of_nat i) b = key) ->
  (forall (i : nat) c, children !! i = Some c -> child_at (Z.of_nat i) b = c) ->
  wp (internal_node.set_child_count mc n) b (fun _ b' => internal_ok b' keys children /\ length b' = length b).
Proof.
  intros [Hk Hm Hl _ _ _ _ _] Hlen Hc -> Hkl Hkeys Hch. unfold internal_node.set_child_count.
  assert (4 <= child_base) by (unfold child_base, node_header_size; nia).
  do 3 wp_step. split; [|apply length_put_node_size; lia]. split; try done.
  - rewrite length_put_node_size by lia. by rewrite Hlen.
  - apply node_size_put; [unfold is_word|]; lia.
  - intros i key Hi. unfold node_header_size. rewrite cell_put_node_size by lia. by apply Hkeys.
  - intros i c Hi. unfold child_at. rewrite cell_put_node_size by lia. by apply Hch.
Qed.

Lemma internal_get_child_spec b keys children (i : nat) c (Q : Z -> bytes -> Prop) :
  internal_ok b keys children -> children !! i = Some c -> Q c b ->
  wp (internal_node.get_child ks mc (Z.of_nat i)) b Q.
Proof.
  intros Hok Hi HQ. pose proof Hok as [Hk Hm Hl _ Hc _ _ Hch]. apply lookup_lt_Some in Hi as Hi'.
  assert (0 <= child_base) by (unfold child_base, node_header_size; nia).
  unfold internal_node.get_child, internal_node.assert_child, block_get_index, extent.check_range.
  wp_step. wp_step. do 2 wp_step. rewrite (internal_offset_child _ _ _ _ Hok) by lia. wp_step. wp_step. wp_step.
  by rewrite (Hch i c Hi : be_decode (slice _ _ _) = c).
Qed.

Lemma internal_get_key_spec b keys children (i : nat) key (Q : bytes -> bytes -> Prop) :
  internal_ok b keys children -> keys !! i = Some key -> Q key b ->
  wp (internal_node.get_key ks mc (Z.of_nat i)) b Q.
Proof.
  intros Hok Hi HQ. pose proof Hok as [Hk Hm Hl _ Hc Hlen Hkeys _]. apply lookup_lt_Some in Hi as Hi'.
  unfold internal_node.get_key, internal_node.assert_key. rewrite (internal_max_keys _ _ _ Hok). wp_step. wp_step.
  wp_step. rewrite (internal_offset_key _ _ _ _ Hok) by lia. by rewrite (Hkeys i key Hi : slice _ _ _ = key).
Qed.

Lemma internal_set_key_spec b keys children (k : nat) key :
  internal_ok b keys children -> (k < length keys)%nat -> zlen key = ks ->
  wp (internal_node.set_key ks mc (Z.of_nat k) key) b (fun _ b' =>
    internal_ok b' (<[k := key]> keys) children /\ length b' = length b).
Proof.
  intros Hok Hk Hkey. pose proof Hok as [H0 Hm Hl Hs Hc Hlen Hkeys Hch].
  unfold internal_node.set_key, internal_node.assert_key, block_write, extent.check_range.
  rewrite (internal_max_keys _ _ _ Hok). wp_step. wp_step. do 2 wp_step.
  rewrite (internal_offset_key _ _ _ _ Hok) by lia. rewrite Hkey.
  wp_step. wp_step; [unfold child_base, node_header_size in *; nia|]. wp_step.
  pose proof (length_put_key b (Z.of_nat k) key ltac:(lia) ltac:(lia) Hkey ltac:(lia)) as Hl'. split; [|done].
  split; rewrite ?length_insert; try done.
  - by rewrite Hl'.
  - unfold node_size. rewrite slice_splice_disjoint by (unfold child_base, node_header_size in *; nia). exact Hs.
  - intros i w Hi. rewrite key_put_key by lia.
    apply list_lookup_insert_Some in Hi as [(-> & -> & _)|[Hne Hi]]; [by rewrite decide_True|].
    rewrite decide_False by lia. by apply Hkeys.
  - intros i c Hi. rewrite child_put_key by lia. by apply Hch.
Qed.

(** Rewrites offsets into keys and children. *)
Ltac internal_offsets Hok :=
  unwrap; rewrite ?(internal_max_keys _ _ _ Hok);
  repeat (rewrite (internal_offset_key _ _ _ _ Hok) by lia);
  repeat (rewrite (internal_offset_child _ _ _ _ Hok) by lia).

Lemma internal_insert_split_result_spec b keys children (k : nat) key c :
  internal_ok b keys children -> (1 <= k <= length children)%nat -> zlen children < mc ->
  zlen key = ks -> is_u64 c ->
  wp (internal_node.insert_split_result ks mc (Z.of_nat k) key c) b (fun _ b' =>
    internal_ok b' (insert_at (k - 1) key keys) (insert_at k c children) /\ length b' = length b).
Proof.
  intros Hok Hk Hlt Hkey Hc64. pose proof Hok as [H0 Hm Hl Hs Hc Hlen Hkeys Hch].
  assert (0 <= child_base) by (unfold child_base, node_header_size; nia).
  assert (child_base < 2 ^ 32) by lia. assert (ks * (mc - 1) < 2 ^ 32) by (unfold child_base, node_header_size in *; lia).
  unfold internal_node.insert_split_result, internal_node.get_child_count, internal_node.assert_key,
    internal_node.assert_child, internal_node.block_index_size, move_in.
  do 2 wp_step. rewrite Hs. do 4 wp_step. unwrap. rewrite (internal_max_keys _ _ _ Hok). do 4 wp_step.
  do 4 wp_step. do 4 wp_step. internal_offsets Hok.
  replace (kb + ks * (Z.of_nat k - 1) + ks) with (kb + ks * Z.of_nat k) by lia.
  replace (child_base + 8 * Z.of_nat k + 8) with (child_base + 8 * (Z.of_nat k + 1)) by lia.
  set (b1 := splice _ _ b). assert (length b1 = length b) as Hl1 by (apply length_copy_keys; lia).
  set (b2 := splice _ _ b1).
  assert (length b2 = length b) as Hl2 by (rewrite <- Hl1; apply length_put_key; lia).
  set (b3 := splice _ _ b2).
  assert (length b3 = length b) as Hl3 by (rewrite <- Hl2; apply length_copy_children; lia).
  set (b4 := splice _ _ b3).
  assert (length b4 = length b) as Hl4 by (rewrite <- Hl3; apply length_put_child; lia).
  eapply wp_mono; [apply (internal_set_child_count_spec _ b keys children (insert_at (k - 1) key keys) (insert_at k c children));
    rewrite ?length_insert_at; try done; try lia|].
  - intros i w Hi. rewrite lookup_insert_at in Hi by lia.
    assert (i <= length keys)%nat by (repeat case_decide; simplify_eq; try lia; apply lookup_lt_Some in Hi; lia).
    unfold b4. rewrite key_put_child by lia. unfold b3. rewrite key_copy_children by lia.
    unfold b2. rewrite key_put_key by lia. unfold b1. rewrite key_copy_keys by lia.
    repeat case_decide; try lia; simplify_eq; try done; [by apply Hkeys|].
    replace (Z.of_nat k - 1 + (Z.of_nat i - Z.of_nat k)) with (Z.of_nat (i - 1)) by lia. by apply Hkeys.
  - assert (forall j : nat, child_at (Z.of_nat j) b2 = child_at (Z.of_nat j) b) as Hb2.
    { intros j. unfold b2. rewrite child_put_key by lia. unfold b1. by rewrite child_copy_keys by lia. }
    intros i w Hi. rewrite lookup_insert_at in Hi by lia. unfold b4. rewrite child_put_child by (done || lia).
    unfold b3. rewrite child_copy_children by lia. repeat case_decide; try lia; simplify_eq; try done.
    + rewrite Hb2. by apply Hch.
    + replace (Z.of_nat k + (Z.of_nat i - (Z.of_nat k + 1))) with (Z.of_nat (i - 1)) by lia.
      rewrite Hb2. by apply Hch.
    + apply lookup_lt_Some in Hi. lia.
  - cbn beta. intros _ b' [Hok' Hl']. split; [done|]. by rewrite Hl', Hl4.
Qed.

Lemma internal_append_entry_spec b keys children key c :
  internal_ok b keys children -> (1 <= length children)%nat -> zlen children < mc ->
  zlen key = ks -> is_u64 c ->
  wp (internal_node.append_entry ks mc key c) b (fun _ b' =>
    internal_ok b' (keys ++ [key]) (children ++ [c]) /\ length b' = length b).
Proof.
  intros Hok Hk Hlt Hkey Hc64. pose proof Hok as [H0 Hm Hl Hs Hc Hlen Hkeys Hch].
  assert (0 <= child_base) by (unfold child_base, node_header_size; nia).
  unfold internal_node.append_entry, internal_node.get_child_count, internal_node.assert_key,
    internal_node.assert_child. do 2 wp_step. rewrite Hs. do 2 wp_step. unwrap.
  rewrite (internal_max_keys _ _ _ Hok). do 4 wp_step. do 4 wp_step. internal_offsets Hok.
  set (b1 := splice _ _ b). assert (length b1 = length b) as Hl1 by (apply length_put_key; lia).
  set (b2 := splice _ _ b1). assert (length b2 = length b) as Hl2 by (rewrite <- Hl1; apply length_put_child; lia).
  eapply wp_mono; [apply (internal_set_child_count_spec _ b keys children (keys ++ [key]) (children ++ [c]));
    rewrite ?length_app; cbn [length]; try done; try lia|].
  - intros i w Hi. apply lookup_app_Some in Hi as [Hi|[Hge Hi]]; apply lookup_lt_Some in Hi as Hi'; cbn in Hi'.
    + unfold b2. rewrite key_put_child by lia. unfold b1. rewrite key_put_key, decide_False by lia. by apply Hkeys.
    + replace (i - length keys)%nat with 0%nat in Hi by lia. injection Hi as <-.
      unfold b2. rewrite key_put_child by lia. unfold b1. by rewrite key_put_key, decide_True by lia.
  - intros i w Hi. apply lookup_app_Some in Hi as [Hi|[Hge Hi]]; apply lookup_lt_Some in Hi as Hi'; cbn in Hi'.
    + unfold b2. rewrite child_put_child, decide_False by (done || lia). unfold b1. rewrite child_put_key by lia. by apply Hch.
    + replace (i - length children)%nat with 0%nat in Hi by lia. injection Hi as <-.
      unfold b2. by rewrite child_put_child, decide_True by (done || lia).
  - cbn beta. intros _ b' [Hok' Hl']. split; [done|]. by rewrite Hl', Hl2.
Qed.

Lemma internal_prepend_entry_spec b keys children key c :
  internal_ok b keys children -> (1 <= length children)%nat -> zlen children < mc ->
  zlen key = ks -> is_u64 c ->
  wp (internal_node.prepend_entry ks mc key c) b (fun _ b' =>
    internal_ok b' (key :: keys) (c :: children) /\ length b' = length b).
Proof.
  intros Hok Hk Hlt Hkey Hc64. pose proof Hok as [H0 Hm Hl Hs Hc Hlen Hkeys Hch].
  assert (0 <= child_base) by (unfold child_base, node_header_size; nia).
  assert (ks * (mc - 1) < 2 ^ 32) by (unfold child_base, node_header_size in *; lia).
  unfold internal_node.prepend_entry, internal_node.get_child_count, internal_node.assert_key,
    internal_node.assert_child, internal_node.block_index_size, move_in. do 2 wp_step. rewrite Hs. do 2 wp_step.
  rewrite (internal_max_keys _ _ _ Hok). do 4 wp_step. do 4 wp_step. do 4 wp_step. internal_offsets Hok.
  set (b1 := splice _ _ b). assert (length b1 = length b) as Hl1 by (apply length_copy_keys; lia).
  set (b2 := splice _ _ b1). assert (length b2 = length b) as Hl2 by (rewrite <- Hl1; apply length_copy_children; lia).
  set (b3 := splice _ _ b2). assert (length b3 = length b) as Hl3 by (rewrite <- Hl2; apply length_put_key; lia).
  set (b4 := splice _ _ b3). assert (length b4 = length b) as Hl4 by (rewrite <- Hl3; apply length_put_child; lia).
  eapply wp_mono; [apply (internal_set_child_count_spec _ b keys children (key :: keys) (c :: children));
    cbn [length]; try done; try lia|].
  - intros [|i] w Hi; cbn in Hi; [injection Hi as <-|apply lookup_lt_Some in Hi as Hi']; unfold b4;
      rewrite key_put_child by lia; unfold b3; rewrite key_put_key by lia; case_decide; try lia; try done.
    unfold b2. rewrite key_copy_children by lia. unfold b1. rewrite key_copy_keys, decide_True by lia.
    replace (0 + (Z.of_nat (S i) - 1)) with (Z.of_nat i) by lia. by apply Hkeys.
  - intros [|i] w Hi; cbn in Hi; [injection Hi as <-|apply lookup_lt_Some in Hi as Hi']; unfold b4;
      rewrite child_put_child by (done || lia); case_decide; try lia; try done.
    unfold b3. rewrite child_put_key by lia. unfold b2. rewrite child_copy_children, decide_True by lia.
    replace (0 + (Z.of_nat (S i) - 1)) with (Z.of_nat i) by lia. unfold b1. rewrite child_copy_keys by lia. by apply Hch.
  - cbn beta. intros _ b' [Hok' Hl']. split; [done|]. by rewrite Hl', Hl4.
Qed.

(** The keys after the removal of a child: its key, or the last one. *)
Definition remove_key (k : nat) keys : list bytes := delete (k `min` (length keys - 1))%nat keys.

Lemma internal_remove_child_spec b keys children (k : nat) :
  internal_ok b keys children -> (k < length children)%nat -> (2 <= length children)%nat ->
  wp (internal_node.remove_child ks mc (Z.of_nat k)) b (fun _ b' =>
    internal_ok b' (remove_key k keys) (delete k children) /\ length b' = length b).
Proof.
  intros Hok Hk H2. pose proof Hok as [H0 Hm Hl Hs Hc Hlen Hkeys Hch].
  assert (0 <= child_base) by (unfold child_base, node_header_size; nia).
  assert (ks * (mc - 1) < 2 ^ 32) by (unfold child_base, node_header_size in *; lia).
  assert (length (delete k children) = (length children - 1)%nat) as Hdl
    by (rewrite length_delete by (by apply lookup_lt_is_Some_2); lia).
  assert (length (remove_key k keys) = (length keys - 1)%nat) as Hdk.
  { unfold remove_key. rewrite length_delete by (apply lookup_lt_is_Some_2; lia). lia. }
  unfold internal_node.remove_child, internal_node.get_child_count, internal_node.assert_key,
    internal_node.assert_child, internal_node.block_index_size, move_in. do 2 wp_step. rewrite Hs. do 2 wp_step.
  unwrap. do 4 wp_step. do 2 wp_step. internal_offsets Hok.
  set (b1 := splice _ _ b). assert (length b1 = length b) as Hl1 by (apply length_copy_children; lia).
  assert (forall i : nat, (i < length keys)%nat -> cell kb ks (Z.of_nat i) b1 = cell kb ks (Z.of_nat i) b) as Hk1
    by (intros i Hi; unfold b1; by rewrite key_copy_children by lia).
  assert (forall (i : nat) c, delete k children !! i = Some c -> child_at (Z.of_nat i) b1 = c) as Hc1.
  { intros i c Hi. apply lookup_lt_Some in Hi as Hi'. rewrite lookup_delete_at in Hi.
    unfold b1. rewrite child_copy_children by lia. repeat case_decide; try lia; [by apply Hch|].
    replace (Z.of_nat k + 1 + (Z.of_nat i - Z.of_nat k)) with (Z.of_nat (S i)) by lia. by apply Hch. }
  assert (forall b2, length b2 = length b ->
    (forall (i : nat) key, remove_key k keys !! i = Some key -> cell kb ks (Z.of_nat i) b2 = key) ->
    (forall i : nat, child_at (Z.of_nat i) b2 = child_at (Z.of_nat i) b1) ->
    wp (internal_node.set_child_count mc (zlen children - 1)) b2 (fun _ b' =>
      internal_ok b' (remove_key k keys) (delete k children) /\ length b' = length b)) as Hend.
  { intros b2 Hl2 Hk2 Hc2. eapply wp_mono; [apply (internal_set_child_count_spec _ b keys children
      (remove_key k keys) (delete k children)); rewrite ?Hdl; try done; try lia|].
    - intros i c Hi. rewrite Hc2. by apply Hc1.
    - cbn beta. intros _ b' [Hok' Hl']. split; [done|congruence]. }
  wp_step. destruct (Z.eqb_spec (Z.of_nat k) (zlen children - 1)) as [Heq|Hne]; cbn [negb].
  - wp_step. apply Hend; [done| |done]. intros i key Hi. apply lookup_lt_Some in Hi as Hi'.
    rewrite Hk1 by lia. apply Hkeys. unfold remove_key in Hi. rewrite lookup_delete_at in Hi. by case_decide; [|lia].
  - do 4 wp_step. wp_step. internal_offsets Hok. set (b2 := splice _ _ b1).
    assert (length b2 = length b) as Hl2 by (rewrite <- Hl1; apply length_copy_keys; lia).
    apply Hend; [done| |intros i; unfold b2; by rewrite child_copy_keys by lia].
    intros i key Hi. apply lookup_lt_Some in Hi as Hi'. unfold remove_key in Hi. rewrite lookup_delete_at in Hi.
    unfold b2. rewrite key_copy_keys by lia. repeat case_decide; try lia.
    + rewrite Hk1 by lia. by apply Hkeys.
    + replace (Z.of_nat k + 1 + (Z.of_nat i - Z.of_nat k)) with (Z.of_nat (S i)) by lia.
      rewrite Hk1 by lia. by apply Hkeys.
Qed.

Lemma internal_append_from_right_spec b keys children nb nkeys nchildren key :
  internal_ok b keys children -> internal_ok nb nkeys nchildren ->
  (1 <= length children)%nat -> (1 <= length nchildren)%nat -> zlen children + zlen nchildren <= mc ->
  zlen key = ks ->
  wp (internal_node.append_from_right ks mc key nb) b (fun _ b' =>
    internal_ok b' (keys ++ key :: nkeys) (children ++ nchildren) /\ length b' = length b).
Proof.
  intros Hok Hnok Hk Hnk Hsum Hkey. pose proof Hok as [H0 Hm Hl Hs Hc Hlen Hkeys Hch].
  pose proof Hnok as [_ _ Hnl Hns _ Hnlen Hnkeys Hnch].
  assert (0 <= child_base) by (unfold child_base, node_header_size; nia).
  assert (ks * (mc - 1) < 2 ^ 32) by (unfold child_base, node_header_size in *; lia).
  unfold internal_node.append_from_right, internal_node.get_child_count, internal_node.assert_key,
    internal_node.assert_child, internal_node.block_index_size, copy_from. do 2 wp_step. rewrite Hs, Hns. unwrap.
  do 2 wp_step. rewrite (internal_max_keys _ _ _ Hok). do 4 wp_step. do 4 wp_step. do 4 wp_step. internal_offsets Hok.
  rewrite (Z.mul_comm _ ks), (Z.mul_comm _ 8).
  set (b1 := splice _ _ b). assert (length b1 = length b) as Hl1 by (apply length_put_key; lia).
  set (b2 := splice _ _ b1). assert (length b2 = length b) as Hl2 by (rewrite <- Hl1; apply length_copy_keys; lia).
  set (b3 := splice _ _ b2). assert (length b3 = length b) as Hl3 by (rewrite <- Hl2; apply length_copy_children; lia).
  eapply wp_mono; [apply (internal_set_child_count_spec _ b keys children (keys ++ key :: nkeys) (children ++ nchildren));
    rewrite ?length_app; cbn [length]; try done; try lia|].
  - intros i w Hi. apply lookup_lt_Some in Hi as Hi'. rewrite length_app in Hi'. cbn [length] in Hi'.
    unfold b3. rewrite key_copy_children by lia. unfold b2. rewrite key_copy_keys by lia.
    apply lookup_app_Some in Hi as [Hi|[Hge Hi]]; [apply lookup_lt_Some in Hi as Hi2|].
    + rewrite decide_False by lia. unfold b1. rewrite key_put_key, decide_False by lia. by apply Hkeys.
    + destruct (i - length keys)%nat as [|j] eqn:Hj; cbn in Hi.
      * injection Hi as <-. rewrite decide_False by lia. unfold b1. by rewrite key_put_key, decide_True by lia.
      * apply lookup_lt_Some in Hi as Hi2. rewrite decide_True by lia.
        replace (0 + (Z.of_nat i - zlen children)) with (Z.of_nat j) by lia. by apply Hnkeys.
  - intros i w Hi. unfold b3. rewrite child_copy_children by lia.
    apply lookup_app_Some in Hi as [Hi|[Hge Hi]]; apply lookup_lt_Some in Hi as Hi2.
    + rewrite decide_False by lia. unfold b2. rewrite child_copy_keys by lia. unfold b1. rewrite child_put_key by lia.
      by apply Hch.
    + rewrite decide_True by lia. replace (0 + (Z.of_nat i - zlen children)) with (Z.of_nat (i - length children)) by lia.
      by apply Hnch.
  - cbn beta. intros _ b' [Hok' Hl']. split; [done|]. by rewrite Hl', Hl3.
Qed.

Lemma internal_prepend_from_left_spec b keys children nb nkeys nchildren key :
  internal_ok b keys children -> internal_ok nb nkeys nchildren ->
  (1 <= length children)%nat -> (1 <= length nchildren)%nat -> zlen children + zlen nchildren <= mc ->
  zlen key = ks ->
  wp (internal_node.prepend_from_left ks mc key nb) b (fun _ b' =>
    internal_ok b' (nkeys ++ key :: keys) (nchildren ++ children) /\ length b' = length b).
Proof.
  intros Hok Hnok Hk Hnk Hsum Hkey. pose proof Hok as [H0 Hm Hl Hs Hc Hlen Hkeys Hch].
  pose proof Hnok as [_ _ Hnl Hns _ Hnlen Hnkeys Hnch].
  assert (0 <= child_base) by (unfold child_base, node_header_size; nia).
  assert (ks * (mc - 1) < 2 ^ 32) by (unfold child_base, node_header_size in *; lia).
  unfold internal_node.prepend_from_left, internal_node.get_child_count, internal_node.assert_key,
    internal_node.assert_child, internal_node.block_index_size, copy_from, move_in.
  do 2 wp_step. rewrite Hs, Hns. unwrap. do 2 wp_step. rewrite (internal_max_keys _ _ _ Hok). do 4 wp_step.
  do 4 wp_step. do 4 wp_step. do 4 wp_step. internal_offsets Hok. rewrite !(Z.mul_comm _ ks), !(Z.mul_comm _ 8).
  set (b1 := splice _ _ b). assert (length b1 = length b) as Hl1 by (apply length_copy_keys; lia).
  set (b2 := splice _ _ b1). assert (length b2 = length b) as Hl2 by (rewrite <- Hl1; apply length_copy_children; lia).
  set (b3 := splice _ _ b2). assert (length b3 = length b) as Hl3 by (rewrite <- Hl2; apply length_copy_keys; lia).
  set (b4 := splice _ _ b3). assert (length b4 = length b) as Hl4 by (rewrite <- Hl3; apply length_put_key; lia).
  set (b5 := splice _ _ b4). assert (length b5 = length b) as Hl5 by (rewrite <- Hl4; apply length_copy_children; lia).
  eapply wp_mono; [apply (internal_set_child_count_spec _ b keys children (nkeys ++ key :: keys) (nchildren ++ children));
    rewrite ?length_app; cbn [length]; try done; try lia|].
  - intros i w Hi. apply lookup_lt_Some in Hi as Hi'. rewrite length_app in Hi'. cbn [length] in Hi'.
    unfold b5. rewrite key_copy_children by lia. unfold b4. rewrite key_put_key by lia.
    unfold b3. rewrite key_copy_keys by lia. unfold b2. rewrite key_copy_children by lia.
    unfold b1. rewrite key_copy_keys by lia.
    apply lookup_app_Some in Hi as [Hi|[Hge Hi]]; [apply lookup_lt_Some in Hi as Hi2|].
    + rewrite decide_False, decide_True by lia. replace (0 + (Z.of_nat i - 0)) with (Z.of_nat i) by lia. by apply Hnkeys.
    + destruct (i - length nkeys)%nat as [|j] eqn:Hj; cbn in Hi.
      * injection Hi as <-. by rewrite decide_True by lia.
      * apply lookup_lt_Some in Hi as Hi2. rewrite decide_False, decide_False, decide_True by lia.
        replace (0 + (Z.of_nat i - zlen nchildren)) with (Z.of_nat j) by lia. by apply Hkeys.
  - intros i w Hi. unfold b5. rewrite child_copy_children by lia.
    apply lookup_app_Some in Hi as [Hi|[Hge Hi]]; apply lookup_lt_Some in Hi as Hi2.
    + rewrite decide_True by lia. replace (0 + (Z.of_nat i - 0)) with (Z.of_nat i) by lia. by apply Hnch.
    + rewrite decide_False by lia. unfold b4. rewrite child_put_key by lia. unfold b3. rewrite child_copy_keys by lia.
      unfold b2. rewrite child_copy_children, decide_True by lia. unfold b1. rewrite child_copy_keys by lia.
      replace (0 + (Z.of_nat i - zlen nchildren)) with (Z.of_nat (i - length nchildren)) by lia. by apply Hch.
  - cbn beta. intros _ b' [Hok' Hl']. split; [done|]. by rewrite Hl', Hl5.
Qed.

Lemma internal_split_spec l r keys children :
  internal_ok l keys children -> internal_ok r [] [] -> length r = length l -> zlen children = mc ->
  let lc := Z.to_nat ((mc + 1) / 2) in
  wp (internal_node.split ks mc) (l, r) (fun key s =>
    keys !! (lc - 1)%nat = Some key /\
    internal_ok s.1 (take (lc - 1) keys) (take lc children) /\
    internal_ok s.2 (drop lc keys) (drop lc children) /\
    length s.1 = length l /\ length s.2 = length r).
Proof.
  intros Hok Hrok Hrl Hfull lc. pose proof Hok as [H0 Hm Hl Hs Hc Hlen Hkeys Hch].
  assert (0 <= child_base) by (unfold child_base, node_header_size; nia).
  assert (ks * (mc - 1) < 2 ^ 32) by (unfold child_base, node_header_size in *; lia).
  assert (2 * ((mc + 1) / 2) <= mc + 1 < 2 * ((mc + 1) / 2) + 2) as Hdiv
    by (pose proof (Z.div_mod (mc + 1) 2); pose proof (Z.mod_pos_bound (mc + 1) 2); lia).
  unfold internal_node.split, internal_node.get_child_count, internal_node.assert_key,
    internal_node.assert_child, internal_node.block_index_size, copy_from.
  wp_step. apply leaf_on_left. wp_step. rewrite Hs, Hfull. wp_step. wp_step. wp_step. apply leaf_on_right. wp_step.
  rewrite (i_size _ _ _ Hrok). wp_step. wp_step. wp_step. apply leaf_on_left. unwrap.
  rewrite (internal_max_keys _ _ _ Hok). wp_step. do 3 wp_step. apply leaf_on_right. wp_step. wp_step.
  apply leaf_on_left. wp_step. wp_step. apply leaf_on_right. wp_step. cbn [fst snd]. internal_offsets Hok.
  assert (Z.of_nat lc = (mc + 1) / 2) as Hlc by (unfold lc; lia). rewrite <- Hlc in *.
  set (r1 := splice _ _ r). assert (length r1 = length r) as Hr1 by (apply length_copy_keys; lia).
  set (r2 := splice _ _ r1). assert (length r2 = length r) as Hr2 by (rewrite <- Hr1; apply length_copy_children; lia).
  destruct (keys !! (lc - 1)%nat) as [key|] eqn:Hkey; [|apply lookup_ge_None in Hkey; lia].
  wp_step. apply leaf_on_left. replace (Z.of_nat lc - 1) with (Z.of_nat (lc - 1)) by lia.
  apply (internal_get_key_spec l keys children (lc - 1) key); [done..|]. wp_step. apply leaf_on_left.
  eapply wp_mono; [apply (internal_set_child_count_spec l l keys children (take (lc - 1) keys) (take lc children));
    rewrite ?length_take; try done; try lia|].
  - intros i w [Hi _]%lookup_take_Some. by apply Hkeys.
  - intros i w [Hi _]%lookup_take_Some. by apply Hch.
  - cbn beta. intros _ l1 [Hl1 Hll1]. wp_step. apply leaf_on_right.
    eapply wp_mono; [apply (internal_set_child_count_spec r2 r [] [] (drop lc keys) (drop lc children));
      rewrite ?length_drop; try done; try lia|].
    + intros i w Hi. apply lookup_lt_Some in Hi as Hi'. rewrite length_drop in Hi'. rewrite lookup_drop in Hi.
      unfold r2. rewrite key_copy_children by lia. unfold r1. rewrite key_copy_keys, decide_True by lia.
      replace (Z.of_nat lc + (Z.of_nat i - 0)) with (Z.of_nat (lc + i)) by lia. by apply Hkeys.
    + intros i w Hi. apply lookup_lt_Some in Hi as Hi'. rewrite length_drop in Hi'. rewrite lookup_drop in Hi.
      unfold r2. rewrite child_copy_children, decide_True by lia.
      replace (Z.of_nat lc + (Z.of_nat i - 0)) with (Z.of_nat (lc + i)) by lia. by apply Hch.
    + cbn beta. intros _ r3 [Hr3 Hlr3]. wp_step. cbn [fst snd]. split_and!; try done. congruence.
Qed.

(** The node written by [create_root]. *)
Lemma internal_root_spec b key c0 c1 :
  internal_ok b [] [] -> zlen key = ks -> is_u64 c0 -> is_u64 c1 ->
  wp (internal_node.set_child ks mc 0 c0 ;;;
      internal_node.set_child ks mc 1 c1 ;;;
      internal_node.set_key ks mc 0 key ;;;
      internal_node.set_child_count mc 2) b (fun _ b' =>
    internal_ok b' [key] [c0; c1] /\ length b' = length b).
Proof.
  intros Hok Hkey Hc0 Hc1. pose proof Hok as [H0 Hm Hl Hs Hc Hlen Hkeys Hch].
  assert (4 <= child_base) by (unfold child_base, node_header_size; nia).
  assert (kb + ks <= child_base) by (unfold child_base, node_header_size; nia).
  unfold internal_node.set_child, internal_node.set_key, internal_node.assert_child, internal_node.assert_key,
    block_write, extent.check_range. internal_offsets Hok. rewrite !length_be_encode.
  change (Z.of_nat 8) with 8.
  set (b1 := splice (child_base + 8 * 0) (be_encode 8 c0) b).
  assert (length b1 = length b) as Hl1 by (apply length_put_child; lia).
  set (b2 := splice (child_base + 8 * 1) (be_encode 8 c1) b1).
  assert (length b2 = length b) as Hl2 by (rewrite <- Hl1; apply length_put_child; lia).
  set (b3 := splice (kb + ks * 0) key b2).
  assert (length b3 = length b) as Hl3 by (rewrite <- Hl2; apply length_put_key; lia).
  do 8 wp_step. fold b1. do 8 wp_step. fold b2. do 6 wp_step. rewrite Hkey.
  wp_step. wp_step. fold b3.
  eapply wp_mono; [apply (internal_set_child_count_spec b3 b [] [] [key] [c0; c1]); try done; cbn; try lia|].
  - intros [|i] w Hi; [injection Hi as <-|done]. unfold b3. by rewrite key_put_key by lia.
  - assert (forall i, 0 <= i -> child_at i b3 = child_at i b2) as Hb3.
    { intros i Hi. unfold b3. by rewrite child_put_key by lia. }
    intros [|[|i]] w Hi; [injection Hi as <-..|done]; rewrite Hb3 by lia; unfold b2;
      rewrite child_put_child by (done || lia); case_decide; try lia; try done.
    unfold b1. by rewrite child_put_child by (done || lia).
  - cbn beta. intros _ b' [Hok' Hl']. split; [done|congruence].
Qed.
End internal_spec.
