(* ===== verification/BTree.v ===== *)
(** * B+ trees (src/container/btree/tree.ipp, cursor.ipp)

    The model of the trees and their cursors.  A node is the index of its
    block; the accesses to nodes run the operations of BTreeNodes.v on the
    bytes of the block.  The active cursors are part of the state of a tree,
    since insertions and removals move them; a cursor is identified by a
    number instead of its address. *)

From Stdlib Require Import Strings.Byte.
From S2P Require Import Prelude MathOps Serialization Blocks EngineSpec FreeList Allocator Extent BTreeNodes.

Module btree.

(** ** State *)

(** [m_parents] has an entry (node, index) for every internal node on the
    path to the leaf, the root first.  The flags are INVALID, DELETED and
    INPROGRESS. *)
Record cursor : Type := Cursor {
  m_parents : list (Z * Z);
  m_leaf : Z;
  m_index : Z;
  c_invalid : bool;
  c_deleted : bool;
  c_inprogress : bool
}.

Definition reset_to_zero : cursor := Cursor [] invalid_value 0 false false false.
(** [reset_to_invalid(saved_flags)] *)
Definition reset_to_invalid (saved : cursor) : cursor :=
  Cursor [] invalid_value 0 true (c_deleted saved) (c_inprogress saved).
Definition invalid_cursor : cursor := reset_to_invalid reset_to_zero.

Definition set_parents (p : list (Z * Z)) (c : cursor) : cursor :=
  Cursor p (m_leaf c) (m_index c) (c_invalid c) (c_deleted c) (c_inprogress c).
Definition set_position (leaf index : Z) (c : cursor) : cursor :=
  Cursor (m_parents c) leaf index (c_invalid c) (c_deleted c) (c_inprogress c).
Definition set_index (index : Z) (c : cursor) : cursor := set_position (m_leaf c) index c.
Definition set_invalid (b : bool) (c : cursor) : cursor :=
  Cursor (m_parents c) (m_leaf c) (m_index c) b (c_deleted c) (c_inprogress c).
Definition set_deleted (b : bool) (c : cursor) : cursor :=
  Cursor (m_parents c) (m_leaf c) (m_index c) (c_invalid c) b (c_inprogress c).
Definition set_inprogress (b : bool) (c : cursor) : cursor :=
  Cursor (m_parents c) (m_leaf c) (m_index c) (c_invalid c) (c_deleted c) b.

Record anchor : Type := Anchor {
  size : Z;
  leaf_nodes : Z;
  internal_nodes : Z;
  height : Z;
  root : Z;
  leftmost : Z;
  rightmost : Z
}.
Definition empty_anchor : anchor := Anchor 0 0 0 0 invalid_value invalid_value invalid_value.

(** [raw_btree_options] without the functions, and the derived capacities. *)
Record config : Type := Config {
  value_size : Z;
  key_size : Z;
  internal_max_children : Z;
  leaf_capacity : Z
}.

Record tree (A : Type) : Type := Tree {
  m_alloc : A;
  m_anchor : anchor;
  m_config : config;
  m_cursors : list (nat * cursor)
}.
Arguments Tree {A}.
Arguments m_alloc {A} _.
Arguments m_anchor {A} _.
Arguments m_config {A} _.
Arguments m_cursors {A} _.

Definition max_key_size : Z := 256.

Section tree_ops.
Context {A : Type} `{Allocator A}.
(** The functions of the options. *)
Context (derive_key : bytes -> bytes) (key_less : bytes -> bytes -> bool).
Abbreviation T := (tree A).

Definition set_alloc (a : A) (t : T) : T := Tree a (m_anchor t) (m_config t) (m_cursors t).
Definition set_anchor (n : anchor) (t : T) : T := Tree (m_alloc t) n (m_config t) (m_cursors t).
Definition set_cursors (l : list (nat * cursor)) (t : T) : T := Tree (m_alloc t) (m_anchor t) (m_config t) l.
Definition on_alloc {X} (m : M A X) : M T X := zoom m_alloc set_alloc m.
Definition mod_anchor (f : anchor -> anchor) : M T unit := modify (fun t => set_anchor (f (m_anchor t)) t).

Definition set_size (n : Z) : M T unit :=
  mod_anchor (fun a => Anchor n (leaf_nodes a) (internal_nodes a) (height a) (root a) (leftmost a) (rightmost a)).
Definition set_leaf_nodes (n : Z) : M T unit :=
  mod_anchor (fun a => Anchor (size a) n (internal_nodes a) (height a) (root a) (leftmost a) (rightmost a)).
Definition set_internal_nodes (n : Z) : M T unit :=
  mod_anchor (fun a => Anchor (size a) (leaf_nodes a) (u32 n) (height a) (root a) (leftmost a) (rightmost a)).
Definition set_height (n : Z) : M T unit :=
  mod_anchor (fun a => Anchor (size a) (leaf_nodes a) (internal_nodes a) n (root a) (leftmost a) (rightmost a)).
Definition set_root (n : Z) : M T unit :=
  mod_anchor (fun a => Anchor (size a) (leaf_nodes a) (internal_nodes a) (height a) n (leftmost a) (rightmost a)).
Definition set_leftmost (n : Z) : M T unit :=
  mod_anchor (fun a => Anchor (size a) (leaf_nodes a) (internal_nodes a) (height a) (root a) n (rightmost a)).
Definition set_rightmost (n : Z) : M T unit :=
  mod_anchor (fun a => Anchor (size a) (leaf_nodes a) (internal_nodes a) (height a) (root a) (leftmost a) n).
Definition get_anchor : M T anchor := gets m_anchor.
Definition get_config : M T config := gets m_config.

(** The constructor. *)
Definition make_tree (a : A) (n : anchor) (value_size key_size : Z) : result T :=
  let bs := d_bs (eng_view a) in
  let leaf_cap := leaf_node.capacity value_size bs in
  let max_children := internal_node.compute_max_children key_size bs in
  if value_size =? 0 then Err bad_argument else
  if key_size =? 0 then Err bad_argument else
  if max_key_size <? key_size then Err bad_argument else
  if leaf_cap <? 2 then Err bad_argument else
  if max_children <? 4 then Err bad_argument else
  Ok (Tree a n (Config value_size key_size max_children leaf_cap) []).

(** ** Access to nodes *)

(** A node operation that only reads. *)
Definition node_read {X} (i : Z) (m : M bytes X) : M T X :=
  let* b := on_alloc (eng_read i) in
  lift_result (m b).2.
Definition node_write {X} (i : Z) (m : M bytes X) : M T X :=
  let* b := on_alloc (eng_read i) in
  match m b with
  | (b', Ok x) => on_alloc (eng_update i (fun _ => b')) ;;; ret x
  | (_, Err e) => throw e
  end.
Definition node_write2 {X} (i j : Z) (m : M (bytes * bytes) X) : M T X :=
  let* b1 := on_alloc (eng_read i) in
  let* b2 := on_alloc (eng_read j) in
  match m (b1, b2) with
  | ((b1', b2'), Ok x) =>
    on_alloc (eng_update i (fun _ => b1')) ;;;
    on_alloc (eng_update j (fun _ => b2')) ;;;
    ret x
  | (_, Err e) => throw e
  end.
Definition node_bytes (i : Z) : M T bytes := on_alloc (eng_read i).

Definition leaf_size (i : Z) : M T Z := node_read i leaf_node.get_size.
Definition leaf_get (i index : Z) : M T bytes :=
  let* c := get_config in
  node_read i (leaf_node.get (value_size c) (leaf_capacity c) index).
Definition child_count (i : Z) : M T Z := node_read i internal_node.get_child_count.
Definition get_child (i index : Z) : M T Z :=
  let* c := get_config in
  node_read i (internal_node.get_child (key_size c) (internal_max_children c) index).
Definition get_key (i index : Z) : M T bytes :=
  let* c := get_config in
  node_read i (internal_node.get_key (key_size c) (internal_max_children c) index).

(** The assertions of the constructor of [internal_node]. *)
Definition check_internal : M T unit :=
  let* t := get in
  let c := m_config t in
  assert! (0 <? key_size c) ;;;
  assert! (1 <? internal_max_children c) ;;;
  assert! (internal_node.compute_size (key_size c) (internal_max_children c) <=? d_bs (eng_view (m_alloc t))).
Definition read_leaf (index : Z) : M T Z :=
  let* _ := on_alloc (eng_read index) in
  ret index.
Definition read_internal (index : Z) : M T Z :=
  let* _ := on_alloc (eng_read index) in
  check_internal ;;;
  ret index.

Definition create_leaf : M T Z :=
  let* index := on_alloc (allocate 1) in
  let* a := get_anchor in
  set_leaf_nodes (u64 (leaf_nodes a + 1)) ;;;
  on_alloc (eng_overwrite_zero index) ;;;
  node_write index leaf_node.init ;;;
  ret index.
Definition create_internal : M T Z :=
  let* index := on_alloc (allocate 1) in
  let* a := get_anchor in
  set_internal_nodes (internal_nodes a + 1) ;;;
  on_alloc (eng_overwrite_zero index) ;;;
  check_internal ;;;
  node_write index internal_node.init ;;;
  ret index.
Definition free_leaf (leaf : Z) : M T unit :=
  let* a := get_anchor in
  assert! (0 <? leaf_nodes a) ;;;
  on_alloc (free leaf 1) ;;;
  set_leaf_nodes (u64 (leaf_nodes a - 1)).
Definition free_internal (internal : Z) : M T unit :=
  let* a := get_anchor in
  assert! (0 <? internal_nodes a) ;;;
  on_alloc (free internal 1) ;;;
  set_internal_nodes (internal_nodes a - 1).

(** ** Cursors *)

Fixpoint find_cursor {X} (id : nat) (l : list (nat * X)) : option X :=
  match l with
  | [] => None
  | (i, c) :: l => if decide (i = id) then Some c else find_cursor id l
  end.
Definition update_cursor {X} (id : nat) (c : X) (l : list (nat * X)) : list (nat * X) :=
  map (fun p => if decide (p.1 = id) then (id, c) else p) l.

Definition get_cursor (id : nat) : M T cursor :=
  let* l := gets m_cursors in
  match find_cursor id l with Some c => ret c | None => throw assert_failure end.
Definition put_cursor (id : nat) (c : cursor) : M T unit :=
  modify (fun t => set_cursors (update_cursor id c (m_cursors t)) t).
Definition mod_cursor (id : nat) (f : cursor -> cursor) : M T unit :=
  let* c := get_cursor id in
  put_cursor id (f c).

(** [for (auto& c : m_cursors)]; the body does not access other cursors. *)
Fixpoint map_cursors (f : nat -> cursor -> M T cursor) (l : list (nat * cursor)) : M T (list (nat * cursor)) :=
  match l with
  | [] => ret []
  | (id, c) :: l =>
    let* c' := f id c in
    let* l' := map_cursors f l in
    ret ((id, c') :: l')
  end.
Definition for_cursors (f : nat -> cursor -> M T cursor) : M T unit :=
  let* l := gets m_cursors in
  let* l' := map_cursors f l in
  modify (set_cursors l').

(** [c.m_parents.back()] and [c.m_parents[i]]; out of bounds is undefined. *)
Definition back_entry (c : cursor) : M T (Z * Z) :=
  match last (m_parents c) with Some e => ret e | None => throw assert_failure end.
Definition entry_at (i : Z) (c : cursor) : M T (Z * Z) :=
  match m_parents c !! Z.to_nat i with Some e => ret e | None => throw assert_failure end.
Definition set_entry (i : Z) (e : Z * Z) (c : cursor) : cursor :=
  set_parents (<[Z.to_nat i := e]> (m_parents c)) c.
Definition set_back (e : Z * Z) (c : cursor) : cursor :=
  set_parents (<[(length (m_parents c) - 1)%nat := e]> (m_parents c)) c.

(** ** Searching *)

Definition key_equal (l r : bytes) : bool := negb (key_less l r) && negb (key_less r l).
Definition value_equal_key (value key : bytes) : bool := key_equal key (derive_key value).

(** [std::lower_bound] and [std::upper_bound]: the first position in
    [first, first + count) at which [before] is false. *)
Fixpoint partition_point (fuel : nat) (before : Z -> M T bool) (first count : Z) : M T Z :=
  if count <=? 0 then ret first else
  match fuel with
  | O => throw check_failure
  | S fuel =>
    let step := count / 2 in
    let* b := before (first + step) in
    if b : bool then partition_point fuel before (first + step + 1) (count - step - 1)
    else partition_point fuel before first step
  end.
Definition search (before : Z -> M T bool) (count : Z) : M T Z :=
  partition_point (Z.to_nat count) before 0 count.

Definition lower_bound_leaf (leaf : Z) (search_key : bytes) : M T Z :=
  let* n := leaf_size leaf in
  search (fun i => let* v := leaf_get leaf i in ret (key_less (derive_key v) search_key)) n.
Definition upper_bound_leaf (leaf : Z) (search_key : bytes) : M T Z :=
  let* n := leaf_size leaf in
  search (fun i => let* v := leaf_get leaf i in ret (negb (key_less search_key (derive_key v)))) n.
Definition lower_bound_internal (internal : Z) (search_key : bytes) : M T Z :=
  let* n := child_count internal in
  assert! (1 <? n) ;;;
  search (fun i => let* k := get_key internal i in ret (key_less k search_key)) (u32 (n - 1)).
Definition upper_bound_internal (internal : Z) (search_key : bytes) : M T Z :=
  let* n := child_count internal in
  assert! (1 <? n) ;;;
  search (fun i => let* k := get_key internal i in ret (negb (key_less search_key k))) (u32 (n - 1)).

Inductive seek_bound_t : Type := seek_bound_lower | seek_bound_upper | seek_bound_find.

Definition bound_internal (which : seek_bound_t) (node : Z) (key : bytes) : M T Z :=
  match which with
  | seek_bound_upper => upper_bound_internal node key
  | _ => lower_bound_internal node key
  end.
Definition bound_leaf (which : seek_bound_t) (leaf : Z) (key : bytes) : M T Z :=
  match which with
  | seek_bound_upper => upper_bound_leaf leaf key
  | _ => lower_bound_leaf leaf key
  end.

(** The loop of [seek_bound] over the levels of internal nodes: the entries
    and the leaf. *)
Fixpoint seek_down (level : nat) (choose : Z -> M T Z) (current : Z) : M T (list (Z * Z) * Z) :=
  match level with
  | O => ret ([], current)
  | S level =>
    let* node := read_internal current in
    let* index := choose node in
    let* child := get_child node index in
    let* r := seek_down level choose child in
    ret ((node, index) :: r.1, r.2)
  end.

(** The entries from the last one that satisfies [can_move], which is moved
    to [next index], down to the leaf; [child_index] is the index chosen in
    the nodes below.  [None] if there is no such entry. *)
Fixpoint find_last (can_move : Z * Z -> M T bool) (rev_parents : list (Z * Z)) (below : nat) :
    M T (option (list (Z * Z) * (Z * Z) * nat)) :=
  match rev_parents with
  | [] => ret None
  | e :: rest =>
    let* b := can_move e in
    if b : bool then ret (Some (rev rest, e, below)) else find_last can_move rest (S below)
  end.
Definition descend (n : nat) (child_index : Z -> M T Z) (e : Z * Z) : M T (list (Z * Z) * Z) :=
  let* child := get_child e.1 e.2 in
  let* r := seek_down n child_index child in
  let* leaf := read_leaf r.2 in
  ret (r.1, leaf).

(** The parents and the leaf after the move. *)
Definition next_parents (parents : list (Z * Z)) : M T (option (list (Z * Z) * Z)) :=
  let* r := find_last (fun e => let* n := child_count e.1 in ret (u32 (e.2 + 1) <? n)) (rev parents) 0 in
  match r with
  | None => ret None
  | Some (front, e, below) =>
    let e := (e.1, u32 (e.2 + 1)) in
    let* d := descend below (fun _ => ret 0) e in
    ret (Some (front ++ e :: d.1, d.2))
  end.
Definition prev_parents (parents : list (Z * Z)) : M T (option (list (Z * Z) * Z)) :=
  let* r := find_last (fun e => ret (0 <? e.2)) (rev parents) 0 in
  match r with
  | None => ret None
  | Some (front, e, below) =>
    let e := (e.1, u32 (e.2 - 1)) in
    let* d := descend below (fun node => let* n := child_count node in ret (u32 (n - 1))) e in
    ret (Some (front ++ e :: d.1, d.2))
  end.
Definition next_leaf (id : nat) : M T bool :=
  let* c := get_cursor id in
  let* r := next_parents (m_parents c) in
  match r with
  | None => ret false
  | Some (parents, leaf) =>
    put_cursor id (set_position leaf (m_index c) (set_parents parents c)) ;;;
    ret true
  end.
Definition prev_leaf (id : nat) : M T bool :=
  let* c := get_cursor id in
  let* r := prev_parents (m_parents c) in
  match r with
  | None => ret false
  | Some (parents, leaf) =>
    put_cursor id (set_position leaf (m_index c) (set_parents parents c)) ;;;
    ret true
  end.

Definition seek_bound (which : seek_bound_t) (key : bytes) (id : nat) : M T unit :=
  let* a := get_anchor in
  if height a =? 0 then put_cursor id invalid_cursor else
  put_cursor id (set_inprogress true reset_to_zero) ;;;
  let* r := seek_down (Z.to_nat (height a) - 1) (fun node => bound_internal which node key) (root a) in
  let* leaf := read_leaf r.2 in
  mod_cursor id (fun c => set_position leaf (m_index c) (set_parents r.1 c)) ;;;
  let* index := bound_leaf which leaf key in
  mod_cursor id (set_index index) ;;;
  let* n := leaf_size leaf in
  if index =? n then
    match which with
    | seek_bound_find => put_cursor id invalid_cursor
    | _ =>
      let* moved := next_leaf id in
      if moved : bool then
        mod_cursor id (set_index 0) ;;;
        mod_cursor id (set_inprogress false)
      else put_cursor id invalid_cursor
    end
  else mod_cursor id (set_inprogress false).

Definition at_end (c : cursor) : bool := negb (c_deleted c) && c_invalid c.
Definition erased (c : cursor) : bool := c_deleted c.

Definition lower_bound (key : bytes) (id : nat) : M T unit := seek_bound seek_bound_lower key id.
Definition upper_bound (key : bytes) (id : nat) : M T unit := seek_bound seek_bound_upper key id.
Definition find (key : bytes) (id : nat) : M T unit :=
  seek_bound seek_bound_find key id ;;;
  let* c := get_cursor id in
  if at_end c then ret tt else
  let* n := leaf_size (m_leaf c) in
  assert! (m_index c <? n) ;;;
  let* v := leaf_get (m_leaf c) (m_index c) in
  if negb (value_equal_key v key) then put_cursor id invalid_cursor else ret tt.

(** ** Insertion *)

Definition leaf_set (i index : Z) (value : bytes) : M T unit :=
  let* c := get_config in
  node_write i (leaf_node.set (value_size c) (leaf_capacity c) index value).
Definition leaf_set_size (i n : Z) : M T unit :=
  let* c := get_config in
  node_write i (leaf_node.set_size (leaf_capacity c) n).

Definition create_root (left_child right_child : Z) (split_key : bytes) : M T Z :=
  let* new_root := create_internal in
  let* c := get_config in
  let ks := key_size c in
  let mc := internal_max_children c in
  node_write new_root
    (internal_node.set_child ks mc 0 left_child ;;;
     internal_node.set_child ks mc 1 right_child ;;;
     internal_node.set_key ks mc 0 split_key ;;;
     internal_node.set_child_count mc 2) ;;;
  let* a := get_anchor in
  set_height (u32 (height a + 1)) ;;;
  set_root new_root ;;;
  ret new_root.

(** The new node and the split key. *)
Definition split (old_internal : Z) : M T (Z * bytes) :=
  let* new_internal := create_internal in
  let* c := get_config in
  let* split_key := node_write2 old_internal new_internal
    (internal_node.split (key_size c) (internal_max_children c)) in
  ret (new_internal, split_key).

Definition insert_split_result (parent index : Z) (split_key : bytes) (new_child : Z) : M T unit :=
  let* c := get_config in
  node_write parent
    (internal_node.insert_split_result (key_size c) (internal_max_children c) index split_key new_child).

(** The bodies of the loops over all cursors are the functions [..._cursor]. *)
Definition root_split_cursor (new_root left_internal right_internal left_child_count : Z) (c : cursor) : M T cursor :=
  if c_invalid c then ret c else
  match m_parents c with
  | [] => throw assert_failure
  | (node, index) :: rest =>
    assert! (node =? left_internal) ;;;
    if left_child_count <=? index
    then ret (set_parents ((new_root, 1) :: (right_internal, u32 (index - left_child_count)) :: rest) c)
    else ret (set_parents ((new_root, 0) :: (node, index) :: rest) c)
  end.
Definition apply_root_split (new_root left_internal right_internal : Z) : M T unit :=
  let* left_child_count := child_count left_internal in
  for_cursors (fun _ c => root_split_cursor new_root left_internal right_internal left_child_count c).

Definition child_split_cursor (parent left_index left_internal right_internal left_child_count : Z)
    (parent_stack_index children_stack_index : Z) (c : cursor) : M T cursor :=
  if c_invalid c then ret c else
  assert! (parent_stack_index <? zlen (m_parents c)) ;;;
  assert! ((1 <=? children_stack_index) && (children_stack_index <? zlen (m_parents c))) ;;;
  let* parent_entry := entry_at parent_stack_index c in
  if negb (parent_entry.1 =? parent) then ret c else
  if parent_entry.2 =? left_index then
    let* child_entry := entry_at children_stack_index c in
    let* child := get_child parent_entry.1 parent_entry.2 in
    assert! (child =? child_entry.1) ;;;
    assert! (child_entry.1 =? left_internal) ;;;
    if left_child_count <=? child_entry.2 then
      ret (set_entry parent_stack_index (parent_entry.1, u32 (parent_entry.2 + 1))
            (set_entry children_stack_index (right_internal, u32 (child_entry.2 - left_child_count)) c))
    else ret c
  else if left_index <? parent_entry.2 then
    ret (set_entry parent_stack_index (parent_entry.1, u32 (parent_entry.2 + 1)) c)
  else ret c.
Definition apply_child_split (parent left_level left_index left_internal right_internal : Z) : M T unit :=
  let* a := get_anchor in
  assert! (0 <? left_level) ;;;
  assert! (left_level <? u32 (height a - 1)) ;;;
  let* l := get_child parent left_index in
  assert! (l =? left_internal) ;;;
  let* r := get_child parent (u32 (left_index + 1)) in
  assert! (r =? right_internal) ;;;
  let children_stack_index := u32 (height a - 1 - left_level) in
  let parent_stack_index := u32 (children_stack_index - 1) in
  let* left_child_count := child_count left_internal in
  for_cursors (fun _ c => child_split_cursor parent left_index left_internal right_internal left_child_count
                            parent_stack_index children_stack_index c).

(** The body of the loop of [seek_insert_location] for a full node. *)
Definition split_full (level internal : Z) (id : nat) : M T unit :=
  let* r := split internal in
  let new_internal := r.1 in
  let* c := get_cursor id in
  if zlen (m_parents c) =? 1 then
    let* new_root := create_root internal new_internal r.2 in
    apply_root_split new_root internal new_internal
  else
    let* parent_entry := entry_at (zlen (m_parents c) - 2) c in
    let parent := parent_entry.1 in
    let index_in_parent := parent_entry.2 in
    let* n := child_count parent in
    let* cfg := get_config in
    assert! (n <? internal_max_children cfg) ;;;
    let* child := get_child parent index_in_parent in
    assert! (child =? internal) ;;;
    insert_split_result parent (u32 (index_in_parent + 1)) r.2 new_internal ;;;
    apply_child_split parent level index_in_parent internal new_internal.

Fixpoint seek_insert_loop (level : nat) (key : bytes) (id : nat) (current : Z) : M T Z :=
  match level with
  | O => ret current
  | S level' =>
    let* internal := read_internal current in
    let* index := lower_bound_internal internal key in
    mod_cursor id (fun c => set_parents (m_parents c ++ [(internal, index)]) c) ;;;
    let* n := child_count internal in
    let* cfg := get_config in
    (if n =? internal_max_children cfg then split_full (Z.of_nat level) internal id else ret tt) ;;;
    let* c := get_cursor id in
    let* last_entry := back_entry c in
    let* next := get_child last_entry.1 last_entry.2 in
    seek_insert_loop level' key id next
  end.

Definition seek_insert_location (key : bytes) (id : nat) : M T unit :=
  let* a := get_anchor in
  assert! (0 <? height a) ;;;
  let* current := seek_insert_loop (Z.to_nat (height a) - 1) key id (root a) in
  let* leaf := read_leaf current in
  mod_cursor id (fun c => set_position leaf (m_index c) c) ;;;
  let* index := lower_bound_leaf leaf key in
  mod_cursor id (set_index index).

(** The branches of [insert] once the position is known. *)
Definition insert_first (value : bytes) (id : nat) : M T unit :=
  let* leaf := create_leaf in
  leaf_set leaf 0 value ;;;
  leaf_set_size leaf 1 ;;;
  set_height 1 ;;;
  set_size 1 ;;;
  set_root leaf ;;;
  set_leftmost leaf ;;;
  set_rightmost leaf ;;;
  put_cursor id (set_position leaf 0 reset_to_zero).

(** [c.m_index] after the insertion into the leaf. *)
Definition shifted (i id : nat) (insert_index : Z) (c : cursor) : Z :=
  if negb (bool_decide (i = id)) && (insert_index <=? m_index c) then u32 (m_index c + 1) else m_index c.

Definition insert_cursor (leaf insert_index : Z) (id i : nat) (c : cursor) : M T cursor :=
  if c_invalid c || negb (m_leaf c =? leaf) then ret c else
  ret (set_index (shifted i id insert_index c) c).
Definition insert_simple (leaf insert_index : Z) (value : bytes) (id : nat) : M T unit :=
  let* cfg := get_config in
  node_write leaf (leaf_node.insert_nonfull (value_size cfg) (leaf_capacity cfg) insert_index value) ;;;
  for_cursors (insert_cursor leaf insert_index id).

Definition root_leaf_cursor (new_root leaf new_leaf insert_index left_size : Z) (id i : nat) (c : cursor) : M T cursor :=
  if c_invalid c then ret c else
  assert! (m_leaf c =? leaf) ;;;
  assert! (zlen (m_parents c) =? 0) ;;;
  let index := shifted i id insert_index c in
  if left_size <=? index
  then ret (set_position new_leaf (u32 (index - left_size)) (set_parents (m_parents c ++ [(new_root, 1)]) c))
  else ret (set_index index (set_parents (m_parents c ++ [(new_root, 0)]) c)).
Definition split_root_leaf (leaf new_leaf insert_index left_size : Z) (split_key : bytes) (id : nat) : M T unit :=
  let* new_root := create_root leaf new_leaf split_key in
  for_cursors (root_leaf_cursor new_root leaf new_leaf insert_index left_size id).

Definition child_leaf_cursor (parent index_in_parent leaf new_leaf insert_index left_size : Z) (id i : nat)
    (c : cursor) : M T cursor :=
  if c_invalid c then ret c else
  let* parent_entry := back_entry c in
  if negb (parent_entry.1 =? parent) then ret c else
  if parent_entry.2 =? index_in_parent then
    assert! (m_leaf c =? leaf) ;;;
    let* child := get_child parent_entry.1 index_in_parent in
    assert! (child =? leaf) ;;;
    let index := shifted i id insert_index c in
    if left_size <=? index
    then ret (set_position new_leaf (u32 (index - left_size))
           (set_back (parent_entry.1, u32 (parent_entry.2 + 1)) c))
    else ret (set_index index c)
  else if u32 (index_in_parent + 1) <=? parent_entry.2
  then ret (set_back (parent_entry.1, u32 (parent_entry.2 + 1)) c)
  else ret c.
Definition split_child_leaf (leaf new_leaf insert_index left_size : Z) (split_key : bytes) (id : nat) : M T unit :=
  let* cursor := get_cursor id in
  let* back := back_entry cursor in
  let parent := back.1 in
  let index_in_parent := back.2 in
  insert_split_result parent (u32 (index_in_parent + 1)) split_key new_leaf ;;;
  for_cursors (child_leaf_cursor parent index_in_parent leaf new_leaf insert_index left_size id).

Definition insert_split (leaf insert_index leaf_size : Z) (value : bytes) (id : nat) : M T unit :=
  let* new_leaf := create_leaf in
  let* a := get_anchor in
  let* cfg := get_config in
  let left_size :=
    if leaf =? rightmost a then leaf_size
    else if leaf =? leftmost a then 1
    else u32 (leaf_size + 2) / 2 in
  node_write2 leaf new_leaf
    (leaf_node.insert_full (value_size cfg) (leaf_capacity cfg) insert_index value left_size) ;;;
  let* last_value := leaf_get leaf (u32 (left_size - 1)) in
  let split_key := derive_key last_value in
  (if leaf =? rightmost a then set_rightmost new_leaf else ret tt) ;;;
  if height a =? 1
  then split_root_leaf leaf new_leaf insert_index left_size split_key id
  else split_child_leaf leaf new_leaf insert_index left_size split_key id.

Definition insert (value : bytes) (id : nat) : M T bool :=
  let* a := get_anchor in
  if size a =? 0 then insert_first value id ;;; ret true else
  put_cursor id (set_inprogress true reset_to_zero) ;;;
  let key := derive_key value in
  seek_insert_location key id ;;;
  let* cursor := get_cursor id in
  let leaf := m_leaf cursor in
  let insert_index := m_index cursor in
  let* n := leaf_size leaf in
  let* exists_ :=
    (if insert_index <? n
     then let* v := leaf_get leaf insert_index in ret (value_equal_key v key)
     else ret false) in
  if exists_ : bool then mod_cursor id (set_inprogress false) ;;; ret false else
  let* cfg := get_config in
  (if n <? leaf_capacity cfg then insert_simple leaf insert_index value id
   else insert_split leaf insert_index n value id) ;;;
  mod_cursor id (set_inprogress false) ;;;
  let* a := get_anchor in
  set_size (u64 (size a + 1)) ;;;
  ret true.

(** ** Cursor operations (cursor.ipp) *)

(** Creation and destruction of a cursor. *)
Definition link_cursor (id : nat) : M T unit :=
  modify (fun t => set_cursors (m_cursors t ++ [(id, invalid_cursor)]) t).
Definition unlink_cursor (id : nat) : M T unit :=
  modify (fun t => set_cursors (filter (fun p => p.1 <> id) (m_cursors t)) t).
Definition copy_cursor (id other : nat) : M T unit :=
  if bool_decide (id = other) then ret tt else
  let* o := get_cursor other in
  put_cursor id o.

(** The stack of [check_element_valid]; [prev] is [m_parents[i - 1]]. *)
Fixpoint check_stack (prev : option (Z * Z)) (parents : list (Z * Z)) : M T unit :=
  match parents with
  | [] => ret tt
  | e :: rest =>
    assert! (index_valid e.1) ;;;
    let* n := child_count e.1 in
    assert! (e.2 <? n) ;;;
    (match prev with
     | None => ret tt
     | Some p => let* child := get_child p.1 p.2 in assert! (child =? e.1)
     end) ;;;
    check_stack (Some e) rest
  end.
Definition check_element_valid (c : cursor) : M T unit :=
  throw_if (c_inprogress c) bad_cursor ;;;
  throw_if (c_deleted c) bad_cursor ;;;
  throw_if (c_invalid c) bad_cursor ;;;
  let* a := get_anchor in
  assert! (zlen (m_parents c) + 1 =? height a) ;;;
  check_stack None (m_parents c) ;;;
  (if 1 <? height a then
     let* e := back_entry c in
     let* child := get_child e.1 e.2 in
     assert! (child =? m_leaf c)
   else ret tt) ;;;
  (if height a =? 1 then assert! (m_leaf c =? root a)
   else if 1 <? height a then
     match head (m_parents c) with
     | Some e => assert! (e.1 =? root a)
     | None => throw assert_failure
     end
   else throw assert_failure) ;;;
  assert! (index_valid (m_leaf c)) ;;;
  let* n := leaf_size (m_leaf c) in
  assert! (m_index c <? n).

Definition init_position (max : bool) (id : nat) : M T unit :=
  let* a := get_anchor in
  if height a =? 0 then put_cursor id (set_invalid true reset_to_zero) else
  put_cursor id (set_inprogress true reset_to_zero) ;;;
  let* r := seek_down (Z.to_nat (height a) - 1)
    (fun node => if max then let* n := child_count node in ret (u32 (n - 1)) else ret 0) (root a) in
  let* leaf := read_leaf r.2 in
  let* n := leaf_size leaf in
  assert! (0 <? n) ;;;
  put_cursor id (set_position leaf (if max then u32 (n - 1) else 0) (set_parents r.1 reset_to_zero)).

(** [return !at_end()] *)
Definition not_at_end (id : nat) : M T bool :=
  let* c := get_cursor id in
  ret (negb (at_end c)).
Definition move_min (id : nat) : M T bool := init_position false id ;;; not_at_end id.
Definition move_max (id : nat) : M T bool := init_position true id ;;; not_at_end id.

(** INPROGRESS is set before the search for the parent to move in instead of
    after it; the difference can only be seen if the read of a node throws. *)
Definition move_prev (id : nat) : M T bool :=
  let* c := get_cursor id in
  let c' := set_deleted false c in
  if c_deleted c && c_invalid c then put_cursor id c' ;;; ret false else
  throw_if (negb (c_deleted c) && c_invalid c) bad_cursor ;;;
  put_cursor id c' ;;;
  if 0 <? m_index c then put_cursor id (set_index (m_index c - 1) c') ;;; ret true else
  put_cursor id (set_inprogress true c') ;;;
  let* r := prev_parents (m_parents c) in
  match r with
  | None => put_cursor id invalid_cursor ;;; ret false
  | Some (parents, leaf) =>
    let* n := leaf_size leaf in
    assert! (0 <? n) ;;;
    put_cursor id (set_inprogress false (set_position leaf (u32 (n - 1)) (set_parents parents c'))) ;;;
    ret true
  end.

Definition move_next (id : nat) : M T bool :=
  let* c := get_cursor id in
  let c' := set_deleted false c in
  if c_deleted c && c_invalid c then put_cursor id c' ;;; ret false else
  throw_if (negb (c_deleted c) && c_invalid c) bad_cursor ;;;
  let c' := if c_deleted c then c' else set_index (u32 (m_index c + 1)) c' in
  put_cursor id c' ;;;
  let* n := leaf_size (m_leaf c') in
  if m_index c' <? n then ret true else
  put_cursor id (set_inprogress true c') ;;;
  let* r := next_parents (m_parents c') in
  match r with
  | None => put_cursor id invalid_cursor ;;; ret false
  | Some (parents, leaf) =>
    let* n := leaf_size leaf in
    assert! (0 <? n) ;;;
    put_cursor id (set_inprogress false (set_position leaf 0 (set_parents parents c'))) ;;;
    ret true
  end.

Definition cursor_lower_bound (key : bytes) (id : nat) : M T bool := lower_bound key id ;;; not_at_end id.
Definition cursor_upper_bound (key : bytes) (id : nat) : M T bool := upper_bound key id ;;; not_at_end id.
Definition cursor_find (key : bytes) (id : nat) : M T bool := find key id ;;; not_at_end id.
Definition cursor_insert (value : bytes) (overwrite : bool) (id : nat) : M T bool :=
  let* inserted := insert value id in
  if negb inserted && overwrite then
    let* c := get_cursor id in
    leaf_set (m_leaf c) (m_index c) value ;;;
    ret inserted
  else ret inserted.
Definition cursor_get (id : nat) : M T bytes :=
  let* c := get_cursor id in
  check_element_valid c ;;;
  leaf_get (m_leaf c) (m_index c).
Definition cursor_set (value : bytes) (id : nat) : M T unit :=
  let* c := get_cursor id in
  check_element_valid c ;;;
  let* old := cursor_get id in
  throw_if (negb (bool_decide (derive_key old = derive_key value))) bad_argument ;;;
  leaf_set (m_leaf c) (m_index c) value.
End tree_ops.
End btree.
