(* ===== verification/BTreeShape.v ===== *)
(** * The shape of B+ trees

    The abstract trees that the blocks of a B+ tree represent, the order of
    their values and separators, and paths from the root to a leaf.  The
    values of a tree in order are its [contents]; a cursor is a position in
    this list. *)

From Stdlib Require Import Sorting.Sorted.
From S2P Require Import Prelude BTreeNodes.

Module btree_shape.

(** ** Trees *)

Inductive node : Type :=
  | Leaf (i : Z) (vals : list bytes)
  | Inner (i : Z) (keys : list bytes) (children : list node).

Definition node_id (t : node) : Z := match t with Leaf i _ | Inner i _ _ => i end.

Fixpoint contents (t : node) : list bytes :=
  match t with
  | Leaf _ vals => vals
  | Inner _ _ cs => concat (map contents cs)
  end.
Definition all_contents (cs : list node) : list bytes := concat (map contents cs).

(** What the block of a node holds. *)
Inductive body : Type :=
  | LeafBody (vals : list bytes)
  | InnerBody (keys : list bytes) (children : list Z).
Definition node_body (t : node) : body :=
  match t with
  | Leaf _ vals => LeafBody vals
  | Inner _ keys cs => InnerBody keys (map node_id cs)
  end.
Fixpoint blocks_of (t : node) : list (Z * body) :=
  (node_id t, node_body t) :: match t with
  | Leaf _ _ => []
  | Inner _ _ cs => concat (map blocks_of cs)
  end.
Definition all_blocks (cs : list node) : list (Z * body) := concat (map blocks_of cs).
Definition ids (t : node) : list Z := (blocks_of t).*1.

Lemma all_contents_app cs ds : all_contents (cs ++ ds) = all_contents cs ++ all_contents ds.
Proof. unfold all_contents. by rewrite map_app, concat_app. Qed.
Lemma all_contents_cons c cs : all_contents (c :: cs) = contents c ++ all_contents cs.
Proof. done. Qed.
Lemma all_blocks_app cs ds : all_blocks (cs ++ ds) = all_blocks cs ++ all_blocks ds.
Proof. unfold all_blocks. by rewrite map_app, concat_app. Qed.
Lemma all_blocks_cons c cs : all_blocks (c :: cs) = blocks_of c ++ all_blocks cs.
Proof. done. Qed.
Lemma blocks_of_inner i keys cs :
  blocks_of (Inner i keys cs) = (i, InnerBody keys (map node_id cs)) :: all_blocks cs.
Proof. done. Qed.
Lemma contents_inner i keys cs : contents (Inner i keys cs) = all_contents cs.
Proof. done. Qed.

(** ** Order *)

(** The requirements on [raw_btree_options::key_less]: a strict weak order. *)
Class KeyOrder (key_less : bytes -> bytes -> bool) : Prop := {
  key_asym : forall a b, key_less a b = true -> key_less b a = false;
  key_negtrans : forall a b c, key_less a c = true -> key_less a b = true \/ key_less b c = true
}.

Section order.
Context (derive_key : bytes -> bytes) (key_less : bytes -> bytes -> bool).
Implicit Types (k : bytes) (v : bytes) (lo hi : option bytes) (keys : list bytes).

Definition lt k k' : Prop := key_less k k' = true.
Definition le k k' : Prop := key_less k' k = false.
Definition above lo k : Prop := match lo with None => True | Some l => lt l k end.
Definition below hi k : Prop := match hi with None => True | Some h => le k h end.
Definition before hi k : Prop := match hi with None => True | Some h => lt k h end.
(** The range of the keys of values and the range of separators. *)
Definition bounded lo hi k : Prop := above lo k /\ below hi k.
Definition inside lo hi k : Prop := above lo k /\ before hi k.

Definition sorted (vals : list bytes) : Prop := StronglySorted (fun v w => lt (derive_key v) (derive_key w)) vals.

(** The separators [keys] of the children [cs]: every separator is an upper
    bound of the child to its left and a strict lower bound of the child to
    its right. *)
Fixpoint chain {N} (P : option bytes -> option bytes -> N -> Prop) lo keys (cs : list N) hi : Prop :=
  match keys, cs with
  | [], [c] => P lo hi c
  | k :: keys, c :: cs => inside lo hi k /\ P lo (Some k) c /\ chain P (Some k) keys cs hi
  | _, _ => False
  end.

(** A tree with [h] levels of internal nodes whose keys are in (lo, hi]. *)
Fixpoint shape (h : nat) lo hi (t : node) : Prop :=
  match h, t with
  | O, Leaf _ vals => vals <> [] /\ sorted vals /\ Forall (fun v => bounded lo hi (derive_key v)) vals
  | S h, Inner _ keys cs => (2 <= length cs)%nat /\ chain (shape h) lo keys cs hi
  | _, _ => False
  end.

Context `{KeyOrder key_less}.

Lemma lt_le k k' : lt k k' -> le k k'.
Proof. apply key_asym. Qed.
Lemma le_refl k : le k k.
Proof. unfold le. destruct (key_less k k) eqn:E; [|done]. by rewrite <- E, key_asym. Qed.
Lemma lt_irrefl k : ~ lt k k.
Proof. intros Hk. pose proof (le_refl k). unfold lt, le in *. congruence. Qed.
Lemma lt_le_trans a b c : lt a b -> le b c -> lt a c.
Proof. unfold lt, le. intros Hab Hbc. destruct (key_negtrans a c b Hab); [done|congruence]. Qed.
Lemma le_lt_trans a b c : le a b -> lt b c -> lt a c.
Proof. unfold lt, le. intros Hab Hbc. destruct (key_negtrans b a c Hbc); [congruence|done]. Qed.
Lemma lt_trans a b c : lt a b -> lt b c -> lt a c.
Proof. intros Ha Hb. eapply lt_le_trans; [exact Ha|by apply lt_le]. Qed.
Lemma le_trans a b c : le a b -> le b c -> le a c.
Proof.
  unfold le. intros Hab Hbc. destruct (key_less c a) eqn:E; [|done].
  destruct (key_negtrans c b a E); congruence.
Qed.
Lemma not_lt_le a b : ~ lt a b <-> le b a.
Proof. unfold lt, le. destruct (key_less a b); split; congruence. Qed.

Lemma above_lt lo k k' : above lo k -> lt k k' -> above lo k'.
Proof. destruct lo; simpl; [apply lt_trans|done]. Qed.
Lemma above_le lo k k' : above lo k -> le k k' -> above lo k'.
Proof. destruct lo; simpl; [apply lt_le_trans|done]. Qed.
Lemma below_le hi k k' : below hi k -> le k' k -> below hi k'.
Proof. destruct hi; simpl; [|done]. intros Hk Hk'. by eapply le_trans. Qed.
Lemma before_below hi k : before hi k -> below hi k.
Proof. destruct hi; simpl; [apply lt_le|done]. Qed.
Lemma before_hi_le hi k k' : before hi k -> le k' k -> before hi k'.
Proof. destruct hi; simpl; [|done]. intros Hk Hk'. by eapply le_lt_trans. Qed.
Lemma bounded_left lo hi k k' : inside lo hi k -> bounded lo (Some k) k' -> bounded lo hi k'.
Proof. intros [_ Hb%before_below] [Ha Hle]. split; [done|]. by eapply below_le. Qed.
Lemma bounded_right lo hi k k' : inside lo hi k -> bounded (Some k) hi k' -> bounded lo hi k'.
Proof. intros [Ha _] [Hlt Hb]. split; [|done]. by eapply above_lt. Qed.
Lemma inside_left lo hi k k' : inside lo hi k -> inside lo (Some k) k' -> inside lo hi k'.
Proof. intros [_ Hb] [Ha Hlt]. split; [done|]. eapply before_hi_le; [done|by apply lt_le]. Qed.
Lemma inside_right lo hi k k' : inside lo hi k -> inside (Some k) hi k' -> inside lo hi k'.
Proof. intros [Ha _] [Hlt Hb]. split; [|done]. by eapply above_lt. Qed.

Lemma sorted_app (vals1 vals2 : list bytes) : sorted (vals1 ++ vals2) <->
  sorted vals1 /\ sorted vals2 /\
  forall v w, v ∈ vals1 -> w ∈ vals2 -> lt (derive_key v) (derive_key w).
Proof.
  unfold sorted. induction vals1 as [|v vals1 IH]; simpl.
  { split; [|tauto]. intros Hs. split_and!; [constructor|done|]. intros v w Hv. by apply elem_of_nil in Hv. }
  split.
  - intros Hs%StronglySorted_inv. destruct Hs as [Hs Hv]. apply IH in Hs as (H1 & H2 & H3).
    apply Forall_app in Hv as [Hv1 Hv2]. split_and!; [by constructor|done|].
    intros x y [->|Hx]%elem_of_cons Hy; [|by apply H3]. by apply (proj1 (Forall_forall _ _) Hv2).
  - intros (Hs & H2 & H3). apply StronglySorted_inv in Hs as [H1 Hv]. constructor.
    + apply IH. split_and!; [done..|]. intros x y Hx Hy. apply H3; [by apply elem_of_cons; right|done].
    + apply Forall_app. split; [done|]. apply Forall_forall. intros y Hy. apply H3; [|done].
      by apply elem_of_cons; left.
Qed.

(** *** Chains *)

Section chain.
Context {N : Type} (P : option bytes -> option bytes -> N -> Prop).
Implicit Types (c : N) (cs : list N).

Lemma chain_length lo keys cs hi : chain P lo keys cs hi -> length cs = S (length keys).
Proof.
  revert lo cs. induction keys as [|k keys IH]; intros lo [|c [|c' cs]]; simpl; try done; try tauto.
  - intros (_ & _ & Hc). by destruct keys.
  - intros (_ & _ & Hc). by rewrite <- (IH _ _ Hc).
Qed.

Lemma chain_inside lo keys cs hi : chain P lo keys cs hi -> Forall (inside lo hi) keys.
Proof.
  revert lo cs. induction keys as [|k keys IH]; intros lo [|c cs]; simpl; try done.
  intros (Hk & _ & Hc). constructor; [done|]. eapply Forall_impl; [by eapply IH|].
  intros k' Hk'. by eapply inside_right.
Qed.

Lemma chain_keys_sorted lo keys cs hi : chain P lo keys cs hi -> StronglySorted lt keys.
Proof.
  revert lo cs. induction keys as [|k keys IH]; intros lo [|c cs]; simpl; try done; [constructor|].
  intros (_ & _ & Hc). constructor; [by eapply IH|].
  eapply Forall_impl; [by eapply chain_inside|]. by intros k' [Hk' _].
Qed.

(** Chains can be cut at every separator. *)
Lemma chain_app lo keys1 cs1 k keys2 cs2 hi : length cs1 = S (length keys1) ->
  chain P lo (keys1 ++ k :: keys2) (cs1 ++ cs2) hi <->
  inside lo hi k /\ chain P lo keys1 cs1 (Some k) /\ chain P (Some k) keys2 cs2 hi.
Proof.
  revert lo cs1. induction keys1 as [|k1 keys1 IH]; intros lo [|c cs1] Hlen; try discriminate Hlen.
  - destruct cs1; [|discriminate Hlen]. simpl. tauto.
  - simpl. rewrite IH by (simpl in Hlen; lia). split.
    + intros (Hb1 & HP & Hb & Hc1 & Hc2). pose proof (inside_right _ _ _ _ Hb1 Hb) as Hbk.
      split_and!; try done. split; [apply Hb1|apply Hb].
    + intros (Hb & (Hb1 & HP & Hc1) & Hc2). split_and!; try done.
      * by apply (inside_left _ _ k).
      * split; [apply Hb1|apply Hb].
Qed.

(** The bounds of the child [i]. *)
Definition lo_at lo keys (i : nat) : option bytes := match i with O => lo | S j => keys !! j end.
Definition hi_at keys hi (i : nat) : option bytes := match keys !! i with Some k => Some k | None => hi end.

Lemma chain_child lo keys cs hi (i : nat) c :
  chain P lo keys cs hi -> cs !! i = Some c -> P (lo_at lo keys i) (hi_at keys hi i) c.
Proof.
  revert lo cs i. induction keys as [|k keys IH]; intros lo [|c0 cs] i Hc Hi; try done; simpl in Hc.
  - destruct cs; [|done]. destruct i; [|done]. by injection Hi as ->.
  - destruct Hc as (_ & HP & Hc). destruct i as [|i]; [by injection Hi as ->|].
    specialize (IH _ _ _ Hc Hi). by destruct i.
Qed.

Lemma chain_insert lo keys cs hi (i : nat) c :
  chain P lo keys cs hi -> P (lo_at lo keys i) (hi_at keys hi i) c -> chain P lo keys (<[i := c]> cs) hi.
Proof.
  revert lo cs i. induction keys as [|k keys IH]; intros lo [|c0 cs] i Hc Hi; try done; simpl in Hc.
  - destruct cs; [|done]. by destruct i.
  - destruct Hc as (Hk & HP & Hc). destruct i as [|i]; [done|]. simpl. split_and!; [done..|].
    apply IH; [done|]. by destruct i.
Qed.
End chain.

Lemma chain_impl {N} (P Q : option bytes -> option bytes -> N -> Prop) lo keys cs hi :
  (forall lo hi c, c ∈ cs -> P lo hi c -> Q lo hi c) -> chain P lo keys cs hi -> chain Q lo keys cs hi.
Proof.
  revert lo cs. induction keys as [|k keys IH]; intros lo [|c cs] HPQ; simpl; try done.
  - destruct cs; [|done]. apply HPQ. by left.
  - intros (Hk & HP & Hc). split_and!; [done|apply HPQ; [by left|done]|].
    apply IH; [|done]. intros lo' hi' c' Hc'. apply HPQ. by right.
Qed.

(** *** Contents *)

Definition in_range lo hi (vals : list bytes) : Prop := Forall (fun v => bounded lo hi (derive_key v)) vals.

Lemma in_range_left lo hi k vals : inside lo hi k -> in_range lo (Some k) vals -> in_range lo hi vals.
Proof. intros Hk Hr. eapply Forall_impl; [exact Hr|]. intros v. by apply bounded_left. Qed.
Lemma in_range_right lo hi k vals : inside lo hi k -> in_range (Some k) hi vals -> in_range lo hi vals.
Proof. intros Hk Hr. eapply Forall_impl; [exact Hr|]. intros v. by apply bounded_right. Qed.

Definition ordered lo hi (vals : list bytes) : Prop := sorted vals /\ in_range lo hi vals.

Lemma ordered_app lo k hi vals1 vals2 : inside lo hi k ->
  ordered lo (Some k) vals1 -> ordered (Some k) hi vals2 -> ordered lo hi (vals1 ++ vals2).
Proof.
  intros Hk [Hs1 Hr1] [Hs2 Hr2]. split.
  - apply sorted_app. split_and!; [done..|]. intros v w Hv Hw.
    apply (proj1 (Forall_forall _ _) Hr1) in Hv as [_ Hv]. apply (proj1 (Forall_forall _ _) Hr2) in Hw as [Hw _].
    by eapply le_lt_trans.
  - apply Forall_app. split; [by eapply in_range_left|by eapply in_range_right].
Qed.

Lemma chain_ordered lo keys cs hi :
  chain (fun lo hi c => ordered lo hi (contents c)) lo keys cs hi -> ordered lo hi (all_contents cs).
Proof.
  revert lo cs. induction keys as [|k keys IH]; intros lo [|c cs]; simpl; try done.
  - destruct cs; [|done]. unfold all_contents. simpl. by rewrite app_nil_r.
  - intros (Hk & Ho & Hc). rewrite all_contents_cons. apply (ordered_app _ k); auto.
Qed.

Lemma shape_ordered h lo hi t : shape h lo hi t -> ordered lo hi (contents t).
Proof.
  revert lo hi t. induction h as [|h IH]; intros lo hi [i vals|i keys cs]; simpl; try done.
  - by intros (_ & Hs & Hr).
  - intros [_ Hc]. apply (chain_ordered lo keys). eapply chain_impl; [|exact Hc]. intros; by apply IH.
Qed.
Lemma shape_sorted h lo hi t : shape h lo hi t -> sorted (contents t).
Proof. intros Hs%shape_ordered. apply Hs. Qed.

Lemma shape_nonempty h lo hi t : shape h lo hi t -> contents t <> [].
Proof.
  revert lo hi t. induction h as [|h IH]; intros lo hi [i vals|i keys cs]; simpl; try done.
  - by intros [Hne _].
  - intros [_ Hc]. pose proof (chain_length _ _ _ _ _ Hc). destruct cs as [|c cs]; [done|].
    apply (chain_child _ _ _ _ _ 0 c) in Hc; [|done]. apply IH in Hc. simpl. by destruct (contents c).
Qed.

(** The values to the left and to the right of the child [i]. *)
Lemma chain_sides h lo keys cs hi (i : nat) c :
  chain (shape h) lo keys cs hi -> cs !! i = Some c ->
  Forall (fun v => exists k j, (j < i)%nat /\ keys !! j = Some k /\ le (derive_key v) k) (all_contents (take i cs)) /\
  Forall (fun v => exists k, keys !! i = Some k /\ lt k (derive_key v)) (all_contents (drop (S i) cs)).
Proof.
  revert lo cs i. induction keys as [|k keys IH]; intros lo [|c0 cs] i; simpl; try done.
  - destruct cs; [|done]. destruct i; [|done]. intros _ _. split; constructor.
  - intros (Hk & Hc0 & Hc) Hi. destruct i as [|i].
    + split; [constructor|]. simpl. rewrite drop_0.
      assert (ordered (Some k) hi (all_contents cs)) as [_ Hr].
      { apply (chain_ordered _ keys). eapply chain_impl; [|exact Hc]. intros. by eapply shape_ordered. }
      eapply Forall_impl; [exact Hr|]. intros v [Hv _]. by exists k.
    + destruct (IH _ _ _ Hc Hi) as [Hl Hr]. split; [|done]. simpl. rewrite all_contents_cons. apply Forall_app. split.
      * apply shape_ordered in Hc0 as [_ Hc0]. eapply Forall_impl; [exact Hc0|]. intros v [_ Hv]. exists k, 0%nat.
        split_and!; [lia|done|done].
      * eapply Forall_impl; [exact Hl|]. intros v (k' & j & Hj & Hk' & Hv). exists k', (S j). split_and!; [lia|done|done].
Qed.

(** ** Searching sorted lists *)

(** [p] holds for the elements before the position [r] and for no other. *)
Definition cut {X} (p : X -> Prop) (l : list X) (r : nat) : Prop :=
  (r <= length l)%nat /\ Forall p (take r l) /\ Forall (fun x => ~ p x) (drop r l).

Lemma cut_mid {X} (p : X -> Prop) pre l post r :
  Forall p pre -> cut p l r -> Forall (fun x => ~ p x) post -> cut p (pre ++ l ++ post) (length pre + r).
Proof.
  intros Hpre (Hr & Ht & Hd) Hpost. split; [rewrite !length_app; lia|].
  rewrite take_app_add, drop_app_add, take_app_le, drop_app_le by lia. split; by apply Forall_app.
Qed.

Lemma cut_unique {X} (p : X -> Prop) l r r' : cut p l r -> cut p l r' -> r = r'.
Proof.
  assert (forall r r', cut p l r -> cut p l r' -> (r < r')%nat -> False) as Hlt.
  { intros a b (Ha & _ & Hd) (Hb & Ht & _) Hab. destruct (l !! a) as [x|] eqn:Hx; [|apply lookup_ge_None in Hx; lia].
    apply (Forall_lookup_1 _ _ 0 x Hd); [rewrite lookup_drop; by rewrite Nat.add_0_r|].
    apply (Forall_lookup_1 _ _ a x Ht). by rewrite lookup_take_lt by lia. }
  intros H1 H2. destruct (Nat.lt_trichotomy r r') as [|[|]]; [by edestruct (Hlt r r')|done|by edestruct (Hlt r' r)].
Qed.

Lemma cut_lookup {X} (p : X -> Prop) l r (i : nat) x : cut p l r -> l !! i = Some x -> p x <-> (i < r)%nat.
Proof.
  intros (Hr & Ht & Hd) Hx. destruct (decide (i < r)%nat) as [Hi|Hi].
  - split; [done|]. intros _. apply (Forall_lookup_1 _ _ i x Ht). by rewrite lookup_take_lt.
  - split; [|done]. intros Hp. exfalso. apply (Forall_lookup_1 _ _ (i - r) x Hd); [|done].
    rewrite lookup_drop. by replace (r + (i - r))%nat with i by lia.
Qed.

Lemma cut_exists {X} (R : X -> X -> Prop) (p : X -> Prop) `{forall x, Decision (p x)} l :
  StronglySorted R l -> (forall x y, R x y -> p y -> p x) -> exists r, cut p l r.
Proof.
  intros Hs Hp. induction Hs as [|x l Hs IH Hx]; [exists 0%nat; by repeat constructor|].
  destruct (decide (p x)) as [Hpx|Hpx].
  - destruct IH as (r & Hr & Ht & Hd). exists (S r). split_and!; [simpl; lia|by constructor|done].
  - exists 0%nat. split_and!; [lia|constructor|]. constructor; [done|].
    eapply Forall_impl; [exact Hx|]. intros y Hy Hpy. by eapply Hpx, Hp.
Qed.
End order.

(** ** Paths *)

(** The path with the entries [ps] ends in the leaf [leaf] with the values
    [vals]; [pre] and [post] are the values of the leaves before and after it. *)
Inductive at_path : node -> list (Z * Z) -> Z -> list bytes -> list bytes -> list bytes -> Prop :=
  | at_leaf i vals : at_path (Leaf i vals) [] i [] vals []
  | at_inner i keys l c r ps leaf pre vals post :
      at_path c ps leaf pre vals post ->
      at_path (Inner i keys (l ++ c :: r)) ((i, zlen l) :: ps) leaf
        (all_contents l ++ pre) vals (post ++ all_contents r).

Lemma at_path_contents t ps leaf pre vals post :
  at_path t ps leaf pre vals post -> contents t = pre ++ vals ++ post.
Proof.
  induction 1 as [|i keys l c r ps leaf pre vals post _ IH]; [by rewrite app_nil_r|].
  rewrite contents_inner, all_contents_app, all_contents_cons, IH. by rewrite <- !app_assoc.
Qed.

Lemma at_path_block t ps leaf pre vals post :
  at_path t ps leaf pre vals post -> (leaf, LeafBody vals) ∈ blocks_of t.
Proof.
  induction 1 as [|i keys l c r ps leaf pre vals post _ IH]; [by left|].
  rewrite blocks_of_inner, all_blocks_app, all_blocks_cons. right. apply elem_of_app. right. apply elem_of_app. by left.
Qed.

Lemma at_path_height derive_key key_less h lo hi t ps leaf pre vals post :
  shape derive_key key_less h lo hi t -> at_path t ps leaf pre vals post ->
  length ps = h /\ vals <> [].
Proof.
  intros Hs Hp. revert h lo hi Hs. induction Hp as [|i keys l c r ps leaf pre vals post _ IH]; intros [|h] lo hi Hs; try done.
  - by destruct Hs.
  - destruct Hs as [_ Hc]. apply (chain_child _ _ _ _ _ _ (length l) c) in Hc; [|by rewrite list_lookup_middle].
    destruct (IH _ _ _ Hc). split; [simpl; lia|done].
Qed.
End btree_shape.
