(* ===== verification/BTreeStore.v ===== *)
(** * The blocks of a B+ tree

    The state of a tree in terms of the contents of the blocks that its
    allocator handed out, and what the operations on nodes do to them. *)

From Stdlib Require Import Strings.Byte.
From S2P Require Import Prelude MathOps Serialization Blocks EngineSpec FreeList Allocator Extent BTreeNodes BTree BTreeShape.

Module btree_store.
Import btree btree_shape.

Section store.
Context {A : Type} `{AllocatorSpec A}.
Context (cfg : config) (bs : Z).
Abbreviation T := (tree A).
Abbreviation vs := (value_size cfg).
Abbreviation ks := (key_size cfg).
Abbreviation mc := (internal_max_children cfg).
Abbreviation cap := (leaf_capacity cfg).

(** What the constructor guarantees about the sizes. *)
Record config_ok : Prop := {
  cf_vs : 0 < vs;
  cf_ks : 0 < ks;
  cf_cap : 2 <= cap;
  cf_mc : 4 <= mc;
  cf_bs : bs < 2 ^ 32;
  cf_leaf : node_header_size + vs * cap <= bs;
  cf_inner : child_base ks mc + 8 * mc <= bs
}.

(** The bytes of a block that holds a node. *)
Definition body_ok (b : bytes) (x : body) : Prop :=
  zlen b = bs /\
  match x with
  | LeafBody vals => leaf_ok vs cap b vals
  | InnerBody keys cs => internal_ok ks mc b keys cs
  end.
Definition holds (G : gmap Z bytes) (i : Z) (x : body) : Prop := exists b, G !! i = Some b /\ body_ok b x.
Definition stored (G : gmap Z bytes) (l : list (Z * body)) : Prop := Forall (fun e => holds G e.1 e.2) l.

(** [G] holds the contents of all blocks of the client, [n] blocks can be
    allocated. *)
Record st (anc : anchor) (cs : list (nat * cursor)) (G : gmap Z bytes) (n : Z) (t : T) : Prop := {
  st_inv : al_inv (m_alloc t) (dom G);
  st_blocks : forall i b, G !! i = Some b -> disk_block (eng_view (m_alloc t)) i = b;
  st_n : 0 <= n;
  st_room : al_room (m_alloc t) n;
  st_bs : d_bs (eng_view (m_alloc t)) = bs;
  st_anchor : m_anchor t = anc;
  st_config : m_config t = cfg;
  st_cursors : m_cursors t = cs
}.

Implicit Types (anc : anchor) (cs : list (nat * cursor)) (G : gmap Z bytes) (n i : Z) (t : T) (b : bytes).

Lemma wp_on_tree_alloc {X} (m : M A X) t Q :
  wp m (m_alloc t) (fun x a => Q x (set_alloc a t)) -> wp (on_alloc m) t Q.
Proof. apply (wp_zoom m_alloc set_alloc). Qed.

Lemma st_block_length anc cs G n t i b : st anc cs G n t -> G !! i = Some b -> zlen b = bs.
Proof.
  intros Hst Hi. destruct (al_wf _ _ (st_inv _ _ _ _ _ Hst)) as [Hwf Hin].
  rewrite <- (st_blocks _ _ _ _ _ Hst i b Hi), <- (st_bs _ _ _ _ _ Hst). apply length_disk_block; [done|].
  apply Hin. by apply elem_of_dom_2 in Hi.
Qed.

Lemma st_index anc cs G n t i : st anc cs G n t -> i ∈ dom G -> index_valid i = true /\ is_u64 i.
Proof.
  intros Hst Hi. destruct (al_wf _ _ (st_inv _ _ _ _ _ Hst)) as [Hwf Hin].
  destruct (al_used_valid _ _ i (st_inv _ _ _ _ _ Hst) Hi) as [Hv Hge]. split; [done|].
  specialize (Hin i Hi). unfold in_disk in Hin. pose proof (wf_bs_pos _ Hwf). destruct Hwf as (_ & _ & Hs).
  unfold invalid_value, u64_max in Hs.
  split; [done|]. assert (d_size (eng_view (m_alloc t)) <= d_size (eng_view (m_alloc t)) * d_bs (eng_view (m_alloc t))) by nia.
  lia.
Qed.

(** The allocator moves to a state with the same blocks. *)
Lemma st_alloc_same anc cs G n t a : st anc cs G n t -> al_inv a (dom G) -> al_step (dom G) 0 (m_alloc t) a ->
  st anc cs G n (set_alloc a t).
Proof.
  intros Hst Hi (Hg & Hb & Hr). destruct Hst. split; cbn; try done.
  - intros i b Hib. rewrite Hb; [auto|]. by apply elem_of_dom_2 in Hib.
  - apply Hr; [done|by rewrite Z.add_0_l].
  - unfold d_bs. by rewrite Hg.
Qed.

(** The block [i] gets the contents [b]. *)
Lemma st_alloc_write anc cs G n t a i b : st anc cs G n t -> i ∈ dom G -> al_inv a (dom G) ->
  al_step (dom G ∖ {[i]}) 0 (m_alloc t) a -> disk_block (eng_view a) i = b ->
  st anc cs (<[i := b]> G) n (set_alloc a t).
Proof.
  intros Hst Hd Hi (Hg & Hb & Hr) Hib. destruct Hst. split; cbn; try done.
  - rewrite dom_insert_L, subseteq_union_1_L; [done|]. by apply singleton_subseteq_l.
  - intros j c [[<- <-]|[Hne Hj]]%lookup_insert_Some; [done|]. rewrite Hb; [auto|].
    apply elem_of_difference. rewrite elem_of_singleton. split; [by apply elem_of_dom_2 in Hj|done].
  - apply Hr; [done|by rewrite Z.add_0_l].
  - unfold d_bs. by rewrite Hg.
Qed.

Lemma eng_read_spec anc cs G n t i b (Q : bytes -> T -> Prop) :
  st anc cs G n t -> G !! i = Some b ->
  (forall t', st anc cs G n t' -> Q b t') -> wp (on_alloc (eng_read i)) t Q.
Proof.
  intros Hst Hi HQ. apply wp_on_tree_alloc. eapply wp_mono.
  { apply (al_read _ _ _ (st_inv _ _ _ _ _ Hst)). by apply elem_of_dom_2 in Hi. }
  cbn beta. intros x a (-> & Hinv & Hstep). rewrite (st_blocks _ _ _ _ _ Hst i b Hi). apply HQ.
  by apply st_alloc_same.
Qed.

Lemma eng_store_spec anc cs G n t i b b' (Q : unit -> T -> Prop) :
  st anc cs G n t -> G !! i = Some b -> length b' = length b ->
  (forall t', st anc cs (<[i := b']> G) n t' -> Q tt t') -> wp (on_alloc (eng_update i (fun _ => b'))) t Q.
Proof.
  intros Hst Hi Hl HQ. apply wp_on_tree_alloc. assert (i ∈ dom G) as Hd by by apply elem_of_dom_2 in Hi. eapply wp_mono.
  { apply (al_update _ _ i (fun _ => b') (st_inv _ _ _ _ _ Hst)); [done|].
    by rewrite (st_blocks _ _ _ _ _ Hst i b Hi). }
  cbn beta. intros [] a (Hinv & Hstep & Hb). apply HQ. by apply st_alloc_write.
Qed.

Lemma tree_node_read_spec {X} anc cs G n t i x (m : M bytes X) (P : X -> Prop) (Q : X -> T -> Prop) :
  st anc cs G n t -> holds G i x -> (forall b, body_ok b x -> wp m b (fun r _ => P r)) ->
  (forall r t', P r -> st anc cs G n t' -> Q r t') -> wp (node_read i m) t Q.
Proof.
  intros Hst (b & Hi & Hb) Hm HQ. unfold node_read. wp_step. apply (eng_read_spec _ _ _ _ _ _ _ _ Hst Hi).
  intros t' Hst'. specialize (Hm b Hb). apply wp_run in Hm as (b' & r & -> & Hr). cbn [snd]. wp_step. by apply HQ.
Qed.

Lemma tree_node_write_spec {X} anc cs G n t i x x' (m : M bytes X) (P : X -> Prop) (Q : X -> T -> Prop) :
  st anc cs G n t -> holds G i x -> (forall b, body_ok b x -> wp m b (fun r b' => P r /\ body_ok b' x')) ->
  (forall r b t', P r -> body_ok b x' -> st anc cs (<[i := b]> G) n t' -> Q r t') -> wp (node_write i m) t Q.
Proof.
  intros Hst (b & Hi & Hb) Hm HQ. unfold node_write. wp_step. apply (eng_read_spec _ _ _ _ _ _ _ _ Hst Hi).
  intros t' Hst'. specialize (Hm b Hb). apply wp_run in Hm as (b' & r & -> & Hr & Hb'). wp_step.
  apply (eng_store_spec _ _ _ _ _ _ _ _ _ Hst' Hi); [destruct Hb, Hb'; lia|].
  intros t'' Hst''. wp_step. by eapply HQ.
Qed.

Lemma node_write2_spec {X} anc cs G n t i j x y x' y' (m : M (bytes * bytes) X) (P : X -> Prop) (Q : X -> T -> Prop) :
  st anc cs G n t -> i <> j -> holds G i x -> holds G j y ->
  (forall b c, body_ok b x -> body_ok c y -> wp m (b, c) (fun r s => P r /\ body_ok s.1 x' /\ body_ok s.2 y')) ->
  (forall r b c t', P r -> body_ok b x' -> body_ok c y' -> st anc cs (<[j := c]> (<[i := b]> G)) n t' -> Q r t') ->
  wp (node_write2 i j m) t Q.
Proof.
  intros Hst Hne (b & Hi & Hb) (c & Hj & Hc) Hm HQ. unfold node_write2. wp_step.
  apply (eng_read_spec _ _ _ _ _ _ _ _ Hst Hi). intros t1 Hst1. wp_step.
  apply (eng_read_spec _ _ _ _ _ _ _ _ Hst1 Hj). intros t2 Hst2.
  specialize (Hm b c Hb Hc). apply wp_run in Hm as ([b' c'] & r & -> & Hr & Hb' & Hc'). cbn [fst snd] in *. wp_step.
  apply (eng_store_spec _ _ _ _ _ _ _ _ _ Hst2 Hi); [destruct Hb, Hb'; lia|].
  intros t3 Hst3. wp_step.
  apply (eng_store_spec _ _ _ _ _ j c c' _ Hst3); [by rewrite lookup_insert_ne by done|destruct Hc, Hc'; lia|].
  intros t4 Hst4. wp_step. by eapply HQ.
Qed.

Lemma holds_inner G i keys children : holds G i (InnerBody keys children) ->
  length keys = (length children - 1)%nat /\ zlen children <= mc /\ mc < 2 ^ 31.
Proof.
  intros (b & _ & _ & Hok). destruct Hok as [Hks Hmc Hlen _ Hc Hl _ _]. unfold child_base, node_header_size in Hlen.
  assert (0 <= ks * (mc - 1)) by nia. split_and!; lia.
Qed.

Lemma holds_leaf G i vals : holds G i (LeafBody vals) ->
  Forall (fun v => zlen v = vs) vals /\ zlen vals <= cap /\ cap < 2 ^ 32.
Proof.
  intros (b & _ & _ & Hok). pose proof (leaf_values _ _ _ _ Hok). destruct Hok as [Hvs Hlen _ Hc _].
  unfold node_header_size in Hlen. split_and!; [done|lia|nia].
Qed.

(** ** Reading nodes *)

Lemma leaf_size_spec anc cs G n t i vals (Q : Z -> T -> Prop) :
  st anc cs G n t -> holds G i (LeafBody vals) ->
  (forall t', st anc cs G n t' -> Q (zlen vals) t') -> wp (leaf_size i) t Q.
Proof.
  intros Hst Hi HQ. unfold leaf_size. apply (tree_node_read_spec _ _ _ _ _ _ _ _ (fun r => r = zlen vals) _ Hst Hi).
  - intros b [_ Hb]. unfold leaf_node.get_size. wp_step. apply (l_size _ _ _ _ Hb).
  - intros r t' -> Hst'. by apply HQ.
Qed.

Lemma tree_leaf_get_spec anc cs G n t i vals (k : nat) v (Q : bytes -> T -> Prop) :
  st anc cs G n t -> holds G i (LeafBody vals) -> vals !! k = Some v ->
  (forall t', st anc cs G n t' -> Q v t') -> wp (leaf_get i (Z.of_nat k)) t Q.
Proof.
  intros Hst Hi Hk HQ. unfold leaf_get, get_config. wp_step. wp_step. rewrite (st_config _ _ _ _ _ Hst).
  apply (tree_node_read_spec _ _ _ _ _ _ _ _ (fun r => r = v) _ Hst Hi).
  - intros b [_ Hb]. by apply (BTreeNodes.leaf_get_spec _ _ _ vals _ v).
  - intros r t' -> Hst'. by apply HQ.
Qed.

Lemma child_count_spec anc cs G n t i keys children (Q : Z -> T -> Prop) :
  st anc cs G n t -> holds G i (InnerBody keys children) ->
  (forall t', st anc cs G n t' -> Q (zlen children) t') -> wp (child_count i) t Q.
Proof.
  intros Hst Hi HQ. unfold child_count. apply (tree_node_read_spec _ _ _ _ _ _ _ _ (fun r => r = zlen children) _ Hst Hi).
  - intros b [_ Hb]. unfold internal_node.get_child_count. wp_step. apply (i_size _ _ _ _ _ Hb).
  - intros r t' -> Hst'. by apply HQ.
Qed.

Lemma get_child_spec anc cs G n t i keys children (k : nat) c (Q : Z -> T -> Prop) :
  st anc cs G n t -> holds G i (InnerBody keys children) -> children !! k = Some c ->
  (forall t', st anc cs G n t' -> Q c t') -> wp (get_child i (Z.of_nat k)) t Q.
Proof.
  intros Hst Hi Hk HQ. unfold get_child, get_config. wp_step. wp_step. rewrite (st_config _ _ _ _ _ Hst).
  apply (tree_node_read_spec _ _ _ _ _ _ _ _ (fun r => r = c) _ Hst Hi).
  - intros b [_ Hb]. by apply (internal_get_child_spec _ _ _ keys children _ c).
  - intros r t' -> Hst'. by apply HQ.
Qed.

Lemma get_key_spec anc cs G n t i keys children (k : nat) key (Q : bytes -> T -> Prop) :
  st anc cs G n t -> holds G i (InnerBody keys children) -> keys !! k = Some key ->
  (forall t', st anc cs G n t' -> Q key t') -> wp (get_key i (Z.of_nat k)) t Q.
Proof.
  intros Hst Hi Hk HQ. unfold get_key, get_config. wp_step. wp_step. rewrite (st_config _ _ _ _ _ Hst).
  apply (tree_node_read_spec _ _ _ _ _ _ _ _ (fun r => r = key) _ Hst Hi).
  - intros b [_ Hb]. by apply (internal_get_key_spec _ _ _ keys children _ key).
  - intros r t' -> Hst'. by apply HQ.
Qed.

Lemma read_leaf_spec anc cs G n t i x (Q : Z -> T -> Prop) :
  st anc cs G n t -> holds G i x ->
  (forall t', st anc cs G n t' -> Q i t') -> wp (read_leaf i) t Q.
Proof.
  intros Hst (b & Hi & _) HQ. unfold read_leaf. wp_step. apply (eng_read_spec _ _ _ _ _ _ _ _ Hst Hi).
  intros t' Hst'. wp_step. by apply HQ.
Qed.

Context (Hcfg : config_ok).

Lemma check_internal_spec anc cs G n t (Q : unit -> T -> Prop) :
  st anc cs G n t -> Q tt t -> wp check_internal t Q.
Proof.
  intros Hst HQ. destruct Hcfg. unfold check_internal. wp_step. wp_step.
  rewrite (st_config _ _ _ _ _ Hst), (st_bs _ _ _ _ _ Hst).
  wp_step. wp_step. wp_step. wp_step. wp_step; [|done]. apply Z.leb_le.
  unfold internal_node.compute_size, internal_node.block_index_size, child_base, node_header_size in *.
  assert (mc <= ks * (mc - 1) + mc) by nia. unwrap. lia.
Qed.

Lemma tree_read_internal_spec anc cs G n t i x (Q : Z -> T -> Prop) :
  st anc cs G n t -> holds G i x ->
  (forall t', st anc cs G n t' -> Q i t') -> wp (read_internal i) t Q.
Proof.
  intros Hst (b & Hi & _) HQ. unfold read_internal. wp_step. apply (eng_read_spec _ _ _ _ _ _ _ _ Hst Hi).
  intros t' Hst'. wp_step. apply (check_internal_spec _ _ _ _ _ _ Hst'). wp_step. by apply HQ.
Qed.

(** ** New nodes *)

Lemma st_weaken anc cs G n m t : st anc cs G n t -> 0 <= m <= n -> st anc cs G m t.
Proof. intros Hst Hm. destruct Hst. split; try done; [lia|]. by apply (al_room_mono _ (dom G) n). Qed.

Lemma mod_anchor_spec anc cs G n t f (Q : unit -> T -> Prop) :
  st anc cs G n t -> (forall t', st (f anc) cs G n t' -> Q tt t') -> wp (mod_anchor f) t Q.
Proof.
  intros Hst HQ. unfold mod_anchor. wp_step. apply HQ. destruct Hst. split; cbn; try done. by f_equal.
Qed.

(** A block that was just allocated. *)
Lemma tree_allocate_block_spec anc cs G n t (Q : Z -> T -> Prop) :
  al_supports 1 -> st anc cs G (n + 1) t -> 0 <= n ->
  (forall i b t', G !! i = None -> st anc cs (<[i := b]> G) n t' -> Q i t') -> wp (on_alloc (allocate 1)) t Q.
Proof.
  intros Hs1 Hst Hn HQ. apply wp_on_tree_alloc. destruct Hst as [Hi Hb Hn' Hr Hbs Ha Hc Hcs]. eapply wp_mono.
  { apply (allocate_spec (m_alloc t) (dom G) 1); [done|lia|done|]. apply (al_room_mono _ (dom G) (n + 1)); [done|lia|done]. }
  cbn beta. intros i a (Hinv & Hd & Hg & Hbl & Hroom). rewrite blocks_1 in *.
  assert (G !! i = None) as Hfresh by (apply not_elem_of_dom; set_solver).
  apply (HQ i (disk_block (eng_view a) i)); [done|]. split; cbn; try done.
  - by rewrite dom_insert_L, union_comm_L.
  - intros j c [[<- <-]|[Hne Hj]]%lookup_insert_Some; [done|]. rewrite Hbl; [auto|]. by apply elem_of_dom_2 in Hj.
  - apply Hroom; [lia|]. by rewrite Z.add_comm.
  - unfold d_bs. by rewrite Hg.
Qed.

Lemma overwrite_zero_block_spec anc cs G n t i b (Q : unit -> T -> Prop) :
  st anc cs G n t -> G !! i = Some b ->
  (forall t', st anc cs (<[i := zeros bs]> G) n t' -> Q tt t') -> wp (on_alloc (eng_overwrite_zero i)) t Q.
Proof.
  intros Hst Hi HQ. apply wp_on_tree_alloc. assert (i ∈ dom G) as Hd by by apply elem_of_dom_2 in Hi. eapply wp_mono.
  { by apply (al_overwrite_zero _ _ i (st_inv _ _ _ _ _ Hst)). }
  cbn beta. intros [] a (Hinv & Hstep & Hb). rewrite (st_bs _ _ _ _ _ Hst) in Hb. apply HQ. by apply st_alloc_write.
Qed.

Lemma init_leaf_ok b : zlen b = bs -> body_ok (put_node_size 0 b) (LeafBody []).
Proof.
  intros Hb. destruct Hcfg. unfold node_header_size in *. assert (4 <= zlen b) by nia.
  assert (length (put_node_size 0 b) = length b) as Hl by by apply length_put_node_size.
  split; [by rewrite Hl|].
  split; [done|rewrite Hl; unfold node_header_size; lia|by rewrite node_size_put|cbn; lia|done].
Qed.
Lemma init_internal_ok b : zlen b = bs -> body_ok (put_node_size 0 b) (InnerBody [] []).
Proof.
  intros Hb. destruct Hcfg. unfold child_base, node_header_size in *. assert (0 <= ks * (mc - 1)) by nia. assert (4 <= zlen b) by lia.
  assert (length (put_node_size 0 b) = length b) as Hl by by apply length_put_node_size.
  split; [by rewrite Hl|].
  split; [done|done|rewrite Hl; unfold child_base, node_header_size; lia|by rewrite node_size_put|cbn; lia|done|done|done].
Qed.

Definition more_leaves (k : Z) anc : anchor :=
  Anchor (size anc) (u64 (leaf_nodes anc + k)) (internal_nodes anc) (height anc) (root anc) (leftmost anc) (rightmost anc).
Definition more_inner (k : Z) anc : anchor :=
  Anchor (size anc) (leaf_nodes anc) (u32 (internal_nodes anc + k)) (height anc) (root anc) (leftmost anc) (rightmost anc).

Context (supports1 : al_supports 1).

Lemma create_leaf_spec anc cs G n t (Q : Z -> T -> Prop) :
  st anc cs G (n + 1) t -> 0 <= n ->
  (forall i b t', G !! i = None -> body_ok b (LeafBody []) -> st (more_leaves 1 anc) cs (<[i := b]> G) n t' -> Q i t') ->
  wp create_leaf t Q.
Proof.
  intros Hst Hn HQ. unfold create_leaf. wp_step. apply (tree_allocate_block_spec anc cs G n); [done..|]. intros i b t1 Hfresh Hst1.
  wp_step. unfold get_anchor. wp_step. rewrite (st_anchor _ _ _ _ _ Hst1). wp_step.
  apply (mod_anchor_spec _ _ _ _ _ _ _ Hst1). intros t2 Hst2. wp_step.
  apply (overwrite_zero_block_spec _ _ _ _ _ i b _ Hst2); [apply lookup_insert_eq|]. rewrite insert_insert_eq. intros t3 Hst3. wp_step.
  unfold node_write. wp_step. apply (eng_read_spec _ _ _ _ _ i _ _ Hst3 (lookup_insert_eq _ _ _)). intros t4 Hst4.
  unfold leaf_node.init, modify. cbn iota beta. wp_step.
  pose proof (st_block_length _ _ _ _ _ i _ Hst4 (lookup_insert_eq _ _ _)) as Hlen. pose proof (init_leaf_ok _ Hlen) as Hok.
  apply (eng_store_spec _ _ _ _ _ _ _ _ _ Hst4 (lookup_insert_eq _ _ _)); [destruct Hok as [Hok _]; lia|].
  rewrite insert_insert_eq. intros t5 Hst5. wp_step. wp_step. by eapply HQ.
Qed.

Lemma create_internal_spec anc cs G n t (Q : Z -> T -> Prop) :
  st anc cs G (n + 1) t -> 0 <= n ->
  (forall i b t', G !! i = None -> body_ok b (InnerBody [] []) -> st (more_inner 1 anc) cs (<[i := b]> G) n t' -> Q i t') ->
  wp create_internal t Q.
Proof.
  intros Hst Hn HQ. unfold create_internal. wp_step. apply (tree_allocate_block_spec anc cs G n); [done..|]. intros i b t1 Hfresh Hst1.
  wp_step. unfold get_anchor. wp_step. rewrite (st_anchor _ _ _ _ _ Hst1). wp_step.
  apply (mod_anchor_spec _ _ _ _ _ _ _ Hst1). intros t2 Hst2. wp_step.
  apply (overwrite_zero_block_spec _ _ _ _ _ i b _ Hst2); [apply lookup_insert_eq|]. rewrite insert_insert_eq. intros t3 Hst3. wp_step.
  apply (check_internal_spec _ _ _ _ _ _ Hst3). wp_step.
  unfold node_write. wp_step. apply (eng_read_spec _ _ _ _ _ i _ _ Hst3 (lookup_insert_eq _ _ _)). intros t4 Hst4.
  unfold internal_node.init, modify. cbn iota beta. wp_step.
  pose proof (st_block_length _ _ _ _ _ i _ Hst4 (lookup_insert_eq _ _ _)) as Hlen. pose proof (init_internal_ok _ Hlen) as Hok.
  apply (eng_store_spec _ _ _ _ _ _ _ _ _ Hst4 (lookup_insert_eq _ _ _)); [destruct Hok as [Hok _]; lia|].
  rewrite insert_insert_eq. intros t5 Hst5. wp_step. wp_step. by eapply HQ.
Qed.

(** ** Frames *)

Lemma holds_eq G i b x : body_ok b x -> holds (<[i := b]> G) i x.
Proof. intros Hb. exists b. by rewrite lookup_insert_eq. Qed.
Lemma holds_ne G i j b x : i <> j -> holds G j x -> holds (<[i := b]> G) j x.
Proof. intros Hne (c & Hj & Hc). exists c. by rewrite lookup_insert_ne. Qed.
Lemma stored_insert G i b l : i ∉ l.*1 -> stored G l -> stored (<[i := b]> G) l.
Proof.
  intros Hi Hs. apply Forall_forall. intros e He. apply holds_ne.
  - intros ->. apply Hi, list_elem_of_fmap. by exists e.
  - by apply (proj1 (Forall_forall _ _) Hs).
Qed.
Lemma stored_perm G l l' : l ≡ₚ l' -> stored G l -> stored G l'.
Proof. intros Hp. apply Forall_Permutation; [done|by rewrite Hp]. Qed.
Lemma stored_fresh G i l : stored G l -> G !! i = None -> i ∉ l.*1.
Proof.
  intros Hs Hi (e & -> & He)%list_elem_of_fmap. apply (proj1 (Forall_forall _ _) Hs) in He as (b & Hb & _). congruence.
Qed.
End store.
End btree_store.
