(* ===== verification/BTreeSearch.v ===== *)
(** * Searching B+ trees

    The searches inside of nodes, the descent from the root to a leaf, and
    the moves to neighboring leaves. *)

From Stdlib Require Import Strings.Byte Sorting.Sorted.
From S2P Require Import Prelude MathOps Serialization Blocks EngineSpec FreeList Allocator Extent BTreeNodes BTree BTreeShape BTreeStore.

Module btree_search.
Import btree btree_shape btree_store.

Section search.
Context {A : Type} `{AllocatorSpec A}.
Context (derive_key : bytes -> bytes) (key_less : bytes -> bytes -> bool) `{KeyOrder key_less}.
Context (cfg : config) (bs : Z) (Hcfg : config_ok cfg bs).
Abbreviation T := (tree A).
Abbreviation st := (st cfg bs).
Abbreviation holds := (holds cfg bs).
Abbreviation stored := (stored cfg bs).
Abbreviation shape := (shape derive_key key_less).
Abbreviation lt := (lt key_less).
Abbreviation le := (le key_less).
Implicit Types (anc : anchor) (cs : list (nat * cursor)) (G : gmap Z bytes) (n i : Z) (t : T) (key : bytes).

(** ** Binary search *)

Lemma partition_point_spec (Inv : T -> Prop) (p : Z -> M T bool) (r N : Z) :
  (forall i t, 0 <= i < N -> Inv t -> wp (p i) t (fun b t' => b = (i <? r) /\ Inv t')) ->
  forall fuel first count t, 0 <= first -> 0 <= count <= Z.of_nat fuel -> first <= r <= first + count -> first + count <= N ->
    Inv t -> wp (partition_point fuel p first count) t (fun x t' => x = r /\ Inv t').
Proof.
  intros Hp fuel. induction fuel as [|fuel IH]; intros first count t Hf Hc Hr HN Hi; cbn [partition_point].
  { destruct (Z.leb_spec count 0); [|lia]. wp_step. split; [lia|done]. }
  destruct (Z.leb_spec count 0); [wp_step; split; [lia|done]|].
  assert (0 <= count / 2 < count) as Hs by (split; [apply Z.div_pos; lia|apply Z.div_lt; lia]).
  wp_step. eapply wp_mono; [apply Hp; [lia|done]|]. cbn beta. intros b t' [-> Hi'].
  destruct (Z.ltb_spec (first + count / 2) r); apply IH; try done; lia.
Qed.

(** The keys that come before the position that is searched for. *)
Definition before_b (which : seek_bound_t) (key k : bytes) : bool :=
  match which with
  | seek_bound_upper => negb (key_less key k)
  | _ => key_less k key
  end.
Definition is_before which key k : Prop := before_b which key k = true.

Lemma is_before_le which key k k' : le k k' -> is_before which key k' -> is_before which key k.
Proof.
  unfold is_before, before_b. destruct which; [by apply le_lt_trans| |by apply le_lt_trans].
  rewrite !negb_true_iff. intros Hk Hk'. by apply (le_trans _ _ k').
Qed.

Lemma not_before_le which key k : ~ is_before which key k -> le key k.
Proof.
  unfold is_before, before_b. destruct which; [by apply not_lt_le| |by apply not_lt_le].
  rewrite negb_true_iff. destruct (key_less key k) eqn:E; [|done]. intros _. by apply lt_le.
Qed.
Lemma lt_not_before which key k : lt key k -> ~ is_before which key k.
Proof.
  unfold is_before, before_b. intros Hlt. pose proof (lt_le _ _ _ Hlt) as Hle.
  unfold btree_shape.lt, btree_shape.le in *. destruct which; rewrite ?Hlt, ?Hle; done.
Qed.

(** A search over a list whose elements are read one at a time. *)
Lemma binary_search_spec {X} anc cs G n t (l : list X) (q : X -> bool) (p : Z -> M T bool) (r : nat) (Q : Z -> T -> Prop) :
  st anc cs G n t -> cut (fun x => q x = true) l r ->
  (forall (i : nat) x t', l !! i = Some x -> st anc cs G n t' ->
    wp (p (Z.of_nat i)) t' (fun b t'' => b = q x /\ st anc cs G n t'')) ->
  (forall t', st anc cs G n t' -> Q (Z.of_nat r) t') -> wp (search p (zlen l)) t Q.
Proof.
  intros Hst Hcut Hp HQ. unfold search. eapply wp_mono.
  { apply (partition_point_spec (st anc cs G n) p (Z.of_nat r) (zlen l)); try done; try lia.
    - intros i t' Hi Hst'. destruct (l !! Z.to_nat i) as [x|] eqn:Hx; [|apply lookup_ge_None in Hx; lia].
      replace i with (Z.of_nat (Z.to_nat i)) at 1 by lia. eapply wp_mono; [by apply (Hp _ x)|]. cbn beta.
      intros b t'' [-> Hst'']. split; [|done]. pose proof (cut_lookup _ _ _ _ _ Hcut Hx) as Hq. cbn beta in Hq.
      destruct (q x); symmetry; [apply Z.ltb_lt|apply Z.ltb_ge]; [pose proof (proj1 Hq eq_refl); lia|].
      destruct (decide (Z.to_nat i < r)%nat) as [Hlt|]; [|lia]. apply Hq in Hlt. done.
    - destruct Hcut as [Hr _]. lia. }
  cbn beta. intros x t' [-> Hst']. by apply HQ.
Qed.

Lemma bound_leaf_spec which anc cs G n t i vals key (r : nat) (Q : Z -> T -> Prop) :
  st anc cs G n t -> holds G i (LeafBody vals) -> cut (fun v => is_before which key (derive_key v)) vals r ->
  (forall t', st anc cs G n t' -> Q (Z.of_nat r) t') -> wp (bound_leaf derive_key key_less which i key) t Q.
Proof.
  intros Hst Hi Hcut HQ.
  unfold bound_leaf. destruct which; unfold lower_bound_leaf, upper_bound_leaf; wp_step;
    apply (leaf_size_spec _ _ _ _ _ _ _ _ _ _ Hst Hi); intros t1 Hst1;
    apply (binary_search_spec anc cs G n t1 vals (fun v => before_b _ key (derive_key v)) _ r Q Hst1 Hcut); try done;
    intros k v t' Hk Hst'; wp_step; apply (tree_leaf_get_spec _ _ _ _ _ _ _ _ _ _ v _ Hst' Hi Hk); intros t'' Hst''; by wp_step.
Qed.

Lemma bound_internal_spec which anc cs G n t i keys children key (r : nat) (Q : Z -> T -> Prop) :
  st anc cs G n t -> holds G i (InnerBody keys children) -> (2 <= length children)%nat ->
  cut (is_before which key) keys r ->
  (forall t', st anc cs G n t' -> Q (Z.of_nat r) t') -> wp (bound_internal key_less which i key) t Q.
Proof.
  intros Hst Hi Hlen Hcut HQ.
  assert (u32 (zlen children - 1) = zlen keys) as Hn.
  { destruct (holds_inner _ _ _ _ _ _ Hi) as (-> & Hc & Hm). rewrite wrap_small; [lia|]. split; lia. }
  unfold bound_internal. destruct which; unfold lower_bound_internal, upper_bound_internal; wp_step;
    apply (child_count_spec _ _ _ _ _ _ _ _ _ _ _ Hst Hi); intros t1 Hst1; wp_step; wp_step; rewrite Hn;
    apply (binary_search_spec anc cs G n t1 keys (before_b _ key) _ r Q Hst1 Hcut); try done;
    intros k v t' Hk Hst'; wp_step; apply (get_key_spec _ _ _ _ _ _ _ _ _ _ _ v _ Hst' Hi Hk); intros t'' Hst''; by wp_step.
Qed.

(** ** From the root to a leaf *)

(** [choose] selects a child of a node such that [p] holds for the values to
    its left and [q] for the values to its right. *)
Definition chooses (p q : bytes -> Prop) anc cs G n (choose : Z -> M T Z) : Prop :=
  forall h lo hi i keys children t,
    st anc cs G n t -> holds G i (InnerBody keys (map node_id children)) ->
    shape (S h) lo hi (Inner i keys children) ->
    wp (choose i) t (fun x t' => st anc cs G n t' /\ exists l c r,
      children = l ++ c :: r /\ x = zlen l /\ Forall p (all_contents l) /\ Forall q (all_contents r)).

Lemma choose_bound which key anc cs G n :
  chooses (fun v => is_before which key (derive_key v)) (fun v => lt key (derive_key v))
    anc cs G n (fun node => bound_internal key_less which node key).
Proof.
  intros h lo hi i keys children t Hst Hi [Hlen Hc].
  assert (exists r, cut (is_before which key) keys r) as [r Hr].
  { apply (cut_exists lt); [|by eapply chain_keys_sorted|].
    - intros k. unfold is_before. apply _.
    - intros x y Hxy. by apply is_before_le, lt_le. }
  pose proof (chain_length _ _ _ _ _ _ Hc) as Hlc. destruct Hr as (Hrl & Hr1 & Hr2).
  destruct (children !! r) as [c|] eqn:Hcr; [|apply lookup_ge_None in Hcr; lia].
  apply (bound_internal_spec which anc cs G n t i keys (map node_id children) key r); try done; [by rewrite length_map|].
  intros t' Hst'. split; [done|]. exists (take r children), c, (drop (S r) children).
  destruct (chain_sides _ _ _ _ _ _ _ _ _ Hc Hcr) as [Hl Hg].
  split_and!; [by rewrite take_drop_middle|rewrite length_take; lia| |].
  - eapply Forall_impl; [exact Hl|]. intros v (k & j & Hj & Hk & Hv). apply (is_before_le _ _ _ k Hv).
    apply (Forall_lookup_1 _ _ j k Hr1). by rewrite lookup_take_lt.
  - eapply Forall_impl; [exact Hg|]. intros v (k & Hk & Hv). apply (le_lt_trans _ _ k); [|done].
    apply (not_before_le which). apply (Forall_lookup_1 _ _ 0 k Hr2). by rewrite lookup_drop, Nat.add_0_r.
Qed.

Lemma choose_first anc cs G n : chooses (fun _ => False) (fun _ => True) anc cs G n (fun _ => ret 0).
Proof.
  intros h lo hi i keys children t Hst Hi [Hlen Hc]. wp_step. split; [done|].
  destruct children as [|c r]; [simpl in Hlen; lia|]. exists [], c, r. split_and!; [done..|constructor|]. by apply Forall_true.
Qed.

Lemma choose_last anc cs G n :
  chooses (fun _ => True) (fun _ => False) anc cs G n (fun node => let* k := child_count node in ret (u32 (k - 1))).
Proof.
  intros h lo hi i keys children t Hst Hi [Hlen Hc]. wp_step.
  apply (child_count_spec _ _ _ _ _ _ _ _ _ _ _ Hst Hi). intros t' Hst'. wp_step. split; [done|].
  destruct (holds_inner _ _ _ _ _ _ Hi) as (_ & Hl & Hm). rewrite length_map in *.
  destruct children as [|c l _] using rev_ind; [simpl in Hlen; lia|]. rewrite length_app in *. cbn [length] in *.
  exists l, c, []. split_and!; [done| |by apply Forall_true|constructor]. rewrite wrap_small; [lia|]. split; lia.
Qed.

Lemma seek_down_spec p q anc cs G n choose h lo hi tr t :
  chooses p q anc cs G n choose -> st anc cs G n t -> stored G (blocks_of tr) -> shape h lo hi tr ->
  wp (seek_down h choose (node_id tr)) t (fun r t' => st anc cs G n t' /\ exists pre vals post,
    at_path tr r.1 r.2 pre vals post /\ Forall p pre /\ Forall q post).
Proof.
  intros Hch. revert lo hi tr t. induction h as [|h IH]; intros lo hi [i vals|i keys children] t Hst Hs Hsh; try done.
  - cbn [seek_down]. wp_step. split; [done|]. exists [], vals, []. split_and!; constructor.
  - cbn [seek_down node_id]. rewrite blocks_of_inner in Hs. apply Forall_cons in Hs as [Hi Hs]. cbn [fst snd] in Hi.
    wp_step. apply (tree_read_internal_spec _ _ Hcfg _ _ _ _ _ _ _ _ Hst Hi). intros t1 Hst1. wp_step.
    eapply wp_mono; [by apply (Hch h lo hi i keys children t1)|]. cbn beta.
    intros x t2 (Hst2 & l & c & r & -> & -> & Hl & Hr). wp_step. rewrite map_app in Hi. cbn [map] in Hi.
    apply (get_child_spec _ _ _ _ _ _ _ _ _ _ (length l) (node_id c) _ Hst2 Hi).
    { by rewrite <- (length_map node_id l), list_lookup_middle. }
    intros t3 Hst3. wp_step. rewrite all_blocks_app, all_blocks_cons in Hs.
    apply Forall_app in Hs as [_ Hs]. apply Forall_app in Hs as [Hs _].
    destruct Hsh as [_ Hc]. apply (chain_child _ _ _ _ _ _ (length l) c) in Hc; [|by rewrite list_lookup_middle].
    eapply wp_mono; [by apply (IH _ _ c t3 Hst3 Hs Hc)|]. cbn beta. intros [ps leaf] t4 (Hst4 & pre & vals & post & Hp & Hpre & Hpost).
    wp_step. split; [done|]. cbn [fst snd] in *. exists (all_contents l ++ pre), vals, (post ++ all_contents r).
    split_and!; [by constructor| |]; by apply Forall_app.
Qed.

(** ** Neighboring leaves *)

Lemma find_last_snoc (can_move : Z * Z -> M T bool) l e below t Q :
  wp (find_last can_move l below) t (fun r t' =>
    match r with
    | Some (front, e', b') => Q (Some (e :: front, e', b')) t'
    | None => wp (can_move e) t' (fun b t'' =>
        Q (if b : bool then Some ([], e, (below + length l)%nat) else None) t'')
    end) ->
  wp (find_last can_move (l ++ [e]) below) t Q.
Proof.
  revert below t. induction l as [|e' l IH]; intros below t; cbn [find_last app].
  - unfold wp at 1. cbn. rewrite Nat.add_0_r. intros Hw. wp_step. eapply wp_mono; [exact Hw|].
    intros [] t'; by intros HQ; wp_step.
  - intros Hw. wp_step. apply wp_run in Hw as (t'' & r & Hrun & HQ). apply bind_ok_inv in Hrun as (t' & b & Hb & Hrun).
    apply wp_run. exists t', b. split; [done|]. destruct b.
    + injection Hrun as <- <-. wp_step. by rewrite rev_app_distr.
    + apply IH. apply wp_run. exists t'', r. split; [done|].
      destruct r as [[[front e0] b0]|]; [done|]. cbn [length] in HQ. by rewrite Nat.add_succ_r in HQ.
Qed.

Definition can_next (e : Z * Z) : M T bool := let* k := child_count e.1 in ret (u32 (e.2 + 1) <? k).
Definition can_prev (e : Z * Z) : M T bool := ret (0 <? e.2).

Lemma stored_app G l l' : stored G (l ++ l') <-> stored G l /\ stored G l'.
Proof. apply Forall_app. Qed.
Lemma stored_inner G i keys children : stored G (blocks_of (Inner i keys children)) <->
  holds G i (InnerBody keys (map node_id children)) /\ stored G (all_blocks children).
Proof. rewrite blocks_of_inner. unfold stored. by rewrite Forall_cons. Qed.
Lemma stored_mid G l c r : stored G (all_blocks (l ++ c :: r)) <->
  stored G (all_blocks l) /\ stored G (blocks_of c) /\ stored G (all_blocks r).
Proof. rewrite all_blocks_app, all_blocks_cons, !stored_app. done. Qed.

Lemma chain_mid {N} (P : option bytes -> option bytes -> N -> Prop) lo keys l c r hi :
  chain key_less P lo keys (l ++ c :: r) hi -> P (lo_at lo keys (length l)) (hi_at keys hi (length l)) c.
Proof. intros Hc. eapply chain_child; [done|]. by rewrite list_lookup_middle. Qed.

Lemma can_next_spec anc cs G n h lo hi tr ps leaf pre vals post t :
  st anc cs G n t -> stored G (blocks_of tr) -> shape h lo hi tr -> at_path tr ps leaf pre vals post ->
  wp (find_last can_next (rev ps) 0) t (fun r t' => st anc cs G n t' /\
    match r with
    | None => post = []
    | Some (front, e, below) => exists keys children k y lo' hi' rest,
        holds G e.1 (InnerBody keys children) /\ e.2 = Z.of_nat k /\ children !! S k = Some (node_id y) /\
        shape below lo' hi' y /\ stored G (blocks_of y) /\ post = contents y ++ rest /\
        forall ps' leaf' pre' vals' post', at_path y ps' leaf' pre' vals' post' ->
          at_path tr (front ++ (e.1, e.2 + 1) :: ps') leaf' (pre ++ vals ++ pre') vals' (post' ++ rest)
    end).
Proof.
  intros Hst Hs Hsh Hp. revert h lo hi t Hst Hs Hsh.
  induction Hp as [|i keys l c r ps leaf pre vals post Hp IH]; intros [|h] lo hi t Hst Hs Hsh; try done.
  apply stored_inner in Hs as [Hi Hs]. apply stored_mid in Hs as (Hsl & Hsc & Hsr). destruct Hsh as [Hlen Hc].
  cbn [rev]. apply find_last_snoc.
  pose proof (chain_mid _ _ _ _ _ _ _ Hc) as Hshc. destruct (at_path_height _ _ _ _ _ _ _ _ _ _ _ Hshc Hp) as [Hh _].
  eapply wp_mono; [by apply (IH _ _ _ t Hst Hsc Hshc)|]. cbn beta. intros [[[front e] below]|] t1 [Hst1 Hr].
  - destruct Hr as (ks & ch & k & y & lo' & hi' & rest & He & Hk & Hy & Hshy & Hsy & -> & Hnew). split; [done|].
    exists ks, ch, k, y, lo', hi', (rest ++ all_contents r). split_and!; try done; [by rewrite app_assoc|].
    intros ps' leaf' pre' vals' post' Hy'. cbn [app].
    rewrite <- (app_assoc (all_contents l)), (app_assoc post'). apply at_inner. by apply Hnew.
  - subst post. unfold can_next. wp_step. apply (child_count_spec _ _ _ _ _ _ _ _ _ _ _ Hst1 Hi). intros t2 Hst2. wp_step.
    destruct (holds_inner _ _ _ _ _ _ Hi) as (_ & Hle & Hm). rewrite length_map, length_app in *. cbn [length fst snd] in *.
    rewrite wrap_small by (split; lia). split; [done|]. destruct r as [|y r].
    + case Z.ltb_spec; [cbn [length]; lia|done].
    + case Z.ltb_spec; [intros _|cbn [length]; lia].
      apply (stored_mid G []) in Hsr as (_ & Hsy & _).
      replace (l ++ c :: y :: r) with ((l ++ [c]) ++ y :: r) in * by by rewrite <- app_assoc.
      exists keys, (map node_id ((l ++ [c]) ++ y :: r)), (length l), y,
        (lo_at lo keys (length (l ++ [c]))), (hi_at keys hi (length (l ++ [c]))), (all_contents r).
      rewrite length_rev, Hh. split_and!; try done.
      * rewrite list_lookup_fmap. replace (S (length l)) with (length (l ++ [c])) by (rewrite length_app; simpl; lia).
        by rewrite list_lookup_middle.
      * by apply chain_mid in Hc.
      * intros ps' leaf' pre' vals' post' Hy'. cbn [app fst snd].
        assert (((all_contents l ++ pre) ++ vals ++ pre') = all_contents (l ++ [c]) ++ pre') as ->.
        { rewrite all_contents_app, all_contents_cons, (at_path_contents _ _ _ _ _ _ Hp).
          cbn. by rewrite !app_nil_r, <- !app_assoc. }
        replace (zlen l + 1) with (zlen (l ++ [c])) by (rewrite length_app; simpl; lia).
        by apply at_inner.
Qed.

Lemma can_prev_spec anc cs G n h lo hi tr ps leaf pre vals post t :
  st anc cs G n t -> stored G (blocks_of tr) -> shape h lo hi tr -> at_path tr ps leaf pre vals post ->
  wp (find_last can_prev (rev ps) 0) t (fun r t' => st anc cs G n t' /\
    match r with
    | None => pre = []
    | Some (front, e, below) => exists keys children k x lo' hi' rest,
        holds G e.1 (InnerBody keys children) /\ e.2 = Z.of_nat (S k) /\ children !! k = Some (node_id x) /\
        shape below lo' hi' x /\ stored G (blocks_of x) /\ pre = rest ++ contents x /\
        forall ps' leaf' pre' vals' post', at_path x ps' leaf' pre' vals' post' ->
          at_path tr (front ++ (e.1, e.2 - 1) :: ps') leaf' (rest ++ pre') vals' (post' ++ vals ++ post)
    end).
Proof.
  intros Hst Hs Hsh Hp. revert h lo hi t Hst Hs Hsh.
  induction Hp as [|i keys l c r ps leaf pre vals post Hp IH]; intros [|h] lo hi t Hst Hs Hsh; try done.
  apply stored_inner in Hs as [Hi Hs]. apply stored_mid in Hs as (Hsl & Hsc & Hsr). destruct Hsh as [Hlen Hc].
  cbn [rev]. apply find_last_snoc.
  pose proof (chain_mid _ _ _ _ _ _ _ Hc) as Hshc. destruct (at_path_height _ _ _ _ _ _ _ _ _ _ _ Hshc Hp) as [Hh _].
  eapply wp_mono; [by apply (IH _ _ _ t Hst Hsc Hshc)|]. cbn beta. intros [[[front e] below]|] t1 [Hst1 Hr].
  - destruct Hr as (ks & ch & k & y & lo' & hi' & rest & He & Hk & Hy & Hshy & Hsy & -> & Hnew). split; [done|].
    exists ks, ch, k, y, lo', hi', (all_contents l ++ rest). split_and!; try done; [by rewrite app_assoc|].
    intros ps' leaf' pre' vals' post' Hy'. cbn [app].
    rewrite <- (app_assoc (all_contents l)), (app_assoc vals), (app_assoc post'). apply at_inner. by apply Hnew.
  - subst pre. unfold can_prev. wp_step. cbn [snd]. split; [done|]. rewrite app_nil_r. 
    destruct l as [|x l _] using rev_ind; [done|].
    destruct (Z.ltb_spec 0 (zlen (l ++ [x]))); [|rewrite length_app in *; cbn [length] in *; lia].
    apply stored_mid in Hsl as (_ & Hsx & _). rewrite <- app_assoc in *. cbn [app] in *.
    exists keys, (map node_id (l ++ x :: c :: r)), (length l), x,
      (lo_at lo keys (length l)), (hi_at keys hi (length l)), (all_contents l).
    rewrite length_rev, Hh. split_and!; try done.
    + rewrite length_app. cbn [length snd]. lia.
    + by rewrite list_lookup_fmap, list_lookup_middle.
    + by apply chain_mid in Hc.
    + rewrite all_contents_app, all_contents_cons. cbn. by rewrite app_nil_r.
    + intros ps' leaf' pre' vals' post' Hx'. cbn [app fst snd].
      assert (vals ++ post ++ all_contents r = all_contents (c :: r)) as ->.
      { rewrite all_contents_cons, (at_path_contents _ _ _ _ _ _ Hp). by rewrite <- !app_assoc. }
      replace (zlen (l ++ [x]) - 1) with (zlen l) by (rewrite length_app; simpl; lia).
      by apply at_inner.
Qed.

Lemma descend_spec p q anc cs G n choose h lo hi i keys children (k : nat) y t :
  chooses p q anc cs G n choose -> st anc cs G n t ->
  holds G i (InnerBody keys children) -> children !! k = Some (node_id y) -> stored G (blocks_of y) -> shape h lo hi y ->
  wp (descend h choose (i, Z.of_nat k)) t (fun r t' => st anc cs G n t' /\ exists pre vals post,
    at_path y r.1 r.2 pre vals post /\ Forall p pre /\ Forall q post).
Proof.
  intros Hch Hst Hi Hk Hs Hsh. unfold descend. cbn [fst snd]. wp_step.
  apply (get_child_spec _ _ _ _ _ _ _ _ _ _ k (node_id y) _ Hst Hi Hk). intros t1 Hst1. wp_step.
  eapply wp_mono; [by apply (seek_down_spec p q anc cs G n choose h lo hi y t1)|]. cbn beta.
  intros [ps leaf] t2 (Hst2 & pre & vals & post & Hp & Hpre & Hpost). cbn [fst snd] in *. wp_step.
  apply (read_leaf_spec _ _ _ _ _ _ _ leaf (LeafBody vals) _ Hst2).
  { apply (proj1 (Forall_forall _ _) Hs (leaf, LeafBody vals)). by eapply at_path_block. }
  intros t3 Hst3. wp_step. split; [done|]. by exists pre, vals, post.
Qed.

Lemma all_false {X} (l : list X) : Forall (fun _ => False) l -> l = [].
Proof. destruct l; [done|]. intros Hl. by apply Forall_cons in Hl as [[] _]. Qed.

Lemma next_parents_spec anc cs G n h lo hi tr ps leaf pre vals post t :
  st anc cs G n t -> stored G (blocks_of tr) -> shape h lo hi tr -> at_path tr ps leaf pre vals post ->
  wp (next_parents ps) t (fun r t' => st anc cs G n t' /\
    match r with
    | None => post = []
    | Some (ps', leaf') => exists vals' post', at_path tr ps' leaf' (pre ++ vals) vals' post'
    end).
Proof.
  intros Hst Hs Hsh Hp. unfold next_parents. wp_step. eapply wp_mono; [by eapply can_next_spec|]. cbn beta.
  intros [[[front [i j]] below]|] t1 [Hst1 Hr]; [|by wp_step].
  destruct Hr as (keys & children & k & y & lo' & hi' & rest & Hi & Hk & Hy & Hshy & Hsy & -> & Hnew). cbn [fst snd] in *.
  destruct (holds_inner _ _ _ _ _ _ Hi) as (_ & Hle & Hm). apply lookup_lt_Some in Hy as Hlt.
  rewrite wrap_small by (split; lia). replace (j + 1) with (Z.of_nat (S k)) in * by lia. wp_step.
  eapply wp_mono.
  { apply (descend_spec _ _ anc cs G n _ below lo' hi' i keys children (S k) y t1 (choose_first anc cs G n)); done. }
  cbn beta. intros [ps' leaf'] t2 (Hst2 & pre' & vals' & post' & Hp' & ->%all_false & _). wp_step. split; [done|].
  exists vals', (post' ++ rest). apply Hnew in Hp'. by rewrite app_nil_r in Hp'.
Qed.

Lemma prev_parents_spec anc cs G n h lo hi tr ps leaf pre vals post t :
  st anc cs G n t -> stored G (blocks_of tr) -> shape h lo hi tr -> at_path tr ps leaf pre vals post ->
  wp (prev_parents ps) t (fun r t' => st anc cs G n t' /\
    match r with
    | None => pre = []
    | Some (ps', leaf') => exists pre' vals', pre = pre' ++ vals' /\ at_path tr ps' leaf' pre' vals' (vals ++ post)
    end).
Proof.
  intros Hst Hs Hsh Hp. unfold prev_parents. wp_step. eapply wp_mono; [by eapply can_prev_spec|]. cbn beta.
  intros [[[front [i j]] below]|] t1 [Hst1 Hr]; [|by wp_step].
  destruct Hr as (keys & children & k & y & lo' & hi' & rest & Hi & Hk & Hy & Hshy & Hsy & -> & Hnew). cbn [fst snd] in *.
  destruct (holds_inner _ _ _ _ _ _ Hi) as (_ & Hle & Hm). apply lookup_lt_Some in Hy as Hlt.
  rewrite wrap_small by (split; lia). replace (j - 1) with (Z.of_nat k) in * by lia. wp_step.
  eapply wp_mono.
  { apply (descend_spec _ _ anc cs G n _ below lo' hi' i keys children k y t1 (choose_last anc cs G n)); done. }
  cbn beta. intros [ps' leaf'] t2 (Hst2 & pre' & vals' & post' & Hp' & _ & ->%all_false). wp_step. split; [done|].
  exists (rest ++ pre'), vals'. split; [|by apply Hnew in Hp'].
  rewrite (at_path_contents _ _ _ _ _ _ Hp'), app_nil_r. by rewrite app_assoc.
Qed.
End search.
End btree_search.
