(* ===== verification/BTreePaths.v ===== *)
(** * Contexts of B+ trees

    A tree with a hole, and what happens to the paths of a tree when the
    subtree in the hole is replaced. *)

From Stdlib Require Import Sorting.Sorted.
From S2P Require Import Prelude BTreeNodes BTreeShape.

Module btree_paths.
Import btree_shape.

(** ** Contexts *)

(** An internal node without the child between [f_left] and [f_right]. *)
Record frame : Type := Frame {
  f_id : Z;
  f_keys : list bytes;
  f_left : list node;
  f_right : list node
}.
Implicit Types (f : frame) (fs : list frame) (t c s : node) (ps : list (Z * Z)).

Fixpoint plug fs c : node :=
  match fs with
  | [] => c
  | f :: fs => Inner (f_id f) (f_keys f) (f_left f ++ plug fs c :: f_right f)
  end.
Definition entry f : Z * Z := (f_id f, zlen (f_left f)).
Definition entries fs : list (Z * Z) := map entry fs.
Fixpoint pre_of fs : list bytes :=
  match fs with [] => [] | f :: fs => all_contents (f_left f) ++ pre_of fs end.
Fixpoint post_of fs : list bytes :=
  match fs with [] => [] | f :: fs => post_of fs ++ all_contents (f_right f) end.

(** The path [ps] leads from [t] to the subtree [s]. *)
Inductive at_sub : node -> list (Z * Z) -> node -> list bytes -> list bytes -> Prop :=
  | at_here t : at_sub t [] t [] []
  | at_down i keys l c r ps s pre post :
      at_sub c ps s pre post ->
      at_sub (Inner i keys (l ++ c :: r)) ((i, zlen l) :: ps) s (all_contents l ++ pre) (post ++ all_contents r).

Lemma at_path_sub t ps leaf pre vals post :
  at_path t ps leaf pre vals post <-> at_sub t ps (Leaf leaf vals) pre post.
Proof.
  split.
  - induction 1; by constructor.
  - remember (Leaf leaf vals) as s eqn:Hs. induction 1; subst; constructor. by apply IHat_sub.
Qed.

Lemma at_sub_plug fs c : at_sub (plug fs c) (entries fs) c (pre_of fs) (post_of fs).
Proof. induction fs as [|f fs IH]; simpl; by constructor. Qed.

Lemma at_sub_inv t ps s pre post : at_sub t ps s pre post ->
  exists fs, t = plug fs s /\ ps = entries fs /\ pre = pre_of fs /\ post = post_of fs.
Proof.
  induction 1 as [|i keys l c r ps s pre post _ (fs & -> & -> & -> & ->)]; [by exists []|].
  by exists (Frame i keys l r :: fs).
Qed.

Lemma at_sub_trans t ps s pre post ps' s' pre' post' :
  at_sub t ps s pre post -> at_sub s ps' s' pre' post' -> at_sub t (ps ++ ps') s' (pre ++ pre') (post' ++ post).
Proof.
  induction 1 as [|i keys l c r ps s pre post _ IH]; intros Hs.
  - by rewrite app_nil_r.
  - rewrite <- (app_assoc (all_contents l)), (app_assoc post'). simpl. apply at_down. by apply IH.
Qed.

Lemma at_sub_contents t ps s pre post : at_sub t ps s pre post -> contents t = pre ++ contents s ++ post.
Proof.
  induction 1 as [|i keys l c r ps s pre post _ IH]; [by rewrite app_nil_r|].
  rewrite contents_inner, all_contents_app, all_contents_cons, IH. by rewrite <- !app_assoc.
Qed.
Lemma plug_contents fs c : contents (plug fs c) = pre_of fs ++ contents c ++ post_of fs.
Proof. apply (at_sub_contents _ (entries fs)), at_sub_plug. Qed.

Lemma plug_app fs fs' c : plug (fs ++ fs') c = plug fs (plug fs' c).
Proof. induction fs as [|f fs IH]; simpl; [done|]. by rewrite IH. Qed.
Lemma entries_app fs fs' : entries (fs ++ fs') = entries fs ++ entries fs'.
Proof. apply map_app. Qed.
Lemma pre_of_app fs fs' : pre_of (fs ++ fs') = pre_of fs ++ pre_of fs'.
Proof. induction fs as [|f fs IH]; simpl; [done|]. by rewrite IH, app_assoc. Qed.
Lemma post_of_app fs fs' : post_of (fs ++ fs') = post_of fs' ++ post_of fs.
Proof. induction fs as [|f fs IH]; simpl; [by rewrite app_nil_r|]. by rewrite IH, app_assoc. Qed.
Lemma length_entries fs : length (entries fs) = length fs.
Proof. apply length_map. Qed.

(** ** Blocks *)

Definition plug_id fs (i : Z) : Z := match fs with [] => i | f :: _ => f_id f end.
Lemma node_id_plug fs c : node_id (plug fs c) = plug_id fs (node_id c).
Proof. by destruct fs. Qed.

(** The blocks of a context whose hole has a node with the index [i]. *)
Fixpoint context_blocks fs (i : Z) : list (Z * body) :=
  match fs with
  | [] => []
  | f :: fs =>
    (f_id f, InnerBody (f_keys f) (map node_id (f_left f) ++ plug_id fs i :: map node_id (f_right f))) ::
    all_blocks (f_left f) ++ context_blocks fs i ++ all_blocks (f_right f)
  end.

Lemma plug_blocks fs c : blocks_of (plug fs c) ≡ₚ context_blocks fs (node_id c) ++ blocks_of c.
Proof.
  induction fs as [|f fs IH]; [done|]. cbn [plug]. rewrite blocks_of_inner, all_blocks_app, all_blocks_cons, IH.
  rewrite map_app. cbn [map context_blocks]. rewrite node_id_plug. cbn [app]. f_equiv.
  rewrite <- !app_assoc. f_equiv. f_equiv. apply Permutation_app_comm.
Qed.

(** ** Paths after a replacement *)

Lemma mid_cases {X} (l r l' r' : list X) x x' : l ++ x :: r = l' ++ x' :: r' ->
  (l = l' /\ x = x' /\ r = r') \/
  (exists m, l = l' ++ x' :: m /\ r' = m ++ x :: r) \/
  (exists m, l' = l ++ x :: m /\ r = m ++ x' :: r').
Proof.
  revert l'. induction l as [|y l IH]; intros [|y' l'] Heq; simpl in Heq.
  - injection Heq as -> ->. by left.
  - injection Heq as -> ->. right. right. by exists l'.
  - injection Heq as -> <-. right. left. by exists l.
  - injection Heq as -> Heq. destruct (IH _ Heq) as [(-> & -> & ->)|[(m & -> & ->)|(m & -> & ->)]]; [by left| |].
    + right. left. by exists m.
    + right. right. by exists m.
Qed.

Lemma ids_inner i keys cs : ids (Inner i keys cs) = i :: (all_blocks cs).*1.
Proof. done. Qed.
Lemma ids_child l c r : (all_blocks (l ++ c :: r)).*1 = (all_blocks l).*1 ++ ids c ++ (all_blocks r).*1.
Proof. by rewrite all_blocks_app, all_blocks_cons, !fmap_app. Qed.

Lemma node_id_in t : node_id t ∈ ids t.
Proof. destruct t; left. Qed.

(** The nodes on a path belong to the tree. *)
Lemma at_sub_ids t ps s pre post : at_sub t ps s pre post ->
  (forall e, e ∈ ps -> e.1 ∈ ids t) /\ node_id s ∈ ids t.
Proof.
  induction 1 as [|i keys l c r ps s pre post _ [IH1 IH2]].
  - split; [|apply node_id_in]. intros e He. by apply elem_of_nil in He.
  - rewrite ids_inner, ids_child. split.
    + intros e [->|He]%elem_of_cons; [by left|]. right. apply elem_of_app. right. apply elem_of_app. left. by apply IH1.
    + right. apply elem_of_app. right. apply elem_of_app. by left.
Qed.

Lemma plug_ids fs c i : i ∈ ids c -> i ∈ ids (plug fs c).
Proof.
  intros Hi. unfold ids. rewrite plug_blocks, fmap_app. apply elem_of_app. by right.
Qed.

Lemma at_sub_child l c r i keys ps s pre post :
  at_sub (Inner i keys (l ++ c :: r)) ps s pre post -> ps <> [] ->
  exists l' c' r' ps' pre' post', l ++ c :: r = l' ++ c' :: r' /\ ps = (i, zlen l') :: ps' /\
    at_sub c' ps' s pre' post' /\ pre = all_contents l' ++ pre' /\ post = post' ++ all_contents r'.
Proof.
  intros Hs Hne. inversion Hs as [|? ? l' c' r' ? ? ? ? Hs' E1 E2 E3 E4]; subst; [done|].
  eexists l', c', r', _, _, _. split_and!; try done.
Qed.

Lemma in_drop {X} (x : X) k l : x ∈ drop k l -> x ∈ l.
Proof. intros Hx. rewrite <- (take_drop k l). apply elem_of_app. by right. Qed.

(** A path that is at least as long as the context leads into the hole or
    passes it on the left or on the right. *)
Lemma replace_cases fs c ps s pre post :
  NoDup (ids (plug fs c)) -> at_sub (plug fs c) ps s pre post -> (length fs <= length ps)%nat ->
  (exists ps' pre' post', ps = entries fs ++ ps' /\ at_sub c ps' s pre' post' /\
     pre = pre_of fs ++ pre' /\ post = post' ++ post_of fs) \/
  ((node_id s ∉ ids c /\ forall e, e ∈ drop (length fs) ps -> e.1 ∉ ids c) /\
   ((exists a, post = a ++ contents c ++ post_of fs /\
       forall c', at_sub (plug fs c') ps s pre (a ++ contents c' ++ post_of fs)) \/
    (exists b, pre = pre_of fs ++ contents c ++ b /\
       forall c', at_sub (plug fs c') ps s (pre_of fs ++ contents c' ++ b) post))).
Proof.
  revert ps pre post. induction fs as [|[i keys l r] fs IH]; intros ps pre post Hnd Hs Hlen.
  { left. exists ps, pre, post. split_and!; try done. by rewrite app_nil_r. }
  cbn [plug f_id f_keys f_left f_right length pre_of post_of entries map] in *.
  apply at_sub_child in Hs as (l' & c0 & r' & ps' & pre' & post' & Heq & -> & Hs & -> & ->); [|by intros ->; simpl in Hlen; lia].
  rewrite ids_inner, ids_child in Hnd. apply NoDup_cons in Hnd as [_ Hnd].
  apply NoDup_app in Hnd as (Hndl & Hlc & Hnd). apply NoDup_app in Hnd as (Hndc & Hcr & Hndr).
  cbn [length] in Hlen. destruct (at_sub_ids _ _ _ _ _ Hs) as [Hps Hsid].
  destruct (mid_cases _ _ _ _ _ _ Heq) as [(<- & <- & <-)|[(m & -> & ->)|(m & -> & ->)]].
  - destruct (IH ps' pre' post') as [(ps2 & pre2 & post2 & -> & Hs2 & -> & ->)|(Hid & Hcase)]; [done|done|lia| |].
    + left. exists ps2, pre2, post2. split_and!; [done|done|by rewrite app_assoc|by rewrite app_assoc].
    + right. split; [done|]. destruct Hcase as [(a & -> & Hc)|(b & -> & Hc)].
      * left. exists a. split; [by rewrite <- !app_assoc|]. intros c'. rewrite !app_assoc. rewrite <- (app_assoc a). apply at_down, Hc.
      * right. exists b. split; [by rewrite <- !app_assoc|]. intros c'. rewrite <- app_assoc. apply at_down, Hc.
  - right. assert (forall j, j ∈ ids c0 -> j ∉ ids c) as Hout.
    { intros j Hj Hjc. apply (Hlc j); [|apply elem_of_app; left; by apply plug_ids].
      rewrite ids_child. apply elem_of_app. right. apply elem_of_app. by left. }
    split; [split; [by apply Hout|intros e He; apply Hout, Hps; by eapply in_drop]|].
    left. exists (post' ++ all_contents m ++ pre_of fs). split.
    + rewrite all_contents_app, all_contents_cons, plug_contents. by rewrite <- !app_assoc.
    + intros c'. rewrite <- app_assoc. cbn [app].
      assert ((post' ++ all_contents m ++ pre_of fs) ++ contents c' ++ post_of fs ++ all_contents r =
        post' ++ all_contents (m ++ plug fs c' :: r)) as ->.
      { rewrite all_contents_app, all_contents_cons, plug_contents. by rewrite <- !app_assoc. }
      by apply at_down.
  - right. assert (forall j, j ∈ ids c0 -> j ∉ ids c) as Hout.
    { intros j Hj Hjc. apply (Hcr j); [by apply plug_ids|].
      rewrite ids_child. apply elem_of_app. right. apply elem_of_app. by left. }
    split; [split; [by apply Hout|intros e He; apply Hout, Hps; by eapply in_drop]|].
    right. exists (post_of fs ++ all_contents m ++ pre'). split.
    + rewrite all_contents_app, all_contents_cons, plug_contents. by rewrite <- !app_assoc.
    + intros c'.
      assert ((all_contents l ++ pre_of fs) ++ contents c' ++ post_of fs ++ all_contents m ++ pre' =
        all_contents (l ++ plug fs c' :: m) ++ pre') as ->.
      { rewrite all_contents_app, all_contents_cons, plug_contents. by rewrite <- !app_assoc. }
      replace (l ++ plug fs c' :: m ++ c0 :: r') with ((l ++ plug fs c' :: m) ++ c0 :: r') by by rewrite <- app_assoc.
      replace (zlen (l ++ plug fs c :: m)) with (zlen (l ++ plug fs c' :: m)) by by rewrite !length_app.
      by apply at_down.
Qed.

(** ** Leaves *)

Fixpoint leaf_ids t : list Z :=
  match t with
  | Leaf i _ => [i]
  | Inner _ _ cs => concat (map leaf_ids cs)
  end.

Fixpoint pre_ids fs : list Z :=
  match fs with [] => [] | f :: fs => concat (map leaf_ids (f_left f)) ++ pre_ids fs end.
Fixpoint post_ids fs : list Z :=
  match fs with [] => [] | f :: fs => post_ids fs ++ concat (map leaf_ids (f_right f)) end.

Lemma plug_leaf_ids fs c : leaf_ids (plug fs c) = pre_ids fs ++ leaf_ids c ++ post_ids fs.
Proof.
  induction fs as [|f fs IH]; simpl; [by rewrite app_nil_r|].
  rewrite map_app, concat_app. simpl. rewrite IH. by rewrite <- !app_assoc.
Qed.

Section hole.
Context (derive_key : bytes -> bytes) (key_less : bytes -> bytes -> bool) `{KeyOrder key_less}.
Abbreviation shape := (shape derive_key key_less).
Abbreviation lt := (lt key_less).
Abbreviation bounded := (bounded key_less).
Implicit Types (lo hi : option bytes).

(** The bounds of the keys in the hole of a context. *)
Fixpoint hole_lo lo fs : option bytes :=
  match fs with [] => lo | f :: fs => hole_lo (lo_at lo (f_keys f) (length (f_left f))) fs end.
Fixpoint hole_hi hi fs : option bytes :=
  match fs with [] => hi | f :: fs => hole_hi (hi_at (f_keys f) hi (length (f_left f))) fs end.

Lemma hole_lo_app lo fs fs' : hole_lo lo (fs ++ fs') = hole_lo (hole_lo lo fs) fs'.
Proof. revert lo. induction fs as [|f fs IH]; intros lo; simpl; [done|]. apply IH. Qed.
Lemma hole_hi_app hi fs fs' : hole_hi hi (fs ++ fs') = hole_hi (hole_hi hi fs) fs'.
Proof. revert hi. induction fs as [|f fs IH]; intros hi; simpl; [done|]. apply IH. Qed.

Lemma plug_shape h lo hi fs c : shape h lo hi (plug fs c) -> exists h', h = (length fs + h')%nat /\
  shape h' (hole_lo lo fs) (hole_hi hi fs) c /\
  forall c', shape h' (hole_lo lo fs) (hole_hi hi fs) c' -> shape h lo hi (plug fs c').
Proof.
  revert h lo hi. induction fs as [|[i keys l r] fs IH]; intros h lo hi Hs; [by exists h|].
  cbn [plug f_id f_keys f_left f_right hole_lo hole_hi length] in *. destruct h as [|h]; [done|].
  destruct Hs as [Hlen Hc]. pose proof (chain_child _ _ _ _ _ _ (length l) _ Hc (list_lookup_middle _ _ _ _ eq_refl)) as Hch.
  destruct (IH _ _ _ Hch) as (h' & -> & Hsc & Hnew). exists h'. split_and!; [lia|done|].
  intros c' Hc'. split; [by rewrite length_app in *|].
  replace (l ++ plug fs c' :: r) with (<[length l := plug fs c']> (l ++ plug fs c :: r)).
  - apply chain_insert; [done|]. by apply Hnew.
  - replace (length l) with (length l + 0)%nat by lia. by rewrite insert_app_r.
Qed.

(** A key between the bounds of a child. *)
Lemma chain_between {N} (P : option bytes -> option bytes -> N -> Prop) lo keys cs hi (i : nat) k :
  chain key_less P lo keys cs hi -> (i < length cs)%nat -> bounded (lo_at lo keys i) (hi_at keys hi i) k ->
  bounded lo hi k /\ forall j kj, (j < i)%nat -> keys !! j = Some kj -> lt kj k.
Proof.
  revert lo cs i. induction keys as [|k0 keys IH]; intros lo [|c cs] i Hc Hi Hb; try done; simpl in Hc.
  - destruct cs; [|done]. destruct i; [|simpl in Hi; lia]. split; [done|]. intros; lia.
  - destruct Hc as (Hk0 & _ & Hc). destruct i as [|i].
    + split; [|intros; lia]. by apply (bounded_left _ _ _ k0).
    + destruct (IH (Some k0) cs i Hc) as [Hb' Hj]; [simpl in Hi; lia|by destruct i|].
      split; [by apply (bounded_right _ _ _ k0)|]. intros [|j] kj Hlt Hkj.
      * injection Hkj as <-. apply Hb'.
      * apply (Hj j); [lia|done].
Qed.

Lemma hole_sides h lo hi fs c k : shape h lo hi (plug fs c) -> bounded (hole_lo lo fs) (hole_hi hi fs) k ->
  bounded lo hi k /\ Forall (fun v => lt (derive_key v) k) (pre_of fs) /\ Forall (fun v => lt k (derive_key v)) (post_of fs).
Proof.
  revert h lo hi. induction fs as [|[i keys l r] fs IH]; intros h lo hi Hs Hb; [by split_and!; try constructor; apply Hb|].
  cbn [plug f_id f_keys f_left f_right hole_lo hole_hi pre_of post_of] in *. destruct h as [|h]; [done|].
  destruct Hs as [Hlen Hc]. pose proof (chain_child _ _ _ _ _ _ (length l) _ Hc (list_lookup_middle _ _ _ _ eq_refl)) as Hch.
  destruct (IH _ _ _ Hch Hb) as (Hb' & Hpre & Hpost).
  destruct (chain_between _ _ _ _ _ (length l) k Hc) as [Hbk Hj]; [rewrite length_app; simpl; lia|done|].
  destruct (chain_sides _ _ _ _ _ _ _ (length l) _ Hc (list_lookup_middle _ _ _ _ eq_refl)) as [Hl Hr].
  rewrite take_app_length in Hl. replace (S (length l)) with (length l + 1)%nat in Hr by lia.
  rewrite drop_app_add in Hr. cbn [drop] in Hr. rewrite drop_0 in Hr.
  split_and!; [done| |]; apply Forall_app; split; try done.
  - eapply Forall_impl; [exact Hl|]. intros v (kj & j & Hlt & Hkj & Hv). apply (le_lt_trans _ _ kj); [done|]. by eapply Hj.
  - eapply Forall_impl; [exact Hr|]. intros v (ki & Hki & Hv). apply (le_lt_trans _ _ ki); [|done].
    destruct Hb' as [_ Hb']. unfold hi_at in Hb'. by rewrite Hki in Hb'.
Qed.
End hole.
End btree_paths.
