(* ===== verification/BTreeSplit.v ===== *)
(** * Splitting nodes of B+ trees

    What the replacement of a child by two nodes does to the shape, the
    leaves and the paths of a tree. *)

From Stdlib Require Import Sorting.Sorted.
From S2P Require Import Prelude BTreeNodes BTreeShape BTreePaths.

Module btree_split.
Import btree_shape btree_paths.
Implicit Types (f : frame) (fs : list frame) (t c s : node) (ps : list (Z * Z)).

(** ** Induction *)

Lemma node_ind' (P : node -> Prop) :
  (forall i vals, P (Leaf i vals)) -> (forall i keys cs, Forall P cs -> P (Inner i keys cs)) -> forall t, P t.
Proof.
  intros Hl Hi. fix IH 1. intros [i vals|i keys cs]; [apply Hl|]. apply Hi. induction cs as [|c cs IHcs]; constructor; [apply IH|apply IHcs].
Qed.

Lemma sublist_concat {X Y} (f g : X -> list Y) l : Forall (fun x => f x `sublist_of` g x) l ->
  concat (map f l) `sublist_of` concat (map g l).
Proof. induction 1; simpl; [constructor|]. by apply sublist_app. Qed.

Lemma all_blocks_ids cs : (all_blocks cs).*1 = concat (map ids cs).
Proof. induction cs as [|c cs IH]; [done|]. by rewrite all_blocks_cons, fmap_app, IH. Qed.

Lemma leaf_ids_sublist t : leaf_ids t `sublist_of` ids t.
Proof.
  induction t as [i vals|i keys cs IH] using node_ind'; [done|]. rewrite ids_inner. cbn [leaf_ids]. apply sublist_cons.
  rewrite all_blocks_ids. by apply sublist_concat.
Qed.
Lemma leaf_ids_nodup t : NoDup (ids t) -> NoDup (leaf_ids t).
Proof. intros Hnd. eapply sublist_NoDup; [done|apply leaf_ids_sublist]. Qed.

Section order.
Context (derive_key : bytes -> bytes) (key_less : bytes -> bytes -> bool) `{KeyOrder key_less}.
Abbreviation shape := (shape derive_key key_less).
Implicit Types (lo hi : option bytes) (k : bytes) (keys : list bytes).

Lemma shape_leaf_ids h lo hi t : shape h lo hi t -> leaf_ids t <> [].
Proof.
  revert lo hi t. induction h as [|h IH]; intros lo hi [i vals|i keys cs] Hs; try done.
  destruct Hs as [Hlen Hc]. destruct cs as [|c cs]; [simpl in Hlen; lia|].
  apply (chain_child _ _ _ _ _ _ 0 c) in Hc; [|done]. apply IH in Hc. cbn. by destruct (leaf_ids c).
Qed.

(** A tree of height [h] has at least [2 ^ h] values. *)
Lemma shape_size h lo hi t : shape h lo hi t -> (2 ^ h <= length (contents t))%nat.
Proof.
  revert lo hi t. induction h as [|h IH]; intros lo hi [i vals|i keys cs] Hs; try done.
  - destruct Hs as [Hne _]. cbn. destruct vals; [done|simpl; lia].
  - destruct Hs as [Hlen Hc]. destruct cs as [|c [|c' cs]]; [simpl in Hlen; lia..|].
    pose proof (IH _ _ _ (chain_child _ _ _ _ _ _ 0 c Hc eq_refl)) as H1.
    pose proof (IH _ _ _ (chain_child _ _ _ _ _ _ 1 c' Hc eq_refl)) as H2.
    rewrite contents_inner, !all_contents_cons, !length_app. cbn [Nat.pow]. lia.
Qed.

(** ** Replacing a child by two nodes *)

Lemma chain_split_child {N} (P : option bytes -> option bytes -> N -> Prop) lo keys (l : list N) (c : N) (r : list N) hi k (c1 c2 : N) :
  chain key_less P lo keys (l ++ c :: r) hi ->
  inside key_less (lo_at lo keys (length l)) (hi_at keys hi (length l)) k ->
  P (lo_at lo keys (length l)) (Some k) c1 -> P (Some k) (hi_at keys hi (length l)) c2 ->
  chain key_less P lo (insert_at (length l) k keys) (l ++ c1 :: c2 :: r) hi.
Proof.
  revert lo l. induction keys as [|k0 keys IH]; intros lo l Hc Hk H1 H2.
  - destruct l as [|? l]; [|by destruct l]. destruct r; [|done]. cbn in *. done.
  - destruct l as [|x l]; cbn [app length] in *.
    + destruct Hc as (Hk0 & Hc & Hr). unfold hi_at in Hk, H2. cbn in Hk, H1, H2. cbn. split_and!; try done.
      * by apply (inside_left _ _ _ k0).
      * split; [apply Hk|apply Hk0].
    + destruct Hc as (Hk0 & Hx & Hc). unfold insert_at. cbn [take drop app length]. cbn [chain]. split_and!; [done..|].
      apply IH; [done| | |]; by destruct l.
Qed.
End order.

(** The context of the child after [pl] of the node [p] in the context [fs0]. *)
Section parent.
Context (fs0 : list frame) (p : Z) (pk pk' : list bytes) (pl pr : list node) (c c1 c2 : node).
Let fs := fs0 ++ [Frame p pk pl pr].
Let tr := plug fs c.
Let tr' := plug fs0 (Inner p pk' (pl ++ c1 :: c2 :: pr)).
Let d := length fs0.

(** Entries of the parent behind the child move by one. *)
Definition bump ps : list (Z * Z) :=
  match ps !! d with
  | Some (q, x) => if (q =? p) && (zlen pl <? x) then <[d := (q, x + 1)]> ps else ps
  | None => ps
  end.

Lemma lookup_entries (e : Z * Z) ps : (entries fs0 ++ e :: ps) !! d = Some e.
Proof. unfold d. rewrite <- (length_entries fs0). by apply list_lookup_middle. Qed.

Lemma bump_eq x ps : bump (entries fs0 ++ (p, x) :: ps) = entries fs0 ++ (p, if zlen pl <? x then x + 1 else x) :: ps.
Proof.
  unfold bump. rewrite lookup_entries, Z.eqb_refl. cbn [andb]. destruct (zlen pl <? x); [|done].
  unfold d. rewrite <- (length_entries fs0). replace (length (entries fs0)) with (length (entries fs0) + 0)%nat by lia.
  by rewrite insert_app_r.
Qed.
Lemma bump_other ps : (forall e, ps !! d = Some e -> e.1 <> p) -> bump ps = ps.
Proof.
  intros He. unfold bump. destruct (ps !! d) as [[q x]|]; [|done]. specialize (He _ eq_refl). cbn in He.
  by destruct (Z.eqb_spec q p).
Qed.

Lemma pre_fs : pre_of fs = pre_of fs0 ++ all_contents pl.
Proof. unfold fs. rewrite pre_of_app. cbn. by rewrite app_nil_r. Qed.
Lemma post_fs : post_of fs = all_contents pr ++ post_of fs0.
Proof. unfold fs. by rewrite post_of_app. Qed.
Lemma entries_fs : entries fs = entries fs0 ++ [(p, zlen pl)].
Proof. unfold fs. by rewrite entries_app. Qed.

Lemma at_first ps s pre post : at_sub c1 ps s pre post ->
  at_sub tr' (entries fs0 ++ (p, zlen pl) :: ps) s (pre_of fs ++ pre) (post ++ contents c2 ++ post_of fs).
Proof.
  intros Hs. rewrite pre_fs, post_fs, <- app_assoc.
  replace (post ++ contents c2 ++ all_contents pr ++ post_of fs0) with ((post ++ all_contents (c2 :: pr)) ++ post_of fs0)
    by (rewrite all_contents_cons; by rewrite <- !app_assoc).
  eapply at_sub_trans; [apply at_sub_plug|]. by apply at_down.
Qed.
Lemma at_second ps s pre post : at_sub c2 ps s pre post ->
  at_sub tr' (entries fs0 ++ (p, zlen pl + 1) :: ps) s (pre_of fs ++ contents c1 ++ pre) (post ++ post_of fs).
Proof.
  intros Hs. rewrite pre_fs, post_fs.
  replace ((pre_of fs0 ++ all_contents pl) ++ contents c1 ++ pre) with (pre_of fs0 ++ all_contents (pl ++ [c1]) ++ pre)
    by (rewrite all_contents_app, all_contents_cons; cbn; by rewrite app_nil_r, <- !app_assoc).
  rewrite (app_assoc post). eapply at_sub_trans; [apply at_sub_plug|].
  replace (pl ++ c1 :: c2 :: pr) with ((pl ++ [c1]) ++ c2 :: pr) by by rewrite <- app_assoc.
  replace (zlen pl + 1) with (zlen (pl ++ [c1])) by (rewrite length_app; cbn; lia). by apply at_down.
Qed.

(** A path to the left of the child, to its right, or through it. *)
Lemma parent_cases ps s pre post :
  NoDup (ids tr) -> at_sub tr ps s pre post -> (length fs0 < length ps)%nat ->
  (ps !! d <> Some (p, zlen pl) /\ bump ps = ps /\ exists a, post = a ++ contents c ++ post_of fs /\
     at_sub tr' ps s pre (a ++ contents c1 ++ contents c2 ++ post_of fs)) \/
  (ps !! d <> Some (p, zlen pl) /\ exists b, pre = pre_of fs ++ contents c ++ b /\
     at_sub tr' (bump ps) s (pre_of fs ++ contents c1 ++ contents c2 ++ b) post) \/
  (exists ps' pre' post', ps = entries fs ++ ps' /\ at_sub c ps' s pre' post' /\
     pre = pre_of fs ++ pre' /\ post = post' ++ post_of fs).
Proof.
  intros Hnd Hs Hlen. unfold tr, fs in Hnd, Hs. rewrite plug_app in Hnd, Hs. cbn [plug f_id f_keys f_left f_right] in Hnd, Hs.
  rewrite pre_fs, post_fs, entries_fs.
  destruct (replace_cases _ _ _ _ _ _ Hnd Hs) as [(ps' & pre' & post' & -> & Hs' & -> & ->)|[[_ Hout] Hcase]]; [lia| |].
  - apply at_sub_child in Hs' as (l' & c0 & r' & ps2 & pre2 & post2 & Heq & -> & Hs2 & -> & ->).
    2: { intros ->. rewrite app_nil_r, length_entries in Hlen. lia. }
    rewrite lookup_entries, bump_eq.
    destruct (mid_cases _ _ _ _ _ _ Heq) as [(<- & <- & <-)|[(m & -> & ->)|(m & -> & ->)]].
    + right. right. exists ps2, pre2, post2. split_and!; [by rewrite <- app_assoc|done|by rewrite app_assoc|by rewrite app_assoc].
    + left. split; [intros [= Hl]; rewrite length_app in Hl; cbn [length] in Hl; lia|].
      split; [destruct (Z.ltb_spec (zlen (l' ++ c0 :: m)) (zlen l')); [rewrite length_app in *; cbn [length] in *; lia|done]|].
      exists (post2 ++ all_contents m). split; [rewrite all_contents_app, all_contents_cons; by rewrite <- !app_assoc|].
      replace ((post2 ++ all_contents m) ++ contents c1 ++ contents c2 ++ all_contents pr ++ post_of fs0) with
        ((post2 ++ all_contents (m ++ c1 :: c2 :: pr)) ++ post_of fs0)
        by (rewrite all_contents_app, !all_contents_cons; by rewrite <- !app_assoc).
      eapply at_sub_trans; [apply at_sub_plug|]. rewrite <- app_assoc. cbn [app]. by apply at_down.
    + right. left. split; [intros [= Hl]; rewrite length_app in Hl; cbn [length] in Hl; lia|].
      destruct (Z.ltb_spec (zlen pl) (zlen (pl ++ c :: m))); [|rewrite length_app in *; cbn [length] in *; lia].
      exists (all_contents m ++ pre2). split; [rewrite all_contents_app, all_contents_cons; by rewrite <- !app_assoc|].
      replace ((pre_of fs0 ++ all_contents pl) ++ contents c1 ++ contents c2 ++ all_contents m ++ pre2) with
        (pre_of fs0 ++ all_contents (pl ++ c1 :: c2 :: m) ++ pre2)
        by (rewrite all_contents_app, !all_contents_cons; by rewrite <- !app_assoc).
      eapply at_sub_trans; [apply at_sub_plug|].
      replace (pl ++ c1 :: c2 :: m ++ c0 :: r') with ((pl ++ c1 :: c2 :: m) ++ c0 :: r') by by rewrite <- app_assoc.
      replace (zlen (pl ++ c :: m) + 1) with (zlen (pl ++ c1 :: c2 :: m)) by (rewrite !length_app; cbn [length]; lia).
      by apply at_down.
  - assert (forall e, ps !! d = Some e -> e.1 <> p) as Hne.
    { intros e He Hp. apply (Hout e); [|rewrite Hp; left].
      apply list_elem_of_lookup. exists 0%nat. rewrite lookup_drop, Nat.add_0_r. done. }
    assert (ps !! d <> Some (p, zlen pl)) as Hne' by (intros He; by apply (Hne _ He)).
    destruct Hcase as [(a & -> & Hc)|(b & -> & Hc)].
    + left. split; [done|]. split; [by apply bump_other|]. exists (a ++ all_contents pl).
      rewrite contents_inner, all_contents_app, all_contents_cons. split; [by rewrite <- !app_assoc|].
      specialize (Hc (Inner p pk' (pl ++ c1 :: c2 :: pr))).
      rewrite contents_inner, all_contents_app, !all_contents_cons in Hc. by rewrite <- !app_assoc in *.
    + right. left. split; [done|]. exists (all_contents pr ++ b).
      rewrite contents_inner, all_contents_app, all_contents_cons. split; [by rewrite <- !app_assoc|].
      rewrite bump_other by done. specialize (Hc (Inner p pk' (pl ++ c1 :: c2 :: pr))).
      rewrite contents_inner, all_contents_app, !all_contents_cons in Hc. by rewrite <- !app_assoc in *.
Qed.
End parent.

(** ** Splitting an internal node *)

Section split.
Context (i j : Z) (keys : list bytes) (l : list node) (c0 : node) (r : list node) (lc : nat) (sk : bytes).
Let children := l ++ c0 :: r.
Definition left_part : node := Inner i (take (lc - 1) keys) (take lc children).
Definition right_part : node := Inner j (drop lc keys) (drop lc children).
Lemma split_contents : contents (Inner i keys children) = contents left_part ++ contents right_part.
Proof. unfold left_part, right_part. rewrite !contents_inner, <- all_contents_app. by rewrite take_drop. Qed.

Lemma split_leaf_ids : leaf_ids (Inner i keys children) = leaf_ids left_part ++ leaf_ids right_part.
Proof. cbn [leaf_ids left_part right_part]. by rewrite <- concat_app, <- map_app, take_drop. Qed.

Lemma split_blocks : all_blocks children = all_blocks (take lc children) ++ all_blocks (drop lc children).
Proof. by rewrite <- all_blocks_app, take_drop. Qed.

(** A path through the node goes through one of the parts. *)
Lemma split_sub ps s pre post : at_sub (Inner i keys children) ps s pre post -> ps <> [] ->
  exists (y : nat) ps', ps = (i, Z.of_nat y) :: ps' /\ (y < length children)%nat /\
    ((y < lc)%nat -> exists post', at_sub left_part ps s pre post' /\ post = post' ++ contents right_part) /\
    ((lc <= y)%nat -> exists pre', at_sub right_part ((j, Z.of_nat (y - lc)) :: ps') s pre' post /\
       pre = contents left_part ++ pre').
Proof.
  intros Hs Hne. unfold children in Hs. apply at_sub_child in Hs as (l' & c' & r' & ps' & pre' & post' & Heq & -> & Hs & -> & ->); [|done].
  fold children in Heq. exists (length l'), ps'. split; [done|]. split; [rewrite Heq, length_app; cbn; lia|].
  unfold left_part, right_part. rewrite !contents_inner, Heq. split.
  - intros Hy. exists (post' ++ all_contents (take (lc - S (length l')) r')).
    rewrite take_app_ge, drop_app_ge by lia. replace (lc - length l')%nat with (S (lc - S (length l')))%nat by lia. cbn [take drop].
    split; [by apply at_down|]. rewrite <- app_assoc, <- all_contents_app. by rewrite take_drop.
  - intros Hy. exists (all_contents (drop lc l') ++ pre'). rewrite take_app_le, drop_app_le by lia.
    split; [|rewrite app_assoc, <- all_contents_app; by rewrite take_drop].
    replace (Z.of_nat (length l' - lc)) with (zlen (drop lc l')) by (rewrite length_drop; lia). by apply at_down.
Qed.

(** The part that has the child [c0], as a context. *)
Definition part_frame : frame :=
  if decide (length l < lc)%nat
  then Frame i (take (lc - 1) keys) l (take (lc - S (length l)) r)
  else Frame j (drop lc keys) (drop lc l) r.
Lemma part_plug : plug [part_frame] c0 = if decide (length l < lc)%nat then left_part else right_part.
Proof.
  unfold part_frame, left_part, right_part, children. case_decide; cbn [plug f_id f_keys f_left f_right].
  - rewrite take_app_ge by lia. by replace (lc - length l)%nat with (S (lc - S (length l)))%nat by lia.
  - by rewrite drop_app_le by lia.
Qed.

Context (Hlc : (2 <= lc)%nat) (Hlen : (lc + 2 <= length children)%nat) (Hsk : keys !! (lc - 1)%nat = Some sk).

Lemma split_keys : keys = take (lc - 1) keys ++ sk :: drop lc keys.
Proof. rewrite <- (take_drop_middle _ _ _ Hsk) at 1. by replace (S (lc - 1)) with lc by lia. Qed.

Lemma split_shape derive_key key_less `{KeyOrder key_less} h lo hi :
  shape derive_key key_less (S h) lo hi (Inner i keys children) ->
  inside key_less lo hi sk /\ shape derive_key key_less (S h) lo (Some sk) left_part /\
  shape derive_key key_less (S h) (Some sk) hi right_part.
Proof.
  intros [_ Hc]. pose proof (chain_length _ _ _ _ _ _ Hc) as Hl.
  rewrite split_keys, <- (take_drop lc children) in Hc. apply (chain_app derive_key key_less) in Hc as (Hk & H1 & H2).
  2: { rewrite !length_take. lia. }
  split_and!; [done| |]; split; try done.
  - rewrite length_take. lia.
  - rewrite length_drop. lia.
Qed.

Lemma part_count : (length (f_left part_frame) + 1 + length (f_right part_frame) < length children)%nat.
Proof.
  unfold part_frame. case_decide; cbn [f_left f_right]; unfold children in *; rewrite length_app in *; cbn [length] in *.
  - rewrite length_take. lia.
  - rewrite length_drop. lia.
Qed.

Lemma part_lo lo : length children = S (length keys) ->
  lo_at (if decide (length l < lc)%nat then lo else Some sk) (f_keys part_frame) (length (f_left part_frame)) =
  lo_at lo keys (length l).
Proof.
  intros Hc. unfold part_frame. case_decide; cbn [f_keys f_left].
  - destruct (length l) as [|y]; [done|]. cbn. by rewrite lookup_take_lt by lia.
  - rewrite length_drop. destruct (length l) as [|y] eqn:Hl; [lia|]. destruct (decide (lc = S y)) as [->|].
    + rewrite Nat.sub_diag. cbn. rewrite <- Hsk. f_equal. lia.
    + destruct (S y - lc)%nat as [|z] eqn:Hz; [lia|]. cbn. rewrite lookup_drop. f_equal. lia.
Qed.
Lemma part_hi hi : length children = S (length keys) ->
  hi_at (f_keys part_frame) (if decide (length l < lc)%nat then Some sk else hi) (length (f_left part_frame)) =
  hi_at keys hi (length l).
Proof.
  intros Hc. unfold part_frame, hi_at. case_decide; cbn [f_keys f_left].
  - destruct (decide (length l = lc - 1)%nat) as [Heq|].
    + rewrite lookup_take_ge by lia. by rewrite Heq, Hsk.
    + rewrite lookup_take_lt by lia. destruct (keys !! length l) eqn:E; [done|]. apply lookup_ge_None in E. lia.
  - rewrite length_drop, lookup_drop. by replace (lc + (length l - lc))%nat with (length l) by lia.
Qed.
End split.

(** ** Splitting an internal node below its parent *)

Section insert_bounds.
Context (k : nat) (x : bytes) (keys : list bytes) (Hk : (k <= length keys)%nat).
Lemma lookup_insert_at_lt (m : nat) : (m < k)%nat -> insert_at k x keys !! m = keys !! m.
Proof. intros Hm. rewrite lookup_insert_at by done. by rewrite decide_True. Qed.
Lemma lookup_insert_at_eq : insert_at k x keys !! k = Some x.
Proof. rewrite lookup_insert_at by done. by rewrite decide_False, decide_True by lia. Qed.
Lemma lookup_insert_at_gt (m : nat) : (k <= m)%nat -> insert_at k x keys !! S m = keys !! m.
Proof.
  intros Hm. rewrite lookup_insert_at by done. rewrite !decide_False by lia. f_equal. lia.
Qed.
Lemma insert_lo lo : lo_at lo (insert_at k x keys) k = lo_at lo keys k.
Proof.
  assert (forall m, m = k -> lo_at lo (insert_at k x keys) m = lo_at lo keys m) as Hm; [|by apply Hm].
  intros [|m] Hm; [done|]. cbn [lo_at]. apply lookup_insert_at_lt. lia.
Qed.
Lemma insert_hi hi : hi_at (insert_at k x keys) hi k = Some x.
Proof. unfold hi_at. by rewrite lookup_insert_at_eq. Qed.
Lemma insert_lo_succ lo : lo_at lo (insert_at k x keys) (S k) = Some x.
Proof. cbn [lo_at]. apply lookup_insert_at_eq. Qed.
Lemma insert_hi_succ hi : hi_at (insert_at k x keys) hi (S k) = hi_at keys hi k.
Proof. unfold hi_at. by rewrite lookup_insert_at_gt. Qed.
End insert_bounds.

Section child_split.
Context (fs0 : list frame) (p : Z) (pk : list bytes) (pl pr : list node).
Context (i j : Z) (keys : list bytes) (l : list node) (c0 : node) (r : list node) (lc : nat) (sk : bytes).
Let children := l ++ c0 :: r.
Let c := Inner i keys children.
Let c1 := left_part i keys l c0 r lc.
Let c2 := right_part j keys l c0 r lc.
Let tr := plug (fs0 ++ [Frame p pk pl pr]) c.
Definition split_tree : node := plug fs0 (Inner p (insert_at (length pl) sk pk) (pl ++ c1 :: c2 :: pr)).

Lemma split_tree_paths ps s pre post :
  NoDup (ids tr) -> at_sub tr ps s pre post -> (length fs0 + 2 <= length ps)%nat ->
  (ps !! length fs0 <> Some (p, zlen pl) /\ at_sub split_tree (bump fs0 p pl ps) s pre post) \/
  (exists (y : nat) ps', ps = entries fs0 ++ (p, zlen pl) :: (i, Z.of_nat y) :: ps' /\ (y < length children)%nat /\
     at_sub split_tree (if decide (y < lc)%nat then ps
       else entries fs0 ++ (p, zlen pl + 1) :: (j, Z.of_nat (y - lc)) :: ps') s pre post).
Proof.
  intros Hnd Hs Hl.
  destruct (parent_cases fs0 p pk (insert_at (length pl) sk pk) pl pr c c1 c2 ps s pre post Hnd Hs) as
    [(Hne & Hb & a & -> & Hs')|[(Hne & b & -> & Hs')|(ps' & pre' & post' & -> & Hs' & -> & ->)]]; [lia| | |].
  - left. split; [done|]. rewrite Hb. unfold c, children. rewrite (split_contents _ j _ _ _ _ lc). by rewrite <- app_assoc.
  - left. split; [done|]. unfold c, children. rewrite (split_contents _ j _ _ _ _ lc). by rewrite <- app_assoc.
  - right. rewrite entries_app, <- app_assoc in *. cbn [entries map entry f_id f_left app] in *.
    destruct (split_sub i j keys l c0 r lc ps' s pre' post' Hs') as (y & ps2 & -> & Hy & Hlt & Hge).
    { intros ->. rewrite length_app, length_entries in Hl. cbn [length] in Hl. lia. }
    exists y, ps2. split_and!; [done..|]. case_decide as Hyl.
    + destruct (Hlt Hyl) as (post1 & H1 & ->). rewrite <- (app_assoc post1). by apply (at_first fs0 p pk).
    + destruct Hge as (pre1 & H1 & ->); [lia|]. by apply (at_second fs0 p pk).
Qed.

(** The path after the split. *)
Definition fix_path ps : list (Z * Z) :=
  let d := length fs0 in
  match ps !! d, ps !! S d with
  | Some (q, x), Some (_, y) =>
    if q =? p then
      if x =? zlen pl then
        if Z.of_nat lc <=? y then <[d := (q, x + 1)]> (<[S d := (j, y - Z.of_nat lc)]> ps) else ps
      else if zlen pl <? x then <[d := (q, x + 1)]> ps else ps
    else ps
  | _, _ => ps
  end.

Lemma fix_path_entries (y : nat) ps' :
  fix_path (entries fs0 ++ (p, zlen pl) :: (i, Z.of_nat y) :: ps') = entries fs0 ++
    if decide (y < lc)%nat then (p, zlen pl) :: (i, Z.of_nat y) :: ps'
    else (p, zlen pl + 1) :: (j, Z.of_nat (y - lc)) :: ps'.
Proof.
  unfold fix_path. rewrite <- (length_entries fs0). rewrite list_lookup_middle by done.
  replace (S (length (entries fs0))) with (length (entries fs0 ++ [(p, zlen pl)])) by (rewrite length_app; cbn; lia).
  replace (entries fs0 ++ (p, zlen pl) :: (i, Z.of_nat y) :: ps') with ((entries fs0 ++ [(p, zlen pl)]) ++ (i, Z.of_nat y) :: ps')
    by by rewrite <- app_assoc.
  rewrite list_lookup_middle by done. rewrite !Z.eqb_refl. case_decide; destruct (Z.leb_spec (Z.of_nat lc) (Z.of_nat y)); try lia.
  - by rewrite <- app_assoc.
  - replace (length (entries fs0 ++ [(p, zlen pl)])) with (length (entries fs0 ++ [(p, zlen pl)]) + 0)%nat by lia.
    rewrite insert_app_r. cbn [insert list_insert]. rewrite <- app_assoc. cbn [app].
    replace (length (entries fs0)) with (length (entries fs0) + 0)%nat by lia. rewrite insert_app_r. cbn [insert list_insert].
    do 4 f_equal. lia.
Qed.

Lemma fix_path_sub ps s pre post :
  NoDup (ids tr) -> at_sub tr ps s pre post -> (length fs0 + 2 <= length ps)%nat ->
  at_sub split_tree (fix_path ps) s pre post /\
  (ps !! length fs0 = Some (p, zlen pl) -> exists (y : nat), ps !! S (length fs0) = Some (i, Z.of_nat y)).
Proof.
  intros Hnd Hs Hl. destruct (split_tree_paths ps s pre post Hnd Hs Hl) as [[Hne Hs']|(y & ps' & -> & Hy & Hs')].
  - split; [|done]. replace (fix_path ps) with (bump fs0 p pl ps); [done|]. unfold fix_path, bump.
    destruct (ps !! length fs0) as [[q x]|] eqn:E1; [|done].
    destruct (ps !! S (length fs0)) as [[e y]|] eqn:E2; [|apply lookup_ge_None in E2; lia].
    destruct (Z.eqb_spec q p) as [->|]; [|done]. destruct (Z.eqb_spec x (zlen pl)) as [->|]; done.
  - split.
    + rewrite fix_path_entries. by case_decide.
    + intros _. exists y. rewrite <- (length_entries fs0).
      replace (S (length (entries fs0))) with (length (entries fs0 ++ [(p, zlen pl)])) by (rewrite length_app; cbn; lia).
      replace (entries fs0 ++ (p, zlen pl) :: (i, Z.of_nat y) :: ps') with ((entries fs0 ++ [(p, zlen pl)]) ++ (i, Z.of_nat y) :: ps')
        by by rewrite <- app_assoc.
      by apply list_lookup_middle.
Qed.

(** The context of the child [c0] in the new tree. *)
Definition split_frames : list frame :=
  fs0 ++ [if decide (length l < lc)%nat then Frame p (insert_at (length pl) sk pk) pl (c2 :: pr)
          else Frame p (insert_at (length pl) sk pk) (pl ++ [c1]) pr; part_frame i j keys l r lc].

Lemma split_frames_plug : plug split_frames c0 = split_tree.
Proof.
  unfold split_frames, split_tree. rewrite plug_app. f_equal.
  pose proof (part_plug i j keys l c0 r lc) as Hp. cbn [plug] in *. rewrite Hp.
  case_decide; cbn [f_id f_keys f_left f_right]; [done|]. by rewrite <- app_assoc.
Qed.
Lemma split_frames_entries : entries split_frames = entries fs0 ++
  if decide (length l < lc)%nat then [(p, zlen pl); (i, zlen l)] else [(p, zlen pl + 1); (j, Z.of_nat (length l - lc))].
Proof.
  unfold split_frames, part_frame. rewrite entries_app. f_equal. case_decide; cbn; [done|]. unfold entry. cbn.
  rewrite length_app, length_drop. cbn. repeat f_equal. lia.
Qed.
Context (Hlc : (2 <= lc)%nat) (Hlen : (lc + 2 <= length children)%nat) (Hsk : keys !! (lc - 1)%nat = Some sk).

Lemma split_frames_hole lo hi : (length pl <= length pk)%nat -> length children = S (length keys) ->
  hole_lo lo split_frames = lo_at (lo_at (hole_lo lo fs0) pk (length pl)) keys (length l) /\
  hole_hi hi split_frames = hi_at keys (hi_at pk (hole_hi hi fs0) (length pl)) (length l).
Proof.
  intros Hpl Hch. unfold split_frames. rewrite hole_lo_app, hole_hi_app. cbn [hole_lo hole_hi].
  rewrite <- (part_lo i j keys l c0 r lc sk Hlc Hlen Hsk _ Hch), <- (part_hi i j keys l c0 r lc sk Hlc Hlen Hsk _ Hch).
  case_decide; cbn [f_keys f_left].
  - rewrite insert_lo, insert_hi by done. done.
  - rewrite length_app. cbn [length]. rewrite Nat.add_1_r, insert_lo_succ, insert_hi_succ by done. done.
Qed.

Lemma split_tree_contents : contents split_tree = contents tr.
Proof.
  unfold split_tree, tr. rewrite plug_app, (plug_contents fs0), (plug_contents fs0). do 2 f_equal.
  cbn [plug f_id f_keys f_left f_right]. rewrite !contents_inner, !all_contents_app, !all_contents_cons. f_equal.
  rewrite app_assoc. f_equal. unfold c, c1, c2, children. by rewrite <- split_contents.
Qed.
Lemma split_tree_leaf_ids : leaf_ids split_tree = leaf_ids tr.
Proof.
  unfold split_tree, tr. rewrite plug_app, (plug_leaf_ids fs0), (plug_leaf_ids fs0). do 2 f_equal.
  cbn [plug leaf_ids f_left f_right].
  rewrite !map_app, !concat_app. cbn [map concat]. f_equal. rewrite app_assoc. f_equal.
  unfold c, c1, c2, children. by rewrite <- split_leaf_ids.
Qed.

Lemma split_tree_shape derive_key key_less `{KeyOrder key_less} h lo hi :
  shape derive_key key_less h lo hi tr -> shape derive_key key_less h lo hi split_tree.
Proof.
  unfold tr, split_tree. rewrite plug_app. intros Hs. apply plug_shape in Hs as (h' & -> & HP & Hnew).
  apply Hnew. cbn [plug f_id f_keys f_left f_right] in HP. destruct h' as [|h']; [done|]. destruct HP as [Hl HP].
  split; [rewrite length_app in *; cbn [length] in *; lia|].
  assert (exists h2, h' = S h2) as [h2 ->].
  { apply chain_child with (i := length pl) (c := c) in HP; [|by apply list_lookup_middle]. destruct h'; [done|by exists h']. }
  pose proof (chain_child _ _ _ _ _ _ (length pl) c HP (list_lookup_middle _ _ _ _ eq_refl)) as Hc.
  destruct (split_shape i j keys l c0 r lc sk Hlc Hlen Hsk derive_key key_less h2 _ _ Hc) as (Hk & H1 & H2).
  by eapply chain_split_child.
Qed.

(** The blocks that do not change. *)
Definition split_rest : list (Z * body) :=
  context_blocks fs0 p ++ all_blocks pl ++ all_blocks pr ++ all_blocks children.

Lemma unsplit_blocks : blocks_of tr ≡ₚ
  (p, InnerBody pk (map node_id pl ++ i :: map node_id pr)) :: (i, InnerBody keys (map node_id children)) :: split_rest.
Proof.
  unfold tr, split_rest. rewrite plug_app, plug_blocks. cbn [plug node_id f_id f_keys f_left f_right].
  rewrite blocks_of_inner, map_app. cbn [map]. rewrite <- Permutation_middle. apply perm_skip.
  rewrite all_blocks_app, all_blocks_cons. unfold c. rewrite blocks_of_inner. cbn [app node_id].
  rewrite app_assoc, <- Permutation_middle. apply perm_skip. rewrite <- !app_assoc. do 2 apply Permutation_app_head.
  apply Permutation_app_comm.
Qed.
Lemma split_tree_blocks : blocks_of split_tree ≡ₚ
  (p, InnerBody (insert_at (length pl) sk pk) (map node_id pl ++ i :: j :: map node_id pr)) ::
  (i, InnerBody (take (lc - 1) keys) (map node_id (take lc children))) ::
  (j, InnerBody (drop lc keys) (map node_id (drop lc children))) :: split_rest.
Proof.
  unfold split_tree, split_rest. rewrite plug_blocks. cbn [node_id].
  rewrite blocks_of_inner, map_app. cbn [map]. rewrite <- Permutation_middle. apply perm_skip.
  rewrite all_blocks_app, !all_blocks_cons. unfold c1, c2, left_part, right_part. rewrite !blocks_of_inner.
  unfold children. rewrite (split_blocks l c0 r lc). cbn [app node_id].
  rewrite app_assoc, <- Permutation_middle. apply perm_skip. rewrite app_assoc, <- Permutation_middle. apply perm_skip.
  rewrite <- !app_assoc. do 2 apply Permutation_app_head. rewrite !app_assoc. rewrite <- (app_assoc (all_blocks pr)). apply Permutation_app_comm.
Qed.
End child_split.
End btree_split.
