(* ===== verification/BTreeCursors.v ===== *)
(** * The state of a B+ tree and its cursors

    The invariant that ties the anchor, the blocks and the cursors of a tree
    to the sorted list of its values and the positions of the cursors in it,
    and the specifications of the operations that do not change the values. *)

From Stdlib Require Import Strings.Byte Sorting.Sorted.
From S2P Require Import Prelude MathOps Serialization Blocks EngineSpec FreeList Allocator Extent BTreeNodes BTree BTreeShape BTreeStore BTreeSearch BTreePaths.

Module btree_cursors.
Import btree btree_shape btree_store btree_search btree_paths.

(** ** Positions *)

(** [At r]: at the value [r]; [Gap r]: the value was erased, the next one is
    the value [r]; [Gone]: the value was erased and the tree became empty. *)
Inductive position : Type := AtEnd | At (r : nat) | Gap (r : nat) | Gone.

#[export] Instance position_eq_dec : EqDecision position.
Proof. solve_decision. Defined.

Definition values (o : option node) : list bytes := match o with None => [] | Some tr => contents tr end.

(** The cursor has a path to the position [r]. *)
Definition on_path (tr : node) (deleted : bool) (c : cursor) (r : nat) : Prop :=
  exists ps leaf pre vals post (k : nat), at_path tr ps leaf pre vals post /\ r = (length pre + k)%nat /\
    (if deleted then k <= length vals else k < length vals)%nat /\
    c = Cursor ps leaf (Z.of_nat k) false deleted false.

Definition cursor_ok (o : option node) (c : cursor) (p : position) : Prop :=
  match p with
  | AtEnd => c = invalid_cursor
  | Gone => c = set_deleted true invalid_cursor
  | At r => exists tr, o = Some tr /\ on_path tr false c r
  | Gap r => exists tr, o = Some tr /\ on_path tr true c r
  end.

(** ** Lists of cursors *)

Section assoc.
Context {X : Type}.
Implicit Types (x : X) (l : list (nat * X)).

Lemma find_update_eq id x y l : find_cursor id l = Some y -> find_cursor id (update_cursor id x l) = Some x.
Proof.
  induction l as [|[i z] l IH]; [done|]. unfold update_cursor in *. cbn [find_cursor map fst]. intros Hf.
  destruct (decide (i = id)) as [->|Hne]; cbn [find_cursor fst].
  - by rewrite decide_True.
  - rewrite decide_False by done. by apply IH.
Qed.
Lemma find_update_ne id id' x l : id <> id' -> find_cursor id' (update_cursor id x l) = find_cursor id' l.
Proof.
  intros Hne. induction l as [|[i z] l IH]; [done|]. unfold update_cursor in *. cbn [find_cursor map fst].
  destruct (decide (i = id)) as [->|]; cbn [find_cursor fst].
  - rewrite !decide_False by done. apply IH.
  - by rewrite IH.
Qed.
Lemma update_update id x y l : update_cursor id x (update_cursor id y l) = update_cursor id x l.
Proof.
  unfold update_cursor. rewrite map_map. apply map_ext. intros [i z]. cbn [fst].
  destruct (decide (i = id)) as [->|]; cbn [fst]; [by rewrite decide_True|by rewrite decide_False].
Qed.
Lemma update_id id x l : NoDup l.*1 -> find_cursor id l = Some x -> update_cursor id x l = l.
Proof.
  intros Hnd. induction l as [|[i z] l IH]; [done|]. cbn in Hnd. apply NoDup_cons in Hnd as [Hni Hnd].
  unfold update_cursor in *. cbn [find_cursor map fst]. destruct (decide (i = id)) as [->|Hne].
  - intros [= ->]. f_equal. rewrite <- (map_id l) at 2. apply map_ext_in. intros [j w] Hj. cbn [fst].
    rewrite decide_False; [done|]. intros ->. apply Hni. apply list_elem_of_In in Hj. apply list_elem_of_fmap. by exists (id, w).
  - intros Hf. f_equal. by apply IH.
Qed.
Lemma update_keys id x l : (update_cursor id x l).*1 = l.*1.
Proof.
  induction l as [|[i z] l IH]; [done|]. unfold update_cursor in *. cbn [map fst]. rewrite !fmap_cons. f_equal; [|done].
  by destruct (decide (i = id)).
Qed.
End assoc.

(** The cursors [cs] are at the positions [pos]. *)
Definition related {X Y} (R : X -> Y -> Prop) (cs : list (nat * X)) (pos : list (nat * Y)) : Prop :=
  Forall2 (fun c p => c.1 = p.1 /\ R c.2 p.2) cs pos.

Section related.
Context {X Y : Type} (R : X -> Y -> Prop).

Lemma related_find cs pos id p : related R cs pos -> find_cursor id pos = Some p ->
  exists c, find_cursor id cs = Some c /\ R c p.
Proof.
  induction 1 as [|[i c] [j q] cs pos [Hij HR] _ IH]; [done|]. cbn [fst snd find_cursor] in *. subst j.
  destruct (decide (i = id)); [|done]. intros [= <-]. by exists c.
Qed.
Lemma related_keys cs pos : related R cs pos -> cs.*1 = pos.*1.
Proof. induction 1 as [|[i c] [j q] cs pos [Hij HR] _ IH]; [done|]. rewrite !fmap_cons, IH. cbn in *. by subst. Qed.
Lemma related_update cs pos id c p : related R cs pos -> R c p ->
  related R (update_cursor id c cs) (update_cursor id p pos).
Proof.
  intros Hr HR. induction Hr as [|[i c'] [j q] cs pos [Hij HR'] _ IH]; [constructor|]. cbn [fst snd] in *. subst j.
  constructor; [|done]. cbn [fst]. by destruct (decide (i = id)).
Qed.
End related.

(** ** Specification *)

Section spec.
Context (derive_key : bytes -> bytes) (key_less : bytes -> bytes -> bool).

(** The number of leading elements that satisfy [p]. *)
Fixpoint first_not (p : bytes -> bool) (l : list bytes) : nat :=
  match l with
  | [] => 0
  | v :: l => if p v then S (first_not p l) else 0
  end.
Definition bound_index (which : seek_bound_t) (key : bytes) (l : list bytes) : nat :=
  first_not (fun v => before_b key_less which key (derive_key v)) l.

(** The position [r] of [l], or the end. *)
Definition at_index (l : list bytes) (r : nat) : position := if decide (r < length l)%nat then At r else AtEnd.
Definition seek_pos (which : seek_bound_t) (key : bytes) (l : list bytes) : position :=
  at_index l (bound_index which key l).
Definition find_pos (key : bytes) (l : list bytes) : position :=
  let r := bound_index seek_bound_lower key l in
  match l !! r with
  | Some v => if value_equal_key derive_key key_less v key then At r else AtEnd
  | None => AtEnd
  end.

Lemma first_not_cut (p : bytes -> bool) l r : cut (fun v => p v = true) l r -> first_not p l = r.
Proof.
  revert r. induction l as [|v l IH]; intros r (Hr & Ht & Hd).
  - simpl in *. lia.
  - destruct r as [|r]; simpl in *.
    + apply Forall_cons in Hd as [Hv _]. by destruct (p v).
    + apply Forall_cons in Ht as [-> Ht]. f_equal. apply IH. split_and!; [lia|done|done].
Qed.
End spec.

(** ** Invariant *)

Section inv.
Context {A : Type} `{AllocatorSpec A}.
Context (derive_key : bytes -> bytes) (key_less : bytes -> bytes -> bool) `{KeyOrder key_less}.
Context (cfg : config) (bs : Z) (Hcfg : config_ok cfg bs).
Abbreviation T := (tree A).
Abbreviation st := (st cfg bs).
Abbreviation holds := (holds cfg bs).
Abbreviation stored := (stored cfg bs).
Abbreviation shape := (shape derive_key key_less).
Implicit Types (anc : anchor) (cs : list (nat * cursor)) (pos : list (nat * position)) (G : gmap Z bytes).
Implicit Types (n : Z) (t : T) (key : bytes) (o : option node) (tr : node) (id : nat).

Record tree_rep anc G (h : nat) tr : Prop := {
  tr_shape : shape h None None tr;
  tr_stored : stored G (blocks_of tr);
  tr_nodup : NoDup (ids tr);
  tr_height : height anc = Z.of_nat h + 1;
  tr_root : root anc = node_id tr;
  tr_size : size anc = zlen (contents tr);
  tr_left : head (leaf_ids tr) = Some (leftmost anc);
  tr_right : last (leaf_ids tr) = Some (rightmost anc);
  tr_leaves : leaf_nodes anc = zlen (leaf_ids tr);
  tr_inner : internal_nodes anc = u32 (zlen (blocks_of tr) - zlen (leaf_ids tr))
}.
Definition tree_ok anc G o : Prop :=
  match o with
  | None => anc = empty_anchor
  | Some tr => exists h, tree_rep anc G h tr
  end.

Definition inv G n o pos t : Prop :=
  exists anc cs, st anc cs G n t /\ tree_ok anc G o /\ related (cursor_ok o) cs pos /\ NoDup cs.*1.

Lemma get_cursor_spec anc cs G n t id c (Q : cursor -> T -> Prop) :
  st anc cs G n t -> find_cursor id cs = Some c -> Q c t -> wp (get_cursor id) t Q.
Proof.
  intros Hst Hc HQ. unfold get_cursor. wp_step. wp_step. rewrite (st_cursors _ _ _ _ _ _ _ Hst), Hc. by wp_step.
Qed.
Lemma put_cursor_spec anc cs G n t id c (Q : unit -> T -> Prop) :
  st anc cs G n t -> (forall t', st anc (update_cursor id c cs) G n t' -> Q tt t') -> wp (put_cursor id c) t Q.
Proof.
  intros Hst HQ. unfold put_cursor. wp_step. apply HQ. destruct Hst. split; cbn; try done. by f_equal.
Qed.
Lemma mod_cursor_spec anc cs G n t id c f (Q : unit -> T -> Prop) :
  st anc cs G n t -> find_cursor id cs = Some c ->
  (forall t', st anc (update_cursor id (f c) cs) G n t' -> Q tt t') -> wp (mod_cursor id f) t Q.
Proof.
  intros Hst Hc HQ. unfold mod_cursor. wp_step. apply (get_cursor_spec _ _ _ _ _ _ _ _ Hst Hc). by apply (put_cursor_spec _ _ _ _ _ _ _ _ Hst).
Qed.
Lemma get_anchor_spec anc cs G n t (Q : anchor -> T -> Prop) : st anc cs G n t -> Q anc t -> wp get_anchor t Q.
Proof. intros Hst HQ. unfold get_anchor. wp_step. by rewrite (st_anchor _ _ _ _ _ _ _ Hst). Qed.
Lemma get_config_spec anc cs G n t (Q : config -> T -> Prop) : st anc cs G n t -> Q cfg t -> wp get_config t Q.
Proof. intros Hst HQ. unfold get_config. wp_step. by rewrite (st_config _ _ _ _ _ _ _ Hst). Qed.

Lemma inv_put anc cs pos G n o id c p t :
  tree_ok anc G o -> related (cursor_ok o) cs pos -> NoDup cs.*1 -> cursor_ok o c p ->
  st anc (update_cursor id c cs) G n t -> inv G n o (update_cursor id p pos) t.
Proof.
  intros Hok Hrel Hnd Hc Hst. exists anc, (update_cursor id c cs). split_and!; [done..|by apply related_update|].
  by rewrite update_keys.
Qed.

(** ** Searching *)

Lemma leaf_holds tr G ps leaf pre vals post :
  stored G (blocks_of tr) -> at_path tr ps leaf pre vals post -> holds G leaf (LeafBody vals).
Proof. intros Hs Hp. apply (proj1 (Forall_forall _ _) Hs (leaf, LeafBody vals)). by eapply at_path_block. Qed.

Lemma at_path_sorted h lo hi tr ps leaf pre vals post :
  shape h lo hi tr -> at_path tr ps leaf pre vals post -> sorted derive_key key_less vals.
Proof.
  intros Hsh Hp. apply shape_sorted in Hsh; [|done]. rewrite (at_path_contents _ _ _ _ _ _ Hp) in Hsh.
  apply sorted_app in Hsh as (_ & Hs & _). by apply sorted_app in Hs as (Hs & _).
Qed.

Lemma leaf_cut which key vals : sorted derive_key key_less vals ->
  exists k, cut (fun v => is_before key_less which key (derive_key v)) vals k.
Proof.
  intros Hs. eapply (cut_exists (fun v w => lt key_less (derive_key v) (derive_key w))); [|done|].
  - intros v. unfold is_before. apply _.
  - intros v w Hvw. by apply is_before_le, lt_le.
Qed.

(** The path of a search: the position in the leaf is the position in the
    whole tree. *)
Lemma path_cut which key tr ps leaf pre vals post k :
  at_path tr ps leaf pre vals post ->
  Forall (fun v => is_before key_less which key (derive_key v)) pre ->
  Forall (fun v => lt key_less key (derive_key v)) post ->
  cut (fun v => is_before key_less which key (derive_key v)) vals k ->
  bound_index derive_key key_less which key (contents tr) = (length pre + k)%nat.
Proof.
  intros Hp Hpre Hpost Hcut. apply first_not_cut. rewrite (at_path_contents _ _ _ _ _ _ Hp). apply cut_mid; [done..|].
  eapply Forall_impl; [exact Hpost|]. intros v Hv. by apply lt_not_before.
Qed.

Lemma lt_not_equal key v : lt key_less key (derive_key v) -> value_equal_key derive_key key_less v key = false.
Proof. unfold value_equal_key, key_equal, lt. by intros ->. Qed.
Lemma before_not_equal key v : is_before key_less seek_bound_lower key (derive_key v) -> value_equal_key derive_key key_less v key = false.
Proof. unfold value_equal_key, key_equal, is_before, before_b. intros ->. apply andb_false_r. Qed.

Lemma at_index_path tr ps leaf pre vals post (k : nat) :
  at_path tr ps leaf pre vals post -> (k < length vals)%nat ->
  at_index (contents tr) (length pre + k) = At (length pre + k) /\
  cursor_ok (Some tr) (Cursor ps leaf (Z.of_nat k) false false false) (At (length pre + k)).
Proof.
  intros Hp Hk. split.
  - unfold at_index. rewrite decide_True; [done|]. rewrite (at_path_contents _ _ _ _ _ _ Hp), !length_app. lia.
  - exists tr. split; [done|]. by exists ps, leaf, pre, vals, post, k.
Qed.
Lemma at_index_end tr ps leaf pre vals :
  at_path tr ps leaf pre vals [] -> at_index (contents tr) (length pre + length vals) = AtEnd.
Proof.
  intros Hp. unfold at_index. rewrite decide_False; [done|]. rewrite (at_path_contents _ _ _ _ _ _ Hp), !length_app. simpl. lia.
Qed.

Definition seek_result which key (l : list bytes) (p : position) : Prop :=
  p = seek_pos derive_key key_less which key l \/
  (which = seek_bound_find /\ p = AtEnd /\ Forall (fun v => value_equal_key derive_key key_less v key = false) l).

(** The position is at the end of the leaf. *)
Lemma seek_next_spec which anc cs G n h tr ps leaf pre vals post key id c0 t (Q : unit -> T -> Prop) :
  st anc (update_cursor id (Cursor ps leaf (zlen vals) false false true) cs) G n t ->
  tree_rep anc G h tr -> at_path tr ps leaf pre vals post -> find_cursor id cs = Some c0 ->
  bound_index derive_key key_less which key (contents tr) = (length pre + length vals)%nat ->
  (forall c p t', cursor_ok (Some tr) c p -> p = seek_pos derive_key key_less which key (contents tr) ->
     st anc (update_cursor id c cs) G n t' -> Q tt t') ->
  wp (let* moved := next_leaf id in
      if moved : bool then mod_cursor id (set_index 0) ;;; mod_cursor id (set_inprogress false)
      else put_cursor id invalid_cursor) t Q.
Proof.
  intros Hst Hrep Hp Hid Hb HQ. assert (forall c, find_cursor id (update_cursor id c cs) = Some c) as Hfind
    by (intros c; by eapply find_update_eq).
  unfold seek_pos in HQ. rewrite Hb in HQ.
  wp_step. unfold next_leaf. wp_step. apply (get_cursor_spec _ _ _ _ _ _ _ _ Hst (Hfind _)). cbn [m_parents m_index]. wp_step.
  eapply wp_mono; [eapply (next_parents_spec derive_key key_less cfg bs Hcfg); [exact Hst|apply Hrep|apply Hrep|exact Hp]|].
  cbn beta. intros [[ps' leaf']|] t1 [Hst1 Hr].
  - destruct Hr as (vals' & post' & Hp'). wp_step.
    apply (put_cursor_spec _ _ _ _ _ _ _ _ Hst1). rewrite update_update. intros t2 Hst2. wp_step. wp_step.
    apply (mod_cursor_spec _ _ _ _ _ _ _ _ _ Hst2 (Hfind _)). rewrite update_update. intros t3 Hst3.
    apply (mod_cursor_spec _ _ _ _ _ _ _ _ _ Hst3 (Hfind _)). rewrite update_update. intros t4 Hst4.
    destruct (at_path_height _ _ _ _ _ _ _ _ _ _ _ (tr_shape _ _ _ _ Hrep) Hp') as [_ Hne].
    destruct (at_index_path _ _ _ _ _ _ 0 Hp') as [Hi Hc]; [destruct vals'; [done|simpl; lia]|].
    rewrite Nat.add_0_r, length_app in *. eapply HQ; [exact Hc|by rewrite Hi|exact Hst4].
  - subst post. wp_step. apply (put_cursor_spec _ _ _ _ _ _ _ _ Hst1). rewrite update_update. intros t2 Hst2.
    apply (HQ invalid_cursor AtEnd); [done| |done]. by rewrite (at_index_end _ _ _ _ _ Hp).
Qed.

Lemma seek_bound_spec which key G n o pos id p0 t :
  inv G n o pos t -> find_cursor id pos = Some p0 ->
  wp (seek_bound derive_key key_less which key id) t (fun _ t' =>
    exists p, seek_result which key (values o) p /\ inv G n o (update_cursor id p pos) t').
Proof.
  intros (anc & cs & Hst & Hok & Hrel & Hnd) Hid. destruct (related_find _ _ _ _ _ Hrel Hid) as (c0 & Hc0 & _).
  assert (forall c, find_cursor id (update_cursor id c cs) = Some c) as Hfind by (intros c; by eapply find_update_eq).
  unfold seek_bound. wp_step. apply (get_anchor_spec _ _ _ _ _ _ Hst). destruct o as [tr|].
  2: { cbn in Hok. subst anc. cbn [height empty_anchor]. cbn iota.
       apply (put_cursor_spec _ _ _ _ _ _ _ _ Hst). intros t' Hst'. exists AtEnd. split; [by left|]. by eapply inv_put. }
  destruct Hok as [h Hrep]. rewrite (tr_height _ _ _ _ Hrep), (tr_root _ _ _ _ Hrep). destruct (Z.eqb_spec (Z.of_nat h + 1) 0); [lia|].
  wp_step. apply (put_cursor_spec _ _ _ _ _ _ _ _ Hst). intros t1 Hst1.
  replace (Z.to_nat (Z.of_nat h + 1) - 1)%nat with h by lia. wp_step.
  eapply wp_mono.
  { eapply (seek_down_spec derive_key key_less cfg bs Hcfg); [by apply (choose_bound derive_key key_less cfg bs which key)|exact Hst1|apply Hrep|apply Hrep]. }
  cbn beta. intros [ps leaf] t2 (Hst2 & pre & vals & post & Hp & Hpre & Hpost). cbn [fst snd] in *. wp_step.
  pose proof (leaf_holds _ _ _ _ _ _ _ (tr_stored _ _ _ _ Hrep) Hp) as Hl.
  apply (read_leaf_spec _ _ _ _ _ _ _ _ _ _ Hst2 Hl). intros t3 Hst3. wp_step.
  apply (mod_cursor_spec _ _ _ _ _ _ _ _ _ Hst3 (Hfind _)). rewrite update_update. intros t4 Hst4. wp_step.
  destruct (leaf_cut which key vals) as [k Hk]; [by eapply at_path_sorted; [apply Hrep|]|].
  apply (bound_leaf_spec derive_key key_less cfg bs which anc _ G n t4 leaf vals key k _ Hst4 Hl Hk). intros t5 Hst5. wp_step.
  apply (mod_cursor_spec _ _ _ _ _ _ _ _ _ Hst5 (Hfind _)). rewrite update_update. intros t6 Hst6. wp_step.
  apply (leaf_size_spec _ _ _ _ _ _ _ _ _ _ Hst6 Hl). intros t7 Hst7.
  pose proof (path_cut _ _ _ _ _ _ _ _ _ Hp Hpre Hpost Hk) as Hb. destruct Hk as (Hkl & Hk1 & Hk2).
  destruct (Z.eqb_spec (Z.of_nat k) (zlen vals)) as [Heq|Hne].
  - assert (k = length vals) as -> by lia. destruct which.
    1,2: eapply seek_next_spec; [exact Hst7|done..|]; intros c p t8 Hc Hpp Hst8; exists p; split; [by left|]; by eapply inv_put; [exists h|..].
    apply (put_cursor_spec _ _ _ _ _ _ _ _ Hst7). rewrite update_update. intros t8 Hst8. exists AtEnd.
    split; [|by eapply inv_put; [exists h|..]]. right. split_and!; [done..|]. cbn [values].
    rewrite (at_path_contents _ _ _ _ _ _ Hp). rewrite firstn_all in Hk1. rewrite !Forall_app. split_and!.
    + eapply Forall_impl; [exact Hpre|]. apply before_not_equal.
    + eapply Forall_impl; [exact Hk1|]. apply before_not_equal.
    + eapply Forall_impl; [exact Hpost|]. apply lt_not_equal.
  - apply (mod_cursor_spec _ _ _ _ _ _ _ _ _ Hst7 (Hfind _)). rewrite update_update. intros t8 Hst8.
    destruct (at_index_path _ _ _ _ _ _ k Hp) as [Hi Hc]; [lia|].
    exists (At (length pre + k)). split; [left; unfold seek_pos; cbn [values]; by rewrite Hb, Hi|].
    by eapply inv_put; [exists h|..].
Qed.

Lemma btree_find_spec key G n o pos id p0 t :
  inv G n o pos t -> find_cursor id pos = Some p0 ->
  wp (find derive_key key_less key id) t (fun _ t' =>
    inv G n o (update_cursor id (find_pos derive_key key_less key (values o)) pos) t').
Proof.
  intros Hinv Hid. unfold find. wp_step. eapply wp_mono; [by eapply (seek_bound_spec seek_bound_find)|].
  cbn beta. intros _ t1 (p & Hp & anc & cs & Hst & Hok & Hrel & Hnd). wp_step.
  destruct (related_find _ _ _ _ _ Hrel (find_update_eq _ _ _ _ Hid)) as (c & Hc & Hcp).
  apply (get_cursor_spec _ _ _ _ _ _ _ _ Hst Hc).
  assert (seek_pos derive_key key_less seek_bound_find key = seek_pos derive_key key_less seek_bound_lower key) as Hsame by done.
  destruct (decide (p = AtEnd)) as [->|Hne].
  - cbn in Hcp. subst c. change (at_end invalid_cursor) with true. cbn iota. wp_step. exists anc, cs. split_and!; try done. unfold find_pos.
    destruct (values o !! _) as [v|] eqn:Hv; [|done].
    destruct Hp as [Hp|(_ & _ & Hp)]; [|by rewrite (Forall_lookup_1 _ _ _ _ Hp Hv)].
    rewrite Hsame in Hp. unfold seek_pos, at_index in Hp. apply lookup_lt_Some in Hv. by rewrite decide_True in Hp.
  - destruct Hp as [Hp|(_ & ? & _)]; [|done]. rewrite Hsame in Hp. unfold seek_pos, at_index in Hp.
    case_decide as Hlt; [|done]. subst p. destruct Hcp as (tr & -> & ps & leaf & pre & vals & post & k & Hpath & Hr & Hk & ->).
    destruct Hok as [h Hrep]. pose proof (leaf_holds _ _ _ _ _ _ _ (tr_stored _ _ _ _ Hrep) Hpath) as Hl.
    cbn [at_end c_deleted c_invalid m_leaf m_index negb andb]. wp_step. apply (leaf_size_spec _ _ _ _ _ _ _ _ _ _ Hst Hl).
    intros t2 Hst2. wp_step. wp_step. wp_step.
    destruct (vals !! k) as [v|] eqn:Hv; [|apply lookup_ge_None in Hv; lia].
    apply (tree_leaf_get_spec _ _ _ _ _ _ _ _ _ _ v _ Hst2 Hl Hv). intros t3 Hst3. unfold find_pos. cbn [values] in *.
    replace (contents tr !! bound_index derive_key key_less seek_bound_lower key (contents tr)) with (Some v).
    2: { rewrite Hr, (at_path_contents _ _ _ _ _ _ Hpath), lookup_app_r, lookup_app_l by lia.
         by replace (length pre + k - length pre)%nat with k by lia. }
    destruct (value_equal_key derive_key key_less v key); cbn [negb].
    + wp_step. exists anc, cs. split_and!; [done|by exists h|done|done].
    + apply (put_cursor_spec _ _ _ _ _ _ _ _ Hst3). intros t4 Hst4.
      rewrite <- (update_update id AtEnd (At (bound_index derive_key key_less seek_bound_lower key (contents tr))) pos).
      by eapply inv_put; [exists h|..].
Qed.

(** ** Moving *)

Lemma init_position_spec (max : bool) G n o pos id p0 t :
  inv G n o pos t -> find_cursor id pos = Some p0 ->
  wp (init_position max id) t (fun _ t' =>
    inv G n o (update_cursor id (at_index (values o) (if max then length (values o) - 1 else 0)) pos) t').
Proof.
  intros (anc & cs & Hst & Hok & Hrel & Hnd) Hid. destruct (related_find _ _ _ _ _ Hrel Hid) as (c0 & Hc0 & _).
  unfold init_position. wp_step. apply (get_anchor_spec _ _ _ _ _ _ Hst). destruct o as [tr|].
  2: { cbn in Hok. subst anc. cbn [height empty_anchor]. cbn iota.
       apply (put_cursor_spec _ _ _ _ _ _ _ _ Hst). intros t' Hst'. eapply inv_put; [done..| |exact Hst'].
       by destruct max. }
  destruct Hok as [h Hrep]. rewrite (tr_height _ _ _ _ Hrep), (tr_root _ _ _ _ Hrep). destruct (Z.eqb_spec (Z.of_nat h + 1) 0); [lia|].
  wp_step. apply (put_cursor_spec _ _ _ _ _ _ _ _ Hst). intros t1 Hst1.
  replace (Z.to_nat (Z.of_nat h + 1) - 1)%nat with h by lia. wp_step.
  eapply wp_mono.
  { eapply (seek_down_spec derive_key key_less cfg bs Hcfg (fun _ => max = true) (fun _ => max = false)); [|exact Hst1|apply Hrep|apply Hrep].
    intros h' lo hi i keys children t' Hst' Hi Hs'. destruct max.
    - eapply wp_mono; [by eapply (choose_last derive_key key_less)|]. cbn beta. intros x t'' (Hst'' & l & c & r & -> & -> & Hl & Hr).
      split; [done|]. exists l, c, r. split_and!; [done..| |]; (eapply Forall_impl; [eassumption|done]).
    - eapply wp_mono; [by eapply (choose_first derive_key key_less)|]. cbn beta. intros x t'' (Hst'' & l & c & r & -> & -> & Hl & Hr).
      split; [done|]. exists l, c, r. split_and!; [done..| |]; (eapply Forall_impl; [eassumption|done]). }
  cbn beta. intros [ps leaf] t2 (Hst2 & pre & vals & post & Hp & Hpre & Hpost). cbn [fst snd] in *. wp_step.
  pose proof (leaf_holds _ _ _ _ _ _ _ (tr_stored _ _ _ _ Hrep) Hp) as Hl.
  destruct (holds_leaf _ _ _ _ _ Hl) as (_ & Hcap & Hc32).
  destruct (at_path_height _ _ _ _ _ _ _ _ _ _ _ (tr_shape _ _ _ _ Hrep) Hp) as [_ Hne].
  assert (0 < length vals)%nat by (destruct vals; [done|simpl; lia]).
  apply (read_leaf_spec _ _ _ _ _ _ _ _ _ _ Hst2 Hl). intros t3 Hst3. wp_step.
  apply (leaf_size_spec _ _ _ _ _ _ _ _ _ _ Hst3 Hl). intros t4 Hst4. wp_step. wp_step.
  apply (put_cursor_spec _ _ _ _ _ _ _ _ Hst4). rewrite update_update. intros t5 Hst5. cbn [values].
  destruct max.
  - assert (post = []) as -> by (destruct post; [done|by apply Forall_cons in Hpost as [? _]]).
    destruct (at_index_path _ _ _ _ _ _ (length vals - 1) Hp) as [Hi Hc]; [lia|].
    assert (length (contents tr) - 1 = length pre + (length vals - 1))%nat as ->
      by (rewrite (at_path_contents _ _ _ _ _ _ Hp), !length_app; simpl; lia).
    rewrite Hi. eapply inv_put; [by exists h|done..|exact Hc|]. rewrite wrap_small in Hst5 by (split; lia).
    by replace (Z.of_nat (length vals - 1)) with (zlen vals - 1) by lia.
  - assert (pre = []) as -> by (destruct pre; [done|by apply Forall_cons in Hpre as [? _]]).
    destruct (at_index_path _ _ _ _ _ _ 0 Hp) as [Hi Hc]; [lia|]. cbn [length Nat.add] in *.
    rewrite Hi. by eapply inv_put; [exists h|..].
Qed.

(** The position after a move; [None] for a move that is refused. *)
Definition next_pos (l : list bytes) (p : position) : option position :=
  match p with
  | AtEnd => None
  | At r => Some (at_index l (S r))
  | Gap r => Some (at_index l r)
  | Gone => Some AtEnd
  end.
Definition prev_pos (l : list bytes) (p : position) : option position :=
  match p with
  | AtEnd => None
  | At 0 | Gap 0 | Gone => Some AtEnd
  | At (S r) | Gap (S r) => Some (At r)
  end.
Definition is_at (p : position) : bool := match p with At _ => true | _ => false end.

Definition path_pos (deleted : bool) (r : nat) : position := if deleted then Gap r else At r.

Lemma cursor_ok_path tr deleted c r : on_path tr deleted c r -> cursor_ok (Some tr) c (path_pos deleted r).
Proof. destruct deleted; by exists tr. Qed.

Lemma move_next_path anc cs pos G n h tr id (deleted : bool) ps leaf pre vals post (k : nat) t :
  st anc cs G n t -> tree_rep anc G h tr -> related (cursor_ok (Some tr)) cs pos -> NoDup cs.*1 ->
  at_path tr ps leaf pre vals post -> (if deleted then k <= length vals else k < length vals)%nat ->
  find_cursor id cs = Some (Cursor ps leaf (Z.of_nat k) false deleted false) ->
  wp (move_next id) t (fun b t' => let p := at_index (contents tr) (length pre + (if deleted then k else S k)) in
    b = is_at p /\ inv G n (Some tr) (update_cursor id p pos) t').
Proof.
  intros Hst Hrep Hrel Hnd Hp Hk Hc. unfold move_next. wp_step. apply (get_cursor_spec _ _ _ _ _ _ _ _ Hst Hc).
  cbn [c_deleted c_invalid m_index m_parents]. rewrite andb_false_r, andb_false_r. cbn iota. do 2 wp_step.
  pose proof (leaf_holds _ _ _ _ _ _ _ (tr_stored _ _ _ _ Hrep) Hp) as Hl.
  destruct (holds_leaf _ _ _ _ _ Hl) as (_ & Hcap & Hc32). pose proof (cf_vs _ _ Hcfg). pose proof (cf_leaf _ _ Hcfg).
  pose proof (cf_bs _ _ Hcfg). unfold node_header_size in *.
  assert (Z.of_nat k + 1 < 2 ^ 32) as Hk32 by (destruct deleted; nia).
  set (k' := if deleted then k else S k). set (c1 := Cursor ps leaf (Z.of_nat k') false false false).
  assert ((if deleted then set_deleted false (Cursor ps leaf (Z.of_nat k) false deleted false)
    else set_index (u32 (Z.of_nat k + 1)) (set_deleted false (Cursor ps leaf (Z.of_nat k) false deleted false))) = c1) as ->.
  { destruct deleted; [done|]. unfold c1, k', set_index, set_position, set_deleted. cbn. f_equal. rewrite wrap_small; [lia|]. split; lia. }
  assert (forall c, find_cursor id (update_cursor id c cs) = Some c) as Hfind by (intros c; by eapply find_update_eq).
  wp_step. apply (put_cursor_spec _ _ _ _ _ _ _ _ Hst). intros t1 Hst1. wp_step. cbn [m_leaf m_index m_parents c1].
  apply (leaf_size_spec _ _ _ _ _ _ _ _ _ _ Hst1 Hl). intros t2 Hst2. destruct (Z.ltb_spec (Z.of_nat k') (zlen vals)) as [Hlt|Hge].
  { wp_step. destruct (at_index_path _ _ _ _ _ _ k' Hp) as [Hi Hcur]; [lia|]. rewrite Hi. split; [done|].
    by eapply inv_put; [exists h|..]. }
  assert (k' = length vals) as Hk' by (unfold k' in *; destruct deleted; lia).
  wp_step. apply (put_cursor_spec _ _ _ _ _ _ _ _ Hst2). rewrite update_update. intros t3 Hst3. wp_step.
  eapply wp_mono; [eapply (next_parents_spec derive_key key_less cfg bs Hcfg); [exact Hst3|apply Hrep|apply Hrep|exact Hp]|].
  cbn beta. intros [[ps' leaf']|] t4 [Hst4 Hr].
  - destruct Hr as (vals' & post' & Hp'). pose proof (leaf_holds _ _ _ _ _ _ _ (tr_stored _ _ _ _ Hrep) Hp') as Hl'.
    destruct (at_path_height _ _ _ _ _ _ _ _ _ _ _ (tr_shape _ _ _ _ Hrep) Hp') as [_ Hne].
    assert (0 < length vals')%nat by (destruct vals'; [done|simpl; lia]).
    wp_step. apply (leaf_size_spec _ _ _ _ _ _ _ _ _ _ Hst4 Hl'). intros t5 Hst5. wp_step. wp_step. wp_step.
    apply (put_cursor_spec _ _ _ _ _ _ _ _ Hst5). rewrite update_update. intros t6 Hst6. wp_step.
    destruct (at_index_path _ _ _ _ _ _ 0 Hp') as [Hi Hcur]; [lia|]. rewrite Nat.add_0_r, length_app in *.
    rewrite Hk', Hi. split; [done|]. by eapply inv_put; [exists h|..].
  - subst post. wp_step. apply (put_cursor_spec _ _ _ _ _ _ _ _ Hst4). rewrite update_update. intros t5 Hst5. wp_step.
    rewrite Hk', (at_index_end _ _ _ _ _ Hp). split; [done|]. by eapply inv_put; [exists h|..].
Qed.

Lemma move_prev_path anc cs pos G n h tr id (deleted : bool) ps leaf pre vals post (k : nat) t :
  st anc cs G n t -> tree_rep anc G h tr -> related (cursor_ok (Some tr)) cs pos -> NoDup cs.*1 ->
  at_path tr ps leaf pre vals post -> (if deleted then k <= length vals else k < length vals)%nat ->
  find_cursor id cs = Some (Cursor ps leaf (Z.of_nat k) false deleted false) ->
  wp (move_prev id) t (fun b t' =>
    let p := match (length pre + k)%nat with O => AtEnd | S r => At r end in
    b = is_at p /\ inv G n (Some tr) (update_cursor id p pos) t').
Proof.
  intros Hst Hrep Hrel Hnd Hp Hk Hc. unfold move_prev. wp_step. apply (get_cursor_spec _ _ _ _ _ _ _ _ Hst Hc).
  cbn [c_deleted c_invalid m_index m_parents]. rewrite andb_false_r, andb_false_r. cbn iota. do 2 wp_step.
  pose proof (leaf_holds _ _ _ _ _ _ _ (tr_stored _ _ _ _ Hrep) Hp) as Hl.
  set (c1 := set_deleted false (Cursor ps leaf (Z.of_nat k) false deleted false)).
  wp_step. apply (put_cursor_spec _ _ _ _ _ _ _ _ Hst). intros t1 Hst1. destruct k as [|k].
  2: { destruct (Z.ltb_spec 0 (Z.of_nat (S k))); [|lia]. wp_step.
       apply (put_cursor_spec _ _ _ _ _ _ _ _ Hst1). rewrite update_update. intros t2 Hst2. wp_step.
       destruct (at_index_path _ _ _ _ _ _ k Hp) as [_ Hcur]; [destruct deleted; lia|].
       rewrite Nat.add_succ_r. split; [done|]. eapply inv_put; [by exists h|done..|exact Hcur|].
       by replace (Z.of_nat k) with (Z.of_nat (S k) - 1) by lia. }
  change (0 <? Z.of_nat 0) with false. cbn iota. rewrite Nat.add_0_r.
  wp_step. apply (put_cursor_spec _ _ _ _ _ _ _ _ Hst1). rewrite update_update. intros t3 Hst3. wp_step.
  eapply wp_mono; [eapply (prev_parents_spec derive_key key_less cfg bs Hcfg); [exact Hst3|apply Hrep|apply Hrep|exact Hp]|].
  cbn beta. intros [[ps' leaf']|] t4 [Hst4 Hr].
  - destruct Hr as (pre' & vals' & -> & Hp'). pose proof (leaf_holds _ _ _ _ _ _ _ (tr_stored _ _ _ _ Hrep) Hp') as Hl'.
    destruct (holds_leaf _ _ _ _ _ Hl') as (_ & Hcap & Hc32).
    destruct (at_path_height _ _ _ _ _ _ _ _ _ _ _ (tr_shape _ _ _ _ Hrep) Hp') as [_ Hne].
    assert (0 < length vals')%nat by (destruct vals'; [done|simpl; lia]).
    wp_step. apply (leaf_size_spec _ _ _ _ _ _ _ _ _ _ Hst4 Hl'). intros t5 Hst5. wp_step. wp_step. wp_step.
    apply (put_cursor_spec _ _ _ _ _ _ _ _ Hst5). rewrite update_update. intros t6 Hst6. wp_step.
    destruct (at_index_path _ _ _ _ _ _ (length vals' - 1) Hp') as [_ Hcur]; [lia|]. rewrite length_app.
    replace (length pre' + length vals')%nat with (S (length pre' + (length vals' - 1))) by lia.
    split; [done|]. eapply inv_put; [by exists h|done..|exact Hcur|]. rewrite wrap_small in Hst6 by (split; lia).
    by replace (Z.of_nat (length vals' - 1)) with (zlen vals' - 1) by lia.
  - subst pre. wp_step. apply (put_cursor_spec _ _ _ _ _ _ _ _ Hst4). rewrite update_update. intros t5 Hst5. wp_step.
    split; [done|]. by eapply inv_put; [exists h|..].
Qed.

(** ** Access to the current value *)

Lemma inner_index_valid anc cs G n t i x : st anc cs G n t -> holds G i x -> index_valid i = true.
Proof. intros Hst (b & Hi & _). apply elem_of_dom_2 in Hi. by apply (st_index _ _ _ _ _ _ _ i Hst). Qed.

(** [prev] is an entry whose child is the node [i]. *)
Definition points_to G (prev : option (Z * Z)) (i : Z) : Prop :=
  match prev with
  | None => True
  | Some e => exists keys children (k : nat), holds G e.1 (InnerBody keys children) /\ e.2 = Z.of_nat k /\ children !! k = Some i
  end.

Lemma check_stack_spec anc cs G n tr ps leaf pre vals post prev t (Q : unit -> T -> Prop) :
  st anc cs G n t -> stored G (blocks_of tr) -> at_path tr ps leaf pre vals post -> points_to G prev (node_id tr) ->
  (forall t', st anc cs G n t' -> points_to G (match last ps with Some e => Some e | None => prev end) leaf -> Q tt t') ->
  wp (check_stack prev ps) t Q.
Proof.
  intros Hst Hs Hp. revert prev t Hst Hs. induction Hp as [|i keys l c r ps leaf pre vals post Hp IH]; intros prev t Hst Hs Hprev HQ.
  { cbn [check_stack]. wp_step. by apply HQ. }
  apply stored_inner in Hs as [Hi Hs]. apply stored_mid in Hs as (_ & Hsc & _). cbn [check_stack fst snd].
  wp_step. wp_step; [by eapply inner_index_valid|]. wp_step.
  apply (child_count_spec _ _ _ _ _ _ _ _ _ _ _ Hst Hi). intros t1 Hst1. wp_step.
  wp_step; [apply Z.ltb_lt; rewrite length_map, length_app; cbn [length]; lia|]. wp_step.
  assert (points_to G (Some (i, zlen l)) (node_id c)) as Hpt.
  { exists keys, (map node_id (l ++ c :: r)), (length l). split_and!; [done..|]. by rewrite list_lookup_fmap, list_lookup_middle. }
  assert (forall t2, st anc cs G n t2 -> wp (check_stack (Some (i, zlen l)) ps) t2 Q) as Hrest.
  { intros t2 Hst2. apply IH; [done..|]. intros t' Hst' Hlast. apply HQ; [done|].
    destruct ps as [|e ps]; [done|]. rewrite last_cons_cons.
    destruct (last (e :: ps)) eqn:He; [done|by apply last_None in He]. }
  destruct prev as [[j k0]|].
  - destruct Hprev as (keys' & children' & k & Hj & Hk & Hlook). cbn [fst snd] in *. subst k0. wp_step.
    apply (get_child_spec _ _ _ _ _ _ _ _ _ _ _ _ _ Hst1 Hj Hlook). intros t2 Hst2. wp_step; [apply Z.eqb_refl|]. by apply Hrest.
  - wp_step. by apply Hrest.
Qed.

Lemma at_path_head tr ps leaf pre vals post : at_path tr ps leaf pre vals post ->
  match head ps with Some e => e.1 = node_id tr | None => leaf = node_id tr end.
Proof. by destruct 1. Qed.

Lemma check_element_valid_spec anc cs G n h tr ps leaf pre vals post (k : nat) t (Q : unit -> T -> Prop) :
  st anc cs G n t -> tree_rep anc G h tr -> at_path tr ps leaf pre vals post -> (k < length vals)%nat ->
  (forall t', st anc cs G n t' -> Q tt t') ->
  wp (check_element_valid (Cursor ps leaf (Z.of_nat k) false false false)) t Q.
Proof.
  intros Hst Hrep Hp Hk HQ. unfold check_element_valid. cbn [c_inprogress c_deleted c_invalid m_parents m_leaf m_index].
  pose proof (leaf_holds _ _ _ _ _ _ _ (tr_stored _ _ _ _ Hrep) Hp) as Hl.
  destruct (at_path_height _ _ _ _ _ _ _ _ _ _ _ (tr_shape _ _ _ _ Hrep) Hp) as [Hh _].
  do 7 wp_step. apply (get_anchor_spec _ _ _ _ _ _ Hst). wp_step. rewrite (tr_height _ _ _ _ Hrep), (tr_root _ _ _ _ Hrep).
  wp_step. wp_step.
  apply (check_stack_spec _ _ _ _ _ _ _ _ _ _ _ _ _ Hst (tr_stored _ _ _ _ Hrep) Hp); [done|]. intros t1 Hst1 Hlast. wp_step.
  pose proof (at_path_head _ _ _ _ _ _ Hp) as Hhd.
  assert (forall t2, st anc cs G n t2 ->
    wp ((if Z.of_nat h + 1 =? 1 then assert! (leaf =? node_id tr)
         else if 1 <? Z.of_nat h + 1 then
           match head ps with Some e => assert! (e.1 =? node_id tr) | None => throw assert_failure end
         else throw assert_failure) ;;;
        assert! (index_valid leaf) ;;;
        let* n0 := leaf_size leaf in assert! (Z.of_nat k <? n0)) t2 Q) as Hrest.
  { intros t2 Hst2. wp_step.
    assert (wp (assert! (index_valid leaf) ;;; let* n0 := leaf_size leaf in assert! (Z.of_nat k <? n0)) t2 Q) as Hend.
    { wp_step. wp_step; [by eapply inner_index_valid|]. wp_step. apply (leaf_size_spec _ _ _ _ _ _ _ _ _ _ Hst2 Hl). intros t3 Hst3.
      wp_step. by apply HQ. }
    destruct ps as [|e ps]; cbn [length head] in *; subst h; cbn [head] in Hhd.
    - change (Z.of_nat 0 + 1 =? 1) with true. cbn iota. subst leaf. by wp_step.
    - destruct (Z.eqb_spec (Z.of_nat (S (length ps)) + 1) 1); [lia|]. destruct (Z.ltb_spec 1 (Z.of_nat (S (length ps)) + 1)); [|lia].
      by wp_step. }
  destruct ps as [|e0 ps0] eqn:Hps.
  - cbn [length] in Hh. subst h. change (1 <? Z.of_nat 0 + 1) with false. cbn iota. wp_step. by apply Hrest.
  - destruct (Z.ltb_spec 1 (Z.of_nat h + 1)); [|cbn [length] in Hh; lia]. unfold back_entry. cbn [m_parents].
    rewrite <- Hps in *. destruct (last ps) as [e|] eqn:He; [|by apply last_None in He; subst].
    destruct Hlast as (keys & children & j & Hi & Hj & Hlook). wp_step. wp_step. wp_step. rewrite Hj.
    apply (get_child_spec _ _ _ _ _ _ _ _ _ _ _ _ _ Hst1 Hi Hlook). intros t2 Hst2.
    wp_step. by apply Hrest.
Qed.
End inv.
End btree_cursors.
