(* ===== verification/BTreeInsert.v ===== *)
(** * Insertion into B+ trees

    The descent to the leaf splits full internal nodes; the other cursors
    keep their positions. *)

From Stdlib Require Import Strings.Byte Sorting.Sorted.
From S2P Require Import Prelude MathOps Serialization Blocks EngineSpec FreeList Allocator Extent BTreeNodes BTree BTreeShape BTreeStore BTreeSearch BTreePaths BTreeSplit BTreeCursors.

Module btree_insert.
Import btree btree_shape btree_store btree_search btree_paths btree_split btree_cursors.

(** ** Lists of cursors *)

Definition rel {P : Type} (R : nat -> cursor -> P -> Prop) (cs : list (nat * cursor)) (pos : list (nat * P)) : Prop :=
  Forall2 (fun c p => c.1 = p.1 /\ R c.1 c.2 p.2) cs pos.

Section rel.
Context {P : Type}.
Implicit Types (R : nat -> cursor -> P -> Prop) (pos : list (nat * P)).

Lemma rel_find R cs pos id p : rel R cs pos -> find_cursor id pos = Some p ->
  exists c, find_cursor id cs = Some c /\ R id c p.
Proof.
  induction 1 as [|[i c] [j q] cs pos [Hij HR] _ IH]; [done|]. cbn [fst snd find_cursor] in *. subst j.
  destruct (decide (i = id)) as [->|]; [|done]. intros [= <-]. by exists c.
Qed.
Lemma rel_mono R R' cs pos : (forall i c p, R i c p -> R' i c p) -> rel R cs pos -> rel R' cs pos.
Proof. intros HR Hr. eapply Forall2_impl; [exact Hr|]. intros c p [Hi Hp]. split; [done|]. by apply HR. Qed.
Lemma rel_update R R' cs pos id c' :
  (forall i c p, i <> id -> R i c p -> R' i c p) -> (forall c p, R id c p -> R' id c' p) ->
  rel R cs pos -> rel R' (update_cursor id c' cs) pos.
Proof.
  intros HR Hid Hr. induction Hr as [|[i c] [j q] cs pos [Hij HR'] _ IH]; [constructor|]. cbn [fst snd] in *. subst j.
  constructor; [|done]. cbn [fst snd]. destruct (decide (i = id)) as [->|]; (split; [done|]); cbn [snd]; [by eapply Hid|by apply HR].
Qed.
End rel.

Section insert.
Context {A : Type} `{AllocatorSpec A}.
Context (derive_key : bytes -> bytes) (key_less : bytes -> bytes -> bool) `{KeyOrder key_less}.
Context (cfg : config) (bs : Z) (Hcfg : config_ok cfg bs) (supports1 : al_supports 1).
Abbreviation T := (tree A).
Abbreviation st := (st cfg bs).
Abbreviation holds := (holds cfg bs).
Abbreviation stored := (stored cfg bs).
Abbreviation body_ok := (body_ok cfg bs).
Abbreviation shape := (shape derive_key key_less).
Abbreviation tree_rep := (tree_rep derive_key key_less cfg bs).
Abbreviation mc := (internal_max_children cfg).
Abbreviation cap := (leaf_capacity cfg).
Implicit Types (anc : anchor) (cs : list (nat * cursor)) (pos : list (nat * position)) (G : gmap Z bytes).
Implicit Types (n : Z) (t : T) (key : bytes) (o : option node) (tr : node) (id : nat).

Lemma map_cursors_spec (R R' : nat -> cursor -> position -> Prop) anc cs0 cs pos G n f t (Q : list (nat * cursor) -> T -> Prop) :
  st anc cs0 G n t -> rel R cs pos ->
  (forall i c p t', R i c p -> st anc cs0 G n t' -> wp (f i c) t' (fun c' t'' => R' i c' p /\ st anc cs0 G n t'')) ->
  (forall cs' t', rel R' cs' pos -> cs'.*1 = cs.*1 -> st anc cs0 G n t' -> Q cs' t') -> wp (map_cursors f cs) t Q.
Proof.
  intros Hst Hr Hf. revert t Hst Q. induction Hr as [|[i c] [j p] cs pos [Hij HR] Hr IH]; intros t Hst Q HQ; cbn [map_cursors].
  - wp_step. apply HQ; [constructor|done|done].
  - cbn [fst snd] in *. subst j. wp_step. eapply wp_mono; [by apply (Hf i c p)|]. cbn beta. intros c' t1 [HR' Hst1]. wp_step.
    apply IH; [done|]. intros cs' t2 Hr' Hk Hst2. wp_step. apply HQ; [by constructor| |done]. rewrite !fmap_cons, Hk. done.
Qed.

Lemma for_cursors_spec (R R' : nat -> cursor -> position -> Prop) anc cs pos G n f t (Q : unit -> T -> Prop) :
  st anc cs G n t -> rel R cs pos ->
  (forall i c p t', R i c p -> st anc cs G n t' -> wp (f i c) t' (fun c' t'' => R' i c' p /\ st anc cs G n t'')) ->
  (forall cs' t', rel R' cs' pos -> cs'.*1 = cs.*1 -> st anc cs' G n t' -> Q tt t') -> wp (for_cursors f) t Q.
Proof.
  intros Hst Hr Hf HQ. unfold for_cursors. wp_step. wp_step. rewrite (st_cursors _ _ _ _ _ _ _ Hst). wp_step.
  eapply (map_cursors_spec R R'); [exact Hst|exact Hr|exact Hf|]. intros cs' t' Hr' Hk Hst'. wp_step.
  apply (HQ cs'); [done|done|]. destruct Hst'. by split.
Qed.

(** ** Bounds *)

Lemma contents_bound G tr : stored G (blocks_of tr) -> zlen (contents tr) <= cap * zlen (leaf_ids tr).
Proof.
  induction tr as [i vals|i keys cs IH] using node_ind'; intros Hs.
  - apply Forall_cons in Hs as [Hl _]. destruct (holds_leaf _ _ _ _ _ Hl) as (_ & Hc & _). cbn in *. lia.
  - apply stored_inner in Hs as [_ Hs]. rewrite contents_inner. cbn [leaf_ids].
    induction IH as [|c cs Hc IH2 IH3]; [cbn; lia|]. rewrite all_blocks_cons in Hs. apply stored_app in Hs as [Hsc Hs].
    rewrite all_contents_cons. cbn [map concat]. rewrite !length_app. specialize (Hc Hsc). specialize (IH3 Hs). lia.
Qed.

Lemma stored_bounds anc cs G n t tr : st anc cs G n t -> stored G (blocks_of tr) -> NoDup (ids tr) ->
  zlen (contents tr) < 2 ^ 64 /\ zlen (leaf_ids tr) < 2 ^ 64.
Proof.
  intros Hst Hs Hnd. pose proof (contents_bound G tr Hs) as Hc.
  destruct (al_wf _ _ (st_inv _ _ _ _ _ _ _ Hst)) as [Hwf _]. pose proof (al_used_bound _ _ (st_inv _ _ _ _ _ _ _ Hst)) as Hu.
  destruct Hwf as (_ & _ & Hw). rewrite (st_bs _ _ _ _ _ _ _ Hst) in Hw. unfold invalid_value, u64_max in Hw.
  assert (zlen (leaf_ids tr) <= Z.of_nat (base.size (dom G))) as Hle.
  { pose proof (sublist_length _ _ (leaf_ids_sublist tr)) as H1'.
    assert (list_to_set (ids tr) ⊆ dom G) as Hsub.
    { intros i Hi. apply elem_of_list_to_set, list_elem_of_fmap in Hi as (e & -> & He).
      apply (proj1 (Forall_forall _ _) Hs) in He as (b & Hb & _). by apply elem_of_dom_2 in Hb. }
    apply subseteq_size in Hsub. rewrite size_list_to_set in Hsub by done. lia. }
  destruct Hcfg. unfold node_header_size in *. set (D := d_size _) in *.
  assert (cap * zlen (leaf_ids tr) <= bs * D) by nia. assert (D <= bs * D) by nia. lia.
Qed.
Lemma tree_bounds anc cs G n t tr h lo hi :
  st anc cs G n t -> stored G (blocks_of tr) -> NoDup (ids tr) -> shape h lo hi tr ->
  zlen (contents tr) < 2 ^ 64 /\ zlen (leaf_ids tr) < 2 ^ 64 /\ Z.of_nat h < 64.
Proof.
  intros Hst Hs Hnd Hsh. pose proof (shape_size _ _ _ _ _ _ Hsh) as Hsz. destruct (stored_bounds _ _ _ _ _ _ Hst Hs Hnd) as [H1' H2'].
  split_and!; [done..|]. assert ((2 : Z) ^ Z.of_nat h < 2 ^ 64) as Hp.
  { change 2 with (Z.of_nat 2) at 1. rewrite <- Nat2Z.inj_pow. lia. }
  apply Z.pow_lt_mono_r_iff in Hp; lia.
Qed.

(** ** Changes of nodes *)

(** The number of children that stay in a node that is split. *)
Definition left_count : nat := Z.to_nat ((mc + 1) / 2).
Lemma left_count_bounds : (2 <= left_count)%nat /\ Z.of_nat left_count + 2 <= mc.
Proof.
  pose proof (cf_mc _ _ Hcfg). unfold left_count.
  assert (2 <= (mc + 1) / 2) by (apply Z.div_le_lower_bound; lia).
  assert ((mc + 1) / 2 < mc - 1) by (apply Z.div_lt_upper_bound; lia). lia.
Qed.

Lemma split_spec anc cs G n t i keys children (Q : Z * bytes -> T -> Prop) :
  st anc cs G (n + 1) t -> 0 <= n -> holds G i (InnerBody keys children) -> zlen children = mc ->
  (forall j sk b1 b2 t', G !! j = None -> keys !! (left_count - 1)%nat = Some sk ->
     body_ok b1 (InnerBody (take (left_count - 1) keys) (take left_count children)) ->
     body_ok b2 (InnerBody (drop left_count keys) (drop left_count children)) ->
     st (more_inner 1 anc) cs (<[j := b2]> (<[i := b1]> G)) n t' -> Q (j, sk) t') ->
  wp (split i) t Q.
Proof.
  intros Hst Hn Hi Hlen HQ. unfold split. wp_step. apply (create_internal_spec _ _ Hcfg supports1 _ _ _ _ _ _ Hst Hn).
  intros j b t1 Hj Hb Hst1. wp_step. unfold get_config. wp_step. rewrite (st_config _ _ _ _ _ _ _ Hst1). wp_step.
  assert (i <> j) as Hne by (intros ->; destruct Hi as (? & ? & _); congruence).
  eapply (node_write2_spec _ _ _ _ _ _ _ i j _ _
    (InnerBody (take (left_count - 1) keys) (take left_count children)) (InnerBody (drop left_count keys) (drop left_count children))
    _ (fun sk => keys !! (left_count - 1)%nat = Some sk) _ Hst1 Hne); [by apply holds_ne|by apply holds_eq| |].
  - intros b1 b2 [Hl1 Hb1] [Hl2 Hb2]. eapply wp_mono; [apply (internal_split_spec _ _ b1 b2 keys children Hb1 Hb2); [lia|done]|].
    cbn beta. intros sk s (Hsk & H1' & H2' & Hlen1 & Hlen2). split; [done|]. split; (split; [lia|done]).
  - intros sk b1 b2 t2 Hsk Hb1 Hb2 Hst2. wp_step. rewrite (insert_insert_ne G), insert_insert_eq in Hst2 by done.
    by apply (HQ j sk b1 b2).
Qed.

Definition grown (new_root : Z) anc : anchor :=
  Anchor (size anc) (leaf_nodes anc) (u32 (internal_nodes anc + 1)) (u32 (height anc + 1)) new_root (leftmost anc) (rightmost anc).

Lemma create_root_spec anc cs G n t l r key (Q : Z -> T -> Prop) :
  st anc cs G (n + 1) t -> 0 <= n -> is_u64 l -> is_u64 r -> zlen key = key_size cfg ->
  (forall i b t', G !! i = None -> body_ok b (InnerBody [key] [l; r]) -> st (grown i anc) cs (<[i := b]> G) n t' -> Q i t') ->
  wp (create_root l r key) t Q.
Proof.
  intros Hst Hn Hl Hr Hk HQ. unfold create_root. wp_step. apply (create_internal_spec _ _ Hcfg supports1 _ _ _ _ _ _ Hst Hn).
  intros i b t1 Hi Hb Hst1. wp_step. unfold get_config. wp_step. rewrite (st_config _ _ _ _ _ _ _ Hst1). wp_step.
  eapply (tree_node_write_spec _ _ _ _ _ _ _ i _ (InnerBody [key] [l; r]) _ (fun _ => True) _ Hst1); [by apply holds_eq| |].
  - intros b1 [Hl1 Hb1]. eapply wp_mono; [by apply (internal_root_spec _ _ b1 key l r Hb1)|].
    cbn beta. intros _ b2 [Hb2 Hl2]. split; [done|]. split; [lia|done].
  - intros _ b2 t2 _ Hb2 Hst2. rewrite insert_insert_eq in Hst2. wp_step. unfold get_anchor. wp_step.
    rewrite (st_anchor _ _ _ _ _ _ _ Hst2). wp_step. apply (mod_anchor_spec _ _ _ _ _ _ _ _ _ Hst2). intros t3 Hst3. wp_step.
    apply (mod_anchor_spec _ _ _ _ _ _ _ _ _ Hst3). intros t4 Hst4. wp_step. by eapply HQ.
Qed.

Lemma insert_split_result_spec anc cs G n t p keys children (k : nat) key c (Q : unit -> T -> Prop) :
  st anc cs G n t -> holds G p (InnerBody keys children) -> (1 <= k <= length children)%nat -> zlen children < mc ->
  zlen key = key_size cfg -> is_u64 c ->
  (forall b t', body_ok b (InnerBody (insert_at (k - 1) key keys) (insert_at k c children)) ->
     st anc cs (<[p := b]> G) n t' -> Q tt t') ->
  wp (insert_split_result p (Z.of_nat k) key c) t Q.
Proof.
  intros Hst Hp Hk Hlen Hkey Hc HQ. unfold insert_split_result, get_config. wp_step. wp_step. rewrite (st_config _ _ _ _ _ _ _ Hst).
  eapply (tree_node_write_spec _ _ _ _ _ _ _ p _ (InnerBody (insert_at (k - 1) key keys) (insert_at k c children)) _ (fun _ => True) _ Hst Hp).
  - intros b [Hl Hb]. eapply wp_mono; [by apply (internal_insert_split_result_spec _ _ b keys children k key c Hb)|].
    cbn beta. intros _ b' [Hb' Hl']. split; [done|]. split; [lia|done].
  - intros [] b t' _ Hb Hst'. by eapply HQ.
Qed.

(** ** Cursors after the split of an internal node *)

Lemma path_bound G tr ps s pre post : stored G (blocks_of tr) -> at_sub tr ps s pre post ->
  Forall (fun e => 0 <= e.2 < 2 ^ 31) ps.
Proof.
  intros Hs Hp. induction Hp as [|i keys l c r ps s pre post Hp IH]; [constructor|].
  apply stored_inner in Hs as [Hi Hs]. apply stored_mid in Hs as (_ & Hsc & _). constructor; [|by apply IH].
  destruct (holds_inner _ _ _ _ _ _ Hi) as (_ & Hc & Hm). rewrite length_map, length_app in Hc. cbn [length snd] in *. lia.
Qed.

Lemma cursor_invalid o o' c p : cursor_ok o c p -> c_invalid c = true -> cursor_ok o' c p.
Proof. destruct p; try done; intros (tr & _ & ps & leaf & pre & vals & post & k & _ & _ & _ & ->); done. Qed.

(** A valid cursor follows its path. *)
Lemma cursor_path h tr c p : shape h None None tr -> cursor_ok (Some tr) c p -> c_invalid c = false ->
  exists s pre post, at_sub tr (m_parents c) s pre post /\ length (m_parents c) = h /\
    forall tr' ps', at_sub tr' ps' s pre post -> cursor_ok (Some tr') (set_parents ps' c) p.
Proof.
  intros Hsh Hc Hv. destruct p as [|r|r|]; [by rewrite Hc in Hv| | |by rewrite Hc in Hv];
    destruct Hc as (tr0 & [= <-] & ps & leaf & pre & vals & post & k & Hp & Hr & Hk & ->);
    destruct (at_path_height _ _ _ _ _ _ _ _ _ _ _ Hsh Hp) as [Hh _];
    (exists (Leaf leaf vals), pre, post; split_and!; [by apply at_path_sub|done|]);
    intros tr' ps' Hp'; exists tr'; (split; [done|]); exists ps', leaf, pre, vals, post, k; (split_and!; [by apply at_path_sub|done..]).
Qed.

Definition seeker ps : cursor := Cursor ps invalid_value 0 false false true.
Definition seek_rel tr id (c0 : cursor) (i : nat) (c : cursor) (p : position) : Prop :=
  if decide (i = id) then c = c0 else cursor_ok (Some tr) c p.

Lemma entry_at_spec anc cs G n t (k : nat) c e (Q : Z * Z -> T -> Prop) :
  st anc cs G n t -> m_parents c !! k = Some e -> Q e t -> wp (entry_at (Z.of_nat k) c) t Q.
Proof. intros Hst He HQ. unfold entry_at. rewrite Nat2Z.id, He. by wp_step. Qed.

Section child_split.
Context (fs0 : list frame) (p : Z) (pk : list bytes) (pl pr : list node).
Context (i j : Z) (keys : list bytes) (l : list node) (c0 : node) (r : list node) (lc : nat) (sk : bytes).
Let tr := plug (fs0 ++ [Frame p pk pl pr]) (Inner i keys (l ++ c0 :: r)).
Let tr' := split_tree fs0 p pk pl pr i j keys l c0 r lc sk.
Let d := length fs0.
Context (Hlc : (2 <= lc)%nat) (Hlen : (lc + 2 <= length (l ++ c0 :: r))%nat) (Hsk : keys !! (lc - 1)%nat = Some sk).
Context (Hnd : NoDup (ids tr)).

Lemma child_split_cursor_spec anc cs G n t keys' children' c s pre post :
  st anc cs G n t -> holds G p (InnerBody keys' children') -> children' !! length pl = Some i ->
  at_sub tr (m_parents c) s pre post -> Forall (fun e => 0 <= e.2 < 2 ^ 31) (m_parents c) -> (d + 2 <= length (m_parents c))%nat ->
  c_invalid c = false ->
  wp (child_split_cursor p (zlen pl) i j (Z.of_nat lc) (Z.of_nat d) (Z.of_nat (S d)) c) t (fun c' t' =>
    c' = set_parents (fix_path fs0 p pl j lc (m_parents c)) c /\ st anc cs G n t').
Proof.
  intros Hst Hp Hi Hs Hb Hl Hv. unfold child_split_cursor. rewrite Hv.
  destruct (fix_path_sub fs0 p pk pl pr i j keys l c0 r lc sk _ _ _ _ Hnd Hs Hl) as [_ Hin]. fold d in Hin.
  assert (set_parents (m_parents c) c = c) as Hid by by destruct c.
  unfold fix_path. fold d. cbn zeta.
  destruct (m_parents c !! d) as [[q x]|] eqn:E1; [|apply lookup_ge_None in E1; lia].
  destruct (m_parents c !! S d) as [[e y]|] eqn:E2; [|apply lookup_ge_None in E2; lia].
  pose proof (Forall_lookup_1 _ _ _ _ Hb E1) as Bx. pose proof (Forall_lookup_1 _ _ _ _ Hb E2) as By. cbn [snd] in Bx, By.
  wp_step. wp_step. wp_step.
  wp_step; [apply andb_true_intro; split; [apply Z.leb_le|apply Z.ltb_lt]; lia|]. wp_step.
  apply (entry_at_spec _ _ _ _ _ _ _ _ _ Hst E1). cbn [fst snd].
  destruct (Z.eqb_spec q p) as [->|]; cbn [negb]; [|wp_step; by rewrite Hid].
  destruct (Z.eqb_spec x (zlen pl)) as [->|Hne].
  - destruct (Hin eq_refl) as (y' & [= -> ->]). wp_step. apply (entry_at_spec _ _ _ _ _ _ _ _ _ Hst E2). wp_step.
    apply (get_child_spec _ _ _ _ _ _ _ _ _ _ _ _ _ Hst Hp Hi). intros t1 Hst1. cbn [fst snd]. wp_step. wp_step. wp_step. wp_step.
    destruct (Z.leb_spec (Z.of_nat lc) (Z.of_nat y')); wp_step; (split; [|done]); [|done].
    rewrite !wrap_small by (split; lia). unfold set_entry. rewrite !Nat2Z.id. by destruct c.
  - destruct (Z.ltb_spec (zlen pl) x); wp_step; (split; [|done]); [|done].
    rewrite !wrap_small by (split; lia). unfold set_entry. by rewrite !Nat2Z.id.
Qed.

Lemma apply_child_split_spec anc cs pos G n t h keys1 keys' children' id (Q : unit -> T -> Prop) :
  st anc cs G n t -> height anc = Z.of_nat (d + 2 + S h) -> Z.of_nat (d + 2 + S h) < 2 ^ 32 -> shape (d + 1 + S h) None None tr ->
  holds G p (InnerBody keys' children') -> children' !! length pl = Some i -> children' !! S (length pl) = Some j ->
  holds G i (InnerBody keys1 (map node_id (take lc (l ++ c0 :: r)))) ->
  (forall ps s pre post, at_sub tr ps s pre post -> Forall (fun e => 0 <= e.2 < 2 ^ 31) ps) ->
  rel (seek_rel tr id (seeker (entries fs0 ++ [(p, zlen pl); (i, zlen l)]))) cs pos ->
  (forall cs' t', rel (seek_rel tr' id (seeker (entries (split_frames fs0 p pk pl pr i j keys l c0 r lc sk)))) cs' pos ->
     cs'.*1 = cs.*1 -> st anc cs' G n t' -> Q tt t') ->
  wp (apply_child_split p (Z.of_nat (S h)) (zlen pl) i j) t Q.
Proof.
  intros Hst Hh H32 Hsh Hp Hci Hcj Hi Hbound Hrel HQ. unfold apply_child_split. wp_step.
  apply (get_anchor_spec _ _ _ _ _ _ _ _ Hst). rewrite Hh. wp_step. wp_step. wp_step.
  rewrite !(wrap_small 32 (Z.of_nat (d + 2 + S h) - 1)) by (split; lia).
  wp_step; [apply Z.ltb_lt; lia|]. wp_step.
  apply (get_child_spec _ _ _ _ _ _ _ _ _ _ _ _ _ Hst Hp Hci). intros t1 Hst1. wp_step. wp_step. wp_step.
  destruct (holds_inner _ _ _ _ _ _ Hp) as (_ & Hc & Hm). apply lookup_lt_Some in Hcj as Hlt.
  rewrite (wrap_small 32 (zlen pl + 1)) by (split; lia). replace (zlen pl + 1) with (Z.of_nat (S (length pl))) by lia.
  apply (get_child_spec _ _ _ _ _ _ _ _ _ _ _ _ _ Hst1 Hp Hcj). intros t2 Hst2. wp_step. wp_step. wp_step.
  apply (child_count_spec _ _ _ _ _ _ _ _ _ _ _ Hst2 Hi). intros t3 Hst3. rewrite length_map, length_take_le by lia.
  replace (Z.of_nat (d + 2 + S h) - 1 - Z.of_nat (S h)) with (Z.of_nat (S d)) by lia.
  rewrite (wrap_small 32 (Z.of_nat (S d))) by (split; lia). replace (Z.of_nat (S d) - 1) with (Z.of_nat d) by lia.
  rewrite (wrap_small 32 (Z.of_nat d)) by (split; lia).
  eapply for_cursors_spec; [exact Hst3|exact Hrel| |exact HQ]. clear t t1 t2 t3 Hst Hst1 Hst2 Hst3.
  intros k c q t Hcur Hst. unfold seek_rel in *. case_decide as Hk.
  - subst c. eapply wp_mono.
    { apply (child_split_cursor_spec anc cs G n t keys' children' (seeker (entries fs0 ++ [(p, zlen pl); (i, zlen l)])) c0
        (pre_of (fs0 ++ [Frame p pk pl pr; Frame i keys l r])) (post_of (fs0 ++ [Frame p pk pl pr; Frame i keys l r]))); try done; cbn [m_parents seeker].
      - replace (entries fs0 ++ [(p, zlen pl); (i, zlen l)]) with (entries (fs0 ++ [Frame p pk pl pr; Frame i keys l r])) by by rewrite entries_app.
        replace tr with (plug (fs0 ++ [Frame p pk pl pr; Frame i keys l r]) c0) by (unfold tr; by rewrite !plug_app). apply at_sub_plug.
      - eapply Hbound.
        replace (entries fs0 ++ [(p, zlen pl); (i, zlen l)]) with (entries (fs0 ++ [Frame p pk pl pr; Frame i keys l r])) by by rewrite entries_app.
        replace tr with (plug (fs0 ++ [Frame p pk pl pr; Frame i keys l r]) c0) by (unfold tr; by rewrite !plug_app). apply at_sub_plug.
      - rewrite length_app, length_entries. cbn. unfold d. lia. }
    cbn beta. intros c' t' [-> Hst']. split; [|done]. unfold seeker. cbn [m_parents set_parents m_leaf m_index c_invalid c_deleted c_inprogress].
    f_equal. rewrite split_frames_entries. rewrite (fix_path_entries fs0 p pl i j lc (length l) []). f_equal.
  - destruct (c_invalid c) eqn:Hv.
    { unfold child_split_cursor. rewrite Hv. wp_step. split; [|done]. by eapply cursor_invalid. }
    destruct (cursor_path _ _ _ _ Hsh Hcur Hv) as (s & pre & post & Hs & Hl & Hnew).
    eapply wp_mono; [eapply (child_split_cursor_spec anc cs G n t keys' children' c s pre post); try done; [by eapply Hbound|lia]|].
    cbn beta. intros c' t' [-> Hst']. split; [|done]. apply Hnew.
    eapply (fix_path_sub fs0 p pk pl pr i j keys l c0 r lc sk _ _ _ _ Hnd Hs). fold d. lia.
Qed.
End child_split.

(** The blocks of a tree after the split of the node [i] below [p]. *)
Lemma stored_split G p i j x1 x2 x3 b1 b2 b3 L :
  NoDup (p :: i :: j :: L.*1) -> stored G L -> body_ok b1 x1 -> body_ok b2 x2 -> body_ok b3 x3 ->
  stored (<[p := b3]> (<[j := b2]> (<[i := b1]> G))) ((p, x3) :: (i, x1) :: (j, x2) :: L).
Proof.
  intros Hnd HL H1' H2' H3'. apply NoDup_cons in Hnd as [Hp Hnd]. apply NoDup_cons in Hnd as [Hi Hnd]. apply NoDup_cons in Hnd as [Hj Hnd].
  apply not_elem_of_cons in Hp as [? Hp]. apply not_elem_of_cons in Hp as [? Hp]. apply not_elem_of_cons in Hi as [? Hi]. repeat apply Forall_cons_2; cbn [fst snd].
  - by apply holds_eq.
  - by apply holds_ne, holds_ne, holds_eq.
  - by apply holds_ne, holds_eq.
  - by apply stored_insert, stored_insert, stored_insert.
Qed.

Lemma inner_count_more (x k : Z) : u32 (u32 x + k) = u32 (x + k).
Proof. unfold wrap. by rewrite Zplus_mod_idemp_l. Qed.

(** ** The descent *)

(** The blocks that do not belong to the tree keep their contents. *)
Definition keeps G (l : list Z) G' (l' : list Z) : Prop :=
  forall k b, G !! k = Some b -> k ∉ l -> G' !! k = Some b /\ k ∉ l'.
Lemma keeps_refl G l : keeps G l G l.
Proof. done. Qed.
Lemma keeps_trans G l G' l' G'' l'' : keeps G l G' l' -> keeps G' l' G'' l'' -> keeps G l G'' l''.
Proof. intros H1' H2' k b Hk Hl. destruct (H1' k b Hk Hl). by apply H2'. Qed.

Record seeking anc cs pos G n tr id (fs : list frame) (c : node) (h : nat) key t : Prop := {
  sk_st : st anc cs G n t;
  sk_rep : tree_rep anc G (length fs + h) tr;
  sk_tree : tr = plug fs c;
  sk_rel : rel (seek_rel tr id (seeker (entries fs))) cs pos;
  sk_key : bounded key_less (hole_lo None fs) (hole_hi None fs) key;
  sk_full : match last fs with
            | Some f => Z.of_nat (length (f_left f) + 1 + length (f_right f)) < mc
            | None => True
            end
}.

Lemma rep_key_length G keys children (k : nat) key i : holds G i (InnerBody keys children) -> keys !! k = Some key -> zlen key = key_size cfg.
Proof. intros (b & _ & _ & Hok) Hk. by eapply internal_key_length. Qed.

Lemma insert_at_map {X Y} (f : X -> Y) (pl pr : list X) x y :
  insert_at (S (length pl)) (f y) (map f (pl ++ x :: pr)) = map f pl ++ f x :: f y :: map f pr.
Proof.
  unfold insert_at. rewrite map_app. cbn [map].
  replace (S (length pl)) with (length (map f pl ++ [f x])) by (rewrite length_app, length_map; cbn; lia).
  replace (map f pl ++ f x :: map f pr) with ((map f pl ++ [f x]) ++ map f pr) by by rewrite <- app_assoc.
  rewrite take_app_length, drop_app_length. by rewrite <- app_assoc.
Qed.

Lemma split_child_rep anc G H' fs0 p pk pl pr i j keys l c0 r sk b1 b2 b3 :
  let tr := plug (fs0 ++ [Frame p pk pl pr]) (Inner i keys (l ++ c0 :: r)) in
  let tr' := split_tree fs0 p pk pl pr i j keys l c0 r left_count sk in
  let children := l ++ c0 :: r in
  tree_rep anc G H' tr -> G !! j = None -> zlen children = mc -> keys !! (left_count - 1)%nat = Some sk ->
  body_ok b1 (InnerBody (take (left_count - 1) keys) (map node_id (take left_count children))) ->
  body_ok b2 (InnerBody (drop left_count keys) (map node_id (drop left_count children))) ->
  body_ok b3 (InnerBody (insert_at (length pl) sk pk) (map node_id pl ++ i :: j :: map node_id pr)) ->
  let G' := <[p := b3]> (<[j := b2]> (<[i := b1]> G)) in
  tree_rep (more_inner 1 anc) G' H' tr' /\ keeps G (ids tr) G' (ids tr').
Proof.
  intros tr tr' children Hrep Hj Hlen Hsk H1' H2' H3' G'. subst children. destruct left_count_bounds as [Hlc Hlc'].
  pose proof (unsplit_blocks fs0 p pk pl pr i keys l c0 r) as Hold. fold tr in Hold.
  pose proof (split_tree_blocks fs0 p pk pl pr i j keys l c0 r left_count sk) as Hnew. fold tr' in Hnew.
  set (L := split_rest fs0 p pl pr l c0 r) in *. destruct Hrep as [Rs Rst Rnd Rh Rr Rsz Rl Rri Rle Rin].
  assert (NoDup (p :: i :: L.*1)) as Hnd by (unfold ids in Rnd; rewrite Hold in Rnd; done).
  assert (stored G L) as HsL by (apply (stored_perm _ _ _ _ _ Hold), Forall_cons in Rst as [_ Rst]; by apply Forall_cons in Rst as [_ Rst]).
  assert (j ∉ p :: i :: L.*1) as Hjn.
  { pose proof (stored_fresh _ _ _ _ _ Rst Hj) as Hf. by rewrite Hold in Hf. }
  assert (NoDup (p :: i :: j :: L.*1)) as Hnd'.
  { assert (p :: i :: j :: L.*1 ≡ₚ j :: p :: i :: L.*1) as -> by (rewrite (perm_swap j i), perm_swap; done). by constructor. }
  split.
  - split; try done.
    + apply split_tree_shape; try done; lia.
    + eapply stored_perm; [symmetry; exact Hnew|]. by apply stored_split.
    + unfold ids. by rewrite Hnew.
    + cbn. rewrite Rr. unfold tr, tr', split_tree. rewrite plug_app, !node_id_plug. done.
    + cbn. rewrite Rsz. unfold tr'. by rewrite split_tree_contents.
    + unfold tr'. by rewrite split_tree_leaf_ids.
    + unfold tr'. by rewrite split_tree_leaf_ids.
    + cbn. rewrite Rle. unfold tr'. by rewrite split_tree_leaf_ids.
    + cbn. rewrite Rin, inner_count_more. assert (leaf_ids tr' = leaf_ids tr) as -> by apply split_tree_leaf_ids.
      f_equal. rewrite (Permutation_length Hold), (Permutation_length Hnew). cbn [length]. lia.
  - intros k b Hk Hnk. unfold ids in Hnk. rewrite Hold in Hnk. cbn [fmap list_fmap fst] in Hnk.
    apply not_elem_of_cons in Hnk as [Hkp Hnk]. apply not_elem_of_cons in Hnk as [Hki Hnk].
    assert (k <> j) as Hkj by congruence. split.
    + unfold G'. by rewrite !lookup_insert_ne by done.
    + unfold ids. rewrite Hnew. cbn [fmap list_fmap fst]. by rewrite !not_elem_of_cons.
Qed.

Lemma holds_dom G i x : holds G i x -> i ∈ dom G.
Proof. intros (b & Hb & _). by apply elem_of_dom_2 in Hb. Qed.

(** The parent of the split node is not the root. *)
Lemma split_child_step anc cs pos G n t fs0 p pk pl pr i keys l c0 r h key id p0 :
  let fs := fs0 ++ [Frame p pk pl pr] in
  let tr := plug fs (Inner i keys (l ++ c0 :: r)) in
  st anc cs G (n + 1) t -> 0 <= n -> tree_rep anc G (length fs + S h) tr ->
  rel (seek_rel tr id (seeker (entries fs ++ [(i, zlen l)]))) cs pos -> find_cursor id pos = Some p0 ->
  zlen (l ++ c0 :: r) = mc -> Z.of_nat (length pl + 1 + length pr) < mc ->
  bounded key_less (lo_at (hole_lo None fs) keys (length l)) (hi_at keys (hole_hi None fs) (length l)) key ->
  wp (split_full (Z.of_nat (S h)) i id) t (fun _ t' => exists anc' cs' G' tr' fs',
    seeking anc' cs' pos G' n tr' id fs' c0 h key t' /\ fs' <> [] /\ cs'.*1 = cs.*1 /\ contents tr' = contents tr /\
    keeps G (ids tr) G' (ids tr')).
Proof.
  intros fs tr Hst Hn Hrep Hrel Hid Hlen Hpl Hkey. destruct left_count_bounds as [Hlc Hlc'].
  pose proof (unsplit_blocks fs0 p pk pl pr i keys l c0 r) as Hold. fold fs tr in Hold.
  assert (stored G (blocks_of tr)) as Hs by apply Hrep.
  pose proof Hs as Hs0. apply (stored_perm _ _ _ _ _ Hold) in Hs0. apply Forall_cons in Hs0 as [Hp Hs0]. apply Forall_cons in Hs0 as [Hi _].
  cbn [fst snd] in Hp, Hi.
  assert (NoDup (ids tr)) as Hnd by apply Hrep.
  assert (p <> i) as Hpi.
  { unfold ids in Hnd. rewrite Hold in Hnd. cbn [fmap list_fmap fst] in Hnd. apply NoDup_cons in Hnd as [Hpn _]. by apply not_elem_of_cons in Hpn as [? _]. }
  pose proof (tree_bounds _ _ _ _ _ _ _ _ _ Hst Hs Hnd (tr_shape _ _ _ _ _ _ _ _ Hrep)) as (_ & _ & Hh64).
  assert (length fs = S (length fs0)) as Hlfs by (unfold fs; rewrite length_app; cbn; lia).
  assert (length (map node_id (l ++ c0 :: r)) = length (l ++ c0 :: r)) as Hlm by apply length_map.
  unfold split_full. wp_step. apply (split_spec _ _ _ _ _ _ _ _ _ Hst Hn Hi); [lia|].
  intros j sk b1 b2 t1 Hj Hsk Hb1 Hb2 Hst1. cbn [fst snd]. rewrite firstn_map in Hb1. rewrite skipn_map in Hb2.
  destruct (rel_find _ _ _ _ _ Hrel Hid) as (c & Hc & Hcr). unfold seek_rel in Hcr. rewrite decide_True in Hcr by done. subst c.
  wp_step. apply (get_cursor_spec _ _ _ _ _ _ _ _ _ _ Hst1 Hc). cbn [m_parents seeker].
  assert (zlen (entries fs ++ [(i, zlen l)]) = Z.of_nat (length fs0 + 2)) as Hpl2 by (rewrite length_app, length_entries; cbn; lia).
  rewrite Hpl2. destruct (Z.eqb_spec (Z.of_nat (length fs0 + 2)) 1); [lia|].
  replace (Z.of_nat (length fs0 + 2) - 2) with (Z.of_nat (length fs0)) by lia. wp_step.
  apply (entry_at_spec _ _ _ _ _ _ _ (p, zlen pl) _ Hst1).
  { cbn [m_parents seeker]. unfold fs. rewrite entries_app, <- app_assoc. rewrite <- (length_entries fs0). by apply list_lookup_middle. }
  cbn [fst snd].
  set (G1 := <[j := b2]> (<[i := b1]> G)) in *.
  assert (holds G1 p (InnerBody pk (map node_id pl ++ i :: map node_id pr))) as Hp1.
  { apply holds_ne; [intros ->; destruct Hp as (? & ? & _); congruence|]. by apply holds_ne. }
  assert (zlen (map node_id pl ++ i :: map node_id pr) = Z.of_nat (length pl + 1 + length pr)) as Hlp
    by (rewrite length_app; cbn [length]; rewrite !length_map; lia).
  assert ((map node_id pl ++ i :: map node_id pr) !! length pl = Some i) as Hli
    by (rewrite <- (length_map node_id pl); by apply list_lookup_middle).
  wp_step. apply (child_count_spec _ _ _ _ _ _ _ _ _ _ _ Hst1 Hp1). intros t2 Hst2. wp_step.
  apply (get_config_spec _ _ _ _ _ _ _ _ Hst2). rewrite Hlp. wp_step. wp_step; [by apply Z.ltb_lt|]. wp_step.
  apply (get_child_spec _ _ _ _ _ _ _ _ _ _ _ _ _ Hst2 Hp1 Hli). intros t3 Hst3. wp_step. wp_step. wp_step.
  destruct (holds_inner _ _ _ _ _ _ Hp) as (Hlpk & _ & Hm). rewrite (wrap_small 32 (zlen pl + 1)) by (split; lia).
  replace (zlen pl + 1) with (Z.of_nat (S (length pl))) by lia.
  assert (j ∈ dom G1) as Hjd by (unfold G1; rewrite dom_insert_L; set_solver +).
  apply (insert_split_result_spec _ _ _ _ _ _ _ _ (S (length pl)) _ _ _ Hst3 Hp1); [rewrite length_app; cbn [length]; rewrite !length_map; lia|lia| | |].
  { exact (rep_key_length _ _ _ _ _ _ Hi Hsk). }
  { by apply (st_index _ _ _ _ _ _ _ j Hst3). }
  intros b3 t4 Hb3 Hst4.
  replace (map node_id pl ++ i :: map node_id pr) with (map node_id (pl ++ Inner i keys (l ++ c0 :: r) :: pr)) in Hb3 by by rewrite map_app.
  change j with (node_id (Inner j [] [])) in Hb3. rewrite insert_at_map in Hb3. cbn [node_id] in Hb3.
  replace (S (length pl) - 1)%nat with (length pl) in Hb3 by lia.
  destruct (split_child_rep anc G (length fs + S h) fs0 p pk pl pr i j keys l c0 r sk b1 b2 b3) as [Hrep' Hkeep]; try done.
  assert (length keys = length (l ++ c0 :: r) - 1)%nat as Hlk by (destruct (holds_inner _ _ _ _ _ _ Hi) as (-> & _); lia).
  assert (length pk = length (pl ++ Inner i keys (l ++ c0 :: r) :: pr) - 1)%nat as Hlpk'.
  { rewrite Hlpk, !length_app. cbn [length]. rewrite !length_map. done. }
  eapply (apply_child_split_spec fs0 p pk pl pr i j keys l c0 r left_count sk); [| | |exact Hst4|..].
  - lia.
  - lia.
  - exact Hnd.
  - cbn. rewrite (tr_height _ _ _ _ _ _ _ _ Hrep). lia.
  - lia.
  - replace (length fs0 + 1 + S h)%nat with (length fs + S h)%nat by lia. apply Hrep.
  - by apply holds_eq.
  - rewrite <- (length_map node_id pl). by apply list_lookup_middle.
  - replace (S (length pl)) with (length (map node_id pl ++ [i])) by (rewrite length_app, length_map; cbn; lia).
    replace (map node_id pl ++ i :: j :: map node_id pr) with ((map node_id pl ++ [i]) ++ j :: map node_id pr) by by rewrite <- app_assoc.
    by apply list_lookup_middle.
  - apply holds_ne; [done|]. apply holds_ne; [intros ->; destruct Hi as (? & ? & _); congruence|]. by apply holds_eq.
  - intros ps s pre post. by apply (path_bound G).
  - eapply rel_mono; [|exact Hrel]. unfold fs. rewrite entries_app, <- app_assoc. done.
  - intros cs' t' Hrel' Hks Hst'. eexists _, cs', _, _, (split_frames fs0 p pk pl pr i j keys l c0 r left_count sk).
    split_and!; [|by destruct fs0|done|apply split_tree_contents|exact Hkeep].
    assert (length (split_frames fs0 p pk pl pr i j keys l c0 r left_count sk) = S (length fs)) as Hlsf
      by (unfold split_frames; rewrite length_app; cbn; lia).
    destruct (split_frames_hole fs0 p pk pl pr i j keys l c0 r left_count sk ltac:(lia) ltac:(lia) Hsk None None) as [Hlo Hhi].
    { rewrite Hlpk', length_app. cbn [length]. lia. }
    { rewrite Hlk, length_app. cbn [length]. lia. }
    split; [exact Hst'| |by rewrite split_frames_plug|exact Hrel'| |].
    + rewrite Hlsf. replace (S (length fs) + h)%nat with (length fs + S h)%nat by lia. exact Hrep'.
    + rewrite Hlo, Hhi. unfold fs in Hkey. rewrite hole_lo_app, hole_hi_app in Hkey. exact Hkey.
    + unfold split_frames. rewrite last_app. cbn [last].
      pose proof (part_count i j keys l c0 r left_count ltac:(lia) ltac:(lia)). lia.
Qed.

(** The split node is the root: [R] becomes its parent. *)
Section root_split.
Context (R i j : Z) (keys : list bytes) (l : list node) (c0 : node) (r : list node) (sk : bytes).
Let children := l ++ c0 :: r.
Let tr := Inner i keys children.
Let tr0 := plug ([] ++ [Frame R [] [] []]) tr.
Let tr' := split_tree [] R [] [] [] i j keys l c0 r left_count sk.

Lemma root_split_path ps s pre post : NoDup (R :: ids tr) -> at_sub tr ps s pre post -> ps <> [] ->
  exists (y : nat) ps', ps = (i, Z.of_nat y) :: ps' /\
    at_sub tr' (if decide (y < left_count)%nat then (R, 0) :: ps else (R, 1) :: (j, Z.of_nat (y - left_count)) :: ps') s pre post.
Proof.
  intros Hnd Hs Hne.
  assert (at_sub tr0 ((R, 0) :: ps) s pre post) as Hs0.
  { replace pre with (all_contents [] ++ pre) by done. replace post with (post ++ all_contents []) by by rewrite app_nil_r.
    unfold tr0. cbn [app plug f_id f_keys f_left f_right]. change (R, 0) with (R, zlen (@nil node)). by apply (at_down R [] [] tr []). }
  assert (ids tr0 = R :: ids tr) as Hids.
  { unfold tr0. cbn [app plug f_id f_keys f_left f_right]. rewrite ids_inner. cbn. by rewrite app_nil_r. }
  rewrite <- Hids in Hnd.
  destruct (split_tree_paths [] R [] [] [] i j keys l c0 r left_count sk _ _ _ _ Hnd Hs0) as
    [[Hn _]|(y & ps' & Heq & Hy & Hs')]; [destruct ps; [done|cbn; lia]|by destruct Hn|].
  cbn [entries map app] in Heq, Hs'. injection Heq as ->. exists y, ps'. split; [done|]. by case_decide.
Qed.

Lemma root_split_cursor_spec anc cs G n t c s pre post :
  st anc cs G n t -> NoDup (R :: ids tr) -> at_sub tr (m_parents c) s pre post -> m_parents c <> [] ->
  Forall (fun e => 0 <= e.2 < 2 ^ 31) (m_parents c) -> c_invalid c = false ->
  wp (root_split_cursor R i j (Z.of_nat left_count) c) t (fun c' t' => st anc cs G n t' /\
    exists (y : nat) ps', m_parents c = (i, Z.of_nat y) :: ps' /\
      c' = set_parents (if decide (y < left_count)%nat then (R, 0) :: m_parents c
                        else (R, 1) :: (j, Z.of_nat (y - left_count)) :: ps') c).
Proof.
  intros Hst Hnd Hs Hne Hb Hv. destruct (root_split_path _ _ _ _ Hnd Hs Hne) as (y & ps' & Hps & _).
  unfold root_split_cursor. rewrite Hv, Hps in *. apply Forall_cons in Hb as [Hy _]. cbn [snd] in Hy. wp_step. wp_step.
  destruct (Z.leb_spec (Z.of_nat left_count) (Z.of_nat y)); wp_step; (split; [done|]); exists y, ps'; (split; [done|]).
  - rewrite decide_False by lia. rewrite wrap_small by (split; lia). do 4 f_equal. lia.
  - by rewrite decide_True by lia.
Qed.

Context (Hlen : zlen children = mc) (Hsk : keys !! (left_count - 1)%nat = Some sk).

Lemma split_root_rep anc G h b1 b2 b3 :
  tree_rep anc G (S h) tr -> Z.of_nat h < 64 -> G !! j = None -> G !! R = None -> j <> R ->
  body_ok b1 (InnerBody (take (left_count - 1) keys) (map node_id (take left_count children))) ->
  body_ok b2 (InnerBody (drop left_count keys) (map node_id (drop left_count children))) ->
  body_ok b3 (InnerBody [sk] [i; j]) ->
  let G' := <[R := b3]> (<[j := b2]> (<[i := b1]> G)) in
  tree_rep (grown R (more_inner 1 anc)) G' (S (S h)) tr' /\ keeps G (ids tr) G' (ids tr').
Proof.
  intros Hrep Hh Hj HR HjR H1' H2' H3' G'. destruct left_count_bounds as [Hlc Hlc'].
  pose proof (split_tree_blocks [] R [] [] [] i j keys l c0 r left_count sk) as Hnew. fold tr' in Hnew.
  assert (split_rest [] R [] [] l c0 r = all_blocks children) as HL by done. rewrite HL in Hnew. cbn [map app length] in Hnew.
  change (insert_at 0 sk []) with [sk] in Hnew.
  assert (leaf_ids tr' = leaf_ids tr) as Hli.
  { unfold tr'. rewrite (split_tree_leaf_ids [] R [] [] []). cbn. by rewrite app_nil_r. }
  assert (contents tr' = contents tr) as Hct.
  { unfold tr'. rewrite (split_tree_contents [] R [] [] []). cbn. by rewrite app_nil_r. }
  destruct Hrep as [Rs Rst Rnd Rh Rr Rsz Rl Rri Rle Rin].
  assert (stored G (all_blocks children)) as HsL by by apply stored_inner in Rst as [_ ?].
  assert (forall k, G !! k = None -> k ∉ i :: (all_blocks children).*1) as Hfr.
  { intros k Hk. pose proof (stored_fresh _ _ _ _ _ Rst Hk) as Hf. by unfold tr in Hf. }
  assert (NoDup (R :: i :: j :: (all_blocks children).*1)) as Hnd'.
  { assert (R :: i :: j :: (all_blocks children).*1 ≡ₚ R :: j :: i :: (all_blocks children).*1) as -> by (by rewrite (perm_swap j i)).
    constructor; [|constructor; [by apply Hfr|done]]. apply not_elem_of_cons. split; [done|by apply Hfr]. }
  split.
  - split.
    + destruct (split_shape i j keys l c0 r left_count sk ltac:(lia) ltac:(fold children; lia) Hsk derive_key key_less h None None Rs) as (Hk & S1 & S2).
      cbn. split; [lia|done].
    + eapply stored_perm; [symmetry; exact Hnew|]. by apply stored_split.
    + unfold ids. by rewrite Hnew.
    + cbn. rewrite Rh. rewrite wrap_small by (split; lia). lia.
    + done.
    + rewrite Hct. exact Rsz.
    + by rewrite Hli.
    + by rewrite Hli.
    + rewrite Hli. exact Rle.
    + cbn [internal_nodes grown more_inner]. rewrite Rin, !inner_count_more, <- Z.add_assoc, inner_count_more, Hli, (Permutation_length Hnew).
      assert (length (blocks_of tr) = S (length (all_blocks children))) as -> by done. cbn [length]. f_equal. lia.
  - intros k b Hk Hnk. unfold tr in Hnk. rewrite ids_inner in Hnk. apply not_elem_of_cons in Hnk as [Hki Hnk].
    assert (k <> j) as Hkj by congruence. assert (k <> R) as HkR by congruence. split.
    + unfold G'. by rewrite !lookup_insert_ne by done.
    + unfold ids. rewrite Hnew. cbn [fmap list_fmap fst]. by rewrite !not_elem_of_cons.
Qed.
End root_split.

Lemma split_root_step anc cs pos G n t i keys l c0 r h key id p0 :
  let tr := Inner i keys (l ++ c0 :: r) in
  st anc cs G (n + 2) t -> 0 <= n -> tree_rep anc G (S h) tr ->
  rel (seek_rel tr id (seeker [(i, zlen l)])) cs pos -> find_cursor id pos = Some p0 ->
  zlen (l ++ c0 :: r) = mc -> bounded key_less (lo_at None keys (length l)) (hi_at keys None (length l)) key ->
  wp (split_full (Z.of_nat (S h)) i id) t (fun _ t' => exists anc' cs' G' tr' fs',
    seeking anc' cs' pos G' n tr' id fs' c0 h key t' /\ fs' <> [] /\ cs'.*1 = cs.*1 /\ contents tr' = contents tr /\
    keeps G (ids tr) G' (ids tr')).
Proof.
  intros tr Hst Hn Hrep Hrel Hid Hlen Hkey. destruct left_count_bounds as [Hlc Hlc'].
  assert (stored G (blocks_of tr)) as Hs by apply Hrep. pose proof Hs as Hi. apply stored_inner in Hi as [Hi _].
  assert (NoDup (ids tr)) as Hnd by apply Hrep.
  pose proof (tree_bounds _ _ _ _ _ _ _ _ _ Hst Hs Hnd (tr_shape _ _ _ _ _ _ _ _ Hrep)) as (_ & _ & Hh64).
  assert (length (map node_id (l ++ c0 :: r)) = length (l ++ c0 :: r)) as Hlm by apply length_map.
  unfold split_full. wp_step. replace (n + 2) with (n + 1 + 1) in Hst by lia.
  apply (split_spec _ _ _ (n + 1) _ _ _ _ _ Hst ltac:(lia) Hi); [lia|].
  intros j sk b1 b2 t1 Hj Hsk Hb1 Hb2 Hst1. cbn [fst snd]. rewrite firstn_map in Hb1. rewrite skipn_map in Hb2.
  destruct (rel_find _ _ _ _ _ Hrel Hid) as (c & Hc & Hcr). unfold seek_rel in Hcr. rewrite decide_True in Hcr by done. subst c.
  wp_step. apply (get_cursor_spec _ _ _ _ _ _ _ _ _ _ Hst1 Hc). cbn [m_parents seeker length].
  change (Z.of_nat 1 =? 1) with true. cbn iota. wp_step.
  set (G1 := <[j := b2]> (<[i := b1]> G)) in *.
  assert (j ∈ dom G1) as Hjd by (unfold G1; rewrite dom_insert_L; set_solver +).
  assert (i ∈ dom G1) as Hid1 by (unfold G1; rewrite !dom_insert_L; set_solver +).
  apply (create_root_spec _ _ _ _ _ _ _ _ _ Hst1 Hn); [by apply (st_index _ _ _ _ _ _ _ i Hst1)|by apply (st_index _ _ _ _ _ _ _ j Hst1)| |].
  { exact (rep_key_length _ _ _ _ _ _ Hi Hsk). }
  intros R b3 t2 HR Hb3 Hst2.
  assert (G !! R = None /\ j <> R /\ i <> R) as (HRG & HjR & HiR).
  { unfold G1 in HR. apply lookup_insert_None in HR as [HR HjR]. by apply lookup_insert_None in HR as [HR HiR]. }
  destruct (split_root_rep R i j keys l c0 r sk Hlen Hsk anc G h b1 b2 b3) as [Hrep' Hkeep]; try done; [lia|].
  assert (NoDup (R :: ids tr)) as HndR by (constructor; [by eapply stored_fresh|done]).
  assert (i <> j) as Hij by (intros ->; destruct Hi as (? & ? & _); congruence).
  assert (length keys = length (l ++ c0 :: r) - 1)%nat as Hlk by (destruct (holds_inner _ _ _ _ _ _ Hi) as (-> & _); lia).
  unfold apply_root_split. wp_step.
  apply (child_count_spec _ _ _ _ _ _ _ i (take (left_count - 1) keys) (map node_id (take left_count (l ++ c0 :: r))) _ Hst2).
  { apply holds_ne; [done|]. apply holds_ne; [done|]. by apply holds_eq. }
  rewrite length_map, length_take_le by lia. intros t3 Hst3.
  set (tr' := split_tree [] R [] [] [] i j keys l c0 r left_count sk) in *.
  set (fs' := split_frames [] R [] [] [] i j keys l c0 r left_count sk).
  eapply (for_cursors_spec _ (seek_rel tr' id (seeker (entries fs')))); [exact Hst3|exact Hrel| |].
  - clear t t1 t2 t3 Hst Hst1 Hst2 Hst3. intros k c q t Hcur Hst. unfold seek_rel in *. case_decide as Hk.
    + subst c. eapply wp_mono.
      { eapply (root_split_cursor_spec R i j keys l c0 r sk _ _ _ _ t (seeker [(i, zlen l)]) c0); [exact Hst|done| |done| |done].
        - exact (at_sub_plug [Frame i keys l r] c0).
        - eapply (path_bound G); [exact Hs|]. exact (at_sub_plug [Frame i keys l r] c0). }
      cbn beta. intros c' t' (Hst' & y & ps' & Heq & ->). split; [|done]. cbn [m_parents seeker] in Heq. injection Heq as Hy <-.
      assert (y = length l) as -> by lia. unfold fs'. rewrite split_frames_entries. cbn [entries map app].
      unfold seeker. cbn [m_parents set_parents m_leaf m_index c_invalid c_deleted c_inprogress length]. by case_decide.
    + destruct (c_invalid c) eqn:Hv.
      { unfold root_split_cursor. rewrite Hv. wp_step. split; [|done]. by eapply cursor_invalid. }
      destruct (cursor_path _ _ _ _ (tr_shape _ _ _ _ _ _ _ _ Hrep) Hcur Hv) as (s & pre & post & Hsub & Hl & Hnew).
      assert (m_parents c <> []) as Hne by (intros E; rewrite E in Hl; done).
      eapply wp_mono.
      { eapply (root_split_cursor_spec R i j keys l c0 r sk _ _ _ _ t c s pre post); [exact Hst|done|done|done| |done]. by eapply (path_bound G). }
      cbn beta. intros c' t' (Hst' & y & ps' & Heq & ->). split; [|done]. apply Hnew.
      destruct (root_split_path R i j keys l c0 r sk _ _ _ _ HndR Hsub Hne) as (y' & ps2 & Heq' & Hsub').
      rewrite Heq in Heq'. injection Heq' as Hy <-. assert (y' = y) as -> by lia. exact Hsub'.
  - intros cs' t' Hrel' Hks Hst'. exists (grown R (more_inner 1 anc)), cs', (<[R := b3]> G1), tr', fs'.
    split_and!; [|done|done| |exact Hkeep].
    2: { unfold tr'. rewrite (split_tree_contents [] R [] [] []). cbn. by rewrite app_nil_r. }
    destruct (split_frames_hole [] R [] [] [] i j keys l c0 r left_count sk ltac:(lia) ltac:(lia) Hsk None None) as [Hlo Hhi].
    { done. }
    { rewrite Hlk, length_app. cbn [length]. lia. }
    fold fs' in Hlo, Hhi. split; [exact Hst'|exact Hrep'|symmetry; apply split_frames_plug|exact Hrel'| |].
    + rewrite Hlo, Hhi. exact Hkey.
    + unfold fs', split_frames. cbn [app last]. pose proof (part_count i j keys l c0 r left_count ltac:(lia) ltac:(lia)). lia.
Qed.

Lemma cut_bounded lo hi keys key k : bounded key_less lo hi key -> cut (is_before key_less seek_bound_lower key) keys k ->
  bounded key_less (lo_at lo keys k) (hi_at keys hi k) key.
Proof.
  intros [Hlo Hhi] Hcut. split.
  - destruct k as [|k]; [done|]. cbn [lo_at]. destruct (keys !! k) as [x|] eqn:E; [|done].
    apply (cut_lookup _ _ _ _ _ Hcut E). lia.
  - unfold hi_at. destruct (keys !! k) as [x|] eqn:E; [|done]. cbn [below].
    apply (not_before_le key_less seek_bound_lower). intros Hb. apply (cut_lookup _ _ _ _ _ Hcut E) in Hb. lia.
Qed.

Lemma plug_snoc fs i keys l c0 r : plug fs (Inner i keys (l ++ c0 :: r)) = plug (fs ++ [Frame i keys l r]) c0.
Proof. by rewrite plug_app. Qed.

Lemma last_frame_holds G fs f c : stored G (blocks_of (plug (fs ++ [f]) c)) ->
  holds G (f_id f) (InnerBody (f_keys f) (map node_id (f_left f ++ c :: f_right f))).
Proof.
  rewrite plug_app. intros Hs. apply (stored_perm _ _ _ _ _ (plug_blocks fs (plug [f] c))) in Hs.
  apply stored_app in Hs as [_ Hs]. by apply stored_inner in Hs as [Hs _].
Qed.

(** The blocks that an insertion may need. *)
Definition budget (h : nat) (fs : list frame) : Z := Z.of_nat h + (if fs is [] then 1 else 0) + 1.

(** One level of the descent. *)
Lemma seek_level {X} anc cs pos G n tr fs i keys children h key id p0 t (K : M T X) (Q : X -> T -> Prop) :
  seeking anc cs pos G (n + budget (S h) fs) tr id fs (Inner i keys children) (S h) key t -> 0 <= n ->
  find_cursor id pos = Some p0 ->
  (forall anc' cs' G' tr' fs' c' t',
     seeking anc' cs' pos G' (n + budget h fs') tr' id fs' c' h key t' -> fs' <> [] -> cs'.*1 = cs.*1 ->
     contents tr' = contents tr -> keeps G (ids tr) G' (ids tr') -> wp K t' Q) ->
  wp (let* index := lower_bound_internal key_less i key in
      mod_cursor id (fun c => set_parents (m_parents c ++ [(i, index)]) c) ;;;
      let* k := child_count i in
      let* cfg := get_config in
      (if k =? internal_max_children cfg then split_full (Z.of_nat (S h)) i id else ret tt) ;;; K) t Q.
Proof.
  intros Hsk Hn Hid HQ. destruct Hsk as [Hst Hrep -> Hrel Hkey Hfull].
  assert (stored G (blocks_of (plug fs (Inner i keys children)))) as Hs by apply Hrep.
  assert (stored G (blocks_of (Inner i keys children))) as Hsi.
  { apply (stored_perm _ _ _ _ _ (plug_blocks fs (Inner i keys children))) in Hs. by apply stored_app in Hs as [_ Hs]. }
  apply stored_inner in Hsi as [Hi _].
  destruct (plug_shape _ _ _ _ _ _ _ (tr_shape _ _ _ _ _ _ _ _ Hrep)) as (h' & Hh' & Hshi & _).
  assert (h' = S h) as -> by lia. destruct Hshi as [Hlen2 Hch].
  assert (exists k, cut (is_before key_less seek_bound_lower key) keys k) as [k Hk].
  { apply (cut_exists (lt key_less)); [|by eapply chain_keys_sorted|].
    - intros x. unfold is_before. apply _.
    - intros x y Hxy. by apply is_before_le, lt_le. }
  pose proof (cut_bounded _ _ _ _ _ Hkey Hk) as Hkey'.
  pose proof (chain_length _ _ _ _ _ _ Hch) as Hlk.
  destruct (children !! k) as [c0|] eqn:Hck; [|apply lookup_ge_None in Hck; destruct Hk as [Hk _]; lia].
  wp_step. eapply (bound_internal_spec key_less cfg bs seek_bound_lower); [exact Hst|exact Hi|by rewrite length_map|exact Hk|].
  intros t1 Hst1. wp_step.
  destruct (rel_find _ _ _ _ _ Hrel Hid) as (c & Hc & Hcr). unfold seek_rel in Hcr. rewrite decide_True in Hcr by done. subst c.
  apply (mod_cursor_spec _ _ _ _ _ _ _ _ _ _ _ Hst1 Hc). intros t2 Hst2. wp_step.
  apply (child_count_spec _ _ _ _ _ _ _ _ _ _ _ Hst2 Hi). intros t3 Hst3. wp_step.
  apply (get_config_spec _ _ _ _ _ _ _ _ Hst3). rewrite length_map. wp_step.
  apply list_elem_of_split_length in Hck as (l & r & -> & ->).
  change (set_parents (m_parents (seeker (entries fs)) ++ [(i, zlen l)]) (seeker (entries fs)))
    with (seeker (entries fs ++ [(i, zlen l)])) in Hst3.
  set (cs1 := update_cursor id (seeker (entries fs ++ [(i, zlen l)])) cs) in *.
  assert (rel (seek_rel (plug fs (Inner i keys (l ++ c0 :: r))) id (seeker (entries fs ++ [(i, zlen l)]))) cs1 pos) as Hrel1.
  { eapply rel_update; [| |exact Hrel]; unfold seek_rel.
    - intros a c q Ha. by rewrite !decide_False.
    - intros c q _. by rewrite decide_True. }
  assert (cs1.*1 = cs.*1) as Hks by apply update_keys.
  destruct (holds_inner _ _ _ _ _ _ Hi) as (_ & Hmc & _). rewrite length_map in Hmc.
  destruct (Z.eqb_spec (zlen (l ++ c0 :: r)) mc) as [Heq|Hne].
  - destruct fs as [|f fs _] using rev_ind.
    + unfold budget in Hst3. eapply wp_mono.
      { eapply (split_root_step anc cs1 pos G (n + budget h [Frame 0 [] [] []])); try done.
        eapply st_weaken; [exact Hst3|]. unfold budget. lia. unfold budget. lia. }
      cbn beta. intros _ t4 (anc' & cs' & G' & tr' & fs' & Hsk' & Hne' & Hks' & Hct' & Hkp'). eapply HQ; [|done|by rewrite Hks', Hks|done|done].
      unfold budget in *. by destruct fs'.
    + destruct f as [p pk pl pr]. rewrite last_snoc in Hfull. cbn [f_left f_right] in Hfull.
      unfold budget in Hst3. destruct (fs ++ [Frame p pk pl pr]) eqn:E; [by apply app_eq_nil in E as [_ ?]|]. rewrite <- E in *. clear E.
      eapply wp_mono.
      { eapply (split_child_step anc cs1 pos G (n + budget h [Frame 0 [] [] []]) t3 fs p pk pl pr i keys l c0 r h key id); try done.
        eapply st_weaken; [exact Hst3|]. unfold budget. lia. unfold budget. lia. }
      cbn beta. intros _ t4 (anc' & cs' & G' & tr' & fs' & Hsk' & Hne' & Hks' & Hct' & Hkp'). eapply HQ; [|done|by rewrite Hks', Hks|done|done].
      unfold budget in *. by destruct fs'.
  - wp_step. apply (HQ anc cs1 G (plug fs (Inner i keys (l ++ c0 :: r))) (fs ++ [Frame i keys l r]) c0); try done.
    2: { by destruct fs. }
    split.
    + eapply st_weaken; [exact Hst3|]. unfold budget. destruct fs; cbn; lia.
    + rewrite length_app. cbn [length]. by replace (length fs + 1 + h)%nat with (length fs + S h)%nat by lia.
    + apply plug_snoc.
    + rewrite entries_app. exact Hrel1.
    + rewrite hole_lo_app, hole_hi_app. exact Hkey'.
    + rewrite last_snoc. cbn [f_left f_right]. rewrite length_app in *. cbn [length] in *. lia.
Qed.

Lemma seek_insert_loop_spec h : forall anc cs pos G n tr fs c key id p0 t (Q : Z -> T -> Prop),
  seeking anc cs pos G (n + budget h fs) tr id fs c h key t -> 0 <= n -> find_cursor id pos = Some p0 ->
  (forall anc' cs' G' tr' fs' leaf vals t',
     seeking anc' cs' pos G' (n + budget 0 fs') tr' id fs' (Leaf leaf vals) 0 key t' -> cs'.*1 = cs.*1 ->
     contents tr' = contents tr -> keeps G (ids tr) G' (ids tr') -> Q leaf t') ->
  wp (seek_insert_loop key_less h key id (node_id c)) t Q.
Proof.
  induction h as [|h IH]; intros anc cs pos G n tr fs c key id p0 t Q Hsk Hn Hid HQ; cbn [seek_insert_loop].
  - assert (exists leaf vals, c = Leaf leaf vals) as (leaf & vals & ->).
    { destruct Hsk as [_ Hrep -> _ _ _]. destruct (plug_shape _ _ _ _ _ _ _ (tr_shape _ _ _ _ _ _ _ _ Hrep)) as (h' & Hh' & Hs & _).
      assert (h' = 0)%nat as -> by lia. destruct c; [by eexists _, _|done]. }
    wp_step. by eapply HQ.
  - assert (exists i keys children, c = Inner i keys children) as (i & keys & children & ->).
    { destruct Hsk as [_ Hrep -> _ _ _]. destruct (plug_shape _ _ _ _ _ _ _ (tr_shape _ _ _ _ _ _ _ _ Hrep)) as (h' & Hh' & Hs & _).
      assert (h' = S h)%nat as -> by lia. destruct c; [done|by eexists _, _, _]. }
    wp_step. assert (holds G i (InnerBody keys (map node_id children))) as Hi.
    { destruct Hsk as [_ Hrep -> _ _ _]. pose proof (tr_stored _ _ _ _ _ _ _ _ Hrep) as Hs.
      apply (stored_perm _ _ _ _ _ (plug_blocks fs (Inner i keys children))) in Hs. apply stored_app in Hs as [_ Hs]. by apply stored_inner in Hs as [Hs _]. }
    apply (tree_read_internal_spec _ _ Hcfg _ _ _ _ _ _ _ _ (sk_st _ _ _ _ _ _ _ _ _ _ _ _ Hsk) Hi). intros t1 Hst1.
    assert (seeking anc cs pos G (n + budget (S h) fs) tr id fs (Inner i keys children) (S h) key t1) as Hsk1.
    { destruct Hsk. by split. }
    eapply (seek_level anc cs pos G n tr fs i keys children h key id p0 t1); [done..|].
    intros anc' cs' G' tr' fs' c' t2 Hsk2 Hne Hks Hct Hkp. pose proof Hsk2 as [Hst2 Hrep2 -> Hrel2 _ _].
    destruct (rel_find _ _ _ _ _ Hrel2 Hid) as (cur & Hc & Hcr). unfold seek_rel in Hcr. rewrite decide_True in Hcr by done. subst cur.
    wp_step. apply (get_cursor_spec _ _ _ _ _ _ _ _ _ _ Hst2 Hc).
    destruct fs' as [|f fs' _] using rev_ind; [done|]. unfold back_entry. cbn [m_parents seeker]. rewrite entries_app. change (entries [f]) with [entry f]. rewrite last_snoc.
    wp_step. wp_step. wp_step. cbn [entry fst snd].
    pose proof (last_frame_holds _ _ _ _ (tr_stored _ _ _ _ _ _ _ _ Hrep2)) as Hf.
    apply (get_child_spec _ _ _ _ _ _ _ _ _ _ (length (f_left f)) (node_id c') _ Hst2 Hf); [by rewrite list_lookup_fmap, list_lookup_middle|].
    intros t3 Hst3. eapply (IH anc' cs' pos G' n _ (fs' ++ [f]) c' key id p0 t3); [|done|done|].
    { destruct Hsk2. by split. }
    intros anc2 cs2 G2 tr2 fs2 leaf vals t4 Hsk4 Hks4 Hct4 Hkp4. eapply HQ; [exact Hsk4|by rewrite Hks4|by rewrite Hct4|by eapply keeps_trans].
Qed.
End insert.
End btree_insert.
