(* ===== verification/BTreeLeafInsert.v ===== *)
(** * Insertion into the leaves of a B+ tree

    The last step of an insertion, which adds the value to a leaf and splits
    the leaf if it is full, and the specification of [insert]. *)

From Stdlib Require Import Strings.Byte Sorting.Sorted.
From S2P Require Import Prelude MathOps Serialization Blocks EngineSpec FreeList Allocator Extent BTreeNodes BTree BTreeShape BTreeStore BTreeSearch BTreePaths BTreeSplit BTreeCursors BTreeInsert.

Module btree_leaf_insert.
Import btree btree_shape btree_store btree_search btree_paths btree_split btree_cursors btree_insert.

(** ** Positions after an insertion *)

(** The position [r] after the insertion of a value at [R].  A cursor whose
    value was erased may be on either side of a value inserted there. *)
Definition moved (deleted : bool) (R r r' : nat) : Prop :=
  if deleted then (r' = r /\ (r <= R)%nat) \/ (r' = S r /\ (R <= r)%nat)
  else r' = if decide (r < R)%nat then r else S r.
Definition shift_pos (R : nat) (p p' : position) : Prop :=
  match p with
  | At r => exists r', moved false R r r' /\ p' = At r'
  | Gap r => exists r', moved true R r r' /\ p' = Gap r'
  | _ => p' = p
  end.

Lemma shift_path R tr' (deleted : bool) c' r r' : on_path tr' deleted c' r' -> moved deleted R r r' ->
  exists p', shift_pos R (path_pos deleted r) p' /\ cursor_ok (Some tr') c' p'.
Proof.
  intros Hp Hm. exists (path_pos deleted r'). split; [destruct deleted; by exists r'|]. by apply cursor_ok_path.
Qed.

Lemma cursor_on_path tr c p : cursor_ok (Some tr) c p -> c_invalid c = false ->
  exists (deleted : bool) r, p = path_pos deleted r /\ on_path tr deleted c r.
Proof.
  destruct p as [|r|r|]; [by intros ->| | |by intros ->]; intros (tr0 & [= <-] & Hp) _; [by exists false, r|by exists true, r].
Qed.

Lemma rel_exists {P P'} (S : nat -> P -> P' -> Prop) (R : cursor -> P' -> Prop) cs pos :
  rel (fun i c p => exists p', S i p p' /\ R c p') cs pos ->
  exists pos', related R cs pos' /\ Forall2 (fun p p' => p.1 = p'.1 /\ S p.1 p.2 p'.2) pos pos'.
Proof.
  induction 1 as [|[i c] [j p] cs pos [Hij (p' & HS & HR)] _ (pos' & Hr & Hs)]; [by exists []; split; constructor|].
  cbn [fst snd] in *. subst j. exists ((i, p') :: pos'). split; by constructor.
Qed.

(** ** The values of the leaf *)

Section order.
Context (derive_key : bytes -> bytes) (key_less : bytes -> bytes -> bool) `{KeyOrder key_less}.
Abbreviation shape := (shape derive_key key_less).
Abbreviation sorted := (sorted derive_key key_less).
Abbreviation lt := (lt key_less).
Implicit Types (lo hi : option bytes) (vals : list bytes) (v value key : bytes).

Lemma insert_at_app (pre l post : list bytes) k v : (k <= length l)%nat ->
  insert_at (length pre + k) v (pre ++ l ++ post) = pre ++ insert_at k v l ++ post.
Proof.
  intros Hk. unfold insert_at. rewrite take_app_add, drop_app_add, take_app_le, drop_app_le by lia.
  by rewrite <- !app_assoc.
Qed.

(** The value is not in the leaf. *)
Lemma insert_shape i lo hi vals key value k :
  shape 0 lo hi (Leaf i vals) -> bounded key_less lo hi key -> key = derive_key value ->
  cut (fun v => is_before key_less seek_bound_lower key (derive_key v)) vals k ->
  (forall v, vals !! k = Some v -> value_equal_key derive_key key_less v key = false) ->
  shape 0 lo hi (Leaf i (insert_at k value vals)).
Proof.
  intros (Hne & Hs & Hr) Hb -> (Hk & Ht & Hd) Heq. cbn [btree_shape.shape]. unfold insert_at.
  split; [by destruct (take k vals)|]. rewrite <- (take_drop k vals) in Hs, Hr.
  apply sorted_app in Hs as (S1 & S2 & S3). apply Forall_app in Hr as [R1 R2].
  assert (Forall (fun v => lt (derive_key value) (derive_key v)) (drop k vals)) as Hgt.
  { destruct (drop k vals) as [|w l] eqn:E; [constructor|].
    assert (vals !! k = Some w) as Hw by (replace k with (k + 0)%nat by lia; by rewrite <- lookup_drop, E).
    apply Forall_cons in Hd as [Hnb _]. specialize (Heq w Hw).
    assert (lt (derive_key value) (derive_key w)) as Hlt.
    { unfold value_equal_key, key_equal in Heq. unfold is_before, before_b in Hnb.
      destruct (key_less (derive_key w) (derive_key value)) eqn:E1; [by destruct Hnb|]. cbn in Heq. rewrite andb_true_r in Heq.
      by apply negb_false_iff in Heq. }
    constructor; [done|]. apply StronglySorted_inv in S2 as [_ S2]. eapply Forall_impl; [exact S2|].
    intros v Hv. by eapply lt_trans. }
  split.
  - apply sorted_app. split_and!; [done|by constructor|]. intros v w Hv [->|Hw]%elem_of_cons.
    + by apply (proj1 (Forall_forall _ _) Ht).
    + by apply S3.
  - apply Forall_app. split; [done|]. by constructor.
Qed.

(** Both parts of a leaf that is split. *)
Lemma split_leaf_shape i j lo hi vals (mid : nat) v :
  shape 0 lo hi (Leaf i vals) -> (0 < mid < length vals)%nat -> vals !! (mid - 1)%nat = Some v ->
  inside key_less lo hi (derive_key v) /\ shape 0 lo (Some (derive_key v)) (Leaf i (take mid vals)) /\
  shape 0 (Some (derive_key v)) hi (Leaf j (drop mid vals)).
Proof.
  intros (Hne & Hs & Hr) Hmid Hv. destruct (vals !! mid) as [w|] eqn:Hw; [|apply lookup_ge_None in Hw; lia].
  rewrite <- (take_drop mid vals) in Hs, Hr. apply sorted_app in Hs as (S1 & S2 & S3). apply Forall_app in Hr as [R1 R2].
  assert (take mid vals = take (mid - 1) vals ++ [v]) as Htk.
  { replace mid with (S (mid - 1)) at 1 by lia. by apply take_S_r. }
  assert (v ∈ take mid vals) as Hvin by (rewrite Htk; apply elem_of_app; right; by left).
  assert (drop mid vals = w :: drop (S mid) vals) as Hdr by by apply drop_S.
  assert (lt (derive_key v) (derive_key w)) as Hvw by (apply S3; [done|rewrite Hdr; by left]).
  assert (bounded key_less lo hi (derive_key v)) as Hbv by by apply (proj1 (Forall_forall _ _) R1).
  assert (bounded key_less lo hi (derive_key w)) as Hbw by (apply (proj1 (Forall_forall _ _) R2); rewrite Hdr; by left).
  split; [|split].
  - split; [apply Hbv|]. destruct hi as [h|]; [|done]. destruct Hbw as [_ Hbw]. cbn in *. by eapply lt_le_trans.
  - cbn [btree_shape.shape]. split_and!; [by rewrite Htk; destruct (take (mid - 1) vals)|done|].
    apply Forall_forall. intros u Hu. split; [apply (proj1 (Forall_forall _ _) R1 _ Hu)|]. cbn.
    rewrite Htk in Hu, S1. apply elem_of_app in Hu as [Hu|Hu].
    + apply sorted_app in S1 as (_ & _ & S1). apply lt_le; [done|]. apply S1; [done|by left].
    + apply list_elem_of_singleton in Hu as ->. by apply le_refl.
  - cbn [btree_shape.shape]. split_and!; [by rewrite Hdr|done|].
    apply Forall_forall. intros u Hu. split; [|apply (proj1 (Forall_forall _ _) R2 _ Hu)]. cbn. by apply S3.
Qed.
End order.

(** ** The leaf *)

Section leaf.
Context {A : Type} `{AllocatorSpec A}.
Context (derive_key : bytes -> bytes) (key_less : bytes -> bytes -> bool) `{KeyOrder key_less}.
Context (cfg : config) (bs : Z) (Hcfg : config_ok cfg bs) (supports1 : al_supports 1).
Context (derive_length : forall v, zlen v = value_size cfg -> zlen (derive_key v) = key_size cfg).
Abbreviation T := (tree A).
Abbreviation st := (st cfg bs).
Abbreviation holds := (holds cfg bs).
Abbreviation stored := (stored cfg bs).
Abbreviation body_ok := (body_ok cfg bs).
Abbreviation shape := (shape derive_key key_less).
Abbreviation tree_rep := (tree_rep derive_key key_less cfg bs).
Abbreviation cap := (leaf_capacity cfg).
Abbreviation mc := (internal_max_children cfg).
Implicit Types (anc : anchor) (cs : list (nat * cursor)) (pos : list (nat * position)) (G : gmap Z bytes).
Implicit Types (n : Z) (t : T) (key value : bytes) (tr : node) (id : nat) (fs : list frame).

Definition sized anc : anchor :=
  Anchor (u64 (size anc + 1)) (leaf_nodes anc) (internal_nodes anc) (height anc) (root anc) (leftmost anc) (rightmost anc).

(** The inserting cursor is at the new value, the others moved with their values. *)
Definition inserted_rel tr' id (R : nat) (i : nat) (c : cursor) (p : position) : Prop :=
  if decide (i = id) then on_path tr' false (set_inprogress false c) R
  else exists p', shift_pos R p p' /\ cursor_ok (Some tr') c p'.
Definition insert_post cs pos G n tr id (R : nat) value t' : Prop :=
  exists anc' cs' G' tr' h', st anc' cs' G' n t' /\ tree_rep (sized anc') G' h' tr' /\
    contents tr' = insert_at R value (contents tr) /\ rel (inserted_rel tr' id R) cs' pos /\ cs'.*1 = cs.*1 /\
    keeps G (ids tr) G' (ids tr').

(** The path of the cursor that inserts ends in the leaf. *)
Definition located fs (leaf : Z) (k : nat) : cursor := Cursor (entries fs) leaf (Z.of_nat k) false false true.

Lemma shifted_eq (i id k x : nat) ps leaf (inv del prog : bool) : Z.of_nat x < 2 ^ 32 - 1 ->
  shifted i id (Z.of_nat k) (Cursor ps leaf (Z.of_nat x) inv del prog) =
  Z.of_nat (if decide (i <> id /\ (k <= x)%nat) then S x else x).
Proof.
  intros Hx. unfold shifted. cbn [m_index]. destruct (decide (i = id)) as [->|Hne].
  - rewrite (decide_False (P := id <> id /\ _)) by tauto. by rewrite bool_decide_eq_true_2.
  - rewrite bool_decide_eq_false_2 by done. cbn [negb andb]. destruct (Z.leb_spec (Z.of_nat k) (Z.of_nat x)).
    + rewrite decide_True by (split; [done|lia]). rewrite wrap_small; [lia|split; lia].
    + by rewrite decide_False by lia.
Qed.

(** The tree with [c1] in the place of a leaf. *)
Section position.
Context (fs : list frame) (k : nat).
Let R := (length (pre_of fs) + k)%nat.

Lemma moved_left (deleted : bool) (pre vs a : list bytes) x :
  (if deleted then x <= length vs else x < length vs)%nat -> pre_of fs = pre ++ vs ++ a ->
  moved deleted R (length pre + x) (length pre + x).
Proof.
  intros Hx Heq. assert (length (pre_of fs) = length pre + length vs + length a)%nat as Hl
    by (rewrite Heq, !length_app; lia).
  unfold moved, R. destruct deleted; [lia|]. by rewrite decide_True by lia.
Qed.
Lemma moved_right (deleted : bool) (vals b : list bytes) x : (k <= length vals)%nat ->
  moved deleted R (length (pre_of fs ++ vals ++ b) + x) (S (length (pre_of fs ++ vals ++ b) + x)).
Proof. intros Hk. unfold moved, R. rewrite !length_app. destruct deleted; [lia|]. by rewrite decide_False by lia. Qed.
Lemma moved_inside (deleted : bool) x :
  moved deleted R (length (pre_of fs) + x) (length (pre_of fs) + if decide (k <= x)%nat then S x else x).
Proof.
  unfold moved, R. case_decide; destruct deleted; [lia| |lia|].
  - rewrite decide_False; lia.
  - rewrite decide_True; lia.
Qed.
End position.

Lemma rep_cursor_bound G tr ps leaf pre vals post :
  stored G (blocks_of tr) -> at_path tr ps leaf pre vals post -> Z.of_nat (length vals) < 2 ^ 32 - 1.
Proof.
  intros Hs Hp. pose proof (leaf_holds _ _ _ _ _ _ _ _ _ Hs Hp) as Hl. destruct (holds_leaf _ _ _ _ _ Hl) as (_ & Hc & _).
  destruct Hcfg. unfold node_header_size in *. nia.
Qed.

Definition with_size (n : Z) anc : anchor :=
  Anchor n (leaf_nodes anc) (internal_nodes anc) (height anc) (root anc) (leftmost anc) (rightmost anc).

(** The values of a leaf change. *)
Lemma leaf_change_rep anc G n t cs fs lf vals vals' h b :
  let tr := plug fs (Leaf lf vals) in let tr' := plug fs (Leaf lf vals') in
  tree_rep anc G h tr -> shape 0 (hole_lo None fs) (hole_hi None fs) (Leaf lf vals') ->
  body_ok b (LeafBody vals') -> st anc cs (<[lf := b]> G) n t ->
  tree_rep (with_size (zlen (contents tr')) anc) (<[lf := b]> G) h tr' /\ keeps G (ids tr) (<[lf := b]> G) (ids tr') /\
  zlen (contents tr') < 2 ^ 64.
Proof.
  intros tr tr' Hrep Hsh Hb Hst. pose proof (plug_blocks fs (Leaf lf vals)) as Hold. pose proof (plug_blocks fs (Leaf lf vals')) as Hnew.
  fold tr in Hold. fold tr' in Hnew. cbn [node_id blocks_of node_body] in Hold, Hnew. destruct Hrep as [Rs Rst Rnd Rh Rr Rsz Rl Rri Rle Rin].
  assert (ids tr' ≡ₚ ids tr) as Hids by (unfold ids; rewrite Hold, Hnew; by rewrite !fmap_app).
  assert (NoDup (ids tr')) as Hnd' by by rewrite Hids.
  assert (stored (<[lf := b]> G) (blocks_of tr')) as Hst'.
  { eapply stored_perm; [symmetry; exact Hnew|]. apply (stored_perm _ _ _ _ _ Hold) in Rst. apply stored_app in Rst as [Rst _].
    apply stored_app. split; [|repeat constructor; by apply holds_eq]. apply stored_insert; [|done].
    unfold ids in Rnd. rewrite Hold, fmap_app in Rnd. cbn in Rnd. apply NoDup_app in Rnd as (_ & Hd & _). intros Hin. apply (Hd lf Hin). by left. }
  assert (shape h None None tr') as Hsh'.
  { destruct (plug_shape _ _ _ _ _ _ _ Rs) as (h' & -> & Hs0 & Hnew'). apply Hnew'. destruct h'; [done|by destruct Hs0]. }
  pose proof (tree_bounds _ _ _ _ Hcfg _ _ _ _ _ _ _ _ _ Hst Hst' Hnd' Hsh') as (Hsz & _ & _).
  assert (leaf_ids tr' = leaf_ids tr) as Hli by (unfold tr, tr'; by rewrite !plug_leaf_ids).
  split; [|split; [|done]].
  - split; try done.
    + cbn [root with_size]. rewrite Rr. unfold tr, tr'. by rewrite !node_id_plug.
    + by rewrite Hli.
    + by rewrite Hli.
    + by rewrite Hli.
    + rewrite Hli. cbn [internal_nodes with_size]. rewrite Rin. do 3 f_equal. rewrite (Permutation_length Hold), (Permutation_length Hnew). by rewrite !length_app.
  - intros j c Hj Hnj. rewrite Hids. split; [|done]. rewrite lookup_insert_ne; [done|]. intros <-. apply Hnj.
    unfold ids. rewrite Hold, fmap_app. apply elem_of_app. right. by left.
Qed.

(** The new tree represents one more value. *)
Lemma leaf_rep anc G n t cs fs lf vals vals' h b :
  let tr := plug fs (Leaf lf vals) in let tr' := plug fs (Leaf lf vals') in
  tree_rep anc G h tr -> shape 0 (hole_lo None fs) (hole_hi None fs) (Leaf lf vals') -> length vals' = S (length vals) ->
  body_ok b (LeafBody vals') -> st anc cs (<[lf := b]> G) n t ->
  tree_rep (sized anc) (<[lf := b]> G) h tr' /\ keeps G (ids tr) (<[lf := b]> G) (ids tr').
Proof.
  intros tr tr' Hrep Hsh Hlen Hb Hst. destruct (leaf_change_rep anc G n t cs fs lf vals vals' h b Hrep Hsh Hb Hst) as (Hrep' & Hkp & Hsz).
  split; [|done]. unfold sized. fold tr' in Hrep', Hsz.
  assert (zlen (contents tr') = zlen (contents tr) + 1) as Hct by (unfold tr, tr'; rewrite !plug_contents, !length_app; cbn [contents]; lia).
  rewrite (tr_size _ _ _ _ _ _ _ _ Hrep). fold tr. rewrite wrap_small by (split; lia). rewrite <- Hct. exact Hrep'.
Qed.

Lemma at_sub_leaf i vals ps s pre post : at_sub (Leaf i vals) ps s pre post ->
  ps = [] /\ s = Leaf i vals /\ pre = [] /\ post = [].
Proof. by inversion 1. Qed.

(** The position of a cursor whose path reaches the leaf. *)
Lemma inserted_inside tr' fs lf' ps pre' vals1 post' (k x y : nat) (deleted : bool) id i :
  at_path tr' ps lf' pre' vals1 post' -> (length pre' + y = length (pre_of fs) + if decide (i <> id /\ (k <= x)%nat) then S x else x)%nat ->
  (if deleted then y <= length vals1 else y < length vals1)%nat -> i <> id ->
  exists p', shift_pos (length (pre_of fs) + k) (path_pos deleted (length (pre_of fs) + x)) p' /\
    cursor_ok (Some tr') (Cursor ps lf' (Z.of_nat y) false deleted false) p'.
Proof.
  intros Hp Heq Hy Hne. eapply (shift_path _ _ _ _ _ (length pre' + y)%nat).
  - exists ps, lf', pre', vals1, post', y. by split_and!.
  - rewrite Heq. replace (if decide (i <> id /\ (k <= x)%nat) then S x else x) with (if decide (k <= x)%nat then S x else x)
      by (repeat case_decide; tauto || lia).
    apply moved_inside.
Qed.

Lemma insert_simple_spec anc cs pos G n t fs lf vals (k : nat) value id h :
  let tr := plug fs (Leaf lf vals) in
  st anc cs G n t -> tree_rep anc G h tr -> rel (seek_rel tr id (located fs lf k)) cs pos ->
  (k <= length vals)%nat -> zlen vals < cap -> zlen value = value_size cfg ->
  shape 0 (hole_lo None fs) (hole_hi None fs) (Leaf lf (insert_at k value vals)) ->
  wp (insert_simple lf (Z.of_nat k) value id) t (fun _ t' => insert_post cs pos G n tr id (length (pre_of fs) + k) value t').
Proof.
  intros tr Hst Hrep Hrel Hk Hcap Hv Hsh. assert (stored G (blocks_of tr)) as Hs by apply Hrep.
  assert (at_path tr (entries fs) lf (pre_of fs) vals (post_of fs)) as Hpath by apply at_path_sub, at_sub_plug.
  pose proof (leaf_holds _ _ _ _ _ _ _ _ _ Hs Hpath) as Hl.
  unfold insert_simple. wp_step. apply (get_config_spec _ _ _ _ _ _ _ _ Hst). wp_step.
  eapply (tree_node_write_spec _ _ _ _ _ _ _ lf _ (LeafBody (insert_at k value vals)) _ (fun _ => True) _ Hst Hl).
  { intros b [Hlb Hb]. eapply wp_mono; [by apply (leaf_insert_nonfull_spec _ _ b vals k value Hb)|].
    cbn beta. intros _ b' [Hb' Hl']. split; [done|]. split; [lia|done]. }
  intros _ b t1 _ Hb Hst1. destruct (leaf_rep anc G n t1 cs fs lf vals (insert_at k value vals) h b) as [Hrep' Hkeep]; try done.
  { apply length_insert_at. }
  set (tr' := plug fs (Leaf lf (insert_at k value vals))) in *.
  assert (at_path tr' (entries fs) lf (pre_of fs) (insert_at k value vals) (post_of fs)) as Hpath' by apply at_path_sub, at_sub_plug.
  assert (length (insert_at k value vals) = S (length vals)) as Hlen by apply length_insert_at.
  pose proof (rep_cursor_bound _ _ _ _ _ _ _ (tr_stored _ _ _ _ _ _ _ _ Hrep') Hpath') as Hb32. rewrite Hlen in Hb32.
  eapply (for_cursors_spec cfg bs _ (inserted_rel tr' id (length (pre_of fs) + k))); [exact Hst1|exact Hrel| |].
  - intros i c p t2 Hcur Hst2. unfold seek_rel, inserted_rel in *. unfold insert_cursor. case_decide as Hi.
    + subst i c. cbn [c_invalid m_leaf located orb]. rewrite Z.eqb_refl. cbn [negb]. wp_step. split; [|done].
      unfold located. rewrite shifted_eq by lia. rewrite decide_False by tauto.
      exists (entries fs), lf, (pre_of fs), (insert_at k value vals), (post_of fs), k. split_and!; [done|done|rewrite Hlen; lia|done].
    + destruct (c_invalid c) eqn:Hv'.
      { cbn [orb]. wp_step. split; [|done]. exists p. split; [|by eapply cursor_invalid].
        destruct p; try done; destruct Hcur as (? & _ & ? & ? & ? & ? & ? & ? & _ & _ & _ & ->); done. }
      destruct (cursor_on_path _ _ _ Hcur Hv') as (deleted & r & -> & ps & leaf & pre & vals0 & post & x & Hp & -> & Hx & ->).
      cbn [c_invalid m_leaf orb]. apply at_path_sub in Hp.
      destruct (replace_cases fs (Leaf lf vals) ps (Leaf leaf vals0) pre post (tr_nodup _ _ _ _ _ _ _ _ Hrep) Hp) as
        [(ps' & pre' & post' & -> & Hsub & -> & ->)|[[Hout _] Hcase]].
      { apply at_path_sub in Hp.
        destruct (at_path_height _ _ _ _ _ _ _ _ _ _ _ (tr_shape _ _ _ _ _ _ _ _ Hrep) Hp) as [Hh1 _].
        destruct (at_path_height _ _ _ _ _ _ _ _ _ _ _ (tr_shape _ _ _ _ _ _ _ _ Hrep) Hpath) as [Hh2 _]. rewrite length_entries in Hh2. lia. }
      * apply at_sub_leaf in Hsub as (-> & [= -> ->] & -> & ->). rewrite Z.eqb_refl. cbn [negb]. wp_step. split; [|done]. rewrite !app_nil_r.
        rewrite shifted_eq by (destruct deleted; lia). unfold set_index, set_position. cbn [m_parents c_invalid c_deleted c_inprogress].
        eapply (inserted_inside tr' fs lf (entries fs)); [exact Hpath'|done| |done].
        rewrite Hlen. case_decide; destruct deleted; lia.
      * assert ((leaf =? lf) = false) as -> by (apply Z.eqb_neq; intros ->; apply Hout; by left). cbn [negb]. wp_step. split; [|done].
        pose proof (at_sub_contents _ _ _ _ _ Hp) as Hct. unfold tr in Hct. rewrite plug_contents in Hct. cbn [contents] in Hct.
        destruct Hcase as [(a & -> & Hc)|(b0 & -> & Hc)].
        -- eapply shift_path; [|eapply moved_left; [done|]].
           ++ exists ps, leaf, pre, vals0. eexists _, x. split_and!; [apply at_path_sub, (Hc (Leaf lf (insert_at k value vals)))|done..].
           ++ cbn [contents] in Hct. rewrite !app_assoc in Hct. apply app_inv_tail in Hct. rewrite <- !app_assoc in Hct.
              rewrite !app_assoc in Hct. apply app_inv_tail in Hct. rewrite Hct. by rewrite <- app_assoc.
        -- eapply shift_path; [|by apply moved_right].
           exists ps, leaf. eexists _, vals0, post, x. split_and!; [apply at_path_sub, (Hc (Leaf lf (insert_at k value vals)))| |done|done].
           cbn [contents]. rewrite !length_app. lia.
  - intros cs' t2 Hrel' Hks Hst2. exists anc, cs', (<[lf := b]> G), tr', h. split_and!; try done.
    unfold tr, tr'. rewrite !plug_contents. cbn [contents]. symmetry. by apply insert_at_app.
Qed.

(** ** The split of a leaf below the node [p] *)

Definition set_right (lf new : Z) anc : anchor :=
  if lf =? rightmost anc
  then Anchor (size anc) (leaf_nodes anc) (internal_nodes anc) (height anc) (root anc) (leftmost anc) new
  else anc.

Lemma last_split_leaf (l l' : list Z) (x y rm : Z) : NoDup (l ++ x :: l') -> last (l ++ x :: l') = Some rm ->
  last (l ++ x :: y :: l') = Some (if x =? rm then y else rm).
Proof.
  intros Hnd Hl. destruct l' as [|z l'] using rev_ind.
  - rewrite last_snoc in Hl. injection Hl as ->. rewrite Z.eqb_refl.
    replace (l ++ [rm; y]) with ((l ++ [rm]) ++ [y]) by by rewrite <- app_assoc. by rewrite last_snoc.
  - clear IHl'. replace (l ++ x :: l' ++ [z]) with ((l ++ x :: l') ++ [z]) in Hl by by rewrite <- app_assoc.
    replace (l ++ x :: y :: l' ++ [z]) with ((l ++ x :: y :: l') ++ [z]) by by rewrite <- app_assoc.
    rewrite last_snoc in *. injection Hl as ->. destruct (Z.eqb_spec x rm) as [->|]; [|done].
    apply NoDup_app in Hnd as (_ & _ & Hnd). apply NoDup_cons in Hnd as [Hn _]. exfalso. apply Hn, elem_of_app. right. by left.
Qed.

Section split_leaf.
Context (fs0 : list frame) (p : Z) (pk : list bytes) (pl pr : list node) (lf new : Z) (vals vals1 vals2 : list bytes) (sk : bytes).
Let fs := fs0 ++ [Frame p pk pl pr].
Let tr := plug fs (Leaf lf vals).
Let tr' := plug fs0 (Inner p (insert_at (length pl) sk pk) (pl ++ Leaf lf vals1 :: Leaf new vals2 :: pr)).
Let rest := context_blocks fs0 p ++ all_blocks pl ++ all_blocks pr.

Lemma unsplit_leaf_blocks : blocks_of tr ≡ₚ
  (p, InnerBody pk (map node_id pl ++ lf :: map node_id pr)) :: (lf, LeafBody vals) :: rest.
Proof.
  unfold tr, fs, rest. rewrite plug_app, plug_blocks. cbn [plug node_id f_id f_keys f_left f_right].
  rewrite blocks_of_inner, map_app. cbn [map]. rewrite <- Permutation_middle. apply perm_skip.
  rewrite all_blocks_app, all_blocks_cons. cbn [blocks_of node_id node_body app].
  rewrite app_assoc, <- Permutation_middle. apply perm_skip. by rewrite <- !app_assoc.
Qed.
Lemma split_leaf_blocks : blocks_of tr' ≡ₚ
  (p, InnerBody (insert_at (length pl) sk pk) (map node_id pl ++ lf :: new :: map node_id pr)) ::
  (lf, LeafBody vals1) :: (new, LeafBody vals2) :: rest.
Proof.
  unfold tr', rest. rewrite plug_blocks. cbn [node_id].
  rewrite blocks_of_inner, map_app. cbn [map]. rewrite <- Permutation_middle. apply perm_skip.
  rewrite all_blocks_app, !all_blocks_cons. cbn [blocks_of node_id node_body app].
  rewrite app_assoc, <- Permutation_middle. apply perm_skip. rewrite app_assoc, <- Permutation_middle. apply perm_skip.
  by rewrite <- !app_assoc.
Qed.
Lemma unsplit_leaf_ids : leaf_ids tr = pre_ids fs ++ lf :: post_ids fs.
Proof. unfold tr. by rewrite plug_leaf_ids. Qed.
Lemma split_leaf_leaf_ids : leaf_ids tr' = pre_ids fs ++ lf :: new :: post_ids fs.
Proof.
  unfold tr', fs. rewrite plug_leaf_ids. cbn [leaf_ids]. rewrite map_app, concat_app. cbn [map concat leaf_ids].
  assert (forall a b : list frame, pre_ids (a ++ b) = pre_ids a ++ pre_ids b) as Hpre.
  { intros a b. induction a as [|f a IH]; [done|]. cbn. by rewrite IH, app_assoc. }
  assert (forall a b : list frame, post_ids (a ++ b) = post_ids b ++ post_ids a) as Hpost.
  { intros a b. induction a as [|f a IH]; [cbn; by rewrite app_nil_r|]. cbn. by rewrite IH, app_assoc. }
  rewrite Hpre, Hpost. cbn [pre_ids post_ids f_left f_right]. rewrite app_nil_r. by rewrite <- !app_assoc.
Qed.
Lemma split_leaf_contents : contents tr' = pre_of fs ++ (vals1 ++ vals2) ++ post_of fs.
Proof.
  unfold tr', fs. rewrite plug_contents, pre_of_app, post_of_app, contents_inner, all_contents_app, !all_contents_cons.
  cbn [contents pre_of post_of f_left f_right app]. rewrite app_nil_r. by rewrite <- !app_assoc.
Qed.

Lemma split_leaf_tree_shape h : shape h None None tr ->
  inside key_less (hole_lo None fs) (hole_hi None fs) sk ->
  shape 0 (hole_lo None fs) (Some sk) (Leaf lf vals1) -> shape 0 (Some sk) (hole_hi None fs) (Leaf new vals2) ->
  shape h None None tr'.
Proof.
  unfold tr, tr', fs. rewrite plug_app. intros Hs Hk S1 S2. apply plug_shape in Hs as (h' & -> & HP & Hnew).
  apply Hnew. cbn [plug f_id f_keys f_left f_right] in HP. destruct h' as [|h']; [done|]. destruct HP as [Hl HP].
  split; [rewrite length_app in *; cbn [length] in *; lia|].
  rewrite hole_lo_app, hole_hi_app in *. cbn [hole_lo hole_hi f_keys f_left] in *.
  assert (h' = 0)%nat as ->.
  { apply chain_child with (i := length pl) (c := Leaf lf vals) in HP; [|by apply list_lookup_middle]. by destruct h'. }
  by eapply chain_split_child.
Qed.
End split_leaf.
End leaf.
End btree_leaf_insert.
