(* ===== verification/BTreeLeafSplit.v ===== *)
(** * Splits of leaves

    The insertion into a full leaf: the values of the leaf and the new one
    are distributed to the leaf and a new one, which is linked below the
    parent of the leaf or, if the leaf is the root, below a new root. *)

From Stdlib Require Import Strings.Byte Sorting.Sorted.
From S2P Require Import Prelude MathOps Serialization Blocks EngineSpec FreeList Allocator Extent BTreeNodes BTree BTreeShape BTreeStore BTreeSearch BTreePaths BTreeSplit BTreeCursors BTreeInsert BTreeLeafInsert.

Module btree_leaf_split.
Import btree btree_shape btree_store btree_search btree_paths btree_split btree_cursors btree_insert btree_leaf_insert.

Section split.
Context {A : Type} `{AllocatorSpec A}.
Context (derive_key : bytes -> bytes) (key_less : bytes -> bytes -> bool) `{KeyOrder key_less}.
Context (cfg : config) (bs : Z) (Hcfg : config_ok cfg bs) (supports1 : al_supports 1).
Abbreviation T := (tree A).
Abbreviation st := (st cfg bs).
Abbreviation holds := (holds cfg bs).
Abbreviation stored := (stored cfg bs).
Abbreviation body_ok := (body_ok cfg bs).
Abbreviation shape := (shape derive_key key_less).
Abbreviation tree_rep := (tree_rep derive_key key_less cfg bs).
Abbreviation insert_post := (insert_post derive_key key_less cfg bs).
Abbreviation cap := (leaf_capacity cfg).
Abbreviation mc := (internal_max_children cfg).
Implicit Types (anc : anchor) (cs : list (nat * cursor)) (pos : list (nat * position)) (G : gmap Z bytes).
Implicit Types (n : Z) (t : T) (key value : bytes) (tr : node) (id : nat) (fs : list frame).

(** ** The new tree *)

Section child.
Context (fs0 : list frame) (p : Z) (pk : list bytes) (pl pr : list node) (lf new : Z) (vals vals1 vals2 : list bytes) (sk : bytes).
Let fs := fs0 ++ [Frame p pk pl pr].
Let tr := plug fs (Leaf lf vals).
Let tr' := plug fs0 (Inner p (insert_at (length pl) sk pk) (pl ++ Leaf lf vals1 :: Leaf new vals2 :: pr)).

Lemma split_leaf_rep anc anc' cs G n t h b1 b2 b3 :
  let G' := <[p := b3]> (<[new := b2]> (<[lf := b1]> G)) in
  tree_rep anc G h tr -> G !! new = None -> length (vals1 ++ vals2) = S (length vals) ->
  inside key_less (hole_lo None fs) (hole_hi None fs) sk ->
  shape 0 (hole_lo None fs) (Some sk) (Leaf lf vals1) -> shape 0 (Some sk) (hole_hi None fs) (Leaf new vals2) ->
  body_ok b1 (LeafBody vals1) -> body_ok b2 (LeafBody vals2) ->
  body_ok b3 (InnerBody (insert_at (length pl) sk pk) (map node_id pl ++ lf :: new :: map node_id pr)) ->
  st anc' cs G' n t ->
  tree_rep (sized (set_right lf new (more_leaves 1 anc))) G' h tr' /\ keeps G (ids tr) G' (ids tr').
Proof.
  intros G' Hrep Hnew Hlen Hin S1 S2 H1' H2' H3' Hst.
  pose proof (unsplit_leaf_blocks fs0 p pk pl pr lf vals) as Hold. fold fs tr in Hold.
  pose proof (split_leaf_blocks fs0 p pk pl pr lf new vals1 vals2 sk) as Hb. fold tr' in Hb.
  set (L := context_blocks fs0 p ++ all_blocks pl ++ all_blocks pr) in *.
  destruct Hrep as [Rs Rst Rnd Rh Rr Rsz Rl Rri Rle Rin].
  assert (NoDup (p :: lf :: L.*1)) as Hnd by (unfold ids in Rnd; rewrite Hold in Rnd; done).
  assert (stored G L) as HsL by (apply (stored_perm _ _ _ _ _ Hold), Forall_cons in Rst as [_ Rst]; by apply Forall_cons in Rst as [_ Rst]).
  assert (new ∉ p :: lf :: L.*1) as Hjn by (pose proof (stored_fresh _ _ _ _ _ Rst Hnew) as Hf; by rewrite Hold in Hf).
  assert (NoDup (p :: lf :: new :: L.*1)) as Hnd'.
  { assert (p :: lf :: new :: L.*1 ≡ₚ new :: p :: lf :: L.*1) as -> by (rewrite (perm_swap new lf), perm_swap; done). by constructor. }
  assert (shape h None None tr') as Hsh' by by apply (split_leaf_tree_shape _ _ _ _ _ _ _ lf new vals).
  assert (stored G' (blocks_of tr')) as Hst' by (eapply stored_perm; [symmetry; exact Hb|]; by apply stored_split).
  assert (NoDup (ids tr')) as Hndt by (unfold ids; by rewrite Hb).
  destruct (tree_bounds _ _ _ _ Hcfg _ _ _ _ _ _ _ _ _ Hst Hst' Hndt Hsh') as (Bc & Bl & _).
  pose proof (unsplit_leaf_ids fs0 p pk pl pr lf vals) as Ho. fold fs tr in Ho.
  pose proof (split_leaf_leaf_ids fs0 p pk pl pr lf new vals1 vals2 sk) as Hn. fold fs tr' in Hn.
  assert (contents tr' = pre_of fs ++ (vals1 ++ vals2) ++ post_of fs) as Hct by apply (split_leaf_contents _ _ pk).
  assert (zlen (contents tr') = zlen (contents tr) + 1) as Hcl.
  { rewrite Hct. unfold tr. rewrite plug_contents. rewrite !(length_app (pre_of fs)), !(length_app _ (post_of fs)), Hlen. cbn [contents]. lia. }
  assert (zlen (leaf_ids tr') = zlen (leaf_ids tr) + 1) as Hll by (rewrite Hn, Ho, !length_app; cbn [length]; lia).
  split.
  - split; try done.
    + cbn [sized height]. unfold set_right. by case_match.
    + assert (root (set_right lf new (more_leaves 1 anc)) = root anc) as Hra by (unfold set_right; by case_match).
      cbn [sized root]. rewrite Hra, Rr. unfold tr, tr', fs. rewrite plug_app, !node_id_plug. done.
    + assert (size (set_right lf new (more_leaves 1 anc)) = size anc) as Hra by (unfold set_right; by case_match).
      cbn [sized size]. rewrite Hra, Rsz, wrap_small; [lia|split; lia].
    + assert (leftmost (set_right lf new (more_leaves 1 anc)) = leftmost anc) as Hra by (unfold set_right; by case_match).
      cbn [sized leftmost]. rewrite Hra, <- Rl, Hn, Ho. by destruct (pre_ids fs).
    + rewrite Hn, (last_split_leaf _ _ _ _ (rightmost anc)); [|rewrite <- Ho; by apply leaf_ids_nodup|by rewrite <- Ho].
      cbn [sized rightmost]. unfold set_right. cbn [more_leaves rightmost]. by case_match.
    + assert (leaf_nodes (set_right lf new (more_leaves 1 anc)) = u64 (leaf_nodes anc + 1)) as Hra by (unfold set_right; by case_match).
      cbn [sized leaf_nodes]. rewrite Hra, Rle, wrap_small; [lia|split; lia].
    + assert (internal_nodes (set_right lf new (more_leaves 1 anc)) = internal_nodes anc) as Hra by (unfold set_right; by case_match).
      cbn [sized internal_nodes]. rewrite Hra, Rin, Hll. f_equal. rewrite (Permutation_length Hold), (Permutation_length Hb). cbn [length]. lia.
  - intros k b Hk Hnk. unfold ids in Hnk. rewrite Hold in Hnk. cbn [fmap list_fmap fst] in Hnk.
    apply not_elem_of_cons in Hnk as [Hkp Hnk]. apply not_elem_of_cons in Hnk as [Hki Hnk].
    assert (k <> new) as Hkj by congruence. split.
    + unfold G'. by rewrite !lookup_insert_ne by done.
    + unfold ids. rewrite Hb. cbn [fmap list_fmap fst]. by rewrite !not_elem_of_cons.
Qed.
(** ** The cursors *)

(** The cursor at the index [y] of the values of both leaves. *)
Definition part_cursor (mid y : nat) (deleted prog : bool) : cursor :=
  if decide (mid <= y)%nat then Cursor (entries fs0 ++ [(p, zlen pl + 1)]) new (Z.of_nat (y - mid)) false deleted prog
  else Cursor (entries fs) lf (Z.of_nat y) false deleted prog.

Lemma part_cursor_path (mid y : nat) (deleted prog : bool) :
  length vals1 = mid -> (if deleted then y <= length (vals1 ++ vals2) else y < length (vals1 ++ vals2))%nat ->
  on_path tr' deleted (set_inprogress false (part_cursor mid y deleted prog)) (length (pre_of fs) + y).
Proof.
  intros Hm Hy. rewrite length_app in Hy. unfold part_cursor. case_decide.
  - exists (entries fs0 ++ [(p, zlen pl + 1)]), new, (pre_of fs ++ vals1 ++ []), vals2, ([] ++ post_of fs), (y - mid)%nat.
    split_and!; [apply at_path_sub, (at_second fs0 p pk), at_here| |destruct deleted; lia|done].
    rewrite !length_app. cbn [length]. lia.
  - exists (entries fs), lf, (pre_of fs ++ []), vals1, ([] ++ vals2 ++ post_of fs), y.
    split_and!; [|by rewrite app_nil_r|destruct deleted; lia|done].
    replace (entries fs) with (entries fs0 ++ (p, zlen pl) :: []) by by (unfold fs; rewrite entries_app).
    apply at_path_sub. apply (at_first fs0 p pk _ pl pr (Leaf lf vals1) (Leaf new vals2)), at_here.
Qed.

(** The cursors of the leaf. *)
Lemma part_inserted (mid k x : nat) (deleted : bool) id i :
  length vals1 = mid -> length (vals1 ++ vals2) = S (length vals) -> (k <= length vals)%nat ->
  (if deleted then x <= length vals else x < length vals)%nat -> i <> id ->
  exists p', shift_pos (length (pre_of fs) + k) (path_pos deleted (length (pre_of fs) + x)) p' /\
    cursor_ok (Some tr') (part_cursor mid (if decide (i <> id /\ (k <= x)%nat) then S x else x) deleted false) p'.
Proof.
  intros Hm Hl Hk Hx Hne. set (y := if decide (i <> id /\ (k <= x)%nat) then S x else x).
  assert (if deleted then y <= length (vals1 ++ vals2) else y < length (vals1 ++ vals2))%nat as Hy.
  { unfold y. rewrite Hl. case_decide; destruct deleted; lia. }
  pose proof (part_cursor_path mid y deleted false Hm Hy) as Hp.
  replace (set_inprogress false (part_cursor mid y deleted false)) with (part_cursor mid y deleted false) in Hp
    by (unfold part_cursor; by case_decide).
  eapply shift_path; [exact Hp|].
  replace y with (if decide (k <= x)%nat then S x else x) by (unfold y; repeat case_decide; tauto || lia). apply moved_inside.
Qed.

(** The other cursors follow their leaves. *)
Lemma outside_inserted (k : nat) (deleted : bool) ps leaf vals0 pre post (x : nat) :
  NoDup (ids tr) -> at_path tr ps leaf pre vals0 post -> length ps = length fs -> (k <= length vals)%nat ->
  length (vals1 ++ vals2) = S (length vals) -> (if deleted then x <= length vals0 else x < length vals0)%nat ->
  (ps = entries fs /\ leaf = lf /\ vals0 = vals /\ pre = pre_of fs) \/
  (ps !! length fs0 <> Some (p, zlen pl) /\
   exists p', shift_pos (length (pre_of fs) + k) (path_pos deleted (length pre + x)) p' /\
     cursor_ok (Some tr') (Cursor (bump fs0 p pl ps) leaf (Z.of_nat x) false deleted false) p').
Proof.
  intros Hnd Hp Hlen Hk Hl Hx. apply at_path_sub in Hp. assert (length fs = S (length fs0)) as Hfs by (unfold fs; rewrite length_app; cbn; lia).
  pose proof (at_sub_contents _ _ _ _ _ Hp) as Hct. unfold tr in Hct. rewrite plug_contents in Hct. cbn [contents] in Hct.
  destruct (parent_cases fs0 p pk (insert_at (length pl) sk pk) pl pr (Leaf lf vals) (Leaf lf vals1) (Leaf new vals2) ps _ pre post Hnd Hp) as
    [(Hne & Hb & a & -> & Hs')|[(Hne & b & -> & Hs')|(ps' & pre' & post' & -> & Hs' & -> & ->)]]; [lia| | |].
  - right. split; [done|]. rewrite Hb. eapply shift_path; [|eapply moved_left; [done|]].
    + exists ps, leaf, pre, vals0. eexists _, x. split_and!; [by apply at_path_sub|done..].
    + cbn [contents] in Hct. fold fs in Hct. rewrite !app_assoc in Hct. apply app_inv_tail in Hct.
      rewrite <- !app_assoc in Hct. rewrite !app_assoc in Hct. apply app_inv_tail in Hct. rewrite Hct. by rewrite <- app_assoc.
  - right. split; [done|]. cbn [contents] in *. eapply shift_path; [|by apply moved_right].
    exists (bump fs0 p pl ps), leaf. eexists _, vals0, post, x. split_and!; [apply at_path_sub, Hs'| |done|done].
    rewrite !length_app in *. lia.
  - left. apply at_sub_leaf in Hs' as (-> & [= -> ->] & -> & ->). by rewrite !app_nil_r.
Qed.

Lemma child_leaf_cursor_out anc cs G n t (k mid x : Z) ps leaf (deleted prog : bool) (e : Z * Z) id i :
  st anc cs G n t -> ps !! length fs0 = Some e -> length ps = S (length fs0) -> e <> (p, zlen pl) ->
  0 <= e.2 < 2 ^ 31 -> zlen pl < 2 ^ 31 ->
  wp (child_leaf_cursor p (zlen pl) lf new k mid id i (Cursor ps leaf x false deleted prog)) t (fun c' t' =>
    c' = Cursor (bump fs0 p pl ps) leaf x false deleted prog /\ st anc cs G n t').
Proof.
  intros Hst He Hl Hne Hb Hpl. unfold child_leaf_cursor, back_entry, set_back. cbn [c_invalid m_parents m_leaf].
  replace (last ps) with (Some e) by (rewrite last_lookup, Hl; done). wp_step. wp_step. unfold bump. rewrite He. destruct e as [q y]. cbn [fst snd] in *.
  destruct (Z.eqb_spec q p) as [->|]; cbn [negb andb]; [|by wp_step].
  destruct (Z.eqb_spec y (zlen pl)) as [->|]; [done|]. rewrite !wrap_small by (split; lia).
  destruct (Z.leb_spec (zlen pl + 1) y); destruct (Z.ltb_spec (zlen pl) y); try lia; wp_step; (split; [|done]); [|done].
  rewrite Hl. unfold set_parents. cbn. by replace (length fs0 - 0)%nat with (length fs0) by lia.
Qed.

Lemma child_leaf_cursor_in anc cs G n t keys children (k mid x : nat) (deleted prog : bool) id i :
  st anc cs G n t -> holds G p (InnerBody keys children) -> children !! length pl = Some lf ->
  Z.of_nat x < 2 ^ 32 - 1 -> zlen pl < 2 ^ 31 ->
  wp (child_leaf_cursor p (zlen pl) lf new (Z.of_nat k) (Z.of_nat mid) id i (Cursor (entries fs) lf (Z.of_nat x) false deleted prog)) t
    (fun c' t' => c' = part_cursor mid (if decide (i <> id /\ (k <= x)%nat) then S x else x) deleted prog /\ st anc cs G n t').
Proof.
  intros Hst Hp Hc Hx Hpl. unfold child_leaf_cursor, back_entry. cbn [c_invalid m_parents m_leaf].
  assert (last (entries fs) = Some (p, zlen pl)) as -> by (unfold fs; rewrite entries_app; apply last_snoc).
  wp_step. wp_step. cbn [fst snd]. rewrite !Z.eqb_refl. cbn [negb]. wp_step. wp_step. wp_step.
  apply (get_child_spec _ _ _ _ _ _ _ _ _ _ _ _ _ Hst Hp Hc). intros t1 Hst1. wp_step. wp_step. rewrite shifted_eq by done.
  set (y := if decide (i <> id /\ (k <= x)%nat) then S x else x). assert (Z.of_nat y < 2 ^ 32) by (unfold y; case_decide; lia).
  unfold part_cursor. destruct (Z.leb_spec (Z.of_nat mid) (Z.of_nat y)); wp_step; (split; [|done]).
  - rewrite decide_True by lia. rewrite !wrap_small by (split; lia). unfold set_back, set_position, set_parents. cbn [m_parents m_leaf m_index c_invalid c_deleted c_inprogress].
    f_equal; [|lia]. unfold fs. rewrite entries_app, length_app, length_entries. cbn [entries map length entry f_id f_left].
    replace (length fs0 + 1 - 1)%nat with (length (entries fs0) + 0)%nat by (rewrite length_entries; lia). by rewrite insert_app_r.
  - by rewrite decide_False by lia.
Qed.

(** The cursors after the split, by their positions before it. *)
Lemma split_leaf_cursor anc0 anc cs G0 G n h keys children (k mid : nat) i c q id t :
  tree_rep anc0 G0 h tr -> h = length fs -> st anc cs G n t -> holds G p (InnerBody keys children) -> children !! length pl = Some lf ->
  length vals1 = mid -> length (vals1 ++ vals2) = S (length vals) -> (k <= length vals)%nat -> zlen (vals1 ++ vals2) < 2 ^ 32 - 1 ->
  seek_rel tr id (located fs lf k) i c q ->
  wp (child_leaf_cursor p (zlen pl) lf new (Z.of_nat k) (Z.of_nat mid) id i c) t (fun c' t' =>
    inserted_rel tr' id (length (pre_of fs) + k) i c' q /\ st anc cs G n t').
Proof.
  intros Hrep Hh Hst Hp Hci Hm Hl Hk Hb Hcur. assert (length fs = S (length fs0)) as Hfs by (unfold fs; rewrite length_app; cbn; lia).
  assert (zlen pl < 2 ^ 31) as Hpl.
  { destruct (holds_inner _ _ _ _ _ _ Hp) as (_ & ? & ?). apply lookup_lt_Some in Hci. lia. }
  unfold seek_rel, inserted_rel in *. case_decide as Hi.
  - subst i c. eapply wp_mono; [eapply child_leaf_cursor_in; [exact Hst|exact Hp|exact Hci|lia|done]|]. cbn beta. intros c' t' [-> Hst']. split; [|done].
    rewrite decide_False by tauto. apply part_cursor_path; [done|]. lia.
  - destruct (c_invalid c) eqn:Hv.
    { unfold child_leaf_cursor. rewrite Hv. wp_step. split; [|done]. exists q. split; [|by eapply cursor_invalid].
      destruct q; try done; destruct Hcur as (? & _ & ? & ? & ? & ? & ? & ? & _ & _ & _ & ->); done. }
    destruct (cursor_on_path _ _ _ Hcur Hv) as (deleted & r & -> & ps & leaf & pre & vals0 & post & x & Hpath & -> & Hx & ->).
    destruct (at_path_height _ _ _ _ _ _ _ _ _ _ _ (tr_shape _ _ _ _ _ _ _ _ Hrep) Hpath) as [Hh1 _].
    destruct (outside_inserted k deleted ps leaf vals0 pre post x (tr_nodup _ _ _ _ _ _ _ _ Hrep) Hpath) as
      [(-> & -> & -> & ->)|(Hne & Hcase)]; [lia|done..| |].
    + eapply wp_mono; [eapply child_leaf_cursor_in; [exact Hst|exact Hp|exact Hci|destruct deleted; lia|done]|]. cbn beta. intros c' t' [-> Hst'].
      split; [|done]. by apply part_inserted.
    + destruct (ps !! length fs0) as [e|] eqn:He; [|apply lookup_ge_None in He; lia].
      apply at_path_sub in Hpath. pose proof (path_bound _ _ _ _ _ _ _ _ (tr_stored _ _ _ _ _ _ _ _ Hrep) Hpath) as Hpb.
      eapply wp_mono; [eapply child_leaf_cursor_out; [exact Hst|exact He|lia|congruence|by apply (Forall_lookup_1 _ _ _ _ Hpb He)|done]|].
      cbn beta. intros c' t' [-> Hst']. done.
Qed.

Lemma split_child_leaf_spec anc cs pos G n t h b1 b2 (k mid : nat) value id p0 :
  tree_rep anc G h tr -> h = length fs -> G !! new = None -> vals1 ++ vals2 = insert_at k value vals -> length vals1 = mid -> (k <= length vals)%nat ->
  inside key_less (hole_lo None fs) (hole_hi None fs) sk -> zlen sk = key_size cfg ->
  shape 0 (hole_lo None fs) (Some sk) (Leaf lf vals1) -> shape 0 (Some sk) (hole_hi None fs) (Leaf new vals2) ->
  body_ok b1 (LeafBody vals1) -> body_ok b2 (LeafBody vals2) -> Z.of_nat (length pl + 1 + length pr) < mc ->
  st (set_right lf new (more_leaves 1 anc)) cs (<[new := b2]> (<[lf := b1]> G)) n t ->
  rel (seek_rel tr id (located fs lf k)) cs pos -> find_cursor id pos = Some p0 ->
  wp (split_child_leaf lf new (Z.of_nat k) (Z.of_nat mid) sk id) t (fun _ t' =>
    insert_post cs pos G n tr id (length (pre_of fs) + k) value t').
Proof.
  intros Hrep Hh Hnew Hvals Hm Hk Hin Hkl S1 S2 Hb1 Hb2 Hmc Hst Hrel Hid. unfold split_child_leaf.
  assert (length (vals1 ++ vals2) = S (length vals)) as Hl by (rewrite Hvals; apply length_insert_at).
  pose proof (unsplit_leaf_blocks fs0 p pk pl pr lf vals) as Hold. fold fs tr in Hold.
  pose proof (tr_stored _ _ _ _ _ _ _ _ Hrep) as Hs. apply (stored_perm _ _ _ _ _ Hold), Forall_cons in Hs as [Hp _]. cbn [fst snd] in Hp.
  pose proof (tr_nodup _ _ _ _ _ _ _ _ Hrep) as Hnd. unfold ids in Hnd. rewrite Hold in Hnd. cbn [fmap list_fmap fst] in Hnd.
  apply NoDup_cons in Hnd as [Hpn _]. apply not_elem_of_cons in Hpn as [Hplf _].
  destruct (rel_find _ _ _ _ _ Hrel Hid) as (c & Hc & Hcr). unfold seek_rel in Hcr. rewrite decide_True in Hcr by done. subst c.
  wp_step. apply (get_cursor_spec _ _ _ _ _ _ _ _ _ _ Hst Hc). unfold back_entry. cbn [m_parents located].
  assert (last (entries fs) = Some (p, zlen pl)) as -> by (unfold fs; rewrite entries_app; apply last_snoc).
  wp_step. wp_step. cbn [fst snd]. wp_step.
  set (G1 := <[new := b2]> (<[lf := b1]> G)) in *.
  assert (holds G1 p (InnerBody pk (map node_id pl ++ lf :: map node_id pr))) as Hp1.
  { apply holds_ne; [intros ->; destruct Hp as (? & ? & _); congruence|]. by apply holds_ne. }
  assert (zlen (map node_id pl ++ lf :: map node_id pr) = Z.of_nat (length pl + 1 + length pr)) as Hlp
    by (rewrite length_app; cbn [length]; rewrite !length_map; lia).
  assert (new ∈ dom G1) as Hnd by (unfold G1; rewrite dom_insert_L; set_solver +).
  destruct (holds_inner _ _ _ _ _ _ Hp) as (_ & _ & Hm31). rewrite (wrap_small 32 (zlen pl + 1)) by (split; lia).
  replace (zlen pl + 1) with (Z.of_nat (S (length pl))) by lia.
  apply (insert_split_result_spec _ _ _ _ _ _ _ _ _ _ (S (length pl)) _ _ _ Hst Hp1); [lia|lia|done| |].
  { by apply (st_index _ _ _ _ _ _ _ new Hst). }
  intros b3 t4 Hb3 Hst4.
  replace (map node_id pl ++ lf :: map node_id pr) with (map node_id (pl ++ Leaf lf vals :: pr)) in Hb3 by by rewrite map_app.
  change new with (node_id (Leaf new [])) in Hb3. rewrite insert_at_map in Hb3. cbn [node_id] in Hb3.
  replace (S (length pl) - 1)%nat with (length pl) in Hb3 by lia.
  destruct (split_leaf_rep anc _ cs G n t4 h b1 b2 b3 Hrep Hnew Hl Hin S1 S2 Hb1 Hb2 Hb3 Hst4) as [Hrep' Hkeep]. fold G1 in Hrep', Hkeep.
  assert (zlen (vals1 ++ vals2) < 2 ^ 32 - 1) as Hb32.
  { pose proof (tr_stored _ _ _ _ _ _ _ _ Hrep) as Hs. apply (stored_perm _ _ _ _ _ Hold), Forall_cons in Hs as [_ Hs].
    apply Forall_cons in Hs as [Hlf _]. destruct (holds_leaf _ _ _ _ _ Hlf) as (_ & Hc' & _).
    destruct Hcfg. unfold node_header_size in *. nia. }
  eapply (for_cursors_spec cfg bs _ (inserted_rel tr' id (length (pre_of fs) + k))); [exact Hst4|exact Hrel| |].
  - intros i c q t5 Hcur Hst5. eapply (split_leaf_cursor anc); [exact Hrep|done|exact Hst5|by apply holds_eq| |done..].
    rewrite <- (length_map node_id pl). by apply list_lookup_middle.
  - intros cs' t5 Hrel' Hks Hst5. eexists _, cs', _, tr', h. split_and!; try done.
    unfold tr', tr. rewrite (split_leaf_contents _ _ pk). fold fs. rewrite plug_contents, Hvals. cbn [contents]. symmetry. by apply insert_at_app.
Qed.
End child.

(** ** The leaf is the root *)

Section root.
Context (R lf new : Z) (vals vals1 vals2 : list bytes) (sk : bytes).
Let tr := Leaf lf vals.
Let tr' := Inner R [sk] [Leaf lf vals1; Leaf new vals2].

Lemma root_leaf_rep anc anc' cs G n t b1 b2 b3 :
  let G' := <[R := b3]> (<[new := b2]> (<[lf := b1]> G)) in
  tree_rep anc G 0 tr -> G !! new = None -> G !! R = None -> new <> R -> length (vals1 ++ vals2) = S (length vals) ->
  shape 0 None (Some sk) (Leaf lf vals1) -> shape 0 (Some sk) None (Leaf new vals2) ->
  body_ok b1 (LeafBody vals1) -> body_ok b2 (LeafBody vals2) -> body_ok b3 (InnerBody [sk] [lf; new]) ->
  st anc' cs G' n t ->
  tree_rep (sized (grown R (set_right lf new (more_leaves 1 anc)))) G' 1 tr' /\ keeps G (ids tr) G' (ids tr').
Proof.
  intros G' Hrep Hnew HR HnR Hlen S1 S2 H1' H2' H3' Hst. destruct Hrep as [Rs Rst Rnd Rh Rr Rsz Rl Rri Rle Rin].
  assert (forall k, G !! k = None -> k <> lf) as Hfr.
  { intros k Hk ->. apply Forall_cons in Rst as [(b & Hb & _) _]. cbn in Hb. congruence. }
  assert (NoDup [R; lf; new]) as Hnd.
  { pose proof (Hfr _ Hnew). pose proof (Hfr _ HR). rewrite !NoDup_cons, !not_elem_of_cons. split_and!; try done; try apply not_elem_of_nil. apply NoDup_nil_2. }
  assert (shape 1 None None tr') as Hsh' by (cbn; split; [lia|done]).
  assert (stored G' (blocks_of tr')) as Hst' by (apply (stored_split cfg bs G R lf new _ _ _ b1 b2 b3 []); [done|constructor|done..]).
  destruct (tree_bounds _ _ _ _ Hcfg _ _ _ _ _ _ _ _ _ Hst Hst' Hnd Hsh') as (Bc & Bl & _).
  assert (zlen (contents tr') = zlen (contents tr) + 1) as Hcl by (cbn [contents tr tr' map concat]; rewrite app_nil_r; lia).
  cbn [leaf_ids map concat head last tr] in *. injection Rl as Rl. injection Rri as Rri.
  assert (set_right lf new (more_leaves 1 anc) = Anchor (size anc) (u64 (leaf_nodes anc + 1)) (internal_nodes anc) (height anc) (root anc) (leftmost anc) new) as ->.
  { unfold set_right. cbn [rightmost more_leaves]. rewrite <- Rri, Z.eqb_refl. done. }
  split.
  - split; try done; cbn [sized grown height root size leftmost rightmost leaf_nodes internal_nodes].
    + rewrite Rh. done.
    + rewrite Rsz, wrap_small; [lia|split; lia].
    + by rewrite <- Rl.
    + by rewrite Rle.
    + by rewrite Rin.
  - intros k b Hk Hnk. assert (k <> new) by congruence. assert (k <> R) by congruence.
    assert (k <> lf) by (intros ->; apply Hnk; by left). split; [unfold G'; by rewrite !lookup_insert_ne by done|].
    cbn. rewrite !not_elem_of_cons. split_and!; try done. apply not_elem_of_nil.
Qed.

Lemma root_leaf_cursor_spec anc cs G n t (k mid x : nat) (deleted prog : bool) id i :
  st anc cs G n t -> Z.of_nat x < 2 ^ 32 - 1 ->
  wp (root_leaf_cursor R lf new (Z.of_nat k) (Z.of_nat mid) id i (Cursor [] lf (Z.of_nat x) false deleted prog)) t
    (fun c' t' => c' = part_cursor [] R [] [] [] lf new mid (if decide (i <> id /\ (k <= x)%nat) then S x else x) deleted prog /\ st anc cs G n t').
Proof.
  intros Hst Hx. unfold root_leaf_cursor. cbn [c_invalid m_leaf m_parents length]. wp_step. wp_step. wp_step. wp_step. rewrite shifted_eq by done.
  set (y := if decide (i <> id /\ (k <= x)%nat) then S x else x). assert (Z.of_nat y < 2 ^ 32) by (unfold y; case_decide; lia).
  unfold part_cursor. destruct (Z.leb_spec (Z.of_nat mid) (Z.of_nat y)); wp_step; (split; [|done]).
  - rewrite decide_True by lia. rewrite !wrap_small by (split; lia). unfold set_position, set_parents. cbn. f_equal. lia.
  - by rewrite decide_False by lia.
Qed.
End root.

Lemma split_root_leaf_spec anc cs pos G n t lf new vals vals1 vals2 sk b1 b2 (k mid : nat) value id :
  tree_rep anc G 0 (Leaf lf vals) -> G !! new = None -> vals1 ++ vals2 = insert_at k value vals -> length vals1 = mid -> (k <= length vals)%nat ->
  zlen sk = key_size cfg -> shape 0 None (Some sk) (Leaf lf vals1) -> shape 0 (Some sk) None (Leaf new vals2) ->
  body_ok b1 (LeafBody vals1) -> body_ok b2 (LeafBody vals2) ->
  st (set_right lf new (more_leaves 1 anc)) cs (<[new := b2]> (<[lf := b1]> G)) (n + 1) t -> 0 <= n ->
  rel (seek_rel (Leaf lf vals) id (located [] lf k)) cs pos ->
  wp (split_root_leaf lf new (Z.of_nat k) (Z.of_nat mid) sk id) t (fun _ t' => insert_post cs pos G n (Leaf lf vals) id k value t').
Proof.
  intros Hrep Hnew Hvals Hm Hk Hkl S1 S2 Hb1 Hb2 Hst Hn Hrel. unfold split_root_leaf.
  assert (length (vals1 ++ vals2) = S (length vals)) as Hl by (rewrite Hvals; apply length_insert_at).
  assert (zlen (vals1 ++ vals2) < 2 ^ 32 - 1) as Hb32.
  { pose proof (tr_stored _ _ _ _ _ _ _ _ Hrep) as Hs. apply Forall_cons in Hs as [Hlf _]. destruct (holds_leaf _ _ _ _ _ Hlf) as (_ & Hc' & _).
    destruct Hcfg. unfold node_header_size in *. nia. }
  set (G1 := <[new := b2]> (<[lf := b1]> G)) in *.
  assert (new ∈ dom G1 /\ lf ∈ dom G1) as [Hd1 Hd2] by (unfold G1; rewrite !dom_insert_L; set_solver +).
  wp_step. eapply (create_root_spec cfg bs Hcfg supports1); [exact Hst|done|by apply (st_index _ _ _ _ _ _ _ lf Hst)|by apply (st_index _ _ _ _ _ _ _ new Hst)|done|].
  intros R b3 t1 HR Hb3 Hst1.
  assert (G !! R = None /\ new <> R) as [HRG HnR] by (unfold G1 in HR; rewrite !lookup_insert_None in HR; tauto).
  destruct (root_leaf_rep R lf new vals vals1 vals2 sk anc _ cs G n t1 b1 b2 b3 Hrep Hnew HRG HnR Hl S1 S2 Hb1 Hb2 Hb3 Hst1) as [Hrep' Hkeep].
  set (tr' := Inner R [sk] [Leaf lf vals1; Leaf new vals2]) in *.
  eapply (for_cursors_spec cfg bs _ (inserted_rel tr' id k)); [exact Hst1|exact Hrel| |].
  - intros i c q t2 Hcur Hst2. unfold seek_rel, inserted_rel in *. case_decide as Hi.
    + subst i c. eapply wp_mono; [eapply root_leaf_cursor_spec; [exact Hst2|lia]|]. cbn beta. intros c' t' [-> Hst']. split; [|done].
      rewrite decide_False by tauto. apply (part_cursor_path [] R [] [] [] lf new vals1 vals2 sk mid k false true Hm). lia.
    + destruct (c_invalid c) eqn:Hv.
      { unfold root_leaf_cursor. rewrite Hv. wp_step. split; [|done]. exists q. split; [|by eapply cursor_invalid].
        destruct q; try done; destruct Hcur as (? & _ & ? & ? & ? & ? & ? & ? & _ & _ & _ & ->); done. }
      destruct (cursor_on_path _ _ _ Hcur Hv) as (deleted & r & -> & ps & leaf & pre & vals0 & post & x & Hpath & -> & Hx & ->).
      apply at_path_sub, at_sub_leaf in Hpath as (-> & [= -> ->] & -> & ->).
      eapply wp_mono; [eapply root_leaf_cursor_spec; [exact Hst2|destruct deleted; lia]|]. cbn beta. intros c' t' [-> Hst']. split; [|done].
      by apply (part_inserted [] R [] [] [] lf new vals vals1 vals2 sk mid k x deleted id i).
  - intros cs' t2 Hrel' Hks Hst2. eexists _, cs', _, tr', 1%nat. split_and!; try done.
    cbn [contents map concat tr']. by rewrite app_nil_r.
Qed.
End split.
End btree_leaf_split.
