(* ===== verification/BTreeOps.v ===== *)
(** * Operations of B+ trees

    The specifications of [insert] and of the operations of cursors in terms
    of the sorted list of the values and of positions in it, and the theorems
    about sequences of operations. *)

From Stdlib Require Import Strings.Byte Sorting.Sorted.
From S2P Require Import Prelude MathOps Serialization Blocks EngineSpec FreeList Allocator BumpAllocator Extent BTreeNodes BTree BTreeShape BTreeStore BTreeSearch BTreePaths BTreeSplit BTreeCursors BTreeInsert BTreeLeafInsert BTreeLeafSplit.

Module btree_ops.
Import btree btree_shape btree_store btree_search btree_paths btree_split btree_cursors btree_insert btree_leaf_insert btree_leaf_split.

Section ops.
Context {A : Type} `{AllocatorSpec A}.
Context (derive_key : bytes -> bytes) (key_less : bytes -> bytes -> bool) `{KeyOrder key_less}.
Context (cfg : config) (bs : Z) (Hcfg : config_ok cfg bs) (supports1 : al_supports 1).
Abbreviation T := (tree A).
Abbreviation st := (st cfg bs).
Abbreviation holds := (holds cfg bs).
Abbreviation stored := (stored cfg bs).
Abbreviation shape := (shape derive_key key_less).
Abbreviation tree_rep := (tree_rep derive_key key_less cfg bs).
Abbreviation insert_post := (insert_post derive_key key_less cfg bs).
Abbreviation inv := (inv derive_key key_less cfg bs).
Abbreviation cap := (leaf_capacity cfg).
Abbreviation mc := (internal_max_children cfg).
Implicit Types (anc : anchor) (cs : list (nat * cursor)) (pos : list (nat * position)) (G : gmap Z bytes).
Implicit Types (n : Z) (t : T) (key value : bytes) (tr : node) (id : nat) (fs : list frame) (o : option node).

(** ** The insertion into the leaf *)

Section leaf.
Context (derive_length : forall v, zlen v = value_size cfg -> zlen (derive_key v) = key_size cfg).

(** The number of values that stay in a leaf that is split. *)
Lemma left_size_bounds lf anc :
  let left_size := if lf =? rightmost anc then cap else if lf =? leftmost anc then 1 else u32 (cap + 2) / 2 in
  0 < left_size <= cap.
Proof.
  destruct Hcfg. unfold node_header_size in *. assert (cap + 4 <= bs) by nia. cbn zeta.
  destruct (lf =? rightmost anc); [lia|]. destruct (lf =? leftmost anc); [lia|]. rewrite wrap_small by (split; lia).
  split; [apply Z.div_str_pos; lia|]. apply Z.div_le_upper_bound; lia.
Qed.

Lemma insert_split_spec anc cs pos G n t fs lf vals (k : nat) value id p0 :
  let tr := plug fs (Leaf lf vals) in
  st anc cs G (n + budget 0 fs) t -> 0 <= n -> tree_rep anc G (length fs) tr ->
  rel (seek_rel tr id (located fs lf k)) cs pos -> find_cursor id pos = Some p0 ->
  match last fs with Some f => Z.of_nat (length (f_left f) + 1 + length (f_right f)) < mc | None => True end ->
  (k <= length vals)%nat -> zlen vals = cap -> zlen value = value_size cfg ->
  shape 0 (hole_lo None fs) (hole_hi None fs) (Leaf lf (insert_at k value vals)) ->
  wp (insert_split derive_key lf (Z.of_nat k) cap value id) t (fun _ t' =>
    insert_post cs pos G n tr id (length (pre_of fs) + k) value t').
Proof.
  intros tr Hst Hn Hrep Hrel Hid Hfull Hk Hcap Hv Hsh. assert (stored G (blocks_of tr)) as Hs by apply Hrep.
  assert (holds G lf (LeafBody vals)) as Hl by (eapply leaf_holds; [exact Hs|apply at_path_sub, at_sub_plug]).
  unfold insert_split. wp_step. replace (n + budget 0 fs) with ((n + (budget 0 fs - 1)) + 1) in Hst by lia.
  assert (0 <= n + (budget 0 fs - 1)) as Hn' by (unfold budget; destruct fs; lia).
  apply (create_leaf_spec _ _ Hcfg supports1 _ _ _ _ _ _ Hst Hn'). intros new b0 t1 Hnew Hb0 Hst1.
  assert (lf <> new) as Hne by (intros ->; destruct Hl as (? & ? & _); congruence).
  wp_step. apply (get_anchor_spec _ _ _ _ _ _ _ _ Hst1). cbn [rightmost leftmost height more_leaves].
  wp_step. apply (get_config_spec _ _ _ _ _ _ _ _ Hst1). pose proof (left_size_bounds lf anc) as Hmid. cbn zeta in Hmid.
  set (left_size := if lf =? rightmost anc then cap else if lf =? leftmost anc then 1 else u32 (cap + 2) / 2) in *. clearbody left_size.
  set (vals' := insert_at k value vals) in *. set (mid := Z.to_nat left_size).
  assert (length vals' = S (length vals)) as Hlen by apply length_insert_at.
  wp_step. eapply (node_write2_spec _ _ _ _ _ _ _ lf new _ _ (LeafBody (take mid vals')) (LeafBody (drop mid vals')) _ (fun _ => True) _ Hst1 Hne);
    [by apply holds_ne|by apply holds_eq| |].
  { intros b1 b2 [Hl1 Hb1] [Hl2 Hb2]. eapply wp_mono; [apply (leaf_insert_full_spec _ _ b1 b2 vals k value left_size Hb1 Hb2); [lia|done..]|].
    cbn beta. intros _ s (H1' & H2' & L1 & L2). split; [done|]. split; (split; [lia|done]). }
  intros [] b1 b2 t2 _ Hb1 Hb2 Hst2. rewrite (insert_insert_ne G), insert_insert_eq in Hst2 by done.
  destruct (vals' !! (mid - 1)%nat) as [v|] eqn:Hlast; [|apply lookup_ge_None in Hlast; lia].
  wp_step. rewrite wrap_small by (split; [lia|]; destruct (holds_leaf _ _ _ _ _ Hl) as (_ & ? & ?); lia).
  replace (left_size - 1) with (Z.of_nat (mid - 1)) by lia.
  apply (tree_leaf_get_spec _ _ _ _ _ _ _ lf (take mid vals') (mid - 1)%nat v _ Hst2); [by apply holds_ne, holds_eq|by rewrite lookup_take_lt by lia|].
  intros t3 Hst3. wp_step. destruct (split_leaf_shape derive_key key_less lf new _ _ vals' mid v Hsh) as (Hin & S1 & S2); [lia|done|].
  assert (zlen v = value_size cfg) as Hvl.
  { assert (holds (<[lf := b1]> G) lf (LeafBody (take mid vals'))) as Hl1 by by apply holds_eq.
    destruct (holds_leaf _ _ _ _ _ Hl1) as (Hall & _). apply (Forall_lookup_1 _ _ (mid - 1)%nat v Hall). by rewrite lookup_take_lt by lia. }
  assert (length (take mid vals') = mid) as Htk by (apply length_take_le; lia). replace left_size with (Z.of_nat mid) by lia.
  assert (forall t4, st (set_right lf new (more_leaves 1 anc)) cs (<[new := b2]> (<[lf := b1]> G)) (n + (budget 0 fs - 1)) t4 ->
    wp (if height anc =? 1 then split_root_leaf lf new (Z.of_nat k) (Z.of_nat mid) (derive_key v) id
        else split_child_leaf lf new (Z.of_nat k) (Z.of_nat mid) (derive_key v) id) t4
      (fun _ t' => insert_post cs pos G n tr id (length (pre_of fs) + k) value t')) as Hrest.
  { intros t4 Hst4. rewrite (tr_height _ _ _ _ _ _ _ _ Hrep). destruct fs as [|f fs _] using rev_ind.
    - change (Z.of_nat (length (@nil frame)) + 1 =? 1) with true. cbn iota.
      eapply (split_root_leaf_spec _ _ _ _ Hcfg supports1 anc cs pos G n t4 lf new vals (take mid vals') (drop mid vals') (derive_key v) b1 b2); try done; [|by apply derive_length].
      by rewrite take_drop.
    - destruct f as [p pk pl pr]. rewrite last_snoc in Hfull. cbn [f_left f_right] in Hfull.
      destruct (Z.eqb_spec (Z.of_nat (length (fs ++ [Frame p pk pl pr])) + 1) 1) as [Hz|_]; [rewrite length_app in Hz; cbn in Hz; lia|].
      eapply (split_child_leaf_spec _ _ _ _ Hcfg fs p pk pl pr lf new vals (take mid vals') (drop mid vals') (derive_key v) anc cs pos G n t4 _ b1 b2); try done; [by rewrite take_drop|by apply derive_length|].
      replace n with (n + (budget 0 (fs ++ [Frame p pk pl pr]) - 1)); [done|]. unfold budget. destruct (fs ++ [Frame p pk pl pr]) eqn:E; [by apply app_eq_nil in E as [_ ?]|lia]. }
  unfold set_right in Hrest. cbn [rightmost more_leaves] in Hrest. destruct (lf =? rightmost anc).
  - apply (mod_anchor_spec _ _ _ _ _ _ _ _ _ Hst3). intros t4 Hst4. by apply Hrest.
  - wp_step. by apply Hrest.
Qed.
End leaf.

(** ** The first value *)

Lemma node_write_bytes_spec {X} anc cs G n t i b (m : M bytes X) (P : X -> bytes -> Prop) (Q : X -> T -> Prop) :
  st anc cs G n t -> G !! i = Some b -> wp m b (fun r b' => P r b' /\ length b' = length b) ->
  (forall r b' t', P r b' -> st anc cs (<[i := b']> G) n t' -> Q r t') -> wp (node_write i m) t Q.
Proof.
  intros Hst Hi Hm HQ. unfold node_write. wp_step. apply (eng_read_spec _ _ _ _ _ _ _ _ _ _ Hst Hi). intros t1 Hst1.
  apply wp_run in Hm as (b' & r & -> & Hr & Hl). wp_step. apply (eng_store_spec _ _ _ _ _ _ _ _ _ _ _ Hst1 Hi); [lia|].
  intros t2 Hst2. wp_step. by eapply HQ.
Qed.

Lemma leaf_set_first_spec b v : leaf_ok (value_size cfg) cap b [] -> zlen v = value_size cfg -> 1 <= cap ->
  wp (leaf_node.set (value_size cfg) cap 0 v) b (fun _ b' =>
    (forall (i : nat) w, [v] !! i = Some w -> cell node_header_size (value_size cfg) (Z.of_nat i) b' = w) /\ length b' = length b).
Proof.
  intros Hok Hvl Hcap. pose proof Hok as [Hv Hl Hs Hc Hvals]. unfold node_header_size in Hl.
  unfold leaf_node.set, block_write, extent.check_range. wp_step. wp_step. do 3 wp_step.
  rewrite (leaf_offset _ _ b []) by (done || lia). rewrite Hvl. wp_step; [unfold node_header_size; nia|]. wp_step.
  split; [|apply length_splice; unfold node_header_size; nia].
  intros [|i] w Hi; [|done]. injection Hi as <-. rewrite (cell_put _ _ 0) by (unfold node_header_size; nia). by rewrite decide_True.
Qed.

Lemma insert_first_spec cs pos G n t value id p0 :
  st empty_anchor cs G (n + 1) t -> 0 <= n -> related (cursor_ok None) cs pos -> NoDup cs.*1 -> find_cursor id pos = Some p0 ->
  zlen value = value_size cfg ->
  wp (insert_first value id) t (fun _ t' => exists G' leaf, G !! leaf = None /\
    inv G' n (Some (Leaf leaf [value])) (update_cursor id (At 0) pos) t' /\ keeps G [] G' [leaf]).
Proof.
  intros Hst Hn Hrel Hnd Hid Hv. pose proof (cf_cap _ _ Hcfg) as Hc2. unfold insert_first. wp_step.
  apply (create_leaf_spec _ _ Hcfg supports1 _ _ _ _ _ _ Hst Hn). intros lf b0 t1 Hnew Hb0 Hst1. wp_step. unfold leaf_set. wp_step.
  apply (get_config_spec _ _ _ _ _ _ _ _ Hst1). destruct Hb0 as [Hbl Hb0].
  eapply (node_write_bytes_spec _ _ _ _ _ _ _ _ (fun _ b' =>
    (forall (i : nat) w, [value] !! i = Some w -> cell node_header_size (value_size cfg) (Z.of_nat i) b' = w) /\ length b' = length b0)
    _ Hst1 (lookup_insert_eq _ _ _)).
  { eapply wp_mono; [apply (leaf_set_first_spec b0 value); [done|done|lia]|]. cbn beta. intros _ b' [Hcell Hl]. done. }
  cbn beta. intros _ b1 t2 [Hcell Hl1] Hst2. rewrite insert_insert_eq in Hst2. wp_step. unfold leaf_set_size. wp_step.
  apply (get_config_spec _ _ _ _ _ _ _ _ Hst2).
  eapply (node_write_bytes_spec _ _ _ _ _ _ _ _ (fun _ b2 => body_ok cfg bs b2 (LeafBody [value])) _ Hst2 (lookup_insert_eq _ _ _)).
  { eapply wp_mono; [apply (leaf_set_size_spec _ _ b1 b0 [value] [] 1 Hb0 Hl1); [cbn; lia|done|done]|].
    cbn beta. intros _ b' [Hok Hl]. split; [|lia]. split; [lia|done]. }
  intros _ b2 t3 Hb2 Hst3. rewrite insert_insert_eq in Hst3.
  do 5 (wp_step; apply (mod_anchor_spec _ _ _ _ _ _ _ _ _ ltac:(eassumption)); intros ? ?).
  eapply put_cursor_spec; [eassumption|]. intros t4 Hst4. exists (<[lf := b2]> G), lf. split; [done|].
  assert (tree_ok derive_key key_less cfg bs (Anchor 1 1 0 1 lf lf lf) (<[lf := b2]> G) (Some (Leaf lf [value]))) as Hok.
  { exists 0%nat. split; try done.
    - cbn. split_and!; [done|repeat constructor|repeat constructor].
    - repeat constructor. by apply holds_eq.
    - cbn. apply NoDup_singleton. }
  split.
  - eapply inv_put; [exact Hok| |done| |exact Hst4].
    + eapply Forall2_impl; [exact Hrel|]. intros [i c] [j q] [Hij Hq]. split; [done|]. cbn [snd] in *.
      destruct q; try done; by destruct Hq as (? & ? & _).
    + exists (Leaf lf [value]). split; [done|]. exists [], lf, [], [value], [], 0%nat. split_and!; [constructor|done|cbn; lia|done].
  - intros k b Hk _. assert (k <> lf) by congruence. split; [by rewrite lookup_insert_ne|]. rewrite not_elem_of_cons. split; [done|apply not_elem_of_nil].
Qed.

(** ** Insertion *)

(** The position of [key] is [k] in the leaf below [fs]. *)
Record location anc cs pos G n tr id fs (lf : Z) vals (k : nat) key t : Prop := {
  lo_st : st anc cs G (n + budget 0 fs) t;
  lo_rep : tree_rep anc G (length fs) tr;
  lo_tree : tr = plug fs (Leaf lf vals);
  lo_rel : rel (seek_rel tr id (located fs lf k)) cs pos;
  lo_key : bounded key_less (hole_lo None fs) (hole_hi None fs) key;
  lo_full : match last fs with Some f => Z.of_nat (length (f_left f) + 1 + length (f_right f)) < mc | None => True end;
  lo_cut : cut (fun v => is_before key_less seek_bound_lower key (derive_key v)) vals k;
  lo_index : bound_index derive_key key_less seek_bound_lower key (contents tr) = (length (pre_of fs) + k)%nat
}.

Lemma seek_insert_location_spec anc cs pos G n t tr h key id p0 (Q : unit -> T -> Prop) :
  st anc cs G (n + budget h []) t -> 0 <= n -> tree_rep anc G h tr -> rel (seek_rel tr id (seeker [])) cs pos ->
  find_cursor id pos = Some p0 ->
  (forall anc' cs' G' tr' fs lf vals k t', location anc' cs' pos G' n tr' id fs lf vals k key t' -> cs'.*1 = cs.*1 ->
     contents tr' = contents tr -> keeps G (ids tr) G' (ids tr') -> Q tt t') ->
  wp (seek_insert_location derive_key key_less key id) t Q.
Proof.
  intros Hst Hn Hrep Hrel Hid HQ. unfold seek_insert_location. wp_step. apply (get_anchor_spec _ _ _ _ _ _ _ _ Hst).
  rewrite (tr_height _ _ _ _ _ _ _ _ Hrep), (tr_root _ _ _ _ _ _ _ _ Hrep). wp_step. wp_step; [apply Z.ltb_lt; lia|].
  replace (Z.to_nat (Z.of_nat h + 1) - 1)%nat with h by lia. wp_step.
  eapply (seek_insert_loop_spec derive_key key_less cfg bs Hcfg supports1 h anc cs pos G n tr [] tr); [|done|exact Hid|].
  { by split; [..|split|]. }
  intros anc' cs' G' tr' fs lf vals t1 [Kst Krep -> Krel Kkey Kfull] Hks Hct Hkp. rewrite Nat.add_0_r in Krep.
  assert (at_path (plug fs (Leaf lf vals)) (entries fs) lf (pre_of fs) vals (post_of fs)) as Hpath by apply at_path_sub, at_sub_plug.
  pose proof (leaf_holds _ _ _ _ _ _ _ _ _ (tr_stored _ _ _ _ _ _ _ _ Krep) Hpath) as Hl.
  destruct (rel_find _ _ _ _ _ Krel Hid) as (c & Hc & Hcr). unfold seek_rel in Hcr. rewrite decide_True in Hcr by done. subst c.
  assert (forall c, find_cursor id (update_cursor id c cs') = Some c) as Hfind by (intros c; by eapply find_update_eq).
  wp_step. apply (read_leaf_spec _ _ _ _ _ _ _ _ _ _ Kst Hl). intros t2 Hst2. wp_step.
  apply (mod_cursor_spec _ _ _ _ _ _ _ _ _ _ _ Hst2 Hc). intros t3 Hst3. wp_step.
  destruct (leaf_cut derive_key key_less seek_bound_lower key vals) as [k Hk]; [by eapply at_path_sorted; [done|apply Krep|]|].
  apply (bound_leaf_spec derive_key key_less cfg bs seek_bound_lower anc' _ G' _ t3 lf vals key k _ Hst3 Hl Hk). intros t4 Hst4.
  apply (mod_cursor_spec _ _ _ _ _ _ _ _ _ _ _ Hst4 (Hfind _)). rewrite update_update. intros t5 Hst5.
  change (set_index (Z.of_nat k) (set_position lf (m_index (seeker (entries fs))) (seeker (entries fs)))) with (located fs lf k) in Hst5.
  destruct (hole_sides derive_key key_less _ _ _ _ _ _ (tr_shape _ _ _ _ _ _ _ _ Krep) Kkey) as (_ & Hpre & Hpost).
  eapply (HQ anc' _ G' _ fs lf vals k t5); [split; try done| |done|done].
  - eapply rel_update; [| |exact Krel]; unfold seek_rel.
    + intros a c q Ha. by rewrite !decide_False.
    + intros c q _. by rewrite decide_True.
  - by eapply (path_cut derive_key key_less seek_bound_lower key _ _ _ _ _ _ k Hpath).
  - by rewrite update_keys.
Qed.

(** The blocks that one insertion may need: one for every level of the tree,
    of which there are less than 65, and a new root. *)
Definition insert_room : Z := 65.
Definition tree_ids o : list Z := match o with None => [] | Some tr => ids tr end.

Definition has_key key (l : list bytes) : bool :=
  match l !! bound_index derive_key key_less seek_bound_lower key l with
  | Some v => value_equal_key derive_key key_less v key
  | None => false
  end.

(** The inserting cursor is at the new value. *)
Definition inserted_pos id (R : nat) (p p' : nat * position) : Prop :=
  p.1 = p'.1 /\ if decide (p.1 = id) then p'.2 = At R else shift_pos R p.2 p'.2.

Definition inserted G n o pos value id (b : bool) t' : Prop :=
  exists G' o' pos', inv G' n o' pos' t' /\ keeps G (tree_ids o) G' (tree_ids o') /\
    let l := values o in let R := bound_index derive_key key_less seek_bound_lower (derive_key value) l in
    b = negb (has_key (derive_key value) l) /\
    values o' = (if b then insert_at R value l else l) /\
    (if b then Forall2 (inserted_pos id R) pos pos' else pos' = update_cursor id (At R) pos).

Lemma insert_finish cs pos G n tr id (R : nat) value p0 t :
  insert_post cs pos G n tr id R value t -> NoDup cs.*1 -> find_cursor id pos = Some p0 ->
  wp (mod_cursor id (set_inprogress false) ;;; let* a := get_anchor in set_size (u64 (size a + 1)) ;;; ret true) t (fun b t' =>
    b = true /\ exists G' tr' pos', inv G' n (Some tr') pos' t' /\ keeps G (ids tr) G' (ids tr') /\
      contents tr' = insert_at R value (contents tr) /\ Forall2 (inserted_pos id R) pos pos').
Proof.
  intros (anc' & cs' & G' & tr' & h' & Hst & Hrep & Hct & Hrel & Hks & Hkp) Hnd Hid.
  destruct (rel_find _ _ _ _ _ Hrel Hid) as (c & Hc & Hcr).
  wp_step. apply (mod_cursor_spec _ _ _ _ _ _ _ _ _ _ _ Hst Hc). intros t1 Hst1. wp_step.
  apply (get_anchor_spec _ _ _ _ _ _ _ _ Hst1). wp_step. apply (mod_anchor_spec _ _ _ _ _ _ _ _ _ Hst1). intros t2 Hst2. wp_step.
  split; [done|].
  destruct (rel_exists (fun i p p' => if decide (i = id) then p' = At R else shift_pos R p p') (cursor_ok (Some tr'))
    (update_cursor id (set_inprogress false c) cs') pos) as (pos' & Hrel' & Hs).
  { eapply rel_update; [| |exact Hrel]; unfold inserted_rel in *.
    - intros i c1 q Hi. rewrite decide_False by done. intros (p' & Hs & Hp'). exists p'. by rewrite decide_False.
    - intros c1 q _. rewrite decide_True in Hcr by done. exists (At R). rewrite decide_True by done. split; [done|]. by exists tr'. }
  exists G', tr', pos'. split_and!; [|done|done|done]. eexists _, _. split_and!; [exact Hst2|by exists h'|done|].
  by rewrite update_keys, Hks.
Qed.

Section insert.
Context (derive_length : forall v, zlen v = value_size cfg -> zlen (derive_key v) = key_size cfg).

Lemma insert_located_spec anc cs pos G n t tr id fs lf vals (k : nat) value p0 :
  location anc cs pos G n tr id fs lf vals k (derive_key value) t -> 0 <= n -> find_cursor id pos = Some p0 -> NoDup cs.*1 ->
  zlen value = value_size cfg -> (forall v, vals !! k = Some v -> value_equal_key derive_key key_less v (derive_key value) = false) ->
  wp (if zlen vals <? cap then insert_simple lf (Z.of_nat k) value id else insert_split derive_key lf (Z.of_nat k) (zlen vals) value id) t
    (fun _ t' => insert_post cs pos G n tr id (length (pre_of fs) + k) value t').
Proof.
  intros [Hst Hrep -> Hrel Hkey Hfull Hcut _] Hn Hid Hnd Hv Hne.
  destruct (plug_shape _ _ _ _ _ _ _ (tr_shape _ _ _ _ _ _ _ _ Hrep)) as (h' & Hh' & Hsl & _). assert (h' = 0)%nat as -> by lia.
  assert (shape 0 (hole_lo None fs) (hole_hi None fs) (Leaf lf (insert_at k value vals))) as Hsh by by eapply insert_shape.
  assert (holds G lf (LeafBody vals)) as Hl.
  { eapply leaf_holds; [apply (tr_stored _ _ _ _ _ _ _ _ Hrep)|apply at_path_sub, at_sub_plug]. }
  destruct (holds_leaf _ _ _ _ _ Hl) as (_ & Hcap & _). assert (k <= length vals)%nat as Hk by apply Hcut.
  destruct (Z.ltb_spec (zlen vals) cap).
  - eapply (insert_simple_spec derive_key key_less cfg bs Hcfg anc cs pos G n t fs lf vals k value id (length fs)); try done.
    eapply st_weaken; [exact Hst|]. unfold budget. destruct fs; lia.
  - replace (zlen vals) with cap by lia. eapply insert_split_spec; try done. lia.
Qed.

(** The cursors of an empty tree. *)
Lemma inserted_pos_first cs pos id : related (cursor_ok None) cs pos ->
  Forall2 (inserted_pos id 0) pos (update_cursor id (At 0) pos).
Proof.
  induction 1 as [|[i c] [j q] cs pos [Hij Hq] _ IH]; [constructor|]. cbn [fst snd] in *. constructor; [|done].
  unfold inserted_pos. cbn [fst snd]. case_decide as Hj; [by subst|]. split; [done|].
  destruct q; try done; by destruct Hq as (? & ? & _).
Qed.

(** The value exists, only the inserting cursor moves. *)
Lemma located_related tr id fs lf vals (k : nat) cs pos :
  rel (seek_rel tr id (located fs lf k)) cs pos -> at_path tr (entries fs) lf (pre_of fs) vals (post_of fs) -> (k < length vals)%nat ->
  related (cursor_ok (Some tr)) (update_cursor id (set_inprogress false (located fs lf k)) cs)
    (update_cursor id (At (length (pre_of fs) + k)) pos).
Proof.
  intros Hrel Hpath Hk. induction Hrel as [|[i c] [j q] l1 l2 [Hij Hq] _ IH]; [constructor|]. cbn [fst snd] in *. subst j.
  constructor; [|done]. cbn [fst snd]. unfold seek_rel in Hq. case_decide; [|done]. split; [done|]. exists tr. split; [done|].
  by exists (entries fs), lf, (pre_of fs), vals, (post_of fs), k.
Qed.

Lemma insert_exact_spec G n room o pos t value id p0 :
  inv G (n + room) o pos t -> height (m_anchor t) < room -> 0 <= n -> find_cursor id pos = Some p0 -> zlen value = value_size cfg ->
  wp (insert derive_key key_less value id) t (inserted G n o pos value id).
Proof.
  intros (anc & cs & Hst & Hok & Hrel & Hnd) Hroom Hn Hid Hv. rewrite (st_anchor _ _ _ _ _ _ _ Hst) in Hroom. unfold insert. wp_step. apply (get_anchor_spec _ _ _ _ _ _ _ _ Hst).
  destruct o as [tr|].
  2: { cbn in Hok. subst anc. cbn [height empty_anchor] in Hroom. cbn [size empty_anchor]. change (0 =? 0) with true. cbn iota. wp_step.
       eapply wp_mono; [eapply (insert_first_spec cs pos G n); try done; eapply st_weaken; [exact Hst|lia]|].
       cbn beta. intros _ t1 (G' & lf & Hlf & Hinv & Hkp). wp_step. exists G', (Some (Leaf lf [value])), (update_cursor id (At 0) pos).
       split; [done|]. split; [done|]. cbn zeta. split_and!; [done|done|]. by eapply inserted_pos_first. }
  destruct Hok as [h Hrep]. rewrite (tr_height _ _ _ _ _ _ _ _ Hrep) in Hroom.
  pose proof (shape_nonempty _ _ _ _ _ _ (tr_shape _ _ _ _ _ _ _ _ Hrep)) as Hne. rewrite (tr_size _ _ _ _ _ _ _ _ Hrep).
  destruct (Z.eqb_spec (zlen (contents tr)) 0) as [Hz|_]; [destruct (contents tr); [done|cbn in Hz; lia]|].
  destruct (related_find _ _ _ _ _ Hrel Hid) as (c0 & Hc0 & _).
  wp_step. apply (put_cursor_spec _ _ _ _ _ _ _ _ _ _ Hst). intros t1 Hst1. wp_step.
  eapply (seek_insert_location_spec anc _ pos G n t1 tr h); [eapply st_weaken; [exact Hst1|unfold budget; lia]|done|done| |exact Hid|].
  { eapply (rel_update (fun _ => cursor_ok (Some tr))); [| |exact Hrel]; unfold seek_rel.
    - intros i c q Hi. by rewrite decide_False.
    - intros c q _. by rewrite decide_True. }
  intros anc' cs' G' tr' fs lf vals k t2 Hloc Hks Hct Hkp. rewrite update_keys in Hks.
  assert (NoDup cs'.*1) as Hnd' by by rewrite Hks.
  pose proof Hloc as [Lst Lrep -> Lrel Lkey Lfull Lcut Lidx].
  assert (at_path (plug fs (Leaf lf vals)) (entries fs) lf (pre_of fs) vals (post_of fs)) as Hpath by apply at_path_sub, at_sub_plug.
  pose proof (leaf_holds _ _ _ _ _ _ _ _ _ (tr_stored _ _ _ _ _ _ _ _ Lrep) Hpath) as Hl.
  destruct (rel_find _ _ _ _ _ Lrel Hid) as (c & Hc & Hcr). unfold seek_rel in Hcr. rewrite decide_True in Hcr by done. subst c.
  wp_step. apply (get_cursor_spec _ _ _ _ _ _ _ _ _ _ Lst Hc). cbn [m_leaf m_index located]. wp_step.
  apply (leaf_size_spec _ _ _ _ _ _ _ _ _ _ Lst Hl). intros t3 Hst3. rewrite Hct in Lidx.
  assert (contents tr !! bound_index derive_key key_less seek_bound_lower (derive_key value) (contents tr) = if decide (k < length vals)%nat then vals !! k else contents tr !! (length (pre_of fs) + k)%nat) as Hlook.
  { rewrite Lidx. case_decide; [|done]. rewrite <- Hct, (at_path_contents _ _ _ _ _ _ Hpath), lookup_app_r, lookup_app_l by lia.
    by replace (length (pre_of fs) + k - length (pre_of fs))%nat with k by lia. }
  assert (forall t4, st anc' cs' G' (n + budget 0 fs) t4 -> has_key (derive_key value) (contents tr) = false ->
    (forall v, vals !! k = Some v -> value_equal_key derive_key key_less v (derive_key value) = false) ->
    wp (let* cfg := get_config in
        (if zlen vals <? leaf_capacity cfg then insert_simple lf (Z.of_nat k) value id
         else insert_split derive_key lf (Z.of_nat k) (zlen vals) value id) ;;;
        mod_cursor id (set_inprogress false) ;;; let* a := get_anchor in set_size (u64 (size a + 1)) ;;; ret true) t4
      (inserted G n (Some tr) pos value id)) as Hins.
  { intros t4 Hst4 Hhas Hnk. wp_step. apply (get_config_spec _ _ _ _ _ _ _ _ Hst4). wp_step.
    eapply wp_mono; [eapply (insert_located_spec anc' cs' pos G' n t4 _ id fs lf vals k value); try done; split; try done; by rewrite Hct|].
    cbn beta. intros _ t5 Hpost. eapply wp_mono; [by eapply insert_finish|]. cbn beta.
    intros b t6 (-> & G2 & tr2 & pos2 & Hinv2 & Hkp2 & Hct2 & Hpos2). exists G2, (Some tr2), pos2. cbn [values tree_ids].
    split_and!; [done|by eapply keeps_trans|by rewrite Hhas|by rewrite Hct2, Lidx, Hct|by rewrite Lidx]. }
  wp_step. destruct (Z.ltb_spec (Z.of_nat k) (zlen vals)) as [Hlt|Hge].
  - destruct (vals !! k) as [v|] eqn:Hvk; [|apply lookup_ge_None in Hvk; lia]. rewrite decide_True in Hlook by lia.
    wp_step. apply (tree_leaf_get_spec _ _ _ _ _ _ _ _ _ _ v _ Hst3 Hl Hvk). intros t4 Hst4. wp_step.
    destruct (value_equal_key derive_key key_less v (derive_key value)) eqn:Heq.
    + wp_step. apply (mod_cursor_spec _ _ _ _ _ _ _ _ _ _ _ Hst4 Hc). intros t5 Hst5. wp_step.
      exists G', (Some (plug fs (Leaf lf vals))), (update_cursor id (At (length (pre_of fs) + k)) pos). cbn [values tree_ids].
      split_and!; [|done|unfold has_key; by rewrite Hlook, Heq|done|by rewrite Lidx].
      eexists anc', _. split_and!; [eapply st_weaken; [exact Hst5|unfold budget; destruct fs; lia]|by eexists| |by rewrite update_keys].
      eapply located_related; [exact Lrel|exact Hpath|lia].
    + apply Hins; [done|unfold has_key; by rewrite Hlook, Heq|]. intros w Hw. congruence.
  - wp_step. apply Hins; [done| |intros w Hw; apply lookup_lt_Some in Hw; lia].
    unfold has_key. rewrite Lidx. destruct (contents tr !! (length (pre_of fs) + k)%nat) as [w|] eqn:Hw; [|done].
    apply lt_not_equal. destruct (hole_sides derive_key key_less _ _ _ _ _ _ (tr_shape _ _ _ _ _ _ _ _ Lrep) Lkey) as (_ & _ & Hpost).
    assert (k = length vals) as -> by (destruct Lcut as [? _]; lia).
    rewrite <- Hct, (at_path_contents _ _ _ _ _ _ Hpath), lookup_app_r, lookup_app_r in Hw by lia. by eapply (Forall_lookup_1 _ _ _ _ Hpost).
Qed.

(** A tree has less than 65 levels. *)
Lemma height_bound G n o pos t : inv G n o pos t -> height (m_anchor t) < insert_room.
Proof.
  intros (anc & cs & Hst & Hok & _). rewrite (st_anchor _ _ _ _ _ _ _ Hst). unfold insert_room. destruct o as [tr|]; [|cbn in Hok; by subst anc].
  destruct Hok as [h Hrep]. rewrite (tr_height _ _ _ _ _ _ _ _ Hrep).
  destruct (tree_bounds _ _ _ _ Hcfg _ _ _ _ _ _ _ _ _ Hst (tr_stored _ _ _ _ _ _ _ _ Hrep) (tr_nodup _ _ _ _ _ _ _ _ Hrep) (tr_shape _ _ _ _ _ _ _ _ Hrep)) as (_ & _ & Hh). lia.
Qed.
Lemma insert_spec G n o pos t value id p0 :
  inv G (n + insert_room) o pos t -> 0 <= n -> find_cursor id pos = Some p0 -> zlen value = value_size cfg ->
  wp (insert derive_key key_less value id) t (inserted G n o pos value id).
Proof. intros Hinv. eapply insert_exact_spec; [exact Hinv|by eapply height_bound]. Qed.
End insert.
(** ** Replacing a value *)

Definition same_key v w : Prop := le key_less (derive_key v) (derive_key w) /\ le key_less (derive_key w) (derive_key v).

Lemma equal_same_key v w : value_equal_key derive_key key_less v (derive_key w) = true -> same_key v w.
Proof.
  unfold value_equal_key, key_equal, same_key, le. rewrite andb_true_iff, !negb_true_iff. tauto.
Qed.

Lemma replace_shape i lo hi vals (k : nat) v w : shape 0 lo hi (Leaf i vals) -> vals !! k = Some v -> same_key v w ->
  shape 0 lo hi (Leaf i (<[k := w]> vals)).
Proof.
  intros (Hne & Hs & Hr) Hk [Hvw Hwv]. pose proof (lookup_lt_Some _ _ _ Hk) as Hlt. cbn [btree_shape.shape].
  rewrite (insert_take_drop _ _ _ Hlt). rewrite <- (take_drop_middle _ _ _ Hk) in Hs, Hr.
  apply sorted_app in Hs as (S1 & S2 & S3). apply Forall_app in Hr as [R1 R2]. apply Forall_cons in R2 as [Rv R2].
  split; [by destruct (take k vals)|]. split.
  - apply sorted_app. apply StronglySorted_inv in S2 as [S2 S4]. split_and!; [done| |].
    + constructor; [done|]. eapply Forall_impl; [exact S4|]. intros u Hu. by eapply le_lt_trans.
    + intros u u' Hu [->|Hu']%elem_of_cons; [|apply S3; [done|by right]]. apply (lt_le_trans key_less _ (derive_key v)); [apply S3; [done|by left]|done].
  - apply Forall_app. split; [done|]. constructor; [|done]. destruct Rv as [Ra Rb]. split; [by eapply above_le|by eapply below_le].
Qed.

(** The cursors keep their positions. *)
Lemma replace_cursor h fs lf vals vals' c p :
  let tr := plug fs (Leaf lf vals) in
  shape h None None tr -> NoDup (ids tr) -> length vals' = length vals -> cursor_ok (Some tr) c p ->
  cursor_ok (Some (plug fs (Leaf lf vals'))) c p.
Proof.
  intros tr Hsh Hnd Hlen Hc. destruct (c_invalid c) eqn:Hv; [by eapply cursor_invalid|].
  destruct (cursor_on_path _ _ _ Hc Hv) as (deleted & r & -> & ps & leaf & pre & vals0 & post & x & Hp & -> & Hx & ->).
  assert (at_path tr (entries fs) lf (pre_of fs) vals (post_of fs)) as Hpath by apply at_path_sub, at_sub_plug.
  destruct (at_path_height _ _ _ _ _ _ _ _ _ _ _ Hsh Hp) as [Hh1 _].
  destruct (at_path_height _ _ _ _ _ _ _ _ _ _ _ Hsh Hpath) as [Hh2 _]. rewrite length_entries in Hh2.
  apply at_path_sub in Hp. apply cursor_ok_path.
  destruct (replace_cases fs (Leaf lf vals) ps (Leaf leaf vals0) pre post Hnd Hp) as
    [(ps' & pre' & post' & -> & Hsub & -> & ->)|[_ [(a & -> & Hn)|(b & -> & Hn)]]]; [lia| | |].
  - apply at_sub_leaf in Hsub as (-> & [= -> ->] & -> & ->). rewrite !app_nil_r.
    exists (entries fs), lf, (pre_of fs), vals', (post_of fs), x. split_and!; [apply at_path_sub, at_sub_plug|done|destruct deleted; lia|done].
  - exists ps, leaf, pre, vals0. eexists _, x. split_and!; [apply at_path_sub, (Hn (Leaf lf vals'))|done..].
  - exists ps, leaf. eexists _, vals0, post, x. split_and!; [apply at_path_sub, (Hn (Leaf lf vals'))| |done|done].
    cbn [contents]. by rewrite !length_app, Hlen.
Qed.

(** The assignment of a value with the same key. *)
Lemma tree_leaf_set_spec anc cs pos G n t h tr ps lf pre vals post (k : nat) v w :
  st anc cs G n t -> tree_rep anc G h tr -> related (cursor_ok (Some tr)) cs pos -> NoDup cs.*1 ->
  at_path tr ps lf pre vals post -> vals !! k = Some v -> same_key v w -> zlen w = value_size cfg ->
  wp (leaf_set lf (Z.of_nat k) w) t (fun _ t' => exists G' tr', inv G' n (Some tr') pos t' /\ keeps G (ids tr) G' (ids tr') /\
    contents tr' = <[(length pre + k)%nat := w]> (contents tr)).
Proof.
  intros Hst Hrep Hrel Hnd Hp Hk Hkey Hw. pose proof (lookup_lt_Some _ _ _ Hk) as Hlt.
  assert (holds G lf (LeafBody vals)) as Hl by (eapply leaf_holds; [apply (tr_stored _ _ _ _ _ _ _ _ Hrep)|done]).
  unfold leaf_set. wp_step. apply (get_config_spec _ _ _ _ _ _ _ _ Hst).
  eapply (tree_node_write_spec _ _ _ _ _ _ _ lf _ (LeafBody (<[k := w]> vals)) _ (fun _ => True) _ Hst Hl).
  { intros b [Hlb Hb]. eapply wp_mono; [by apply (leaf_set_spec _ _ b vals k w Hb)|].
    cbn beta. intros _ b' [Hb' Hl']. split; [done|]. split; [lia|done]. }
  intros _ b t1 _ Hb Hst1. apply at_path_sub, at_sub_inv in Hp as (fs & -> & -> & -> & ->).
  destruct (plug_shape _ _ _ _ _ _ _ (tr_shape _ _ _ _ _ _ _ _ Hrep)) as (h' & Hh' & Hsl & _).
  assert (h' = 0)%nat as -> by (destruct h'; [done|by destruct Hsl]).
  destruct (leaf_change_rep derive_key key_less cfg bs Hcfg anc G n t1 cs fs lf vals (<[k := w]> vals) h b) as (Hrep' & Hkp & _); try done.
  { by eapply replace_shape. }
  exists (<[lf := b]> G), (plug fs (Leaf lf (<[k := w]> vals))).
  assert (contents (plug fs (Leaf lf (<[k := w]> vals))) = <[(length (pre_of fs) + k)%nat := w]> (contents (plug fs (Leaf lf vals)))) as Hct.
  { rewrite !plug_contents. cbn [contents]. rewrite insert_app_r, insert_app_l by lia. done. }
  split_and!; [|done|done]. exists anc, cs. split_and!; [done| | |done].
  - exists h. replace anc with (with_size (zlen (contents (plug fs (Leaf lf (<[k := w]> vals))))) anc) at 1; [done|].
    rewrite Hct, length_insert, <- (tr_size _ _ _ _ _ _ _ _ Hrep). by destruct anc.
  - eapply Forall2_impl; [exact Hrel|]. intros c p [Hi Hc]. split; [done|].
    eapply replace_cursor; [apply Hrep|apply Hrep|apply length_insert|done].
Qed.

(** ** Cursor operations *)

Lemma move_next_spec G n o pos id p p' t :
  inv G n o pos t -> find_cursor id pos = Some p -> next_pos (values o) p = Some p' ->
  wp (move_next id) t (fun b t' => b = is_at p' /\ inv G n o (update_cursor id p' pos) t').
Proof.
  intros (anc & cs & Hst & Hok & Hrel & Hnd) Hid Hp. destruct (related_find _ _ _ _ _ Hrel Hid) as (c & Hc & Hcp).
  destruct p as [|r|r|]; [done| | |].
  1,2: destruct Hcp as (tr & -> & ps & leaf & pre & vals & post & k & Hpath & -> & Hk & ->); destruct Hok as [h Hrep]; injection Hp as <-;
    eapply wp_mono; [eapply (move_next_path derive_key key_less cfg bs Hcfg anc cs pos G n h tr id _ ps leaf pre vals post k t Hst Hrep Hrel Hnd Hpath); [|exact Hc]; exact Hk|].
  - cbn [values]. intros b t'. by rewrite Nat.add_succ_r.
  - done.
  - injection Hp as <-. cbn in Hcp. subst c. unfold move_next. wp_step. apply (get_cursor_spec _ _ _ _ _ _ _ _ _ _ Hst Hc).
    cbn [c_deleted c_invalid set_deleted invalid_cursor reset_to_invalid andb]. wp_step.
    apply (put_cursor_spec _ _ _ _ _ _ _ _ _ _ Hst). intros t1 Hst1. wp_step. split; [done|]. by eapply inv_put.
Qed.

Lemma move_prev_spec G n o pos id p p' t :
  inv G n o pos t -> find_cursor id pos = Some p -> prev_pos (values o) p = Some p' ->
  wp (move_prev id) t (fun b t' => b = is_at p' /\ inv G n o (update_cursor id p' pos) t').
Proof.
  intros (anc & cs & Hst & Hok & Hrel & Hnd) Hid Hp. destruct (related_find _ _ _ _ _ Hrel Hid) as (c & Hc & Hcp).
  destruct p as [|r|r|]; [done| | |].
  1,2: destruct Hcp as (tr & -> & ps & leaf & pre & vals & post & k & Hpath & -> & Hk & ->); destruct Hok as [h Hrep];
    eapply wp_mono; [eapply (move_prev_path derive_key key_less cfg bs Hcfg anc cs pos G n h tr id _ ps leaf pre vals post k t Hst Hrep Hrel Hnd Hpath); [|exact Hc]; exact Hk|];
    intros b t'; cbn zeta; destruct (length pre + k)%nat; by injection Hp as <-.
  - injection Hp as <-. cbn in Hcp. subst c. unfold move_prev. wp_step. apply (get_cursor_spec _ _ _ _ _ _ _ _ _ _ Hst Hc).
    cbn [c_deleted c_invalid set_deleted invalid_cursor reset_to_invalid andb]. wp_step.
    apply (put_cursor_spec _ _ _ _ _ _ _ _ _ _ Hst). intros t1 Hst1. wp_step. split; [done|]. by eapply inv_put.
Qed.

(** The cursors that are not at a value. *)
Lemma not_at_flags o c p : cursor_ok o c p -> is_at p = false -> c_inprogress c = false /\ (c_deleted c = true \/ c_invalid c = true).
Proof.
  destruct p as [|r|r|]; [intros ->; auto|done| |intros ->; auto].
  intros (tr & _ & ps & leaf & pre & vals & post & k & _ & _ & _ & ->) _. auto.
Qed.

Lemma cursor_get_error G n o pos id p t :
  inv G n o pos t -> find_cursor id pos = Some p -> is_at p = false -> cursor_get id t = (t, Err bad_cursor).
Proof.
  intros (anc & cs & Hst & Hok & Hrel & Hnd) Hid Hp. destruct (related_find _ _ _ _ _ Hrel Hid) as (c & Hc & Hcp).
  destruct (not_at_flags _ _ _ Hcp Hp) as [Hf1 Hf2]. unfold cursor_get, get_cursor, check_element_valid, gets, bind, throw_if.
  rewrite (st_cursors _ _ _ _ _ _ _ Hst), Hc. cbn. rewrite Hf1. cbn. destruct Hf2 as [-> | ->]; [done|]. by destruct (c_deleted c).
Qed.

Lemma cursor_set_error G n o pos id p value t :
  inv G n o pos t -> find_cursor id pos = Some p -> is_at p = false ->
  cursor_set derive_key value id t = (t, Err bad_cursor).
Proof.
  intros (anc & cs & Hst & Hok & Hrel & Hnd) Hid Hp. destruct (related_find _ _ _ _ _ Hrel Hid) as (c & Hc & Hcp).
  destruct (not_at_flags _ _ _ Hcp Hp) as [Hf1 Hf2]. unfold cursor_set, get_cursor, check_element_valid, gets, bind, throw_if.
  rewrite (st_cursors _ _ _ _ _ _ _ Hst), Hc. cbn. rewrite Hf1. cbn. destruct Hf2 as [-> | ->]; [done|]. by destruct (c_deleted c).
Qed.

Lemma move_error G n o pos id t :
  inv G n o pos t -> find_cursor id pos = Some AtEnd ->
  move_next id t = (t, Err bad_cursor) /\ move_prev id t = (t, Err bad_cursor).
Proof.
  intros (anc & cs & Hst & Hok & Hrel & Hnd) Hid. destruct (related_find _ _ _ _ _ Hrel Hid) as (c & Hc & Hcp). cbn in Hcp. subst c.
  unfold move_next, move_prev, get_cursor, gets, bind, throw_if. rewrite (st_cursors _ _ _ _ _ _ _ Hst), Hc. done.
Qed.
(** The leaf of a cursor that is at the value [v]. *)
Lemma cursor_leaf G n o pos id r v t : inv G n o pos t -> find_cursor id pos = Some (At r) -> values o !! r = Some v ->
  exists anc cs h tr ps leaf pre vals post (k : nat), o = Some tr /\ st anc cs G n t /\ tree_rep anc G h tr /\
    related (cursor_ok (Some tr)) cs pos /\ NoDup cs.*1 /\ at_path tr ps leaf pre vals post /\ r = (length pre + k)%nat /\
    vals !! k = Some v /\ find_cursor id cs = Some (Cursor ps leaf (Z.of_nat k) false false false).
Proof.
  intros (anc & cs & Hst & Hok & Hrel & Hnd) Hid Hv. destruct (related_find _ _ _ _ _ Hrel Hid) as (c & Hc & Hcp).
  destruct Hcp as (tr & -> & ps & leaf & pre & vals & post & k & Hpath & -> & Hk & ->). destruct Hok as [h Hrep].
  exists anc, cs, h, tr, ps, leaf, pre, vals, post, k. split_and!; try done.
  cbn [values] in Hv. rewrite (at_path_contents _ _ _ _ _ _ Hpath), lookup_app_r, lookup_app_l in Hv by lia.
  by replace (length pre + k - length pre)%nat with k in Hv by lia.
Qed.

Lemma cursor_get_path anc cs G n h tr ps leaf pre vals post (k : nat) v id t (Q : bytes -> T -> Prop) :
  st anc cs G n t -> tree_rep anc G h tr -> at_path tr ps leaf pre vals post -> vals !! k = Some v ->
  find_cursor id cs = Some (Cursor ps leaf (Z.of_nat k) false false false) ->
  (forall t', st anc cs G n t' -> Q v t') -> wp (cursor_get id) t Q.
Proof.
  intros Hst Hrep Hpath Hv Hc HQ. unfold cursor_get. wp_step. apply (get_cursor_spec _ _ _ _ _ _ _ _ _ _ Hst Hc). wp_step.
  apply (check_element_valid_spec derive_key key_less cfg bs anc cs G n h tr ps leaf pre vals post k t _ Hst Hrep Hpath);
    [by eapply lookup_lt_Some|]. intros t1 Hst1.
  apply (tree_leaf_get_spec _ _ _ _ _ _ _ leaf vals k v _ Hst1); [by eapply leaf_holds; [apply Hrep|]|done|done].
Qed.

Lemma cursor_get_spec G n o pos id r v t :
  inv G n o pos t -> find_cursor id pos = Some (At r) -> values o !! r = Some v ->
  wp (cursor_get id) t (fun w t' => w = v /\ inv G n o pos t').
Proof.
  intros Hinv Hid Hv.
  destruct (cursor_leaf _ _ _ _ _ _ _ _ Hinv Hid Hv) as (anc & cs & h & tr & ps & leaf & pre & vals & post & k & -> & Hst & Hrep & Hrel & Hnd & Hp & -> & Hk & Hc).
  eapply cursor_get_path; [done..|]. intros t' Hst'. split; [done|]. exists anc, cs. split_and!; try done. by exists h.
Qed.

(** The values after an assignment. *)
Definition replaced G n o pos (r : nat) w t' : Prop :=
  exists G' o', inv G' n o' pos t' /\ keeps G (tree_ids o) G' (tree_ids o') /\ values o' = <[r := w]> (values o).

Lemma cursor_set_spec G n o pos id r v w t :
  inv G n o pos t -> find_cursor id pos = Some (At r) -> values o !! r = Some v -> zlen w = value_size cfg ->
  if bool_decide (derive_key v = derive_key w)
  then wp (cursor_set derive_key w id) t (fun _ t' => replaced G n o pos r w t')
  else exists t', cursor_set derive_key w id t = (t', Err bad_argument) /\ inv G n o pos t'.
Proof.
  intros Hinv Hid Hv Hw.
  destruct (cursor_leaf _ _ _ _ _ _ _ _ Hinv Hid Hv) as (anc & cs & h & tr & ps & leaf & pre & vals & post & k & -> & Hst & Hrep & Hrel & Hnd & Hp & -> & Hk & Hc).
  pose proof (lookup_lt_Some _ _ _ Hk) as Hlt.
  assert (wp (let* c := get_cursor id in check_element_valid c ;;; let* old := cursor_get id in ret (c, old)) t
    (fun x t' => x = (Cursor ps leaf (Z.of_nat k) false false false, v) /\ st anc cs G n t')) as Hread.
  { wp_step. apply (get_cursor_spec _ _ _ _ _ _ _ _ _ _ Hst Hc). wp_step.
    apply (check_element_valid_spec derive_key key_less cfg bs anc cs G n h tr ps leaf pre vals post k t _ Hst Hrep Hp Hlt). intros t1 Hst1. wp_step.
    eapply cursor_get_path; [exact Hst1|done..|]. intros t2 Hst2. by wp_step. }
  apply wp_run in Hread as (t2 & x & Hrun & -> & Hst2).
  assert (cursor_set derive_key w id t =
    (throw_if (negb (bool_decide (derive_key v = derive_key w))) bad_argument ;;; leaf_set leaf (Z.of_nat k) w) t2) as Heq.
  { unfold cursor_set. apply bind_ok_inv in Hrun as (ta & c & Ha & Hrun). apply bind_ok_inv in Hrun as (tb & [] & Hb & Hrun).
    apply bind_ok_inv in Hrun as (tc & old & Hd & Hrun). injection Hrun as <- -> ->.
    by rewrite (bind_ok _ _ _ _ _ Ha), (bind_ok _ _ _ _ _ Hb), (bind_ok _ _ _ _ _ Hd). }
  destruct (bool_decide_reflect (derive_key v = derive_key w)) as [Hkey|Hkey]; cbn [negb] in Heq.
  - unfold wp. rewrite Heq. change (wp (leaf_set leaf (Z.of_nat k) w) t2 (fun _ t' => replaced G n (Some tr) pos (length pre + k) w t')).
    eapply wp_mono; [eapply (tree_leaf_set_spec anc cs pos G n t2 h tr ps leaf pre vals post k v w); try done|].
    + split; rewrite Hkey; by apply le_refl.
    + cbn beta. intros _ t3 (G' & tr' & Hinv' & Hkp & Hct). by exists G', (Some tr').
  - exists t2. split; [by rewrite Heq|]. exists anc, cs. split_and!; try done. by exists h.
Qed.

(** [insert_or_update] *)
Lemma cursor_overwrite_spec G n o pos id r v w t :
  inv G n o pos t -> find_cursor id pos = Some (At r) -> values o !! r = Some v -> zlen w = value_size cfg ->
  value_equal_key derive_key key_less v (derive_key w) = true ->
  wp (let* c := get_cursor id in leaf_set (m_leaf c) (m_index c) w ;;; ret false) t
    (fun b t' => b = false /\ replaced G n o pos r w t').
Proof.
  intros Hinv Hid Hv Hw Hkey.
  destruct (cursor_leaf _ _ _ _ _ _ _ _ Hinv Hid Hv) as (anc & cs & h & tr & ps & leaf & pre & vals & post & k & -> & Hst & Hrep & Hrel & Hnd & Hp & -> & Hk & Hc).
  wp_step. apply (get_cursor_spec _ _ _ _ _ _ _ _ _ _ Hst Hc). cbn [m_leaf m_index]. wp_step.
  eapply wp_mono; [eapply (tree_leaf_set_spec anc cs pos G n t h tr ps leaf pre vals post k v w); try done; by apply equal_same_key|].
  cbn beta. intros _ t1 (G' & tr' & Hinv' & Hkp & Hct). wp_step. split; [done|]. by exists G', (Some tr').
Qed.
End ops.
End btree_ops.
