(* ===== verification/BTreeSession.v ===== *)
(** * Sequences of operations of a B+ tree

    A tree and its cursors observe an abstract sorted list: the operations of
    the tree and of any number of cursors return what the operations of the
    list return, and cursors stay at their values when other values are
    inserted. *)

From Stdlib Require Import Strings.Byte Sorting.Sorted.
From S2P Require Import Prelude MathOps Serialization Blocks EngineSpec FreeList Allocator BumpAllocator Extent BTreeNodes BTree BTreeShape BTreeStore BTreeSearch BTreePaths BTreeSplit BTreeCursors BTreeInsert BTreeLeafInsert BTreeLeafSplit BTreeOps.

Module btree_session.
Import btree btree_shape btree_store btree_search btree_paths btree_split btree_cursors btree_insert btree_leaf_insert btree_leaf_split btree_ops.

(** ** Operations *)

Inductive bt_op : Type :=
  | BtLink (id : nat) | BtUnlink (id : nat) | BtCopy (id other : nat)
  | BtMin (id : nat) | BtMax (id : nat) | BtNext (id : nat) | BtPrev (id : nat)
  | BtLower (key : bytes) (id : nat) | BtUpper (key : bytes) (id : nat) | BtFind (key : bytes) (id : nat)
  | BtInsert (value : bytes) (overwrite : bool) (id : nat)
  | BtGet (id : nat) | BtSet (value : bytes) (id : nat).
Inductive bt_out : Type := bt_none | bt_bool (b : bool) | bt_value (v : bytes).

Section session.
Context {A : Type} `{Allocator A}.
Context (derive_key : bytes -> bytes) (key_less : bytes -> bytes -> bool).
Abbreviation T := (tree A).

Definition bt_run_op (op : bt_op) : M T bt_out :=
  match op with
  | BtLink id => link_cursor id ;;; ret bt_none
  | BtUnlink id => unlink_cursor id ;;; ret bt_none
  | BtCopy id other => copy_cursor id other ;;; ret bt_none
  | BtMin id => let* b := move_min id in ret (bt_bool b)
  | BtMax id => let* b := move_max id in ret (bt_bool b)
  | BtNext id => let* b := move_next id in ret (bt_bool b)
  | BtPrev id => let* b := move_prev id in ret (bt_bool b)
  | BtLower key id => let* b := cursor_lower_bound derive_key key_less key id in ret (bt_bool b)
  | BtUpper key id => let* b := cursor_upper_bound derive_key key_less key id in ret (bt_bool b)
  | BtFind key id => let* b := cursor_find derive_key key_less key id in ret (bt_bool b)
  | BtInsert value overwrite id => let* b := cursor_insert derive_key key_less value overwrite id in ret (bt_bool b)
  | BtGet id => let* v := cursor_get id in ret (bt_value v)
  | BtSet value id => cursor_set derive_key value id ;;; ret bt_none
  end.

(** The results of all operations; an operation that throws does not end the
    session. *)
Fixpoint bt_run (ops : list bt_op) (t : T) : T * list (result bt_out) :=
  match ops with
  | [] => (t, [])
  | op :: ops =>
    let (t, r) := bt_run_op op t in
    let (t, rs) := bt_run ops t in
    (t, r :: rs)
  end.

(** ** Specification *)

Abbreviation state := (list bytes * list (nat * position))%type.

(** The position of a value after the insertion of another one at [R]. *)
Definition shift (R : nat) (p : position) : position :=
  match p with At r => At (if decide (r < R)%nat then r else S r) | _ => p end.
Definition insert_pos id (R : nat) (pos : list (nat * position)) : list (nat * position) :=
  map (fun p => (p.1, if decide (p.1 = id) then At R else shift R p.2)) pos.

(** The cursor [id] moves to [p]. *)
Definition goto id (p : position) (s : state) : state * result bt_out :=
  ((s.1, update_cursor id p s.2), Ok (bt_bool (is_at p))).
Definition pos_of id (s : state) : position := default AtEnd (find_cursor id s.2).

Definition bt_spec_op (s : state) (op : bt_op) : state * result bt_out :=
  let l := s.1 in
  match op with
  | BtLink id => ((l, s.2 ++ [(id, AtEnd)]), Ok bt_none)
  | BtUnlink id => ((l, filter (fun p => p.1 <> id) s.2), Ok bt_none)
  | BtCopy id other => ((l, update_cursor id (pos_of other s) s.2), Ok bt_none)
  | BtMin id => goto id (at_index l 0) s
  | BtMax id => goto id (at_index l (length l - 1)) s
  | BtNext id => match next_pos l (pos_of id s) with Some p => goto id p s | None => (s, Err bad_cursor) end
  | BtPrev id => match prev_pos l (pos_of id s) with Some p => goto id p s | None => (s, Err bad_cursor) end
  | BtLower key id => goto id (seek_pos derive_key key_less seek_bound_lower key l) s
  | BtUpper key id => goto id (seek_pos derive_key key_less seek_bound_upper key l) s
  | BtFind key id => goto id (find_pos derive_key key_less key l) s
  | BtInsert value overwrite id =>
    let R := bound_index derive_key key_less seek_bound_lower (derive_key value) l in
    if has_key derive_key key_less (derive_key value) l
    then ((if overwrite then <[R := value]> l else l, update_cursor id (At R) s.2), Ok (bt_bool false))
    else ((insert_at R value l, insert_pos id R s.2), Ok (bt_bool true))
  | BtGet id => match pos_of id s with At r => (s, Ok (bt_value (l !!! r))) | _ => (s, Err bad_cursor) end
  | BtSet value id =>
    match pos_of id s with
    | At r =>
      if bool_decide (derive_key (l !!! r) = derive_key value) then ((<[r := value]> l, s.2), Ok bt_none)
      else (s, Err bad_argument)
    | _ => (s, Err bad_cursor)
    end
  end.
Fixpoint bt_spec_run (ops : list bt_op) (s : state) : state * list (result bt_out) :=
  match ops with
  | [] => (s, [])
  | op :: ops =>
    let (s, r) := bt_spec_op s op in
    let (s, rs) := bt_spec_run ops s in
    (s, r :: rs)
  end.

(** Cursors exist, new ones have a new number, values have the right size. *)
Definition has_cursor id (s : state) : bool := bool_decide (id ∈ s.2.*1).
Definition bt_ok (value_size : Z) (s : state) (op : bt_op) : bool :=
  match op with
  | BtLink id => negb (has_cursor id s)
  | BtCopy id other => has_cursor id s && has_cursor other s
  | BtUnlink id | BtMin id | BtMax id | BtNext id | BtPrev id | BtLower _ id | BtUpper _ id | BtFind _ id | BtGet id => has_cursor id s
  | BtInsert value _ id | BtSet value id => has_cursor id s && (zlen value =? value_size)
  end.
Fixpoint bt_oks (value_size : Z) (s : state) (ops : list bt_op) : bool :=
  match ops with
  | [] => true
  | op :: ops => bt_ok value_size s op && bt_oks value_size (bt_spec_op s op).1 ops
  end.

(** The blocks that the operations may need. *)
Definition op_room (op : bt_op) : Z := match op with BtInsert _ _ _ => insert_room | _ => 0 end.
Fixpoint ops_room (ops : list bt_op) : Z := match ops with [] => 0 | op :: ops => op_room op + ops_room ops end.
End session.
(** ** Refinement *)

Section refinement.
Context {A : Type} `{AllocatorSpec A}.
Context (derive_key : bytes -> bytes) (key_less : bytes -> bytes -> bool) `{KeyOrder key_less}.
Context (cfg : config) (bs : Z) (Hcfg : config_ok cfg bs) (supports1 : al_supports 1).
Context (derive_length : forall v, zlen v = value_size cfg -> zlen (derive_key v) = key_size cfg).
Abbreviation T := (tree A).
Abbreviation inv := (inv derive_key key_less cfg bs).
Abbreviation bt_run_op := (bt_run_op derive_key key_less).
Abbreviation bt_spec_op := (bt_spec_op derive_key key_less).
Implicit Types (pos : list (nat * position)) (G : gmap Z bytes) (n : Z) (t : T) (o : option node) (id : nat).

(** Without removals no value of a cursor is erased. *)
Definition settled (p : position) : bool := match p with AtEnd | At _ => true | _ => false end.
Definition all_settled pos : Prop := Forall (fun p => settled p.2 = true) pos.

Lemma find_cursor_Some {X} id (l : list (nat * X)) : id ∈ l.*1 -> exists x, find_cursor id l = Some x /\ (id, x) ∈ l.
Proof.
  induction l as [|[i x] l IH]; [by intros ?%elem_of_nil|]. rewrite fmap_cons. cbn [find_cursor fst].
  destruct (decide (i = id)) as [->|Hne]; [intros _; exists x; split; [done|by left]|].
  intros [Heq|Hin]%elem_of_cons; [by destruct Hne|]. destruct (IH Hin) as (y & Hy & Hyl). exists y. split; [done|by right].
Qed.
Lemma has_cursor_find id l pos : has_cursor id (l, pos) = true -> exists p, find_cursor id pos = Some p /\ pos_of id (l, pos) = p /\ (id, p) ∈ pos.
Proof.
  intros Hc%bool_decide_eq_true. destruct (find_cursor_Some id pos Hc) as (p & Hp & Hin). exists p. split_and!; [done| |done].
  unfold pos_of. cbn [snd]. by rewrite Hp.
Qed.
Lemma settled_update id p pos : all_settled pos -> settled p = true -> all_settled (update_cursor id p pos).
Proof.
  intros Hs Hp. unfold all_settled, update_cursor. rewrite Forall_map. eapply Forall_impl; [exact Hs|]. intros q Hq. by case_decide.
Qed.
Lemma settled_at_index (l : list bytes) r : settled (at_index l r) = true.
Proof. unfold at_index. by case_decide. Qed.
Lemma settled_find key (l : list bytes) : settled (find_pos derive_key key_less key l) = true.
Proof. unfold find_pos. by repeat case_match. Qed.

(** The positions after an insertion. *)
Lemma inserted_settled id (R : nat) pos pos' : Forall2 (inserted_pos id R) pos pos' -> all_settled pos ->
  pos' = insert_pos id R pos /\ all_settled pos'.
Proof.
  induction 1 as [|[i p] [j q] pos pos' [Hij Hq] _ IH]; intros Hs; [done|]. apply Forall_cons in Hs as [Hp Hs]. destruct (IH Hs) as [-> Hs'].
  cbn [fst snd] in *. subst j. unfold insert_pos. cbn [map fst snd]. case_decide; [subst; split; [done|by constructor]|].
  destruct p as [|r|r|]; cbn in Hq |- *; try done; [subst; split; [done|by constructor]|].
  destruct Hq as (r' & Hr & ->). rewrite Hr. split; [done|by constructor].
Qed.

(** What the operation [op] does. *)
Definition op_post G n o (s' : list bytes * list (nat * position)) t' : Prop :=
  exists G' o', inv G' n o' s'.2 t' /\ values o' = s'.1 /\ keeps G (tree_ids o) G' (tree_ids o').
Definition op_spec G n o pos op t : Prop :=
  exists t', bt_run_op op t = (t', (bt_spec_op (values o, pos) op).2) /\ op_post G n o (bt_spec_op (values o, pos) op).1 t'.

Lemma run_ok {X} (m : M T X) (f : X -> bt_out) t r (Q : T -> Prop) :
  wp m t (fun y t' => f y = r /\ Q t') -> exists t', (let* y := m in ret (f y)) t = (t', Ok r) /\ Q t'.
Proof. intros (t' & y & Hm & <- & HQ)%wp_run. exists t'. split; [|done]. by rewrite (bind_ok _ _ _ _ _ Hm). Qed.
Lemma run_err {X} (m : M T X) (f : X -> bt_out) t t' e (Q : T -> Prop) :
  m t = (t', Err e) -> Q t' -> exists t', (let* y := m in ret (f y)) t = (t', Err e) /\ Q t'.
Proof. intros Hm HQ. exists t'. split; [|done]. unfold bind. by rewrite Hm. Qed.

Lemma post_same G n o pos' t : inv G n o pos' t -> op_post G n o (values o, pos') t.
Proof. intros Hinv. by exists G, o. Qed.

Lemma goto_ok (m : M T bool) G n o pos id p t :
  wp m t (fun b t' => b = is_at p /\ inv G n o (update_cursor id p pos) t') ->
  exists t', (let* b := m in ret (bt_bool b)) t = (t', (goto id p (values o, pos)).2) /\ op_post G n o (goto id p (values o, pos)).1 t'.
Proof.
  intros Hm. cbn [goto fst snd]. apply run_ok. eapply wp_mono; [exact Hm|]. cbn beta. intros b t' [-> Hinv]. split; [done|].
  by apply post_same.
Qed.

Lemma not_at_end_spec (m : M T unit) G n o pos id p t p0 : find_cursor id pos = Some p0 -> settled p = true ->
  wp m t (fun _ t' => inv G n o (update_cursor id p pos) t') ->
  wp (m ;;; not_at_end id) t (fun b t' => b = is_at p /\ inv G n o (update_cursor id p pos) t').
Proof.
  intros Hid Hp Hm. wp_step. eapply wp_mono; [exact Hm|]. cbn beta. intros _ t1 Hinv. unfold not_at_end. wp_step.
  pose proof Hinv as (anc & cs & Hst & _ & Hrel & _).
  destruct (related_find _ _ _ _ _ Hrel (find_update_eq _ _ _ _ Hid)) as (c & Hc & Hcp). apply (get_cursor_spec _ _ _ _ _ _ _ _ _ _ Hst Hc).
  wp_step. split; [|done]. destruct p as [|r|r|]; try done; [by rewrite Hcp|].
  by destruct Hcp as (tr & -> & ps & leaf & pre & vals & post & k & _ & _ & _ & ->).
Qed.

Lemma at_lookup G n o pos id r t : inv G n o pos t -> find_cursor id pos = Some (At r) -> values o !! r = Some (values o !!! r).
Proof.
  intros (anc & cs & _ & _ & Hrel & _) Hid. destruct (related_find _ _ _ _ _ Hrel Hid) as (c & _ & tr & -> & ps & leaf & pre & vals & post & k & Hp & -> & Hk & _).
  apply list_lookup_lookup_total_lt. cbn [values]. rewrite (at_path_contents _ _ _ _ _ _ Hp), !length_app. lia.
Qed.
(** *** Creation and destruction of cursors *)

Lemma st_set_cursors anc cs cs' G n t : st cfg bs anc cs G n t -> st cfg bs anc cs' G n (set_cursors cs' t).
Proof. by intros []. Qed.

Lemma link_spec G n o pos id t : inv G n o pos t -> id ∉ pos.*1 -> wp (link_cursor id) t (fun _ t' => inv G n o (pos ++ [(id, AtEnd)]) t').
Proof.
  intros (anc & cs & Hst & Hok & Hrel & Hnd) Hid. unfold link_cursor. wp_step. rewrite (st_cursors _ _ _ _ _ _ _ Hst).
  exists anc, (cs ++ [(id, invalid_cursor)]). split_and!; [by eapply st_set_cursors|done| |].
  - apply Forall2_app; [done|]. by repeat constructor.
  - rewrite fmap_app. cbn. apply NoDup_app. split_and!; [done| |apply NoDup_singleton].
    intros i Hi ->%list_elem_of_singleton. apply Hid. by rewrite <- (related_keys _ _ _ Hrel).
Qed.

Lemma related_filter {X Y} (R : X -> Y -> Prop) (cs : list (nat * X)) (pos : list (nat * Y)) id : related R cs pos ->
  related R (filter (fun p => p.1 <> id) cs) (filter (fun p => p.1 <> id) pos).
Proof.
  induction 1 as [|[i c] [j p] cs pos [Hij HR] _ IH]; [constructor|]. cbn [fst snd] in *. subst j.
  rewrite !filter_cons. cbn [fst]. case_decide; [|done]. by constructor.
Qed.
Lemma unlink_spec G n o pos id t : inv G n o pos t -> wp (unlink_cursor id) t (fun _ t' => inv G n o (filter (fun p => p.1 <> id) pos) t').
Proof.
  intros (anc & cs & Hst & Hok & Hrel & Hnd). unfold unlink_cursor. wp_step. rewrite (st_cursors _ _ _ _ _ _ _ Hst).
  exists anc, (filter (fun p => p.1 <> id) cs). split_and!; [by eapply st_set_cursors|done|by apply related_filter|].
  eapply sublist_NoDup; [exact Hnd|]. apply fmap_sublist, sublist_filter.
Qed.
Lemma copy_cursor_spec G n o pos id other p t : inv G n o pos t -> find_cursor other pos = Some p ->
  wp (copy_cursor id other) t (fun _ t' => inv G n o (update_cursor id p pos) t').
Proof.
  intros Hinv Hp. pose proof Hinv as (anc & cs & Hst & Hok & Hrel & Hnd). unfold copy_cursor.
  destruct (bool_decide_reflect (id = other)) as [->|Hne].
  - wp_step. rewrite update_id; [done| |done]. by rewrite <- (related_keys _ _ _ Hrel).
  - destruct (related_find _ _ _ _ _ Hrel Hp) as (c & Hc & Hcp). wp_step. apply (get_cursor_spec _ _ _ _ _ _ _ _ _ _ Hst Hc).
    apply (put_cursor_spec _ _ _ _ _ _ _ _ _ _ Hst). intros t' Hst'. by eapply inv_put.
Qed.

(** *** Insertion *)

Lemma cursor_insert_exact_spec G n room o pos id value overwrite p0 t :
  inv G (n + room) o pos t -> height (m_anchor t) < room -> 0 <= n -> find_cursor id pos = Some p0 -> zlen value = value_size cfg ->
  let R := bound_index derive_key key_less seek_bound_lower (derive_key value) (values o) in
  let b := negb (has_key derive_key key_less (derive_key value) (values o)) in
  wp (cursor_insert derive_key key_less value overwrite id) t (fun b' t' => b' = b /\ exists pos',
    (if b then Forall2 (inserted_pos id R) pos pos' else pos' = update_cursor id (At R) pos) /\
    op_post G n o (if b then insert_at R value (values o) else if overwrite then <[R := value]> (values o) else values o, pos') t').
Proof.
  intros Hinv Hroom Hn Hid Hv R b.
  pose proof (insert_exact_spec derive_key key_less cfg bs Hcfg supports1 derive_length G n room o pos t value id p0 Hinv Hroom Hn Hid Hv) as Hins. fold R in Hins.
  unfold cursor_insert. wp_step. eapply wp_mono; [exact Hins|]. intros b1 t1 (G1 & o1 & pos1 & Hinv1 & Hkp1 & -> & Hv1 & Hp1). fold R in Hv1, Hp1. fold b in Hv1, Hp1 |- *.
  destruct b eqn:Eb; cbn [negb andb].
  - wp_step. split; [done|]. exists pos1. split; [done|]. by exists G1, o1.
  - apply negb_false_iff in Eb. unfold has_key in Eb. fold R in Eb. destruct (values o !! R) as [v|] eqn:HR; [|done]. subst pos1. rewrite <- Hv1 in HR. destruct overwrite.
    + eapply wp_mono; [eapply (cursor_overwrite_spec derive_key key_less cfg bs Hcfg G1 n o1 _ id R v value); [done|by eapply find_update_eq|done..]|].
      cbn beta. intros b2 t2 (-> & G2 & o2 & Hinv2 & Hkp2 & Hv2). split; [done|]. eexists. split; [done|]. exists G2, o2. cbn [fst snd].
      split_and!; [done|by rewrite Hv2, Hv1|by eapply keeps_trans].
    + wp_step. split; [done|]. eexists. split; [done|]. by exists G1, o1.
Qed.

Lemma cursor_insert_spec G n o pos id value overwrite p0 t :
  inv G (n + insert_room) o pos t -> 0 <= n -> find_cursor id pos = Some p0 -> zlen value = value_size cfg ->
  let R := bound_index derive_key key_less seek_bound_lower (derive_key value) (values o) in
  let b := negb (has_key derive_key key_less (derive_key value) (values o)) in
  wp (cursor_insert derive_key key_less value overwrite id) t (fun b' t' => b' = b /\ exists pos',
    (if b then Forall2 (inserted_pos id R) pos pos' else pos' = update_cursor id (At R) pos) /\
    op_post G n o (if b then insert_at R value (values o) else if overwrite then <[R := value]> (values o) else values o, pos') t').
Proof. intros Hinv Hn Hid Hv. eapply cursor_insert_exact_spec; [exact Hinv|by eapply height_bound|done..]. Qed.

(** The operations whose effect does not depend on the nodes. *)
Definition is_insert (op : bt_op) : bool := match op with BtInsert _ _ _ => true | _ => false end.

Lemma op_refines G n o pos op t :
  inv G n o pos t -> is_insert op = false -> bt_ok (value_size cfg) (values o, pos) op = true ->
  op_spec G n o pos op t.
Proof.
  intros Hinv Hni Hok. destruct op as [id|id|id other|id|id|id|id|key id|key id|key id|value overwrite id|id|value id]; cbn [bt_ok] in *; try done.
  - apply negb_true_iff, bool_decide_eq_false in Hok. apply (run_ok _ (fun _ => bt_none)).
    eapply wp_mono; [by apply link_spec|]. cbn beta. intros _ t' Hinv'. split; [done|]. by apply post_same.
  - apply (run_ok _ (fun _ => bt_none)). eapply wp_mono; [by apply (unlink_spec G n o pos id)|]. cbn beta. intros _ t' Hinv'. split; [done|]. by apply post_same.
  - apply andb_true_iff in Hok as [Hid Hot]. destruct (has_cursor_find _ _ _ Hot) as (p & Hp & Hpo & Hin).
    apply (run_ok _ (fun _ => bt_none)). eapply wp_mono; [by apply (copy_cursor_spec G n o pos id other p)|]. cbn beta. intros _ t' Hinv'. split; [done|].
    cbn [bt_spec_op btree_session.bt_spec_op fst snd]. rewrite Hpo. by apply post_same.
  - destruct (has_cursor_find _ _ _ Hok) as (p & Hp & _). apply goto_ok.
    eapply not_at_end_spec; [done|apply settled_at_index|]. by eapply (init_position_spec derive_key key_less cfg bs Hcfg false).
  - destruct (has_cursor_find _ _ _ Hok) as (p & Hp & _). apply goto_ok.
    eapply not_at_end_spec; [done|apply settled_at_index|]. by eapply (init_position_spec derive_key key_less cfg bs Hcfg true).
  - destruct (has_cursor_find _ _ _ Hok) as (p & Hp & Hpo & Hin). unfold op_spec. cbn [bt_spec_op btree_session.bt_spec_op fst snd]. rewrite Hpo.
    destruct (next_pos (values o) p) as [p'|] eqn:Hnext.
    + apply goto_ok. by eapply move_next_spec.
    + destruct p; try done. eapply run_err; [by eapply move_error|]. by apply post_same.
  - destruct (has_cursor_find _ _ _ Hok) as (p & Hp & Hpo & Hin). unfold op_spec. cbn [bt_spec_op btree_session.bt_spec_op fst snd]. rewrite Hpo.
    destruct (prev_pos (values o) p) as [p'|] eqn:Hnext.
    + apply goto_ok. by eapply move_prev_spec.
    + destruct p as [|[|r]|[|r]|]; try done. eapply run_err; [by eapply move_error|]. by apply post_same.
  - destruct (has_cursor_find _ _ _ Hok) as (p & Hp & _). apply goto_ok.
    eapply not_at_end_spec; [done|apply settled_at_index|]. eapply wp_mono; [by eapply (seek_bound_spec derive_key key_less cfg bs Hcfg seek_bound_lower)|].
    cbn beta. intros _ t' (p' & [->|(? & _)] & Hinv'); done.
  - destruct (has_cursor_find _ _ _ Hok) as (p & Hp & _). apply goto_ok.
    eapply not_at_end_spec; [done|apply settled_at_index|]. eapply wp_mono; [by eapply (seek_bound_spec derive_key key_less cfg bs Hcfg seek_bound_upper)|].
    cbn beta. intros _ t' (p' & [->|(? & _)] & Hinv'); done.
  - destruct (has_cursor_find _ _ _ Hok) as (p & Hp & _). apply goto_ok.
    eapply not_at_end_spec; [done|apply settled_find|]. by eapply btree_find_spec.
  - destruct (has_cursor_find _ _ _ Hok) as (p & Hp & Hpo & Hin). unfold op_spec. cbn [bt_spec_op btree_session.bt_spec_op fst snd]. rewrite Hpo.
    pose proof (cursor_get_error derive_key key_less cfg bs G n o pos id p t Hinv Hp) as Herr.
    destruct p as [|r|r|]; try (eapply run_err; [by apply Herr|by apply post_same]).
    apply run_ok. eapply wp_mono; [eapply cursor_get_spec; [done|done|by eapply at_lookup]|]. cbn beta. intros v t' [-> Hinv']. split; [done|]. by apply post_same.
  - apply andb_true_iff in Hok as [Hid Hv%Z.eqb_eq]. destruct (has_cursor_find _ _ _ Hid) as (p & Hp & Hpo & Hin). unfold op_spec.
    cbn [bt_spec_op btree_session.bt_spec_op fst snd]. rewrite Hpo.
    pose proof (cursor_set_error derive_key key_less cfg bs G n o pos id p value t Hinv Hp) as Herr.
    destruct p as [|r|r|]; try (eapply (run_err _ (fun _ => bt_none)); [by apply Herr|by apply post_same]).
    pose proof (cursor_set_spec derive_key key_less cfg bs Hcfg G n o pos id r _ value t Hinv Hp (at_lookup _ _ _ _ _ _ _ Hinv Hp) Hv) as Hset.
    destruct (bool_decide (derive_key (values o !!! r) = derive_key value)); cbn [fst snd].
    + apply (run_ok _ (fun _ => bt_none)). eapply wp_mono; [exact Hset|]. cbn beta. intros _ t' (G' & o' & Hinv' & Hkp & Hv'). split; [done|]. by exists G', o'.
    + destruct Hset as (t' & Herr' & Hinv'). eapply (run_err _ (fun _ => bt_none)); [exact Herr'|by apply post_same].
Qed.
Abbreviation bt_run := (bt_run derive_key key_less).
Abbreviation bt_spec_run := (bt_spec_run derive_key key_less).

Lemma ops_room_nonneg ops : 0 <= ops_room ops.
Proof. induction ops as [|op ops IH]; cbn [ops_room]; [lia|]. destruct op; cbn; unfold insert_room; lia. Qed.

Lemma op_refines_settled G n o pos op t :
  inv G (n + op_room op) o pos t -> 0 <= n -> all_settled pos -> bt_ok (value_size cfg) (values o, pos) op = true ->
  op_spec G n o pos op t.
Proof.
  intros Hinv Hn Hs Hok. destruct op; try (cbn [op_room] in Hinv; rewrite Z.add_0_r in Hinv; by apply op_refines).
  cbn [op_room bt_ok] in *. apply andb_true_iff in Hok as [Hid Hv%Z.eqb_eq]. destruct (has_cursor_find _ _ _ Hid) as (p & Hp & _).
  unfold op_spec. cbn [bt_run_op btree_session.bt_run_op bt_spec_op btree_session.bt_spec_op fst snd].
  pose proof (cursor_insert_spec G n o pos id value overwrite p t Hinv Hn Hp Hv) as Hins. cbn zeta in Hins.
  destruct (has_key derive_key key_less (derive_key value) (values o)); cbn [negb fst snd] in *; apply run_ok; (eapply wp_mono; [exact Hins|]);
    cbn beta; intros b t' (-> & pos' & Hpos & Hpost); (split; [done|]).
  - by subst pos'.
  - by destruct (inserted_settled _ _ _ _ Hpos Hs) as [-> _].
Qed.
Lemma spec_settled op s : all_settled s.2 -> all_settled (bt_spec_op s op).1.2.
Proof.
  intros Hs. assert (forall id, settled (pos_of id s) = true) as Hpo.
  { intros id. unfold pos_of. destruct (find_cursor id s.2) as [p|] eqn:E; [|done]. clear -E Hs. unfold all_settled in Hs.
    induction s.2 as [|[i q] l IH]; [done|]. apply Forall_cons in Hs as [Hq Hs]. cbn in E. case_decide; [by injection E as <-|by apply IH]. }
  assert (forall id p, settled p = true -> all_settled (goto id p s).1.2) as Hgo by (intros id p Hp; by apply settled_update).
  destruct op; cbn [bt_spec_op btree_session.bt_spec_op fst snd]; try (apply Hgo; first [apply settled_at_index|apply settled_find]).
  - apply Forall_app. split; [done|by repeat constructor].
  - apply Forall_forall. intros x [_ Hx]%list_elem_of_filter. by apply (proj1 (Forall_forall _ _) Hs).
  - by apply settled_update.
  - specialize (Hpo id). destruct (pos_of id s); try done; cbn [next_pos]; apply Hgo, settled_at_index.
  - specialize (Hpo id). destruct (pos_of id s) as [|[|r]| |]; try done; by apply Hgo.
  - destruct (has_key _ _ _ _); cbn [fst snd]; [by apply settled_update|]. unfold insert_pos. apply Forall_map. eapply Forall_impl; [exact Hs|].
    intros [i p] Hp. cbn [fst snd] in *. case_decide; [done|]. by destruct p.
  - by destruct (pos_of id s).
  - destruct (pos_of id s); try done. by destruct (bool_decide _).
Qed.

Lemma run_refines ops : forall G n o pos t,
  inv G (n + ops_room ops) o pos t -> 0 <= n -> all_settled pos -> bt_oks derive_key key_less (value_size cfg) (values o, pos) ops = true ->
  (bt_run ops t).2 = (bt_spec_run ops (values o, pos)).2 /\ op_post G n o (bt_spec_run ops (values o, pos)).1 (bt_run ops t).1.
Proof.
  induction ops as [|op ops IH]; intros G n o pos t Hinv Hn Hs Hok; cbn [ops_room bt_oks] in *.
  { rewrite Z.add_0_r in Hinv. split; [done|]. by apply post_same. }
  apply andb_true_iff in Hok as [Hop Hok]. pose proof (ops_room_nonneg ops) as Hr.
  destruct (op_refines_settled G (n + ops_room ops) o pos op t) as (t1 & Hrun & G1 & o1 & Hinv1 & Hv1 & Hkp1); [|lia|done|done|].
  { by replace (n + ops_room ops + op_room op) with (n + (op_room op + ops_room ops)) by lia. }
  cbn [btree_session.bt_run btree_session.bt_spec_run]. rewrite Hrun. pose proof (spec_settled op (values o, pos) Hs) as Hs1.
  destruct (bt_spec_op (values o, pos) op) as [[l1 pos1] r]. cbn [fst snd] in *. subst l1.
  destruct (IH G1 n o1 pos1 t1 Hinv1 Hn Hs1 Hok) as (Hrs & G2 & o2 & Hinv2 & Hv2 & Hkp2).
  destruct (btree_session.bt_run derive_key key_less ops t1) as [t2 rs], (btree_session.bt_spec_run derive_key key_less ops (values o1, pos1)) as [s2 rs'].
  cbn [fst snd] in *. subst rs'. split; [done|]. exists G2, o2. split_and!; [done..|by eapply keeps_trans].
Qed.
End refinement.

(** ** A new tree *)

Section new_tree.
Context {A : Type} `{AllocatorSpec A}.
Implicit Types (a : A) (U : gset Z).

Lemma make_tree_ok a n vs ks t : wf_disk (eng_view a) -> 0 <= vs -> 0 <= ks -> make_tree a n vs ks = Ok t ->
  exists mc cap, t = Tree a n (Config vs ks mc cap) [] /\ config_ok (Config vs ks mc cap) (d_bs (eng_view a)).
Proof.
  intros Hwf Hvs Hks. pose proof (wf_bs_pos _ Hwf) as Hbs. unfold make_tree, max_key_size. set (bs := d_bs (eng_view a)) in *.
  destruct (Z.eqb_spec vs 0); [done|]. destruct (Z.eqb_spec ks 0); [done|]. destruct (Z.ltb_spec 256 ks); [done|].
  destruct (Z.ltb_spec (leaf_node.capacity vs bs) 2) as [|Hcap]; [done|].
  destruct (Z.ltb_spec (internal_node.compute_max_children ks bs) 4) as [|Hmc]; [done|]. intros [= <-].
  eexists _, _. split; [done|]. unfold leaf_node.capacity, internal_node.compute_max_children, node_header_size, internal_node.block_index_size in *.
  destruct (Z.ltb_spec bs 4); [lia|]. split; cbn [value_size key_size internal_max_children leaf_capacity]; try lia.
  - unfold node_header_size. pose proof (Z.mul_div_le (bs - 4) vs ltac:(lia)). lia.
  - unfold child_base, node_header_size. rewrite (wrap_small 32 (ks + 8)) in * by (split; lia).
    pose proof (Z.mul_div_le (u32 (bs - 4 + ks)) (ks + 8) ltac:(lia)). pose proof (Z.mod_le (bs - 4 + ks) (2 ^ 32) ltac:(lia) ltac:(lia)).
    unfold wrap in *. nia.
Qed.

(** The blocks of the other clients. *)
Definition snapshot a U : gmap Z bytes := set_to_map (fun i => (i, disk_block (eng_view a) i)) U.
Lemma lookup_snapshot a U i b : snapshot a U !! i = Some b <-> i ∈ U /\ disk_block (eng_view a) i = b.
Proof.
  unfold snapshot. rewrite lookup_set_to_map by (intros ? ? _ _; by cbn). split; [|intros [Hi <-]; by exists i].
  intros (j & Hj & [= -> <-]). done.
Qed.
Lemma dom_snapshot a U : dom (snapshot a U) = U.
Proof.
  apply set_eq. intros i. rewrite elem_of_dom. split.
  - intros [b [Hi _]%lookup_snapshot]. done.
  - intros Hi. eexists. by apply lookup_snapshot.
Qed.

Lemma make_tree_inv derive_key key_less a U n vs ks t :
  al_inv a U -> 0 <= vs -> 0 <= ks -> make_tree a empty_anchor vs ks = Ok t -> 0 <= n -> al_room a n ->
  exists cfg, config_ok cfg (d_bs (eng_view a)) /\ value_size cfg = vs /\ key_size cfg = ks /\
    inv derive_key key_less cfg (d_bs (eng_view a)) (snapshot a U) n None [] t.
Proof.
  intros Ha Hvs Hks Hm Hn Hroom. destruct (al_wf _ _ Ha) as [Hwf _]. destruct (make_tree_ok _ _ _ _ _ Hwf Hvs Hks Hm) as (mc & cap & -> & Hcfg).
  eexists. split_and!; [exact Hcfg|done|done|]. exists empty_anchor, []. split_and!; [|done|constructor|constructor].
  split; try done; cbn [m_alloc].
  - by rewrite dom_snapshot.
  - by intros i b [_ Hb]%lookup_snapshot.
Qed.
End new_tree.
(** ** Correctness of the tree *)

Section theorems.
Context {A : Type} `{AllocatorSpec A} (supports1 : al_supports 1).
Context (derive_key : bytes -> bytes) (key_less : bytes -> bytes -> bool) `{KeyOrder key_less}.
Implicit Types (a : A) (U : gset Z).
Abbreviation sorted := (sorted derive_key key_less).

Lemma values_sorted cfg bs G n o pos (t : tree A) : inv derive_key key_less cfg bs G n o pos t ->
  sorted (values o) /\ size (m_anchor t) = zlen (values o).
Proof.
  intros (anc & cs & Hst & Hok & _). rewrite (st_anchor _ _ _ _ _ _ _ Hst). destruct o as [tr|].
  - destruct Hok as [h Hrep]. split; [|apply Hrep]. eapply shape_sorted; [done|apply Hrep].
  - cbn in Hok. subst anc. split; [constructor|done].
Qed.

(** C3: A B+ tree observes a sorted list.  For every allocator, every strict
    weak order of the keys and every value and key size the constructor
    accepts, a sequence of operations of a new tree and of any number of its
    cursors returns what the operations of a list of values sorted by key
    return: [find], [lower_bound], [upper_bound] and the moves go to the same
    positions, [insert] adds a value unless its key exists, and
    [insert_or_update] and [set] replace a value.  While nodes split and the
    tree grows, every other cursor stays at its value; the refused operations
    throw [bad_cursor] or [bad_argument] and no assertion fails.  The final
    list is strictly sorted by key, the tree counts its values, and the blocks
    of the allocator's other clients keep their contents.  An insertion needs
    at most [insert_room] blocks. *)
Theorem btree_refines_list a U vs ks t ops :
  al_inv a U -> 0 <= vs -> 0 <= ks -> (forall v, zlen v = vs -> zlen (derive_key v) = ks) ->
  make_tree a empty_anchor vs ks = Ok t -> al_room a (ops_room ops) ->
  bt_oks derive_key key_less vs ([], []) ops = true ->
  let s := bt_spec_run derive_key key_less ops ([], []) in let t' := (bt_run derive_key key_less ops t).1 in
  (bt_run derive_key key_less ops t).2 = s.2 /\ sorted s.1.1 /\ size (m_anchor t') = zlen s.1.1 /\
  forall i, i ∈ U -> disk_block (eng_view (m_alloc t')) i = disk_block (eng_view a) i.
Proof.
  intros Ha Hvs Hks Hd Hm Hroom Hok s t'.
  destruct (make_tree_inv derive_key key_less a U _ vs ks t Ha Hvs Hks Hm (ops_room_nonneg ops) Hroom) as (cfg & Hcfg & <- & <- & Hinv).
  destruct (run_refines derive_key key_less cfg _ Hcfg supports1 Hd ops (snapshot a U) 0 None [] t Hinv) as (Hr & G' & o' & Hinv' & Hv & Hkp); [done|constructor|done|].
  split; [done|]. unfold s. cbn [values] in *. rewrite <- Hv. destruct (values_sorted _ _ _ _ _ _ _ Hinv') as [Hso Hsz]. split_and!; [done|done|].
  intros i Hi. destruct Hinv' as (anc & cs & Hst & _). eapply st_blocks; [exact Hst|].
  apply (Hkp i); [by apply lookup_snapshot|apply not_elem_of_nil].
Qed.

Lemma equal_key_sides v key : value_equal_key derive_key key_less v key = true ->
  le key_less key (derive_key v) /\ le key_less (derive_key v) key.
Proof. unfold value_equal_key, key_equal, le. rewrite andb_true_iff, !negb_true_iff. tauto. Qed.

Lemma sorted_unique l v w key : sorted l -> v ∈ l -> w ∈ l -> value_equal_key derive_key key_less v key = true ->
  value_equal_key derive_key key_less w key = true -> w = v.
Proof.
  intros Hs Hv Hw [V1 V2]%equal_key_sides [W1 W2]%equal_key_sides.
  assert (forall x y, le key_less key (derive_key x) -> le key_less (derive_key y) key -> ~ lt key_less (derive_key x) (derive_key y)) as Hno.
  { intros x y Hx Hy Hlt. apply (lt_irrefl key_less key). apply (le_lt_trans key_less _ (derive_key x)); [done|].
    by apply (lt_le_trans key_less _ (derive_key y)). }
  induction Hs as [|x l Hl IH Hx]; [by apply elem_of_nil in Hv|]. apply elem_of_cons in Hv as [->|Hv], Hw as [->|Hw]; try done.
  - destruct (Hno x w); [done..|]. by apply (proj1 (Forall_forall _ _) Hx).
  - destruct (Hno x v); [done..|]. by apply (proj1 (Forall_forall _ _) Hx).
  - by apply IH.
Qed.

Lemma find_pos_spec l key : sorted l ->
  match find_pos derive_key key_less key l with
  | At r => exists v, l !! r = Some v /\ value_equal_key derive_key key_less v key = true
  | _ => forall w, w ∈ l -> value_equal_key derive_key key_less w key = false
  end.
Proof.
  intros Hs. destruct (leaf_cut derive_key key_less seek_bound_lower key l Hs) as [k Hk]. unfold find_pos, bound_index.
  rewrite (first_not_cut _ _ k Hk). destruct Hk as (Hk & Hb & Ha). rewrite <- (take_drop k l) in Hs.
  assert (forall w, w ∈ take k l -> value_equal_key derive_key key_less w key = false) as Hbefore.
  { intros w Hw. apply before_not_equal. by apply (proj1 (Forall_forall _ _) Hb). }
  destruct (l !! k) as [v|] eqn:Hv.
  - destruct (value_equal_key derive_key key_less v key) eqn:Heq; [by exists v|]. intros w Hw. rewrite <- (take_drop k l) in Hw.
    apply elem_of_app in Hw as [Hw|Hw]; [by apply Hbefore|]. rewrite (drop_S _ _ _ Hv) in Hw, Ha, Hs.
    apply Forall_cons in Ha as [Hnb _]. apply sorted_app in Hs as (_ & Hs & _). apply StronglySorted_inv in Hs as [_ Hs].
    assert (lt key_less key (derive_key v)) as Hlt.
    { unfold value_equal_key, key_equal in Heq. unfold is_before, before_b in Hnb. unfold lt.
      destruct (key_less (derive_key v) key); [by destruct Hnb|]. cbn in Heq. rewrite andb_true_r in Heq. by apply negb_false_iff in Heq. }
    apply lt_not_equal. apply elem_of_cons in Hw as [->|Hw]; [done|]. eapply (lt_trans key_less); [exact Hlt|]. by apply (proj1 (Forall_forall _ _) Hs).
  - intros w Hw. apply Hbefore. apply lookup_ge_None in Hv. by rewrite take_ge by lia.
Qed.

(** C29: [find] is a lookup by key: it succeeds exactly if the tree has a
    value with an equivalent key, and then [get] returns that value, the only
    one with such a key. *)
Theorem btree_find_correct cfg bs G n o pos (t : tree A) key id p0 :
  config_ok cfg bs -> inv derive_key key_less cfg bs G n o pos t -> find_cursor id pos = Some p0 ->
  wp (cursor_find derive_key key_less key id) t (fun b t' =>
    if b then exists v, wp (cursor_get id) t' (fun w _ => w = v) /\
      forall w, w ∈ values o -> value_equal_key derive_key key_less w key = true <-> w = v
    else forall w, w ∈ values o -> value_equal_key derive_key key_less w key = false).
Proof.
  intros Hcfg Hinv Hid. destruct (values_sorted _ _ _ _ _ _ _ Hinv) as [Hs _]. pose proof (find_pos_spec (values o) key Hs) as Hf.
  unfold cursor_find. eapply wp_mono.
  { eapply (not_at_end_spec derive_key key_less cfg bs); [exact Hid|apply settled_find|]. by eapply btree_find_spec. }
  cbn beta. intros b t' [-> Hinv']. destruct (find_pos derive_key key_less key (values o)) as [|r|r|]; cbn [is_at]; try done.
  destruct Hf as (v & Hv & Heq). exists v. split.
  - eapply wp_mono; [eapply cursor_get_spec; [exact Hinv'|by eapply find_update_eq|exact Hv]|]. cbn beta. by intros w t2 [-> _].
  - intros w Hw. split; [|by intros ->]. intros Hweq. eapply sorted_unique; [done| |done|exact Heq|done]. by eapply list_elem_of_lookup_2.
Qed.

(** C28: A cursor is stable: an insertion through another cursor, whatever
    nodes it splits, leaves the cursor at its value. *)
Theorem btree_insert_keeps_cursor cfg bs G n o pos (t : tree A) value id p0 other v :
  config_ok cfg bs -> (forall w, zlen w = value_size cfg -> zlen (derive_key w) = key_size cfg) ->
  inv derive_key key_less cfg bs G (n + insert_room) o pos t -> 0 <= n -> find_cursor id pos = Some p0 ->
  zlen value = value_size cfg -> id <> other ->
  (exists r, find_cursor other pos = Some (At r) /\ values o !! r = Some v) ->
  wp (insert derive_key key_less value id) t (fun _ t' => wp (cursor_get other) t' (fun w _ => w = v)).
Proof.
  intros Hcfg Hd Hinv Hn Hid Hv Hne (r & Hr & Hlook). pose proof (lookup_lt_Some _ _ _ Hlook) as Hlt.
  eapply wp_mono; [by eapply insert_spec|]. intros b t' (G' & o' & pos' & Hinv' & _ & _ & Hvals & Hpos). cbn zeta in Hpos.
  set (R := bound_index derive_key key_less seek_bound_lower (derive_key value) (values o)) in *.
  assert (exists r', find_cursor other pos' = Some (At r') /\ values o' !! r' = Some v) as (r' & Hr' & Hlook').
  { destruct b.
    - assert (R <= length (values o))%nat as HR.
      { destruct (leaf_cut derive_key key_less seek_bound_lower (derive_key value) (values o)) as [k Hk]; [by eapply values_sorted|].
        unfold R, bound_index. rewrite (first_not_cut _ _ k Hk). apply Hk. }
      exists (if decide (r < R)%nat then r else S r). split.
      + clear -Hpos Hr Hne. induction Hpos as [|[i p] [j q] pos pos' [Hij Hq] _ IH]; [done|]. cbn [fst snd find_cursor] in *. subst j.
        destruct (decide (i = other)) as [->|]; [|by apply IH]. injection Hr as ->. rewrite decide_False in Hq by done.
        destruct Hq as (r' & Hr' & ->). by rewrite Hr'.
      + rewrite Hvals. destruct (decide (r < R)%nat).
        * by rewrite lookup_insert_at_lt.
        * rewrite lookup_insert_at_gt by lia. done.
    - exists r. rewrite Hpos, find_update_ne by done. by rewrite Hvals. }
  eapply wp_mono; [by eapply cursor_get_spec|]. cbn beta. by intros w t2 [-> _].
Qed.


(** C31: The refused operations of a cursor.  At the end the moves throw
    [bad_cursor]; a cursor that is not at a value (at the end, or its value
    was erased) cannot be read or assigned; an assignment that would change
    the key throws [bad_argument].  Nothing changes. *)
Theorem btree_cursor_errors cfg bs G n o pos (t : tree A) id p value :
  config_ok cfg bs -> inv derive_key key_less cfg bs G n o pos t -> find_cursor id pos = Some p ->
  zlen value = value_size cfg ->
  match p with
  | At r => forall v, values o !! r = Some v -> derive_key v <> derive_key value ->
      exists t', cursor_set derive_key value id t = (t', Err bad_argument) /\ inv derive_key key_less cfg bs G n o pos t'
  | _ => cursor_get id t = (t, Err bad_cursor) /\ cursor_set derive_key value id t = (t, Err bad_cursor) /\
      (p = AtEnd -> move_next id t = (t, Err bad_cursor) /\ move_prev id t = (t, Err bad_cursor))
  end.
Proof.
  intros Hcfg Hinv Hid Hv. destruct p as [|r|r|].
  2: { intros v Hlook Hne. pose proof (cursor_set_spec derive_key key_less cfg bs Hcfg G n o pos id r v value t Hinv Hid Hlook Hv) as Hset.
       by rewrite bool_decide_eq_false_2 in Hset. }
  all: split_and!; [by eapply cursor_get_error|by eapply cursor_set_error|intros Heq; try done; by eapply move_error].
Qed.
End theorems.
(** ** Examples *)

(** Leaves of three values, internal nodes of four children. *)
Definition sample_order (x y : bytes) : bool := be_decode x <? be_decode y.
Definition sample_derive (v : bytes) : bytes := take 8 v.
Definition sample_entry (n : Z) : bytes := be_encode 8 n ++ be_encode 8 (n * n).
Definition sample_key (n : Z) : bytes := be_encode 8 n.
Definition sample_store : BumpAllocator.bump memory_engine.memory_engine := Bump (memory_engine.MemoryEngine (Geometry 64 6 63) []).
Definition sample_tree : tree (BumpAllocator.bump memory_engine.memory_engine) := Tree sample_store empty_anchor (Config 16 8 4 3) [].
Definition sample_inserts (l : list Z) : list bt_op := map (fun n => BtInsert (sample_entry n) false 0) l.
Definition sample_tree_ops : list bt_op :=
  [BtLink 0; BtLink 1; BtNext 0] ++ sample_inserts [5; 3; 1; 7; 9] ++ [BtFind (sample_key 7) 1; BtLink 2] ++
  sample_inserts [2; 4; 6; 8; 10; 20; 19; 18; 17; 16; 15; 14; 13; 12; 11; 21; 22; 23; 24; 25; 7] ++
  [BtGet 0; BtSet (sample_entry 8) 0; BtGet 1; BtNext 1; BtGet 1].

#[export] Instance sample_key_order : KeyOrder sample_order.
Proof.
  split; unfold sample_order.
  - intros a b Hab. apply Z.ltb_lt in Hab. apply Z.ltb_ge. lia.
  - intros a b c Hac. apply Z.ltb_lt in Hac. rewrite !Z.ltb_lt. lia.
Qed.

Lemma sample_derive_length v : zlen v = 16 -> zlen (sample_derive v) = 8.
Proof. intros Hv. unfold sample_derive. rewrite length_take. lia. Qed.

Lemma sample_store_inv : al_inv sample_store ∅.
Proof. split; [split_and!; [by exists 6|constructor|done]|set_solver]. Qed.

Abbreviation store := (BumpAllocator.bump memory_engine.memory_engine).
Lemma sample_supports : al_supports (A := store) 1.
Proof. done. Qed.

Lemma btree_refines_list_witness :
  drop 31 (bt_run sample_derive sample_order sample_tree_ops sample_tree).2 =
    [Ok (bt_value (sample_entry 7)); Err bad_argument; Ok (bt_value (sample_entry 7)); Ok (bt_bool true); Ok (bt_value (sample_entry 8))].
Proof.
  destruct (btree_refines_list sample_supports sample_derive sample_order sample_store ∅ 16 8 sample_tree sample_tree_ops) as (-> & _).
  - apply sample_store_inv.
  - done.
  - done.
  - apply sample_derive_length.
  - vm_compute. reflexivity.
  - vm_compute. done.
  - vm_compute. reflexivity.
  - vm_compute. reflexivity.
Defined.
(** The state after these operations; the cursor 0 is at 7, the cursor 1 at 8,
    the cursor 2 at the end. *)
Definition sample_state : tree store := (bt_run sample_derive sample_order sample_tree_ops sample_tree).1.
Definition sample_values : list bytes := map sample_entry (seqZ 1 25).
Definition sample_positions : list (nat * position) := [(0, At 6); (1, At 7); (2, AtEnd)]%nat.
Abbreviation sample_config := (Config 16 8 4 3).

Lemma sample_config_ok : config_ok sample_config 64.
Proof. split; cbn; unfold node_header_size, child_base, node_header_size; cbn; lia. Qed.

Lemma sample_state_inv : exists G o, values o = sample_values /\
  inv sample_derive sample_order sample_config 64 G (0 + insert_room) o sample_positions sample_state.
Proof.
  assert (al_room sample_store (insert_room + ops_room sample_tree_ops)) as Hroom by (vm_compute; done).
  destruct (make_tree_inv sample_derive sample_order sample_store ∅ (insert_room + ops_room sample_tree_ops) 16 8 sample_tree) as (cfg & Hcfg & _ & _ & Hinv);
    [apply sample_store_inv|done|done|reflexivity|vm_compute; done|done|].
  assert (cfg = sample_config) as -> by (destruct Hinv as (anc & cs & Hst & _); symmetry; apply (st_config _ _ _ _ _ _ _ Hst)).
  destruct (run_refines sample_derive sample_order sample_config 64 sample_config_ok sample_supports sample_derive_length sample_tree_ops
    _ insert_room None [] sample_tree Hinv) as (_ & G & o & Hinv' & Hv & _); [done|constructor|vm_compute; reflexivity|].
  exists G, o. split; [rewrite Hv; vm_compute; reflexivity|].
  replace sample_positions with (bt_spec_run sample_derive sample_order sample_tree_ops ([], [])).1.2 by (vm_compute; reflexivity). exact Hinv'.
Qed.

Lemma btree_find_correct_witness :
  wp (cursor_find sample_derive sample_order (sample_key 7) 1) sample_state (fun b t' => b = true /\
    wp (cursor_get 1) t' (fun w _ => w = sample_entry 7)).
Proof.
  destruct sample_state_inv as (G & o & Hv & Hinv). eapply wp_mono.
  { eapply (btree_find_correct sample_derive sample_order sample_config 64 G _ o sample_positions sample_state (sample_key 7) 1);
      [exact sample_config_ok|exact Hinv|reflexivity]. }
  cbn beta. rewrite Hv. assert (sample_entry 7 ∈ sample_values) as Hin by (apply list_elem_of_In; vm_compute; tauto).
  intros [|] t' Hb.
  - destruct Hb as (v & Hget & Hall). split; [done|]. destruct (Hall _ Hin) as [Hx _]. rewrite Hx; [exact Hget|vm_compute; reflexivity].
  - specialize (Hb _ Hin). by vm_compute in Hb.
Defined.

Lemma btree_insert_keeps_cursor_witness :
  wp (insert sample_derive sample_order (sample_entry 0) 0) sample_state (fun _ t' =>
    wp (cursor_get 1) t' (fun w _ => w = sample_entry 8)).
Proof.
  destruct sample_state_inv as (G & o & Hv & Hinv).
  eapply (btree_insert_keeps_cursor sample_supports sample_derive sample_order sample_config 64 G 0 o sample_positions);
    [exact sample_config_ok|exact sample_derive_length|exact Hinv|done|reflexivity|reflexivity|done|].
  exists 7%nat. split; [reflexivity|]. rewrite Hv. vm_compute. reflexivity.
Defined.


Lemma btree_cursor_errors_witness :
  move_next 2 sample_state = (sample_state, Err bad_cursor) /\ cursor_get 2 sample_state = (sample_state, Err bad_cursor).
Proof.
  destruct sample_state_inv as (G & o & Hv & Hinv).
  destruct (btree_cursor_errors sample_derive sample_order sample_config 64 G _ o sample_positions sample_state 2 AtEnd (sample_entry 1)
    sample_config_ok Hinv ltac:(reflexivity) ltac:(reflexivity)) as (Hget & _ & Hmove).
  split; [by apply Hmove|exact Hget].
Defined.
End btree_session.
