(* ===== verification/BTreeRemove.v ===== *)
(** * Removal from B+ trees (src/container/btree/tree.ipp)

    The model of [erase] and [clear].  As in BTree.v, the bodies of the loops
    over all cursors are the functions [..._cursor]. *)

From Stdlib Require Import Strings.Byte.
From S2P Require Import Prelude MathOps Serialization Blocks EngineSpec FreeList Allocator Extent BTreeNodes BTree.

Module btree_remove.
Import btree.

Section remove.
Context {A : Type} `{Allocator A}.
(** The functions of the options. *)
Context (derive_key : bytes -> bytes).
Abbreviation T := (tree A).

(** ** Node operations *)

Definition leaf_remove (i index : Z) : M T unit :=
  let* c := get_config in
  node_write i (leaf_node.remove (value_size c) (leaf_capacity c) index).
Definition leaf_insert_nonfull (i index : Z) (value : bytes) : M T unit :=
  let* c := get_config in
  node_write i (leaf_node.insert_nonfull (value_size c) (leaf_capacity c) index value).
Definition leaf_append_from_right (i neighbor : Z) : M T unit :=
  let* c := get_config in
  let* b := node_bytes neighbor in
  node_write i (leaf_node.append_from_right (value_size c) (leaf_capacity c) b).
Definition leaf_prepend_from_left (i neighbor : Z) : M T unit :=
  let* c := get_config in
  let* b := node_bytes neighbor in
  node_write i (leaf_node.prepend_from_left (value_size c) (leaf_capacity c) b).
Definition set_key (i index : Z) (key : bytes) : M T unit :=
  let* c := get_config in
  node_write i (internal_node.set_key (key_size c) (internal_max_children c) index key).
Definition remove_child (i index : Z) : M T unit :=
  let* c := get_config in
  node_write i (internal_node.remove_child (key_size c) (internal_max_children c) index).
Definition append_entry (i : Z) (key : bytes) (child : Z) : M T unit :=
  let* c := get_config in
  node_write i (internal_node.append_entry (key_size c) (internal_max_children c) key child).
Definition prepend_entry (i : Z) (key : bytes) (child : Z) : M T unit :=
  let* c := get_config in
  node_write i (internal_node.prepend_entry (key_size c) (internal_max_children c) key child).
Definition append_from_right (i : Z) (split_key : bytes) (neighbor : Z) : M T unit :=
  let* c := get_config in
  let* b := node_bytes neighbor in
  node_write i (internal_node.append_from_right (key_size c) (internal_max_children c) split_key b).
Definition prepend_from_left (i : Z) (split_key : bytes) (neighbor : Z) : M T unit :=
  let* c := get_config in
  let* b := node_bytes neighbor in
  node_write i (internal_node.prepend_from_left (key_size c) (internal_max_children c) split_key b).
Definition min_size : M T Z :=
  let* c := get_config in
  ret (leaf_node.min_size (leaf_capacity c)).
Definition min_children : M T Z :=
  let* c := get_config in
  ret (internal_node.min_children (internal_max_children c)).

(** The assertions at the start of the functions for two neighbours. *)
Definition check_neighbors (parent node node_index neighbor neighbor_index : Z) : M T unit :=
  let* parent_children := child_count parent in
  assert! (neighbor_index <? parent_children) ;;;
  assert! (negb (node_index =? 0) || (neighbor_index =? 1)) ;;;
  assert! (negb (node_index =? u32 (parent_children - 1)) || (neighbor_index =? u32 (parent_children - 2))) ;;;
  let* c := get_child parent node_index in
  assert! (c =? node) ;;;
  let* c := get_child parent neighbor_index in
  assert! (c =? neighbor).

(** ** Two neighbouring leaves *)

Definition steal_right_cursor (leaf leaf_size neighbor : Z) (c : cursor) : M T cursor :=
  if c_invalid c || negb (m_leaf c =? neighbor) then ret c else
  if m_index c =? 0 then
    let* e := back_entry c in
    ret (set_position leaf leaf_size (set_back (e.1, u32 (e.2 - 1)) c))
  else ret (set_index (u32 (m_index c - 1)) c).
Definition steal_left_cursor (leaf neighbor neighbor_size : Z) (c : cursor) : M T cursor :=
  if c_invalid c then ret c else
  if m_leaf c =? leaf then ret (set_index (u32 (m_index c + 1)) c) else
  if m_leaf c =? neighbor then
    if u32 (neighbor_size - 1) <=? m_index c then
      let* e := back_entry c in
      ret (set_position leaf (u32 (m_index c - u32 (neighbor_size - 1))) (set_back (e.1, u32 (e.2 + 1)) c))
    else ret c
  else ret c.
Definition steal_leaf_entry (parent leaf leaf_index neighbor neighbor_index : Z) : M T unit :=
  let* parent_children := child_count parent in
  let* leaf_sz := leaf_size leaf in
  let* neighbor_size := leaf_size neighbor in
  check_neighbors parent leaf leaf_index neighbor neighbor_index ;;;
  assert! (1 <? neighbor_size) ;;;
  if (leaf_index <? u32 (parent_children - 1)) && (neighbor_index =? u32 (leaf_index + 1)) then
    let* v := leaf_get neighbor 0 in
    leaf_insert_nonfull leaf leaf_sz v ;;;
    leaf_remove neighbor 0 ;;;
    let* v := leaf_get leaf leaf_sz in
    set_key parent leaf_index (derive_key v) ;;;
    for_cursors (fun _ => steal_right_cursor leaf leaf_sz neighbor)
  else if (0 <? leaf_index) && (neighbor_index =? u32 (leaf_index - 1)) then
    let* v := leaf_get neighbor (u32 (neighbor_size - 1)) in
    leaf_insert_nonfull leaf 0 v ;;;
    leaf_remove neighbor (u32 (neighbor_size - 1)) ;;;
    let* v := leaf_get neighbor (u32 (neighbor_size - 2)) in
    set_key parent (u32 (leaf_index - 1)) (derive_key v) ;;;
    for_cursors (fun _ => steal_left_cursor leaf neighbor neighbor_size)
  else throw assert_failure.

Definition merge_right_cursor (leaf leaf_size neighbor : Z) (c : cursor) : M T cursor :=
  if c_invalid c || negb (m_leaf c =? neighbor) then ret c else
  let* e := back_entry c in
  ret (set_position leaf (u32 (m_index c + leaf_size)) (set_back (e.1, u32 (e.2 - 1)) c)).
Definition merge_left_cursor (leaf neighbor neighbor_size : Z) (c : cursor) : M T cursor :=
  if c_invalid c then ret c else
  if m_leaf c =? leaf then ret (set_index (u32 (m_index c + neighbor_size)) c) else
  if m_leaf c =? neighbor then
    let* e := back_entry c in
    ret (set_position leaf (m_index c) (set_back (e.1, u32 (e.2 + 1)) c))
  else ret c.
Definition merge_leaf (parent leaf leaf_index neighbor neighbor_index : Z) : M T unit :=
  let* parent_children := child_count parent in
  let* leaf_sz := leaf_size leaf in
  let* neighbor_size := leaf_size neighbor in
  check_neighbors parent leaf leaf_index neighbor neighbor_index ;;;
  if (leaf_index <? u32 (parent_children - 1)) && (neighbor_index =? u32 (leaf_index + 1)) then
    leaf_append_from_right leaf neighbor ;;;
    let* a := get_anchor in
    (if rightmost a =? neighbor then set_rightmost leaf else ret tt) ;;;
    (if negb (neighbor_index =? u32 (parent_children - 1)) then
       let* v := leaf_get leaf (u32 (leaf_sz + neighbor_size - 1)) in
       set_key parent leaf_index (derive_key v)
     else ret tt) ;;;
    for_cursors (fun _ => merge_right_cursor leaf leaf_sz neighbor)
  else if (0 <? leaf_index) && (neighbor_index =? u32 (leaf_index - 1)) then
    leaf_prepend_from_left leaf neighbor ;;;
    let* a := get_anchor in
    (if leftmost a =? neighbor then set_leftmost leaf else ret tt) ;;;
    for_cursors (fun _ => merge_left_cursor leaf neighbor neighbor_size)
  else throw assert_failure.

(** ** Two neighbouring internal nodes *)

(** [stack_index] is the index of the children. *)
Definition steal_right_entry_cursor (stack_index : nat) (node node_children neighbor : Z) (c : cursor) : M T cursor :=
  if c_invalid c then ret c else
  let* parent_entry := entry_at (Z.of_nat stack_index - 1) c in
  let* entry := entry_at (Z.of_nat stack_index) c in
  if negb (entry.1 =? neighbor) then ret c else
  if entry.2 =? 0 then
    ret (set_entry (Z.of_nat stack_index - 1) (parent_entry.1, u32 (parent_entry.2 - 1))
           (set_entry (Z.of_nat stack_index) (node, node_children) c))
  else ret (set_entry (Z.of_nat stack_index) (entry.1, u32 (entry.2 - 1)) c).
Definition steal_left_entry_cursor (stack_index : nat) (node neighbor neighbor_children : Z) (c : cursor) : M T cursor :=
  if c_invalid c then ret c else
  let* parent_entry := entry_at (Z.of_nat stack_index - 1) c in
  let* entry := entry_at (Z.of_nat stack_index) c in
  if entry.1 =? node then ret (set_entry (Z.of_nat stack_index) (entry.1, u32 (entry.2 + 1)) c) else
  if entry.1 =? neighbor then
    if u32 (neighbor_children - 1) <=? entry.2 then
      ret (set_entry (Z.of_nat stack_index - 1) (parent_entry.1, u32 (parent_entry.2 + 1))
             (set_entry (Z.of_nat stack_index) (node, u32 (entry.2 - u32 (neighbor_children - 1))) c))
    else ret c
  else ret c.
Definition steal_internal_entry (parent : Z) (stack_index : nat) (node node_index neighbor neighbor_index : Z) : M T unit :=
  let* parent_children := child_count parent in
  let* node_children := child_count node in
  let* neighbor_children := child_count neighbor in
  assert! (0 <? Z.of_nat stack_index) ;;;
  check_neighbors parent node node_index neighbor neighbor_index ;;;
  let* min := min_children in
  assert! (min <? neighbor_children) ;;;
  if (node_index <? u32 (parent_children - 1)) && (neighbor_index =? u32 (node_index + 1)) then
    let* k := get_key parent node_index in
    let* c := get_child neighbor 0 in
    append_entry node k c ;;;
    let* k := get_key neighbor 0 in
    set_key parent node_index k ;;;
    remove_child neighbor 0 ;;;
    for_cursors (fun _ => steal_right_entry_cursor stack_index node node_children neighbor)
  else if (0 <? node_index) && (neighbor_index =? u32 (node_index - 1)) then
    let* k := get_key parent neighbor_index in
    let* c := get_child neighbor (u32 (neighbor_children - 1)) in
    prepend_entry node k c ;;;
    let* k := get_key neighbor (u32 (neighbor_children - 2)) in
    set_key parent neighbor_index k ;;;
    remove_child neighbor (u32 (neighbor_children - 1)) ;;;
    for_cursors (fun _ => steal_left_entry_cursor stack_index node neighbor neighbor_children)
  else throw assert_failure.

Definition merge_right_entry_cursor (stack_index : nat) (node node_children neighbor : Z) (c : cursor) : M T cursor :=
  if c_invalid c then ret c else
  let* parent_entry := entry_at (Z.of_nat stack_index - 1) c in
  let* entry := entry_at (Z.of_nat stack_index) c in
  if entry.1 =? neighbor then
    ret (set_entry (Z.of_nat stack_index - 1) (parent_entry.1, u32 (parent_entry.2 - 1))
           (set_entry (Z.of_nat stack_index) (node, u32 (entry.2 + node_children)) c))
  else ret c.
Definition merge_left_entry_cursor (stack_index : nat) (node neighbor neighbor_children : Z) (c : cursor) : M T cursor :=
  if c_invalid c then ret c else
  let* parent_entry := entry_at (Z.of_nat stack_index - 1) c in
  let* entry := entry_at (Z.of_nat stack_index) c in
  if entry.1 =? neighbor then
    ret (set_entry (Z.of_nat stack_index - 1) (parent_entry.1, u32 (parent_entry.2 + 1))
           (set_entry (Z.of_nat stack_index) (node, entry.2) c))
  else if entry.1 =? node then
    ret (set_entry (Z.of_nat stack_index) (entry.1, u32 (entry.2 + neighbor_children)) c)
  else ret c.
Definition merge_internal (parent : Z) (stack_index : nat) (node node_index neighbor neighbor_index : Z) : M T unit :=
  let* parent_children := child_count parent in
  let* node_children := child_count node in
  let* neighbor_children := child_count neighbor in
  assert! (0 <? Z.of_nat stack_index) ;;;
  check_neighbors parent node node_index neighbor neighbor_index ;;;
  if (node_index <? u32 (parent_children - 1)) && (neighbor_index =? u32 (node_index + 1)) then
    let* k := get_key parent node_index in
    append_from_right node k neighbor ;;;
    (if negb (neighbor_index =? u32 (parent_children - 1)) then
       let* k := get_key parent neighbor_index in
       set_key parent node_index k
     else ret tt) ;;;
    for_cursors (fun _ => merge_right_entry_cursor stack_index node node_children neighbor)
  else if (0 <? node_index) && (neighbor_index =? u32 (node_index - 1)) then
    let* k := get_key parent neighbor_index in
    prepend_from_left node k neighbor ;;;
    for_cursors (fun _ => merge_left_entry_cursor stack_index node neighbor neighbor_children)
  else throw assert_failure.

(** ** The removal of a child from its parents *)

Definition unlink_child_cursor (stack_index : nat) (node child_node_index : Z) (c : cursor) : M T cursor :=
  if c_invalid c then ret c else
  let* entry := entry_at (Z.of_nat stack_index) c in
  if entry.1 =? node then
    assert! (negb (entry.2 =? child_node_index)) ;;;
    if child_node_index <? entry.2
    then ret (set_entry (Z.of_nat stack_index) (entry.1, u32 (entry.2 - 1)) c) else ret c
  else ret c.
Definition drop_root_cursor (node : Z) (c : cursor) : M T cursor :=
  if c_invalid c then ret c else
  match m_parents c with
  | e :: rest => assert! (e.1 =? node) ;;; ret (set_parents rest c)
  | [] => throw assert_failure
  end.

(** The end of the loop at the root. *)
Definition shrink_root (node : Z) : M T unit :=
  let* a := get_anchor in
  assert! (node =? root a) ;;;
  let* n := child_count node in
  if n =? 1 then
    let* c := get_child node 0 in
    set_root c ;;;
    set_height (u32 (height a - 1)) ;;;
    free_internal node ;;;
    for_cursors (fun _ => drop_root_cursor node)
  else ret tt.

(** The neighbours of the child at [index], if they exist; [read] opens the
    block. *)
Definition right_neighbor (read : Z -> M T Z) (parent index : Z) : M T (option Z) :=
  let* n := child_count parent in
  if u32 (index + 1) <? n then
    let* c := get_child parent (u32 (index + 1)) in
    let* r := read c in
    ret (Some r)
  else ret None.
Definition left_neighbor (read : Z -> M T Z) (parent index : Z) : M T (option Z) :=
  if 0 <? index then
    let* c := get_child parent (u32 (index - 1)) in
    let* l := read c in
    ret (Some l)
  else ret None.

(** [right.get_child_count() > right.min_children()] *)
Definition can_spare_child (o : option Z) : M T bool :=
  match o with
  | None => ret false
  | Some i =>
    let* n := child_count i in
    let* min := min_children in
    ret (min <? n)
  end.

Fixpoint propagate (stack_index : nat) (id : nat) (node child_node child_node_index : Z) : M T unit :=
  let* cursor := get_cursor id in
  let* e := entry_at (Z.of_nat stack_index) cursor in
  assert! (e.1 =? node) ;;;
  let* c := get_child node child_node_index in
  assert! (c =? child_node) ;;;
  let* n := child_count node in
  assert! (2 <=? n) ;;;
  remove_child node child_node_index ;;;
  for_cursors (fun _ => unlink_child_cursor stack_index node child_node_index) ;;;
  match stack_index with
  | O => shrink_root node
  | S parent_stack_index =>
    let* n := child_count node in
    let* min := min_children in
    if min <=? n then ret tt else
    let* cursor := get_cursor id in
    let* e := entry_at (Z.of_nat parent_stack_index) cursor in
    let parent := e.1 in
    let index_in_parent := e.2 in
    let* right_node := right_neighbor read_internal parent index_in_parent in
    let* b := can_spare_child right_node in
    if b : bool then
      match right_node with
      | Some r => steal_internal_entry parent stack_index node index_in_parent r (u32 (index_in_parent + 1))
      | None => throw assert_failure
      end
    else
    let* left_node := left_neighbor read_internal parent index_in_parent in
    let* b := can_spare_child left_node in
    if b : bool then
      match left_node with
      | Some l => steal_internal_entry parent stack_index node index_in_parent l (u32 (index_in_parent - 1))
      | None => throw assert_failure
      end
    else
    match left_node, right_node with
    | Some l, _ =>
      merge_internal parent stack_index node index_in_parent l (u32 (index_in_parent - 1)) ;;;
      free_internal l ;;;
      propagate parent_stack_index id parent l (u32 (index_in_parent - 1))
    | None, Some r =>
      merge_internal parent stack_index node index_in_parent r (u32 (index_in_parent + 1)) ;;;
      free_internal r ;;;
      propagate parent_stack_index id parent r (u32 (index_in_parent + 1))
    | None, None => throw assert_failure
    end
  end.
Definition propagate_leaf_deletion (id : nat) (child_node child_node_index : Z) : M T unit :=
  let* cursor := get_cursor id in
  assert! (negb (zlen (m_parents cursor) =? 0)) ;;;
  let stack_index := (length (m_parents cursor) - 1)%nat in
  let* e := entry_at (Z.of_nat stack_index) cursor in
  propagate stack_index id e.1 child_node child_node_index.

(** ** Removal of a value *)

Definition erase_cursor (leaf index : Z) (c : cursor) : M T cursor :=
  if c_invalid c || negb (m_leaf c =? leaf) then ret c else
  if m_index c =? index then ret (set_deleted true c) else
  if index <? m_index c then ret (set_index (u32 (m_index c - 1)) c) else ret c.

(** The root is a leaf. *)
Definition erase_root (leaf : Z) : M T unit :=
  let* n := leaf_size leaf in
  if n =? 0 then
    let* a := get_anchor in
    assert! (height a =? 1) ;;;
    free_leaf leaf ;;;
    set_leftmost invalid_value ;;;
    set_rightmost invalid_value ;;;
    set_root invalid_value ;;;
    set_height 0 ;;;
    for_cursors (fun _ c => ret (if c_invalid c then c else reset_to_invalid c))
  else ret tt.

(** The leftmost or the rightmost leaf. *)
Definition leave_leaf_cursor (leaf neighbor index_in_neighbor neighbor_index : Z) (c : cursor) : M T cursor :=
  if c_invalid c || negb (m_leaf c =? leaf) then ret c else
  let* e := back_entry c in
  ret (set_position neighbor index_in_neighbor (set_back (e.1, neighbor_index) c)).
Definition erase_edge (leaf : Z) (id : nat) : M T unit :=
  let* n := leaf_size leaf in
  let* cursor := get_cursor id in
  let* e := back_entry cursor in
  let parent := e.1 in
  let index_in_parent := e.2 in
  let* a := get_anchor in
  let* cfg := get_config in
  if n =? 0 then
    if leaf =? leftmost a then
      let* c := get_child parent (u32 (index_in_parent + 1)) in
      let* neighbor := read_leaf c in
      for_cursors (fun _ => leave_leaf_cursor leaf neighbor 0 (u32 (index_in_parent + 1))) ;;;
      set_leftmost neighbor ;;;
      free_leaf leaf ;;;
      propagate_leaf_deletion id leaf index_in_parent
    else
      let* c := get_child parent (u32 (index_in_parent - 1)) in
      let* neighbor := read_leaf c in
      let* index_in_neighbor := leaf_size neighbor in
      for_cursors (fun _ => leave_leaf_cursor leaf neighbor index_in_neighbor (u32 (index_in_parent - 1))) ;;;
      set_rightmost neighbor ;;;
      free_leaf leaf ;;;
      propagate_leaf_deletion id leaf index_in_parent
  else if (leaf_nodes a =? 2) && (size a <=? leaf_capacity cfg) then
    if leaf =? leftmost a then
      let* c := get_child parent 1 in
      let* right_node := read_leaf c in
      merge_leaf parent leaf 0 right_node 1 ;;;
      free_leaf right_node ;;;
      propagate_leaf_deletion id right_node 1
    else
      let* c := get_child parent 0 in
      let* left_node := read_leaf c in
      merge_leaf parent leaf 1 left_node 0 ;;;
      free_leaf left_node ;;;
      propagate_leaf_deletion id left_node 0
  else ret tt.

(** All other leaves; [edge] is [rightmost()] or [leftmost()]. *)
Definition can_spare_value (edge : anchor -> Z) (o : option Z) : M T bool :=
  match o with
  | None => ret false
  | Some i =>
    let* n := leaf_size i in
    let* min := min_size in
    let* a := get_anchor in
    ret ((min <? n) || ((i =? edge a) && (1 <? n)))
  end.
Definition erase_inner (leaf : Z) (id : nat) : M T unit :=
  let* n := leaf_size leaf in
  let* min := min_size in
  if min <=? n then ret tt else
  let* cursor := get_cursor id in
  let* e := back_entry cursor in
  let parent := e.1 in
  let index_in_parent := e.2 in
  let* right_node := right_neighbor read_leaf parent index_in_parent in
  let* b := can_spare_value rightmost right_node in
  if b : bool then
    match right_node with
    | Some r => steal_leaf_entry parent leaf index_in_parent r (u32 (index_in_parent + 1))
    | None => throw assert_failure
    end
  else
  let* left_node := left_neighbor read_leaf parent index_in_parent in
  let* b := can_spare_value leftmost left_node in
  if b : bool then
    match left_node with
    | Some l => steal_leaf_entry parent leaf index_in_parent l (u32 (index_in_parent - 1))
    | None => throw assert_failure
    end
  else
  match right_node, left_node with
  | Some r, _ =>
    merge_leaf parent leaf index_in_parent r (u32 (index_in_parent + 1)) ;;;
    free_leaf r ;;;
    propagate_leaf_deletion id r (u32 (index_in_parent + 1))
  | None, Some l =>
    merge_leaf parent leaf index_in_parent l (u32 (index_in_parent - 1)) ;;;
    free_leaf l ;;;
    propagate_leaf_deletion id l (u32 (index_in_parent - 1))
  | None, None => throw assert_failure
  end.

Definition erase (id : nat) : M T unit :=
  let* cursor := get_cursor id in
  assert! (negb (c_invalid cursor)) ;;;
  assert! (negb (c_deleted cursor)) ;;;
  let* a := get_anchor in
  assert! (zlen (m_parents cursor) =? u32 (height a - 1)) ;;;
  assert! (0 <? height a) ;;;
  let leaf := m_leaf cursor in
  let index := m_index cursor in
  leaf_remove leaf index ;;;
  set_size (u64 (size a - 1)) ;;;
  for_cursors (fun _ => erase_cursor leaf index) ;;;
  if zlen (m_parents cursor) =? 0 then erase_root leaf else
  let* a := get_anchor in
  assert! (1 <? height a) ;;;
  if (leaf =? leftmost a) || (leaf =? rightmost a) then erase_edge leaf id else erase_inner leaf id.
Definition cursor_erase (id : nat) : M T unit :=
  let* c := get_cursor id in
  check_element_valid c ;;;
  erase id.

(** ** Removal of all values *)

(** [visit] in [clear]; the children are read one after the other. *)
Fixpoint clear_nodes (level : nat) (index : Z) : M T unit :=
  match level with
  | O => ret tt
  | S level =>
    let* node := read_internal index in
    let* n := child_count node in
    (fix clear_children (count : nat) (i : Z) : M T unit :=
       match count with
       | O => ret tt
       | S count =>
         let* c := get_child node i in
         clear_nodes level c ;;;
         clear_children count (i + 1)
       end) (Z.to_nat n) 0
  end ;;;
  on_alloc (free index 1).
Definition clear : M T unit :=
  let* a := get_anchor in
  if size a =? 0 then ret tt else
  for_cursors (fun _ c => ret (if c_invalid c then c else set_deleted true invalid_cursor)) ;;;
  set_root invalid_value ;;;
  set_leftmost invalid_value ;;;
  set_rightmost invalid_value ;;;
  set_height 0 ;;;
  set_size 0 ;;;
  set_internal_nodes 0 ;;;
  set_leaf_nodes 0 ;;;
  assert! (1 <=? height a) ;;;
  clear_nodes (Z.to_nat (height a) - 1) (root a).
End remove.
End btree_remove.
