(* ===== verification/BTreeZone.v ===== *)
(** * Neighbouring nodes of B+ trees

    The trees between two steps of a removal: the nodes may have too few
    entries, and a child that was freed may still be part of its parent.  What
    the replacement of neighbouring children does to the paths of a tree. *)

From Stdlib Require Import Sorting.Sorted.
From S2P Require Import Prelude BTreeNodes BTreeShape BTreePaths BTreeSplit.

Module btree_zone.
Import btree_shape btree_paths btree_split.
Implicit Types (f : frame) (fs : list frame) (t c s : node) (ps : list (Z * Z)).

(** ** Order and fill *)

(** No leaf is empty, internal nodes have two children. *)
Fixpoint dense (h : nat) t : Prop :=
  match h, t with
  | O, Leaf _ vals => vals <> []
  | S h, Inner _ _ cs => (2 <= length cs)%nat /\ Forall (dense h) cs
  | _, _ => False
  end.
Fixpoint dense_frames (h : nat) fs : Prop :=
  match fs with
  | [] => True
  | f :: fs => (1 <= length (f_left f ++ f_right f))%nat /\
      Forall (dense (length fs + h)) (f_left f ++ f_right f) /\ dense_frames h fs
  end.

Lemma dense_plug h fs c : dense (length fs + h) (plug fs c) <-> dense_frames h fs /\ dense h c.
Proof.
  induction fs as [|f fs IH]; [cbn; tauto|]. cbn [plug dense length Nat.add dense_frames].
  rewrite Forall_app, Forall_cons, IH, Forall_app, !length_app. cbn [length]. split.
  - intros (Hl & Hfl & (Hfs & Hc) & Hfr). split_and!; try done. lia.
  - intros ((Hl & (Hfl & Hfr) & Hfs) & Hc). split_and!; try done. lia.
Qed.
Lemma dense_frames_app h fs fs' :
  dense_frames h (fs ++ fs') <-> dense_frames (length fs' + h) fs /\ dense_frames h fs'.
Proof.
  induction fs as [|f fs IH]; [cbn; tauto|]. cbn [app dense_frames]. rewrite IH, (length_app fs), <- Nat.add_assoc. tauto.
Qed.

Lemma dense_leaf_ids h t : dense h t -> (2 ^ h <= length (leaf_ids t))%nat.
Proof.
  revert t. induction h as [|h IH]; intros [i vals|i keys cs] Hd; try done.
  destruct Hd as [Hl Hd]. destruct cs as [|c [|c' cs]]; [simpl in Hl; lia..|].
  apply Forall_cons in Hd as [H1 Hd]. apply Forall_cons in Hd as [H2 _]. apply IH in H1, H2.
  cbn [leaf_ids map concat]. rewrite !length_app. cbn [Nat.pow]. lia.
Qed.
Lemma dense_nonempty h t : dense h t -> contents t <> [].
Proof.
  revert t. induction h as [|h IH]; intros [i vals|i keys cs] Hd; try done.
  destruct Hd as [Hl Hd]. destruct cs as [|c cs]; [simpl in Hl; lia|]. apply Forall_cons in Hd as [H1 _]. apply IH in H1.
  rewrite contents_inner, all_contents_cons. by destruct (contents c).
Qed.
Lemma dense_some_leaf h t : dense h t -> leaf_ids t <> [].
Proof. intros Hd%dense_leaf_ids Heq. rewrite Heq in Hd. cbn in Hd. pose proof (Nat.pow_nonzero 2 h). lia. Qed.

(** There are fewer internal nodes than leaves. *)
Definition inner_count t : Z := zlen (blocks_of t) - zlen (leaf_ids t).
Definition inner_counts (cs : list node) : Z := zlen (all_blocks cs) - zlen (concat (map leaf_ids cs)).
Lemma inner_counts_cons c cs : inner_counts (c :: cs) = inner_count c + inner_counts cs.
Proof. unfold inner_counts, inner_count. rewrite all_blocks_cons. cbn [map concat]. rewrite !length_app. lia. Qed.
Lemma inner_counts_app cs ds : inner_counts (cs ++ ds) = inner_counts cs + inner_counts ds.
Proof. induction cs as [|c cs IH]; [done|]. cbn [app]. rewrite !inner_counts_cons, IH. lia. Qed.
Lemma inner_count_inner i keys cs : inner_count (Inner i keys cs) = 1 + inner_counts cs.
Proof. unfold inner_count, inner_counts. rewrite blocks_of_inner. cbn [leaf_ids length]. lia. Qed.
Lemma inner_count_nonneg t : 0 <= inner_count t.
Proof.
  unfold inner_count. pose proof (sublist_length _ _ (leaf_ids_sublist t)) as Hl. unfold ids in Hl. rewrite length_fmap in Hl. lia.
Qed.
Lemma inner_counts_nonneg cs : 0 <= inner_counts cs.
Proof. induction cs as [|c cs IH]; [done|]. rewrite inner_counts_cons. pose proof (inner_count_nonneg c). lia. Qed.
Lemma dense_inner_count h t : dense h t -> inner_count t < zlen (leaf_ids t).
Proof.
  revert t. induction h as [|h IH]; intros [i vals|i keys cs] Hd; try done.
  destruct Hd as [Hl Hd]. rewrite inner_count_inner. cbn [leaf_ids].
  assert (inner_counts cs + zlen cs <= zlen (concat (map leaf_ids cs))) as Hc; [|lia].
  clear Hl. induction Hd as [|c cs Hc _ IHc]; [done|]. rewrite inner_counts_cons. cbn [map concat length]. rewrite length_app.
  specialize (IH _ Hc). lia.
Qed.

(** Every leaf has a value. *)
Lemma dense_leaf_count h t : dense h t -> (length (leaf_ids t) <= length (contents t))%nat.
Proof.
  revert t. induction h as [|h IH]; intros [i vals|i keys cs] Hd; try done.
  - cbn in *. destruct vals; [done|cbn; lia].
  - destruct Hd as [_ Hd]. rewrite contents_inner. cbn [leaf_ids]. unfold all_contents. induction Hd as [|c cs Hc _ IHc]; [done|].
    cbn [map concat]. rewrite !length_app. apply IH in Hc. lia.
Qed.

(** All leaves are [h] levels below the root. *)
Fixpoint level (h : nat) t : Prop :=
  match h, t with
  | O, Leaf _ _ => True
  | O, Inner _ _ cs => cs = []
  | S h, Inner _ _ cs => Forall (level h) cs
  | S _, Leaf _ _ => False
  end.
Lemma level_depth h t ps leaf pre vals post : level h t -> at_path t ps leaf pre vals post -> length ps = h.
Proof.
  intros Hl Hp. revert h Hl. induction Hp as [|i keys l c r ps leaf pre vals post _ IH]; intros [|h] Hl; try done; cbn [level] in Hl.
  - by destruct l.
  - apply Forall_app in Hl as [_ Hl]. apply Forall_cons in Hl as [Hc _]. cbn [length]. f_equal. by apply IH.
Qed.
Lemma level_plug h fs c : level h (plug fs c) -> exists h', h = (length fs + h')%nat /\ level h' c /\
  forall c', level h' c' -> level h (plug fs c').
Proof.
  revert h. induction fs as [|f fs IH]; intros h Hl; [by exists h|]. cbn [plug] in *. destruct h as [|h]; cbn [level] in *.
  - by destruct (f_left f).
  - apply Forall_app in Hl as [H1 Hl]. apply Forall_cons in Hl as [H2 H3]. destruct (IH _ H2) as (h' & -> & Hc & Hnew). exists h'. split_and!; [done..|].
    intros c' Hc'. apply Forall_app. split; [done|]. apply Forall_cons. split; [by apply Hnew|done].
Qed.

Section order.
Context (derive_key : bytes -> bytes) (key_less : bytes -> bytes -> bool) `{KeyOrder key_less}.
Abbreviation shape := (shape derive_key key_less).
Abbreviation ordered := (ordered derive_key key_less).
Abbreviation chain := (chain key_less).
Abbreviation inside := (inside key_less).
Implicit Types (lo hi : option bytes) (k : bytes) (keys : list bytes).

(** The order of a tree of height [h]. *)
Fixpoint layout (h : nat) lo hi t : Prop :=
  match h, t with
  | O, Leaf _ vals => ordered lo hi vals
  | S h, Inner _ keys cs => chain (layout h) lo keys cs hi
  | _, _ => False
  end.

Lemma chain_forall {N} (P : option bytes -> option bytes -> N -> Prop) (Q : N -> Prop) lo keys cs hi :
  chain (fun lo hi (x : N) => P lo hi x /\ Q x) lo keys cs hi <-> chain P lo keys cs hi /\ Forall Q cs.
Proof.
  revert lo cs. induction keys as [|k keys IH]; intros lo [|c cs]; cbn [btree_shape.chain]; try tauto.
  - destruct cs; [|tauto]. split; [intros [? ?]; by split; [|repeat constructor]|intros [? Hq]; by apply Forall_cons in Hq as [? _]].
  - rewrite IH, Forall_cons. tauto.
Qed.

Lemma shape_layout h lo hi t : shape h lo hi t <-> layout h lo hi t /\ dense h t.
Proof.
  revert lo hi t. induction h as [|h IH]; intros lo hi [i vals|i keys cs]; cbn [btree_shape.shape layout dense]; try tauto.
  - unfold btree_shape.ordered, in_range. tauto.
  - assert (chain (shape h) lo keys cs hi <-> chain (fun lo hi c => layout h lo hi c /\ dense h c) lo keys cs hi) as ->.
    { split; apply chain_impl; intros; by apply IH. }
    rewrite chain_forall. tauto.
Qed.

Lemma layout_ordered h lo hi t : layout h lo hi t -> ordered lo hi (contents t).
Proof.
  revert lo hi t. induction h as [|h IH]; intros lo hi [i vals|i keys cs]; cbn [layout]; try done.
  intros Hc. apply (chain_ordered derive_key key_less lo keys). eapply chain_impl; [|exact Hc]. intros; by apply IH.
Qed.

(** Weaker bounds. *)
Definition wider lo hi lo' hi' : Prop := forall k, (above key_less lo k -> above key_less lo' k) /\
  (below key_less hi k -> below key_less hi' k) /\ (before key_less hi k -> before key_less hi' k).
Lemma chain_wider {N} (P : option bytes -> option bytes -> N -> Prop) lo hi lo' hi' keys cs :
  (forall lo hi lo' hi' (x : N), wider lo hi lo' hi' -> P lo hi x -> P lo' hi' x) -> wider lo hi lo' hi' ->
  chain P lo keys cs hi -> chain P lo' keys cs hi'.
Proof.
  intros HP. revert lo lo' cs. induction keys as [|k keys IH]; intros lo lo' [|c cs] Hw; cbn [btree_shape.chain]; try done.
  - destruct cs; [|done]. by apply HP.
  - intros ((Ha & Hb) & Hc & Hr). split_and!; [split; by apply Hw| |].
    + eapply HP; [|exact Hc]. intros k'. split; [apply Hw|done].
    + eapply IH; [|exact Hr]. intros k'. split; [done|apply Hw].
Qed.
Lemma layout_wider h lo hi lo' hi' t : wider lo hi lo' hi' -> layout h lo hi t -> layout h lo' hi' t.
Proof.
  revert lo hi lo' hi' t. induction h as [|h IH]; intros lo hi lo' hi' [i vals|i keys cs] Hw; cbn [layout]; try done.
  - intros [Hs Hr]. split; [done|]. eapply Forall_impl; [exact Hr|]. intros v [Ha Hb]. split; by apply Hw.
  - apply chain_wider; [|done]. intros. by eapply IH.
Qed.
Lemma wider_lo lo hi k : above key_less lo k -> wider (Some k) hi lo hi.
Proof. intros Hk k'. split; [|done]. intros Hk'. by eapply above_lt. Qed.
Lemma wider_hi lo hi k : before key_less hi k -> wider lo (Some k) lo hi.
Proof.
  intros Hk k'. split; [done|]. split.
  - intros Hk'. apply (below_le key_less hi k); [by apply before_below|done].
  - intros Hk'. apply (before_hi_le key_less hi k); [done|]. by apply lt_le.
Qed.

Lemma layout_plug h lo hi fs c : layout h lo hi (plug fs c) -> exists h', h = (length fs + h')%nat /\
  layout h' (hole_lo lo fs) (hole_hi hi fs) c /\
  forall c', layout h' (hole_lo lo fs) (hole_hi hi fs) c' -> layout h lo hi (plug fs c').
Proof.
  revert h lo hi. induction fs as [|[i keys l r] fs IH]; intros h lo hi Hs; [by exists h|].
  cbn [plug f_id f_keys f_left f_right hole_lo hole_hi length] in *. destruct h as [|h]; [done|]. cbn [layout] in Hs.
  pose proof (chain_child _ _ _ _ _ _ (length l) _ Hs (list_lookup_middle _ _ _ _ eq_refl)) as Hch.
  destruct (IH _ _ _ Hch) as (h' & -> & Hsc & Hnew). exists h'. split_and!; [lia|done|].
  intros c' Hc'. cbn [layout]. replace (l ++ plug fs c' :: r) with (<[length l := plug fs c']> (l ++ plug fs c :: r)).
  - apply chain_insert; [done|]. by apply Hnew.
  - replace (length l) with (length l + 0)%nat by lia. by rewrite insert_app_r.
Qed.

Lemma layout_level h lo hi t : layout h lo hi t -> level h t.
Proof.
  revert lo hi t. induction h as [|h IH]; intros lo hi [i vals|i keys cs] Hl; try done. cbn [layout level] in *.
  revert lo cs Hl. induction keys as [|k keys IHk]; intros lo [|c cs] Hc; cbn [btree_shape.chain] in Hc; try done.
  - destruct cs; [|done]. repeat constructor. by eapply IH.
  - destruct Hc as (_ & Hc & Hr). constructor; [by eapply IH|by eapply IHk].
Qed.
(** All leaves have the same depth. *)
Lemma layout_depth h lo hi t ps leaf pre vals post : layout h lo hi t -> at_path t ps leaf pre vals post -> length ps = h.
Proof.
  intros Hs Hp. revert h lo hi Hs. induction Hp as [|i keys l c r ps leaf pre vals post _ IH]; intros [|h] lo hi Hs; try done.
  cbn [layout] in Hs. apply (chain_child _ _ _ _ _ _ (length l) c) in Hs; [|by rewrite list_lookup_middle].
  cbn [length]. f_equal. by eapply IH.
Qed.
(** *** Neighbouring children *)

Lemma lo_at_cons lo k keys (i : nat) : lo_at lo (k :: keys) (S i) = lo_at (Some k) keys i.
Proof. by destruct i. Qed.
Lemma hi_at_cons hi k keys (i : nat) : hi_at (k :: keys) hi (S i) = hi_at keys hi i.
Proof. done. Qed.
Lemma wider_le lo hi k : lo = Some k -> forall k', le key_less k' k -> wider lo hi (Some k') hi.
Proof. intros -> k' Hk x. split; [|done]. intros Hx. by eapply le_lt_trans. Qed.

Section pair.
Context {N : Type} (P : option bytes -> option bytes -> N -> Prop).
Context (P_wider : forall lo hi lo' hi' (x : N), wider lo hi lo' hi' -> P lo hi x -> P lo' hi' x).

(** The separator [k] between two neighbours, in the bounds [lo'] and [hi'],
    can be changed together with them, and they can be replaced by one child. *)
Lemma chain_pair lo keys (l : list N) (a b : N) (r : list N) hi : chain P lo keys (l ++ a :: b :: r) hi ->
  let lo' := lo_at lo keys (length l) in let hi' := hi_at keys hi (S (length l)) in
  exists k, keys !! length l = Some k /\ inside lo' hi' k /\ P lo' (Some k) a /\ P (Some k) hi' b /\
    (forall k' (a' b' : N), inside lo' hi' k' -> P lo' (Some k') a' -> P (Some k') hi' b' ->
       chain P lo (<[length l := k']> keys) (l ++ a' :: b' :: r) hi) /\
    (forall x : N, P lo' hi' x -> chain P lo (delete (length l) keys) (l ++ x :: r) hi) /\
    (forall k' (x : N), r <> [] -> bounded key_less lo' hi' k' -> P lo' (Some k') x ->
       chain P lo (delete (S (length l)) (<[length l := k']> keys)) (l ++ x :: r) hi).
Proof.
  revert lo keys. induction l as [|x0 l IH]; intros lo [|k0 keys] Hc.
  - by destruct r.
  - cbn [app length btree_shape.chain] in *. destruct Hc as (Hk0 & Ha & Hc). exists k0. split; [done|]. cbn [lo_at]. rewrite hi_at_cons.
    destruct keys as [|k2 keys]; cbn [btree_shape.chain] in Hc.
    { destruct r; [|done]. change (hi_at [] hi 0) with hi. split_and!; try done; intros k' x Hne; done. }
    destruct Hc as (Hk2 & Hb & Hc). change (hi_at (k2 :: keys) hi 0) with (Some k2).
    assert (inside lo hi k2) as Hk2' by by eapply inside_right. split_and!; try done.
    + split; [apply Hk0|apply Hk2].
    + intros k' a' b' Hk' Ha' Hb'. cbn. split_and!; try done; [by eapply inside_left|]. split; [apply Hk'|apply Hk2].
    + intros k' x Hne [Hlo Hle] Hx. cbn. cbn in Hle. split_and!; [|done|].
      * split; [done|]. eapply (before_hi_le key_less hi k2); [apply Hk2|done].
      * eapply (chain_wider P); [exact P_wider| |exact Hc]. by eapply wider_le.
  - by destruct l.
  - cbn [app length btree_shape.chain] in *. destruct Hc as (Hk0 & Hx0 & Hc). destruct (IH _ _ Hc) as (k & Hk & Hin & Ha & Hb & Hset & Hjoin & Htight).
    cbn zeta. rewrite lo_at_cons, hi_at_cons. exists k. split_and!; try done.
    + intros k' a' b' H1 H2 H3. cbn. split_and!; try done. by apply Hset.
    + intros x Hx. cbn. split_and!; try done. by apply Hjoin.
    + intros k' x H1 H2 H3. cbn. split_and!; try done. by apply Htight.
Qed.
End pair.

(** A sorted list can be cut after every value. *)
Lemma ordered_cut lo hi (x y : list bytes) w : ordered lo hi (x ++ y) -> last x = Some w -> y <> [] ->
  inside lo hi (derive_key w) /\ ordered lo (Some (derive_key w)) x /\ ordered (Some (derive_key w)) hi y.
Proof.
  intros [Hs Hr] Hw Hy. apply last_Some in Hw as (x' & ->). apply sorted_app in Hs as (S1 & S2 & S3). apply Forall_app in Hr as [R1 R2].
  assert (w ∈ x' ++ [w]) as Hin by (apply elem_of_app; right; by left). split; [|split; split]; try done.
  - destruct y as [|v y]; [done|]. apply Forall_app in R1 as [_ R1]. apply Forall_cons in R1 as [[Ra _] _]. split; [done|].
    apply Forall_cons in R2 as [[_ Rb] _]. destruct hi as [h|]; [|done]. cbn in *. eapply (lt_le_trans key_less); [|exact Rb]. apply S3; [done|by left].
  - apply Forall_forall. intros u Hu. split; [apply (proj1 (Forall_forall _ _) R1 _ Hu)|]. cbn.
    apply elem_of_app in Hu as [Hu|Hu].
    + apply sorted_app in S1 as (_ & _ & S1). apply lt_le; [done|]. apply S1; [done|by left].
    + apply list_elem_of_singleton in Hu as ->. by apply le_refl.
  - apply Forall_forall. intros u Hu. split; [by apply S3|]. apply (proj1 (Forall_forall _ _) R2 _ Hu).
Qed.
(** The bound of the last value is tight. *)
Lemma ordered_last lo hi (x : list bytes) w : ordered lo hi x -> last x = Some w ->
  bounded key_less lo hi (derive_key w) /\ ordered lo (Some (derive_key w)) x.
Proof.
  intros [Hs Hr] Hw. apply last_Some in Hw as (x' & ->). apply Forall_app in Hr as [R1 R2]. apply Forall_cons in R2 as [Rw _].
  split; [done|]. split; [done|]. apply sorted_app in Hs as (_ & _ & Hs). apply Forall_app. split.
  - apply Forall_forall. intros u Hu. split; [apply (proj1 (Forall_forall _ _) R1 _ Hu)|]. cbn. apply lt_le; [done|]. apply Hs; [done|by left].
  - repeat constructor; [apply Rw|]. cbn. by apply le_refl.
Qed.
Lemma ordered_delete lo hi (x : list bytes) (k : nat) : ordered lo hi x -> ordered lo hi (delete k x).
Proof.
  intros [Hs Hr]. destruct (x !! k) as [v|] eqn:Hk; [|apply lookup_ge_None in Hk; by rewrite delete_take_drop, take_ge, drop_ge, app_nil_r by lia].
  rewrite delete_take_drop. rewrite <- (take_drop_middle _ _ _ Hk) in Hs, Hr. apply sorted_app in Hs as (S1 & S2 & S3).
  apply StronglySorted_inv in S2 as [S2 _]. apply Forall_app in Hr as [R1 R2]. apply Forall_cons in R2 as [_ R2]. split.
  - apply sorted_app. split_and!; try done. intros u u' Hu Hu'. apply S3; [done|by right].
  - by apply Forall_app.
Qed.

End order.
(** ** Paths *)

Lemma zone_split {X} (l mid r l' r' : list X) x : l ++ mid ++ r = l' ++ x :: r' ->
  (exists m, l = l' ++ x :: m /\ r' = m ++ mid ++ r) \/
  (exists m1 m2, mid = m1 ++ x :: m2 /\ l' = l ++ m1 /\ r' = m2 ++ r) \/
  (exists m, r = m ++ x :: r' /\ l' = l ++ mid ++ m).
Proof.
  intros Heq. destruct (app_eq_app _ _ _ _ Heq) as [m [[-> H1]|[-> H1]]].
  - destruct m as [|y m]; cbn [app] in H1.
    + rewrite app_nil_r. right. destruct mid as [|y mid]; cbn [app] in H1.
      * right. exists []. by rewrite !app_nil_r.
      * left. injection H1 as -> ->. exists [], mid. by rewrite app_nil_r.
    + injection H1 as -> ->. left. by exists m.
  - right. destruct (app_eq_app _ _ _ _ H1) as [m2 [[-> H2]|[-> ->]]].
    + destruct m2 as [|y m2]; cbn [app] in H2.
      * right. exists []. rewrite !app_nil_r. split; [done|]. done.
      * injection H2 as -> ->. left. by exists m, m2.
    + right. by exists m2.
Qed.

Lemma at_sub_inner i keys cs ps s pre post : at_sub (Inner i keys cs) ps s pre post -> ps <> [] ->
  exists l c r ps' pre' post', cs = l ++ c :: r /\ ps = (i, zlen l) :: ps' /\ at_sub c ps' s pre' post' /\
    pre = all_contents l ++ pre' /\ post = post' ++ all_contents r.
Proof.
  intros Hs Hne. remember (Inner i keys cs) as t eqn:Ht. destruct Hs as [|i' keys' l c r ps' s pre' post' Hs]; [done|].
  injection Ht as -> -> <-. by exists l, c, r, ps', pre', post'.
Qed.

Section zone.
Context (fs0 : list frame) (p : Z) (pk pk' : list bytes) (l mid mid' r : list node).
Let tr := plug fs0 (Inner p pk (l ++ mid ++ r)).
Let tr' := plug fs0 (Inner p pk' (l ++ mid' ++ r)).
Let d := length fs0.

(** The values before and after the children [mid]. *)
Definition zone_pre : list bytes := pre_of fs0 ++ all_contents l.
Definition zone_post : list bytes := all_contents r ++ post_of fs0.

(** The entries of the parent behind [mid] move. *)
Definition slide ps : list (Z * Z) :=
  match ps !! d with
  | Some (q, x) => if (q =? p) && (zlen l + zlen mid <=? x) then <[d := (q, x + (zlen mid' - zlen mid))]> ps else ps
  | None => ps
  end.

Lemma lookup_zone (e : Z * Z) ps : (entries fs0 ++ e :: ps) !! d = Some e.
Proof. unfold d. rewrite <- (length_entries fs0). by apply list_lookup_middle. Qed.
Lemma slide_same ps : length mid' = length mid -> slide ps = ps.
Proof.
  intros Hl. unfold slide. destruct (ps !! d) as [[q x]|] eqn:E; [|done]. case_match; [|done]. rewrite Hl, Z.sub_diag, Z.add_0_r.
  by apply list_insert_id.
Qed.
Lemma insert_zone (e e' : Z * Z) ps : <[d := e']> (entries fs0 ++ e :: ps) = entries fs0 ++ e' :: ps.
Proof.
  unfold d. rewrite <- (length_entries fs0). replace (length (entries fs0)) with (length (entries fs0) + 0)%nat by lia.
  by rewrite insert_app_r.
Qed.

Lemma zone_at (y : nat) m ps s pre post : mid' !! y = Some m -> at_sub m ps s pre post ->
  at_sub tr' (entries fs0 ++ (p, zlen l + Z.of_nat y) :: ps) s
    (zone_pre ++ all_contents (take y mid') ++ pre) (post ++ all_contents (drop (S y) mid') ++ zone_post).
Proof.
  intros Hy Hs. pose proof (take_drop_middle _ _ _ Hy) as Hm. pose proof (lookup_lt_Some _ _ _ Hy) as Hlt.
  unfold zone_pre, zone_post, tr'.
  replace ((pre_of fs0 ++ all_contents l) ++ all_contents (take y mid') ++ pre) with
    (pre_of fs0 ++ all_contents (l ++ take y mid') ++ pre) by (rewrite all_contents_app; by rewrite <- !app_assoc).
  replace (post ++ all_contents (drop (S y) mid') ++ all_contents r ++ post_of fs0) with
    ((post ++ all_contents (drop (S y) mid' ++ r)) ++ post_of fs0) by (rewrite all_contents_app; by rewrite <- !app_assoc).
  eapply at_sub_trans; [apply at_sub_plug|].
  replace (l ++ mid' ++ r) with ((l ++ take y mid') ++ m :: drop (S y) mid' ++ r)
    by (rewrite <- Hm at 3; by rewrite <- !app_assoc).
  replace (zlen l + Z.of_nat y) with (zlen (l ++ take y mid')) by (rewrite length_app, length_take; lia).
  by apply at_down.
Qed.

Lemma zone_cases ps s pre post :
  NoDup (ids tr) -> at_sub tr ps s pre post -> (d < length ps)%nat -> all_contents mid' = all_contents mid ->
  ((node_id s ∉ (all_blocks mid).*1 /\ (forall e, e ∈ drop (S d) ps -> e.1 ∉ (all_blocks mid).*1) /\
    (forall x, ps !! d = Some (p, x) -> 0 <= x < zlen l + zlen mid + zlen r /\ ~ (zlen l <= x < zlen l + zlen mid))) /\
   at_sub tr' (slide ps) s pre post) \/
  (exists (y : nat) m ps' pre' post', ps = entries fs0 ++ (p, zlen l + Z.of_nat y) :: ps' /\ mid !! y = Some m /\
     at_sub m ps' s pre' post' /\ pre = zone_pre ++ all_contents (take y mid) ++ pre' /\
     post = post' ++ all_contents (drop (S y) mid) ++ zone_post).
Proof.
  intros Hnd Hs Hlen Hct. unfold tr in Hnd, Hs.
  destruct (replace_cases _ _ _ _ _ _ Hnd Hs) as [(ps' & pre' & post' & -> & Hs' & -> & ->)|[[Hsid Hout] Hcase]]; [unfold d in Hlen; lia| |].
  - apply at_sub_inner in Hs' as (l' & c' & r' & ps2 & pre2 & post2 & E1 & -> & Hs2 & -> & ->).
    2: { intros ->. rewrite app_nil_r, length_entries in Hlen. unfold d in Hlen. lia. }
    assert (NoDup ((all_blocks l).*1 ++ (all_blocks mid).*1 ++ (all_blocks r).*1)) as Hndc.
    { unfold ids in Hnd. rewrite plug_blocks, fmap_app in Hnd. apply NoDup_app in Hnd as (_ & _ & Hnd).
      rewrite blocks_of_inner, !all_blocks_app in Hnd. cbn [fmap list_fmap fst] in Hnd. apply NoDup_cons in Hnd as [_ Hnd].
      by rewrite !fmap_app in Hnd. }
    apply NoDup_app in Hndc as (_ & Hd1 & Hndc). apply NoDup_app in Hndc as (_ & Hd2 & _).
    destruct (at_sub_ids _ _ _ _ _ Hs2) as [Hps Hids].
    assert (drop (S d) (entries fs0 ++ (p, zlen l') :: ps2) = ps2) as Hdrop.
    { unfold d. rewrite <- (length_entries fs0). replace (S (length (entries fs0))) with (length (entries fs0) + 1)%nat by lia.
      rewrite drop_app_add. cbn [drop]. by rewrite drop_0. }
    destruct (zone_split _ _ _ _ _ _ E1) as [(m & Hl & ->)|[(m1 & m2 & Hm & -> & ->)|(m & Hr & ->)]].
    + left. assert (forall j, j ∈ ids c' -> j ∉ (all_blocks mid).*1) as Ho.
      { intros j Hj Hjm. apply (Hd1 j); [|apply elem_of_app; by left]. rewrite Hl, ids_child. apply elem_of_app. right. apply elem_of_app. by left. }
      assert (zlen l' < zlen l) as Hlt by (rewrite Hl, length_app; cbn [length]; lia). split.
      * rewrite lookup_zone, Hdrop. split_and!; [by apply Ho|intros e He; by apply Ho, Hps|]. intros x [= <-]. lia.
      * unfold slide. rewrite lookup_zone, Z.eqb_refl. cbn [andb]. destruct (Z.leb_spec (zlen l + zlen mid) (zlen l')); [lia|]. unfold tr'.
        eapply at_sub_trans; [apply at_sub_plug|]. rewrite !all_contents_app, <- Hct, <- !all_contents_app, Hl, <- app_assoc. cbn [app]. by apply at_down.
    + right. exists (length m1), c', ps2, pre2, post2. unfold zone_pre, zone_post. rewrite Hm.
      rewrite take_app_length. replace (S (length m1)) with (length m1 + 1)%nat by lia. rewrite drop_app_add. cbn [drop]. rewrite drop_0.
      rewrite !all_contents_app, length_app. split_and!; [|by apply list_lookup_middle|done|by rewrite <- !app_assoc|by rewrite <- !app_assoc].
      do 3 f_equal. lia.
    + left. assert (forall j, j ∈ ids c' -> j ∉ (all_blocks mid).*1) as Ho.
      { intros j Hj Hjm. apply (Hd2 j); [done|]. rewrite Hr, ids_child. apply elem_of_app. right. apply elem_of_app. by left. }
      split.
      * rewrite lookup_zone, Hdrop. split_and!; [by apply Ho|intros e He; by apply Ho, Hps|].
        intros x [= <-]. rewrite Hr, !length_app. cbn [length]. lia.
      * unfold slide. rewrite lookup_zone, Z.eqb_refl. cbn [andb].
        destruct (Z.leb_spec (zlen l + zlen mid) (zlen (l ++ mid ++ m))); [|rewrite !length_app in *; lia].
        rewrite insert_zone. unfold tr'. eapply at_sub_trans; [apply at_sub_plug|].
        replace (all_contents (l ++ mid ++ m)) with (all_contents (l ++ mid' ++ m)) by (rewrite !all_contents_app; by rewrite Hct).
        replace (zlen (l ++ mid ++ m) + (zlen mid' - zlen mid)) with (zlen (l ++ mid' ++ m)) by (rewrite !length_app; lia).
        replace (l ++ mid' ++ r) with ((l ++ mid' ++ m) ++ c' :: r') by (rewrite Hr; by rewrite <- !app_assoc). by apply at_down.
  - left. assert (forall j, j ∈ (all_blocks mid).*1 -> j ∈ ids (Inner p pk (l ++ mid ++ r))) as Hin.
    { intros j Hj. rewrite ids_inner, !all_blocks_app, !fmap_app. right. apply elem_of_app. right. apply elem_of_app. by left. }
    assert (forall e, ps !! d = Some e -> e.1 <> p) as Hne.
    { intros e He Hp. apply (Hout e); [|rewrite Hp; left].
      apply list_elem_of_lookup. exists 0%nat. rewrite lookup_drop, Nat.add_0_r. done. }
    assert (contents (Inner p pk' (l ++ mid' ++ r)) = contents (Inner p pk (l ++ mid ++ r))) as Hc2
      by (rewrite !contents_inner, !all_contents_app; by rewrite Hct).
    assert (slide ps = ps) as Hsl.
    { unfold slide. destruct (ps !! d) as [[q x]|]; [|done]. specialize (Hne _ eq_refl). cbn in Hne. by destruct (Z.eqb_spec q p). }
    split.
    + split_and!; [by intros Hi; apply Hsid, Hin| |intros x Hx; by destruct (Hne _ Hx)].
      intros e He Hi. apply (Hout e); [|by apply Hin]. fold d.
      replace (S d) with (d + 1)%nat in He by lia. rewrite <- drop_drop in He. by eapply in_drop.
    + rewrite Hsl. unfold tr'. destruct Hcase as [(a & -> & Hc)|(b & -> & Hc)].
      * specialize (Hc (Inner p pk' (l ++ mid' ++ r))). by rewrite Hc2 in Hc.
      * specialize (Hc (Inner p pk' (l ++ mid' ++ r))). by rewrite Hc2 in Hc.
Qed.
End zone.
End btree_zone.
