(* ===== verification/BTreeRebalance.v ===== *)
(** * Neighbouring nodes in memory

    The operations on nodes that a removal uses, and the loops over the
    cursors when neighbouring children are changed. *)

From Stdlib Require Import Strings.Byte Sorting.Sorted.
From S2P Require Import Prelude MathOps Serialization Blocks EngineSpec FreeList Allocator Extent BTreeNodes BTree BTreeShape BTreeStore BTreeSearch BTreePaths BTreeSplit BTreeCursors BTreeInsert BTreeLeafInsert BTreeRemove BTreeZone.

Module btree_rebalance.
Import btree btree_shape btree_store btree_search btree_paths btree_split btree_cursors btree_insert btree_leaf_insert btree_remove btree_zone.

Section rebalance.
Context {A : Type} `{AllocatorSpec A}.
Context (derive_key : bytes -> bytes) (key_less : bytes -> bytes -> bool) `{KeyOrder key_less}.
Context (cfg : config) (bs : Z) (Hcfg : config_ok cfg bs) (supports1 : al_supports 1).
Context (derive_length : forall v, zlen v = value_size cfg -> zlen (derive_key v) = key_size cfg).
Abbreviation T := (tree A).
Abbreviation st := (st cfg bs).
Abbreviation holds := (holds cfg bs).
Abbreviation stored := (stored cfg bs).
Abbreviation body_ok := (body_ok cfg bs).
Abbreviation layout := (layout derive_key key_less).
Abbreviation mc := (internal_max_children cfg).
Abbreviation cap := (leaf_capacity cfg).
Implicit Types (anc : anchor) (cs : list (nat * cursor)) (pos : list (nat * position)) (G : gmap Z bytes).
Implicit Types (n : Z) (t : T) (key : bytes) (o : option node) (tr : node) (id : nat).

(** ** Nodes *)

Lemma node_change_spec anc cs G n t i x x' (m : M bytes unit) (Q : unit -> T -> Prop) :
  st anc cs G n t -> holds G i x ->
  (forall b, body_ok b x -> wp m b (fun _ b' => match x' with
     | LeafBody vals => leaf_ok (value_size cfg) cap b' vals
     | InnerBody keys children => internal_ok (key_size cfg) mc b' keys children
     end /\ length b' = length b)) ->
  (forall b t', body_ok b x' -> st anc cs (<[i := b]> G) n t' -> Q tt t') -> wp (node_write i m) t Q.
Proof.
  intros Hst Hi Hm HQ. eapply (tree_node_write_spec _ _ _ _ _ _ _ i x x' m (fun _ => True) _ Hst Hi).
  - intros b Hb. eapply wp_mono; [by apply Hm|]. cbn beta. intros _ b' [Hb' Hl]. split; [done|]. destruct Hb as [Hb _]. split; [lia|done].
  - intros [] b t' _ Hb Hst'. by eapply HQ.
Qed.

Lemma node_bytes_spec anc cs G n t i x (Q : bytes -> T -> Prop) :
  st anc cs G n t -> holds G i x -> (forall b t', body_ok b x -> st anc cs G n t' -> Q b t') -> wp (node_bytes i) t Q.
Proof. intros Hst (b & Hi & Hb) HQ. unfold node_bytes. apply (eng_read_spec _ _ _ _ _ _ _ _ _ _ Hst Hi). intros t' Hst'. by apply HQ. Qed.

Lemma tree_leaf_remove_spec anc cs G n t i vals (k : nat) (Q : unit -> T -> Prop) :
  st anc cs G n t -> holds G i (LeafBody vals) -> (k < length vals)%nat ->
  (forall b t', body_ok b (LeafBody (delete k vals)) -> st anc cs (<[i := b]> G) n t' -> Q tt t') ->
  wp (leaf_remove i (Z.of_nat k)) t Q.
Proof.
  intros Hst Hi Hk HQ. unfold leaf_remove. wp_step. apply (get_config_spec _ _ _ _ _ _ _ _ Hst).
  eapply (node_change_spec _ _ _ _ _ _ _ (LeafBody (delete k vals)) _ _ Hst Hi); [|exact HQ]. intros b [_ Hb]. by apply leaf_remove_spec.
Qed.
Lemma tree_leaf_insert_spec anc cs G n t i vals (k : nat) v (Q : unit -> T -> Prop) :
  st anc cs G n t -> holds G i (LeafBody vals) -> (k <= length vals)%nat -> zlen vals < cap -> zlen v = value_size cfg ->
  (forall b t', body_ok b (LeafBody (insert_at k v vals)) -> st anc cs (<[i := b]> G) n t' -> Q tt t') ->
  wp (leaf_insert_nonfull i (Z.of_nat k) v) t Q.
Proof.
  intros Hst Hi Hk Hc Hv HQ. unfold leaf_insert_nonfull. wp_step. apply (get_config_spec _ _ _ _ _ _ _ _ Hst).
  eapply (node_change_spec _ _ _ _ _ _ _ (LeafBody (insert_at k v vals)) _ _ Hst Hi); [|exact HQ]. intros b [_ Hb]. by apply leaf_insert_nonfull_spec.
Qed.
Lemma tree_leaf_append_spec anc cs G n t i j vals nvals (Q : unit -> T -> Prop) :
  st anc cs G n t -> holds G i (LeafBody vals) -> holds G j (LeafBody nvals) -> zlen vals + zlen nvals <= cap ->
  (forall b t', body_ok b (LeafBody (vals ++ nvals)) -> st anc cs (<[i := b]> G) n t' -> Q tt t') ->
  wp (leaf_append_from_right i j) t Q.
Proof.
  intros Hst Hi Hj Hc HQ. unfold leaf_append_from_right. wp_step. apply (get_config_spec _ _ _ _ _ _ _ _ Hst). wp_step.
  apply (node_bytes_spec _ _ _ _ _ _ _ _ Hst Hj). intros nb t1 [_ Hnb] Hst1.
  eapply (node_change_spec _ _ _ _ _ _ _ (LeafBody (vals ++ nvals)) _ _ Hst1 Hi); [|exact HQ]. intros b [_ Hb]. by apply leaf_append_from_right_spec.
Qed.
Lemma tree_leaf_prepend_spec anc cs G n t i j vals nvals (Q : unit -> T -> Prop) :
  st anc cs G n t -> holds G i (LeafBody vals) -> holds G j (LeafBody nvals) -> zlen vals + zlen nvals <= cap ->
  (forall b t', body_ok b (LeafBody (nvals ++ vals)) -> st anc cs (<[i := b]> G) n t' -> Q tt t') ->
  wp (leaf_prepend_from_left i j) t Q.
Proof.
  intros Hst Hi Hj Hc HQ. unfold leaf_prepend_from_left. wp_step. apply (get_config_spec _ _ _ _ _ _ _ _ Hst). wp_step.
  apply (node_bytes_spec _ _ _ _ _ _ _ _ Hst Hj). intros nb t1 [_ Hnb] Hst1.
  eapply (node_change_spec _ _ _ _ _ _ _ (LeafBody (nvals ++ vals)) _ _ Hst1 Hi); [|exact HQ]. intros b [_ Hb]. by apply leaf_prepend_from_left_spec.
Qed.
Lemma set_key_spec anc cs G n t i keys children (k : nat) key (Q : unit -> T -> Prop) :
  st anc cs G n t -> holds G i (InnerBody keys children) -> (k < length keys)%nat -> zlen key = key_size cfg ->
  (forall b t', body_ok b (InnerBody (<[k := key]> keys) children) -> st anc cs (<[i := b]> G) n t' -> Q tt t') ->
  wp (set_key i (Z.of_nat k) key) t Q.
Proof.
  intros Hst Hi Hk Hl HQ. unfold set_key. wp_step. apply (get_config_spec _ _ _ _ _ _ _ _ Hst).
  eapply (node_change_spec _ _ _ _ _ _ _ (InnerBody _ _) _ _ Hst Hi); [|exact HQ]. intros b [_ Hb]. by apply internal_set_key_spec.
Qed.
Lemma remove_child_spec anc cs G n t i keys children (k : nat) (Q : unit -> T -> Prop) :
  st anc cs G n t -> holds G i (InnerBody keys children) -> (k < length children)%nat -> (2 <= length children)%nat ->
  (forall b t', body_ok b (InnerBody (remove_key k keys) (delete k children)) -> st anc cs (<[i := b]> G) n t' -> Q tt t') ->
  wp (remove_child i (Z.of_nat k)) t Q.
Proof.
  intros Hst Hi Hk Hl HQ. unfold remove_child. wp_step. apply (get_config_spec _ _ _ _ _ _ _ _ Hst).
  eapply (node_change_spec _ _ _ _ _ _ _ (InnerBody _ _) _ _ Hst Hi); [|exact HQ]. intros b [_ Hb]. by apply internal_remove_child_spec.
Qed.
Lemma append_entry_spec anc cs G n t i keys children key c (Q : unit -> T -> Prop) :
  st anc cs G n t -> holds G i (InnerBody keys children) -> (1 <= length children)%nat -> zlen children < mc ->
  zlen key = key_size cfg -> is_u64 c ->
  (forall b t', body_ok b (InnerBody (keys ++ [key]) (children ++ [c])) -> st anc cs (<[i := b]> G) n t' -> Q tt t') ->
  wp (append_entry i key c) t Q.
Proof.
  intros Hst Hi Hk Hl Hkey Hc HQ. unfold append_entry. wp_step. apply (get_config_spec _ _ _ _ _ _ _ _ Hst).
  eapply (node_change_spec _ _ _ _ _ _ _ (InnerBody _ _) _ _ Hst Hi); [|exact HQ]. intros b [_ Hb]. by apply internal_append_entry_spec.
Qed.
Lemma prepend_entry_spec anc cs G n t i keys children key c (Q : unit -> T -> Prop) :
  st anc cs G n t -> holds G i (InnerBody keys children) -> (1 <= length children)%nat -> zlen children < mc ->
  zlen key = key_size cfg -> is_u64 c ->
  (forall b t', body_ok b (InnerBody (key :: keys) (c :: children)) -> st anc cs (<[i := b]> G) n t' -> Q tt t') ->
  wp (prepend_entry i key c) t Q.
Proof.
  intros Hst Hi Hk Hl Hkey Hc HQ. unfold prepend_entry. wp_step. apply (get_config_spec _ _ _ _ _ _ _ _ Hst).
  eapply (node_change_spec _ _ _ _ _ _ _ (InnerBody _ _) _ _ Hst Hi); [|exact HQ]. intros b [_ Hb]. by apply internal_prepend_entry_spec.
Qed.
Lemma append_from_right_spec anc cs G n t i j keys children nkeys nchildren key (Q : unit -> T -> Prop) :
  st anc cs G n t -> holds G i (InnerBody keys children) -> holds G j (InnerBody nkeys nchildren) ->
  (1 <= length children)%nat -> (1 <= length nchildren)%nat -> zlen children + zlen nchildren <= mc -> zlen key = key_size cfg ->
  (forall b t', body_ok b (InnerBody (keys ++ key :: nkeys) (children ++ nchildren)) -> st anc cs (<[i := b]> G) n t' -> Q tt t') ->
  wp (append_from_right i key j) t Q.
Proof.
  intros Hst Hi Hj H1' H2' Hl Hkey HQ. unfold append_from_right. wp_step. apply (get_config_spec _ _ _ _ _ _ _ _ Hst). wp_step.
  apply (node_bytes_spec _ _ _ _ _ _ _ _ Hst Hj). intros nb t1 [_ Hnb] Hst1.
  eapply (node_change_spec _ _ _ _ _ _ _ (InnerBody _ _) _ _ Hst1 Hi); [|exact HQ]. intros b [_ Hb]. by apply internal_append_from_right_spec.
Qed.
Lemma prepend_from_left_spec anc cs G n t i j keys children nkeys nchildren key (Q : unit -> T -> Prop) :
  st anc cs G n t -> holds G i (InnerBody keys children) -> holds G j (InnerBody nkeys nchildren) ->
  (1 <= length children)%nat -> (1 <= length nchildren)%nat -> zlen children + zlen nchildren <= mc -> zlen key = key_size cfg ->
  (forall b t', body_ok b (InnerBody (nkeys ++ key :: keys) (nchildren ++ children)) -> st anc cs (<[i := b]> G) n t' -> Q tt t') ->
  wp (prepend_from_left i key j) t Q.
Proof.
  intros Hst Hi Hj H1' H2' Hl Hkey HQ. unfold prepend_from_left. wp_step. apply (get_config_spec _ _ _ _ _ _ _ _ Hst). wp_step.
  apply (node_bytes_spec _ _ _ _ _ _ _ _ Hst Hj). intros nb t1 [_ Hnb] Hst1.
  eapply (node_change_spec _ _ _ _ _ _ _ (InnerBody _ _) _ _ Hst1 Hi); [|exact HQ]. intros b [_ Hb]. by apply internal_prepend_from_left_spec.
Qed.

(** ** Freed blocks *)

Lemma tree_free_spec anc cs G n t i x (Q : unit -> T -> Prop) :
  st anc cs G n t -> holds G i x -> (forall t', st anc cs (delete i G) n t' -> Q tt t') -> wp (on_alloc (free i 1)) t Q.
Proof.
  intros Hst Hi HQ. apply wp_on_tree_alloc. pose proof (holds_dom _ _ _ _ _ Hi) as Hd. pose proof Hst as [Hinv Hb Hn Hr Hbs Ha Hc Hcs].
  eapply wp_mono; [apply (free_spec (m_alloc t) (dom G) i 1 Hinv); [done|done|rewrite blocks_1; set_solver]|].
  cbn beta. intros [] a (Hinv' & Hg & Hbl & Hroom). rewrite blocks_1 in *. apply HQ. split; cbn; try done.
  - by rewrite dom_delete_L.
  - intros j c [Hne Hj]%lookup_delete_Some. rewrite Hbl; [auto|]. apply elem_of_difference. split; [by apply elem_of_dom_2 in Hj|set_solver].
  - apply Hroom; [done|by rewrite Z.add_0_l].
  - unfold d_bs. by rewrite Hg.
Qed.
Lemma free_leaf_spec anc cs G n t i x (Q : unit -> T -> Prop) :
  st anc cs G n t -> holds G i x -> 0 < leaf_nodes anc ->
  (forall t', st (more_leaves (-1) anc) cs (delete i G) n t' -> Q tt t') -> wp (free_leaf i) t Q.
Proof.
  intros Hst Hi Hpos HQ. unfold free_leaf. wp_step. apply (get_anchor_spec _ _ _ _ _ _ _ _ Hst). wp_step. wp_step.
  wp_step. apply (tree_free_spec _ _ _ _ _ _ _ _ Hst Hi). intros t1 Hst1. apply (mod_anchor_spec _ _ _ _ _ _ _ _ _ Hst1). exact HQ.
Qed.
Lemma free_internal_spec anc cs G n t i x (Q : unit -> T -> Prop) :
  st anc cs G n t -> holds G i x -> 0 < internal_nodes anc ->
  (forall t', st (more_inner (-1) anc) cs (delete i G) n t' -> Q tt t') -> wp (free_internal i) t Q.
Proof.
  intros Hst Hi Hpos HQ. unfold free_internal. wp_step. apply (get_anchor_spec _ _ _ _ _ _ _ _ Hst). wp_step. wp_step.
  wp_step. apply (tree_free_spec _ _ _ _ _ _ _ _ Hst Hi). intros t1 Hst1. apply (mod_anchor_spec _ _ _ _ _ _ _ _ _ Hst1). exact HQ.
Qed.
(** ** Trees during a removal *)

(** A tree whose nodes may have too few entries. *)
Record weak_rep anc G (h : nat) tr : Prop := {
  wr_layout : layout h None None tr;
  wr_stored : stored G (blocks_of tr);
  wr_nodup : NoDup (ids tr);
  wr_height : height anc = Z.of_nat h + 1;
  wr_root : root anc = node_id tr;
  wr_size : size anc = zlen (contents tr);
  wr_left : head (leaf_ids tr) = Some (leftmost anc);
  wr_right : last (leaf_ids tr) = Some (rightmost anc);
  wr_leaves : leaf_nodes anc = zlen (leaf_ids tr);
  wr_inner : internal_nodes anc = u32 (inner_count tr);
  wr_count : inner_count tr < 2 ^ 32
}.
Abbreviation tree_rep := (tree_rep derive_key key_less cfg bs).

Lemma tree_rep_weak anc G h tr : tree_rep anc G h tr -> inner_count tr < 2 ^ 32 -> weak_rep anc G h tr /\ dense h tr.
Proof. intros [Rs Rst Rnd Rh Rr Rsz Rl Rri Rle Rin] Hc. apply shape_layout in Rs as [Rs Hd]. done. Qed.
Lemma weak_rep_tree anc G h tr : weak_rep anc G h tr -> dense h tr -> tree_rep anc G h tr.
Proof. intros [Rs Rst Rnd Rh Rr Rsz Rl Rri Rle Rin _] Hd. split; try done. by apply shape_layout. Qed.

Section zone.
Context (fs0 : list frame) (p : Z) (pk pk' : list bytes) (l mid mid' r : list node).
Abbreviation tr := (plug fs0 (Inner p pk (l ++ mid ++ r))).
Abbreviation tr' := (plug fs0 (Inner p pk' (l ++ mid' ++ r))).
Abbreviation d := (length fs0).

Definition zone_rest : list (Z * body) := context_blocks fs0 p ++ all_blocks l ++ all_blocks r.
Lemma zone_blocks keys m : blocks_of (plug fs0 (Inner p keys (l ++ m ++ r))) ≡ₚ
  (p, InnerBody keys (map node_id (l ++ m ++ r))) :: all_blocks m ++ zone_rest.
Proof.
  rewrite plug_blocks. cbn [node_id]. rewrite blocks_of_inner, <- Permutation_middle. apply perm_skip.
  unfold zone_rest. rewrite !all_blocks_app. rewrite (Permutation_app_comm (context_blocks _ _)). rewrite !(app_assoc (all_blocks m)).
  rewrite (Permutation_app_comm (all_blocks m) (context_blocks _ _)). rewrite (Permutation_app_comm _ (context_blocks _ _)).
  rewrite <- !app_assoc. apply Permutation_app_head. rewrite !app_assoc. apply Permutation_app_tail, Permutation_app_comm.
Qed.
Lemma zone_leaf_ids keys m : leaf_ids (plug fs0 (Inner p keys (l ++ m ++ r))) =
  (pre_ids fs0 ++ concat (map leaf_ids l)) ++ concat (map leaf_ids m) ++ concat (map leaf_ids r) ++ post_ids fs0.
Proof. rewrite plug_leaf_ids. cbn [leaf_ids]. rewrite !map_app, !concat_app. by rewrite <- !app_assoc. Qed.
Lemma zone_contents keys m : contents (plug fs0 (Inner p keys (l ++ m ++ r))) = zone_pre fs0 l ++ all_contents m ++ zone_post fs0 r.
Proof. rewrite plug_contents, contents_inner, !all_contents_app. unfold zone_pre, zone_post. by rewrite <- !app_assoc. Qed.
Lemma zone_inner_count keys m keys' m' :
  inner_count (plug fs0 (Inner p keys (l ++ m ++ r))) - inner_counts m =
  inner_count (plug fs0 (Inner p keys' (l ++ m' ++ r))) - inner_counts m'.
Proof.
  unfold inner_count, inner_counts. rewrite !zone_leaf_ids, (Permutation_length (zone_blocks keys m)), (Permutation_length (zone_blocks keys' m')).
  cbn [length]. rewrite !length_app. lia.
Qed.

Lemma zone_rep anc anc' G G' h :
  weak_rep anc G h tr ->
  (forall h' lo hi, chain key_less (layout h') lo pk (l ++ mid ++ r) hi -> chain key_less (layout h') lo pk' (l ++ mid' ++ r) hi) ->
  all_contents mid' = all_contents mid ->
  NoDup (all_blocks mid').*1 -> (all_blocks mid').*1 ⊆ (all_blocks mid).*1 ->
  holds G' p (InnerBody pk' (map node_id (l ++ mid' ++ r))) -> stored G' (all_blocks mid') ->
  (forall i, i <> p -> i ∉ (all_blocks mid).*1 -> G' !! i = G !! i) ->
  height anc' = height anc -> root anc' = root anc -> size anc' = size anc ->
  head (leaf_ids tr') = Some (leftmost anc') -> last (leaf_ids tr') = Some (rightmost anc') -> leaf_nodes anc' = zlen (leaf_ids tr') ->
  internal_nodes anc' = u32 (internal_nodes anc + (inner_counts mid' - inner_counts mid)) -> inner_counts mid' <= inner_counts mid ->
  weak_rep anc' G' h tr' /\ keeps G (ids tr) G' (ids tr').
Proof.
  intros Hrep Hlay Hct Hnd Hsub Hp Hs HG Hh Hr Hsz Hle Hri Hln Hin Hic.
  pose proof (zone_blocks pk mid) as Hold. pose proof (zone_blocks pk' mid') as Hnew.
  destruct Hrep as [Rs Rst Rnd Rh Rr Rsz Rl Rri Rle Rin Rc].
  unfold ids in Rnd. rewrite Hold in Rnd. cbn [fmap list_fmap fst] in Rnd. rewrite fmap_app in Rnd.
  apply NoDup_cons in Rnd as [Hpn Rnd]. rewrite not_elem_of_app in Hpn. destruct Hpn as [Hpm Hpr].
  apply NoDup_app in Rnd as (Ndm & Hdis & Ndr).
  apply (stored_perm _ _ _ _ _ Hold), Forall_cons in Rst as [_ Rst]. apply stored_app in Rst as [_ Rst].
  assert (forall i, i ∈ zone_rest.*1 -> G' !! i = G !! i) as Hrest.
  { intros i Hi. apply HG; [by intros ->|]. intros Hm. by apply (Hdis i). }
  pose proof (zone_inner_count pk mid pk' mid') as Hcount. split.
  - split; try done; try congruence.
    + destruct (layout_plug _ _ _ _ _ _ _ Rs) as (h' & -> & HP & Hnew'). apply Hnew'. destruct h' as [|h']; [done|]. cbn [btree_zone.layout] in *. by apply Hlay.
    + eapply stored_perm; [symmetry; exact Hnew|]. apply Forall_cons. split; [done|]. apply stored_app. split; [done|].
      apply Forall_forall. intros e He. pose proof (proj1 (Forall_forall _ _) Rst _ He) as (b & Hb & Hok). exists b. split; [|done].
      rewrite Hrest; [done|]. apply list_elem_of_fmap. by exists e.
    + unfold ids. rewrite Hnew. cbn [fmap list_fmap fst]. rewrite fmap_app. apply NoDup_cons. split.
      * rewrite not_elem_of_app. split; [|done]. intros Hi. by apply Hpm, Hsub.
      * apply NoDup_app. split_and!; [done| |done]. intros i Hi. by apply Hdis, Hsub.
    + rewrite Hr, Rr. by rewrite !node_id_plug.
    + rewrite Hsz, Rsz. rewrite !zone_contents. by rewrite Hct.
    + rewrite Hin, Rin, inner_count_more. f_equal. lia.
    + lia.
  - intros k b Hk Hnk. unfold ids in Hnk |- *. rewrite Hold in Hnk. rewrite Hnew. cbn [fmap list_fmap fst] in *. rewrite fmap_app in *.
    rewrite not_elem_of_cons, not_elem_of_app in *. destruct Hnk as (Hkp & Hkm & Hkr). split_and!; try done; [|by intros Hi; apply Hkm, Hsub].
    by rewrite HG.
Qed.

(** *** Cursors *)

(** The cursor [id] passes the node [p]. *)
Definition zone_rel (t' : node) id (i : nat) (c : cursor) (q : position) : Prop :=
  cursor_ok (Some t') c q /\ (i = id -> exists x ps, m_parents c = entries fs0 ++ (p, x) :: ps).

(** All leaves have the depth [h]. *)
Definition uniform (h : nat) (t' : node) : Prop := forall ps leaf pre vals post, at_path t' ps leaf pre vals post -> length ps = h.

Definition index_ok (deleted : bool) (k : nat) (vals : list bytes) : Prop :=
  (if deleted then k <= length vals else k < length vals)%nat.

Lemma zone_cursors_spec anc cs pos G n t id h (f : nat -> cursor -> M T cursor) (Q : unit -> T -> Prop) :
  st anc cs G n t -> uniform h tr -> NoDup (ids tr) -> (d < h)%nat -> all_contents mid' = all_contents mid ->
  rel (zone_rel tr id) cs pos ->
  (forall i c, c_invalid c = true -> f i c = ret c) ->
  (forall i ps leaf (k : nat) (deleted : bool) t', length ps = h -> leaf ∉ (all_blocks mid).*1 ->
     (forall e, e ∈ drop (S d) ps -> e.1 ∉ (all_blocks mid).*1) ->
     (forall x, ps !! d = Some (p, x) -> 0 <= x < zlen l + zlen mid + zlen r /\ ~ (zlen l <= x < zlen l + zlen mid)) ->
     st anc cs G n t' ->
     wp (f i (Cursor ps leaf (Z.of_nat k) false deleted false)) t' (fun c' t'' =>
       c' = Cursor (slide fs0 p l mid mid' ps) leaf (Z.of_nat k) false deleted false /\ st anc cs G n t'')) ->
  (forall i (y : nat) m ps leaf pre vals post (k : nat) (deleted : bool) t', mid !! y = Some m -> at_path m ps leaf pre vals post ->
     index_ok deleted k vals -> (d + S (length ps) = h)%nat -> st anc cs G n t' ->
     wp (f i (Cursor (entries fs0 ++ (p, zlen l + Z.of_nat y) :: ps) leaf (Z.of_nat k) false deleted false)) t' (fun c' t'' =>
       (exists (y2 : nat) m2 ps2 leaf2 pre2 vals2 post2 (k2 : nat), mid' !! y2 = Some m2 /\ at_path m2 ps2 leaf2 pre2 vals2 post2 /\
         index_ok deleted k2 vals2 /\
         (length (all_contents (take y mid)) + length pre + k = length (all_contents (take y2 mid')) + length pre2 + k2)%nat /\
         c' = Cursor (entries fs0 ++ (p, zlen l + Z.of_nat y2) :: ps2) leaf2 (Z.of_nat k2) false deleted false) /\ st anc cs G n t'')) ->
  (forall cs' t', rel (zone_rel tr' id) cs' pos -> cs'.*1 = cs.*1 -> st anc cs' G n t' -> Q tt t') ->
  wp (for_cursors f) t Q.
Proof.
  intros Hst Hu Hnd Hd Hct Hrel Hinv Hout Hin HQ. eapply (for_cursors_spec cfg bs (zone_rel tr id) (zone_rel tr' id)); [exact Hst|exact Hrel| |exact HQ].
  intros i c q t1 [Hc Hth] Hst1. destruct (c_invalid c) eqn:Hv.
  { rewrite Hinv by done. wp_step. split; [|done]. split; [by eapply cursor_invalid|done]. }
  destruct (cursor_on_path _ _ _ Hc Hv) as (deleted & r0 & -> & ps & leaf & pre & vals & post & k & Hp & -> & Hk & ->).
  pose proof (Hu _ _ _ _ _ Hp) as Hlen. apply at_path_sub in Hp.
  destruct (zone_cases fs0 p pk pk' l mid mid' r ps (Leaf leaf vals) pre post Hnd Hp) as
    [((Hleaf & Hdrop & Hx) & Hp')|(y & m & ps' & pre' & post' & -> & Hy & Hm & -> & ->)]; [lia|done| |].
  - eapply wp_mono; [by apply Hout|]. cbn beta. intros c' t2 [-> Hst2]. split; [|done]. split.
    + apply cursor_ok_path. exists (slide fs0 p l mid mid' ps), leaf, pre, vals, post, k. split_and!; try done. by apply at_path_sub.
    + intros Hi. destruct (Hth Hi) as (x & ps0 & Heq). cbn [m_parents] in *. subst ps. unfold slide. rewrite lookup_zone.
      destruct (_ && _); [rewrite insert_zone|]; by eexists _, _.
  - apply at_path_sub in Hm. rewrite length_app, length_entries in Hlen. cbn [length] in Hlen.
    eapply wp_mono; [eapply Hin; [exact Hy|exact Hm|exact Hk|lia|exact Hst1]|]. cbn beta.
    intros c' t2 [(y2 & m2 & ps2 & leaf2 & pre2 & vals2 & post2 & k2 & Hy2 & Hm2 & Hk2 & Heq & ->) Hst2]. split; [|done]. split.
    + apply cursor_ok_path. apply at_path_sub in Hm2.
      eexists _, leaf2, _, vals2, _, k2. split_and!; [apply at_path_sub; by eapply (zone_at fs0 p pk' l mid' r)| |done|done].
      rewrite !length_app. lia.
    + intros _. cbn [m_parents]. by eexists _, _.
Qed.
End zone.

(** ** The assertions about neighbours *)

Lemma check_neighbors_spec anc cs G n t p keys children (i j : nat) node nb (Q : unit -> T -> Prop) :
  st anc cs G n t -> holds G p (InnerBody keys children) -> children !! i = Some node -> children !! j = Some nb ->
  (j = S i \/ i = S j) -> (forall t', st anc cs G n t' -> Q tt t') ->
  wp (check_neighbors p node (Z.of_nat i) nb (Z.of_nat j)) t Q.
Proof.
  intros Hst Hp Hi Hj Hij HQ. pose proof (lookup_lt_Some _ _ _ Hi) as Li. pose proof (lookup_lt_Some _ _ _ Hj) as Lj.
  destruct (holds_inner _ _ _ _ _ _ Hp) as (_ & Hc & Hm). unfold check_neighbors. wp_step.
  apply (child_count_spec _ _ _ _ _ _ _ _ _ _ _ Hst Hp). intros t1 Hst1. wp_step. wp_step. wp_step.
  wp_step. wp_step.
  rewrite !wrap_small by (split; lia).
  wp_step. wp_step.
  apply (get_child_spec _ _ _ _ _ _ _ _ _ _ _ _ _ Hst1 Hp Hi). intros t2 Hst2. wp_step. wp_step. wp_step.
  apply (get_child_spec _ _ _ _ _ _ _ _ _ _ _ _ _ Hst2 Hp Hj). intros t3 Hst3. wp_step. by apply HQ.
Qed.

Lemma pair_fst (l : list node) a b r : map node_id (l ++ [a; b] ++ r) !! length l = Some (node_id a).
Proof. rewrite map_app, <- (length_map node_id l). by apply list_lookup_middle. Qed.
Lemma pair_snd (l : list node) a b r : map node_id (l ++ [a; b] ++ r) !! S (length l) = Some (node_id b).
Proof.
  rewrite map_app, <- (length_map node_id l). cbn [app map].
  replace (S (length (map node_id l))) with (length (map node_id l ++ [node_id a])) by (rewrite length_app; cbn; lia).
  replace (map node_id l ++ node_id a :: node_id b :: map node_id r) with ((map node_id l ++ [node_id a]) ++ node_id b :: map node_id r) by by rewrite <- app_assoc.
  by apply list_lookup_middle.
Qed.

(** ** Children that were freed *)

(** A child without content; no cursor can be in it. *)
Definition ghost (g : Z) : node := Inner g [] [].

Lemma ghost_path g ps leaf pre vals post : ~ at_path (ghost g) ps leaf pre vals post.
Proof.
  intros Hp. apply at_path_sub in Hp. remember (ghost g) as t eqn:Ht. remember (Leaf leaf vals) as s eqn:Hs.
  destruct Hp as [t|i keys l c r ps s pre post Hp]; [by subst|]. injection Ht as _ _ Heq. by destruct l.
Qed.

Section unlinked.
Context (fs0 : list frame) (p : Z) (pk : list bytes) (l : list node) (g : Z) (r : list node).
Abbreviation trg := (plug fs0 (Inner p pk (l ++ [ghost g] ++ r))).
Abbreviation tr' := (plug fs0 (Inner p (remove_key (length l) pk) (l ++ [] ++ r))).
Abbreviation d := (length fs0).

(** The block [g] is free, but still a child of [p]. *)
Record unlinked anc G (h : nat) : Prop := {
  un_node : holds G p (InnerBody pk (map node_id (l ++ [ghost g] ++ r)));
  un_rep : forall b, body_ok b (InnerBody (remove_key (length l) pk) (map node_id (l ++ [] ++ r))) ->
    weak_rep anc (<[p := b]> G) h tr';
  un_ghost : g ∉ ids tr'
}.

Lemma ghost_nodup : NoDup (ids tr') -> g ∉ ids tr' -> NoDup (ids trg).
Proof.
  unfold ids. rewrite !zone_blocks. cbn [all_blocks map concat blocks_of ghost node_id app fmap list_fmap fst]. intros Hnd Hg.
  rewrite perm_swap. by apply NoDup_cons.
Qed.
Lemma ghost_uniform h : layout h None None tr' -> uniform h trg.
Proof.
  intros Hl ps leaf pre vals post. apply level_depth. destruct (layout_plug _ _ _ _ _ _ _ Hl) as (h1 & H1' & Hl1 & _). apply layout_level in Hl.
  destruct (level_plug _ _ _ Hl) as (h' & -> & Hc & Hnew). apply Hnew. assert (h1 = h') as -> by lia. destruct h' as [|h']; [done|]. cbn [level] in *.
  apply Forall_app in Hc as [Hc1 Hc2]. apply Forall_app. split; [done|]. apply Forall_cons. split; [by destruct h'; cbn; [|constructor]|done].
Qed.

Lemma unlink_child_cursors anc cs pos G n t id h (Q : unit -> T -> Prop) :
  st anc cs G n t -> layout h None None tr' -> NoDup (ids trg) -> (d < h)%nat -> zlen l + 1 + zlen r < 2 ^ 31 ->
  rel (zone_rel fs0 p trg id) cs pos ->
  (forall cs' t', rel (zone_rel fs0 p tr' id) cs' pos -> cs'.*1 = cs.*1 -> st anc cs' G n t' -> Q tt t') ->
  wp (for_cursors (fun _ => unlink_child_cursor d p (zlen l))) t Q.
Proof.
  intros Hst Hl Hnd Hd Hb Hrel HQ.
  eapply (zone_cursors_spec fs0 p pk _ l [ghost g] [] r); [exact Hst|by apply ghost_uniform|exact Hnd|done|done|exact Hrel| | | |exact HQ].
  - intros _ c Hc. unfold unlink_child_cursor. by rewrite Hc.
  - intros _ ps leaf k deleted t' Hlen _ _ Hx Hst'. unfold unlink_child_cursor. cbn [c_invalid].
    destruct (ps !! d) as [[q x]|] eqn:E; [|apply lookup_ge_None in E; lia]. wp_step.
    eapply (entry_at_spec cfg bs _ _ _ _ _ d _ (q, x) _ Hst'); [exact E|]. cbn [fst snd]. unfold slide. rewrite E.
    destruct (Z.eqb_spec q p) as [->|]; cbn [andb]; [|by wp_step]. destruct (Hx x eq_refl) as [Hx1 Hx2]. cbn [length] in *.
    wp_step. wp_step.
    destruct (Z.ltb_spec (zlen l) x), (Z.leb_spec (zlen l + Z.of_nat 1) x); try lia; wp_step; [|done]. split; [|done].
    rewrite wrap_small by (split; lia). unfold set_entry, set_parents. cbn [m_parents m_leaf m_index c_invalid c_deleted c_inprogress].
    rewrite Nat2Z.id. by replace (x + (Z.of_nat 0 - Z.of_nat 1)) with (x - 1) by lia.
  - intros _ y m ps leaf pre vals post k deleted t' Hy Hp. destruct y; [|done]. injection Hy as <-. by apply ghost_path in Hp.
Qed.

Lemma unlink_child_spec anc cs pos G n t id h (Q : unit -> T -> Prop) :
  st anc cs G n t -> unlinked anc G h -> (d < h)%nat -> rel (zone_rel fs0 p trg id) cs pos -> (1 <= length (l ++ r))%nat ->
  (forall cs' G' t', st anc cs' G' n t' -> weak_rep anc G' h tr' -> rel (zone_rel fs0 p tr' id) cs' pos -> cs'.*1 = cs.*1 ->
     keeps G (ids trg) G' (ids tr') -> Q tt t') ->
  wp (remove_child p (zlen l) ;;; for_cursors (fun _ => unlink_child_cursor d p (zlen l))) t Q.
Proof.
  intros Hst [Hp Hrep Hg] Hd Hrel Hlen HQ. destruct (holds_inner _ _ _ _ _ _ Hp) as (_ & Hc & Hm). rewrite length_map in Hc. wp_step.
  apply (remove_child_spec _ _ _ _ _ _ _ _ (length l) _ Hst Hp); [rewrite length_map, !length_app; cbn; lia|rewrite length_map, !length_app in *; cbn; lia|].
  assert (delete (length l) (map node_id (l ++ [ghost g] ++ r)) = map node_id (l ++ [] ++ r)) as Hdel.
  { rewrite !map_app. cbn [map app]. rewrite <- (length_map node_id l). by rewrite delete_middle. }
  rewrite Hdel. intros b t1 Hb Hst1. specialize (Hrep b Hb). pose proof (ghost_nodup (wr_nodup _ _ _ _ Hrep) Hg) as Hnd.
  eapply unlink_child_cursors; [exact Hst1|apply Hrep|exact Hnd|done|rewrite !length_app in Hc; cbn [length] in Hc; lia|exact Hrel|].
  intros cs' t2 Hrel' Hks Hst2. eapply HQ; [exact Hst2|exact Hrep|exact Hrel'|done|].
  intros k c Hk Hnk. unfold ids in *. rewrite zone_blocks in *. cbn [all_blocks map concat blocks_of ghost node_id app fmap list_fmap fst] in *.
  rewrite !not_elem_of_cons in *. destruct Hnk as (Hkp & _ & Hk'). split; [by rewrite lookup_insert_ne|done].
Qed.
End unlinked.

End rebalance.
End btree_rebalance.
