(* ===== verification/BTreeLeafBalance.v ===== *)
(** * Neighbouring leaves of B+ trees

    A leaf that became too small takes a value from a neighbour or is merged
    with it.  The values of the tree and the positions of the cursors do not
    change. *)

From Stdlib Require Import Strings.Byte Sorting.Sorted.
From S2P Require Import Prelude MathOps Serialization Blocks EngineSpec FreeList Allocator Extent BTreeNodes BTree BTreeShape BTreeStore BTreeSearch BTreePaths BTreeSplit BTreeCursors BTreeInsert BTreeLeafInsert BTreeRemove BTreeZone BTreeRebalance.

Module btree_leaf_balance.
Import btree btree_shape btree_store btree_search btree_paths btree_split btree_cursors btree_insert btree_leaf_insert btree_remove btree_zone btree_rebalance.

Section leaf_balance.
Context {A : Type} `{AllocatorSpec A}.
Context (derive_key : bytes -> bytes) (key_less : bytes -> bytes -> bool) `{KeyOrder key_less}.
Context (cfg : config) (bs : Z) (Hcfg : config_ok cfg bs) (supports1 : al_supports 1).
Context (derive_length : forall v, zlen v = value_size cfg -> zlen (derive_key v) = key_size cfg).
Abbreviation T := (tree A).
Abbreviation st := (st cfg bs).
Abbreviation holds := (holds cfg bs).
Abbreviation stored := (stored cfg bs).
Abbreviation body_ok := (body_ok cfg bs).
Abbreviation layout := (layout derive_key key_less).
Abbreviation weak_rep := (weak_rep derive_key key_less cfg bs).
Abbreviation cap := (leaf_capacity cfg).
Implicit Types (anc : anchor) (cs : list (nat * cursor)) (pos : list (nat * position)) (G : gmap Z bytes).
Implicit Types (n : Z) (t : T) (key : bytes) (id : nat).

(** The state after the change of the tree [tr] to [tr']. *)
Definition rebalanced anc' cs pos G n (h : nat) tr tr' (R : nat -> cursor -> position -> Prop) t' : Prop :=
  exists cs' G', st anc' cs' G' n t' /\ weak_rep anc' G' h tr' /\ keeps G (ids tr) G' (ids tr') /\ rel R cs' pos /\ cs'.*1 = cs.*1.

Section parent.
Context (fs0 : list frame) (p : Z) (pk : list bytes) (l r : list node).
Abbreviation d := (length fs0).

Lemma back_entry_zone e leaf k (inv deleted prog : bool) t (Q : Z * Z -> T -> Prop) : Q e t ->
  wp (back_entry (Cursor (entries fs0 ++ [e]) leaf k inv deleted prog)) t Q.
Proof. intros HQ. unfold back_entry. cbn [m_parents]. rewrite last_snoc. by wp_step. Qed.
Lemma set_back_zone e e' leaf k (inv deleted prog : bool) :
  set_back e' (Cursor (entries fs0 ++ [e]) leaf k inv deleted prog) = Cursor (entries fs0 ++ [e']) leaf k inv deleted prog.
Proof.
  unfold set_back, set_parents. cbn [m_parents m_leaf m_index c_invalid c_deleted c_inprogress]. rewrite length_app, length_entries. cbn [length].
  replace (d + 1 - 1)%nat with d by lia. by rewrite insert_zone.
Qed.

(** *** The blocks of two leaves and their parent *)

Section leaves.
Context (i j : Z) (va vb : list bytes).
Abbreviation tr := (plug fs0 (Inner p pk (l ++ [Leaf i va; Leaf j vb] ++ r))).

Lemma leaves_distinct : NoDup (ids tr) -> p <> i /\ p <> j /\ i <> j.
Proof.
  intros Hnd. unfold ids in Hnd. rewrite zone_blocks in Hnd. cbn in Hnd. apply NoDup_cons in Hnd as [H1' Hnd].
  apply NoDup_cons in Hnd as [H2' _]. rewrite !not_elem_of_cons in *. tauto.
Qed.
Lemma leaves_stored G : stored G (blocks_of tr) ->
  holds G p (InnerBody pk (map node_id (l ++ [Leaf i va; Leaf j vb] ++ r))) /\ holds G i (LeafBody va) /\ holds G j (LeafBody vb).
Proof.
  intros Hs. apply (stored_perm _ _ _ _ _ (zone_blocks fs0 p l r pk [Leaf i va; Leaf j vb])) in Hs. cbn in Hs.
  apply Forall_cons in Hs as [H1' Hs]. apply Forall_cons in Hs as [H2' Hs]. by apply Forall_cons in Hs as [H3' _].
Qed.
Lemma leaves_path (y : nat) m ps leaf pre vals post : [Leaf i va; Leaf j vb] !! y = Some m -> at_path m ps leaf pre vals post ->
  ps = [] /\ pre = [] /\ post = [] /\ ((y = 0%nat /\ leaf = i /\ vals = va) \/ (y = 1%nat /\ leaf = j /\ vals = vb)).
Proof.
  destruct y as [|[|y]]; intros [= <-] Hp; apply at_path_sub, at_sub_leaf in Hp as (-> & [= -> ->] & -> & ->); tauto.
Qed.
Lemma leaf_pair_chain (h' : nat) lo keys hi : chain key_less (layout h') lo keys (l ++ [Leaf i va; Leaf j vb] ++ r) hi ->
  h' = 0%nat /\ let lo' := lo_at lo keys (length l) in let hi' := hi_at keys hi (S (length l)) in ordered derive_key key_less lo' hi' (va ++ vb).
Proof.
  intros Hc. apply (chain_pair key_less (layout h') (layout_wider derive_key key_less h')) in Hc as (k & _ & Hin & Ha & Hb & _).
  destruct h'; [|done]. split; [done|]. cbn [btree_zone.layout] in *. by eapply ordered_app.
Qed.
End leaves.

(** The values of two leaves are distributed in another way. *)
Lemma recut_rep i j va vb va' vb' w anc G h b1 b2 b3 :
  let tr := plug fs0 (Inner p pk (l ++ [Leaf i va; Leaf j vb] ++ r)) in
  let tr' := plug fs0 (Inner p (<[length l := derive_key w]> pk) (l ++ [Leaf i va'; Leaf j vb'] ++ r)) in
  weak_rep anc G h tr -> va' ++ vb' = va ++ vb -> last va' = Some w -> vb' <> [] ->
  body_ok b1 (LeafBody va') -> body_ok b2 (LeafBody vb') ->
  body_ok b3 (InnerBody (<[length l := derive_key w]> pk) (map node_id (l ++ [Leaf i va; Leaf j vb] ++ r))) ->
  let G' := <[p := b3]> (<[j := b2]> (<[i := b1]> G)) in
  weak_rep anc G' h tr' /\ keeps G (ids tr) G' (ids tr').
Proof.
  intros tr tr' Hrep Heq Hw Hne H1' H2' H3' G'. pose proof Hrep as [Rs Rst Rnd _ _ _ Rl Rri Rle Rin _].
  destruct (leaves_distinct _ _ _ _ Rnd) as (Hpi & Hpj & Hij).
  assert (leaf_ids tr' = leaf_ids tr) as Hli by (unfold tr, tr'; by rewrite !zone_leaf_ids).
  apply (zone_rep derive_key key_less cfg bs fs0 p pk (<[length l := derive_key w]> pk) l [Leaf i va; Leaf j vb] [Leaf i va'; Leaf j vb'] r
    anc anc G G' h Hrep); try done; fold tr'; rewrite ?Hli; try done.
  - intros h' lo hi Hc. destruct (leaf_pair_chain _ _ _ _ _ _ _ _ Hc) as [-> Ho]. cbn zeta in Ho.
    apply (chain_pair key_less (layout 0) (layout_wider derive_key key_less 0)) in Hc as (k & _ & _ & _ & _ & Hset & _).
    rewrite <- Heq in Ho. apply (ordered_cut derive_key key_less _ _ _ _ w) in Ho as (Hin & Ho1 & Ho2); [|done|done]. by apply Hset.
  - cbn. by rewrite !app_nil_r.
  - cbn. repeat (apply NoDup_cons; split); [|by apply not_elem_of_nil|constructor]. by intros ?%list_elem_of_singleton.
  - apply holds_eq. by rewrite !map_app in *.
  - repeat constructor; cbn [fst snd]; apply holds_ne; [done| |done|]; [by apply holds_ne, holds_eq|by apply holds_eq].
  - intros k Hk Hkm. cbn in Hkm. rewrite !not_elem_of_cons in Hkm. destruct Hkm as (? & ? & _). unfold G'. by rewrite !lookup_insert_ne by done.
  - cbn. rewrite Z.add_0_r, Rin. unfold wrap. by rewrite Z.mod_mod.
Qed.

(** *** A value from the right neighbour *)

Section steal_right.
Context (i j : Z) (va : list bytes) (v : bytes) (vb : list bytes).
Abbreviation tr := (plug fs0 (Inner p pk (l ++ [Leaf i va; Leaf j (v :: vb)] ++ r))).
Abbreviation tr' := (plug fs0 (Inner p (<[length l := derive_key v]> pk) (l ++ [Leaf i (va ++ [v]); Leaf j vb] ++ r))).

Lemma steal_right_cursors anc cs pos G n t id (Q : unit -> T -> Prop) :
  st anc cs G n t -> uniform (S d) tr -> NoDup (ids tr) -> zlen va < 2 ^ 32 -> zlen l < 2 ^ 31 -> zlen vb < 2 ^ 32 ->
  rel (zone_rel fs0 p tr id) cs pos ->
  (forall cs' t', rel (zone_rel fs0 p tr' id) cs' pos -> cs'.*1 = cs.*1 -> st anc cs' G n t' -> Q tt t') ->
  wp (for_cursors (fun _ => steal_right_cursor i (zlen va) j)) t Q.
Proof.
  intros Hst Hu Hnd Hva Hl Hvb Hrel HQ. destruct (leaves_distinct _ _ _ _ Hnd) as (_ & _ & Hij).
  eapply (zone_cursors_spec cfg bs fs0 p pk _ l _ [Leaf i (va ++ [v]); Leaf j vb] r); [exact Hst|exact Hu|exact Hnd|lia| |exact Hrel| | | |exact HQ].
  - cbn. by rewrite !app_nil_r, <- app_assoc.
  - intros _ c Hc. unfold steal_right_cursor. by rewrite Hc.
  - intros _ ps leaf k deleted t' _ Hleaf _ _ Hst'. rewrite slide_same by done. unfold steal_right_cursor. cbn [c_invalid m_leaf orb].
    cbn in Hleaf. rewrite !not_elem_of_cons in Hleaf. destruct (Z.eqb_spec leaf j); [tauto|]. cbn [negb]. by wp_step.
  - intros _ y m ps leaf pre vals post k deleted t' Hy Hp Hk _ Hst'.
    destruct (leaves_path _ _ _ _ _ _ _ _ _ _ _ Hy Hp) as (-> & -> & -> & [(-> & -> & ->)|(-> & -> & ->)]);
      unfold steal_right_cursor; cbn [c_invalid m_leaf orb m_index].
    + destruct (Z.eqb_spec i j); [done|]. cbn [negb]. wp_step. split; [|done].
      exists 0%nat, (Leaf i (va ++ [v])), [], i, [], (va ++ [v]), [], k. split_and!; [done|constructor| |done|done].
      destruct deleted; cbn in *; rewrite length_app; cbn; lia.
    + rewrite Z.eqb_refl. cbn [negb]. destruct k as [|k].
      * change (Z.of_nat 0 =? 0) with true. cbn iota. wp_step. apply back_entry_zone. wp_step. split; [|done].
        exists 0%nat, (Leaf i (va ++ [v])), [], i, [], (va ++ [v]), [], (length va). split_and!; [done|constructor| |cbn; rewrite app_nil_r; lia|].
        -- destruct deleted; cbn in *; rewrite length_app; cbn; lia.
        -- cbn [fst snd]. rewrite set_back_zone, wrap_small by (split; lia). unfold set_position. cbn. do 4 f_equal. lia.
      * destruct (Z.eqb_spec (Z.of_nat (S k)) 0); [lia|]. wp_step. split; [|done].
        exists 1%nat, (Leaf j vb), [], j, [], vb, [], k. split_and!; [done|constructor| | |].
        -- destruct deleted; cbn in *; lia.
        -- cbn. rewrite !app_nil_r, length_app. cbn. lia.
        -- unfold set_index, set_position. cbn [m_parents m_leaf c_invalid c_deleted c_inprogress].
           rewrite wrap_small; [by replace (Z.of_nat (S k) - 1) with (Z.of_nat k) by lia|]. destruct deleted; cbn in Hk; split; lia.
Qed.

Lemma steal_right_leaf_spec anc cs pos G n t id h :
  st anc cs G n t -> weak_rep anc G h tr -> rel (zone_rel fs0 p tr id) cs pos -> zlen va < cap -> vb <> [] ->
  wp (steal_leaf_entry derive_key p i (zlen l) j (zlen l + 1)) t (fun _ => rebalanced anc cs pos G n h tr tr' (zone_rel fs0 p tr' id)).
Proof.
  intros Hst Hrep Hrel Hva Hvb. pose proof Hrep as [Rs Rst Rnd _ _ _ Rl Rri Rle Rin _].
  destruct (leaves_distinct _ _ _ _ Rnd) as (Hpi & Hpj & Hij). destruct (leaves_stored _ _ _ _ _ Rst) as (Hp & Hi & Hj).
  destruct (holds_inner _ _ _ _ _ _ Hp) as (Hlk & Hlc & Hm). rewrite length_map, !length_app in Hlk, Hlc. cbn [length] in Hlk, Hlc.
  destruct (holds_leaf _ _ _ _ _ Hj) as (Hfv & Hcb & Hc32). apply Forall_cons in Hfv as [Hlv _]. cbn [length] in Hcb.
  assert (0 < zlen vb) as Hvb' by (destruct vb; [done|cbn [length]; lia]).
  assert (h = S d) as Hh.
  { destruct (layout_plug _ _ _ _ _ _ _ Rs) as (h' & -> & HP & _). destruct h' as [|h']; [done|]. apply leaf_pair_chain in HP as [-> _]. lia. }
  unfold steal_leaf_entry. wp_step. apply (child_count_spec _ _ _ _ _ _ _ _ _ _ _ Hst Hp). intros t1 Hst1. wp_step.
  apply (leaf_size_spec _ _ _ _ _ _ _ _ _ _ Hst1 Hi). intros t2 Hst2. wp_step.
  apply (leaf_size_spec _ _ _ _ _ _ _ _ _ _ Hst2 Hj). intros t3 Hst3. wp_step.
  replace (zlen l + 1) with (Z.of_nat (S (length l))) by lia.
  apply (check_neighbors_spec cfg bs _ _ _ _ _ _ _ _ _ _ _ _ _ Hst3 Hp (pair_fst _ _ _ _) (pair_snd _ _ _ _)); [by left|]. intros t4 Hst4.
  wp_step. cbn [length]. wp_step; [apply Z.ltb_lt; lia|]. rewrite length_map, !length_app. cbn [length]. rewrite !wrap_small by (split; lia).
  rewrite (proj2 (Z.ltb_lt _ _)), (proj2 (Z.eqb_eq _ _)) by lia. cbn [andb]. wp_step.
  apply (tree_leaf_get_spec _ _ _ _ _ _ _ _ _ 0 v _ Hst4 Hj eq_refl). intros t5 Hst5. wp_step.
  apply (tree_leaf_insert_spec cfg bs _ _ _ _ _ _ _ (length va) v _ Hst5 Hi); [done|done|done|]. intros b1 t6 Hb1 Hst6. wp_step.
  assert (insert_at (length va) v va = va ++ [v]) as Hins by (unfold insert_at; by rewrite firstn_all, skipn_all). rewrite Hins in Hb1.
  apply (tree_leaf_remove_spec cfg bs _ _ _ _ _ _ (v :: vb) 0 _ Hst6); [by apply holds_ne|cbn; lia|]. cbn [delete list_delete]. intros b2 t7 Hb2 Hst7. wp_step.
  apply (tree_leaf_get_spec _ _ _ _ _ _ _ _ (va ++ [v]) (length va) v _ Hst7); [by apply holds_ne, holds_eq|by apply list_lookup_middle|]. intros t8 Hst8. wp_step.
  apply (set_key_spec cfg bs _ _ _ _ _ _ pk (map node_id (l ++ [Leaf i va; Leaf j (v :: vb)] ++ r)) (length l) _ _ Hst8); [by apply holds_ne, holds_ne|lia|by apply derive_length|].
  intros b3 t9 Hb3 Hst9.
  eapply steal_right_cursors; [exact Hst9| |done|lia|lia|lia|exact Hrel|].
  { intros ps leaf pre vals post. rewrite <- Hh. by eapply layout_depth. }
  intros cs' t10 Hrel' Hks Hst10. exists cs', (<[p := b3]> (<[j := b2]> (<[i := b1]> G))).
  destruct (recut_rep i j va (v :: vb) (va ++ [v]) vb v anc G h b1 b2 b3) as [Hrep' Hkp]; try done; [by rewrite <- app_assoc|by rewrite last_snoc].
Qed.
End steal_right.

(** *** A value from the left neighbour *)

Section steal_left.
Context (i j : Z) (va vb : list bytes) (v w : bytes).
Abbreviation tr := (plug fs0 (Inner p pk (l ++ [Leaf j (vb ++ [v]); Leaf i va] ++ r))).
Abbreviation tr' := (plug fs0 (Inner p (<[length l := derive_key w]> pk) (l ++ [Leaf j vb; Leaf i (v :: va)] ++ r))).

Lemma steal_left_cursors anc cs pos G n t id (Q : unit -> T -> Prop) :
  st anc cs G n t -> uniform (S d) tr -> NoDup (ids tr) -> zlen va < 2 ^ 32 - 1 -> zlen l < 2 ^ 31 -> zlen vb < 2 ^ 32 - 1 ->
  rel (zone_rel fs0 p tr id) cs pos ->
  (forall cs' t', rel (zone_rel fs0 p tr' id) cs' pos -> cs'.*1 = cs.*1 -> st anc cs' G n t' -> Q tt t') ->
  wp (for_cursors (fun _ => steal_left_cursor i j (zlen (vb ++ [v])))) t Q.
Proof.
  intros Hst Hu Hnd Hva Hl Hvb Hrel HQ. destruct (leaves_distinct _ _ _ _ Hnd) as (_ & _ & Hij).
  eapply (zone_cursors_spec cfg bs fs0 p pk _ l _ [Leaf j vb; Leaf i (v :: va)] r); [exact Hst|exact Hu|exact Hnd|lia| |exact Hrel| | | |exact HQ].
  - cbn. by rewrite !app_nil_r, <- app_assoc.
  - intros _ c Hc. unfold steal_left_cursor. by rewrite Hc.
  - intros _ ps leaf k deleted t' _ Hleaf _ _ Hst'. rewrite slide_same by done. unfold steal_left_cursor. cbn [c_invalid m_leaf orb].
    cbn in Hleaf. rewrite !not_elem_of_cons in Hleaf. destruct (Z.eqb_spec leaf i), (Z.eqb_spec leaf j); try tauto. by wp_step.
  - intros _ y m ps leaf pre vals post k deleted t' Hy Hp Hk _ Hst'.
    destruct (leaves_path _ _ _ _ _ _ _ _ _ _ _ Hy Hp) as (-> & -> & -> & [(-> & -> & ->)|(-> & -> & ->)]);
      unfold steal_left_cursor; cbn [c_invalid m_leaf orb m_index].
    + destruct (Z.eqb_spec j i); [done|]. rewrite Z.eqb_refl. rewrite length_app in *. cbn [length] in *.
      rewrite !(wrap_small 32 (Z.of_nat (length vb + 1) - 1)) by (split; lia).
      assert (k <= length vb + 1)%nat as Hk1 by (unfold index_ok in Hk; rewrite length_app in Hk; destruct deleted; cbn in Hk; lia).
      destruct (Z.leb_spec (Z.of_nat (length vb + 1) - 1) (Z.of_nat k)).
      * wp_step. apply back_entry_zone. wp_step. split; [|done].
        exists 1%nat, (Leaf i (v :: va)), [], i, [], (v :: va), [], (k - length vb)%nat. split_and!; [done|constructor| |cbn; rewrite app_nil_r; lia|].
        -- unfold index_ok in *. rewrite length_app in Hk. cbn [length] in *. destruct deleted; lia.
        -- cbn [fst snd]. rewrite set_back_zone, !wrap_small by (split; lia). unfold set_position. cbn.
           replace (Z.of_nat k - (Z.of_nat (length vb + 1) - 1)) with (Z.of_nat (k - length vb)) by lia. do 4 f_equal. lia.
      * wp_step. split; [|done]. exists 0%nat, (Leaf j vb), [], j, [], vb, [], k. split_and!; [done|constructor| |done|done].
        destruct deleted; cbn; lia.
    + rewrite Z.eqb_refl. wp_step. split; [|done].
      exists 1%nat, (Leaf i (v :: va)), [], i, [], (v :: va), [], (S k). split_and!; [done|constructor| | |].
      * destruct deleted; cbn in *; lia.
      * cbn. rewrite !app_nil_r, length_app. cbn. lia.
      * unfold set_index, set_position. cbn [m_parents m_leaf c_invalid c_deleted c_inprogress].
        assert (k <= length va)%nat by (destruct deleted; cbn in Hk; lia).
        rewrite wrap_small by (split; lia). by replace (Z.of_nat k + 1) with (Z.of_nat (S k)) by lia.
Qed.

Lemma steal_left_leaf_spec anc cs pos G n t id h :
  st anc cs G n t -> weak_rep anc G h tr -> rel (zone_rel fs0 p tr id) cs pos -> zlen va < cap -> last vb = Some w ->
  wp (steal_leaf_entry derive_key p i (zlen l + 1) j (zlen l)) t (fun _ => rebalanced anc cs pos G n h tr tr' (zone_rel fs0 p tr' id)).
Proof.
  intros Hst Hrep Hrel Hva Hw. pose proof Hrep as [Rs Rst Rnd _ _ _ Rl Rri Rle Rin _].
  destruct (leaves_distinct _ _ _ _ Rnd) as (Hpj & Hpi & Hij). destruct (leaves_stored _ _ _ _ _ Rst) as (Hp & Hj & Hi).
  destruct (holds_inner _ _ _ _ _ _ Hp) as (Hlk & Hlc & Hm). rewrite length_map, !length_app in Hlk, Hlc. cbn [length] in Hlk, Hlc.
  destruct (holds_leaf _ _ _ _ _ Hj) as (Hfv & Hcb & Hc32). rewrite length_app in Hcb. cbn [length] in Hcb.
  apply last_Some in Hw as Hvb. destruct Hvb as (vb0 & Hvb0).
  assert (length vb = S (length vb0)) as Hvbl by (rewrite Hvb0, length_app; cbn; lia).
  assert (zlen v = value_size cfg) as Hlv by (apply Forall_app in Hfv as [_ Hfv]; by apply Forall_cons in Hfv as [? _]).
  assert (zlen w = value_size cfg) as Hlw.
  { apply Forall_app in Hfv as [Hfv _]. rewrite Hvb0 in Hfv. apply Forall_app in Hfv as [_ Hfv]. by apply Forall_cons in Hfv as [? _]. }
  assert (cap < 2 ^ 32 - 1) as Hcap by (destruct Hcfg; unfold node_header_size in *; nia).
  assert (h = S d) as Hh.
  { destruct (layout_plug _ _ _ _ _ _ _ Rs) as (h' & -> & HP & _). destruct h' as [|h']; [done|]. apply leaf_pair_chain in HP as [-> _]. lia. }
  unfold steal_leaf_entry. wp_step. apply (child_count_spec _ _ _ _ _ _ _ _ _ _ _ Hst Hp). intros t1 Hst1. wp_step.
  apply (leaf_size_spec _ _ _ _ _ _ _ _ _ _ Hst1 Hi). intros t2 Hst2. wp_step.
  apply (leaf_size_spec _ _ _ _ _ _ _ _ _ _ Hst2 Hj). intros t3 Hst3. wp_step.
  replace (zlen l + 1) with (Z.of_nat (S (length l))) by lia.
  apply (check_neighbors_spec cfg bs _ _ _ _ _ _ _ _ _ _ _ _ _ Hst3 Hp (pair_snd _ _ _ _) (pair_fst _ _ _ _)); [by right|]. intros t4 Hst4.
  wp_step. wp_step; [rewrite length_app; cbn [length]; apply Z.ltb_lt; lia|]. rewrite length_map, !length_app. cbn [length].
  rewrite !(wrap_small 32) by (split; lia).
  destruct (Z.eqb_spec (zlen l) (Z.of_nat (S (length l)) + 1)); [lia|]. rewrite andb_false_r.
  rewrite (proj2 (Z.ltb_lt _ _)), (proj2 (Z.eqb_eq _ _)) by lia. cbn [andb]. wp_step.
  replace (Z.of_nat (length vb + 1) - 1) with (zlen vb) by lia. replace (Z.of_nat (length vb + 1) - 2) with (zlen vb0) by lia.
  replace (Z.of_nat (S (length l)) - 1) with (zlen l) by lia.
  apply (tree_leaf_get_spec _ _ _ _ _ _ _ _ _ (length vb) v _ Hst4 Hj); [by apply list_lookup_middle|]. intros t5 Hst5. wp_step.
  apply (tree_leaf_insert_spec cfg bs _ _ _ _ _ _ _ 0 v _ Hst5 Hi); [lia|done|done|]. intros b2 t6 Hb2 Hst6. wp_step.
  change (insert_at 0 v va) with (v :: va) in Hb2.
  apply (tree_leaf_remove_spec cfg bs _ _ _ _ _ _ (vb ++ [v]) (length vb) _ Hst6); [by apply holds_ne|rewrite length_app; cbn; lia|]. intros b1 t7 Hb1 Hst7. wp_step.
  assert (delete (length vb) (vb ++ [v]) = vb) as Hdel by (rewrite delete_middle; by rewrite app_nil_r). rewrite Hdel in Hb1.
  apply (tree_leaf_get_spec _ _ _ _ _ _ _ _ vb (length vb0) w _ Hst7); [by apply holds_eq|rewrite Hvb0; by apply list_lookup_middle|]. intros t8 Hst8. wp_step.
  apply (set_key_spec cfg bs _ _ _ _ _ _ pk (map node_id (l ++ [Leaf j (vb ++ [v]); Leaf i va] ++ r)) (length l) _ _ Hst8); [by apply holds_ne, holds_ne|lia|by apply derive_length|].
  intros b3 t9 Hb3 Hst9. rewrite <- (length_app vb [v] : _ = (length vb + 1)%nat).
  eapply steal_left_cursors; [exact Hst9| |done|lia|lia|lia|exact Hrel|].
  { intros ps leaf pre vals post. rewrite <- Hh. by eapply layout_depth. }
  intros cs' t10 Hrel' Hks Hst10. rewrite (insert_insert_ne G) in Hst10 by done. exists cs', (<[p := b3]> (<[i := b2]> (<[j := b1]> G))).
  destruct (recut_rep j i (vb ++ [v]) va vb (v :: va) w anc G h b1 b2 b3) as [Hrep' Hkp]; try done. by rewrite <- app_assoc.
Qed.
End steal_left.

(** *** One leaf instead of two *)

(** The leaf [g] is replaced by its neighbour [s]. *)
Definition joined (s g : Z) anc : anchor :=
  Anchor (size anc) (leaf_nodes anc - 1) (internal_nodes anc) (height anc) (root anc)
    (if leftmost anc =? g then s else leftmost anc) (if rightmost anc =? g then s else rightmost anc).

Lemma join_head (X Y : list Z) i j s g lm : NoDup (X ++ [i; j] ++ Y) -> (s = i /\ g = j) \/ (s = j /\ g = i) ->
  head (X ++ [i; j] ++ Y) = Some lm -> head (X ++ [s] ++ Y) = Some (if lm =? g then s else lm).
Proof.
  intros Hnd Hsg Hh. destruct X as [|x X]; cbn [app head] in *; injection Hh as <-.
  - apply NoDup_cons in Hnd as [Hi _]. apply not_elem_of_cons in Hi as [Hij _]. f_equal.
    destruct Hsg as [[-> ->]|[-> ->]]; [by destruct (Z.eqb_spec i j)|by rewrite Z.eqb_refl].
  - apply NoDup_cons in Hnd as [Hx _]. rewrite not_elem_of_app, !not_elem_of_cons in Hx. f_equal. destruct (Z.eqb_spec x g); [|done].
    destruct Hsg as [[-> ->]|[-> ->]]; tauto.
Qed.
Lemma join_last (X Y : list Z) i j s g rm : NoDup (X ++ [i; j] ++ Y) -> (s = i /\ g = j) \/ (s = j /\ g = i) ->
  last (X ++ [i; j] ++ Y) = Some rm -> last (X ++ [s] ++ Y) = Some (if rm =? g then s else rm).
Proof.
  intros Hnd Hsg Hl. rewrite <- head_reverse in *. rewrite !reverse_app in *. cbn [reverse rev_append] in *. rewrite <- !app_assoc in *.
  change (reverse [s]) with [s]. change (reverse [i; j]) with [j; i] in Hl. eapply (join_head _ _ j i); [|tauto|exact Hl].
  change [j; i] with (reverse [i; j]). rewrite !app_assoc, <- !reverse_app. by rewrite reverse_Permutation.
Qed.

Lemma join_rep i j s g va vb pk' anc G G' h b :
  let tr := plug fs0 (Inner p pk (l ++ [Leaf i va; Leaf j vb] ++ r)) in
  let tr' := plug fs0 (Inner p pk' (l ++ [Leaf s (va ++ vb)] ++ r)) in
  weak_rep anc G h tr -> (s = i /\ g = j) \/ (s = j /\ g = i) -> holds G' s (LeafBody (va ++ vb)) ->
  (forall k, k <> p -> k <> i -> k <> j -> G' !! k = G !! k) ->
  (forall lo hi, chain key_less (layout 0) lo pk (l ++ [Leaf i va; Leaf j vb] ++ r) hi ->
     chain key_less (layout 0) lo pk' (l ++ [Leaf s (va ++ vb)] ++ r) hi) ->
  body_ok b (InnerBody pk' (map node_id (l ++ [Leaf s (va ++ vb)] ++ r))) ->
  weak_rep (joined s g anc) (<[p := b]> G') h tr'.
Proof.
  intros tr tr' Hrep Hsg Hs HG Hch Hb. pose proof Hrep as [Rs Rst Rnd _ _ _ Rl Rri Rle Rin _].
  destruct (leaves_distinct _ _ _ _ Rnd) as (Hpi & Hpj & Hij). pose proof (leaf_ids_nodup _ Rnd) as Hnl.
  unfold tr in Rl, Rri, Rle, Hnl. rewrite zone_leaf_ids in Rl, Rri, Rle, Hnl. cbn [map concat leaf_ids app] in Rl, Rri, Rle, Hnl.
  assert (p <> s) as Hps by (destruct Hsg as [[-> _]|[-> _]]; done).
  destruct (zone_rep derive_key key_less cfg bs fs0 p pk pk' l [Leaf i va; Leaf j vb] [Leaf s (va ++ vb)] r anc (joined s g anc) G (<[p := b]> G') h Hrep) as [Hrep' _];
    cbn [joined height root size leftmost rightmost leaf_nodes internal_nodes]; try done.
  - intros h' lo hi Hc. destruct (leaf_pair_chain _ _ _ _ _ _ _ _ Hc) as [-> _]. by apply Hch.
  - cbn. by rewrite !app_nil_r.
  - apply NoDup_singleton.
  - cbn. intros x Hx%list_elem_of_singleton. subst x. rewrite !elem_of_cons. destruct Hsg as [[-> _]|[-> _]]; tauto.
  - by apply holds_eq.
  - repeat constructor. cbn [fst snd]. by apply holds_ne.
  - intros k Hk Hkm. cbn in Hkm. rewrite !not_elem_of_cons in Hkm. destruct Hkm as (? & ? & _). rewrite lookup_insert_ne by done. by apply HG.
  - rewrite zone_leaf_ids. cbn [map concat leaf_ids app]. eapply (join_head _ _ i j); [exact Hnl|exact Hsg|exact Rl].
  - rewrite zone_leaf_ids. cbn [map concat leaf_ids app]. eapply (join_last _ _ i j); [exact Hnl|exact Hsg|exact Rri].
  - rewrite zone_leaf_ids, Rle. cbn [map concat leaf_ids app]. rewrite !length_app. cbn [length]. rewrite !length_app. cbn [length]. lia.
  - cbn. rewrite Z.add_0_r, Rin. unfold wrap. by rewrite Z.mod_mod.
Qed.
Lemma join_ids i j s g va vb v pk' anc G h :
  weak_rep anc G h (plug fs0 (Inner p pk (l ++ [Leaf i va; Leaf j vb] ++ r))) -> (s = i /\ g = j) \/ (s = j /\ g = i) ->
  g ∉ ids (plug fs0 (Inner p pk' (l ++ [Leaf s v] ++ r))) /\ 1 < leaf_nodes anc.
Proof.
  intros [_ _ Rnd _ _ _ _ _ Rle _ _] Hsg. split.
  - unfold ids in *. rewrite zone_blocks in Rnd |- *. cbn in Rnd |- *. apply NoDup_cons in Rnd as [Hp Rnd]. apply NoDup_cons in Rnd as [Hi Rnd].
    apply NoDup_cons in Rnd as [Hj _]. rewrite !not_elem_of_cons in *.
    destruct Hp as (? & ? & ?), Hi as (? & ?), Hsg as [[-> ->]|[-> ->]]; split_and!; congruence || done.
  - rewrite Rle, zone_leaf_ids. cbn [map concat leaf_ids app]. rewrite !length_app. cbn [length]. lia.
Qed.

Lemma head_not_second (X Y : list Z) i j lm : NoDup (X ++ [i; j] ++ Y) -> head (X ++ [i; j] ++ Y) = Some lm -> lm <> j.
Proof.
  intros Hnd Hh ->. destruct X as [|x X]; cbn [app head] in *; injection Hh as ->; apply NoDup_cons in Hnd as [Hi _];
    rewrite ?not_elem_of_app, !not_elem_of_cons in Hi; tauto.
Qed.
Lemma last_not_first (X Y : list Z) i j rm : NoDup (X ++ [i; j] ++ Y) -> last (X ++ [i; j] ++ Y) = Some rm -> rm <> i.
Proof.
  intros Hnd Hl. rewrite <- head_reverse, !reverse_app, <- !app_assoc in Hl. change (reverse [i; j]) with [j; i] in Hl.
  eapply (head_not_second _ _ j i); [|exact Hl]. change [j; i] with (reverse [i; j]). rewrite !app_assoc, <- !reverse_app. by rewrite reverse_Permutation.
Qed.

(** The state after one of the leaves was freed. *)
Definition detached anc' cs pos G n h tr pk' l' g r' id t' : Prop :=
  exists cs' G', st anc' cs' G' n t' /\ unlinked derive_key key_less cfg bs fs0 p pk' l' g r' anc' G' h /\
    rel (zone_rel fs0 p (plug fs0 (Inner p pk' (l' ++ [ghost g] ++ r'))) id) cs' pos /\ cs'.*1 = cs.*1 /\
    keeps G (ids tr) G' (ids (plug fs0 (Inner p pk' (l' ++ [ghost g] ++ r')))).

Lemma ghost_keeps i j va vb pk' l' g r' G G' s :
  let tr := plug fs0 (Inner p pk (l ++ [Leaf i va; Leaf j vb] ++ r)) in
  NoDup (ids tr) ->
  (l' = l ++ [Leaf i s] /\ g = j /\ r' = r) \/ (l' = l /\ g = i /\ r' = Leaf j s :: r) ->
  (forall k, k <> p -> k <> i -> k <> j -> G' !! k = G !! k) ->
  keeps G (ids tr) G' (ids (plug fs0 (Inner p pk' (l' ++ [ghost g] ++ r')))).
Proof.
  intros tr Hnd Hsh HG k b Hk Hnk. unfold ids, tr in *. rewrite zone_blocks in Hnk. cbn in Hnk. rewrite !not_elem_of_cons in Hnk.
  destruct Hnk as (H1' & H2' & H3' & H4'). split; [by rewrite HG|].
  rewrite zone_blocks. cbn. unfold zone_rest in *. rewrite !fmap_app, !not_elem_of_app in H4'. destruct H4' as (? & ? & ?).
  destruct Hsh as [(-> & -> & ->)|(-> & -> & ->)]; rewrite ?all_blocks_app, ?all_blocks_cons, !fmap_app, !not_elem_of_cons, !not_elem_of_app; cbn;
    rewrite ?not_elem_of_cons; split_and!; try done; apply not_elem_of_nil.
Qed.

(** *** Merge with the right neighbour *)

Lemma set_if_spec anc cs G n t (b : bool) f (Q : unit -> T -> Prop) :
  st anc cs G n t -> (forall t', st (if b then f anc else anc) cs G n t' -> Q tt t') -> wp (if b then mod_anchor f else ret tt) t Q.
Proof. intros Hst HQ. destruct b; [by apply (mod_anchor_spec _ _ _ _ _ _ _ _ _ Hst)|]. wp_step. by apply HQ. Qed.

Section merge_right.
Context (i j : Z) (va vb : list bytes) (w : bytes) (Hw : last (va ++ vb) = Some w).
Abbreviation tr := (plug fs0 (Inner p pk (l ++ [Leaf i va; Leaf j vb] ++ r))).
Definition tight_keys : list bytes := match r with [] => pk | _ => <[length l := derive_key w]> pk end.
Abbreviation trg := (plug fs0 (Inner p tight_keys ((l ++ [Leaf i (va ++ vb)]) ++ [ghost j] ++ r))).

Lemma merge_right_cursors anc cs pos G n t id (Q : unit -> T -> Prop) :
  st anc cs G n t -> uniform (S d) tr -> NoDup (ids tr) -> zlen va + zlen vb < 2 ^ 32 -> zlen l < 2 ^ 31 ->
  rel (zone_rel fs0 p tr id) cs pos ->
  (forall cs' t', rel (zone_rel fs0 p trg id) cs' pos -> cs'.*1 = cs.*1 -> st anc cs' G n t' -> Q tt t') ->
  wp (for_cursors (fun _ => merge_right_cursor i (zlen va) j)) t Q.
Proof.
  intros Hst Hu Hnd Hvl Hl Hrel HQ. destruct (leaves_distinct _ _ _ _ Hnd) as (_ & _ & Hij). rewrite <- app_assoc in HQ.
  eapply (zone_cursors_spec cfg bs fs0 p pk _ l _ [Leaf i (va ++ vb); ghost j] r); [exact Hst|exact Hu|exact Hnd|lia| |exact Hrel| | | |exact HQ].
  - cbn. by rewrite !app_nil_r.
  - intros _ c Hc. unfold merge_right_cursor. by rewrite Hc.
  - intros _ ps leaf k deleted t' _ Hleaf _ _ Hst'. rewrite slide_same by done. unfold merge_right_cursor. cbn [c_invalid m_leaf orb].
    cbn in Hleaf. rewrite !not_elem_of_cons in Hleaf. destruct (Z.eqb_spec leaf j); [tauto|]. cbn [negb]. by wp_step.
  - intros _ y m ps leaf pre vals post k deleted t' Hy Hp Hk _ Hst'.
    destruct (leaves_path _ _ _ _ _ _ _ _ _ _ _ Hy Hp) as (-> & -> & -> & [(-> & -> & ->)|(-> & -> & ->)]);
      unfold merge_right_cursor; cbn [c_invalid m_leaf orb m_index].
    + destruct (Z.eqb_spec i j); [done|]. cbn [negb]. wp_step. split; [|done].
      exists 0%nat, (Leaf i (va ++ vb)), [], i, [], (va ++ vb), [], k. split_and!; [done|constructor| |done|done].
      unfold index_ok in *. rewrite length_app. destruct deleted; lia.
    + rewrite Z.eqb_refl. cbn [negb]. wp_step. apply back_entry_zone. wp_step. split; [|done].
      exists 0%nat, (Leaf i (va ++ vb)), [], i, [], (va ++ vb), [], (length va + k)%nat.
      assert (k <= length vb)%nat by (destruct deleted; cbn in Hk; lia). split_and!; [done|constructor| |cbn; rewrite app_nil_r; lia|].
      * unfold index_ok in *. rewrite length_app. destruct deleted; lia.
      * cbn [fst snd]. rewrite set_back_zone, !wrap_small by (split; lia). unfold set_position. cbn.
        replace (Z.of_nat k + zlen va) with (Z.of_nat (length va + k)) by lia. do 4 f_equal. lia.
Qed.

Lemma merge_right_chain lo hi : chain key_less (layout 0) lo pk (l ++ [Leaf i va; Leaf j vb] ++ r) hi ->
  chain key_less (layout 0) lo (remove_key (S (length l)) tight_keys) (l ++ [Leaf i (va ++ vb)] ++ r) hi.
Proof.
  intros Hc. pose proof (chain_length _ _ _ _ _ _ Hc) as Hlen. rewrite !length_app in Hlen. cbn [length] in Hlen.
  destruct (leaf_pair_chain _ _ _ _ _ _ _ _ Hc) as [_ Ho]. cbn zeta in Ho.
  apply (chain_pair key_less (layout 0) (layout_wider derive_key key_less 0)) in Hc as (k & _ & _ & _ & _ & _ & Hjoin & Htight).
  unfold remove_key, tight_keys. destruct r as [|x r'] eqn:Hr.
  - cbn [length] in Hlen. replace (S (length l) `min` (length pk - 1))%nat with (length l) by lia. by apply Hjoin.
  - rewrite length_insert. cbn [length] in Hlen. replace (S (length l) `min` (length pk - 1))%nat with (S (length l)) by lia.
    destruct (ordered_last derive_key key_less _ _ _ _ Ho Hw) as [Hb Ho']. by apply Htight.
Qed.
Lemma ghost_ids s : map node_id ((l ++ [Leaf i s]) ++ [ghost j] ++ r) = map node_id (l ++ [Leaf i va; Leaf j vb] ++ r).
Proof. by rewrite <- app_assoc, !map_app. Qed.

(** The separator behind the merged leaf. *)
Lemma tight_key_spec anc cs G n t (Q : unit -> T -> Prop) :
  st anc cs G n t -> holds G p (InnerBody pk (map node_id (l ++ [Leaf i va; Leaf j vb] ++ r))) -> holds G i (LeafBody (va ++ vb)) ->
  holds G j (LeafBody vb) -> NoDup (ids tr) ->
  (forall G' t', st anc cs G' n t' -> holds G' p (InnerBody tight_keys (map node_id (l ++ [Leaf i va; Leaf j vb] ++ r))) ->
     holds G' i (LeafBody (va ++ vb)) -> holds G' j (LeafBody vb) -> (forall k, k <> p -> G' !! k = G !! k) -> Q tt t') ->
  wp (if negb (zlen l + 1 =? u32 (zlen (map node_id (l ++ [Leaf i va; Leaf j vb] ++ r)) - 1)) then
       let* v := leaf_get i (u32 (zlen va + zlen vb - 1)) in set_key p (zlen l) (derive_key v)
     else ret tt) t Q.
Proof.
  intros Hst Hp Hi Hj Hnd HQ. destruct (leaves_distinct _ _ _ _ Hnd) as (Hpi & Hpj & Hij).
  destruct (holds_inner _ _ _ _ _ _ Hp) as (Hlk & Hlc & Hm). rewrite length_map, !length_app in Hlk, Hlc |- *. cbn [length] in Hlk, Hlc |- *.
  destruct (holds_leaf _ _ _ _ _ Hi) as (Hfv & Hcb & Hc32). rewrite length_app in Hcb. apply last_Some in Hw as Hw'. destruct Hw' as (x & Hx).
  pose proof (f_equal length Hx) as Hxl. rewrite !length_app in Hxl. cbn [length] in Hxl. rewrite !wrap_small by (split; lia).
  unfold tight_keys in HQ. destruct r as [|y r'] eqn:Hr; cbn [length] in *.
  - destruct (Z.eqb_spec (zlen l + 1) (Z.of_nat (length l + (2 + 0)) - 1)); [|lia]. cbn [negb]. wp_step. by apply (HQ G).
  - destruct (Z.eqb_spec (zlen l + 1) (Z.of_nat (length l + (2 + S (length r'))) - 1)); [lia|]. cbn [negb]. wp_step.
    replace (zlen va + zlen vb - 1) with (zlen x) by lia.
    apply (tree_leaf_get_spec _ _ _ _ _ _ _ _ _ (length x) w _ Hst Hi); [rewrite Hx; by apply list_lookup_middle|]. intros t1 Hst1.
    apply (set_key_spec cfg bs _ _ _ _ _ _ _ _ (length l) _ _ Hst1 Hp); [lia| |].
    { apply derive_length. rewrite Hx in Hfv. apply Forall_app in Hfv as [_ Hfv]. by apply Forall_cons in Hfv as [? _]. }
    intros b t2 Hb Hst2. eapply (HQ _ _ Hst2); [by apply holds_eq|by apply holds_ne|by apply holds_ne|]. intros k Hk. by rewrite lookup_insert_ne.
Qed.

Lemma merge_right_leaf_spec anc cs pos G n t id h :
  st anc cs G n t -> weak_rep anc G h tr -> rel (zone_rel fs0 p tr id) cs pos -> zlen va + zlen vb <= cap ->
  wp (merge_leaf derive_key p i (zlen l) j (zlen l + 1) ;;; free_leaf j) t (fun _ =>
    detached (joined i j anc) cs pos G n h tr tight_keys (l ++ [Leaf i (va ++ vb)]) j r id).
Proof.
  intros Hst Hrep Hrel Hcap. pose proof Hrep as [Rs Rst Rnd _ _ _ Rl Rri Rle Rin _].
  destruct (leaves_distinct _ _ _ _ Rnd) as (Hpi & Hpj & Hij). destruct (leaves_stored _ _ _ _ _ Rst) as (Hp & Hi & Hj).
  destruct (holds_inner _ _ _ _ _ _ Hp) as (Hlk & Hlc & Hm). rewrite length_map, !length_app in Hlk, Hlc. cbn [length] in Hlk, Hlc.
  destruct (holds_leaf _ _ _ _ _ Hj) as (_ & _ & Hc32).
  destruct (stored_bounds cfg bs Hcfg _ _ _ _ _ _ Hst Rst Rnd) as [_ Hl64]. rewrite <- Rle in Hl64.
  pose proof (leaf_ids_nodup _ Rnd) as Hnl. rewrite zone_leaf_ids in Hnl, Rl. cbn [map concat leaf_ids app] in Hnl, Rl.
  assert (h = S d) as Hh.
  { destruct (layout_plug _ _ _ _ _ _ _ Rs) as (h' & -> & HP & _). destruct h' as [|h']; [done|]. apply leaf_pair_chain in HP as [-> _]. lia. }
  wp_step. unfold merge_leaf. wp_step. apply (child_count_spec _ _ _ _ _ _ _ _ _ _ _ Hst Hp). intros t1 Hst1. wp_step.
  apply (leaf_size_spec _ _ _ _ _ _ _ _ _ _ Hst1 Hi). intros t2 Hst2. wp_step.
  apply (leaf_size_spec _ _ _ _ _ _ _ _ _ _ Hst2 Hj). intros t3 Hst3. wp_step.
  replace (zlen l + 1) with (Z.of_nat (S (length l))) by lia.
  apply (check_neighbors_spec cfg bs _ _ _ _ _ _ _ _ _ _ _ _ _ Hst3 Hp (pair_fst _ _ _ _) (pair_snd _ _ _ _)); [by left|]. intros t4 Hst4.
  replace (Z.of_nat (S (length l))) with (zlen l + 1) by lia.
  assert ((zlen l <? u32 (zlen (map node_id (l ++ [Leaf i va; Leaf j vb] ++ r)) - 1)) && (zlen l + 1 =? u32 (zlen l + 1)) = true) as ->.
  { rewrite length_map, !length_app. cbn [length]. rewrite !wrap_small by (split; lia). rewrite Z.eqb_refl, andb_true_r. apply Z.ltb_lt. lia. }
  wp_step. apply (tree_leaf_append_spec cfg bs _ _ _ _ _ _ _ _ _ _ Hst4 Hi Hj Hcap). intros b1 t5 Hb1 Hst5. wp_step.
  apply (get_anchor_spec _ _ _ _ _ _ _ _ Hst5). wp_step. apply (set_if_spec _ _ _ _ _ _ _ _ Hst5). intros t6 Hst6. wp_step.
  apply (tight_key_spec _ _ _ _ _ _ Hst6); [by apply holds_ne|by apply holds_eq|by apply holds_ne|done|].
  intros G2 t7 Hst7 Hp2 Hi2 Hj2 HG2.
  eapply merge_right_cursors; [exact Hst7| |done|lia|lia|exact Hrel|].
  { intros ps leaf pre vals post. rewrite <- Hh. by eapply layout_depth. }
  intros cs' t8 Hrel' Hks Hst8.
  assert (forall k, k <> p -> k <> i -> k <> j -> delete j G2 !! k = G !! k) as HGd.
  { intros k H1' H2' H3'. rewrite lookup_delete_ne, HG2, lookup_insert_ne by done. done. }
  assert (forall k x, k <> j -> holds G2 k x -> holds (delete j G2) k x) as Hdel.
  { intros k x Hk (b & Hb & Hok). exists b. by rewrite lookup_delete_ne. }
  destruct (join_ids i j i j va vb (va ++ vb) (remove_key (S (length l)) tight_keys) _ _ _ Hrep) as [Hgh Hln]; [by left|].
  assert (length (l ++ [Leaf i (va ++ vb)]) = S (length l)) as Hl1 by (rewrite length_app; cbn; lia).
  assert (forall m, (l ++ [Leaf i (va ++ vb)]) ++ m ++ r = l ++ [Leaf i (va ++ vb)] ++ m ++ r) as Hass by (intros m; by rewrite <- app_assoc).
  pose proof (head_not_second _ _ _ _ _ Hnl Rl) as Hlm.
  apply (free_leaf_spec derive_key key_less cfg bs Hcfg supports1 derive_length _ _ _ _ _ _ _ _ Hst8 Hj2); [destruct (rightmost anc =? j); cbn; lia|]. intros t9 Hst9.
  exists cs', (delete j G2). split_and!; [| |exact Hrel'|done|].
  - replace (joined i j anc) with (more_leaves (-1) (if rightmost anc =? j then
      Anchor (size anc) (leaf_nodes anc) (internal_nodes anc) (height anc) (root anc) (leftmost anc) i else anc)); [exact Hst9|].
    unfold more_leaves, joined. destruct (Z.eqb_spec (leftmost anc) j); [done|].
    destruct (rightmost anc =? j); cbn; by rewrite wrap_small by (split; lia).
  - split.
    + rewrite ghost_ids. by apply Hdel.
    + rewrite Hl1, Hass. intros b Hb. eapply join_rep; [exact Hrep|by left|by apply Hdel|exact HGd|exact merge_right_chain|exact Hb].
    + by rewrite Hl1, Hass.
  - eapply ghost_keeps; [done|by left|exact HGd].
Qed.
End merge_right.

(** *** Merge with the left neighbour *)

Lemma join_chain i j s va vb lo hi : chain key_less (layout 0) lo pk (l ++ [Leaf i va; Leaf j vb] ++ r) hi ->
  chain key_less (layout 0) lo (remove_key (length l) pk) (l ++ [Leaf s (va ++ vb)] ++ r) hi.
Proof.
  intros Hc. pose proof (chain_length _ _ _ _ _ _ Hc) as Hlen. rewrite !length_app in Hlen. cbn [length] in Hlen.
  destruct (leaf_pair_chain _ _ _ _ _ _ _ _ Hc) as [_ Ho]. cbn zeta in Ho.
  apply (chain_pair key_less (layout 0) (layout_wider derive_key key_less 0)) in Hc as (k & _ & _ & _ & _ & _ & Hjoin & _).
  unfold remove_key. replace (length l `min` (length pk - 1))%nat with (length l) by lia. by apply Hjoin.
Qed.

Section merge_left.
Context (i j : Z) (va vb : list bytes).
Abbreviation tr := (plug fs0 (Inner p pk (l ++ [Leaf j vb; Leaf i va] ++ r))).
Abbreviation trg := (plug fs0 (Inner p pk (l ++ [ghost j] ++ Leaf i (vb ++ va) :: r))).

Lemma merge_left_cursors anc cs pos G n t id (Q : unit -> T -> Prop) :
  st anc cs G n t -> uniform (S d) tr -> NoDup (ids tr) -> zlen va + zlen vb < 2 ^ 32 -> zlen l < 2 ^ 31 ->
  rel (zone_rel fs0 p tr id) cs pos ->
  (forall cs' t', rel (zone_rel fs0 p trg id) cs' pos -> cs'.*1 = cs.*1 -> st anc cs' G n t' -> Q tt t') ->
  wp (for_cursors (fun _ => merge_left_cursor i j (zlen vb))) t Q.
Proof.
  intros Hst Hu Hnd Hvl Hl Hrel HQ. destruct (leaves_distinct _ _ _ _ Hnd) as (_ & _ & Hij).
  eapply (zone_cursors_spec cfg bs fs0 p pk _ l _ [ghost j; Leaf i (vb ++ va)] r); [exact Hst|exact Hu|exact Hnd|lia| |exact Hrel| | | |exact HQ].
  - cbn. by rewrite !app_nil_r.
  - intros _ c Hc. unfold merge_left_cursor. by rewrite Hc.
  - intros _ ps leaf k deleted t' _ Hleaf _ _ Hst'. rewrite slide_same by done. unfold merge_left_cursor. cbn [c_invalid m_leaf].
    cbn in Hleaf. rewrite !not_elem_of_cons in Hleaf. destruct (Z.eqb_spec leaf i), (Z.eqb_spec leaf j); try tauto. by wp_step.
  - intros _ y m ps leaf pre vals post k deleted t' Hy Hp Hk _ Hst'.
    destruct (leaves_path _ _ _ _ _ _ _ _ _ _ _ Hy Hp) as (-> & -> & -> & [(-> & -> & ->)|(-> & -> & ->)]);
      unfold merge_left_cursor; cbn [c_invalid m_leaf m_index].
    + destruct (Z.eqb_spec j i); [done|]. rewrite Z.eqb_refl. wp_step. apply back_entry_zone. wp_step. split; [|done].
      exists 1%nat, (Leaf i (vb ++ va)), [], i, [], (vb ++ va), [], k. split_and!; [done|constructor| |done|].
      * unfold index_ok in *. rewrite length_app. destruct deleted; lia.
      * cbn [fst snd]. rewrite set_back_zone, wrap_small by (split; lia). unfold set_position. cbn. do 4 f_equal. lia.
    + rewrite Z.eqb_refl. wp_step. split; [|done].
      exists 1%nat, (Leaf i (vb ++ va)), [], i, [], (vb ++ va), [], (length vb + k)%nat.
      assert (k <= length va)%nat by (destruct deleted; cbn in Hk; lia). split_and!; [done|constructor| |cbn; rewrite app_nil_r; lia|].
      * unfold index_ok in *. rewrite length_app. destruct deleted; lia.
      * unfold set_index, set_position. cbn [m_parents m_leaf c_invalid c_deleted c_inprogress].
        rewrite wrap_small by (split; lia). by replace (Z.of_nat k + zlen vb) with (Z.of_nat (length vb + k)) by lia.
Qed.

Lemma merge_left_leaf_spec anc cs pos G n t id h :
  st anc cs G n t -> weak_rep anc G h tr -> rel (zone_rel fs0 p tr id) cs pos -> zlen va + zlen vb <= cap ->
  wp (merge_leaf derive_key p i (zlen l + 1) j (zlen l) ;;; free_leaf j) t (fun _ =>
    detached (joined i j anc) cs pos G n h tr pk l j (Leaf i (vb ++ va) :: r) id).
Proof.
  intros Hst Hrep Hrel Hcap. pose proof Hrep as [Rs Rst Rnd _ _ _ Rl Rri Rle Rin _].
  destruct (leaves_distinct _ _ _ _ Rnd) as (Hpj & Hpi & Hij). destruct (leaves_stored _ _ _ _ _ Rst) as (Hp & Hj & Hi).
  destruct (holds_inner _ _ _ _ _ _ Hp) as (Hlk & Hlc & Hm). rewrite length_map, !length_app in Hlk, Hlc. cbn [length] in Hlk, Hlc.
  destruct (holds_leaf _ _ _ _ _ Hj) as (_ & _ & Hc32).
  destruct (stored_bounds cfg bs Hcfg _ _ _ _ _ _ Hst Rst Rnd) as [_ Hl64]. rewrite <- Rle in Hl64.
  pose proof (leaf_ids_nodup _ Rnd) as Hnl. rewrite zone_leaf_ids in Hnl, Rri. cbn [map concat leaf_ids app] in Hnl, Rri.
  assert (h = S d) as Hh.
  { destruct (layout_plug _ _ _ _ _ _ _ Rs) as (h' & -> & HP & _). destruct h' as [|h']; [done|]. apply leaf_pair_chain in HP as [-> _]. lia. }
  wp_step. unfold merge_leaf. wp_step. apply (child_count_spec _ _ _ _ _ _ _ _ _ _ _ Hst Hp). intros t1 Hst1. wp_step.
  apply (leaf_size_spec _ _ _ _ _ _ _ _ _ _ Hst1 Hi). intros t2 Hst2. wp_step.
  apply (leaf_size_spec _ _ _ _ _ _ _ _ _ _ Hst2 Hj). intros t3 Hst3. wp_step.
  replace (zlen l + 1) with (Z.of_nat (S (length l))) by lia.
  apply (check_neighbors_spec cfg bs _ _ _ _ _ _ _ _ _ _ _ _ _ Hst3 Hp (pair_snd _ _ _ _) (pair_fst _ _ _ _)); [by right|]. intros t4 Hst4.
  rewrite !(wrap_small 32 (Z.of_nat (S (length l)) + 1)), !(wrap_small 32 (Z.of_nat (S (length l)) - 1)) by (split; lia).
  destruct (Z.eqb_spec (zlen l) (Z.of_nat (S (length l)) + 1)); [lia|]. rewrite andb_false_r.
  rewrite (proj2 (Z.ltb_lt _ _)), (proj2 (Z.eqb_eq _ _)) by lia. cbn [andb]. wp_step.
  apply (tree_leaf_prepend_spec cfg bs _ _ _ _ _ _ _ _ _ _ Hst4 Hi Hj Hcap). intros b1 t5 Hb1 Hst5. wp_step.
  apply (get_anchor_spec _ _ _ _ _ _ _ _ Hst5). wp_step. apply (set_if_spec _ _ _ _ _ _ _ _ Hst5). intros t6 Hst6.
  eapply merge_left_cursors; [exact Hst6| |done|lia|lia|exact Hrel|].
  { intros ps leaf pre vals post. rewrite <- Hh. by eapply layout_depth. }
  intros cs' t8 Hrel' Hks Hst8. set (G2 := <[i := b1]> G) in *.
  assert (forall k, k <> p -> k <> j -> k <> i -> delete j G2 !! k = G !! k) as HGd.
  { intros k H1' H2' H3'. unfold G2. by rewrite lookup_delete_ne, lookup_insert_ne by done. }
  assert (forall k x, k <> j -> holds G2 k x -> holds (delete j G2) k x) as Hdel.
  { intros k x Hk (b & Hb & Hok). exists b. by rewrite lookup_delete_ne. }
  destruct (join_ids j i i j vb va (vb ++ va) (remove_key (length l) pk) _ _ _ Hrep) as [Hgh Hln]; [by right|].
  pose proof (last_not_first _ _ _ _ _ Hnl Rri) as Hrm.
  apply (free_leaf_spec derive_key key_less cfg bs Hcfg supports1 derive_length _ _ _ _ _ j (LeafBody vb) _ Hst8); [by apply holds_ne|destruct (leftmost anc =? j); cbn; lia|]. intros t9 Hst9.
  exists cs', (delete j G2). split_and!; [| |exact Hrel'|done|].
  - replace (joined i j anc) with (more_leaves (-1) (if leftmost anc =? j then
      Anchor (size anc) (leaf_nodes anc) (internal_nodes anc) (height anc) (root anc) i (rightmost anc) else anc)); [exact Hst9|].
    unfold more_leaves, joined. destruct (Z.eqb_spec (rightmost anc) j); [done|].
    destruct (leftmost anc =? j); cbn; by rewrite wrap_small by (split; lia).
  - split.
    + apply Hdel; [done|]. apply holds_ne; [done|]. by rewrite !map_app in *.
    + intros b Hb. eapply (join_rep j i i j vb va); [exact Hrep|by right|by apply Hdel, holds_eq|exact HGd|apply join_chain|exact Hb].
    + exact Hgh.
  - eapply (ghost_keeps j i); [done|by right|exact HGd].
Qed.
End merge_left.

(** *** The removal of an empty leaf at the edge *)

Section edge.
Context (i j : Z) (vb : list bytes).

Lemma leave_cursor_out ps leaf (k : Z) (deleted : bool) x y t (Q : cursor -> T -> Prop) : leaf <> i ->
  Q (Cursor ps leaf k false deleted false) t -> wp (leave_leaf_cursor i j x y (Cursor ps leaf k false deleted false)) t Q.
Proof. intros Hne HQ. unfold leave_leaf_cursor. cbn [c_invalid m_leaf orb]. destruct (Z.eqb_spec leaf i); [done|]. cbn [negb]. by wp_step. Qed.

Lemma leave_left_spec anc cs pos G n t id h :
  let tr := plug fs0 (Inner p pk (l ++ [Leaf i []; Leaf j vb] ++ r)) in
  st anc cs G n t -> weak_rep anc G h tr -> rel (zone_rel fs0 p tr id) cs pos -> leftmost anc = i ->
  wp (for_cursors (fun _ => leave_leaf_cursor i j 0 (u32 (zlen l + 1))) ;;; set_leftmost j ;;; free_leaf i) t (fun _ =>
    detached (joined j i anc) cs pos G n h tr pk l i (Leaf j vb :: r) id).
Proof.
  intros tr Hst Hrep Hrel Hlm. pose proof Hrep as [Rs Rst Rnd _ _ _ Rl Rri Rle Rin _].
  destruct (leaves_distinct _ _ _ _ Rnd) as (Hpi & Hpj & Hij). destruct (leaves_stored _ _ _ _ _ Rst) as (Hp & Hi & Hj).
  destruct (holds_inner _ _ _ _ _ _ Hp) as (Hlk & Hlc & Hm). rewrite length_map, !length_app in Hlk, Hlc. cbn [length] in Hlk, Hlc.
  destruct (stored_bounds cfg bs Hcfg _ _ _ _ _ _ Hst Rst Rnd) as [_ Hl64]. rewrite <- Rle in Hl64.
  pose proof (leaf_ids_nodup _ Rnd) as Hnl. unfold tr in Hnl, Rri. rewrite zone_leaf_ids in Hnl, Rri. cbn [map concat leaf_ids app] in Hnl, Rri.
  pose proof (last_not_first _ _ _ _ _ Hnl Rri) as Hrm.
  destruct (join_ids i j j i [] vb vb (remove_key (length l) pk) _ _ _ Hrep) as [Hgh Hln]; [by right|].
  assert (h = S d) as Hh.
  { destruct (layout_plug _ _ _ _ _ _ _ Rs) as (h' & -> & HP & _). destruct h' as [|h']; [done|]. apply leaf_pair_chain in HP as [-> _]. lia. }
  wp_step. eapply (zone_cursors_spec cfg bs fs0 p pk pk l _ [ghost i; Leaf j vb] r _ _ _ _ _ _ id h); [exact Hst| |done|lia|done|exact Hrel| | | |].
  { intros ps leaf pre vals post. by eapply layout_depth. }
  { intros _ c Hc. unfold leave_leaf_cursor. by rewrite Hc. }
  { intros _ ps leaf k deleted t' _ Hleaf _ _ Hst'. rewrite slide_same by done. cbn in Hleaf. rewrite !not_elem_of_cons in Hleaf. apply leave_cursor_out; [tauto|done]. }
  { intros _ y m ps leaf pre vals post k deleted t' Hy Hp' Hk _ Hst'.
    destruct (leaves_path _ _ _ _ _ _ _ _ _ _ _ Hy Hp') as (-> & -> & -> & [(-> & -> & ->)|(-> & -> & ->)]).
    - unfold leave_leaf_cursor. cbn [c_invalid m_leaf orb]. rewrite Z.eqb_refl. cbn [negb]. wp_step. apply back_entry_zone. wp_step. split; [|done].
      assert (k = 0%nat) as -> by (unfold index_ok in Hk; cbn in Hk; destruct deleted; lia).
      exists 1%nat, (Leaf j vb), [], j, [], vb, [], 0%nat. split_and!; [done|constructor| |done|].
      + unfold index_ok in *. cbn in Hk. destruct deleted; lia.
      + cbn [fst snd]. rewrite set_back_zone, wrap_small by (split; lia). done.
    - apply leave_cursor_out; [done|]. split; [|done]. exists 1%nat, (Leaf j vb), [], j, [], vb, [], k. by split_and!; [|constructor|..]. }
  intros cs' t1 Hrel' Hks Hst1. wp_step. apply (mod_anchor_spec _ _ _ _ _ _ _ _ _ Hst1). intros t2 Hst2.
  apply (free_leaf_spec derive_key key_less cfg bs Hcfg supports1 derive_length _ _ _ _ _ i (LeafBody []) _ Hst2 Hi); [cbn; lia|]. intros t3 Hst3.
  assert (forall k, k <> p -> k <> i -> k <> j -> delete i G !! k = G !! k) as HGd by (intros k H1' H2' H3'; by rewrite lookup_delete_ne).
  assert (forall k x, k <> i -> holds G k x -> holds (delete i G) k x) as Hdel.
  { intros k x Hk (b & Hb & Hok). exists b. by rewrite lookup_delete_ne. }
  exists cs', (delete i G). split_and!; [| |exact Hrel'|done|].
  - replace (joined j i anc) with (more_leaves (-1) (Anchor (size anc) (leaf_nodes anc) (internal_nodes anc) (height anc) (root anc) j (rightmost anc))); [exact Hst3|].
    unfold more_leaves, joined. rewrite Hlm, Z.eqb_refl. destruct (Z.eqb_spec (rightmost anc) i); [done|]. cbn. by rewrite wrap_small by (split; lia).
  - split.
    + apply Hdel; [done|]. by rewrite !map_app in *.
    + intros b Hb. eapply (join_rep i j j i [] vb); [exact Hrep|by right|by apply Hdel|exact HGd|apply join_chain|exact Hb].
    + exact Hgh.
  - eapply (ghost_keeps i j); [done|by right|exact HGd].
Qed.

Lemma leave_right_spec anc cs pos G n t id h :
  let tr := plug fs0 (Inner p pk (l ++ [Leaf j vb; Leaf i []] ++ r)) in
  st anc cs G n t -> weak_rep anc G h tr -> rel (zone_rel fs0 p tr id) cs pos -> rightmost anc = i -> r = [] ->
  wp (for_cursors (fun _ => leave_leaf_cursor i j (zlen vb) (u32 (zlen l + 1 - 1))) ;;; set_rightmost j ;;; free_leaf i) t (fun _ =>
    detached (joined j i anc) cs pos G n h tr pk (l ++ [Leaf j vb]) i r id).
Proof.
  intros tr Hst Hrep Hrel Hrm Hr. pose proof Hrep as [Rs Rst Rnd _ _ _ Rl Rri Rle Rin _].
  destruct (leaves_distinct _ _ _ _ Rnd) as (Hpj & Hpi & Hij). destruct (leaves_stored _ _ _ _ _ Rst) as (Hp & Hj & Hi).
  destruct (holds_inner _ _ _ _ _ _ Hp) as (Hlk & Hlc & Hm). rewrite length_map, !length_app in Hlk, Hlc. cbn [length] in Hlk, Hlc.
  destruct (stored_bounds cfg bs Hcfg _ _ _ _ _ _ Hst Rst Rnd) as [_ Hl64]. rewrite <- Rle in Hl64.
  pose proof (leaf_ids_nodup _ Rnd) as Hnl. unfold tr in Hnl, Rl. rewrite zone_leaf_ids in Hnl, Rl. cbn [map concat leaf_ids app] in Hnl, Rl.
  pose proof (head_not_second _ _ _ _ _ Hnl Rl) as Hlm.
  destruct (join_ids j i j i vb [] (vb ++ []) (remove_key (length l) pk) _ _ _ Hrep) as [Hgh Hln]; [by left|].
  assert (h = S d) as Hh.
  { destruct (layout_plug _ _ _ _ _ _ _ Rs) as (h' & -> & HP & _). destruct h' as [|h']; [done|]. apply leaf_pair_chain in HP as [-> _]. lia. }
  assert (remove_key (length (l ++ [Leaf j vb])) pk = remove_key (length l) pk) as Hrk.
  { unfold remove_key. rewrite length_app, Hlk, Hr. cbn [length]. f_equal. lia. }
  assert (forall m, (l ++ [Leaf j vb]) ++ m ++ r = l ++ [Leaf j vb] ++ m ++ r) as Hass by (intros m; by rewrite <- app_assoc).
  wp_step. eapply (zone_cursors_spec cfg bs fs0 p pk pk l _ [Leaf j vb; ghost i] r _ _ _ _ _ _ id h); [exact Hst| |done|lia|done|exact Hrel| | | |].
  { intros ps leaf pre vals post. by eapply layout_depth. }
  { intros _ c Hc. unfold leave_leaf_cursor. by rewrite Hc. }
  { intros _ ps leaf k deleted t' _ Hleaf _ _ Hst'. rewrite slide_same by done. cbn in Hleaf. rewrite !not_elem_of_cons in Hleaf. apply leave_cursor_out; [tauto|done]. }
  { intros _ y m ps leaf pre vals post k deleted t' Hy Hp' Hk _ Hst'.
    destruct (leaves_path _ _ _ _ _ _ _ _ _ _ _ Hy Hp') as (-> & -> & -> & [(-> & -> & ->)|(-> & -> & ->)]).
    - apply leave_cursor_out; [done|]. split; [|done]. exists 0%nat, (Leaf j vb), [], j, [], vb, [], k. by split_and!; [|constructor|..].
    - unfold leave_leaf_cursor. cbn [c_invalid m_leaf orb]. rewrite Z.eqb_refl. cbn [negb]. wp_step. apply back_entry_zone. wp_step. split; [|done].
      assert (k = 0%nat) as -> by (unfold index_ok in Hk; cbn in Hk; destruct deleted; lia).
      exists 0%nat, (Leaf j vb), [], j, [], vb, [], (length vb). split_and!; [done|constructor| |cbn; rewrite app_nil_r; lia|].
      + unfold index_ok in *. cbn in Hk. destruct deleted; lia.
      + cbn [fst snd]. rewrite set_back_zone, wrap_small by (split; lia). unfold set_position. cbn. do 4 f_equal. lia. }
  intros cs' t1 Hrel' Hks Hst1. wp_step. apply (mod_anchor_spec _ _ _ _ _ _ _ _ _ Hst1). intros t2 Hst2.
  apply (free_leaf_spec derive_key key_less cfg bs Hcfg supports1 derive_length _ _ _ _ _ i (LeafBody []) _ Hst2 Hi); [cbn; lia|]. intros t3 Hst3.
  assert (forall k, k <> p -> k <> j -> k <> i -> delete i G !! k = G !! k) as HGd by (intros k H1' H2' H3'; by rewrite lookup_delete_ne).
  assert (forall k x, k <> i -> holds G k x -> holds (delete i G) k x) as Hdel.
  { intros k x Hk (b & Hb & Hok). exists b. by rewrite lookup_delete_ne. }
  exists cs', (delete i G). split_and!; [| |by rewrite Hass|done|].
  - replace (joined j i anc) with (more_leaves (-1) (Anchor (size anc) (leaf_nodes anc) (internal_nodes anc) (height anc) (root anc) (leftmost anc) j)); [exact Hst3|].
    unfold more_leaves, joined. rewrite Hrm, Z.eqb_refl. destruct (Z.eqb_spec (leftmost anc) i); [done|]. cbn. by rewrite wrap_small by (split; lia).
  - rewrite app_nil_r in Hgh. split.
    + apply Hdel; [done|]. rewrite Hass. by rewrite !map_app in *.
    + rewrite Hrk, Hass. intros b Hb. rewrite <- (app_nil_r vb) in Hb |- *.
      eapply (join_rep j i j i vb []); [exact Hrep|by left|apply Hdel; [done|by rewrite app_nil_r]|exact HGd|apply join_chain|exact Hb].
    + by rewrite Hrk, Hass.
  - eapply (ghost_keeps j i); [done|by left|exact HGd].
Qed.
End edge.

End parent.
End leaf_balance.
End btree_leaf_balance.
