(* ===== verification/BTreeInnerBalance.v ===== *)
(** * Neighbouring internal nodes of B+ trees

    An internal node that became too small takes a child from a neighbour or
    is merged with it. *)

From Stdlib Require Import Strings.Byte Sorting.Sorted.
From S2P Require Import Prelude MathOps Serialization Blocks EngineSpec FreeList Allocator Extent BTreeNodes BTree BTreeShape BTreeStore BTreeSearch BTreePaths BTreeSplit BTreeCursors BTreeInsert BTreeLeafInsert BTreeRemove BTreeZone BTreeRebalance BTreeLeafBalance.

Module btree_inner_balance.
Import btree btree_shape btree_store btree_search btree_paths btree_split btree_cursors btree_insert btree_leaf_insert btree_remove btree_zone btree_rebalance btree_leaf_balance.

Section inner_balance.
Context {A : Type} `{AllocatorSpec A}.
Context (derive_key : bytes -> bytes) (key_less : bytes -> bytes -> bool) `{KeyOrder key_less}.
Context (cfg : config) (bs : Z) (Hcfg : config_ok cfg bs) (supports1 : al_supports 1).
Context (derive_length : forall v, zlen v = value_size cfg -> zlen (derive_key v) = key_size cfg).
Abbreviation T := (tree A).
Abbreviation st := (st cfg bs).
Abbreviation holds := (holds cfg bs).
Abbreviation stored := (stored cfg bs).
Abbreviation body_ok := (body_ok cfg bs).
Abbreviation layout := (layout derive_key key_less).
Abbreviation weak_rep := (weak_rep derive_key key_less cfg bs).
Abbreviation rebalanced := (rebalanced derive_key key_less cfg bs).
Abbreviation mc := (internal_max_children cfg).
Implicit Types (anc : anchor) (cs : list (nat * cursor)) (pos : list (nat * position)) (G : gmap Z bytes).
Implicit Types (n : Z) (t : T) (key : bytes) (id : nat).

Section parent.
Context (fs0 : list frame) (p : Z) (pk : list bytes) (l r : list node).
Abbreviation d := (length fs0).
Abbreviation detached := (detached derive_key key_less cfg bs fs0 p).

(** *** Entries of two levels *)

Section entries.
Context (e1 e2 : Z * Z) (ps : list (Z * Z)) (leaf k : Z) (inv deleted prog : bool).
Abbreviation c := (Cursor (entries fs0 ++ e1 :: e2 :: ps) leaf k inv deleted prog).

Lemma lookup_child : (entries fs0 ++ e1 :: e2 :: ps) !! S d = Some e2.
Proof.
  rewrite <- (length_entries fs0). replace (S (length (entries fs0))) with (length (entries fs0 ++ [e1])) by (rewrite length_app; cbn; lia).
  replace (entries fs0 ++ e1 :: e2 :: ps) with ((entries fs0 ++ [e1]) ++ e2 :: ps) by by rewrite <- app_assoc. by apply list_lookup_middle.
Qed.
Lemma entry_parent t (Q : Z * Z -> T -> Prop) : Q e1 t -> wp (entry_at (Z.of_nat (S d) - 1) c) t Q.
Proof.
  intros HQ. unfold entry_at. cbn [m_parents]. replace (Z.to_nat (Z.of_nat (S d) - 1)) with d by lia. rewrite lookup_zone. by wp_step.
Qed.
Lemma entry_child t (Q : Z * Z -> T -> Prop) : Q e2 t -> wp (entry_at (Z.of_nat (S d)) c) t Q.
Proof. intros HQ. unfold entry_at. cbn [m_parents]. rewrite Nat2Z.id, lookup_child. by wp_step. Qed.
Lemma set_child_entry e : set_entry (Z.of_nat (S d)) e c = Cursor (entries fs0 ++ e1 :: e :: ps) leaf k inv deleted prog.
Proof.
  unfold set_entry, set_parents. cbn [m_parents m_leaf m_index c_invalid c_deleted c_inprogress]. rewrite Nat2Z.id. f_equal.
  rewrite <- (length_entries fs0). replace (S (length (entries fs0))) with (length (entries fs0) + 1)%nat by lia. by rewrite insert_app_r.
Qed.
End entries.
Lemma set_parent_entry e1 e2 ps leaf k (inv deleted prog : bool) e :
  set_entry (Z.of_nat (S d) - 1) e (Cursor (entries fs0 ++ e1 :: e2 :: ps) leaf k inv deleted prog) =
  Cursor (entries fs0 ++ e :: e2 :: ps) leaf k inv deleted prog.
Proof.
  unfold set_entry, set_parents. cbn [m_parents m_leaf m_index c_invalid c_deleted c_inprogress].
  replace (Z.to_nat (Z.of_nat (S d) - 1)) with d by lia. f_equal. apply insert_zone.
Qed.

(** A cursor that does not pass the neighbours. *)
Lemma entries_out h ps leaf k (deleted : bool) (ids : list Z) : length ps = h -> (S d < h)%nat ->
  (forall e, e ∈ drop (S d) ps -> e.1 ∉ ids) -> exists e1 e2, ps !! d = Some e1 /\ ps !! S d = Some e2 /\ e2.1 ∉ ids /\
    forall t (Q : Z * Z -> T -> Prop),
      (Q e1 t -> wp (entry_at (Z.of_nat (S d) - 1) (Cursor ps leaf k false deleted false)) t Q) /\
      (Q e2 t -> wp (entry_at (Z.of_nat (S d)) (Cursor ps leaf k false deleted false)) t Q).
Proof.
  intros Hlen Hh Hids. destruct (ps !! d) as [e1|] eqn:E1; [|apply lookup_ge_None in E1; lia].
  destruct (ps !! S d) as [e2|] eqn:E2; [|apply lookup_ge_None in E2; lia]. exists e1, e2. split_and!; [done..| |].
  - apply Hids. apply list_elem_of_lookup. exists 0%nat. by rewrite lookup_drop, Nat.add_0_r.
  - intros t Q. unfold entry_at. cbn [m_parents]. rewrite Nat2Z.id, E2. replace (Z.to_nat (Z.of_nat (S d) - 1)) with d by lia. rewrite E1.
    split; intros HQ; by wp_step.
Qed.

Lemma inner_path i ka ca ps leaf pre vals post : at_path (Inner i ka ca) ps leaf pre vals post ->
  exists la c ra ps' pre' post', ca = la ++ c :: ra /\ ps = (i, zlen la) :: ps' /\ at_path c ps' leaf pre' vals post' /\
    pre = all_contents la ++ pre' /\ post = post' ++ all_contents ra.
Proof.
  intros Hp. apply at_path_sub in Hp. apply at_sub_inner in Hp as (la & c & ra & ps' & pre' & post' & H1' & H2' & H3' & H4' & H5').
  - exists la, c, ra, ps', pre', post'. split_and!; try done. by apply at_path_sub.
  - intros ->. by inversion Hp.
Qed.

(** *** The blocks of two internal nodes and their parent *)

Section nodes.
Context (i j : Z) (ka kb : list bytes) (ca cb : list node).
Abbreviation tr := (plug fs0 (Inner p pk (l ++ [Inner i ka ca; Inner j kb cb] ++ r))).

Lemma nodes_blocks : all_blocks [Inner i ka ca; Inner j kb cb] ≡ₚ
  (i, InnerBody ka (map node_id ca)) :: (j, InnerBody kb (map node_id cb)) :: all_blocks (ca ++ cb).
Proof.
  rewrite !all_blocks_cons, !blocks_of_inner. cbn [app all_blocks map concat]. rewrite app_nil_r. apply perm_skip.
  rewrite <- Permutation_middle. apply perm_skip. by rewrite <- all_blocks_app.
Qed.
Lemma nodes_nodup : NoDup (ids tr) -> NoDup (p :: i :: j :: (all_blocks (ca ++ cb)).*1).
Proof.
  intros Hnd. unfold ids in Hnd. rewrite zone_blocks, nodes_blocks in Hnd. cbn [fmap list_fmap fst app] in Hnd. rewrite fmap_app in Hnd.
  rewrite !app_comm_cons in Hnd. by apply NoDup_app in Hnd as (Hnd & _).
Qed.
Lemma nodes_stored G : stored G (blocks_of tr) ->
  holds G p (InnerBody pk (map node_id (l ++ [Inner i ka ca; Inner j kb cb] ++ r))) /\ holds G i (InnerBody ka (map node_id ca)) /\
  holds G j (InnerBody kb (map node_id cb)) /\ stored G (all_blocks (ca ++ cb)).
Proof.
  intros Hs. apply (stored_perm _ _ _ _ _ (zone_blocks fs0 p l r pk [Inner i ka ca; Inner j kb cb])) in Hs.
  apply Forall_cons in Hs as [H1' Hs]. apply stored_app in Hs as [Hs _]. apply (stored_perm _ _ _ _ _ nodes_blocks) in Hs.
  apply Forall_cons in Hs as [H2' Hs]. by apply Forall_cons in Hs as [H3' Hs].
Qed.
Lemma node_pair_chain (h' : nat) lo keys hi : chain key_less (layout h') lo keys (l ++ [Inner i ka ca; Inner j kb cb] ++ r) hi ->
  exists h'' k, h' = S h'' /\ keys !! length l = Some k /\ length ca = S (length ka) /\ length cb = S (length kb) /\
  chain key_less (layout h'') (lo_at lo keys (length l)) (ka ++ k :: kb) (ca ++ cb) (hi_at keys hi (S (length l))).
Proof.
  intros Hc. apply (chain_pair key_less (layout h') (layout_wider derive_key key_less h')) in Hc as (k & Hk & Hin & Ha & Hb & _).
  destruct h' as [|h'']; [done|]. cbn [btree_zone.layout] in *. exists h'', k.
  pose proof (chain_length _ _ _ _ _ _ Ha) as La. pose proof (chain_length _ _ _ _ _ _ Hb) as Lb. split_and!; try done.
  by apply (chain_app derive_key key_less).
Qed.
End nodes.

(** The children of two nodes are distributed in another way. *)
Lemma recut_inner_rep i j ka kb ca cb ka' kb' ca' cb' k k' anc G h b1 b2 b3 :
  let tr := plug fs0 (Inner p pk (l ++ [Inner i ka ca; Inner j kb cb] ++ r)) in
  let tr' := plug fs0 (Inner p (<[length l := k']> pk) (l ++ [Inner i ka' ca'; Inner j kb' cb'] ++ r)) in
  weak_rep anc G h tr -> pk !! length l = Some k -> ka' ++ k' :: kb' = ka ++ k :: kb -> ca' ++ cb' = ca ++ cb -> length ca' = S (length ka') ->
  body_ok b1 (InnerBody ka' (map node_id ca')) -> body_ok b2 (InnerBody kb' (map node_id cb')) ->
  body_ok b3 (InnerBody (<[length l := k']> pk) (map node_id (l ++ [Inner i ka ca; Inner j kb cb] ++ r))) ->
  let G' := <[p := b3]> (<[j := b2]> (<[i := b1]> G)) in
  weak_rep anc G' h tr' /\ keeps G (ids tr) G' (ids tr').
Proof.
  intros tr tr' Hrep Hk Hkeys Hch Hlen H1' H2' H3' G'. pose proof Hrep as [Rs Rst Rnd _ _ _ Rl Rri Rle Rin _].
  pose proof (nodes_nodup _ _ _ _ _ _ Rnd) as Hnd. apply NoDup_cons in Hnd as [Hp Hnd]. apply NoDup_cons in Hnd as [Hi Hnd]. apply NoDup_cons in Hnd as [Hj Hnd].
  apply not_elem_of_cons in Hp as [Hpi Hp]. apply not_elem_of_cons in Hp as [Hpj Hp]. apply not_elem_of_cons in Hi as [Hij Hi].
  destruct (nodes_stored _ _ _ _ _ _ _ Rst) as (_ & _ & _ & Hs).
  assert (concat (map leaf_ids ca') ++ concat (map leaf_ids cb') = concat (map leaf_ids ca) ++ concat (map leaf_ids cb)) as Hl2
    by (rewrite <- !concat_app, <- !map_app; by rewrite Hch).
  assert (leaf_ids tr' = leaf_ids tr) as Hli.
  { unfold tr, tr'. rewrite !zone_leaf_ids. cbn [map concat leaf_ids]. rewrite !app_nil_r. by rewrite Hl2. }
  apply (zone_rep derive_key key_less cfg bs fs0 p pk (<[length l := k']> pk) l [Inner i ka ca; Inner j kb cb] [Inner i ka' ca'; Inner j kb' cb'] r
    anc anc G G' h Hrep); try done; fold tr'; rewrite ?Hli; try done.
  - intros h' lo hi Hc. destruct (node_pair_chain _ _ _ _ _ _ _ _ _ _ Hc) as (h'' & k0 & -> & Hk0 & La & Lb & Ho). assert (k0 = k) as -> by congruence.
    apply (chain_pair key_less (layout (S h'')) (layout_wider derive_key key_less (S h''))) in Hc as (k1 & _ & _ & _ & _ & Hset & _).
    rewrite <- Hkeys, <- Hch in Ho. apply (chain_app derive_key key_less) in Ho as (Hin & Ho1 & Ho2); [|done]. by apply Hset.
  - rewrite !all_contents_cons, !contents_inner. cbn [all_contents map concat]. rewrite !app_nil_r, <- !all_contents_app. by rewrite Hch.
  - rewrite nodes_blocks, Hch. cbn [fmap list_fmap fst]. by repeat (apply NoDup_cons; split; rewrite ?not_elem_of_cons).
  - intros x. rewrite !nodes_blocks, Hch. done.
  - apply holds_eq. by rewrite !map_app in *.
  - eapply stored_perm; [symmetry; apply nodes_blocks|]. rewrite Hch. repeat apply Forall_cons_2; cbn [fst snd].
    + apply holds_ne; [done|]. apply holds_ne; [done|]. by apply holds_eq.
    + apply holds_ne; [done|]. by apply holds_eq.
    + by apply stored_insert, stored_insert, stored_insert.
  - intros x Hx Hxm. rewrite nodes_blocks in Hxm. cbn [fmap list_fmap fst] in Hxm. rewrite !not_elem_of_cons in Hxm. destruct Hxm as (? & ? & _).
    unfold G'. by rewrite !lookup_insert_ne by done.
  - rewrite !inner_counts_cons, !inner_count_inner.
    assert (inner_counts ca' + inner_counts cb' = inner_counts ca + inner_counts cb) by (rewrite <- !inner_counts_app; by rewrite Hch).
    rewrite Rin. replace (1 + inner_counts ca' + _ - _) with 0 by lia. rewrite Z.add_0_r. unfold wrap. by rewrite Z.mod_mod.
  - rewrite !inner_counts_cons, !inner_count_inner.
    assert (inner_counts ca' + inner_counts cb' = inner_counts ca + inner_counts cb) by (rewrite <- !inner_counts_app; by rewrite Hch). lia.
Qed.

(** One node instead of two. *)
Lemma join_inner_rep i j s g ka kb ca cb k pk' anc G G' h b :
  let tr := plug fs0 (Inner p pk (l ++ [Inner i ka ca; Inner j kb cb] ++ r)) in
  let tr' := plug fs0 (Inner p pk' (l ++ [Inner s (ka ++ k :: kb) (ca ++ cb)] ++ r)) in
  weak_rep anc G h tr -> pk !! length l = Some k -> pk' = delete (length l) pk -> (s = i /\ g = j) \/ (s = j /\ g = i) ->
  holds G' s (InnerBody (ka ++ k :: kb) (map node_id (ca ++ cb))) ->
  (forall k, k <> p -> k <> i -> k <> j -> G' !! k = G !! k) ->
  body_ok b (InnerBody pk' (map node_id (l ++ [Inner s (ka ++ k :: kb) (ca ++ cb)] ++ r))) ->
  weak_rep (more_inner (-1) anc) (<[p := b]> G') h tr'.
Proof.
  intros tr tr' Hrep Hk Hpk' Hsg Hs HG Hb. pose proof Hrep as [Rs Rst Rnd _ _ _ Rl Rri Rle Rin _].
  pose proof (nodes_nodup _ _ _ _ _ _ Rnd) as Hnd. apply NoDup_cons in Hnd as [Hp Hnd]. apply NoDup_cons in Hnd as [Hi Hnd]. apply NoDup_cons in Hnd as [Hj Hnd].
  apply not_elem_of_cons in Hp as [Hpi Hp]. apply not_elem_of_cons in Hp as [Hpj Hp]. apply not_elem_of_cons in Hi as [Hij Hi].
  destruct (nodes_stored _ _ _ _ _ _ _ Rst) as (_ & _ & _ & Hss).
  assert (p <> s /\ s ∉ (all_blocks (ca ++ cb)).*1) as [Hps Hsn] by (destruct Hsg as [[-> _]|[-> _]]; done).
  assert (leaf_ids tr' = leaf_ids tr) as Hli.
  { unfold tr, tr'. rewrite !zone_leaf_ids. cbn [map concat leaf_ids]. by rewrite !app_nil_r, map_app, concat_app. }
  assert (all_blocks [Inner s (ka ++ k :: kb) (ca ++ cb)] = (s, InnerBody (ka ++ k :: kb) (map node_id (ca ++ cb))) :: all_blocks (ca ++ cb)) as Hbl
    by (rewrite all_blocks_cons, blocks_of_inner; cbn; by rewrite app_nil_r).
  apply (zone_rep derive_key key_less cfg bs fs0 p pk pk' l [Inner i ka ca; Inner j kb cb] [Inner s (ka ++ k :: kb) (ca ++ cb)] r
    anc (more_inner (-1) anc) G (<[p := b]> G') h Hrep); fold tr'; rewrite ?Hli, ?Hbl; cbn [more_inner height root size leftmost rightmost leaf_nodes internal_nodes]; try done.
  - intros h' lo hi Hc. destruct (node_pair_chain _ _ _ _ _ _ _ _ _ _ Hc) as (h'' & k0 & -> & Hk0 & La & Lb & Ho). assert (k0 = k) as -> by congruence.
    apply (chain_pair key_less (layout (S h'')) (layout_wider derive_key key_less (S h''))) in Hc as (k1 & _ & _ & _ & _ & _ & Hjoin & _).
    rewrite Hpk'. by apply Hjoin.
  - rewrite !all_contents_cons, !contents_inner. cbn [all_contents map concat]. by rewrite !app_nil_r, all_contents_app.
  - cbn [fmap list_fmap fst]. by apply NoDup_cons.
  - intros x. rewrite nodes_blocks. cbn [fmap list_fmap fst]. rewrite !elem_of_cons. destruct Hsg as [[-> _]|[-> _]]; tauto.
  - by apply holds_eq.
  - apply Forall_cons_2; [by apply holds_ne|]. apply stored_insert; [done|]. apply Forall_forall. intros e He.
    pose proof (proj1 (Forall_forall _ _) Hss _ He) as (c & Hc & Hok). exists c. split; [|done].
    assert (e.1 ∈ (all_blocks (ca ++ cb)).*1) as Hin by (apply list_elem_of_fmap; by exists e).
    rewrite HG; [done|..]; intros Heq; rewrite Heq in Hin; done.
  - intros x Hx Hxm. rewrite nodes_blocks in Hxm. cbn [fmap list_fmap fst] in Hxm. rewrite !not_elem_of_cons in Hxm. destruct Hxm as (? & ? & _).
    rewrite lookup_insert_ne by done. by apply HG.
  - rewrite !inner_counts_cons, !inner_count_inner, inner_counts_app. cbn [inner_counts all_blocks map concat length]. do 2 f_equal. lia.
  - rewrite !inner_counts_cons, !inner_count_inner, inner_counts_app. lia.
Qed.
Lemma join_inner_ids i j s g ka kb ca cb k pk' anc G h :
  weak_rep anc G h (plug fs0 (Inner p pk (l ++ [Inner i ka ca; Inner j kb cb] ++ r))) -> (s = i /\ g = j) \/ (s = j /\ g = i) ->
  g ∉ ids (plug fs0 (Inner p pk' (l ++ [Inner s (ka ++ k :: kb) (ca ++ cb)] ++ r))) /\ 0 < internal_nodes anc.
Proof.
  intros [_ _ Rnd _ _ _ _ _ _ Rin Rc] Hsg. split.
  - unfold ids in *. rewrite zone_blocks in Rnd |- *. rewrite nodes_blocks in Rnd. rewrite all_blocks_cons, blocks_of_inner. cbn [fmap list_fmap fst app] in Rnd |- *.
    cbn [all_blocks map concat]. rewrite app_nil_r.
    apply NoDup_cons in Rnd as [Hp Rnd]. apply NoDup_cons in Rnd as [Hi Rnd]. apply NoDup_cons in Rnd as [Hj _]. rewrite !not_elem_of_cons in *.
    destruct Hp as (? & ? & ?), Hi as (? & ?), Hsg as [[-> ->]|[-> ->]]; split_and!; congruence || done.
  - assert (0 < inner_count (plug fs0 (Inner p pk (l ++ [Inner i ka ca; Inner j kb cb] ++ r)))) as Hpos.
    { pose proof (zone_inner_count fs0 p l r pk [Inner i ka ca; Inner j kb cb] [] []) as Hc. rewrite !inner_counts_cons, !inner_count_inner in Hc.
      pose proof (inner_count_nonneg (plug fs0 (Inner p [] (l ++ [] ++ r)))). pose proof (inner_counts_nonneg ca). pose proof (inner_counts_nonneg cb).
      change (inner_counts []) with 0 in Hc. lia. }
    rewrite Rin, wrap_small by (split; lia). done.
Qed.

(** The height of the parent. *)
Lemma node_pair_height i j ka kb ca cb h anc G :
  weak_rep anc G h (plug fs0 (Inner p pk (l ++ [Inner i ka ca; Inner j kb cb] ++ r))) ->
  (S d < h)%nat /\ (exists k, pk !! length l = Some k) /\ length ca = S (length ka) /\ length cb = S (length kb).
Proof.
  intros Hrep. destruct (layout_plug _ _ _ _ _ _ _ (wr_layout _ _ _ _ _ _ _ _ Hrep)) as (h' & -> & HP & _). destruct h' as [|h']; [done|].
  cbn [btree_zone.layout] in HP. apply node_pair_chain in HP as (h'' & k & -> & Hk & La & Lb & _). split_and!; [lia|by exists k|done|done].
Qed.
Lemma weak_uniform anc G h tr : weak_rep anc G h tr -> uniform h tr.
Proof. intros Hrep ps leaf pre vals post. eapply layout_depth. apply Hrep. Qed.

(** The elements of a path through one of the nodes. *)
Lemma nodes_path i j ka kb ca cb (y : nat) m ps leaf pre vals post :
  [Inner i ka ca; Inner j kb cb] !! y = Some m -> at_path m ps leaf pre vals post ->
  exists la c ra ps' pre' post', at_path c ps' leaf pre' vals post' /\ pre = all_contents la ++ pre' /\ post = post' ++ all_contents ra /\
    ((y = 0%nat /\ ps = (i, zlen la) :: ps' /\ ca = la ++ c :: ra) \/ (y = 1%nat /\ ps = (j, zlen la) :: ps' /\ cb = la ++ c :: ra)).
Proof.
  destruct y as [|[|y]]; intros [= <-] Hp; apply inner_path in Hp as (la & c & ra & ps' & pre' & post' & H1' & H2' & H3' & H4' & H5');
    exists la, c, ra, ps', pre', post'; split_and!; try done; [by left|by right].
Qed.

(** *** A child from the right neighbour *)

Section steal_right.
Context (i j : Z) (ka kb : list bytes) (ca cb : list node) (k k0 : bytes) (c0 : node).
Abbreviation tr := (plug fs0 (Inner p pk (l ++ [Inner i ka ca; Inner j (k0 :: kb) (c0 :: cb)] ++ r))).
Abbreviation tr' := (plug fs0 (Inner p (<[length l := k0]> pk) (l ++ [Inner i (ka ++ [k]) (ca ++ [c0]); Inner j kb cb] ++ r))).

Lemma steal_right_entry_cursors anc cs pos G n t id h (Q : unit -> T -> Prop) :
  st anc cs G n t -> uniform h tr -> NoDup (ids tr) -> (S d < h)%nat -> zlen ca < 2 ^ 31 -> zlen l < 2 ^ 31 -> zlen cb < 2 ^ 31 ->
  rel (zone_rel fs0 p tr id) cs pos ->
  (forall cs' t', rel (zone_rel fs0 p tr' id) cs' pos -> cs'.*1 = cs.*1 -> st anc cs' G n t' -> Q tt t') ->
  wp (for_cursors (fun _ => steal_right_entry_cursor (S d) i (zlen ca) j)) t Q.
Proof.
  intros Hst Hu Hnd Hh Hca Hl Hcb Hrel HQ. pose proof (nodes_nodup _ _ _ _ _ _ Hnd) as Hnd'.
  apply NoDup_cons in Hnd' as [_ Hnd']. apply NoDup_cons in Hnd' as [Hij _]. apply not_elem_of_cons in Hij as [Hij _].
  eapply (zone_cursors_spec cfg bs fs0 p pk _ l _ [Inner i (ka ++ [k]) (ca ++ [c0]); Inner j kb cb] r); [exact Hst|exact Hu|exact Hnd|lia| |exact Hrel| | | |exact HQ].
  - rewrite !all_contents_cons, !contents_inner, all_contents_app, !all_contents_cons. cbn [all_contents map concat]. by rewrite !app_nil_r, <- !app_assoc.
  - intros _ c Hc. unfold steal_right_entry_cursor. by rewrite Hc.
  - intros _ ps leaf x deleted t' Hlen Hleaf Hdrop _ Hst'. rewrite slide_same by done.
    destruct (entries_out h ps leaf (Z.of_nat x) deleted _ Hlen Hh Hdrop) as (e1 & e2 & E1 & E2 & Hne & Hwp).
    unfold steal_right_entry_cursor. cbn [c_invalid]. wp_step. apply (Hwp t'). wp_step. apply (Hwp t').
    rewrite nodes_blocks in Hne. cbn [fmap list_fmap fst] in Hne. rewrite !not_elem_of_cons in Hne. destruct (Z.eqb_spec e2.1 j); [tauto|]. cbn [negb]. by wp_step.
  - intros _ y m ps leaf pre vals post x deleted t' Hy Hp Hx _ Hst'. unfold steal_right_entry_cursor. cbn [c_invalid].
    destruct (nodes_path _ _ _ _ _ _ _ _ _ _ _ _ _ Hy Hp) as (la & c & ra & ps' & pre' & post' & Hc & -> & -> & [(-> & -> & Hca')|(-> & -> & Hcb')]).
    + wp_step. apply entry_parent. wp_step. apply entry_child. cbn [fst]. destruct (Z.eqb_spec i j); [done|]. cbn [negb]. wp_step. split; [|done].
      exists 0%nat, (Inner i (ka ++ [k]) (ca ++ [c0])), ((i, zlen la) :: ps'), leaf, (all_contents la ++ pre'), vals, (post' ++ all_contents (ra ++ [c0])), x.
      split_and!; try done. rewrite Hca', <- app_assoc. by apply at_inner.
    + wp_step. apply entry_parent. wp_step. apply entry_child. cbn [fst snd]. rewrite Z.eqb_refl. cbn [negb]. destruct la as [|c1 la]; cbn [app] in Hcb'.
      * injection Hcb' as <- <-. change (zlen [] =? 0) with true. cbn iota. wp_step. split; [|done].
        exists 0%nat, (Inner i (ka ++ [k]) (ca ++ [c0])), ((i, zlen ca) :: ps'), leaf, (all_contents ca ++ pre'), vals, (post' ++ all_contents []), x.
        split_and!; try done; [by apply at_inner| |].
        -- cbn [take]. rewrite !all_contents_cons, !contents_inner, !length_app. change (all_contents []) with (@nil bytes). cbn [length]. lia.
        -- rewrite set_child_entry, set_parent_entry, wrap_small by (split; lia). do 4 f_equal. lia.
      * injection Hcb' as <- ->. destruct (Z.eqb_spec (zlen (c0 :: la)) 0); [cbn [length] in *; lia|]. wp_step. split; [|done].
        rewrite length_app in Hcb. cbn [length] in Hcb.
        exists 1%nat, (Inner j kb (la ++ c :: ra)), ((j, zlen la) :: ps'), leaf, (all_contents la ++ pre'), vals, (post' ++ all_contents ra), x.
        split_and!; try done; [by apply at_inner| |].
        -- cbn [take]. rewrite !all_contents_cons, !contents_inner, !all_contents_app, !all_contents_cons, !length_app. change (all_contents []) with (@nil bytes). cbn [length]. lia.
        -- rewrite set_child_entry. cbn [length]. rewrite wrap_small by (split; lia). do 5 f_equal. lia.
Qed.

Lemma steal_right_inner_spec anc cs pos G n t id h :
  st anc cs G n t -> weak_rep anc G h tr -> rel (zone_rel fs0 p tr id) cs pos -> pk !! length l = Some k -> zlen ca < mc ->
  internal_node.min_children mc < zlen (c0 :: cb) ->
  wp (steal_internal_entry p (S d) i (zlen l) j (zlen l + 1)) t (fun _ => rebalanced anc cs pos G n h tr tr' (zone_rel fs0 p tr' id)).
Proof.
  intros Hst Hrep Hrel Hk Hca Hmin. pose proof Hrep as [Rs Rst Rnd _ _ _ Rl Rri Rle Rin _].
  destruct (node_pair_height _ _ _ _ _ _ _ _ _ Hrep) as (Hh & _ & La & Lb). cbn [length] in Lb.
  destruct (nodes_stored _ _ _ _ _ _ _ Rst) as (Hp & Hi & Hj & Hs). pose proof (nodes_nodup _ _ _ _ _ _ Rnd) as Hnd.
  apply NoDup_cons in Hnd as [Hpn Hnd]. apply NoDup_cons in Hnd as [Hin _]. rewrite !not_elem_of_cons in Hpn. destruct Hpn as (Hpi & Hpj & _).
  apply not_elem_of_cons in Hin as [Hij _].
  destruct (holds_inner _ _ _ _ _ _ Hp) as (Hlk & Hlc & Hm). rewrite length_map, !length_app in Hlk, Hlc. cbn [length] in Hlk, Hlc.
  destruct (holds_inner _ _ _ _ _ _ Hj) as (_ & Hlj & _). rewrite length_map in Hlj. cbn [length] in Hlj, Hmin.
  assert (is_u64 (node_id c0)) as Hu64.
  { apply (st_index _ _ _ _ _ _ _ _ Hst). assert (node_id c0 ∈ (all_blocks (ca ++ c0 :: cb)).*1) as Hin0
      by (rewrite ids_child; apply elem_of_app; right; apply elem_of_app; left; apply node_id_in).
    apply list_elem_of_fmap in Hin0 as (e & -> & He). eapply holds_dom. by apply (proj1 (Forall_forall _ _) Hs). }
  unfold steal_internal_entry. wp_step. apply (child_count_spec _ _ _ _ _ _ _ _ _ _ _ Hst Hp). intros t1 Hst1. wp_step.
  apply (child_count_spec _ _ _ _ _ _ _ _ _ _ _ Hst1 Hi). intros t2 Hst2. wp_step.
  apply (child_count_spec _ _ _ _ _ _ _ _ _ _ _ Hst2 Hj). intros t3 Hst3. rewrite !length_map, !length_app. cbn [length]. wp_step. wp_step. wp_step.
  replace (zlen l + 1) with (Z.of_nat (S (length l))) by lia.
  apply (check_neighbors_spec cfg bs _ _ _ _ _ _ _ _ _ _ _ _ _ Hst3 Hp (pair_fst _ _ _ _) (pair_snd _ _ _ _)); [by left|]. intros t4 Hst4. wp_step.
  unfold min_children. wp_step. apply (get_config_spec _ _ _ _ _ _ _ _ Hst4). wp_step. wp_step. wp_step; [by apply Z.ltb_lt|].
  rewrite !wrap_small by (split; lia). rewrite (proj2 (Z.ltb_lt _ _)), (proj2 (Z.eqb_eq _ _)) by lia. cbn [andb]. wp_step.
  apply (get_key_spec _ _ _ _ _ _ _ _ _ _ (length l) k _ Hst4 Hp Hk). intros t5 Hst5. wp_step.
  apply (get_child_spec _ _ _ _ _ _ _ _ _ _ 0 (node_id c0) _ Hst5 Hj eq_refl). intros t6 Hst6. wp_step.
  apply (append_entry_spec cfg bs _ _ _ _ _ _ _ _ _ _ _ Hst6 Hi); [rewrite length_map; lia|by rewrite length_map|exact (rep_key_length _ _ _ _ _ _ _ _ Hp Hk)|done|].
  intros b1 t7 Hb1 Hst7. wp_step.
  eapply (get_key_spec _ _ _ _ _ _ _ _ (k0 :: kb) _ 0 k0 _ Hst7); [apply holds_ne; [done|exact Hj]|done|]. intros t8 Hst8. wp_step.
  apply (set_key_spec cfg bs _ _ _ _ _ _ pk (map node_id (l ++ [Inner i ka ca; Inner j (k0 :: kb) (c0 :: cb)] ++ r)) (length l) _ _ Hst8);
    [by apply holds_ne|lia|exact (rep_key_length _ _ _ _ _ 0 _ _ Hj eq_refl)|].
  intros b3 t9 Hb3 Hst9. wp_step.
  apply (remove_child_spec cfg bs _ _ _ _ _ _ (k0 :: kb) (map node_id (c0 :: cb)) 0 _ Hst9); [by apply holds_ne, holds_ne|cbn; lia|cbn; rewrite length_map; lia|].
  intros b2 t10 Hb2 Hst10. cbn [map delete list_delete] in Hb2. change (remove_key 0 (k0 :: kb)) with kb in Hb2.
  eapply steal_right_entry_cursors; [exact Hst10|by eapply weak_uniform|done|done|lia|lia|lia|exact Hrel|].
  intros cs' t11 Hrel' Hks Hst11. rewrite (insert_insert_ne _ j p) in Hst11 by done. exists cs', (<[p := b3]> (<[j := b2]> (<[i := b1]> G))).
  destruct (recut_inner_rep i j ka (k0 :: kb) ca (c0 :: cb) (ka ++ [k]) kb (ca ++ [c0]) cb k k0 anc G h b1 b2 b3) as [Hrep' Hkp]; try done.
  - by rewrite <- app_assoc.
  - by rewrite <- app_assoc.
  - rewrite !length_app. cbn. lia.
  - by rewrite map_app.
Qed.
End steal_right.

(** *** A child from the left neighbour *)

Lemma snoc_cases {X} (la ra cb : list X) c cz : cb ++ [cz] = la ++ c :: ra ->
  (la = cb /\ c = cz /\ ra = []) \/ exists ra', ra = ra' ++ [cz] /\ cb = la ++ c :: ra'.
Proof.
  intros Heq. destruct (mid_cases _ _ _ _ _ _ Heq) as [(-> & -> & ->)|[(m & -> & ->)|(m & -> & Hm)]]; [by left| |by destruct m].
  right. by exists m.
Qed.

Section steal_left.
Context (i j : Z) (ka kb : list bytes) (ca cb : list node) (k kz : bytes) (cz : node).
Abbreviation tr := (plug fs0 (Inner p pk (l ++ [Inner j (kb ++ [kz]) (cb ++ [cz]); Inner i ka ca] ++ r))).
Abbreviation tr' := (plug fs0 (Inner p (<[length l := kz]> pk) (l ++ [Inner j kb cb; Inner i (k :: ka) (cz :: ca)] ++ r))).

Lemma steal_left_entry_cursors anc cs pos G n t id h (Q : unit -> T -> Prop) :
  st anc cs G n t -> uniform h tr -> NoDup (ids tr) -> (S d < h)%nat -> zlen ca < 2 ^ 31 -> zlen l < 2 ^ 31 -> zlen cb < 2 ^ 31 ->
  rel (zone_rel fs0 p tr id) cs pos ->
  (forall cs' t', rel (zone_rel fs0 p tr' id) cs' pos -> cs'.*1 = cs.*1 -> st anc cs' G n t' -> Q tt t') ->
  wp (for_cursors (fun _ => steal_left_entry_cursor (S d) i j (Z.of_nat (length cb + 1)))) t Q.
Proof.
  intros Hst Hu Hnd Hh Hca Hl Hcb Hrel HQ. pose proof (nodes_nodup _ _ _ _ _ _ Hnd) as Hnd'.
  apply NoDup_cons in Hnd' as [_ Hnd']. apply NoDup_cons in Hnd' as [Hij _]. apply not_elem_of_cons in Hij as [Hij _].
  eapply (zone_cursors_spec cfg bs fs0 p pk _ l _ [Inner j kb cb; Inner i (k :: ka) (cz :: ca)] r); [exact Hst|exact Hu|exact Hnd|lia| |exact Hrel| | | |exact HQ].
  - rewrite !all_contents_cons, !contents_inner, all_contents_app, !all_contents_cons. cbn [all_contents map concat]. by rewrite !app_nil_r, <- !app_assoc.
  - intros _ c Hc. unfold steal_left_entry_cursor. by rewrite Hc.
  - intros _ ps leaf x deleted t' Hlen Hleaf Hdrop _ Hst'. rewrite slide_same by done.
    destruct (entries_out h ps leaf (Z.of_nat x) deleted _ Hlen Hh Hdrop) as (e1 & e2 & E1 & E2 & Hne & Hwp).
    unfold steal_left_entry_cursor. cbn [c_invalid]. wp_step. apply (Hwp t'). wp_step. apply (Hwp t').
    rewrite nodes_blocks in Hne. cbn [fmap list_fmap fst] in Hne. rewrite !not_elem_of_cons in Hne.
    destruct (Z.eqb_spec e2.1 i), (Z.eqb_spec e2.1 j); try tauto. by wp_step.
  - intros _ y m ps leaf pre vals post x deleted t' Hy Hp Hx _ Hst'. unfold steal_left_entry_cursor. cbn [c_invalid].
    rewrite !(wrap_small 32 (Z.of_nat (length cb + 1) - 1)) by (split; lia).
    destruct (nodes_path _ _ _ _ _ _ _ _ _ _ _ _ _ Hy Hp) as (la & c & ra & ps' & pre' & post' & Hc & -> & -> & [(-> & -> & Hca')|(-> & -> & Hcb')]).
    + wp_step. apply entry_parent. wp_step. apply entry_child. cbn [fst snd]. destruct (Z.eqb_spec j i); [done|]. rewrite Z.eqb_refl.
      destruct (snoc_cases _ _ _ _ _ Hca') as [(-> & -> & ->)|(ra' & -> & ->)].
      * destruct (Z.leb_spec (Z.of_nat (length cb + 1) - 1) (zlen cb)); [|lia]. wp_step. split; [|done].
        exists 1%nat, (Inner i (k :: ka) (cz :: ca)), ((i, zlen (@nil node)) :: ps'), leaf, (all_contents [] ++ pre'), vals, (post' ++ all_contents ca), x.
        split_and!; try done; [by apply (at_inner i (k :: ka) [] cz ca)| |].
        -- cbn [take]. rewrite !all_contents_cons, !contents_inner, !length_app. change (all_contents []) with (@nil bytes). cbn [length]. lia.
        -- rewrite set_child_entry, set_parent_entry, !wrap_small by (split; lia). cbn [length]. do 4 f_equal; [f_equal; lia|]. do 2 f_equal. lia.
      * rewrite length_app in Hcb |- *. cbn [length] in Hcb |- *. destruct (Z.leb_spec (Z.of_nat (length la + S (length ra') + 1) - 1) (zlen la)); [lia|]. wp_step. split; [|done].
        exists 0%nat, (Inner j kb (la ++ c :: ra')), ((j, zlen la) :: ps'), leaf, (all_contents la ++ pre'), vals, (post' ++ all_contents ra'), x.
        split_and!; try done. by apply at_inner.
    + wp_step. apply entry_parent. wp_step. apply entry_child. cbn [fst snd]. rewrite Z.eqb_refl. wp_step. split; [|done].
      rewrite Hcb', length_app in Hca. cbn [length] in Hca.
      exists 1%nat, (Inner i (k :: ka) (cz :: ca)), ((i, zlen (cz :: la)) :: ps'), leaf, (all_contents (cz :: la) ++ pre'), vals, (post' ++ all_contents ra), x.
      split_and!; try done; [rewrite Hcb'; by apply (at_inner i (k :: ka) (cz :: la) c ra)| |].
      * cbn [take]. rewrite !all_contents_cons, !contents_inner, !all_contents_app, !all_contents_cons, !length_app. change (all_contents []) with (@nil bytes). cbn [length]. lia.
      * rewrite set_child_entry. cbn [length]. rewrite wrap_small by (split; lia). do 5 f_equal. lia.
Qed.

Lemma steal_left_inner_spec anc cs pos G n t id h :
  st anc cs G n t -> weak_rep anc G h tr -> rel (zone_rel fs0 p tr id) cs pos -> pk !! length l = Some k -> zlen ca < mc ->
  internal_node.min_children mc < zlen (cb ++ [cz]) ->
  wp (steal_internal_entry p (S d) i (zlen l + 1) j (zlen l)) t (fun _ => rebalanced anc cs pos G n h tr tr' (zone_rel fs0 p tr' id)).
Proof.
  intros Hst Hrep Hrel Hk Hca Hmin. pose proof Hrep as [Rs Rst Rnd _ _ _ Rl Rri Rle Rin _].
  destruct (node_pair_height _ _ _ _ _ _ _ _ _ Hrep) as (Hh & _ & Lb & La). rewrite !length_app in Lb. cbn [length] in Lb.
  destruct (nodes_stored _ _ _ _ _ _ _ Rst) as (Hp & Hj & Hi & Hs). pose proof (nodes_nodup _ _ _ _ _ _ Rnd) as Hnd.
  apply NoDup_cons in Hnd as [Hpn Hnd]. apply NoDup_cons in Hnd as [Hin _]. rewrite !not_elem_of_cons in Hpn. destruct Hpn as (Hpj & Hpi & _).
  apply not_elem_of_cons in Hin as [Hij _].
  destruct (holds_inner _ _ _ _ _ _ Hp) as (Hlk & Hlc & Hm). rewrite length_map, !length_app in Hlk, Hlc. cbn [length] in Hlk, Hlc.
  destruct (holds_inner _ _ _ _ _ _ Hj) as (_ & Hlj & _). rewrite length_map, length_app in Hlj. rewrite length_app in Hmin. cbn [length] in Hlj, Hmin.
  assert (is_u64 (node_id cz)) as Hu64.
  { apply (st_index _ _ _ _ _ _ _ _ Hst). assert (node_id cz ∈ (all_blocks ((cb ++ [cz]) ++ ca)).*1) as Hin0
      by (rewrite <- app_assoc; cbn [app]; rewrite ids_child; apply elem_of_app; right; apply elem_of_app; left; apply node_id_in).
    apply list_elem_of_fmap in Hin0 as (e & -> & He). eapply holds_dom. by apply (proj1 (Forall_forall _ _) Hs). }
  assert (0 <= internal_node.min_children mc) as Hmin0 by (pose proof (cf_mc _ _ Hcfg); apply Z.div_pos; lia).
  assert (1 <= length kb)%nat as Hkb.
  { pose proof (cf_mc _ _ Hcfg). assert (2 <= internal_node.min_children mc) by (apply Z.div_le_lower_bound; lia). lia. }
  unfold steal_internal_entry. wp_step. apply (child_count_spec _ _ _ _ _ _ _ _ _ _ _ Hst Hp). intros t1 Hst1. wp_step.
  apply (child_count_spec _ _ _ _ _ _ _ _ _ _ _ Hst1 Hi). intros t2 Hst2. wp_step.
  apply (child_count_spec _ _ _ _ _ _ _ _ _ _ _ Hst2 Hj). intros t3 Hst3. rewrite !length_map, !length_app. cbn [length]. wp_step. wp_step. wp_step.
  replace (zlen l + 1) with (Z.of_nat (S (length l))) by lia.
  apply (check_neighbors_spec cfg bs _ _ _ _ _ _ _ _ _ _ _ _ _ Hst3 Hp (pair_snd _ _ _ _) (pair_fst _ _ _ _)); [by right|]. intros t4 Hst4. wp_step.
  unfold min_children. wp_step. apply (get_config_spec _ _ _ _ _ _ _ _ Hst4). wp_step. wp_step. wp_step; [by apply Z.ltb_lt|].
  rewrite !(wrap_small 32) by (split; lia).
  destruct (Z.eqb_spec (zlen l) (Z.of_nat (S (length l)) + 1)); [lia|]. rewrite andb_false_r.
  rewrite (proj2 (Z.ltb_lt _ _)), (proj2 (Z.eqb_eq _ _)) by lia. cbn [andb]. wp_step.
  replace (Z.of_nat (length cb + 1) - 1) with (zlen cb) by lia. replace (Z.of_nat (length cb + 1) - 2) with (zlen kb) by lia.
  apply (get_key_spec _ _ _ _ _ _ _ _ _ _ (length l) k _ Hst4 Hp Hk). intros t5 Hst5. wp_step.
  apply (get_child_spec _ _ _ _ _ _ _ _ _ _ (length cb) (node_id cz) _ Hst5 Hj); [rewrite map_app, <- (length_map node_id cb); by apply list_lookup_middle|].
  intros t6 Hst6. wp_step.
  apply (prepend_entry_spec cfg bs _ _ _ _ _ _ _ _ _ _ _ Hst6 Hi); [rewrite length_map; lia|by rewrite length_map|exact (rep_key_length _ _ _ _ _ _ _ _ Hp Hk)|done|].
  intros b2 t7 Hb2 Hst7. wp_step.
  assert ((kb ++ [kz]) !! length kb = Some kz) as Hkz by by apply list_lookup_middle.
  eapply (get_key_spec _ _ _ _ _ _ _ _ (kb ++ [kz]) _ (length kb) kz _ Hst7); [apply holds_ne; [done|exact Hj]|done|]. intros t8 Hst8. wp_step.
  apply (set_key_spec cfg bs _ _ _ _ _ _ pk (map node_id (l ++ [Inner j (kb ++ [kz]) (cb ++ [cz]); Inner i ka ca] ++ r)) (length l) _ _ Hst8);
    [by apply holds_ne|lia|exact (rep_key_length _ _ _ _ _ _ _ _ Hj Hkz)|].
  intros b3 t9 Hb3 Hst9. wp_step.
  apply (remove_child_spec cfg bs _ _ _ _ _ _ (kb ++ [kz]) (map node_id (cb ++ [cz])) (length cb) _ Hst9);
    [by apply holds_ne, holds_ne|rewrite length_map, length_app; cbn; lia|rewrite length_map, length_app; cbn; lia|].
  intros b1 t10 Hb1 Hst10.
  assert (delete (length cb) (map node_id (cb ++ [cz])) = map node_id cb) as Hd1
    by (rewrite map_app, <- (length_map node_id cb); cbn [map]; rewrite delete_middle; by rewrite app_nil_r).
  assert (remove_key (length cb) (kb ++ [kz]) = kb) as Hd2.
  { unfold remove_key. rewrite length_app. cbn [length]. replace (length cb `min` (length kb + 1 - 1))%nat with (length kb) by lia. rewrite delete_middle. by rewrite app_nil_r. }
  rewrite Hd1, Hd2 in Hb1.
  eapply steal_left_entry_cursors; [exact Hst10|by eapply weak_uniform|done|done|lia|lia|lia|exact Hrel|].
  intros cs' t11 Hrel' Hks Hst11. rewrite (insert_insert_ne _ j p), (insert_insert_ne _ j i) in Hst11 by done. exists cs', (<[p := b3]> (<[i := b2]> (<[j := b1]> G))).
  destruct (recut_inner_rep j i (kb ++ [kz]) ka (cb ++ [cz]) ca kb (k :: ka) cb (cz :: ca) k kz anc G h b1 b2 b3) as [Hrep' Hkp]; try done.
  - by rewrite <- app_assoc.
  - by rewrite <- app_assoc.
  - lia.
Qed.
End steal_left.

(** *** Merge with the right neighbour *)

Lemma inner_ghost_keeps i j ka kb ca cb K pk' l' g r' G G' :
  let tr := plug fs0 (Inner p pk (l ++ [Inner i ka ca; Inner j kb cb] ++ r)) in
  (l' = l ++ [Inner i K (ca ++ cb)] /\ g = j /\ r' = r) \/ (l' = l /\ g = i /\ r' = Inner j K (ca ++ cb) :: r) ->
  (forall k, k <> p -> k <> i -> k <> j -> G' !! k = G !! k) ->
  keeps G (ids tr) G' (ids (plug fs0 (Inner p pk' (l' ++ [ghost g] ++ r')))).
Proof.
  intros tr Hsh HG k b Hk Hnk. unfold ids, tr in *. rewrite zone_blocks, nodes_blocks in Hnk. cbn [fmap list_fmap fst app] in Hnk. rewrite fmap_app in Hnk.
  rewrite !not_elem_of_cons, not_elem_of_app in Hnk. destruct Hnk as (H1' & H2' & H3' & H4' & H5'). split; [by rewrite HG|].
  rewrite zone_blocks. cbn. unfold zone_rest in *. rewrite !fmap_app, !not_elem_of_app in H5'. destruct H5' as (? & ? & ?).
  destruct Hsh as [(-> & -> & ->)|(-> & -> & ->)]; rewrite ?all_blocks_app, ?all_blocks_cons, ?blocks_of_inner, !fmap_app, !not_elem_of_cons, !not_elem_of_app;
    cbn [fmap list_fmap fst app]; rewrite ?not_elem_of_cons, ?fmap_app, ?not_elem_of_app; cbn [all_blocks map concat fmap list_fmap];
    rewrite all_blocks_app, fmap_app, not_elem_of_app in H4'; destruct H4' as [??];
    rewrite ?all_blocks_app, ?fmap_app, ?not_elem_of_app; split_and!; try done; apply not_elem_of_nil.
Qed.

Section merge_right.
Context (i j : Z) (ka kb : list bytes) (ca cb : list node) (k : bytes).
Abbreviation tr := (plug fs0 (Inner p pk (l ++ [Inner i ka ca; Inner j kb cb] ++ r))).
Abbreviation whole := (Inner i (ka ++ k :: kb) (ca ++ cb)).
Definition next_keys : list bytes := match pk !! S (length l) with Some k2 => <[length l := k2]> pk | None => pk end.
Abbreviation trg := (plug fs0 (Inner p next_keys ((l ++ [whole]) ++ [ghost j] ++ r))).

Lemma next_keys_remove : (length l < length pk)%nat -> remove_key (S (length l)) next_keys = delete (length l) pk.
Proof.
  intros Hlen. unfold remove_key, next_keys. destruct (pk !! S (length l)) as [k2|] eqn:E.
  - apply lookup_lt_Some in E as E'. rewrite length_insert. replace (S (length l) `min` (length pk - 1))%nat with (S (length l)) by lia.
    apply list_eq. intros x. rewrite !lookup_delete_at. destruct (decide (x < length l)%nat).
    + rewrite decide_True by lia. by rewrite list_lookup_insert_ne by lia.
    + destruct (decide (x < S (length l))%nat).
      * assert (x = length l) as -> by lia. rewrite list_lookup_insert_eq by lia. by rewrite E.
      * by rewrite list_lookup_insert_ne by lia.
  - apply lookup_ge_None in E. by replace (S (length l) `min` (length pk - 1))%nat with (length l) by lia.
Qed.

Lemma merge_right_entry_cursors anc cs pos G n t id h (Q : unit -> T -> Prop) :
  st anc cs G n t -> uniform h tr -> NoDup (ids tr) -> (S d < h)%nat -> zlen ca + zlen cb < 2 ^ 31 -> zlen l < 2 ^ 31 ->
  rel (zone_rel fs0 p tr id) cs pos ->
  (forall cs' t', rel (zone_rel fs0 p trg id) cs' pos -> cs'.*1 = cs.*1 -> st anc cs' G n t' -> Q tt t') ->
  wp (for_cursors (fun _ => merge_right_entry_cursor (S d) i (zlen ca) j)) t Q.
Proof.
  intros Hst Hu Hnd Hh Hca Hl Hrel HQ. pose proof (nodes_nodup _ _ _ _ _ _ Hnd) as Hnd'. rewrite <- app_assoc in HQ.
  apply NoDup_cons in Hnd' as [_ Hnd']. apply NoDup_cons in Hnd' as [Hij _]. apply not_elem_of_cons in Hij as [Hij _].
  eapply (zone_cursors_spec cfg bs fs0 p pk _ l _ [whole; ghost j] r); [exact Hst|exact Hu|exact Hnd|lia| |exact Hrel| | | |exact HQ].
  - rewrite !all_contents_cons, !contents_inner, all_contents_app. cbn [all_contents map concat]. by rewrite !app_nil_r.
  - intros _ c Hc. unfold merge_right_entry_cursor. by rewrite Hc.
  - intros _ ps leaf x deleted t' Hlen Hleaf Hdrop _ Hst'. rewrite slide_same by done.
    destruct (entries_out h ps leaf (Z.of_nat x) deleted _ Hlen Hh Hdrop) as (e1 & e2 & E1 & E2 & Hne & Hwp).
    unfold merge_right_entry_cursor. cbn [c_invalid]. wp_step. apply (Hwp t'). wp_step. apply (Hwp t').
    rewrite nodes_blocks in Hne. cbn [fmap list_fmap fst] in Hne. rewrite !not_elem_of_cons in Hne. destruct (Z.eqb_spec e2.1 j); [tauto|]. by wp_step.
  - intros _ y m ps leaf pre vals post x deleted t' Hy Hp Hx _ Hst'. unfold merge_right_entry_cursor. cbn [c_invalid].
    destruct (nodes_path _ _ _ _ _ _ _ _ _ _ _ _ _ Hy Hp) as (la & c & ra & ps' & pre' & post' & Hc & -> & -> & [(-> & -> & Hca')|(-> & -> & Hcb')]).
    + wp_step. apply entry_parent. wp_step. apply entry_child. cbn [fst]. destruct (Z.eqb_spec i j); [done|]. wp_step. split; [|done].
      exists 0%nat, whole, ((i, zlen la) :: ps'), leaf, (all_contents la ++ pre'), vals, (post' ++ all_contents (ra ++ cb)), x.
      split_and!; try done. rewrite Hca', <- app_assoc. by apply at_inner.
    + wp_step. apply entry_parent. wp_step. apply entry_child. cbn [fst snd]. rewrite Z.eqb_refl. wp_step. split; [|done].
      rewrite Hcb', length_app in Hca. cbn [length] in Hca.
      exists 0%nat, whole, ((i, zlen (ca ++ la)) :: ps'), leaf, (all_contents (ca ++ la) ++ pre'), vals, (post' ++ all_contents ra), x.
      split_and!; try done.
      * rewrite Hcb', app_assoc. by apply at_inner.
      * cbn [take]. rewrite !all_contents_cons, !contents_inner, !all_contents_app, !length_app. change (all_contents []) with (@nil bytes). cbn [length]. lia.
      * rewrite set_child_entry, set_parent_entry, !wrap_small by (split; lia). rewrite length_app. do 3 f_equal; [f_equal; lia|]. do 2 f_equal. lia.
Qed.

(** The separator of the neighbour becomes the separator of the node. *)
Lemma next_key_spec anc cs G n t children (Q : unit -> T -> Prop) :
  st anc cs G n t -> holds G p (InnerBody pk children) -> length children = (length l + (2 + length r))%nat ->
  (forall G' t', st anc cs G' n t' -> holds G' p (InnerBody next_keys children) -> (forall x, x <> p -> G' !! x = G !! x) -> Q tt t') ->
  wp (if negb (zlen l + 1 =? u32 (zlen children - 1)) then
       let* k := get_key p (zlen l + 1) in set_key p (zlen l) k
     else ret tt) t Q.
Proof.
  intros Hst Hp Hlen HQ. destruct (holds_inner _ _ _ _ _ _ Hp) as (Hlk & Hlc & Hm). rewrite Hlen, wrap_small by (split; lia).
  unfold next_keys in HQ. destruct (pk !! S (length l)) as [k2|] eqn:E.
  - apply lookup_lt_Some in E as E'. destruct (Z.eqb_spec (zlen l + 1) (Z.of_nat (length l + (2 + length r)) - 1)); [lia|]. cbn [negb]. wp_step.
    replace (zlen l + 1) with (Z.of_nat (S (length l))) by lia.
    apply (get_key_spec _ _ _ _ _ _ _ _ _ _ _ k2 _ Hst Hp E). intros t1 Hst1.
    apply (set_key_spec cfg bs _ _ _ _ _ _ _ _ (length l) _ _ Hst1 Hp); [lia|exact (rep_key_length _ _ _ _ _ _ _ _ Hp E)|].
    intros b t2 Hb Hst2. apply (HQ _ _ Hst2); [by apply holds_eq|]. intros x Hx. by rewrite lookup_insert_ne.
  - apply lookup_ge_None in E. destruct (Z.eqb_spec (zlen l + 1) (Z.of_nat (length l + (2 + length r)) - 1)); [|lia]. cbn [negb]. wp_step. by apply (HQ G).
Qed.

Lemma merge_right_inner_spec anc cs pos G n t id h :
  st anc cs G n t -> weak_rep anc G h tr -> rel (zone_rel fs0 p tr id) cs pos -> pk !! length l = Some k -> zlen ca + zlen cb <= mc ->
  wp (merge_internal p (S d) i (zlen l) j (zlen l + 1) ;;; free_internal j) t (fun _ =>
    detached (more_inner (-1) anc) cs pos G n h tr next_keys (l ++ [whole]) j r id).
Proof.
  intros Hst Hrep Hrel Hk Hcap. pose proof Hrep as [Rs Rst Rnd _ _ _ Rl Rri Rle Rin _].
  destruct (node_pair_height _ _ _ _ _ _ _ _ _ Hrep) as (Hh & _ & La & Lb).
  destruct (nodes_stored _ _ _ _ _ _ _ Rst) as (Hp & Hi & Hj & Hs). pose proof (nodes_nodup _ _ _ _ _ _ Rnd) as Hnd.
  apply NoDup_cons in Hnd as [Hpn Hnd]. apply NoDup_cons in Hnd as [Hin _]. rewrite !not_elem_of_cons in Hpn. destruct Hpn as (Hpi & Hpj & _).
  apply not_elem_of_cons in Hin as [Hij _].
  destruct (holds_inner _ _ _ _ _ _ Hp) as (Hlk & Hlc & Hm). rewrite length_map, !length_app in Hlk, Hlc. cbn [length] in Hlk, Hlc.
  wp_step. unfold merge_internal. wp_step. apply (child_count_spec _ _ _ _ _ _ _ _ _ _ _ Hst Hp). intros t1 Hst1. wp_step.
  apply (child_count_spec _ _ _ _ _ _ _ _ _ _ _ Hst1 Hi). intros t2 Hst2. wp_step.
  apply (child_count_spec _ _ _ _ _ _ _ _ _ _ _ Hst2 Hj). intros t3 Hst3. rewrite !(length_map node_id ca), !(length_map node_id cb). wp_step. wp_step. wp_step.
  replace (zlen l + 1) with (Z.of_nat (S (length l))) by lia.
  apply (check_neighbors_spec cfg bs _ _ _ _ _ _ _ _ _ _ _ _ _ Hst3 Hp (pair_fst _ _ _ _) (pair_snd _ _ _ _)); [by left|]. intros t4 Hst4.
  replace (Z.of_nat (S (length l))) with (zlen l + 1) by lia.
  assert ((zlen l <? u32 (zlen (map node_id (l ++ [Inner i ka ca; Inner j kb cb] ++ r)) - 1)) && (zlen l + 1 =? u32 (zlen l + 1)) = true) as ->.
  { rewrite length_map, !length_app. cbn [length]. rewrite !wrap_small by (split; lia). rewrite Z.eqb_refl, andb_true_r. apply Z.ltb_lt. lia. }
  wp_step. apply (get_key_spec _ _ _ _ _ _ _ _ _ _ (length l) k _ Hst4 Hp Hk). intros t5 Hst5. wp_step.
  apply (append_from_right_spec cfg bs _ _ _ _ _ _ _ _ _ _ _ _ _ Hst5 Hi Hj); [rewrite length_map; lia|rewrite length_map; lia|by rewrite !length_map|exact (rep_key_length _ _ _ _ _ _ _ _ Hp Hk)|].
  intros b1 t6 Hb1 Hst6. wp_step.
  apply (next_key_spec _ _ _ _ _ _ _ Hst6); [by apply holds_ne|rewrite length_map, !length_app; cbn; lia|]. intros G2 t7 Hst7 Hp2 HG2.
  eapply merge_right_entry_cursors; [exact Hst7|by eapply weak_uniform|done|done|lia|lia|exact Hrel|]. intros cs' t8 Hrel' Hks Hst8.
  assert (forall x, x <> p -> x <> i -> x <> j -> delete j G2 !! x = G !! x) as HGd.
  { intros x H1' H2' H3'. rewrite lookup_delete_ne, HG2, lookup_insert_ne by done. done. }
  assert (forall x y, x <> j -> holds G2 x y -> holds (delete j G2) x y) as Hdel.
  { intros x y Hx (b & Hb & Hok). exists b. by rewrite lookup_delete_ne. }
  assert (holds G2 i (InnerBody (ka ++ k :: kb) (map node_id (ca ++ cb)))) as Hi2.
  { exists b1. rewrite HG2, lookup_insert_eq by done. split; [done|]. by rewrite map_app. }
  assert (holds G2 j (InnerBody kb (map node_id cb))) as Hj2.
  { destruct Hj as (b & Hb & Hok). exists b. by rewrite HG2, lookup_insert_ne by done. }
  destruct (join_inner_ids i j i j ka kb ca cb k (remove_key (S (length l)) next_keys) _ _ _ Hrep) as [Hgh Hin]; [by left|].
  assert (length (l ++ [whole]) = S (length l)) as Hl1 by (rewrite length_app; cbn; lia).
  assert (forall m, (l ++ [whole]) ++ m ++ r = l ++ [whole] ++ m ++ r) as Hass by (intros m; by rewrite <- app_assoc).
  apply (free_internal_spec derive_key key_less cfg bs Hcfg supports1 derive_length _ _ _ _ _ _ _ _ Hst8 Hj2 Hin). intros t9 Hst9.
  exists cs', (delete j G2). split_and!; [exact Hst9| |exact Hrel'|done|].
  - split.
    + apply Hdel; [done|]. rewrite Hass. by rewrite !map_app in *.
    + rewrite Hl1, Hass. intros b Hb. eapply join_inner_rep; [exact Hrep|exact Hk| |by left|by apply Hdel|exact HGd|exact Hb]. apply next_keys_remove. lia.
    + by rewrite Hl1, Hass.
  - eapply inner_ghost_keeps; [by left|exact HGd].
Qed.
End merge_right.

(** *** Merge with the left neighbour *)

Section merge_left.
Context (i j : Z) (ka kb : list bytes) (ca cb : list node) (k : bytes).
Abbreviation tr := (plug fs0 (Inner p pk (l ++ [Inner j kb cb; Inner i ka ca] ++ r))).
Abbreviation whole := (Inner i (kb ++ k :: ka) (cb ++ ca)).
Abbreviation trg := (plug fs0 (Inner p pk (l ++ [ghost j] ++ whole :: r))).

Lemma merge_left_entry_cursors anc cs pos G n t id h (Q : unit -> T -> Prop) :
  st anc cs G n t -> uniform h tr -> NoDup (ids tr) -> (S d < h)%nat -> zlen ca + zlen cb < 2 ^ 31 -> zlen l < 2 ^ 31 ->
  rel (zone_rel fs0 p tr id) cs pos ->
  (forall cs' t', rel (zone_rel fs0 p trg id) cs' pos -> cs'.*1 = cs.*1 -> st anc cs' G n t' -> Q tt t') ->
  wp (for_cursors (fun _ => merge_left_entry_cursor (S d) i j (zlen cb))) t Q.
Proof.
  intros Hst Hu Hnd Hh Hca Hl Hrel HQ. pose proof (nodes_nodup _ _ _ _ _ _ Hnd) as Hnd'.
  apply NoDup_cons in Hnd' as [_ Hnd']. apply NoDup_cons in Hnd' as [Hij _]. apply not_elem_of_cons in Hij as [Hij _].
  eapply (zone_cursors_spec cfg bs fs0 p pk _ l _ [ghost j; whole] r); [exact Hst|exact Hu|exact Hnd|lia| |exact Hrel| | | |exact HQ].
  - rewrite !all_contents_cons, !contents_inner, all_contents_app. cbn [all_contents map concat]. by rewrite !app_nil_r.
  - intros _ c Hc. unfold merge_left_entry_cursor. by rewrite Hc.
  - intros _ ps leaf x deleted t' Hlen Hleaf Hdrop _ Hst'. rewrite slide_same by done.
    destruct (entries_out h ps leaf (Z.of_nat x) deleted _ Hlen Hh Hdrop) as (e1 & e2 & E1 & E2 & Hne & Hwp).
    unfold merge_left_entry_cursor. cbn [c_invalid]. wp_step. apply (Hwp t'). wp_step. apply (Hwp t').
    rewrite nodes_blocks in Hne. cbn [fmap list_fmap fst] in Hne. rewrite !not_elem_of_cons in Hne.
    destruct (Z.eqb_spec e2.1 i), (Z.eqb_spec e2.1 j); try tauto. by wp_step.
  - intros _ y m ps leaf pre vals post x deleted t' Hy Hp Hx _ Hst'. unfold merge_left_entry_cursor. cbn [c_invalid].
    destruct (nodes_path _ _ _ _ _ _ _ _ _ _ _ _ _ Hy Hp) as (la & c & ra & ps' & pre' & post' & Hc & -> & -> & [(-> & -> & Hcb')|(-> & -> & Hca')]).
    + wp_step. apply entry_parent. wp_step. apply entry_child. cbn [fst snd]. rewrite Z.eqb_refl. wp_step. split; [|done].
      exists 1%nat, whole, ((i, zlen la) :: ps'), leaf, (all_contents la ++ pre'), vals, (post' ++ all_contents (ra ++ ca)), x.
      split_and!; try done.
      * rewrite Hcb', <- app_assoc. by apply at_inner.
      * rewrite set_child_entry, set_parent_entry, wrap_small by (split; lia). do 4 f_equal. lia.
    + wp_step. apply entry_parent. wp_step. apply entry_child. cbn [fst snd]. destruct (Z.eqb_spec i j); [done|]. rewrite Z.eqb_refl. wp_step. split; [|done].
      rewrite Hca', length_app in Hca. cbn [length] in Hca.
      exists 1%nat, whole, ((i, zlen (cb ++ la)) :: ps'), leaf, (all_contents (cb ++ la) ++ pre'), vals, (post' ++ all_contents ra), x.
      split_and!; try done.
      * rewrite Hca', app_assoc. by apply at_inner.
      * cbn [take]. unfold ghost. rewrite !all_contents_cons, !contents_inner, !all_contents_app, !length_app. change (all_contents []) with (@nil bytes). cbn [length]. lia.
      * rewrite set_child_entry, wrap_small by (split; lia). rewrite length_app. do 5 f_equal. lia.
Qed.

Lemma merge_left_inner_spec anc cs pos G n t id h :
  st anc cs G n t -> weak_rep anc G h tr -> rel (zone_rel fs0 p tr id) cs pos -> pk !! length l = Some k -> zlen ca + zlen cb <= mc ->
  wp (merge_internal p (S d) i (zlen l + 1) j (zlen l) ;;; free_internal j) t (fun _ =>
    detached (more_inner (-1) anc) cs pos G n h tr pk l j (whole :: r) id).
Proof.
  intros Hst Hrep Hrel Hk Hcap. pose proof Hrep as [Rs Rst Rnd _ _ _ Rl Rri Rle Rin _].
  destruct (node_pair_height _ _ _ _ _ _ _ _ _ Hrep) as (Hh & _ & Lb & La).
  destruct (nodes_stored _ _ _ _ _ _ _ Rst) as (Hp & Hj & Hi & Hs). pose proof (nodes_nodup _ _ _ _ _ _ Rnd) as Hnd.
  apply NoDup_cons in Hnd as [Hpn Hnd]. apply NoDup_cons in Hnd as [Hin _]. rewrite !not_elem_of_cons in Hpn. destruct Hpn as (Hpj & Hpi & _).
  apply not_elem_of_cons in Hin as [Hij _].
  destruct (holds_inner _ _ _ _ _ _ Hp) as (Hlk & Hlc & Hm). rewrite length_map, !length_app in Hlk, Hlc. cbn [length] in Hlk, Hlc.
  wp_step. unfold merge_internal. wp_step. apply (child_count_spec _ _ _ _ _ _ _ _ _ _ _ Hst Hp). intros t1 Hst1. wp_step.
  apply (child_count_spec _ _ _ _ _ _ _ _ _ _ _ Hst1 Hi). intros t2 Hst2. wp_step.
  apply (child_count_spec _ _ _ _ _ _ _ _ _ _ _ Hst2 Hj). intros t3 Hst3. rewrite !length_map, !length_app. cbn [length]. wp_step. wp_step. wp_step.
  replace (zlen l + 1) with (Z.of_nat (S (length l))) by lia.
  apply (check_neighbors_spec cfg bs _ _ _ _ _ _ _ _ _ _ _ _ _ Hst3 Hp (pair_snd _ _ _ _) (pair_fst _ _ _ _)); [by right|]. intros t4 Hst4.
  rewrite !(wrap_small 32) by (split; lia).
  destruct (Z.eqb_spec (zlen l) (Z.of_nat (S (length l)) + 1)); [lia|]. rewrite andb_false_r.
  rewrite (proj2 (Z.ltb_lt _ _)), (proj2 (Z.eqb_eq _ _)) by lia. cbn [andb]. wp_step.
  apply (get_key_spec _ _ _ _ _ _ _ _ _ _ (length l) k _ Hst4 Hp Hk). intros t5 Hst5. wp_step.
  apply (prepend_from_left_spec cfg bs _ _ _ _ _ _ _ _ _ _ _ _ _ Hst5 Hi Hj); [rewrite length_map; lia|rewrite length_map; lia|by rewrite !length_map|exact (rep_key_length _ _ _ _ _ _ _ _ Hp Hk)|].
  intros b1 t6 Hb1 Hst6. rewrite <- map_app in Hb1.
  eapply merge_left_entry_cursors; [exact Hst6|by eapply weak_uniform|done|done|lia|lia|exact Hrel|]. intros cs' t8 Hrel' Hks Hst8. set (G2 := <[i := b1]> G) in *.
  assert (forall x, x <> p -> x <> j -> x <> i -> delete j G2 !! x = G !! x) as HGd.
  { intros x H1' H2' H3'. unfold G2. by rewrite lookup_delete_ne, lookup_insert_ne by done. }
  assert (forall x y, x <> j -> holds G2 x y -> holds (delete j G2) x y) as Hdel.
  { intros x y Hx (b & Hb & Hok). exists b. by rewrite lookup_delete_ne. }
  destruct (join_inner_ids j i i j kb ka cb ca k (remove_key (length l) pk) _ _ _ Hrep) as [Hgh Hin]; [by right|].
  apply (free_internal_spec derive_key key_less cfg bs Hcfg supports1 derive_length _ _ _ _ _ j (InnerBody kb (map node_id cb)) _ Hst8); [by apply holds_ne|done|]. intros t9 Hst9.
  exists cs', (delete j G2). split_and!; [exact Hst9| |exact Hrel'|done|].
  - split.
    + apply Hdel; [done|]. apply holds_ne; [done|]. by rewrite !map_app in *.
    + intros b Hb. eapply (join_inner_rep j i i j kb ka cb ca k); [exact Hrep|exact Hk| |by right|by apply Hdel, holds_eq|exact HGd|exact Hb].
      unfold remove_key. f_equal. lia.
    + exact Hgh.
  - eapply (inner_ghost_keeps j i); [by right|exact HGd].
Qed.
End merge_left.

End parent.
End inner_balance.
End btree_inner_balance.
