(* ===== verification/BTreePropagate.v ===== *)
(** * The removal of a child from a B+ tree

    The loop of [propagate_leaf_deletion]: a child is removed from its parent;
    the parent may become too small, and its removal continues one level
    higher. *)

From Stdlib Require Import Strings.Byte Sorting.Sorted.
From S2P Require Import Prelude MathOps Serialization Blocks EngineSpec FreeList Allocator Extent BTreeNodes BTree BTreeShape BTreeStore BTreeSearch BTreePaths BTreeSplit BTreeCursors BTreeInsert BTreeLeafInsert BTreeRemove BTreeZone BTreeRebalance BTreeLeafBalance BTreeInnerBalance.

Module btree_propagate.
Import btree btree_shape btree_store btree_search btree_paths btree_split btree_cursors btree_insert btree_leaf_insert btree_remove btree_zone btree_rebalance btree_leaf_balance btree_inner_balance.

Lemma wp_seq {S A B C} (a : M S A) (b : A -> M S B) (k : M S C) s (Q : C -> S -> Prop) :
  wp (bind a b) s (fun _ s' => wp k s' Q) -> wp (bind a (fun x => bind (b x) (fun _ => k))) s Q.
Proof. unfold wp, bind. destruct (a s) as [s1 [x|e]]; [|done]. by destruct (b x s1) as [s2 [y|e]]. Qed.
Lemma wp_seq3 {S A B C D} (a : M S A) (b : M S B) (c : M S C) (k : M S D) s (Q : D -> S -> Prop) :
  wp (a ;;; b ;;; c) s (fun _ s' => wp k s' Q) -> wp (a ;;; b ;;; c ;;; k) s Q.
Proof. unfold wp, bind. destruct (a s) as [s1 [x|e]]; [|done]. destruct (b s1) as [s2 [y|e]]; [|done]. by destruct (c s2) as [s3 [z|e]]. Qed.

Section propagate.
Context {A : Type} `{AllocatorSpec A}.
Context (derive_key : bytes -> bytes) (key_less : bytes -> bytes -> bool) `{KeyOrder key_less}.
Context (cfg : config) (bs : Z) (Hcfg : config_ok cfg bs) (supports1 : al_supports 1).
Context (derive_length : forall v, zlen v = value_size cfg -> zlen (derive_key v) = key_size cfg).
Abbreviation T := (tree A).
Abbreviation st := (st cfg bs).
Abbreviation holds := (holds cfg bs).
Abbreviation stored := (stored cfg bs).
Abbreviation body_ok := (body_ok cfg bs).
Abbreviation layout := (layout derive_key key_less).
Abbreviation weak_rep := (weak_rep derive_key key_less cfg bs).
Abbreviation tree_rep := (tree_rep derive_key key_less cfg bs).
Abbreviation unlinked := (unlinked derive_key key_less cfg bs).
Abbreviation mc := (internal_max_children cfg).
Implicit Types (anc : anchor) (cs : list (nat * cursor)) (pos : list (nat * position)) (G : gmap Z bytes).
Implicit Types (n : Z) (t : T) (key : bytes) (id : nat).

(** The removal is complete; the tree has the values [vals]. *)
Definition finished cs pos G n (X : list Z) (vals : list bytes) t' : Prop :=
  exists anc' cs' G' h' tr', st anc' cs' G' n t' /\ tree_rep anc' G' h' tr' /\ contents tr' = vals /\
    related (cursor_ok (Some tr')) cs' pos /\ cs'.*1 = cs.*1 /\ keeps G X G' (ids tr').

Lemma zone_related fs0 p tr id cs pos : rel (zone_rel fs0 p tr id) cs pos -> related (cursor_ok (Some tr)) cs pos.
Proof. intros Hr. eapply Forall2_impl; [exact Hr|]. by intros c q [Hi [Hc _]]. Qed.
Lemma zone_rel_up fs0 p f tr id cs pos : rel (zone_rel (fs0 ++ [f]) p tr id) cs pos -> rel (zone_rel fs0 (f_id f) tr id) cs pos.
Proof.
  intros Hr. eapply rel_mono; [|exact Hr]. intros i c q [Hc Hth]. split; [done|]. intros Hi. destruct (Hth Hi) as (x & ps & ->).
  rewrite entries_app, <- app_assoc. by eexists _, _.
Qed.

Lemma finish_weak fs0 p tr anc cs cs' pos G G' n X h id t : st anc cs' G' n t -> weak_rep anc G' h tr -> dense h tr ->
  rel (zone_rel fs0 p tr id) cs' pos -> cs'.*1 = cs.*1 -> keeps G X G' (ids tr) -> finished cs pos G n X (contents tr) t.
Proof.
  intros Hst Hrep Hd Hrel Hks Hkp. exists anc, cs', G', h, tr. split_and!; try done; [by apply weak_rep_tree|by eapply zone_related].
Qed.

(** ** The root *)

Lemma dense_height anc cs G n t h tr : st anc cs G n t -> stored G (blocks_of tr) -> NoDup (ids tr) -> dense h tr -> Z.of_nat h < 64.
Proof.
  intros Hst Hs Hnd Hd. destruct (stored_bounds cfg bs Hcfg _ _ _ _ _ _ Hst Hs Hnd) as [_ Hl]. apply dense_leaf_ids in Hd.
  assert ((2 : Z) ^ Z.of_nat h < 2 ^ 64) as Hp by (change 2 with (Z.of_nat 2) at 1; rewrite <- Nat2Z.inj_pow; lia).
  apply Z.pow_lt_mono_r_iff in Hp; lia.
Qed.
Lemma inner_positive anc G h i keys ch : weak_rep anc G h (Inner i keys ch) -> internal_nodes anc = 1 + inner_counts ch /\ 0 <= inner_counts ch.
Proof.
  intros [_ _ _ _ _ _ _ _ _ Rin Rc]. rewrite inner_count_inner in *. pose proof (inner_counts_nonneg ch). rewrite Rin, wrap_small by (split; lia). lia.
Qed.

(** The only child of the root becomes the root. *)
Definition shrunk (c : node) anc : anchor :=
  Anchor (size anc) (leaf_nodes anc) (u32 (internal_nodes anc - 1)) (height anc - 1) (node_id c) (leftmost anc) (rightmost anc).
Lemma shrink_rep anc G h p pk c : weak_rep anc G (S h) (Inner p pk [c]) -> dense h c ->
  tree_rep (shrunk c anc) (delete p G) h c /\ keeps G (ids (Inner p pk [c])) (delete p G) (ids c).
Proof.
  intros Hrep Hd. destruct (inner_positive _ _ _ _ _ _ Hrep) as [Hin Hge]. destruct Hrep as [Rs Rst Rnd Rh Rr Rsz Rl Rri Rle Rin Rc].
  unfold ids in Rnd. rewrite blocks_of_inner in Rnd, Rst. cbn [all_blocks map concat fmap list_fmap fst] in Rnd, Rst.
  rewrite app_nil_r in Rst, Rnd. apply Forall_cons in Rst as [_ Rst]. apply NoDup_cons in Rnd as [Hp Rnd].
  cbn [leaf_ids map concat] in *. rewrite app_nil_r in *. rewrite contents_inner in Rsz. cbn [all_contents map concat] in Rsz. rewrite app_nil_r in Rsz. split.
  - split; try done; cbn [shrunk height root size leftmost rightmost leaf_nodes internal_nodes].
    + apply shape_layout. split; [|done]. cbn [btree_zone.layout] in Rs. destruct pk; [done|]. by destruct Rs as (_ & _ & Rs), pk.
    + apply Forall_forall. intros e He. pose proof (proj1 (Forall_forall _ _) Rst _ He) as (b & Hb & Hok). exists b. split; [|done].
      rewrite lookup_delete_ne; [done|]. intros ->. apply Hp, list_elem_of_fmap. by exists e.
    + lia.
    + rewrite Hin. unfold inner_counts. cbn [all_blocks map concat]. rewrite !app_nil_r. f_equal. lia.
  - intros k b Hk Hnk. rewrite ids_inner in Hnk. cbn [all_blocks map concat] in Hnk. rewrite app_nil_r in Hnk.
    apply not_elem_of_cons in Hnk as [Hkp Hnk]. split; [by rewrite lookup_delete_ne|done].
Qed.

Lemma drop_root_spec anc cs pos G n t p pk c id (Q : unit -> T -> Prop) :
  st anc cs G n t -> rel (zone_rel [] p (Inner p pk [c]) id) cs pos ->
  (forall cs' t', related (cursor_ok (Some c)) cs' pos -> cs'.*1 = cs.*1 -> st anc cs' G n t' -> Q tt t') ->
  wp (for_cursors (fun _ => drop_root_cursor p)) t Q.
Proof.
  intros Hst Hrel HQ. eapply (for_cursors_spec cfg bs _ (fun _ x q => cursor_ok (Some c) x q)); [exact Hst|exact Hrel| |exact HQ].
  intros i x q t' [Hx _] Hst'. unfold drop_root_cursor. destruct (c_invalid x) eqn:Hv; [wp_step; split; [by eapply cursor_invalid|done]|].
  destruct (cursor_on_path _ _ _ Hx Hv) as (deleted & r0 & -> & ps & leaf & pre & vals & post & k & Hp & -> & Hk & ->). cbn [m_parents].
  apply inner_path in Hp as (la & y & ra & ps' & pre' & post' & Heq & -> & Hp & -> & ->). destruct la as [|? la]; [|by destruct la]. injection Heq as <- <-.
  wp_step. wp_step; [apply Z.eqb_refl|]. wp_step. split; [|done]. apply cursor_ok_path. exists ps', leaf, pre', vals, post', k. by split_and!.
Qed.

Lemma shrink_root_spec anc cs pos G n t p pk ch id h :
  st anc cs G n t -> weak_rep anc G (S h) (Inner p pk ch) -> Forall (dense h) ch -> (1 <= length ch)%nat ->
  rel (zone_rel [] p (Inner p pk ch) id) cs pos ->
  wp (shrink_root p) t (fun _ => finished cs pos G n (ids (Inner p pk ch)) (contents (Inner p pk ch))).
Proof.
  intros Hst Hrep Hd Hlen Hrel. destruct (inner_positive _ _ _ _ _ _ Hrep) as [Hin Hge]. pose proof Hrep as [_ Rst Rnd Rh Rr _ _ _ _ _ _].
  apply stored_inner in Rst as [Hp Rst]. cbn [node_id] in Rr.
  unfold shrink_root. wp_step. apply (get_anchor_spec _ _ _ _ _ _ _ _ Hst). wp_step. wp_step. wp_step.
  apply (child_count_spec _ _ _ _ _ _ _ _ _ _ _ Hst Hp). intros t1 Hst1. rewrite length_map. destruct (Z.eqb_spec (zlen ch) 1) as [H1'|H1'].
  - destruct ch as [|c [|? ch]]; cbn [length] in H1'; try lia. apply Forall_cons in Hd as [Hd _].
    destruct (shrink_rep _ _ _ _ _ _ Hrep Hd) as [Hrep' Hkp].
    assert (Z.of_nat h < 64) as Hh64.
    { eapply (dense_height _ _ _ _ _ _ c); [exact Hst| |apply (tr_nodup _ _ _ _ _ _ _ _ Hrep')|done]. cbn [all_blocks map concat] in Rst. by rewrite app_nil_r in Rst. }
    wp_step. apply (get_child_spec _ _ _ _ _ _ _ _ _ _ 0 (node_id c) _ Hst1 Hp eq_refl). intros t2 Hst2. wp_step.
    apply (mod_anchor_spec _ _ _ _ _ _ _ _ _ Hst2). intros t3 Hst3. wp_step. apply (mod_anchor_spec _ _ _ _ _ _ _ _ _ Hst3). intros t4 Hst4. wp_step.
    apply (free_internal_spec derive_key key_less cfg bs Hcfg supports1 derive_length _ _ _ _ _ p _ _ Hst4 Hp); [cbn; lia|]. intros t5 Hst5.
    eapply drop_root_spec; [exact Hst5|exact Hrel|]. intros cs' t6 Hrel' Hks Hst6.
    exists (shrunk c anc), cs', (delete p G), h, c. split_and!; try done.
    + unfold shrunk. rewrite Rh in *. cbn [more_inner height root size leftmost rightmost leaf_nodes internal_nodes] in Hst6. by rewrite (wrap_small 32 (Z.of_nat (S h) + 1 - 1)) in Hst6 by (split; lia).
    + cbn. by rewrite app_nil_r.
  - wp_step. eapply (finish_weak []); [exact Hst1|exact Hrep| |exact Hrel|done|done]. split; [lia|done].
Qed.

(** ** The neighbours of a node *)

Definition reads anc cs G n (read : Z -> M T Z) : Prop := forall i x t, holds G i x -> st anc cs G n t ->
  wp (read i) t (fun r t' => r = i /\ st anc cs G n t').
Lemma reads_leaf anc cs G n : reads anc cs G n read_leaf.
Proof. intros i x t Hi Hst. by apply (read_leaf_spec _ _ _ _ _ _ _ _ _ _ Hst Hi). Qed.
Lemma reads_internal anc cs G n : reads anc cs G n read_internal.
Proof. intros i x t Hi Hst. by apply (tree_read_internal_spec _ _ Hcfg _ _ _ _ _ _ _ _ Hst Hi). Qed.

Lemma stored_holds G c : stored G (blocks_of c) -> holds G (node_id c) (node_body c).
Proof. destruct c; intros Hs; by apply Forall_cons in Hs as [? _]. Qed.
Lemma stored_children G l c r : stored G (all_blocks (l ++ c :: r)) -> holds G (node_id c) (node_body c).
Proof. intros Hs. apply stored_mid in Hs as (_ & Hs & _). by apply stored_holds. Qed.

Section neighbors.
Context (read : Z -> M T Z) (q : Z) (qk : list bytes) (ql : list node) (c : node) (qr : list node).

Lemma right_neighbor_spec anc cs G n t (Q : option Z -> T -> Prop) :
  st anc cs G n t -> reads anc cs G n read -> holds G q (InnerBody qk (map node_id (ql ++ c :: qr))) -> stored G (all_blocks (ql ++ c :: qr)) ->
  (forall t', st anc cs G n t' -> Q (node_id <$> head qr) t') -> wp (right_neighbor read q (zlen ql)) t Q.
Proof.
  intros Hst Hread Hq Hs HQ. destruct (holds_inner _ _ _ _ _ _ Hq) as (_ & Hlc & Hm). unfold right_neighbor. wp_step.
  apply (child_count_spec _ _ _ _ _ _ _ _ _ _ _ Hst Hq). intros t1 Hst1. rewrite length_map, length_app in *. cbn [length] in *.
  rewrite !wrap_small by (split; lia). destruct qr as [|y qr']; cbn [length head fmap option_fmap option_map] in *.
  - destruct (Z.ltb_spec (zlen ql + 1) (Z.of_nat (length ql + 1))); [lia|]. wp_step. by apply HQ.
  - destruct (Z.ltb_spec (zlen ql + 1) (Z.of_nat (length ql + S (S (length qr'))))); [|lia]. wp_step. replace (zlen ql + 1) with (Z.of_nat (S (length ql))) by lia.
    apply (get_child_spec _ _ _ _ _ _ _ _ _ _ _ (node_id y) _ Hst1 Hq); [apply (pair_snd ql c y qr')|]. intros t2 Hst2. wp_step.
    replace (ql ++ c :: y :: qr') with ((ql ++ [c]) ++ y :: qr') in Hs by by rewrite <- app_assoc.
    eapply wp_mono; [eapply Hread; [by eapply stored_children|exact Hst2]|]. cbn beta. intros r' t3 [-> Hst3]. wp_step. by apply HQ.
Qed.
Lemma left_neighbor_spec anc cs G n t (Q : option Z -> T -> Prop) :
  st anc cs G n t -> reads anc cs G n read -> holds G q (InnerBody qk (map node_id (ql ++ c :: qr))) -> stored G (all_blocks (ql ++ c :: qr)) ->
  (forall t', st anc cs G n t' -> Q (node_id <$> last ql) t') -> wp (left_neighbor read q (zlen ql)) t Q.
Proof.
  intros Hst Hread Hq Hs HQ. destruct (holds_inner _ _ _ _ _ _ Hq) as (_ & Hlc & Hm). rewrite length_map, length_app in Hlc. cbn [length] in Hlc.
  unfold left_neighbor. destruct (last ql) as [y|] eqn:Hl.
  - apply last_Some in Hl as (ql' & Hql). rewrite Hql in *. clear Hql. rewrite length_app in *. cbn [length] in *.
    destruct (Z.ltb_spec 0 (Z.of_nat (length ql' + 1))); [|lia]. wp_step. rewrite wrap_small by (split; lia).
    replace (Z.of_nat (length ql' + 1) - 1) with (zlen ql') by lia. rewrite <- app_assoc in Hq, Hs. cbn [app] in Hq, Hs.
    apply (get_child_spec _ _ _ _ _ _ _ _ _ _ _ (node_id y) _ Hst Hq); [apply (pair_fst ql' y c qr)|]. intros t2 Hst2. wp_step.
    eapply wp_mono; [eapply Hread; [by eapply stored_children|exact Hst2]|]. cbn beta. intros r' t3 [-> Hst3]. wp_step. by apply HQ.
  - apply last_None in Hl. subst ql. change (0 <? zlen []) with false. cbn iota. wp_step. by apply HQ.
Qed.
End neighbors.

Definition min_ch : Z := internal_node.min_children mc.
Lemma min_ch_bounds : 2 <= min_ch /\ 2 * min_ch <= mc.
Proof.
  pose proof (cf_mc _ _ Hcfg). unfold min_ch, internal_node.min_children, internal_node.compute_min_children.
  split; [apply Z.div_le_lower_bound; lia|]. pose proof (Z.mul_div_le mc 2). lia.
Qed.

Lemma can_spare_child_spec anc cs G n t (o : option node) (Q : bool -> T -> Prop) :
  st anc cs G n t -> (forall c, o = Some c -> exists j kb cb, c = Inner j kb cb /\ holds G j (InnerBody kb (map node_id cb))) ->
  (forall t', st anc cs G n t' -> Q (match o with Some (Inner _ _ cb) => min_ch <? zlen cb | _ => false end) t') ->
  wp (can_spare_child (node_id <$> o)) t Q.
Proof.
  intros Hst Ho HQ. destruct o as [c|]; cbn [fmap option_fmap option_map]; unfold can_spare_child; [|wp_step; by apply HQ].
  destruct (Ho c eq_refl) as (j & kb & cb & -> & Hj). cbn [node_id]. wp_step. apply (child_count_spec _ _ _ _ _ _ _ _ _ _ _ Hst Hj). intros t1 Hst1. wp_step.
  unfold min_children. wp_step. apply (get_config_spec _ _ _ _ _ _ _ _ Hst1). wp_step. wp_step. rewrite length_map. by apply HQ.
Qed.

(** ** One level *)

Lemma dense_inner h c : dense (S h) c -> exists i keys ch, c = Inner i keys ch /\ (2 <= length ch)%nat /\ Forall (dense h) ch.
Proof. destruct c as [i vals|i keys ch]; [done|]. intros [Hl Hd]. by exists i, keys, ch. Qed.

Lemma rebalanced_finished anc cs pos G n h fs0 p tr tr' id t : rebalanced derive_key key_less cfg bs anc cs pos G n h tr tr' (zone_rel fs0 p tr' id) t ->
  dense h tr' -> contents tr' = contents tr -> finished cs pos G n (ids tr) (contents tr) t.
Proof.
  intros (cs' & G' & Hst & Hrep & Hkp & Hrel & Hks) Hd Hct. rewrite <- Hct. by eapply (finish_weak fs0 p).
Qed.
Lemma finished_trans cs cs1 pos G G1 n X X1 vals t : finished cs1 pos G1 n X1 vals t -> cs1.*1 = cs.*1 -> keeps G X G1 X1 -> finished cs pos G n X vals t.
Proof.
  intros (anc' & cs' & G' & h' & tr' & Hst & Hrep & Hct & Hrel & Hks & Hkp) Hk1 Hkp1. exists anc', cs', G', h', tr'.
  split_and!; try done; [congruence|by eapply keeps_trans].
Qed.

Section level.
Context (fs1 : list frame) (q : Z) (qk : list bytes) (id : nat) (pos : list (nat * position)) (n : Z) (h h' : nat).
Context (Hh : h = (length fs1 + S (S h'))%nat) (Hframes : dense_frames (S (S h')) fs1).
(** The removal of a child of [q]. *)
Context (Hup : forall pk l g r anc cs G t, st anc cs G n t -> unlinked fs1 q pk l g r anc G h ->
  rel (zone_rel fs1 q (plug fs1 (Inner q pk (l ++ [ghost g] ++ r))) id) cs pos -> Forall (dense (S h')) (l ++ r) -> (1 <= length (l ++ r))%nat ->
  wp (propagate (length fs1) id q g (zlen l)) t (fun _ =>
    finished cs pos G n (ids (plug fs1 (Inner q pk (l ++ [ghost g] ++ r)))) (contents (plug fs1 (Inner q pk (l ++ [ghost g] ++ r)))))).

Lemma dense_whole keys ch : (2 <= length ch)%nat -> Forall (dense (S h')) ch -> dense h (plug fs1 (Inner q keys ch)).
Proof. intros Hl Hd. rewrite Hh. apply dense_plug. split; [done|]. by split. Qed.

(** A child was merged with its neighbour and freed. *)
Lemma detached_finished anc cs G tr pk l g r t : detached derive_key key_less cfg bs fs1 q anc cs pos G n h tr pk l g r id t ->
  Forall (dense (S h')) (l ++ r) -> (1 <= length (l ++ r))%nat -> contents tr = contents (plug fs1 (Inner q pk (l ++ [ghost g] ++ r))) ->
  wp (propagate (length fs1) id q g (zlen l)) t (fun _ => finished cs pos G n (ids tr) (contents tr)).
Proof.
  intros (cs' & G' & Hst & Hun & Hrel & Hks & Hkp) Hd Hl Hct. eapply wp_mono; [by eapply Hup|]. cbn beta. intros _ t' Hfin. rewrite Hct. by eapply finished_trans.
Qed.

Section right.
Context (ql qr : list node) (p j : Z) (pk kb : list bytes) (ch cb : list node).
Abbreviation tr := (plug fs1 (Inner q qk (ql ++ [Inner p pk ch; Inner j kb cb] ++ qr))).
Context (Hdl : Forall (dense (S h')) (ql ++ qr)) (Hdc : Forall (dense h') (ch ++ cb)) (Hch : (1 <= length ch)%nat) (Hcb : (2 <= length cb)%nat).
Context (Hfew : zlen ch < min_ch).

Lemma level_steal_right anc cs G t : st anc cs G n t -> weak_rep anc G h tr -> rel (zone_rel fs1 q tr id) cs pos -> min_ch < zlen cb ->
  wp (steal_internal_entry q (S (length fs1)) p (zlen ql) j (zlen ql + 1)) t (fun _ => finished cs pos G n (ids tr) (contents tr)).
Proof.
  intros Hst Hrep Hrel Hmin. destruct min_ch_bounds as [Hm1 Hm2]. apply Forall_app in Hdl as [Hd1 Hd2]. apply Forall_app in Hdc as [Hd3 Hd4].
  destruct (node_pair_height _ _ _ _ _ _ _ _ _ _ _ _ _ _ _ _ _ _ Hrep) as (_ & [k Hk] & La & Lb).
  destruct cb as [|c0 cb'] eqn:Ecb; [cbn in Hcb; lia|]. destruct kb as [|k0 kb'] eqn:Ekb; [cbn in Hcb, Lb; lia|]. cbn [length] in *.
  apply Forall_cons in Hd4 as [Hd0 Hd4].
  eapply wp_mono; [eapply (steal_right_inner_spec derive_key key_less cfg bs fs1 q qk ql qr p j pk kb' ch cb' k k0 c0); try done; [lia]|].
  cbn beta. intros _ t' Hr. eapply rebalanced_finished; [exact Hr| |].
  - apply dense_whole; [rewrite !length_app; cbn; lia|]. apply Forall_app. split; [done|]. apply Forall_cons. split.
    + split; [rewrite length_app; cbn; lia|]. apply Forall_app. split; [done|]. by apply Forall_cons.
    + apply Forall_cons. split; [|done]. split; [lia|done].
  - rewrite !zone_contents. do 2 f_equal. rewrite !all_contents_cons, !contents_inner, all_contents_app, !all_contents_cons. cbn [all_contents map concat].
    by rewrite !app_nil_r, <- !app_assoc.
Qed.

Lemma level_merge_right anc cs G t : st anc cs G n t -> weak_rep anc G h tr -> rel (zone_rel fs1 q tr id) cs pos -> zlen cb <= min_ch ->
  wp (merge_internal q (S (length fs1)) p (zlen ql) j (zlen ql + 1) ;;; free_internal j ;;; propagate (length fs1) id q j (zlen ql + 1)) t (fun _ =>
    finished cs pos G n (ids tr) (contents tr)).
Proof.
  intros Hst Hrep Hrel Hmin. destruct min_ch_bounds as [Hm1 Hm2]. apply Forall_app in Hdl as [Hd1 Hd2].
  destruct (node_pair_height _ _ _ _ _ _ _ _ _ _ _ _ _ _ _ _ _ _ Hrep) as (_ & [k Hk] & La & Lb). apply wp_seq.
  eapply wp_mono; [eapply (merge_right_inner_spec derive_key key_less cfg bs Hcfg supports1 derive_length fs1 q qk ql qr p j pk kb ch cb k); try done; lia|].
  cbn beta. intros _ t' Hr. replace (zlen ql + 1) with (zlen (ql ++ [Inner p (pk ++ k :: kb) (ch ++ cb)])) by (rewrite length_app; cbn; lia).
  eapply detached_finished; [exact Hr| | |].
  - rewrite <- app_assoc. apply Forall_app. split; [done|]. apply Forall_cons. split; [|done]. split; [rewrite length_app; lia|done].
  - rewrite !length_app. cbn. lia.
  - rewrite !plug_contents, !contents_inner. do 2 f_equal. rewrite !all_contents_app, !all_contents_cons, !contents_inner, !all_contents_app.
    cbn. by rewrite !app_nil_r, <- !app_assoc.
Qed.
End right.

Section left.
Context (ql qr : list node) (p j : Z) (pk kb : list bytes) (ch cb : list node).
Abbreviation tr := (plug fs1 (Inner q qk (ql ++ [Inner j kb cb; Inner p pk ch] ++ qr))).
Context (Hdl : Forall (dense (S h')) (ql ++ qr)) (Hdc : Forall (dense h') (cb ++ ch)) (Hch : (1 <= length ch)%nat) (Hcb : (2 <= length cb)%nat).
Context (Hfew : zlen ch < min_ch).

Lemma level_steal_left anc cs G t : st anc cs G n t -> weak_rep anc G h tr -> rel (zone_rel fs1 q tr id) cs pos -> min_ch < zlen cb ->
  wp (steal_internal_entry q (S (length fs1)) p (zlen ql + 1) j (zlen ql)) t (fun _ => finished cs pos G n (ids tr) (contents tr)).
Proof.
  intros Hst Hrep Hrel Hmin. destruct min_ch_bounds as [Hm1 Hm2]. apply Forall_app in Hdl as [Hd1 Hd2]. apply Forall_app in Hdc as [Hd4 Hd3].
  destruct (node_pair_height _ _ _ _ _ _ _ _ _ _ _ _ _ _ _ _ _ _ Hrep) as (_ & [k Hk] & Lb & La).
  destruct cb as [|cz cb' _] using rev_ind; [cbn in Hcb; lia|]. rewrite length_app in *. cbn [length] in *.
  destruct kb as [|kz kb' _] using rev_ind; [cbn in Lb; lia|]. rewrite length_app in Lb. cbn [length] in Lb.
  apply Forall_app in Hd4 as [Hd4 Hd0]. apply Forall_cons in Hd0 as [Hd0 _].
  eapply wp_mono; [eapply (steal_left_inner_spec derive_key key_less cfg bs Hcfg fs1 q qk ql qr p j pk kb' ch cb' k kz cz); try done; [lia|by rewrite length_app]|].
  cbn beta. intros _ t' Hr. eapply rebalanced_finished; [exact Hr| |].
  - apply dense_whole; [rewrite !length_app; cbn; lia|]. apply Forall_app. split; [done|]. apply Forall_cons. split.
    + split; [lia|done].
    + apply Forall_cons. split; [|done]. split; [cbn; lia|by apply Forall_cons].
  - rewrite !zone_contents. do 2 f_equal. rewrite !all_contents_cons, !contents_inner, all_contents_app, !all_contents_cons. cbn [all_contents map concat].
    by rewrite !app_nil_r, <- !app_assoc.
Qed.

Lemma level_merge_left anc cs G t : st anc cs G n t -> weak_rep anc G h tr -> rel (zone_rel fs1 q tr id) cs pos -> zlen cb <= min_ch ->
  wp (merge_internal q (S (length fs1)) p (zlen ql + 1) j (zlen ql) ;;; free_internal j ;;; propagate (length fs1) id q j (zlen ql)) t (fun _ =>
    finished cs pos G n (ids tr) (contents tr)).
Proof.
  intros Hst Hrep Hrel Hmin. destruct min_ch_bounds as [Hm1 Hm2]. apply Forall_app in Hdl as [Hd1 Hd2].
  destruct (node_pair_height _ _ _ _ _ _ _ _ _ _ _ _ _ _ _ _ _ _ Hrep) as (_ & [k Hk] & Lb & La). apply wp_seq.
  eapply wp_mono; [eapply (merge_left_inner_spec derive_key key_less cfg bs Hcfg supports1 derive_length fs1 q qk ql qr p j pk kb ch cb k); try done; lia|].
  cbn beta. intros _ t' Hr. eapply detached_finished; [exact Hr| | |].
  - apply Forall_app. split; [done|]. apply Forall_cons. split; [|done]. split; [rewrite length_app; lia|done].
  - rewrite !length_app. cbn. lia.
  - rewrite !plug_contents, !contents_inner. do 2 f_equal. rewrite !all_contents_app, !all_contents_cons, !contents_inner, !all_contents_app.
    cbn. by rewrite !app_nil_r, <- !app_assoc.
Qed.
End left.

(** The node [p] has lost a child; [d] is the index of its parent in the path. *)
Definition restore (d : nat) id p : M T unit :=
  let* cursor := get_cursor id in
  let* e := entry_at (Z.of_nat d) cursor in
  let* right_node := right_neighbor read_internal e.1 e.2 in
  let* b := can_spare_child right_node in
  if b : bool then
    match right_node with
    | Some r => steal_internal_entry e.1 (S d) p e.2 r (u32 (e.2 + 1))
    | None => throw assert_failure
    end
  else
  let* left_node := left_neighbor read_internal e.1 e.2 in
  let* b := can_spare_child left_node in
  if b : bool then
    match left_node with
    | Some l => steal_internal_entry e.1 (S d) p e.2 l (u32 (e.2 - 1))
    | None => throw assert_failure
    end
  else
  match left_node, right_node with
  | Some l, _ => merge_internal e.1 (S d) p e.2 l (u32 (e.2 - 1)) ;;; free_internal l ;;; propagate d id e.1 l (u32 (e.2 - 1))
  | None, Some r => merge_internal e.1 (S d) p e.2 r (u32 (e.2 + 1)) ;;; free_internal r ;;; propagate d id e.1 r (u32 (e.2 + 1))
  | None, None => throw assert_failure
  end.

Lemma spare_holds G l (o : option node) r : stored G (all_blocks (l ++ r)) -> Forall (dense (S h')) (l ++ r) -> (o = head r \/ o = last l) ->
  forall c, o = Some c -> exists j kb cb, c = Inner j kb cb /\ holds G j (InnerBody kb (map node_id cb)).
Proof.
  intros Hs Hd Ho c ->. assert (exists l0 r0, l ++ r = l0 ++ c :: r0) as (l0 & r0 & Heq).
  { destruct Ho as [Ho|Ho]; symmetry in Ho; [destruct r as [|y r]; [done|]; injection Ho as ->; by exists l, r|].
    apply last_Some in Ho as [l0 ->]. exists l0, r. by rewrite <- app_assoc. }
  rewrite Heq in *. apply stored_children in Hs. apply Forall_app in Hd as [_ Hd]. apply Forall_cons in Hd as [Hd _].
  destruct (dense_inner _ _ Hd) as (j & kb & cb & -> & _). by exists j, kb, cb.
Qed.

Lemma restore_spec ql qr p pk ch anc cs G t pz : let tr := plug fs1 (Inner q qk (ql ++ Inner p pk ch :: qr)) in
  st anc cs G n t -> weak_rep anc G h tr -> rel (zone_rel (fs1 ++ [Frame q qk ql qr]) p tr id) cs pos -> find_cursor id pos = Some pz ->
  Forall (dense (S h')) (ql ++ qr) -> (1 <= length (ql ++ qr))%nat -> Forall (dense h') ch -> (1 <= length ch)%nat -> zlen ch < min_ch ->
  wp (restore (length fs1) id p) t (fun _ => finished cs pos G n (ids tr) (contents tr)).
Proof.
  intros tr Hst Hrep Hrel Hpz Hdl Hl Hdc Hch Hfew. destruct (rel_find _ _ _ _ _ Hrel Hpz) as (c & Hc & _ & Hth). destruct (Hth eq_refl) as (x & ps & Hps).
  apply zone_rel_up in Hrel. cbn [f_id] in Hrel. rewrite entries_app, <- app_assoc in Hps. cbn in Hps. unfold entry in Hps. cbn [f_id f_left] in Hps.
  pose proof (wr_stored _ _ _ _ _ _ _ _ Hrep) as Hs. apply (stored_perm _ _ _ _ _ (plug_blocks fs1 _)) in Hs. apply stored_app in Hs as [_ Hs]. apply stored_inner in Hs as [Hq Hs].
  destruct (holds_inner _ _ _ _ _ _ Hq) as (_ & Hm1 & Hm2). rewrite length_map, length_app in Hm1. cbn [length] in Hm1.
  assert (stored G (all_blocks (ql ++ qr))) as Hs'. { apply stored_mid in Hs as (? & _ & ?). by rewrite all_blocks_app, stored_app. }
  unfold restore. wp_step. apply (get_cursor_spec _ _ _ _ _ _ _ _ _ _ Hst Hc). wp_step.
  eapply entry_at_spec; [exact Hst|rewrite Hps; apply (lookup_zone fs1)|]. cbn [fst snd]. wp_step.
  eapply right_neighbor_spec; [exact Hst|by apply reads_internal|exact Hq|exact Hs|]. intros t1 Hst1. wp_step.
  eapply can_spare_child_spec; [exact Hst1|eapply spare_holds; [exact Hs'|done|by left]|]. intros t2 Hst2.
  destruct (match head qr with Some (Inner _ _ cb) => min_ch <? zlen cb | _ => false end) eqn:Eb.
  - destruct qr as [|y qr']; [done|]. cbn [length head fmap option_fmap option_map] in *. apply Forall_app in Hdl as [Hd1 Hd2]. apply Forall_cons in Hd2 as [Hdy Hd2].
    destruct (dense_inner _ _ Hdy) as (j & kb & cb & -> & Hl2 & Hd3). apply Z.ltb_lt in Eb. rewrite wrap_small by (split; lia). cbn [node_id].
    eapply (level_steal_right ql qr' p j pk kb ch cb); try done; by apply Forall_app.
  - wp_step. eapply left_neighbor_spec; [exact Hst2|by apply reads_internal|exact Hq|exact Hs|]. intros t3 Hst3. wp_step.
    eapply can_spare_child_spec; [exact Hst3|eapply spare_holds; [exact Hs'|done|by right]|]. intros t4 Hst4.
    destruct (last ql) as [y|] eqn:El.
    + apply last_Some in El as [ql' ->]. cbn [fmap option_fmap option_map]. rewrite !Forall_app, Forall_singleton in Hdl. destruct Hdl as [[Hd1 Hdy] Hd2].
      destruct (dense_inner _ _ Hdy) as (j & kb & cb & -> & Hl2 & Hd3). unfold tr in *. rewrite <- app_assoc in Hrep, Hrel |- *. cbn [app node_id] in *.
      rewrite length_app in *. cbn [length] in *. rewrite wrap_small by (split; lia). replace (Z.of_nat (length ql' + 1) - 1) with (zlen ql') by lia.
      replace (Z.of_nat (length ql' + 1)) with (zlen ql' + 1) by lia. destruct (Z.ltb_spec min_ch (zlen cb)).
      * eapply (level_steal_left ql' qr p j pk kb ch cb); try done; by apply Forall_app.
      * eapply (level_merge_left ql' qr p j pk kb ch cb); try done; by apply Forall_app.
    + apply last_None in El. subst ql. cbn [fmap option_fmap option_map]. destruct qr as [|y qr']; [cbn in Hl; lia|]. cbn [head fmap option_fmap option_map] in *.
      apply Forall_cons in Hdl as [Hdy Hd2]. destruct (dense_inner _ _ Hdy) as (j & kb & cb & -> & Hl2 & Hd3). apply Z.ltb_ge in Eb.
      cbn [length] in *. rewrite wrap_small by (split; lia). cbn [node_id]. eapply (level_merge_right [] qr' p j pk kb ch cb); try done; by apply Forall_app.
Qed.
End level.

(** ** All levels *)

Section detach.
Context (fs0 : list frame) (p : Z) (pk : list bytes) (l : list node) (g : Z) (r : list node).
Abbreviation trg := (plug fs0 (Inner p pk (l ++ [ghost g] ++ r))).
Abbreviation tr' := (plug fs0 (Inner p (remove_key (length l) pk) (l ++ [] ++ r))).

Lemma ghost_contents : contents tr' = contents trg.
Proof. by rewrite !zone_contents. Qed.

Lemma detach_child_spec anc cs pos G n t id h pz (k : M T unit) (Q : unit -> T -> Prop) :
  st anc cs G n t -> unlinked fs0 p pk l g r anc G h -> (length fs0 < h)%nat -> rel (zone_rel fs0 p trg id) cs pos -> find_cursor id pos = Some pz ->
  (1 <= length (l ++ r))%nat ->
  (forall cs' G' t', st anc cs' G' n t' -> weak_rep anc G' h tr' -> rel (zone_rel fs0 p tr' id) cs' pos -> cs'.*1 = cs.*1 ->
     keeps G (ids trg) G' (ids tr') -> wp k t' Q) ->
  wp (let* cursor := get_cursor id in
      let* e := entry_at (Z.of_nat (length fs0)) cursor in
      assert! (e.1 =? p) ;;;
      let* c := get_child p (zlen l) in
      assert! (c =? g) ;;;
      let* n := child_count p in
      assert! (2 <=? n) ;;;
      remove_child p (zlen l) ;;;
      for_cursors (fun _ => unlink_child_cursor (length fs0) p (zlen l)) ;;; k) t Q.
Proof.
  intros Hst Hun Hd Hrel Hpz Hl HQ. destruct (rel_find _ _ _ _ _ Hrel Hpz) as (c & Hc & _ & Hth). destruct (Hth eq_refl) as (x & ps & Hps).
  pose proof (un_node _ _ _ _ _ _ _ _ _ _ _ _ _ Hun) as Hp. wp_step. apply (get_cursor_spec _ _ _ _ _ _ _ _ _ _ Hst Hc). wp_step.
  eapply entry_at_spec; [exact Hst|rewrite Hps; apply (lookup_zone fs0)|]. cbn [fst snd]. wp_step. wp_step. wp_step.
  apply (get_child_spec _ _ _ _ _ _ _ _ _ _ _ g _ Hst Hp); [rewrite map_app, <- (length_map node_id l); by apply list_lookup_middle|]. intros t1 Hst1.
  wp_step. wp_step. wp_step. apply (child_count_spec _ _ _ _ _ _ _ _ _ _ _ Hst1 Hp). intros t2 Hst2. rewrite length_map, !length_app in *. cbn [length].
  wp_step. wp_step; [apply Z.leb_le; lia|]. apply wp_seq. eapply unlink_child_spec; [exact Hst2|exact Hun|done|exact Hrel|rewrite length_app; lia|exact HQ].
Qed.
End detach.

Lemma propagate_spec m : forall fs0 p pk l g r anc cs pos G n t id h h' pz, let trg := plug fs0 (Inner p pk (l ++ [ghost g] ++ r)) in
  length fs0 = m -> st anc cs G n t -> unlinked fs0 p pk l g r anc G h -> rel (zone_rel fs0 p trg id) cs pos -> find_cursor id pos = Some pz ->
  h = (length fs0 + S h')%nat -> dense_frames (S h') fs0 -> Forall (dense h') (l ++ r) -> (1 <= length (l ++ r))%nat ->
  wp (propagate m id p g (zlen l)) t (fun _ => finished cs pos G n (ids trg) (contents trg)).
Proof.
  induction m as [|m IH]; intros fs0 p pk l g r anc cs pos G n t id h h' pz trg Hm Hst Hun Hrel Hpz Hh Hdf Hd Hl; cbn [propagate]; rewrite <- Hm.
  - destruct fs0; [|done]. eapply (detach_child_spec []); [exact Hst|exact Hun|cbn in *; lia|exact Hrel|exact Hpz|done|].
    intros cs' G' t' Hst' Hrep Hrel' Hks Hkp. cbn [length] in Hh. subst h.
    eapply wp_mono; [eapply shrink_root_spec; [exact Hst'|exact Hrep|done|done|exact Hrel']|]. cbn beta. intros _ t'' Hfin.
    unfold trg. rewrite <- ghost_contents. by eapply finished_trans.
  - eapply (detach_child_spec fs0); [exact Hst|exact Hun|lia|exact Hrel|exact Hpz|done|]. intros cs' G' t' Hst' Hrep Hrel' Hks Hkp.
    destruct fs0 as [|[q qk ql qr] fs1 _] using rev_ind; [done|]. rewrite length_app in Hm, Hh. cbn [length] in Hm, Hh. assert (length fs1 = m) as <- by lia.
    apply dense_frames_app in Hdf as [Hdf [Hl2 [Hd2 _]]]. cbn [f_left f_right length Nat.add] in *.
    pose proof (wr_stored _ _ _ _ _ _ _ _ Hrep) as Hs. apply (stored_perm _ _ _ _ _ (plug_blocks _ _)) in Hs. apply stored_app in Hs as [_ Hs]. apply stored_inner in Hs as [Hp _].
    wp_step. apply (child_count_spec _ _ _ _ _ _ _ _ _ _ _ Hst' Hp). intros t1 Hst1. rewrite length_map. wp_step. unfold min_children. wp_step.
    apply (get_config_spec _ _ _ _ _ _ _ _ Hst1). wp_step. fold min_ch. unfold trg. rewrite <- ghost_contents. destruct (Z.leb_spec min_ch (zlen (l ++ [] ++ r))).
    + wp_step. destruct min_ch_bounds as [Hm2 _]. eapply finish_weak; [exact Hst1|exact Hrep| |exact Hrel'|exact Hks|exact Hkp].
      replace h with (length (fs1 ++ [Frame q qk ql qr]) + S h')%nat by (rewrite length_app; cbn; lia). apply dense_plug. split; [|split; [lia|done]].
      apply dense_frames_app. split; [done|]. split; [done|]. by split.
    + rewrite <- !plug_snoc in Hkp. rewrite <- plug_snoc in Hrep, Hrel'. rewrite <- !plug_snoc. eapply wp_mono; [|cbn beta; intros u t2 Hfin; exact (finished_trans _ _ _ _ _ _ _ _ _ _ Hfin Hks Hkp)].
      replace (length (fs1 ++ [Frame q qk ql qr])) with (S (length fs1)) by (rewrite length_app; cbn; lia).
      refine (restore_spec fs1 q qk id pos n h h' _ Hdf _ ql qr p _ _ anc cs' G' t1 pz Hst1 Hrep Hrel' Hpz Hd2 Hl2 Hd Hl _); [lia| |lia].
      intros pk1 l1 g1 r1 anc1 cs1 G1 t2 Hst2 Hun2 Hrel2 Hd3 Hl3. eapply (IH fs1) with (h' := S h'); [done|exact Hst2|exact Hun2|exact Hrel2|exact Hpz|lia|done|done|done].
Qed.

(** All paths have the same length, the freed child has none. *)
Lemma unlinked_uniform fs0 p pk l g r anc G h : unlinked fs0 p pk l g r anc G h -> (1 <= length (l ++ r))%nat ->
  uniform h (plug fs0 (Inner p pk (l ++ [ghost g] ++ r))).
Proof.
  intros [(b & _ & Hb & Hok) Hrep _] Hl.
  assert (wp (internal_node.remove_child (key_size cfg) mc (zlen l)) b (fun _ b' =>
    internal_ok (key_size cfg) mc b' (remove_key (length l) pk) (delete (length l) (map node_id (l ++ [ghost g] ++ r))) /\ length b' = length b)) as Hrm.
  { apply internal_remove_child_spec; [done|..]; rewrite length_map, !length_app in *; cbn; lia. }
  apply wp_run in Hrm as (b' & _ & _ & Hok' & Hl').
  rewrite map_app in Hok'. cbn [app map] in Hok'. rewrite <- (length_map node_id l) in Hok' at 2. rewrite delete_middle, <- map_app in Hok'.
  eapply ghost_uniform. apply (Hrep b'). split; [lia|done].
Qed.

Lemma propagate_leaf_deletion_spec fs0 p pk l g r anc cs pos G n t id R : let trg := plug fs0 (Inner p pk (l ++ [ghost g] ++ r)) in
  st anc cs G n t -> unlinked fs0 p pk l g r anc G (length fs0 + 1) -> rel (zone_rel fs0 p trg id) cs pos -> find_cursor id pos = Some (Gap R) ->
  dense_frames 1 fs0 -> Forall (dense 0) (l ++ r) -> (1 <= length (l ++ r))%nat ->
  wp (propagate_leaf_deletion id g (zlen l)) t (fun _ => finished cs pos G n (ids trg) (contents trg)).
Proof.
  intros trg Hst Hun Hrel Hpz Hdf Hd Hl. destruct (rel_find _ _ _ _ _ Hrel Hpz) as (c & Hc & (tr0 & [= <-] & Hp) & Hth). destruct (Hth eq_refl) as (x & ps & Hpar).
  assert (length (m_parents c) = length fs0 + 1)%nat as Hlen.
  { destruct Hp as (ps0 & leaf & pre & vals & post & k & Hp & _ & _ & ->). by eapply unlinked_uniform. }
  rewrite Hpar, length_app, length_entries in Hlen. cbn [length] in Hlen. destruct ps as [|? ps]; [|cbn in Hlen; lia].
  unfold propagate_leaf_deletion. wp_step. apply (get_cursor_spec _ _ _ _ _ _ _ _ _ _ Hst Hc). rewrite Hpar, length_app, length_entries. cbn [length]. wp_step.
  wp_step; [destruct (Z.eqb_spec (Z.of_nat (length fs0 + 1)) 0); [lia|done]|]. wp_step. replace (length fs0 + 1 - 1)%nat with (length fs0) by lia.
  eapply entry_at_spec; [exact Hst|rewrite Hpar; apply (lookup_zone fs0)|]. cbn [fst]. by eapply propagate_spec.
Qed.

End propagate.
End btree_propagate.
