(* ===== verification/BTreeErase.v ===== *)
(** * Removal of values from B+ trees

    The specification of [erase]: the value at the cursor is removed, all other
    cursors stay at their values, and the cursors at the removed value stay
    between its neighbours. *)

From Stdlib Require Import Strings.Byte Sorting.Sorted.
From S2P Require Import Prelude MathOps Serialization Blocks EngineSpec FreeList Allocator Extent BTreeNodes BTree BTreeShape BTreeStore BTreeSearch BTreePaths BTreeSplit BTreeCursors BTreeInsert BTreeLeafInsert BTreeOps BTreeRemove BTreeZone BTreeRebalance BTreeLeafBalance BTreePropagate.

Module btree_erase.
Import btree btree_shape btree_store btree_search btree_paths btree_split btree_cursors btree_insert btree_leaf_insert btree_ops btree_remove btree_zone btree_rebalance btree_leaf_balance btree_propagate.

(** ** Positions after a removal *)

(** The position after the removal of the value [R]. *)
Definition erase_pos (R : nat) (p : position) : position :=
  match p with
  | At r => if decide (r = R) then Gap R else At (if decide (r < R)%nat then r else r - 1)
  | Gap r => Gap (if decide (r <= R)%nat then r else r - 1)
  | _ => p
  end.
(** The last value was removed. *)
Definition lose_pos (p : position) : position := match p with AtEnd => AtEnd | _ => Gone end.
Definition erased_pos (len R : nat) (p : position) : position := if decide (len = 1)%nat then lose_pos p else erase_pos R p.

Lemma erase_path_pos tr' (deleted : bool) c' r R : on_path tr' (deleted || bool_decide (r = R)) c' (if decide (r <= R)%nat then r else r - 1) ->
  cursor_ok (Some tr') c' (erase_pos R (path_pos deleted r)).
Proof.
  intros Hp. unfold erase_pos, path_pos. destruct deleted; cbn [orb] in Hp; [by exists tr'|]. destruct (decide (r = R)) as [Hr|Hr].
  - subst r. rewrite bool_decide_true in Hp by done. rewrite decide_True in Hp by lia. by exists tr'.
  - rewrite bool_decide_false in Hp by done. exists tr'. split; [done|]. repeat case_decide; try lia; done.
Qed.



Lemma rel_find_only (R : cursor -> position -> Prop) cs pos id c0 : related R cs pos -> NoDup cs.*1 -> find_cursor id cs = Some c0 ->
  rel (fun i c q => R c q /\ (i = id -> c = c0)) cs pos.
Proof.
  induction 1 as [|[i c] [j q] cs pos [Hij HR] Hr IH]; [constructor|]. cbn [fst snd] in *. rewrite fmap_cons. cbn [fst find_cursor]. intros Hnd Hf.
  apply NoDup_cons in Hnd as [Hi Hnd]. case_decide as Hid.
  - injection Hf as <-. subst i. constructor; [done|]. clear IH. induction Hr as [|[i c1] [j1 q1] cs pos [Hij1 HR1] Hr IH]; [constructor|]. cbn [fst snd] in *.
    rewrite fmap_cons in Hi, Hnd. apply not_elem_of_cons in Hi as [Hne Hi]. apply NoDup_cons in Hnd as [_ Hnd]. constructor; [|by apply IH]. split; [done|]. split; [done|]. cbn. intros ->. done.
  - constructor; [|by apply IH]. done.
Qed.

Lemma rel_map {P P'} (R : nat -> cursor -> P' -> Prop) (f : P -> P') cs pos : rel (fun i c q => R i c (f q)) cs pos -> rel R cs (prod_map id f <$> pos).
Proof. induction 1 as [|[i c] [j q] cs pos [Hij HR] _ IH]; [constructor|]. by constructor. Qed.
Lemma find_map {P P'} (f : P -> P') id (pos : list (nat * P)) : find_cursor id (prod_map Datatypes.id f <$> pos) = f <$> find_cursor id pos.
Proof. induction pos as [|[i q] pos IH]; [done|]. rewrite fmap_cons. cbn. by case_decide. Qed.

Lemma delete_app {X} (pre l post : list X) k : (k < length l)%nat -> delete (length pre + k)%nat (pre ++ l ++ post) = pre ++ delete k l ++ post.
Proof.
  intros Hk. rewrite !delete_take_drop. replace (S (length pre + k)) with (length pre + S k)%nat by lia.
  rewrite take_app_add, drop_app_add, take_app_le, drop_app_le by lia. by rewrite <- !app_assoc.
Qed.

Section erase.
Context {A : Type} `{AllocatorSpec A}.
Context (derive_key : bytes -> bytes) (key_less : bytes -> bytes -> bool) `{KeyOrder key_less}.
Context (cfg : config) (bs : Z) (Hcfg : config_ok cfg bs) (supports1 : al_supports 1).
Context (derive_length : forall v, zlen v = value_size cfg -> zlen (derive_key v) = key_size cfg).
Abbreviation T := (tree A).
Abbreviation st := (st cfg bs).
Abbreviation holds := (holds cfg bs).
Abbreviation stored := (stored cfg bs).
Abbreviation body_ok := (body_ok cfg bs).
Abbreviation layout := (layout derive_key key_less).
Abbreviation weak_rep := (weak_rep derive_key key_less cfg bs).
Abbreviation tree_rep := (tree_rep derive_key key_less cfg bs).
Abbreviation inv := (inv derive_key key_less cfg bs).
Abbreviation finished := (finished derive_key key_less cfg bs).
Abbreviation cap := (leaf_capacity cfg).
Implicit Types (anc : anchor) (cs : list (nat * cursor)) (pos : list (nat * position)) (G : gmap Z bytes).
Implicit Types (n : Z) (t : T) (key : bytes) (id : nat).

(** ** The leaf *)

Section leaf.
Context (fs : list frame) (lf : Z) (vals : list bytes) (k : nat) (Hk : (k < length vals)%nat).
Abbreviation tr := (plug fs (Leaf lf vals)).
Abbreviation tr1 := (plug fs (Leaf lf (delete k vals))).
Abbreviation R := (length (pre_of fs) + k)%nat.

Lemma erase_contents : contents tr1 = delete R (contents tr).
Proof. rewrite !plug_contents. cbn [contents]. by rewrite delete_app. Qed.

Lemma erase_leaf_rep anc G h b : weak_rep anc G h tr -> body_ok b (LeafBody (delete k vals)) ->
  weak_rep (with_size (size anc - 1) anc) (<[lf := b]> G) h tr1 /\ keeps G (ids tr) (<[lf := b]> G) (ids tr1).
Proof.
  intros [Rs Rst Rnd Rh Rr Rsz Rl Rri Rle Rin Rc] Hb.
  pose proof (plug_blocks fs (Leaf lf vals)) as Hold. pose proof (plug_blocks fs (Leaf lf (delete k vals))) as Hnew. cbn [node_id blocks_of node_body] in Hold, Hnew.
  assert (ids tr1 ≡ₚ ids tr) as Hids by (unfold ids; rewrite Hold, Hnew; by rewrite !fmap_app).
  assert (leaf_ids tr1 = leaf_ids tr) as Hli by by rewrite !plug_leaf_ids.
  assert (inner_count tr1 = inner_count tr) as Hic by (unfold inner_count; rewrite Hli, (Permutation_length Hold), (Permutation_length Hnew), !length_app; done).
  split.
  - split; rewrite ?Hli, ?Hic; try done.
    + destruct (layout_plug _ _ _ _ _ _ _ Rs) as (h' & -> & Hs0 & Hnew'). apply Hnew'. destruct h'; [|done]. by apply ordered_delete.
    + eapply stored_perm; [symmetry; exact Hnew|]. apply (stored_perm _ _ _ _ _ Hold) in Rst. apply stored_app in Rst as [Rst _].
      apply stored_app. split; [|repeat constructor; by apply holds_eq]. apply stored_insert; [|done].
      unfold ids in Rnd. rewrite Hold, fmap_app in Rnd. cbn in Rnd. apply NoDup_app in Rnd as (_ & Hd & _). intros Hin. apply (Hd lf Hin). by left.
    + by rewrite Hids.
    + cbn [root with_size]. rewrite Rr. by rewrite !node_id_plug.
    + cbn [size with_size]. rewrite Rsz, erase_contents, length_delete; [|apply lookup_lt_is_Some_2]; rewrite plug_contents, !length_app; cbn [contents]; lia.
  - intros j c Hj Hnj. rewrite Hids. split; [|done]. rewrite lookup_insert_ne; [done|]. intros <-. apply Hnj.
    unfold ids. rewrite Hold, fmap_app. apply elem_of_app. right. by left.
Qed.
(** The path of the cursor [id] ends in the leaf. *)
Definition leaf_rel tr' id (i : nat) (c : cursor) (q : position) : Prop := cursor_ok (Some tr') c q /\ (i = id -> m_parents c = entries fs).

Lemma erase_cursor_spec anc cs G n t i id c q h : st anc cs G n t -> layout h None None tr -> NoDup (ids tr) -> zlen vals < 2 ^ 32 -> leaf_rel tr id i c q ->
  wp (erase_cursor lf (Z.of_nat k) c) t (fun c' t' => leaf_rel tr1 id i c' (erase_pos R q) /\ st anc cs G n t').
Proof.
  intros Hst Hl Hnd Hb [Hc Hth]. unfold erase_cursor. destruct (c_invalid c) eqn:Hv.
  { cbn [orb]. wp_step. split; [|done]. split; [|done]. destruct q; try done; by destruct Hc as (? & _ & ? & ? & ? & ? & ? & ? & _ & _ & _ & ->). }
  destruct (cursor_on_path _ _ _ Hc Hv) as (deleted & r & -> & ps & leaf & pre & vals0 & post & x & Hp & -> & Hx & ->). cbn [orb m_leaf m_index m_parents] in *.
  assert (at_path tr (entries fs) lf (pre_of fs) vals (post_of fs)) as Hpath by apply at_path_sub, at_sub_plug.
  pose proof (layout_depth _ _ _ _ _ _ _ _ _ _ _ Hl Hp) as Hh1. pose proof (layout_depth _ _ _ _ _ _ _ _ _ _ _ Hl Hpath) as Hh2. rewrite length_entries in Hh2.
  apply at_path_sub in Hp. destruct (replace_cases fs (Leaf lf vals) ps (Leaf leaf vals0) pre post Hnd Hp) as
    [(ps' & pre' & post' & -> & Hsub & -> & ->)|[[Hout _] Hcase]]; [lia| |].
  - apply at_sub_leaf in Hsub as (-> & [= -> ->] & -> & ->). rewrite !app_nil_r in *. rewrite Z.eqb_refl. cbn [negb].
    assert (forall y, y = (if decide (x <= k)%nat then x else x - 1)%nat ->
      leaf_rel tr1 id i (Cursor (entries fs) lf (Z.of_nat y) false (deleted || bool_decide (x = k)) false) (erase_pos R (path_pos deleted (length (pre_of fs) + x)))) as Hok.
    { intros y Hy. split; [|done]. apply erase_path_pos. rewrite (bool_decide_ext (length (pre_of fs) + x = R)%nat (x = k)) by lia.
      exists (entries fs), lf, (pre_of fs), (delete k vals), (post_of fs), y. split_and!; [apply at_path_sub, at_sub_plug|subst y; repeat case_decide; lia| |done].
      rewrite length_delete by by apply lookup_lt_is_Some_2. case_bool_decide; destruct deleted; cbn [orb]; subst y; repeat case_decide; lia. }
    destruct (Z.eqb_spec (Z.of_nat x) (Z.of_nat k)); [|destruct (Z.ltb_spec (Z.of_nat k) (Z.of_nat x))]; wp_step; (split; [|done]).
    + rewrite bool_decide_true in Hok by lia. rewrite orb_true_r in Hok. apply Hok. rewrite decide_True; lia.
    + rewrite bool_decide_false, orb_false_r in Hok by lia. unfold set_index, set_position. cbn. rewrite wrap_small by (destruct deleted; split; lia).
      replace (Z.of_nat x - 1) with (Z.of_nat (x - 1)) by lia. apply Hok. rewrite decide_False; lia.
    + rewrite bool_decide_false, orb_false_r in Hok by lia. apply Hok. rewrite decide_True; lia.
  - cbn in Hout. rewrite not_elem_of_cons in Hout. destruct (Z.eqb_spec leaf lf); [tauto|]. cbn [negb]. wp_step. split; [|done]. split; [|done].
    apply erase_path_pos. destruct Hcase as [(a & -> & Hn)|(b & -> & Hn)].
    + pose proof (at_sub_contents _ _ _ _ _ Hp) as Heq. rewrite plug_contents in Heq. cbn [contents] in Heq.
      assert (length (pre ++ vals0) <= length (pre_of fs))%nat as Hle.
      { apply (f_equal length) in Heq. rewrite !length_app in Heq. rewrite length_app. lia. }
      rewrite length_app in Hle. rewrite decide_True by (destruct deleted; lia).
      replace (deleted || _) with deleted by (destruct deleted; [done|]; symmetry; apply bool_decide_eq_false; lia).
      exists ps, leaf, pre, vals0. eexists _, x. split_and!; [apply at_path_sub, (Hn (Leaf lf (delete k vals)))|done..].
    + cbn [contents] in *. rewrite !length_app. rewrite bool_decide_false, orb_false_r, decide_False by lia.
      exists ps, leaf. eexists _, vals0, post, x. split_and!; [apply at_path_sub, (Hn (Leaf lf (delete k vals)))| |done|done].
      cbn [contents]. rewrite !length_app, length_delete by by apply lookup_lt_is_Some_2. lia.
Qed.

End leaf.
(** ** The root *)

Lemma erase_root_empty_spec anc cs pos G n t lf : st anc cs G n t -> weak_rep anc G 0 (Leaf lf []) -> related (cursor_ok (Some (Leaf lf []))) cs pos ->
  wp (erase_root lf) t (fun _ t' => exists cs' G', st empty_anchor cs' G' n t' /\ related (cursor_ok None) cs' (prod_map Datatypes.id lose_pos <$> pos) /\
    cs'.*1 = cs.*1 /\ keeps G [lf] G' []).
Proof.
  intros Hst [_ Rst _ Rh _ Rsz _ _ Rle Rin _] Hrel. apply Forall_cons in Rst as [Hl _]. cbn in Rsz, Rle, Rin. unfold erase_root. wp_step.
  apply (leaf_size_spec _ _ _ _ _ _ _ _ _ _ Hst Hl). intros t1 Hst1. change (zlen [] =? 0) with true. cbn iota. wp_step.
  apply (get_anchor_spec _ _ _ _ _ _ _ _ Hst1). wp_step. wp_step. wp_step.
  apply (free_leaf_spec derive_key key_less cfg bs Hcfg supports1 derive_length _ _ _ _ _ _ _ _ Hst1 Hl); [lia|]. intros t2 Hst2.
  do 4 (wp_step; match goal with Hs : btree_store.st _ _ _ _ _ _ ?t |- wp _ ?t _ => apply (mod_anchor_spec _ _ _ _ _ _ _ _ _ Hs) end; intros ? ?).
  eapply (for_cursors_spec cfg bs (fun _ => cursor_ok (Some (Leaf lf []))) (fun _ c q => cursor_ok None c (lose_pos q))); [eassumption|exact Hrel| |].
  - intros i c q t7 Hc Hst7. wp_step. split; [|done]. destruct (c_invalid c) eqn:Hv.
    + destruct q; try done; by destruct Hc as (? & _ & ? & ? & ? & ? & ? & ? & _ & _ & _ & ->).
    + destruct (cursor_on_path _ _ _ Hc Hv) as (deleted & r & -> & ps & leaf & pre & vals & post & x & Hp & -> & Hx & ->).
      apply at_path_sub, at_sub_leaf in Hp as (-> & [= -> ->] & -> & ->). destruct deleted; [done|cbn in Hx; lia].
  - intros cs' t7 Hrel' Hks Hst7. exists cs', (delete lf G). split_and!; [|by apply (rel_map (fun _ => cursor_ok None))|done|].
    + cbn in Hst7. rewrite Rsz, Rle, Rin in Hst7. exact Hst7.
    + intros k b Hk Hnk. apply not_elem_of_cons in Hnk as [Hnk _]. split; [by rewrite lookup_delete_ne|by apply not_elem_of_nil].
Qed.

Lemma erase_root_spec anc cs pos G n t lf vals : st anc cs G n t -> weak_rep anc G 0 (Leaf lf vals) -> related (cursor_ok (Some (Leaf lf vals))) cs pos -> vals <> [] ->
  wp (erase_root lf) t (fun _ => finished cs pos G n (ids (Leaf lf vals)) vals).
Proof.
  intros Hst Hrep Hrel Hne. pose proof (wr_stored _ _ _ _ _ _ _ _ Hrep) as Hl. apply Forall_cons in Hl as [Hl _]. unfold erase_root. wp_step.
  apply (leaf_size_spec _ _ _ _ _ _ _ _ _ _ Hst Hl). intros t1 Hst1. destruct (Z.eqb_spec (zlen vals) 0) as [Hz|_]; [destruct vals; [done|cbn in Hz; lia]|].
  wp_step. exists anc, cs, G, 0%nat, (Leaf lf vals). split_and!; try done. by apply weak_rep_tree.
Qed.

(** ** Values that a neighbour can spare *)

Definition min_leaf : Z := leaf_node.min_size cap.
Lemma min_leaf_bounds : 1 <= min_leaf /\ 2 * min_leaf <= cap.
Proof.
  pose proof (cf_cap _ _ Hcfg). unfold min_leaf, leaf_node.min_size. split; [apply Z.div_le_lower_bound; lia|]. pose proof (Z.mul_div_le cap 2). lia.
Qed.
Definition spare_value (edge : anchor -> Z) anc (o : option node) : bool :=
  match o with Some (Leaf j vb) => (min_leaf <? zlen vb) || ((j =? edge anc) && (1 <? zlen vb)) | _ => false end.
Lemma can_spare_value_spec edge anc cs G n t (o : option node) (Q : bool -> T -> Prop) :
  st anc cs G n t -> (forall c, o = Some c -> exists j vb, c = Leaf j vb /\ holds G j (LeafBody vb)) ->
  (forall t', st anc cs G n t' -> Q (spare_value edge anc o) t') -> wp (can_spare_value edge (node_id <$> o)) t Q.
Proof.
  intros Hst Ho HQ. destruct o as [c|]; cbn [fmap option_fmap option_map]; unfold can_spare_value; [|wp_step; by apply HQ].
  destruct (Ho c eq_refl) as (j & vb & -> & Hj). cbn [node_id]. wp_step. apply (leaf_size_spec _ _ _ _ _ _ _ _ _ _ Hst Hj). intros t1 Hst1. wp_step.
  unfold min_size. wp_step. apply (get_config_spec _ _ _ _ _ _ _ _ Hst1). wp_step. wp_step. apply (get_anchor_spec _ _ _ _ _ _ _ _ Hst1). wp_step. by apply HQ.
Qed.
Lemma spare_value_some edge anc j vb : spare_value edge anc (Some (Leaf j vb)) = true -> 1 < zlen vb.
Proof. cbn. destruct min_leaf_bounds. intros [?%Z.ltb_lt|[_ ?%Z.ltb_lt]%andb_true_iff]%orb_true_iff; lia. Qed.
Lemma spare_value_none edge anc j vb : spare_value edge anc (Some (Leaf j vb)) = false -> zlen vb <= min_leaf.
Proof. cbn. intros [?%Z.ltb_ge _]%orb_false_iff. lia. Qed.

(** ** Leaves with a parent *)

Section parent.
Context (fs0 : list frame) (p : Z) (pk : list bytes) (id : nat) (pos : list (nat * position)) (R : nat) (n : Z).
Context (Hid : find_cursor id pos = Some (Gap R)) (Hdf : dense_frames 1 fs0).
Abbreviation h := (length fs0 + 1)%nat.

(** A leaf was freed. *)
Lemma detached_leaf anc cs G tr pk' l g r t : detached derive_key key_less cfg bs fs0 p anc cs pos G n h tr pk' l g r id t ->
  Forall (dense 0) (l ++ r) -> (1 <= length (l ++ r))%nat -> contents tr = contents (plug fs0 (Inner p pk' (l ++ [ghost g] ++ r))) ->
  wp (propagate_leaf_deletion id g (zlen l)) t (fun _ => finished cs pos G n (ids tr) (contents tr)).
Proof.
  intros (cs' & G' & Hst & Hun & Hrel & Hks & Hkp) Hd Hl Hct. eapply wp_mono; [by eapply propagate_leaf_deletion_spec|].
  cbn beta. intros _ t' Hfin. rewrite Hct. by eapply finished_trans.
Qed.

Lemma dense_leaf c : dense 0 c -> exists j vb, c = Leaf j vb /\ vb <> [].
Proof. destruct c as [j vb|]; [|done]. by exists j, vb. Qed.
Lemma dense_parent keys ch : (2 <= length ch)%nat -> Forall (dense 0) ch -> dense h (plug fs0 (Inner p keys ch)).
Proof. intros Hl Hd. apply dense_plug. split; [done|]. by split. Qed.

Section right.
Context (l r : list node) (i j : Z) (va vb : list bytes).
Abbreviation tr := (plug fs0 (Inner p pk (l ++ [Leaf i va; Leaf j vb] ++ r))).
Context (Hd : Forall (dense 0) (l ++ r)) (Hvb : vb <> []).

Lemma leaf_steal_right anc cs G t : st anc cs G n t -> weak_rep anc G h tr -> rel (zone_rel fs0 p tr id) cs pos -> zlen va < cap -> 1 < zlen vb ->
  wp (steal_leaf_entry derive_key p i (zlen l) j (zlen l + 1)) t (fun _ => finished cs pos G n (ids tr) (contents tr)).
Proof.
  intros Hst Hrep Hrel Hcap Hlen. apply Forall_app in Hd as [Hd1 Hd2]. destruct vb as [|v vb'] eqn:Evb; [done|].
  assert (vb' <> []) as Hne by (intros ->; cbn in Hlen; lia).
  eapply wp_mono; [by eapply (steal_right_leaf_spec derive_key key_less cfg bs derive_length fs0 p pk l r i j va v vb')|].
  cbn beta. intros _ t' Hr. eapply rebalanced_finished; [exact Hr| |].
  - apply dense_parent; [rewrite !length_app; cbn; lia|]. apply Forall_app. split; [done|]. apply Forall_cons. split; [by destruct va|]. by apply Forall_cons.
  - rewrite !zone_contents. do 2 f_equal. cbn. by rewrite !app_nil_r, <- !app_assoc.
Qed.
Lemma leaf_merge_right anc cs G t : st anc cs G n t -> weak_rep anc G h tr -> rel (zone_rel fs0 p tr id) cs pos -> zlen va + zlen vb <= cap ->
  wp (merge_leaf derive_key p i (zlen l) j (zlen l + 1) ;;; free_leaf j ;;; propagate_leaf_deletion id j (zlen l + 1)) t (fun _ =>
    finished cs pos G n (ids tr) (contents tr)).
Proof.
  intros Hst Hrep Hrel Hcap. apply Forall_app in Hd as [Hd1 Hd2]. apply wp_seq.
  assert (exists w, last (va ++ vb) = Some w) as [w Hw].
  { destruct (last (va ++ vb)) as [w|] eqn:E; [by exists w|]. apply last_None in E. by destruct va, vb. }
  eapply wp_mono; [by eapply (merge_right_leaf_spec derive_key key_less cfg bs Hcfg supports1 derive_length fs0 p pk l r i j va vb w)|].
  cbn beta. intros _ t' Hr. replace (zlen l + 1) with (zlen (l ++ [Leaf i (va ++ vb)])) by (rewrite length_app; cbn; lia).
  eapply detached_leaf; [exact Hr| | |].
  - rewrite <- app_assoc. apply Forall_app. split; [done|]. apply Forall_cons. split; [|done]. cbn. by destruct va.
  - rewrite !length_app. cbn. lia.
  - rewrite !plug_contents, !contents_inner. do 2 f_equal. rewrite !all_contents_app, !all_contents_cons. cbn. by rewrite !app_nil_r, <- !app_assoc.
Qed.
Lemma leaf_leave_right anc cs G t : va = [] -> st anc cs G n t -> weak_rep anc G h tr -> rel (zone_rel fs0 p tr id) cs pos -> leftmost anc = i ->
  wp (for_cursors (fun _ => leave_leaf_cursor i j 0 (u32 (zlen l + 1))) ;;; set_leftmost j ;;; free_leaf i ;;; propagate_leaf_deletion id i (zlen l)) t (fun _ =>
    finished cs pos G n (ids tr) (contents tr)).
Proof.
  intros Hva Hst Hrep Hrel Hlm. apply Forall_app in Hd as [Hd1 Hd2]. rewrite Hva in *.
  apply wp_seq3. eapply wp_mono; [by eapply (leave_left_spec derive_key key_less cfg bs Hcfg supports1 derive_length fs0 p pk l r i j vb)|].
  cbn beta. intros _ t' Hr. eapply detached_leaf; [exact Hr| | |].
  - apply Forall_app. split; [done|]. by apply Forall_cons.
  - rewrite !length_app. cbn. lia.
  - rewrite !plug_contents, !contents_inner. do 2 f_equal. rewrite !all_contents_app, !all_contents_cons. cbn. by rewrite ?app_nil_r.
Qed.
End right.

Section left.
Context (l r : list node) (i j : Z) (va vb : list bytes).
Abbreviation tr := (plug fs0 (Inner p pk (l ++ [Leaf j vb; Leaf i va] ++ r))).
Context (Hd : Forall (dense 0) (l ++ r)) (Hvb : vb <> []).

Lemma leaf_steal_left anc cs G t : st anc cs G n t -> weak_rep anc G h tr -> rel (zone_rel fs0 p tr id) cs pos -> zlen va < cap -> 1 < zlen vb ->
  wp (steal_leaf_entry derive_key p i (zlen l + 1) j (zlen l)) t (fun _ => finished cs pos G n (ids tr) (contents tr)).
Proof.
  intros Hst Hrep Hrel Hcap Hlen. apply Forall_app in Hd as [Hd1 Hd2]. destruct vb as [|v vb' _] using rev_ind; [done|].
  rewrite length_app in Hlen. cbn [length] in Hlen. assert (exists w, last vb' = Some w) as [w Hw].
  { destruct (last vb') as [w|] eqn:E; [by exists w|]. apply last_None in E. subst. cbn in Hlen. lia. }
  eapply wp_mono; [by eapply (steal_left_leaf_spec derive_key key_less cfg bs Hcfg derive_length fs0 p pk l r i j va vb' v w)|].
  cbn beta. intros _ t' Hr. eapply rebalanced_finished; [exact Hr| |].
  - apply dense_parent; [rewrite !length_app; cbn; lia|]. apply Forall_app. split; [done|]. apply Forall_cons. split; [by destruct vb'|]. by apply Forall_cons.
  - rewrite !zone_contents. do 2 f_equal. cbn. by rewrite !app_nil_r, <- !app_assoc.
Qed.
Lemma leaf_merge_left anc cs G t : st anc cs G n t -> weak_rep anc G h tr -> rel (zone_rel fs0 p tr id) cs pos -> zlen va + zlen vb <= cap ->
  wp (merge_leaf derive_key p i (zlen l + 1) j (zlen l) ;;; free_leaf j ;;; propagate_leaf_deletion id j (zlen l)) t (fun _ =>
    finished cs pos G n (ids tr) (contents tr)).
Proof.
  intros Hst Hrep Hrel Hcap. apply Forall_app in Hd as [Hd1 Hd2]. apply wp_seq.
  eapply wp_mono; [by eapply (merge_left_leaf_spec derive_key key_less cfg bs Hcfg supports1 derive_length fs0 p pk l r i j va vb)|].
  cbn beta. intros _ t' Hr. eapply detached_leaf; [exact Hr| | |].
  - apply Forall_app. split; [done|]. apply Forall_cons. split; [|done]. cbn. by destruct vb.
  - rewrite !length_app. cbn. lia.
  - rewrite !plug_contents, !contents_inner. do 2 f_equal. rewrite !all_contents_app, !all_contents_cons. cbn. by rewrite !app_nil_r, <- !app_assoc.
Qed.
Lemma leaf_leave_left anc cs G t x : x = u32 (zlen l + 1 - 1) -> va = [] -> st anc cs G n t -> weak_rep anc G h tr -> rel (zone_rel fs0 p tr id) cs pos -> rightmost anc = i -> r = [] ->
  wp (for_cursors (fun _ => leave_leaf_cursor i j (zlen vb) x) ;;; set_rightmost j ;;; free_leaf i ;;; propagate_leaf_deletion id i (zlen l + 1)) t (fun _ =>
    finished cs pos G n (ids tr) (contents tr)).
Proof.
  intros -> Hva Hst Hrep Hrel Hlm Hr0. apply Forall_app in Hd as [Hd1 Hd2]. rewrite Hva in *.
  apply wp_seq3. eapply wp_mono; [by eapply (leave_right_spec derive_key key_less cfg bs Hcfg supports1 derive_length fs0 p pk l r i j vb)|].
  cbn beta. intros _ t' Hr. replace (zlen l + 1) with (zlen (l ++ [Leaf j vb])) by (rewrite length_app; cbn; lia). eapply detached_leaf; [exact Hr| | |].
  - rewrite <- app_assoc. apply Forall_app. split; [done|]. by apply Forall_cons.
  - rewrite !length_app. cbn. lia.
  - rewrite !plug_contents, !contents_inner. do 2 f_equal. rewrite !all_contents_app, !all_contents_cons. cbn. by rewrite !app_nil_r, <- !app_assoc.
Qed.
End left.
Section leaf_erase.
Context (l r : list node) (lf : Z) (va : list bytes).
Abbreviation tr := (plug fs0 (Inner p pk (l ++ Leaf lf va :: r))).
Abbreviation fs := (fs0 ++ [Frame p pk l r]).
Context (Hd : Forall (dense 0) (l ++ r)) (Hlen : (1 <= length (l ++ r))%nat).

Lemma leaf_zone cs : rel (leaf_rel fs tr id) cs pos -> rel (zone_rel fs0 p tr id) cs pos.
Proof.
  intros Hrel. eapply rel_mono; [|exact Hrel]. intros i c q [Hc Hth]. split; [done|]. intros Hi. rewrite (Hth Hi), entries_app. by eexists _, [].
Qed.
Lemma leaf_cursor cs : rel (leaf_rel fs tr id) cs pos -> exists c, find_cursor id cs = Some c /\
  forall t (Q : Z * Z -> T -> Prop), Q (p, zlen l) t -> wp (back_entry c) t Q.
Proof.
  intros Hrel. destruct (rel_find _ _ _ _ _ Hrel Hid) as (c & Hc & _ & Hth). exists c. split; [done|]. intros t Q HQ.
  unfold back_entry. rewrite (Hth eq_refl), entries_app. cbn [entries map app]. rewrite last_snoc. by wp_step.
Qed.
Lemma leaf_children anc G : weak_rep anc G h tr -> holds G p (InnerBody pk (map node_id (l ++ Leaf lf va :: r))) /\
  stored G (all_blocks (l ++ Leaf lf va :: r)) /\ holds G lf (LeafBody va) /\ zlen l + 1 + zlen r < 2 ^ 31.
Proof.
  intros Hrep. pose proof (wr_stored _ _ _ _ _ _ _ _ Hrep) as Hs. apply (stored_perm _ _ _ _ _ (plug_blocks fs0 _)) in Hs. apply stored_app in Hs as [_ Hs].
  apply stored_inner in Hs as [Hp Hs]. destruct (holds_inner _ _ _ _ _ _ Hp) as (_ & Hm & Hm2). rewrite length_map, length_app in Hm. cbn [length] in Hm.
  split_and!; [done|done|by apply stored_children in Hs|lia].
Qed.

Lemma nodup_head (X Y : list Z) x : NoDup (X ++ x :: Y) -> head (X ++ x :: Y) = Some x -> X = [].
Proof.
  destruct X as [|y X]; [done|]. cbn. intros [Hn _]%NoDup_cons [= ->]. destruct Hn. apply elem_of_app. right. by left.
Qed.
Lemma nodup_last (X Y : list Z) x : NoDup (X ++ x :: Y) -> last (X ++ x :: Y) = Some x -> Y = [].
Proof.
  intros Hnd Hl. destruct Y as [|y Y]; [done|]. rewrite last_app_cons in Hl. change (last (x :: y :: Y)) with (last (y :: Y)) in Hl.
  apply NoDup_app in Hnd as (_ & _ & Hnd). apply NoDup_cons in Hnd as [Hn _]. destruct Hn. by apply last_Some_elem_of.
Qed.
Lemma dense_no_leaves ch : Forall (dense 0) ch -> concat (map leaf_ids ch) = [] -> ch = [].
Proof. destruct ch as [|c ch]; [done|]. intros [(j & vb & -> & _)%dense_leaf _]%Forall_cons. done. Qed.
Lemma tr_leaf_ids : leaf_ids tr = (pre_ids fs0 ++ concat (map leaf_ids l)) ++ lf :: concat (map leaf_ids r) ++ post_ids fs0.
Proof. rewrite plug_leaf_ids. cbn [leaf_ids]. rewrite map_app, concat_app. cbn. by rewrite <- !app_assoc. Qed.

Lemma leftmost_first anc G : weak_rep anc G h tr -> leftmost anc = lf -> l = [].
Proof.
  intros Hrep Hlm. pose proof (leaf_ids_nodup _ (wr_nodup _ _ _ _ _ _ _ _ Hrep)) as Hnd. pose proof (wr_left _ _ _ _ _ _ _ _ Hrep) as Hl.
  rewrite tr_leaf_ids in *. rewrite Hlm in Hl. apply nodup_head in Hl; [|done]. apply app_eq_nil in Hl as [_ Hl]. apply Forall_app in Hd as [Hd1 _]. by apply dense_no_leaves.
Qed.
Lemma rightmost_last anc G : weak_rep anc G h tr -> rightmost anc = lf -> r = [].
Proof.
  intros Hrep Hlm. pose proof (leaf_ids_nodup _ (wr_nodup _ _ _ _ _ _ _ _ Hrep)) as Hnd. pose proof (wr_right _ _ _ _ _ _ _ _ Hrep) as Hl.
  rewrite tr_leaf_ids in *. rewrite Hlm in Hl. apply nodup_last in Hl; [|done]. apply app_eq_nil in Hl as [Hl _]. apply Forall_app in Hd as [_ Hd2]. by apply dense_no_leaves.
Qed.
Lemma neighbor_holds G (o : option node) : stored G (all_blocks (l ++ r)) -> (o = head r \/ o = last l) ->
  forall c, o = Some c -> exists j vb, c = Leaf j vb /\ holds G j (LeafBody vb).
Proof.
  intros Hs Ho c ->. assert (c ∈ l ++ r) as Hc.
  { apply elem_of_app. destruct Ho as [Ho|Ho]; symmetry in Ho; [right; by apply head_Some_elem_of|left; by apply last_Some_elem_of]. }
  destruct (dense_leaf c) as (j & vb & -> & _); [by apply (proj1 (Forall_forall _ _) Hd)|]. exists j, vb. split; [done|].
  apply list_elem_of_split in Hc as (l0 & r0 & Heq). rewrite Heq in Hs. by apply stored_children in Hs.
Qed.

Lemma erase_inner_spec anc cs G t : st anc cs G n t -> weak_rep anc G h tr -> rel (leaf_rel fs tr id) cs pos ->
  wp (erase_inner derive_key lf id) t (fun _ => finished cs pos G n (ids tr) (contents tr)).
Proof.
  intros Hst Hrep Hrel. destruct (leaf_children _ _ Hrep) as (Hp & Hs & Hl & Hm). destruct (leaf_cursor _ Hrel) as (c & Hc & Hback). apply leaf_zone in Hrel.
  destruct min_leaf_bounds as [Hm1 Hm2].
  assert (stored G (all_blocks (l ++ r))) as Hs'. { apply stored_mid in Hs as (? & _ & ?). by rewrite all_blocks_app, stored_app. }
  unfold erase_inner. wp_step. apply (leaf_size_spec _ _ _ _ _ _ _ _ _ _ Hst Hl). intros t1 Hst1. wp_step. unfold min_size. wp_step.
  apply (get_config_spec _ _ _ _ _ _ _ _ Hst1). wp_step. fold min_leaf. destruct (Z.leb_spec min_leaf (zlen va)).
  { wp_step. eapply (finish_weak _ _ _ _ fs0 p); [exact Hst1|exact Hrep| |exact Hrel|done|done]. apply dense_parent; [rewrite length_app in *; cbn; lia|].
    apply Forall_app in Hd as [Hd1 Hd2]. apply Forall_app. split; [done|]. apply Forall_cons. split; [|done]. intros ->. cbn in *. lia. }
  wp_step. apply (get_cursor_spec _ _ _ _ _ _ _ _ _ _ Hst1 Hc). wp_step. apply Hback. cbn [fst snd]. wp_step.
  eapply right_neighbor_spec; [exact Hst1|by apply reads_leaf|exact Hp|exact Hs|]. intros t2 Hst2. wp_step.
  eapply can_spare_value_spec; [exact Hst2|eapply neighbor_holds; [exact Hs'|by left]|]. intros t3 Hst3.
  destruct (spare_value rightmost anc (head r)) eqn:Er.
  - destruct r as [|y r']; [done|]. cbn [head fmap option_fmap option_map length] in *. apply Forall_app in Hd as [Hd1 Hd2]. apply Forall_cons in Hd2 as [Hdy Hd2].
    destruct (dense_leaf _ Hdy) as (j & vb & -> & Hvb). apply spare_value_some in Er. rewrite wrap_small by (split; lia). cbn [node_id].
    eapply (leaf_steal_right l r' lf j va vb); try done; [by apply Forall_app|lia].
  - wp_step. eapply left_neighbor_spec; [exact Hst3|by apply reads_leaf|exact Hp|exact Hs|]. intros t4 Hst4. wp_step.
    eapply can_spare_value_spec; [exact Hst4|eapply neighbor_holds; [exact Hs'|by right]|]. intros t5 Hst5.
    destruct (spare_value leftmost anc (last l)) eqn:El.
    + destruct (last l) as [y|] eqn:Ey; [|done]. apply last_Some in Ey as [l' ->]. cbn [fmap option_fmap option_map]. rewrite !Forall_app, Forall_singleton in Hd.
      destruct Hd as [[Hd1 Hdy] Hd2]. destruct (dense_leaf _ Hdy) as (j & vb & -> & Hvb). apply spare_value_some in El. rewrite <- app_assoc in Hrep, Hrel |- *. cbn [app node_id] in *.
      rewrite length_app in *. cbn [length] in *. rewrite wrap_small by (split; lia). replace (Z.of_nat (length l' + 1) - 1) with (zlen l') by lia.
      replace (Z.of_nat (length l' + 1)) with (zlen l' + 1) by lia. eapply (leaf_steal_left l' r lf j va vb); try done; [by apply Forall_app|lia].
    + destruct r as [|y r']; cbn [head fmap option_fmap option_map].
      * destruct (last l) as [y|] eqn:Ey; [|apply last_None in Ey; subst; cbn in Hlen; lia]. apply last_Some in Ey as [l' ->]. cbn [fmap option_fmap option_map].
        rewrite !Forall_app, Forall_singleton in Hd. destruct Hd as [[Hd1 Hdy] Hd2]. destruct (dense_leaf _ Hdy) as (j & vb & -> & Hvb). apply spare_value_none in El.
        rewrite <- app_assoc in Hrep, Hrel |- *. cbn [app node_id] in *. rewrite length_app in *. cbn [length] in *. rewrite wrap_small by (split; lia).
        replace (Z.of_nat (length l' + 1) - 1) with (zlen l') by lia. replace (Z.of_nat (length l' + 1)) with (zlen l' + 1) by lia.
        eapply (leaf_merge_left l' [] lf j va vb); try done; [by apply Forall_app|lia].
      * apply Forall_app in Hd as [Hd1 Hd2]. apply Forall_cons in Hd2 as [Hdy Hd2]. destruct (dense_leaf _ Hdy) as (j & vb & -> & Hvb). apply spare_value_none in Er.
        cbn [length node_id] in *. rewrite wrap_small by (split; lia).
        eapply (leaf_merge_right l r' lf j va vb); try done; [by apply Forall_app|lia].
Qed.

(** Two leaves without a common grandparent. *)
Lemma two_leaves anc G : weak_rep anc G h tr -> va <> [] -> leaf_nodes anc = 2 -> fs0 = [] /\ (length (l ++ r) = 1)%nat.
Proof.
  intros Hrep Hva H2'. assert (Forall (dense 0) (l ++ Leaf lf va :: r)) as Hda.
  { apply Forall_app in Hd as [Hd1 Hd2]. apply Forall_app. split; [done|]. by apply Forall_cons. }
  assert (dense h tr) as Hdt by (apply dense_parent; [rewrite length_app in *; cbn; lia|done]).
  apply dense_leaf_ids in Hdt. rewrite (wr_leaves _ _ _ _ _ _ _ _ Hrep) in H2'. destruct fs0 as [|f fs1].
  - split; [done|]. cbn [plug leaf_ids] in H2'. clear - Hda H2'. assert (length (concat (map leaf_ids (l ++ Leaf lf va :: r))) = length (l ++ Leaf lf va :: r)) as Hc.
    { clear H2'. induction Hda as [|c ch Hc _ IH]; [done|]. apply dense_leaf in Hc as (j & vb & -> & _). cbn. by rewrite IH. }
    rewrite Hc, length_app in H2'. cbn [length] in H2'. rewrite length_app. lia.
  - exfalso. assert (4 <= 2 ^ (length (f :: fs1) + 1))%nat; [|lia]. change 4%nat with (2 ^ 2)%nat. apply Nat.pow_le_mono_r; cbn; lia.
Qed.

Lemma erase_edge_spec anc cs G t : st anc cs G n t -> weak_rep anc G h tr -> rel (leaf_rel fs tr id) cs pos -> lf = leftmost anc \/ lf = rightmost anc ->
  wp (erase_edge derive_key lf id) t (fun _ => finished cs pos G n (ids tr) (contents tr)).
Proof.
  intros Hst Hrep Hrel Hedge. destruct (leaf_children _ _ Hrep) as (Hp & Hs & Hl & Hm). destruct (leaf_cursor _ Hrel) as (c & Hc & Hback). apply leaf_zone in Hrel.
  unfold erase_edge. wp_step. apply (leaf_size_spec _ _ _ _ _ _ _ _ _ _ Hst Hl). intros t1 Hst1. wp_step.
  apply (get_cursor_spec _ _ _ _ _ _ _ _ _ _ Hst1 Hc). wp_step. apply Hback. cbn [fst snd]. wp_step. apply (get_anchor_spec _ _ _ _ _ _ _ _ Hst1). wp_step.
  apply (get_config_spec _ _ _ _ _ _ _ _ Hst1). destruct (Z.eqb_spec (zlen va) 0) as [Hz|Hz]; [|destruct (_ && _) eqn:E2].
  - assert (va = []) as Hva by (destruct va; [done|cbn in Hz; lia]). destruct (Z.eqb_spec lf (leftmost anc)) as [Hlm|Hlm].
    + symmetry in Hlm. pose proof (leftmost_first _ _ Hrep Hlm) as El. destruct r as [|y r']; [subst l; cbn in Hlen; lia|].
      apply Forall_app in Hd as [Hd1 Hd2]. apply Forall_cons in Hd2 as [Hdy Hd2]. destruct (dense_leaf _ Hdy) as (j & vb & -> & Hvb).
      cbn [length] in Hm. rewrite wrap_small by (split; lia). wp_step. replace (zlen l + 1) with (Z.of_nat (S (length l))) by lia.
      apply (get_child_spec _ _ _ _ _ _ _ _ _ _ _ j _ Hst1 Hp); [apply (pair_snd l _ (Leaf j vb) r')|]. intros t2 Hst2. wp_step.
      eapply wp_mono; [eapply reads_leaf; [|exact Hst2]|].
      { replace (l ++ Leaf lf va :: Leaf j vb :: r') with ((l ++ [Leaf lf va]) ++ Leaf j vb :: r') in Hs by by rewrite <- app_assoc. by apply stored_children in Hs. }
      cbn beta. intros x t3 [-> Hst3]. replace (Z.of_nat (S (length l))) with (zlen l + 1) by lia. rewrite <- (wrap_small 32 (zlen l + 1)) by (split; lia).
      eapply (leaf_leave_right l r' lf j va vb); try done; by apply Forall_app.
    + destruct Hedge as [?|Hrm]; [done|]. symmetry in Hrm. pose proof (rightmost_last _ _ Hrep Hrm) as Er. destruct l as [|y l' _] using rev_ind; [subst r; cbn in Hlen; lia|].
      rewrite !Forall_app, Forall_singleton in Hd. destruct Hd as [[Hd1 Hdy] Hd2]. destruct (dense_leaf _ Hdy) as (j & vb & -> & Hvb).
      rewrite <- app_assoc in Hp, Hs, Hrep, Hrel |- *. cbn [app] in *. rewrite length_app in *. cbn [length] in *. rewrite wrap_small by (split; lia). wp_step.
      replace (Z.of_nat (length l' + 1) - 1) with (zlen l') by lia.
      apply (get_child_spec _ _ _ _ _ _ _ _ _ _ _ j _ Hst1 Hp); [apply (pair_fst l' (Leaf j vb) _ r)|]. intros t2 Hst2. wp_step.
      pose proof (stored_children _ _ _ _ _ _ Hs) as Hj. cbn [node_id node_body] in Hj.
      eapply wp_mono; [eapply reads_leaf; [exact Hj|exact Hst2]|]. cbn beta. intros x t3 [-> Hst3]. wp_step.
      apply (leaf_size_spec _ _ _ _ _ _ _ _ _ _ Hst3 Hj). intros t4 Hst4. replace (Z.of_nat (length l' + 1)) with (zlen l' + 1) by lia.
      eapply (leaf_leave_left l' r lf j va vb); try done; [by apply Forall_app|]. rewrite wrap_small by (split; lia). lia.
  - apply andb_true_iff in E2 as [E2 E3]. apply Z.eqb_eq in E2. apply Z.leb_le in E3. assert (va <> []) as Hva by (intros ->; done).
    destruct (two_leaves _ _ Hrep Hva E2) as [Efs Elen]. rewrite (wr_size _ _ _ _ _ _ _ _ Hrep), plug_contents, contents_inner in E3.
    rewrite all_contents_app, all_contents_cons, !length_app in E3. cbn [contents] in E3. destruct (Z.eqb_spec lf (leftmost anc)) as [Hlm|Hlm].
    + symmetry in Hlm. pose proof (leftmost_first _ _ Hrep Hlm) as El. subst l. destruct r as [|y [|? ?]]; cbn in Elen; try lia.
      apply Forall_cons in Hd as [Hdy _]. destruct (dense_leaf _ Hdy) as (j & vb & -> & Hvb). cbn [length Nat.add app all_contents map concat contents] in *. wp_step.
      apply (get_child_spec _ _ _ _ _ _ _ _ _ _ 1 j _ Hst1 Hp); [done|]. intros t2 Hst2. wp_step.
      eapply wp_mono; [eapply reads_leaf; [by apply (stored_children _ _ _ [Leaf lf va]) in Hs|exact Hst2]|]. cbn beta. intros x t3 [-> Hst3].
      rewrite app_nil_r in E3. eapply (leaf_merge_right [] [] lf j va vb); try done. lia.
    + destruct Hedge as [?|Hrm]; [done|]. symmetry in Hrm. pose proof (rightmost_last _ _ Hrep Hrm) as Er. subst r. rewrite app_nil_r in Elen.
      destruct l as [|y [|? ?]]; cbn in Elen; try lia. apply Forall_cons in Hd as [Hdy _]. destruct (dense_leaf _ Hdy) as (j & vb & -> & Hvb).
      cbn [length Nat.add app all_contents map concat contents] in *. wp_step.
      apply (get_child_spec _ _ _ _ _ _ _ _ _ _ 0 j _ Hst1 Hp); [done|]. intros t2 Hst2. wp_step.
      eapply wp_mono; [eapply reads_leaf; [by apply (stored_children _ _ _ []) in Hs|exact Hst2]|]. cbn beta. intros x t3 [-> Hst3].
      rewrite app_nil_r in E3. eapply (leaf_merge_left [] [] lf j va vb); try done. lia.
  - wp_step. eapply (finish_weak _ _ _ _ fs0 p); [exact Hst1|exact Hrep| |exact Hrel|done|done]. apply dense_parent; [rewrite length_app in *; cbn; lia|].
    apply Forall_app in Hd as [Hd1 Hd2]. apply Forall_app. split; [done|]. apply Forall_cons. split; [|done]. by intros ->.
Qed.

End leaf_erase.

End parent.

(** ** Removal *)

(** The state after the removal of the value [R]. *)
Definition erased G n o pos (R : nat) t' : Prop :=
  exists G' o', inv G' n o' (prod_map Datatypes.id (erased_pos (length (values o)) R) <$> pos) t' /\ keeps G (tree_ids o) G' (tree_ids o') /\
    values o' = delete R (values o).

Lemma finished_erased cs pos G G1 n tr tr1 (R : nat) t : finished cs (prod_map Datatypes.id (erase_pos R) <$> pos) G1 n (ids tr1) (contents tr1) t ->
  keeps G (ids tr) G1 (ids tr1) -> NoDup cs.*1 -> contents tr1 = delete R (contents tr) -> (length (contents tr) <> 1)%nat -> erased G n (Some tr) pos R t.
Proof.
  intros (anc' & cs' & G' & h' & tr' & Hst & Hrep & Hct & Hrel & Hks & Hkp) Hkp1 Hnd Hdel Hlen. exists G', (Some tr'). split_and!; [|by eapply keeps_trans|cbn; congruence].
  exists anc', cs'. cbn [values]. split_and!; [done|by exists h'| |by rewrite Hks].
  replace (prod_map Datatypes.id (erased_pos (length (contents tr)) R) <$> pos) with (prod_map Datatypes.id (erase_pos R) <$> pos); [done|].
  apply list_fmap_ext. intros _ [i q] _. cbn. unfold erased_pos. by rewrite decide_False.
Qed.

(** The rest of [erase], after the removal of the value from the leaf. *)
Definition settle (id : nat) (leaf depth : Z) : M T unit :=
  if depth =? 0 then erase_root leaf else
  let* a := get_anchor in
  assert! (1 <? height a) ;;;
  if (leaf =? leftmost a) || (leaf =? rightmost a) then erase_edge derive_key leaf id else erase_inner derive_key leaf id.

Lemma settle_parent_spec fs0 f lf vals anc cs pos G n t id (R : nat) : let tr := plug (fs0 ++ [f]) (Leaf lf vals) in
  st anc cs G n t -> weak_rep anc G (length (fs0 ++ [f])) tr -> rel (leaf_rel (fs0 ++ [f]) tr id) cs pos -> find_cursor id pos = Some (Gap R) ->
  dense_frames 0 (fs0 ++ [f]) -> wp (settle id lf (zlen (fs0 ++ [f]))) t (fun _ => finished cs pos G n (ids tr) (contents tr)).
Proof.
  intros tr Hst Hrep Hrel Hid Hdf. unfold tr in *. destruct f as [p pk l r]. rewrite <- plug_snoc in Hrep, Hrel |- *. apply dense_frames_app in Hdf as [Hdf (Hl & Hd & _)].
  cbn [f_left f_right length Nat.add] in *. pose proof (wr_height _ _ _ _ _ _ _ _ Hrep) as Hh. rewrite (length_app fs0) in *. cbn [length] in *.
  unfold settle. destruct (Z.eqb_spec (Z.of_nat (length fs0 + 1)) 0); [lia|]. wp_step. apply (get_anchor_spec _ _ _ _ _ _ _ _ Hst). wp_step. wp_step.
  destruct (_ || _) eqn:E.
  - eapply (erase_edge_spec fs0 p pk id pos R n Hid Hdf l r lf vals Hd Hl); [done|done|done|]. apply orb_true_iff in E as [E%Z.eqb_eq|E%Z.eqb_eq]; tauto.
  - by eapply (erase_inner_spec fs0 p pk id pos R n Hid Hdf l r lf vals Hd Hl).
Qed.

Lemma settle_root_spec lf vals (k : nat) anc cs pos G G1 n t id : (k < length vals)%nat ->
  st anc cs G1 n t -> weak_rep anc G1 0 (Leaf lf (delete k vals)) -> rel (leaf_rel [] (Leaf lf (delete k vals)) id) cs (prod_map Datatypes.id (erase_pos k) <$> pos) ->
  keeps G [lf] G1 [lf] -> NoDup cs.*1 -> wp (settle id lf 0) t (fun _ => erased G n (Some (Leaf lf vals)) pos k).
Proof.
  intros Hk Hst Hrep Hrel Hkp Hnd. assert (related (cursor_ok (Some (Leaf lf (delete k vals)))) cs (prod_map Datatypes.id (erase_pos k) <$> pos)) as Hrel'.
  { eapply Forall2_impl; [exact Hrel|]. by intros c q [Hi [Hc _]]. }
  change (settle id lf 0) with (erase_root lf). destruct (decide (length vals = 1)%nat) as [H1'|H1'].
  - assert (delete k vals = []) as Hdel. { apply nil_length_inv. rewrite length_delete by by apply lookup_lt_is_Some_2. lia. }
    rewrite Hdel in Hrep, Hrel'. eapply wp_mono; [by eapply erase_root_empty_spec|]. cbn beta. intros _ t' (cs' & G' & Hst' & Hr & Hks & Hkp').
    exists G', None. split_and!; [|by eapply keeps_trans|cbn; by rewrite Hdel]. exists empty_anchor, cs'. cbn [values contents]. split_and!; [done|done| |by rewrite Hks].
    rewrite <- list_fmap_compose in Hr.
    replace (prod_map Datatypes.id (erased_pos (length vals) k) <$> pos) with (prod_map Datatypes.id lose_pos ∘ prod_map Datatypes.id (erase_pos k) <$> pos); [done|].
    apply list_fmap_ext. intros _ [i q] _. cbn. f_equal. unfold erased_pos. rewrite decide_True by done. by destruct q; cbn; repeat case_decide.
  - eapply wp_mono; [eapply erase_root_spec; [exact Hst|exact Hrep|exact Hrel'|]|].
    + intros Hz. apply (f_equal length) in Hz. rewrite length_delete in Hz by by apply lookup_lt_is_Some_2. cbn in Hz. lia.
    + cbn beta. intros _ t' Hfin. by eapply (finished_erased _ _ _ _ _ (Leaf lf vals) (Leaf lf (delete k vals))).
Qed.

Lemma erase_spec G n o pos id (R : nat) v t : inv G n o pos t -> find_cursor id pos = Some (At R) -> values o !! R = Some v -> zlen (values o) <= 2 ^ 32 ->
  wp (erase derive_key id) t (fun _ => erased G n o pos R).
Proof.
  intros Hinv Hid Hv Hlen. destruct (cursor_leaf derive_key key_less cfg bs _ _ _ _ _ _ _ _ Hinv Hid Hv)
    as (anc & cs & h & tr & ps & lf & pre & vals & post & k & -> & Hst & Hrep0 & Hrel & Hnd & Hp & -> & Hk & Hc).
  apply at_path_sub, at_sub_inv in Hp as (fs & -> & -> & -> & ->). apply lookup_lt_Some in Hk. cbn [values] in Hlen.
  destruct (proj1 (shape_layout _ _ _ _ _ _) (tr_shape _ _ _ _ _ _ _ _ Hrep0)) as [_ Hd].
  pose proof (dense_inner_count _ _ Hd) as Hic. pose proof (dense_leaf_count _ _ Hd) as Hlc.
  destruct (tree_rep_weak _ _ _ _ _ _ _ _ Hrep0) as [Hrep _]; [lia|].
  assert (at_path (plug fs (Leaf lf vals)) (entries fs) lf (pre_of fs) vals (post_of fs)) as Hpath by apply at_path_sub, at_sub_plug.
  pose proof (layout_depth _ _ _ _ _ _ _ _ _ _ _ (wr_layout _ _ _ _ _ _ _ _ Hrep) Hpath) as Hh. rewrite length_entries in Hh. subst h.
  pose proof (dense_height _ _ Hcfg _ _ _ _ _ _ _ Hst (wr_stored _ _ _ _ _ _ _ _ Hrep) (wr_nodup _ _ _ _ _ _ _ _ Hrep) Hd) as Hh64.
  pose proof (leaf_holds _ _ _ _ _ _ _ _ _ (wr_stored _ _ _ _ _ _ _ _ Hrep) Hpath) as Hl. destruct (holds_leaf _ _ _ _ _ Hl) as (_ & Hcap & Hc32).
  pose proof (wr_height _ _ _ _ _ _ _ _ Hrep) as Hht. pose proof (wr_size _ _ _ _ _ _ _ _ Hrep) as Hsz.
  assert (1 <= size anc < 2 ^ 64) as Hs64.
  { destruct (stored_bounds cfg bs Hcfg _ _ _ _ _ _ Hst (wr_stored _ _ _ _ _ _ _ _ Hrep) (wr_nodup _ _ _ _ _ _ _ _ Hrep)) as [Hb _].
    rewrite Hsz. split; [|done]. rewrite plug_contents, !length_app. cbn [contents]. lia. }
  unfold erase. wp_step. apply (get_cursor_spec _ _ _ _ _ _ _ _ _ _ Hst Hc). cbn [c_invalid c_deleted m_parents m_leaf m_index]. rewrite length_entries.
  wp_step. wp_step. wp_step. wp_step. wp_step. apply (get_anchor_spec _ _ _ _ _ _ _ _ Hst). rewrite Hht, wrap_small by (split; lia). wp_step. wp_step.
  wp_step. wp_step. wp_step.
  apply (tree_leaf_remove_spec cfg bs _ _ _ _ _ _ _ _ _ Hst Hl Hk). intros b t1 Hb Hst1. destruct (erase_leaf_rep _ _ _ _ Hk _ _ _ _ Hrep Hb) as [Hrep1 Hkp1].
  wp_step. apply (mod_anchor_spec _ _ _ _ _ _ _ _ _ Hst1). intros t2 Hst2. rewrite (wrap_small 64) in Hst2 by (split; lia). fold (with_size (size anc - 1) anc) in Hst2. wp_step.
  eapply (for_cursors_spec cfg bs (leaf_rel fs (plug fs (Leaf lf vals)) id)); [exact Hst2| | |].
  - eapply rel_mono; [|eapply rel_find_only; [exact Hrel|done|exact Hc]]. cbn beta. intros i c q [Hq Hi]. split; [done|]. intros ->. by rewrite Hi.
  - intros i c q t3 Hq Hst3. eapply erase_cursor_spec; [exact Hk|exact Hst3|apply Hrep|apply Hrep|lia|exact Hq].
  - intros cs' t3 Hrel3 Hks Hst3. apply rel_map in Hrel3. change (wp (settle id lf (zlen fs)) t3 (fun _ => erased G n (Some (plug fs (Leaf lf vals))) pos (length (pre_of fs) + k))).
    assert (NoDup cs'.*1) as Hnd' by by rewrite Hks. replace (length fs) with (length fs + 0)%nat in Hd by lia. apply dense_plug in Hd as [Hd _].
    destruct fs as [|f fs0 _] using rev_ind.
    + eapply settle_root_spec; try done.
    + eapply wp_mono; [eapply settle_parent_spec; [exact Hst3|exact Hrep1|exact Hrel3| |done]|].
      * rewrite find_map, Hid. cbn. by rewrite decide_True.
      * cbn beta. intros _ t4 Hfin. eapply (finished_erased _ _ _ _ _ _ _ _ _ Hfin); [done|done|by apply erase_contents|].
        pose proof (shape_size _ _ _ _ _ _ (tr_shape _ _ _ _ _ _ _ _ Hrep0)) as Hsize.
        assert (2 ^ 1 <= 2 ^ length (fs0 ++ [f]))%nat by (apply Nat.pow_le_mono_r; [lia|rewrite length_app; cbn; lia]). cbn in *. lia.
Qed.

End erase.
End btree_erase.
