(* ===== verification/BTreeClear.v ===== *)
(** * Removal of all values from B+ trees

    The specification of [clear], which frees the blocks of all nodes, and of
    the checks of [raw_btree_cursor::erase]. *)

From Stdlib Require Import Strings.Byte Sorting.Sorted.
From S2P Require Import Prelude MathOps Serialization Blocks EngineSpec FreeList Allocator Extent BTreeNodes BTree BTreeShape BTreeStore BTreeSearch BTreePaths BTreeSplit BTreeCursors BTreeInsert BTreeLeafInsert BTreeOps BTreeRemove BTreeZone BTreeRebalance BTreeLeafBalance BTreePropagate BTreeErase.

Module btree_clear.
Import btree btree_shape btree_store btree_search btree_paths btree_split btree_cursors btree_insert btree_leaf_insert btree_ops btree_remove btree_zone btree_rebalance btree_leaf_balance btree_propagate btree_erase.

Section clear.
Context {A : Type} `{AllocatorSpec A}.
Context (derive_key : bytes -> bytes) (key_less : bytes -> bytes -> bool) `{KeyOrder key_less}.
Context (cfg : config) (bs : Z) (Hcfg : config_ok cfg bs) (supports1 : al_supports 1).
Context (derive_length : forall v, zlen v = value_size cfg -> zlen (derive_key v) = key_size cfg).
Abbreviation T := (tree A).
Abbreviation st := (st cfg bs).
Abbreviation holds := (holds cfg bs).
Abbreviation stored := (stored cfg bs).
Abbreviation tree_rep := (tree_rep derive_key key_less cfg bs).
Abbreviation inv := (inv derive_key key_less cfg bs).
Implicit Types (anc : anchor) (cs : list (nat * cursor)) (pos : list (nat * position)) (G : gmap Z bytes).
Implicit Types (n : Z) (t : T) (key : bytes) (id : nat).

(** ** The blocks *)

(** The blocks [l] were freed, all others are unchanged. *)
Definition released G (l : list Z) G' : Prop := forall k, G' !! k = if decide (k ∈ l) then None else G !! k.

Lemma released_app G l G' l' G'' : released G l G' -> released G' l' G'' -> released G (l ++ l') G''.
Proof.
  intros H1' H2' k. rewrite H2', H1'. destruct (decide (k ∈ l)), (decide (k ∈ l')), (decide (k ∈ l ++ l')) as [Hin|Hin]; rewrite elem_of_app in Hin; tauto.
Qed.
Lemma released_one G i : released G [i] (delete i G).
Proof.
  intros k. destruct (decide (k = i)) as [->|Hne]; [rewrite lookup_delete_eq, decide_True by (by left); done|].
  rewrite lookup_delete_ne, decide_False by (rewrite ?list_elem_of_singleton; done). done.
Qed.
Lemma released_stored G l G' (b : list (Z * body)) : released G l G' -> stored G b -> (forall k, k ∈ b.*1 -> k ∉ l) -> stored G' b.
Proof.
  intros Hr Hs Hd. apply Forall_forall. intros e He. pose proof (proj1 (Forall_forall _ _) Hs _ He) as (x & Hx & Hok). exists x. split; [|done].
  rewrite Hr, decide_False; [done|]. apply Hd, list_elem_of_fmap. by exists e.
Qed.
Lemma released_holds G l G' i x : released G l G' -> holds G i x -> i ∉ l -> holds G' i x.
Proof. intros Hr (b & Hb & Hok) Hi. exists b. by rewrite Hr, decide_False. Qed.

Lemma clear_nodes_spec h : forall c anc cs G n t, dense h c -> st anc cs G n t -> stored G (blocks_of c) -> NoDup (ids c) ->
  wp (clear_nodes h (node_id c)) t (fun _ t' => exists G', st anc cs G' n t' /\ released G (ids c) G').
Proof.
  induction h as [|h IH]; intros [i vals|i keys ch] anc cs G n t Hlv Hst Hs Hnd; try done; cbn [clear_nodes node_id].
  - wp_step. wp_step. apply Forall_cons in Hs as [Hi _]. eapply tree_free_spec; [done..|exact Hst|exact Hi|]. intros t' Hst'. exists (delete i G). split; [done|]. apply released_one.
  - apply stored_inner in Hs as [Hi Hs]. rewrite ids_inner in Hnd. apply NoDup_cons in Hnd as [Hin Hnd].
    wp_step. wp_step. apply (tree_read_internal_spec _ _ Hcfg _ _ _ _ _ _ _ _ Hst Hi). intros t1 Hst1. wp_step.
    apply (child_count_spec _ _ _ _ _ _ _ _ _ _ _ Hst1 Hi). intros t2 Hst2. rewrite length_map, Nat2Z.id.
    match goal with |- wp (?f _ _) _ _ => set (clear_children := f) end.
    assert (forall r l G1 t3, ch = l ++ r -> st anc cs G1 n t3 -> released G (all_blocks l).*1 G1 ->
      wp (clear_children (length r) (zlen l)) t3 (fun _ t' => exists G', st anc cs G' n t' /\ released G (all_blocks ch).*1 G')) as Hloop.
    { induction r as [|c r IHr]; intros l G1 t3 -> Hst3 Hrel.
      - cbn [length clear_children]. wp_step. exists G1. rewrite app_nil_r. by split.
      - cbn [length clear_children]. destruct Hlv as [_ Hlv]. apply Forall_app in Hlv as [_ Hlc]. apply Forall_cons in Hlc as [Hlc _]. wp_step.
        assert (i ∉ (all_blocks l).*1 /\ NoDup (ids c) /\ forall k, k ∈ ids c -> k ∉ (all_blocks l).*1) as (Hil & Hndc & Hdis).
        { rewrite ids_child in Hnd, Hin. apply NoDup_app in Hnd as (_ & Hd1 & Hd2). apply NoDup_app in Hd2 as (Hd2 & _ & _). rewrite not_elem_of_app in Hin.
          split_and!; [tauto|done|]. intros k Hk Hk'. apply (Hd1 k Hk'). apply elem_of_app. by left. }
        apply (get_child_spec _ _ _ _ _ _ _ _ _ _ _ (node_id c) _ Hst3 (released_holds _ _ _ _ _ Hrel Hi Hil));
          [rewrite map_app, <- (length_map node_id l); by apply list_lookup_middle|]. intros t4 Hst4. wp_step.
        apply stored_mid in Hs as (_ & Hs & _). eapply wp_mono; [eapply IH; [exact Hlc|exact Hst4|by eapply released_stored|done]|].
        cbn beta. intros _ t5 (G2 & Hst5 & Hrel2). replace (zlen l + 1) with (zlen (l ++ [c])) by (rewrite length_app; cbn; lia).
        eapply IHr; [by rewrite <- app_assoc|exact Hst5|]. rewrite all_blocks_app, fmap_app. eapply released_app; [exact Hrel|]. cbn. by rewrite app_nil_r. }
    eapply wp_mono; [apply (Hloop ch [] G t2 eq_refl Hst2); by intros k|]. cbn beta. intros _ t3 (G1 & Hst3 & Hrel).
    eapply tree_free_spec; [done..|exact Hst3|by eapply released_holds|]. intros t4 Hst4. exists (delete i G1). split; [done|].
    rewrite ids_inner. intros k. pose proof (released_app _ _ _ _ _ Hrel (released_one G1 i) k) as Hk. rewrite Hk.
    destruct (decide (k ∈ (all_blocks ch).*1 ++ [i])) as [Hin'|Hin'], (decide (k ∈ i :: (all_blocks ch).*1)) as [Hin2|Hin2]; try done;
      rewrite elem_of_app, list_elem_of_singleton in Hin'; rewrite elem_of_cons in Hin2; tauto.
Qed.
(** ** The tree *)

Definition cleared G n o pos t' : Prop :=
  exists G', inv G' n None (prod_map Datatypes.id lose_pos <$> pos) t' /\ released G (tree_ids o) G'.

Lemma clear_cursor_spec anc cs G n t tr (c : cursor) q : st anc cs G n t -> cursor_ok (Some tr) c q ->
  wp (ret (if c_invalid c then c else set_deleted true invalid_cursor) : M T cursor) t (fun c' t' => cursor_ok None c' (lose_pos q) /\ st anc cs G n t').
Proof.
  intros Hst Hc. wp_step. split; [|done]. destruct (c_invalid c) eqn:Hv.
  - destruct q; try done; by destruct Hc as (? & _ & ? & ? & ? & ? & ? & ? & _ & _ & _ & ->).
  - destruct (cursor_on_path _ _ _ Hc Hv) as ([] & r & -> & _); done.
Qed.
Lemma lose_same cs pos : related (cursor_ok None) cs pos -> prod_map Datatypes.id lose_pos <$> pos = pos.
Proof.
  induction 1 as [|[i c] [j q] cs pos [_ Hc] _ IH]; [done|]. rewrite fmap_cons, IH. f_equal. destruct q; try done; by destruct Hc as (? & ? & _).
Qed.

Lemma tree_clear_spec G n o pos t : inv G n o pos t -> wp clear t (fun _ => cleared G n o pos).
Proof.
  intros (anc & cs & Hst & Hok & Hrel & Hnd). unfold clear. wp_step. apply (get_anchor_spec _ _ _ _ _ _ _ _ Hst). destruct o as [tr|].
  2: { cbn in Hok. subst anc. cbn [size empty_anchor]. change (0 =? 0) with true. cbn iota. wp_step. exists G. split; [|done].
       exists empty_anchor, cs. rewrite (lose_same cs pos Hrel). by split_and!. }
  destruct Hok as [h Hrep]. destruct (proj1 (shape_layout _ _ _ _ _ _) (tr_shape _ _ _ _ _ _ _ _ Hrep)) as [_ Hd].
  rewrite (tr_size _ _ _ _ _ _ _ _ Hrep), (tr_height _ _ _ _ _ _ _ _ Hrep), (tr_root _ _ _ _ _ _ _ _ Hrep).
  destruct (Z.eqb_spec (zlen (contents tr)) 0) as [Hz|_]; [apply dense_nonempty in Hd; destruct (contents tr); [done|cbn in Hz; lia]|]. wp_step.
  eapply (for_cursors_spec cfg bs (fun _ => cursor_ok (Some tr)) (fun _ c q => cursor_ok None c (lose_pos q))); [exact Hst|exact Hrel| |].
  { intros i c q t' Hc Hst'. by eapply clear_cursor_spec. }
  intros cs' t1 Hrel' Hks Hst1.
  do 7 (wp_step; match goal with Hs : btree_store.st _ _ _ _ _ _ ?t |- wp _ ?t _ => apply (mod_anchor_spec _ _ _ _ _ _ _ _ _ Hs) end; intros ? ?).
  wp_step. wp_step; [apply Z.leb_le; lia|]. replace (Z.to_nat (Z.of_nat h + 1) - 1)%nat with h by lia.
  eapply wp_mono; [eapply clear_nodes_spec; [exact Hd|eassumption|apply Hrep|apply Hrep]|]. cbn beta. intros _ t9 (G' & Hst9 & Hr). exists G'. split; [|done].
  exists empty_anchor, cs'. split_and!; [done|done| |by rewrite Hks]. by apply (rel_map (fun _ => cursor_ok None)).
Qed.

(** ** [raw_btree_cursor::erase] *)

Lemma cursor_erase_spec G n o pos id (R : nat) v t : inv G n o pos t -> find_cursor id pos = Some (At R) -> values o !! R = Some v -> zlen (values o) <= 2 ^ 32 ->
  wp (cursor_erase derive_key id) t (fun _ => erased derive_key key_less cfg bs G n o pos R).
Proof.
  intros Hinv Hid Hv Hlen. destruct (cursor_leaf derive_key key_less cfg bs _ _ _ _ _ _ _ _ Hinv Hid Hv)
    as (anc & cs & h & tr & ps & leaf & pre & vals & post & k & -> & Hst & Hrep & Hrel & Hnd & Hp & -> & Hk & Hc).
  unfold cursor_erase. wp_step. apply (get_cursor_spec _ _ _ _ _ _ _ _ _ _ Hst Hc). wp_step.
  apply (check_element_valid_spec derive_key key_less cfg bs anc cs G n h tr ps leaf pre vals post k t _ Hst Hrep Hp); [by eapply lookup_lt_Some|].
  intros t1 Hst1. eapply erase_spec; try done. exists anc, cs. split_and!; try done. by exists h.
Qed.
Lemma cursor_erase_error G n o pos id p t : inv G n o pos t -> find_cursor id pos = Some p -> is_at p = false ->
  cursor_erase derive_key id t = (t, Err bad_cursor).
Proof.
  intros (anc & cs & Hst & Hok & Hrel & Hnd) Hid Hp. destruct (related_find _ _ _ _ _ Hrel Hid) as (c & Hc & Hcp).
  destruct (not_at_flags _ _ _ Hcp Hp) as [Hf1 Hf2]. unfold cursor_erase, get_cursor, check_element_valid, gets, bind, throw_if.
  rewrite (st_cursors _ _ _ _ _ _ _ Hst), Hc. cbn. rewrite Hf1. cbn. destruct Hf2 as [-> | ->]; [done|]. by destruct (c_deleted c).
Qed.
End clear.
End btree_clear.
