(* ===== verification/BTreeHeight.v ===== *)
(** * The height of a B+ tree

    A removal never increases the height of a tree, whatever happens in it.
    Only two places assign the height: the removal of the last value of the
    root, and the replacement of the root by its only child. *)

From Stdlib Require Import Strings.Byte.
From S2P Require Import Prelude Blocks EngineSpec FreeList Allocator BTreeNodes BTree BTreeRemove.

Module btree_height.
Import btree btree_remove.

Section height.
Context {A : Type} `{Allocator A}.
Context (derive_key : bytes -> bytes).
Abbreviation T := (tree A).
Implicit Types (t : T).

Definition height_of t : Z := height (m_anchor t).

(** The height is not assigned. *)
Definition same_height {X} (m : M T X) : Prop := forall t, height_of (m t).1 = height_of t.
(** The only height that is assigned is [v]. *)
Definition sets_height (v : Z) {X} (m : M T X) : Prop := forall t, height_of (m t).1 = height_of t \/ height_of (m t).1 = v.
Definition lowers {X} (m : M T X) : Prop := forall t, 1 <= height_of t < 2 ^ 32 -> height_of (m t).1 <= height_of t.

Lemma same_bind {X Y} (m : M T X) (k : X -> M T Y) : same_height m -> (forall x, same_height (k x)) -> same_height (bind m k).
Proof. intros Hm Hk t. specialize (Hm t). unfold bind. destruct (m t) as [t' [x|e]]; [|done]. cbn in Hm. by rewrite Hk. Qed.
Lemma sets_bind v {X Y} (m : M T X) (k : X -> M T Y) : sets_height v m -> (forall x, sets_height v (k x)) -> sets_height v (bind m k).
Proof.
  intros Hm Hk t. specialize (Hm t). unfold bind. destruct (m t) as [t' [x|e]]; [|done]. cbn [fst] in Hm. destruct (Hk x t') as [-> | ->]; [done|by right].
Qed.
Lemma lowers_bind {X Y} (m : M T X) (k : X -> M T Y) : same_height m -> (forall x, lowers (k x)) -> lowers (bind m k).
Proof.
  intros Hm Hk t Ht. specialize (Hm t). unfold bind. destruct (m t) as [t' [x|e]]; cbn [fst] in *; [|lia]. rewrite <- Hm. apply Hk. by rewrite Hm.
Qed.
Lemma same_sets v {X} (m : M T X) : same_height m -> sets_height v m.
Proof. intros Hm t. by left. Qed.
Lemma same_lowers {X} (m : M T X) : same_height m -> lowers m.
Proof. intros Hm t _. by rewrite Hm. Qed.
Lemma sets_lowers {X} (m : M T X) : sets_height 0 m -> lowers m.
Proof. intros Hm t Ht. destruct (Hm t) as [-> | ->]; lia. Qed.

Lemma same_on_alloc {X} (m : M A X) : same_height (on_alloc m).
Proof. intros t. unfold on_alloc, zoom. by destruct (m (m_alloc t)). Qed.
Lemma same_mod_anchor f : (forall a, height (f a) = height a) -> same_height (mod_anchor f).
Proof. intros Hf t. apply Hf. Qed.
Lemma same_map_cursors f l : (forall i c, same_height (f i c)) -> same_height (map_cursors f l).
Proof.
  intros Hf. induction l as [|[i c] l IH]; cbn [map_cursors]; [done|]. apply same_bind; [done|]. intros c'. apply same_bind; [done|]. by intros l'.
Qed.
Lemma same_for_cursors f : (forall i c, same_height (f i c)) -> same_height (for_cursors f).
Proof. intros Hf. apply same_bind; [done|]. intros l. apply same_bind; [by apply same_map_cursors|]. by intros l'. Qed.

(** Unfolds a function to its assignments. *)
Ltac same :=
  repeat match goal with
  | |- forall _, _ => intros ?
  | |- same_height (bind _ _) => apply same_bind
  | |- same_height (on_alloc _) => apply same_on_alloc
  | |- same_height (mod_anchor _) => apply same_mod_anchor; by intros []
  | |- same_height (for_cursors _) => apply same_for_cursors
  | |- same_height (if ?b then _ else _) => destruct b
  | |- same_height (match ?x with _ => _ end) => destruct x
  | |- same_height (ret _) => done
  | |- same_height (throw _) => done
  | |- same_height (gets _) => done
  | |- same_height get => done
  | |- same_height (lift_result _) => done
  | |- same_height (modify _) => done
  | |- same_height (guard_else _ _) => unfold guard_else
  | |- same_height (throw_if _ _) => unfold throw_if
  | Hx : forall _, same_height _ |- same_height _ => apply Hx
  | |- same_height (?f _ _ _ _ _ _ _ _) => unfold f
  | |- same_height (?f _ _ _ _ _ _ _) => unfold f
  | |- same_height (?f _ _ _ _ _ _) => unfold f
  | |- same_height (?f _ _ _ _ _) => unfold f
  | |- same_height (?f _ _ _ _) => unfold f
  | |- same_height (?f _ _ _) => unfold f
  | |- same_height (?f _ _) => unfold f
  | |- same_height (?f _) => unfold f
  end.

Lemma same_get_anchor : same_height get_anchor.
Proof. done. Qed.
Lemma same_check_element c : same_height (check_element_valid c).
Proof.
  assert (forall l p, same_height (check_stack p l)) as Hs.
  { induction l as [|e l IH]; intros p; cbn [check_stack]; [done|]. apply same_bind; [same|]. intros _. apply same_bind; [same|]. intros n. apply same_bind; [same|]. intros _.
    apply same_bind; [same|]. intros _. apply IH. }
  unfold check_element_valid. repeat (apply same_bind; [first [apply Hs|same]|intros ?]). same.
Qed.
Lemma same_steal_leaf parent leaf i n j : same_height (steal_leaf_entry derive_key parent leaf i n j).
Proof. same. Qed.
Lemma same_merge_leaf parent leaf i n j : same_height (merge_leaf derive_key parent leaf i n j).
Proof. same. Qed.
Lemma same_steal_internal parent s node i n j : same_height (steal_internal_entry parent s node i n j).
Proof. same. Qed.
Lemma same_merge_internal parent s node i n j : same_height (merge_internal parent s node i n j).
Proof. same. Qed.

Lemma sets_set_height v : sets_height v (set_height v).
Proof. intros t. by right. Qed.
Lemma shrink_root_lowers node : lowers (shrink_root node).
Proof.
  intros t Ht. assert (forall a, sets_height (u32 (height a - 1)) (assert! (node =? root a) ;;; let* n := child_count node in
    if n =? 1 then let* c := get_child node 0 in set_root c ;;; set_height (u32 (height a - 1)) ;;; free_internal node ;;; for_cursors (fun _ => drop_root_cursor node) else ret tt)) as Hs.
  { intros a. apply sets_bind; [apply same_sets; same|]. intros _. apply sets_bind; [apply same_sets; same|]. intros n. destruct (n =? 1); [|by apply same_sets].
    apply sets_bind; [apply same_sets; same|]. intros c. apply sets_bind; [apply same_sets; same|]. intros _. apply sets_bind; [apply sets_set_height|]. intros _. apply same_sets. same. }
  change (height_of ((let a := m_anchor t in assert! (node =? root a) ;;; let* n := child_count node in
    if n =? 1 then let* c := get_child node 0 in set_root c ;;; set_height (u32 (height a - 1)) ;;; free_internal node ;;; for_cursors (fun _ => drop_root_cursor node) else ret tt) t).1 <= height_of t).
  cbn zeta. destruct (Hs (m_anchor t) t) as [-> | ->]; [lia|]. unfold height_of in *. rewrite wrap_small; [lia|]. split; lia.
Qed.
Lemma erase_root_lowers leaf : lowers (erase_root leaf).
Proof.
  apply sets_lowers. unfold erase_root. apply sets_bind; [apply same_sets; same|]. intros n. destruct (n =? 0); [|by apply same_sets].
  do 7 (apply sets_bind; [first [apply sets_set_height|apply same_sets; same]|intros ?]). apply same_sets. same.
Qed.

Ltac lowers_step := apply lowers_bind; [solve [same|apply same_merge_internal|apply same_merge_leaf|apply same_steal_internal|apply same_steal_leaf]|intros ?].
Lemma propagate_lowers k : forall id node child i, lowers (propagate k id node child i).
Proof.
  induction k as [|k IH]; intros id node child i; cbn [propagate]; do 9 lowers_step; [apply shrink_root_lowers|].
  do 2 lowers_step. case_match; [by apply same_lowers|]. do 4 lowers_step.
  case_match; [apply same_lowers; case_match; [apply same_steal_internal|done]|]. do 2 lowers_step.
  case_match; [apply same_lowers; case_match; [apply same_steal_internal|done]|]. repeat case_match; try (by apply same_lowers); do 2 lowers_step; apply IH.
Qed.
Lemma propagate_leaf_lowers id child i : lowers (propagate_leaf_deletion id child i).
Proof. unfold propagate_leaf_deletion. do 3 lowers_step. apply propagate_lowers. Qed.
Lemma erase_edge_lowers leaf id : lowers (erase_edge derive_key leaf id).
Proof.
  unfold erase_edge. do 5 lowers_step. repeat case_match; try (by apply same_lowers); repeat (first [apply propagate_leaf_lowers|lowers_step]).
Qed.
Lemma erase_inner_lowers leaf id : lowers (erase_inner derive_key leaf id).
Proof.
  unfold erase_inner. do 2 lowers_step. case_match; [by apply same_lowers|]. do 4 lowers_step.
  case_match; [apply same_lowers; case_match; [apply same_steal_leaf|done]|]. do 2 lowers_step.
  case_match; [apply same_lowers; case_match; [apply same_steal_leaf|done]|]. repeat case_match; try (by apply same_lowers); repeat (first [apply propagate_leaf_lowers|lowers_step]).
Qed.

(** A removal does not increase the height. *)
Lemma cursor_erase_lowers id : lowers (cursor_erase derive_key id).
Proof.
  unfold cursor_erase. lowers_step. apply lowers_bind; [apply same_check_element|]. intros _. unfold erase. do 8 lowers_step. lowers_step.
  case_match; [apply erase_root_lowers|]. do 2 lowers_step. case_match; [apply erase_edge_lowers|apply erase_inner_lowers].
Qed.

(** Searches and moves of cursors do not assign the height. *)
Context (key_less : bytes -> bytes -> bool).
Lemma same_partition_point fuel before : (forall i, same_height (before i)) -> forall first count, same_height (partition_point fuel before first count).
Proof. intros Hb. induction fuel as [|fuel IH]; intros first count; cbn [partition_point]; (case_match; [done|]); [done|]. apply same_bind; [done|]. intros []; apply IH. Qed.
Lemma same_seek_down level choose : (forall i, same_height (choose i)) -> forall current, same_height (seek_down level choose current).
Proof. intros Hc. induction level as [|level IH]; intros current; cbn [seek_down]; [done|]. do 4 (apply same_bind; [same|intros ?]). done. Qed.
Lemma same_find_last can_move l : (forall e, same_height (can_move e)) -> forall below, same_height (find_last can_move l below).
Proof. intros Hc. induction l as [|e l IH]; intros below; cbn [find_last]; [done|]. apply same_bind; [done|]. intros []; [done|apply IH]. Qed.
Ltac same_search :=
  repeat first
  [ apply same_seek_down | apply same_find_last | apply same_check_element
  | match goal with
    | |- forall _, _ => intros ?
    | |- same_height (search _ _) => apply same_partition_point
    | |- same_height (bind _ _) => apply same_bind
    | |- same_height (match ?x with _ => _ end) => destruct x
    | |- same_height (next_leaf _) => unfold next_leaf
    | |- same_height (next_parents _) => unfold next_parents
    | |- same_height (prev_parents _) => unfold prev_parents
    | |- same_height (descend _ _ _) => unfold descend
    | |- same_height (bound_internal _ _ _ _) => unfold bound_internal, lower_bound_internal, upper_bound_internal
    | |- same_height (bound_leaf _ _ _ _ _) => unfold bound_leaf, lower_bound_leaf, upper_bound_leaf
    end
  | solve [same] ].

Lemma same_seek_bound which key id : same_height (seek_bound derive_key key_less which key id).
Proof. unfold seek_bound. same_search. Qed.
Lemma same_find key id : same_height (cursor_find derive_key key_less key id).
Proof. unfold cursor_find, find. repeat first [apply same_seek_bound|apply same_bind; [|intros ?]]; same. Qed.
Lemma same_init_position mx id : same_height (init_position mx id).
Proof. unfold init_position. same_search. Qed.
Lemma same_move_prev id : same_height (move_prev id).
Proof. unfold move_prev. same_search. Qed.
Lemma same_get id : same_height (cursor_get id).
Proof. unfold cursor_get. same_search. Qed.
End height.
End btree_height.
