(* ===== verification/BTreeHistory.v ===== *)
(** * Histories of a B+ tree

    All operations of a tree and its cursors, with removals, follow the steps
    of an abstract machine: a sorted list and the positions of the cursors.
    The machine is a relation because of one case: a cursor whose value was
    erased is between two values, and a value that is inserted in this gap may
    come before or after it. *)

From Stdlib Require Import Strings.Byte Sorting.Sorted.
From S2P Require Import Prelude MathOps Serialization Blocks EngineSpec FreeList Allocator BumpAllocator Extent BTreeNodes BTree BTreeShape BTreeStore BTreeSearch BTreePaths BTreeSplit BTreeCursors BTreeInsert BTreeLeafInsert BTreeLeafSplit BTreeOps BTreeSession BTreeRemove BTreeZone BTreeErase BTreeClear.

Module btree_history.
Import btree btree_shape btree_store btree_search btree_paths btree_split btree_cursors btree_insert btree_leaf_insert btree_leaf_split btree_ops btree_session btree_remove btree_zone btree_erase btree_clear.

(** ** Operations *)

Inductive bt_call : Type := BtOp (op : bt_op) | BtErase (id : nat) | BtClear.

Section history.
Context {A : Type} `{Allocator A}.
Context (derive_key : bytes -> bytes) (key_less : bytes -> bytes -> bool).
Abbreviation T := (tree A).
Abbreviation state := (list bytes * list (nat * position))%type.

Definition bt_exec (c : bt_call) : M T bt_out :=
  match c with
  | BtOp op => bt_run_op derive_key key_less op
  | BtErase id => cursor_erase derive_key id ;;; ret bt_none
  | BtClear => clear ;;; ret bt_none
  end.
Fixpoint bt_execs (cs : list bt_call) (t : T) : T * list (result bt_out) :=
  match cs with
  | [] => (t, [])
  | c :: cs =>
    let (t, r) := bt_exec c t in
    let (t, rs) := bt_execs cs t in
    (t, r :: rs)
  end.

(** ** The abstract machine *)

Inductive bt_step : state -> bt_call -> state -> result bt_out -> Prop :=
  | step_op s op : is_insert op = false -> bt_step s (BtOp op) (bt_spec_op derive_key key_less s op).1 (bt_spec_op derive_key key_less s op).2
  | step_new l pos value overwrite id pos' :
      has_key derive_key key_less (derive_key value) l = false ->
      let R := bound_index derive_key key_less seek_bound_lower (derive_key value) l in
      Forall2 (inserted_pos id R) pos pos' ->
      bt_step (l, pos) (BtOp (BtInsert value overwrite id)) (insert_at R value l, pos') (Ok (bt_bool true))
  | step_exists l pos value overwrite id :
      has_key derive_key key_less (derive_key value) l = true ->
      let R := bound_index derive_key key_less seek_bound_lower (derive_key value) l in
      bt_step (l, pos) (BtOp (BtInsert value overwrite id)) (if overwrite then <[R := value]> l else l, update_cursor id (At R) pos) (Ok (bt_bool false))
  | step_erase l pos id R : pos_of id (l, pos) = At R ->
      bt_step (l, pos) (BtErase id) (delete R l, prod_map Datatypes.id (erased_pos (length l) R) <$> pos) (Ok bt_none)
  | step_erase_refused s id : is_at (pos_of id s) = false -> bt_step s (BtErase id) s (Err bad_cursor)
  | step_clear l pos : bt_step (l, pos) BtClear ([], prod_map Datatypes.id lose_pos <$> pos) (Ok bt_none).
Inductive bt_steps : state -> list bt_call -> state -> list (result bt_out) -> Prop :=
  | steps_nil s : bt_steps s [] s []
  | steps_cons s c s1 r cs s2 rs : bt_step s c s1 r -> bt_steps s1 cs s2 rs -> bt_steps s (c :: cs) s2 (r :: rs).

(** Cursors exist, new ones have a new number, values have the right size;
    [live] are the numbers of the cursors. *)
Definition call_ok (value_size : Z) (live : list nat) (c : bt_call) : bool :=
  match c with
  | BtOp op => bt_ok value_size ([], (fun i => (i, AtEnd)) <$> live) op
  | BtErase id => bool_decide (id ∈ live)
  | BtClear => true
  end.
Definition live_after (live : list nat) (c : bt_call) : list nat :=
  match c with
  | BtOp (BtLink id) => live ++ [id]
  | BtOp (BtUnlink id) => filter (fun i => i <> id) live
  | _ => live
  end.
Fixpoint calls_ok (value_size : Z) (live : list nat) (cs : list bt_call) : bool :=
  match cs with
  | [] => true
  | c :: cs => call_ok value_size live c && calls_ok value_size (live_after live c) cs
  end.
Definition call_room (c : bt_call) : Z := match c with BtOp op => op_room op | _ => 0 end.
Fixpoint calls_room (cs : list bt_call) : Z := match cs with [] => 0 | c :: cs => call_room c + calls_room cs end.

(** *** The cursors of the machine *)

Lemma bt_ok_live vs (s : state) op : bt_ok vs ([], (fun i => (i, AtEnd)) <$> s.2.*1) op = bt_ok vs s op.
Proof.
  assert (forall id, has_cursor id ([] : list bytes, (fun i => (i, AtEnd)) <$> s.2.*1) = has_cursor id s) as Hc.
  { intros id. unfold has_cursor. cbn [snd]. rewrite <- list_fmap_compose.
    replace ((fst ∘ (fun i : nat => (i, AtEnd))) <$> s.2.*1) with (s.2.*1); [done|]. by rewrite <- (list_fmap_id (s.2.*1)) at 1. }
  destruct op; cbn [bt_ok]; by rewrite ?Hc.
Qed.
Lemma filter_keys {X} (l : list (nat * X)) id : (filter (fun p => p.1 <> id) l).*1 = filter (fun i => i <> id) l.*1.
Proof. induction l as [|[i x] l IH]; [done|]. rewrite fmap_cons, !filter_cons. cbn [fst]. case_decide; [|done]. by rewrite fmap_cons, IH. Qed.
Lemma map_keys {X Y} (f : X -> Y) (l : list (nat * X)) : (prod_map Datatypes.id f <$> l).*1 = l.*1.
Proof. rewrite <- list_fmap_compose. by apply list_fmap_ext. Qed.
Lemma step_live s c s' r : bt_step s c s' r -> s'.2.*1 = live_after s.2.*1 c.
Proof.
  destruct 1 as [s op Hi|l pos value ov id pos' _ R Hpos|l pos value ov id _ R|l pos id R _|s id _|l pos]; cbn [snd live_after]; try done.
  - destruct op; cbn [bt_spec_op goto fst snd]; try done; rewrite ?update_keys; try done.
    + by rewrite fmap_app.
    + apply filter_keys.
    + destruct (next_pos _ _); cbn [goto fst snd]; by rewrite ?update_keys.
    + destruct (prev_pos _ _); cbn [goto fst snd]; by rewrite ?update_keys.
    + by destruct (pos_of id s).
    + destruct (pos_of id s); try done. by destruct (bool_decide _).
  - induction Hpos as [|[i p] [j q] pos pos' [Hij _] _ IH]; [done|]. rewrite !fmap_cons, IH. cbn in *. by subst.
  - by rewrite update_keys.
  - by rewrite map_keys.
  - by rewrite map_keys.
Qed.
(** A step adds at most one value. *)
Lemma step_length s c s' r : bt_step s c s' r -> zlen s'.1 <= zlen s.1 + 1.
Proof.
  destruct 1 as [s op Hi|l pos value ov id pos' _ R Hpos|l pos value ov id _ R|l pos id R HR|s id _|l pos]; cbn [fst]; try lia.
  - destruct op; cbn [bt_spec_op goto fst snd]; try done; try lia; repeat case_match; cbn [goto fst snd]; rewrite ?length_insert; lia.
  - rewrite length_insert_at. lia.
  - destruct ov; rewrite ?length_insert; lia.
  - rewrite delete_take_drop, length_app, length_take, length_drop. lia.
  - cbn. lia.
Qed.
End history.
(** ** Refinement *)

Section refinement.
Context {A : Type} `{AllocatorSpec A}.
Context (derive_key : bytes -> bytes) (key_less : bytes -> bytes -> bool) `{KeyOrder key_less}.
Context (cfg : config) (bs : Z) (Hcfg : config_ok cfg bs) (supports1 : al_supports 1).
Context (derive_length : forall v, zlen v = value_size cfg -> zlen (derive_key v) = key_size cfg).
Abbreviation T := (tree A).
Abbreviation inv := (inv derive_key key_less cfg bs).
Abbreviation op_post := (op_post derive_key key_less cfg bs).
Abbreviation bt_step := (bt_step derive_key key_less).
Abbreviation bt_steps := (bt_steps derive_key key_less).
Implicit Types (pos : list (nat * position)) (G : gmap Z bytes) (n : Z) (t : T) (o : option node) (id : nat).

(** The call [c] is a step of the machine. *)
Definition call_spec G n o pos c t : Prop :=
  exists t' s' r, bt_exec derive_key key_less c t = (t', r) /\ bt_step (values o, pos) c s' r /\ op_post G n o s' t'.

Lemma insert_call G n o pos value overwrite id p t : inv G (n + insert_room) o pos t -> 0 <= n -> find_cursor id pos = Some p -> zlen value = value_size cfg ->
  call_spec G n o pos (BtOp (BtInsert value overwrite id)) t.
Proof.
  intros Hinv Hn Hp Hv. pose proof (cursor_insert_spec derive_key key_less cfg bs Hcfg supports1 derive_length G n o pos id value overwrite p t Hinv Hn Hp Hv) as Hins.
  cbn zeta in Hins. apply wp_run in Hins as (t' & b & Hrun & -> & pos' & Hpos & Hpost).
  exists t'. destruct (has_key derive_key key_less (derive_key value) (values o)) eqn:Hk; cbn [negb] in *.
  - eexists _, _. split_and!; [cbn; by rewrite (bind_ok _ _ _ _ _ Hrun)|by apply step_exists|]. by subst pos'.
  - eexists _, _. split_and!; [cbn; by rewrite (bind_ok _ _ _ _ _ Hrun)|by apply step_new|done].
Qed.
Lemma erase_call G n o pos id p t : inv G n o pos t -> find_cursor id pos = Some p -> zlen (values o) <= 2 ^ 32 -> call_spec G n o pos (BtErase id) t.
Proof.
  intros Hinv Hp Hlen. assert (pos_of id (values o, pos) = p) as Hpo by (unfold pos_of; cbn [snd]; by rewrite Hp). destruct (is_at p) eqn:Hat.
  - destruct p as [|r|r|]; try done.
    pose proof (cursor_erase_spec derive_key key_less cfg bs Hcfg supports1 derive_length G n o pos id r _ t Hinv Hp (at_lookup _ _ _ _ _ _ _ _ _ _ _ Hinv Hp) Hlen) as He.
    apply wp_run in He as (t' & [] & Hrun & G' & o' & Hinv' & Hkp & Hv). exists t'. eexists _, _.
    split_and!; [cbn; by rewrite (bind_ok _ _ _ _ _ Hrun)|by apply step_erase|]. by exists G', o'.
  - exists t. eexists _, _. split_and!; [|apply step_erase_refused; by rewrite Hpo|by apply post_same]. cbn [bt_exec].
    unfold bind. by rewrite (cursor_erase_error derive_key key_less cfg bs _ _ _ _ _ _ _ Hinv Hp Hat).
Qed.
Lemma clear_call G n o pos t : inv G n o pos t -> call_spec G n o pos BtClear t.
Proof.
  intros Hinv. pose proof (tree_clear_spec derive_key key_less cfg bs Hcfg supports1 derive_length G n o pos t Hinv) as Hc.
  apply wp_run in Hc as (t' & [] & Hrun & G' & Hinv' & Hrel). exists t'. eexists _, _.
  split_and!; [cbn; by rewrite (bind_ok _ _ _ _ _ Hrun)|apply step_clear|]. exists G', None. split_and!; [done|done|].
  intros k b Hk Hnk. split; [by rewrite Hrel, decide_False|by apply not_elem_of_nil].
Qed.

Lemma call_refines G n o pos c t : inv G (n + call_room c) o pos t -> 0 <= n -> call_ok (value_size cfg) pos.*1 c = true -> zlen (values o) <= 2 ^ 32 ->
  call_spec G n o pos c t.
Proof.
  intros Hinv Hn Hok Hlen. destruct c as [op|id|].
  - change pos.*1 with ((values o, pos).2.*1) in Hok. cbn [call_ok] in Hok. rewrite bt_ok_live in Hok. destruct (is_insert op) eqn:Hi.
    + destruct op; try done. cbn [call_room op_room bt_ok] in *. apply andb_true_iff in Hok as [Hid Hv%Z.eqb_eq].
      destruct (has_cursor_find _ _ _ Hid) as (p & Hp & _). by eapply insert_call.
    + assert (inv G n o pos t) as Hinv' by (destruct op; try done; cbn [call_room op_room] in Hinv; by rewrite Z.add_0_r in Hinv).
      destruct (op_refines derive_key key_less cfg bs Hcfg G n o pos op t Hinv' Hi Hok) as (t' & Hrun & Hpost). exists t'. eexists _, _. split_and!; [exact Hrun|by apply step_op|done].
  - cbn [call_room call_ok] in *. rewrite Z.add_0_r in Hinv. apply bool_decide_eq_true in Hok. destruct (find_cursor_Some _ _ Hok) as (p & Hp & _). by eapply erase_call.
  - cbn [call_room] in Hinv. rewrite Z.add_0_r in Hinv. by apply clear_call.
Qed.

Lemma calls_room_nonneg cs : 0 <= calls_room cs.
Proof. induction cs as [|c cs IH]; cbn [calls_room]; [lia|]. destruct c as [op| |]; cbn; [destruct op; cbn; unfold insert_room; lia|lia..]. Qed.

Lemma calls_refine cs : forall G n o pos t,
  inv G (n + calls_room cs) o pos t -> 0 <= n -> calls_ok (value_size cfg) pos.*1 cs = true -> zlen (values o) + zlen cs <= 2 ^ 32 ->
  exists s', bt_steps (values o, pos) cs s' (bt_execs derive_key key_less cs t).2 /\ op_post G n o s' (bt_execs derive_key key_less cs t).1.
Proof.
  induction cs as [|c cs IH]; intros G n o pos t Hinv Hn Hok Hlen; cbn [calls_room calls_ok length] in *.
  { rewrite Z.add_0_r in Hinv. exists (values o, pos). split; [constructor|]. by apply post_same. }
  apply andb_true_iff in Hok as [Hc Hok]. pose proof (calls_room_nonneg cs) as Hr.
  destruct (call_refines G (n + calls_room cs) o pos c t) as (t1 & [l1 pos1] & r & Hrun & Hstep & G1 & o1 & Hinv1 & Hv1 & Hkp1); [|lia|done|lia|].
  { by replace (n + calls_room cs + call_room c) with (n + (call_room c + calls_room cs)) by lia. }
  cbn [fst snd] in *. subst l1. pose proof (step_length _ _ _ _ _ _ Hstep) as Hl. pose proof (step_live _ _ _ _ _ _ Hstep) as Hk. cbn [fst snd] in Hl, Hk.
  destruct (IH G1 n o1 pos1 t1 Hinv1 Hn) as (s' & Hsteps & G2 & o2 & Hinv2 & Hv2 & Hkp2); [by rewrite Hk|lia|].
  cbn [bt_execs]. rewrite Hrun. destruct (bt_execs derive_key key_less cs t1) as [t2 rs]. cbn [fst snd] in *. exists s'.
  split; [by eapply steps_cons|]. exists G2, o2. split_and!; [done..|by eapply keeps_trans].
Qed.
End refinement.

(** ** Correctness *)

Section theorems.
Context {A : Type} `{AllocatorSpec A} (supports1 : al_supports 1).
Context (derive_key : bytes -> bytes) (key_less : bytes -> bytes -> bool) `{KeyOrder key_less}.
Implicit Types (a : A) (U : gset Z).
Abbreviation sorted := (sorted derive_key key_less).

(** C4: A tree refines the abstract machine: every sequence of operations of
    the tree and of any number of cursors (searches, moves, insertions,
    assignments, removals and [clear]) returns the results of a run of the
    machine.  A removal takes exactly the value of the cursor from the list;
    while leaves and internal nodes are refilled from their neighbours, merged
    and freed, all other cursors stay at their values, and the cursors at the
    removed value stay between its neighbours.  No assertion fails.  The final
    list is strictly sorted, the tree counts its values, and the blocks of the
    allocator's other clients keep their contents. *)
Theorem btree_refines_machine a U vs ks t calls :
  al_inv a U -> 0 <= vs -> 0 <= ks -> (forall v, zlen v = vs -> zlen (derive_key v) = ks) ->
  make_tree a empty_anchor vs ks = Ok t -> al_room a (calls_room calls) ->
  calls_ok vs [] calls = true -> zlen calls <= 2 ^ 32 ->
  let t' := (bt_execs derive_key key_less calls t).1 in
  exists s', bt_steps derive_key key_less ([], []) calls s' (bt_execs derive_key key_less calls t).2 /\
    sorted s'.1 /\ size (m_anchor t') = zlen s'.1 /\
    forall i, i ∈ U -> disk_block (eng_view (m_alloc t')) i = disk_block (eng_view a) i.
Proof.
  intros Ha Hvs Hks Hd Hm Hroom Hok Hlen t'.
  destruct (make_tree_inv derive_key key_less a U _ vs ks t Ha Hvs Hks Hm (calls_room_nonneg calls) Hroom) as (cfg & Hcfg & <- & <- & Hinv).
  destruct (calls_refine derive_key key_less cfg _ Hcfg supports1 Hd calls (snapshot a U) 0 None [] t Hinv) as (s' & Hsteps & G' & o' & Hinv' & Hv & Hkp);
    [done|done|cbn; lia|]. exists s'. split; [done|]. rewrite <- Hv. destruct (values_sorted _ _ _ _ _ _ _ _ _ Hinv') as [Hso Hsz]. split_and!; [done|done|].
  intros i Hi. destruct Hinv' as (anc & cs & Hst & _). eapply st_blocks; [exact Hst|]. apply (Hkp i); [by apply lookup_snapshot|apply not_elem_of_nil].
Qed.

(** C5: [erase] is exact: it removes the value of its cursor, no other.  Every
    cursor at another value still reads that value.  The erasing cursor can
    no longer be read; [move_next] takes it to the successor of the removed
    value, or to the end. *)
Theorem btree_erase_correct cfg bs G n o pos (t : tree A) id (R : nat) v :
  config_ok cfg bs -> (forall w, zlen w = value_size cfg -> zlen (derive_key w) = key_size cfg) ->
  inv derive_key key_less cfg bs G n o pos t -> find_cursor id pos = Some (At R) -> values o !! R = Some v -> zlen (values o) <= 2 ^ 32 ->
  wp (cursor_erase derive_key id) t (fun _ t' =>
    size (m_anchor t') = size (m_anchor t) - 1 /\
    (forall other r w, find_cursor other pos = Some (At r) -> r <> R -> values o !! r = Some w -> wp (cursor_get other) t' (fun x _ => x = w)) /\
    cursor_get id t' = (t', Err bad_cursor) /\
    match values o !! S R with
    | Some w => wp (move_next id) t' (fun b t2 => b = true /\ wp (cursor_get id) t2 (fun x _ => x = w))
    | None => wp (move_next id) t' (fun b _ => b = false)
    end).
Proof.
  intros Hcfg Hd Hinv Hid Hv Hlen. destruct (values_sorted _ _ _ _ _ _ _ _ _ Hinv) as [_ Hsz]. pose proof (lookup_lt_Some _ _ _ Hv) as Hlt.
  eapply wp_mono; [by eapply cursor_erase_spec|]. cbn beta. intros _ t' (G' & o' & Hinv' & _ & Hv').
  destruct (values_sorted _ _ _ _ _ _ _ _ _ Hinv') as [_ Hsz']. rewrite Hv', length_delete in Hsz' by by eexists.
  assert (forall j p, find_cursor j pos = Some p -> find_cursor j (prod_map Datatypes.id (erased_pos (length (values o)) R) <$> pos) =
    Some (erased_pos (length (values o)) R p)) as Hfind by (intros j p Hj; by rewrite find_map, Hj).
  split_and!; [lia| | |].
  - intros other r w Hr Hne Hw. pose proof (lookup_lt_Some _ _ _ Hw) as Hlr. eapply wp_mono; [eapply cursor_get_spec; [exact Hinv'| |]|].
    + rewrite (Hfind _ _ Hr). unfold erased_pos. rewrite decide_False by lia. cbn [erase_pos]. by rewrite decide_False by done.
    + rewrite Hv', delete_take_drop. case_decide.
      * rewrite lookup_app_l, lookup_take_lt; [exact Hw|lia|rewrite length_take; lia].
      * rewrite lookup_app_r; rewrite length_take, Nat.min_l by lia; [|lia]. rewrite lookup_drop. by replace (S R + (r - 1 - R))%nat with r by lia.
    + cbn beta. by intros x t2 [-> _].
  - eapply cursor_get_error; [exact Hinv'|by apply Hfind|]. unfold erased_pos. case_decide; [done|]. cbn. by rewrite decide_True.
  - pose proof (Hfind _ _ Hid) as Hid'. destruct (decide (length (values o) = 1)%nat) as [H1'|H1'].
    + replace (erased_pos (length (values o)) R (At R)) with Gone in Hid' by (unfold erased_pos; by rewrite decide_True). destruct (values o !! S R) as [w|] eqn:Hw; [apply lookup_lt_Some in Hw; lia|].
      eapply wp_mono; [by eapply (move_next_spec derive_key key_less cfg bs Hcfg G' n o')|]. cbn beta. by intros b t2 [-> _].
    + replace (erased_pos (length (values o)) R (At R)) with (Gap R) in Hid'
        by (unfold erased_pos; rewrite decide_False by done; cbn [erase_pos]; by rewrite decide_True).
      assert (values o' !! R = values o !! S R) as Hnext.
      { rewrite Hv', delete_take_drop, lookup_app_r; rewrite length_take, Nat.min_l by lia; [|lia]. rewrite lookup_drop. f_equal. lia. }
      pose proof (move_next_spec derive_key key_less cfg bs Hcfg G' n o' _ id (Gap R) _ t' Hinv' Hid' eq_refl) as Hmv. unfold at_index in Hmv.
      destruct (values o !! S R) as [w|] eqn:Hw.
      * pose proof (lookup_lt_Some _ _ _ Hnext) as HltR. rewrite decide_True in Hmv by done. eapply wp_mono; [exact Hmv|]. cbn beta. intros b t2 [-> Hinv2]. split; [done|].
        eapply wp_mono; [eapply cursor_get_spec; [exact Hinv2|by eapply find_update_eq|exact Hnext]|]. cbn beta. by intros x t3 [-> _].
      * apply lookup_ge_None in Hnext. rewrite decide_False in Hmv by lia. eapply wp_mono; [exact Hmv|]. cbn beta. by intros b t2 [-> _].
Qed.
(** The loop [for (c.move_min(); c; c.move_next())] over the values. *)
Fixpoint scan_from (fuel : nat) (more : bool) (id : nat) : M (tree A) (list bytes) :=
  if more then
    match fuel with
    | O => throw assert_failure
    | S fuel =>
      let* v := cursor_get id in
      let* more := move_next id in
      let* vs := scan_from fuel more id in
      ret (v :: vs)
    end
  else ret [].
Definition scan (fuel : nat) (id : nat) : M (tree A) (list bytes) := let* more := move_min id in scan_from fuel more id.

Lemma scan_from_spec cfg bs fuel : config_ok cfg bs -> forall G n o pos (t : tree A) id r p0,
  inv derive_key key_less cfg bs G n o (update_cursor id (at_index (values o) r) pos) t -> find_cursor id pos = Some p0 -> (length (values o) - r <= fuel)%nat ->
  wp (scan_from fuel (is_at (at_index (values o) r)) id) t (fun vs t' => vs = drop r (values o) /\ inv derive_key key_less cfg bs G n o (update_cursor id AtEnd pos) t').
Proof.
  intros Hcfg. induction fuel as [|fuel IH]; intros G n o pos t id r p0 Hinv Hid Hf; unfold at_index in *; destruct (decide (r < length (values o))%nat) as [Hr|Hr]; try lia.
  - cbn [scan_from is_at]. wp_step. split; [|done]. by rewrite drop_ge by lia.
  - cbn [scan_from is_at]. destruct (lookup_lt_is_Some_2 _ _ Hr) as [v Hv]. wp_step.
    eapply wp_mono; [eapply cursor_get_spec; [exact Hinv|by eapply find_update_eq|exact Hv]|]. cbn beta. intros w t1 [-> Hinv1]. wp_step.
    eapply wp_mono; [eapply (move_next_spec derive_key key_less cfg bs Hcfg G n o _ id (At r)); [exact Hinv1|by eapply find_update_eq|done]|].
    cbn beta. intros b t2 [-> Hinv2]. rewrite update_update in Hinv2. wp_step.
    eapply wp_mono; [eapply IH; [exact Hinv2|exact Hid|lia]|]. cbn beta. intros vs t3 [-> Hinv3]. wp_step. split; [|done]. by rewrite (drop_S _ _ _ Hv).
  - cbn [scan_from is_at]. wp_step. split; [|done]. by rewrite drop_ge by lia.
Qed.

(** C6: Iteration is complete and ends: the loop from [move_min] over
    [move_next] stops after as many rounds as the tree has values, and reads
    every value exactly once, in the order of the keys. *)
Theorem btree_scan_complete cfg bs G n o pos (t : tree A) id p0 :
  config_ok cfg bs -> inv derive_key key_less cfg bs G n o pos t -> find_cursor id pos = Some p0 ->
  wp (scan (Z.to_nat (size (m_anchor t))) id) t (fun vs _ => vs = values o /\ sorted vs).
Proof.
  intros Hcfg Hinv Hid. destruct (values_sorted _ _ _ _ _ _ _ _ _ Hinv) as [Hso Hsz]. rewrite Hsz, Nat2Z.id. unfold scan. wp_step.
  eapply wp_mono; [eapply (not_at_end_spec derive_key key_less cfg bs); [exact Hid|apply settled_at_index|by eapply (init_position_spec derive_key key_less cfg bs Hcfg false)]|].
  cbn beta. intros b t1 [-> Hinv1]. eapply wp_mono; [eapply scan_from_spec; [done|exact Hinv1|exact Hid|lia]|]. cbn beta. by intros vs t2 [-> _].
Qed.

(** C7: [clear] empties the tree: the anchor is the one of a new tree, every
    block of the tree is returned to the allocator and no other block, and
    no cursor can be read. *)
Theorem btree_clear_correct cfg bs G n o pos (t : tree A) :
  config_ok cfg bs -> (forall w, zlen w = value_size cfg -> zlen (derive_key w) = key_size cfg) ->
  inv derive_key key_less cfg bs G n o pos t ->
  wp clear t (fun _ t' => m_anchor t' = empty_anchor /\ al_inv (m_alloc t') (dom G ∖ list_to_set (tree_ids o)) /\
    (forall i b, G !! i = Some b -> i ∉ tree_ids o -> disk_block (eng_view (m_alloc t')) i = b) /\
    forall id p, find_cursor id pos = Some p -> cursor_get id t' = (t', Err bad_cursor)).
Proof.
  intros Hcfg Hd Hinv. eapply wp_mono; [by eapply tree_clear_spec|]. cbn beta. intros _ t' (G' & Hinv' & Hrel). pose proof Hinv' as (anc & cs & Hst & Hok & _). cbn in Hok. subst anc.
  split_and!; [by rewrite (st_anchor _ _ _ _ _ _ _ Hst)| | |].
  - replace (dom G ∖ list_to_set (tree_ids o)) with (dom G'); [apply Hst|]. apply set_eq. intros i. rewrite elem_of_difference, elem_of_list_to_set, !elem_of_dom.
    rewrite Hrel. case_decide; [|tauto]. split; [by intros [? ?]|tauto].
  - intros i b Hi Hni. eapply st_blocks; [exact Hst|]. by rewrite Hrel, decide_False.
  - intros id p Hp. eapply cursor_get_error; [exact Hinv'|by rewrite find_map, Hp|]. by destruct p.
Qed.

End theorems.

(** ** Examples *)

(** Removals that merge leaves and internal nodes until the tree is empty. *)
Definition sample_erases (l : list Z) : list bt_call := concat (map (fun k => [BtOp (BtFind (sample_key k) 0); BtErase 0]) l).
Definition sample_calls : list bt_call :=
  map BtOp sample_tree_ops ++ sample_erases [10; 1; 2; 12; 25; 24; 23; 11; 13; 9; 30; 7] ++ [BtOp (BtNext 0); BtOp (BtGet 0)] ++
  sample_erases [3; 4; 5; 6; 14; 15; 16; 17; 18; 19; 20; 21; 22; 8] ++ [BtOp (BtGet 1); BtOp (BtInsert (sample_entry 8) false 0); BtClear; BtErase 0].

Lemma btree_refines_machine_witness :
  exists s', bt_steps sample_derive sample_order ([], []) sample_calls s' (bt_execs sample_derive sample_order sample_calls sample_tree).2 /\ zlen s'.1 = 0.
Proof.
  destruct (btree_refines_machine sample_supports sample_derive sample_order sample_store ∅ 16 8 sample_tree sample_calls) as (s' & Hs & _ & Hsz & _).
  - apply sample_store_inv.
  - done.
  - done.
  - apply sample_derive_length.
  - vm_compute. reflexivity.
  - vm_compute. done.
  - vm_compute. reflexivity.
  - vm_compute. discriminate.
  - exists s'. split; [exact Hs|]. rewrite <- Hsz. vm_compute. reflexivity.
Defined.
Example sample_results : (bt_execs sample_derive sample_order sample_calls sample_tree).2 !! 61%nat = Some (Ok (bt_value (sample_entry 8))).
Proof. vm_compute. reflexivity. Qed.

Lemma btree_erase_correct_witness :
  wp (cursor_erase sample_derive 0) sample_state (fun _ t' => wp (cursor_get 1) t' (fun x _ => x = sample_entry 8) /\
    wp (move_next 0) t' (fun b t2 => b = true /\ wp (cursor_get 0) t2 (fun x _ => x = sample_entry 8))).
Proof.
  destruct sample_state_inv as (G & o & Hv & Hinv). eapply wp_mono.
  { eapply (btree_erase_correct sample_supports sample_derive sample_order sample_config 64 G _ o sample_positions sample_state 0 6 (sample_entry 7));
      [exact sample_config_ok|exact sample_derive_length|exact Hinv|reflexivity| |]; rewrite Hv; vm_compute; [reflexivity|discriminate]. }
  cbn beta. rewrite Hv. intros _ t' (_ & Hother & _ & Hnext). split; [|exact Hnext].
  eapply Hother; [reflexivity|done|vm_compute; reflexivity].
Defined.

Lemma btree_scan_complete_witness : wp (scan 25 2) sample_state (fun vs _ => vs = sample_values).
Proof.
  destruct sample_state_inv as (G & o & Hv & Hinv). eapply wp_mono.
  { eapply (btree_scan_complete sample_derive sample_order sample_config 64 G _ o sample_positions sample_state 2 AtEnd); [exact sample_config_ok|exact Hinv|reflexivity]. }
  cbn beta. intros vs t' [-> _]. exact Hv.
Defined.

Lemma btree_clear_correct_witness : wp clear sample_state (fun _ t' => m_anchor t' = empty_anchor /\ cursor_get 1 t' = (t', Err bad_cursor)).
Proof.
  destruct sample_state_inv as (G & o & Hv & Hinv). eapply wp_mono.
  { eapply (btree_clear_correct sample_supports sample_derive sample_order sample_config 64 G _ o sample_positions sample_state);
      [exact sample_config_ok|exact sample_derive_length|exact Hinv]. }
  cbn beta. intros _ t' (Ha & _ & _ & Hc). split; [exact Ha|]. eapply Hc. reflexivity.
Defined.

End btree_history.
