(* ===== verification/RawBTree.v ===== *)
(** * The public interface of the B+ tree

    [raw_btree] and [raw_btree_cursor] of src/container/btree.cpp hand out
    cursor objects: a cursor is registered in the tree from its creation to its
    destruction, whether a function returns or throws.  [btree] of
    include/prequel/container/btree.hpp reads and writes typed values.  The
    specifications describe the tree as the list of its values and leave the
    blocks of all other clients of the allocator alone. *)

From Stdlib Require Import Strings.Byte Sorting.Sorted.
From S2P Require Import Prelude MathOps Serialization Blocks EngineSpec FreeList Allocator BumpAllocator Extent BTreeNodes BTree BTreeShape BTreeStore BTreeSearch BTreePaths BTreeSplit BTreeCursors BTreeInsert BTreeLeafInsert BTreeLeafSplit BTreeOps BTreeSession BTreeRemove BTreeZone BTreeErase BTreeClear BTreeHeight BTreeHistory.

(** ** Destructors *)

(** [cleanup] runs at the end of the scope of a local object, also when [m]
    throws. *)
Definition scoped {S X} (m : M S X) (cleanup : M S unit) : M S X :=
  fun s => match m s with
           | (s', Ok x) => (fst (cleanup s'), Ok x)
           | (s', Err e) => (fst (cleanup s'), Err e)
           end.

Lemma wpx_scoped {S X} (m : M S X) (cleanup : M S unit) s Q R :
  wpx m s (fun x s' => wp cleanup s' (fun _ => Q x)) (fun e s' => wp cleanup s' (fun _ => R e)) -> wpx (scoped m cleanup) s Q R.
Proof. unfold wpx, wp, scoped. destruct (m s) as [s' [x|e]]; by destruct (cleanup s') as [s'' [[]|]]. Qed.
Lemma wp_scoped {S X} (m : M S X) (cleanup : M S unit) s Q : wp m s (fun x s' => wp cleanup s' (fun _ => Q x)) -> wp (scoped m cleanup) s Q.
Proof. unfold wp, scoped. destruct (m s) as [s' [x|e]]; [|done]. by destruct (cleanup s') as [s'' [[]|]]. Qed.
Lemma wp_on_exception {S X} (m : M S X) (cleanup : M S unit) s Q : wp m s Q -> wp (on_exception m cleanup) s Q.
Proof. unfold wp, on_exception. by destruct (m s) as [s' [x|e]]. Qed.

(** ** [raw_btree] and [raw_btree_cursor] *)

Module raw_btree.
Import btree btree_remove.

(** The members of [raw_btree_cursor]: the pointer to the registered cursor. *)
Definition raw_cursor : Type := option nat.
Inductive cursor_seek_t : Type := seek_none | seek_min | seek_max.

(** The address of a new object differs from those of the live ones. *)
Definition fresh_id (l : list nat) : nat := S (foldr Nat.max 0%nat l).

Section raw.
Context {A : Type} `{Allocator A}.
Context (derive_key : bytes -> bytes) (key_less : bytes -> bytes -> bool).
Abbreviation T := (tree A).

Definition new_cursor : M T nat :=
  let* id := gets (fun t => fresh_id (m_cursors t).*1) in
  link_cursor id ;;; ret id.

(** [tree::create_cursor] and its callers. *)
Definition create_cursor (seek : cursor_seek_t) : M T raw_cursor :=
  let* c := new_cursor in
  on_exception
    match seek with
    | seek_none => ret tt
    | seek_min => move_min c ;;; ret tt
    | seek_max => move_max c ;;; ret tt
    end (unlink_cursor c) ;;;
  ret (Some c).

Definition destroy (c : raw_cursor) : M T unit :=
  match c with Some id => unlink_cursor id | None => ret tt end.

(** [impl()]: the pointer of a cursor must not be null. *)
Definition impl (c : raw_cursor) : M T nat :=
  match c with Some id => ret id | None => throw bad_cursor end.

Definition raw_at_end (c : raw_cursor) : M T bool :=
  match c with
  | None => ret true
  | Some id => let* c := get_cursor id in ret (at_end c)
  end.
Definition raw_erased (c : raw_cursor) : M T bool :=
  match c with
  | None => ret false
  | Some id => let* c := get_cursor id in ret (btree.erased c)
  end.
(** The copy constructor. *)
Definition raw_copy (other : raw_cursor) : M T raw_cursor :=
  match other with
  | None => ret None
  | Some o =>
    let* c := new_cursor in
    on_exception (copy_cursor c o) (unlink_cursor c) ;;;
    ret (Some c)
  end.

Definition raw_reset (c : raw_cursor) : M T unit := let* id := impl c in put_cursor id invalid_cursor.
Definition raw_move_min (c : raw_cursor) : M T bool := let* id := impl c in move_min id.
Definition raw_move_max (c : raw_cursor) : M T bool := let* id := impl c in move_max id.
Definition raw_move_next (c : raw_cursor) : M T bool := let* id := impl c in move_next id.
Definition raw_move_prev (c : raw_cursor) : M T bool := let* id := impl c in move_prev id.
Definition raw_lower_bound (key : bytes) (c : raw_cursor) : M T bool := let* id := impl c in cursor_lower_bound derive_key key_less key id.
Definition raw_upper_bound (key : bytes) (c : raw_cursor) : M T bool := let* id := impl c in cursor_upper_bound derive_key key_less key id.
Definition raw_find (key : bytes) (c : raw_cursor) : M T bool := let* id := impl c in cursor_find derive_key key_less key id.
Definition raw_insert (value : bytes) (c : raw_cursor) : M T bool := let* id := impl c in cursor_insert derive_key key_less value false id.
Definition raw_insert_or_update (value : bytes) (c : raw_cursor) : M T bool := let* id := impl c in cursor_insert derive_key key_less value true id.
Definition raw_erase (c : raw_cursor) : M T unit := let* id := impl c in cursor_erase derive_key id.
Definition raw_set (value : bytes) (c : raw_cursor) : M T unit := let* id := impl c in cursor_set derive_key value id.
Definition raw_get (c : raw_cursor) : M T bytes := let* id := impl c in cursor_get id.

(** A new cursor on which [f] runs; the cursor is destroyed if [f] throws. *)
Definition with_new {X} (f : raw_cursor -> M T X) : M T (raw_cursor * X) :=
  let* c := create_cursor seek_none in
  let* x := on_exception (f c) (destroy c) in
  ret (c, x).
Definition tree_find (key : bytes) : M T raw_cursor := let* r := with_new (raw_find key) in ret r.1.
Definition tree_lower_bound (key : bytes) : M T raw_cursor := let* r := with_new (raw_lower_bound key) in ret r.1.
Definition tree_upper_bound (key : bytes) : M T raw_cursor := let* r := with_new (raw_upper_bound key) in ret r.1.
Definition tree_insert (value : bytes) : M T (raw_cursor * bool) := with_new (raw_insert value).
Definition tree_insert_or_update (value : bytes) : M T (raw_cursor * bool) := with_new (raw_insert_or_update value).

Definition tree_empty : M T bool := let* a := get_anchor in ret (size a =? 0).
Definition nodes : M T Z := let* a := get_anchor in ret (u64 (internal_nodes a + leaf_nodes a)).
Definition byte_size : M T Z := let* n := nodes in let* bs := gets (fun t => d_bs (eng_view (m_alloc t))) in ret (u64 (n * bs)).
End raw.

(** ** Specification

    The tree holds the values [l], its cursors are at [pos]; [F] are the blocks
    of the other clients of the allocator, which keep their contents. *)

Import btree_shape btree_store btree_cursors btree_insert btree_ops btree_session btree_erase btree_clear btree_height btree_history.

Lemma fresh_id_new l : fresh_id l ∉ l.
Proof.
  assert (forall i, i ∈ l -> (i <= foldr Nat.max 0 l)%nat) as Hl.
  { induction l as [|j l IH]; intros i Hi; [by apply elem_of_nil in Hi|]. cbn. apply elem_of_cons in Hi as [->|Hi]; [|apply IH in Hi]; lia. }
  intros Hin. apply Hl in Hin. unfold fresh_id in Hin. lia.
Qed.
Lemma find_snoc {X} id (x : X) l : id ∉ l.*1 -> find_cursor id (l ++ [(id, x)]) = Some x.
Proof.
  induction l as [|[i y] l IH]; cbn; [by rewrite decide_True|]. intros [Hne Hni]%not_elem_of_cons. rewrite decide_False by done. by apply IH.
Qed.
Lemma find_snoc_ne {X} id id' (x : X) l : id <> id' -> find_cursor id' (l ++ [(id, x)]) = find_cursor id' l.
Proof. intros Hne. induction l as [|[i y] l IH]; cbn; [by rewrite decide_False|]. by case_decide. Qed.
Lemma update_absent {X} id (x : X) l : id ∉ l.*1 -> update_cursor id x l = l.
Proof. induction l as [|[i y] l IH]; cbn; [done|]. intros [Hne Hni]%not_elem_of_cons. rewrite decide_False by done. f_equal. by apply IH. Qed.
Lemma update_snoc {X} id (x y : X) l : id ∉ l.*1 -> update_cursor id x (l ++ [(id, y)]) = l ++ [(id, x)].
Proof. intros Hni. unfold update_cursor. rewrite map_app. cbn. rewrite decide_True by done. f_equal. by apply update_absent. Qed.
Lemma filter_snoc {X} (id : nat) (x : X) l : id ∉ l.*1 -> filter (fun p => p.1 <> id) (l ++ [(id, x)]) = l.
Proof.
  intros Hni. rewrite filter_app, filter_cons_False by (intros Hn; by apply Hn). rewrite filter_nil, app_nil_r. induction l as [|[i y] l IH]; [done|].
  cbn in Hni. apply not_elem_of_cons in Hni as [Hne Hni]. rewrite filter_cons_True by done. f_equal. by apply IH.
Qed.

Section spec.
Context {A : Type} `{AllocatorSpec A}.
Context (derive_key : bytes -> bytes) (key_less : bytes -> bytes -> bool) `{KeyOrder key_less}.
Context (cfg : config) (bs : Z) (Hcfg : config_ok cfg bs) (supports1 : al_supports 1).
Context (derive_length : forall v, zlen v = value_size cfg -> zlen (derive_key v) = key_size cfg).
Abbreviation T := (tree A).
Abbreviation inv := (inv derive_key key_less cfg bs).
Implicit Types (pos : list (nat * position)) (F G : gmap Z bytes) (n : Z) (t : T) (o : option node) (id : nat) (l : list bytes).

Definition framed F G o : Prop := forall k b, F !! k = Some b -> G !! k = Some b /\ k ∉ tree_ids o.
Definition owns F n l pos t : Prop := exists G o, inv G n o pos t /\ values o = l /\ framed F G o.

Lemma framed_keeps F G o G' o' : framed F G o -> keeps G (tree_ids o) G' (tree_ids o') -> framed F G' o'.
Proof. intros Hf Hk k b Hb. destruct (Hf _ _ Hb) as [Hg Hn]. by apply Hk. Qed.
Lemma owns_sorted F n l pos t : owns F n l pos t -> sorted derive_key key_less l /\ size (m_anchor t) = zlen l.
Proof. intros (G & o & Hinv & <- & _). by eapply values_sorted. Qed.
Lemma owns_post F G n o l pos t : op_post derive_key key_less cfg bs G n o (l, pos) t -> framed F G o -> owns F n l pos t.
Proof. intros (G' & o' & Hinv & Hv & Hk) Hf. exists G', o'. split_and!; [done|done|by eapply framed_keeps]. Qed.
Lemma owns_blocks F n l pos t i b : owns F n l pos t -> F !! i = Some b -> disk_block (eng_view (m_alloc t)) i = b.
Proof. intros (G & o & (anc & cs & Hst & _) & _ & Hf) Hb. eapply st_blocks; [exact Hst|]. by apply Hf. Qed.
Lemma owns_lookup F n l pos t id r : owns F n l pos t -> find_cursor id pos = Some (At r) -> exists v, l !! r = Some v.
Proof. intros (G & o & Hinv & <- & _) Hid. eexists. by eapply at_lookup. Qed.

Lemma owns_weaken F n n' l pos t : owns F n l pos t -> 0 <= n' <= n -> owns F n' l pos t.
Proof.
  intros (G & o & (anc & cs & Hst & Hok & Hrel & Hnd) & Hv & Hf) Hn. exists G, o. split_and!; [|done..]. exists anc, cs. split_and!; [by eapply st_weaken|done..].
Qed.
(** Functions that do not change the values. *)
Lemma owns_same {X} (m : M T X) F n l pos pos' t (Q : X -> Prop) : owns F n l pos t ->
  (forall G o, inv G n o pos t -> values o = l -> wp m t (fun x t' => Q x /\ inv G n o pos' t')) -> wp m t (fun x t' => Q x /\ owns F n l pos' t').
Proof.
  intros (G & o & Hinv & Hv & Hf) Hm. eapply wp_mono; [by apply (Hm G o)|]. cbn beta. intros x t' [HQ Hinv']. split; [done|]. by exists G, o.
Qed.

Lemma new_cursor_spec F n l pos t : owns F n l pos t -> wp new_cursor t (fun id t' => id ∉ pos.*1 /\ owns F n l (pos ++ [(id, AtEnd)]) t').
Proof.
  intros (G & o & Hinv & Hv & Hf). pose proof Hinv as (anc & cs & Hst & _ & Hrel & _). unfold new_cursor. wp_step. wp_step. wp_step.
  assert (fresh_id (m_cursors t).*1 ∉ pos.*1) as Hid by (rewrite (st_cursors _ _ _ _ _ _ _ Hst), (related_keys _ _ _ Hrel); apply fresh_id_new).
  eapply wp_mono; [by eapply link_spec|]. cbn beta. intros _ t' Hinv'. wp_step. split; [done|]. by exists G, o.
Qed.
Lemma destroy_spec F n l pos id p t : owns F n l (pos ++ [(id, p)]) t -> id ∉ pos.*1 -> wp (destroy (Some id)) t (fun _ t' => owns F n l pos t').
Proof.
  intros (G & o & Hinv & Hv & Hf) Hid. cbn [destroy]. eapply wp_mono; [by eapply unlink_spec|]. cbn beta. rewrite filter_snoc by done. intros _ t' Hinv'. by exists G, o.
Qed.

(** The position that [seek] finds. *)
Definition seek_position (seek : cursor_seek_t) l : position :=
  match seek with seek_none => AtEnd | seek_min => at_index l 0 | seek_max => at_index l (length l - 1) end.

Lemma create_cursor_spec seek F n l pos t : owns F n l pos t ->
  wp (create_cursor seek) t (fun c t' => exists id, c = Some id /\ id ∉ pos.*1 /\ owns F n l (pos ++ [(id, seek_position seek l)]) t').
Proof.
  intros Ho. unfold create_cursor. wp_step. eapply wp_mono; [by apply new_cursor_spec|]. cbn beta. intros id t1 [Hid Ho1]. wp_step. apply wp_on_exception.
  pose proof (find_snoc id AtEnd pos Hid) as Hfind.
  assert (forall mx : bool, wp (init_position mx id ;;; not_at_end id) t1 (fun b t' =>
    True /\ owns F n l (pos ++ [(id, at_index l (if mx then length l - 1 else 0))]) t')) as Hmove.
  { intros mx. eapply owns_same; [exact Ho1|]. intros G o Hinv <-. eapply wp_mono.
    - eapply (not_at_end_spec derive_key key_less cfg bs); [exact Hfind|apply settled_at_index|by eapply (init_position_spec derive_key key_less cfg bs Hcfg mx)].
    - cbn beta. intros b t' [_ Hinv']. by rewrite update_snoc in Hinv'. }
  destruct seek; cbn [seek_position].
  - wp_step. wp_step. by exists id.
  - wp_step. eapply wp_mono; [apply (Hmove false)|]. cbn beta. intros _ t2 [_ Ho2]. wp_step. wp_step. by exists id.
  - wp_step. eapply wp_mono; [apply (Hmove true)|]. cbn beta. intros _ t2 [_ Ho2]. wp_step. wp_step. by exists id.
Qed.

(** A new cursor on which a search runs. *)
Lemma with_new_spec {X} (f : raw_cursor -> M T X) F n l pos t (Q : X -> Prop) p : owns F n l pos t ->
  (forall id t1, id ∉ pos.*1 -> owns F n l (pos ++ [(id, AtEnd)]) t1 ->
    wp (f (Some id)) t1 (fun x t' => Q x /\ owns F n l (update_cursor id p (pos ++ [(id, AtEnd)])) t')) ->
  wp (with_new f) t (fun r t' => Q r.2 /\ exists id, r.1 = Some id /\ id ∉ pos.*1 /\ owns F n l (pos ++ [(id, p)]) t').
Proof.
  intros Ho Hf. unfold with_new. wp_step. eapply wp_mono; [by apply (create_cursor_spec seek_none)|]. cbn beta. intros c t1 (id & -> & Hid & Ho1).
  wp_step. apply wp_on_exception. eapply wp_mono; [by apply Hf|]. cbn beta. intros x t2 [HQ Ho2]. rewrite update_snoc in Ho2 by done. wp_step. split; [done|]. by exists id.
Qed.
Lemma raw_bound_spec which key F n l pos id p0 t : which <> seek_bound_find -> owns F n l pos t -> find_cursor id pos = Some p0 ->
  wp (seek_bound derive_key key_less which key id ;;; not_at_end id) t (fun b t' =>
    b = is_at (seek_pos derive_key key_less which key l) /\ owns F n l (update_cursor id (seek_pos derive_key key_less which key l) pos) t').
Proof.
  intros Hw Ho Hid. eapply owns_same; [exact Ho|]. intros G o Hinv <-.
  eapply (not_at_end_spec derive_key key_less cfg bs); [exact Hid|apply settled_at_index|].
  eapply wp_mono; [by eapply (seek_bound_spec derive_key key_less cfg bs Hcfg which)|]. cbn beta. intros _ t' (p & Hp & Hinv'). destruct Hp as [->|[Hp _]]; [done|by destruct Hw].
Qed.
Lemma tree_lower_bound_spec key F n l pos t : owns F n l pos t ->
  wp (tree_lower_bound derive_key key_less key) t (fun c t' => exists id, c = Some id /\ id ∉ pos.*1 /\
    owns F n l (pos ++ [(id, seek_pos derive_key key_less seek_bound_lower key l)]) t').
Proof.
  intros Ho. unfold tree_lower_bound. wp_step. eapply wp_mono; [eapply (with_new_spec _ _ _ _ _ _ (fun _ => True)); [exact Ho|]|].
  - intros id t1 Hid Ho1. unfold raw_lower_bound. cbn [impl]. wp_step. wp_step.
    eapply wp_mono; [eapply (raw_bound_spec seek_bound_lower); [done|exact Ho1|by apply find_snoc]|]. cbn beta. by intros b t2 [_ ?].
  - cbn beta. intros r t1 (_ & id & -> & Hid & Ho1). wp_step. by exists id.
Qed.
Lemma tree_upper_bound_spec key F n l pos t : owns F n l pos t ->
  wp (tree_upper_bound derive_key key_less key) t (fun c t' => exists id, c = Some id /\ id ∉ pos.*1 /\
    owns F n l (pos ++ [(id, seek_pos derive_key key_less seek_bound_upper key l)]) t').
Proof.
  intros Ho. unfold tree_upper_bound. wp_step. eapply wp_mono; [eapply (with_new_spec _ _ _ _ _ _ (fun _ => True)); [exact Ho|]|].
  - intros id t1 Hid Ho1. unfold raw_upper_bound. cbn [impl]. wp_step. wp_step.
    eapply wp_mono; [eapply (raw_bound_spec seek_bound_upper); [done|exact Ho1|by apply find_snoc]|]. cbn beta. by intros b t2 [_ ?].
  - cbn beta. intros r t1 (_ & id & -> & Hid & Ho1). wp_step. by exists id.
Qed.
Lemma tree_find_spec key F n l pos t : owns F n l pos t ->
  wp (tree_find derive_key key_less key) t (fun c t' => exists id, c = Some id /\ id ∉ pos.*1 /\
    owns F n l (pos ++ [(id, find_pos derive_key key_less key l)]) t').
Proof.
  intros Ho. unfold tree_find. wp_step. eapply wp_mono; [eapply (with_new_spec _ _ _ _ _ _ (fun _ => True) (find_pos derive_key key_less key l)); [exact Ho|]|].
  - intros id t1 Hid Ho1. unfold raw_find. cbn [impl]. wp_step. wp_step. eapply owns_same; [exact Ho1|]. intros G o Hinv <-.
    eapply wp_mono; [eapply (not_at_end_spec derive_key key_less cfg bs); [by apply find_snoc|apply settled_find|eapply (btree_find_spec derive_key key_less cfg bs Hcfg); [exact Hinv|by apply find_snoc]]|].
    cbn beta. by intros b t2 [_ ?].
  - cbn beta. intros r t1 (_ & id & -> & Hid & Ho1). wp_step. by exists id.
Qed.

(** Insertion of a value whose key is new. *)
Lemma tree_insert_spec value F n l pos t : owns F (n + insert_room) l pos t -> 0 <= n -> zlen value = value_size cfg ->
  has_key derive_key key_less (derive_key value) l = false ->
  wp (tree_insert derive_key key_less value) t (fun r t' => r.2 = true /\ exists id pos', r.1 = Some id /\ id ∉ pos.*1 /\
    let R := bound_index derive_key key_less seek_bound_lower (derive_key value) l in
    Forall2 (inserted_pos id R) (pos ++ [(id, AtEnd)]) pos' /\ owns F n (insert_at R value l) pos' t').
Proof.
  intros Ho Hn Hv Hkey. unfold tree_insert, with_new. wp_step. eapply wp_mono; [by apply (create_cursor_spec seek_none)|]. cbn beta.
  intros c t1 (id & -> & Hid & G & o & Hinv & Hvals & Hf). wp_step. apply wp_on_exception. unfold raw_insert. cbn [impl]. wp_step. wp_step.
  eapply wp_mono; [eapply (cursor_insert_spec derive_key key_less cfg bs Hcfg supports1 derive_length G n o _ id value false); [exact Hinv|done|by apply find_snoc|done]|].
  cbn beta zeta. rewrite Hvals, Hkey. cbn [negb]. intros b t2 (-> & pos' & Hpos & Hpost). wp_step. split; [done|]. exists id, pos'. split_and!; [done..|by eapply owns_post].
Qed.

(** Insertion through a cursor, with as many free blocks as the tree has levels
    and one more. *)
Lemma raw_insert_spec value F n room l pos id p0 t : owns F (n + room) l pos t -> height (m_anchor t) < room -> 0 <= n -> find_cursor id pos = Some p0 ->
  zlen value = value_size cfg -> has_key derive_key key_less (derive_key value) l = false ->
  wp (raw_insert derive_key key_less value (Some id)) t (fun b t' => b = true /\ exists pos',
    let R := bound_index derive_key key_less seek_bound_lower (derive_key value) l in
    Forall2 (inserted_pos id R) pos pos' /\ owns F n (insert_at R value l) pos' t').
Proof.
  intros (G & o & Hinv & Hvals & Hf) Hroom Hn Hid Hv Hkey. unfold raw_insert. cbn [impl]. wp_step. wp_step.
  eapply wp_mono; [eapply (cursor_insert_exact_spec derive_key key_less cfg bs Hcfg supports1 derive_length G n room o _ id value false); [exact Hinv|done|done|exact Hid|done]|].
  cbn beta zeta. rewrite Hvals, Hkey. cbn [negb]. intros b t2 (-> & pos' & Hpos & Hpost). split; [done|]. exists pos'. split_and!; [done|by eapply owns_post].
Qed.
Lemma raw_find_spec key F n l pos id p0 t : owns F n l pos t -> find_cursor id pos = Some p0 ->
  wp (raw_find derive_key key_less key (Some id)) t (fun b t' =>
    b = is_at (find_pos derive_key key_less key l) /\ owns F n l (update_cursor id (find_pos derive_key key_less key l) pos) t').
Proof.
  intros Ho Hid. unfold raw_find. cbn [impl]. wp_step. wp_step. eapply owns_same; [exact Ho|]. intros G o Hinv <-.
  eapply (not_at_end_spec derive_key key_less cfg bs); [exact Hid|apply settled_find|by eapply (btree_find_spec derive_key key_less cfg bs Hcfg)].
Qed.
(** The number of levels. *)
Lemma owns_height F n l pos t : owns F n l pos t -> 0 <= height (m_anchor t) <= 64 /\ (l <> [] -> 1 <= height (m_anchor t)).
Proof.
  intros (G & o & Hinv & Hv & _). pose proof (height_bound derive_key key_less cfg bs Hcfg G n o pos t Hinv) as Hb. destruct Hinv as (anc & cs & Hst & Hok & _).
  rewrite (st_anchor _ _ _ _ _ _ _ Hst) in *. unfold insert_room in Hb. destruct o as [tr|].
  - destruct Hok as [h Hrep]. rewrite (tr_height _ _ _ _ _ _ _ _ Hrep) in *. split; [lia|]. intros _. lia.
  - cbn in Hok, Hv. subst anc l. cbn [height empty_anchor] in *. split; [lia|done].
Qed.

Lemma raw_at_end_spec F n l pos id p t : owns F n l pos t -> find_cursor id pos = Some p ->
  wp (raw_at_end (Some id)) t (fun b t' => b = bool_decide (p = AtEnd) /\ owns F n l pos t').
Proof.
  intros Ho Hid. eapply owns_same; [exact Ho|]. intros G o Hinv _. pose proof Hinv as (anc & cs & Hst & _ & Hrel & _). cbn [raw_at_end]. wp_step.
  destruct (related_find _ _ _ _ _ Hrel Hid) as (c & Hc & Hcp). apply (get_cursor_spec _ _ _ _ _ _ _ _ _ _ Hst Hc). wp_step. split; [|done].
  destruct p as [|r|r|]; cbn in Hcp; subst; [done| | |done]; destruct Hcp as (tr & -> & ps & leaf & pre & vals & post & k & _ & _ & _ & ->); done.
Qed.
Lemma raw_copy_spec F n l pos id p t : owns F n l pos t -> find_cursor id pos = Some p ->
  wp (raw_copy (Some id)) t (fun c t' => exists id', c = Some id' /\ id' ∉ pos.*1 /\ owns F n l (pos ++ [(id', p)]) t').
Proof.
  intros Ho Hid. cbn [raw_copy]. wp_step. eapply wp_mono; [by apply new_cursor_spec|]. cbn beta. intros id' t1 (Hid' & G & o & Hinv & Hv & Hf). wp_step. apply wp_on_exception.
  assert (id <> id') as Hne. { intros <-. apply Hid'. clear -Hid. induction pos as [|[i q] pos IH]; [done|]. cbn in Hid |- *. case_decide; [subst; by left|right; by apply IH]. }
  eapply wp_mono; [eapply copy_cursor_spec; [exact Hinv|rewrite find_snoc_ne by done; exact Hid]|]. cbn beta. rewrite update_snoc by done.
  intros _ t2 Hinv'. wp_step. exists id'. split_and!; [done..|]. by exists G, o.
Qed.
Lemma raw_move_next_spec F n l pos id p p' t : owns F n l pos t -> find_cursor id pos = Some p -> next_pos l p = Some p' ->
  wp (raw_move_next (Some id)) t (fun b t' => b = is_at p' /\ owns F n l (update_cursor id p' pos) t').
Proof.
  intros Ho Hid Hp. unfold raw_move_next. cbn [impl]. wp_step. wp_step. eapply owns_same; [exact Ho|]. intros G o Hinv <-. by eapply move_next_spec.
Qed.
Lemma raw_move_prev_spec F n l pos id p p' t : owns F n l pos t -> find_cursor id pos = Some p -> prev_pos l p = Some p' ->
  wp (raw_move_prev (Some id)) t (fun b t' => b = is_at p' /\ owns F n l (update_cursor id p' pos) t').
Proof.
  intros Ho Hid Hp. unfold raw_move_prev. cbn [impl]. wp_step. wp_step. eapply owns_same; [exact Ho|]. intros G o Hinv <-. by eapply move_prev_spec.
Qed.
Lemma raw_get_spec F n l pos id r v t : owns F n l pos t -> find_cursor id pos = Some (At r) -> l !! r = Some v ->
  wp (raw_get (Some id)) t (fun w t' => w = v /\ owns F n l pos t').
Proof.
  intros Ho Hid Hv. unfold raw_get. cbn [impl]. wp_step. wp_step. eapply owns_same; [exact Ho|]. intros G o Hinv <-. by eapply cursor_get_spec.
Qed.
Lemma raw_set_spec F n l pos id r v w t : owns F n l pos t -> find_cursor id pos = Some (At r) -> l !! r = Some v -> zlen w = value_size cfg ->
  derive_key v = derive_key w -> wp (raw_set derive_key w (Some id)) t (fun _ t' => owns F n (<[r := w]> l) pos t').
Proof.
  intros (G & o & Hinv & <- & Hf) Hid Hv Hw Hkey. unfold raw_set. cbn [impl]. wp_step. wp_step.
  pose proof (cursor_set_spec derive_key key_less cfg bs Hcfg G n o pos id r v w t Hinv Hid Hv Hw) as Hset. rewrite bool_decide_eq_true_2 in Hset by done.
  eapply wp_mono; [exact Hset|]. cbn beta. intros _ t' (G' & o' & Hinv' & Hkp & Hv'). exists G', o'. split_and!; [done|done|by eapply framed_keeps].
Qed.
Lemma raw_erase_spec F n l pos id r v t : owns F n l pos t -> find_cursor id pos = Some (At r) -> l !! r = Some v -> zlen l <= 2 ^ 32 ->
  wp (raw_erase derive_key (Some id)) t (fun _ t' => owns F n (delete r l) (prod_map Datatypes.id (erased_pos (length l) r) <$> pos) t').
Proof.
  intros (G & o & Hinv & <- & Hf) Hid Hv Hlen. unfold raw_erase. cbn [impl]. wp_step. wp_step.
  eapply wp_mono; [by eapply cursor_erase_spec|]. cbn beta. intros _ t' (G' & o' & Hinv' & Hkp & Hv'). exists G', o'. split_and!; [done|done|by eapply framed_keeps].
Qed.
Lemma raw_erase_lower_spec F n l pos id r v t : owns F n l pos t -> find_cursor id pos = Some (At r) -> l !! r = Some v -> zlen l <= 2 ^ 32 ->
  wp (raw_erase derive_key (Some id)) t (fun _ t' => height (m_anchor t') <= height (m_anchor t) /\
    owns F n (delete r l) (prod_map Datatypes.id (erased_pos (length l) r) <$> pos) t').
Proof.
  intros Ho Hid Hv Hlen. destruct (owns_height _ _ _ _ _ Ho) as [Hh Hh1]. premise Hh1; [by intros ->|].
  pose proof (raw_erase_spec _ _ _ _ _ _ _ _ Ho Hid Hv Hlen) as He. pose proof (cursor_erase_lowers derive_key id t) as Hl. unfold height_of in Hl.
  apply wp_run in He as (t' & [] & Hrun & Ho'). apply wp_run. exists t', tt. split_and!; [done| |done]. premise Hl; [lia|].
  change (raw_erase derive_key (Some id) t) with (cursor_erase derive_key id t) in Hrun. by rewrite Hrun in Hl.
Qed.
Lemma tree_empty_spec F n l pos t : owns F n l pos t -> wp tree_empty t (fun b t' => b = bool_decide (l = []) /\ t' = t).
Proof.
  intros Ho. destruct (owns_sorted _ _ _ _ _ Ho) as [_ Hsz]. unfold tree_empty, get_anchor. wp_step. wp_step. wp_step. split; [|done]. rewrite Hsz.
  destruct l; [done|]. by apply Z.eqb_neq.
Qed.
End spec.

(** ** Heights *)

Section heights.
Context {A : Type} `{Allocator A}.
Context (derive_key : bytes -> bytes) (key_less : bytes -> bytes -> bool).
Abbreviation T := (tree A).

Lemma same_on_exception {X} (m : M T X) (cleanup : M T unit) : same_height m -> same_height cleanup -> same_height (on_exception m cleanup).
Proof.
  intros Hm Hc t. specialize (Hm t). unfold on_exception. destruct (m t) as [t' [x|e]]; cbn [fst] in *; [done|]. specialize (Hc t'). destruct (cleanup t') as [t'' ?]. cbn [fst] in *. congruence.
Qed.
Ltac same_raw :=
  repeat first
  [ apply same_seek_bound | apply same_find | apply same_init_position | apply same_move_prev | apply same_get
  | match goal with
    | |- forall _, _ => intros ?
    | |- same_height (bind _ _) => apply same_bind
    | |- same_height (on_exception _ _) => apply same_on_exception
    | |- same_height (match ?x with _ => _ end) => destruct x
    | |- same_height (if ?b then _ else _) => destruct b
    | |- same_height (guard_else _ _) => unfold guard_else
    | |- same_height _ => done
    | |- same_height (?f _ _ _ _) => unfold f
    | |- same_height (?f _ _) => unfold f
    | |- same_height (?f _) => unfold f
    end ].
Lemma same_create seek : same_height (create_cursor seek).
Proof. unfold create_cursor, new_cursor, move_min, move_max, not_at_end, get_cursor. same_raw. Qed.
Lemma same_destroy c : same_height (destroy (A := A) c).
Proof. unfold destroy. same_raw. Qed.
Lemma same_at_end c : same_height (raw_at_end (A := A) c).
Proof. unfold raw_at_end, get_cursor. same_raw. Qed.
Lemma same_raw_copy c : same_height (raw_copy (A := A) c).
Proof. unfold raw_copy, new_cursor, copy_cursor, get_cursor. same_raw. Qed.
Lemma same_raw_move_prev c : same_height (raw_move_prev c).
Proof. unfold raw_move_prev, impl. same_raw. Qed.
Lemma same_raw_get c : same_height (raw_get c).
Proof. unfold raw_get, impl. same_raw. Qed.
Lemma same_raw_find key c : same_height (raw_find derive_key key_less key c).
Proof. unfold raw_find, impl. same_raw. Qed.
Lemma same_with_new {X} (f : raw_cursor -> M T X) : (forall c, same_height (f c)) -> same_height (with_new f).
Proof.
  intros Hf. unfold with_new. apply same_bind; [apply same_create|]. intros c. apply same_bind; [apply same_on_exception; [done|apply same_destroy]|]. by intros x.
Qed.
Lemma same_tree_find key : same_height (tree_find derive_key key_less key).
Proof. unfold tree_find. apply same_bind; [apply same_with_new; intros c; apply same_raw_find|]. by intros r. Qed.
Lemma same_tree_lower_bound key : same_height (tree_lower_bound derive_key key_less key).
Proof.
  unfold tree_lower_bound. apply same_bind; [|by intros r]. apply same_with_new. intros c. unfold raw_lower_bound, impl, cursor_lower_bound, lower_bound, not_at_end, get_cursor. same_raw.
Qed.
End heights.

(** A new tree. *)
Lemma make_tree_owns {A} `{AllocatorSpec A} derive_key key_less a U n vs ks t :
  al_inv a U -> 0 <= vs -> 0 <= ks -> make_tree a empty_anchor vs ks = Ok t -> 0 <= n -> al_room a n ->
  exists cfg, config_ok cfg (d_bs (eng_view a)) /\ value_size cfg = vs /\ key_size cfg = ks /\
    owns derive_key key_less cfg (d_bs (eng_view a)) (snapshot a U) n [] [] t.
Proof.
  intros Ha Hvs Hks Hm Hn Hroom. destruct (make_tree_inv derive_key key_less a U n vs ks t Ha Hvs Hks Hm Hn Hroom) as (cfg & Hcfg & Hv & Hk & Hinv).
  exists cfg. split_and!; [done..|]. exists (snapshot a U), None. split_and!; [done|done|]. intros k b Hb. split; [done|apply not_elem_of_nil].
Qed.
End raw_btree.
