(* ===== verification/TypedBTree.v ===== *)
(** * Typed B+ trees

    [btree<Value, DeriveKey, KeyLess>] of include/prequel/container/btree.hpp: a
    [raw_btree] whose values and keys are read and written with the binary
    format of their types.  The classes [Format] and [FormatSpec] say what the
    tree needs of a type. *)

From Stdlib Require Import Strings.Byte Sorting.Sorted.
From S2P Require Import Prelude Serialization Blocks EngineSpec FreeList Allocator BumpAllocator Extent BTreeNodes BTree BTreeShape BTreeStore BTreeSearch BTreeCursors BTreeInsert BTreeOps BTreeSession BTreeRemove BTreeErase RawBTree.

Module typed_btree.
Import btree btree_shape btree_store btree_search btree_cursors btree_ops btree_session btree_erase raw_btree.

(** ** Binary formats *)

Class Format (X : Type) : Type := {
  format_size : Z;
  encode : X -> bytes;
  decode : bytes -> X
}.
(** The values of [X] that the machine type has. *)
Class FormatSpec (X : Type) `{Format X} : Type := {
  representable : X -> Prop;
  format_size_pos : 0 < format_size (X := X);
  length_encode : forall x : X, zlen (encode x) = format_size (X := X);
  decode_encode : forall x : X, representable x -> decode (encode x) = x
}.

#[export] Instance u64_format : Format Z := { format_size := 8; encode := be_encode 8; decode b := be_decode (take 8 b) }.
Lemma u64_decode_encode z : is_u64 z -> be_decode (take 8 (be_encode 8 z)) = z.
Proof.
  intros Hz. rewrite take_ge by (rewrite length_be_encode; lia). apply be_decode_encode_small. change (256 ^ Z.of_nat 8) with (2 ^ 64). apply Hz.
Qed.
#[export] Instance u64_format_spec : FormatSpec Z :=
  {| representable := is_u64; format_size_pos := eq_refl; length_encode z := f_equal Z.of_nat (length_be_encode 8 z); decode_encode := u64_decode_encode |}.

(** ** Operations *)

Section typed.
Context {A : Type} `{Allocator A} {V K : Type} `{Format V} `{Format K}.
Context (derive : V -> K) (less : K -> K -> bool).
Abbreviation T := (tree A).

(** The static callbacks [derive_key] and [key_less]. *)
Definition derive_key (value_buffer : bytes) : bytes := encode (derive (decode value_buffer)).
Definition key_less (lhs_buffer rhs_buffer : bytes) : bool := less (decode lhs_buffer) (decode rhs_buffer).

(** [make_options] and the constructor. *)
Definition make_btree (a : A) (anc : anchor) : result T := make_tree a anc (format_size (X := V)) (format_size (X := K)).

Definition cursor_get (c : raw_cursor) : M T V := let* b := raw_get c in ret (decode b).
Definition cursor_set (value : V) (c : raw_cursor) : M T unit := raw_set derive_key (encode value) c.
Definition cursor_erase (c : raw_cursor) : M T unit := raw_erase derive_key c.
Definition cursor_lower_bound (key : K) (c : raw_cursor) : M T bool := raw_lower_bound derive_key key_less (encode key) c.
Definition cursor_upper_bound (key : K) (c : raw_cursor) : M T bool := raw_upper_bound derive_key key_less (encode key) c.
Definition cursor_find (key : K) (c : raw_cursor) : M T bool := raw_find derive_key key_less (encode key) c.
Definition cursor_insert (value : V) (c : raw_cursor) : M T bool := raw_insert derive_key key_less (encode value) c.
Definition cursor_insert_or_update (value : V) (c : raw_cursor) : M T bool := raw_insert_or_update derive_key key_less (encode value) c.

Definition find (key : K) : M T raw_cursor := tree_find derive_key key_less (encode key).
Definition lower_bound (key : K) : M T raw_cursor := tree_lower_bound derive_key key_less (encode key).
Definition upper_bound (key : K) : M T raw_cursor := tree_upper_bound derive_key key_less (encode key).
Definition insert (value : V) : M T (raw_cursor * bool) := tree_insert derive_key key_less (encode value).
Definition insert_or_update (value : V) : M T (raw_cursor * bool) := tree_insert_or_update derive_key key_less (encode value).
End typed.

(** ** Specification *)

(** [KeyLess] is a strict weak order. *)
Class LessOrder {K} (less : K -> K -> bool) : Prop := {
  less_asym : forall a b, less a b = true -> less b a = false;
  less_negtrans : forall a b c, less a c = true -> less a b = true \/ less b c = true
}.
#[export] Instance key_less_order {K} `{Format K} (less : K -> K -> bool) `{!LessOrder less} : KeyOrder (key_less less).
Proof. split; unfold key_less; intros *; [apply less_asym|apply less_negtrans]. Qed.

(** Positions of cursors, by their numbers. *)
Lemma keys_snoc {X} (pos : list (nat * X)) ks id : pos.*1 = ks ++ [id] -> exists pos0 p, pos = pos0 ++ [(id, p)] /\ pos0.*1 = ks.
Proof.
  intros Hk. destruct pos as [|[i p] pos0 _] using rev_ind; [by destruct ks|].
  rewrite fmap_app in Hk. apply app_inj_tail in Hk as [Hk Hi]. cbn in Hi. subst i. by exists pos0, p.
Qed.

Section spec.
Context {A : Type} `{AllocatorSpec A} {V K : Type} `{FormatSpec V} `{FormatSpec K}.
Context (derive : V -> K) (less : K -> K -> bool) `{!LessOrder less}.
Context (derive_representable : forall v, representable v -> representable (derive v)).
Context (cfg : config) (bs : Z) (Hcfg : config_ok cfg bs) (supports1 : al_supports 1).
Context (Hvs : value_size cfg = format_size (X := V)) (Hks : key_size cfg = format_size (X := K)).
Abbreviation T := (tree A).
Abbreviation owns := (raw_btree.owns (derive_key derive) (key_less less) cfg bs).
Implicit Types (pos : list (nat * position)) (F : gmap Z bytes) (n : Z) (t : T) (id : nat) (l : list V) (v : V) (k : K).

Definition holds F n l pos t : Prop := Forall representable l /\ owns F n (encode <$> l) pos t.

Lemma derive_length (v : bytes) : zlen v = value_size cfg -> zlen (derive_key derive v) = key_size cfg.
Proof. intros _. unfold derive_key. by rewrite length_encode. Qed.
Lemma derive_key_encode v : representable v -> derive_key derive (encode v) = encode (derive v).
Proof. intros Hv. unfold derive_key. by rewrite decode_encode. Qed.
Lemma key_less_encode k k' : representable k -> representable k' -> key_less less (encode k) (encode k') = less k k'.
Proof. intros Hk Hk'. unfold key_less. by rewrite !decode_encode. Qed.

(** The number of leading values with a key that [p] accepts. *)
Fixpoint count_while (p : K -> bool) l : nat :=
  match l with
  | [] => 0
  | v :: l => if p (derive v) then S (count_while p l) else 0
  end.
Lemma count_while_first_not (p : K -> bool) (q : bytes -> bool) l : Forall representable l ->
  (forall v, representable v -> q (encode v) = p (derive v)) -> first_not q (encode <$> l) = count_while p l.
Proof. intros Hl Hq. induction Hl as [|v l Hv _ IH]; [done|]. rewrite fmap_cons. cbn. by rewrite Hq, IH. Qed.
Definition lower_index k l : nat := count_while (fun k' => less k' k) l.
Lemma lower_index_spec k l : Forall representable l -> representable k ->
  bound_index (derive_key derive) (key_less less) seek_bound_lower (encode k) (encode <$> l) = lower_index k l.
Proof.
  intros Hl Hk. apply count_while_first_not; [done|]. intros v Hv. cbn. rewrite derive_key_encode by done. apply key_less_encode; [by apply derive_representable|done].
Qed.

(** The position [r], or the end. *)
Definition nth_pos (len r : nat) : position := if decide (r < len)%nat then At r else AtEnd.
Lemma at_index_nth l r : at_index (encode <$> l) r = nth_pos (length l) r.
Proof. unfold at_index, nth_pos. by rewrite length_fmap. Qed.

Lemma typed_lower_bound_spec k F n l pos t : holds F n l pos t -> representable k ->
  wp (lower_bound derive less k) t (fun c t' => exists id, c = Some id /\ id ∉ pos.*1 /\ holds F n l (pos ++ [(id, nth_pos (length l) (lower_index k l))]) t').
Proof.
  intros [Hl Ho] Hk. eapply wp_mono; [by apply (tree_lower_bound_spec (derive_key derive) (key_less less) cfg bs Hcfg)|]. cbn beta. intros c t' (id & -> & Hid & Ho').
  exists id. split_and!; [done..|]. unfold seek_pos in Ho'. by rewrite lower_index_spec, at_index_nth in Ho' by done.
Qed.
Lemma typed_create_spec seek F n l pos t : holds F n l pos t ->
  wp (create_cursor seek) t (fun c t' => exists id, c = Some id /\ id ∉ pos.*1 /\
    holds F n l (pos ++ [(id, match seek with seek_none => AtEnd | seek_min => nth_pos (length l) 0 | seek_max => nth_pos (length l) (length l - 1) end)]) t').
Proof.
  intros [Hl Ho]. eapply wp_mono; [by apply (create_cursor_spec (derive_key derive) (key_less less) cfg bs Hcfg)|]. cbn beta. intros c t' (id & -> & Hid & Ho'). exists id. split_and!; [done..|].
  destruct seek; cbn [seek_position] in Ho'; by rewrite ?at_index_nth, ?length_fmap in Ho'.
Qed.
Lemma typed_get_spec F n l pos id r v t : holds F n l pos t -> find_cursor id pos = Some (At r) -> l !! r = Some v ->
  wp (cursor_get (Some id)) t (fun w t' => w = v /\ holds F n l pos t').
Proof.
  intros [Hl Ho] Hid Hv. unfold cursor_get. wp_step. eapply wp_mono; [eapply raw_get_spec; [exact Ho|exact Hid|by rewrite list_lookup_fmap, Hv]|]. cbn beta.
  intros b t' [-> Ho']. wp_step. split; [|done]. apply decode_encode. by eapply Forall_lookup_1.
Qed.
Lemma typed_set_spec F n l pos id r v w t : holds F n l pos t -> find_cursor id pos = Some (At r) -> l !! r = Some v -> representable w ->
  derive v = derive w -> wp (cursor_set derive w (Some id)) t (fun _ t' => holds F n (<[r := w]> l) pos t').
Proof.
  intros [Hl Ho] Hid Hv Hw Heq. assert (representable v) as Hrv by by eapply Forall_lookup_1.
  eapply wp_mono; [eapply (raw_set_spec (derive_key derive) (key_less less) cfg bs Hcfg); [exact Ho|exact Hid|by rewrite list_lookup_fmap, Hv|by rewrite length_encode|by rewrite !derive_key_encode, Heq by done]|]. cbn beta.
  intros _ t' Ho'. split; [by apply Forall_insert|]. by rewrite list_fmap_insert.
Qed.
Lemma fmap_delete r l : encode <$> delete r l = delete r (encode <$> l).
Proof. rewrite !delete_take_drop, fmap_app, fmap_take, fmap_drop. done. Qed.
Lemma representable_delete r l : Forall representable l -> Forall representable (delete r l).
Proof. intros Hl. rewrite delete_take_drop. apply Forall_app. split; [by apply Forall_take|by apply Forall_drop]. Qed.
Lemma typed_erase_spec F n l pos id r v t : holds F n l pos t -> find_cursor id pos = Some (At r) -> l !! r = Some v -> zlen l <= 2 ^ 32 ->
  wp (cursor_erase derive (Some id)) t (fun _ t' => holds F n (delete r l) (prod_map Datatypes.id (erased_pos (length l) r) <$> pos) t').
Proof.
  intros [Hl Ho] Hid Hv Hlen. eapply wp_mono; [eapply (raw_erase_spec (derive_key derive) (key_less less) cfg bs Hcfg supports1 derive_length); [exact Ho|exact Hid|by rewrite list_lookup_fmap, Hv|by rewrite length_fmap]|]. cbn beta.
  intros _ t' Ho'. split; [by apply representable_delete|]. by rewrite fmap_delete, <- (length_fmap encode l).
Qed.

(** No value of [l] has the key [k]. *)
Definition new_key k l : Prop := Forall (fun v => less (derive v) k = true \/ less k (derive v) = true) l.
Lemma new_key_spec k l : Forall representable l -> representable k -> new_key k l -> has_key (derive_key derive) (key_less less) (encode k) (encode <$> l) = false.
Proof.
  intros Hl Hk Hn. unfold has_key. destruct (_ !! _) as [b|] eqn:Hb; [|done]. apply list_lookup_fmap_Some in Hb as (v & Hv & Hlv). subst b.
  assert (representable v) as Hrv by by eapply Forall_lookup_1. unfold value_equal_key, key_equal. rewrite derive_key_encode, !key_less_encode by auto.
  destruct (Forall_lookup_1 _ _ _ _ Hn Hlv) as [-> | ->]; [apply andb_false_r|done].
Qed.
Lemma fmap_insert_at r v l : encode <$> insert_at r v l = insert_at r (encode v) (encode <$> l).
Proof. unfold insert_at. by rewrite fmap_app, fmap_cons, fmap_take, fmap_drop. Qed.
Lemma typed_insert_new_spec v F n l pos t : holds F (n + insert_room) l pos t -> 0 <= n -> representable v -> new_key (derive v) l ->
  wp (insert derive less v) t (fun r t' => r.2 = true /\ exists id pos', r.1 = Some id /\ id ∉ pos.*1 /\ pos'.*1 = pos.*1 ++ [id] /\
    holds F n (insert_at (lower_index (derive v) l) v l) pos' t').
Proof.
  intros [Hl Ho] Hn Hv Hnew. eapply wp_mono; [eapply (tree_insert_spec (derive_key derive) (key_less less) cfg bs Hcfg supports1 derive_length); [exact Ho|done|by rewrite length_encode|]|].
  { rewrite derive_key_encode by done. apply new_key_spec; auto. }
  cbn beta zeta. rewrite derive_key_encode, lower_index_spec by auto. intros [c b] t' (-> & id & pos' & Hc & Hid & Hpos & Ho'). cbn [fst snd] in *. split; [done|].
  exists id, pos'. split_and!; [done|done| |].
  - clear -Hpos. assert (pos'.*1 = (pos ++ [(id, AtEnd)]).*1) as ->; [|by rewrite fmap_app]. symmetry.
    induction Hpos as [|x y xs ys [Hxy _] _ IH]; [done|]. rewrite !fmap_cons. by f_equal.
  - split; [|by rewrite fmap_insert_at]. unfold insert_at. apply Forall_app. split; [by apply Forall_take|]. constructor; [done|by apply Forall_drop].
Qed.

(** Operations that are the same for all types of values. *)
Lemma typed_empty_spec F n l pos t : holds F n l pos t -> wp tree_empty t (fun b t' => b = bool_decide (l = []) /\ t' = t).
Proof.
  intros [_ Ho]. eapply wp_mono; [by apply (tree_empty_spec (derive_key derive) (key_less less) cfg bs F n _ _ _ Ho)|]. cbn beta. intros b t' [-> ->]. split; [|done].
  by destruct l.
Qed.
Lemma typed_at_end_spec F n l pos id p t : holds F n l pos t -> find_cursor id pos = Some p ->
  wp (raw_at_end (Some id)) t (fun b t' => b = bool_decide (p = AtEnd) /\ holds F n l pos t').
Proof. intros [Hl Ho] Hid. eapply wp_mono; [by eapply raw_at_end_spec|]. cbn beta. by intros b t' [-> ?]. Qed.
Lemma typed_copy_spec F n l pos id p t : holds F n l pos t -> find_cursor id pos = Some p ->
  wp (raw_copy (Some id)) t (fun c t' => exists id', c = Some id' /\ id' ∉ pos.*1 /\ holds F n l (pos ++ [(id', p)]) t').
Proof. intros [Hl Ho] Hid. eapply wp_mono; [by eapply raw_copy_spec|]. cbn beta. intros c t' (id' & -> & ? & ?). by exists id'. Qed.
Lemma typed_prev_spec F n l pos id r t : holds F n l pos t -> find_cursor id pos = Some (At r) ->
  wp (raw_move_prev (Some id)) t (fun _ t' => holds F n l (update_cursor id (match r with O => AtEnd | S r => At r end) pos) t').
Proof.
  intros [Hl Ho] Hid. destruct r as [|r]; (eapply wp_mono; [eapply (raw_move_prev_spec (derive_key derive) (key_less less) cfg bs Hcfg); [exact Ho|exact Hid|done]|]); cbn beta; by intros b t2 [_ Ho2].
Qed.
Lemma typed_next_spec F n l pos id r t : holds F n l pos t -> find_cursor id pos = Some (At r) ->
  wp (raw_move_next (Some id)) t (fun _ t' => holds F n l (update_cursor id (nth_pos (length l) (S r)) pos) t').
Proof.
  intros [Hl Ho] Hid. eapply wp_mono; [eapply (raw_move_next_spec (derive_key derive) (key_less less) cfg bs Hcfg); [exact Ho|exact Hid|done]|].
  cbn beta. intros b t' [_ Ho']. rewrite at_index_nth in Ho'. done.
Qed.
Lemma typed_close_spec F n l pos id p t : holds F n l (pos ++ [(id, p)]) t -> id ∉ pos.*1 -> wp (destroy (Some id)) t (fun _ t' => holds F n l pos t').
Proof. intros [Hl Ho] Hid. eapply wp_mono; [by eapply destroy_spec|]. cbn beta. by intros _ t' ?. Qed.

Lemma typed_close_last F n l ks id pos t : holds F n l pos t -> pos.*1 = ks ++ [id] -> id ∉ ks ->
  wp (destroy (Some id)) t (fun _ t' => exists pos', pos'.*1 = ks /\ holds F n l pos' t').
Proof.
  intros Hh Hk Hid. destruct (keys_snoc _ _ _ Hk) as (pos0 & p & -> & Hk0). eapply wp_mono; [eapply typed_close_spec; [exact Hh|by rewrite Hk0]|].
  cbn beta. intros _ t' Hh'. by exists pos0.
Qed.

(** Operations of cursors that exist. *)
Lemma typed_insert_spec v F n room l pos id p0 t : holds F (n + room) l pos t -> height (m_anchor t) < room -> 0 <= n -> find_cursor id pos = Some p0 ->
  representable v -> new_key (derive v) l ->
  wp (cursor_insert derive less v (Some id)) t (fun b t' => b = true /\ exists pos', pos'.*1 = pos.*1 /\ holds F n (insert_at (lower_index (derive v) l) v l) pos' t').
Proof.
  intros [Hl Ho] Hroom Hn Hid Hv Hnew. eapply wp_mono; [eapply (raw_insert_spec (derive_key derive) (key_less less) cfg bs Hcfg supports1 derive_length); [exact Ho|done|done|exact Hid|by rewrite length_encode|]|].
  { rewrite derive_key_encode by done. apply new_key_spec; auto. }
  cbn beta zeta. rewrite derive_key_encode, lower_index_spec by auto. intros b t' (-> & pos' & Hpos & Ho'). split; [done|]. exists pos'. split.
  - clear -Hpos. symmetry. induction Hpos as [|x y xs ys [Hxy _] _ IH]; [done|]. rewrite !fmap_cons. by f_equal.
  - split; [|by rewrite fmap_insert_at]. unfold insert_at. apply Forall_app. split; [by apply Forall_take|]. constructor; [done|by apply Forall_drop].
Qed.
Lemma typed_erase_lower_spec F n l pos id r v t : holds F n l pos t -> find_cursor id pos = Some (At r) -> l !! r = Some v -> zlen l <= 2 ^ 32 ->
  wp (cursor_erase derive (Some id)) t (fun _ t' => height (m_anchor t') <= height (m_anchor t) /\
    holds F n (delete r l) (prod_map Datatypes.id (erased_pos (length l) r) <$> pos) t').
Proof.
  intros [Hl Ho] Hid Hv Hlen. eapply wp_mono; [eapply (raw_erase_lower_spec (derive_key derive) (key_less less) cfg bs Hcfg supports1 derive_length); [exact Ho|exact Hid|by rewrite list_lookup_fmap, Hv|by rewrite length_fmap]|]. cbn beta.
  intros _ t' [Hh Ho']. split; [done|]. split; [by apply representable_delete|]. by rewrite fmap_delete, <- (length_fmap encode l).
Qed.

(** [find] of a value that exists. *)
Lemma find_pos_typed k l v : Forall representable l -> representable k -> sorted (derive_key derive) (key_less less) (encode <$> l) -> v ∈ l ->
  (forall w, w ∈ l -> less (derive w) k = false -> less k (derive w) = false -> w = v) -> less (derive v) k = false -> less k (derive v) = false ->
  exists r, l !! r = Some v /\ find_pos (derive_key derive) (key_less less) (encode k) (encode <$> l) = At r.
Proof.
  intros Hl Hk Hs Hin Huniq H1' H2'. pose proof (find_pos_spec (derive_key derive) (key_less less) (encode <$> l) (encode k) Hs) as Hf.
  assert (forall w, w ∈ l -> value_equal_key (derive_key derive) (key_less less) (encode w) (encode k) = negb (less k (derive w)) && negb (less (derive w) k)) as Heq.
  { intros w Hw. assert (representable w) as Hrw by by apply (proj1 (Forall_forall _ _) Hl). unfold value_equal_key, key_equal.
    by rewrite derive_key_encode, !key_less_encode by auto. }
  destruct (find_pos _ _ _ _) as [|r|r|].
  2: { destruct Hf as (b & Hb & Hkey). apply list_lookup_fmap_Some in Hb as (w & -> & Hw). exists r. split; [|done]. rewrite Hw. f_equal.
       assert (w ∈ l) as Hwl by by eapply list_elem_of_lookup_2. rewrite Heq in Hkey by done. apply andb_true_iff in Hkey as [?%negb_true_iff ?%negb_true_iff]. by apply Huniq. }
  all: exfalso; specialize (Hf (encode v)); rewrite Heq, H1', H2' in Hf by done; premise Hf; [by apply list_elem_of_fmap_2|done].
Qed.
Lemma typed_find_spec k v F n l pos id p0 t : holds F n l pos t -> find_cursor id pos = Some p0 -> representable k -> v ∈ l ->
  (forall w, w ∈ l -> less (derive w) k = false -> less k (derive w) = false -> w = v) -> less (derive v) k = false -> less k (derive v) = false ->
  wp (cursor_find derive less k (Some id)) t (fun b t' => b = true /\ exists r, l !! r = Some v /\ holds F n l (update_cursor id (At r) pos) t').
Proof.
  intros [Hl Ho] Hid Hk Hin Hu H1' H2'. destruct (owns_sorted _ _ _ _ _ _ _ _ _ Ho) as [Hs _]. destruct (find_pos_typed k l v Hl Hk Hs Hin Hu H1' H2') as (r & Hr & Hf).
  eapply wp_mono; [eapply (raw_find_spec (derive_key derive) (key_less less) cfg bs Hcfg); [exact Ho|exact Hid]|]. cbn beta. rewrite Hf. intros b t' [-> Ho']. split; [done|]. by exists r.
Qed.
Lemma typed_tree_find_spec k v F n l pos t : holds F n l pos t -> representable k -> v ∈ l ->
  (forall w, w ∈ l -> less (derive w) k = false -> less k (derive w) = false -> w = v) -> less (derive v) k = false -> less k (derive v) = false ->
  wp (find derive less k) t (fun c t' => exists id r, c = Some id /\ id ∉ pos.*1 /\ l !! r = Some v /\ holds F n l (pos ++ [(id, At r)]) t').
Proof.
  intros [Hl Ho] Hk Hin Hu H1' H2'. destruct (owns_sorted _ _ _ _ _ _ _ _ _ Ho) as [Hs _]. destruct (find_pos_typed k l v Hl Hk Hs Hin Hu H1' H2') as (r & Hr & Hf).
  eapply wp_mono; [by apply (tree_find_spec (derive_key derive) (key_less less) cfg bs Hcfg)|]. cbn beta. rewrite Hf. intros c t' (id & -> & Hid & Ho'). by exists id, r.
Qed.
End spec.
End typed_btree.
