(* ===== verification/IdGenerator.v ===== *)
(** * Id generator

    [id_generator] of src/container/id_generator.cpp: ids are allocated lowest
    first; the free ids below the highest allocated one are intervals in a B+
    tree that is indexed by the ends of the intervals.  The generator refines a
    set of allocated ids. *)

From Stdlib Require Import Strings.Byte.
From stdpp Require Import sorting.
From S2P Require Import Prelude Serialization Blocks EngineSpec FreeList Allocator BumpAllocator Extent BTreeNodes BTree BTreeShape BTreeStore BTreeSearch BTreeCursors BTreeInsert BTreeOps BTreeSession BTreeRemove BTreeErase BTreeHistory RawBTree TypedBTree.

Module id_generator.
Import btree btree_store btree_cursors btree_ops btree_session btree_erase btree_history raw_btree typed_btree.

(** ** Data *)

(** Both ends are inclusive. *)
Record interval : Type := Interval { begin : Z; end_ : Z }.

#[export] Instance interval_format : Format interval := {
  format_size := 16;
  encode i := be_encode 8 (begin i) ++ be_encode 8 (end_ i);
  decode b := Interval (be_decode (take 8 b)) (be_decode (take 8 (drop 8 b)))
}.

Record generator (A : Type) : Type := Generator { m_tree : tree A; m_max : Z }.
Arguments Generator {A} _ _.
Arguments m_tree {A} _.
Arguments m_max {A} _.

(** ** Operations *)

Section operations.
Context {A : Type} `{Allocator A}.
Abbreviation G := (generator A).

Definition on_tree {X} (m : M (tree A) X) : M G X := zoom m_tree (fun t g => Generator t (m_max g)) m.
Definition set_max (n : Z) : M G unit := modify (fun g => Generator (m_tree g) n).

(** The constructor, with the anchor of a new generator. *)
Definition make_generator (a : A) : result G :=
  match make_btree (V := interval) (K := Z) a empty_anchor with
  | Ok t => Ok (Generator t 0)
  | Err e => Err e
  end.

Definition max : M G Z := gets m_max.

Definition pop_one : M G Z :=
  let* empty := on_tree tree_empty in
  assert! (negb empty) ;;;
  let* cursor := on_tree (create_cursor seek_min) in
  scoped
    (let* range := on_tree (cursor_get cursor) in
     let result := begin range in
     (if negb (begin range =? end_ range)
      then on_tree (cursor_set end_ (Interval (u64 (begin range + 1)) (end_ range)) cursor)
      else on_tree (cursor_erase end_ cursor)) ;;;
     ret result)
    (on_tree (destroy cursor)).

Definition allocate : M G Z :=
  let* empty := on_tree tree_empty in
  if empty : bool then
    let* current_max := max in
    throw_if (current_max =? u64_max) exception ;;;
    let id := u64 (current_max + 1) in
    set_max id ;;;
    ret id
  else pop_one.

(** [std::optional<interval>]: the value of a cursor that is not at the end. *)
Definition cursor_interval (c : raw_cursor) : M G (option interval) :=
  let* e := on_tree (raw_at_end c) in
  if e : bool then ret None else let* i := on_tree (cursor_get c) in ret (Some i).

Definition throw_if_some (o : option interval) (p : interval -> bool) (e : error) : M G unit :=
  match o with Some i => throw_if (p i) e | None => ret tt end.

(** Merges the interval of [id] with its neighbours. *)
Definition merge_left (left_cursor : raw_cursor) (left_interval : option interval) (id : Z) (range : interval) : M G interval :=
  match left_interval with
  | Some l => if end_ l =? u64 (id - 1) then on_tree (cursor_erase end_ left_cursor) ;;; ret (Interval (begin l) (end_ range)) else ret range
  | None => ret range
  end.
Definition merge_right (right_cursor : raw_cursor) (right_interval : option interval) (id : Z) (range : interval) : M G interval :=
  match right_interval with
  | Some r => if begin r =? u64 (id + 1) then on_tree (cursor_erase end_ right_cursor) ;;; ret (Interval (begin range) (end_ r)) else ret range
  | None => ret range
  end.

(** Stores the free interval, or lowers the maximum. *)
Definition store_range (range : interval) : M G unit :=
  let* m := max in
  if end_ range =? m then set_max (u64 (begin range - 1))
  else
    let* r := on_tree (insert end_ Z.ltb range) in
    on_tree (destroy r.1) ;;;
    assert! (r.2).

Definition ordered (left_interval right_interval : option interval) : bool :=
  match left_interval, right_interval with
  | Some l, Some r => end_ l <? begin r
  | _, _ => true
  end.

(** [free] after the search for the neighbours. *)
Definition free_between (left_cursor right_cursor : raw_cursor) (id : Z) : M G unit :=
  let* left_interval := cursor_interval left_cursor in
  throw_if_some left_interval (fun l => id <=? end_ l) bad_argument ;;;
  let* right_interval := cursor_interval right_cursor in
  throw_if_some right_interval (fun r => begin r <=? id) bad_argument ;;;
  assert! (ordered left_interval right_interval) ;;;
  let* range := merge_left left_cursor left_interval id (Interval id id) in
  let* range := merge_right right_cursor right_interval id range in
  store_range range.

Definition free (id : Z) : M G unit :=
  let* m := max in
  check! ((0 <? id) && (id <=? m)) ;;;
  let* right_cursor := on_tree (lower_bound (V := interval) end_ Z.ltb id) in
  scoped
    (let* e := on_tree (raw_at_end right_cursor) in
     let* left_cursor := on_tree (if e : bool then create_cursor seek_max else raw_copy right_cursor) in
     scoped
       ((if e : bool then ret tt else on_tree (raw_move_prev left_cursor) ;;; ret tt) ;;;
        free_between left_cursor right_cursor id)
       (on_tree (destroy left_cursor)))
    (on_tree (destroy right_cursor)).
End operations.

(** ** Formats *)

Definition fits (i : interval) : Prop := is_u64 (begin i) /\ is_u64 (end_ i).
Lemma interval_decode_encode i : fits i -> decode (encode i) = i.
Proof.
  intros [Hb He]. destruct i as [b e]. cbn [begin end_] in *. cbn [decode encode interval_format begin end_].
  rewrite drop_app_length' by by rewrite length_be_encode. rewrite take_app_length' by by rewrite length_be_encode. f_equal; [|by apply u64_decode_encode].
  rewrite <- (take_ge (be_encode 8 b) 8) by (rewrite length_be_encode; lia). by apply u64_decode_encode.
Qed.
Lemma length_interval i : zlen (encode i) = 16.
Proof. cbn [encode interval_format]. by rewrite length_app, !length_be_encode. Qed.
#[export] Instance interval_format_spec : FormatSpec interval :=
  {| representable := fits; format_size_pos := eq_refl; length_encode := length_interval; decode_encode := interval_decode_encode |}.
#[export] Instance ltb_order : LessOrder Z.ltb.
Proof.
  split; intros *; [rewrite Z.ltb_lt, Z.ltb_ge; lia|]. intros Hac%Z.ltb_lt. rewrite !Z.ltb_lt. lia.
Qed.

(** The format is the one of a struct of two 64 bit integers. *)
Lemma encode_struct (sizeof : ty -> nat) i : Serialization.serialize sizeof (t_struct [t_uint 8; t_uint 8]) (v_seq [v_int (begin i); v_int (end_ i)]) = Ok (encode i).
Proof. cbn [Serialization.serialize map serialize_seq]. by rewrite app_nil_r. Qed.

(** ** Intervals *)

(** There is an allocated id between two free intervals. *)
Definition apart (i j : interval) : Prop := end_ i + 1 < begin j.
Definition within (m : Z) (i : interval) : Prop := 0 < begin i <= end_ i /\ end_ i < m.
Definition intervals_ok (m : Z) (l : list interval) : Prop := is_u64 m /\ Forall (within m) l /\ StronglySorted apart l.
Definition covers (i : Z) (v : interval) : Prop := begin v <= i <= end_ v.
Definition is_free (l : list interval) (i : Z) : Prop := Exists (covers i) l.

(** The allocated ids. *)
Definition allocated (ids : gset Z) (m : Z) (l : list interval) : Prop := forall i, i ∈ ids <-> 1 <= i <= m /\ ~ is_free l i.

(** The intervals before and after an id. *)
Lemma lower_split m l id : Forall (within m) l -> StronglySorted apart l -> exists l1 l2, l = l1 ++ l2 /\ lower_index end_ Z.ltb id l = length l1 /\
  Forall (fun v => end_ v < id) l1 /\ Forall (fun v => id <= end_ v) l2.
Proof.
  induction l as [|v l IH]; intros Hw Hs; [by exists [], []|]. apply Forall_cons in Hw as [Hv Hw]. apply StronglySorted_inv in Hs as [Hs Hlt].
  unfold lower_index in *. cbn [count_while]. destruct (Z.ltb_spec (end_ v) id).
  - destruct (IH Hw Hs) as (l1 & l2 & -> & Hi & H1 & H2). exists (v :: l1), l2. cbn [length]. rewrite Hi. split_and!; [done|done|by constructor|done].
  - exists [], (v :: l). split_and!; [done|done|done|]. constructor; [done|]. apply Forall_forall. intros w Hw'.
    pose proof (proj1 (Forall_forall _ _) Hlt _ Hw') as Ha. pose proof (proj1 (Forall_forall _ _) Hw _ Hw') as [? ?]. unfold apart in Ha. lia.
Qed.
Lemma lower_app l1 l2 id : Forall (fun v => end_ v < id) l1 -> Forall (fun v => id <= end_ v) l2 -> lower_index end_ Z.ltb id (l1 ++ l2) = length l1.
Proof.
  intros H1 H2. unfold lower_index. induction H1 as [|v l1 Hv _ IH]; cbn [app count_while length].
  - destruct H2 as [|v l2 Hv _]; [done|]. cbn [count_while]. by destruct (Z.ltb_spec (end_ v) id); [lia|].
  - destruct (Z.ltb_spec (end_ v) id); [|lia]. by rewrite IH.
Qed.

(** ** Specification *)

Section spec.
Context {A : Type} `{AllocatorSpec A}.
Context (cfg : config) (bs : Z) (Hcfg : config_ok cfg bs) (supports1 : al_supports 1).
Context (Hvs : value_size cfg = format_size (X := interval)) (Hks : key_size cfg = format_size (X := Z)).
Abbreviation holds := (typed_btree.holds end_ Z.ltb cfg bs).
Abbreviation G := (generator A).
Implicit Types (F : gmap Z bytes) (n m c : Z) (t : tree A) (g : G) (l : list interval) (ids : gset Z).

Lemma wpx_on_tree {X} (f : M (tree A) X) t m (Q : X -> G -> Prop) R : wp f t (fun x t' => Q x (Generator t' m)) -> wpx (on_tree f) (Generator t m) Q R.
Proof. intros Hf. apply wpx_zoom. cbn [m_tree m_max]. by apply wp_wpx. Qed.
Lemma wp_on_tree {X} (f : M (tree A) X) t m (Q : X -> G -> Prop) : wp f t (fun x t' => Q x (Generator t' m)) -> wp (on_tree f) (Generator t m) Q.
Proof. intros Hf. by apply wp_zoom. Qed.

Lemma end_representable (i : interval) : representable i -> representable (end_ i).
Proof. by intros [_ ?]. Qed.
Lemma within_fits m i : is_u64 m -> within m i -> representable i.
Proof. intros [? ?] [? ?]. split; split; lia. Qed.

(** The state of a generator: [ids] are allocated, there are at most [c] free
    intervals. *)
Definition represents F n c ids g : Prop :=
  exists l, holds F n l [] (m_tree g) /\ intervals_ok (m_max g) l /\ allocated ids (m_max g) l /\ zlen l <= c.

(** *** Allocation *)

Definition lowest_free ids (i : Z) : Prop := is_u64 i /\ 1 <= i /\ i ∉ ids /\ forall j, 1 <= j < i -> j ∈ ids.

Lemma lowest_first m v l ids : intervals_ok m (v :: l) -> allocated ids m (v :: l) -> lowest_free ids (begin v).
Proof.
  intros (Hm & Hw & Hs) Ha. apply Forall_cons in Hw as [[Hv Hvm] _]. apply StronglySorted_cons in Hs as [Hlt _]. unfold is_word in *. split_and!; [split; lia|lia| |].
  - intros [_ Hf]%Ha. apply Hf. left. split; lia.
  - intros j Hj. apply Ha. split; [lia|]. intros Hf. apply Exists_cons in Hf as [[? ?]|Hf]; [lia|].
    apply Exists_exists in Hf as (w & Hw & [? ?]). apply (proj1 (Forall_forall _ _) Hlt) in Hw. unfold apart in Hw. lia.
Qed.

Lemma pop_one_spec F n c ids t m v l : holds F n (v :: l) [] t -> intervals_ok m (v :: l) -> allocated ids m (v :: l) -> zlen (v :: l) <= c -> c <= 2 ^ 32 ->
  wp pop_one (Generator t m) (fun i g' => i = begin v /\ represents F n c ({[begin v]} ∪ ids) g').
Proof.
  intros Hh Hok Ha Hc Hlim. pose proof Hok as (Hm & Hw & Hs). apply Forall_cons in Hw as [[Hv Hvm] Hwl]. apply StronglySorted_cons in Hs as [Hlt Hsl].
  pose proof (lowest_first _ _ _ _ Hok Ha) as (_ & Hlow & Hni & _).
  assert (forall l', (forall i, is_free l' i <-> is_free (v :: l) i /\ i <> begin v) -> allocated ({[begin v]} ∪ ids) m l') as Hall.
  { intros l' Hl' i. rewrite elem_of_union, elem_of_singleton, Hl', (Ha i). assert (is_free (v :: l) (begin v)) as Hf by (left; split; lia).
    destruct (decide (i = begin v)) as [->|]; [|tauto]. split; [intros _; split; [lia|tauto]|tauto]. }
  assert (forall w, w ∈ l -> end_ v + 1 < begin w) as Hafter by (intros w Hw; by apply (proj1 (Forall_forall _ _) Hlt)).
  assert (forall i, is_free l i -> end_ v + 1 < i) as Hfl.
  { intros i (w & Hw & [? ?])%Exists_exists. apply Hafter in Hw. lia. }
  unfold pop_one. wp_step. apply wp_on_tree. eapply wp_mono; [apply (typed_empty_spec end_ Z.ltb cfg bs F n _ _ _ Hh)|]. cbn beta. intros e t' [-> ->]. wp_step. wp_step. wp_step.
  apply wp_on_tree. eapply wp_mono; [apply (typed_create_spec end_ Z.ltb cfg bs Hcfg seek_min F n); exact Hh|]. cbn beta. intros cu t1 (id & -> & Hid & Hh1). cbn [app] in Hh1.
  change (nth_pos (length (v :: l)) 0) with (At 0) in Hh1.
  assert (find_cursor id [(id, At 0)] = Some (At 0)) as Hfind by (cbn; by rewrite decide_True).
  apply wp_scoped. wp_step. apply wp_on_tree. eapply wp_mono; [by eapply (typed_get_spec end_ Z.ltb cfg bs F n _ _ id 0)|]. cbn beta. intros w t2 [-> Hh2]. wp_step. destruct (Z.eqb_spec (begin v) (end_ v)) as [Heq|Hne]; cbn [negb].
  - apply wp_on_tree. eapply wp_mono; [eapply (typed_erase_spec end_ Z.ltb cfg bs Hcfg supports1 Hks F n _ _ id 0); [exact Hh2|exact Hfind|done|lia]|]. cbn beta. intros _ t3 Hh3. wp_step.
    apply wp_on_tree. eapply wp_mono; [eapply (typed_close_last end_ Z.ltb cfg bs _ _ _ [] id); [exact Hh3|by rewrite map_keys|apply not_elem_of_nil]|]. cbn beta. intros _ t4 (pos' & Hp & Hh4).
    apply fmap_nil_inv in Hp as ->. split; [done|]. exists l. cbn [m_tree m_max]. split_and!; [done|done| |cbn [length] in Hc; lia].
    apply Hall. intros i. split; [intros Hf; split; [by right|]; apply Hfl in Hf; lia|]. intros [[[? ?]|?]%Exists_cons ?]; [lia|done].
  - apply wp_on_tree. assert (u64 (begin v + 1) = begin v + 1) as -> by (apply wrap_small; unfold is_word in *; lia).
    eapply wp_mono; [eapply (typed_set_spec end_ Z.ltb cfg bs Hcfg Hvs F n _ _ id 0 v (Interval (begin v + 1) (end_ v))); [exact Hh2|exact Hfind|done| |done]|].
    { unfold is_word in *. split; split; cbn; lia. }
    cbn beta. cbn [list_insert insert]. intros _ t3 Hh3. wp_step. apply wp_on_tree.
    eapply wp_mono; [eapply (typed_close_last end_ Z.ltb cfg bs _ _ _ [] id); [exact Hh3|done|apply not_elem_of_nil]|]. cbn beta. intros _ t4 (pos' & Hp & Hh4).
    apply fmap_nil_inv in Hp as ->. split; [done|]. exists (Interval (begin v + 1) (end_ v) :: l). cbn [m_tree m_max]. split_and!; [done| | |cbn [length] in Hc |- *; lia].
    + split_and!; [done| |]; constructor; try done. split; cbn; lia.
    + apply Hall. intros i. unfold is_free. rewrite !Exists_cons. unfold covers. cbn [begin end_]. split.
      * intros [?|Hf]; [split; [left; lia|lia]|]. split; [by right|]. apply Hfl in Hf. lia.
      * intros [[?|?] ?]; [left; lia|by right].
Qed.

Lemma generator_allocate_spec F n c ids g : represents F n c ids g -> c <= 2 ^ 32 ->
  wpx allocate g (fun i g' => lowest_free ids i /\ represents F n c ({[i]} ∪ ids) g')
    (fun e g' => e = exception /\ (forall i, 1 <= i < 2 ^ 64 -> i ∈ ids) /\ g' = g).
Proof.
  destruct g as [t m]. intros (l & Hh & Hok & Ha & Hc) Hlim. cbn [m_tree m_max] in *. unfold allocate. wpx_step.
  apply wpx_on_tree. eapply wp_mono; [apply (typed_empty_spec end_ Z.ltb cfg bs F n _ _ _ Hh)|]. cbn beta. intros e t' [-> ->]. destruct l as [|v l]; cbn iota.
  - rewrite bool_decide_eq_true_2 by done. unfold max. wpx_step. wpx_step. cbn [m_max]. wpx_step. wpx_step.
    all: destruct Hok as ([Hm1 Hm2] & _); assert (forall i, i ∈ ids <-> 1 <= i <= m) as Hids by (intros i; rewrite (Ha i); unfold is_free; rewrite Exists_nil; tauto).
    + match goal with Hx : (_ =? _) = true |- _ => apply Z.eqb_eq in Hx; unfold u64_max in Hx end. split_and!; [done| |done]. intros i Hi. apply Hids. lia.
    + match goal with Hx : (_ =? _) = false |- _ => apply Z.eqb_neq in Hx; unfold u64_max in Hx end. unfold set_max. wpx_step. wpx_step. wpx_step. cbn [m_tree m_max].
      assert (u64 (m + 1) = m + 1) as -> by (apply wrap_small; split; lia). split.
      * split_and!; [split; lia|lia|rewrite Hids; lia|]. intros j Hj. apply Hids. lia.
      * exists []. split_and!; [done| | |done]; cbn [m_max].
        -- split_and!; [split; lia|done|constructor].
        -- intros i. rewrite elem_of_union, elem_of_singleton, Hids. unfold is_free. rewrite Exists_nil. lia.
  - rewrite bool_decide_eq_false_2 by done. apply wp_wpx. eapply wp_mono; [by eapply pop_one_spec|]. cbn beta. intros i g' [-> Hr]. split; [by eapply lowest_first|done].
Qed.

(** *** Release *)

Lemma holds_weaken F n n' l pos t : holds F n l pos t -> 0 <= n' <= n -> holds F n' l pos t.
Proof. intros [Hl Ho] Hn. split; [done|]. by eapply owns_weaken. Qed.

Lemma free_app l1 l2 i : is_free (l1 ++ l2) i <-> is_free l1 i \/ is_free l2 i.
Proof. apply Exists_app. Qed.

(** The ids that are neither free nor in [range]. *)
Definition taken m l range (i : Z) : Prop := 1 <= i <= m /\ ~ is_free l i /\ ~ covers i range.

Lemma store_range_spec F n l1 l2 pos t m range :
  holds F (n + insert_room) (l1 ++ l2) pos t -> 0 <= n -> intervals_ok m (l1 ++ l2) -> 0 < begin range <= end_ range -> end_ range <= m ->
  Forall (fun v => apart v range) l1 -> Forall (apart range) l2 ->
  wp (store_range range) (Generator t m) (fun _ g' => exists l' pos', pos'.*1 = pos.*1 /\ holds F n l' pos' (m_tree g') /\ intervals_ok (m_max g') l' /\
    zlen l' <= zlen (l1 ++ l2) + 1 /\ forall i, 1 <= i <= m_max g' /\ ~ is_free l' i <-> taken m (l1 ++ l2) range i).
Proof.
  intros Hh Hn (Hm & Hw & Hs) Hr Hrm H1 H2. unfold store_range, max. wp_step. wp_step. cbn [m_max].
  pose proof (proj1 (Forall_app _ _ _) Hw) as [Hw1 Hw2]. apply StronglySorted_app in Hs as (H12 & Hs1 & Hs2). destruct (Z.eqb_spec (end_ range) m) as [Heq|Hne].
  - assert (l2 = []) as ->.
    { destruct l2 as [|v l2]; [done|]. apply Forall_cons in H2 as [Hv _]. apply Forall_cons in Hw2 as [[? ?] _]. unfold apart in Hv. lia. }
    rewrite app_nil_r in *. unfold set_max. wp_step. cbn [m_tree]. rewrite wrap_small by (unfold is_word in *; lia). exists l1, pos. cbn [m_tree m_max].
    split_and!; [done|eapply holds_weaken; [exact Hh|unfold insert_room; lia]| |lia|].
    + split_and!; [unfold is_word in *; lia| |done]. apply Forall_forall. intros v Hv. pose proof (proj1 (Forall_forall _ _) Hw1 _ Hv) as [? ?].
      pose proof (proj1 (Forall_forall _ _) H1 _ Hv) as Ha. unfold apart in Ha. split; lia.
    + intros i. unfold taken, covers. split; intros Hi; split_and!; try lia; try tauto.
  - wp_step. apply wp_on_tree. assert (within m range) as Hwr by (split; lia).
    assert (lower_index end_ Z.ltb (end_ range) (l1 ++ l2) = length l1) as Hidx.
    { apply lower_app.
      - eapply Forall_impl; [exact H1|]. intros v Hv. unfold apart in Hv. lia.
      - apply Forall_forall. intros v Hv. pose proof (proj1 (Forall_forall _ _) H2 _ Hv) as Ha. pose proof (proj1 (Forall_forall _ _) Hw2 _ Hv) as [? ?]. unfold apart in Ha. lia. }
    eapply wp_mono; [eapply (typed_insert_new_spec end_ Z.ltb end_representable cfg bs Hcfg supports1 Hvs Hks range F n); [exact Hh|done|by eapply within_fits|]|].
    { apply Forall_forall. intros v [Hv|Hv]%elem_of_app; rewrite !Z.ltb_lt.
      - pose proof (proj1 (Forall_forall _ _) H1 _ Hv) as Ha. unfold apart in Ha. lia.
      - pose proof (proj1 (Forall_forall _ _) H2 _ Hv) as Ha. pose proof (proj1 (Forall_forall _ _) Hw2 _ Hv) as [? ?]. unfold apart in Ha. lia. }
    cbn beta. rewrite Hidx. unfold insert_at. rewrite take_app_length, drop_app_length. intros [cu b] t1 (-> & id & pos1 & Hcu & Hid & Hk & Hh1). cbn [fst snd] in *. subst cu.
    wp_step. apply wp_on_tree. eapply wp_mono; [by eapply (typed_close_last end_ Z.ltb cfg bs)|]. cbn beta. intros _ t2 (pos2 & Hk2 & Hh2). wp_step. exists (l1 ++ range :: l2), pos2. cbn [m_tree m_max].
    split_and!; [done|done| |rewrite !length_app; cbn [length]; lia|].
    + split_and!; [done|apply Forall_app; split; [done|by constructor]|]. apply StronglySorted_app. split_and!; [|done|by constructor].
      intros v w Hv [->|Hwl]%elem_of_cons; [by apply (proj1 (Forall_forall _ _) H1)|by apply H12].
    + intros i. unfold taken. rewrite !free_app. unfold is_free at 2. rewrite Exists_cons. fold (is_free l2 i). tauto.
Qed.

(** The cursors of [free]: at the first interval that ends at [id] or later, and at the one before it. *)
Definition right_pos l1 l2 : position := nth_pos (length (l1 ++ l2)) (length l1).
Definition left_pos l1 : position := match length l1 with O => AtEnd | S r => At r end.
Definition value_at l (p : position) : option interval := match p with At r => l !! r | _ => None end.

Lemma value_right l1 l2 : value_at (l1 ++ l2) (right_pos l1 l2) = head l2.
Proof.
  unfold right_pos, nth_pos. destruct l2 as [|v l2]; [by rewrite app_nil_r, decide_False by lia|]. rewrite decide_True by (rewrite length_app; cbn; lia).
  cbn [value_at head]. by rewrite list_lookup_middle.
Qed.
Lemma value_left l1 l2 : value_at (l1 ++ l2) (left_pos l1) = last l1.
Proof.
  unfold left_pos. destruct l1 as [|v l1 _] using rev_ind; [done|]. rewrite length_app, last_snoc, Nat.add_comm. cbn [length Nat.add value_at]. rewrite <- app_assoc. cbn [app]. by rewrite list_lookup_middle.
Qed.

Lemma cursor_interval_spec F n l pos id p t m : holds F n l pos t -> find_cursor id pos = Some p -> settled p = true ->
  wp (cursor_interval (Some id)) (Generator t m) (fun o g' => o = value_at l p /\ exists t', g' = Generator t' m /\ holds F n l pos t').
Proof.
  intros Hh Hid Hp. unfold cursor_interval. wp_step. apply wp_on_tree. eapply wp_mono; [by eapply (typed_at_end_spec end_ Z.ltb cfg bs F n)|]. cbn beta. intros b t1 [-> Hh1]. destruct p as [|r|r|]; try done.
  - rewrite bool_decide_eq_true_2 by done. wp_step. split; [done|]. by exists t1.
  - rewrite bool_decide_eq_false_2 by done. pose proof Hh1 as [_ Ho]. destruct (owns_lookup _ _ _ _ _ _ _ _ _ _ _ Ho Hid) as [b Hb].
    apply list_lookup_fmap_Some in Hb as (v & _ & Hv). wp_step. apply wp_on_tree. eapply wp_mono; [by eapply (typed_get_spec end_ Z.ltb cfg bs F n)|].
    cbn beta. intros w t2 [-> Hh2]. wp_step. split; [done|]. by exists t2.
Qed.

(** The intervals [l1] with the ids from [b] to [id] removed. *)
Record joins_left l1 id l1' b : Prop := {
  jl_suffix : exists x, l1 = l1' ++ x;
  jl_apart : Forall (fun v => end_ v + 1 < b) l1';
  jl_begin : 0 < b <= id;
  jl_free i : b <= i <= id \/ is_free l1' i <-> is_free l1 i \/ i = id
}.
Lemma merge_left_spec F n l1 l2 pos t m lid rid id : holds F n (l1 ++ l2) pos t -> intervals_ok m (l1 ++ l2) -> zlen (l1 ++ l2) <= 2 ^ 32 ->
  find_cursor lid pos = Some (left_pos l1) -> find_cursor rid pos = Some (right_pos l1 l2) -> Forall (fun v => end_ v < id) l1 -> 0 < id < 2 ^ 64 ->
  wp (merge_left (Some lid) (last l1) id (Interval id id)) (Generator t m) (fun range g' => exists l1' t' pos', joins_left l1 id l1' (begin range) /\ end_ range = id /\
    g' = Generator t' m /\ holds F n (l1' ++ l2) pos' t' /\ pos'.*1 = pos.*1 /\ find_cursor rid pos' = Some (right_pos l1' l2)).
Proof.
  intros Hh (Hm & Hw & Hs) Hlen Hl Hr Hend Hid. apply Forall_app in Hw as [Hw1 _]. apply StronglySorted_app in Hs as (_ & Hs1 & _).
  assert (u64 (id - 1) = id - 1) as Hsub by (apply wrap_small; split; lia).
  destruct l1 as [|a l1 _] using rev_ind.
  { cbn [merge_left last]. wp_step. exists [], t, pos. split_and!; try done. split; try done; [by exists []|cbn; lia|]. intros i. unfold is_free. rewrite Exists_nil. cbn [begin]. lia. }
  apply Forall_app in Hw1 as [Hw1 [[Ha Ham] _]%Forall_cons]. apply Forall_app in Hend as [Hend [Hea _]%Forall_cons]. apply StronglySorted_app in Hs1 as (Hla & Hs1 & _).
  assert (Forall (fun v => end_ v + 1 < begin a) l1) as Hsep by (apply Forall_forall; intros v Hv; apply (Hla v a); [done|by left]).
  rewrite last_snoc. cbn [merge_left]. rewrite Hsub. destruct (Z.eqb_spec (end_ a) (id - 1)) as [Heq|Hne].
  - assert (left_pos (l1 ++ [a]) = At (length l1)) as Hp by (unfold left_pos; by rewrite length_app, Nat.add_comm).
    rewrite Hp in Hl. rewrite <- app_assoc in Hh, Hlen. cbn [app] in Hh, Hlen. wp_step. apply wp_on_tree.
    eapply wp_mono; [eapply (typed_erase_spec end_ Z.ltb cfg bs Hcfg supports1 Hks F n _ _ lid (length l1) a); [exact Hh|exact Hl|by apply list_lookup_middle|done]|].
    cbn beta. rewrite delete_middle. intros _ t1 Hh1. wp_step. exists l1, t1. eexists. split_and!; [|done|done|exact Hh1|by rewrite map_keys|].
    + split; [by exists [a]|done|cbn; lia|]. intros i. rewrite free_app. unfold is_free at 3. rewrite Exists_cons, Exists_nil. unfold covers. cbn [begin].
      split; [intros [?|?]; [|tauto]; destruct (decide (i = id)); [tauto|left; right; left; lia]|intros [[?|[?|?]]|?]; [tauto|left; lia|done|left; lia]].
    + rewrite find_map, Hr. cbn [fmap option_fmap option_map]. f_equal. unfold right_pos, nth_pos. rewrite !length_app. cbn [length].
      destruct l2 as [|b l2]; cbn [length].
      * rewrite !decide_False by lia. unfold erased_pos. by case_decide.
      * rewrite !decide_True by lia. unfold erased_pos. rewrite decide_False by lia. cbn [erase_pos]. rewrite !decide_False by lia. f_equal. lia.
  - wp_step. exists (l1 ++ [a]), t, pos. split_and!; try done. split; [by exists []; rewrite app_nil_r| |cbn; lia|].
    + cbn [begin]. apply Forall_app. split; [|constructor; [lia|done]]. eapply Forall_impl; [exact Hsep|]. cbn. intros v Hv. lia.
    + intros i. cbn [begin]. split; [intros [?|?]; [right; lia|tauto]|intros [?|?]; [tauto|left; lia]].
Qed.

Record joins_right m l2 id l2' e : Prop := {
  jr_prefix : exists x, l2 = x ++ l2';
  jr_apart : Forall (fun v => e + 1 < begin v) l2';
  jr_end : id <= e <= m;
  jr_free i : id <= i <= e \/ is_free l2' i <-> is_free l2 i \/ i = id
}.
Lemma merge_right_spec F n l1 l2 pos t m rid id range : holds F n (l1 ++ l2) pos t -> is_u64 m -> Forall (within m) l2 -> StronglySorted apart l2 -> zlen (l1 ++ l2) <= 2 ^ 32 ->
  find_cursor rid pos = Some (right_pos l1 l2) -> Forall (fun v => id < begin v) l2 -> 0 < id <= m -> end_ range = id ->
  wp (merge_right (Some rid) (head l2) id range) (Generator t m) (fun range' g' => exists l2' t' pos', joins_right m l2 id l2' (end_ range') /\ begin range' = begin range /\
    g' = Generator t' m /\ holds F n (l1 ++ l2') pos' t' /\ pos'.*1 = pos.*1).
Proof.
  intros Hh Hm Hw Hs Hlen Hr Hbeg Hid Hre. destruct l2 as [|b l2].
  { cbn [merge_right head]. wp_step. exists [], t, pos. split_and!; try done. split; try done; [by exists []|lia|]. intros i. unfold is_free. rewrite Exists_nil. lia. }
  apply Forall_cons in Hw as [[Hb Hbm] Hw]. apply StronglySorted_cons in Hs as [Hsep Hs]. apply Forall_cons in Hbeg as [Hbb Hbeg].
  assert (u64 (id + 1) = id + 1) as Hadd by (apply wrap_small; unfold is_word in *; lia).
  cbn [merge_right head]. rewrite Hadd. destruct (Z.eqb_spec (begin b) (id + 1)) as [Heq|Hne].
  - assert (right_pos l1 (b :: l2) = At (length l1)) as Hp by (unfold right_pos, nth_pos; rewrite decide_True; [done|rewrite length_app; cbn; lia]).
    rewrite Hp in Hr. wp_step. apply wp_on_tree.
    eapply wp_mono; [eapply (typed_erase_spec end_ Z.ltb cfg bs Hcfg supports1 Hks F n _ _ rid (length l1) b); [exact Hh|exact Hr|by apply list_lookup_middle|done]|].
    cbn beta. rewrite delete_middle. intros _ t1 Hh1. wp_step. exists l2, t1. eexists. split_and!; [|done|done|exact Hh1|by rewrite map_keys].
    split; [by exists [b]|done|cbn; lia|]. intros i. unfold is_free. rewrite Exists_cons. unfold covers. cbn [end_].
    split; [intros [?|?]; [|tauto]; destruct (decide (i = id)); [tauto|left; left; lia]|intros [[?|?]|?]; [left; lia|tauto|left; lia]].
  - wp_step. exists (b :: l2), t, pos. split_and!; try done. split; [by exists []| |lia|].
    + constructor; [lia|]. eapply Forall_impl; [exact Hsep|]. cbn. unfold apart. intros v Hv. lia.
    + intros i. split; [intros [?|?]; [right; lia|tauto]|intros [?|?]; [tauto|left; lia]].
Qed.

(** The state after [free] has found the neighbours. *)
Lemma free_between_spec F n c l1 l2 pos t m lid rid id ids : holds F (n + insert_room) (l1 ++ l2) pos t -> 0 <= n -> intervals_ok m (l1 ++ l2) -> zlen (l1 ++ l2) <= c -> c <= 2 ^ 32 ->
  find_cursor lid pos = Some (left_pos l1) -> find_cursor rid pos = Some (right_pos l1 l2) -> Forall (fun v => end_ v < id) l1 -> Forall (fun v => id <= end_ v) l2 ->
  0 < id <= m -> allocated ids m (l1 ++ l2) ->
  wpx (free_between (Some lid) (Some rid) id) (Generator t m)
    (fun _ g' => id ∈ ids /\ exists l' pos', pos'.*1 = pos.*1 /\ holds F n l' pos' (m_tree g') /\ intervals_ok (m_max g') l' /\ zlen l' <= c + 1 /\ allocated (ids ∖ {[id]}) (m_max g') l')
    (fun e g' => e = bad_argument /\ id ∉ ids /\ exists t', g' = Generator t' m /\ holds F (n + insert_room) (l1 ++ l2) pos t').
Proof.
  intros Hh Hn Hok Hlen Hlim Hl Hr H1 H2 Hid Ha. pose proof Hok as (Hm & Hw & Hs).
  pose proof (proj1 (Forall_app _ _ _) Hw) as [Hw1 Hw2]. apply StronglySorted_app in Hs as (H12 & Hs1 & Hs2). unfold free_between. wpx_step. apply wp_wpx.
  eapply wp_mono; [eapply cursor_interval_spec; [exact Hh|exact Hl|unfold left_pos; by destruct (length l1)]|]. cbn beta. rewrite value_left.
  intros o g1 (-> & t1 & -> & Hh1). wpx_step.
  assert (wpx (throw_if_some (A := A) (last l1) (fun v => id <=? end_ v) bad_argument) (Generator t1 m) (fun _ g' => g' = Generator t1 m) (fun _ _ => False)) as Hchk.
  { destruct (last l1) as [a|] eqn:Hlast; [|done]. cbn [throw_if_some]. apply last_Some_elem_of in Hlast. pose proof (proj1 (Forall_forall _ _) H1 _ Hlast). cbn beta in *.
    destruct (Z.leb_spec id (end_ a)); [lia|done]. }
  eapply wpx_mono; [exact Hchk| |done]. cbn beta. intros _ g' ->. wpx_step. apply wp_wpx.
  eapply wp_mono; [eapply cursor_interval_spec; [exact Hh1|exact Hr|unfold right_pos, nth_pos; by case_decide]|]. cbn beta. rewrite value_right. intros o g2 (-> & t2 & -> & Hh2).
  wpx_step. destruct (match head l2 with Some r => begin r <=? id | None => false end) eqn:Hcov.
  { destruct l2 as [|b l2]; [done|]. cbn [head throw_if_some] in *. rewrite Hcov. cbn. apply Z.leb_le in Hcov. apply Forall_cons in H2 as [Hb _]. split; [done|]. split; [|by exists t2].
    intros [_ Hf]%Ha. apply Hf, free_app. right. left. split; lia. }
  assert (Forall (fun v => id < begin v) l2) as Hb2.
  { destruct l2 as [|b l2]; [done|]. cbn [head] in Hcov. apply Z.leb_gt in Hcov. constructor; [done|]. apply StronglySorted_cons in Hs2 as [Hb _]. apply Forall_cons in Hw2 as [[? ?] _].
    eapply Forall_impl; [exact Hb|]. unfold apart. cbn. intros v Hv. lia. }
  assert (throw_if_some (A := A) (head l2) (fun r => begin r <=? id) bad_argument (Generator t2 m) = (Generator t2 m, Ok tt)) as Hpass.
  { destruct l2 as [|b l2]; [done|]. cbn [head throw_if_some] in *. by rewrite Hcov. }
  unfold wpx at 1. rewrite Hpass. wpx_step.
  wpx_step.
  { destruct (last l1) as [a|] eqn:Hlast; [|done]. destruct l2 as [|b l2]; [done|]. cbn. apply last_Some_elem_of in Hlast. apply Z.ltb_lt.
    pose proof (H12 a b Hlast ltac:(by left)) as Hab. unfold apart in Hab. lia. }
  apply wp_wpx. wp_step.
  eapply wp_mono; [eapply merge_left_spec; [exact Hh2|done|lia|exact Hl|exact Hr|done|unfold is_word in *; lia]|]. cbn beta. intros r1 g3 (l1' & t3 & pos3 & [[x Hx] Hj2 Hj3 Hj4] & Hr1 & -> & Hh3 & Hk3 & Hr3). wp_step.
  assert (zlen l1' <= zlen l1) as Hl1 by (rewrite Hx, length_app; lia). rewrite length_app in Hlen.
  eapply wp_mono; [eapply merge_right_spec; [exact Hh3|done|done|done|rewrite length_app; lia|exact Hr3|done|done|done]|].
  cbn beta. intros r2 g4 (l2' & t4 & pos4 & [[y Hy] Hq2 Hq3 Hq4] & Hr2 & -> & Hh4 & Hk4).
  assert (zlen l2' <= zlen l2) as Hl2 by (rewrite Hy, length_app; lia).
  assert (forall v, v ∈ l1' -> v ∈ l1) as Hin1 by (intros v Hv; rewrite Hx; apply elem_of_app; by left).
  assert (forall v, v ∈ l2' -> v ∈ l2) as Hin2 by (intros v Hv; rewrite Hy; apply elem_of_app; by right).
  eapply wp_mono; [eapply store_range_spec; [exact Hh4|done| |lia|lia|unfold apart; rewrite Hr2; exact Hj2|exact Hq2]|].
  { split_and!; [done| |].
    - apply Forall_app. rewrite Hx in Hw1. rewrite Hy in Hw2. apply Forall_app in Hw1 as [? _], Hw2 as [_ ?]. done.
    - apply StronglySorted_app. rewrite Hx in Hs1. rewrite Hy in Hs2. apply StronglySorted_app in Hs1 as (_ & ? & _), Hs2 as (_ & _ & ?). split_and!; [|done|done].
      intros v w Hv Hwv. by apply H12; [apply Hin1|apply Hin2]. }
  cbn beta. intros _ g5 (l5 & pos5 & Hk5 & Hh5 & Hok5 & Hlen5 & Hfree). rewrite length_app in Hlen5.
  assert (~ is_free (l1 ++ l2) id) as Hnf.
  { rewrite free_app. unfold is_free. rewrite !Exists_exists. intros [(v & Hv & [? ?])|(v & Hv & [? ?])].
    - pose proof (proj1 (Forall_forall _ _) H1 _ Hv). cbn beta in *. lia.
    - pose proof (proj1 (Forall_forall _ _) Hb2 _ Hv). cbn beta in *. lia. }
  split; [apply Ha; split; [lia|done]|]. exists l5, pos5. split_and!; [congruence|done|done|lia|]. intros i. rewrite elem_of_difference, elem_of_singleton, (Ha i), Hfree. unfold taken, covers.
  rewrite !free_app. specialize (Hj4 i). specialize (Hq4 i). rewrite Hr2. split.
  - intros [[Hi Hn1] Hne]. split_and!; [lia|lia|tauto|]. intros Hc. destruct (decide (i <= id)); [|]; [assert (begin r1 <= i <= id) by lia|assert (id <= i <= end_ r2) by lia]; tauto.
  - intros (Hi & Hn1 & Hn2). assert (i <> id) by (intros ->; apply Hn2; lia). split_and!; [lia|lia| |done].
    intros [Hf|Hf]; [destruct (proj2 Hj4 (or_introl Hf)) as [?|?]|destruct (proj2 Hq4 (or_introl Hf)) as [?|?]]; [apply Hn2; lia|tauto|apply Hn2; lia|tauto].
Qed.

Lemma find_two {X} (i j : nat) (x y : X) : i <> j -> find_cursor i [(i, x); (j, y)] = Some x /\ find_cursor j [(i, x); (j, y)] = Some y.
Proof. intros Hne. cbn. by rewrite decide_True, decide_False, decide_True. Qed.

(** The search for the neighbours of [id]. *)
Lemma left_neighbour_spec F n l1 l2 rid t m (body : raw_cursor -> M G unit) Qx R :
  holds F n (l1 ++ l2) [(rid, right_pos l1 l2)] t ->
  (forall lid t', rid <> lid -> holds F n (l1 ++ l2) [(rid, right_pos l1 l2); (lid, left_pos l1)] t' ->
    wpx (scoped (body (Some lid)) (on_tree (destroy (Some lid)))) (Generator t' m) Qx R) ->
  wpx (let* e := on_tree (raw_at_end (Some rid)) in
       let* left_cursor := on_tree (if e : bool then create_cursor seek_max else raw_copy (Some rid)) in
       scoped ((if e : bool then ret tt else on_tree (raw_move_prev left_cursor) ;;; ret tt) ;;; body left_cursor) (on_tree (destroy left_cursor))) (Generator t m) Qx R.
Proof.
  intros Hh Hbody. assert (find_cursor rid [(rid, right_pos l1 l2)] = Some (right_pos l1 l2)) as Hr by (cbn; by rewrite decide_True).
  assert (forall lid (pre : M G unit) t1 t2, pre (Generator t1 m) = (Generator t2 m, Ok tt) -> rid <> lid -> holds F n (l1 ++ l2) [(rid, right_pos l1 l2); (lid, left_pos l1)] t2 ->
    wpx (scoped (pre ;;; body (Some lid)) (on_tree (destroy (Some lid)))) (Generator t1 m) Qx R) as Hpre.
  { intros lid pre t1 t2 Hrun Hne Hh2. specialize (Hbody lid t2 Hne Hh2). unfold wpx, scoped, bind in *. by rewrite Hrun. }
  wpx_step. apply wpx_on_tree. eapply wp_mono; [by eapply (typed_at_end_spec end_ Z.ltb cfg bs F n)|]. cbn beta. intros e t1 [-> Hh1]. wpx_step. apply wpx_on_tree.
  destruct l2 as [|b l2].
  - assert (right_pos l1 [] = AtEnd) as Hp by (unfold right_pos, nth_pos; rewrite app_nil_r; by rewrite decide_False by lia). rewrite Hp in *.
    rewrite bool_decide_eq_true_2 by done. eapply wp_mono; [by apply (typed_create_spec end_ Z.ltb cfg bs Hcfg seek_max F n)|]. cbn beta. intros cu t2 (lid & -> & Hlid & Hh2). cbn [app] in Hh2.
    apply (Hpre lid (ret tt) t2 t2); [done|by intros ->; apply Hlid; left|]. rewrite app_nil_r in *.
    replace (left_pos l1) with (nth_pos (length l1) (length l1 - 1)); [done|]. unfold left_pos, nth_pos. destruct l1; [done|]. rewrite decide_True; cbn; [f_equal; lia|lia].
  - assert (right_pos l1 (b :: l2) = At (length l1)) as Hp by (unfold right_pos, nth_pos; rewrite decide_True; [done|rewrite length_app; cbn; lia]). rewrite Hp in *.
    rewrite bool_decide_eq_false_2 by done. eapply wp_mono; [by eapply (typed_copy_spec end_ Z.ltb cfg bs F n)|]. cbn beta. intros cu t2 (lid & -> & Hlid & Hh2). cbn [app] in Hh2.
    assert (rid <> lid) as Hne by (intros ->; apply Hlid; by left). destruct (find_two rid lid (At (length l1)) (At (length l1)) Hne) as [_ Hl].
    pose proof (typed_prev_spec end_ Z.ltb cfg bs Hcfg F n _ _ lid _ t2 Hh2 Hl) as Hmv. apply wp_run in Hmv as (t3 & bb & Hrun & Hh3).
    eapply (Hpre lid _ t2 t3); [|done|].
    + unfold bind, on_tree, zoom. cbn [m_tree m_max]. by rewrite Hrun.
    + unfold update_cursor in Hh3. cbn [map fst] in Hh3. rewrite decide_False, decide_True in Hh3 by done. unfold left_pos. exact Hh3.
Qed.

Lemma generator_free_spec F n c ids g id : represents F (n + insert_room) c ids g -> 0 <= n -> c <= 2 ^ 32 ->
  wpx (free id) g (fun _ g' => id ∈ ids /\ represents F n (c + 1) (ids ∖ {[id]}) g')
    (fun e g' => e = (if (0 <? id) && (id <=? m_max g) then bad_argument else check_failure) /\ id ∉ ids /\ m_max g' = m_max g /\ represents F (n + insert_room) c ids g').
Proof.
  destruct g as [t m]. intros (l & Hh & Hok & Ha & Hc) Hn Hlim. cbn [m_tree m_max] in *. unfold free, max. wpx_step. wpx_step. cbn [m_max].
  destruct ((0 <? id) && (id <=? m)) eqn:Hchk.
  2: { wpx_step. cbn. split_and!; [done| |done|by exists l]. intros [Hi _]%Ha. apply andb_false_iff in Hchk as [?%Z.ltb_ge|?%Z.leb_gt]; lia. }
  apply andb_true_iff in Hchk as [Hid0%Z.ltb_lt Hidm%Z.leb_le]. pose proof Hok as (Hm & Hw & Hs). wpx_step. wpx_step. wpx_step. apply wpx_on_tree.
  destruct (lower_split m l id Hw Hs) as (l1 & l2 & -> & Hidx & H1 & H2).
  eapply wp_mono; [eapply (typed_lower_bound_spec end_ Z.ltb end_representable cfg bs Hcfg id F); [exact Hh|unfold is_word in *; split; lia]|]. cbn beta.
  rewrite Hidx. fold (right_pos l1 l2). intros cu t1 (rid & -> & _ & Hh1). cbn [app] in Hh1. apply wpx_scoped.
  apply (left_neighbour_spec F (n + insert_room) l1 l2 rid t1 m); [done|]. intros lid t2 Hne Hh2. apply wpx_scoped.
  destruct (find_two rid lid (right_pos l1 l2) (left_pos l1) Hne) as [Hr Hl].
  assert (lid ∉ [rid]) as Hlid by (intros ?%list_elem_of_singleton; congruence).
  assert (forall F n l pos t m' (Q : generator A -> Prop), holds F n l pos t -> pos.*1 = [rid; lid] -> (forall t', holds F n l [] t' -> Q (Generator t' m')) ->
    wp (on_tree (destroy (Some lid))) (Generator t m') (fun _ g => wp (on_tree (destroy (Some rid))) g (fun _ => Q))) as Hclose.
  { intros F' n' l' pos' t' m' Q Hh' Hk' HQ. apply wp_on_tree. eapply wp_mono; [by eapply (typed_close_last end_ Z.ltb cfg bs F' n' l' [rid] lid)|]. cbn beta. intros _ t3 (pos3 & Hk3 & Hh3).
    apply wp_on_tree. eapply wp_mono; [eapply (typed_close_last end_ Z.ltb cfg bs F' n' l' [] rid); [exact Hh3|done|apply not_elem_of_nil]|]. cbn beta. intros _ t4 (pos4 & ->%fmap_nil_inv & Hh4). by apply HQ. }
  eapply wpx_mono; [by eapply free_between_spec| |]; cbn beta.
  - intros _ [t3 m3] (Hin & l' & pos' & Hk & Hh3 & Hok3 & Hlen3 & Ha3). cbn [m_tree m_max] in *. eapply Hclose; [done|done|]. intros t4 Hh4. split; [done|]. by exists l'.
  - intros e g3 (-> & Hni & t3 & -> & Hh3). eapply Hclose; [exact Hh3|done|]. intros t4 Hh4. split_and!; [done|done|done|]. by exists (l1 ++ l2).
Qed.

(** *** The highest id *)

Definition highest ids h : Prop := (h = 0 /\ ids = ∅) \/ (h ∈ ids /\ forall i, i ∈ ids -> i <= h).
Lemma represents_max F n c ids g : represents F n c ids g -> highest ids (m_max g).
Proof.
  intros (l & _ & (Hm & Hw & _) & Ha & _). destruct (decide (m_max g = 0)) as [Hz|Hz].
  - left. split; [done|]. apply set_eq. intros i. rewrite (Ha i), elem_of_empty. lia.
  - right. split; [|intros i Hi%Ha; lia]. apply Ha. unfold is_word in *. split; [lia|]. unfold is_free. rewrite Exists_exists. intros (v & Hv & [? ?]).
    apply (proj1 (Forall_forall _ _) Hw) in Hv as [? ?]. lia.
Qed.
End spec.

(** ** The abstract generator *)

Inductive id_call : Type := IdAllocate | IdFree (id : Z) | IdMax.

Section machine.
Context {A : Type} `{Allocator A}.

Definition id_exec (call : id_call) : M (generator A) (option Z) :=
  match call with
  | IdAllocate => let* i := allocate in ret (Some i)
  | IdFree id => free id ;;; ret None
  | IdMax => let* m := max in ret (Some m)
  end.
Fixpoint id_execs (calls : list id_call) (g : generator A) : generator A * list (result (option Z)) :=
  match calls with
  | [] => (g, [])
  | call :: calls =>
    let (g, r) := id_exec call g in
    let (g, rs) := id_execs calls g in
    (g, r :: rs)
  end.
End machine.

(** A set of allocated ids. *)
Inductive id_step (ids : gset Z) : id_call -> gset Z -> result (option Z) -> Prop :=
  | step_allocate i : lowest_free ids i -> id_step ids IdAllocate ({[i]} ∪ ids) (Ok (Some i))
  | step_exhausted : (forall i, 1 <= i < 2 ^ 64 -> i ∈ ids) -> id_step ids IdAllocate ids (Err exception)
  | step_free i : i ∈ ids -> id_step ids (IdFree i) (ids ∖ {[i]}) (Ok None)
  | step_freed i h : i ∉ ids -> highest ids h -> 1 <= i <= h -> id_step ids (IdFree i) ids (Err bad_argument)
  | step_invalid i h : i ∉ ids -> highest ids h -> ~ 1 <= i <= h -> id_step ids (IdFree i) ids (Err check_failure)
  | step_max h : highest ids h -> id_step ids IdMax ids (Ok (Some h)).
Inductive id_steps : gset Z -> list id_call -> gset Z -> list (result (option Z)) -> Prop :=
  | id_steps_nil ids : id_steps ids [] ids []
  | id_steps_cons ids call ids1 r calls ids2 rs : id_step ids call ids1 r -> id_steps ids1 calls ids2 rs -> id_steps ids (call :: calls) ids2 (r :: rs).

(** The blocks that the calls may need. *)
Definition id_room (call : id_call) : Z := match call with IdFree _ => insert_room | _ => 0 end.
Fixpoint ids_room (calls : list id_call) : Z := match calls with [] => 0 | call :: calls => id_room call + ids_room calls end.
Lemma ids_room_nonneg calls : 0 <= ids_room calls.
Proof. induction calls as [|[] calls IH]; cbn [ids_room id_room]; unfold insert_room; lia. Qed.

Section refinement.
Context {A : Type} `{AllocatorSpec A}.
Context (cfg : config) (bs : Z) (Hcfg : config_ok cfg bs) (supports1 : al_supports 1).
Context (Hvs : value_size cfg = format_size (X := interval)) (Hks : key_size cfg = format_size (X := Z)).
Abbreviation represents := (represents cfg bs).
Implicit Types (F : gmap Z bytes) (n c : Z) (g : generator A) (ids : gset Z).

Lemma represents_weaken F n n' c c' ids g : represents F n c ids g -> 0 <= n' <= n -> c <= c' -> represents F n' c' ids g.
Proof. intros (l & Hh & Hok & Ha & Hc) Hn Hcc. exists l. split_and!; [by eapply holds_weaken|done|done|lia]. Qed.

Lemma id_call_refines F n c ids g call : represents F (n + id_room call) c ids g -> 0 <= n -> c <= 2 ^ 32 ->
  exists ids' g' r, id_exec call g = (g', r) /\ id_step ids call ids' r /\ represents F n (c + 1) ids' g'.
Proof.
  intros Hr Hn Hc. pose proof (represents_max _ _ _ _ _ _ _ Hr) as Hmax. destruct call as [|id|]; cbn [id_exec id_room] in *.
  - rewrite Z.add_0_r in Hr. pose proof (generator_allocate_spec cfg bs Hcfg supports1 Hvs Hks F n c ids g Hr Hc) as Hal. unfold wpx in Hal. unfold bind.
    destruct (allocate g) as [g' [i|e]].
    + destruct Hal as [Hlow Hr']. eexists _, _, _. split_and!; [done|by apply step_allocate|by eapply represents_weaken; [exact Hr'|lia|lia]].
    + destruct Hal as (-> & Hall & ->). eexists _, _, _. split_and!; [done|by apply step_exhausted|by eapply represents_weaken; [exact Hr|lia|lia]].
  - pose proof (generator_free_spec cfg bs Hcfg supports1 Hvs Hks F n c ids g id Hr Hn Hc) as Hf. unfold wpx in Hf. unfold bind. destruct (free id g) as [g' [[]|e]].
    + destruct Hf as [Hin Hr']. eexists _, _, _. split_and!; [done|by apply step_free|done].
    + destruct Hf as (-> & Hni & _ & Hr'). eexists _, _, _. split_and!; [done| |eapply represents_weaken; [exact Hr'|unfold insert_room; lia|lia]].
      destruct ((0 <? id) && (id <=? m_max g)) eqn:Hchk.
      * apply andb_true_iff in Hchk as [?%Z.ltb_lt ?%Z.leb_le]. eapply step_freed; [done|exact Hmax|lia].
      * eapply step_invalid; [done|exact Hmax|]. apply andb_false_iff in Hchk as [?%Z.ltb_ge|?%Z.leb_gt]; lia.
  - rewrite Z.add_0_r in Hr. eexists _, _, _. split_and!; [done|by apply step_max|by eapply represents_weaken; [exact Hr|lia|lia]].
Qed.
Lemma id_calls_refine F calls : forall n c ids g, represents F (n + ids_room calls) c ids g -> 0 <= n -> c + zlen calls <= 2 ^ 32 ->
  exists ids', id_steps ids calls ids' (id_execs calls g).2 /\ represents F n (c + zlen calls) ids' (id_execs calls g).1.
Proof.
  induction calls as [|call calls IH]; intros n c ids g Hr Hn Hc; cbn [ids_room id_execs length] in *.
  { rewrite Z.add_0_r in Hr. exists ids. split; [constructor|]. eapply represents_weaken; [exact Hr|lia|cbn; lia]. }
  pose proof (ids_room_nonneg calls). destruct (id_call_refines F (n + ids_room calls) c ids g call) as (ids1 & g1 & r & Hrun & Hstep & Hr1); [|lia|lia|].
  { by replace (n + ids_room calls + id_room call) with (n + (id_room call + ids_room calls)) by lia. }
  destruct (IH n (c + 1) ids1 g1 Hr1 Hn) as (ids2 & Hsteps & Hr2); [lia|]. rewrite Hrun. destruct (id_execs calls g1) as [g2 rs]. cbn [fst snd] in *. exists ids2.
  split; [by econstructor|]. eapply represents_weaken; [exact Hr2| |lia]. destruct Hr2 as (l & [_ (G & o & (anc & cs & Hst & _) & _)] & _). pose proof (st_n _ _ _ _ _ _ _ Hst). lia.
Qed.
End refinement.

(** ** Correctness *)

Section theorems.
Context {A : Type} `{AllocatorSpec A} (supports1 : al_supports 1).

(** C8: A generator refines a set of allocated ids.  [allocate] returns the
    lowest positive id that is not allocated, and fails only when all ids of 64
    bits are; [free] takes an allocated id from the set and refuses every other
    one, a free id below the maximum with [bad_argument]; [max] is the highest
    allocated id.  The erased and merged intervals, the rebalanced nodes of the
    tree and the local cursors never lose an id or make one free twice, no
    cursor stays registered, no assertion fails, and the blocks of the
    allocator's other clients keep their contents. *)
Theorem id_generator_refines_set (a : A) U g calls :
  al_inv a U -> make_generator a = Ok g -> al_room a (ids_room calls) -> zlen calls <= 2 ^ 32 ->
  let g' := (id_execs calls g).1 in
  exists ids, id_steps ∅ calls ids (id_execs calls g).2 /\ m_cursors (m_tree g') = [] /\
    forall i, i ∈ U -> disk_block (eng_view (m_alloc (m_tree g'))) i = disk_block (eng_view a) i.
Proof.
  intros Ha Hm Hroom Hlen g'. unfold make_generator in Hm. destruct (make_btree a empty_anchor) as [t|] eqn:Ht; [|done]. injection Hm as <-.
  destruct (make_tree_owns (derive_key end_) (key_less Z.ltb) a U (ids_room calls) (format_size (X := interval)) (format_size (X := Z)) t Ha (Z.lt_le_incl _ _ format_size_pos) (Z.lt_le_incl _ _ format_size_pos) Ht (ids_room_nonneg calls) Hroom)
    as (cfg & Hcfg & Hvs & Hks & Hown).
  destruct (id_calls_refine cfg _ Hcfg supports1 Hvs Hks (snapshot a U) calls 0 0 ∅ (Generator t 0)) as (ids & Hsteps & Hr); [|lia|lia|].
  { exists []. cbn [m_tree m_max]. split_and!; [by split|split_and!; [split; lia|done|constructor]| |cbn; lia].
    intros i. rewrite elem_of_empty. lia. }
  exists ids. split; [done|]. destruct Hr as (l & [_ Ho] & _). fold g' in Ho. split.
  - destruct Ho as (G & o & (anc & cs & Hst & _ & Hrel & _) & _). rewrite (st_cursors _ _ _ _ _ _ _ Hst). by apply Forall2_nil_inv_r in Hrel.
  - intros i Hi. eapply owns_blocks; [exact Ho|]. by apply lookup_snapshot.
Qed.
End theorems.

(** ** Examples *)

(** Twelve ids; frees that merge with the left, the right and both neighbours. *)
Definition sample_id_calls : list id_call :=
  repeat IdAllocate 12 ++ map IdFree [3; 5; 4; 9; 7; 11; 1; 8; 4; 13; 0] ++ [IdAllocate; IdAllocate; IdFree 12; IdMax; IdFree 10; IdMax; IdAllocate].
Definition sample_generator : generator (BumpAllocator.bump memory_engine.memory_engine) := Generator sample_tree 0.

Lemma id_generator_refines_set_witness :
  exists ids, id_steps ∅ sample_id_calls ids (id_execs sample_id_calls sample_generator).2 /\
    drop 12 (id_execs sample_id_calls sample_generator).2 =
      repeat (Ok None) 8 ++ [Err bad_argument; Err check_failure; Err check_failure; Ok (Some 1); Ok (Some 3); Ok None; Ok (Some 10); Ok None; Ok (Some 6); Ok (Some 4)].
Proof.
  destruct (id_generator_refines_set sample_supports sample_store ∅ sample_generator sample_id_calls) as (ids & Hs & _).
  - apply sample_store_inv.
  - vm_compute. reflexivity.
  - vm_compute. done.
  - vm_compute. discriminate.
  - exists ids. split; [exact Hs|]. vm_compute. reflexivity.
Defined.
End id_generator.
