(* ===== verification/MetaAllocator.v ===== *)
(** * The metadata allocator

    [metadata_allocator] of src/container/default_allocator.cpp: the blocks of
    the trees of the default allocator come from a free list that the default
    allocator fills in advance.  It never grows the file; every block of the
    disk that is not in the list is in use by somebody else. *)

From Stdlib Require Import Strings.Byte.
From S2P Require Import Prelude MathOps Blocks EngineSpec FreeList Allocator NodeAllocator.

(** The engine, the free list and the counter [meta_free] of the anchor. *)
Record metadata (E : Type) : Type := Metadata { meta_list : free_list E; meta_free : Z }.
Arguments Metadata {E}.
Arguments meta_list {E} _.
Arguments meta_free {E} _.

Section operations.
Context {E : Type} `{Engine E}.
Abbreviation N := (metadata E).

Definition set_meta_list (l : free_list E) (a : N) : N := Metadata l (meta_free a).
Definition set_meta_free (n : Z) : M N unit := modify (fun a => Metadata (meta_list a) n).
Definition on_meta_list {X} (m : M (free_list E) X) : M N X := zoom meta_list set_meta_list m.

Definition allocate_metadata_block : M N Z :=
  let* empty := on_meta_list FreeList.empty in
  assert! (negb empty) ;;;
  let* n := gets meta_free in
  assert! (0 <? n) ;;;
  let* block := on_meta_list pop in
  set_meta_free (u64 (n - 1)) ;;;
  ret block.
Definition free_metadata_block (index : Z) : M N unit :=
  on_meta_list (push index) ;;;
  let* n := gets meta_free in
  set_meta_free (u64 (n + 1)).

(** The virtual functions. *)
Definition meta_allocate (n : Z) : M N Z :=
  throw_if (negb (n =? 1)) bad_argument ;;;
  allocate_metadata_block.
Definition meta_reallocate (a s n : Z) : M N Z := throw bad_argument.
Definition meta_release (addr n : Z) : M N unit :=
  throw_if (negb (n =? 1)) bad_argument ;;;
  free_metadata_block addr.
End operations.

(** ** The allocator interface *)

Section spec.
Context {E : Type} `{EngineSpec E} (sz : Z).
Abbreviation N := (metadata E).
Implicit Types (a : N) (U : gset Z).

Abbreviation engine_of a := (fl_engine (meta_list a)).

#[local] Instance metadata_engine : Engine N := {|
  eng_view a := eng_view (engine_of a);
  eng_inv a := eng_inv (engine_of a);
  eng_read i := on_meta_list (on_engine (eng_read i));
  eng_update i f := on_meta_list (on_engine (eng_update i f));
  eng_overwrite i d := on_meta_list (on_engine (eng_overwrite i d));
  eng_overwrite_zero i := on_meta_list (on_engine (eng_overwrite_zero i));
  eng_grow n := on_meta_list (on_engine (eng_grow n))
|}.

(** The blocks of the disk are those of [stack] and those of [U]. *)
Record meta_stack a U (stack : list Z) : Prop := {
  ms_list : fl_inv (meta_list a) stack;
  ms_free : meta_free a = zlen stack;
  ms_disk : forall i, in_disk (eng_view (engine_of a)) i <-> i ∈ stack \/ i ∈ U;
  ms_disjoint : forall i, i ∈ stack -> i ∉ U
}.
(** The disk has [sz] blocks. *)
Definition meta_inv a U : Prop := d_size (eng_view (engine_of a)) = sz /\ exists stack, meta_stack a U stack.
Definition meta_room a (n : Z) : Prop := n <= meta_free a.

#[export] Instance metadata_allocator : Allocator N := {|
  do_allocate := meta_allocate;
  do_reallocate := meta_reallocate;
  do_free := meta_release
|}.

Lemma wp_on_meta_list {X} (m : M (free_list E) X) a Q :
  wp m (meta_list a) (fun x l => Q x (set_meta_list l a)) -> wp (on_meta_list m) a Q.
Proof. apply wp_zoom. Qed.

Lemma meta_engine_op a U stack e' : meta_stack a U stack -> eng_inv e' ->
  d_geo (eng_view e') = d_geo (eng_view (engine_of a)) -> d_size (eng_view e') = d_size (eng_view (engine_of a)) ->
  (forall i, i ∈ stack -> disk_block (eng_view e') i = disk_block (eng_view (engine_of a)) i) ->
  meta_stack (set_meta_list (FreeList.set_engine e' (meta_list a)) a) U stack.
Proof.
  intros [Hfl Hfree Hdisk Hdis] Hi Hg Hs Hsame. split; cbn; try done.
  - apply (fl_inv_mono (meta_list a)); cbn; try done; [unfold d_bs; by rewrite Hg|lia].
  - intros i. unfold in_disk. rewrite Hs. apply Hdisk.
Qed.
Lemma meta_bounds a U stack : meta_stack a U stack -> wf_disk (eng_view (engine_of a)) /\ eng_inv (engine_of a) /\ 0 <= meta_free a < 2 ^ 64 - 1 /\
  meta_free a + Z.of_nat (size U) = d_size (eng_view (engine_of a)).
Proof.
  intros [Hfl Hfree Hdisk Hdis]. pose proof Hfl as (Hi & _ & Hnd & Hf & _). pose proof (spec_wf _ Hi) as Hwf.
  assert (list_to_set stack ∪ U = blocks 0 (d_size (eng_view (engine_of a)))) as Heq.
  { apply set_eq. intros i. rewrite elem_of_union, elem_of_list_to_set, <- Hdisk, elem_of_blocks. unfold in_disk. lia. }
  apply (f_equal (fun X => Z.of_nat (size X))) in Heq. rewrite size_union in Heq by set_solver. rewrite size_list_to_set in Heq by done. unfold blocks in Heq.
  rewrite (size_list_to_set (seqZ _ _)), length_seqZ in Heq by apply NoDup_seqZ.
  pose proof (wf_bs_pos _ Hwf). destruct Hwf as (_ & _ & Hs). unfold invalid_value, u64_max in Hs. assert (0 <= d_size (eng_view (engine_of a))) by (unfold d_size; lia).
  assert (d_size (eng_view (engine_of a)) < 2 ^ 64 - 1) by nia. split_and!; [by apply spec_wf|done|lia|lia|lia].
Qed.

Lemma meta_write_step a U stack e' i b : d_size (eng_view (engine_of a)) = sz -> meta_stack a U stack -> i ∈ U -> eng_inv e' -> eng_view e' = disk_set i b (eng_view (engine_of a)) ->
  let a' := set_meta_list (FreeList.set_engine e' (meta_list a)) a in
  meta_inv a' U /\ al_step_with meta_room (U ∖ {[i]}) 0 a a' /\ disk_block (eng_view a') i = b.
Proof.
  intros Hsz Hst Hi He Hv a'. assert (in_disk (eng_view (engine_of a)) i) as Hin by (apply (ms_disk _ _ _ Hst); by right).
  assert (forall j, in_disk (eng_view (engine_of a)) j -> j <> i -> disk_block (eng_view e') j = disk_block (eng_view (engine_of a)) j) as Hsame.
  { intros j Hj Hne. rewrite Hv. apply disk_set_block_ne; unfold in_disk in *; lia. }
  split_and!.
  - split; [cbn; by rewrite Hv, disk_set_size|]. exists stack. apply meta_engine_op; try done; rewrite Hv; [done|apply disk_set_size|]. intros j Hj. rewrite <- Hv. apply Hsame.
    + apply (ms_disk _ _ _ Hst). by left.
    + intros ->. by apply (ms_disjoint _ _ _ Hst i).
  - split_and!; cbn; [by rewrite Hv| |by intros j Hj].
    intros j Hj. apply elem_of_difference in Hj as [Hj Hne]. rewrite elem_of_singleton in Hne. apply Hsame; [|done]. apply (ms_disk _ _ _ Hst). by right.
  - cbn. rewrite Hv. by apply disk_set_block_eq.
Qed.

Lemma meta_read a U i : meta_inv a U -> i ∈ U ->
  wp (eng_read i) a (fun b a' => b = disk_block (eng_view a) i /\ meta_inv a' U /\ al_step_with meta_room U 0 a a').
Proof.
  intros [Hsz [stack Hst]] Hi. destruct (meta_bounds _ _ _ Hst) as (_ & He & _). cbn [eng_read metadata_engine]. apply wp_on_meta_list, wp_on_engine.
  eapply wp_mono; [apply spec_read; [done|apply (ms_disk _ _ _ Hst); by right]|]. cbn beta. intros b e' (-> & He' & Hv). split_and!; [done| |].
  - split; [cbn; by rewrite Hv|]. exists stack. apply meta_engine_op; try done; by rewrite Hv.
  - split_and!; cbn; [by rewrite Hv|by rewrite Hv|by intros j Hj].
Qed.
Lemma meta_update a U i f : meta_inv a U -> i ∈ U -> length (f (disk_block (eng_view a) i)) = length (disk_block (eng_view a) i) ->
  wp (eng_update i f) a (fun _ a' => meta_inv a' U /\ al_step_with meta_room (U ∖ {[i]}) 0 a a' /\ disk_block (eng_view a') i = f (disk_block (eng_view a) i)).
Proof.
  intros [Hsz [stack Hst]] Hi Hl. destruct (meta_bounds _ _ _ Hst) as (_ & He & _). cbn [eng_update metadata_engine]. apply wp_on_meta_list, wp_on_engine.
  eapply wp_mono; [apply spec_update; [done|apply (ms_disk _ _ _ Hst); by right|done]|]. cbn beta. intros _ e' (He' & Hv). by apply (meta_write_step a U stack e' i).
Qed.
Lemma meta_overwrite_zero a U i : meta_inv a U -> i ∈ U ->
  wp (eng_overwrite_zero i) a (fun _ a' => meta_inv a' U /\ al_step_with meta_room (U ∖ {[i]}) 0 a a' /\ disk_block (eng_view a') i = zeros (d_bs (eng_view a))).
Proof.
  intros [Hsz [stack Hst]] Hi. destruct (meta_bounds _ _ _ Hst) as (_ & He & _). cbn [eng_overwrite_zero metadata_engine]. apply wp_on_meta_list, wp_on_engine.
  eapply wp_mono; [apply spec_overwrite_zero; [done|apply (ms_disk _ _ _ Hst); by right]|]. cbn beta. intros _ e' (He' & Hv). by apply (meta_write_step a U stack e' i).
Qed.

Lemma meta_allocate_spec a U : meta_inv a U -> meta_room a 1 ->
  wp (meta_allocate 1) a (fun b a' => meta_inv a' (U ∪ {[b]}) /\ b ∉ U /\ al_step_with meta_room U 1 a a').
Proof.
  intros [Hsz [stack Hst]] Hroom. destruct (meta_bounds _ _ _ Hst) as (_ & _ & Hb & _). destruct Hst as [Hfl Hfree Hdisk Hdis]. unfold meta_room in Hroom.
  destruct stack as [|b stack]; [cbn in Hfree; lia|]. unfold meta_allocate, allocate_metadata_block. do 3 wp_step. apply wp_on_meta_list.
  unfold wp at 1. rewrite (empty_spec _ _ Hfl). replace (set_meta_list (meta_list a) a) with a by by destruct a. do 3 wp_step. wp_step. wp_step. wp_step. wp_step.
  apply wp_on_meta_list. eapply wp_mono; [by apply pop_spec|]. cbn beta. intros r l (-> & Hfl' & Hfr). unfold set_meta_free. do 3 wp_step. cbn [meta_list meta_free set_meta_list].
  rewrite wrap_small by (split; lia). pose proof Hfl as (_ & _ & Hnd & _). apply NoDup_cons in Hnd as [Hnb Hnd]. pose proof Hfr as (Hgr & Hsr & Hbr).
  split_and!; [|apply Hdis; by left|].
  - split; [cbn; congruence|]. exists stack. split; cbn [meta_list meta_free]; [done|rewrite Hfree; cbn [length]; lia| |].
    + intros i. unfold in_disk. rewrite Hsr, elem_of_union, elem_of_singleton. fold (in_disk (eng_view (engine_of a)) i). rewrite Hdisk, elem_of_cons. tauto.
    + intros i Hi. rewrite elem_of_union, elem_of_singleton. intros [HiU| ->]; [|done]. apply (Hdis i); [by right|done].
  - split_and!; cbn; [done| |intros j Hj; unfold meta_room; cbn; lia].
    intros i Hi. apply Hbr; [apply Hdisk; by right|]. intros Hs. by apply (Hdis i).
Qed.
Lemma meta_release_spec a U b : meta_inv a U -> b ∈ U ->
  wp (meta_release b 1) a (fun _ a' => meta_inv a' (U ∖ {[b]}) /\ al_step_with meta_room (U ∖ {[b]}) 0 a a').
Proof.
  intros [Hsz [stack Hst]] Hb. destruct (meta_bounds _ _ _ Hst) as (_ & _ & Hm & _). destruct Hst as [Hfl Hfree Hdisk Hdis].
  assert (b ∉ stack) as Hns by (intros Hs; by apply (Hdis b)). unfold meta_release, free_metadata_block, set_meta_free. do 3 wp_step.
  apply wp_on_meta_list. eapply wp_mono; [apply push_spec; [done|apply Hdisk; by right|done]|]. cbn beta. intros _ l (Hfl' & Hfr). do 3 wp_step. cbn [meta_list meta_free set_meta_list].
  rewrite wrap_small by (split; lia). pose proof Hfr as (Hgr & Hsr & Hbr).
  assert (forall i, i ∈ U ∖ {[b]} -> i ∉ b :: stack) as Hout.
  { intros i [Hi Hne]%elem_of_difference. rewrite elem_of_singleton in Hne. rewrite elem_of_cons. intros [?|Hs]; [done|]. by apply (Hdis i). }
  split.
  - split; [cbn; congruence|]. exists (b :: stack). split; cbn [meta_list meta_free]; [done|rewrite Hfree; cbn [length]; lia| |intros i Hi HiU; by apply (Hout i)].
    intros i. unfold in_disk. rewrite Hsr, elem_of_difference, elem_of_singleton, elem_of_cons. fold (in_disk (eng_view (engine_of a)) i). rewrite Hdisk.
    destruct (decide (i = b)) as [->|]; tauto.
  - split_and!; cbn; [done| |intros j Hj; unfold meta_room; cbn; lia].
    intros i Hi. apply Hbr; [apply Hdisk; right; set_solver|by apply Hout].
Qed.

Definition metadata_allocator_spec : AllocatorSpec N.
Proof.
  refine {| al_inv := meta_inv; al_supports n := n = 1; al_room := meta_room |}.
  - intros a U n m _ Hm. cbn. unfold meta_room. lia.
  - intros a U [Hsz [stack Hst]]. split; [by apply (meta_bounds _ _ _ Hst)|]. intros i Hi. apply (ms_disk _ _ _ Hst). by right.
  - by apply meta_read.
  - by apply meta_update.
  - by apply meta_overwrite_zero.
  - intros a U n Hinv Hn Hs Hr. cbn in Hs. subst n. eapply wp_mono; [by apply meta_allocate_spec|]. cbn beta. intros b a' (Hi & Hd & Hst).
    rewrite blocks_1. split_and!; [done|set_solver|done].
  - intros a U b n m Hinv Hn Hm Hne H1 H2. cbn in H1, H2. lia.
  - intros a U b n Hinv Hn Hs Hsub. cbn in Hs. subst n. rewrite blocks_1 in *. apply meta_release_spec; [done|set_solver].
Defined.
End spec.
