(* ===== verification/DefaultAllocator.v ===== *)
(** * The default allocator

    [default_allocator] of src/container/default_allocator.cpp: free extents are
    indexed twice, by position and by size, in B+ trees whose blocks come from
    the metadata allocator.  The allocator takes the best fitting extent, merges
    freed extents with their neighbours, grows the file in chunks and keeps
    enough metadata blocks for the next insertion into both trees. *)

From Stdlib Require Import Strings.Byte.
From S2P Require Import Prelude MathOps Serialization Blocks EngineSpec LinearIO FreeList Allocator MetaAllocator BTreeNodes BTree BTreeRemove RawBTree TypedBTree.

Module default_allocator.
Import btree raw_btree typed_btree.

(** ** Data *)

Record extent_t : Type := Extent { block : Z; size : Z }.
Definition no_extent : extent_t := Extent invalid_value 0.
Definition extent_eqb (a b : extent_t) : bool := (block a =? block b) && (size a =? size b).

#[export] Instance extent_format : Format extent_t := {
  format_size := 16;
  encode e := be_encode 8 (block e) ++ be_encode 8 (size e);
  decode b := Extent (be_decode (take 8 b)) (be_decode (take 8 (drop 8 b)))
}.

(** [order_by_size] *)
Definition size_less (a b : extent_t) : bool :=
  if negb (size a =? size b) then size a <? size b else index_ltb (block a) (block b).

(** The anchor, the options and the cursors of one of the trees; the blocks of
    both trees are in the same engine. *)
Record tree_state : Type := TreeState { ts_anchor : anchor; ts_config : config; ts_cursors : list (nat * cursor) }.

Record default_allocator (E : Type) : Type := DefaultAllocator {
  m_meta : metadata E;
  m_meta_total : Z;
  m_data_total : Z;
  m_data_free : Z;
  m_by_position : tree_state;
  m_by_size : tree_state;
  m_can_grow : bool;
  m_min_chunk : Z
}.
Arguments DefaultAllocator {E}.
Arguments m_meta {E} _.
Arguments m_meta_total {E} _.
Arguments m_data_total {E} _.
Arguments m_data_free {E} _.
Arguments m_by_position {E} _.
Arguments m_by_size {E} _.
Arguments m_can_grow {E} _.
Arguments m_min_chunk {E} _.

(** The anchor, as it is stored between two sessions. *)
Record default_anchor : Type := DefaultAnchor {
  meta_freelist : Z;
  meta_total : Z;
  anchor_meta_free : Z;
  anchor_data_total : Z;
  anchor_data_free : Z;
  extents_by_position : anchor;
  extents_by_size : anchor
}.
Definition empty_default_anchor : default_anchor := DefaultAnchor invalid_value 0 0 0 0 empty_anchor empty_anchor.

Record allocation_stats : Type := Stats { data_total : Z; data_used : Z; data_free : Z; meta_data : Z }.

(** ** Access to the parts *)

Section operations.
Context {E : Type} `{EngineSpec E}.
Abbreviation D := (default_allocator E).
Abbreviation T := (tree (metadata E)).

Definition tree_of (ts : tree_state) (a : metadata E) : T := Tree a (ts_anchor ts) (ts_config ts) (ts_cursors ts).
Definition state_of (t : T) : tree_state := TreeState (m_anchor t) (m_config t) (m_cursors t).

Definition set_meta (a : metadata E) (s : D) : D :=
  DefaultAllocator a (m_meta_total s) (m_data_total s) (m_data_free s) (m_by_position s) (m_by_size s) (m_can_grow s) (m_min_chunk s).
Definition position_tree (s : D) : T := tree_of (m_by_position s) (m_meta s).
Definition size_tree (s : D) : T := tree_of (m_by_size s) (m_meta s).
Definition set_position_tree (t : T) (s : D) : D :=
  DefaultAllocator (m_alloc t) (m_meta_total s) (m_data_total s) (m_data_free s) (state_of t) (m_by_size s) (m_can_grow s) (m_min_chunk s).
Definition set_size_tree (t : T) (s : D) : D :=
  DefaultAllocator (m_alloc t) (m_meta_total s) (m_data_total s) (m_data_free s) (m_by_position s) (state_of t) (m_can_grow s) (m_min_chunk s).

Definition on_meta {X} (m : M (metadata E) X) : M D X := zoom m_meta set_meta m.
Definition on_position {X} (m : M T X) : M D X := zoom position_tree set_position_tree m.
Definition on_size {X} (m : M T X) : M D X := zoom size_tree set_size_tree m.
Definition on_disk {X} (m : M E X) : M D X := on_meta (on_meta_list (on_engine m)).

Definition engine_size : M D Z := gets (fun s => d_size (eng_view (fl_engine (meta_list (m_meta s))))).
Definition get_meta_free : M D Z := gets (fun s => meta_free (m_meta s)).
Definition get_meta_total : M D Z := gets m_meta_total.
Definition set_meta_total (n : Z) : M D unit := modify (fun s =>
  DefaultAllocator (m_meta s) n (m_data_total s) (m_data_free s) (m_by_position s) (m_by_size s) (m_can_grow s) (m_min_chunk s)).
Definition set_data_total (n : Z) : M D unit := modify (fun s =>
  DefaultAllocator (m_meta s) (m_meta_total s) n (m_data_free s) (m_by_position s) (m_by_size s) (m_can_grow s) (m_min_chunk s)).
Definition set_data_free (n : Z) : M D unit := modify (fun s =>
  DefaultAllocator (m_meta s) (m_meta_total s) (m_data_total s) n (m_by_position s) (m_by_size s) (m_can_grow s) (m_min_chunk s)).
Definition can_grow (b : bool) : M D unit := modify (fun s =>
  DefaultAllocator (m_meta s) (m_meta_total s) (m_data_total s) (m_data_free s) (m_by_position s) (m_by_size s) b (m_min_chunk s)).
Definition min_chunk (chunk_size : Z) : M D unit :=
  throw_if (chunk_size =? 0) bad_argument ;;;
  modify (fun s =>
    DefaultAllocator (m_meta s) (m_meta_total s) (m_data_total s) (m_data_free s) (m_by_position s) (m_by_size s) (m_can_grow s) chunk_size).

(** The constructor. *)
Definition open_default_allocator (e : E) (anc : default_anchor) (can_grow : bool) : result D :=
  match make_free_list e (meta_freelist anc) with
  | Err er => Err er
  | Ok l =>
    let a := Metadata l (anchor_meta_free anc) in
    match make_btree (V := extent_t) (K := Z) a (extents_by_position anc), make_btree (V := extent_t) (K := extent_t) a (extents_by_size anc) with
    | Ok p, Ok q => Ok (DefaultAllocator a (meta_total anc) (anchor_data_total anc) (anchor_data_free anc) (state_of p) (state_of q) can_grow 128)
    | Err er, _ => Err er
    | _, Err er => Err er
    end
  end.
Definition make_default_allocator (e : E) (can_grow : bool) : result D := open_default_allocator e empty_default_anchor can_grow.

(** ** Metadata blocks *)

Definition required_free_meta_blocks : M D Z := gets (fun s =>
  u32 (u32 (height (ts_anchor (m_by_position s)) + 1) + u32 (height (ts_anchor (m_by_size s)) + 1))).
Definition required_total_meta_blocks : Z := 6.
Definition needed_metadata_blocks : M D Z :=
  let* total := get_meta_total in
  let* free := get_meta_free in
  let* required_free := required_free_meta_blocks in
  let needed_total := if total <? required_total_meta_blocks then u32 (required_total_meta_blocks - total) else 0 in
  let needed_free := if free <? required_free then u32 (required_free - free) else 0 in
  ret (Z.max needed_free needed_total).

(** [for (u64 i = take; i-- > 0;) m_meta_freelist.push(free.block + i);] *)
Fixpoint push_blocks (first : Z) (take : nat) : M D unit :=
  match take with
  | O => ret tt
  | S i =>
    let* b := lift_result (index_add first (Z.of_nat i)) in
    on_meta (on_meta_list (push b)) ;;;
    push_blocks first i
  end.
(** Returns the rest of the extent. *)
Definition take_metadata (free : extent_t) (needed : Z) : M D extent_t :=
  if (size free =? 0) || (needed =? 0) then ret free else
  let take := if size free <? needed then u32 (size free) else needed in
  push_blocks (block free) (Z.to_nat take) ;;;
  let* n := get_meta_free in
  on_meta (set_meta_free (u64 (n + take))) ;;;
  let* n := get_meta_total in
  set_meta_total (u64 (n + take)) ;;;
  let* b := lift_result (index_add (block free) take) in
  ret (Extent b (u64 (size free - take))).

(** ** Extents *)

Definition extents_overlap (a b : extent_t) : M D bool :=
  assert! (index_valid (block a) && index_valid (block b)) ;;;
  let* b_end := lift_result (index_add (block b) (size b)) in
  if index_ltb (block a) b_end then
    let* a_end := lift_result (index_add (block a) (size a)) in
    ret (index_ltb (block b) a_end)
  else ret false.
Definition extents_touch (left_extent right_extent : extent_t) : M D bool :=
  assert! (index_valid (block left_extent) && index_valid (block right_extent)) ;;;
  let* left_end := lift_result (index_add (block left_extent) (size left_extent)) in
  ret (index_eqb left_end (block right_extent)).
Definition borders_end (e : extent_t) : M D bool :=
  assert! (index_valid (block e)) ;;;
  let* e_end := lift_result (index_add (block e) (size e)) in
  let* n := engine_size in
  ret (index_eqb e_end n).

Definition find_best_fit (request : Z) : M D raw_cursor :=
  on_size (lower_bound (V := extent_t) (fun e => e) size_less (Extent invalid_value request)).
(** The cursor of an entry that must exist; it is destroyed if the assertion
    fails. *)
Definition must_exist (on : forall X, M T X -> M D X) (c : raw_cursor) : M D raw_cursor :=
  on_exception (let* e := on _ (raw_at_end c) in assert! (negb e)) (on _ (destroy c)) ;;;
  ret c.
Definition find_position_entry (e : extent_t) : M D raw_cursor :=
  let* c := on_position (find (V := extent_t) block index_ltb (block e)) in
  must_exist (@on_position) c.
Definition find_size_entry (e : extent_t) : M D raw_cursor :=
  let* c := on_size (find (V := extent_t) (fun e => e) size_less e) in
  must_exist (@on_size) c.

(** [cursor && cursor.get() == extent] *)
Definition at_extent (on : forall X, M T X -> M D X) (c : raw_cursor) (e : extent_t) : M D bool :=
  let* at_end := on _ (raw_at_end c) in
  if at_end : bool then ret false else
  let* x := on _ (cursor_get c) in
  ret (extent_eqb x e).
Definition allocate_extent (e : extent_t) (by_pos by_size : raw_cursor) : M D unit :=
  assert! (index_valid (block e)) ;;;
  let* p := at_extent (@on_position) by_pos e in
  assert! p ;;;
  let* q := at_extent (@on_size) by_size e in
  assert! q ;;;
  on_position (cursor_erase (V := extent_t) block by_pos) ;;;
  on_size (cursor_erase (V := extent_t) (fun e => e) by_size) ;;;
  let* n := gets m_data_free in
  set_data_free (u64 (n - size e)).

(** [if (next) { prev = next; prev.move_prev(); } else prev = create_cursor(seek_max);],
    [body] is the scope of [prev]. *)
Definition with_previous {X} (next : raw_cursor) (body : raw_cursor -> M D X) : M D X :=
  let* e := on_position (raw_at_end next) in
  let* prev := on_position (if e : bool then create_cursor seek_max else raw_copy next) in
  scoped
    ((if e : bool then ret tt else on_position (raw_move_prev prev) ;;; ret tt) ;;;
     body prev)
    (on_position (destroy prev)).

(** Neighbours that cannot be merged are forgotten. *)
Definition right_neighbor (by_pos_right : raw_cursor) (entry : extent_t) : M D extent_t :=
  let* e := on_position (raw_at_end by_pos_right) in
  if e : bool then ret no_extent else
  let* right_extent := on_position (cursor_get by_pos_right) in
  let* o := extents_overlap entry right_extent in
  throw_if o bad_argument ;;;
  let* t := extents_touch entry right_extent in
  ret (if t : bool then right_extent else no_extent).
Definition left_neighbor (by_pos_left : raw_cursor) (entry : extent_t) : M D extent_t :=
  let* e := on_position (raw_at_end by_pos_left) in
  if e : bool then ret no_extent else
  let* left_extent := on_position (cursor_get by_pos_left) in
  let* o := extents_overlap entry left_extent in
  throw_if o bad_argument ;;;
  let* t := extents_touch left_extent entry in
  ret (if t : bool then left_extent else no_extent).
Definition erase_neighbor (e : extent_t) (by_pos by_size : raw_cursor) : M D unit :=
  if index_valid (block e) then
    let* found := on_size (cursor_find (V := extent_t) (fun e => e) size_less e by_size) in
    assert! found ;;;
    on_position (cursor_erase (V := extent_t) block by_pos) ;;;
    on_size (cursor_erase (V := extent_t) (fun e => e) by_size)
  else ret tt.

Definition free_internal (free : extent_t) : M D unit :=
  assert! (index_valid (block free) && (0 <? size free)) ;;;
  let* meta := get_meta_free in
  let* required := required_free_meta_blocks in
  assert! (required <=? meta) ;;;
  let* by_pos_right := on_position (lower_bound (V := extent_t) block index_ltb (block free)) in
  scoped
    (let* right_extent := right_neighbor by_pos_right free in
     let entry := if index_valid (block right_extent) then Extent (block free) (u64 (size free + size right_extent)) else free in
     with_previous by_pos_right (fun by_pos_left =>
       let* left_extent := left_neighbor by_pos_left entry in
       let entry := if index_valid (block left_extent) then Extent (block left_extent) (u64 (size entry + size left_extent)) else entry in
       let* by_size := on_size (create_cursor seek_none) in
       scoped
         (erase_neighbor right_extent by_pos_right by_size ;;;
          erase_neighbor left_extent by_pos_left by_size ;;;
          let* insert_by_pos := on_position (cursor_insert block index_ltb entry by_pos_left) in
          let* insert_by_size := on_size (cursor_insert (fun e => e) size_less entry by_size) in
          assert! (insert_by_pos && insert_by_size) ;;;
          let* n := gets m_data_free in
          set_data_free (u64 (n + size free)))
         (on_size (destroy by_size))))
    (on_position (destroy by_pos_right)).

(** ** The free list *)

Definition allocate_from_front : M D extent_t :=
  let* by_pos := on_position (create_cursor seek_min) in
  scoped
    (let* e := on_position (raw_at_end by_pos) in
     if e : bool then ret no_extent else
     let* free_extent := on_position (cursor_get by_pos) in
     assert! (index_valid (block free_extent) && (0 <? size free_extent)) ;;;
     let* by_size := find_size_entry free_extent in
     scoped
       (allocate_extent free_extent by_pos by_size ;;;
        ret free_extent)
       (on_size (destroy by_size)))
    (on_position (destroy by_pos)).

(** Every iteration gives a metadata block back. *)
Fixpoint drain_freelist (fuel : nat) : M D unit :=
  let* free := get_meta_free in
  let* total := get_meta_total in
  let* required := required_free_meta_blocks in
  if (required <? free) && (required_total_meta_blocks <? total) then
    match fuel with
    | O => throw assert_failure
    | S fuel =>
      let* b := on_meta (on_meta_list pop) in
      on_meta (set_meta_free (u64 (free - 1))) ;;;
      set_meta_total (u64 (total - 1)) ;;;
      free_internal (Extent b 1) ;;;
      drain_freelist fuel
    end
  else ret tt.
(** Every iteration but the last one takes a free block. *)
Fixpoint fill_freelist (fuel : nat) : M D unit :=
  let* free := get_meta_free in
  let* required := required_free_meta_blocks in
  if free <? required then
    match fuel with
    | O => throw assert_failure
    | S fuel =>
      let* needed := needed_metadata_blocks in
      let* front := allocate_from_front in
      if negb (index_valid (block front)) then ret tt else
      let* front := take_metadata front needed in
      (if 0 <? size front then free_internal front else ret tt) ;;;
      fill_freelist fuel
    end
  else ret tt.
Definition fix_freelist : M D unit :=
  let* total := get_meta_total in
  drain_freelist (Z.to_nat total) ;;;
  let* n := gets m_data_free in
  fill_freelist (S (Z.to_nat n)).

(** ** Allocation *)

Definition free (b n : Z) : M D unit :=
  assert! (index_valid b) ;;;
  if n =? 0 then ret tt else
  fix_freelist ;;;
  let* needed := needed_metadata_blocks in
  let* free_extent := take_metadata (Extent b n) needed in
  if 0 <? size free_extent then free_internal free_extent else ret tt.
Definition free_extent (e : extent_t) : M D unit := free (block e) (size e).
(** [free(extent_t(first + skip, n))] *)
Definition free_rest (first skip n : Z) : M D unit :=
  let* b := lift_result (index_add first skip) in
  free_extent (Extent b n).

Definition chunk_size (blocks : Z) : M D Z :=
  assert! (0 <? blocks) ;;;
  let* m := gets m_min_chunk in
  ret (Z.max m (if blocks <? 2 ^ 63 then round_towards_pow2 64 blocks else blocks)).
Definition allocate_from_engine (min_size : Z) : M D extent_t :=
  assert! (0 <? min_size) ;;;
  let* grow := gets m_can_grow in
  throw_if (negb grow) bad_alloc ;;;
  let* start := engine_size in
  let* alloc_size := chunk_size min_size in
  on_disk (eng_grow alloc_size) ;;;
  let* n := gets m_data_total in
  set_data_total (u64 (n + alloc_size)) ;;;
  ret (Extent start alloc_size).
Definition lazy_initialize : M D unit :=
  let* total := get_meta_total in
  if required_total_meta_blocks <=? total then ret tt else
  let* e := allocate_from_engine (u32 (required_total_meta_blocks - total)) in
  free (block e) (size e) ;;;
  let* total := get_meta_total in
  assert! (0 <? total).

(** A step of a function that may return early. *)
Definition or_else {X} (m : M D (option X)) (k : M D X) : M D X :=
  let* r := m in
  match r with Some x => ret x | None => k end.

Definition allocate_best_fit (request : Z) : M D (option Z) :=
  let* best_fit_size := find_best_fit request in
  scoped
    (let* e := on_size (raw_at_end best_fit_size) in
     if e : bool then ret None else
     let* found := on_size (cursor_get best_fit_size) in
     assert! (request <=? size found) ;;;
     let* best_fit_pos := find_position_entry found in
     scoped
       (allocate_extent found best_fit_pos best_fit_size ;;;
        free_rest (block found) request (u64 (size found - request)) ;;;
        ret (Some (block found)))
       (on_position (destroy best_fit_pos)))
    (on_size (destroy best_fit_size)).
Definition allocate_last (request : Z) : M D (option Z) :=
  let* last_pos := on_position (create_cursor seek_max) in
  scoped
    (let* e := on_position (raw_at_end last_pos) in
     if e : bool then ret None else
     let* last_extent := on_position (cursor_get last_pos) in
     assert! (size last_extent <? request) ;;;
     let* b := borders_end last_extent in
     if negb b then ret None else
     let* last_size := find_size_entry last_extent in
     scoped
       (let* allocated := allocate_from_engine (u64 (request - size last_extent)) in
        let* t := extents_touch last_extent allocated in
        assert! t ;;;
        allocate_extent last_extent last_pos last_size ;;;
        free_rest (block last_extent) request (u64 (size last_extent + size allocated - request)) ;;;
        ret (Some (block last_extent)))
       (on_size (destroy last_size)))
    (on_position (destroy last_pos)).
Definition allocate (request : Z) : M D Z :=
  assert! (0 <? request) ;;;
  lazy_initialize ;;;
  fix_freelist ;;;
  or_else (allocate_best_fit request) (
  or_else (allocate_last request) (
  let* allocated := allocate_from_engine request in
  free_rest (block allocated) request (u64 (size allocated - request)) ;;;
  ret (block allocated))).

(** ** Reallocation *)

(** The extent of a cursor that is not at the end, if it satisfies [p]. *)
Definition extent_if (c : raw_cursor) (p : extent_t -> M D bool) : M D (option extent_t) :=
  let* e := on_position (raw_at_end c) in
  if e : bool then ret None else
  let* x := on_position (cursor_get c) in
  let* b := p x in
  ret (if b : bool then Some x else None).
Definition and_then (m : M D bool) (b : bool) : M D bool := let* a := m in ret (a && b).

Definition grow_right (e : extent_t) (need : Z) (next_pos : raw_cursor) : M D (option Z) :=
  let* o := extent_if next_pos (fun next_extent => and_then (extents_touch e next_extent) (need <=? size next_extent)) in
  match o with
  | None => ret None
  | Some next_extent =>
    let* next_size := find_size_entry next_extent in
    scoped
      (allocate_extent next_extent next_pos next_size ;;;
       free_rest (block next_extent) need (u64 (size next_extent - need)) ;;;
       ret (Some (block e)))
      (on_size (destroy next_size))
  end.
Definition grow_left (e : extent_t) (new_size need : Z) (prev_pos : raw_cursor) : M D (option Z) :=
  let* o := extent_if prev_pos (fun prev_extent => and_then (extents_touch prev_extent e) (need <=? size prev_extent)) in
  match o with
  | None => ret None
  | Some prev_extent =>
    let* prev_size := find_size_entry prev_extent in
    scoped
      (allocate_extent prev_extent prev_pos prev_size ;;;
       on_disk (copy_blocks (block e) (block prev_extent) (size e)) ;;;
       free_rest (block prev_extent) new_size (u64 (size prev_extent + size e - new_size)) ;;;
       ret (Some (block prev_extent)))
      (on_size (destroy prev_size))
  end.
Definition grow_right_end (e : extent_t) (need : Z) (next_pos : raw_cursor) : M D (option Z) :=
  let* o := extent_if next_pos (fun next_extent =>
    let* t := extents_touch e next_extent in
    if t : bool then borders_end next_extent else ret false) in
  match o with
  | None => ret None
  | Some next_extent =>
    let grow_by := u64 (need - size next_extent) in
    let* allocated := allocate_from_engine grow_by in
    let* t := extents_touch next_extent allocated in
    assert! t ;;;
    let* next_size := find_size_entry next_extent in
    scoped
      (allocate_extent next_extent next_pos next_size ;;;
       free_rest (block allocated) grow_by (u64 (size allocated - grow_by)) ;;;
       ret (Some (block e)))
      (on_size (destroy next_size))
  end.
Definition grow_end (e : extent_t) (need : Z) : M D (option Z) :=
  let* b := borders_end e in
  if negb b then ret None else
  let* allocated := allocate_from_engine need in
  let* t := extents_touch e allocated in
  assert! t ;;;
  free_rest (block allocated) need (u64 (size allocated - need)) ;;;
  ret (Some (block e)).

(** The search for free space next to the extent. *)
Definition grow_in_place (e : extent_t) (new_size : Z) : M D (option Z) :=
  let need := u64 (new_size - size e) in
  let* next_pos := on_position (lower_bound (V := extent_t) block index_ltb (block e)) in
  scoped
    (let* r := grow_right e need next_pos in
     match r with
     | Some b => ret (Some b)
     | None =>
       with_previous next_pos (fun prev_pos =>
         let* r := grow_left e new_size need prev_pos in
         match r with
         | Some b => ret (Some b)
         | None =>
           let* r := grow_right_end e need next_pos in
           match r with
           | Some b => ret (Some b)
           | None => grow_end e need
           end
         end)
     end)
    (on_position (destroy next_pos)).
Definition reallocate (b n new_size : Z) : M D Z :=
  assert! (index_valid b) ;;;
  assert! (0 <? n) ;;;
  lazy_initialize ;;;
  if n =? new_size then ret b else
  if new_size <? n then
    free_rest b new_size (u64 (n - new_size)) ;;;
    ret b
  else
  or_else (grow_in_place (Extent b n) new_size) (
  let* new_block := allocate new_size in
  on_disk (copy_blocks b new_block n) ;;;
  free b n ;;;
  ret new_block).

Definition add_region (b n : Z) : M D unit :=
  throw_if (negb (index_valid b)) bad_argument ;;;
  throw_if (n =? 0) bad_argument ;;;
  let* sz := engine_size in
  throw_if ((sz <=? b) || (u64 (sz - b) <? n)) bad_argument ;;;
  free b n ;;;
  let* t := gets m_data_total in
  set_data_total (u64 (t + n)).

Definition stats : M D allocation_stats :=
  let* s := get in
  assert! (u64 (m_data_free s + m_meta_total s) <=? m_data_total s) ;;;
  ret (Stats (m_data_total s) (u64 (u64 (m_data_total s - m_data_free s) - m_meta_total s)) (m_data_free s) (m_meta_total s)).
End operations.
End default_allocator.
