(* ===== verification/DefaultTrees.v ===== *)
(** * The trees of the default allocator

    Two trees share the blocks of one metadata allocator.  An operation of one
    tree leaves the other one and the blocks of everybody else alone; these
    blocks are the frame [F]. *)

From Stdlib Require Import Strings.Byte.
From stdpp Require Import sorting.
From S2P Require Import Prelude MathOps Serialization Blocks EngineSpec LinearIO FreeList Allocator MetaAllocator BTreeNodes BTree BTreeShape BTreeStore BTreeSearch BTreeCursors BTreeInsert BTreeOps BTreeSession BTreeRemove BTreeErase BTreeHeight BTreeHistory RawBTree TypedBTree DefaultAllocator.

(** ** Another tree in the same blocks *)

Section passive.
Import btree btree_shape btree_store btree_cursors btree_ops.
Context {A : Type} `{Allocator A}.
Context (derive_key : bytes -> bytes) (key_less : bytes -> bytes -> bool) (cfg : config) (bs : Z).
Implicit Types (G : gmap Z bytes) (o : option node) (a : A).

Lemma tree_ok_mono anc G G' o : tree_ok derive_key key_less cfg bs anc G o -> (forall k, k ∈ tree_ids o -> G' !! k = G !! k) -> tree_ok derive_key key_less cfg bs anc G' o.
Proof.
  intros Hok Hsame. destruct o as [tr|]; [|done]. destruct Hok as [h [? Hst ? ? ? ? ? ? ? ?]]. exists h. split; try done.
  unfold stored in *. apply Forall_forall. intros e He. destruct (proj1 (Forall_forall _ _) Hst e He) as (b & Hb & Hbody). exists b. split; [|done].
  rewrite Hsame; [done|]. cbn. unfold ids. by apply list_elem_of_fmap_2.
Qed.
Lemma tree_ids_dom anc G o k : tree_ok derive_key key_less cfg bs anc G o -> k ∈ tree_ids o -> k ∈ dom G.
Proof.
  destruct o as [tr|]; [|intros _ Hk; by apply elem_of_nil in Hk]. intros [h Hrep] Hk. cbn in Hk. unfold ids in Hk. apply list_elem_of_fmap in Hk as (e & -> & He).
  destruct (proj1 (Forall_forall _ _) (tr_stored _ _ _ _ _ _ _ _ Hrep) e He) as (b & Hb & _). by apply elem_of_dom_2 in Hb.
Qed.
(** The other blocks may change, and the allocator may satisfy another
    specification afterwards. *)
Lemma inv_passive (S S' : AllocatorSpec A) G G' n n' o pos a a' anc c cs : inv (H0 := S) derive_key key_less cfg bs G n o pos (Tree a anc c cs) ->
  al_inv (AllocatorSpec := S') a' (dom G') -> (forall i b, G' !! i = Some b -> disk_block (eng_view a') i = b) -> 0 <= n' -> al_room (AllocatorSpec := S') a' n' -> d_bs (eng_view a') = bs ->
  (forall k, k ∈ tree_ids o -> G' !! k = G !! k) -> inv (H0 := S') derive_key key_less cfg bs G' n' o pos (Tree a' anc c cs).
Proof.
  intros (anc' & cs' & Hst & Hok & Hrel & Hnd) Ha Hb Hn Hroom Hbs Hsame. destruct Hst as [_ _ _ _ _ Hanc Hconf Hcs]. cbn in Hanc, Hconf, Hcs.
  exists anc', cs'. split_and!; [by split|by eapply tree_ok_mono|done|done].
Qed.
End passive.

(** ** Two trees *)

Section joint.
Import btree btree_shape btree_store btree_cursors btree_ops raw_btree.
Context {A : Type} `{Allocator A}.
Implicit Types (F G : gmap Z bytes) (a : A) (n : Z) (l : list bytes) (pos : list (nat * position)) (t : tree A).

Definition joint {S : AllocatorSpec A} (bs : Z) dk1 kl1 cfg1 dk2 kl2 cfg2 F n l1 pos1 l2 pos2 t1 t2 : Prop :=
  m_alloc t1 = m_alloc t2 /\ exists G o1 o2,
    inv dk1 kl1 cfg1 bs G n o1 pos1 t1 /\ inv dk2 kl2 cfg2 bs G n o2 pos2 t2 /\ values o1 = l1 /\ values o2 = l2 /\
    framed F G o1 /\ framed F G o2 /\ forall k, k ∈ tree_ids o1 -> k ∉ tree_ids o2.

Context (dk1 : bytes -> bytes) (kl1 : bytes -> bytes -> bool) (cfg1 : config) (dk2 : bytes -> bytes) (kl2 : bytes -> bytes -> bool) (cfg2 : config) (bs : Z).

Lemma joint_sym {S : AllocatorSpec A} F n l1 pos1 l2 pos2 t1 t2 :
  joint bs dk1 kl1 cfg1 dk2 kl2 cfg2 F n l1 pos1 l2 pos2 t1 t2 -> joint bs dk2 kl2 cfg2 dk1 kl1 cfg1 F n l2 pos2 l1 pos1 t2 t1.
Proof.
  intros (Ha & G & o1 & o2 & H1 & H2 & Hv1 & Hv2 & Hf1 & Hf2 & Hd). split; [done|]. exists G, o2, o1. split_and!; try done. intros k Hk2 Hk1. by apply (Hd k).
Qed.
(** To an operation of one tree the blocks of the other one are a frame. *)
Lemma joint_active {S : AllocatorSpec A} F n l1 pos1 l2 pos2 t1 t2 : joint bs dk1 kl1 cfg1 dk2 kl2 cfg2 F n l1 pos1 l2 pos2 t1 t2 ->
  exists F', owns dk1 kl1 cfg1 bs F' n l1 pos1 t1 /\ forall n' l1' pos1' t1', owns dk1 kl1 cfg1 bs F' n' l1' pos1' t1' ->
    joint bs dk1 kl1 cfg1 dk2 kl2 cfg2 F n' l1' pos1' l2 pos2 t1' (Tree (m_alloc t1') (m_anchor t2) (m_config t2) (m_cursors t2)).
Proof.
  intros (Ha & G & o1 & o2 & H1 & H2 & Hv1 & Hv2 & Hf1 & Hf2 & Hd). set (F' := filter (fun e => e.1 ∉ tree_ids o1) G).
  exists F'. split.
  - exists G, o1. split_and!; [done|done|]. intros k b Hb. unfold F' in Hb. apply map_lookup_filter_Some in Hb. exact Hb.
  - intros n' l1' pos1' t1' (G' & o1' & H1' & Hv1' & Hf'). split; [done|]. exists G', o1', o2.
    assert (forall k, k ∈ tree_ids o2 -> k ∈ dom G) as Hdom. { destruct H2 as (anc & cs & _ & Hok & _). intros k. by apply (tree_ids_dom dk2 kl2 cfg2 bs anc G o2 k). }
    assert (forall k b, G !! k = Some b -> k ∉ tree_ids o1 -> F' !! k = Some b) as HF' by (intros k b Hb Hk; by apply map_lookup_filter_Some).
    assert (forall k, k ∈ tree_ids o2 -> G' !! k = G !! k /\ k ∉ tree_ids o1') as Hsame.
    { intros k Hk. pose proof (Hdom k Hk) as [b Hb]%elem_of_dom. rewrite Hb. apply Hf', HF'; [done|]. intros Hk1. by apply (Hd k). }
    assert (forall k b, F !! k = Some b -> F' !! k = Some b) as HF by (intros k b Hb; apply HF'; by apply (Hf1 k b)).
    destruct H1' as (anc & cs & Hst & Hok & Hrel & Hnd). split_and!; try done.
    + by exists anc, cs.
    + destruct t2 as [a2 anc2 c2 cs2]. eapply (inv_passive _ _ _ _ S S); [exact H2|apply Hst..|by intros k Hk; apply Hsame].
    + intros k b Hb. by apply Hf', HF.
    + intros k b Hb. split; [by apply Hf', HF|]. by apply (Hf2 k b).
    + intros k Hk1 Hk2. by apply (Hsame k Hk2).
Qed.
(** The allocator changes blocks that belong to neither of the trees. *)
Lemma joint_alloc {S S' : AllocatorSpec A} F F' n n' l1 pos1 l2 pos2 t1 t2 a' : joint (S := S) bs dk1 kl1 cfg1 dk2 kl2 cfg2 F n l1 pos1 l2 pos2 t1 t2 ->
  0 <= n' -> al_room (AllocatorSpec := S') a' n' -> d_bs (eng_view a') = bs ->
  (forall G, al_inv (AllocatorSpec := S) (m_alloc t1) (dom G) -> (forall i b, G !! i = Some b -> disk_block (eng_view (m_alloc t1)) i = b) -> F ⊆ G ->
    exists G', al_inv (AllocatorSpec := S') a' (dom G') /\ (forall i b, G' !! i = Some b -> disk_block (eng_view a') i = b) /\ F' ⊆ G' /\
      (forall k, k ∈ dom G -> k ∉ dom F -> G' !! k = G !! k /\ k ∉ dom F')) ->
  joint (S := S') bs dk1 kl1 cfg1 dk2 kl2 cfg2 F' n' l1 pos1 l2 pos2 (Tree a' (m_anchor t1) (m_config t1) (m_cursors t1)) (Tree a' (m_anchor t2) (m_config t2) (m_cursors t2)).
Proof.
  intros (Ha & G & o1 & o2 & H1 & H2 & Hv1 & Hv2 & Hf1 & Hf2 & Hd) Hn Hroom Hbs HG.
  assert (forall k, k ∈ tree_ids o1 -> k ∈ dom G) as Hd1. { destruct H1 as (anc & cs & _ & Hok & _). intros k. by apply (tree_ids_dom dk1 kl1 cfg1 bs anc G o1 k). }
  assert (forall k, k ∈ tree_ids o2 -> k ∈ dom G) as Hd2. { destruct H2 as (anc & cs & _ & Hok & _). intros k. by apply (tree_ids_dom dk2 kl2 cfg2 bs anc G o2 k). }
  assert (forall o k, framed F G o -> k ∈ tree_ids o -> k ∉ dom F) as Hout. { intros o k Hf Hk [b Hb]%elem_of_dom. by apply (Hf k b). }
  destruct (HG G) as (G' & Ha' & Hc & HF & Hsame).
  - destruct H1 as (anc & cs & Hst & _). apply Hst.
  - destruct H1 as (anc & cs & Hst & _). apply Hst.
  - apply map_subseteq_spec. intros k b Hb. by apply (Hf1 k b).
  - split; [done|]. exists G', o1, o2. split_and!; try done.
    + destruct t1 as [a1 anc1 c1 cs1]. eapply (inv_passive _ _ _ _ S S'); [exact H1|done..|]. intros k Hk. apply Hsame; [by apply Hd1|by apply (Hout o1)].
    + destruct t2 as [a2 anc2 c2 cs2]. eapply (inv_passive _ _ _ _ S S'); [exact H2|done..|]. intros k Hk. apply Hsame; [by apply Hd2|by apply (Hout o2)].
    + intros k b Hb. split; [by eapply lookup_weaken|]. intros Hk. apply elem_of_dom_2 in Hb. by apply (Hsame k (Hd1 k Hk) (Hout o1 k Hf1 Hk)).
    + intros k b Hb. split; [by eapply lookup_weaken|]. intros Hk. apply elem_of_dom_2 in Hb. by apply (Hsame k (Hd2 k Hk) (Hout o2 k Hf2 Hk)).
Qed.
End joint.

(** ** Formats and orders *)

Module default_trees.
Import btree btree_shape btree_store btree_cursors btree_ops btree_session btree_erase btree_height btree_history raw_btree typed_btree default_allocator.

Definition fits (e : extent_t) : Prop := is_u64 (block e) /\ is_u64 (size e).
Lemma extent_decode_encode e : fits e -> decode (encode e) = e.
Proof.
  intros [Hb He]. destruct e as [b n]. cbn [block size] in *. cbn [decode encode extent_format block size].
  rewrite drop_app_length' by by rewrite length_be_encode. rewrite take_app_length' by by rewrite length_be_encode. f_equal; [|by apply u64_decode_encode].
  rewrite <- (take_ge (be_encode 8 b) 8) by (rewrite length_be_encode; lia). by apply u64_decode_encode.
Qed.
Lemma length_extent e : zlen (encode e) = 16.
Proof. cbn [encode extent_format]. by rewrite length_app, !length_be_encode. Qed.
#[export] Instance extent_format_spec : FormatSpec extent_t :=
  {| representable := fits; format_size_pos := eq_refl; length_encode := length_extent; decode_encode := extent_decode_encode |}.

#[export] Instance index_order : LessOrder index_ltb.
Proof.
  split; unfold index_ltb; intros *; [rewrite Z.ltb_lt, Z.ltb_ge; lia|]. intros Hac%Z.ltb_lt. rewrite !Z.ltb_lt. lia.
Qed.
Lemma size_less_spec a b : size_less a b = true <-> size a < size b \/ (size a = size b /\ u64 (block a + 1) < u64 (block b + 1)).
Proof.
  unfold size_less, index_ltb. destruct (Z.eqb_spec (size a) (size b)); cbn [negb]; rewrite Z.ltb_lt; lia.
Qed.
#[export] Instance size_order : LessOrder size_less.
Proof.
  split; intros *.
  - intros Hab. apply size_less_spec in Hab. apply not_true_iff_false. rewrite size_less_spec. lia.
  - rewrite !size_less_spec. lia.
Qed.
(** Extents of the same size at the same position are equal. *)
Lemma size_equal a b : fits a -> fits b -> size_less a b = false -> size_less b a = false -> a = b.
Proof.
  intros [Ha1 Ha2] [Hb1 Hb2] H1%not_true_iff_false H2%not_true_iff_false. rewrite size_less_spec in H1, H2. unfold wrap, is_word in *.
  assert (size a = size b) as Hs by lia. assert ((block a + 1) mod 2 ^ 64 = (block b + 1) mod 2 ^ 64) as Hm by lia.
  assert (block a = block b) as Hbl.
  { assert ((block a + 1 - 1) mod 2 ^ 64 = (block b + 1 - 1) mod 2 ^ 64) as Hm' by (rewrite Zminus_mod, Hm, <- Zminus_mod; done).
    replace (block a + 1 - 1) with (block a) in Hm' by lia. replace (block b + 1 - 1) with (block b) in Hm' by lia. by rewrite !Z.mod_small in Hm' by lia. }
  destruct a, b; cbn in *; by subst.
Qed.

(** ** The trees as parts of the state *)

Definition position_height {E} (s : default_allocator E) : Z := height (ts_anchor (m_by_position s)).
Definition size_height {E} (s : default_allocator E) : Z := height (ts_anchor (m_by_size s)).
(** The counters and the options do not change. *)
Definition steady {E} (s s' : default_allocator E) : Prop :=
  m_meta_total s' = m_meta_total s /\ m_data_total s' = m_data_total s /\ m_data_free s' = m_data_free s /\
  m_can_grow s' = m_can_grow s /\ m_min_chunk s' = m_min_chunk s.
(** No tree gets higher. *)
Definition quiet {E} (s s' : default_allocator E) : Prop :=
  steady s s' /\ position_height s' <= position_height s /\ size_height s' <= size_height s.
#[export] Instance steady_preorder {E} : PreOrder (@steady E).
Proof. split; unfold steady; [by intros s|]. intros s1 s2 s3. intuition congruence. Qed.
#[export] Instance quiet_preorder {E} : PreOrder (@quiet E).
Proof.
  split; unfold quiet; [intros s; split; [done|lia]|]. intros s1 s2 s3 (H1 & ? & ?) (H2 & ? & ?). split; [by etrans|lia].
Qed.

(** One of the trees: [view] and [upd] access it in the state, [own] says that
    it holds the values [l]. *)
Section side.
Context {E : Type} `{EngineSpec E} (sz : Z) {K : Type} `{FormatSpec K}.
Abbreviation D := (default_allocator E).
Abbreviation T := (tree (metadata E)).
#[local] Instance spec_at : AllocatorSpec (metadata E) := metadata_allocator_spec sz.
Lemma spec_supports : al_supports (A := metadata E) 1.
Proof. reflexivity. Qed.
Context (derive : extent_t -> K) (less : K -> K -> bool) `{!LessOrder less}.
Context (cfg : config) (bs : Z).

Record is_side (view : D -> T) (upd : T -> D -> D) (own : gmap Z bytes -> Z -> list extent_t -> list (nat * position) -> D -> Prop) : Prop := {
  side_fits : forall e : extent_t, representable e -> representable (derive e);
  side_config : config_ok cfg bs;
  side_values : value_size cfg = 16;
  side_keys : key_size cfg = format_size (X := K);
  side_active : forall F n l pos s, own F n l pos s -> exists F', typed_btree.holds derive less cfg bs F' n l pos (view s) /\
    forall n' l' pos' t', typed_btree.holds derive less cfg bs F' n' l' pos' t' -> own F n' l' pos' (upd t' s);
  side_quiet : forall t s, height (m_anchor t) <= height (m_anchor (view s)) -> quiet s (upd t s)
}.

Context {view : D -> T} {upd : T -> D -> D} {own : gmap Z bytes -> Z -> list extent_t -> list (nat * position) -> D -> Prop}.
Context (Hside : is_side view upd own).
Implicit Types (F : gmap Z bytes) (n : Z) (l : list extent_t) (pos : list (nat * position)) (s : D).

Lemma side_op {X} (m : M T X) F n l pos s (Q : X -> Z -> list extent_t -> list (nat * position) -> Prop) : own F n l pos s -> same_height m ->
  (forall F' t, typed_btree.holds derive less cfg bs F' n l pos t -> wp m t (fun x t' => exists n' l' pos', Q x n' l' pos' /\ typed_btree.holds derive less cfg bs F' n' l' pos' t')) ->
  wp (zoom view upd m) s (fun x s' => exists n' l' pos', Q x n' l' pos' /\ own F n' l' pos' s' /\ quiet s s').
Proof.
  intros Ho Hh Hm. destruct (side_active _ _ _ Hside _ _ _ _ _ Ho) as (F' & Hv & Hback). apply wp_zoom.
  pose proof (Hm F' _ Hv) as Hw. apply wp_run in Hw as (t' & x & Hrun & n' & l' & pos' & HQ & Hv'). apply wp_run. exists t', x. split; [done|]. exists n', l', pos'.
  split_and!; [done|by apply Hback|]. apply (side_quiet _ _ _ Hside). specialize (Hh (view s)). unfold height_of in Hh. rewrite Hrun in Hh. cbn [fst] in Hh. lia.
Qed.
(** Functions that leave the values alone. *)
Lemma side_view {X} (m : M T X) F n l pos s (Q : X -> list (nat * position) -> Prop) : own F n l pos s -> same_height m ->
  (forall F' t, typed_btree.holds derive less cfg bs F' n l pos t -> wp m t (fun x t' => exists pos', Q x pos' /\ typed_btree.holds derive less cfg bs F' n l pos' t')) ->
  wp (zoom view upd m) s (fun x s' => exists pos', Q x pos' /\ own F n l pos' s' /\ quiet s s').
Proof.
  intros Ho Hh Hm. eapply wp_mono; [apply (side_op m _ _ _ _ _ (fun x n' l' pos' => n' = n /\ l' = l /\ Q x pos') Ho Hh)|].
  - intros F' t Ht. eapply wp_mono; [by apply Hm|]. cbn beta. intros x t' (pos' & HQ & Ht'). by exists n, l, pos'.
  - cbn beta. intros x s' (n' & l' & pos' & (-> & -> & HQ) & Ho' & Hq). by exists pos'.
Qed.

Definition seek_pos_of (seek : cursor_seek_t) l : position :=
  match seek with seek_none => AtEnd | seek_min => nth_pos (length l) 0 | seek_max => nth_pos (length l) (length l - 1) end.
Lemma side_create seek F n l pos s : own F n l pos s ->
  wp (zoom view upd (create_cursor seek)) s (fun c s' => exists id, c = Some id /\ id ∉ pos.*1 /\ own F n l (pos ++ [(id, seek_pos_of seek l)]) s' /\ quiet s s').
Proof.
  intros Ho. eapply wp_mono; [apply (side_view _ _ _ _ _ _ (fun c pos' => exists id, c = Some id /\ id ∉ pos.*1 /\ pos' = pos ++ [(id, seek_pos_of seek l)]) Ho); [apply same_create|]|].
  - intros F' t Ht. eapply wp_mono; [by apply (typed_create_spec derive less cfg bs (side_config _ _ _ Hside))|]. cbn beta. intros c t' (id & -> & Hid & Ht'). eexists. split; [by exists id|done].
  - cbn beta. intros c s' (pos' & (id & -> & Hid & ->) & Ho' & Hq). by exists id.
Qed.
Lemma side_at_end F n l pos id p s : own F n l pos s -> find_cursor id pos = Some p ->
  wp (zoom view upd (raw_at_end (Some id))) s (fun b s' => b = bool_decide (p = AtEnd) /\ own F n l pos s' /\ quiet s s').
Proof.
  intros Ho Hid. eapply wp_mono; [apply (side_view _ _ _ _ _ _ (fun b pos' => b = bool_decide (p = AtEnd) /\ pos' = pos) Ho); [apply same_at_end|]|].
  - intros F' t Ht. eapply wp_mono; [exact (typed_at_end_spec derive less cfg bs F' n l pos id p t Ht Hid)|]. cbn beta. intros b t' [-> Ht']. by exists pos.
  - cbn beta. by intros b s' (pos' & (-> & ->) & Ho' & Hq).
Qed.
Lemma side_get F n l pos id r e s : own F n l pos s -> find_cursor id pos = Some (At r) -> l !! r = Some e ->
  wp (zoom view upd (cursor_get (Some id))) s (fun x s' => x = e /\ own F n l pos s' /\ quiet s s').
Proof.
  intros Ho Hid He. eapply wp_mono; [apply (side_view _ _ _ _ _ _ (fun x pos' => x = e /\ pos' = pos) Ho)|].
  - unfold cursor_get. apply same_bind; [apply same_raw_get|done].
  - intros F' t Ht. eapply wp_mono; [exact (typed_get_spec derive less cfg bs F' n l pos id r e t Ht Hid He)|]. cbn beta. intros b t' [-> Ht']. by exists pos.
  - cbn beta. by intros b s' (pos' & (-> & ->) & Ho' & Hq).
Qed.
Lemma side_copy F n l pos id p s : own F n l pos s -> find_cursor id pos = Some p ->
  wp (zoom view upd (raw_copy (Some id))) s (fun c s' => exists id', c = Some id' /\ id' ∉ pos.*1 /\ own F n l (pos ++ [(id', p)]) s' /\ quiet s s').
Proof.
  intros Ho Hid. eapply wp_mono; [apply (side_view _ _ _ _ _ _ (fun c pos' => exists id', c = Some id' /\ id' ∉ pos.*1 /\ pos' = pos ++ [(id', p)]) Ho); [apply same_raw_copy|]|].
  - intros F' t Ht. eapply wp_mono; [exact (typed_copy_spec derive less cfg bs F' n l pos id p t Ht Hid)|]. cbn beta. intros c t' (id' & -> & Hid' & Ht'). eexists. split; [by exists id'|done].
  - cbn beta. intros c s' (pos' & (id' & -> & Hid' & ->) & Ho' & Hq). by exists id'.
Qed.
Lemma side_prev F n l pos id r s : own F n l pos s -> find_cursor id pos = Some (At r) ->
  wp (zoom view upd (raw_move_prev (Some id))) s (fun _ s' => own F n l (update_cursor id (match r with O => AtEnd | S r => At r end) pos) s' /\ quiet s s').
Proof.
  intros Ho Hid. eapply wp_mono; [apply (side_view _ _ _ _ _ _ (fun _ pos' => pos' = update_cursor id (match r with O => AtEnd | S r => At r end) pos) Ho); [apply same_raw_move_prev|]|].
  - intros F' t Ht. eapply wp_mono; [exact (typed_prev_spec derive less cfg bs (side_config _ _ _ Hside) F' n l pos id r t Ht Hid)|]. cbn beta. intros b t' Ht'. eexists. by split.
  - cbn beta. by intros b s' (pos' & -> & Ho' & Hq).
Qed.
Lemma side_close F n l ks id pos s : own F n l pos s -> pos.*1 = ks ++ [id] -> id ∉ ks ->
  wp (zoom view upd (destroy (Some id))) s (fun _ s' => exists pos', pos'.*1 = ks /\ own F n l pos' s' /\ quiet s s').
Proof.
  intros Ho Hk Hid. apply (side_view _ _ _ _ _ _ (fun _ pos' => pos'.*1 = ks) Ho); [apply same_destroy|].
  intros F' t Ht. eapply wp_mono; [exact (typed_close_last derive less cfg bs F' n l ks id pos t Ht Hk Hid)|]. cbn beta. intros b t' (pos' & Hp & Ht'). by exists pos'.
Qed.
Lemma side_lower_bound k F n l pos s : own F n l pos s -> representable k ->
  wp (zoom view upd (lower_bound derive less k)) s (fun c s' => exists id, c = Some id /\ id ∉ pos.*1 /\
    own F n l (pos ++ [(id, nth_pos (length l) (lower_index derive less k l))]) s' /\ quiet s s').
Proof.
  intros Ho Hk. eapply wp_mono; [apply (side_view _ _ _ _ _ _ (fun c pos' => exists id, c = Some id /\ id ∉ pos.*1 /\ pos' = pos ++ [(id, nth_pos (length l) (lower_index derive less k l))]) Ho); [apply same_tree_lower_bound|]|].
  - intros F' t Ht. eapply wp_mono; [by apply (typed_lower_bound_spec derive less (side_fits _ _ _ Hside) cfg bs (side_config _ _ _ Hside))|]. cbn beta. intros c t' (id & -> & Hid & Ht'). eexists. split; [by exists id|done].
  - cbn beta. intros c s' (pos' & (id & -> & Hid & ->) & Ho' & Hq). by exists id.
Qed.
(** The entry with the key of [e]. *)
Definition unique_key l : Prop := forall v w, v ∈ l -> w ∈ l -> less (derive v) (derive w) = false -> less (derive w) (derive v) = false -> v = w.
Lemma less_irrefl k : less k k = false.
Proof. destruct (less k k) eqn:Hk; [|done]. by rewrite (less_asym _ _ Hk) in Hk. Qed.
Lemma side_find e F n l pos s : own F n l pos s -> fits e -> e ∈ l -> unique_key l ->
  wp (zoom view upd (find derive less (derive e))) s (fun c s' => exists id r, c = Some id /\ id ∉ pos.*1 /\ l !! r = Some e /\ own F n l (pos ++ [(id, At r)]) s' /\ quiet s s').
Proof.
  intros Ho He Hin Hu. eapply wp_mono; [apply (side_view _ _ _ _ _ _ (fun c pos' => exists id r, c = Some id /\ id ∉ pos.*1 /\ l !! r = Some e /\ pos' = pos ++ [(id, At r)]) Ho); [apply same_tree_find|]|].
  - intros F' t Ht. eapply wp_mono; [apply (typed_tree_find_spec derive less (side_fits _ _ _ Hside) cfg bs (side_config _ _ _ Hside) (derive e) e F' n l pos t Ht); [by apply (side_fits _ _ _ Hside)|auto using less_irrefl..]|].
    cbn beta. intros c t' (id & r & -> & Hid & Hr & Ht'). eexists. split; [by exists id, r|done].
  - cbn beta. intros c s' (pos' & (id & r & -> & Hid & Hr & ->) & Ho' & Hq). by exists id, r.
Qed.
Lemma side_cursor_find e F n l pos id p0 s : own F n l pos s -> find_cursor id pos = Some p0 -> fits e -> e ∈ l -> unique_key l ->
  wp (zoom view upd (cursor_find derive less (derive e) (Some id))) s (fun b s' => b = true /\ exists r, l !! r = Some e /\ own F n l (update_cursor id (At r) pos) s' /\ quiet s s').
Proof.
  intros Ho Hid He Hin Hu. eapply wp_mono; [apply (side_view _ _ _ _ _ _ (fun b pos' => b = true /\ exists r, l !! r = Some e /\ pos' = update_cursor id (At r) pos) Ho); [apply same_raw_find|]|].
  - intros F' t Ht. eapply wp_mono; [apply (typed_find_spec derive less (side_fits _ _ _ Hside) cfg bs (side_config _ _ _ Hside) (derive e) e F' n l pos id p0 t Ht); [done|by apply (side_fits _ _ _ Hside)|auto using less_irrefl..]|].
    cbn beta. intros c t' (-> & r & Hr & Ht'). eexists. split; [split; [done|by exists r]|done].
  - cbn beta. intros c s' (pos' & (-> & r & Hr & ->) & Ho' & Hq). split; [done|]. by exists r.
Qed.
Lemma side_erase F n l pos id r e s : own F n l pos s -> find_cursor id pos = Some (At r) -> l !! r = Some e -> zlen l <= 2 ^ 32 ->
  wp (zoom view upd (cursor_erase derive (Some id))) s (fun _ s' => own F n (delete r l) (prod_map Datatypes.id (erased_pos (length l) r) <$> pos) s' /\ quiet s s').
Proof.
  intros Ho Hid He Hl. destruct (side_active _ _ _ Hside _ _ _ _ _ Ho) as (F' & Hv & Hback). apply wp_zoom.
  eapply wp_mono; [eapply (typed_erase_lower_spec derive less cfg bs (side_config _ _ _ Hside) spec_supports (side_keys _ _ _ Hside)); [exact Hv|exact Hid|exact He|exact Hl]|].
  cbn beta. intros _ t' [Hh Ht']. split; [by apply Hback|]. by apply (side_quiet _ _ _ Hside).
Qed.
Lemma side_insert e F n room l pos id p0 s : own F (n + room) l pos s -> height (m_anchor (view s)) < room -> 0 <= n -> find_cursor id pos = Some p0 ->
  fits e -> new_key derive less (derive e) l ->
  wp (zoom view upd (cursor_insert derive less e (Some id))) s (fun b s' => b = true /\ exists pos' t', pos'.*1 = pos.*1 /\ s' = upd t' s /\
    own F n (insert_at (lower_index derive less (derive e) l) e l) pos' s').
Proof.
  intros Ho Hroom Hn Hid He Hnew. destruct (side_active _ _ _ Hside _ _ _ _ _ Ho) as (F' & Hv & Hback). apply wp_zoom.
  eapply wp_mono; [eapply (typed_insert_spec derive less (side_fits _ _ _ Hside) cfg bs (side_config _ _ _ Hside) spec_supports (side_values _ _ _ Hside) (side_keys _ _ _ Hside)); [exact Hv|done|done|exact Hid|done|done]|].
  cbn beta. intros b t' (-> & pos' & Hpos & Ht'). split; [done|]. exists pos', t'. split_and!; [done|done|by apply Hback].
Qed.
End side.
Arguments side_op {E H H0 sz K H1 H2 derive less cfg bs view upd own} Hside.
Arguments side_view {E H H0 sz K H1 H2 derive less cfg bs view upd own} Hside.
Arguments side_create {E H H0 sz K H1 H2 derive less cfg bs view upd own} Hside.
Arguments side_at_end {E H H0 sz K H1 H2 derive less cfg bs view upd own} Hside.
Arguments side_get {E H H0 sz K H1 H2 derive less cfg bs view upd own} Hside.
Arguments side_copy {E H H0 sz K H1 H2 derive less cfg bs view upd own} Hside.
Arguments side_prev {E H H0 sz K H1 H2 derive less cfg bs view upd own} Hside.
Arguments side_close {E H H0 sz K H1 H2 derive less cfg bs view upd own} Hside.
Arguments side_lower_bound {E H H0 sz K H1 H2 derive less LessOrder0 cfg bs view upd own} Hside.
Arguments side_find {E H H0 sz K H1 H2 derive less LessOrder0 cfg bs view upd own} Hside.
Arguments side_cursor_find {E H H0 sz K H1 H2 derive less LessOrder0 cfg bs view upd own} Hside.
Arguments side_erase {E H H0 sz K H1 H2 derive less LessOrder0 cfg bs view upd own} Hside.
Arguments side_insert {E H H0 sz K H1 H2 derive less LessOrder0 cfg bs view upd own} Hside.

(** ** Both trees *)

Record configs_ok (cfgp cfgq : config) (bs : Z) : Prop := {
  co_position : config_ok cfgp bs;
  co_size : config_ok cfgq bs;
  co_position_values : value_size cfgp = 16;
  co_position_keys : key_size cfgp = 8;
  co_size_values : value_size cfgq = 16;
  co_size_keys : key_size cfgq = 16
}.

Section shared.
Context {E : Type} `{EngineSpec E} (sz : Z) (cfgp cfgq : config) (bs : Z) (Hcfg : configs_ok cfgp cfgq bs).
Abbreviation D := (default_allocator E).
Implicit Types (F : gmap Z bytes) (n : Z) (lp ls : list extent_t) (pp ps : list (nat * position)) (s : D).

(** The position tree holds [lp], the size tree holds [ls]; the blocks [F]
    belong to neither. *)
Definition shared F n lp pp ls ps s : Prop :=
  Forall fits lp /\ Forall fits ls /\
  joint (S := metadata_allocator_spec sz) bs (derive_key block) (key_less index_ltb) cfgp (derive_key (fun e : extent_t => e)) (key_less size_less) cfgq
    F n (encode <$> lp) pp (encode <$> ls) ps (position_tree s) (size_tree s).

Lemma position_side ls ps : is_side sz block index_ltb cfgp bs position_tree set_position_tree (fun F n l pos s => shared F n l pos ls ps s).
Proof.
  destruct Hcfg. split; try done; [by intros e [? _]|].
  intros F n l pos s (Hl & Hls & Hj). destruct (joint_active _ _ _ _ _ _ _ _ _ _ _ _ _ _ _ Hj) as (F' & Ho & Hback). exists F'. split; [done|].
  intros n' l' pos' t' [Hl' Ho']. split_and!; [done..|]. specialize (Hback _ _ _ _ Ho'). by destruct t'.
Qed.
Lemma size_side lp pp : is_side sz (fun e : extent_t => e) size_less cfgq bs size_tree set_size_tree (fun F n l pos s => shared F n lp pp l pos s).
Proof.
  destruct Hcfg. split; try done.
  intros F n l pos s (Hl & Hls & Hj). apply joint_sym in Hj. destruct (joint_active _ _ _ _ _ _ _ _ _ _ _ _ _ _ _ Hj) as (F' & Ho & Hback). exists F'. split; [done|].
  intros n' l' pos' t' [Hl' Ho']. split_and!; [done..|]. specialize (Hback _ _ _ _ Ho'). apply joint_sym. by destruct t'.
Qed.

(** What the trees say about the state. *)
Lemma shared_meta F n lp pp ls ps s : shared F n lp pp ls ps s -> exists G, meta_inv sz (m_meta s) (dom G) /\ (forall i b, G !! i = Some b -> disk_block (eng_view (m_meta s)) i = b) /\ F ⊆ G /\
  d_bs (eng_view (m_meta s)) = bs /\ 0 <= n <= meta_free (m_meta s).
Proof.
  intros (_ & _ & _ & G & o1 & o2 & (anc & cs & Hst & _) & _ & _ & _ & Hf & _). destruct Hst as [Ha Hb Hn Hroom Hbs _ _ _]. exists G. split_and!; try done.
  apply map_subseteq_spec. intros i b Hi. by apply (Hf i b).
Qed.
Lemma shared_room F n n' lp pp ls ps s : shared F n lp pp ls ps s -> 0 <= n' <= meta_free (m_meta s) -> shared F n' lp pp ls ps s.
Proof.
  intros (Hl & Hls & Ha & G & o1 & o2 & (anc & cs & Hst & Hr) & (anc' & cs' & Hst' & Hr') & Hrest) Hn. split_and!; [done..|]. split; [done|]. exists G, o1, o2. split_and!; try apply Hrest.
  - exists anc, cs. split; [|done]. destruct Hst. split; try done; apply Hn.
  - exists anc', cs'. split; [|done]. destruct Hst'. split; try done; apply Hn.
Qed.
Lemma shared_heights F n lp pp ls ps s : shared F n lp pp ls ps s -> 0 <= position_height s <= 64 /\ 0 <= size_height s <= 64.
Proof.
  intros (Hl & Hls & Hj). destruct Hcfg. pose proof Hj as Hj'. apply joint_sym in Hj'.
  destruct (joint_active _ _ _ _ _ _ _ _ _ _ _ _ _ _ _ Hj) as (F1 & Ho1 & _). destruct (joint_active _ _ _ _ _ _ _ _ _ _ _ _ _ _ _ Hj') as (F2 & Ho2 & _).
  pose proof (owns_height _ _ cfgp bs co_position0 _ _ _ _ _ Ho1) as [Hh1 _]. pose proof (owns_height _ _ cfgq bs co_size0 _ _ _ _ _ Ho2) as [Hh2 _]. by split.
Qed.
Lemma shared_sorted F n lp pp ls ps s : shared F n lp pp ls ps s -> sorted (derive_key block) (key_less index_ltb) (encode <$> lp) /\ sorted (derive_key (fun e : extent_t => e)) (key_less size_less) (encode <$> ls).
Proof.
  intros (Hl & Hls & Hj). pose proof Hj as Hj'. apply joint_sym in Hj'.
  destruct (joint_active _ _ _ _ _ _ _ _ _ _ _ _ _ _ _ Hj) as (F1 & Ho1 & _). destruct (joint_active _ _ _ _ _ _ _ _ _ _ _ _ _ _ _ Hj') as (F2 & Ho2 & _).
  pose proof (owns_sorted _ _ _ _ _ _ _ _ _ Ho1) as [Hs1 _]. pose proof (owns_sorted _ _ _ _ _ _ _ _ _ Ho2) as [Hs2 _]. by split.
Qed.
(** The metadata allocator changes other blocks. *)
Lemma shared_alloc sz' F F' n n' lp pp ls ps s a' : shared F n lp pp ls ps s -> 0 <= n' <= meta_free a' -> d_bs (eng_view a') = bs ->
  (forall G, meta_inv sz (m_meta s) (dom G) -> (forall i b, G !! i = Some b -> disk_block (eng_view (m_meta s)) i = b) -> F ⊆ G ->
    exists G', meta_inv sz' a' (dom G') /\ (forall i b, G' !! i = Some b -> disk_block (eng_view a') i = b) /\ F' ⊆ G' /\
      (forall k, k ∈ dom G -> k ∉ dom F -> G' !! k = G !! k /\ k ∉ dom F')) ->
  Forall fits lp /\ Forall fits ls /\
  joint (S := metadata_allocator_spec sz') bs (derive_key block) (key_less index_ltb) cfgp (derive_key (fun e : extent_t => e)) (key_less size_less) cfgq
    F' n' (encode <$> lp) pp (encode <$> ls) ps (position_tree (set_meta a' s)) (size_tree (set_meta a' s)).
Proof.
  intros (Hl & Hls & Hj) Hn Hbs HG. split_and!; [done..|].
  apply (joint_alloc (S := metadata_allocator_spec sz) (S' := metadata_allocator_spec sz') _ _ _ _ _ _ _ _ _ _ _ _ _ _ _ _ _ a' Hj); [lia|apply Hn|done|done].
Qed.
End shared.
End default_trees.
