(* ===== verification/DefaultState.v ===== *)
(** * The state of the default allocator

    The invariant that connects the two trees, the metadata blocks and the
    counters of the default allocator with the blocks of its clients: every
    block of the disk is a metadata block, belongs to exactly one free extent
    or is in use. *)

From Stdlib Require Import Strings.Byte.
From S2P Require Import Prelude MathOps Serialization Blocks EngineSpec LinearIO FreeList Allocator MetaAllocator BTreeNodes BTree BTreeShape BTreeStore BTreeSearch BTreeCursors BTreeInsert BTreeOps BTreeSession BTreeRemove BTreeErase BTreeHeight BTreeHistory RawBTree TypedBTree DefaultAllocator DefaultTrees.

Module default_state.
Import btree btree_shape btree_store btree_cursors btree_ops btree_session btree_erase btree_history raw_btree typed_btree default_allocator default_trees.

(** ** Blocks of extents *)

Definition extent_blocks (e : extent_t) : list Z := seqZ (block e) (size e).
Definition free_blocks (l : list extent_t) : list Z := l ≫= extent_blocks.

Lemma elem_of_extent e i : i ∈ extent_blocks e <-> block e <= i < block e + size e.
Proof. unfold extent_blocks. rewrite elem_of_seqZ. lia. Qed.
Lemma length_extent_blocks e : 0 <= size e -> zlen (extent_blocks e) = size e.
Proof. intros Hs. unfold extent_blocks. rewrite length_seqZ. lia. Qed.
Lemma elem_of_free_blocks l i : i ∈ free_blocks l <-> exists e, e ∈ l /\ block e <= i < block e + size e.
Proof.
  unfold free_blocks. rewrite list_elem_of_bind. split; intros (e & H1 & H2); exists e; [by rewrite elem_of_extent in H1|by rewrite elem_of_extent].
Qed.
#[export] Instance free_blocks_perm : Proper ((≡ₚ) ==> (≡ₚ)) free_blocks.
Proof. apply bind_Permutation. Qed.
Lemma free_blocks_cons e l : free_blocks (e :: l) = extent_blocks e ++ free_blocks l.
Proof. done. Qed.
Lemma length_free_blocks l l' : l ≡ₚ l' -> zlen (free_blocks l) = zlen (free_blocks l').
Proof. intros Hp. by rewrite Hp. Qed.
Lemma free_blocks_many l : Forall (fun e => 0 < size e) l -> zlen l <= zlen (free_blocks l).
Proof.
  induction 1 as [|e l He _ IH]; [done|]. rewrite free_blocks_cons, length_app. cbn [length]. pose proof (length_extent_blocks e). lia.
Qed.
(** Extents with a common block are equal. *)
Lemma free_blocks_inj l e e' i : NoDup (free_blocks l) -> e ∈ l -> e' ∈ l -> i ∈ extent_blocks e -> i ∈ extent_blocks e' -> e = e'.
Proof.
  intros Hnd He He' Hi Hi'. apply elem_of_Permutation in He as [l' Hl]. rewrite Hl in Hnd, He'. rewrite free_blocks_cons in Hnd. apply NoDup_app in Hnd as (_ & Hd & _).
  apply elem_of_cons in He' as [->|He']; [done|]. exfalso. apply (Hd i Hi). apply list_elem_of_bind. by exists e'.
Qed.

(** ** Maps without a range of blocks *)

Definition drop_blocks (b n : Z) (W : gmap Z bytes) : gmap Z bytes := filter (fun p => ~ (b <= p.1 < b + n)) W.
Lemma lookup_drop_blocks b n W i x : drop_blocks b n W !! i = Some x <-> W !! i = Some x /\ ~ (b <= i < b + n).
Proof. unfold drop_blocks. apply map_lookup_filter_Some. Qed.
Lemma dom_drop_blocks b n W i : i ∈ dom (drop_blocks b n W) <-> i ∈ dom W /\ ~ (b <= i < b + n).
Proof.
  rewrite !elem_of_dom. split.
  - intros [x [Hx Hi]%lookup_drop_blocks]. split; [by exists x|done].
  - intros [[x Hx] Hi]. exists x. by apply lookup_drop_blocks.
Qed.
Lemma drop_blocks_sub b n W : drop_blocks b n W ⊆ W.
Proof. apply map_filter_subseteq. Qed.
Lemma drop_blocks_app b n m W : 0 <= n -> 0 <= m -> drop_blocks (b + n) m (drop_blocks b n W) = drop_blocks b (n + m) W.
Proof.
  intros Hn Hm. apply map_eq. intros i. apply option_eq. intros x. rewrite !lookup_drop_blocks. split; [intros [[? ?] ?]|intros [? ?]]; split_and!; (done || lia).
Qed.
Lemma drop_blocks_0 b W : drop_blocks b 0 W = W.
Proof. apply map_eq. intros i. apply option_eq. intros x. rewrite lookup_drop_blocks. split; [by intros [? _]|]. intros ?. split; [done|lia]. Qed.
Lemma drop_blocks_insert b x W : b ∉ dom W -> drop_blocks b 1 (<[b := x]> W) = W.
Proof.
  intros Hb. apply map_eq. intros i. apply option_eq. intros y. rewrite lookup_drop_blocks. destruct (decide (i = b)) as [->|Hne].
  - apply not_elem_of_dom in Hb. rewrite Hb. split; [intros [_ ?]; lia|done].
  - rewrite lookup_insert_ne by done. split; [by intros [? _]|]. intros ?. split; [done|lia].
Qed.
Lemma size_drop_blocks b n W : 0 <= n -> (forall i, b <= i < b + n -> i ∈ dom W) -> Z.of_nat (base.size (drop_blocks b n W)) + n = Z.of_nat (base.size W).
Proof.
  intros Hn Hin. rewrite <- !size_dom. assert (dom W = dom (drop_blocks b n W) ∪ blocks b n) as ->.
  { apply set_eq. intros i. rewrite elem_of_union, elem_of_blocks, dom_drop_blocks. destruct (decide (b <= i < b + n)) as [Hi|Hi]; [|tauto]. split; [tauto|]. intros _. by apply Hin. }
  rewrite size_union by (intros i; rewrite dom_drop_blocks, elem_of_blocks; tauto). unfold blocks. rewrite (size_list_to_set (seqZ _ _)), length_seqZ by apply NoDup_seqZ. lia.
Qed.

(** ** The invariant *)

Section state.
Context {E : Type} `{EngineSpec E} (cfgp cfgq : config) (bs : Z).
Abbreviation D := (default_allocator E).
Abbreviation shared sz := (shared sz cfgp cfgq bs).
Abbreviation disk_of s := (eng_view (fl_engine (meta_list (m_meta s)))).
Implicit Types (W F : gmap Z bytes) (n sz : Z) (lp ls : list extent_t) (pp ps : list (nat * position)) (s : D).

(** [W] holds the contents of the blocks in use, [lp] and [ls] are the free
    extents in the orders of the two trees. *)
Record state sz W lp pp ls ps s : Prop := {
  gs_trees : exists F, shared sz F 0 lp pp ls ps s /\ W ⊆ F /\ dom F = dom W ∪ list_to_set (free_blocks lp);
  gs_perm : ls ≡ₚ lp;
  gs_sizes : Forall (fun e => 0 < size e) lp;
  gs_nodup : NoDup (free_blocks lp);
  gs_disjoint : forall i, i ∈ free_blocks lp -> i ∉ dom W;
  gs_free : m_data_free s = zlen (free_blocks lp);
  gs_total : m_meta_total s + Z.of_nat (base.size W) + zlen (free_blocks lp) = sz;
  gs_limit : sz <= 2 ^ 32;
  gs_chunk : 1 <= m_min_chunk s < 2 ^ 32
}.

Lemma state_disk sz W lp pp ls ps s : state sz W lp pp ls ps s -> wf_disk (disk_of s) /\ eng_inv (fl_engine (meta_list (m_meta s))) /\ d_size (disk_of s) = sz /\ d_bs (disk_of s) = bs /\
  (forall i b, W !! i = Some b -> disk_block (disk_of s) i = b) /\ (forall i, i ∈ dom W \/ i ∈ free_blocks lp -> 0 <= i < sz).
Proof.
  intros Hst. destruct (gs_trees _ _ _ _ _ _ _ Hst) as (F & Hsh & HW & HF). destruct (shared_meta _ _ _ _ _ _ _ _ _ _ _ Hsh) as (G & [Hsz [stack Hms]] & Hb & HG & Hbs & _).
  destruct (meta_bounds _ _ _ Hms) as (Hwf & He & _ & _). split_and!; try done.
  - intros i b Hi. apply Hb. eapply lookup_weaken; [|exact HG]. by eapply lookup_weaken.
  - intros i Hi. assert (i ∈ dom G) as Hin. { apply (subseteq_dom _ _ HG). rewrite HF, elem_of_union, elem_of_list_to_set. done. }
    assert (in_disk (disk_of s) i) as Hd by (apply (ms_disk _ _ _ Hms); by right). unfold in_disk in Hd. lia.
Qed.
Lemma state_bounds sz W lp pp ls ps s : state sz W lp pp ls ps s -> 0 <= sz < invalid_value /\ 0 <= meta_free (m_meta s) <= m_meta_total s /\ m_meta_total s <= sz /\
  0 <= m_data_free s <= sz /\ zlen lp <= sz /\ zlen ls <= sz /\ Forall fits lp.
Proof.
  intros Hst. pose proof Hst as [(F & Hsh & HW & HF) Hperm Hpos Hnd Hdis Hfree Htot Hlim _]. destruct (shared_meta _ _ _ _ _ _ _ _ _ _ _ Hsh) as (G & [Hsz [stack Hms]] & Hb & HG & Hbs & _).
  destruct (meta_bounds _ _ _ Hms) as (Hwf & He & Hm & Hsum). apply subseteq_dom in HG. rewrite HF in HG. apply subseteq_size in HG. rewrite size_union in HG by set_solver.
  rewrite size_list_to_set, size_dom in HG by done. pose proof (free_blocks_many _ Hpos). pose proof (Permutation_length Hperm). unfold invalid_value, u64_max.
  destruct Hsh as (Hfp & _). split_and!; try done; lia.
Qed.
Lemma state_room sz W lp pp ls ps s : state sz W lp pp ls ps s -> exists F, shared sz F (meta_free (m_meta s)) lp pp ls ps s /\ W ⊆ F /\ dom F = dom W ∪ list_to_set (free_blocks lp).
Proof.
  intros Hst. pose proof (state_bounds _ _ _ _ _ _ _ Hst) as (_ & Hm & _). destruct (gs_trees _ _ _ _ _ _ _ Hst) as (F & Hsh & HF). exists F. split; [|done].
  eapply (shared_room sz cfgp cfgq bs); [exact Hsh|lia].
Qed.

(** Extents have different keys. *)
Lemma unique_position l : Forall fits l -> Forall (fun e => 0 < size e) l -> NoDup (free_blocks l) -> unique_key block index_ltb l.
Proof.
  intros Hf Hpos Hnd v w Hv Hw H1 H2. rewrite Forall_forall in Hf, Hpos. destruct (Hf v Hv) as [Hbv _]. destruct (Hf w Hw) as [Hbw _].
  assert (block v = block w) as Heq.
  { destruct (decide (size v = size w)) as [Hs|Hs].
    - f_equal. apply size_equal; [by apply Hf|by apply Hf|unfold size_less; by rewrite Hs, Z.eqb_refl..].
    - assert (Extent (block v) 0 = Extent (block w) 0) as Heq; [|by injection Heq]. apply size_equal; [done|done|unfold size_less; by cbn..]. }
  apply (free_blocks_inj l v w (block v)); [done..| |]; apply elem_of_extent; [specialize (Hpos v Hv); lia|]. specialize (Hpos w Hw). lia.
Qed.
Lemma unique_size l : Forall fits l -> unique_key (fun e : extent_t => e) size_less l.
Proof. intros Hf v w Hv Hw H1 H2. rewrite Forall_forall in Hf. by apply size_equal; [apply Hf|apply Hf|..]. Qed.
(** An extent with other blocks has another key. *)
Lemma new_position e l : Forall fits l -> fits e -> Forall (fun e => 0 < size e) l -> 0 < size e -> (forall i, i ∈ extent_blocks e -> i ∉ free_blocks l) -> new_key block index_ltb (block e) l.
Proof.
  intros Hf He Hpos Hse Hd. apply Forall_forall. intros v Hv. rewrite Forall_forall in Hf, Hpos. destruct (Hf v Hv) as [Hbv _]. destruct He as [Hbe _].
  assert (block v <> block e) as Hne.
  { intros Heq. apply (Hd (block e)); [apply elem_of_extent; lia|]. apply elem_of_free_blocks. exists v. specialize (Hpos v Hv). split; [done|lia]. }
  destruct (index_ltb (block v) (block e)) eqn:H1; [by left|]. destruct (index_ltb (block e) (block v)) eqn:H2; [by right|]. exfalso. apply Hne.
  assert (Extent (block v) 0 = Extent (block e) 0) as Heq; [|by injection Heq]. apply size_equal; [done|done|unfold size_less; by cbn..].
Qed.
Lemma new_size e l : Forall fits l -> fits e -> Forall (fun e => 0 < size e) l -> 0 < size e -> (forall i, i ∈ extent_blocks e -> i ∉ free_blocks l) -> new_key (fun e : extent_t => e) size_less e l.
Proof.
  intros Hf He Hpos Hse Hd. apply Forall_forall. intros v Hv. rewrite Forall_forall in Hf, Hpos.
  destruct (size_less v e) eqn:H1; [by left|]. destruct (size_less e v) eqn:H2; [by right|]. exfalso. assert (v = e) as -> by by apply size_equal; [apply Hf| |..].
  apply (Hd (block e)); [apply elem_of_extent; lia|]. apply elem_of_free_blocks. exists e. split; [done|lia].
Qed.
End state.
End default_state.
