(* ===== verification/DefaultFree.v ===== *)
(** * Freeing extents

    [free_internal] merges an extent with its neighbours and inserts the result
    into both trees; it needs as many metadata blocks as the trees can need for
    an insertion. *)

From Stdlib Require Import Strings.Byte.
From S2P Require Import Prelude MathOps Serialization Blocks EngineSpec LinearIO FreeList Allocator MetaAllocator BTreeNodes BTree BTreeShape BTreeStore BTreeSearch BTreeCursors BTreeInsert BTreeOps BTreeSession BTreeRemove BTreeErase BTreeHeight BTreeHistory RawBTree TypedBTree DefaultAllocator DefaultTrees DefaultState.

Module default_free.
Import btree btree_shape btree_store btree_cursors btree_ops btree_session btree_erase btree_history raw_btree typed_btree default_allocator default_trees default_state.

(** ** Ranges *)

(** The extents of a disk with at most [2 ^ 32] blocks. *)
Definition in_range (e : extent_t) : Prop := 0 <= block e /\ 0 < size e /\ block e + size e <= 2 ^ 32.

Lemma small_valid i : 0 <= i <= 2 ^ 32 -> index_valid i = true.
Proof. intros Hi. unfold index_valid. apply negb_true_iff, Z.eqb_neq. unfold invalid_value, u64_max. lia. Qed.
Lemma small_add i k : 0 <= i -> 0 <= k -> i + k <= 2 ^ 32 -> index_add i k = Ok (i + k).
Proof. intros Hi Hk Hs. unfold index_add. rewrite small_valid, wrap_small by (unfold is_word; lia). done. Qed.
Lemma small_ltb i k : 0 <= i <= 2 ^ 32 -> 0 <= k <= 2 ^ 32 -> index_ltb i k = (i <? k).
Proof. intros Hi Hk. rewrite index_ltb_spec, !small_valid by (unfold is_word; lia). done. Qed.
Lemma range_fits e : in_range e -> fits e.
Proof. intros (? & ? & ?). split; split; lia. Qed.
Lemma range_valid e : in_range e -> index_valid (block e) = true.
Proof. intros (? & ? & ?). apply small_valid. lia. Qed.

Section extents.
Context {E : Type} `{EngineSpec E}.
Abbreviation D := (default_allocator E).
Implicit Types (s : D) (a b : extent_t).

Lemma extents_overlap_spec a b s : in_range a -> in_range b -> wp (extents_overlap a b) s (fun o s' => o = (block a <? block b + size b) && (block b <? block a + size a) /\ s' = s).
Proof.
  intros Ha Hb. pose proof Ha as (? & ? & ?). pose proof Hb as (? & ? & ?). unfold extents_overlap. wp_step. wp_step; [by rewrite !range_valid|]. rewrite !small_add by lia. wp_step. wp_step.
  rewrite small_ltb by lia. destruct (block a <? block b + size b); cbn [andb]; [|by wp_step]. wp_step. wp_step. wp_step. by rewrite small_ltb by lia.
Qed.
Lemma extents_touch_spec a b s : in_range a -> in_range b -> wp (extents_touch a b) s (fun t s' => t = (block a + size a =? block b) /\ s' = s).
Proof.
  intros Ha Hb. pose proof Ha as (? & ? & ?). pose proof Hb as (? & ? & ?). unfold extents_touch. wp_step. wp_step; [by rewrite !range_valid|]. rewrite !small_add by lia. by do 3 wp_step.
Qed.
Lemma borders_end_spec a s : in_range a -> wp (borders_end a) s (fun t s' => t = (block a + size a =? d_size (eng_view (fl_engine (meta_list (m_meta s))))) /\ s' = s).
Proof.
  intros Ha. pose proof Ha as (? & ? & ?). unfold borders_end, engine_size. wp_step. wp_step; [by rewrite range_valid|]. rewrite !small_add by lia. by do 5 wp_step.
Qed.
End extents.

(** ** Cursors at entries *)

Definition at_entry (id : nat) (e : extent_t) (pos : list (nat * position)) (l : list extent_t) : Prop :=
  exists r, find_cursor id pos = Some (At r) /\ l !! r = Some e.
(** The cursor is at an entry or at the end. *)
Definition settled_at (id : nat) (pos : list (nat * position)) (l : list extent_t) : Prop :=
  find_cursor id pos = Some AtEnd \/ exists e, at_entry id e pos l.

Lemma settled_nth pos id l r : id ∉ pos.*1 -> settled_at id (pos ++ [(id, nth_pos (length l) r)]) l.
Proof.
  intros Hid. unfold settled_at, at_entry. rewrite find_snoc by done. unfold nth_pos. case_decide as Hr; [|by left]. right. apply lookup_lt_is_Some in Hr as [e He]. by exists e, r.
Qed.
Lemma find_in_keys {X} id (p : X) pos : find_cursor id pos = Some p -> id ∈ pos.*1.
Proof. induction pos as [|[i q] pos IH]; [done|]. cbn. case_decide; [subst; by left|]. right. by apply IH. Qed.
Lemma find_of_keys {X} id (pos : list (nat * X)) : id ∈ pos.*1 -> exists p, find_cursor id pos = Some p.
Proof.
  induction pos as [|[i q] pos IH]; cbn; [by intros ?%elem_of_nil|]. intros Hin. case_decide; [by exists q|]. apply IH. apply elem_of_cons in Hin as [->|]; done.
Qed.
Lemma keys_map {X Y} (f : X -> Y) (pos : list (nat * X)) : (prod_map Datatypes.id f <$> pos).*1 = pos.*1.
Proof. rewrite <- list_fmap_compose. by apply list_fmap_ext. Qed.
Lemma at_entry_snoc id e pos l id' p : at_entry id e pos l -> id' ∉ pos.*1 -> at_entry id e (pos ++ [(id', p)]) l.
Proof. intros (r & Hr & He) Hid. exists r. rewrite find_snoc_ne; [done|]. intros ->. by apply find_in_keys in Hr. Qed.
(** An erased entry does not affect the cursors at other entries. *)
Lemma at_entry_delete id e pos l r e' : at_entry id e pos l -> l !! r = Some e' -> e <> e' ->
  at_entry id e (prod_map Datatypes.id (erased_pos (length l) r) <$> pos) (delete r l).
Proof.
  intros (q & Hq & He) Hr Hne. assert (q <> r) as Hqr by congruence. pose proof (lookup_lt_Some _ _ _ He). pose proof (lookup_lt_Some _ _ _ Hr).
  exists (if decide (q < r)%nat then q else q - 1)%nat. rewrite find_map, Hq. cbn. unfold erased_pos. rewrite decide_False by lia. cbn. rewrite decide_False by done. split; [done|].
  case_decide; [by rewrite list_lookup_delete_lt|]. rewrite list_lookup_delete_ge by lia. by replace (S (q - 1)) with q by lia.
Qed.

(** ** The neighbours of an extent *)

Section neighbours.
Context {E : Type} `{EngineSpec E} (cfgp cfgq : config) (bs : Z) (Hcfg : configs_ok cfgp cfgq bs) (sz : Z).
Abbreviation D := (default_allocator E).
Abbreviation shared := (shared sz cfgp cfgq bs).
Abbreviation by_pos := (position_side sz cfgp cfgq bs Hcfg).
Abbreviation by_sz := (size_side sz cfgp cfgq bs Hcfg).
Implicit Types (W F : gmap Z bytes) (n : Z) (lp ls : list extent_t) (pp ps : list (nat * position)) (s : D) (e entry : extent_t) (id : nat).

(** The blocks of [e] and those of the entries are different. *)
Definition apart e lp : Prop := forall e', e' ∈ lp -> in_range e' /\ (block e + size e <= block e' \/ block e' + size e' <= block e).

Lemma da_right_neighbor_spec F n lp pp ls ps id entry s : shared F n lp pp ls ps s -> settled_at id pp lp -> in_range entry -> apart entry lp ->
  wp (right_neighbor (Some id) entry) s (fun x s' => shared F n lp pp ls ps s' /\ quiet s s' /\ (x = no_extent \/ at_entry id x pp lp /\ block entry + size entry = block x)).
Proof.
  intros Hsh Hset Hr Hap. unfold right_neighbor. wp_step. destruct Hset as [Hid|(e & r & Hid & He)]; (eapply wp_mono; [exact (side_at_end (by_pos ls ps) _ _ _ _ _ _ _ Hsh Hid)|]); cbn beta.
  { intros b s1 (-> & Hsh1 & Hq1). rewrite bool_decide_true by done. wp_step. split_and!; [done..|by left]. }
  intros b s1 (-> & Hsh1 & Hq1). rewrite bool_decide_false by done. wp_step. eapply wp_mono; [exact (side_get (by_pos ls ps) _ _ _ _ _ _ _ _ Hsh1 Hid He)|]. cbn beta. intros x s2 (-> & Hsh2 & Hq2).
  destruct (Hap e) as [Hre Hd]; [by eapply list_elem_of_lookup_2|]. pose proof Hr as (? & ? & ?). pose proof Hre as (? & ? & ?).
  wp_step. eapply wp_mono; [by apply extents_overlap_spec|]. cbn beta. intros o s3 [-> ->]. wp_step. wp_step. wp_step. eapply wp_mono; [by apply extents_touch_spec|]. cbn beta. intros t s3 [-> ->].
  wp_step. split_and!; [done|by etrans|]. destruct (Z.eqb_spec (block entry + size entry) (block e)); [right|by left]. split; [by exists r|done].
Qed.
Lemma da_left_neighbor_spec F n lp pp ls ps id entry s : shared F n lp pp ls ps s -> settled_at id pp lp -> in_range entry ->
  (forall e, at_entry id e pp lp -> in_range e /\ (block entry + size entry <= block e \/ block e + size e <= block entry)) ->
  wp (left_neighbor (Some id) entry) s (fun x s' => shared F n lp pp ls ps s' /\ quiet s s' /\ (x = no_extent \/ at_entry id x pp lp /\ block x + size x = block entry)).
Proof.
  intros Hsh Hset Hr Hap. unfold left_neighbor. wp_step. destruct Hset as [Hid|(e & r & Hid & He)]; (eapply wp_mono; [exact (side_at_end (by_pos ls ps) _ _ _ _ _ _ _ Hsh Hid)|]); cbn beta.
  { intros b s1 (-> & Hsh1 & Hq1). rewrite bool_decide_true by done. wp_step. split_and!; [done..|by left]. }
  intros b s1 (-> & Hsh1 & Hq1). rewrite bool_decide_false by done. wp_step. eapply wp_mono; [exact (side_get (by_pos ls ps) _ _ _ _ _ _ _ _ Hsh1 Hid He)|]. cbn beta. intros x s2 (-> & Hsh2 & Hq2).
  destruct (Hap e) as [Hre Hd]; [by exists r|]. pose proof Hr as (? & ? & ?). pose proof Hre as (? & ? & ?).
  wp_step. eapply wp_mono; [by apply extents_overlap_spec|]. cbn beta. intros o s3 [-> ->]. wp_step. wp_step. wp_step. eapply wp_mono; [by apply extents_touch_spec|]. cbn beta. intros t s3 [-> ->].
  wp_step. split_and!; [done|by etrans|]. destruct (Z.eqb_spec (block e + size e) (block entry)); [right|by left]. split; [by exists r|done].
Qed.

(** The cursor before another one, or at the last entry. *)
Lemma wp_with_previous {X} (body : raw_cursor -> M D X) F n lp pp ls ps idr s (Q : X -> D -> Prop) : shared F n lp pp ls ps s -> settled_at idr pp lp -> NoDup lp ->
  (forall id pp' s1, id ∉ pp.*1 -> pp'.*1 = pp.*1 ++ [id] -> shared F n lp pp' ls ps s1 -> quiet s s1 -> settled_at id pp' lp ->
    (forall i, i <> id -> find_cursor i pp' = find_cursor i pp) -> (forall e, at_entry idr e pp lp -> ~ at_entry id e pp' lp) ->
    wp (body (Some id)) s1 (fun x s2 => wp (on_position (destroy (Some id))) s2 (fun _ => Q x))) ->
  wp (with_previous (Some idr) body) s Q.
Proof.
  intros Hsh Hset Hnd Hbody. unfold with_previous. wp_step. destruct Hset as [Hid|(e & r & Hid & He)]; (eapply wp_mono; [exact (side_at_end (by_pos ls ps) _ _ _ _ _ _ _ Hsh Hid)|]); cbn beta.
  - intros b s1 (-> & Hsh1 & Hq1). rewrite bool_decide_true by done. wp_step. eapply wp_mono; [exact (side_create (by_pos ls ps) seek_max _ _ _ _ _ Hsh1)|]. cbn beta. intros c s2 (id & -> & Hni & Hsh2 & Hq2).
    apply wp_scoped. wp_step. wp_step. apply (Hbody id (pp ++ [(id, seek_pos_of seek_max lp)])); [exact Hni|by rewrite fmap_app|exact Hsh2|by etrans|by apply settled_nth|intros i Hi; by apply find_snoc_ne|].
    intros e (r & Hr & _). by rewrite Hid in Hr.
  - intros b s1 (-> & Hsh1 & Hq1). rewrite bool_decide_false by done. wp_step. eapply wp_mono; [exact (side_copy (by_pos ls ps) _ _ _ _ _ _ _ Hsh1 Hid)|]. cbn beta. intros c s2 (id & -> & Hni & Hsh2 & Hq2).
    apply wp_scoped. wp_step. wp_step. eapply wp_mono; [exact (side_prev (by_pos ls ps) _ _ _ _ _ _ _ Hsh2 (find_snoc _ _ _ Hni))|]. cbn beta. rewrite update_snoc by done. intros _ s3 [Hsh3 Hq3]. wp_step.
    apply (Hbody id (pp ++ [(id, match r with O => AtEnd | S r => At r end)])); [exact Hni|by rewrite fmap_app|exact Hsh3|by etrans; [|etrans]| |intros i Hi; by apply find_snoc_ne|].
    + unfold settled_at, at_entry. rewrite find_snoc by done. destruct r as [|r]; [by left|]. right. apply lookup_lt_Some in He. destruct (lookup_lt_is_Some_2 lp r) as [x Hx]; [lia|]. by exists x, r.
    + intros x (q & Hq & Hx) (q' & Hq' & Hx'). rewrite Hid in Hq. injection Hq as ->. rewrite find_snoc in Hq' by done. destruct q as [|q]; [done|]. injection Hq' as ->.
      pose proof (NoDup_lookup _ _ _ _ Hnd Hx Hx'). lia.
Qed.

(** The entries [es] leave both trees, the other cursors stay. *)
Definition removes (es lp : list extent_t) pp ls ps lp' pp' ls' ps' : Prop :=
  ls' ≡ₚ lp' /\ lp ≡ₚ es ++ lp' /\ pp'.*1 = pp.*1 /\ ps'.*1 = ps.*1 /\ forall id e, e ∉ es -> at_entry id e pp lp -> at_entry id e pp' lp'.

Lemma erase_both F n lp pp ls ps e idp idq s : shared F n lp pp ls ps s -> ls ≡ₚ lp -> zlen lp <= 2 ^ 32 -> at_entry idp e pp lp -> at_entry idq e ps ls ->
  wp (on_position (cursor_erase (V := extent_t) block (Some idp)) ;;; on_size (cursor_erase (V := extent_t) (fun e => e) (Some idq))) s (fun _ s' =>
    exists lp' pp' ls' ps', shared F n lp' pp' ls' ps' s' /\ quiet s s' /\ removes [e] lp pp ls ps lp' pp' ls' ps').
Proof.
  intros Hsh Hperm Hlen (r & Hr & He) (q & Hq & He'). wp_step. eapply wp_mono; [exact (side_erase (by_pos ls ps) _ _ _ _ _ _ _ _ Hsh Hr He Hlen)|]. cbn beta. intros _ s1 [Hsh1 Hq1].
  assert (zlen ls <= 2 ^ 32) as Hlen' by by rewrite (Permutation_length Hperm).
  eapply wp_mono; [exact (side_erase (by_sz _ _) _ _ _ _ _ _ _ _ Hsh1 Hq He' Hlen')|]. cbn beta. intros _ s2 [Hsh2 Hq2]. do 4 eexists. split_and!; [exact Hsh2|by etrans|].
  pose proof (delete_Permutation _ _ _ He) as Hp1. pose proof (delete_Permutation _ _ _ He') as Hp2. split_and!; [|done|apply keys_map|apply keys_map|].
  - apply (Permutation_cons_inv (a := e)). by rewrite <- Hp1, <- Hp2.
  - intros id x Hx Hat. eapply at_entry_delete; [exact Hat|exact He|]. intros ->. apply Hx. by left.
Qed.

(** The extent of a neighbour, if there is one. *)
Definition known (x : extent_t) : list extent_t := if index_valid (block x) then [x] else [].
Lemma erase_neighbor_spec F n lp pp ls ps x idp idq s : shared F n lp pp ls ps s -> ls ≡ₚ lp -> zlen lp <= 2 ^ 32 -> (x = no_extent \/ at_entry idp x pp lp /\ in_range x) -> idq ∈ ps.*1 ->
  wp (erase_neighbor x (Some idp) (Some idq)) s (fun _ s' => exists lp' pp' ls' ps', shared F n lp' pp' ls' ps' s' /\ quiet s s' /\ removes (known x) lp pp ls ps lp' pp' ls' ps').
Proof.
  intros Hsh Hperm Hlen Hx Hidq. unfold erase_neighbor. destruct Hx as [->|[Hat Hr]].
  { change (index_valid (block no_extent)) with false. cbv match. wp_step. exists lp, pp, ls, ps. split_and!; [done..|]. by split_and!. }
  unfold known. rewrite range_valid by done. apply find_of_keys in Hidq as [p0 Hidq]. pose proof Hsh as (Hfp & Hfs & _). assert (x ∈ ls) as Hin.
  { destruct Hat as (r & _ & Hx). rewrite Hperm. by eapply list_elem_of_lookup_2. }
  wp_step. eapply wp_mono; [exact (side_cursor_find (by_sz lp pp) x _ _ _ _ _ _ _ Hsh Hidq (range_fits _ Hr) Hin (unique_size _ Hfs))|]. cbn beta. intros b s1 (-> & r & Hrx & Hsh1 & Hq1).
  wp_step. wp_step. eapply wp_mono; [eapply erase_both; [exact Hsh1|done|done|exact Hat|]|].
  - exists r. split; [|done]. by eapply find_update_eq.
  - cbn beta. intros _ s2 (lp' & pp' & ls' & ps' & Hsh2 & Hq2 & Hrem). exists lp', pp', ls', ps'. split_and!; [done|by etrans|]. destruct Hrem as (H1 & H2 & H3 & H4 & H5). split_and!; try done.
    by rewrite H4, update_keys.
Qed.

Lemma insert_at_perm {X} k (x : X) l : insert_at k x l ≡ₚ x :: l.
Proof. unfold insert_at. by rewrite <- Permutation_middle, take_drop. Qed.
Definition new_entry e lp : Prop := in_range e /\ (forall e', e' ∈ lp -> 0 < size e') /\ forall i, i ∈ extent_blocks e -> i ∉ free_blocks lp.
(** The trees have room for one more entry. *)
Lemma insert_both {X} F n lp pp ls ps e idp idq s (k : bool -> bool -> M D X) Q : shared F n lp pp ls ps s -> ls ≡ₚ lp -> position_height s + size_height s + 2 <= n ->
  new_entry e lp -> idp ∈ pp.*1 -> idq ∈ ps.*1 ->
  (forall lp' pp' ls' ps' s', shared F 0 lp' pp' ls' ps' s' -> steady s s' -> lp' ≡ₚ e :: lp -> ls' ≡ₚ e :: ls -> pp'.*1 = pp.*1 -> ps'.*1 = ps.*1 -> wp (k true true) s' Q) ->
  wp (let* a := on_position (cursor_insert block index_ltb e (Some idp)) in let* b := on_size (cursor_insert (fun e => e) size_less e (Some idq)) in k a b) s Q.
Proof.
  intros Hsh Hperm Hroom (Hr & Hpos & Hd) Hidp Hidq Hk. apply find_of_keys in Hidp as [p Hidp]. apply find_of_keys in Hidq as [q Hidq].
  pose proof Hsh as (Hfp & Hfs & _). pose proof (shared_heights sz cfgp cfgq bs Hcfg _ _ _ _ _ _ _ Hsh) as [Hh1 Hh2]. pose proof Hr as (_ & Hse & _).
  assert (Forall (fun x => 0 < size x) lp) as Hpos1 by by apply Forall_forall.
  assert (Forall (fun x => 0 < size x) ls) as Hpos2 by (apply Forall_forall; intros x; rewrite Hperm; apply Hpos).
  wp_step. eapply wp_mono; [eapply (side_insert (by_pos ls ps) e F (size_height s + 1) (position_height s + 1) lp pp idp)|].
  - eapply (shared_room sz cfgp cfgq bs); [exact Hsh|]. apply shared_meta in Hsh as (G & _ & _ & _ & _ & ?). lia.
  - unfold position_height. cbn. lia.
  - lia.
  - exact Hidp.
  - by apply range_fits.
  - apply new_position; try done. by apply range_fits.
  - cbn beta. intros b s1 (-> & pp' & t' & Hk1 & -> & Hsh1). wp_step. change (size_height s + 1) with (0 + (size_height s + 1)) in Hsh1.
    eapply wp_mono; [eapply (side_insert (by_sz _ _) e F 0 (size_height s + 1) ls ps idq); [exact Hsh1|unfold size_height; cbn; lia|lia|exact Hidq|by apply range_fits|]|].
    + apply new_size; try done; [by apply range_fits|]. by setoid_rewrite Hperm.
    + cbn beta. intros b s2 (-> & ps' & t2 & Hk2 & -> & Hsh2). eapply Hk; [exact Hsh2|done|apply insert_at_perm|apply insert_at_perm|done|done].
Qed.

Lemma extent_blocks_app b n m : 0 <= n -> 0 <= m -> extent_blocks (Extent b (n + m)) = extent_blocks (Extent b n) ++ extent_blocks (Extent (b + n) m).
Proof. intros Hn Hm. unfold extent_blocks. cbn [block size]. by apply seqZ_app. Qed.
Lemma blocks_apart a b : in_range a -> in_range b -> (forall i, i ∈ extent_blocks a -> i ∉ extent_blocks b) -> block a + size a <= block b \/ block b + size b <= block a.
Proof.
  intros (? & ? & ?) (? & ? & ?) Hd. specialize (Hd (Z.max (block a) (block b))). rewrite !elem_of_extent in Hd. lia.
Qed.
End neighbours.

(** ** [free_internal] *)

Section free_internal.
Context {E : Type} `{EngineSpec E} (cfgp cfgq : config) (bs : Z) (Hcfg : configs_ok cfgp cfgq bs).
Abbreviation D := (default_allocator E).
Abbreviation shared sz := (shared sz cfgp cfgq bs).
Abbreviation state := (state cfgp cfgq bs).
Abbreviation by_pos sz := (position_side sz cfgp cfgq bs Hcfg).
Abbreviation by_sz sz := (size_side sz cfgp cfgq bs Hcfg).
Implicit Types (W F : gmap Z bytes) (n sz : Z) (lp ls : list extent_t) (pp ps : list (nat * position)) (s : D) (e entry : extent_t) (id : nat).

Definition required s : Z := position_height s + size_height s + 2.
Lemma required_spec sz F n lp pp ls ps s : shared sz F n lp pp ls ps s -> wp required_free_meta_blocks s (fun r s' => r = required s /\ s' = s).
Proof.
  intros Hsh. pose proof (shared_heights sz cfgp cfgq bs Hcfg _ _ _ _ _ _ _ Hsh) as [Hh1 Hh2]. unfold required_free_meta_blocks. wp_step. split; [|done].
  unfold required. change (height (ts_anchor (m_by_position s))) with (position_height s). change (height (ts_anchor (m_by_size s))) with (size_height s).
  rewrite (wrap_small 32 (position_height s + 1)), (wrap_small 32 (size_height s + 1)), wrap_small by (unfold is_word; lia). lia.
Qed.
Lemma state_range sz W lp pp ls ps s e : state sz W lp pp ls ps s -> e ∈ lp -> in_range e.
Proof.
  intros Hst He. pose proof (state_disk _ _ _ _ _ _ _ _ _ _ Hst) as (_ & _ & _ & _ & _ & Hin). pose proof (proj1 (Forall_forall _ _) (gs_sizes _ _ _ _ _ _ _ _ _ _ Hst) e He) as Hs. cbn beta in Hs.
  assert (forall i, i ∈ extent_blocks e -> 0 <= i < sz) as Hb. { intros i Hi. apply Hin. right. apply list_elem_of_bind. by exists e. }
  pose proof (gs_limit _ _ _ _ _ _ _ _ _ _ Hst). pose proof (Hb (block e)) as Hb1. pose proof (Hb (block e + size e - 1)) as Hb2. rewrite elem_of_extent in Hb1, Hb2. repeat split; lia.
Qed.
Lemma state_entries_nodup sz W lp pp ls ps s : state sz W lp pp ls ps s -> NoDup lp.
Proof.
  intros Hst. pose proof (gs_nodup _ _ _ _ _ _ _ _ _ _ Hst) as Hnd. pose proof (gs_sizes _ _ _ _ _ _ _ _ _ _ Hst) as Hs. clear Hst. induction Hs as [|e l He _ IH]; [constructor|].
  rewrite free_blocks_cons in Hnd. apply NoDup_app in Hnd as (_ & Hd & Hnd). constructor; [|by apply IH]. intros Hin. apply (Hd (block e)); [apply elem_of_extent; lia|].
  apply elem_of_free_blocks. exists e. split; [done|lia].
Qed.
(** Extents in use are apart from the free ones. *)
Lemma state_apart sz W lp pp ls ps s e : state sz W lp pp ls ps s -> in_range e -> (forall i, i ∈ extent_blocks e -> i ∈ dom W) -> apart e lp.
Proof.
  intros Hst Hr He e' He'. pose proof (state_range _ _ _ _ _ _ _ _ Hst He') as Hr'. split; [done|]. apply blocks_apart; [done..|]. intros i Hi Hi'.
  apply (gs_disjoint _ _ _ _ _ _ _ _ _ _ Hst i); [|by apply He]. apply list_elem_of_bind. by exists e'.
Qed.

(** The blocks of [e] become free. *)
Lemma state_freed sz W F n lp pp ls ps s e lp' pp' ls' ps' s' : state sz W lp pp ls ps s -> in_range e -> (forall i, i ∈ extent_blocks e -> i ∈ dom W) ->
  W ⊆ F -> dom F = dom W ∪ list_to_set (free_blocks lp) -> shared sz F n lp' pp' ls' ps' s' -> ls' ≡ₚ lp' -> Forall (fun e => 0 < size e) lp' ->
  free_blocks lp' ≡ₚ extent_blocks e ++ free_blocks lp -> m_data_free s' = m_data_free s + size e -> m_meta_total s' = m_meta_total s -> m_min_chunk s' = m_min_chunk s ->
  state sz (drop_blocks (block e) (size e) W) lp' pp' ls' ps' s'.
Proof.
  intros Hst (Hb & Hs & _) HeW HW HF Hsh Hperm Hpos Hfb Hdf Hmt Hmc. pose proof Hst as [_ _ _ Hnd Hdis Hfree Htot Hlim Hch].
  assert (Z.of_nat (base.size (drop_blocks (block e) (size e) W)) + size e = Z.of_nat (base.size W)) as Hsz. { apply size_drop_blocks; [lia|]. intros i Hi. by apply HeW, elem_of_extent. }
  assert (zlen (free_blocks lp') = size e + zlen (free_blocks lp)) as Hlen. { rewrite Hfb, length_app, Nat2Z.inj_add, length_extent_blocks by lia. done. }
  split; try done.
  - exists F. split_and!.
    + eapply (shared_room sz cfgp cfgq bs); [exact Hsh|]. apply shared_meta in Hsh as (G & _ & _ & _ & _ & ?). lia.
    + etrans; [apply drop_blocks_sub|done].
    + rewrite HF. apply set_eq. intros i. rewrite !elem_of_union, !elem_of_list_to_set, dom_drop_blocks, Hfb, elem_of_app, elem_of_extent. specialize (HeW i). rewrite elem_of_extent in HeW.
      destruct (decide (block e <= i < block e + size e)); tauto.
  - rewrite Hfb. apply NoDup_app. split_and!; [apply NoDup_seqZ| |done]. intros i Hi Hi'. apply (Hdis i Hi'). by apply HeW.
  - intros i. rewrite Hfb, elem_of_app, dom_drop_blocks, elem_of_extent. intros [Hi|Hi]; [tauto|]. intros [Hw _]. by apply (Hdis i).
  - rewrite Hdf, Hfree. lia.
  - lia.
  - by rewrite Hmc.
Qed.

(** Merging two extents. *)
Definition join_right entry x : extent_t := if index_valid (block x) then Extent (block entry) (u64 (size entry + size x)) else entry.
Definition join_left entry x : extent_t := if index_valid (block x) then Extent (block x) (u64 (size entry + size x)) else entry.
Lemma join_right_spec entry x : in_range entry -> (x = no_extent \/ in_range x /\ block entry + size entry = block x) ->
  in_range (join_right entry x) /\ extent_blocks (join_right entry x) ≡ₚ extent_blocks entry ++ free_blocks (known x).
Proof.
  intros Hr Hx. unfold join_right, known. destruct Hx as [->|[Hrx Heq]].
  - change (index_valid (block no_extent)) with false. cbv match. by rewrite app_nil_r.
  - rewrite range_valid by done. pose proof Hr as (? & ? & ?). pose proof Hrx as (? & ? & ?). rewrite wrap_small by (unfold is_word; lia). split; [repeat split; cbn; lia|].
    rewrite extent_blocks_app, Heq, free_blocks_cons, app_nil_r by lia. by destruct entry, x.
Qed.
Lemma join_left_spec entry x : in_range entry -> (x = no_extent \/ in_range x /\ block x + size x = block entry) ->
  in_range (join_left entry x) /\ extent_blocks (join_left entry x) ≡ₚ extent_blocks entry ++ free_blocks (known x).
Proof.
  intros Hr Hx. unfold join_left, known. destruct Hx as [->|[Hrx Heq]].
  - change (index_valid (block no_extent)) with false. cbv match. by rewrite app_nil_r.
  - rewrite range_valid by done. pose proof Hr as (? & ? & ?). pose proof Hrx as (? & ? & ?). rewrite wrap_small by (unfold is_word; lia). split; [repeat split; cbn; lia|].
    rewrite (Z.add_comm (size entry)), extent_blocks_app, Heq, free_blocks_cons, app_nil_r, Permutation_app_comm by lia. by destruct entry, x.
Qed.

(** Cursors that were opened last. *)
Lemma close_position sz F n lp pp ls ps kp id s (Q : D -> Prop) : shared sz F n lp pp ls ps s -> pp.*1 = kp ++ [id] -> id ∉ kp ->
  (forall pp' s', pp'.*1 = kp -> shared sz F n lp pp' ls ps s' -> quiet s s' -> Q s') -> wp (on_position (destroy (Some id))) s (fun _ => Q).
Proof.
  intros Hsh Hk Hid HQ. eapply wp_mono; [exact (side_close (by_pos sz ls ps) _ _ _ _ _ _ _ Hsh Hk Hid)|]. cbn beta. intros _ s' (pp' & Hk' & Hsh' & Hq). by eapply HQ.
Qed.
Lemma close_size sz F n lp pp ls ps ks id s (Q : D -> Prop) : shared sz F n lp pp ls ps s -> ps.*1 = ks ++ [id] -> id ∉ ks ->
  (forall ps' s', ps'.*1 = ks -> shared sz F n lp pp ls ps' s' -> quiet s s' -> Q s') -> wp (on_size (destroy (Some id))) s (fun _ => Q).
Proof.
  intros Hsh Hk Hid HQ. eapply wp_mono; [exact (side_close (by_sz sz lp pp) _ _ _ _ _ _ _ Hsh Hk Hid)|]. cbn beta. intros _ s' (ps' & Hk' & Hsh' & Hq). by eapply HQ.
Qed.
Lemma state_steady sz W lp pp ls ps F pp' ps' s s' : state sz W lp pp ls ps s -> W ⊆ F -> dom F = dom W ∪ list_to_set (free_blocks lp) ->
  shared sz F 0 lp pp' ls ps' s' -> steady s s' -> state sz W lp pp' ls ps' s'.
Proof.
  intros [_ ? ? ? ? ? ? ? ?] HW HF Hsh (H1' & H2' & H3' & H4' & H5'). split; try done; [by exists F|by rewrite H3'|by rewrite H1'|by rewrite H5'].
Qed.
Lemma state_close_position sz W lp pp ls ps kp id s : state sz W lp pp ls ps s -> pp.*1 = kp ++ [id] -> id ∉ kp ->
  wp (on_position (destroy (Some id))) s (fun _ s' => exists pp', pp'.*1 = kp /\ state sz W lp pp' ls ps s' /\ quiet s s').
Proof.
  intros Hst Hk Hid. destruct (gs_trees _ _ _ _ _ _ _ _ _ _ Hst) as (F & Hsh & HW & HF). eapply close_position; [exact Hsh|done|done|]. intros pp' s' Hk' Hsh' Hq.
  exists pp'. split_and!; [done| |done]. eapply state_steady; try done. apply Hq.
Qed.
Lemma state_close_size sz W lp pp ls ps ks id s : state sz W lp pp ls ps s -> ps.*1 = ks ++ [id] -> id ∉ ks ->
  wp (on_size (destroy (Some id))) s (fun _ s' => exists ps', ps'.*1 = ks /\ state sz W lp pp ls ps' s' /\ quiet s s').
Proof.
  intros Hst Hk Hid. destruct (gs_trees _ _ _ _ _ _ _ _ _ _ Hst) as (F & Hsh & HW & HF). eapply close_size; [exact Hsh|done|done|]. intros ps' s' Hk' Hsh' Hq.
  exists ps'. split_and!; [done| |done]. eapply state_steady; try done. apply Hq.
Qed.

(** The options and the number of metadata blocks stay the same. *)
Definition same_totals s s' : Prop :=
  m_meta_total s' = m_meta_total s /\ m_data_total s' = m_data_total s /\ m_can_grow s' = m_can_grow s /\ m_min_chunk s' = m_min_chunk s.
#[export] Instance same_totals_preorder : PreOrder same_totals.
Proof. split; unfold same_totals; [by intros s|]. intros s1 s2 s3. intuition congruence. Qed.
Lemma steady_totals s s' : steady s s' -> same_totals s s'.
Proof. unfold steady, same_totals. tauto. Qed.

(** The end of [free_internal]: the neighbours are replaced by the entry. *)
Lemma replace_neighbours sz W F lp pp ls ps kp ks idr idl idq s0 s e xr xl (Q : D -> Prop) : state sz W lp kp ls ks s0 -> in_range e -> (forall i, i ∈ extent_blocks e -> i ∈ dom W) ->
  W ⊆ F -> dom F = dom W ∪ list_to_set (free_blocks lp) -> shared sz F (meta_free (m_meta s0)) lp pp ls ps s -> quiet s0 s -> required s0 <= meta_free (m_meta s0) ->
  (xr = no_extent \/ at_entry idr xr pp lp /\ in_range xr) -> (xl = no_extent \/ at_entry idl xl pp lp /\ in_range xl /\ xl <> xr) -> idl ∈ pp.*1 -> idq ∈ ps.*1 ->
  in_range (join_left (join_right e xr) xl) -> extent_blocks (join_left (join_right e xr) xl) ≡ₚ extent_blocks e ++ free_blocks (known xr) ++ free_blocks (known xl) ->
  (forall lp' pp' ls' ps' s', pp'.*1 = pp.*1 -> ps'.*1 = ps.*1 -> state sz (drop_blocks (block e) (size e) W) lp' pp' ls' ps' s' -> same_totals s0 s' -> Q s') ->
  wp (erase_neighbor xr (Some idr) (Some idq) ;;; erase_neighbor xl (Some idl) (Some idq) ;;;
      let* insert_by_pos := on_position (cursor_insert block index_ltb (join_left (join_right e xr) xl) (Some idl)) in
      let* insert_by_size := on_size (cursor_insert (fun e => e) size_less (join_left (join_right e xr) xl) (Some idq)) in
      assert! (insert_by_pos && insert_by_size) ;;;
      let* n := gets m_data_free in
      set_data_free (u64 (n + size e))) s (fun _ => Q).
Proof.
  intros Hst Hr HeW HW HF Hsh Hq0 Hreq Hxr Hxl Hidl Hidq Hrj Hbj HQ. set (entry := join_left (join_right e xr) xl) in *.
  pose proof (state_bounds _ _ _ _ _ _ _ _ _ _ Hst) as (_ & _ & _ & Hdf & Hlen & _ & _). pose proof (gs_limit _ _ _ _ _ _ _ _ _ _ Hst) as Hlim. pose proof Hst as [_ Hperm Hpos Hnd Hdis Hfree _ _ _].
  wp_step. eapply wp_mono; [eapply (erase_neighbor_spec cfgp cfgq bs Hcfg sz); [exact Hsh|done|lia|done|done]|]. cbn beta. intros _ s1 (lp1 & pp1 & ls1 & ps1 & Hsh1 & Hq1 & Hperm1 & Hlp1 & Hkp1 & Hks1 & Hcur1).
  wp_step. eapply wp_mono; [eapply (erase_neighbor_spec cfgp cfgq bs Hcfg sz); [exact Hsh1|done| | |by rewrite Hks1]|].
  { apply Permutation_length in Hlp1. rewrite length_app in Hlp1. lia. }
  { destruct Hxl as [->|(Hat & Hrl & Hne)]; [by left|]. right. split; [|done]. apply Hcur1; [|done]. unfold known. case_match; [|apply not_elem_of_nil]. by rewrite list_elem_of_singleton. }
  cbn beta. intros _ s2 (lp2 & pp2 & ls2 & ps2 & Hsh2 & Hq2 & Hperm2 & Hlp2 & Hkp2 & Hks2 & _).
  assert (quiet s0 s2) as ((Ht1 & Ht2 & Ht3 & Ht4 & Ht5) & Hh1 & Hh2) by (etrans; [done|]; by etrans).
  assert (free_blocks lp ≡ₚ free_blocks (known xr) ++ free_blocks (known xl) ++ free_blocks lp2) as Hfb. { rewrite Hlp1, Hlp2. unfold free_blocks. by rewrite !bind_app. }
  assert (extent_blocks entry ++ free_blocks lp2 ≡ₚ extent_blocks e ++ free_blocks lp) as Hall by (rewrite Hbj, Hfb; by rewrite <- !app_assoc).
  assert (Forall (fun e => 0 < size e) lp2) as Hpos2. { rewrite Hlp1, Hlp2, !Forall_app in Hpos. apply Hpos. }
  assert (NoDup (extent_blocks entry ++ free_blocks lp2)) as Hnd2.
  { rewrite Hall. apply NoDup_app. split_and!; [apply NoDup_seqZ| |done]. intros i Hi Hi'. apply (Hdis i Hi'). by apply HeW. }
  eapply (insert_both cfgp cfgq bs Hcfg sz); [exact Hsh2|done|unfold required in Hreq; lia| |by rewrite Hkp2, Hkp1|by rewrite Hks2, Hks1|].
  { split_and!; [done|by apply Forall_forall|]. apply NoDup_app in Hnd2 as (_ & Hd & _). exact Hd. }
  intros lp3 pp3 ls3 ps3 s3 Hsh3 (Hu1 & Hu2 & Hu3 & Hu4 & Hu5) Hlp3 Hls3 Hkp3 Hks3. wp_step. wp_step. wp_step. wp_step. unfold set_data_free. wp_step. rewrite Hu3, Ht3, wrap_small by (pose proof Hr as (? & ? & ?); unfold is_word; lia).
  eapply (HQ lp3 pp3 ls3 ps3); [congruence|congruence| |by unfold same_totals; cbn; split_and!; congruence].
  eapply state_freed; [exact Hst|done|done|exact HW|done|exact Hsh3|by rewrite Hls3, Hlp3, Hperm2| | |done|cbn; congruence|cbn; congruence].
  - rewrite Hlp3. constructor; [apply Hrj|done].
  - by rewrite Hlp3, free_blocks_cons.
Qed.

Lemma da_free_internal_spec sz W lp pp ls ps s e : state sz W lp pp ls ps s -> in_range e -> (forall i, i ∈ extent_blocks e -> i ∈ dom W) -> required s <= meta_free (m_meta s) ->
  wp (free_internal e) s (fun _ s' => exists lp' pp' ls' ps', pp'.*1 = pp.*1 /\ ps'.*1 = ps.*1 /\ state sz (drop_blocks (block e) (size e) W) lp' pp' ls' ps' s' /\ same_totals s s').
Proof.
  intros Hst Hr HeW Hreq. destruct (state_room _ _ _ _ _ _ _ _ _ _ Hst) as (F & Hsh & HW & HF). pose proof Hr as (Hb0 & Hs0 & Hb1).
  pose proof (state_bounds _ _ _ _ _ _ _ _ _ _ Hst) as (_ & _ & _ & _ & Hlen & _ & _). pose proof (gs_limit _ _ _ _ _ _ _ _ _ _ Hst) as Hlim.
  unfold free_internal, get_meta_free. wp_step. wp_step; [rewrite range_valid by done; cbn; lia|]. wp_step. wp_step. wp_step. eapply wp_mono; [by eapply required_spec|]. cbn beta. intros r0 s0 [-> ->]. wp_step. wp_step.
  wp_step. assert (representable (X := Z) (block e)) as Hrep by (split; lia). eapply wp_mono; [exact (side_lower_bound (by_pos sz ls ps) (block e) _ _ _ _ _ Hsh Hrep)|]. cbn beta. intros c s1 (idr & -> & Hnr & Hsh1 & Hq1).
  apply wp_scoped. wp_step. set (pp1 := pp ++ _) in *. assert (settled_at idr pp1 lp) as Hset1 by by apply settled_nth. assert (pp1.*1 = pp.*1 ++ [idr]) as Hk1 by (unfold pp1; by rewrite fmap_app).
  assert (forall x, x ∈ lp -> in_range x) as Hrange by (intros x; by eapply state_range). assert (forall i x p l, at_entry i x p l -> x ∈ l) as Hin by (intros i x p l (r & _ & Hx); by eapply list_elem_of_lookup_2).
  eapply wp_mono; [eapply (da_right_neighbor_spec cfgp cfgq bs Hcfg sz); [exact Hsh1|done|done|by eapply state_apart]|]. cbn beta. intros xr s2 (Hsh2 & Hq2 & Hxr). fold (join_right e xr).
  assert (xr = no_extent \/ in_range xr /\ block e + size e = block xr) as Hxr' by (destruct Hxr as [?|[Hat ?]]; [by left|right; eauto]). destruct (join_right_spec e xr Hr Hxr') as [Hr1 Hb2].
  eapply (wp_with_previous cfgp cfgq bs Hcfg sz); [exact Hsh2|done|by eapply state_entries_nodup|]. intros idl pp2 s3 Hnl Hk2 Hsh3 Hq3 Hset2 Hfind Hdiff.
  assert (forall i x, at_entry i x pp1 lp -> at_entry i x pp2 lp) as Hcur. { intros i x (r & Hi & Hx). exists r. rewrite Hfind; [done|]. intros ->. by apply find_in_keys in Hi. }
  wp_step. eapply wp_mono; [eapply (da_left_neighbor_spec cfgp cfgq bs Hcfg sz); [exact Hsh3|done|exact Hr1|]|].
  { intros x Hx. split; [by eapply Hrange, Hin|]. apply blocks_apart; [done|by eapply Hrange, Hin|]. intros i. rewrite Hb2, elem_of_app. intros Hi Hix. assert (i ∈ free_blocks lp) as Hif by (apply list_elem_of_bind; exists x; split; [done|by eapply Hin]).
    destruct Hi as [Hi|Hi]; [by apply (gs_disjoint _ _ _ _ _ _ _ _ _ _ Hst i); [|apply HeW]|]. destruct Hxr as [->|[Hat _]]; [by apply elem_of_nil in Hi|]. unfold known in Hi. rewrite range_valid in Hi by eauto.
    rewrite free_blocks_cons, app_nil_r in Hi. assert (x = xr) as -> by (eapply free_blocks_inj; [apply (gs_nodup _ _ _ _ _ _ _ _ _ _ Hst)|by eapply Hin|by eapply Hin|exact Hix|exact Hi]). by apply (Hdiff xr). }
  cbn beta. intros xl s4 (Hsh4 & Hq4 & Hxl). fold (join_left (join_right e xr) xl). assert (xl = no_extent \/ in_range xl /\ block xl + size xl = block (join_right e xr)) as Hxl' by (destruct Hxl as [?|[Hat ?]]; [by left|right; eauto]).
  destruct (join_left_spec _ xl Hr1 Hxl') as [Hr2 Hb3]. wp_step. eapply wp_mono; [exact (side_create (by_sz sz lp pp2) seek_none _ _ _ _ _ Hsh4)|]. cbn beta. intros c s5 (idq & -> & Hnq & Hsh5 & Hq5). apply wp_scoped.
  eapply replace_neighbours; [exact Hst|done|done|exact HW|done|exact Hsh5|by repeat (etrans; [eassumption|])|done| | |rewrite Hk2; set_solver|rewrite fmap_app; set_solver|done|by rewrite Hb3, Hb2, app_assoc|].
  { destruct Hxr as [->|[Hat _]]; [by left|right; eauto]. }
  { destruct Hxl as [->|[Hat _]]; [by left|right]. split_and!; [done|eauto|]. intros ->. destruct Hxr as [->|[Hat' _]]; [apply Hin, Hrange in Hat; by destruct Hat as (_ & ? & _)|by apply (Hdiff xr)]. }
  intros lp' pp' ls' ps' s6 Hkp Hks Hst6 Ht6. rewrite fmap_app in Hks. eapply wp_mono; [by eapply state_close_size|]. cbn beta. intros _ s7 (ps7 & Hk7 & Hst7 & Hq7).
  eapply wp_mono; [eapply state_close_position; [exact Hst7|by rewrite Hkp|done]|]. cbn beta. intros _ s8 (pp8 & Hk8 & Hst8 & Hq8).
  eapply wp_mono; [eapply state_close_position; [exact Hst8|by rewrite Hk8|done]|]. cbn beta. intros _ s9 (pp9 & Hk9 & Hst9 & Hq9).
  exists lp', pp9, ls', ps7. split_and!; [done|done|done|]. etrans; [exact Ht6|]. apply steady_totals. etrans; [apply Hq7|]. etrans; [apply Hq8|apply Hq9].
Qed.
End free_internal.
End default_free.
