(* ===== verification/DefaultSpace.v ===== *)
(** * Moving blocks between the parts of the default allocator

    Blocks of free extents become metadata blocks and the other way round, and
    free extents are handed out.  [fix_freelist] keeps the number of free
    metadata blocks between its bounds; its loops end because each iteration
    of the first one gives a metadata block back and each iteration of the
    second one takes a free block. *)

From Stdlib Require Import Strings.Byte.
From S2P Require Import Prelude MathOps Serialization Blocks EngineSpec LinearIO FreeList Allocator MetaAllocator BTreeNodes BTree BTreeShape BTreeStore BTreeSearch BTreeCursors BTreeInsert BTreeOps BTreeSession BTreeRemove BTreeErase BTreeHeight BTreeHistory RawBTree TypedBTree DefaultAllocator DefaultTrees DefaultState DefaultFree.

Module default_space.
Import btree btree_shape btree_store btree_cursors btree_ops btree_session btree_erase btree_history raw_btree typed_btree default_allocator default_trees default_state default_free.

Section space.
Context {E : Type} `{EngineSpec E} (cfgp cfgq : config) (bs : Z) (Hcfg : configs_ok cfgp cfgq bs).
Abbreviation D := (default_allocator E).
Abbreviation shared sz := (shared sz cfgp cfgq bs).
Abbreviation state := (state cfgp cfgq bs).
Abbreviation disk_of s := (eng_view (fl_engine (meta_list (m_meta s)))).
Implicit Types (W F : gmap Z bytes) (n sz : Z) (lp ls : list extent_t) (pp ps : list (nat * position)) (s : D) (e : extent_t) (id : nat) (U : gset Z) (stack : list Z).

(** ** Changes outside of the trees *)

Definition same_trees s s' : Prop := m_by_position s' = m_by_position s /\ m_by_size s' = m_by_size s.

Lemma state_meta sz sz' W W' lp pp ls ps s s' : state sz W lp pp ls ps s -> same_trees s s' -> m_data_free s' = m_data_free s -> m_min_chunk s' = m_min_chunk s ->
  m_meta_total s' + Z.of_nat (base.size W') + zlen (free_blocks lp) = sz' -> sz' <= 2 ^ 32 -> d_size (disk_of s') = sz' -> d_bs (disk_of s') = bs ->
  (forall i b, W' !! i = Some b -> disk_block (disk_of s') i = b) -> (forall i, i ∈ free_blocks lp -> i ∉ dom W') ->
  (forall U stack, meta_stack (m_meta s) U stack -> (forall i, i ∈ dom W \/ i ∈ free_blocks lp -> i ∈ U) -> exists U' stack', meta_stack (m_meta s') U' stack' /\
    (forall i, i ∈ dom W' \/ i ∈ free_blocks lp -> i ∈ U') /\
    (forall k, k ∈ U -> k ∉ dom W -> k ∉ free_blocks lp -> k ∈ U' /\ k ∉ dom W' /\ disk_block (disk_of s') k = disk_block (disk_of s) k)) ->
  state sz' W' lp pp ls ps s'.
Proof.
  intros Hst [Htp Hts] Hdf Hmc Htot Hlim Hsz Hbs Hc Hdis HU. pose proof Hst as [(F & Hsh & HW & HF) Hperm Hpos Hnd Hdis0 Hfree _ _ Hch].
  destruct (shared_meta _ _ _ _ _ _ _ _ _ _ _ Hsh) as (G0 & [_ [stack0 Hms0]] & _ & HG0 & _). destruct (HU _ _ Hms0) as (U0 & stack1 & Hms1 & _).
  { intros i Hi. apply (subseteq_dom _ _ HG0). rewrite HF, elem_of_union, elem_of_list_to_set. done. }
  destruct (meta_bounds _ _ _ Hms1) as (_ & _ & Hmf & _).
  split; try done; try congruence. exists (snapshot (m_meta s') (dom W' ∪ list_to_set (free_blocks lp))). split_and!.
  - assert (shared sz' (snapshot (m_meta s') (dom W' ∪ list_to_set (free_blocks lp))) 0 lp pp ls ps (set_meta (m_meta s') s)) as Hgoal.
    { eapply (shared_alloc sz cfgp cfgq bs sz' F); [exact Hsh|lia|done|]. intros G [HszG [stack Hms]] Hcont HFG. destruct (HU (dom G) stack Hms) as (U' & stack' & Hms' & HU' & Hk).
      { intros i Hi. apply (subseteq_dom _ _ HFG). rewrite HF, elem_of_union, elem_of_list_to_set. done. }
      exists (snapshot (m_meta s') U'). split_and!.
      + rewrite dom_snapshot. split; [done|]. by exists stack'.
      + intros i b [_ Hb]%lookup_snapshot. done.
      + apply map_subseteq_spec. intros i b [Hi Hb]%lookup_snapshot. apply lookup_snapshot. split; [|done]. apply HU'. by rewrite elem_of_union, elem_of_list_to_set in Hi.
      + intros k Hk1 Hk2. rewrite HF, elem_of_union, elem_of_list_to_set in Hk2. destruct (Hk k Hk1) as (Hk3 & Hk4 & Hk5); [tauto|tauto|]. split.
        * apply elem_of_dom in Hk1 as [b Hb]. rewrite Hb. apply lookup_snapshot. split; [done|]. pose proof (Hcont _ _ Hb) as Hb'. etrans; [exact Hk5|exact Hb'].
        * rewrite dom_snapshot, elem_of_union, elem_of_list_to_set. tauto. }
    destruct Hgoal as (H1' & H2' & Hj). split_and!; [done..|]. unfold position_tree, size_tree in *. cbn in Hj. by rewrite Htp, Hts.
  - apply map_subseteq_spec. intros i b Hb. apply lookup_snapshot. split; [apply elem_of_union_l; by apply elem_of_dom_2 in Hb|by apply Hc].
  - apply dom_snapshot.
Qed.

(** ** Metadata blocks *)

Lemma wp_on_meta {X} (m : M (metadata E) X) s (Q : X -> D -> Prop) : wp m (m_meta s) (fun x a => Q x (set_meta a s)) -> wp (on_meta m) s Q.
Proof. apply (wp_zoom m_meta set_meta). Qed.

Lemma push_blocks_spec first (k : nat) : forall l a s stack, m_meta s = Metadata l a -> fl_inv l stack -> 0 <= first -> first + Z.of_nat k <= 2 ^ 32 ->
  (forall i, first <= i < first + Z.of_nat k -> in_disk (eng_view (fl_engine l)) i /\ i ∉ stack) ->
  wp (push_blocks first k) s (fun _ s' => exists l', s' = set_meta (Metadata l' a) s /\ fl_post (seqZ first (Z.of_nat k) ++ stack) (seqZ first (Z.of_nat k) ++ stack) l l').
Proof.
  induction k as [|k IH]; intros l a s stack Hm Hfl Hf Hlim Hin.
  - cbn [push_blocks]. wp_step. exists l. split; [by destruct s; cbn in *; subst|]. split; [done|apply frame_refl].
  - cbn [push_blocks]. wp_step. rewrite small_add by lia. wp_step. wp_step. apply wp_on_meta. rewrite Hm. apply wp_on_meta_list. cbn [meta_list].
    destruct (Hin (first + Z.of_nat k)) as [Hd Hns]; [lia|]. eapply wp_mono; [by apply push_spec|]. cbn beta. intros _ l1 [Hfl1 Hfr1].
    eapply wp_mono; [eapply (IH l1 a _ (first + Z.of_nat k :: stack)); [done|done|done|lia|]|].
    + intros i Hi. destruct (Hin i) as [Hdi Hni]; [lia|]. split; [by apply (frame_in _ _ _ Hfr1)|]. rewrite elem_of_cons. intros [?|?]; [lia|done].
    + cbn beta. intros _ s2 (l2 & -> & Hfl2 & Hfr2). exists l2. split; [by destruct s|].
      assert (seqZ first (Z.of_nat k) ++ first + Z.of_nat k :: stack = seqZ first (Z.of_nat (S k)) ++ stack) as Heq.
      { replace (Z.of_nat (S k)) with (Z.of_nat k + 1) by lia. rewrite seqZ_app, <- app_assoc by lia. done. }
      rewrite <- Heq. split; [done|]. eapply frame_trans; [|done|exact Hfr1|exact Hfr2]. set_solver.
Qed.

(** Blocks in use become free metadata blocks. *)
Lemma state_take sz W lp pp ls ps s b (k : Z) l' s' : state sz W lp pp ls ps s -> 0 <= k -> (forall i, b <= i < b + k -> i ∈ dom W) ->
  (forall U stack, meta_stack (m_meta s) U stack -> (forall i, i ∈ dom W -> i ∈ U) -> fl_post (seqZ b k ++ stack) (seqZ b k ++ stack) (meta_list (m_meta s)) l') ->
  s' = DefaultAllocator (Metadata l' (meta_free (m_meta s) + k)) (m_meta_total s + k) (m_data_total s) (m_data_free s) (m_by_position s) (m_by_size s) (m_can_grow s) (m_min_chunk s) ->
  state sz (drop_blocks b k W) lp pp ls ps s'.
Proof.
  intros Hst Hk HW Hpost ->. pose proof (state_disk _ _ _ _ _ _ _ _ _ _ Hst) as (Hwf & He & Hsz & Hbs & Hc & Hin). pose proof Hst as [(F & Hsh & HWF & HF) _ _ _ Hdis _ Htot Hlim _].
  destruct (shared_meta _ _ _ _ _ _ _ _ _ _ _ Hsh) as (G0 & [_ [stack0 Hms0]] & _ & HG0 & _). apply subseteq_dom in HG0. rewrite HF in HG0.
  destruct (Hpost _ _ Hms0) as [Hfl (Hg & Hs & Hfr)]; [set_solver|].
  assert (forall i, i ∈ dom W \/ i ∈ free_blocks lp -> ~ (b <= i < b + k) -> disk_block (eng_view (fl_engine l')) i = disk_block (disk_of s) i) as Hsame.
  { intros i Hi Hni. apply Hfr; [apply Hin in Hi; unfold in_disk; lia|]. rewrite elem_of_app, elem_of_seqZ. intros [?|Hst0]; [lia|]. apply (ms_disjoint _ _ _ Hms0 i Hst0), HG0.
    rewrite elem_of_union, elem_of_list_to_set. done. }
  eapply (state_meta sz sz W); try done; cbn [m_meta m_meta_total meta_list].
  - pose proof (size_drop_blocks b k W Hk HW). lia.
  - congruence.
  - unfold d_bs. by rewrite Hg.
  - intros i x [Hx Hni]%lookup_drop_blocks. rewrite Hsame; [by apply Hc|left; by apply elem_of_dom_2 in Hx|done].
  - intros i Hi. rewrite dom_drop_blocks. intros [? _]. by apply (Hdis i).
  - intros U stack Hms HU. assert (forall i, b <= i < b + k -> i ∈ U) as HbU by (intros i Hi; apply HU; left; by apply HW). destruct (Hpost _ _ Hms) as [Hfl' (_ & _ & Hfr')]; [auto|].
    exists (U ∖ blocks b k), (seqZ b k ++ stack). split_and!.
    + split; cbn [meta_list meta_free]; [done| | |].
      * rewrite (ms_free _ _ _ Hms), length_app, length_seqZ. lia.
      * intros i. unfold in_disk. rewrite Hs. fold (in_disk (disk_of s) i). rewrite (ms_disk _ _ _ Hms), elem_of_app, elem_of_seqZ, elem_of_difference, elem_of_blocks.
        destruct (decide (b <= i < b + k)) as [Hi|Hi]; [|tauto]. specialize (HbU i Hi). tauto.
      * intros i. rewrite elem_of_app, elem_of_seqZ, elem_of_difference, elem_of_blocks. intros [?|Hi]; [lia|]. intros [HiU _]. by apply (ms_disjoint _ _ _ Hms i).
    + intros i. rewrite dom_drop_blocks, elem_of_difference, elem_of_blocks. intros [[Hi Hn]|Hi]; [split; [apply HU; by left|done]|]. split; [apply HU; by right|]. intros Hbi. apply (Hdis i Hi). by apply HW.
    + intros i HiU HiW Hif. assert (~ (b <= i < b + k)) as Hni by (intros Hi; by apply HiW, HW). rewrite elem_of_difference, elem_of_blocks, dom_drop_blocks. split_and!; [done|done|tauto|].
      apply Hfr'; [by apply (ms_disk _ _ _ Hms); right|]. rewrite elem_of_app, elem_of_seqZ. intros [?|Hst0]; [lia|]. by apply (ms_disjoint _ _ _ Hms i Hst0).
Qed.
Lemma take_metadata_spec sz W lp pp ls ps s e needed : state sz W lp pp ls ps s -> in_range e -> (forall i, i ∈ extent_blocks e -> i ∈ dom W) -> 0 <= needed < 2 ^ 32 ->
  wp (take_metadata e needed) s (fun x s' => let k := Z.min (size e) needed in x = Extent (block e + k) (size e - k) /\ state sz (drop_blocks (block e) k W) lp pp ls ps s' /\
    meta_free (m_meta s') = meta_free (m_meta s) + k /\ m_meta_total s' = m_meta_total s + k /\ same_trees s s' /\
    m_data_total s' = m_data_total s /\ m_can_grow s' = m_can_grow s /\ m_min_chunk s' = m_min_chunk s).
Proof.
  intros Hst Hr HeW Hn. pose proof Hr as (Hb & Hs & Hlim). unfold take_metadata. destruct (Z.eqb_spec (size e) 0); [lia|]. destruct (Z.eqb_spec needed 0) as [->|Hn0].
  { cbn [orb]. wp_step. rewrite Z.min_r, Z.add_0_r, Z.sub_0_r, !Z.add_0_r, drop_blocks_0 by lia. split_and!; try done. by destruct e. }
  cbn [orb]. set (k := Z.min (size e) needed). assert ((if size e <? needed then u32 (size e) else needed) = k) as ->.
  { unfold k. destruct (Z.ltb_spec (size e) needed); [rewrite wrap_small by (unfold is_word; lia)|]; lia. }
  assert (forall i, block e <= i < block e + k -> i ∈ dom W) as HkW by (intros i Hi; apply HeW, elem_of_extent; lia).
  pose proof (state_disk _ _ _ _ _ _ _ _ _ _ Hst) as (_ & _ & Hsz & _ & _ & Hin). pose proof (state_bounds _ _ _ _ _ _ _ _ _ _ Hst) as (Hsz0 & Hmf & Hmt & _). pose proof (gs_limit _ _ _ _ _ _ _ _ _ _ Hst) as Hlim2.
  assert (forall U stack, meta_stack (m_meta s) U stack -> (forall i, i ∈ dom W -> i ∈ U) -> wp (push_blocks (block e) (Z.to_nat k)) s (fun _ s' =>
    exists l', s' = set_meta (Metadata l' (meta_free (m_meta s))) s /\ fl_post (seqZ (block e) k ++ stack) (seqZ (block e) k ++ stack) (meta_list (m_meta s)) l')) as Hpush.
  { intros U stack Hms HU. pose proof (push_blocks_spec (block e) (Z.to_nat k) (meta_list (m_meta s)) (meta_free (m_meta s)) s stack) as Hp. rewrite Z2Nat.id in Hp by lia.
    apply Hp; [by destruct (m_meta s)|apply Hms|done|lia|]. intros i Hi. specialize (HkW i Hi). split; [apply (ms_disk _ _ _ Hms); right; auto|]. intros Hst0. apply (ms_disjoint _ _ _ Hms i Hst0). auto. }
  destruct (gs_trees _ _ _ _ _ _ _ _ _ _ Hst) as (F & Hsh & HWF & HF). destruct (shared_meta _ _ _ _ _ _ _ _ _ _ _ Hsh) as (G0 & [_ [stack0 Hms0]] & _ & HG0 & _).
  assert (forall i, i ∈ dom W -> i ∈ dom G0) as HWG by (intros i Hi; apply (subseteq_dom _ _ HG0), (subseteq_dom _ _ HWF), Hi).
  pose proof (Hpush _ _ Hms0 HWG) as Hrun. apply wp_run in Hrun as (s1 & [] & Hrun & l' & -> & _).
  wp_step. apply wp_run. eexists _, tt. split; [exact Hrun|]. cbn beta. unfold get_meta_free, get_meta_total. wp_step. wp_step. wp_step. apply wp_on_meta. unfold set_meta_free. wp_step. wp_step. wp_step. wp_step. unfold set_meta_total. wp_step.
  wp_step. rewrite small_add by lia. wp_step. wp_step. cbn [m_meta m_meta_total m_data_total m_can_grow m_min_chunk meta_free meta_list set_meta]. rewrite !wrap_small by (unfold is_word; lia). split_and!; try done.
  eapply state_take; [exact Hst|lia|done| |done]. intros U stack Hms HU. pose proof (Hpush _ _ Hms HU) as Hrun2. apply wp_run in Hrun2 as (s2 & [] & Hrun2 & l2 & -> & Hpost).
  rewrite Hrun in Hrun2. injection Hrun2 as ->. exact Hpost.
Qed.

(** A metadata block becomes a block in use. *)
Lemma pop_metadata_spec sz W lp pp ls ps s : state sz W lp pp ls ps s -> 0 < meta_free (m_meta s) ->
  wp (on_meta (on_meta_list pop)) s (fun b s1 => exists l', s1 = set_meta (Metadata l' (meta_free (m_meta s))) s /\ 0 <= b < sz /\ b ∉ dom W /\
    forall s', s' = DefaultAllocator (Metadata l' (meta_free (m_meta s) - 1)) (m_meta_total s - 1) (m_data_total s) (m_data_free s) (m_by_position s) (m_by_size s) (m_can_grow s) (m_min_chunk s) ->
      state sz (<[b := disk_block (disk_of s') b]> W) lp pp ls ps s').
Proof.
  intros Hst Hmf. pose proof (state_disk _ _ _ _ _ _ _ _ _ _ Hst) as (Hwf & He & Hsz & Hbs & Hc & Hin). pose proof Hst as [(F & Hsh & HWF & HF) _ _ _ Hdis _ Htot Hlim _].
  destruct (shared_meta _ _ _ _ _ _ _ _ _ _ _ Hsh) as (G0 & [_ [stack0 Hms0]] & _ & HG0 & _). apply subseteq_dom in HG0. rewrite HF in HG0.
  assert (forall U stack, meta_stack (m_meta s) U stack -> wp (on_meta (on_meta_list pop)) s (fun b s1 => exists l' stack', stack = b :: stack' /\
    s1 = set_meta (Metadata l' (meta_free (m_meta s))) s /\ fl_post stack stack' (meta_list (m_meta s)) l')) as Hpop.
  { intros U stack [Hfl Hfree _ _]. destruct stack as [|b stack]; [cbn in Hfree; lia|]. apply wp_on_meta, wp_on_meta_list. eapply wp_mono; [by apply pop_spec|]. cbn beta. intros r l (-> & Hpost). by exists l, stack. }
  pose proof (Hpop _ _ Hms0) as Hrun. apply wp_run in Hrun as (s1 & b & Hrun & l' & stack1 & -> & -> & Hfl & Hg & Hs & Hfr). apply wp_run. eexists _, b. split; [exact Hrun|]. exists l'.
  assert (b ∉ dom W) as HbW. { intros Hb. apply (ms_disjoint _ _ _ Hms0 b); [by left|]. apply HG0. set_solver. }
  assert (b ∉ free_blocks lp) as Hbf. { intros Hb. apply (ms_disjoint _ _ _ Hms0 b); [by left|]. apply HG0. rewrite elem_of_union, elem_of_list_to_set. by right. }
  assert (in_disk (disk_of s) b) as Hbd by (apply (ms_disk _ _ _ Hms0); left; by left). split_and!; [done|unfold in_disk in Hbd; lia|unfold in_disk in Hbd; lia|done|]. intros s' ->.
  eapply (state_meta sz sz W); try done; cbn [m_meta m_meta_total meta_list].
  - rewrite map_size_insert_None by by apply not_elem_of_dom. lia.
  - congruence.
  - unfold d_bs. by rewrite Hg.
  - intros i x Hx. destruct (decide (i = b)) as [->|Hne]; [rewrite lookup_insert_eq in Hx; congruence|]. rewrite lookup_insert_ne in Hx by done. assert (i ∈ dom W) as HiW by by apply elem_of_dom_2 in Hx.
    rewrite Hfr; [by apply Hc|specialize (Hin i (or_introl HiW)); unfold in_disk; lia|]. intros Hi. apply (ms_disjoint _ _ _ Hms0 i Hi), HG0. set_solver.
  - intros i Hi. rewrite dom_insert, elem_of_union, elem_of_singleton. intros [->|HiW]; [done|by apply (Hdis i)].
  - intros U stack Hms HU. pose proof (Hpop _ _ Hms) as Hrun2. apply wp_run in Hrun2 as (s2 & b2 & Hrun2 & l2 & stack' & -> & -> & Hfl2 & _ & _ & Hfr2). rewrite Hrun in Hrun2. injection Hrun2 as ? ?. subst b2 l2.
    pose proof (ms_list _ _ _ Hms) as (_ & _ & Hnd & _). apply NoDup_cons in Hnd as [Hnb _].
    exists (U ∪ {[b]}), stack'. split_and!.
    + split; cbn [meta_list meta_free]; [done|rewrite (ms_free _ _ _ Hms); cbn [length]; lia| |].
      * intros i. unfold in_disk. rewrite Hs. fold (in_disk (disk_of s) i). rewrite (ms_disk _ _ _ Hms), elem_of_cons, elem_of_union, elem_of_singleton. tauto.
      * intros i Hi. rewrite elem_of_union, elem_of_singleton. intros [HiU| ->]; [|done]. apply (ms_disjoint _ _ _ Hms i); [by right|done].
    + intros i. rewrite dom_insert, !elem_of_union, !elem_of_singleton. intros [[->|?]|?]; [by right|left; apply HU; by left|left; apply HU; by right].
    + intros i HiU HiW Hif. assert (i <> b) as Hne. { intros ->. apply (ms_disjoint _ _ _ Hms b); [by left|done]. }
      rewrite dom_insert, !elem_of_union, !elem_of_singleton. split_and!; [by left|tauto|]. apply Hfr2; [apply (ms_disk _ _ _ Hms); by right|]. intros Hi. by apply (ms_disjoint _ _ _ Hms i Hi).
Qed.

(** ** The invariant without the positions of the cursors *)

Definition good sz W (kp ks : list nat) s : Prop := exists lp pp ls ps, pp.*1 = kp /\ ps.*1 = ks /\ state sz W lp pp ls ps s.
Definition same_options s s' : Prop := m_data_total s' = m_data_total s /\ m_can_grow s' = m_can_grow s /\ m_min_chunk s' = m_min_chunk s.
#[export] Instance same_options_preorder : PreOrder same_options.
Proof. split; unfold same_options; [by intros s|]. intros s1 s2 s3. intuition congruence. Qed.
Lemma totals_options s s' : same_totals s s' -> same_options s s'.
Proof. unfold same_totals, same_options. tauto. Qed.
Lemma good_free sz W kp ks s : good sz W kp ks s -> m_data_free s = sz - Z.of_nat (base.size W) - m_meta_total s /\ 0 <= m_meta_total s /\ 0 <= m_data_free s.
Proof. intros (lp & pp & ls & ps & _ & _ & Hst). pose proof (state_bounds _ _ _ _ _ _ _ _ _ _ Hst). destruct Hst. lia. Qed.
(** [W'] also has the blocks [b, b + n). *)
Definition grown W b n W' : Prop := W ⊆ W' /\ forall i, i ∈ dom W' <-> i ∈ dom W \/ b <= i < b + n.
Lemma grown_drop W b n W' : grown W b n W' -> (forall i, b <= i < b + n -> i ∉ dom W) -> drop_blocks b n W' = W.
Proof.
  intros [Hsub Hdom] Hd. apply map_eq. intros i. apply option_eq. intros x. rewrite lookup_drop_blocks. split.
  - intros [Hx Hi]. apply elem_of_dom_2 in Hx as Hin. apply Hdom in Hin as [[y Hy]%elem_of_dom|?]; [|done]. rewrite (lookup_weaken _ _ _ _ Hy Hsub) in Hx. congruence.
  - intros Hx. split; [by eapply lookup_weaken|]. intros Hi. apply (Hd i Hi). by apply elem_of_dom_2 in Hx.
Qed.

Lemma needed_spec sz W lp pp ls ps s : state sz W lp pp ls ps s ->
  wp needed_metadata_blocks s (fun r s' => s' = s /\ r = Z.max (Z.max 0 (required s - meta_free (m_meta s))) (Z.max 0 (6 - m_meta_total s)) /\ 0 <= r < 2 ^ 32).
Proof.
  intros Hst. destruct (gs_trees _ _ _ _ _ _ _ _ _ _ Hst) as (F & Hsh & _). pose proof (shared_heights sz cfgp cfgq bs Hcfg _ _ _ _ _ _ _ Hsh) as [Hh1 Hh2].
  pose proof (state_bounds _ _ _ _ _ _ _ _ _ _ Hst) as (_ & Hm & _). unfold needed_metadata_blocks, get_meta_total, get_meta_free, required_total_meta_blocks. wp_step. wp_step. wp_step. wp_step. wp_step.
  eapply wp_mono; [by eapply (required_spec cfgp cfgq bs Hcfg)|]. cbn beta. intros r s' [-> ->]. wp_step. assert (0 <= required s < 2 ^ 32) by (unfold required; lia).
  destruct (Z.ltb_spec (m_meta_total s) 6), (Z.ltb_spec (meta_free (m_meta s)) (required s)); rewrite ?wrap_small by (unfold is_word; lia); split_and!; lia || done.
Qed.
Lemma same_trees_required s s' : same_trees s s' -> required s' = required s.
Proof. intros [H1' H2']. unfold required, position_height, size_height. by rewrite H1', H2'. Qed.

Lemma drain_spec sz W kp ks fuel : forall s, good sz W kp ks s -> (Z.to_nat (m_meta_total s) <= fuel)%nat ->
  wp (drain_freelist fuel) s (fun _ s' => good sz W kp ks s' /\ same_options s s' /\ Z.min 6 (m_meta_total s) <= m_meta_total s').
Proof.
  induction fuel as [|fuel IH]; intros s Hg Hfuel; pose proof Hg as (lp & pp & ls & ps & Hkp & Hks & Hst); destruct (gs_trees _ _ _ _ _ _ _ _ _ _ Hst) as (F & Hsh & _);
    pose proof (shared_heights sz cfgp cfgq bs Hcfg _ _ _ _ _ _ _ Hsh) as [Hh1 Hh2]; cbn [drain_freelist]; unfold get_meta_free, get_meta_total, required_total_meta_blocks;
    wp_step; wp_step; wp_step; wp_step; wp_step; (eapply wp_mono; [by eapply (required_spec cfgp cfgq bs Hcfg)|]); cbn beta; intros r s' [-> ->].
  - rewrite (proj2 (Z.ltb_ge 6 (m_meta_total s))), andb_false_r by lia. wp_step. split_and!; [done|done|lia].
  - destruct (Z.ltb_spec (required s) (meta_free (m_meta s))); cbn [andb]; [|wp_step; split_and!; [done|done|lia]].
    destruct (Z.ltb_spec 6 (m_meta_total s)); [|wp_step; split_and!; [done|done|lia]].
    assert (0 <= required s) by (unfold required; lia). pose proof (state_bounds _ _ _ _ _ _ _ _ _ _ Hst) as (Hsz & Hm & Hmt & _). pose proof (gs_limit _ _ _ _ _ _ _ _ _ _ Hst) as Hlim.
    wp_step. eapply wp_mono; [eapply pop_metadata_spec; [exact Hst|lia]|]. cbn beta. intros b s1 (l' & -> & Hb & HbW & Hst1). wp_step. apply wp_on_meta. unfold set_meta_free, set_meta_total. wp_step. wp_step. wp_step. wp_step.
    cbn [m_meta m_meta_total m_data_total m_data_free m_by_position m_by_size m_can_grow m_min_chunk set_meta meta_list]. rewrite !wrap_small by (unfold is_word; lia). specialize (Hst1 _ eq_refl). set (s2 := DefaultAllocator _ _ _ _ _ _ _ _) in *.
    assert (required s2 = required s) as Hreq by by apply same_trees_required.
    eapply wp_mono; [eapply (da_free_internal_spec cfgp cfgq bs Hcfg); [exact Hst1|split_and!; cbn; lia| |rewrite Hreq; cbn; lia]|].
    { intros i Hi. apply elem_of_extent in Hi. cbn in Hi. replace i with b by lia. rewrite dom_insert. set_solver. }
    cbn beta. intros _ s3 (lp3 & pp3 & ls3 & ps3 & Hkp3 & Hks3 & Hst3 & Ht3). cbn [block size] in Hst3. rewrite drop_blocks_insert in Hst3 by done. pose proof Ht3 as (Hmt3 & _). cbn in Hmt3.
    eapply wp_mono; [eapply IH; [exists lp3, pp3, ls3, ps3; split_and!; [by rewrite Hkp3|by rewrite Hks3|done]|lia]|].
    cbn beta. intros _ s4 (Hg4 & Ho4 & Hm4). split_and!; [done| |lia]. etrans; [apply (totals_options s2 s3 Ht3)|done].
Qed.

(** ** Allocating a free extent *)

Abbreviation by_pos sz := (position_side sz cfgp cfgq bs Hcfg).
Abbreviation by_sz sz := (size_side sz cfgp cfgq bs Hcfg).
Lemma extent_eqb_refl e : extent_eqb e e = true.
Proof. unfold extent_eqb. by rewrite !Z.eqb_refl. Qed.
Lemma at_position_spec sz F n lp pp ls ps id e s : shared sz F n lp pp ls ps s -> at_entry id e pp lp ->
  wp (at_extent (@on_position E) (Some id) e) s (fun b s' => b = true /\ shared sz F n lp pp ls ps s' /\ quiet s s').
Proof.
  intros Hsh (r & Hr & He). unfold at_extent. wp_step. eapply wp_mono; [exact (side_at_end (by_pos sz ls ps) _ _ _ _ _ _ _ Hsh Hr)|]. cbn beta. intros b s1 (-> & Hsh1 & Hq1). rewrite bool_decide_false by done.
  wp_step. eapply wp_mono; [exact (side_get (by_pos sz ls ps) _ _ _ _ _ _ _ _ Hsh1 Hr He)|]. cbn beta. intros x s2 (-> & Hsh2 & Hq2). wp_step. split_and!; [apply extent_eqb_refl|done|by etrans].
Qed.
Lemma at_size_spec sz F n lp pp ls ps id e s : shared sz F n lp pp ls ps s -> at_entry id e ps ls ->
  wp (at_extent (@on_size E) (Some id) e) s (fun b s' => b = true /\ shared sz F n lp pp ls ps s' /\ quiet s s').
Proof.
  intros Hsh (r & Hr & He). unfold at_extent. wp_step. eapply wp_mono; [exact (side_at_end (by_sz sz lp pp) _ _ _ _ _ _ _ Hsh Hr)|]. cbn beta. intros b s1 (-> & Hsh1 & Hq1). rewrite bool_decide_false by done.
  wp_step. eapply wp_mono; [exact (side_get (by_sz sz lp pp) _ _ _ _ _ _ _ _ Hsh1 Hr He)|]. cbn beta. intros x s2 (-> & Hsh2 & Hq2). wp_step. split_and!; [apply extent_eqb_refl|done|by etrans].
Qed.

(** The blocks of [e] become blocks in use. *)
Lemma state_allocated sz W F n lp pp ls ps s e lp' pp' ls' ps' s' : state sz W lp pp ls ps s -> W ⊆ F -> dom F = dom W ∪ list_to_set (free_blocks lp) ->
  shared sz F n lp' pp' ls' ps' s' -> ls' ≡ₚ lp' -> lp ≡ₚ e :: lp' -> m_data_free s' = m_data_free s - size e -> m_meta_total s' = m_meta_total s -> m_min_chunk s' = m_min_chunk s ->
  exists W', grown W (block e) (size e) W' /\ (forall i, block e <= i < block e + size e -> i ∉ dom W) /\ state sz W' lp' pp' ls' ps' s'.
Proof.
  intros Hst HW HF Hsh Hperm Hlp Hdf Hmt Hmc. pose proof Hst as [_ _ Hpos Hnd Hdis Hfree Htot Hlim Hch]. rewrite Hlp in Hpos, Hnd. rewrite free_blocks_cons in Hnd. apply NoDup_app in Hnd as (_ & Hd & Hnd). apply Forall_cons in Hpos as [Hse Hpos].
  assert (free_blocks lp ≡ₚ extent_blocks e ++ free_blocks lp') as Hfb by by rewrite Hlp, free_blocks_cons.
  assert (forall i, i ∈ extent_blocks e -> i ∉ dom W) as HeW by (intros i Hi; apply Hdis; rewrite Hfb; set_solver).
  set (W' := filter (fun p => p.1 ∉ free_blocks lp') F). assert (forall i, i ∈ dom W' <-> i ∈ dom W \/ block e <= i < block e + size e) as HdW.
  { intros i. rewrite <- elem_of_extent. assert (i ∈ dom W' <-> i ∈ dom F /\ i ∉ free_blocks lp') as ->.
    { unfold W'. rewrite !elem_of_dom. split; [intros [x [Hx Hi]%map_lookup_filter_Some]; split; [by exists x|done]|]. intros [[x Hx] Hi]. exists x. by apply map_lookup_filter_Some. }
    rewrite HF, elem_of_union, elem_of_list_to_set, Hfb, elem_of_app. split; [tauto|]. intros [Hi|Hi]; (split; [tauto|]).
    - intros Hi'. apply (Hdis i); [|done]. rewrite Hfb, elem_of_app. by right.
    - by apply Hd. }
  assert (W ⊆ W') as HWW. { apply map_subseteq_spec. intros i x Hx. apply map_lookup_filter_Some. split; [by eapply lookup_weaken|]. cbn. intros Hi. apply (Hdis i); [rewrite Hfb, elem_of_app; by right|by apply elem_of_dom_2 in Hx]. }
  exists W'. split_and!; [done|intros i Hi; by apply HeW, elem_of_extent|].
  assert (zlen (free_blocks lp) = size e + zlen (free_blocks lp')) as Hlen. { rewrite Hfb, length_app, Nat2Z.inj_add, length_extent_blocks by lia. done. }
  split; try done.
  - exists F. split_and!; [|apply map_filter_subseteq|].
    + eapply (shared_room sz cfgp cfgq bs); [exact Hsh|]. apply shared_meta in Hsh as (G & _ & _ & _ & _ & ?). lia.
    + rewrite HF. apply set_eq. intros i. rewrite !elem_of_union, !elem_of_list_to_set, HdW, Hfb, elem_of_app, elem_of_extent. tauto.
  - intros i Hi. rewrite HdW. intros [HiW|HiE]; [apply (Hdis i); [rewrite Hfb, elem_of_app; by right|done]|]. apply (Hd i); [by apply elem_of_extent|done].
  - lia.
  - assert (Z.of_nat (base.size (drop_blocks (block e) (size e) W')) + size e = Z.of_nat (base.size W')) as Hsz by (apply size_drop_blocks; [lia|]; intros i Hi; apply HdW; by right).
    rewrite (grown_drop W) in Hsz; [lia|by split|]. intros i Hi. by apply HeW, elem_of_extent.
  - by rewrite Hmc.
Qed.
Lemma allocate_extent_spec sz W lp pp ls ps s e idp idq : state sz W lp pp ls ps s -> at_entry idp e pp lp -> at_entry idq e ps ls ->
  wp (allocate_extent e (Some idp) (Some idq)) s (fun _ s' => exists W', grown W (block e) (size e) W' /\ (forall i, block e <= i < block e + size e -> i ∉ dom W) /\
    good sz W' pp.*1 ps.*1 s' /\ same_totals s s' /\ required s' <= required s /\ meta_free (m_meta s) <= meta_free (m_meta s')).
Proof.
  intros Hst Hp Hq. destruct (state_room _ _ _ _ _ _ _ _ _ _ Hst) as (F & Hsh & HW & HF). pose proof (state_bounds _ _ _ _ _ _ _ _ _ _ Hst) as (Hsz & _ & _ & Hdf & Hlen & _). pose proof Hst as [_ Hperm _ _ _ Hfree _ Hlim _].
  assert (in_range e) as Hr. { destruct Hp as (r & _ & He). eapply state_range; [exact Hst|by eapply list_elem_of_lookup_2]. }
  unfold allocate_extent. wp_step. wp_step; [by apply range_valid|]. wp_step. eapply wp_mono; [by eapply at_position_spec|]. cbn beta. intros b s1 (-> & Hsh1 & Hq1). wp_step. wp_step. wp_step.
  eapply wp_mono; [by eapply at_size_spec|]. cbn beta. intros b s2 (-> & Hsh2 & Hq2). wp_step. wp_step. pose proof (erase_both cfgp cfgq bs Hcfg sz _ _ _ _ _ _ _ _ _ _ Hsh2 Hperm ltac:(lia) Hp Hq) as Her.
  apply wp_run in Her as (s3 & [] & Hrun & lp' & pp' & ls' & ps' & Hsh3 & Hq3 & Hperm' & Hlp & Hkp & Hks & _). apply bind_ok_inv in Hrun as (sa & [] & Hra & Hrb).
  wp_step. apply wp_run. exists sa, tt. split; [done|]. wp_step. apply wp_run. exists s3, tt. split; [done|]. wp_step. wp_step. unfold set_data_free. wp_step.
  assert (quiet s s3) as ((Ht1 & Ht2 & Ht3 & Ht4 & Ht5) & Hh1 & Hh2) by (etrans; [done|]; by etrans).
  assert (size e <= m_data_free s) as Hle. { rewrite Hfree, Hlp. cbn [app]. rewrite free_blocks_cons, length_app, Nat2Z.inj_add, length_extent_blocks by apply Z.lt_le_incl, Hr. lia. }
  rewrite Ht3, wrap_small by (destruct Hr as (? & ? & ?); unfold is_word; lia).
  edestruct (state_allocated sz W F (meta_free (m_meta s)) lp pp ls ps s e lp' pp' ls' ps') as (W' & Hg & Hd & Hst'); [exact Hst|done|done| |done|done| | | |].
  5: { exists W'. split_and!; [done|done|exists lp', pp', ls', ps'; split_and!; [done|done|exact Hst']|by split_and!| |].
       - unfold required in *. cbn. unfold position_height, size_height in *. cbn. lia.
       - cbn. apply shared_meta in Hsh3 as (G & _ & _ & _ & _ & ?). lia. }
  all: done.
Qed.

(** ** Cursors *)

(** Nothing changes but the cursors; no tree needs more metadata blocks. *)
Definition calm s s' : Prop := steady s s' /\ required s' <= required s /\ meta_free (m_meta s) <= meta_free (m_meta s').
#[export] Instance calm_preorder : PreOrder calm.
Proof. split; unfold calm; [intros s; split_and!; [done|lia..]|]. intros s1 s2 s3 (? & ? & ?) (? & ? & ?). split_and!; [by etrans|lia..]. Qed.

Lemma state_lift {X} (m : M D X) sz W lp pp ls ps s (Q : X -> list (nat * position) -> list (nat * position) -> Prop) : state sz W lp pp ls ps s ->
  (forall F n, shared sz F n lp pp ls ps s -> wp m s (fun x s' => exists pp' ps', Q x pp' ps' /\ shared sz F n lp pp' ls ps' s' /\ quiet s s')) ->
  wp m s (fun x s' => exists pp' ps', Q x pp' ps' /\ state sz W lp pp' ls ps' s' /\ calm s s').
Proof.
  intros Hst Hm. destruct (state_room _ _ _ _ _ _ _ _ _ _ Hst) as (F & Hsh & HW & HF). eapply wp_mono; [by eapply Hm|]. cbn beta. intros x s' (pp' & ps' & HQ & Hsh' & Hq). exists pp', ps'. split_and!; [done| |].
  - eapply state_steady; [exact Hst|exact HW|done| |apply Hq]. eapply (shared_room sz cfgp cfgq bs); [exact Hsh'|]. apply shared_meta in Hsh' as (G & _ & _ & _ & _ & ?). lia.
  - apply shared_meta in Hsh' as (G & _ & _ & _ & _ & ?). destruct Hq as (? & ? & ?). split_and!; [done|unfold required; lia|lia].
Qed.

Lemma state_create_position seek sz W lp pp ls ps s : state sz W lp pp ls ps s ->
  wp (on_position (create_cursor seek)) s (fun c s' => exists id, c = Some id /\ id ∉ pp.*1 /\ state sz W lp (pp ++ [(id, seek_pos_of seek lp)]) ls ps s' /\ calm s s').
Proof.
  intros Hst. eapply wp_mono; [eapply (state_lift _ _ _ _ _ _ _ _ (fun c pp' ps' => exists id, c = Some id /\ id ∉ pp.*1 /\ pp' = pp ++ [(id, seek_pos_of seek lp)] /\ ps' = ps) Hst)|].
  - intros F n Hsh. eapply wp_mono; [exact (side_create (by_pos sz ls ps) seek _ _ _ _ _ Hsh)|]. cbn beta. intros c s' (id & -> & Hid & Hsh' & Hq). eexists _, ps. split; [by exists id|done].
  - cbn beta. intros c s' (pp' & ps' & (id & -> & Hid & -> & ->) & Hst' & Hc). by exists id.
Qed.
Lemma state_at_end_position sz W lp pp ls ps s id p : state sz W lp pp ls ps s -> find_cursor id pp = Some p ->
  wp (on_position (raw_at_end (Some id))) s (fun b s' => b = bool_decide (p = AtEnd) /\ state sz W lp pp ls ps s' /\ calm s s').
Proof.
  intros Hst Hid. eapply wp_mono; [eapply (state_lift _ _ _ _ _ _ _ _ (fun b pp' ps' => b = bool_decide (p = AtEnd) /\ pp' = pp /\ ps' = ps) Hst)|].
  - intros F n Hsh. eapply wp_mono; [exact (side_at_end (by_pos sz ls ps) _ _ _ _ _ _ _ Hsh Hid)|]. cbn beta. intros b s' (-> & Hsh' & Hq). by exists pp, ps.
  - cbn beta. by intros b s' (pp' & ps' & (-> & -> & ->) & Hst' & Hc).
Qed.
Lemma state_at_end_size sz W lp pp ls ps s id p : state sz W lp pp ls ps s -> find_cursor id ps = Some p ->
  wp (on_size (raw_at_end (Some id))) s (fun b s' => b = bool_decide (p = AtEnd) /\ state sz W lp pp ls ps s' /\ calm s s').
Proof.
  intros Hst Hid. eapply wp_mono; [eapply (state_lift _ _ _ _ _ _ _ _ (fun b pp' ps' => b = bool_decide (p = AtEnd) /\ pp' = pp /\ ps' = ps) Hst)|].
  - intros F n Hsh. eapply wp_mono; [exact (side_at_end (by_sz sz lp pp) _ _ _ _ _ _ _ Hsh Hid)|]. cbn beta. intros b s' (-> & Hsh' & Hq). by exists pp, ps.
  - cbn beta. by intros b s' (pp' & ps' & (-> & -> & ->) & Hst' & Hc).
Qed.
Lemma state_get_position sz W lp pp ls ps s id e : state sz W lp pp ls ps s -> at_entry id e pp lp ->
  wp (on_position (cursor_get (Some id))) s (fun x s' => x = e /\ state sz W lp pp ls ps s' /\ calm s s').
Proof.
  intros Hst (r & Hid & He). eapply wp_mono; [eapply (state_lift _ _ _ _ _ _ _ _ (fun x pp' ps' => x = e /\ pp' = pp /\ ps' = ps) Hst)|].
  - intros F n Hsh. eapply wp_mono; [exact (side_get (by_pos sz ls ps) _ _ _ _ _ _ _ _ Hsh Hid He)|]. cbn beta. intros b s' (-> & Hsh' & Hq). by exists pp, ps.
  - cbn beta. by intros b s' (pp' & ps' & (-> & -> & ->) & Hst' & Hc).
Qed.
Lemma state_get_size sz W lp pp ls ps s id e : state sz W lp pp ls ps s -> at_entry id e ps ls ->
  wp (on_size (cursor_get (Some id))) s (fun x s' => x = e /\ state sz W lp pp ls ps s' /\ calm s s').
Proof.
  intros Hst (r & Hid & He). eapply wp_mono; [eapply (state_lift _ _ _ _ _ _ _ _ (fun x pp' ps' => x = e /\ pp' = pp /\ ps' = ps) Hst)|].
  - intros F n Hsh. eapply wp_mono; [exact (side_get (by_sz sz lp pp) _ _ _ _ _ _ _ _ Hsh Hid He)|]. cbn beta. intros b s' (-> & Hsh' & Hq). by exists pp, ps.
  - cbn beta. by intros b s' (pp' & ps' & (-> & -> & ->) & Hst' & Hc).
Qed.
(** Entries that exist are found. *)
Lemma find_size_entry_spec sz W lp pp ls ps s e : state sz W lp pp ls ps s -> e ∈ lp ->
  wp (find_size_entry e) s (fun c s' => exists id r, c = Some id /\ id ∉ ps.*1 /\ ls !! r = Some e /\ state sz W lp pp ls (ps ++ [(id, At r)]) s' /\ calm s s').
Proof.
  intros Hst Hin. pose proof (state_range _ _ _ _ _ _ _ _ _ _ _ Hst Hin) as Hr.
  eapply wp_mono; [eapply (state_lift _ _ _ _ _ _ _ _ (fun c pp' ps' => exists id r, c = Some id /\ id ∉ ps.*1 /\ ls !! r = Some e /\ pp' = pp /\ ps' = ps ++ [(id, At r)]) Hst)|].
  - intros F n Hsh. pose proof Hsh as (_ & Hfs & _). rewrite <- (gs_perm _ _ _ _ _ _ _ _ _ _ Hst) in Hin. unfold find_size_entry. wp_step. eapply wp_mono; [exact (side_find (by_sz sz lp pp) e _ _ _ _ _ Hsh (range_fits _ Hr) Hin (unique_size _ Hfs))|].
    cbn beta. intros c s1 (id & r & -> & Hid & Hrl & Hsh1 & Hq1). unfold must_exist. wp_step. apply wp_on_exception. wp_step. eapply wp_mono; [exact (side_at_end (by_sz sz lp pp) _ _ _ _ _ _ _ Hsh1 (find_snoc _ _ _ Hid))|].
    cbn beta. intros b s2 (-> & Hsh2 & Hq2). wp_step. wp_step. eexists pp, _. split_and!; [by exists id, r|exact Hsh2|by etrans].
  - cbn beta. intros c s' (pp' & ps' & (id & r & -> & Hid & Hrl & -> & ->) & Hst' & Hc). by exists id, r.
Qed.
Lemma find_position_entry_spec sz W lp pp ls ps s e : state sz W lp pp ls ps s -> e ∈ lp ->
  wp (find_position_entry e) s (fun c s' => exists id r, c = Some id /\ id ∉ pp.*1 /\ lp !! r = Some e /\ state sz W lp (pp ++ [(id, At r)]) ls ps s' /\ calm s s').
Proof.
  intros Hst Hin. pose proof (state_range _ _ _ _ _ _ _ _ _ _ _ Hst Hin) as Hr. pose proof Hst as [_ _ Hpos Hnd _ _ _ _ _].
  eapply wp_mono; [eapply (state_lift _ _ _ _ _ _ _ _ (fun c pp' ps' => exists id r, c = Some id /\ id ∉ pp.*1 /\ lp !! r = Some e /\ pp' = pp ++ [(id, At r)] /\ ps' = ps) Hst)|].
  - intros F n Hsh. pose proof Hsh as (Hfp & _). unfold find_position_entry. wp_step. eapply wp_mono; [exact (side_find (by_pos sz ls ps) e _ _ _ _ _ Hsh (range_fits _ Hr) Hin (unique_position _ Hfp Hpos Hnd))|].
    cbn beta. intros c s1 (id & r & -> & Hid & Hrl & Hsh1 & Hq1). unfold must_exist. wp_step. apply wp_on_exception. wp_step. eapply wp_mono; [exact (side_at_end (by_pos sz ls ps) _ _ _ _ _ _ _ Hsh1 (find_snoc _ _ _ Hid))|].
    cbn beta. intros b s2 (-> & Hsh2 & Hq2). wp_step. wp_step. eexists _, ps. split_and!; [by exists id, r|exact Hsh2|by etrans].
  - cbn beta. intros c s' (pp' & ps' & (id & r & -> & Hid & Hrl & -> & ->) & Hst' & Hc). by exists id, r.
Qed.
Lemma good_close_position sz W kp ks id s : good sz W (kp ++ [id]) ks s -> id ∉ kp -> wp (on_position (destroy (Some id))) s (fun _ s' => good sz W kp ks s' /\ calm s s').
Proof.
  intros (lp & pp & ls & ps & Hkp & Hks & Hst) Hid. eapply wp_mono; [eapply (state_lift _ _ _ _ _ _ _ _ (fun _ pp' ps' => pp'.*1 = kp /\ ps' = ps) Hst)|].
  - intros F n Hsh. eapply wp_mono; [exact (side_close (by_pos sz ls ps) _ _ _ _ _ _ _ Hsh Hkp Hid)|]. cbn beta. intros b s' (pp' & Hk' & Hsh' & Hq). by exists pp', ps.
  - cbn beta. intros b s' (pp' & ps' & (Hk' & ->) & Hst' & Hc). split; [|done]. by exists lp, pp', ls, ps.
Qed.
Lemma good_close_size sz W kp ks id s : good sz W kp (ks ++ [id]) s -> id ∉ ks -> wp (on_size (destroy (Some id))) s (fun _ s' => good sz W kp ks s' /\ calm s s').
Proof.
  intros (lp & pp & ls & ps & Hkp & Hks & Hst) Hid. eapply wp_mono; [eapply (state_lift _ _ _ _ _ _ _ _ (fun _ pp' ps' => ps'.*1 = ks /\ pp' = pp) Hst)|].
  - intros F n Hsh. eapply wp_mono; [exact (side_close (by_sz sz lp pp) _ _ _ _ _ _ _ Hsh Hks Hid)|]. cbn beta. intros b s' (ps' & Hk' & Hsh' & Hq). by exists pp, ps'.
  - cbn beta. intros b s' (pp' & ps' & (Hk' & ->) & Hst' & Hc). split; [|done]. by exists lp, pp, ls, ps'.
Qed.

(** The totals do not change and no tree needs more metadata blocks. *)
Definition relaxed s s' : Prop := same_totals s s' /\ required s' <= required s /\ meta_free (m_meta s) <= meta_free (m_meta s').
#[export] Instance relaxed_preorder : PreOrder relaxed.
Proof. split; unfold relaxed; [intros s; split_and!; [done|lia..]|]. intros s1 s2 s3 (? & ? & ?) (? & ? & ?). split_and!; [by etrans|lia..]. Qed.
Lemma calm_relaxed s s' : calm s s' -> relaxed s s'.
Proof. intros (? & ? & ?). split_and!; [by apply steady_totals|done..]. Qed.

(** The extent [x] was allocated. *)
Definition taken sz W kp ks s x s' : Prop := in_range x /\ exists W', grown W (block x) (size x) W' /\ (forall i, block x <= i < block x + size x -> i ∉ dom W) /\
  good sz W' kp ks s' /\ relaxed s s'.

Lemma allocate_from_front_spec sz W kp ks s : good sz W kp ks s ->
  wp allocate_from_front s (fun x s' => (x = no_extent /\ good sz W kp ks s' /\ relaxed s s' /\ m_data_free s' = 0) \/ taken sz W kp ks s x s').
Proof.
  intros (lp & pp & ls & ps & <- & <- & Hst). unfold allocate_from_front. wp_step. eapply wp_mono; [by apply (state_create_position seek_min)|]. cbn beta. intros c s1 (idp & -> & Hnp & Hst1 & Hc1).
  apply wp_scoped. set (pp1 := pp ++ _) in *. assert (settled_at idp pp1 lp) as Hset by by apply settled_nth. assert (pp1.*1 = pp.*1 ++ [idp]) as Hk1 by (unfold pp1; by rewrite fmap_app).
  wp_step. destruct Hset as [Hend|(x & Hat)].
  { eapply wp_mono; [by eapply state_at_end_position|]. cbn beta. intros b s2 (-> & Hst2 & Hc2). rewrite bool_decide_true by done. wp_step.
    eapply wp_mono; [eapply good_close_position; [exists lp, pp1, ls, ps; split_and!; [exact Hk1|done|exact Hst2]|done]|]. cbn beta. intros _ s3 [Hg3 Hc3]. left.
    assert (calm s s3) as Hc by by etrans; [|etrans]. split_and!; [done|done|by apply calm_relaxed|]. destruct Hc as ((_ & _ & -> & _) & _). rewrite (gs_free _ _ _ _ _ _ _ _ _ _ Hst).
    unfold pp1 in Hend. rewrite find_snoc in Hend by done. cbn in Hend. unfold nth_pos in Hend. case_decide; [done|]. by destruct lp; [|cbn in *; lia]. }
  pose proof Hat as (r & Hr & He). eapply wp_mono; [by eapply state_at_end_position|]. cbn beta. intros b s2 (-> & Hst2 & Hc2). rewrite bool_decide_false by done.
  wp_step. eapply wp_mono; [by eapply state_get_position|]. cbn beta. intros y s3 (-> & Hst3 & Hc3). assert (x ∈ lp) as Hin by by eapply list_elem_of_lookup_2. pose proof (state_range _ _ _ _ _ _ _ _ _ _ _ Hst Hin) as Hrg.
  wp_step. wp_step; [rewrite range_valid by done; cbn; apply Z.ltb_lt, Hrg|]. wp_step. eapply wp_mono; [by eapply find_size_entry_spec|]. cbn beta. intros c s4 (idq & q & -> & Hnq & Hq & Hst4 & Hc4). apply wp_scoped.
  wp_step. eapply wp_mono; [eapply allocate_extent_spec; [exact Hst4|exact Hat|exists q; split; [by apply find_snoc|done]]|]. cbn beta. intros _ s5 (W' & Hgr & Hd & Hg5 & Ht5 & Hreq5 & Hmf5). wp_step. rewrite fmap_app in Hg5. cbn in Hg5.
  eapply wp_mono; [by eapply good_close_size|]. cbn beta. intros _ s6 [Hg6 Hc6]. rewrite Hk1 in Hg6. eapply wp_mono; [by eapply good_close_position|]. cbn beta. intros _ s7 [Hg7 Hc7]. right. split; [done|]. exists W'. split_and!; [done..|].
  etrans; [apply (calm_relaxed s s4); by repeat (etrans; [eassumption|])|]. etrans; [by split_and!|]. apply calm_relaxed. by etrans.
Qed.

Lemma fill_spec sz W kp ks fuel : forall s, good sz W kp ks s -> (Z.to_nat (m_data_free s) < fuel)%nat ->
  wp (fill_freelist fuel) s (fun _ s' => good sz W kp ks s' /\ same_options s s' /\ m_meta_total s <= m_meta_total s' /\ (required s' <= meta_free (m_meta s') \/ m_data_free s' = 0)).
Proof.
  induction fuel as [|fuel IH]; intros s Hg Hfuel; [lia|]. pose proof Hg as (lp & pp & ls & ps & Hkp & Hks & Hst). destruct (gs_trees _ _ _ _ _ _ _ _ _ _ Hst) as (F & Hsh & _).
  cbn [fill_freelist]. unfold get_meta_free. wp_step. wp_step. wp_step. eapply wp_mono; [by eapply (required_spec cfgp cfgq bs Hcfg)|]. cbn beta. intros r s' [-> ->].
  destruct (Z.ltb_spec (meta_free (m_meta s)) (required s)) as [Hlt|]; [|wp_step; split_and!; [done|done|lia|by left]].
  wp_step. eapply wp_mono; [by eapply needed_spec|]. cbn beta. intros needed s' (-> & Hneed & Hn32). wp_step. eapply wp_mono; [by eapply allocate_from_front_spec|]. cbn beta.
  intros x s1 [(-> & Hg1 & Hre1 & Hdf1)|(Hr & W' & Hgr & Hd & Hg1 & Ht1 & Hreq1 & Hmf1)].
  { change (index_valid (block no_extent)) with false. cbn [negb]. wp_step. destruct Hre1 as ((? & ? & ? & ?) & _). split_and!; [done|by split_and!|lia|by right]. }
  rewrite range_valid by done. cbn [negb]. pose proof Hr as (Hb & Hs & Hlim). pose proof Hg1 as (lp1 & pp1 & ls1 & ps1 & Hkp1 & Hks1 & Hst1). pose proof Ht1 as (Hmt1 & Hdt1 & Hcg1 & Hmc1).
  wp_step. eapply wp_mono; [eapply take_metadata_spec; [exact Hst1|done| |exact Hn32]|]. { intros i Hi. apply elem_of_extent in Hi. apply Hgr. by right. }
  cbn beta zeta. set (k := Z.min (size x) needed). intros y s2 (-> & Hst2 & Hmf2 & Hmt2 & Htr2 & Hdt2 & Hcg2 & Hmc2). cbn [size block]. pose proof (grown_drop _ _ _ _ Hgr Hd) as Hdrop.
  assert (wp (if 0 <? size x - k then free_internal (Extent (block x + k) (size x - k)) else ret tt) s2 (fun _ s3 => good sz W kp ks s3 /\ same_totals s2 s3)) as Hrest.
  { destruct (Z.ltb_spec 0 (size x - k)).
    - eapply wp_mono; [eapply (da_free_internal_spec cfgp cfgq bs Hcfg); [exact Hst2|split_and!; cbn; lia| |rewrite (same_trees_required _ _ Htr2); lia]|].
      + intros i Hi. apply elem_of_extent in Hi. cbn in Hi. apply dom_drop_blocks. split; [apply Hgr; right|]; lia.
      + cbn beta. intros _ s3 (lp3 & pp3 & ls3 & ps3 & Hkp3 & Hks3 & Hst3 & Ht3). cbn [block size] in Hst3. rewrite drop_blocks_app in Hst3 by lia. replace (k + (size x - k)) with (size x) in Hst3 by lia. rewrite Hdrop in Hst3.
        split; [|done]. exists lp3, pp3, ls3, ps3. split_and!; [congruence|congruence|done].
    - wp_step. split; [|done]. replace k with (size x) in Hst2 by lia. rewrite Hdrop in Hst2. by exists lp1, pp1, ls1, ps1. }
  wp_step. eapply wp_mono; [exact Hrest|]. cbn beta. intros _ s3 (Hg3 & Hmt3 & Hdt3 & Hcg3 & Hmc3). pose proof (good_free _ _ _ _ _ Hg) as (Hf0 & _ & Hge0). pose proof (good_free _ _ _ _ _ Hg3) as (Hf3 & _ & Hge3).
  eapply wp_mono; [apply IH; [exact Hg3|lia]|]. cbn beta. intros _ s4 (Hg4 & (Ho1 & Ho2 & Ho3) & Hm4 & Hdone). split_and!; [done|split_and!; congruence|lia|done].
Qed.
Lemma fix_freelist_spec sz W kp ks s : good sz W kp ks s ->
  wp fix_freelist s (fun _ s' => good sz W kp ks s' /\ same_options s s' /\ Z.min 6 (m_meta_total s) <= m_meta_total s' /\ (required s' <= meta_free (m_meta s') \/ m_data_free s' = 0)).
Proof.
  intros Hg. unfold fix_freelist, get_meta_total. wp_step. wp_step. wp_step. eapply wp_mono; [by apply drain_spec|]. cbn beta. intros _ s1 (Hg1 & Ho1 & Hm1). wp_step. wp_step.
  eapply wp_mono; [apply fill_spec; [exact Hg1|lia]|]. cbn beta. intros _ s2 (Hg2 & Ho2 & Hm2 & Hdone). split_and!; [done|by etrans|lia|done].
Qed.

(** ** [free] *)

Lemma da_free_spec sz W kp ks s b n : good sz W kp ks s -> 0 < n -> (forall i, b <= i < b + n -> i ∈ dom W) ->
  wp (free b n) s (fun _ s' => good sz (drop_blocks b n W) kp ks s' /\ same_options s s' /\ 1 <= m_meta_total s').
Proof.
  intros Hg Hn HbW. assert (in_range (Extent b n)) as Hr.
  { pose proof Hg as (lp & pp & ls & ps & _ & _ & Hst). pose proof (state_disk _ _ _ _ _ _ _ _ _ _ Hst) as (_ & _ & _ & _ & _ & Hin). pose proof (gs_limit _ _ _ _ _ _ _ _ _ _ Hst).
    pose proof (Hin b (or_introl (HbW b ltac:(lia)))). pose proof (Hin (b + n - 1) (or_introl (HbW (b + n - 1) ltac:(lia)))). repeat split; cbn; lia. }
  unfold free. wp_step. wp_step; [apply (range_valid _ Hr)|]. destruct (Z.eqb_spec n 0); [lia|]. wp_step. eapply wp_mono; [by apply fix_freelist_spec|]. cbn beta. intros _ s1 (Hg1 & Ho1 & Hm1 & _).
  pose proof Hg1 as (lp & pp & ls & ps & Hkp & Hks & Hst). wp_step. eapply wp_mono; [by eapply needed_spec|]. cbn beta. intros needed s' (-> & Hneed & Hn32). pose proof (good_free _ _ _ _ _ Hg1) as (_ & Hm0 & _).
  wp_step. eapply wp_mono; [eapply take_metadata_spec; [exact Hst|exact Hr| |exact Hn32]|]. { intros i Hi. apply elem_of_extent in Hi. by apply HbW. }
  cbn beta zeta. cbn [block size]. set (k := Z.min n needed). intros y s2 (-> & Hst2 & Hmf2 & Hmt2 & Htr2 & Hdt2 & Hcg2 & Hmc2). cbn [size block].
  assert (same_options s s2) as Ho2 by (etrans; [exact Ho1|by split_and!]). destruct Hr as (Hr1 & Hr2 & Hr3). cbn [block size] in *. destruct (Z.ltb_spec 0 (n - k)).
  - eapply wp_mono; [eapply (da_free_internal_spec cfgp cfgq bs Hcfg); [exact Hst2|split_and!; cbn; lia| |rewrite (same_trees_required _ _ Htr2); lia]|].
    + intros i Hi. apply elem_of_extent in Hi. cbn in Hi. apply dom_drop_blocks. split; [apply HbW|]; lia.
    + cbn beta. intros _ s3 (lp3 & pp3 & ls3 & ps3 & Hkp3 & Hks3 & Hst3 & Ht3). cbn [block size] in Hst3. rewrite drop_blocks_app in Hst3 by lia. replace (k + (n - k)) with n in Hst3 by lia. pose proof Ht3 as (Hmt3 & _).
      split_and!; [|by etrans; [|apply totals_options]|lia]. exists lp3, pp3, ls3, ps3. split_and!; [congruence|congruence|done].
  - wp_step. replace k with n in Hst2 by lia. split_and!; [by exists lp, pp, ls, ps|done|lia].
Qed.
End space.
End default_space.
