(* ===== verification/DefaultAllocate.v ===== *)
(** * Allocation and reallocation

    The functions of the default allocator that hand out blocks: the best
    fitting free extent, the extent at the end of the file together with new
    blocks, or new blocks only. *)

From Stdlib Require Import Strings.Byte Sorting.Sorted.
From S2P Require Import Prelude MathOps Serialization Blocks EngineSpec LinearIO FreeList Allocator MetaAllocator BTreeNodes BTree BTreeShape BTreeStore BTreeSearch BTreeCursors BTreeInsert BTreeOps BTreeSession BTreeRemove BTreeErase BTreeHeight BTreeHistory RawBTree TypedBTree DefaultAllocator DefaultTrees DefaultState DefaultFree DefaultSpace.

Module default_allocate.
Import btree btree_shape btree_store btree_cursors btree_ops btree_session btree_erase btree_history raw_btree typed_btree default_allocator default_trees default_state default_free default_space.

Lemma pow2_bounds n : 0 < n <= 2 ^ 32 -> n <= round_towards_pow2 64 n <= 2 * n.
Proof.
  intros Hn. rewrite round_towards_pow2_eq by (unfold is_word; lia). destruct (Z.eqb_spec n 0); [lia|]. destruct (Z.leb_spec n (2 ^ (64 - 1))); [|lia].
  destruct (decide (n = 1)) as [->|]; [done|]. pose proof (Z.log2_up_spec n ltac:(lia)) as [H1 H2]. pose proof (Z.log2_up_pos n ltac:(lia)) as H3.
  replace (2 ^ Z.log2_up n) with (2 * 2 ^ Z.pred (Z.log2_up n)) in * by (rewrite <- Z.pow_succ_r by lia; f_equal; lia). lia.
Qed.

Section allocate.
Context {E : Type} `{EngineSpec E} (cfgp cfgq : config) (bs : Z) (Hcfg : configs_ok cfgp cfgq bs).
Abbreviation D := (default_allocator E).
Abbreviation shared sz := (shared sz cfgp cfgq bs).
Abbreviation state := (state cfgp cfgq bs).
Abbreviation good := (good cfgp cfgq bs).
Abbreviation disk_of s := (eng_view (fl_engine (meta_list (m_meta s)))).
Implicit Types (W F : gmap Z bytes) (n sz : Z) (lp ls : list extent_t) (pp ps : list (nat * position)) (s : D) (e : extent_t) (id : nat) (U : gset Z) (stack : list Z).

(** ** New blocks *)

(** The file can grow by [k] blocks. *)
Definition space sz k s : Prop := m_can_grow s = true /\ (sz + k) * bs < invalid_value /\ sz + k <= 2 ^ 32.
Definition new_chunk n s : Z := Z.max (m_min_chunk s) (round_towards_pow2 64 n).

Lemma state_grow sz W lp pp ls ps s k (e' : E) s' new : state sz W lp pp ls ps s -> 0 <= k -> sz + k <= 2 ^ 32 -> eng_inv e' -> zlen new = k -> eng_view e' = disk_append new (disk_of s) ->
  s' = DefaultAllocator (set_meta_list (FreeList.set_engine e' (meta_list (m_meta s))) (m_meta s)) (m_meta_total s) (m_data_total s') (m_data_free s) (m_by_position s) (m_by_size s) (m_can_grow s) (m_min_chunk s) ->
  exists W', grown W sz k W' /\ (forall i, sz <= i < sz + k -> i ∉ dom W) /\ state (sz + k) W' lp pp ls ps s'.
Proof.
  intros Hst Hk Hlim He Hnew Hv Hs'. pose proof (state_disk _ _ _ _ _ _ _ _ _ _ Hst) as (Hwf & _ & Hsz & Hbs & Hc & Hin). pose proof Hst as [_ _ _ _ Hdis _ Htot _ _].
  pose proof (state_bounds _ _ _ _ _ _ _ _ _ _ Hst) as (Hsz0 & _).
  assert (d_size (eng_view e') = sz + k) as Hs. { rewrite Hv. unfold d_size, disk_append. cbn. rewrite length_app. unfold d_size in Hsz. lia. }
  assert (forall i, 0 <= i < sz -> disk_block (eng_view e') i = disk_block (disk_of s) i) as Hold.
  { intros i Hi. rewrite Hv. unfold disk_block, disk_append, d_size in *. cbn in *. rewrite !list_lookup_total_alt, lookup_app_l by lia. done. }
  assert (disk_of s' = eng_view e') as Hd by by rewrite Hs'.
  assert (forall i, sz <= i < sz + k -> i ∉ dom W) as HnW by (intros i Hi Hw; specialize (Hin i (or_introl Hw)); lia).
  set (N := set_to_map (C := gset Z) (M := gmap Z bytes) (fun i => (i, disk_block (eng_view e') i)) (blocks sz k)).
  assert (forall i x, N !! i = Some x <-> sz <= i < sz + k /\ disk_block (eng_view e') i = x) as HN.
  { intros i x. unfold N. rewrite lookup_set_to_map by (intros ? ? _ _; by cbn). rewrite <- elem_of_blocks. split; [intros (j & Hj & Heq); injection Heq as -> <-; done|]. intros [Hi <-]. by exists i. }
  assert (forall i, i ∈ dom N <-> sz <= i < sz + k) as HdN. { intros i. rewrite elem_of_dom. split; [intros [x [? _]%HN]; done|]. intros Hi. eexists. by apply HN. }
  assert (W ##ₘ N) as Hdisj. { apply map_disjoint_dom. intros i Hw Hi%HdN. by apply (HnW i). }
  exists (W ∪ N). assert (grown W sz k (W ∪ N)) as Hgr. { split; [by apply map_union_subseteq_l|]. intros i. by rewrite dom_union, elem_of_union, HdN. }
  split_and!; [done..|]. eapply (state_meta cfgp cfgq bs sz (sz + k) W); [exact Hst|by rewrite Hs'|by rewrite Hs'|by rewrite Hs'| |done|by rewrite Hd|rewrite Hd; unfold d_bs; by rewrite Hv|rewrite Hd| |].
  - assert (Z.of_nat (base.size (drop_blocks sz k (W ∪ N))) + k = Z.of_nat (base.size (W ∪ N))) as Hsize by (apply size_drop_blocks; [done|]; intros i Hi; apply Hgr; by right).
    rewrite (grown_drop W) in Hsize by done. rewrite Hs'. cbn. lia.
  - intros i x [Hx|[_ Hx]]%lookup_union_Some_raw; [|by apply HN in Hx as [_ ?]]. rewrite Hold; [by apply Hc|]. apply Hin. left. by apply elem_of_dom_2 in Hx.
  - intros i Hi Hw. apply Hgr in Hw as [Hw|Hw]; [by apply (Hdis i)|]. specialize (Hin i (or_intror Hi)). lia.
  - intros U stack Hms HU. exists (U ∪ blocks sz k), stack. assert (forall i, i ∈ stack \/ i ∈ U -> 0 <= i < sz) as HUd. { intros i Hi%(ms_disk _ _ _ Hms). unfold in_disk in Hi. lia. }
    split_and!.
    + rewrite Hs'. cbn [m_meta]. split; cbn [meta_list meta_free set_meta_list FreeList.set_engine fl_engine fl_head].
      * apply (fl_inv_mono (meta_list (m_meta s))); cbn [FreeList.set_engine fl_engine fl_head]; [apply Hms|done|done|unfold d_bs; by rewrite Hv|lia|]. intros i Hi. apply Hold, HUd. by left.
      * apply Hms.
      * intros i. unfold in_disk. rewrite Hs, elem_of_union, elem_of_blocks. pose proof (ms_disk _ _ _ Hms i) as Hdi. unfold in_disk in Hdi. rewrite Hsz in Hdi. specialize (HUd i).
        split.
        -- intros Hi. destruct (decide (i < sz)); [|right; right; lia]. destruct (proj1 Hdi) as [?|?]; [lia|by left|by right; left].
        -- intros [Hi|[Hi|Hi]]; [specialize (HUd (or_introl Hi))|specialize (HUd (or_intror Hi))|]; lia.
      * intros i Hi. rewrite elem_of_union, elem_of_blocks. intros [HiU|Hb]; [by apply (ms_disjoint _ _ _ Hms i)|]. specialize (HUd i (or_introl Hi)). lia.
    + intros i. rewrite elem_of_union, elem_of_blocks. intros [Hw|Hf]; [|left; apply HU; by right]. apply Hgr in Hw as [Hw|Hw]; [left; apply HU; by left|by right].
    + intros i HiU HiW Hif. specialize (HUd i (or_intror HiU)). split_and!; [set_solver|intros Hw; apply Hgr in Hw as [?|?]; [done|lia]|]. rewrite Hd. by apply Hold.
Qed.

(** All but [r] blocks of the file are managed by the allocator. *)
Definition accounts r sz s : Prop := 0 <= r /\ 0 <= m_data_total s /\ m_data_total s + r = sz.
(** The options stay the same; the blocks of the file that the allocator does
    not manage stay the same. *)
Definition evolves sz s sz' s' : Prop := m_can_grow s' = m_can_grow s /\ m_min_chunk s' = m_min_chunk s /\ forall r, accounts r sz s -> accounts r sz' s'.
Lemma evolves_trans sz1 s1 sz2 s2 sz3 s3 : evolves sz1 s1 sz2 s2 -> evolves sz2 s2 sz3 s3 -> evolves sz1 s1 sz3 s3.
Proof. intros (H1 & H2 & H3) (H4 & H5 & H6). split_and!; [congruence|congruence|auto]. Qed.
Lemma options_evolve sz s s' : same_options s s' -> evolves sz s sz s'.
Proof. intros (H1 & H2 & H3). split_and!; [done|done|]. unfold accounts. by rewrite H1. Qed.
Lemma relaxed_evolve sz s s' : relaxed s s' -> evolves sz s sz s'.
Proof. intros [Ht _]. by apply options_evolve, totals_options. Qed.
Lemma calm_evolve sz s s' : calm s s' -> evolves sz s sz s'.
Proof. intros Hc. by apply relaxed_evolve, calm_relaxed. Qed.
Lemma space_evolve sz k s sz' k' s' : space sz k s -> 0 <= k' -> sz <= sz' -> sz' + k' <= sz + k -> evolves sz s sz' s' -> 0 < bs -> space sz' k' s'.
Proof. intros (Hg & Hb & Hl) Hk Hz Hle (Hg' & _) Hbs. split_and!; [congruence|nia|lia]. Qed.
Lemma good_state sz W lp pp ls ps s : state sz W lp pp ls ps s -> good sz W pp.*1 ps.*1 s.
Proof. intros Hst. by exists lp, pp, ls, ps. Qed.
Lemma good_facts sz W kp ks s : good sz W kp ks s -> 0 <= sz <= 2 ^ 32 /\ 0 < bs /\ d_size (disk_of s) = sz /\ wf_disk (disk_of s) /\ d_bs (disk_of s) = bs /\ 1 <= m_min_chunk s < 2 ^ 32 /\
  (forall i, i ∈ dom W -> 0 <= i < sz) /\ (forall i b, W !! i = Some b -> disk_block (disk_of s) i = b).
Proof.
  intros (lp & pp & ls & ps & _ & _ & Hst). pose proof (state_disk _ _ _ _ _ _ _ _ _ _ Hst) as (Hwf & _ & Hsz & Hbs & Hc & Hin). pose proof (state_bounds _ _ _ _ _ _ _ _ _ _ Hst) as (Hsz0 & _). destruct Hst as [_ _ _ _ _ _ _ Hlim Hch].
  pose proof (wf_bs_pos _ Hwf). split_and!; try done; try lia. intros i Hi. apply Hin. by left.
Qed.

Lemma new_chunk_bounds n s : 0 < n <= 2 ^ 32 -> 1 <= m_min_chunk s -> n <= new_chunk n s <= m_min_chunk s + 2 * n.
Proof. intros Hn Hm. unfold new_chunk. pose proof (pow2_bounds n Hn). lia. Qed.
Lemma allocate_from_engine_spec sz W lp pp ls ps s n : state sz W lp pp ls ps s -> 0 < n -> space sz (m_min_chunk s + 2 * n) s ->
  wp (allocate_from_engine n) s (fun x s' => exists W', let k := new_chunk n s in x = Extent sz k /\ n <= k <= m_min_chunk s + 2 * n /\
    grown W sz k W' /\ (forall i, sz <= i < sz + k -> i ∉ dom W) /\ state (sz + k) W' lp pp ls ps s' /\ evolves sz s (sz + k) s' /\ m_meta_total s' = m_meta_total s).
Proof.
  intros Hst Hn (Hg & Hb & Hl). pose proof (state_disk _ _ _ _ _ _ _ _ _ _ Hst) as (Hwf & He & Hsz & Hbs & _). pose proof (wf_bs_pos _ Hwf) as Hbp. pose proof (state_bounds _ _ _ _ _ _ _ _ _ _ Hst) as (Hsz0 & _). pose proof (gs_chunk _ _ _ _ _ _ _ _ _ _ Hst) as Hch.
  pose proof (new_chunk_bounds n s ltac:(lia) ltac:(lia)) as Hk. unfold allocate_from_engine, engine_size, chunk_size. wp_step. wp_step. wp_step. wp_step. wp_step. wp_step; [by rewrite Hg|]. wp_step. wp_step. wp_step. wp_step. wp_step. wp_step. wp_step. wp_step.
  rewrite (proj2 (Z.ltb_lt n (2 ^ 63))) by lia. fold (new_chunk n s). set (k := new_chunk n s) in *. wp_step. apply wp_on_meta, wp_on_meta_list, wp_on_engine.
  eapply wp_mono; [apply (spec_grow _ k He); [lia|rewrite Hsz, Hbs; nia]|]. cbn beta. intros _ e' (He' & new & Hlen & Hv). wp_step. wp_step. wp_step. unfold set_data_total. wp_step. wp_step.
  cbn [m_meta m_meta_total m_data_total m_data_free m_by_position m_by_size m_can_grow m_min_chunk set_meta]. set (s' := DefaultAllocator _ _ _ _ _ _ _ _).
  destruct (state_grow sz W lp pp ls ps s k e' s' new) as (W' & Hgr & Hd & Hst'); [done|lia|lia|done|done|done|done|]. exists W'. split_and!; try done; [by rewrite Hsz|lia|lia|].
  split_and!; [done..|]. unfold accounts. cbn. intros r (Hr & Hdt & Heq). rewrite wrap_small; [lia|]. unfold is_word. lia.
Qed.

(** Freeing the end of an extent, which may be empty. *)
Lemma free_rest_spec sz W kp ks s first skip n : good sz W kp ks s -> 0 <= first -> 0 <= skip -> first + skip <= 2 ^ 32 -> 0 <= n -> (forall i, first + skip <= i < first + skip + n -> i ∈ dom W) ->
  wp (free_rest first skip n) s (fun _ s' => good sz (drop_blocks (first + skip) n W) kp ks s' /\ evolves sz s sz s').
Proof.
  intros Hg Hf Hs Hl Hn Hin. unfold free_rest, free_extent. wp_step. rewrite small_add by done. wp_step. cbn [block size]. destruct (decide (n = 0)) as [->|].
  - unfold free. wp_step. wp_step; [apply small_valid; lia|]. change (0 =? 0) with true. cbv match. wp_step. rewrite drop_blocks_0. split; [done|]. by apply options_evolve.
  - eapply wp_mono; [apply (da_free_spec cfgp cfgq bs Hcfg); [exact Hg|lia|done]|]. cbn beta. intros _ s' (Hg' & Ho & _). split; [done|]. by apply options_evolve.
Qed.
Lemma grown_shrink W b n k W' : grown W b n W' -> (forall i, b <= i < b + n -> i ∉ dom W) -> 0 <= k <= n -> grown W b k (drop_blocks (b + k) (n - k) W').
Proof.
  intros [Hsub Hdom] Hd Hk. split.
  - apply map_subseteq_spec. intros i x Hx. apply lookup_drop_blocks. split; [by eapply lookup_weaken|]. intros Hi. apply (Hd i); [lia|by apply elem_of_dom_2 in Hx].
  - intros i. rewrite dom_drop_blocks, Hdom. destruct (decide (b <= i < b + n)) as [Hi|Hi]; [|split; [intros [[?|?] ?]; [by left|done]|intros [?|?]; [split; [by left|lia]|lia]]]. specialize (Hd i Hi).
    split; [intros [[?|_] ?]; [done|right; lia]|]. intros [?|?]; [done|]. split; [by right|lia].
Qed.
Lemma lazy_initialize_spec sz W kp ks s : good sz W kp ks s -> space sz (m_min_chunk s + 12) s ->
  wp lazy_initialize s (fun _ s' => exists sz', sz <= sz' <= sz + m_min_chunk s + 12 /\ good sz' W kp ks s' /\ evolves sz s sz' s').
Proof.
  intros Hg Hsp. pose proof (good_facts _ _ _ _ _ Hg) as (Hsz & Hbs & _ & _ & _ & Hch & _). unfold lazy_initialize, get_meta_total, required_total_meta_blocks. wp_step. wp_step.
  destruct (Z.leb_spec 6 (m_meta_total s)). { wp_step. exists sz. split_and!; [lia|lia|done|]. by apply options_evolve. }
  pose proof (good_free _ _ _ _ _ _ _ _ Hg) as (_ & Hmt & _). rewrite wrap_small by (unfold is_word; lia). pose proof Hg as (lp & pp & ls & ps & Hkp & Hks & Hst).
  wp_step. eapply wp_mono; [eapply allocate_from_engine_spec; [exact Hst|lia|eapply space_evolve; [exact Hsp|lia|lia|lia|by apply options_evolve|done]]|]. cbn beta zeta. set (k := new_chunk _ s).
  intros x s1 (W' & -> & Hk & Hgr & Hd & Hst1 & Hev & Hmt1). cbn [block size]. wp_step. eapply wp_mono; [apply (da_free_spec cfgp cfgq bs Hcfg (sz + k) W' kp ks); [by exists lp, pp, ls, ps|lia|intros i Hi; apply Hgr; by right]|].
  cbn beta. intros _ s2 (Hg2 & Ho2 & Hm2). rewrite (grown_drop W) in Hg2 by done. wp_step. wp_step. wp_step. exists (sz + k). split_and!; [lia|lia|done|]. eapply evolves_trans; [exact Hev|by apply options_evolve].
Qed.

(** ** Best fit *)

Lemma size_less_request e n : is_u64 (block e) -> size_less e (Extent invalid_value n) = (size e <? n).
Proof.
  intros Hb. apply eq_true_iff_eq. rewrite size_less_spec, Z.ltb_lt. cbn [block size]. change (u64 (invalid_value + 1)) with 0. assert (0 <= u64 (block e + 1)) by (apply Z.mod_pos_bound; lia). lia.
Qed.
(** The extents by size. *)
Lemma state_ordered sz W lp pp ls ps s : state sz W lp pp ls ps s -> StronglySorted (fun e e' => size e <= size e') ls.
Proof.
  intros Hst. destruct (gs_trees _ _ _ _ _ _ _ _ _ _ Hst) as (F & Hsh & _). pose proof Hsh as (_ & Hfs & _). destruct (shared_sorted sz cfgp cfgq bs _ _ _ _ _ _ _ Hsh) as [_ Hs]. clear -Hs Hfs.
  unfold sorted in Hs. induction ls as [|x l IH]; [constructor|]. rewrite fmap_cons in Hs. apply StronglySorted_inv in Hs as [Hs Hx]. inversion Hfs as [|? ? Hfx Hfl]; subst. constructor; [by apply IH|].
  rewrite Forall_fmap in Hx. rewrite Forall_forall in Hx, Hfl |- *. intros y Hy. specialize (Hx y Hy). unfold compose in Hx. assert (representable x) as Hrx by apply Hfx. assert (representable y) as Hry by by apply Hfl. rewrite (derive_key_encode _ x), (derive_key_encode _ y) in Hx by done. unfold btree_shape.lt in Hx. rewrite key_less_encode in Hx by done. apply size_less_spec in Hx. lia.
Qed.
(** [e] is a smallest extent of [l] that has [n] blocks. *)
Definition best_fit (n : Z) (l : list extent_t) (e : extent_t) : Prop := e ∈ l /\ n <= size e /\ forall e', e' ∈ l -> n <= size e' -> size e <= size e'.
Lemma lower_best n l r e : StronglySorted (fun e e' => size e <= size e') l -> (forall e, e ∈ l -> size_less e (Extent invalid_value n) = (size e <? n)) ->
  r = lower_index (fun e : extent_t => e) size_less (Extent invalid_value n) l -> l !! r = Some e -> best_fit n l e.
Proof.
  intros Hs Hless -> He. unfold lower_index in He. induction l as [|x l IH]; [done|]. apply StronglySorted_inv in Hs as [Hs Hx]. rewrite Forall_forall in Hx. cbn in He. rewrite Hless in He by set_solver. destruct (Z.ltb_spec (size x) n).
  - destruct (IH Hs) as (Hin & Hn & Hmin); [intros y Hy; apply Hless; set_solver|done|]. split_and!; [set_solver|done|]. intros y [->|Hy]%elem_of_cons Hny; [lia|by apply Hmin].
  - injection He as ->. split_and!; [set_solver|done|]. intros y [->|Hy]%elem_of_cons Hny; [done|by apply Hx].
Qed.
Lemma find_best_fit_spec sz W lp pp ls ps s n : state sz W lp pp ls ps s -> 0 < n <= 2 ^ 32 ->
  wp (find_best_fit n) s (fun c s' => exists id p, c = Some id /\ id ∉ ps.*1 /\ state sz W lp pp ls (ps ++ [(id, p)]) s' /\ calm s s' /\
    ((p = AtEnd /\ Forall (fun e => size e < n) lp) \/ exists r e, p = At r /\ ls !! r = Some e /\ best_fit n lp e)).
Proof.
  intros Hst Hn. assert (Forall (fun e => is_u64 (block e)) ls) as Hbl.
  { pose proof (state_bounds _ _ _ _ _ _ _ _ _ _ Hst) as (_ & _ & _ & _ & _ & _ & Hf). rewrite (gs_perm _ _ _ _ _ _ _ _ _ _ Hst). eapply Forall_impl; [exact Hf|]. by intros e [? _]. }
  set (r := lower_index (fun e : extent_t => e) size_less (Extent invalid_value n) ls).
  eapply wp_mono; [eapply (state_lift cfgp cfgq bs _ _ _ _ _ _ _ _ (fun c pp' ps' => exists id, c = Some id /\ id ∉ ps.*1 /\ pp' = pp /\ ps' = ps ++ [(id, nth_pos (length ls) r)]) Hst)|].
  - intros F m Hsh. unfold find_best_fit. assert (representable (Extent invalid_value n)) as Hrep by (split; cbn; unfold is_word, invalid_value, u64_max; lia).
    eapply wp_mono; [exact (side_lower_bound (size_side sz cfgp cfgq bs Hcfg lp pp) _ _ _ _ _ _ Hsh Hrep)|]. cbn beta. intros c s' (id & -> & Hid & Hsh' & Hq). eexists pp, _. split; [by exists id|done].
  - cbn beta. intros c s' (pp' & ps' & (id & -> & Hid & -> & ->) & Hst' & Hc). exists id, (nth_pos (length ls) r). split_and!; [done..|]. clear Hst' Hc Hid.
    assert (forall e, e ∈ ls -> size_less e (Extent invalid_value n) = (size e <? n)) as Hless by (intros e He; apply size_less_request; by apply (proj1 (Forall_forall _ _) Hbl)).
    unfold nth_pos. case_decide as Hr.
    + right. destruct (lookup_lt_is_Some_2 _ _ Hr) as [e He]. exists r, e. split_and!; [done..|]. pose proof (lower_best n ls r e (state_ordered _ _ _ _ _ _ _ Hst) Hless eq_refl He) as (Hin & Hle & Hmin).
      pose proof (gs_perm _ _ _ _ _ _ _ _ _ _ Hst) as Hperm. split_and!; [by rewrite <- Hperm|done|]. intros e' He'. rewrite <- Hperm in He'. by apply Hmin.
    + left. split; [done|]. assert (Forall (fun e => size_less e (Extent invalid_value n) = true) ls) as Hall.
      { clear -Hr. unfold r, lower_index in Hr. induction ls as [|x l IH]; [constructor|]. cbn in Hr. destruct (size_less x _) eqn:Hx; [constructor; [done|apply IH; lia]|lia]. }
      rewrite <- (gs_perm _ _ _ _ _ _ _ _ _ _ Hst). apply Forall_forall. intros e He. pose proof (proj1 (Forall_forall _ _) Hall e He) as Ht. cbn beta in Ht. rewrite Hless in Ht by done. by apply Z.ltb_lt.
Qed.

(** The blocks [b, b + n) were allocated. *)
Definition given sz W kp ks s n sz' b s' : Prop := exists W', 0 <= b /\ grown W b n W' /\ (forall i, b <= i < b + n -> i ∉ dom W) /\ good sz' W' kp ks s' /\ evolves sz s sz' s'.

(** The beginning of an extent is handed out, the rest is freed. *)
Lemma give_front sz0 s0 sz W W' kp ks s b m n : grown W b m W' -> (forall i, b <= i < b + m -> i ∉ dom W) -> good sz W' kp ks s -> 0 <= b -> b + m <= 2 ^ 32 -> 0 < n <= m -> evolves sz0 s0 sz s ->
  wp (free_rest b n (u64 (m - n))) s (fun _ s' => given sz0 W kp ks s0 n sz b s').
Proof.
  intros Hgr Hd Hg Hb Hl Hn Hev. rewrite wrap_small by (unfold is_word; lia). eapply wp_mono; [apply free_rest_spec; [exact Hg|done|lia|lia|lia|]|].
  - intros i Hi. apply Hgr. right. lia.
  - cbn beta. intros _ s' [Hg' Hev']. exists (drop_blocks (b + n) (m - n) W'). split_and!; [done|by apply grown_shrink; [..|lia]|intros i Hi; apply Hd; lia|done|by eapply evolves_trans].
Qed.
Lemma steady_evolve sz s s' : steady s s' -> evolves sz s sz s'.
Proof. intros Hs. by apply options_evolve, totals_options, steady_totals. Qed.
Lemma given_close_size sz W kp ks s n sz' b s' id : given sz W kp (ks ++ [id]) s n sz' b s' -> id ∉ ks -> wp (on_size (destroy (Some id))) s' (fun _ s'' => given sz W kp ks s n sz' b s'').
Proof.
  intros (W' & Hb & Hgr & Hd & Hg & Hev) Hid. eapply wp_mono; [by apply (good_close_size cfgp cfgq bs Hcfg sz' W')|]. cbn beta. intros _ s'' [Hg' Hc]. exists W'. split_and!; try done. eapply evolves_trans; [exact Hev|by apply calm_evolve].
Qed.
Lemma given_close_position sz W kp ks s n sz' b s' id : given sz W (kp ++ [id]) ks s n sz' b s' -> id ∉ kp -> wp (on_position (destroy (Some id))) s' (fun _ s'' => given sz W kp ks s n sz' b s'').
Proof.
  intros (W' & Hb & Hgr & Hd & Hg & Hev) Hid. eapply wp_mono; [by apply (good_close_position cfgp cfgq bs Hcfg sz' W')|]. cbn beta. intros _ s'' [Hg' Hc]. exists W'. split_and!; try done. eapply evolves_trans; [exact Hev|by apply calm_evolve].
Qed.

Lemma allocate_best_fit_spec sz W lp pp ls ps s n : state sz W lp pp ls ps s -> 0 < n <= 2 ^ 32 ->
  wp (allocate_best_fit n) s (fun r s' => match r with
    | Some b => given sz W pp.*1 ps.*1 s n sz b s' /\ exists e, best_fit n lp e /\ b = block e
    | None => exists ps', ps'.*1 = ps.*1 /\ state sz W lp pp ls ps' s' /\ Forall (fun e => size e < n) lp /\ evolves sz s sz s'
    end).
Proof.
  intros Hst Hn. unfold allocate_best_fit. wp_step. eapply wp_mono; [by apply find_best_fit_spec|]. cbn beta. intros c s1 (idq & p & -> & Hnq & Hst1 & Hc1 & Hp). apply wp_scoped. wp_step.
  eapply wp_mono; [eapply (state_at_end_size cfgp cfgq bs Hcfg); [exact Hst1|by apply find_snoc]|]. cbn beta. intros b s2 (-> & Hst2 & Hc2). destruct Hp as [[-> Hall]|(q & x & -> & Hx & Hbest)].
  { rewrite bool_decide_true by done. wp_step. eapply wp_mono; [eapply (state_close_size cfgp cfgq bs Hcfg); [exact Hst2|by rewrite fmap_app|done]|]. cbn beta. intros _ s3 (ps' & Hks & Hst3 & Hq3).
    exists ps'. split_and!; [done..|]. apply steady_evolve. etrans; [apply Hc1|]. etrans; [apply Hc2|apply Hq3]. }
  rewrite bool_decide_false by done. wp_step. eapply wp_mono; [eapply (state_get_size cfgp cfgq bs Hcfg); [exact Hst2|exists q; split; [by apply find_snoc|done]]|]. cbn beta. intros y s3 (-> & Hst3 & Hc3).
  pose proof Hbest as (Hin & Hle & _). wp_step. wp_step. pose proof (state_range _ _ _ _ _ _ _ _ _ _ _ Hst Hin) as (Hr1 & Hr2 & Hr3).
  wp_step. eapply wp_mono; [by eapply (find_position_entry_spec cfgp cfgq bs Hcfg)|]. cbn beta. intros c s4 (idp & r & -> & Hnp & Hrl & Hst4 & Hc4). apply wp_scoped.
  wp_step. eapply wp_mono; [eapply (allocate_extent_spec cfgp cfgq bs Hcfg); [exact Hst4|exists r; split; [by apply find_snoc|done]|exists q; split; [by apply find_snoc|done]]|]. cbn beta. intros _ s5 (W' & Hgr & Hd & Hg5 & Ht5 & _).
  rewrite !fmap_app in Hg5. cbn in Hg5. assert (evolves sz s sz s5) as Hev.
  { eapply evolves_trans; [apply (calm_evolve _ s s4); by repeat (etrans; [eassumption|])|]. by apply options_evolve, totals_options. }
  wp_step. eapply wp_mono; [eapply give_front; [exact Hgr|exact Hd|exact Hg5|done|done|lia|exact Hev]|]. cbn beta. intros _ s6 Hgv. wp_step.
  eapply wp_mono; [by eapply given_close_position|]. cbn beta. intros _ s7 Hgv7. eapply wp_mono; [by eapply given_close_size|]. cbn beta. intros _ s8 Hgv8. split; [done|]. by exists x.
Qed.

(** ** The end of the file *)

Lemma allocate_last_spec sz W lp pp ls ps s n : state sz W lp pp ls ps s -> 0 < n <= 2 ^ 32 -> Forall (fun e => size e < n) lp -> space sz (m_min_chunk s + 2 * n) s ->
  wp (allocate_last n) s (fun r s' => match r with
    | Some b => exists sz', sz <= sz' <= sz + m_min_chunk s + 2 * n /\ given sz W pp.*1 ps.*1 s n sz' b s'
    | None => good sz W pp.*1 ps.*1 s' /\ evolves sz s sz s'
    end).
Proof.
  intros Hst Hn Hall Hsp. pose proof (good_facts _ _ _ _ _ (good_state _ _ _ _ _ _ _ Hst)) as (Hsz & Hbs & _ & _ & _ & Hch & _).
  unfold allocate_last. wp_step. eapply wp_mono; [by apply (state_create_position cfgp cfgq bs Hcfg seek_max)|]. cbn beta. intros c s1 (idp & -> & Hnp & Hst1 & Hc1).
  apply wp_scoped. set (pp1 := pp ++ _) in *. assert (settled_at idp pp1 lp) as Hset by by apply settled_nth. assert (pp1.*1 = pp.*1 ++ [idp]) as Hk1 by (unfold pp1; by rewrite fmap_app).
  wp_step. destruct Hset as [Hend|(x & Hat)].
  { eapply wp_mono; [by eapply (state_at_end_position cfgp cfgq bs Hcfg)|]. cbn beta. intros b s2 (-> & Hst2 & Hc2). rewrite bool_decide_true by done. wp_step.
    eapply wp_mono; [eapply (good_close_position cfgp cfgq bs Hcfg _ _ pp.*1 ps.*1); [rewrite <- Hk1; by eapply good_state|done]|]. cbn beta. intros _ s3 [Hg3 Hc3]. split; [done|]. apply calm_evolve. by etrans; [|etrans]. }
  pose proof Hat as (r & Hr & He). eapply wp_mono; [by eapply (state_at_end_position cfgp cfgq bs Hcfg)|]. cbn beta. intros b s2 (-> & Hst2 & Hc2). rewrite bool_decide_false by done.
  wp_step. eapply wp_mono; [by eapply (state_get_position cfgp cfgq bs Hcfg)|]. cbn beta. intros y s3 (-> & Hst3 & Hc3). assert (x ∈ lp) as Hin by by eapply list_elem_of_lookup_2. pose proof (state_range _ _ _ _ _ _ _ _ _ _ _ Hst Hin) as Hrg.
  pose proof (proj1 (Forall_forall _ _) Hall x Hin) as Hlt. cbn beta in Hlt. pose proof Hrg as (Hr1 & Hr2 & Hr3). wp_step. wp_step. wp_step.
  eapply wp_mono; [by apply borders_end_spec|]. cbn beta. intros t s' [-> ->]. pose proof (state_disk _ _ _ _ _ _ _ _ _ _ Hst3) as (_ & _ & Hdz & _). rewrite Hdz.
  assert (evolves sz s sz s3) as Hev3 by (apply calm_evolve; by repeat (etrans; [eassumption|])). destruct (Z.eqb_spec (block x + size x) sz) as [Hend|]; cbn [negb].
  2: { wp_step. eapply wp_mono; [eapply (good_close_position cfgp cfgq bs Hcfg _ _ pp.*1 ps.*1); [rewrite <- Hk1; by eapply good_state|done]|]. cbn beta. intros _ s4 [Hg4 Hc4]. split; [done|]. eapply evolves_trans; [exact Hev3|by apply calm_evolve]. }
  wp_step. eapply wp_mono; [by eapply (find_size_entry_spec cfgp cfgq bs Hcfg)|]. cbn beta. intros c s4 (idq & q & -> & Hnq & Hq & Hst4 & Hc4). apply wp_scoped. rewrite (wrap_small 64 (n - size x)) by (unfold is_word; lia).
  assert (evolves sz s sz s4) as Hev4 by (eapply evolves_trans; [exact Hev3|by apply calm_evolve]). assert (m_min_chunk s4 = m_min_chunk s) as Hmc by apply Hev4.
  wp_step. eapply wp_mono; [eapply allocate_from_engine_spec; [exact Hst4|lia|eapply space_evolve; [exact Hsp|lia|lia|rewrite Hmc; lia|exact Hev4|done]]|]. cbn beta zeta. set (k := new_chunk _ s4).
  intros y s5 (W1 & -> & Hk & Hgr1 & Hd1 & Hst5 & Hev5 & _). rewrite Hmc in Hk. destruct Hsp as (_ & _ & Hsp). wp_step. eapply wp_mono; [apply extents_touch_spec; [done|repeat split; cbn; lia]|]. cbn beta. intros t s' [-> ->]. cbn [block size]. wp_step. wp_step.
  wp_step. eapply wp_mono; [eapply (allocate_extent_spec cfgp cfgq bs Hcfg); [exact Hst5|exact Hat|exists q; split; [by apply find_snoc|done]]|]. cbn beta. intros _ s6 (W2 & Hgr2 & Hd2 & Hg6 & Ht6 & _).
  rewrite fmap_app, Hk1 in Hg6. cbn in Hg6. wp_step. eapply wp_mono; [eapply (give_front sz s (sz + k) W W2 _ _ _ (block x) (size x + k) n); [| |exact Hg6|done|lia|lia|]|].
  - destruct Hgr1 as [Hs1 Hdom1]. destruct Hgr2 as [Hs2 Hdom2]. split; [by etrans|]. intros i. rewrite Hdom2, Hdom1. split; [intros [[?|?]|?]; [by left|right; lia|right; lia]|]. intros [?|?]; [by left; left|]. destruct (decide (i < sz)); [right; lia|left; right; lia].
  - intros i Hi. destruct (decide (i < sz)) as [Hlt'|]; [|apply Hd1; lia]. intros Hw. apply (Hd2 i); [lia|]. apply Hgr1. by left.
  - eapply evolves_trans; [exact Hev4|]. eapply evolves_trans; [exact Hev5|]. by apply options_evolve, totals_options.
  - cbn beta. intros _ s7 Hgv. wp_step. eapply wp_mono; [by eapply given_close_size|]. cbn beta. intros _ s8 Hgv8. eapply wp_mono; [by eapply given_close_position|]. cbn beta. intros _ s9 Hgv9. exists (sz + k). split; [lia|done].
Qed.

(** ** [allocate] *)

Lemma given_from sz0 s0 sz W kp ks s n sz' b s' : evolves sz0 s0 sz s -> given sz W kp ks s n sz' b s' -> given sz0 W kp ks s0 n sz' b s'.
Proof. intros Hev (W' & Hb & Hgr & Hd & Hg & Hev'). exists W'. split_and!; try done. by eapply evolves_trans. Qed.
Lemma da_allocate_spec sz W kp ks s n : good sz W kp ks s -> 0 < n -> space sz (2 * m_min_chunk s + 12 + 2 * n) s ->
  wp (allocate n) s (fun b s' => exists sz', sz <= sz' <= sz + 2 * m_min_chunk s + 12 + 2 * n /\ given sz W kp ks s n sz' b s').
Proof.
  intros Hg Hn Hsp. pose proof (good_facts _ _ _ _ _ Hg) as (Hsz & Hbs & _ & _ & _ & Hch & _). unfold allocate. wp_step. wp_step. wp_step.
  eapply wp_mono; [apply lazy_initialize_spec; [exact Hg|eapply space_evolve; [exact Hsp|lia|lia|lia|by apply options_evolve|done]]|]. cbn beta. intros _ s1 (sz1 & Hz1 & Hg1 & Hev1).
  wp_step. eapply wp_mono; [by apply (fix_freelist_spec cfgp cfgq bs Hcfg)|]. cbn beta. intros _ s2 (Hg2 & Ho2 & _). pose proof (evolves_trans _ _ _ _ _ _ Hev1 (options_evolve sz1 _ _ Ho2)) as Hev2.
  assert (m_min_chunk s2 = m_min_chunk s) as Hmc by apply Hev2. assert (0 < n <= 2 ^ 32) as Hn32 by (destruct Hsp as (_ & _ & ?); lia). destruct Hg2 as (lp & pp & ls & ps & <- & <- & Hst2).
  unfold or_else. wp_step. eapply wp_mono; [by apply allocate_best_fit_spec|]. cbn beta. intros [b|] s3.
  { intros [Hgv _]. wp_step. exists sz1. split; [lia|]. by eapply given_from. }
  intros (ps3 & Hks3 & Hst3 & Hall & Hev3). pose proof (evolves_trans _ _ _ _ _ _ Hev2 Hev3) as Hev30. assert (m_min_chunk s3 = m_min_chunk s) as Hmc3 by apply Hev30.
  wp_step. eapply wp_mono; [eapply allocate_last_spec; [exact Hst3|done|done|eapply space_evolve; [exact Hsp|lia|lia|lia|exact Hev30|done]]|]. cbn beta. intros [b|] s4.
  { intros (sz4 & Hz4 & Hgv). wp_step. exists sz4. split; [lia|]. rewrite <- Hks3. by eapply given_from. }
  intros (Hg4 & Hev4). pose proof (evolves_trans _ _ _ _ _ _ Hev30 Hev4) as Hev40. assert (m_min_chunk s4 = m_min_chunk s) as Hmc4 by apply Hev40. destruct Hg4 as (lp4 & pp4 & ls4 & ps4 & Hkp4 & Hks4 & Hst4).
  wp_step. eapply wp_mono; [eapply allocate_from_engine_spec; [exact Hst4|lia|eapply space_evolve; [exact Hsp|lia|lia|lia|exact Hev40|done]]|]. cbn beta zeta. set (k := new_chunk n s4).
  intros x s5 (W5 & -> & Hk & Hgr & Hd & Hst5 & Hev5 & _). destruct Hsp as (_ & _ & Hl). cbn [block size]. wp_step.
  eapply wp_mono; [eapply (give_front sz s (sz1 + k) W W5 pp.*1 ps.*1); [exact Hgr|exact Hd| |lia|lia|lia|by eapply evolves_trans]|].
  - exists lp4, pp4, ls4, ps4. split_and!; [done|by rewrite Hks4|done].
  - cbn beta. intros _ s6 Hgv. wp_step. exists (sz1 + k). split; [lia|done].
Qed.
End allocate.
End default_allocate.
