(* ===== verification/DefaultReallocate.v ===== *)
(** * Reallocation in the default allocator

    An extent grows into free space on its right or on its left, to the end of
    the file, or moves; the contents of its blocks stay the same. *)

From Stdlib Require Import Strings.Byte.
From S2P Require Import Prelude MathOps Serialization Blocks EngineSpec LinearIO FreeList Allocator MetaAllocator BTreeNodes BTree BTreeShape BTreeStore BTreeSearch BTreeCursors BTreeInsert BTreeOps BTreeSession BTreeRemove BTreeErase BTreeHeight BTreeHistory RawBTree TypedBTree DefaultAllocator DefaultTrees DefaultState DefaultFree DefaultSpace DefaultAllocate.

Module default_reallocate.
Import btree btree_shape btree_store btree_cursors btree_ops btree_session btree_erase btree_history raw_btree typed_btree default_allocator default_trees default_state default_free default_space default_allocate.

(** ** Copies of blocks *)

Lemma disk_block_bytes d i d' i' : wf_disk d -> wf_disk d' -> in_disk d i -> in_disk d' i' -> d_bs d' = d_bs d ->
  (forall o, 0 <= o < d_bs d -> zget (flat d') (i' * d_bs d + o) = zget (flat d) (i * d_bs d + o)) -> disk_block d' i' = disk_block d i.
Proof.
  intros Hwf Hwf' Hi Hi' Hbs Hz. pose proof (wf_bs_pos _ Hwf). pose proof (length_disk_block _ _ Hwf Hi) as Hl. pose proof (length_disk_block _ _ Hwf' Hi') as Hl'.
  assert (forall (b : bytes) n, zlen b = n -> slice 0 n b = b) as Hid by (intros b n <-; unfold slice; rewrite drop_0, Nat2Z.id; by apply firstn_all).
  rewrite <- (Hid (disk_block d i) _ Hl), <- (Hid (disk_block d' i') _ Hl'). rewrite <- !flat_slice by (done || lia). rewrite Hbs, !Z.add_0_r.
  apply list_eq. intros j. rewrite !lookup_slice. case_decide as Hj; [|done]. specialize (Hz (Z.of_nat j) ltac:(lia)). unfold zget in Hz. unfold in_disk in *. rewrite !Z2Nat.inj_add, !Nat2Z.id in Hz by nia. done.
Qed.

Section copy.
Context {E : Type} `{EngineSpec E}.
Implicit Types (e : E).
Lemma copy_blocks_disk e i j n : eng_inv e -> 0 <= i -> 0 <= j -> 0 <= n -> i + n <= d_size (eng_view e) -> j + n <= d_size (eng_view e) ->
  wp (copy_blocks i j n) e (fun _ e' => eng_inv e' /\ d_geo (eng_view e') = d_geo (eng_view e) /\ d_size (eng_view e') = d_size (eng_view e) /\
    (forall k, 0 <= k < n -> disk_block (eng_view e') (j + k) = disk_block (eng_view e) (i + k)) /\
    (forall k, in_disk (eng_view e) k -> ~ (j <= k < j + n) -> disk_block (eng_view e') k = disk_block (eng_view e) k)).
Proof.
  intros Hinv Hi Hj Hn Hin Hjn. pose proof (spec_wf e Hinv) as Hwf. pose proof (wf_bs_pos _ Hwf) as Hbs. pose proof (length_flat _ Hwf) as Hlf. unfold copy_blocks, engine_geometry. wp_step. wp_step.
  rewrite !block_address, block_bytes by (done || lia). wp_steps. eapply wp_mono; [apply copy_spec; [done|nia..]|]. cbn beta. intros _ e' [Hinv' (Hwf' & Hg & Hs & Hf)].
  assert (d_bs (eng_view e') = d_bs (eng_view e)) as Hb by (unfold d_bs; by rewrite Hg). set (b := d_bs (eng_view e)) in *.
  assert (zlen (slice (i * b) (n * b) (flat (eng_view e))) = n * b) as Hls by (rewrite length_slice by nia; done).
  split_and!; try done.
  - intros k Hk. apply disk_block_bytes; try done; [unfold in_disk; lia|unfold in_disk; lia|]. fold b. intros o Ho. rewrite Hf, zget_splice by nia. rewrite Hls, decide_True, zget_slice by nia. f_equal. lia.
  - intros k Hk Hni. apply disk_block_bytes; try done; [unfold in_disk in *; lia|]. fold b. intros o Ho. unfold in_disk in Hk. rewrite Hf, zget_splice by nia. rewrite Hls, decide_False by nia. done.
Qed.
End copy.

Section reallocate.
Context {E : Type} `{EngineSpec E} (cfgp cfgq : config) (bs : Z) (Hcfg : configs_ok cfgp cfgq bs).
Abbreviation D := (default_allocator E).
Abbreviation state := (state cfgp cfgq bs).
Abbreviation good := (good cfgp cfgq bs).
Abbreviation given := (given cfgp cfgq bs).
Abbreviation space := (space bs).
Abbreviation disk_of s := (eng_view (fl_engine (meta_list (m_meta s)))).
Implicit Types (W F : gmap Z bytes) (n m sz : Z) (lp ls : list extent_t) (pp ps : list (nat * position)) (s : D) (e x : extent_t) (id : nat) (U : gset Z) (stack : list Z) (kp ks : list nat).

(** [W'] is [W] after a copy of [n] blocks from [i] to [j]. *)
Definition copied W i j n W' : Prop := dom W' = dom W /\ (forall k, 0 <= k < n -> W' !! (j + k) = W !! (i + k)) /\ forall k, ~ (j <= k < j + n) -> W' !! k = W !! k.
Lemma copy_blocks_good sz W kp ks s i j n : good sz W kp ks s -> 0 < n -> (forall k, i <= k < i + n -> k ∈ dom W) -> (forall k, j <= k < j + n -> k ∈ dom W) ->
  wp (on_disk (copy_blocks i j n)) s (fun _ s' => exists W', copied W i j n W' /\ good sz W' kp ks s' /\ evolves sz s sz s').
Proof.
  intros (lp & pp & ls & ps & Hkp & Hks & Hst) Hn Hi Hj. pose proof (state_disk _ _ _ _ _ _ _ _ _ _ Hst) as (Hwf & He & Hsz & Hbs & Hc & Hin). pose proof Hst as [_ _ _ _ Hdis _ Htot Hlim _].
  pose proof (Hin i (or_introl (Hi i ltac:(lia)))). pose proof (Hin j (or_introl (Hj j ltac:(lia)))). pose proof (Hin (i + n - 1) (or_introl (Hi (i + n - 1) ltac:(lia)))). pose proof (Hin (j + n - 1) (or_introl (Hj (j + n - 1) ltac:(lia)))).
  apply wp_on_meta, wp_on_meta_list, wp_on_engine. eapply wp_mono; [apply (copy_blocks_disk _ i j n He); lia|]. cbn beta. intros _ e' (He' & Hg & Hs & Hnew & Hold). set (s' := set_meta _ s).
  set (W' := set_to_map (C := gset Z) (M := gmap Z bytes) (fun k => (k, disk_block (eng_view e') k)) (dom W)).
  assert (forall k b, W' !! k = Some b <-> k ∈ dom W /\ disk_block (eng_view e') k = b) as HW'.
  { intros k b. unfold W'. rewrite lookup_set_to_map by (intros ? ? _ _; by cbn). split; [intros (l & Hl & Heq); injection Heq as -> <-; done|]. intros [Hk <-]. by exists k. }
  assert (dom W' = dom W) as Hdom. { apply set_eq. intros k. rewrite !elem_of_dom. split; [intros [b [Hk _]%HW']; by apply elem_of_dom in Hk|]. intros Hk%elem_of_dom. eexists. by apply HW'. }
  assert (forall k l, k ∈ dom W -> l ∈ dom W -> disk_block (eng_view e') k = disk_block (disk_of s) l -> W' !! k = W !! l) as Hsame.
  { intros k l Hk Hl Heq. apply elem_of_dom in Hl as [b Hb]. rewrite Hb. apply HW'. split; [done|]. rewrite Heq. by apply Hc. }
  exists W'. split; [unfold copied; split_and!; [done| |]|split; [exists lp, pp, ls, ps; split_and!; [done|done|]|by apply options_evolve]].
  - intros k Hk. apply Hsame; [apply Hj; lia|apply Hi; lia|]. by apply Hnew.
  - intros k Hk. destruct (decide (k ∈ dom W)) as [Hd|Hd]; [apply Hsame; [done|done|]; apply Hold; [specialize (Hin k (or_introl Hd)); unfold in_disk; lia|done]|].
    assert (k ∉ dom W') as Hd' by by rewrite Hdom. apply not_elem_of_dom in Hd, Hd'. congruence.
  - eapply (state_meta cfgp cfgq bs sz sz W); try done.
    + rewrite <- (size_dom W'), Hdom, size_dom. done.
    + cbn. congruence.
    + cbn. unfold d_bs. by rewrite Hg.
    + intros k b [_ Hb]%HW'. done.
    + intros k Hk. rewrite Hdom. by apply Hdis.
    + intros U stack Hms HU. exists U, stack. assert (forall k, in_disk (disk_of s) k -> k ∉ dom W -> disk_block (eng_view e') k = disk_block (disk_of s) k) as Hout by (intros k Hk HkW; apply Hold; [done|]; intros Hjk; by apply HkW, Hj).
      split_and!.
      * apply meta_engine_op; try done. intros k Hk. apply Hout; [apply (ms_disk _ _ _ Hms); by left|]. intros HkW. apply (ms_disjoint _ _ _ Hms k Hk), HU. by left.
      * intros k. rewrite Hdom. apply HU.
      * intros k HkU HkW Hkf. rewrite Hdom. split_and!; [done|done|]. apply Hout; [|done]. apply (ms_disk _ _ _ Hms). by right.
Qed.

(** The blocks [b, b + n) became [b', b' + m), their contents are the same. *)
Definition moved sz W kp ks s b n m sz' b' s' : Prop := exists W', 0 <= b' /\ grown (drop_blocks b n W) b' m W' /\ (forall i, b' <= i < b' + m -> i ∉ dom (drop_blocks b n W)) /\
  (forall k, 0 <= k < Z.min n m -> W' !! (b' + k) = W !! (b + k)) /\ good sz' W' kp ks s' /\ evolves sz s sz' s'.
Lemma moved_close_size sz W kp ks s b n m sz' b' s' id : moved sz W kp (ks ++ [id]) s b n m sz' b' s' -> id ∉ ks -> wp (on_size (destroy (Some id))) s' (fun _ s'' => moved sz W kp ks s b n m sz' b' s'').
Proof.
  intros (W' & ? & ? & ? & ? & Hg & Hev) Hid. eapply wp_mono; [by apply (good_close_size cfgp cfgq bs Hcfg sz' W')|]. cbn beta. intros _ s'' [Hg' Hc]. exists W'. split_and!; try done. eapply evolves_trans; [exact Hev|by apply calm_evolve].
Qed.
Lemma moved_close_position sz W kp ks s b n m sz' b' s' id : moved sz W (kp ++ [id]) ks s b n m sz' b' s' -> id ∉ kp -> wp (on_position (destroy (Some id))) s' (fun _ s'' => moved sz W kp ks s b n m sz' b' s'').
Proof.
  intros (W' & ? & ? & ? & ? & Hg & Hev) Hid. eapply wp_mono; [by apply (good_close_position cfgp cfgq bs Hcfg sz' W')|]. cbn beta. intros _ s'' [Hg' Hc]. exists W'. split_and!; try done. eapply evolves_trans; [exact Hev|by apply calm_evolve].
Qed.
Lemma moved_from sz0 s0 sz W kp ks s b n m sz' b' s' : evolves sz0 s0 sz s -> moved sz W kp ks s b n m sz' b' s' -> moved sz0 W kp ks s0 b n m sz' b' s'.
Proof. intros Hev (W' & ? & ? & ? & ? & ? & Hev'). exists W'. split_and!; try done. by eapply evolves_trans. Qed.
(** The extent grew to the right. *)
Lemma given_moved sz W kp ks s b n m sz' s' : given sz W kp ks s (m - n) sz' (b + n) s' -> 0 <= b -> 0 < n < m -> (forall i, b <= i < b + n -> i ∈ dom W) -> moved sz W kp ks s b n m sz' b s'.
Proof.
  intros (W' & Hb & [Hsub Hdom] & Hd & Hg & Hev) Hb0 Hn Hin. exists W'. split_and!; try done.
  - split; [etrans; [apply drop_blocks_sub|done]|]. intros i. rewrite Hdom, dom_drop_blocks. specialize (Hin i). destruct (decide (b <= i < b + n)) as [Hi|Hi]; [split; [intros _; right; lia|intros _; left; by apply Hin]|].
    split; [intros [?|?]; [by left|right; lia]|]. intros [[? _]|?]; [by left|right; lia].
  - intros i Hi. rewrite dom_drop_blocks. intros [HiW Hni]. apply (Hd i); [lia|done].
  - intros k Hk. destruct (proj1 (elem_of_dom W (b + k)) (Hin (b + k) ltac:(lia))) as [x Hx]. rewrite Hx. by eapply lookup_weaken.
Qed.

(** ** Growing in place *)

Lemma extent_if_spec sz W lp pp ls ps s id (p : extent_t -> M D bool) (f : extent_t -> bool) : state sz W lp pp ls ps s -> settled_at id pp lp ->
  (forall x s1, state sz W lp pp ls ps s1 -> in_range x -> wp (p x) s1 (fun b s' => b = f x /\ s' = s1)) ->
  wp (extent_if (Some id) p) s (fun o s' => state sz W lp pp ls ps s' /\ calm s s' /\
    match o with Some x => at_entry id x pp lp /\ in_range x /\ f x = true | None => forall x, at_entry id x pp lp -> f x = false end).
Proof.
  intros Hst Hset Hp. unfold extent_if. wp_step. destruct Hset as [Hend|(x & r & Hr & Hx)]; (eapply wp_mono; [by eapply (state_at_end_position cfgp cfgq bs Hcfg)|]); cbn beta; intros b s1 (-> & Hst1 & Hc1).
  { rewrite bool_decide_true by done. wp_step. split_and!; [done..|]. intros x (r & Hr & _). congruence. }
  rewrite bool_decide_false by done. wp_step. eapply wp_mono; [eapply (state_get_position cfgp cfgq bs Hcfg); [exact Hst1|by exists r]|]. cbn beta. intros y s2 (-> & Hst2 & Hc2).
  assert (in_range x) as Hrg by (eapply state_range; [exact Hst|by eapply list_elem_of_lookup_2]). wp_step. eapply wp_mono; [by apply Hp|]. cbn beta. intros b s3 [-> ->]. wp_step. split_and!; [done|by etrans|].
  destruct (f x) eqn:Hf; [split_and!; [by exists r|done|done]|]. intros y (r' & Hr' & Hy). rewrite Hr in Hr'. injection Hr' as ->. rewrite Hx in Hy. by injection Hy as ->.
Qed.

Lemma grow_right_spec sz W lp pp ls ps s id b n need : state sz W lp pp ls ps s -> settled_at id pp lp -> in_range (Extent b n) -> 0 < need ->
  wp (grow_right (Extent b n) need (Some id)) s (fun r s' => match r with
    | Some b' => b' = b /\ given sz W pp.*1 ps.*1 s need sz (b + n) s'
    | None => state sz W lp pp ls ps s' /\ calm s s' /\ forall x, at_entry id x pp lp -> b + n = block x -> size x < need
    end).
Proof.
  intros Hst Hset Hrb Hneed. unfold grow_right. wp_step. eapply wp_mono; [eapply (extent_if_spec _ _ _ _ _ _ _ _ _ (fun x => (b + n =? block x) && (need <=? size x)) Hst Hset)|].
  { intros x s1 _ Hrx. unfold and_then. wp_step. eapply wp_mono; [by apply extents_touch_spec|]. cbn beta. intros t s' [-> ->]. by wp_step. }
  cbn beta. intros [x|] s1 (Hst1 & Hc1 & Hx).
  2: { wp_step. split_and!; [done..|]. intros x Hat Heq. specialize (Hx x Hat). apply andb_false_iff in Hx as [?%Z.eqb_neq|?%Z.leb_gt]; [done|lia]. }
  destruct Hx as (Hat & (Hr1 & Hr2 & Hr3) & [Ht%Z.eqb_eq Hle%Z.leb_le]%andb_true_iff). assert (x ∈ lp) as Hin by (destruct Hat as (r & _ & ?); by eapply list_elem_of_lookup_2).
  wp_step. eapply wp_mono; [by eapply (find_size_entry_spec cfgp cfgq bs Hcfg)|]. cbn beta. intros c s2 (idq & q & -> & Hnq & Hq & Hst2 & Hc2). apply wp_scoped.
  wp_step. eapply wp_mono; [eapply (allocate_extent_spec cfgp cfgq bs Hcfg); [exact Hst2|exact Hat|exists q; split; [by apply find_snoc|done]]|]. cbn beta. intros _ s3 (W' & Hgr & Hd & Hg3 & Ht3 & _).
  rewrite fmap_app in Hg3. cbn in Hg3. wp_step. eapply wp_mono; [eapply (give_front cfgp cfgq bs Hcfg sz s); [exact Hgr|exact Hd|exact Hg3|done|done|lia|]|].
  - eapply evolves_trans; [apply (calm_evolve _ s s2); by etrans|]. by apply options_evolve, totals_options.
  - cbn beta. intros _ s4 Hgv. wp_step. rewrite Ht. eapply wp_mono; [by eapply (given_close_size cfgp cfgq bs Hcfg)|]. cbn beta. by intros _ s5 ?.
Qed.
Lemma grow_left_spec sz W lp pp ls ps s id b n m : state sz W lp pp ls ps s -> settled_at id pp lp -> in_range (Extent b n) -> n < m -> (forall i, b <= i < b + n -> i ∈ dom W) ->
  wp (grow_left (Extent b n) m (m - n) (Some id)) s (fun r s' => match r with
    | Some b' => moved sz W pp.*1 ps.*1 s b n m sz b' s'
    | None => state sz W lp pp ls ps s' /\ calm s s'
    end).
Proof.
  intros Hst Hset Hrb Hm HbW. unfold grow_left. wp_step. eapply wp_mono; [eapply (extent_if_spec _ _ _ _ _ _ _ _ _ (fun x => (block x + size x =? b) && (m - n <=? size x)) Hst Hset)|].
  { intros x s1 _ Hrx. unfold and_then. wp_step. eapply wp_mono; [by apply extents_touch_spec|]. cbn beta. intros t s' [-> ->]. by wp_step. }
  cbn beta. intros [x|] s1 (Hst1 & Hc1 & Hx); [|by wp_step]. destruct Hrb as (Hb1 & Hb2 & Hb3). cbn [block size] in *.
  destruct Hx as (Hat & (Hr1 & Hr2 & Hr3) & [Ht%Z.eqb_eq Hle%Z.leb_le]%andb_true_iff). assert (x ∈ lp) as Hin by (destruct Hat as (r & _ & ?); by eapply list_elem_of_lookup_2).
  wp_step. eapply wp_mono; [by eapply (find_size_entry_spec cfgp cfgq bs Hcfg)|]. cbn beta. intros c s2 (idq & q & -> & Hnq & Hq & Hst2 & Hc2). apply wp_scoped.
  wp_step. eapply wp_mono; [eapply (allocate_extent_spec cfgp cfgq bs Hcfg); [exact Hst2|exact Hat|exists q; split; [by apply find_snoc|done]]|]. cbn beta. intros _ s3 (W1 & [Hs1 Hd1] & Hfresh & Hg3 & Ht3 & _).
  rewrite fmap_app in Hg3. cbn in Hg3. wp_step. eapply wp_mono; [eapply (copy_blocks_good sz W1 _ _ s3 b (block x) n Hg3)|].
  { lia. } { intros k Hk. apply Hd1. left. by apply HbW. } { intros k Hk. apply Hd1. destruct (decide (k < b)); [right; lia|left; apply HbW; lia]. }
  cbn beta. intros _ s4 (W2 & (Hdom2 & Hnew2 & Hold2) & Hg4 & Hev4). rewrite wrap_small by (unfold is_word; lia). wp_step.
  eapply wp_mono; [eapply (free_rest_spec cfgp cfgq bs Hcfg); [exact Hg4|done|lia|lia|lia|]|].
  { intros i Hi. rewrite Hdom2. apply Hd1. destruct (decide (i < b)); [right; lia|left; apply HbW; lia]. }
  cbn beta. intros _ s5 [Hg5 Hev5]. wp_step. eapply wp_mono; [eapply (moved_close_size sz W pp.*1 ps.*1 s b n m sz (block x)); [|exact Hnq]|].
  2: { cbn beta. by intros _ s6 ?. }
  exists (drop_blocks (block x + m) (size x + n - m) W2). assert (evolves sz s sz s3) as Hev3 by (eapply evolves_trans; [apply (calm_evolve _ s s2); by etrans|by apply options_evolve, totals_options]).
  split_and!; [done|split|intros i Hi; rewrite dom_drop_blocks; intros [HiW Hni]; destruct (decide (i < b)); [apply (Hfresh i); [lia|done]|lia]| |done|eapply evolves_trans; [exact Hev3|by eapply evolves_trans]].
  - apply map_subseteq_spec. intros i y [Hy Hni]%lookup_drop_blocks. apply lookup_drop_blocks. assert (~ (block x <= i < b)) by (intros Hi; apply (Hfresh i); [lia|by apply elem_of_dom_2 in Hy]).
    split; [|lia]. rewrite Hold2 by lia. by eapply lookup_weaken.
  - intros i. rewrite !dom_drop_blocks, Hdom2, Hd1. split.
    + intros [[Hi|Hi] Hni]; [destruct (decide (b <= i < b + n)); [right; lia|left; done]|right; lia].
    + intros [[Hi Hni]|Hi]; [split; [by left|]; destruct (decide (i < b)); [intros ?; apply (Hfresh i); [lia|done]|lia]|]. split; [|lia]. destruct (decide (i < b)); [right; lia|left; apply HbW; lia].
  - intros k Hk. specialize (Hnew2 k ltac:(lia)). destruct (proj1 (elem_of_dom W (b + k)) (HbW (b + k) ltac:(lia))) as [y Hy]. rewrite Hy. apply lookup_drop_blocks. split; [|lia]. rewrite Hnew2. by eapply lookup_weaken.
Qed.

Definition given_within sz W kp ks s need first s' : Prop := exists sz', sz <= sz' <= sz + m_min_chunk s + 2 * need /\ given sz W kp ks s need sz' first s'.
Lemma grow_right_end_spec sz W lp pp ls ps s id b n need : state sz W lp pp ls ps s -> settled_at id pp lp -> in_range (Extent b n) -> 0 < need -> space sz (m_min_chunk s + 2 * need) s ->
  (forall x, at_entry id x pp lp -> b + n = block x -> size x < need) ->
  wp (grow_right_end (Extent b n) need (Some id)) s (fun r s' => match r with
    | Some b' => b' = b /\ given_within sz W pp.*1 ps.*1 s need (b + n) s'
    | None => state sz W lp pp ls ps s' /\ calm s s'
    end).
Proof.
  intros Hst Hset Hrb Hneed Hsp Hsmall. pose proof (good_facts cfgp cfgq bs _ _ _ _ _ (good_state _ _ _ _ _ _ _ _ _ _ Hst)) as (Hsz & Hbs & _ & _ & _ & Hch & _).
  unfold grow_right_end. wp_step. eapply wp_mono; [eapply (extent_if_spec _ _ _ _ _ _ _ _ _ (fun x => (b + n =? block x) && (block x + size x =? sz)) Hst Hset)|].
  { intros x s1 Hst1 Hrx. wp_step. eapply wp_mono; [by apply extents_touch_spec|]. cbn beta. intros t s' [-> ->]. cbn [block size]. destruct (b + n =? block x); cbn [andb]; [|by wp_step].
    eapply wp_mono; [by apply borders_end_spec|]. cbn beta. intros t s' [-> ->]. pose proof (state_disk _ _ _ _ _ _ _ _ _ _ Hst1) as (_ & _ & -> & _). done. }
  cbn beta. intros [x|] s1 (Hst1 & Hc1 & Hx); [|by wp_step]. destruct Hx as (Hat & (Hr1 & Hr2 & Hr3) & [Ht%Z.eqb_eq Hend%Z.eqb_eq]%andb_true_iff). assert (x ∈ lp) as Hin by (destruct Hat as (r & _ & ?); by eapply list_elem_of_lookup_2).
  specialize (Hsmall x Hat Ht). cbv zeta. rewrite (wrap_small 64 (need - size x)) by (pose proof Hsp as (_ & _ & ?); unfold is_word; lia). pose proof (calm_evolve sz _ _ Hc1) as Hev1. assert (m_min_chunk s1 = m_min_chunk s) as Hmc by apply Hev1.
  wp_step. eapply wp_mono; [eapply (allocate_from_engine_spec cfgp cfgq bs Hcfg); [exact Hst1|lia|eapply space_evolve; [exact Hsp|lia|lia|lia|exact Hev1|done]]|]. cbn beta zeta. set (k := new_chunk _ s1).
  intros y s2 (W1 & -> & Hk & Hgr1 & Hd1 & Hst2 & Hev2 & _). destruct Hsp as (_ & _ & Hsp). cbn [block size]. wp_step. eapply wp_mono; [apply extents_touch_spec; [done|repeat split; cbn; lia]|]. cbn beta. intros t s' [-> ->]. cbn [block size]. wp_step. wp_step.
  wp_step. eapply wp_mono; [by eapply (find_size_entry_spec cfgp cfgq bs Hcfg)|]. cbn beta. intros c s3 (idq & q & -> & Hnq & Hq & Hst3 & Hc3). apply wp_scoped.
  wp_step. eapply wp_mono; [eapply (allocate_extent_spec cfgp cfgq bs Hcfg); [exact Hst3|exact Hat|exists q; split; [by apply find_snoc|done]]|]. cbn beta. intros _ s4 (W2 & Hgr2 & Hd2 & Hg4 & Ht4 & _).
  rewrite fmap_app in Hg4. cbn in Hg4. rewrite wrap_small by (unfold is_word; lia). wp_step. eapply wp_mono; [eapply (free_rest_spec cfgp cfgq bs Hcfg (sz + k) W2); [exact Hg4|lia|lia|lia|lia|]|].
  { intros i Hi. apply Hgr2. left. apply Hgr1. right. lia. }
  cbn beta. intros _ s5 [Hg5 Hev5]. wp_step.
  assert (given sz W pp.*1 (ps.*1 ++ [idq]) s need (sz + k) (b + n) s5) as Hgv.
  { exists (drop_blocks (b + n + need) (size x + k - need) W2). replace (sz + (need - size x)) with (b + n + need) in Hg5 by lia. replace (k - (need - size x)) with (size x + k - need) in Hg5 by lia. split_and!; [lia| | |done|].
    - apply grown_shrink; [|..|lia].
      + destruct Hgr1 as [Hs1 Hdom1]. destruct Hgr2 as [Hs2 Hdom2]. split; [by etrans|]. intros i. rewrite Hdom2, Hdom1. split; [intros [[?|?]|?]; [by left|right; lia|right; lia]|]. intros [?|?]; [by left; left|]. destruct (decide (i < sz)); [right; lia|left; right; lia].
      + intros i Hi. destruct (decide (i < sz)) as [Hlt'|]; [|apply Hd1; lia]. intros Hw. apply (Hd2 i); [lia|]. apply Hgr1. by left.
    - intros i Hi. destruct (decide (i < sz)) as [Hlt'|]; [|apply Hd1; lia]. intros Hw. apply (Hd2 i); [lia|]. apply Hgr1. by left.
    - eapply evolves_trans; [exact Hev1|]. eapply evolves_trans; [exact Hev2|]. eapply evolves_trans; [by apply calm_evolve|]. eapply evolves_trans; [by apply options_evolve, totals_options|done]. }
  eapply wp_mono; [by eapply (given_close_size cfgp cfgq bs Hcfg)|]. cbn beta. intros _ s6 Hgv6. split; [done|]. exists (sz + k). split; [lia|done].
Qed.
Lemma grow_end_spec sz W lp pp ls ps s b n need : state sz W lp pp ls ps s -> in_range (Extent b n) -> 0 < need -> space sz (m_min_chunk s + 2 * need) s ->
  wp (grow_end (Extent b n) need) s (fun r s' => match r with
    | Some b' => b' = b /\ given_within sz W pp.*1 ps.*1 s need (b + n) s'
    | None => state sz W lp pp ls ps s' /\ calm s s'
    end).
Proof.
  intros Hst Hrb Hneed Hsp. pose proof (good_facts cfgp cfgq bs _ _ _ _ _ (good_state _ _ _ _ _ _ _ _ _ _ Hst)) as (Hsz & Hbs & _ & _ & _ & Hch & _).
  unfold grow_end. wp_step. eapply wp_mono; [by apply borders_end_spec|]. cbn beta. intros t s' [-> ->]. pose proof (state_disk _ _ _ _ _ _ _ _ _ _ Hst) as (_ & _ & -> & _). cbn [block size].
  destruct (Z.eqb_spec (b + n) sz) as [Hend|]; cbn [negb]; [|by wp_step].
  wp_step. eapply wp_mono; [by eapply (allocate_from_engine_spec cfgp cfgq bs Hcfg)|]. cbn beta zeta. set (k := new_chunk _ s). intros y s2 (W1 & -> & Hk & Hgr1 & Hd1 & Hst2 & Hev2 & _). destruct Hsp as (_ & _ & Hsp).
  wp_step. eapply wp_mono; [apply extents_touch_spec; [done|repeat split; cbn; lia]|]. cbn beta. intros t s' [-> ->]. cbn [block size]. wp_step. wp_step. wp_step.
  eapply wp_mono; [eapply (give_front cfgp cfgq bs Hcfg sz s (sz + k) W W1 pp.*1 ps.*1); [exact Hgr1|exact Hd1|by eapply good_state|lia|lia|lia|done]|]. cbn beta. intros _ s3 Hgv. wp_step. split; [done|]. rewrite Hend. exists (sz + k). split; [lia|done].
Qed.
Lemma given_within_moved sz W kp ks s0 s b n m s' : given_within sz W kp ks s (m - n) (b + n) s' -> evolves sz s0 sz s -> 0 <= b -> 0 < n < m -> (forall i, b <= i < b + n -> i ∈ dom W) ->
  exists sz', sz <= sz' <= sz + m_min_chunk s0 + 2 * m /\ moved sz W kp ks s0 b n m sz' b s'.
Proof.
  intros (sz' & Hz & Hgv) Hev Hb Hn Hin. exists sz'. assert (m_min_chunk s = m_min_chunk s0) as Hmc by apply Hev. split; [lia|]. eapply moved_from; [exact Hev|]. by apply given_moved.
Qed.

Lemma state_with_previous {X} (body : raw_cursor -> M D X) sz W lp pp ls ps idr s (Q : X -> D -> Prop) : state sz W lp pp ls ps s -> settled_at idr pp lp ->
  (forall id pp' s1, id ∉ pp.*1 -> pp'.*1 = pp.*1 ++ [id] -> state sz W lp pp' ls ps s1 -> evolves sz s sz s1 -> settled_at id pp' lp -> settled_at idr pp' lp ->
    (forall e, at_entry idr e pp' lp -> at_entry idr e pp lp) -> wp (body (Some id)) s1 (fun y s2 => wp (on_position (destroy (Some id))) s2 (fun _ => Q y))) ->
  wp (with_previous (Some idr) body) s Q.
Proof.
  intros Hst Hset Hbody. destruct (gs_trees _ _ _ _ _ _ _ _ _ _ Hst) as (F & Hsh & HW & HF). eapply (wp_with_previous cfgp cfgq bs Hcfg sz); [exact Hsh|done|by eapply state_entries_nodup|].
  intros id pp' s1 Hni Hk Hsh1 Hq1 Hset1 Hfind _. assert (idr ∈ pp.*1) as Hidr by (destruct Hset as [Hf|(e & r & Hf & _)]; by eapply find_in_keys).
  assert (find_cursor idr pp' = find_cursor idr pp) as Heq by (apply Hfind; by intros ->). unfold settled_at, at_entry in *. eapply Hbody; [exact Hni|exact Hk| |by apply steady_evolve, Hq1|done|by setoid_rewrite Heq|by setoid_rewrite Heq].
  eapply state_steady; [exact Hst|exact HW|done|done|apply Hq1].
Qed.
Lemma lower_bound_position sz W lp pp ls ps s b : state sz W lp pp ls ps s -> is_u64 b ->
  wp (on_position (lower_bound (V := extent_t) block index_ltb b)) s (fun c s' => exists id p, c = Some id /\ id ∉ pp.*1 /\ settled_at id (pp ++ [(id, p)]) lp /\ state sz W lp (pp ++ [(id, p)]) ls ps s' /\ evolves sz s sz s').
Proof.
  intros Hst Hb. destruct (gs_trees _ _ _ _ _ _ _ _ _ _ Hst) as (F & Hsh & HW & HF). eapply wp_mono; [exact (side_lower_bound (position_side sz cfgp cfgq bs Hcfg ls ps) b _ _ _ _ _ Hsh Hb)|]. cbn beta.
  intros c s' (id & -> & Hid & Hsh' & Hq). eexists id, _. split_and!; [done|done|by apply settled_nth| |by apply steady_evolve, Hq]. eapply state_steady; [exact Hst|exact HW|done|exact Hsh'|apply Hq].
Qed.
(** The result of a search for free space next to the extent. *)
Definition resized sz W kp ks s b n m (r : option Z) s' : Prop := match r with
  | Some b' => exists sz', sz <= sz' <= sz + m_min_chunk s + 2 * m /\ moved sz W kp ks s b n m sz' b' s'
  | None => good sz W kp ks s' /\ evolves sz s sz s'
  end.
Lemma resized_close_position sz W kp ks s b n m r s' id : resized sz W (kp ++ [id]) ks s b n m r s' -> id ∉ kp -> wp (on_position (destroy (Some id))) s' (fun _ s'' => resized sz W kp ks s b n m r s'').
Proof.
  intros Hr Hid. destruct r as [b'|].
  - destruct Hr as (sz' & Hz & Hm). eapply wp_mono; [by eapply moved_close_position|]. cbn beta. intros _ s'' Hm'. by exists sz'.
  - destruct Hr as [Hg Hev]. eapply wp_mono; [by apply (good_close_position cfgp cfgq bs Hcfg sz W)|]. cbn beta. intros _ s'' [Hg' Hc]. split; [done|]. eapply evolves_trans; [exact Hev|by apply calm_evolve].
Qed.

Lemma grow_in_place_spec sz W kp ks s b n m : good sz W kp ks s -> in_range (Extent b n) -> n < m -> (forall i, b <= i < b + n -> i ∈ dom W) -> space sz (m_min_chunk s + 2 * m) s ->
  wp (grow_in_place (Extent b n) m) s (fun r s' => resized sz W kp ks s b n m r s').
Proof.
  intros (lp & pp & ls & ps & <- & <- & Hst) Hrb Hm HbW Hsp. pose proof (good_facts cfgp cfgq bs _ _ _ _ _ (good_state _ _ _ _ _ _ _ _ _ _ Hst)) as (Hsz & Hbs & _ & _ & _ & Hch & _).
  pose proof Hrb as (Hb1 & Hb2 & Hb3). cbn [block size] in *. unfold grow_in_place. cbn [size]. rewrite wrap_small by (destruct Hsp as (_ & _ & ?); unfold is_word; lia).
  wp_step. cbn [block]. eapply wp_mono; [apply lower_bound_position; [exact Hst|split; lia]|]. cbn beta. intros c s1 (idr & p & -> & Hnr & Hset1 & Hst1 & Hev1). apply wp_scoped. set (pp1 := pp ++ _) in *.
  assert (pp1.*1 = pp.*1 ++ [idr]) as Hk1 by (unfold pp1; by rewrite fmap_app). eapply (wp_mono _ _ (fun r s' => resized sz W (pp.*1 ++ [idr]) ps.*1 s b n m r s')); [|intros r s' Hr; by apply resized_close_position].
  rewrite <- Hk1. wp_step. eapply wp_mono; [eapply grow_right_spec; [exact Hst1|done|done|lia]|]. cbn beta. intros [b'|] s2.
  { intros [-> Hgv]. wp_step. exists sz. split; [lia|]. eapply moved_from; [exact Hev1|]. apply given_moved; (done || lia). }
  intros (Hst2 & Hc2 & Hsmall). pose proof (evolves_trans _ _ _ _ _ _ Hev1 (calm_evolve sz _ _ Hc2)) as Hev2. eapply state_with_previous; [exact Hst2|done|]. intros idl pp2 s3 Hnl Hk2 Hst3 Hev23 Hset3 Hset3' Hback.
  pose proof (evolves_trans _ _ _ _ _ _ Hev2 Hev23) as Hev3. eapply (wp_mono _ _ (fun r s' => resized sz W (pp1.*1 ++ [idl]) ps.*1 s b n m r s')); [|intros r s' Hr; by apply resized_close_position].
  rewrite <- Hk2. wp_step. eapply wp_mono; [eapply grow_left_spec; [exact Hst3|done|done|done|done]|]. cbn beta. intros [b'|] s4.
  { intros Hmv. wp_step. exists sz. split; [lia|]. by eapply moved_from. }
  intros (Hst4 & Hc4). pose proof (evolves_trans _ _ _ _ _ _ Hev3 (calm_evolve sz _ _ Hc4)) as Hev4. assert (m_min_chunk s4 = m_min_chunk s) as Hmc4 by apply Hev4.
  wp_step. eapply wp_mono; [eapply grow_right_end_spec; [exact Hst4|done|done|lia|eapply space_evolve; [exact Hsp|lia|lia|lia|exact Hev4|done]|intros x Hx; by apply Hsmall, Hback]|]. cbn beta. intros [b'|] s5.
  { intros [-> Hgv]. wp_step. eapply given_within_moved; (done || lia). }
  intros (Hst5 & Hc5). pose proof (evolves_trans _ _ _ _ _ _ Hev4 (calm_evolve sz _ _ Hc5)) as Hev5. assert (m_min_chunk s5 = m_min_chunk s) as Hmc5 by apply Hev5.
  eapply wp_mono; [eapply grow_end_spec; [exact Hst5|done|lia|eapply space_evolve; [exact Hsp|lia|lia|lia|exact Hev5|done]]|]. cbn beta. intros [b'|] s6.
  { intros [-> Hgv]. eapply given_within_moved; (done || lia). }
  intros (Hst6 & Hc6). split; [by eapply good_state|]. eapply evolves_trans; [exact Hev5|by apply calm_evolve].
Qed.

(** ** [reallocate] *)

Lemma da_reallocate_spec sz W kp ks s b n m : good sz W kp ks s -> 0 < n -> 0 < m -> n <> m -> (forall i, b <= i < b + n -> i ∈ dom W) -> space sz (3 * m_min_chunk s + 24 + 2 * m) s ->
  wp (reallocate b n m) s (fun b' s' => exists sz', sz <= sz' <= sz + 3 * m_min_chunk s + 24 + 2 * m /\ moved sz W kp ks s b n m sz' b' s').
Proof.
  intros Hg Hn Hm Hne HbW Hsp. pose proof (good_facts _ _ _ _ _ _ _ _ Hg) as (Hsz & Hbs & _ & _ & _ & Hch & Hdom & _). pose proof (Hdom b (HbW b ltac:(lia))). pose proof (Hdom (b + n - 1) (HbW (b + n - 1) ltac:(lia))).
  unfold reallocate. wp_step. wp_step; [apply small_valid; lia|]. wp_step. wp_step. wp_step. eapply wp_mono; [apply (lazy_initialize_spec cfgp cfgq bs Hcfg); [exact Hg|eapply space_evolve; [exact Hsp|lia|lia|lia|by apply options_evolve|done]]|].
  cbn beta. intros _ s1 (sz1 & Hz1 & Hg1 & Hev1). assert (m_min_chunk s1 = m_min_chunk s) as Hmc1 by apply Hev1. destruct (Z.eqb_spec n m); [done|]. destruct (Z.ltb_spec m n).
  - rewrite wrap_small by (unfold is_word; lia). wp_step. eapply wp_mono; [apply (free_rest_spec cfgp cfgq bs Hcfg); [exact Hg1|lia|lia|lia|lia|intros i Hi; apply HbW; lia]|]. cbn beta. intros _ s2 [Hg2 Hev2]. wp_step.
    exists sz1. split; [lia|]. exists (drop_blocks (b + m) (n - m) W). split_and!; [lia|split| | |done|by eapply evolves_trans].
    + apply map_subseteq_spec. intros i x [Hx Hi]%lookup_drop_blocks. apply lookup_drop_blocks. split; [done|lia].
    + intros i. rewrite !dom_drop_blocks. specialize (HbW i). destruct (decide (b <= i < b + m)); [split; [by right|intros _; split; [apply HbW; lia|lia]]|]. split; [intros [? ?]; left; split; [done|lia]|]. intros [[? ?]|?]; [split; [done|lia]|lia].
    + intros i Hi. rewrite dom_drop_blocks. intros [_ ?]. lia.
    + intros k Hk. destruct (proj1 (elem_of_dom W (b + k)) (HbW (b + k) ltac:(lia))) as [x Hx]. rewrite Hx. apply lookup_drop_blocks. split; [done|lia].
  - unfold or_else. wp_step. eapply wp_mono; [apply grow_in_place_spec; [exact Hg1|repeat split; cbn; lia|lia|done|eapply space_evolve; [exact Hsp|lia|lia|lia|exact Hev1|done]]|]. cbn beta. intros [b'|] s2.
    { intros (sz2 & Hz2 & Hmv). wp_step. exists sz2. split; [lia|]. by eapply moved_from. }
    intros [Hg2 Hev2]. pose proof (evolves_trans _ _ _ _ _ _ Hev1 Hev2) as Hev20. assert (m_min_chunk s2 = m_min_chunk s) as Hmc2 by apply Hev20.
    wp_step. eapply wp_mono; [apply (da_allocate_spec cfgp cfgq bs Hcfg); [exact Hg2|lia|eapply space_evolve; [exact Hsp|lia|lia|lia|exact Hev20|done]]|]. cbn beta. intros b' s3 (sz3 & Hz3 & W3 & Hb3 & [Hsub3 Hdom3] & Hd3 & Hg3 & Hev3).
    wp_step. eapply wp_mono; [eapply (copy_blocks_good sz3 W3 kp ks s3 b b' n Hg3); [lia| |]|]. { intros k Hk. apply Hdom3. left. by apply HbW. } { intros k Hk. apply Hdom3. right. lia. }
    cbn beta. intros _ s4 (W4 & (Hdom4 & Hnew4 & Hold4) & Hg4 & Hev4). wp_step. eapply wp_mono; [apply (da_free_spec cfgp cfgq bs Hcfg sz3 W4 kp ks); [exact Hg4|lia|]|]. { intros i Hi. rewrite Hdom4. apply Hdom3. left. by apply HbW. }
    cbn beta. intros _ s5 (Hg5 & Ho5 & _). wp_step. exists sz3. split; [lia|]. exists (drop_blocks b n W4).
    assert (forall i, b <= i < b + n -> ~ (b' <= i < b' + m)) as Hsep by (intros i Hi Hi'; by apply (Hd3 i Hi'), HbW).
    split_and!; [done|split| | |done|].
    + apply map_subseteq_spec. intros i x [Hx Hi]%lookup_drop_blocks. apply lookup_drop_blocks. split; [|done]. rewrite Hold4; [by eapply lookup_weaken|]. intros Hbi. apply (Hd3 i); [lia|by apply elem_of_dom_2 in Hx].
    + intros i. rewrite !dom_drop_blocks, Hdom4, Hdom3. specialize (Hsep i). split; [intros [[?|?] ?]; [by left|by right]|]. intros [[? ?]|?]; [split; [by left|done]|]. split; [by right|tauto].
    + intros i Hi. rewrite dom_drop_blocks. intros [? _]. by apply (Hd3 i).
    + intros k Hk. destruct (proj1 (elem_of_dom W (b + k)) (HbW (b + k) ltac:(lia))) as [x Hx]. rewrite Hx. apply lookup_drop_blocks. specialize (Hsep (b' + k)). split; [rewrite Hnew4 by lia; by eapply lookup_weaken|]. intros Hi. apply Hsep; [done|lia].
    + eapply evolves_trans; [exact Hev20|]. eapply evolves_trans; [exact Hev3|]. eapply evolves_trans; [exact Hev4|by apply options_evolve].
Qed.
End reallocate.
End default_reallocate.
