(* ===== verification/DefaultSpec.v ===== *)
(** * The default allocator as an allocator

    The default allocator meets the specification that containers rely on, and
    every client that accesses its own blocks observes an abstract allocator:
    a map from the blocks in use to their contents. *)

From Stdlib Require Import Strings.Byte.
From S2P Require Import Prelude MathOps Serialization Blocks EngineSpec LinearIO FreeList Allocator MetaAllocator BTreeNodes BTree BTreeShape BTreeStore BTreeSearch BTreeCursors BTreeInsert BTreeOps BTreeSession BTreeRemove BTreeErase BTreeHeight BTreeHistory RawBTree TypedBTree DefaultAllocator DefaultTrees DefaultState DefaultFree DefaultSpace DefaultAllocate DefaultReallocate.

Module default_spec.
Import btree btree_store btree_session raw_btree typed_btree default_allocator default_trees default_state default_free default_space default_allocate default_reallocate.

Lemma geometry_of_size d d' : wf_disk d -> wf_disk d' -> d_bs d' = d_bs d -> d_geo d' = d_geo d.
Proof.
  intros ((k & Hk & Hg) & _) ((k' & Hk' & Hg') & _) Hbs. unfold d_bs in Hbs. rewrite Hg, Hg' in *. cbn in Hbs. apply Z.pow_inj_r in Hbs; [|lia..]. by subst.
Qed.

Section spec.
Context {E : Type} `{EngineSpec E} (r : Z).
Abbreviation D := (default_allocator E).
Abbreviation disk_of s := (eng_view (fl_engine (meta_list (m_meta s)))).
Implicit Types (s : D) (U : gset Z) (W : gmap Z bytes).

(** ** The interface *)

#[export] Instance default_engine : Engine D := {|
  eng_view s := disk_of s;
  eng_inv s := eng_inv (fl_engine (meta_list (m_meta s)));
  eng_read i := on_disk (eng_read i);
  eng_update i f := on_disk (eng_update i f);
  eng_overwrite i d := on_disk (eng_overwrite i d);
  eng_overwrite_zero i := on_disk (eng_overwrite_zero i);
  eng_grow n := on_disk (eng_grow n)
|}.
#[export] Instance default_allocator_functions : Allocator D := {|
  do_allocate := default_allocator.allocate;
  do_reallocate := default_allocator.reallocate;
  do_free := default_allocator.free
|}.

(** The blocks in use hold [W]; no cursor is open.  The allocator manages all
    but [r] blocks of the file. *)
Definition holding W s : Prop := exists cfgp cfgq bs sz, configs_ok cfgp cfgq bs /\ good cfgp cfgq bs sz W [] [] s /\ accounts r sz s.
Definition managed s U : Prop := holding (snapshot s U) s.
(** Blocks that the file may grow by for an allocation of [n] blocks. *)
Definition demand s (n : Z) : Z := n * (3 * m_min_chunk s + 26).
Definition room s (n : Z) : Prop :=
  m_can_grow s = true /\ (d_size (disk_of s) + demand s n) * d_bs (disk_of s) < invalid_value /\ d_size (disk_of s) + demand s n <= 2 ^ 32.

Lemma holding_managed W s : holding W s -> snapshot s (dom W) = W.
Proof.
  intros (cfgp & cfgq & bs & sz & _ & Hg & _). pose proof (good_facts _ _ _ _ _ _ _ _ Hg) as (_ & _ & _ & _ & _ & _ & _ & Hc). apply map_eq. intros i. apply option_eq. intros b. rewrite lookup_snapshot. split.
  - intros [Hi Hb]. apply elem_of_dom in Hi as [x Hx]. rewrite Hx. f_equal. by rewrite <- (Hc i x Hx), <- Hb.
  - intros Hi. split; [by apply elem_of_dom_2 in Hi|]. by apply Hc.
Qed.
Lemma holding_dom W s U : holding W s -> dom W = U -> managed s U.
Proof. intros Hh <-. unfold managed. by rewrite holding_managed. Qed.
Lemma room_mono s U n m : managed s U -> 0 <= m <= n -> room s n -> room s m.
Proof.
  intros (cfgp & cfgq & bs & sz & _ & Hg & _) Hm (Hc & Hr & Hl). pose proof (good_facts _ _ _ _ _ _ _ _ Hg) as (_ & Hbs & Hsz & _ & Hb & Hch & _). 
  assert (demand s m <= demand s n) as Hle by (unfold demand; apply Z.mul_le_mono_nonneg_r; lia). unfold room. rewrite Hb in *. split_and!; [done| |lia].
  eapply Z.le_lt_trans; [|exact Hr]. apply Z.mul_le_mono_nonneg_r; lia.
Qed.
Lemma managed_wf s U : managed s U -> wf_disk (disk_of s) /\ forall i, i ∈ U -> in_disk (disk_of s) i.
Proof.
  intros (cfgp & cfgq & bs & sz & _ & Hg & _). pose proof (good_facts _ _ _ _ _ _ _ _ Hg) as (_ & _ & Hsz & Hwf & _ & _ & Hin & _). split; [done|]. intros i Hi. rewrite dom_snapshot in Hin. specialize (Hin i Hi). unfold in_disk. lia.
Qed.

(** What an operation leaves alone. *)
Lemma evolved_step cfgp cfgq bs sz sz' W W' kp kp' ks ks' s s' V k : good cfgp cfgq bs sz W kp ks s -> good cfgp cfgq bs sz' W' kp' ks' s' -> evolves sz s sz' s' -> sz <= sz' -> sz' <= sz + demand s k -> 0 <= k ->
  (forall i, i ∈ V -> i ∈ dom W /\ W' !! i = W !! i) -> al_step_with room V k s s'.
Proof.
  intros Hg Hg' (Hcg & Hmc & _) Hle Hd Hk HV. pose proof (good_facts _ _ _ _ _ _ _ _ Hg) as (_ & Hbs & Hsz & Hwf & Hb & Hch & _ & Hc). pose proof (good_facts _ _ _ _ _ _ _ _ Hg') as (_ & _ & Hsz' & Hwf' & Hb' & _ & _ & Hc').
  split_and!.
  - apply geometry_of_size; [done|done|]. cbn. congruence.
  - intros i Hi. destruct (HV i Hi) as [[b Hib]%elem_of_dom Heq]. rewrite Hib in Heq. cbn. by rewrite (Hc i b Hib), (Hc' i b Heq).
  - intros j Hj (Hr1 & Hr2 & Hr3). unfold room, demand in *. rewrite Hcg, Hmc, Hsz', Hb'. rewrite Hsz, Hb in *. split_and!; [done|nia|lia].
Qed.

(** ** Access to blocks *)

Lemma engine_op_good cfgp cfgq bs sz W kp ks s (e' : E) i b : good cfgp cfgq bs sz W kp ks s -> i ∈ dom W -> eng_inv e' -> eng_view e' = disk_set i b (disk_of s) ->
  good cfgp cfgq bs sz (<[i := b]> W) kp ks (set_meta (set_meta_list (FreeList.set_engine e' (meta_list (m_meta s))) (m_meta s)) s).
Proof.
  intros (lp & pp & ls & ps & Hkp & Hks & Hst) Hi He Hv. pose proof (state_disk _ _ _ _ _ _ _ _ _ _ Hst) as (Hwf & _ & Hsz & Hbs & Hc & Hin). pose proof Hst as [_ _ _ _ Hdis _ Htot Hlim _].
  assert (forall j, j ∈ dom W \/ j ∈ free_blocks lp -> in_disk (disk_of s) j) as Hd by (intros j Hj; apply Hin in Hj; unfold in_disk; lia).
  assert (forall j, in_disk (disk_of s) j -> j <> i -> disk_block (eng_view e') j = disk_block (disk_of s) j) as Hold by (intros j Hj Hne; rewrite Hv; apply disk_set_block_ne; [apply (Hin i); by left|unfold in_disk in Hj; lia|done]).
  exists lp, pp, ls, ps. split_and!; [done..|]. eapply (state_meta cfgp cfgq bs sz sz W); try done; cbn.
  - by rewrite map_size_insert_Some by by apply elem_of_dom.
  - rewrite Hv, disk_set_size. done.
  - rewrite Hv. done.
  - intros j x. destruct (decide (j = i)) as [->|Hne]; [rewrite lookup_insert_eq; intros Heq; injection Heq as <-; rewrite Hv; apply disk_set_block_eq; apply Hd; by left|].
    rewrite lookup_insert_ne by done. intros Hx. rewrite Hold; [by apply Hc|apply Hd; left; by apply elem_of_dom_2 in Hx|done].
  - intros j Hj. rewrite dom_insert_L. intros [->%elem_of_singleton|?]%elem_of_union; by apply (Hdis _ Hj).
  - intros U stack Hms HU. exists U, stack. split_and!.
    + apply meta_engine_op; try done; [by rewrite Hv|rewrite Hv; apply disk_set_size|]. intros j Hj. apply Hold; [apply (ms_disk _ _ _ Hms); by left|]. intros ->. apply (ms_disjoint _ _ _ Hms i Hj), HU. by left.
    + intros j. rewrite dom_insert_L, elem_of_union, elem_of_singleton. intros [[->|?]|?]; apply HU; [by left|by left|by right].
    + intros j HjU HjW Hjf. assert (j <> i) as Hne by (intros ->; done). rewrite dom_insert_L, elem_of_union, elem_of_singleton. split_and!; [done|tauto|]. apply Hold; [|done]. apply (ms_disk _ _ _ Hms). by right.
Qed.

Lemma wp_on_disk {X} (m : M E X) s (Q : X -> D -> Prop) :
  wp m (fl_engine (meta_list (m_meta s))) (fun x e => Q x (set_meta (set_meta_list (FreeList.set_engine e (meta_list (m_meta s))) (m_meta s)) s)) -> wp (on_disk m) s Q.
Proof. intros Hw. by apply wp_on_meta, wp_on_meta_list, wp_on_engine. Qed.
Lemma managed_engine s U : managed s U -> eng_inv (fl_engine (meta_list (m_meta s))).
Proof. intros (cfgp & cfgq & bs & sz & _ & (lp & pp & ls & ps & _ & _ & Hst) & _). by apply (state_disk _ _ _ _ _ _ _ _ _ _ Hst). Qed.
Lemma managed_write s U V i b (e' : E) : managed s U -> i ∈ U -> eng_inv e' -> eng_view e' = disk_set i b (disk_of s) -> V ⊆ U -> (i ∈ V -> disk_block (disk_of s) i = b) ->
  let s' := set_meta (set_meta_list (FreeList.set_engine e' (meta_list (m_meta s))) (m_meta s)) s in managed s' U /\ al_step_with room V 0 s s' /\ disk_block (disk_of s') i = b.
Proof.
  intros Hm Hi He Hv HV Hsame s'. pose proof (managed_wf _ _ Hm) as [_ Hin]. pose proof Hm as (cfgp & cfgq & bs & sz & Hcfg & Hg & Hacc). assert (i ∈ dom (snapshot s U)) as Hid by by rewrite dom_snapshot.
  pose proof (engine_op_good _ _ _ _ _ _ _ _ _ _ _ Hg Hid He Hv) as Hg'. fold s' in Hg'. split_and!.
  - eapply holding_dom; [exists cfgp, cfgq, bs, sz; split_and!; [done|exact Hg'|done]|]. rewrite dom_insert_L, dom_snapshot. set_solver.
  - eapply evolved_step; [exact Hg|exact Hg'|by apply options_evolve|lia|unfold demand; lia|lia|]. intros j Hj. rewrite dom_snapshot. split; [by apply HV|]. destruct (decide (j = i)) as [->|Hne]; [|by rewrite lookup_insert_ne].
    rewrite lookup_insert_eq. symmetry. apply lookup_snapshot. split; [done|]. by apply Hsame.
  - cbn. rewrite Hv. apply disk_set_block_eq. by apply Hin.
Qed.

(** ** The laws *)

Lemma default_read s U i : managed s U -> i ∈ U -> wp (eng_read i) s (fun b s' => b = disk_block (eng_view s) i /\ managed s' U /\ al_step_with room U 0 s s').
Proof.
  intros Hm Hi. pose proof (managed_wf _ _ Hm) as [_ Hin]. cbn [eng_read default_engine]. apply wp_on_disk. eapply wp_mono; [apply spec_read; [by eapply managed_engine|by apply Hin]|]. cbn beta. intros b e' (-> & He & Hv).
  rewrite <- (disk_set_id (disk_of s) i) in Hv by by apply Hin. destruct (managed_write s U U i _ e' Hm Hi He Hv) as (? & ? & _); done.
Qed.
Lemma default_update s U i f : managed s U -> i ∈ U -> length (f (disk_block (eng_view s) i)) = length (disk_block (eng_view s) i) ->
  wp (eng_update i f) s (fun _ s' => managed s' U /\ al_step_with room (U ∖ {[i]}) 0 s s' /\ disk_block (eng_view s') i = f (disk_block (eng_view s) i)).
Proof.
  intros Hm Hi Hl. pose proof (managed_wf _ _ Hm) as [_ Hin]. cbn [eng_update default_engine]. apply wp_on_disk. eapply wp_mono; [apply spec_update; [by eapply managed_engine|by apply Hin|done]|]. cbn beta. intros _ e' (He & Hv).
  apply (managed_write s U (U ∖ {[i]}) i _ e' Hm Hi He Hv); set_solver.
Qed.
Lemma default_overwrite_zero s U i : managed s U -> i ∈ U ->
  wp (eng_overwrite_zero i) s (fun _ s' => managed s' U /\ al_step_with room (U ∖ {[i]}) 0 s s' /\ disk_block (eng_view s') i = zeros (d_bs (eng_view s))).
Proof.
  intros Hm Hi. pose proof (managed_wf _ _ Hm) as [_ Hin]. cbn [eng_overwrite_zero default_engine]. apply wp_on_disk. eapply wp_mono; [apply spec_overwrite_zero; [by eapply managed_engine|by apply Hin]|]. cbn beta. intros _ e' (He & Hv).
  apply (managed_write s U (U ∖ {[i]}) i _ e' Hm Hi He Hv); set_solver.
Qed.
Lemma room_space cfgp cfgq bs sz W kp ks s n k : good cfgp cfgq bs sz W kp ks s -> room s n -> 0 <= k <= demand s n -> space bs sz k s.
Proof.
  intros Hg (Hr1 & Hr2 & Hr3) Hk. pose proof (good_facts _ _ _ _ _ _ _ _ Hg) as (_ & Hbs & Hsz & _ & Hb & _). rewrite Hsz, Hb in *. split_and!; [done| |lia]. eapply Z.le_lt_trans; [|exact Hr2]. apply Z.mul_le_mono_nonneg_r; lia.
Qed.
Lemma demand_bound s n : 1 <= m_min_chunk s -> 0 < n -> 3 * m_min_chunk s + 24 + 2 * n <= demand s n.
Proof. intros Hm Hn. unfold demand. nia. Qed.

Lemma default_allocate s U n : managed s U -> 0 < n -> room s n ->
  wp (do_allocate n) s (fun b s' => managed s' (U ∪ blocks b n) /\ blocks b n ## U /\ al_step_with room U n s s').
Proof.
  intros (cfgp & cfgq & bs & sz & Hcfg & Hg & Hacc) Hn Hr. pose proof (good_facts _ _ _ _ _ _ _ _ Hg) as (_ & _ & _ & _ & _ & Hch & _). pose proof (demand_bound s n ltac:(lia) Hn) as Hd. cbn [do_allocate default_allocator_functions].
  eapply wp_mono; [apply (da_allocate_spec cfgp cfgq bs Hcfg); [exact Hg|done|eapply room_space; [exact Hg|exact Hr|lia]]|]. cbn beta. intros b s' (sz' & Hz & W' & Hb & [Hsub Hdom] & Hfresh & Hg' & Hev). rewrite dom_snapshot in *. split_and!.
  - eapply holding_dom; [exists cfgp, cfgq, bs, sz'; split_and!; [done|exact Hg'|by apply Hev]|]. apply set_eq. intros i. by rewrite Hdom, elem_of_union, elem_of_blocks.
  - intros i Hi%elem_of_blocks. by apply Hfresh.
  - eapply evolved_step; [exact Hg|exact Hg'|done|lia|lia|lia|]. intros i Hi. rewrite dom_snapshot. split; [done|]. assert (is_Some (snapshot s U !! i)) as [x Hx] by (apply elem_of_dom; by rewrite dom_snapshot). rewrite Hx. by eapply lookup_weaken.
Qed.
Lemma default_free s U b n : managed s U -> 0 < n -> blocks b n ⊆ U -> wp (do_free b n) s (fun _ s' => managed s' (U ∖ blocks b n) /\ al_step_with room (U ∖ blocks b n) 0 s s').
Proof.
  intros (cfgp & cfgq & bs & sz & Hcfg & Hg & Hacc) Hn Hsub. cbn [do_free default_allocator_functions].
  eapply wp_mono; [apply (da_free_spec cfgp cfgq bs Hcfg sz (snapshot s U) [] []); [exact Hg|done|]|]. { intros i Hi. rewrite dom_snapshot. by apply Hsub, elem_of_blocks. }
  cbn beta. intros _ s' (Hg' & Ho & _). split.
  - eapply holding_dom; [exists cfgp, cfgq, bs, sz; split_and!; [done|exact Hg'|by apply (options_evolve sz _ _ Ho)]|]. apply set_eq. intros i. by rewrite dom_drop_blocks, dom_snapshot, elem_of_difference, elem_of_blocks.
  - eapply evolved_step; [exact Hg|exact Hg'|by apply options_evolve|lia|unfold demand; lia|lia|]. intros i [Hi Hni]%elem_of_difference. rewrite elem_of_blocks in Hni. rewrite dom_snapshot. split; [done|].
    assert (is_Some (snapshot s U !! i)) as [x Hx] by (apply elem_of_dom; by rewrite dom_snapshot). rewrite Hx. by apply lookup_drop_blocks.
Qed.
Lemma default_reallocate s U b n m : managed s U -> 0 < n -> 0 < m -> n <> m -> room s m -> blocks b n ⊆ U ->
  wp (do_reallocate b n m) s (fun b' s' => managed s' ((U ∖ blocks b n) ∪ blocks b' m) /\ blocks b' m ## U ∖ blocks b n /\ al_step_with room (U ∖ blocks b n) m s s' /\
    forall k, 0 <= k < Z.min n m -> disk_block (eng_view s') (b' + k) = disk_block (eng_view s) (b + k)).
Proof.
  intros (cfgp & cfgq & bs & sz & Hcfg & Hg & Hacc) Hn Hm Hne Hr Hsub. pose proof (good_facts _ _ _ _ _ _ _ _ Hg) as (_ & _ & _ & _ & _ & Hch & _ & Hc). pose proof (demand_bound s m ltac:(lia) Hm) as Hd. cbn [do_reallocate default_allocator_functions].
  assert (forall i, b <= i < b + n -> i ∈ dom (snapshot s U)) as Hin by (intros i Hi; rewrite dom_snapshot; by apply Hsub, elem_of_blocks).
  eapply wp_mono; [apply (da_reallocate_spec cfgp cfgq bs Hcfg); [exact Hg|done|done|done|done|eapply room_space; [exact Hg|exact Hr|lia]]|]. cbn beta. intros b' s' (sz' & Hz & W' & Hb & [HW Hdom] & Hfresh & Hcont & Hg' & Hev). split_and!.
  - eapply holding_dom; [exists cfgp, cfgq, bs, sz'; split_and!; [done|exact Hg'|by apply Hev]|]. apply set_eq. intros i. by rewrite Hdom, dom_drop_blocks, dom_snapshot, elem_of_union, elem_of_difference, !elem_of_blocks.
  - intros i Hi%elem_of_blocks [HiU Hni]%elem_of_difference. apply (Hfresh i Hi). rewrite dom_drop_blocks, dom_snapshot. rewrite elem_of_blocks in Hni. done.
  - eapply evolved_step; [exact Hg|exact Hg'|done|lia|lia|lia|]. intros i [Hi Hni]%elem_of_difference. rewrite elem_of_blocks in Hni. rewrite dom_snapshot. split; [done|].
    assert (is_Some (snapshot s U !! i)) as [x Hx] by (apply elem_of_dom; by rewrite dom_snapshot). rewrite Hx. eapply lookup_weaken; [|exact HW]. by apply lookup_drop_blocks.
  - intros k Hk. specialize (Hcont k Hk). destruct (proj1 (elem_of_dom _ (b + k)) (Hin (b + k) ltac:(lia))) as [x Hx]. rewrite Hx in Hcont. pose proof (good_facts _ _ _ _ _ _ _ _ Hg') as (_ & _ & _ & _ & _ & _ & _ & Hc'). cbn. by rewrite (Hc' _ _ Hcont), (Hc _ _ Hx).
Qed.

(** The default allocator implements the interface of allocators. *)
Definition default_allocator_spec : AllocatorSpec D.
Proof.
  refine {| al_inv := managed; al_supports _ := True; al_room := room |}.
  - exact room_mono.
  - exact managed_wf.
  - exact default_read.
  - exact default_update.
  - exact default_overwrite_zero.
  - intros s U n Hm Hn _. by apply default_allocate.
  - intros s U b n m Hm Hn Hm' Hne _ _. by apply default_reallocate.
  - intros s U b n Hm Hn _. by apply default_free.
Defined.
End spec.
End default_spec.
