(* ===== verification/DefaultSession.v ===== *)
(** * Clients of the default allocator

    A client decides on the next call when it knows the results of the previous
    ones.  Every allocator that meets its specification and supports all sizes
    behaves, for such a client, like a map from the blocks in use to their
    contents; the default allocator does from its creation on, and its
    statistics count the blocks exactly. *)

From Stdlib Require Import Strings.Byte.
From S2P Require Import Prelude MathOps Serialization Blocks EngineSpec LinearIO FreeList Allocator MetaAllocator BTreeNodes BTree BTreeShape BTreeStore BTreeSearch BTreeCursors BTreeInsert BTreeOps BTreeSession BTreeRemove BTreeErase BTreeHeight BTreeHistory RawBTree TypedBTree DefaultAllocator DefaultTrees DefaultState DefaultFree DefaultSpace DefaultAllocate DefaultReallocate DefaultSpec.

Module default_session.
Import btree_session.

(** ** Clients *)

Inductive call : Set :=
| CAllocate (n : Z)
| CFree (b n : Z)
| CReallocate (b n k : Z)
| CRead (b : Z)
| CWrite (b : Z) (data : bytes).
Inductive outcome : Set := an_index (b : Z) | some_data (data : bytes) | nothing.
Inductive client : Type :=
| Done
| Call (o : call) (next : result outcome -> client).

(** The abstract allocator: [m] holds the contents of the blocks in use. *)
Definition resized_map (m : gmap Z bytes) b n b' k (m' : gmap Z bytes) : Prop :=
  dom m' = (dom m ∖ range_blocks b n) ∪ range_blocks b' k /\ range_blocks b' k ## dom m ∖ range_blocks b n /\
  (forall i, i ∈ dom m ∖ range_blocks b n -> m' !! i = m !! i) /\
  forall j, 0 <= j < Z.min n k -> m' !! (b' + j) = m !! (b + j).
(** The range of a reallocation: blocks of the client or nothing. *)
Definition owned_range (m : gmap Z bytes) b n : Prop := if index_valid b then 0 < n /\ blocks b n ⊆ dom m else n = 0.
Inductive step (m : gmap Z bytes) : call -> result outcome -> gmap Z bytes -> Prop :=
| step_allocate n b m' : 0 < n -> index_valid b = true -> blocks b n ## dom m -> dom m' = dom m ∪ blocks b n -> m ⊆ m' ->
    step m (CAllocate n) (Ok (an_index b)) m'
| step_allocate_zero : step m (CAllocate 0) (Err bad_argument) m
| step_free b n m' : index_valid b = true -> 0 < n -> dom m' = dom m ∖ blocks b n -> m' ⊆ m -> step m (CFree b n) (Ok nothing) m'
| step_free_nothing b n : index_valid b = false \/ n = 0 -> step m (CFree b n) (Ok nothing) m
| step_reallocate b n k b' m' : owned_range m b n -> index_valid b' = negb (k =? 0) -> resized_map m b n b' k m' ->
    step m (CReallocate b n k) (Ok (an_index b')) m'
| step_reallocate_error b n k : (if index_valid b then n = 0 else n <> 0 \/ k = 0) -> step m (CReallocate b n k) (Err bad_argument) m
| step_read b c : m !! b = Some c -> step m (CRead b) (Ok (some_data c)) m
| step_write b c : is_Some (m !! b) -> step m (CWrite b c) (Ok nothing) (<[b := c]> m).

Inductive steps : gmap Z bytes -> client -> list (result outcome) -> gmap Z bytes -> Prop :=
| steps_done m : steps m Done [] m
| steps_call m o next r m1 rs m2 : step m o r m1 -> steps m1 (next r) rs m2 -> steps m (Call o next) (r :: rs) m2.

(** A client frees and accesses only blocks that it owns. *)
Definition allowed (bs : Z) (m : gmap Z bytes) (o : call) : Prop :=
  match o with
  | CAllocate n => 0 <= n
  | CFree b n => index_valid b = false \/ n = 0 \/ 0 < n /\ blocks b n ⊆ dom m
  | CReallocate b n k => 0 <= k /\ (index_valid b = true -> n = 0 \/ 0 < n /\ blocks b n ⊆ dom m)
  | CRead b => is_Some (m !! b)
  | CWrite b data => is_Some (m !! b) /\ zlen data = bs
  end.
Fixpoint safe (bs : Z) (m : gmap Z bytes) (c : client) : Prop :=
  match c with
  | Done => True
  | Call o next => allowed bs m o /\ forall r m', step m o r m' -> safe bs m' (next r)
  end.
(** The client asks for at most [n] blocks. *)
Definition cost (o : call) : Z := match o with CAllocate n => n | CReallocate _ _ k => k | _ => 0 end.
Fixpoint asks (c : client) (n : Z) : Prop :=
  match c with
  | Done => 0 <= n
  | Call o next => 0 <= cost o <= n /\ forall r, asks (next r) (n - cost o)
  end.

Section sessions.
Context {A : Type} `{AllocatorSpec A} (supports_all : forall n, 0 < n -> al_supports n).
Implicit Types (a : A) (m : gmap Z bytes).

Definition run_call (o : call) : M A outcome :=
  match o with
  | CAllocate n => let* b := allocate n in ret (an_index b)
  | CFree b n => free b n ;;; ret nothing
  | CReallocate b n k => let* b := reallocate b n k in ret (an_index b)
  | CRead b => let* d := eng_read b in ret (some_data d)
  | CWrite b data => eng_update b (fun _ => data) ;;; ret nothing
  end.
Fixpoint run (c : client) (a : A) : A * list (result outcome) :=
  match c with
  | Done => (a, [])
  | Call o next =>
    let '(a1, r) := run_call o a in
    let '(a2, rs) := run (next r) a1 in (a2, r :: rs)
  end.

Definition models a m : Prop := al_inv a (dom m) /\ forall b c, m !! b = Some c -> disk_block (eng_view a) b = c.
(** The outcome of a call. *)
Definition post a m o r a' : Prop := exists m', step m o r m' /\ models a' m' /\ d_bs (eng_view a') = d_bs (eng_view a) /\
  forall j, 0 <= j -> al_room a (cost o + j) -> al_room a' j.

Lemma post_step a a' m m' o r U k : models a m -> al_inv a' (dom m') -> al_step U k a a' -> 0 <= k <= cost o ->
  (forall b c, m' !! b = Some c -> (b ∈ U /\ m !! b = Some c) \/ disk_block (eng_view a') b = c) -> step m o r m' -> post a m o r a'.
Proof.
  intros [Hinv Hm] Hinv' (Hg & Hsame & Hroom) Hk Hc Hs. exists m'. split_and!; [done| |exact (f_equal g_block_size Hg)|].
  - split; [done|]. intros b c Hb. destruct (Hc b c Hb) as [[HbU Hmb]|]; [|done]. rewrite Hsame by done. by apply Hm.
  - intros j Hj Hr. apply Hroom; [done|]. apply (al_room_mono a (dom m) (cost o + j)); [done|lia|done].
Qed.
Lemma post_unchanged a m o r : models a m -> 0 <= cost o -> step m o r m -> post a m o r a.
Proof. intros Hm Hk Hs. eapply (post_step a a m m o r (dom m) 0); try done; [apply Hm|]. intros b c Hb. left. split; [by apply elem_of_dom_2 in Hb|done]. Qed.
Lemma wp_call a m o : wp (run_call o) a (fun x a' => post a m o (Ok x) a') -> let '(a', r) := run_call o a in post a m o r a'.
Proof. intros Hw. unfold wp in Hw. by destruct (run_call o a) as [a' [x|er]]. Qed.

(** A map that records the contents of the blocks [V]. *)
Lemma post_snapshot a a' m o r U V k : models a m -> al_inv a' V -> al_step U k a a' -> 0 <= k <= cost o -> step m o r (snapshot a' V) -> post a m o r a'.
Proof.
  intros Hm Hinv Hst Hk Hs. eapply (post_step a a' m (snapshot a' V)); [done|by rewrite dom_snapshot|exact Hst|done| |done]. intros b c [_ Hb]%lookup_snapshot. by right.
Qed.
Lemma snapshot_same a a' m U k V i : models a m -> al_step U k a a' -> i ∈ U -> i ∈ dom m -> i ∈ V -> snapshot a' V !! i = m !! i.
Proof. intros [_ Hc] (_ & Hsame & _) Hi [b Hb]%elem_of_dom HV. rewrite Hb. apply lookup_snapshot. split; [done|]. rewrite Hsame by done. by apply Hc. Qed.

Lemma call_allocate_post a m n : models a m -> 0 < n -> al_room a n -> wp (run_call (CAllocate n)) a (fun x a' => post a m (CAllocate n) (Ok x) a').
Proof.
  intros Hm Hn Hr. cbn [run_call]. wp_step. eapply wp_mono; [apply (allocate_spec a (dom m)); [apply Hm|done|by apply supports_all|done]|]. cbn beta. intros b a' (Hi & Hd & Hst). wp_step.
  destruct (al_used_valid a' _ b Hi) as [Hv _]; [apply elem_of_union_r, elem_of_blocks; lia|]. eapply (post_snapshot a a' m _ _ (dom m) (dom m ∪ blocks b n) n); [done|done|exact Hst|cbn; lia|].
  apply step_allocate; [done|done|done|apply dom_snapshot|]. apply map_subseteq_spec. intros i x Hx. assert (i ∈ dom m) as Him by by apply elem_of_dom_2 in Hx. rewrite (snapshot_same a a' m (dom m) n); [done|done|exact Hst|done|done|set_solver].
Qed.
Lemma call_free_post a m b n : models a m -> index_valid b = true -> 0 < n -> blocks b n ⊆ dom m -> wp (run_call (CFree b n)) a (fun x a' => post a m (CFree b n) (Ok x) a').
Proof.
  intros Hm Hv Hn Hsub. cbn [run_call]. wp_step. eapply wp_mono; [apply (free_spec a (dom m) b n); [apply Hm|done|by apply supports_all|done]|]. cbn beta. intros _ a' (Hi & Hst). wp_step.
  eapply (post_snapshot a a' m _ _ (dom m ∖ blocks b n) (dom m ∖ blocks b n) 0); [done|done|exact Hst|cbn; lia|]. apply step_free; [done|done|apply dom_snapshot|].
  apply map_subseteq_spec. intros i x Hx. assert (i ∈ dom m ∖ blocks b n) as Hi' by (apply elem_of_dom_2 in Hx; by rewrite dom_snapshot in Hx). rewrite <- Hx. symmetry. eapply (snapshot_same a a' m _ 0); [done|exact Hst|done|set_solver|done].
Qed.
Lemma call_reallocate_post a m b n k : models a m -> owned_range m b n -> 0 <= k -> al_room a k -> (index_valid b = true \/ k <> 0) ->
  wp (run_call (CReallocate b n k)) a (fun x a' => post a m (CReallocate b n k) (Ok x) a').
Proof.
  intros Hm Ho Hk Hr Hc. cbn [run_call]. wp_step. eapply wp_mono; [apply (reallocate_spec a (dom m) b n k); [apply Hm| |done|intros ?; apply supports_all; lia|done|done]|].
  { unfold owned_range, range_ok in *. destruct (index_valid b); [|done]. destruct Ho. split_and!; [done|by apply supports_all|done]. }
  cbn beta. intros b' a' (Hi & Hd & Hv & _ & Hst & Hcont). wp_step. eapply (post_snapshot a a' m _ _ (dom m ∖ range_blocks b n) ((dom m ∖ range_blocks b n) ∪ range_blocks b' k) k); [done|done|exact Hst|cbn; lia|].
  apply step_reallocate; [done|done|]. unfold resized_map. split_and!; [apply dom_snapshot|done| |].
  - intros i Hi'. eapply (snapshot_same a a' m _ k); [done|exact Hst|done|set_solver|set_solver].
  - intros j Hj. specialize (Hcont j Hj). unfold owned_range in Ho. destruct (index_valid b) eqn:Hb; [|lia]. destruct Ho as [Hn Hsub].
    destruct (proj1 (elem_of_dom m (b + j))) as [x Hx]; [apply Hsub, elem_of_blocks; lia|]. rewrite Hx. apply lookup_snapshot. split.
    + apply elem_of_union_r. unfold range_blocks. rewrite Hv. destruct (Z.eqb_spec k 0); [lia|]. cbn. apply elem_of_blocks. lia.
    + rewrite Hcont. by apply Hm.
Qed.
Lemma access_post a m o : models a m -> (match o with CRead _ | CWrite _ _ => True | _ => False end) -> allowed (d_bs (eng_view a)) m o -> wp (run_call o) a (fun x a' => post a m o (Ok x) a').
Proof.
  intros Hm Ho Hal. pose proof Hm as [Hinv Hc]. destruct o as [| | |b|b data]; try done; cbn [run_call allowed] in *.
  - destruct Hal as [c Hb]. wp_step. eapply wp_mono; [apply (al_read a (dom m)); [done|by eapply elem_of_dom_2]|]. cbn beta. intros d a' (-> & Hi & Hst). wp_step.
    eapply (post_step a a' m m _ _ (dom m) 0); [done|done|exact Hst|cbn; lia|intros i c' Hic; left; split; [by eapply elem_of_dom_2|done]|]. apply step_read. by rewrite (Hc b c Hb).
  - destruct Hal as [Hb Hl]. pose proof Hb as Hd%elem_of_dom. wp_step. eapply wp_mono; [apply (al_update a (dom m)); [done|done|]|].
    { destruct (al_wf _ _ Hinv) as [Hwf Hin]. pose proof (length_disk_block _ b Hwf (Hin b Hd)). lia. }
    cbn beta. intros _ a' (Hi & Hst & Hnew). wp_step. eapply (post_step a a' m (<[b := data]> m) _ _ (dom m ∖ {[b]}) 0); [done|by rewrite dom_insert_lookup_L|exact Hst|cbn; lia| |by apply step_write].
    intros i c Hic. apply lookup_insert_Some in Hic as [[<- <-]|[Hne Hic]]; [by right|left]. split; [|done]. apply elem_of_dom_2 in Hic. set_solver.
Qed.

Lemma run_call_spec a m o : models a m -> allowed (d_bs (eng_view a)) m o -> 0 <= cost o -> al_room a (cost o) -> let '(a', r) := run_call o a in post a m o r a'.
Proof.
  intros Hm Ho Hk Hroom. destruct o as [n|b n|b n k|b|b data].
  - cbn in Ho. destruct (decide (n = 0)) as [->|Hn0]; [by apply post_unchanged, step_allocate_zero|]. apply wp_call, call_allocate_post; [done|lia|done].
  - cbn in Ho. destruct (index_valid b) eqn:Hv.
    2: { unfold run_call, free, bind. rewrite Hv. apply post_unchanged; [done|done|]. apply step_free_nothing. by left. }
    destruct Ho as [?|[->|[Hn Hsub]]]; [done| |by apply wp_call, call_free_post]. unfold run_call, free, bind. rewrite orb_true_r. apply post_unchanged; [done|done|]. apply step_free_nothing. by right.
  - cbn in Ho. destruct Ho as [Hk0 Ho]. assert ((if index_valid b then n = 0 else n <> 0 \/ k = 0) -> run_call (CReallocate b n k) a = (a, Err bad_argument)) as Herr.
    { intros Hbad. unfold run_call, reallocate, allocate, throw_if, guard_else, bind. destruct (index_valid b); cbn [negb]; [by subst n|]. destruct (Z.eqb_spec n 0); cbn [negb]; [|done]. destruct Hbad as [?| ->]; done. }
    assert ((if index_valid b then n = 0 else n <> 0 \/ k = 0) \/ ~ (if index_valid b then n = 0 else n <> 0 \/ k = 0)) as [Hbad|Hok] by (destruct (index_valid b); lia).
    + rewrite Herr by done. apply post_unchanged; [done|done|]. by apply step_reallocate_error.
    + apply wp_call, call_reallocate_post; [done| |done|done|]; unfold owned_range; destruct (index_valid b) eqn:Hv; [by destruct (Ho eq_refl)|destruct (decide (n = 0)); [done|tauto]|by left|right; tauto].
  - by apply wp_call, access_post.
  - by apply wp_call, access_post.
Qed.
Lemma client_run_spec c : forall a m n, models a m -> safe (d_bs (eng_view a)) m c -> asks c n -> al_room a n -> exists m', steps m c (run c a).2 m' /\ models (run c a).1 m'.
Proof.
  induction c as [|o next IH]; intros a m n Hm Hs Hn Hroom; cbn [run]. { exists m. split; [constructor|done]. }
  destruct Hs as [Ho Hs], Hn as [Hn Hnext]. pose proof Hm as [Hinv _]. assert (al_room a (cost o)) as Hr1 by (apply (al_room_mono a (dom m) n); [done|lia|done]).
  pose proof (run_call_spec a m o Hm Ho ltac:(lia) Hr1) as Hp. destruct (run_call o a) as [a1 r]. destruct Hp as (m1 & Hst & Hm1 & Hbs & Hr). specialize (Hs r m1 Hst). rewrite <- Hbs in Hs.
  destruct (IH r a1 m1 (n - cost o) Hm1 Hs (Hnext r)) as (m' & Hsts & Hm'). { apply Hr; [lia|]. by replace (cost o + (n - cost o)) with n by lia. }
  destruct (run (next r) a1) as [a2 rs]. exists m'. split; [by econstructor|done].
Qed.
End sessions.

(** ** The default allocator *)

Section default.
Import btree btree_shape btree_store btree_cursors btree_ops raw_btree typed_btree default_allocator default_trees default_state default_free default_space default_allocate default_spec.
Context {E : Type} `{EngineSpec E}.
Abbreviation D := (default_allocator E).
Implicit Types (s : D) (m : gmap Z bytes).

(** A new allocator does not manage the blocks that the file has already. *)
Lemma make_default_allocator_spec (e : E) (g : bool) s : eng_inv e -> d_size (eng_view e) <= 2 ^ 32 -> make_default_allocator e g = Ok s ->
  managed (d_size (eng_view e)) s (blocks 0 (d_size (eng_view e))) /\ eng_view s = eng_view e /\ m_can_grow s = g /\ m_min_chunk s = 128.
Proof.
  intros He Hlim Hmk. unfold make_default_allocator, open_default_allocator in Hmk. cbn [empty_default_anchor meta_freelist meta_total anchor_meta_free anchor_data_total anchor_data_free extents_by_position extents_by_size] in Hmk. destruct (make_free_list e invalid_value) as [l|] eqn:Hl; [|done]. destruct (make_free_list_spec e l He Hl) as [Hfl Hle].
  set (a := Metadata l 0) in *. set (sz := d_size (eng_view e)) in *. assert (0 <= sz) as Hsz0 by (unfold sz, d_size; lia). destruct (make_btree a empty_anchor) as [p|] eqn:Hp; [|done]. destruct (make_btree a empty_anchor) as [q|] eqn:Hq in Hmk; [|done]. injection Hmk as <-.
  assert (meta_inv sz a (blocks 0 sz)) as Hinv.
  { split; [cbn; by rewrite Hle|]. exists []. split; cbn [meta_list meta_free a]; [done|done| |intros i Hi; by apply elem_of_nil in Hi]. intros i. rewrite Hle. unfold in_disk. fold sz. rewrite elem_of_blocks. split; [intros ?; right; lia|intros [Hi%elem_of_nil|?]; [done|lia]]. }
  pose (S := metadata_allocator_spec (E := E) sz). assert (al_room (AllocatorSpec := S) a 0) as Hroom by (cbn; unfold meta_room; cbn; lia).
  destruct (make_tree_inv (H0 := S) (derive_key block) (key_less index_ltb) a (blocks 0 sz) 0 16 8 p Hinv ltac:(lia) ltac:(lia) Hp ltac:(lia) Hroom) as (cfgp & Hcp & Hvp & Hkp & Hip).
  destruct (make_tree_inv (H0 := S) (derive_key (fun e : extent_t => e)) (key_less size_less) a (blocks 0 sz) 0 16 16 q Hinv ltac:(lia) ltac:(lia) Hq ltac:(lia) Hroom) as (cfgq & Hcq & Hvq & Hkq & Hiq).
  assert (forall vs ks t, make_tree a empty_anchor vs ks = Ok t -> m_alloc t = a) as Hal. { intros vs ks t Ht. unfold make_tree in Ht. repeat case_match; try done. by injection Ht as <-. }
  set (s := DefaultAllocator a 0 0 0 (state_of p) (state_of q) g 128). assert (position_tree s = p) as Hpt by (unfold position_tree, tree_of; cbn; rewrite <- (Hal _ _ _ Hp) at 1; by destruct p).
  assert (size_tree s = q) as Hqt by (unfold size_tree, tree_of; cbn; rewrite <- (Hal _ _ _ Hq) at 1; by destruct q).
  split_and!; [|cbn; by rewrite Hle|done|done]. exists cfgp, cfgq, (d_bs (eng_view a)), sz. split_and!; [by split| |split_and!; cbn; lia]. exists [], [], [], []. split_and!; [done|done|].
  assert (Z.of_nat (base.size (snapshot a (blocks 0 sz))) = sz) as Hcount.
  { rewrite <- size_dom, dom_snapshot. unfold blocks. rewrite (size_list_to_set (seqZ _ _)), length_seqZ by apply NoDup_seqZ. lia. }
  assert (forall k : Z, k ∉ free_blocks []) as Hnone by (intros k; apply not_elem_of_nil). change (snapshot s (blocks 0 sz)) with (snapshot a (blocks 0 sz)).
  split; try done; try (by constructor); [|intros i Hi; by apply Hnone in Hi|change (zlen (free_blocks [])) with 0; cbn [m_meta_total s]; lia].
  exists (snapshot a (blocks 0 sz)). split_and!; [|done|cbn; set_solver]. split_and!; [constructor|constructor|]. rewrite Hpt, Hqt. split; [by rewrite (Hal _ _ _ Hp), (Hal _ _ _ Hq)|].
  assert (framed (snapshot a (blocks 0 sz)) (snapshot a (blocks 0 sz)) None) as Hfr by (intros k b Hb; split; [done|apply not_elem_of_nil]).
  exists (snapshot a (blocks 0 sz)), None, None. split_and!; try done.
Qed.

(** The statistics count the blocks in use. *)
Lemma stats_counts r s U : managed r s U -> r <= Z.of_nat (base.size U) ->
  stats s = (s, Ok (Stats (d_size (eng_view s) - r) (Z.of_nat (base.size U) - r) (m_data_free s) (m_meta_total s))) /\
  m_data_free s + m_meta_total s + (Z.of_nat (base.size U) - r) = d_size (eng_view s) - r.
Proof.
  intros (cfgp & cfgq & bs & sz & _ & (lp & pp & ls & ps & Hp & Hq & Hst) & Hr & Ht & Hsz) Hle. pose proof (state_bounds _ _ _ _ _ _ _ _ _ _ Hst) as (Hs & Hm & _ & Hd & _).
  destruct (state_disk _ _ _ _ _ _ _ _ _ _ Hst) as (_ & _ & Hds & _). pose proof (gs_total _ _ _ _ _ _ _ _ _ _ Hst) as Htot. pose proof (gs_free _ _ _ _ _ _ _ _ _ _ Hst) as Hfree.
  rewrite <- size_dom, dom_snapshot in Htot. change (d_size (eng_view s) = sz) in Hds. unfold invalid_value, u64_max in Hs. split; [|lia].
  unfold stats, bind, get, guard_else. rewrite (wrap_small 64 (m_data_free s + m_meta_total s)) by (unfold is_word; lia). rewrite (proj2 (Z.leb_le _ _)) by lia.
  unfold ret. rewrite (wrap_small 64 (m_data_total s - m_data_free s)) by (unfold is_word; lia). rewrite wrap_small by (unfold is_word; lia). do 3 f_equal; lia.
Qed.

(** The blocks that a new allocator finds in the file. *)
Definition old_blocks s : gmap Z bytes := snapshot s (blocks 0 (d_size (eng_view s))).
Lemma size_old_blocks s : Z.of_nat (base.size (old_blocks s)) = d_size (eng_view s).
Proof.
  unfold old_blocks. rewrite <- size_dom, dom_snapshot. unfold blocks. rewrite (size_list_to_set (seqZ _ _)), length_seqZ by apply NoDup_seqZ. unfold d_size. lia.
Qed.

(** C9: every client of a new default allocator that may grow the file, and that
    frees, reallocates and accesses only blocks that it owns, sees the abstract
    allocator: every call returns what a step of the map from blocks to contents
    allows (fresh blocks that are disjoint from those in use, the kept contents
    of a reallocated range, [bad_argument] exactly for the arguments that the
    interface excludes, never an assertion failure), no block in use changes
    unless the client writes it, and afterwards the statistics are exact: the
    used blocks are the client's, and together with the free and the metadata
    blocks they are all blocks that the allocator took from the file.  The
    blocks that were in the file before stay out of the count. *)
Theorem default_allocator_session (e : E) s c n : eng_inv e -> make_default_allocator e true = Ok s ->
  safe (d_bs (eng_view e)) (old_blocks s) c -> asks c n ->
  d_size (eng_view e) + n * 410 <= 2 ^ 32 -> (d_size (eng_view e) + n * 410) * d_bs (eng_view e) < invalid_value ->
  exists m, steps (old_blocks s) c (run c s).2 m /\ (forall b x, m !! b = Some x -> disk_block (eng_view (run c s).1) b = x) /\
    ((base.size (old_blocks s) <= base.size m)%nat -> exists free meta,
      stats (run c s).1 = ((run c s).1, Ok (Stats (d_size (eng_view (run c s).1) - d_size (eng_view e)) (Z.of_nat (base.size m) - d_size (eng_view e)) free meta)) /\
      free + meta + (Z.of_nat (base.size m) - d_size (eng_view e)) = d_size (eng_view (run c s).1) - d_size (eng_view e)).
Proof.
  intros He Hmk Hs Hn Hlim Hbs. assert (0 <= n) as Hn0. { destruct c; cbn in Hn; [done|lia]. }
  destruct (make_default_allocator_spec e true s He ltac:(lia) Hmk) as (Hm & Hv & Hg & Hch). set (r := d_size (eng_view e)) in *. assert (dom (old_blocks s) = blocks 0 r) as Hdom by (unfold old_blocks; by rewrite dom_snapshot, Hv).
  destruct (client_run_spec (H0 := default_allocator_spec r) (fun _ _ => I) c s (old_blocks s) n) as (m & Hsts & Hinv & Hc).
  - split; [by rewrite Hdom|]. intros b x [_ Hb]%lookup_snapshot. done.
  - change (safe (d_bs (eng_view s)) (old_blocks s) c). by rewrite Hv.
  - done.
  - change (room s n). assert (demand s n = n * 410) as Hd by (unfold demand; rewrite Hch; lia). change (eng_view (fl_engine (meta_list (m_meta s))) = eng_view e) in Hv. unfold room. rewrite Hd, Hv. done.
  - exists m. split_and!; [done|done|]. intros Hle. pose proof (size_old_blocks s) as Hold. rewrite Hv in Hold. fold r in Hold. rewrite <- (size_dom m) in Hle |- *.
    destruct (stats_counts r _ _ Hinv) as [Hst Hsum]; [lia|]. by eexists _, _.
Qed.
End default.

(** ** An example *)

Import default_allocator default_spec.
(** A client that writes a block, grows its range and returns it. *)
Definition sample_client : client :=
  Call (CAllocate 1) (fun r1 =>
    match r1 with
    | Ok (an_index b1) =>
      Call (CWrite b1 (replicate 256 x07)) (fun _ =>
      Call (CReallocate b1 1 2) (fun r2 =>
        match r2 with
        | Ok (an_index b2) => Call (CRead b2) (fun _ => Call (CFree (b2 + 1) 1) (fun _ => Call (CAllocate 0) (fun _ => Done)))
        | _ => Done
        end))
    | _ => Done
    end).
Definition sample_engine : memory_engine.memory_engine := memory_engine.MemoryEngine (Geometry 256 8 255) [].

Lemma default_client_safe m : safe 256 m sample_client.
Proof.
  split; [cbn; lia|]. intros r1 m1 H1. inversion H1 as [? b ? _ _ _ Hdom _| | | | | | |]; subst. assert (b ∈ dom m1) as Hb1 by (rewrite Hdom; apply elem_of_union_r, elem_of_blocks; lia).
  split; [split; [by apply elem_of_dom|done]|]. intros r2 m2 H2. inversion H2; subst. assert (blocks b 1 ⊆ dom (<[b := replicate 256 x07]> m1)) as Hsub by (intros i Hi%elem_of_blocks; replace i with b by lia; set_solver).
  split; [split; [lia|]; intros _; right; split; [lia|done]|]. intros r3 m3 H3. inversion H3 as [| | | |? ? ? b2 ? _ Hv [Hd3 _]| | |]; subst; [|done]. unfold range_blocks in Hd3. rewrite Hv in Hd3. cbn in Hd3.
  assert (blocks b2 2 ⊆ dom m3) as Hb2 by set_solver. split; [apply elem_of_dom, Hb2, elem_of_blocks; lia|]. intros r4 m4 H4. inversion H4; subst. split; [|cbn; split; [lia|done]].
  right. right. split; [lia|]. intros i Hi%elem_of_blocks. apply Hb2, elem_of_blocks. lia.
Qed.
Lemma default_allocator_session_witness : exists s m, make_default_allocator sample_engine true = Ok s /\
  (run sample_client s).2 = [Ok (an_index 6); Ok nothing; Ok (an_index 6); Ok (some_data (replicate 256 x07)); Ok nothing; Err bad_argument] /\
  (stats (run sample_client s).1).2 = Ok (Stats 128 1 121 6) /\ steps (old_blocks s) sample_client (run sample_client s).2 m.
Proof.
  destruct (make_default_allocator sample_engine true) as [s|] eqn:Hs; [|by vm_compute in Hs].
  destruct (default_allocator_session sample_engine s sample_client 3) as (m & Hsteps & _); [|done|apply default_client_safe| |by vm_compute|by vm_compute|].
  - split_and!; [by exists 8|constructor|done].
  - cbn. split; [lia|]. intros [[]|]; cbn; try lia. split; [lia|]. intros _. split; [lia|]. intros [[]|]; cbn; try lia. repeat (split; [lia|intros _]). lia.
  - exists s, m. vm_compute in Hs. injection Hs as <-. split_and!; [done|by vm_compute|by vm_compute|exact Hsteps].
Defined.
End default_session.
