(* ===== verification/DefaultPolicy.v ===== *)
(** * Policies of the default allocator

    Which extent an allocation takes, what happens when the file may not grow,
    the regions that a client adds, and the loops that balance the free list of
    metadata blocks. *)

From Stdlib Require Import Strings.Byte.
From S2P Require Import Prelude MathOps Serialization Blocks EngineSpec LinearIO FreeList Allocator MetaAllocator BTreeNodes BTree BTreeShape BTreeStore BTreeSearch BTreeCursors BTreeInsert BTreeOps BTreeSession BTreeRemove BTreeErase BTreeHeight BTreeHistory RawBTree TypedBTree DefaultAllocator DefaultTrees DefaultState DefaultFree DefaultSpace DefaultAllocate DefaultReallocate DefaultSpec DefaultSession.

Module default_policy.
Import btree btree_shape btree_store btree_cursors btree_ops btree_session raw_btree typed_btree default_allocator default_trees default_state default_free default_space default_allocate default_spec default_session.

(** ** Allocation in a file that may not grow *)

Section full.
Context {E : Type} `{EngineSpec E} (cfgp cfgq : config) (bs : Z) (Hcfg : configs_ok cfgp cfgq bs).
Abbreviation D := (default_allocator E).
Abbreviation disk_of s := (eng_view (fl_engine (meta_list (m_meta s)))).
Implicit Types (s : D) (W : gmap Z bytes).
Abbreviation good := (good cfgp cfgq bs).
Abbreviation state := (state cfgp cfgq bs).
Abbreviation given := (given cfgp cfgq bs).

Lemma allocate_from_engine_full n s : 0 < n -> m_can_grow s = false -> allocate_from_engine n s = (s, Err bad_alloc).
Proof. intros Hn Hg. unfold allocate_from_engine, bind, guard_else, gets, throw_if. rewrite (proj2 (Z.ltb_lt 0 n)) by done. cbn. by rewrite Hg. Qed.

(** The free extents of a state that has no room for [n] blocks. *)
Definition full_state sz W kp ks n s0 s : Prop := exists lp pp ls ps, pp.*1 = kp /\ ps.*1 = ks /\ state sz W lp pp ls ps s /\ Forall (fun e => size e < n) lp /\ evolves sz s0 sz s.
Lemma full_close_position sz W kp ks n s0 s id : full_state sz W (kp ++ [id]) ks n s0 s -> id ∉ kp -> wp (on_position (destroy (Some id))) s (fun _ s' => full_state sz W kp ks n s0 s').
Proof.
  intros (lp & pp & ls & ps & Hkp & Hks & Hst & Hall & Hev) Hid. eapply wp_mono; [by eapply (state_close_position cfgp cfgq bs Hcfg)|]. cbn beta. intros _ s' (pp' & Hp & Hst' & Hq). exists lp, pp', ls, ps. split_and!; [done..|].
  eapply evolves_trans; [exact Hev|]. by apply steady_evolve, Hq.
Qed.
Lemma full_close_size sz W kp ks n s0 s id : full_state sz W kp (ks ++ [id]) n s0 s -> id ∉ ks -> wp (on_size (destroy (Some id))) s (fun _ s' => full_state sz W kp ks n s0 s').
Proof.
  intros (lp & pp & ls & ps & Hkp & Hks & Hst & Hall & Hev) Hid. eapply wp_mono; [by eapply (state_close_size cfgp cfgq bs Hcfg)|]. cbn beta. intros _ s' (ps' & Hp & Hst' & Hq). exists lp, pp, ls, ps'. split_and!; [done..|].
  eapply evolves_trans; [exact Hev|]. by apply steady_evolve, Hq.
Qed.

Lemma allocate_last_full sz W lp pp ls ps s n : state sz W lp pp ls ps s -> 0 < n <= 2 ^ 32 -> Forall (fun e => size e < n) lp -> m_can_grow s = false ->
  wpx (allocate_last n) s (fun r s' => r = None /\ full_state sz W pp.*1 ps.*1 n s s') (fun e s' => e = bad_alloc /\ full_state sz W pp.*1 ps.*1 n s s').
Proof.
  intros Hst Hn Hall Hg. unfold allocate_last. wpx_step. eapply wp_wpx, wp_mono; [by apply (state_create_position cfgp cfgq bs Hcfg seek_max)|]. cbn beta. intros c s1 (idp & -> & Hnp & Hst1 & Hc1).
  apply wpx_scoped. set (pp1 := pp ++ _) in *. assert (settled_at idp pp1 lp) as Hset by by apply settled_nth. assert (pp1.*1 = pp.*1 ++ [idp]) as Hk1 by (unfold pp1; by rewrite fmap_app).
  assert (forall s', state sz W lp pp1 ls ps s' -> evolves sz s sz s' -> wp (on_position (destroy (Some idp))) s' (fun _ s'' => full_state sz W pp.*1 ps.*1 n s s'')) as Hclose.
  { intros s' Hst' Hev. apply full_close_position; [|done]. by exists lp, pp1, ls, ps. }
  wpx_step. destruct Hset as [Hend|(x & Hat)].
  { eapply wp_wpx, wp_mono; [by eapply (state_at_end_position cfgp cfgq bs Hcfg)|]. cbn beta. intros b s2 (-> & Hst2 & Hc2). rewrite bool_decide_true by done. wpx_step.
    eapply wp_mono; [apply Hclose; [done|apply calm_evolve; by etrans]|]. cbn beta. by intros _ s3 Hs3. }
  pose proof Hat as (r & Hr & He). eapply wp_wpx, wp_mono; [by eapply (state_at_end_position cfgp cfgq bs Hcfg)|]. cbn beta. intros b s2 (-> & Hst2 & Hc2). rewrite bool_decide_false by done.
  wpx_step. eapply wp_wpx, wp_mono; [by eapply (state_get_position cfgp cfgq bs Hcfg)|]. cbn beta. intros y s3 (-> & Hst3 & Hc3). assert (x ∈ lp) as Hin by by eapply list_elem_of_lookup_2. pose proof (state_range _ _ _ _ _ _ _ _ _ _ _ Hst Hin) as Hrg.
  pose proof (proj1 (Forall_forall _ _) Hall x Hin) as Hlt. cbn beta in Hlt. pose proof Hrg as (Hr1 & Hr2 & Hr3). wpx_step. wpx_step; [by apply Z.ltb_lt|]. wpx_step.
  eapply wp_wpx, wp_mono; [by apply borders_end_spec|]. cbn beta. intros t s' [-> ->]. assert (evolves sz s sz s3) as Hev3 by (apply calm_evolve; by repeat (etrans; [eassumption|])).
  destruct (_ =? _); cbn [negb].
  2: { wpx_step. eapply wp_mono; [by apply Hclose|]. cbn beta. by intros _ s4 Hs4. }
  wpx_step. eapply wp_wpx, wp_mono; [by eapply (find_size_entry_spec cfgp cfgq bs Hcfg)|]. cbn beta. intros c s4 (idq & q & -> & Hnq & Hq & Hst4 & Hc4). apply wpx_scoped. rewrite (wrap_small 64 (n - size x)) by (unfold is_word; lia).
  assert (evolves sz s sz s4) as Hev4 by (eapply evolves_trans; [exact Hev3|by apply calm_evolve]). wpx_step. unfold wpx. rewrite allocate_from_engine_full by (try lia; destruct Hev4 as [-> _]; done).
  eapply wp_mono; [apply (full_close_size sz W pp1.*1 ps.*1 n s); [|done]|].
  - exists lp, pp1, ls, (ps ++ [(idq, At q)]). split_and!; [done|by rewrite fmap_app|done..].
  - cbn beta. intros _ s5 Hs5. rewrite Hk1 in Hs5. eapply wp_mono; [by apply full_close_position|]. cbn beta. by intros _ s6 Hs6.
Qed.
Lemma allocate_full sz W kp ks s n : good sz W kp ks s -> 0 < n <= 2 ^ 32 -> m_can_grow s = false ->
  wpx (allocate n) s (fun b s' => given sz W kp ks s n sz b s') (fun e s' => e = bad_alloc /\ ((m_meta_total s < 6 /\ s' = s) \/ full_state sz W kp ks n s s')).
Proof.
  intros Hg Hn Hgrow. pose proof (good_free _ _ _ _ _ _ _ _ Hg) as (_ & Hmt & _). unfold allocate, lazy_initialize, get_meta_total, required_total_meta_blocks. wpx_step. wpx_step; [apply Z.ltb_lt; lia|]. wpx_step. wpx_step. wpx_step.
  destruct (Z.leb_spec 6 (m_meta_total s)).
  2: { wpx_step. unfold wpx. rewrite wrap_small by (unfold is_word; lia). rewrite allocate_from_engine_full by (done || lia). split; [done|]. by left. }
  wpx_step. wpx_step. eapply wp_wpx, wp_mono; [by apply (fix_freelist_spec cfgp cfgq bs Hcfg)|]. cbn beta. intros _ s2 (Hg2 & Ho2 & _). pose proof (options_evolve sz _ _ Ho2) as Hev2. destruct Hg2 as (lp & pp & ls & ps & <- & <- & Hst2).
  unfold or_else. wpx_step. eapply wp_wpx, wp_mono; [by apply (allocate_best_fit_spec cfgp cfgq bs Hcfg)|]. cbn beta. intros [b|] s3.
  { intros [Hgv _]. wpx_step. by eapply given_from. }
  intros (ps3 & Hks3 & Hst3 & Hall & Hev3). pose proof (evolves_trans _ _ _ _ _ _ Hev2 Hev3) as Hev30. assert (forall s', full_state sz W pp.*1 ps3.*1 n s3 s' -> full_state sz W pp.*1 ps.*1 n s s') as Hfull.
  { intros s' (lp' & pp' & ls' & ps' & Hp & Hq & Hst' & Ha & Hev'). exists lp', pp', ls', ps'. split_and!; [done|by rewrite Hq|done|done|]. by eapply evolves_trans. }
  wpx_step. eapply wpx_mono; [apply (allocate_last_full sz W lp pp ls ps3); [exact Hst3|done|done|destruct Hev30 as [-> _]; done]| |].
  - cbn beta. intros [b|] s4 [? Hf]; [done|]. wpx_step. assert (m_can_grow s4 = false) as Hg4. { destruct (Hfull _ Hf) as (? & ? & ? & ? & _ & _ & _ & _ & [-> _]). done. }
    unfold wpx. rewrite allocate_from_engine_full by (done || lia). split; [done|]. right. by apply Hfull.
  - cbn beta. intros e s4 [-> Hf]. split; [done|]. right. by apply Hfull.
Qed.
End full.

Section policies.
Context {E : Type} `{EngineSpec E}.
Abbreviation D := (default_allocator E).
Implicit Types (s : D) (U : gset Z) (l : list extent_t).

(** The free extents of the allocator. *)
Definition tracks r s U l : Prop := exists cfgp cfgq bs sz ls, configs_ok cfgp cfgq bs /\ state cfgp cfgq bs sz (snapshot s U) l [] ls [] s /\ accounts r sz s.
Lemma managed_tracks r s U : managed r s U <-> exists l, tracks r s U l.
Proof.
  split.
  - intros (cfgp & cfgq & bs & sz & Hcfg & (lp & pp & ls & ps & Hp & Hq & Hst) & Hacc). apply fmap_nil_inv in Hp, Hq. subst. by exists lp, cfgp, cfgq, bs, sz, ls.
  - intros (l & cfgp & cfgq & bs & sz & ls & Hcfg & Hst & Hacc). exists cfgp, cfgq, bs, sz. split_and!; [done| |done]. by exists l, [], ls, [].
Qed.
(** What an allocation of the blocks [b, b + n) does. *)
Definition hands_out r s U n b s' : Prop := managed r s' (U ∪ blocks b n) /\ blocks b n ## U /\ d_size (eng_view s') = d_size (eng_view s) /\
  forall i, i ∈ U -> disk_block (eng_view s') i = disk_block (eng_view s) i.
(** Nothing happened to the blocks in use. *)
Definition unaffected r s U s' : Prop := managed r s' U /\ d_size (eng_view s') = d_size (eng_view s) /\ forall i, i ∈ U -> disk_block (eng_view s') i = disk_block (eng_view s) i.

Lemma good_same_blocks cfgp cfgq bs sz W kp ks sz' W' kp' ks' s s' i : good cfgp cfgq bs sz W kp ks s -> good cfgp cfgq bs sz' W' kp' ks' s' -> W ⊆ W' -> i ∈ dom W -> disk_block (eng_view s') i = disk_block (eng_view s) i.
Proof.
  intros Hg Hg' HW [b Hb]%elem_of_dom. pose proof (good_facts _ _ _ _ _ _ _ _ Hg) as (_ & _ & _ & _ & _ & _ & _ & Hc). pose proof (good_facts _ _ _ _ _ _ _ _ Hg') as (_ & _ & _ & _ & _ & _ & _ & Hc').
  cbn. rewrite (Hc i b Hb). apply Hc'. by eapply lookup_weaken.
Qed.
Lemma given_hands_out r cfgp cfgq bs sz s U n b s' : configs_ok cfgp cfgq bs -> good cfgp cfgq bs sz (snapshot s U) [] [] s -> accounts r sz s -> given cfgp cfgq bs sz (snapshot s U) [] [] s n sz b s' -> hands_out r s U n b s'.
Proof.
  intros Hcfg Hg Hacc (W' & Hb & [HW Hdom] & Hd & Hg' & Hev). pose proof (good_facts _ _ _ _ _ _ _ _ Hg) as (_ & _ & Hsz & _). pose proof (good_facts _ _ _ _ _ _ _ _ Hg') as (_ & _ & Hsz' & _). rewrite dom_snapshot in *. split_and!.
  - eapply holding_dom; [exists cfgp, cfgq, bs, sz; split_and!; [done|exact Hg'|by apply Hev]|]. apply set_eq. intros i. by rewrite Hdom, elem_of_union, elem_of_blocks.
  - intros i Hi%elem_of_blocks. by apply Hd.
  - cbn. congruence.
  - intros i Hi. eapply (good_same_blocks _ _ _ _ _ _ _ _ _ _ _ s s'); [exact Hg|exact Hg'|done|by rewrite dom_snapshot].
Qed.
Lemma good_unaffected r cfgp cfgq bs sz s U s' : configs_ok cfgp cfgq bs -> good cfgp cfgq bs sz (snapshot s U) [] [] s -> accounts r sz s -> good cfgp cfgq bs sz (snapshot s U) [] [] s' -> evolves sz s sz s' -> unaffected r s U s'.
Proof.
  intros Hcfg Hg Hacc Hg' Hev. pose proof (good_facts _ _ _ _ _ _ _ _ Hg) as (_ & _ & Hsz & _). pose proof (good_facts _ _ _ _ _ _ _ _ Hg') as (_ & _ & Hsz' & _). split_and!.
  - eapply holding_dom; [exists cfgp, cfgq, bs, sz; split_and!; [done|exact Hg'|by apply Hev]|]. by rewrite dom_snapshot.
  - cbn. congruence.
  - intros i Hi. eapply (good_same_blocks _ _ _ _ _ _ _ _ _ _ _ s s'); [exact Hg|exact Hg'|done|by rewrite dom_snapshot].
Qed.

(** C11: the search for free space is best fit.  If some free extent has room for
    the request, the first blocks of a smallest such extent are handed out (and
    the rest stays free); if none has room, the search says so and changes
    nothing that a client sees. *)
Theorem allocate_takes_best_fit r s U l n : tracks r s U l -> 0 < n <= 2 ^ 32 ->
  exists s' x, allocate_best_fit n s = (s', Ok x) /\
    match x with
    | Some b => hands_out r s U n b s' /\ exists e, b = block e /\ e ∈ l /\ n <= size e /\ forall e', e' ∈ l -> n <= size e' -> size e <= size e'
    | None => unaffected r s U s' /\ forall e, e ∈ l -> size e < n
    end.
Proof.
  intros (cfgp & cfgq & bs & sz & ls & Hcfg & Hst & Hacc) Hn. apply wp_run. pose proof (good_state _ _ _ _ _ _ _ _ _ _ Hst) as Hg. cbn in Hg. eapply wp_mono; [by apply (allocate_best_fit_spec cfgp cfgq bs Hcfg)|]. cbn beta. intros [b|] s'.
  - intros [Hgv (e & (Hin & Hle & Hmin) & ->)]. split; [by eapply given_hands_out|]. by exists e.
  - intros (ps & Hps & Hst' & Hall & Hev). apply fmap_nil_inv in Hps. subst. apply good_state in Hst'. split; [by eapply good_unaffected|]. by apply Forall_forall.
Qed.


(** C12: the loops that balance the free list of metadata blocks terminate (their
    fuel, the metadata blocks and the free blocks, is enough, and none of the
    assertions inside fails), they leave the blocks in use and the size of the
    file alone, and afterwards the list has the blocks that the next insertion
    into both trees may need unless no free block is left. *)
Theorem fix_freelist_terminates r s U : managed r s U ->
  exists s', fix_freelist s = (s', Ok tt) /\ unaffected r s U s' /\
    (position_height s' + 1 + (size_height s' + 1) <= meta_free (m_meta s') \/ m_data_free s' = 0).
Proof.
  intros (cfgp & cfgq & bs & sz & Hcfg & Hg & Hacc). pose proof (fix_freelist_spec cfgp cfgq bs Hcfg sz _ _ _ s Hg) as Hw. apply wp_run in Hw as (s' & [] & Hrun & Hg' & Ho & _ & Hdone). exists s'. split_and!; [done| |].
  - eapply good_unaffected; [done|done|done|done|by apply options_evolve].
  - unfold required in Hdone. lia.
Qed.

Lemma managed_adds r s U k s' : managed r s U -> k <= r -> 0 <= m_data_total s + k < 2 ^ 64 ->
  s' = DefaultAllocator (m_meta s) (m_meta_total s) (u64 (m_data_total s + k)) (m_data_free s) (m_by_position s) (m_by_size s) (m_can_grow s) (m_min_chunk s) -> managed (r - k) s' U.
Proof.
  intros (cfgp & cfgq & bs & sz & Hcfg & (lp & pp & ls & ps & Hp & Hq & Hst) & Hr & Ht & Hsz) Hk Hb ->. exists cfgp, cfgq, bs, sz. split_and!; [done| |].
  - exists lp, pp, ls, ps. split_and!; [done|done|]. destruct Hst as [? ? ? ? ? ? ? ? ?]. by split.
  - unfold accounts. cbn. rewrite wrap_small by done. split_and!; lia.
Qed.
Lemma size_blocks b n : 0 <= n -> Z.of_nat (base.size (blocks b n)) = n.
Proof. intros Hn. unfold blocks. rewrite (size_list_to_set (seqZ b n)), length_seqZ by apply NoDup_seqZ. lia. Qed.

(** C13: [add_region] rejects an invalid index, an empty region and a region that
    is not inside the file with [bad_argument] and changes nothing; any other
    region of blocks that the allocator did not manage is handed over to it: the
    other blocks in use and the size of the file stay the same, and the
    statistics count the region as free blocks and metadata. *)
Theorem add_region_spec r s U b n : managed r s U -> is_u64 b -> is_u64 n ->
  (index_valid b = false \/ n = 0 \/ d_size (eng_view s) < b + n -> add_region b n s = (s, Err bad_argument)) /\
  (0 < n <= r -> blocks b n ⊆ U -> r <= Z.of_nat (base.size U) -> exists s', add_region b n s = (s', Ok tt) /\ managed (r - n) s' (U ∖ blocks b n) /\
    d_size (eng_view s') = d_size (eng_view s) /\ (forall i, i ∈ U ∖ blocks b n -> disk_block (eng_view s') i = disk_block (eng_view s) i) /\
    stats s' = (s', Ok (Stats (d_size (eng_view s) - r + n) (Z.of_nat (base.size U) - r) (m_data_free s') (m_meta_total s'))) /\
    m_data_free s' + m_meta_total s' = d_size (eng_view s) - Z.of_nat (base.size U) + n).
Proof.
  intros Hm Hb Hn. pose proof Hm as (cfgp & cfgq & bs & sz & Hcfg & Hg & Hacc). pose proof (good_facts _ _ _ _ _ _ _ _ Hg) as (Hsz & _ & Hds & _). change (d_size (eng_view s) = sz) in Hds. unfold is_word in Hb, Hn. split.
  - intros Hbad. assert (wpx (add_region b n) s (fun _ _ => False) (fun e s' => e = bad_argument /\ s' = s)) as Hw.
    2: { unfold wpx in Hw. destruct (add_region b n s) as [s' [[]|e]]; [done|]. by destruct Hw as [-> ->]. }
    unfold add_region. wpx_step. wpx_step; [done|]. wpx_step. wpx_step; [done|]. apply negb_false_iff in H1. apply Z.eqb_neq in H2. unfold engine_size. wpx_step. wpx_step.
    change (d_size (eng_view (fl_engine (meta_list (m_meta s))))) with (d_size (eng_view s)). rewrite Hds in *. wpx_step. wpx_step; [done|]. exfalso. apply orb_false_iff in H3 as [H3%Z.leb_gt H4%Z.ltb_ge]. rewrite wrap_small in H4 by (unfold is_word; lia).
    destruct Hbad as [?|[?|?]]; [congruence|done|lia].
  - intros Hnr Hsub HrU. assert (forall i, b <= i < b + n -> 0 <= i < sz) as Hin. { intros i Hi. pose proof (managed_wf _ _ _ Hm) as [_ Hin]. rewrite <- Hds. by apply Hin, Hsub, elem_of_blocks. }
    pose proof (Hin b ltac:(lia)). pose proof (Hin (b + n - 1) ltac:(lia)).
    pose proof (da_free_spec cfgp cfgq bs Hcfg sz _ _ _ s b n Hg ltac:(lia)) as Hw. premise Hw; [intros i Hi; rewrite dom_snapshot; by apply Hsub, elem_of_blocks|]. apply wp_run in Hw as (s1 & [] & Hrun & Hg1 & Ho1 & _).
    assert (managed r s1 (U ∖ blocks b n)) as Hm1.
    { eapply holding_dom; [exists cfgp, cfgq, bs, sz; split_and!; [done|exact Hg1|by apply (options_evolve sz _ _ Ho1)]|]. apply set_eq. intros i. by rewrite dom_drop_blocks, dom_snapshot, elem_of_difference, elem_of_blocks. }
    set (s' := DefaultAllocator (m_meta s1) (m_meta_total s1) (u64 (m_data_total s1 + n)) (m_data_free s1) (m_by_position s1) (m_by_size s1) (m_can_grow s1) (m_min_chunk s1)).
    destruct Ho1 as (Ht & _). destruct Hacc as (Hr0 & Ht0 & Hts). assert (managed (r - n) s' (U ∖ blocks b n)) as Hm' by (apply (managed_adds r s1 _ n); [done|lia|lia|done]).
    pose proof (good_facts _ _ _ _ _ _ _ _ Hg1) as (_ & _ & Hds' & _ & _ & _ & _ & Hc1). change (d_size (eng_view s') = sz) in Hds'. 
    assert (Z.of_nat (base.size (U ∖ blocks b n)) = Z.of_nat (base.size U) - n) as Hsize. { rewrite size_difference by done. pose proof (subseteq_size _ _ Hsub). pose proof (size_blocks b n ltac:(lia)). lia. }
    destruct (stats_counts (r - n) s' _ Hm' ltac:(lia)) as [Hstats Hsum]. rewrite Hds', Hsize in *. exists s'. split_and!; [|done|congruence| |rewrite Hstats, Hds; do 3 f_equal; lia|change (m_data_free s') with (m_data_free s1) in *; lia].
    + assert (wp (add_region b n) s (fun _ s'' => s'' = s')) as (s2 & [] & -> & ->)%wp_run; [|done]. unfold add_region, engine_size. wp_step. wp_step; [apply negb_false_iff, small_valid; lia|]. wp_step. wp_step. wp_step. wp_step.
      change (d_size (eng_view (fl_engine (meta_list (m_meta s))))) with (d_size (eng_view s)). rewrite Hds. wp_step. wp_step. { rewrite wrap_small by (unfold is_word; lia). lia. }
      wp_step. apply wp_run. exists s1, tt. split; [done|]. wp_step. wp_step. unfold set_data_total. by wp_step.
    + intros i [Hi Hni]%elem_of_difference. rewrite elem_of_blocks in Hni. change (disk_block (eng_view s1) i = disk_block (eng_view s) i). apply Hc1, lookup_drop_blocks. split; [|done]. by apply lookup_snapshot.
Qed.
End policies.

(** ** Examples *)

(** A file of twenty blocks that may not grow; six blocks become metadata, the
    extents [6, 10) and [12, 14) are free. *)
Definition sample_file : memory_engine.memory_engine := memory_engine.MemoryEngine (Geometry 256 8 255) (replicate 20 (replicate 256 x00)).
Definition sample_setup : M (default_allocator memory_engine.memory_engine) unit :=
  default_allocator.free 0 6 ;;; default_allocator.free 6 4 ;;; default_allocator.free 12 2.
Definition sample_used : gset Z := ((blocks 0 20 ∖ blocks 0 6) ∖ blocks 6 4) ∖ blocks 12 2.
Definition sample_fixed : option (default_allocator memory_engine.memory_engine) :=
  match make_default_allocator sample_file false with Ok s => Some (sample_setup s).1 | Err _ => None end.
Lemma sample_file_inv : eng_inv sample_file.
Proof. split_and!; [by exists 8|by repeat constructor|done]. Qed.
Lemma sample_file_managed s : make_default_allocator sample_file false = Ok s -> managed 20 s (blocks 0 20).
Proof. intros Hs. by destruct (make_default_allocator_spec sample_file false s sample_file_inv ltac:(done) Hs) as [Hm _]. Qed.
Lemma sample_fixed_managed s : sample_fixed = Some s -> managed 20 s sample_used.
Proof.
  unfold sample_fixed. destruct (make_default_allocator sample_file false) as [s0|] eqn:Hs; [|done]. intros Heq. injection Heq as <-. pose proof (sample_file_managed s0 Hs) as Hm.
  assert (wp sample_setup s0 (fun _ s' => managed 20 s' sample_used)) as (s' & [] & -> & Hm')%wp_run; [|done]. unfold sample_setup. wp_step.
  eapply wp_mono; [apply (default_free 20 s0 (blocks 0 20)); [done|lia|intros i; rewrite !elem_of_blocks; lia]|]. cbn beta. intros _ s1 [Hm1 _]. wp_step.
  eapply wp_mono; [apply (default_free 20 s1 _ 6 4 Hm1); [lia|intros i; rewrite elem_of_difference, !elem_of_blocks; lia]|]. cbn beta. intros _ s2 [Hm2 _].
  eapply wp_mono; [apply (default_free 20 s2 _ 12 2 Hm2); [lia|intros i; rewrite !elem_of_difference, !elem_of_blocks; lia]|]. cbn beta. by intros _ s3 [Hm3 _].
Qed.

Lemma allocate_takes_best_fit_witness : exists s l s' e, sample_fixed = Some s /\ tracks 20 s sample_used l /\ allocate_best_fit 2 s = (s', Ok (Some 12)) /\
  hands_out 20 s sample_used 2 12 s' /\ block e = 12 /\ e ∈ l /\ forall e', e' ∈ l -> 2 <= size e' -> size e <= size e'.
Proof.
  destruct sample_fixed as [s|] eqn:Hs; [|by vm_compute in Hs]. destruct (proj1 (managed_tracks 20 s sample_used) (sample_fixed_managed s Hs)) as [l Hl].
  destruct (allocate_takes_best_fit 20 s sample_used l 2 Hl ltac:(lia)) as (s' & x & Hx & Hspec). assert ((allocate_best_fit 2 s).2 = Ok (Some 12)) as Hval by (vm_compute in Hs; injection Hs as <-; by vm_compute).
  rewrite Hx in Hval. injection Hval as ->. destruct Hspec as (Hout & e & He & Hin & _ & Hmin). exists s, l, s', e. split_and!; [reflexivity|exact Hl|exact Hx|exact Hout|symmetry; exact He|exact Hin|exact Hmin].
Defined.
Lemma fix_freelist_terminates_witness : exists s s', sample_fixed = Some s /\ fix_freelist s = (s', Ok tt) /\ unaffected 20 s sample_used s'.
Proof.
  destruct sample_fixed as [s|] eqn:Hs; [|by vm_compute in Hs]. destruct (fix_freelist_terminates 20 s sample_used (sample_fixed_managed s Hs)) as (s' & Hf & Hun & _). exists s, s'. split_and!; [reflexivity|exact Hf|exact Hun].
Defined.
Lemma add_region_spec_witness : exists s s', make_default_allocator sample_file false = Ok s /\ add_region 2 10 s = (s', Ok tt) /\ (stats s').2 = Ok (Stats 10 0 4 6) /\
  add_region 15 6 s = (s, Err bad_argument) /\ managed 10 s' (blocks 0 20 ∖ blocks 2 10).
Proof.
  destruct (make_default_allocator sample_file false) as [s|] eqn:Hs; [|by vm_compute in Hs]. pose proof (sample_file_managed s Hs) as Hm.
  assert (d_size (eng_view s) = 20) as Hd by (vm_compute in Hs; injection Hs as <-; by vm_compute).
  destruct (add_region_spec 20 s (blocks 0 20) 15 6 Hm ltac:(done) ltac:(done)) as [Hbad _].
  destruct (add_region_spec 20 s (blocks 0 20) 2 10 Hm ltac:(done) ltac:(done)) as [_ Hok].
  destruct Hok as (s' & Hrun & Hm' & _); [lia|intros i; rewrite !elem_of_blocks; lia|by rewrite size_blocks|]. exists s, s'. split_and!; [reflexivity|exact Hrun| |apply Hbad; right; right; lia|exact Hm'].
  assert ((stats (add_region 2 10 s).1).2 = Ok (Stats 10 0 4 6)) as Hst by (vm_compute in Hs; injection Hs as <-; by vm_compute). by rewrite Hrun in Hst.
Defined.

(** An extent at the end of a file that may not grow cannot be enlarged even
    if another free extent has room for it. *)
Lemma reallocate_at_end_fails : exists s, sample_fixed = Some s /\ (default_allocator.reallocate 18 2 4 s).2 = Err bad_alloc /\ (default_allocator.allocate 4 s).2 = Ok 6.
Proof. eexists. split_and!; [vm_compute; reflexivity|by vm_compute|by vm_compute]. Qed.
End default_policy.
