(* ===== verification/Files.v ===== *)
(** * Files (include/prequel/vfs.hpp, src/vfs.cpp)

    [File] holds the operations of the abstract class [file] that the
    engines call, [FileSpec] the behaviour they rely on: a file is an array
    of bytes.  The memory file of src/vfs.cpp discharges it. *)

From S2P Require Import Prelude MathOps.

(** ** Interface *)

Class File (F : Type) : Type := {
  file_data : F -> bytes;
  file_read_only : F -> bool;
  file_read : Z -> Z -> M F bytes;
  file_write : Z -> bytes -> M F unit;
  file_size : F -> Z;
  file_truncate : Z -> M F unit;
  file_sync : M F unit
}.

(** [resize n l]: the first [n] bytes of [l], padded with zeros. *)
Definition resize (n : Z) (l : bytes) : bytes :=
  take (Z.to_nat n) l ++ zeros (n - zlen l).

Lemma length_resize n l : 0 <= n -> zlen (resize n l) = n.
Proof. intros. unfold resize, zeros. len. Qed.

Lemma resize_id n l : n = zlen l -> resize n l = l.
Proof.
  intros ->. unfold resize. rewrite Z.sub_diag, Nat2Z.id, firstn_all. apply app_nil_r.
Qed.

Lemma resize_shrink n l : 0 <= n <= zlen l -> resize n l = slice 0 n l.
Proof.
  intros. unfold resize, slice. simpl. rewrite drop_0.
  replace (zeros (n - zlen l)) with (@nil byte); [apply app_nil_r|].
  unfold zeros. by replace (Z.to_nat (n - zlen l)) with 0%nat by lia.
Qed.

Lemma resize_grow n l : zlen l <= n -> resize n l = l ++ zeros (n - zlen l).
Proof. intros. unfold resize. by rewrite take_ge by lia. Qed.

Lemma slice_resize off n m l :
  0 <= off -> 0 <= n -> off + n <= m -> off + n <= zlen l ->
  slice off n (resize m l) = slice off n l.
Proof.
  intros. destruct (decide (m <= zlen l)).
  - by rewrite resize_shrink, slice_slice by lia.
  - rewrite resize_grow by lia. apply slice_app_l; lia.
Qed.

(** Writing at the end of a file, or over its end, extends it. *)
Class FileSpec (F : Type) `{File F} : Prop := {
  file_read_spec : forall f off n,
    0 <= off -> 0 < n < 2 ^ 32 -> off + n <= zlen (file_data f) < 2 ^ 64 ->
    wp (file_read off n) f (fun b f' => b = slice off n (file_data f) /\ f' = f);
  file_write_spec : forall f off data,
    file_read_only f = false -> 0 <= off <= zlen (file_data f) -> zlen (file_data f) < 2 ^ 64 ->
    0 < zlen data < 2 ^ 32 -> off + zlen data < 2 ^ 64 ->
    wp (file_write off data) f (fun _ f' =>
      file_data f' = splice off data (file_data f) /\ file_read_only f' = false);
  file_size_spec : forall f, file_size f = zlen (file_data f);
  file_truncate_spec : forall f n, file_read_only f = false -> 0 <= n < 2 ^ 64 ->
    wp (file_truncate n) f (fun _ f' =>
      file_data f' = resize n (file_data f) /\ file_read_only f' = false);
  file_sync_spec : forall f, wp file_sync f (fun _ f' => f' = f)
}.

(** ** The memory file of src/vfs.cpp

    A [std::vector] of bytes; [size_t] has 64 bits and memory suffices. *)
Module memory_file.

Record memory_file : Set := MemoryFile { m_data : bytes; m_read_only : bool }.

Definition set_data (d : bytes) (f : memory_file) : memory_file :=
  MemoryFile d (m_read_only f).

(** [in_memory_vfs::open] and [create_temp] *)
Definition open (read_only : bool) : memory_file := MemoryFile [] read_only.
Definition create_temp : memory_file := MemoryFile [] false.

Definition range_check (offset count : Z) : M memory_file unit :=
  let* sz := gets (fun f => zlen (m_data f)) in
  if (offset <? sz) && (count <=? sz - offset) then ret tt else throw io_error.

Definition read (offset count : Z) : M memory_file bytes :=
  assert! (0 <? count) ;;;
  range_check offset count ;;;
  gets (fun f => slice offset count (m_data f)).

(** [sz > numeric_limits<size_t>::max()] cannot hold for a 64 bit [sz]. *)
Definition truncate (sz : Z) : M memory_file unit :=
  throw_if (u64_max <? sz) io_error ;;;
  modify (fun f => set_data (resize sz (m_data f)) f).

Definition write (offset : Z) (data : bytes) : M memory_file unit :=
  let count := zlen data in
  assert! (0 <? count) ;;;
  let* ro := gets m_read_only in
  throw_if ro io_error ;;;
  let* sz := gets (fun f => zlen (m_data f)) in
  (if (offset <=? sz) && (sz - offset <? count)
   then truncate (u64 (offset + count)) else ret tt) ;;;
  let* sz := gets (fun f => zlen (m_data f)) in
  assert! ((offset <=? sz) && (count <=? sz - offset)) ;;;
  modify (fun f => set_data (splice offset data (m_data f)) f).

Definition size (f : memory_file) : Z := zlen (m_data f).
Definition close : M memory_file unit := modify (set_data []).

#[global] Instance memory_file_file : File memory_file := {|
  file_data := m_data;
  file_read_only := m_read_only;
  file_read := read;
  file_write := write;
  file_size := size;
  file_truncate := truncate;
  file_sync := ret tt
|}.

Lemma splice_resize off data l :
  0 <= off <= zlen l -> zlen l < off + zlen data ->
  splice off data (resize (off + zlen data) l) = splice off data l.
Proof.
  intros Ho Hl. rewrite resize_grow by lia. unfold splice.
  rewrite take_app_le by lia. rewrite !drop_ge by (unfold zeros; len). done.
Qed.

#[global] Instance memory_file_spec : FileSpec memory_file.
Proof.
  split.
  - intros f off n Ho Hn Hl. simpl in *. unfold read, range_check. wp_steps.
    destruct (Z.ltb_spec off (zlen (m_data f))); [|lia].
    destruct (Z.leb_spec n (zlen (m_data f) - off)); [|lia]. simpl. by wp_steps.
  - intros f off data Hro Ho Hsz Hc Hmax. simpl in *. unfold write. wp_steps.
    destruct (Z.leb_spec off (zlen (m_data f))); [simpl|lia].
    rewrite wrap_small by (unfold is_word; lia).
    destruct (Z.ltb_spec (zlen (m_data f) - off) (zlen data)).
    + unfold truncate, u64_max. wp_steps; simpl; [rewrite length_resize; lia|].
      by rewrite splice_resize by lia.
    + by wp_steps.
  - done.
  - intros f n Hro Hn. simpl in *. unfold truncate, u64_max. by wp_steps.
  - intros f. simpl. by wp_steps.
Qed.

End memory_file.
