(* ===== verification/EngineBase.v ===== *)
(** * The block cache shared by the file based engines

    src/engine/engine_base.{hpp,ipp} with its helpers block.hpp,
    block_cache.hpp, block_dirty_set.hpp, block_map.hpp, block_pool.hpp.

    A [block*] in the block map is identified by its index: the hook of the
    map makes the index unique.  The cache is the intrusive list of the
    unpinned blocks (most recently used first), the dirty set the ordered set
    of dirty indices, the pool the list of reusable buffers.  [do_read] and
    [do_write] are the virtual functions of the derived engine; its state is
    [backend].  [malloc] is the content of a fresh buffer, an arbitrary
    function of the state; it does not fail. *)

From Stdlib Require Import Sorted Strings.Byte.
From S2P Require Import Prelude MathOps Blocks.

(** ** Virtual functions of the derived engine *)

Class Backend (B : Type) : Type := {
  do_read : geometry -> Z -> M B bytes;
  do_write : geometry -> Z -> bytes -> M B unit
}.

(** [be_block] is the content of the stored database, [be_in] says which
    indices can be read and written, [be_fails] which errors the storage may
    report.  A failed write may have destroyed the block it was writing. *)
Class BackendSpec (B : Type) `{Backend B} : Type := {
  be_inv : geometry -> B -> Prop;
  be_writable : B -> Prop;
  be_fails : error -> Prop;
  be_in : geometry -> B -> Z -> Prop;
  be_block : geometry -> B -> Z -> bytes;
  be_wf : forall g b i, be_inv g b -> be_in g b i -> zlen (be_block g b i) = g_block_size g;
  be_read_spec : forall g b i, be_inv g b -> be_in g b i ->
    let keep b' := be_inv g b' /\ (forall j, be_block g b' j = be_block g b j) /\
      (forall j, be_in g b' j <-> be_in g b j) /\ (be_writable b -> be_writable b') in
    wpx (do_read g i) b (fun d b' => d = be_block g b i /\ keep b') (fun e b' => be_fails e /\ keep b');
  be_write_spec : forall g b i d, be_inv g b -> be_writable b -> be_in g b i ->
    zlen d = g_block_size g ->
    let upd d b' := be_inv g b' /\
      (forall j, be_block g b' j = if decide (j = i) then d else be_block g b j) /\
      (forall j, be_in g b' j <-> be_in g b j) /\ be_writable b' in
    wpx (do_write g i d) b (fun _ b' => upd d b')
      (fun e b' => be_fails e /\ exists d', upd d' b')
}.

(** ** State *)

(** [struct block]; the hooks are membership in the containers below. *)
Record block : Set := Block { m_data : bytes; m_pinned : bool }.

(** [file_engine_stats] *)
Record stats : Set := Stats { reads : Z; writes : Z; cache_hits : Z }.

Record engine_base (B : Type) : Type := EngineBase {
  backend : B;
  m_geo : geometry;
  m_max_blocks : Z;
  m_max_pooled_blocks : Z;
  m_read_only : bool;
  m_pool : list bytes;
  m_blocks : gmap Z block;
  m_cache : list Z;
  m_dirty : list Z;
  m_stats : stats
}.
Arguments EngineBase {B}.
Arguments backend {B} _.
Arguments m_geo {B} _.
Arguments m_max_blocks {B} _.
Arguments m_max_pooled_blocks {B} _.
Arguments m_read_only {B} _.
Arguments m_pool {B} _.
Arguments m_blocks {B} _.
Arguments m_cache {B} _.
Arguments m_dirty {B} _.
Arguments m_stats {B} _.

(** The content of a fresh buffer is not known; it has the right length. *)
Class Malloc (B : Type) : Type := malloc : engine_base B -> bytes.
Class MallocSpec (B : Type) `{Malloc B} : Prop :=
  malloc_length : forall s : engine_base B,
    wf_geometry (m_geo s) -> zlen (malloc s) = g_block_size (m_geo s).

Section setters.
Context {B : Type}.
Implicit Types (s : engine_base B).

Definition set_backend (b : B) s := EngineBase b (m_geo s) (m_max_blocks s)
  (m_max_pooled_blocks s) (m_read_only s) (m_pool s) (m_blocks s) (m_cache s) (m_dirty s) (m_stats s).
Definition set_pool (p : list bytes) s := EngineBase (backend s) (m_geo s) (m_max_blocks s)
  (m_max_pooled_blocks s) (m_read_only s) p (m_blocks s) (m_cache s) (m_dirty s) (m_stats s).
Definition set_blocks (m : gmap Z block) s := EngineBase (backend s) (m_geo s) (m_max_blocks s)
  (m_max_pooled_blocks s) (m_read_only s) (m_pool s) m (m_cache s) (m_dirty s) (m_stats s).
Definition set_cache (c : list Z) s := EngineBase (backend s) (m_geo s) (m_max_blocks s)
  (m_max_pooled_blocks s) (m_read_only s) (m_pool s) (m_blocks s) c (m_dirty s) (m_stats s).
Definition set_dirty (d : list Z) s := EngineBase (backend s) (m_geo s) (m_max_blocks s)
  (m_max_pooled_blocks s) (m_read_only s) (m_pool s) (m_blocks s) (m_cache s) d (m_stats s).
Definition set_stats (f : stats -> stats) s := EngineBase (backend s) (m_geo s) (m_max_blocks s)
  (m_max_pooled_blocks s) (m_read_only s) (m_pool s) (m_blocks s) (m_cache s) (m_dirty s)
  (f (m_stats s)).
End setters.

Definition count_read (st : stats) := Stats (u64 (reads st + 1)) (writes st) (cache_hits st).
Definition count_write (st : stats) := Stats (reads st) (u64 (writes st + 1)) (cache_hits st).
Definition count_hit (st : stats) := Stats (reads st) (writes st) (u64 (cache_hits st + 1)).

(** The constructor. *)
Definition make_engine_base {B} (b : B) (block_size cache_blocks : Z) (read_only : bool) :
    result (engine_base B) :=
  match log2 32 block_size with
  | Err e => Err e
  | Ok l =>
    let pooled := if u64 (cache_blocks + 8) <? cache_blocks then u64_max
                  else u64 (cache_blocks + 8) in
    if is_pow2 32 block_size then
      Ok (EngineBase b (Geometry block_size l (u32 (block_size - 1))) cache_blocks pooled
            read_only [] ∅ [] [] (Stats 0 0 0))
    else Err check_failure
  end.

(** ** Operations *)

(** [block_cache] *)
Definition cache_contains {B} (i : Z) (s : engine_base B) : bool := bool_decide (i ∈ m_cache s).
Definition cache_add {B} (i : Z) : M (engine_base B) unit :=
  let* linked := gets (cache_contains i) in
  assert! (negb linked) ;;;
  modify (fun s => set_cache (i :: m_cache s) s).
Definition cache_remove {B} (i : Z) : M (engine_base B) unit :=
  let* linked := gets (cache_contains i) in
  assert! linked ;;;
  modify (fun s => set_cache (filter (fun j => j <> i) (m_cache s)) s).
Definition lru_candidate {B} : M (engine_base B) (option Z) := gets (fun s => last (m_cache s)).

(** [block_dirty_set]: an ordered set of indices. *)
Definition is_dirty {B} (i : Z) (s : engine_base B) : bool := bool_decide (i ∈ m_dirty s).
Fixpoint ordered_insert (i : Z) (l : list Z) : list Z :=
  match l with
  | [] => [i]
  | j :: l' => if i <? j then i :: l else if i =? j then l else j :: ordered_insert i l'
  end.
Definition dirty_add {B} (i : Z) : M (engine_base B) unit :=
  let* linked := gets (is_dirty i) in
  assert! (negb linked) ;;;
  modify (fun s => set_dirty (ordered_insert i (m_dirty s)) s).
Definition dirty_remove {B} (i : Z) : M (engine_base B) unit :=
  let* linked := gets (is_dirty i) in
  assert! linked ;;;
  modify (fun s => set_dirty (filter (fun j => j <> i) (m_dirty s)) s).

(** [block_map] *)
Definition find {B} (i : Z) : M (engine_base B) (option block) := gets (fun s => m_blocks s !! i).
Definition map_contains {B} (i : Z) (s : engine_base B) : bool :=
  match m_blocks s !! i with Some _ => true | None => false end.
Definition map_insert {B} (i : Z) (blk : block) : M (engine_base B) unit :=
  let* linked := gets (map_contains i) in
  assert! (negb linked) ;;;
  modify (fun s => set_blocks (<[i := blk]> (m_blocks s)) s).
Definition map_remove {B} (i : Z) : M (engine_base B) unit :=
  let* linked := gets (map_contains i) in
  assert! linked ;;;
  modify (fun s => set_blocks (delete i (m_blocks s)) s).
Definition map_size {B} (s : engine_base B) : Z := Z.of_nat (size (m_blocks s)).

(** [block_pool]; [block::reset] and [block_pool::add] check that the block
    is in no other container. *)
Definition pool_add {B} (i : Z) (blk : block) : M (engine_base B) unit :=
  let* cached := gets (cache_contains i) in
  let* mapped := gets (map_contains i) in
  let* dirty := gets (is_dirty i) in
  assert! (negb (m_pinned blk) && negb cached && negb mapped && negb dirty) ;;;
  modify (fun s => set_pool (m_pool s ++ [m_data blk]) s).
Definition pool_remove {B} : M (engine_base B) (option bytes) :=
  let* p := gets m_pool in
  match p with
  | [] => ret None
  | d :: p' => modify (set_pool p') ;;; ret (Some d)
  end.

Section operations.
Context {B : Type} `{Backend B}.
Context `{!Malloc B}.
Abbreviation E := (engine_base B).

Definition call {A} (m : geometry -> M B A) : M E A :=
  let* g := gets m_geo in zoom backend set_backend (m g).

(** [block_at i]: the block behind a pointer into the block map. *)
Definition block_at (i : Z) : M E block :=
  let* b := find i in
  match b with Some blk => ret blk | None => throw assert_failure end.

Definition allocate_block : M E bytes :=
  let* d := pool_remove in
  match d with
  | Some d => ret d
  | None => gets malloc
  end.

Definition free_block (i : Z) (blk : block) : M E unit :=
  let* n := gets map_size in
  let* p := gets (fun s => zlen (m_pool s)) in
  let* max := gets m_max_pooled_blocks in
  if n + p <? max then pool_add i blk else ret tt.

Definition flush_block (i : Z) : M E unit :=
  let* d := gets (is_dirty i) in
  assert! d ;;;
  let* ro := gets m_read_only in
  assert! (negb ro) ;;;
  let* blk := block_at i in
  call (fun g => do_write g i (m_data blk)) ;;;
  dirty_remove i ;;;
  modify (set_stats count_write).

Definition evict_block (i : Z) : M E unit :=
  let* cached := gets (cache_contains i) in
  assert! cached ;;;
  let* blk := block_at i in
  let* d := gets (is_dirty i) in
  (if d then flush_block i else ret tt) ;;;
  cache_remove i ;;;
  map_remove i ;;;
  free_block i blk.

(** "We need to allocate a new block instance; fix the cache."  Every
    iteration removes a block from the cache, whose size is enough fuel. *)
Fixpoint shrink_cache (fuel : nat) : M E unit :=
  let* n := gets map_size in
  let* max := gets m_max_blocks in
  if max <? n then
    let* evict := lru_candidate in
    match evict with
    | None => ret tt
    | Some i =>
      match fuel with
      | O => throw check_failure
      | S fuel => evict_block i ;;; shrink_cache fuel
      end
    end
  else ret tt.

Definition pin (index : Z) (initialize : bool) : M E unit :=
  let* b := find index in
  match b with
  | Some blk =>
    throw_if (m_pinned blk) bad_argument ;;;
    let* cached := gets (cache_contains index) in
    assert! cached ;;;
    modify (set_stats count_hit) ;;;
    cache_remove index ;;;
    modify (fun s => set_blocks (<[index := Block (m_data blk) true]> (m_blocks s)) s)
  | None =>
    let* fuel := gets (fun s => length (m_cache s)) in
    shrink_cache fuel ;;;
    let* d := allocate_block in
    let* d :=
      on_exception
        (if initialize then
           let* d := call (fun g => do_read g index) in
           modify (set_stats count_read) ;;;
           ret d
         else ret d)
        (free_block index (Block d false)) in
    map_insert index (Block d true)
  end.

(** The assertions at the start of [unpin], [dirty] and [flush]. *)
Definition pinned_block (index : Z) : M E block :=
  let* blk := block_at index in
  assert! (m_pinned blk) ;;;
  ret blk.

Definition unpin (index : Z) : M E unit :=
  let* blk := pinned_block index in
  modify (fun s => set_blocks (<[index := Block (m_data blk) false]> (m_blocks s)) s) ;;;
  cache_add index.

Definition dirty (index : Z) : M E unit :=
  let* _ := pinned_block index in
  let* ro := gets m_read_only in
  throw_if ro io_error ;;;
  let* d := gets (is_dirty index) in
  if negb d then dirty_add index else ret tt.

(** [flush(index, blk)] *)
Definition flush_index (index : Z) : M E unit :=
  let* _ := pinned_block index in
  let* d := gets (is_dirty index) in
  if d then flush_block index else ret tt.

(** The loop of [flush()]: the successor is computed before a block leaves
    the dirty set, so the loop visits the initial dirty set in order. *)
Fixpoint flush_list (l : list Z) : M E unit :=
  match l with
  | [] => ret tt
  | i :: l => flush_block i ;;; flush_list l
  end.

Definition assert_clean : M E unit :=
  let* d := gets m_dirty in
  assert! (match d with [] => true | _ => false end).

Definition flush : M E unit :=
  let* l := gets m_dirty in
  flush_list l ;;;
  assert_clean.

(** Drops a block that is not pinned; [was_dirty] if it is in the dirty set. *)
Definition drop_block (i : Z) (blk : block) (was_dirty : bool) : M E unit :=
  let* cached := gets (cache_contains i) in
  assert! (negb (m_pinned blk)) ;;;
  assert! cached ;;;
  (if was_dirty then dirty_remove i else ret tt) ;;;
  cache_remove i ;;;
  map_remove i ;;;
  free_block i blk.

Fixpoint discard_list (l : list Z) : M E unit :=
  match l with
  | [] => ret tt
  | i :: l =>
    let* blk := block_at i in
    drop_block i blk true ;;;
    discard_list l
  end.

Definition discard_dirty : M E unit :=
  let* l := gets m_dirty in
  discard_list l ;;;
  assert_clean.

Definition discard (index : Z) : M E unit :=
  let* b := find index in
  match b with
  | Some blk =>
    let* d := gets (is_dirty index) in
    drop_block index blk d
  | None => ret tt
  end.

(** A store through the data pointer of a pinned block. *)
Definition store (index : Z) (f : bytes -> bytes) : M E unit :=
  let* blk := block_at index in
  modify (fun s => set_blocks (<[index := Block (f (m_data blk)) (m_pinned blk)]> (m_blocks s)) s).
End operations.

(** ** Specification *)

Section invariant.
Context {B : Type} `{BackendSpec B}.
Abbreviation E := (engine_base B).
Implicit Types (s : E) (i j : Z) (X : Z -> Prop).

Abbreviation bs s := (g_block_size (m_geo s)).

(** Content and range of the storage below the cache. *)
Definition stored s i : bytes := be_block (m_geo s) (backend s) i.
Definition in_store s i : Prop := be_in (m_geo s) (backend s) i.

(** The content of block [i] as clients see it. *)
Definition logical s i : bytes :=
  match m_blocks s !! i with Some blk => m_data blk | None => stored s i end.

(** The data of block [i] if it is pinned. *)
Definition pinned_data s i : option bytes :=
  match m_blocks s !! i with Some (Block d true) => Some d | _ => None end.

(** The blocks of [X] are pinned, clean and not initialized yet. *)
Record inv_except X s : Prop := {
  i_geo : wf_geometry (m_geo s);
  i_be : be_inv (m_geo s) (backend s);
  i_writable : m_read_only s = false -> be_writable (backend s);
  i_cache_nodup : NoDup (m_cache s);
  i_cache : forall i, i ∈ m_cache s <-> exists d, m_blocks s !! i = Some (Block d false);
  i_sorted : StronglySorted Z.lt (m_dirty s);
  i_dirty : forall i, i ∈ m_dirty s -> is_Some (m_blocks s !! i);
  i_read_only : m_read_only s = true -> m_dirty s = [];
  i_data : forall i blk, m_blocks s !! i = Some blk -> zlen (m_data blk) = bs s;
  i_in : forall i blk, m_blocks s !! i = Some blk -> m_pinned blk = true \/ i ∈ m_dirty s -> in_store s i;
  i_clean : forall i blk, m_blocks s !! i = Some blk -> i ∉ m_dirty s -> ~ X i ->
    m_data blk = stored s i;
  i_pool : Forall (fun d => zlen d = bs s) (m_pool s);
  i_pool_bound : m_pool s = [] \/ map_size s + zlen (m_pool s) <= m_max_pooled_blocks s
}.

Definition inv s : Prop := inv_except (fun _ => False) s.

(** What no operation of the cache changes. *)
Record same_config s s' : Prop := {
  k_geo : m_geo s' = m_geo s;
  k_max : m_max_blocks s' = m_max_blocks s;
  k_pooled : m_max_pooled_blocks s' = m_max_pooled_blocks s;
  k_read_only : m_read_only s' = m_read_only s;
  k_in : forall i, in_store s' i <-> in_store s i
}.

(** [s'] has the contents and the pins of [s]. *)
Record unchanged s s' : Prop := {
  u_config : same_config s s';
  u_logical : forall i, logical s' i = logical s i;
  u_pinned : forall i, pinned_data s' i = pinned_data s i
}.

Lemma inv_weaken X s : inv s -> inv_except X s.
Proof. intros []. split; try done. intros i blk Hi Hnd _. exact (i_clean0 i blk Hi Hnd id). Qed.

#[global] Instance same_config_refl : Reflexive same_config.
Proof. by split. Qed.
#[global] Instance same_config_trans : Transitive same_config.
Proof. intros s1 s2 s3 [] []. split; [congruence..|]. intros i. by rewrite k_in1. Qed.
#[global] Instance unchanged_refl : Reflexive unchanged.
Proof. by split. Qed.
#[global] Instance unchanged_trans : Transitive unchanged.
Proof.
  intros s1 s2 s3 [] []. split; [by etrans|..]; intros i; congruence.
Qed.
End invariant.

Lemma elem_of_ordered_insert i j l : j ∈ ordered_insert i l <-> j = i \/ j ∈ l.
Proof.
  induction l as [|k l IH]; simpl; [set_solver|].
  destruct (Z.ltb_spec i k); [set_solver|]. destruct (Z.eqb_spec i k); set_solver.
Qed.

Lemma ordered_insert_sorted i l :
  StronglySorted Z.lt l -> StronglySorted Z.lt (ordered_insert i l).
Proof.
  induction 1 as [|k l Hl IH Hk]; simpl; [by repeat constructor|].
  destruct (Z.ltb_spec i k).
  { repeat constructor; try done. eapply Forall_impl; [exact Hk|]. simpl. lia. }
  destruct (Z.eqb_spec i k); constructor; try done.
  apply Forall_forall. intros j Hj. rewrite Forall_forall in Hk.
  apply elem_of_ordered_insert in Hj as [->|Hj]; [lia|]. by apply Hk.
Qed.

Lemma filter_sorted (P : Z -> Prop) `{!forall x, Decision (P x)} l :
  StronglySorted Z.lt l -> StronglySorted Z.lt (filter P l).
Proof.
  induction 1 as [|k l Hl IH Hk]; [constructor|]. rewrite filter_cons. case_decide; [|done].
  constructor; [done|]. apply Forall_forall. intros j [_ Hj]%list_elem_of_filter.
  rewrite Forall_forall in Hk. by apply Hk.
Qed.

Lemma list_filter_all {A} (P : A -> Prop) `{!forall x, Decision (P x)} l :
  Forall P l -> filter P l = l.
Proof. induction 1; [done|]. rewrite filter_cons_True by done. by f_equal. Qed.

Lemma last_in {A} (l : list A) x : last l = Some x -> x ∈ l.
Proof. intros (l' & ->)%last_Some. set_solver. Qed.

Section operations_spec.
Context {B : Type} `{BackendSpec B}.
Abbreviation E := (engine_base B).
Implicit Types (s : E) (i j : Z) (X : Z -> Prop).
Abbreviation bs s := (g_block_size (m_geo s)).

(** *** Writing one block back *)
Lemma flush_block_spec X s i :
  inv_except X s -> i ∈ m_dirty s ->
  wpx (flush_block i) s
    (fun _ s' => inv_except X s' /\ unchanged s s' /\ m_blocks s' = m_blocks s /\
       m_cache s' = m_cache s /\ m_dirty s' = filter (fun j => j <> i) (m_dirty s) /\
       forall j, stored s' j = if decide (j = i) then logical s i else stored s j)
    (fun e s' => be_fails e /\ inv_except X s' /\ unchanged s s' /\
       m_blocks s' = m_blocks s /\ m_cache s' = m_cache s /\ m_dirty s' = m_dirty s).
Proof.
  intros Hinv Hi. destruct (i_dirty _ _ Hinv i Hi) as [blk Hblk].
  pose proof (i_data _ _ Hinv _ _ Hblk) as Hlen.
  pose proof (i_in _ _ Hinv _ _ Hblk (or_intror Hi)) as Hin.
  assert (m_read_only s = false) as Hro.
  { destruct (m_read_only s) eqn:Hro; [|done].
    rewrite (i_read_only _ _ Hinv Hro) in Hi. set_solver. }
  unfold flush_block, is_dirty, block_at, find, call.
  wpx_steps; [by apply bool_decide_eq_true|by rewrite Hro|]. rewrite Hblk. wpx_steps.
  apply wpx_zoom. eapply wpx_mono;
    [apply be_write_spec; [apply Hinv|by apply Hinv|done|done]|..]; cbn beta.
  - intros _ b (Hb & Hblocks & Hbin & Hw). unfold dirty_remove, is_dirty. wpx_steps.
    { by apply bool_decide_eq_true. }
    assert (forall j, stored (set_backend b s) j =
      if decide (j = i) then logical s i else stored s j) as Hst.
    { intros j. unfold stored, logical. simpl. rewrite Hblocks, Hblk. done. }
    split_and!; try done.
    + destruct Hinv. split; try done; simpl.
      * by apply filter_sorted.
      * intros j [_ Hj]%list_elem_of_filter. auto.
      * intros Hr. congruence.
      * intros j blk' Hj Hp. apply Hbin. apply (i_in0 j blk' Hj). destruct Hp as [Hp|Hp]; [by left|right]. by (apply list_elem_of_filter in Hp as [_ ?]) || exact Hp.
      * intros j blk' Hj Hd HX. unfold stored; simpl. rewrite Hblocks. case_decide.
        -- by simplify_eq.
        -- apply (i_clean0 j); [done| |done]. intros Hj'. apply Hd. apply list_elem_of_filter. done.
    + split; [by split| |done]. intros j. unfold logical; simpl.
      destruct (m_blocks s !! j) eqn:Hj; [done|]. unfold stored; simpl. rewrite Hblocks.
      case_decide; [congruence|done].
  - intros e b (He & d' & Hb & Hblocks & Hbin & Hw). split_and!; try done.
    + destruct Hinv. split; try done; simpl.
      * intros j blk' Hj Hp. apply Hbin. apply (i_in0 j blk' Hj). destruct Hp as [Hp|Hp]; [by left|right]. by (apply list_elem_of_filter in Hp as [_ ?]) || exact Hp.
      * intros j blk' Hj Hd HX. unfold stored; simpl. rewrite Hblocks.
        case_decide; [congruence|by apply i_clean0].
    + split; [by split| |done]. intros j. unfold logical; simpl.
      destruct (m_blocks s !! j) eqn:Hj; [done|]. unfold stored; simpl. rewrite Hblocks.
      case_decide; [congruence|done].
Qed.

(** *** Removing a clean, unpinned block from memory *)
Lemma free_block_spec X s i d :
  inv_except X s -> m_blocks s !! i = None -> zlen d = bs s ->
  wp (free_block i (Block d false)) s (fun _ s' =>
    inv_except X s' /\ exists p, s' = set_pool p s).
Proof.
  intros Hinv Hi Hd. unfold free_block. wp_steps.
  assert (i ∉ m_cache s) as Hc.
  { intros [d' Hd']%(i_cache _ _ Hinv). congruence. }
  assert (i ∉ m_dirty s) as Hdi.
  { intros [d' Hd']%(i_dirty _ _ Hinv). congruence. }
  destruct (Z.ltb_spec (map_size s + zlen (m_pool s)) (m_max_pooled_blocks s)) as [Hlt|Hge].
  - unfold pool_add, cache_contains, map_contains, is_dirty. wp_steps.
    { rewrite Hi. by rewrite !bool_decide_eq_false_2. }
    split; [|by eexists]. destruct Hinv. split; try done; simpl.
    + apply Forall_app. split; [done|]. by constructor.
    + right. unfold map_size in *; simpl. rewrite length_app. simpl. lia.
  - wp_steps. split; [done|]. exists (m_pool s). by destruct s.
Qed.

Lemma remove_block_spec X s i d :
  inv_except X s -> m_blocks s !! i = Some (Block d false) -> i ∉ m_dirty s ->
  wp (cache_remove i ;;; map_remove i ;;; free_block i (Block d false)) s (fun _ s' =>
    inv_except X s' /\ same_config s s' /\ backend s' = backend s /\
    m_blocks s' = delete i (m_blocks s) /\ m_dirty s' = m_dirty s /\
    m_cache s' = filter (fun j => j <> i) (m_cache s)).
Proof.
  intros Hinv Hi Hd. pose proof (i_data _ _ Hinv _ _ Hi) as Hlen.
  assert (i ∈ m_cache s) as Hc by (apply (i_cache _ _ Hinv); eauto).
  unfold cache_remove, map_remove, cache_contains, map_contains.
  wp_steps; [by apply bool_decide_eq_true|simpl; by rewrite Hi|].
  set (s1 := set_blocks _ _).
  assert (inv_except X s1) as Hinv1.
  { destruct Hinv. split; try done; simpl.
    - by apply NoDup_filter.
    - intros j. rewrite list_elem_of_filter, i_cache0. split.
      + intros [Hne [d' Hd']]. exists d'. by rewrite lookup_delete_ne.
      + intros [d' [Hne Hd']%lookup_delete_Some]. eauto.
    - intros j Hj. destruct (decide (j = i)) as [->|]; [done|].
      rewrite lookup_delete_ne by done. auto.
    - intros j blk [_ Hj]%lookup_delete_Some. by eapply i_data0.
    - intros j blk [_ Hj]%lookup_delete_Some. by eapply i_in0.
    - intros j blk [_ Hj]%lookup_delete_Some. by apply i_clean0.
    - destruct i_pool_bound0 as [?|Hb]; [by left|right].
      unfold map_size in *; simpl. rewrite map_size_delete, Hi. simpl. lia. }
  eapply wp_mono; [apply free_block_spec; [done|apply lookup_delete_eq|done]|].
  cbn beta. intros _ s' [Hinv' [p ->]]. split_and!; done.
Qed.

Lemma evict_block_spec s i :
  inv s -> i ∈ m_cache s ->
  wpx (evict_block i) s
    (fun _ s' => inv s' /\ unchanged s s' /\ m_blocks s' = delete i (m_blocks s) /\
       m_cache s' = filter (fun j => j <> i) (m_cache s))
    (fun e s' => be_fails e /\ inv s' /\ unchanged s s').
Proof.
  intros Hinv Hi. destruct (proj1 (i_cache _ _ Hinv i) Hi) as [d Hd].
  unfold evict_block, cache_contains, block_at, find, is_dirty.
  wpx_steps; [by apply bool_decide_eq_true|]. rewrite Hd. wpx_steps.
  assert (forall s1 : E, inv s1 -> unchanged s s1 -> m_blocks s1 = m_blocks s ->
    m_cache s1 = m_cache s -> i ∉ m_dirty s1 ->
    wpx (cache_remove i ;;; map_remove i ;;; free_block i (Block d false)) s1
      (fun _ s' => inv s' /\ unchanged s s' /\ m_blocks s' = delete i (m_blocks s) /\
         m_cache s' = filter (fun j => j <> i) (m_cache s))
      (fun e s' => be_fails e /\ inv s' /\ unchanged s s')) as Hrest.
  { intros s1 Hinv1 Hu Hb Hc Hnd. rewrite <- Hb in Hd. apply wp_wpx.
    eapply wp_mono; [by apply (remove_block_spec (fun _ => False) s1)|]. cbn beta.
    intros _ s' (Hinv' & Hcfg & Hbe & Hblk & Hdirty & Hcache).
    rewrite Hblk, Hcache, Hb, Hc. split_and!; try done. etrans; [exact Hu|]. split; [done|..].
    - intros j. unfold logical, stored. rewrite Hblk, Hbe, (k_geo _ _ Hcfg).
      destruct (decide (j = i)) as [->|].
      + rewrite lookup_delete_eq, Hd. symmetry. exact (i_clean _ _ Hinv1 i _ Hd Hnd id).
      + by rewrite lookup_delete_ne.
    - intros j. unfold pinned_data. rewrite Hblk. destruct (decide (j = i)) as [->|].
      + rewrite lookup_delete_eq, Hd. done.
      + by rewrite lookup_delete_ne. }
  case_bool_decide as Hdirty; [|by apply Hrest].
  eapply wpx_mono; [by apply flush_block_spec|..]; cbn beta.
  - intros _ s1 (Hinv1 & Hu & Hb & Hc & Hd1 & _). apply Hrest; try done.
    rewrite Hd1. intros [? _]%list_elem_of_filter. done.
  - intros e s' (He & Hinv' & Hu & _). done.
Qed.

Lemma shrink_cache_spec fuel : forall s,
  inv s -> (length (m_cache s) <= fuel)%nat ->
  wpx (shrink_cache fuel) s
    (fun _ s' => inv s' /\ unchanged s s' /\
       (map_size s' <= m_max_blocks s' \/ m_cache s' = []) /\
       forall i, m_blocks s !! i = None -> m_blocks s' !! i = None)
    (fun e s' => be_fails e /\ inv s' /\ unchanged s s').
Proof.
  induction fuel as [|fuel IH]; intros s Hinv Hf; cbn [shrink_cache]; wpx_steps;
    destruct (Z.ltb_spec (m_max_blocks s) (map_size s)) as [Hgt|Hle];
    try (wpx_steps; split_and!; auto; done || lia).
  - destruct (m_cache s) eqn:Hc; [|simpl in Hf; lia]. unfold lru_candidate.
    wpx_steps. rewrite Hc. simpl. wpx_steps. split_and!; auto; done.
  - unfold lru_candidate. wpx_steps. destruct (last (m_cache s)) as [i|] eqn:Hl.
    2:{ apply last_None in Hl. wpx_steps. split_and!; auto; done. }
    apply last_in in Hl. wpx_step.
    eapply wpx_mono; [by apply evict_block_spec|..]; cbn beta.
    + intros _ s1 (Hinv1 & Hu & Hb & Hc). eapply wpx_mono; [apply IH; [done|]|..]; cbn beta.
      * rewrite Hc. pose proof (length_filter_lt (fun j => j <> i) (m_cache s) i Hl
          ltac:(naive_solver)). lia.
      * intros _ s2 (Hinv2 & Hu2 & Hm & Hn). split_and!; [done|by etrans|done|].
        intros j Hj. apply Hn. rewrite Hb. apply lookup_delete_None. auto.
      * intros e s2 (He & Hinv2 & Hu2). split_and!; [done..|by etrans].
    + intros e s1 (He & Hinv1 & Hu). done.
Qed.

(** *** Pinning *)

(** [d] is pinned as block [i]; the contents and pins of the other blocks
    are those of [s]. *)
Record set_pinned s i (d : bytes) s' : Prop := {
  sp_config : same_config s s';
  sp_data : m_blocks s' !! i = Some (Block d true);
  sp_logical : forall j, j <> i -> logical s' j = logical s j;
  sp_pinned : forall j, j <> i -> pinned_data s' j = pinned_data s j
}.

Lemma unchanged_set_pinned s s1 i d s2 :
  unchanged s s1 -> set_pinned s1 i d s2 -> set_pinned s i d s2.
Proof.
  intros [] []. split; [by etrans|done|..]; intros j Hj.
  - by rewrite sp_logical0.
  - by rewrite sp_pinned0.
Qed.

Lemma set_pinned_trans s s1 i d d' s2 :
  set_pinned s i d s1 -> set_pinned s1 i d' s2 -> set_pinned s i d' s2.
Proof.
  intros [] []. split; [by etrans|done|..]; intros j Hj.
  - by rewrite sp_logical1, sp_logical0.
  - by rewrite sp_pinned1, sp_pinned0.
Qed.

Lemma set_pinned_block X s i d d0 p :
  inv_except X s -> m_blocks s !! i = Some (Block d0 p) ->
  set_pinned s i d (set_blocks (<[i := Block d true]> (m_blocks s)) s).
Proof.
  intros Hinv Hi. split; [done|apply lookup_insert_eq|..]; intros j Hj.
  - unfold logical; simpl. by rewrite lookup_insert_ne.
  - unfold pinned_data; simpl. by rewrite lookup_insert_ne.
Qed.

(** A block that is in memory already. *)
Lemma pin_cached s i d :
  inv s -> in_store s i -> m_blocks s !! i = Some (Block d false) ->
  wp (let* cached := gets (cache_contains i) in
      assert! cached ;;;
      modify (set_stats count_hit) ;;;
      cache_remove i ;;;
      modify (fun s => set_blocks (<[i := Block d true]> (m_blocks s)) s)) s
    (fun _ s' => inv s' /\ set_pinned s i d s' /\ logical s i = d /\
       map_size s' = map_size s).
Proof.
  intros Hinv Hin Hi. assert (i ∈ m_cache s) as Hc by (apply (i_cache _ _ Hinv); eauto).
  unfold cache_remove, cache_contains.
  wp_steps; [by apply bool_decide_eq_true..|]. split_and!.
  - destruct Hinv. split; try done; simpl.
    + by apply NoDup_filter.
    + intros j. rewrite list_elem_of_filter, i_cache0. split.
      * intros [Hne [d' Hd']]. exists d'. by rewrite lookup_insert_ne.
      * intros [d' [[-> ?]|[Hne Hd']]%lookup_insert_Some]; [done|]. eauto.
    + intros j Hj. apply lookup_insert_is_Some'. auto.
    + intros j blk [[-> <-]|[Hne Hj]]%lookup_insert_Some.
      * exact (i_data0 _ _ Hi).
      * by eapply i_data0.
    + intros j blk [[-> <-]|[Hne Hj]]%lookup_insert_Some; [done|]. by eapply i_in0.
    + intros j blk [[-> <-]|[Hne Hj]]%lookup_insert_Some Hd Hx.
      * exact (i_clean0 _ _ Hi Hd Hx).
      * by apply i_clean0.
    + unfold map_size in *; simpl. by rewrite map_size_insert_Some by (rewrite Hi; eauto).
  - split; [done|apply lookup_insert_eq|..]; intros j Hj.
    + unfold logical; simpl. by rewrite lookup_insert_ne.
    + unfold pinned_data; simpl. by rewrite lookup_insert_ne.
  - unfold logical. by rewrite Hi.
  - unfold map_size; simpl. by rewrite map_size_insert_Some by (rewrite Hi; eauto).
Qed.

(** A block that has just been loaded (or not initialized at all). *)
Lemma insert_pinned X s i d :
  inv s -> m_blocks s !! i = None -> in_store s i -> zlen d = bs s ->
  (X i \/ d = stored s i) ->
  (m_pool s = [] \/ map_size s + 1 + zlen (m_pool s) <= m_max_pooled_blocks s) ->
  wp (map_insert i (Block d true)) s (fun _ s' =>
    inv_except X s' /\ set_pinned s i d s' /\ map_size s' = map_size s + 1 /\
    m_cache s' = m_cache s).
Proof.
  intros Hinv Hi Hin Hd Hx Hp. unfold map_insert, map_contains. wp_steps; [by rewrite Hi|].
  assert (map_size (set_blocks (<[i := Block d true]> (m_blocks s)) s) = map_size s + 1) as Hsz.
  { unfold map_size; simpl. rewrite map_size_insert_None by done. lia. }
  split_and!; [| |done|done].
  - destruct Hinv. split; try done; simpl.
    + intros j. rewrite i_cache0. split; intros [d' Hd']; exists d'.
      * rewrite lookup_insert_ne; [done|]. congruence.
      * by apply lookup_insert_Some in Hd' as [[-> ?]|[Hne Hd']].
    + intros j Hj. apply lookup_insert_is_Some'. auto.
    + intros j blk [[-> <-]|[Hne Hj]]%lookup_insert_Some; [done|]. by eapply i_data0.
    + intros j blk [[-> <-]|[Hne Hj]]%lookup_insert_Some; [done|]. by eapply i_in0.
    + intros j blk [[-> <-]|[Hne Hj]]%lookup_insert_Some Hnd HX.
      * destruct Hx as [?|Hx]; [done|exact Hx].
      * exact (i_clean0 _ _ Hj Hnd id).
    + rewrite Hsz. done.
  - split; [done|apply lookup_insert_eq|..]; intros j Hj.
    + unfold logical; simpl. by rewrite lookup_insert_ne.
    + unfold pinned_data; simpl. by rewrite lookup_insert_ne.
Qed.

Context `{!Malloc B, !MallocSpec B}.

Lemma allocate_block_spec s :
  inv s -> wp allocate_block s (fun d s' =>
    inv s' /\ unchanged s s' /\ zlen d = bs s /\ m_blocks s' = m_blocks s /\
    m_cache s' = m_cache s /\
    (m_pool s' = [] \/ map_size s' + 1 + zlen (m_pool s') <= m_max_pooled_blocks s')).
Proof.
  intros Hinv. unfold allocate_block, pool_remove. wp_steps.
  destruct (m_pool s) as [|d p] eqn:Hp; wp_steps.
  - split_and!; auto; [done|]. apply malloc_length, Hinv.
  - destruct Hinv. rewrite Hp in *. apply Forall_cons in i_pool0 as [Hd Hpl].
    assert (map_size s + zlen (d :: p) <= m_max_pooled_blocks s) as Hb
      by (destruct i_pool_bound0; done).
    simpl in Hb. split_and!; try done.
    + split; try done. right. unfold map_size in *; simpl. lia.
    + right. unfold map_size in *; simpl. lia.
Qed.

Lemma load_spec s i (init : bool) d :
  inv s -> in_store s i -> m_blocks s !! i = None -> zlen d = bs s ->
  wpx (on_exception
        (if init then
           let* d := call (fun g => do_read g i) in
           modify (set_stats count_read) ;;;
           ret d
         else ret d)
        (free_block i (Block d false))) s
    (fun d' s' => inv s' /\ unchanged s s' /\ zlen d' = bs s /\
       (init = true -> d' = stored s i) /\ m_blocks s' = m_blocks s /\
       m_cache s' = m_cache s /\ m_pool s' = m_pool s)
    (fun e s' => be_fails e /\ inv s' /\ unchanged s s').
Proof.
  intros Hinv Hin Hi Hd. apply wpx_on_exception. destruct init; wpx_steps; [|done].
  pose proof (be_wf _ _ i (i_be _ _ Hinv) Hin) as Hl.
  assert (forall b f, be_inv (m_geo s) b ->
    (forall j, be_block (m_geo s) b j = be_block (m_geo s) (backend s) j) ->
    (forall j, be_in (m_geo s) b j <-> be_in (m_geo s) (backend s) j) ->
    (be_writable (backend s) -> be_writable b) ->
    inv (set_stats f (set_backend b s)) /\ unchanged s (set_stats f (set_backend b s))) as Hkeep.
  { intros b f Hb Hbl Hbin Hw. split.
    - destruct Hinv. split; try done; simpl.
      + auto.
      + intros j blk Hj Hp. apply Hbin. by eapply i_in0.
      + intros j blk Hj Hnd HX. unfold stored; simpl. rewrite Hbl. by apply i_clean0.
    - split; [by split| |done]. intros j. unfold logical, stored; simpl. by rewrite Hbl. }
  unfold call. wpx_steps. apply wpx_zoom.
  eapply wpx_mono; [apply be_read_spec; [apply Hinv|done]|..]; cbn beta.
  - intros d' b (-> & Hb & Hbl & Hbin & Hw). wpx_steps.
    destruct (Hkeep b count_read Hb Hbl Hbin Hw). done.
  - intros e b (He & Hb & Hbl & Hbin & Hw).
    destruct (Hkeep b id Hb Hbl Hbin Hw) as [Hinv1 Hu].
    change (set_stats id (set_backend b s)) with (set_backend b s) in *.
    eapply wp_mono; [by eapply (free_block_spec (fun _ => False) (set_backend b s))|]. cbn beta.
    intros _ s' [Hinv' [p ->]]. split_and!; [done..|]. etrans; [exact Hu|]. done.
Qed.

Lemma pin_spec s i (init : bool) :
  inv s -> in_store s i -> pinned_data s i = None ->
  wpx (pin i init) s
    (fun _ s' => exists d, inv_except (fun j => init = false /\ j = i) s' /\
       set_pinned s i d s' /\ zlen d = bs s /\ (init = true -> d = logical s i) /\
       (map_size s' <= Z.max (map_size s) (m_max_blocks s + 1) \/ m_cache s' = []))
    (fun e s' => be_fails e /\ inv s' /\ unchanged s s').
Proof.
  intros Hinv Hin Hp. unfold pin, find. wpx_steps.
  destruct (m_blocks s !! i) as [[d p]|] eqn:Hi.
  - pose proof (i_data _ _ Hinv _ _ Hi) as Hlen.
    unfold pinned_data in Hp. rewrite Hi in Hp. destruct p; [done|]. wpx_step. wpx_step; [done|].
    apply wp_wpx. eapply wp_mono; [by apply pin_cached|]. cbn beta.
    intros _ s' (Hinv' & Hs & Hd & Hsz). exists d. split_and!; try done; [|left; lia].
    by apply inv_weaken.
  - wpx_steps. eapply wpx_mono; [by apply shrink_cache_spec|..]; cbn beta; [|done].
    intros _ s1 (Hinv1 & Hu1 & Hb1 & Hn1). wpx_step. apply wp_wpx.
    eapply wp_mono; [by apply allocate_block_spec|]. cbn beta.
    intros d s2 (Hinv2 & Hu2 & Hd & Hb2 & Hc2 & Hp2). assert (unchanged s s2) as Hu by (by etrans).
    assert (in_store s2 i) as Hin2 by (by apply (k_in _ _ (u_config _ _ Hu))).
    assert (m_blocks s2 !! i = None) as Hn2 by (rewrite Hb2; by apply Hn1).
    rewrite <- (k_geo _ _ (u_config _ _ Hu2)) in Hd. wpx_step.
    eapply wpx_mono; [by apply load_spec|..]; cbn beta.
    + intros d' s3 (Hinv3 & Hu3 & Hd' & Hst & Hb3 & Hc3 & Hp3). apply wp_wpx.
      assert (unchanged s s3) as Hu' by (by etrans).
      assert (bs s3 = bs s2) as Hbs3 by (by rewrite (k_geo _ _ (u_config _ _ Hu3))).
      assert (logical s i = stored s2 i) as Hlog.
      { rewrite <- (u_logical _ _ Hu). unfold logical. by rewrite Hn2. }
      assert (stored s3 i = stored s2 i) as Hst3.
      { pose proof (u_logical _ _ Hu3 i) as Hl. unfold logical in Hl. by rewrite Hb3, Hn2 in Hl. }
      eapply wp_mono;
        [apply (insert_pinned (fun j => init = false /\ j = i) s3 i d'); try done|].
      * by rewrite Hb3.
      * by apply (k_in _ _ (u_config _ _ Hu')).
      * lia.
      * destruct init; [right; rewrite Hst3; auto|by left].
      * unfold map_size. rewrite Hp3, Hb3, (k_pooled _ _ (u_config _ _ Hu3)). exact Hp2.
      * cbn beta. intros _ s4 (Hinv4 & Hs4 & Hsz & Hc4). exists d'. split_and!; try done.
        -- by eapply unchanged_set_pinned.
        -- by rewrite Hd', (k_geo _ _ (u_config _ _ Hu)).
        -- intros Hi'. by rewrite (Hst Hi'), Hlog.
        -- rewrite Hc4, Hc3, Hc2. destruct Hb1 as [Hb1| ->]; [left|by right].
           rewrite (k_max _ _ (u_config _ _ Hu1)) in Hb1.
           unfold map_size in *. rewrite Hsz, Hb3, Hb2. lia.
    + intros e s3 (He & Hinv3 & Hu3). split_and!; [done..|by etrans].
Qed.

(** *** Operations on a pinned block *)

Lemma pinned_block_spec s i d R Q :
  m_blocks s !! i = Some (Block d true) -> Q (Block d true) s -> wpx (pinned_block i) s Q R.
Proof.
  intros Hi HQ. unfold pinned_block, block_at, find. wpx_steps. rewrite Hi. by wpx_steps.
Qed.

Lemma unpin_spec s i d :
  inv s -> m_blocks s !! i = Some (Block d true) ->
  wp (unpin i) s (fun _ s' => inv s' /\ same_config s s' /\
    (forall j, logical s' j = logical s j) /\
    (forall j, pinned_data s' j = if decide (j = i) then None else pinned_data s j)).
Proof.
  intros Hinv Hi. unfold unpin. apply wpx_wp. wpx_step. eapply pinned_block_spec; [done|].
  assert (i ∉ m_cache s) as Hc.
  { intros [d' Hd']%(i_cache _ _ Hinv). congruence. }
  unfold cache_add, cache_contains. wpx_steps; [simpl; by rewrite bool_decide_eq_false_2|].
  split_and!.
  - destruct Hinv. split; try done; simpl.
    + by constructor.
    + intros j. rewrite elem_of_cons, i_cache0. split.
      * intros [->|[d' Hd']]; [exists d; apply lookup_insert_eq|].
        exists d'. rewrite lookup_insert_ne; [done|congruence].
      * intros [d' [[-> ?]|[Hne Hd']]%lookup_insert_Some]; eauto.
    + intros j Hj. apply lookup_insert_is_Some'. auto.
    + intros j blk [[-> <-]|[Hne Hj]]%lookup_insert_Some;
        [exact (i_data0 _ _ Hi)|by eapply i_data0].
    + intros j blk [[-> <-]|[Hne Hj]]%lookup_insert_Some Hj2; [|by eapply i_in0].
      apply (i_in0 _ _ Hi). by left.
    + intros j blk [[-> <-]|[Hne Hj]]%lookup_insert_Some Hnd HX;
        [exact (i_clean0 _ _ Hi Hnd HX)|by apply i_clean0].
    + unfold map_size in *; simpl. by rewrite map_size_insert_Some by (rewrite Hi; eauto).
  - done.
  - intros j. unfold logical; simpl. destruct (decide (j = i)) as [->|].
    + by rewrite lookup_insert_eq, Hi.
    + by rewrite lookup_insert_ne.
  - intros j. unfold pinned_data; simpl. destruct (decide (j = i)) as [->|].
    + by rewrite lookup_insert_eq.
    + by rewrite lookup_insert_ne.
Qed.

(** [dirty] on a writable engine; it also ends the initialization of a
    block that was pinned without reading it. *)
Lemma dirty_spec s i d :
  inv_except (fun j => j = i) s -> m_read_only s = false ->
  m_blocks s !! i = Some (Block d true) ->
  wp (dirty i) s (fun _ s' => inv s' /\ i ∈ m_dirty s' /\ unchanged s s' /\
    m_blocks s' = m_blocks s).
Proof.
  intros Hinv Hro Hi. unfold dirty, is_dirty. apply wpx_wp. wpx_step.
  eapply pinned_block_spec; [done|]. wpx_steps; [congruence|].
  case_bool_decide as Hd; simpl.
  - apply wpx_ret. split_and!; try done. destruct Hinv. split; try done.
    intros j blk Hj Hnd _. apply i_clean0; [done..|]. congruence.
  - unfold dirty_add, is_dirty. wpx_steps; [by rewrite bool_decide_eq_false_2|].
    split_and!; try done; simpl; [|apply elem_of_ordered_insert; auto].
    destruct Hinv. split; try done; simpl.
    + by apply ordered_insert_sorted.
    + intros j [->|Hj]%elem_of_ordered_insert; eauto.
    + intros. congruence.
    + intros j blk Hj [Hp|[->|Hp]%elem_of_ordered_insert]; [eauto| |eauto].
      apply (i_in0 _ _ Hi). by left.
    + intros j blk Hj Hnd _. rewrite elem_of_ordered_insert in Hnd. apply i_clean0; naive_solver.
Qed.

Lemma dirty_read_only s i d :
  m_read_only s = true -> m_blocks s !! i = Some (Block d true) ->
  dirty i s = (s, Err io_error).
Proof.
  intros Hro Hi. unfold dirty, pinned_block, block_at, find, bind, gets. rewrite Hi. simpl.
  by rewrite Hro.
Qed.

(** A store to a block that is dirty, or not initialized yet. *)
Lemma store_spec X s i d f :
  inv_except X s -> m_blocks s !! i = Some (Block d true) -> (i ∈ m_dirty s \/ X i) ->
  length (f d) = length d ->
  wp (store i f) s (fun _ s' => inv_except X s' /\ set_pinned s i (f d) s' /\
    m_dirty s' = m_dirty s).
Proof.
  intros Hinv Hi Hx Hl. unfold store, block_at, find. wp_steps. rewrite Hi. wp_steps.
  simpl. split_and!; [|by eapply set_pinned_block|done].
  destruct Hinv. split; try done; simpl.
  - intros j. rewrite i_cache0. split; intros [d' Hd']; exists d'.
    + rewrite lookup_insert_ne; [done|congruence].
    + by apply lookup_insert_Some in Hd' as [[-> ?]|[Hne Hd']].
  - intros j Hj. apply lookup_insert_is_Some'. auto.
  - intros j blk [[-> <-]|[Hne Hj]]%lookup_insert_Some; [|by eapply i_data0].
    pose proof (i_data0 _ _ Hi). simpl in *. lia.
  - intros j blk [[-> <-]|[Hne Hj]]%lookup_insert_Some Hj2; [|by eapply i_in0].
    apply (i_in0 _ _ Hi). by left.
  - intros j blk [[-> <-]|[Hne Hj]]%lookup_insert_Some Hnd HX; [by destruct Hx|by apply i_clean0].
  - unfold map_size in *; simpl. by rewrite map_size_insert_Some by (rewrite Hi; eauto).
Qed.

(** *** Flushing *)

Lemma filter_head i l : StronglySorted Z.lt (i :: l) -> filter (fun j => j <> i) (i :: l) = l.
Proof.
  intros [_ Hi]%StronglySorted_inv. rewrite filter_cons_False by naive_solver.
  apply list_filter_all. eapply Forall_impl; [exact Hi|]. simpl. lia.
Qed.

Lemma clean_stored s i : inv s -> m_dirty s = [] -> stored s i = logical s i.
Proof.
  intros Hinv Hd. unfold logical. destruct (m_blocks s !! i) eqn:Hi; [|done].
  symmetry. apply (i_clean _ _ Hinv i); [done|rewrite Hd; set_solver|exact id].
Qed.

Lemma flush_list_spec l : forall s,
  inv s -> m_dirty s = l ->
  wpx (flush_list l) s
    (fun _ s' => inv s' /\ unchanged s s' /\ m_dirty s' = [] /\
       m_blocks s' = m_blocks s /\ m_cache s' = m_cache s)
    (fun e s' => be_fails e /\ inv s' /\ unchanged s s').
Proof.
  induction l as [|i l IH]; intros s Hinv Hl; cbn [flush_list]; [by wpx_steps|]. wpx_step.
  eapply wpx_mono; [apply flush_block_spec; [done|rewrite Hl; set_solver]|..]; cbn beta.
  - intros _ s1 (Hinv1 & Hu & Hb & Hc & Hd & _).
    eapply wpx_mono; [apply IH; [done|]|..]; cbn beta.
    + rewrite Hd, Hl. apply filter_head. rewrite <- Hl. apply (i_sorted _ _ Hinv).
    + intros _ s2 (? & ? & ? & ? & ?). split_and!; [done|by etrans|done|congruence..].
    + intros e s2 (? & ? & ?). split_and!; [done..|by etrans].
  - intros e s1 (He & Hinv1 & Hu & _). done.
Qed.

Lemma flush_spec s :
  inv s ->
  wpx flush s
    (fun _ s' => inv s' /\ unchanged s s' /\ m_dirty s' = [] /\
       m_blocks s' = m_blocks s /\ m_cache s' = m_cache s /\
       (forall i, stored s' i = logical s i))
    (fun e s' => be_fails e /\ inv s' /\ unchanged s s').
Proof.
  intros Hinv. unfold flush, assert_clean. wpx_steps.
  eapply wpx_mono; [by apply flush_list_spec|..]; cbn beta; [|done].
  intros _ s' (Hinv' & Hu & Hd & Hb & Hc). wpx_steps; [by rewrite Hd|]. split_and!; try done.
  intros i. rewrite clean_stored by done. apply Hu.
Qed.

Lemma flush_index_spec s i d :
  inv s -> m_blocks s !! i = Some (Block d true) ->
  wpx (flush_index i) s
    (fun _ s' => inv s' /\ unchanged s s' /\ m_blocks s' = m_blocks s /\
       stored s' i = d /\ i ∉ m_dirty s')
    (fun e s' => be_fails e /\ inv s' /\ unchanged s s').
Proof.
  intros Hinv Hi. unfold flush_index, is_dirty. wpx_step. eapply pinned_block_spec; [done|].
  wpx_steps. case_bool_decide as Hd.
  - eapply wpx_mono; [by apply flush_block_spec|..]; cbn beta.
    + intros _ s' (? & ? & ? & ? & Hd' & Hst). split_and!; try done.
      * rewrite Hst, decide_True by done. unfold logical. by rewrite Hi.
      * rewrite Hd'. intros [? _]%list_elem_of_filter. done.
    + intros e s' (? & ? & ? & _). done.
  - wpx_steps. split_and!; try done. symmetry. exact (i_clean _ _ Hinv _ _ Hi Hd id).
Qed.

(** *** Discarding *)

Lemma drop_block_spec s i d :
  inv s -> m_blocks s !! i = Some (Block d false) ->
  wp (drop_block i (Block d false) (is_dirty i s)) s (fun _ s' =>
    inv s' /\ same_config s s' /\ backend s' = backend s /\
    m_blocks s' = delete i (m_blocks s) /\ m_dirty s' = filter (fun j => j <> i) (m_dirty s)).
Proof.
  intros Hinv Hi. assert (i ∈ m_cache s) as Hc by (apply (i_cache _ _ Hinv); eauto).
  unfold drop_block, cache_contains, is_dirty.
  wp_steps; [by apply bool_decide_eq_true|].
  set (s1 := set_dirty (filter (fun j => j <> i) (m_dirty s)) s).
  eapply wp_mono with (Q := fun _ s' => s' = s1).
  { case_bool_decide as Hd.
    - unfold dirty_remove, is_dirty. wp_steps; [by apply bool_decide_eq_true|done].
    - wp_steps. unfold s1. rewrite list_filter_all; [by destruct s|].
      apply Forall_forall. intros j Hj ->. done. }
  cbn beta. intros _ ? ->.
  assert (inv_except (fun j => j = i) s1) as Hinv1.
  { destruct Hinv. split; try done; simpl.
    - by apply filter_sorted.
    - intros j [_ Hj]%list_elem_of_filter. auto.
    - intros Hro. by rewrite i_read_only0.
    - intros j blk Hj [Hp|[_ Hp]%list_elem_of_filter]; eauto.
    - intros j blk Hj Hnd Hne. apply (i_clean0 j); [done| |exact id].
      intros Hj'. apply Hnd, list_elem_of_filter. done. }
  eapply wp_mono; [apply (remove_block_spec (fun j => j = i) s1 i d); [done..|]|].
  { intros [? _]%list_elem_of_filter. done. }
  cbn beta. intros _ s' (Hinv' & Hcfg & Hbe & Hb & Hd & _).
  split_and!; try done; [|by destruct Hcfg].
  destruct Hinv'. split; try done. intros j blk Hj Hnd _. apply i_clean0; [done..|].
  intros ->. by rewrite Hb, lookup_delete_eq in Hj.
Qed.

Lemma discard_list_spec l : forall s,
  inv s -> m_dirty s = l -> Forall (fun i => pinned_data s i = None) l ->
  wp (discard_list l) s (fun _ s' => inv s' /\ same_config s s' /\ backend s' = backend s /\
    m_dirty s' = [] /\ (forall i, pinned_data s' i = pinned_data s i) /\
    (forall i, m_blocks s' !! i = if decide (i ∈ l) then None else m_blocks s !! i)).
Proof.
  induction l as [|i l IH]; intros s Hinv Hl Hp; cbn [discard_list]; [by wp_steps|].
  apply Forall_cons in Hp as [Hpi Hp].
  destruct (i_dirty _ _ Hinv i) as [[d p] Hi]; [rewrite Hl; set_solver|].
  unfold pinned_data in Hpi. rewrite Hi in Hpi. destruct p; [done|].
  unfold block_at, find. wp_steps. rewrite Hi. wp_steps.
  replace true with (is_dirty i s)
    by (unfold is_dirty; apply bool_decide_eq_true; rewrite Hl; set_solver).
  eapply wp_mono; [by apply drop_block_spec|]. cbn beta.
  intros _ s1 (Hinv1 & Hcfg & Hbe & Hb & Hd).
  assert (forall j, pinned_data s1 j = pinned_data s j) as Hpin.
  { intros j. unfold pinned_data. rewrite Hb. destruct (decide (j = i)) as [->|].
    - by rewrite lookup_delete_eq, Hi.
    - by rewrite lookup_delete_ne. }
  eapply wp_mono; [apply IH; [done| |]|]; cbn beta.
  - rewrite Hd, Hl. apply filter_head. rewrite <- Hl. apply (i_sorted _ _ Hinv).
  - eapply Forall_impl; [exact Hp|]. simpl. intros j. by rewrite Hpin.
  - intros _ s2 (Hinv2 & Hcfg2 & Hbe2 & Hd2 & Hpin2 & Hb2).
    split_and!; [done|by etrans|congruence|done|by intros; rewrite Hpin2|].
    intros j. rewrite Hb2, Hb. destruct (decide (j = i)) as [->|].
    + rewrite lookup_delete_eq. repeat case_decide; set_solver.
    + rewrite lookup_delete_ne by done. repeat case_decide; set_solver.
Qed.

(** [discard_dirty] resets every block to its stored content. *)
Lemma discard_dirty_spec s :
  inv s -> (forall i, i ∈ m_dirty s -> pinned_data s i = None) ->
  wp discard_dirty s (fun _ s' => inv s' /\ same_config s s' /\ backend s' = backend s /\
    m_dirty s' = [] /\ (forall i, pinned_data s' i = pinned_data s i) /\
    (forall i, logical s' i = stored s i) /\
    (forall i, m_blocks s !! i = None -> m_blocks s' !! i = None)).
Proof.
  intros Hinv Hp. unfold discard_dirty, assert_clean. wp_steps.
  eapply wp_mono; [apply discard_list_spec; [done..|by apply Forall_forall]|]. cbn beta.
  intros _ s' (Hinv' & Hcfg & Hbe & Hd & Hpin & Hb). wp_steps; [by rewrite Hd|].
  split_and!; try done.
  - intros i. rewrite <- clean_stored by done. unfold stored. by rewrite Hbe, (k_geo _ _ Hcfg).
  - intros i Hi. rewrite Hb, Hi. by case_decide.
Qed.

Lemma discard_spec s i :
  inv s -> pinned_data s i = None ->
  wp (discard i) s (fun _ s' => inv s' /\ same_config s s' /\ backend s' = backend s /\
    m_blocks s' = delete i (m_blocks s) /\
    m_dirty s' = filter (fun j => j <> i) (m_dirty s)).
Proof.
  intros Hinv Hp. unfold discard, find. wp_steps.
  destruct (m_blocks s !! i) as [[d p]|] eqn:Hi.
  - unfold pinned_data in Hp. rewrite Hi in Hp. destruct p; [done|]. wp_steps.
    by apply drop_block_spec.
  - wp_steps. split_and!; try done.
    + by rewrite delete_id.
    + rewrite list_filter_all; [done|]. apply Forall_forall. intros j Hj ->.
      apply (i_dirty _ _ Hinv) in Hj as [? ?]. congruence.
Qed.
End operations_spec.

(** ** Properties *)

Section cache_properties.
Context {B : Type} `{BackendSpec B} `{!Malloc B, !MallocSpec B}.
Implicit Types (s : engine_base B).

(** C20: [pin] of a block that is not pinned, for any storage: if it
    returns, the block is pinned with its current content (with arbitrary
    content of the right length when [initialize] is false), and the
    content of every other block, the other pins and the invariant are
    kept, whichever blocks were evicted; at most [m_max_blocks + 1] blocks
    are in memory unless all of them are pinned or there were more before.
    If the storage fails, even with a torn write, the exception leaves the
    invariant and all contents as they were. *)
Theorem pin_keeps_contents s i (initialize : bool) :
  inv s -> in_store s i -> pinned_data s i = None ->
  wpx (pin i initialize) s
    (fun _ s' => inv_except (fun j => initialize = false /\ j = i) s' /\ same_config s s' /\
       (exists d, pinned_data s' i = Some d /\ zlen d = g_block_size (m_geo s) /\
          (initialize = true -> d = logical s i)) /\
       (forall j, j <> i -> logical s' j = logical s j /\ pinned_data s' j = pinned_data s j) /\
       (map_size s' <= Z.max (map_size s) (m_max_blocks s + 1) \/ m_cache s' = []))
    (fun e s' => be_fails e /\ inv s' /\ unchanged s s').
Proof.
  intros Hinv Hin Hp. eapply wpx_mono; [by apply pin_spec|..]; cbn beta; [|done].
  intros _ s' (d & Hinv' & [Hc Hd Hl Hpin] & Hlen & Hi & Hb). split_and!; auto.
  exists d. unfold pinned_data. by rewrite Hd.
Qed.

(** C21: [flush] leaves no dirty block and writes the current content of
    every block to the storage, in ascending order of the block index; if
    the storage fails, no content is lost. *)
Theorem flush_writes_back s :
  inv s ->
  StronglySorted Z.lt (m_dirty s) /\
  wpx flush s
    (fun _ s' => inv s' /\ unchanged s s' /\ m_dirty s' = [] /\
       forall i, stored s' i = logical s i)
    (fun e s' => be_fails e /\ inv s' /\ unchanged s s').
Proof.
  intros Hinv. split; [apply Hinv|]. eapply wpx_mono; [by apply flush_spec|..]; cbn beta; [|done].
  intros _ s' (? & ? & ? & _ & _ & ?). done.
Qed.
End cache_properties.

(** A storage whose writes fail, and tear the block, as its script says. *)
Module flaky.

Record flaky : Set := Flaky { blocks : list bytes; script : list bool }.

Definition read (g : geometry) (i : Z) : M flaky bytes :=
  gets (fun b => blocks b !!! Z.to_nat i).
Definition write (g : geometry) (i : Z) (d : bytes) : M flaky unit :=
  fun b => match script b with
  | true :: sc =>
    (Flaky (<[Z.to_nat i := zeros (g_block_size g)]> (blocks b)) sc, Err io_error)
  | sc => (Flaky (<[Z.to_nat i := d]> (blocks b)) (tail sc), Ok tt)
  end.

#[global] Instance flaky_backend : Backend flaky := {| do_read := read; do_write := write |}.

Definition block_of (b : flaky) (i : Z) : bytes :=
  if 0 <=? i then blocks b !!! Z.to_nat i else [].

Lemma write_block b i d sc j :
  0 <= i < zlen (blocks b) ->
  block_of (Flaky (<[Z.to_nat i := d]> (blocks b)) sc) j =
    if decide (j = i) then d else block_of b j.
Proof.
  intros Hi. unfold block_of; simpl. case_decide as Hj; [subst j|].
  - rewrite (proj2 (Z.leb_le 0 i)) by lia. apply list_lookup_total_insert_eq. lia.
  - destruct (Z.leb_spec 0 j); [|done]. apply list_lookup_total_insert_ne. lia.
Qed.

#[global] Program Instance flaky_spec : BackendSpec flaky := {|
  be_inv := fun g b => wf_geometry g /\ Forall (fun d => zlen d = g_block_size g) (blocks b);
  be_writable := fun _ => True;
  be_fails := fun e => e = io_error;
  be_in := fun _ b i => 0 <= i < zlen (blocks b);
  be_block := fun _ => block_of
|}.
Next Obligation.
  intros g b i [_ Hb] Hi. cbn beta in Hi. unfold block_of. rewrite (proj2 (Z.leb_le 0 i)) by lia.
  rewrite Forall_lookup in Hb. eapply Hb, list_lookup_lookup_total_lt. lia.
Qed.
Next Obligation.
  intros g b i Hb Hi keep. cbn beta in Hi. unfold wpx; simpl. unfold block_of.
  rewrite (proj2 (Z.leb_le 0 i)) by lia. done.
Qed.
Next Obligation.
  intros g b i d [Hg Hb] _ Hi Hd upd. cbn beta in Hi.
  assert (0 <= g_block_size g) as Hz.
  { destruct Hg as (k & ? & ->). simpl. apply Z.pow_nonneg. lia. }
  assert (forall d sc, zlen d = g_block_size g ->
    upd d (Flaky (<[Z.to_nat i := d]> (blocks b)) sc)) as Hu.
  { intros d' sc Hd'. subst upd. simpl. split_and!; [done| | | |done].
    - by apply Forall_insert.
    - intros j. by apply write_block.
    - intros j. by rewrite length_insert. }
  unfold wpx; simpl. unfold write. destruct (script b) as [|[] sc]; [by apply Hu| |by apply Hu].
  split; [done|]. exists (zeros (g_block_size g)). apply Hu. by apply length_zeros.
Qed.

#[global] Instance flaky_malloc : Malloc flaky := fun s => zeros (g_block_size (m_geo s)).

(** Two blocks of two bytes; block 0 is cached and dirty, the first write
    fails. *)
Definition sample : engine_base flaky :=
  EngineBase (Flaky [[x00; x00]; [x01; x01]] [true; false]) (Geometry 2 1 1) 0 8 false []
    {[ 0 := Block [xaa; xbb] false ]} [0] [0] (Stats 0 0 0).

Lemma sample_inv : inv sample.
Proof.
  split; simpl; try done.
  - exists 1. split; [lia|done].
  - split; [exists 1; split; [lia|done]|]. by repeat constructor.
  - apply NoDup_singleton.
  - intros i. rewrite list_elem_of_singleton. split.
    + intros ->. eexists. apply lookup_singleton_eq.
    + by intros [d [-> _]%lookup_singleton_Some].
  - by repeat constructor.
  - intros i ->%list_elem_of_singleton. eexists. apply lookup_singleton_eq.
  - by intros i blk [<- <-]%lookup_singleton_Some.
  - by intros i blk [<- <-]%lookup_singleton_Some.
  - intros i blk [<- _]%lookup_singleton_Some Hn. set_solver.
  - by left.
Qed.

#[global] Instance flaky_malloc_spec : MallocSpec flaky.
Proof.
  intros s (k & Hk & Hg). apply length_zeros. rewrite Hg. simpl. apply Z.pow_nonneg. lia.
Qed.

End flaky.

Lemma pin_keeps_contents_witness :
  wpx (pin 1 true) flaky.sample
    (fun _ s' => inv_except (fun j => true = false /\ j = 1) s' /\ same_config flaky.sample s' /\
       (exists d, pinned_data s' 1 = Some d /\ zlen d = 2 /\
          (true = true -> d = logical flaky.sample 1)) /\
       (forall j, j <> 1 -> logical s' j = logical flaky.sample j /\
          pinned_data s' j = pinned_data flaky.sample j) /\
       (map_size s' <= Z.max (map_size flaky.sample) (0 + 1) \/ m_cache s' = []))
    (fun e s' => e = io_error /\ inv s' /\ unchanged flaky.sample s').
Proof.
  assert (in_store flaky.sample 1) as Hin by done.
  exact (pin_keeps_contents flaky.sample 1 true flaky.sample_inv Hin eq_refl).
Defined.

Lemma flush_writes_back_witness :
  StronglySorted Z.lt (m_dirty flaky.sample) /\
  wpx flush flaky.sample
    (fun _ s' => inv s' /\ unchanged flaky.sample s' /\ m_dirty s' = [] /\
       forall i, stored s' i = logical flaky.sample i)
    (fun e s' => e = io_error /\ inv s' /\ unchanged flaky.sample s').
Proof. exact (flush_writes_back flaky.sample flaky.sample_inv). Defined.
