(* ===== verification/Handles.v ===== *)
(** * Block handles (src/engine.cpp, include/prequel/engine.hpp)

    [Impl] holds the virtual functions of the class [engine] that the file
    engine and the transaction engine implement with the block cache, and
    [ImplSpec] what the base class relies on.  The handle manager on top of
    them implements the interface [Engine] that the containers use; its
    state is the reference count of every live handle. *)

From S2P Require Import Prelude MathOps Blocks EngineSpec.

(** ** The virtual functions of [engine] *)

Class Impl (P : Type) : Type := {
  impl_geo : P -> geometry;
  do_size : P -> Z;
  do_grow : Z -> M P unit;
  do_flush : M P unit;
  do_pin : Z -> bool -> M P unit;
  do_unpin : Z -> M P unit;
  do_dirty : Z -> M P unit;
  do_flush_block : Z -> M P unit;
  (** The data behind the pointer that [do_pin] returns. *)
  pinned : P -> Z -> option bytes;
  store_pinned : Z -> (bytes -> bytes) -> M P unit
}.

(** [im_inv X p]: [p] is consistent, except that the pinned blocks of [X]
    are not initialized.  [im_content] is the content of a block whether it
    is in memory or not. *)
Class ImplSpec (P : Type) `{Impl P} : Type := {
  im_inv : (Z -> Prop) -> P -> Prop;
  im_content : P -> Z -> bytes;
  im_writable : P -> Prop;
  im_fails : error -> Prop
}.

Section contract.
Context {P : Type} `{ImplSpec P}.
Implicit Types (p : P) (i : Z) (d : bytes).

Abbreviation good p := (im_inv (fun _ => False) p).
Abbreviation bs p := (g_block_size (impl_geo p)).

(** Everything but the contents and pins of block [i]. *)
Record same_but i p p' : Prop := {
  s_geo : impl_geo p' = impl_geo p;
  s_size : do_size p' = do_size p;
  s_writable : im_writable p -> im_writable p';
  s_content : forall j, j <> i -> im_content p' j = im_content p j;
  s_pinned : forall j, j <> i -> pinned p' j = pinned p j
}.
Definition same p p' : Prop :=
  forall i, same_but i p p' /\ im_content p' i = im_content p i /\ pinned p' i = pinned p i.
End contract.
Abbreviation good p := (im_inv (fun _ => False) p).

Class ImplLaws (P : Type) `{ImplSpec P} : Prop := {
  im_geo : forall p X, im_inv X p -> wf_geometry (impl_geo p);
  im_size : forall p X, im_inv X p ->
    0 <= do_size p /\ do_size p * g_block_size (impl_geo p) < invalid_value;
  im_length : forall p X i, im_inv X p -> 0 <= i < do_size p ->
    zlen (im_content p i) = g_block_size (impl_geo p);
  im_pinned : forall p X i d, im_inv X p -> pinned p i = Some d ->
    im_content p i = d /\ zlen d = g_block_size (impl_geo p);
  im_pin : forall p i init, good p -> 0 <= i < do_size p -> pinned p i = None ->
    wpx (do_pin i init) p
      (fun _ p' => im_inv (fun j => init = false /\ j = i) p' /\ same_but i p p' /\
         exists d, pinned p' i = Some d /\ (init = true -> d = im_content p i))
      (fun e p' => im_fails e /\ good p' /\ same p p');
  im_unpin : forall p i d, good p -> pinned p i = Some d ->
    wp (do_unpin i) p (fun _ p' => good p' /\ same_but i p p' /\
      im_content p' i = d /\ pinned p' i = None);
  (** A block that [dirty] accepts may be stored to.  The callers either mark
      the block first, or store to a block that is not initialized. *)
  im_store : forall p i f d, good p -> im_writable p -> pinned p i = Some d ->
    length (f d) = length d ->
    wp (do_dirty i ;;; store_pinned i f) p (fun _ p' => good p' /\ same_but i p p' /\
      pinned p' i = Some (f d));
  im_init : forall p i f d, im_inv (fun j => j = i) p -> im_writable p -> pinned p i = Some d ->
    length (f d) = length d ->
    wp (store_pinned i f ;;; do_dirty i) p (fun _ p' => good p' /\ same_but i p p' /\
      pinned p' i = Some (f d));
  im_weaken : forall p X (Y : Z -> Prop), im_inv X p -> (forall i, X i -> Y i) -> im_inv Y p;
  im_grow : forall p n, good p -> im_writable p -> 0 <= n ->
    (do_size p + n) * g_block_size (impl_geo p) < invalid_value ->
    wp (do_grow n) p (fun _ p' => good p' /\ impl_geo p' = impl_geo p /\
      do_size p' = do_size p + n /\ im_writable p' /\
      (forall j, 0 <= j < do_size p -> im_content p' j = im_content p j) /\
      (forall j, pinned p' j = pinned p j));
  im_flush_block : forall p i d, good p -> pinned p i = Some d ->
    wpx (do_flush_block i) p (fun _ p' => good p' /\ same p p')
      (fun e p' => im_fails e /\ good p' /\ same p p');
  im_flush : forall p, good p ->
    wpx do_flush p (fun _ p' => good p' /\ same p p') (fun e p' => im_fails e /\ good p' /\ same p p')
}.

(** An engine whose storage does not fail. *)
Class Reliable (P : Type) `{ImplSpec P} : Prop := reliable : forall e, ~ im_fails e.

(** ** The handle manager *)

(** [m_handles] maps the index of every live [block_handle_internal] to its
    reference count, [m_freelist] is the size of the list of reusable
    handle objects. *)
Record manager (P : Type) : Type := Manager {
  impl : P;
  m_handles : gmap Z Z;
  m_freelist : Z
}.
Arguments Manager {P}.
Arguments impl {P} _.
Arguments m_handles {P} _.
Arguments m_freelist {P} _.

Section manager.
Context {P : Type} `{Impl P}.
Abbreviation E := (manager P).

Definition set_impl (p : P) (e : E) : E := Manager p (m_handles e) (m_freelist e).
Definition set_handles (h : gmap Z Z) (e : E) : E := Manager (impl e) h (m_freelist e).
Definition set_freelist (n : Z) (e : E) : E := Manager (impl e) (m_handles e) n.

Definition on_impl {A} (m : M P A) : M E A := zoom impl set_impl m.

(** [block_handle_manager::allocate] and [free] *)
Definition allocate_handle : M E unit :=
  modify (fun e => if 0 <? m_freelist e then set_freelist (m_freelist e - 1) e else e).
Definition free_handle : M E unit :=
  modify (fun e => if 1024 <=? m_freelist e then e else set_freelist (m_freelist e + 1) e).

(** The constructor of [block_handle] and [inc_ref]. *)
Definition inc_ref (index : Z) : M E unit :=
  modify (fun e => set_handles (alter (fun rc => rc + 1) index (m_handles e)) e).

(** [manager.insert] of an object whose reference count is still 0. *)
Definition insert_handle (index : Z) : M E unit :=
  let* h := gets (fun e => m_handles e !! index) in
  assert! (match h with None => true | Some _ => false end) ;;;
  modify (fun e => set_handles (<[index := 0]> (m_handles e)) e).
Definition remove_handle (index : Z) : M E unit :=
  let* h := gets (fun e => m_handles e !! index) in
  assert! (match h with None => false | Some _ => true end) ;;;
  modify (fun e => set_handles (delete index (m_handles e)) e).

(** [internal_populate_handle]; [init] is [None] for [initialize_block_t],
    and the effect of [apply] on the block otherwise. *)
Definition apply_init (index : Z) (init : option (bytes -> bytes)) : M E unit :=
  match init with
  | None => ret tt
  | Some f => on_impl (store_pinned index f) ;;; on_impl (do_dirty index)
  end.

Definition internal_populate_handle (index : Z) (init : option (bytes -> bytes)) : M E unit :=
  assert! (index_valid index) ;;;
  let* h := gets (fun e => m_handles e !! index) in
  match h with
  | Some rc =>
    assert! (0 <? rc) ;;;
    apply_init index init ;;;
    inc_ref index
  | None =>
    allocate_handle ;;;
    on_exception
      (on_impl (do_pin index (match init with None => true | Some _ => false end)) ;;;
       on_exception (apply_init index init) (on_impl (do_unpin index)) ;;;
       insert_handle index ;;;
       inc_ref index)
      free_handle
  end.

Definition internal_release_handle (index : Z) : M E unit :=
  on_impl (do_unpin index) ;;;
  remove_handle index ;;;
  free_handle.

(** The destructor of [block_handle] and [dec_ref]. *)
Definition dec_ref (index : Z) : M E unit :=
  let* h := gets (fun e => m_handles e !! index) in
  match h with
  | Some rc =>
    assert! (0 <? rc) ;;;
    modify (fun e => set_handles (<[index := rc - 1]> (m_handles e)) e) ;;;
    if rc - 1 =? 0 then internal_release_handle index else ret tt
  | None => throw assert_failure
  end.

Definition linked (index : Z) : M E unit :=
  let* h := gets (fun e => m_handles e !! index) in
  assert! (match h with None => false | Some _ => true end).

(** [writable_data] of a handle, followed by the store [f] to the data. *)
Definition handle_update (index : Z) (f : bytes -> bytes) : M E unit :=
  linked index ;;;
  on_impl (do_dirty index) ;;;
  on_impl (store_pinned index f).

(** [data] of a handle *)
Definition handle_data (index : Z) : M E bytes :=
  linked index ;;;
  let* d := gets (fun e => pinned (impl e) index) in
  match d with Some d => ret d | None => throw assert_failure end.

(** [flush] of a handle *)
Definition internal_flush_handle (index : Z) : M E unit :=
  linked index ;;;
  on_impl (do_flush_block index).

Definition read (index : Z) : M E unit :=
  throw_if (negb (index_valid index)) bad_argument ;;;
  internal_populate_handle index None.

Definition overwrite_zero (index : Z) : M E unit :=
  throw_if (negb (index_valid index)) bad_argument ;;;
  let* bs := gets (fun e => g_block_size (impl_geo (impl e))) in
  internal_populate_handle index (Some (fun _ => zeros bs)).

Definition overwrite (index : Z) (data : bytes) : M E unit :=
  throw_if (negb (index_valid index)) bad_argument ;;;
  let* bs := gets (fun e => g_block_size (impl_geo (impl e))) in
  throw_if (bs <? zlen data) bad_argument ;;;
  internal_populate_handle index (Some (fun _ => initialize_data bs data)).

Definition grow (n : Z) : M E unit :=
  if 0 <? n then on_impl (do_grow n) else ret tt.

Definition flush : M E unit := on_impl do_flush.

(** A temporary handle: acquired, used and dropped at the end of its scope,
    also when its use throws. *)
Definition with_handle {A} (acquire : M E unit) (index : Z) (use : M E A) : M E A :=
  acquire ;;;
  let* a := on_exception use (dec_ref index) in
  dec_ref index ;;;
  ret a.

Definition read_block (index : Z) : M E bytes :=
  with_handle (read index) index (handle_data index).
Definition update_block (index : Z) (f : bytes -> bytes) : M E unit :=
  with_handle (read index) index (handle_update index f).
Definition overwrite_block (index : Z) (data : bytes) : M E unit :=
  with_handle (overwrite index data) index (ret tt).
Definition overwrite_zero_block (index : Z) : M E unit :=
  with_handle (overwrite_zero index) index (ret tt).

(** The contents of all blocks. *)
Definition make_manager (p : P) : E := Manager p ∅ 0.
End manager.

Section manager_view.
Context {P : Type} `{ImplSpec P}.

Definition view_blocks (p : P) : list bytes :=
  (fun i => im_content p i) <$> seqZ 0 (do_size p).
Definition view (e : manager P) : disk := Disk (impl_geo (impl e)) (view_blocks (impl e)).

(** A block is pinned exactly when there is a live handle to it. *)
Record m_inv (e : manager P) : Prop := {
  mi_impl : im_inv (fun _ => False) (impl e);
  mi_range : forall i rc, m_handles e !! i = Some rc -> 0 <= i < do_size (impl e) /\ 0 < rc;
  mi_pinned : forall i, is_Some (m_handles e !! i) <-> is_Some (pinned (impl e) i);
  mi_freelist : 0 <= m_freelist e <= 1024
}.

#[global] Instance manager_engine : Engine (manager P) := {|
  eng_view := view;
  eng_inv := fun e => m_inv e /\ im_writable (impl e);
  eng_read := read_block;
  eng_update := update_block;
  eng_overwrite := overwrite_block;
  eng_overwrite_zero := overwrite_zero_block;
  eng_grow := grow
|}.
End manager_view.

(** ** Proofs *)

Section manager_spec.
Context {P : Type} `{ImplLaws P}.
Abbreviation E := (manager P).
Implicit Types (e : E) (p : P) (i : Z) (d : bytes).
Abbreviation bs e := (g_block_size (impl_geo (impl e))).

Lemma same_but_trans i p1 p2 p3 : same_but i p1 p2 -> same_but i p2 p3 -> same_but i p1 p3.
Proof.
  intros [] []. split; [congruence..|auto| |]; intros j Hj.
  - by rewrite s_content1, s_content0.
  - by rewrite s_pinned1, s_pinned0.
Qed.

Lemma same_but_refl i p : same_but i p p.
Proof. by split. Qed.

Lemma same_geo p p' : same p p' -> impl_geo p' = impl_geo p /\ do_size p' = do_size p /\
  (im_writable p -> im_writable p').
Proof. intros Hs. by destruct (Hs 0) as [[] _]. Qed.

Lemma m_inv_same e p' :
  m_inv e -> good p' -> same (impl e) p' -> m_inv (set_impl p' e).
Proof.
  intros [] Hg Hs. destruct (same_geo _ _ Hs) as (Hgeo & Hsz & _). split; simpl; try done.
  - by rewrite Hsz.
  - intros i. rewrite mi_pinned0. by destruct (Hs i) as (_ & _ & ->).
Qed.

(** [e'] is [e] with one more handle to block [i], whose content is [d]. *)
Record acquired e i d e' : Prop := {
  a_inv : m_inv e';
  a_same : same_but i (impl e) (impl e');
  a_pinned : pinned (impl e') i = Some d;
  a_handles : m_handles e' = <[i := default 0 (m_handles e !! i) + 1]> (m_handles e)
}.

Lemma m_inv_update e i p' d h :
  m_inv e -> 0 <= i < do_size (impl e) -> good p' -> same_but i (impl e) p' ->
  pinned p' i = Some d -> is_Some (h !! i) ->
  (forall j, j <> i -> h !! j = m_handles e !! j) -> (forall rc, h !! i = Some rc -> 0 < rc) ->
  forall n, 0 <= n <= 1024 -> m_inv (Manager p' h n).
Proof.
  intros [] Hi Hg Hs Hp Hh Hne Hrc n Hn. split; simpl; try done.
  - rewrite (s_size _ _ _ Hs). intros j rc Hj. destruct (decide (j = i)) as [->|]; [auto|].
    rewrite Hne in Hj by done. by apply mi_range0.
  - intros j. destruct (decide (j = i)) as [->|].
    + rewrite Hp. split; [by eexists|done].
    + by rewrite Hne, (s_pinned _ _ _ Hs).
Qed.

Lemma allocate_free n :
  0 <= n <= 1024 -> 0 <= (if 0 <? n then n - 1 else n) <= 1024.
Proof. destruct (Z.ltb_spec 0 n); lia. Qed.

Lemma wpx_on_impl {A} (m : M P A) e (Q : A -> E -> Prop) R :
  wpx m (impl e) (fun a p => Q a (set_impl p e)) (fun er p => R er (set_impl p e)) ->
  wpx (on_impl m) e Q R.
Proof. apply wpx_zoom. Qed.

Lemma wpx_on_impl_seq {A C} (m : M P A) (k : M P C) e (Q : C -> E -> Prop) R :
  wpx (m ;;; k) (impl e) (fun a p => Q a (set_impl p e)) (fun er p => R er (set_impl p e)) ->
  wpx (on_impl m ;;; on_impl k) e Q R.
Proof.
  unfold on_impl, wpx, bind, zoom. destruct (m (impl e)) as [p [a|er]]; [|done]. simpl.
  by destruct (k p) as [p' [c|er]].
Qed.

(** The store of an initializer to a block that was just pinned for it. *)
Definition init_ok e (init : option (bytes -> bytes)) : Prop :=
  match init with
  | None => True
  | Some f => im_writable (impl e) /\ forall d, zlen d = bs e -> length (f d) = length d
  end.
Definition init_content e i (init : option (bytes -> bytes)) d : Prop :=
  match init with
  | None => d = im_content (impl e) i
  | Some f => exists d0, zlen d0 = bs e /\ d = f d0
  end.

Lemma free_handle_inv e : m_inv e ->
  wp free_handle e (fun _ e' => m_inv e' /\ impl e' = impl e /\ m_handles e' = m_handles e).
Proof.
  intros Hinv. unfold free_handle. wp_steps. pose proof (mi_freelist _ Hinv).
  destruct (Z.leb_spec 1024 (m_freelist e)); split_and!; try done.
  destruct Hinv. split; simpl; try done. lia.
Qed.

(** The branch of [internal_populate_handle] for a block without handles. *)
Lemma pin_handle_spec e i init :
  m_inv e -> 0 <= i < do_size (impl e) -> m_handles e !! i = None -> init_ok e init ->
  wpx (on_exception
      (on_impl (do_pin i (match init with None => true | Some _ => false end)) ;;;
       on_exception (apply_init i init) (on_impl (do_unpin i)) ;;;
       insert_handle i ;;;
       inc_ref i)
      free_handle) e
    (fun _ e' => exists d, acquired e i d e' /\ init_content e i init d)
    (fun er e' => im_fails er /\ m_inv e' /\ same (impl e) (impl e') /\ m_handles e' = m_handles e).
Proof.
  intros Hinv Hi Hh Hok. pose proof (mi_impl _ Hinv) as Hg.
  assert (pinned (impl e) i = None) as Hp1.
  { destruct (pinned (impl e) i) eqn:Hp; [|done].
    destruct (proj2 (mi_pinned _ Hinv i)) as [? ?]; [by eexists|congruence]. }
  assert (forall p' d', good p' -> same_but i (impl e) p' -> pinned p' i = Some d' ->
    wp (insert_handle i ;;; inc_ref i) (set_impl p' e) (fun _ e' => acquired e i d' e')) as Hins.
  { intros p' d' Hg' Hs Hp. unfold insert_handle, inc_ref.
    wp_steps; simpl; [by rewrite Hh|]. split; try done; simpl.
    - eapply m_inv_update; try done; [|..|apply Hinv].
      + by rewrite lookup_alter_eq, lookup_insert_eq.
      + intros j Hj. by rewrite lookup_alter_ne, lookup_insert_ne.
      + intros rc'. rewrite lookup_alter_eq, lookup_insert_eq. simpl. intros [= <-]. lia.
    - rewrite Hh. simpl. by rewrite alter_insert_eq. }
  apply wpx_on_exception. wpx_step. apply wpx_on_impl.
  eapply wpx_mono; [by apply im_pin|..]; cbn beta.
  - intros _ p1 (Hg1 & Hs1 & d & Hd & Hinit). wpx_step. apply wpx_on_exception.
    destruct (im_pinned _ _ _ _ Hg1 Hd) as [Hc Hl]. rewrite (s_geo _ _ _ Hs1) in Hl.
    destruct init as [f|]; simpl.
    + destruct Hok as [Hw Hf]. apply wpx_on_impl_seq, wp_wpx. simpl.
      eapply wp_mono; [apply (im_init p1 i f d); auto|].
      * apply (im_weaken _ _ _ Hg1). naive_solver.
      * by apply (s_writable _ _ _ Hs1).
      * cbn beta. intros _ p2 (Hg2 & Hs2 & Hp2). apply wp_wpx.
        eapply wp_mono; [apply (Hins p2 (f d)); [done| |done]|].
        -- by eapply same_but_trans.
        -- cbn beta. intros _ e' Ha. exists (f d). split; [done|by eexists].
    + apply wpx_ret. apply wp_wpx. eapply wp_mono; [apply (Hins p1 d); try done|].
      * apply (im_weaken _ _ _ Hg1). naive_solver.
      * cbn beta. intros _ e' Ha. exists d. auto.
  - intros er p' (He & Hg' & Hs). 
    eapply wp_mono; [apply free_handle_inv; by apply m_inv_same|]. cbn beta.
    intros _ e' (Hinv' & Hi' & Hh'). rewrite Hi'. by split_and!.
Qed.

Lemma populate_spec e i init :
  m_inv e -> 0 <= i < do_size (impl e) -> init_ok e init ->
  wpx (internal_populate_handle i init) e
    (fun _ e' => exists d, acquired e i d e' /\ init_content e i init d)
    (fun er e' => im_fails er /\ m_inv e' /\ same (impl e) (impl e') /\ m_handles e' = m_handles e).
Proof.
  intros Hinv Hi Hok. pose proof (mi_impl _ Hinv) as Hg.
  destruct (im_size _ _ Hg) as [_ Hsz]. pose proof (im_geo _ _ Hg) as (k & Hk & Hgeo).
  assert (index_valid i = true) as Hval.
  { unfold index_valid. rewrite Hgeo in Hsz. simpl in Hsz.
    pose proof (Z.pow_pos_nonneg 2 k ltac:(lia) ltac:(lia)).
    destruct (Z.eqb_spec i invalid_value); [nia|done]. }
  unfold internal_populate_handle. wpx_steps.
  destruct (m_handles e !! i) as [rc|] eqn:Hh.
  - destruct (mi_range _ Hinv i rc Hh) as [_ Hrc]. wpx_steps; [by apply Z.ltb_lt|].
    destruct (proj1 (mi_pinned _ Hinv i)) as [d Hd]; [by rewrite Hh|].
    destruct (im_pinned _ _ _ _ Hg Hd) as [Hc Hl].
    assert (forall p' d', good p' -> same_but i (impl e) p' -> pinned p' i = Some d' ->
      acquired e i d' (Manager p' (alter (fun rc => rc + 1) i (m_handles e)) (m_freelist e)))
      as Hacq.
    { intros p' d' Hg' Hs Hp. split; try done; simpl.
      - eapply m_inv_update; try done; [|..|apply Hinv].
        + by rewrite lookup_alter_eq, Hh.
        + intros j Hj. by rewrite lookup_alter_ne.
        + intros rc'. rewrite lookup_alter_eq, Hh. simpl. intros [= <-]. lia.
      - rewrite Hh. simpl. apply map_eq. intros j. destruct (decide (j = i)) as [->|].
        + by rewrite lookup_alter_eq, Hh, lookup_insert_eq.
        + by rewrite lookup_alter_ne, lookup_insert_ne. }
    destruct init as [f|]; simpl.
    + destruct Hok as [Hw Hf]. apply wpx_on_impl_seq, wp_wpx.
      eapply wp_mono; [apply (im_init (impl e) i f d); auto|].
      { by apply (im_weaken _ _ _ Hg). }
      intros _ p' (Hg' & Hs & Hp). unfold inc_ref. wpx_steps. exists (f d). split; [|by eexists].
      by apply Hacq.
    + unfold inc_ref. wpx_steps. exists d. split; [|by simpl]. by apply Hacq.
  - unfold allocate_handle. wpx_steps. set (e1 := if 0 <? _ then _ else _).
    assert (impl e1 = impl e /\ m_handles e1 = m_handles e) as [Hi1 Hh1]
      by (unfold e1; by destruct (0 <? m_freelist e)).
    assert (m_inv e1) as Hinv1.
    { pose proof (allocate_free _ (mi_freelist _ Hinv)) as Hfree.
      unfold e1. destruct (0 <? m_freelist e); [|done]. by destruct Hinv. }
    assert (pinned (impl e1) i = None) as Hp1.
    { rewrite Hi1. destruct (pinned (impl e) i) eqn:Hp; [|done].
      destruct (proj2 (mi_pinned _ Hinv i)) as [? ?]; [by eexists|congruence]. }
    eapply wpx_mono; [apply (pin_handle_spec e1 i init); try done|..]; cbn beta.
    + by rewrite Hi1.
    + by rewrite Hh1.
    + unfold init_ok in *. by rewrite Hi1.
    + intros _ e' (d & [] & Hd). exists d. unfold init_content in *. rewrite Hi1 in *.
      split; [|done]. split; try done. by rewrite <- Hh1.
    + intros er e' (? & ? & ? & ?). rewrite Hi1, Hh1 in *. done.
Qed.

(** Dropping a handle. *)
Lemma dec_ref_spec e i rc :
  m_inv e -> m_handles e !! i = Some rc ->
  wp (dec_ref i) e (fun _ e' => m_inv e' /\ same_but i (impl e) (impl e') /\
    im_content (impl e') i = im_content (impl e) i /\
    m_handles e' = if rc =? 1 then delete i (m_handles e)
                   else <[i := rc - 1]> (m_handles e)).
Proof.
  intros Hinv Hh. destruct (mi_range _ Hinv i rc Hh) as [Hi Hrc].
  destruct (proj1 (mi_pinned _ Hinv i)) as [d Hd]; [by rewrite Hh|].
  destruct (im_pinned _ _ _ _ (mi_impl _ Hinv) Hd) as [Hc Hl].
  unfold dec_ref. wp_steps. rewrite Hh. wp_steps.
  replace (rc - 1 =? 0) with (rc =? 1)
    by (destruct (Z.eqb_spec rc 1), (Z.eqb_spec (rc - 1) 0); lia).
  destruct (Z.eqb_spec rc 1) as [->|Hne].
  - unfold internal_release_handle. wp_step. apply wpx_wp, wpx_on_impl, wp_wpx. simpl.
    eapply wp_mono; [apply im_unpin; [apply Hinv|done]|]. cbn beta.
    intros _ p' (Hg & Hs & Hcd & Hp). unfold remove_handle. wp_steps.
    { simpl. by rewrite lookup_insert_eq. }
    simpl. rewrite delete_insert_eq.
    eapply wp_mono; [apply free_handle_inv|]; cbn beta.
    + destruct Hinv. split; simpl; try done.
      * intros j rc [Hne Hj]%lookup_delete_Some. rewrite (s_size _ _ _ Hs). by apply mi_range0.
      * intros j. destruct (decide (j = i)) as [->|].
        -- rewrite lookup_delete_eq, Hp. done.
        -- rewrite lookup_delete_ne by done. rewrite (s_pinned _ _ _ Hs) by done. done.
    + intros _ e' (Hinv' & Hi' & Hh'). rewrite Hi'. split_and!; try done. simpl. congruence.
  - wp_steps. split_and!; try done. eapply m_inv_update; try done; [apply Hinv|..].
    + by rewrite lookup_insert_eq.
    + intros j Hj. by rewrite lookup_insert_ne.
    + intros rc'. rewrite lookup_insert_eq. intros [= <-]. lia.
    + apply Hinv.
Qed.

Lemma acquired_refs e i d e' : acquired e i d e' -> m_inv e ->
  exists rc, m_handles e' !! i = Some rc /\
    (if rc =? 1 then delete i (m_handles e') else <[i := rc - 1]> (m_handles e')) = m_handles e.
Proof.
  intros Ha Hinv. rewrite (a_handles _ _ _ _ Ha).
  exists (default 0 (m_handles e !! i) + 1). split; [apply lookup_insert_eq|].
  destruct (m_handles e !! i) as [rc|] eqn:Hh; simpl.
  - destruct (mi_range _ Hinv i rc Hh) as [_ Hrc].
    destruct (Z.eqb_spec (rc + 1) 1); [lia|].
    replace (rc + 1 - 1) with rc by lia. by rewrite insert_insert_eq, insert_id.
  - by rewrite delete_insert_id.
Qed.

(** A complete scope of a temporary handle.  [use] may store to the block. *)
Lemma with_handle_spec {A} e i init (use : M E A) (Q : A -> E -> Prop) :
  m_inv e -> 0 <= i < do_size (impl e) -> init_ok e init -> Reliable P ->
  (forall d e1, acquired e i d e1 -> init_content e i init d ->
    wp use e1 (fun a e2 => exists d', acquired e i d' e2 /\
      (forall e3, m_inv e3 -> m_handles e3 = m_handles e ->
         same_but i (impl e) (impl e3) -> im_content (impl e3) i = d' -> Q a e3))) ->
  wp (with_handle (internal_populate_handle i init) i use) e Q.
Proof.
  intros Hinv Hi Hok Hrel Huse. unfold with_handle. apply wpx_wp. wpx_step.
  eapply wpx_mono; [by apply populate_spec|..]; cbn beta; [|by intros er e1 [?%Hrel _]].
  intros _ e1 (d & Ha & Hd). wpx_step. apply wpx_on_exception, wp_wpx.
  eapply wp_mono; [by apply (Huse d)|]. cbn beta. intros a e2 (d' & Ha2 & HQ).
  destruct (acquired_refs _ _ _ _ Ha2 Hinv) as (rc & Hrc & Hrest).
  wpx_step. apply wp_wpx. eapply wp_mono; [apply dec_ref_spec; [apply Ha2|done]|]. cbn beta.
  intros _ e3 (Hinv3 & Hs3 & Hc3 & Hh3). wp_steps. apply HQ; [done|congruence|..].
  - eapply same_but_trans; [apply Ha2|done].
  - rewrite Hc3. by eapply (im_pinned _ _ _ _ (mi_impl _ (a_inv _ _ _ _ Ha2))), Ha2.
Qed.

(** *** Contents as a list of blocks *)
Lemma view_blocks_lookup p i :
  0 <= i < do_size p -> view_blocks p !! Z.to_nat i = Some (im_content p i).
Proof.
  intros Hi. unfold view_blocks. rewrite list_lookup_fmap, lookup_seqZ_lt by lia. simpl.
  f_equal. f_equal. lia.
Qed.

Lemma length_view_blocks p : 0 <= do_size p -> zlen (view_blocks p) = do_size p.
Proof. intros. unfold view_blocks. rewrite length_fmap, length_seqZ. lia. Qed.

Lemma view_set e e' i :
  m_inv e -> 0 <= i < do_size (impl e) -> same_but i (impl e) (impl e') ->
  view e' = disk_set i (im_content (impl e') i) (view e).
Proof.
  intros Hinv Hi Hs. unfold view, disk_set. simpl. rewrite (s_geo _ _ _ Hs). f_equal.
  unfold view_blocks. rewrite (s_size _ _ _ Hs). apply list_eq. intros n.
  destruct (decide (n = Z.to_nat i)) as [->|Hne].
  - rewrite list_lookup_insert_eq by (rewrite length_fmap, length_seqZ; lia).
    rewrite list_lookup_fmap, lookup_seqZ_lt by lia. simpl. f_equal. f_equal. lia.
  - rewrite list_lookup_insert_ne by done. rewrite !list_lookup_fmap.
    destruct (seqZ 0 (do_size (impl e)) !! n) as [j|] eqn:Hj; [|done]. simpl.
    apply lookup_seqZ in Hj as [-> Hj]. f_equal. apply (s_content _ _ _ Hs). lia.
Qed.

Lemma view_in e i : m_inv e -> in_disk (view e) i -> 0 <= i < do_size (impl e).
Proof.
  intros Hinv. destruct (im_size _ _ (mi_impl _ Hinv)). unfold in_disk, d_size. simpl.
  by rewrite length_view_blocks.
Qed.

Lemma view_block e i : m_inv e -> in_disk (view e) i ->
  disk_block (view e) i = im_content (impl e) i.
Proof.
  intros Hinv Hi. pose proof (disk_block_lookup _ _ Hi) as Hl. simpl in Hl.
  rewrite view_blocks_lookup in Hl by (by apply view_in). congruence.
Qed.

Lemma view_wf e : m_inv e -> wf_disk (view e).
Proof.
  intros Hinv. pose proof (mi_impl _ Hinv) as Hg. destruct (im_size _ _ Hg) as [Hs Ht].
  split_and!.
  - simpl. by eapply im_geo.
  - apply Forall_forall. intros b (i & -> & Hi%elem_of_seqZ)%list_elem_of_fmap.
    unfold d_bs; simpl. eapply im_length; [done|lia].
  - unfold d_size, d_bs. simpl. by rewrite length_view_blocks.
Qed.

(** *** Runs of the interface *)

(** One call of a client that respects the documented preconditions: the
    index is in bounds, a handle is copied, dropped and used only while it
    is alive, nothing is written to a read-only engine.  The call may throw
    because the storage fails. *)
Inductive api_step : E -> E -> Prop :=
  | step_read e e' r i : 0 <= i < do_size (impl e) -> read i e = (e', r) -> api_step e e'
  | step_overwrite e e' r i data : 0 <= i < do_size (impl e) -> im_writable (impl e) ->
      zlen data <= bs e -> overwrite i data e = (e', r) -> api_step e e'
  | step_overwrite_zero e e' r i : 0 <= i < do_size (impl e) -> im_writable (impl e) ->
      overwrite_zero i e = (e', r) -> api_step e e'
  | step_copy e e' r i : is_Some (m_handles e !! i) -> inc_ref i e = (e', r) -> api_step e e'
  | step_drop e e' r i : is_Some (m_handles e !! i) -> dec_ref i e = (e', r) -> api_step e e'
  | step_update e e' r i f : is_Some (m_handles e !! i) -> im_writable (impl e) ->
      (forall d, length (f d) = length d) -> handle_update i f e = (e', r) -> api_step e e'
  | step_flush_handle e e' r i : is_Some (m_handles e !! i) ->
      internal_flush_handle i e = (e', r) -> api_step e e'
  | step_flush e e' r : flush e = (e', r) -> api_step e e'
  | step_grow e e' r n : 0 <= n -> im_writable (impl e) ->
      (do_size (impl e) + n) * bs e < invalid_value -> grow n e = (e', r) -> api_step e e'.

Lemma wpx_elim {A} (m : M E A) e (Q : E -> Prop) e' r :
  wpx m e (fun _ => Q) (fun _ => Q) -> m e = (e', r) -> Q e'.
Proof. unfold wpx. intros Hw Hm. rewrite Hm in Hw. by destruct r. Qed.

Lemma index_ok e i : m_inv e -> 0 <= i < do_size (impl e) -> index_valid i = true.
Proof.
  intros Hinv Hi. eapply in_disk_valid; [by apply view_wf|].
  unfold in_disk, d_size. simpl. rewrite length_view_blocks; lia.
Qed.

Lemma bs_nonneg e : m_inv e -> 0 <= bs e.
Proof. intros Hinv. pose proof (wf_bs_pos _ (view_wf _ Hinv)) as Hb. unfold d_bs in Hb. simpl in Hb. lia. Qed.

Lemma populate_inv e i init :
  m_inv e -> 0 <= i < do_size (impl e) -> init_ok e init ->
  wpx (internal_populate_handle i init) e (fun _ => m_inv) (fun _ => m_inv).
Proof.
  intros Hinv Hi Hok. eapply wpx_mono; [by apply populate_spec|..]; cbn beta.
  - intros _ e' (d & [] & _). done.
  - intros er e' (_ & ? & _). done.
Qed.

Lemma grow_spec e n :
  m_inv e -> 0 <= n -> im_writable (impl e) -> (do_size (impl e) + n) * bs e < invalid_value ->
  wp (grow n) e (fun _ e' => m_inv e' /\ im_writable (impl e') /\ exists new, zlen new = n /\
    view e' = disk_append new (view e)).
Proof.
  intros Hinv Hn Hw Ht.
  pose proof (mi_impl _ Hinv) as Hg. destruct (im_size _ _ Hg) as [Hs0 _]. unfold grow.
  destruct (Z.ltb_spec 0 n).
  2:{ wp_steps. split_and!; [done..|]. exists []. replace n with 0 by lia. split; [done|].
      unfold disk_append. simpl. by rewrite app_nil_r. }
  apply wpx_wp, wpx_on_impl, wp_wpx. eapply wp_mono; [by apply im_grow|]. cbn beta.
  intros _ p' (Hg' & Hgeo & Hsz & Hw' & Hc & Hp). split_and!; [|done|].
  - destruct Hinv. split; simpl; try done.
    + intros j rc Hj. destruct (mi_range0 j rc Hj). split; [lia|done].
    + intros j. by rewrite Hp.
  - exists ((fun i => im_content p' i) <$> seqZ (do_size (impl e)) n). split.
    { rewrite length_fmap, length_seqZ. lia. }
    unfold view, disk_append. simpl. rewrite Hgeo. f_equal. unfold view_blocks.
    rewrite Hsz, seqZ_app by lia. rewrite fmap_app. f_equal.
    apply list_fmap_ext. intros n' j [-> Hj]%lookup_seqZ. apply Hc. lia.
Qed.

Lemma impl_step_inv {A} (m : M P A) e :
  m_inv e ->
  wpx m (impl e) (fun _ p' => good p' /\ same (impl e) p')
    (fun er p' => im_fails er /\ good p' /\ same (impl e) p') ->
  wpx (on_impl m) e (fun _ => m_inv) (fun _ => m_inv).
Proof.
  intros Hinv Hm. apply wpx_on_impl. eapply wpx_mono; [exact Hm|..]; cbn beta.
  - intros _ p' [??]. by apply m_inv_same.
  - intros _ p' (_ & ? & ?). by apply m_inv_same.
Qed.

Lemma handle_update_spec e i f d :
  m_inv e -> im_writable (impl e) -> pinned (impl e) i = Some d -> length (f d) = length d ->
  wp (handle_update i f) e (fun _ e' => m_inv e' /\ same_but i (impl e) (impl e') /\
    pinned (impl e') i = Some (f d) /\ m_handles e' = m_handles e).
Proof.
  intros Hinv Hw Hp Hl. destruct (proj2 (mi_pinned _ Hinv i)) as [rc Hh]; [by rewrite Hp|].
  destruct (mi_range _ Hinv _ _ Hh) as [Hi _].
  unfold handle_update, linked. do 4 wp_step. { by rewrite Hh. }
  apply wpx_wp, wpx_on_impl_seq, wp_wpx.
  eapply wp_mono; [by eapply (im_store (impl e) i f d), Hl; [apply Hinv|..]|]; cbn beta.
  intros _ p' (Hg & Hs & Hp'). split_and!; try done.
  eapply m_inv_update; try done; [|apply Hinv].
  intros rc'. rewrite Hh. intros [= <-]. by apply (mi_range _ Hinv i).
Qed.

Lemma inc_ref_inv e i : m_inv e -> is_Some (m_handles e !! i) -> wp (inc_ref i) e (fun _ => m_inv).
Proof.
  intros Hinv [rc Hh]. destruct (mi_range _ Hinv _ _ Hh) as [Hi Hrc].
  destruct (proj1 (mi_pinned _ Hinv i)) as [d Hd]; [by rewrite Hh|].
  unfold inc_ref. wp_steps. eapply m_inv_update; try done; [apply Hinv|..|apply Hinv].
  - by rewrite lookup_alter_eq, Hh.
  - intros j Hj. by rewrite lookup_alter_ne.
  - intros rc'. rewrite lookup_alter_eq, Hh. simpl. intros [= <-]. lia.
Qed.

Lemma api_step_inv e e' : m_inv e -> api_step e e' -> m_inv e'.
Proof.
  intros Hinv Hstep. destruct Hstep as [e e' r i Hi Hm|e e' r i data Hi Hw Hl Hm|e e' r i Hi Hw Hm
    |e e' r i Hh Hm|e e' r i Hh Hm|e e' r i f Hh Hw Hf Hm|e e' r i Hh Hm|e e' r Hm
    |e e' r n Hn Hw Ht Hm]; eapply (wpx_elim _ _ m_inv); try exact Hm; clear Hm;
    try pose proof (bs_nonneg e Hinv).
  - unfold read. rewrite (index_ok e i) by done. wpx_steps; [done|]. by apply populate_inv.
  - unfold overwrite. rewrite (index_ok e i) by done. wpx_steps; [done|done|].
    apply populate_inv; [done..|]. split; [done|]. intros d Hd. unfold initialize_data.
    rewrite length_app. pose proof (length_zeros (bs e - zlen data)). lia.
  - unfold overwrite_zero. rewrite (index_ok e i) by done. wpx_steps; [done|].
    apply populate_inv; [done..|]. split; [done|]. intros d Hd.
    pose proof (length_zeros (bs e)). lia.
  - by apply wp_wpx, inc_ref_inv.
  - destruct Hh as [rc Hh]. apply wp_wpx.
    eapply wp_mono; [by eapply dec_ref_spec|]. by intros _ e1 [? _].
  - destruct (proj1 (mi_pinned _ Hinv i) Hh) as [d Hd]. apply wp_wpx.
    eapply wp_mono; [by eapply handle_update_spec|]. by intros _ e1 [? _].
  - destruct (proj1 (mi_pinned _ Hinv i) Hh) as [d Hd]. destruct Hh as [rc Hh].
    unfold internal_flush_handle, linked. wpx_steps; [by rewrite Hh|].
    apply impl_step_inv; [done|]. by eapply im_flush_block, Hd; apply Hinv.
  - apply impl_step_inv; [done|]. by apply im_flush, Hinv.
  - apply wp_wpx. eapply wp_mono; [by apply grow_spec|]. by intros _ e1 [? _].
Qed.


Context `{!Reliable P}.

Lemma in_disk_index e i : m_inv e -> in_disk (view e) i -> index_valid i = true.
Proof. intros Hinv Hi. eapply in_disk_valid; [|exact Hi]. by apply view_wf. Qed.

Lemma read_block_spec e i :
  m_inv e -> in_disk (view e) i ->
  wp (read_block i) e (fun b e' => m_inv e' /\ b = disk_block (view e) i /\ view e' = view e /\
    m_handles e' = m_handles e /\ (im_writable (impl e) -> im_writable (impl e'))).
Proof.
  intros Hinv Hi. pose proof (view_in _ _ Hinv Hi) as Hr.
  assert (wp (with_handle (internal_populate_handle i None) i (handle_data i)) e (fun b e' =>
    m_inv e' /\ b = disk_block (view e) i /\ view e' = view e /\ m_handles e' = m_handles e /\
    (im_writable (impl e) -> im_writable (impl e')))) as Hw.
  { apply with_handle_spec; try done. intros d e1 Ha Hd.
    unfold handle_data, linked. wp_steps.
    { by rewrite (a_handles _ _ _ _ Ha), lookup_insert_eq. }
    rewrite (a_pinned _ _ _ _ Ha). wp_steps. exists d. split; [done|].
    intros e3 Hinv3 Hh Hs Hc. split_and!; try done.
    - rewrite view_block by done. by simpl in Hd.
    - rewrite (view_set e e3 i) by done. simpl in Hd. rewrite Hc, Hd, <- view_block by done.
      by apply disk_set_id.
    - apply Hs. }
  unfold wp, read_block, with_handle, read, bind, throw_if in *.
  by rewrite (in_disk_index e i Hinv Hi).
Qed.

Lemma update_block_spec e i f :
  m_inv e -> im_writable (impl e) -> in_disk (view e) i ->
  length (f (disk_block (view e) i)) = length (disk_block (view e) i) ->
  wp (update_block i f) e (fun _ e' => m_inv e' /\ im_writable (impl e') /\
    view e' = disk_set i (f (disk_block (view e) i)) (view e) /\ m_handles e' = m_handles e).
Proof.
  intros Hinv Hwr Hi Hl. pose proof (view_in _ _ Hinv Hi) as Hr.
  rewrite (view_block e i) in * by done.
  assert (wp (with_handle (internal_populate_handle i None) i (handle_update i f)) e
    (fun _ e' => m_inv e' /\ im_writable (impl e') /\
      view e' = disk_set i (f (im_content (impl e) i)) (view e) /\ m_handles e' = m_handles e))
    as Hw.
  { apply with_handle_spec; try done. intros d e1 Ha Hd. simpl in Hd. subst d.
    eapply wp_mono; [eapply handle_update_spec; [apply Ha| |apply Ha|done]|]; cbn beta.
    { by apply (s_writable _ _ _ (a_same _ _ _ _ Ha)). }
    intros _ e2 (Hinv2 & Hs & Hp & Hh2). exists (f (im_content (impl e) i)). split.
    - split; [done| |done|by rewrite Hh2; apply Ha].
      eapply same_but_trans; [apply Ha|done].
    - intros e3 Hinv3 Hh Hs3 Hc. split_and!; try done.
      + by apply (s_writable _ _ _ Hs3).
      + by rewrite (view_set e e3 i), Hc. }
  unfold wp, update_block, with_handle, read, bind, throw_if in *.
  by rewrite (in_disk_index e i Hinv Hi).
Qed.

(** Both kinds of overwriting. *)
Lemma overwrite_scope e i (acquire : M E unit) b :
  m_inv e -> im_writable (impl e) -> in_disk (view e) i -> zlen b = bs e ->
  acquire e = internal_populate_handle i (Some (fun _ => b)) e ->
  wp (with_handle acquire i (ret tt)) e (fun _ e' => m_inv e' /\ im_writable (impl e') /\
    view e' = disk_set i b (view e) /\ m_handles e' = m_handles e).
Proof.
  intros Hinv Hwr Hi Hb Hacq. pose proof (view_in _ _ Hinv Hi) as Hr.
  unfold wp, with_handle, bind at 1. rewrite Hacq.
  apply (with_handle_spec e i (Some (fun _ => b)) (ret tt)); try done.
  - split; [done|]. intros d. simpl. lia.
  - intros d e1 Ha Hd. destruct Hd as (d0 & _ & ->). wp_steps. exists b. split; [done|].
    intros e3 Hinv3 Hh Hs3 Hc. split_and!; try done.
    + by apply (s_writable _ _ _ Hs3).
    + by rewrite (view_set e e3 i), Hc.
Qed.

#[global] Instance manager_engine_spec : EngineSpec (manager P).
Proof.
  split; simpl.
  - intros e [Hinv _]. by apply view_wf.
  - intros e i [Hinv Hw] Hi. eapply wp_mono; [by apply read_block_spec|].
    intros b e' (? & ? & ? & ? & ?). auto.
  - intros e i f [Hinv Hw] Hi Hf. eapply wp_mono; [by apply update_block_spec|].
    intros [] e' (? & ? & ? & ?). auto.
  - intros e i data [Hinv Hw] Hi Hd. unfold d_bs in *. simpl in *.
    eapply wp_mono; [apply (overwrite_scope e i (overwrite i data) (initialize_data (bs e) data));
      try done|intros [] e' (? & ? & ? & ?); auto].
    + unfold initialize_data. rewrite length_app, Nat2Z.inj_add, length_zeros by lia. lia.
    + unfold overwrite, bind, throw_if, gets. rewrite (in_disk_index e i Hinv Hi). simpl.
      by rewrite (proj2 (Z.ltb_ge _ _)) by lia.
  - intros e i [Hinv Hw] Hi. unfold d_bs in *. simpl in *.
    eapply wp_mono; [apply (overwrite_scope e i (overwrite_zero i) (zeros (bs e))); try done
      |intros [] e' (? & ? & ? & ?); auto].
    + apply length_zeros. pose proof (wf_bs_pos _ (view_wf _ Hinv)) as Hb. unfold d_bs in Hb.
      simpl in Hb. lia.
    + unfold overwrite_zero, bind, throw_if, gets. by rewrite (in_disk_index e i Hinv Hi).
  - intros e n [Hinv Hw] Hn Ht. unfold d_size, d_bs in Ht. simpl in Ht.
    destruct (im_size _ _ (mi_impl _ Hinv)) as [Hs0 _]. rewrite length_view_blocks in Ht by done.
    eapply wp_mono; [by apply grow_spec|]. intros [] e' (? & ? & ?). auto.
  - intros e f data. done.
Qed.
End manager_spec.
