(* ===== verification/FileEngine.v ===== *)
(** * The file engine (src/engine/file_engine.{hpp,ipp}, src/file_engine.cpp)

    The block cache of EngineBase.v on top of a file.  It implements the
    virtual functions of Handles.v, hence the engine interface: what a client
    reads through handles is the last version written, whatever the cache
    has evicted in between. *)

From Stdlib Require Import Strings.Byte.
From S2P Require Import Prelude MathOps Blocks EngineSpec Files EngineBase Handles.

Section file_engine.
Context {F : Type} `{File F}.

Definition file_do_read (g : geometry) (index : Z) : M F bytes :=
  file_read (u64 (Z.shiftl index (g_block_size_log g))) (g_block_size g).
Definition file_do_write (g : geometry) (index : Z) (data : bytes) : M F unit :=
  file_write (u64 (Z.shiftl index (g_block_size_log g))) data.

#[global] Instance file_backend : Backend F := {|
  do_read := file_do_read;
  do_write := file_do_write
|}.

Abbreviation P := (engine_base F).

(** The constructor. *)
Definition make_file_engine (f : F) (block_size cache_blocks : Z) : result P :=
  make_engine_base f block_size cache_blocks (file_read_only f).

Definition size (s : P) : Z := Z.shiftr (file_size (backend s)) (g_block_size_log (m_geo s)).

Definition grow (n : Z) : M P unit :=
  let* sz := gets size in
  let* g := gets m_geo in
  let* new_blocks := lift_result (checked_add 64 sz n) in
  let* new_bytes := lift_result (checked_mul 64 new_blocks (g_block_size g)) in
  call (fun _ => file_truncate new_bytes).

#[global] Instance file_impl `{!Malloc F} : Impl P := {|
  impl_geo := m_geo;
  do_size := size;
  do_grow := grow;
  do_flush := EngineBase.flush;
  do_pin := pin;
  do_unpin := unpin;
  do_dirty := dirty;
  do_flush_block := flush_index;
  pinned := pinned_data;
  store_pinned := store
|}.
End file_engine.

Section file_backend_spec.
Context {F : Type} `{FileSpec F}.

Definition file_in (g : geometry) (f : F) (i : Z) : Prop :=
  0 <= i /\ (i + 1) * g_block_size g <= zlen (file_data f).
Definition file_block (g : geometry) (f : F) (i : Z) : bytes :=
  if 0 <=? i then slice (i * g_block_size g) (g_block_size g) (file_data f) else [].
Definition file_inv (g : geometry) (f : F) : Prop :=
  wf_geometry g /\ zlen (file_data f) < invalid_value.

Lemma file_offset g f i :
  file_inv g f -> file_in g f i ->
  u64 (Z.shiftl i (g_block_size_log g)) = i * g_block_size g.
Proof.
  intros [Hg Hl] [Hi Hin]. destruct (geometry_pos g Hg) as (Hb & Hp & Hk).
  rewrite Z.shiftl_mul_pow2, <- Hp by done. apply wrap_small.
  unfold is_word, invalid_value, u64_max in *. nia.
Qed.

#[global] Program Instance file_backend_spec : BackendSpec F := {|
  be_inv := file_inv;
  be_writable := fun f => file_read_only f = false;
  be_fails := fun _ => False;
  be_in := file_in;
  be_block := file_block
|}.
Next Obligation.
  intros g f i [Hg _] [Hi Hin]. destruct (geometry_pos g Hg) as (Hb & _).
  unfold file_block. rewrite (proj2 (Z.leb_le 0 i) Hi). apply length_slice; lia.
Qed.
Next Obligation.
  intros g f i Hf Hin keep. pose proof Hin as [Hi Hr]. pose proof Hf as [Hg Hl].
  destruct (geometry_pos g Hg) as (Hb & _). simpl. unfold file_do_read.
  rewrite (file_offset g f i) by done. apply wp_wpx.
  unfold invalid_value, u64_max in *.
  eapply wp_mono; [apply file_read_spec; nia|]. cbn beta. intros d f' [-> ->].
  unfold file_block. rewrite (proj2 (Z.leb_le 0 i) Hi). split; [done|]. subst keep. done.
Qed.
Next Obligation.
  intros g f i d Hf Hw Hin Hd upd. pose proof Hin as [Hi Hr]. pose proof Hf as [Hg Hl].
  destruct (geometry_pos g Hg) as (Hb & _). simpl. unfold file_do_write.
  rewrite (file_offset g f i) by done. apply wp_wpx. unfold invalid_value, u64_max in *.
  eapply wp_mono; [apply file_write_spec; try done; nia|]. cbn beta. intros _ f' [Hf' Hw'].
  assert (length (file_data f') = length (file_data f)) as Hlen.
  { rewrite Hf'. apply length_splice; nia. }
  subst upd. cbn beta. unfold file_in, file_inv. rewrite Hlen. split_and!; try done.
  intros j. unfold file_block. rewrite Hf'. case_decide as Hj; [subst j|].
  - rewrite (proj2 (Z.leb_le 0 i) Hi). apply slice_splice_same; nia.
  - destruct (Z.leb_spec 0 j); [|done]. apply slice_splice_disjoint; nia.
Qed.
End file_backend_spec.

Section file_impl_spec.
Context {F : Type} `{FileSpec F} `{!Malloc F, !MallocSpec F}.
Abbreviation P := (engine_base F).
Implicit Types (p : P) (i : Z).
Abbreviation bs p := (g_block_size (m_geo p)).

#[global] Instance file_impl_spec : ImplSpec P := {|
  im_inv := inv_except;
  im_content := logical;
  im_writable := fun p => m_read_only p = false;
  im_fails := fun _ => False
|}.

Lemma size_eq p X : inv_except X p -> size p = zlen (file_data (backend p)) / bs p.
Proof.
  intros Hinv. destruct (geometry_pos _ (i_geo _ _ Hinv)) as (_ & Hp & Hk).
  unfold size. rewrite file_size_spec, Z.shiftr_div_pow2, <- Hp by done. done.
Qed.

Lemma in_store_size p X i : inv_except X p -> in_store p i <-> 0 <= i < size p.
Proof.
  intros Hinv. rewrite (size_eq p X Hinv).
  destruct (geometry_pos _ (i_geo _ _ Hinv)) as (Hb & _).
  unfold in_store; simpl. unfold file_in.
  pose proof (Z.div_mod (zlen (file_data (backend p))) (bs p) ltac:(lia)).
  pose proof (Z.mod_pos_bound (zlen (file_data (backend p))) (bs p) ltac:(lia)).
  split; intros; nia.
Qed.

Lemma size_bounds p X : inv_except X p -> 0 <= size p /\ size p * bs p < invalid_value.
Proof.
  intros Hinv. rewrite (size_eq p X Hinv). destruct (i_be _ _ Hinv) as [Hg Hl].
  destruct (geometry_pos _ Hg) as (Hb & _).
  pose proof (Z.div_mod (zlen (file_data (backend p))) (bs p) ltac:(lia)).
  pose proof (Z.mod_pos_bound (zlen (file_data (backend p))) (bs p) ltac:(lia)).
  pose proof (Z.div_pos (zlen (file_data (backend p))) (bs p)). nia.
Qed.

(** The engines agree on the range of blocks, hence on the size. *)
Lemma same_config_size p p' X X' :
  inv_except X p -> inv_except X' p' -> same_config p p' -> size p' = size p.
Proof.
  intros Hp Hp' Hc. pose proof (k_in _ _ Hc) as Hin.
  destruct (size_bounds _ _ Hp), (size_bounds _ _ Hp').
  assert (forall i, 0 <= i < size p' <-> 0 <= i < size p) as Hr.
  { intros i. rewrite <- (in_store_size p' X'), <- (in_store_size p X) by done. apply Hin. }
  pose proof (Hr (size p)). pose proof (Hr (size p')). lia.
Qed.

Lemma set_pinned_same_but p p' i d X X' :
  inv_except X p -> inv_except X' p' -> set_pinned p i d p' -> same_but i p p'.
Proof.
  intros Hp Hp' Hs. pose proof (sp_config _ _ _ _ Hs) as Hc. split; simpl.
  - apply Hc.
  - by eapply same_config_size.
  - by rewrite (k_read_only _ _ Hc).
  - apply Hs.
  - apply Hs.
Qed.

Lemma unchanged_same p p' X X' :
  inv_except X p -> inv_except X' p' -> unchanged p p' -> same p p'.
Proof.
  intros Hp Hp' Hu. pose proof (u_config _ _ Hu) as Hc. intros i.
  split_and!; [split; simpl|apply Hu|apply Hu].
  - apply Hc.
  - by eapply same_config_size.
  - by rewrite (k_read_only _ _ Hc).
  - intros j _. apply Hu.
  - intros j _. apply Hu.
Qed.

Lemma pinned_data_block p i d : pinned_data p i = Some d ->
  m_blocks p !! i = Some (Block d true).
Proof.
  unfold pinned_data. destruct (m_blocks p !! i) as [[d' []]|]; [|done..]. by intros [= ->].
Qed.

(** Clean blocks are blocks of the file, too. *)
Lemma cached_in_store p i blk : inv p -> m_blocks p !! i = Some blk -> in_store p i.
Proof.
  intros Hinv Hi. destruct (decide (i ∈ m_dirty p)) as [Hd|Hd].
  { apply (i_in _ _ Hinv _ _ Hi). by right. }
  pose proof (i_data _ _ Hinv _ _ Hi) as Hl. rewrite (i_clean _ _ Hinv _ _ Hi Hd) in Hl by exact id.
  destruct (geometry_pos _ (i_geo _ _ Hinv)) as (Hb & _).
  unfold stored, in_store in *. cbn in *. unfold file_block, file_in in *.
  destruct (Z.leb_spec 0 i); [|cbn in Hl; lia]. split; [done|].
  unfold slice in Hl. rewrite length_take, length_drop in Hl. nia.
Qed.

Lemma file_grow_spec p n :
  inv p -> m_read_only p = false -> 0 <= n -> (size p + n) * bs p < invalid_value ->
  wp (grow n) p (fun _ p' => inv p' /\ m_geo p' = m_geo p /\ size p' = size p + n /\
    m_read_only p' = false /\ (forall j, 0 <= j < size p -> logical p' j = logical p j) /\
    (forall j, pinned_data p' j = pinned_data p j)).
Proof.
  intros Hinv Hro Hn Ht. destruct (size_bounds _ _ Hinv) as [Hs0 Hs].
  destruct (geometry_pos _ (i_geo _ _ Hinv)) as (Hb & _).
  assert (size p * bs p <= zlen (file_data (backend p))) as Hsz.
  { rewrite (size_eq _ _ Hinv).
    pose proof (Z.mul_div_le (zlen (file_data (backend p))) (bs p)). nia. }
  unfold grow. do 4 wp_step. assert (size p + n < 2 ^ 64) as Hlt.
  { unfold invalid_value, u64_max in *. nia. }
  unfold invalid_value, u64_max in Ht.
  rewrite checked_add_spec, (proj2 (Z.ltb_lt _ _)) by (unfold is_word; lia). wp_step. wp_step.
  rewrite checked_mul_spec, (proj2 (Z.ltb_lt _ _)) by (unfold is_word; lia).
  wp_step. wp_step. unfold call. wp_step. wp_step. apply wp_zoom.
  eapply wp_mono; [apply file_truncate_spec; [by apply Hinv|nia]|]. cbn beta.
  intros _ f [Hf Hfro]. set (p' := set_backend f p).
  assert (forall j, in_store p j -> stored p' j = stored p j) as Hst.
  { intros j Hj%(in_store_size _ _ _ Hinv). unfold stored; simpl. unfold file_block.
    rewrite (proj2 (Z.leb_le 0 j)) by lia. rewrite Hf. apply slice_resize; nia. }
  assert (zlen (file_data f) = (size p + n) * bs p) as Hlen
    by (rewrite Hf, length_resize; nia).
  assert (forall j, in_store p j -> in_store p' j) as Hin.
  { intros j Hj%(in_store_size _ _ _ Hinv). unfold in_store; simpl. unfold file_in.
    rewrite Hlen. nia. }
  assert (inv p') as Hinv'.
  { pose proof Hinv as [Hgeo [Hg Hl] ? ? ? ? ? ? Hdata ? Hclean ? ?]. split; try done.
    - split; [done|]. simpl. rewrite Hlen. unfold invalid_value, u64_max. lia.
    - intros j blk Hj Hp. by eauto.
    - intros j blk Hj Hnd HX. rewrite Hst by (by eapply cached_in_store). by apply Hclean. }
  split_and!; try done.
  - rewrite (size_eq _ _ Hinv'). simpl. rewrite Hlen. apply Z.div_mul. lia.
  - intros j Hj%(in_store_size _ _ _ Hinv). unfold logical; simpl.
    destruct (m_blocks p !! j); [done|]. by apply Hst.
Qed.

Lemma logical_length p X i : inv_except X p -> in_store p i -> zlen (logical p i) = bs p.
Proof.
  intros Hinv Hi. unfold logical. destruct (m_blocks p !! i) eqn:Hb.
  - by eapply (i_data _ _ Hinv i).
  - apply be_wf; [apply Hinv|done].
Qed.

Lemma set_pinned_pinned p i d p' : set_pinned p i d p' -> pinned_data p' i = Some d.
Proof. intros [_ Hd _ _]. unfold pinned_data. by rewrite Hd. Qed.

Lemma set_pinned_unchanged p p1 i d p2 :
  set_pinned p i d p1 -> unchanged p1 p2 -> m_blocks p2 = m_blocks p1 -> set_pinned p i d p2.
Proof.
  intros [Hc Hd Hl Hp] [Hc2 Hl2 Hp2] Hb. split; [by etrans|by rewrite Hb|..]; intros j Hj.
  - by rewrite Hl2, Hl.
  - by rewrite Hp2, Hp.
Qed.

Lemma inv_except_mono p (X Y : Z -> Prop) :
  inv_except X p -> (forall i, X i -> Y i) -> inv_except Y p.
Proof.
  intros Hinv HXY. split; try apply Hinv. intros i blk Hi Hnd HY.
  apply (i_clean _ _ Hinv); auto.
Qed.

#[global] Instance file_impl_laws : ImplLaws P.
Proof.
  split; simpl.
  - intros p X Hinv. apply Hinv.
  - intros p X. apply size_bounds.
  - intros p X i Hinv Hi. eapply logical_length; [done|]. by eapply in_store_size.
  - intros p X i d Hinv Hd%pinned_data_block. unfold logical. rewrite Hd.
    split; [done|]. by apply (i_data _ _ Hinv) in Hd.
  - intros p i init Hinv Hi Hp.
    eapply wpx_mono; [apply pin_spec; [done|by eapply in_store_size|done]|..]; cbn beta.
    + intros _ p' (d & Hinv' & Hs & _ & Hd & _). split_and!; [done| |].
      * by eapply set_pinned_same_but.
      * exists d. split; [by eapply set_pinned_pinned|done].
    + intros e p' (He & Hinv' & Hu). split_and!; [done..|]. by eapply unchanged_same.
  - intros p i d Hinv Hd%pinned_data_block.
    eapply wp_mono; [by eapply unpin_spec|]. cbn beta. intros _ p' (Hinv' & Hc & Hl & Hp).
    split_and!; [done| |by rewrite Hl; unfold logical; rewrite Hd|by rewrite Hp, decide_True].
    split; simpl.
    + apply Hc.
    + by eapply same_config_size.
    + by rewrite (k_read_only _ _ Hc).
    + intros j _. apply Hl.
    + intros j Hj. by rewrite Hp, decide_False.
  - intros p i f d Hinv Hro Hd%pinned_data_block Hf. wp_step.
    eapply wp_mono; [eapply dirty_spec; [by apply inv_weaken|done..]|]. cbn beta.
    intros _ p1 (Hinv1 & Hi1 & Hu1 & Hb1).
    eapply wp_mono; [apply (store_spec (fun _ => False) p1 i d); auto; by rewrite Hb1|]. cbn beta.
    intros _ p2 (Hinv2 & Hs2 & _). split_and!; [done| |by eapply set_pinned_pinned].
    eapply set_pinned_same_but; [done..|]. by eapply unchanged_set_pinned.
  - intros p i f d Hinv Hro Hd%pinned_data_block Hf. wp_step.
    eapply wp_mono; [apply (store_spec (fun j => j = i) p i d); auto|]. cbn beta.
    intros _ p1 (Hinv1 & Hs1 & _).
    assert (m_read_only p1 = false) as Hro1
      by (by rewrite (k_read_only _ _ (sp_config _ _ _ _ Hs1))).
    eapply wp_mono; [eapply dirty_spec; [done|done|apply Hs1]|]. cbn beta.
    intros _ p2 (Hinv2 & _ & Hu2 & Hb2).
    assert (set_pinned p i (f d) p2) as Hs by (by eapply set_pinned_unchanged).
    split_and!; [done|by eapply set_pinned_same_but|by eapply set_pinned_pinned].
  - intros p X Y. apply inv_except_mono.
  - intros p n Hinv Hw Hn Ht. by apply file_grow_spec.
  - intros p i d Hinv Hd%pinned_data_block.
    eapply wpx_mono; [by eapply flush_index_spec|..]; cbn beta.
    + intros _ p' (Hinv' & Hu & _). split; [done|]. by eapply unchanged_same.
    + intros e p' (He & Hinv' & Hu). split_and!; [done..|]. by eapply unchanged_same.
  - intros p Hinv. eapply wpx_mono; [by apply EngineBase.flush_spec|..]; cbn beta.
    + intros _ p' (Hinv' & Hu & _). split; [done|]. by eapply unchanged_same.
    + intros e p' (He & Hinv' & Hu). split_and!; [done..|]. by eapply unchanged_same.
Qed.

#[global] Instance file_reliable : Reliable P.
Proof. intros e. exact id. Qed.
End file_impl_spec.

(** ** Sessions

    A session is a sequence of block operations; on the abstract disk it is
    a sequence of array updates, on an engine it runs through handles. *)
Inductive op : Set :=
  | ReadBlock (i : Z)
  | WriteAt (i off : Z) (data : bytes)
  | OverwriteBlock (i : Z) (data : bytes)
  | ZeroBlock (i : Z).

Definition exec {E} `{Engine E} (o : op) : M E bytes :=
  match o with
  | ReadBlock i => eng_read i
  | WriteAt i off data => eng_update i (splice off data) ;;; ret []
  | OverwriteBlock i data => eng_overwrite i data ;;; ret []
  | ZeroBlock i => eng_overwrite_zero i ;;; ret []
  end.

Fixpoint run {E} `{Engine E} (ops : list op) : M E (list bytes) :=
  match ops with
  | [] => ret []
  | o :: ops =>
    let* out := exec o in
    let* outs := run ops in
    ret (out :: outs)
  end.

Definition disk_exec (d : disk) (o : op) : bytes * disk :=
  match o with
  | ReadBlock i => (disk_block d i, d)
  | WriteAt i off data => ([], disk_set i (splice off data (disk_block d i)) d)
  | OverwriteBlock i data => ([], disk_set i (initialize_data (d_bs d) data) d)
  | ZeroBlock i => ([], disk_set i (zeros (d_bs d)) d)
  end.

Fixpoint disk_run (d : disk) (ops : list op) : list bytes * disk :=
  match ops with
  | [] => ([], d)
  | o :: ops =>
    let (out, d') := disk_exec d o in
    let (outs, d'') := disk_run d' ops in
    (out :: outs, d'')
  end.

Definition valid_op (bs n : Z) (o : op) : Prop :=
  match o with
  | ReadBlock i | ZeroBlock i => 0 <= i < n
  | WriteAt i off data => 0 <= i < n /\ 0 <= off /\ off + zlen data <= bs
  | OverwriteBlock i data => 0 <= i < n /\ zlen data <= bs
  end.

Section session.
Context {E : Type} `{EngineSpec E}.

Lemma exec_spec (e : E) o :
  eng_inv e -> valid_op (d_bs (eng_view e)) (d_size (eng_view e)) o ->
  wp (exec o) e (fun out e' => eng_inv e' /\ (out, eng_view e') = disk_exec (eng_view e) o).
Proof.
  intros Hinv. pose proof (spec_wf e Hinv) as Hwf. destruct o as [i|i off data|i data|i]; simpl.
  - intros Hi. eapply wp_mono; [by apply spec_read|]. simpl. intros b e' (-> & ? & ->). done.
  - intros (Hi & Ho & Hl). wp_step. eapply wp_mono; [apply spec_update; [done..|]|].
    + pose proof (length_disk_block _ i Hwf Hi). apply length_splice; lia.
    + simpl. intros _ e' [? Hv]. wp_steps. by rewrite Hv.
  - intros [Hi Hl]. wp_step. eapply wp_mono; [by apply spec_overwrite|].
    simpl. intros _ e' [? Hv]. wp_steps. by rewrite Hv.
  - intros Hi. wp_step. eapply wp_mono; [by apply spec_overwrite_zero|].
    simpl. intros _ e' [? Hv]. wp_steps. by rewrite Hv.
Qed.

Lemma disk_exec_shape d o :
  d_geo (disk_exec d o).2 = d_geo d /\ d_size (disk_exec d o).2 = d_size d.
Proof. destruct o; simpl; split; try done; apply disk_set_size. Qed.

Lemma disk_run_shape ops : forall d,
  d_geo (disk_run d ops).2 = d_geo d /\ d_size (disk_run d ops).2 = d_size d.
Proof.
  induction ops as [|o ops IH]; intros d; simpl; [done|].
  destruct (disk_exec_shape d o) as [Hg Hs]. destruct (disk_exec d o) as [out d'].
  destruct (IH d') as [Hg' Hs']. destruct (disk_run d' ops). simpl in *. split; congruence.
Qed.

Lemma run_spec ops : forall e : E,
  eng_inv e -> Forall (valid_op (d_bs (eng_view e)) (d_size (eng_view e))) ops ->
  wp (run ops) e (fun outs e' => eng_inv e' /\ (outs, eng_view e') = disk_run (eng_view e) ops).
Proof.
  induction ops as [|o ops IH]; intros e Hinv Hops; simpl; [by wp_steps|].
  apply Forall_cons in Hops as [Ho Hops]. wp_step.
  eapply wp_mono; [by apply exec_spec|]. cbn beta. intros out e1 [Hinv1 Hex].
  destruct (disk_exec_shape (eng_view e) o) as [Hg Hs]. rewrite <- Hex in *. simpl in *.
  wp_step. eapply wp_mono; [apply IH; [done|]|].
  - unfold d_bs in *. by rewrite Hg, Hs.
  - cbn beta. intros outs e2 [Hinv2 Hrun]. wp_steps. split; [done|]. by rewrite <- Hrun.
Qed.
End session.

(** The blocks of a file. *)
Definition file_disk (g : geometry) (data : bytes) : disk :=
  Disk g ((fun i => slice (i * g_block_size g) (g_block_size g) data) <$>
          seqZ 0 (zlen data / g_block_size g)).

Lemma concat_slices bs (n : nat) (l : bytes) :
  0 < bs -> Z.of_nat n * bs <= zlen l ->
  concat ((fun i => slice (i * bs) bs l) <$> seqZ 0 (Z.of_nat n)) = slice 0 (Z.of_nat n * bs) l.
Proof.
  intros Hbs. induction n as [|n IH]; intros Hn; [done|].
  replace (Z.of_nat (S n)) with (Z.of_nat n + 1) by lia.
  rewrite seqZ_app by lia. rewrite fmap_app, concat_app, IH by nia. simpl. rewrite app_nil_r.
  replace ((Z.of_nat n + 1) * bs) with (Z.of_nat n * bs + bs) by lia.
  rewrite (slice_add 0) by nia. done.
Qed.

Section file_session.
Context {F : Type} `{FileSpec F} `{!Malloc F, !MallocSpec F}.

Lemma make_file_engine_inv (f : F) bs cache p :
  is_u32 bs -> 0 <= cache < 2 ^ 64 -> zlen (file_data f) < invalid_value ->
  make_file_engine f bs cache = Ok p ->
  inv p /\ backend p = f /\ m_read_only p = file_read_only f /\ m_blocks p = ∅ /\
  make_geometry bs = Ok (m_geo p).
Proof.
  intros Hbs Hc Hlen Hp. pose proof (make_geometry_spec bs Hbs) as Hg.
  unfold make_file_engine, make_engine_base, make_geometry in *.
  destruct (is_pow2 32 bs); [|by destruct (log2 32 bs)].
  destruct (log2 32 bs) as [l|]; [|done]. injection Hp as <-. simpl.
  destruct Hg as [Hg _]. split_and!; try done. split; simpl; try done.
  - constructor.
  - intros i. split; [by intros ?%not_elem_of_nil|by intros [d ?]].
  - constructor.
  - by intros i ?%not_elem_of_nil.
  - by left.
Qed.

(** A clean engine: the file holds what the clients see. *)
Lemma flushed_file (p : engine_base F) :
  inv p -> m_dirty p = [] ->
  slice 0 (size p * g_block_size (m_geo p)) (file_data (backend p)) = concat (view_blocks p).
Proof.
  intros Hinv Hd. destruct (size_bounds _ _ Hinv) as [Hs _].
  destruct (geometry_pos _ (i_geo _ _ Hinv)) as (Hb & _).
  pose proof (Z.mul_div_le (zlen (file_data (backend p))) (g_block_size (m_geo p))).
  pose proof (size_eq _ _ Hinv).
  rewrite <- (Z2Nat.id (size p)), <- concat_slices by lia. f_equal.
  unfold view_blocks; simpl. rewrite Z2Nat.id by done. apply list_fmap_ext.
  intros n i [-> Hi]%lookup_seqZ. rewrite <- clean_stored by done.
  unfold stored; simpl. unfold file_block. by rewrite (proj2 (Z.leb_le _ _)) by lia.
Qed.

Lemma make_manager_inv (f : F) bs cache p :
  is_u32 bs -> 0 <= cache < 2 ^ 64 -> zlen (file_data f) < invalid_value ->
  file_read_only f = false -> make_file_engine f bs cache = Ok p ->
  eng_inv (make_manager p) /\ eng_view (make_manager p) = file_disk (m_geo p) (file_data f).
Proof.
  intros Hbs Hc Hlen Hro Hp.
  destruct (make_file_engine_inv f bs cache p) as (Hinv & Hbe & Hrp & Hbl & Hg); [done..|].
  split; [split; [split|]|]; simpl; try done.
  - intros i. unfold pinned_data. rewrite Hbl. split; by intros [? ?].
  - congruence.
  - unfold view, file_disk. simpl. f_equal. unfold view_blocks. simpl.
    rewrite (size_eq _ _ Hinv), Hbe. apply list_fmap_ext. intros n i [-> Hi]%lookup_seqZ.
    unfold logical. rewrite Hbl. unfold stored; simpl. unfold file_block. rewrite Hbe.
    by rewrite (proj2 (Z.leb_le _ _)) by lia.
Qed.

(** C16: A session on a file engine opened on any file, with a cache of any
    size and ending with [flush], returns what the same operations return
    on an array of blocks, and leaves exactly the blocks of that array in
    the file. *)
Theorem file_engine_session (f : F) bs cache p ops :
  is_u32 bs -> 0 <= cache < 2 ^ 64 -> make_file_engine f bs cache = Ok p ->
  file_read_only f = false -> zlen (file_data f) < invalid_value ->
  let n := zlen (file_data f) / bs in
  Forall (valid_op bs n) ops ->
  wp (let* outs := run ops in Handles.flush ;;; ret outs) (make_manager p) (fun outs e =>
    let (outs', d) := disk_run (file_disk (m_geo p) (file_data f)) ops in
    outs = outs' /\ slice 0 (n * bs) (file_data (backend (impl e))) = flat d).
Proof.
  intros Hbs Hc Hp Hro Hlen n Hops.
  destruct (make_manager_inv f bs cache p) as [Hinv Hv]; [done..|].
  destruct (make_file_engine_inv f bs cache p) as (Hip & Hbe & _ & _ & Hg); [done..|].
  pose proof (make_geometry_spec bs Hbs) as Hgs. rewrite Hg in Hgs. destruct Hgs as [Hwg Hgb].
  destruct (geometry_pos _ Hwg) as (Hb & _).
  pose proof (Z.div_pos (zlen (file_data f)) bs ltac:(lia) ltac:(lia)).
  assert (d_bs (file_disk (m_geo p) (file_data f)) = bs) as Hdb by done.
  assert (d_size (file_disk (m_geo p) (file_data f)) = n) as Hds.
  { unfold d_size. simpl. rewrite length_fmap, length_seqZ, Hgb. subst n. lia. }
  wp_step. eapply wp_mono; [apply run_spec; [done|by rewrite Hv, Hdb, Hds]|].
  cbn beta. intros outs e1 [[Hinv1 Hw1] Hrun]. rewrite Hv in Hrun.
  pose proof (disk_run_shape ops (file_disk (m_geo p) (file_data f))) as [Hsg Hss].
  rewrite <- Hrun in *. cbn [snd] in *.
  wp_step. unfold Handles.flush. apply wpx_wp, wpx_on_impl.
  eapply wpx_mono; [apply EngineBase.flush_spec; apply Hinv1|..]; cbn beta; [|intros ?? [Hfail _]; exact Hfail].
  intros _ p2 (Hinv2 & Hu2 & Hd2 & _). apply wp_ret. split; [done|].
  pose proof (same_config_size _ _ _ _ (mi_impl _ Hinv1) Hinv2 (u_config _ _ Hu2)) as Hsz.
  assert (size (impl e1) = n) as Hsn.
  { rewrite <- Hds, <- Hss. unfold d_size. simpl. symmetry.
    exact (length_view_blocks (impl e1) (proj1 (size_bounds _ _ (mi_impl _ Hinv1)))). }
  assert (g_block_size (m_geo p2) = bs) as Hgb2.
  { rewrite (k_geo _ _ (u_config _ _ Hu2)). simpl in Hsg. by rewrite Hsg. }
  simpl. rewrite <- Hsn, <- Hsz, <- Hgb2, flushed_file by done.
  unfold flat. simpl. f_equal. unfold view_blocks. simpl. rewrite Hsz.
  apply list_fmap_ext. intros k i _. apply Hu2.
Qed.
End file_session.

(** ** Instances on the memory file *)

#[global] Instance memory_malloc : Malloc memory_file.memory_file :=
  fun s => zeros (g_block_size (m_geo s)).
#[global] Instance memory_malloc_spec : MallocSpec memory_file.memory_file.
Proof. intros s Hg. apply length_zeros. pose proof (geometry_pos _ Hg). lia. Qed.

Definition sample_file (read_only : bool) : memory_file.memory_file :=
  memory_file.MemoryFile [x00; x01; x02; x03; x04; x05; x06; x07; x08; x09; x0a; x0b] read_only.

(** Blocks of four bytes, a cache for one block. *)
Definition sample_base (read_only : bool) : engine_base memory_file.memory_file :=
  EngineBase (sample_file read_only) (Geometry 4 2 3) 1 9 read_only [] ∅ [] [] (Stats 0 0 0).
Definition sample_manager (read_only : bool) := make_manager (sample_base read_only).

Definition sample_ops : list op :=
  [WriteAt 0 1 [xaa; xbb]; ZeroBlock 1; ReadBlock 0; OverwriteBlock 2 [xcc]; ReadBlock 1; ReadBlock 2].

Lemma file_engine_session_witness :
  wp (let* outs := run sample_ops in Handles.flush ;;; ret outs) (make_manager (sample_base false))
    (fun outs e =>
      let (outs', d) := disk_run (file_disk (m_geo (sample_base false))
                                    (file_data (sample_file false))) sample_ops in
      outs = outs' /\
      slice 0 (zlen (file_data (sample_file false)) / 4 * 4) (file_data (backend (impl e))) = flat d).
Proof.
  assert (make_file_engine (sample_file false) 4 1 = Ok (sample_base false)) as Hmake
    by (vm_compute; reflexivity).
  assert (Forall (valid_op 4 3) sample_ops) as Hops by (repeat constructor; simpl; lia).
  pose proof (file_engine_session (sample_file false) 4 1 (sample_base false) sample_ops) as Hw.
  apply Hw; try exact Hmake; try exact Hops; try reflexivity; unfold is_word; lia.
Defined.

Lemma sample_manager_inv : m_inv (sample_manager false).
Proof.
  apply (make_manager_inv (sample_file false) 4 1 (sample_base false));
    unfold is_word; try lia; try (vm_compute; reflexivity).
Qed.


(** [overwrite] on an engine whose file is read-only throws, but the new data
    is applied to the cached block before the check: later reads return bytes
    that are not in the file. *)
Lemma read_only_overwrite_visible :
  let (e1, r1) := overwrite_block 0 [xff; xff; xff; xff] (sample_manager true) in
  r1 = Err io_error /\
  snd (read_block 0 e1) = Ok [xff; xff; xff; xff] /\
  file_data (backend (impl e1)) = file_data (sample_file true).
Proof. by vm_compute. Qed.
