(* ===== verification/Journal.v ===== *)
(** * The journal (src/engine/journal.{hpp,ipp})

    A redo log in a file: a header followed by the records of transactions.
    A transaction is a begin record, write records (each followed by the
    block) and a commit record.  The tail of the log is kept in a buffer.

    The model works on the bytes of the file.  JournalSpec.v relates it to
    the list of committed transactions and to the writes of the running one. *)

From Stdlib Require Import Strings.Byte Strings.String.
From stdpp Require Import sorting.
From S2P Require Import Prelude MathOps Serialization Blocks Files.

(** ** Records *)

(** [record_type_t] *)
Definition record_begin : Z := 1.
Definition record_abort : Z := 2.
Definition record_commit : Z := 3.
Definition record_write : Z := 4.

Definition record_header_size : Z := 1.
Definition commit_record_size : Z := 9.
Definition write_record_size : Z := 9.

(** [serialize] of [record_header], [commit_record] and [write_record]. *)
Definition encode_header (type : Z) : bytes := [byte_of type].
Definition encode_commit (database_size : Z) : bytes :=
  encode_header record_commit ++ be_encode 8 database_size.
Definition encode_write_record (index : Z) : bytes :=
  encode_header record_write ++ be_encode 8 index.

(** [LOG_MAGIC] in a [magic_header] of 20 bytes, [LOG_VERSION] *)
Definition LOG_MAGIC : bytes := resize 20 (list_byte_of_string "PREQUEL_TX_JOURNAL").
Definition LOG_VERSION : Z := 1.
Definition log_header_size : Z := 28.
Definition encode_log_header (block_size : Z) : bytes :=
  LOG_MAGIC ++ be_encode 4 LOG_VERSION ++ be_encode 4 block_size.

(** The [get_binary_format] functions of the structs, and that the encodings
    above are what [serialize] writes for them. *)
Definition record_header_format : ty := t_struct [t_enum t_byte].
Definition commit_record_format : ty := t_struct [record_header_format; t_uint 8].
Definition write_record_format : ty := t_struct [record_header_format; t_struct [t_uint 8]].
Definition log_header_format : ty := t_struct [t_struct [t_array 20 t_byte]; t_uint 4; t_uint 4].

Lemma serialize_records sizeof type n index block_size :
  serialize sizeof record_header_format (v_seq [v_int type]) = Ok (encode_header type) /\
  serialize sizeof commit_record_format (v_seq [v_seq [v_int record_commit]; v_int n])
    = Ok (encode_commit n) /\
  serialize sizeof write_record_format (v_seq [v_seq [v_int record_write]; v_seq [v_int index]])
    = Ok (encode_write_record index) /\
  serialize sizeof log_header_format
    (v_seq [v_seq [v_seq (map (fun b => v_int (byte_val b)) LOG_MAGIC)]; v_int LOG_VERSION; v_int block_size])
    = Ok (encode_log_header block_size).
Proof. split_and!; reflexivity. Qed.

(** ** State *)

(** The journal file and its buffer ("Journal file management"). *)
Record log_state (F : Type) : Type := Log {
  m_logfd : F;
  m_log_size : Z;
  m_buffer_offset : Z;
  m_buffer_used : Z;
  m_buffer : bytes
}.
Arguments Log {F}.
Arguments m_logfd {F} _.
Arguments m_log_size {F} _.
Arguments m_buffer_offset {F} _.
Arguments m_buffer_used {F} _.
Arguments m_buffer {F} _.

(** "Committed database state" *)
Record committed : Set := Committed {
  m_database_size : option Z;
  m_block_positions : gmap Z Z
}.

(** "Current transaction state" *)
Record transaction : Set := Transaction {
  m_in_transaction : bool;
  m_transaction_begin : Z;
  m_uncommitted_block_positions : gmap Z Z
}.

Record journal (F : Type) : Type := Journal {
  m_read_only : bool;
  m_database_block_size : Z;
  m_sync_on_commit : bool;
  j_log : log_state F;
  j_committed : committed;
  j_tx : transaction
}.
Arguments Journal {F}.
Arguments m_read_only {F} _.
Arguments m_database_block_size {F} _.
Arguments m_sync_on_commit {F} _.
Arguments j_log {F} _.
Arguments j_committed {F} _.
Arguments j_tx {F} _.

Definition no_transaction : transaction := Transaction false 0 ∅.

Section journal_ops.
Context {F : Type} `{File F}.
Abbreviation J := (journal F).

Definition set_log (l : log_state F) (j : J) : J :=
  Journal (m_read_only j) (m_database_block_size j) (m_sync_on_commit j) l (j_committed j) (j_tx j).
Definition set_committed (c : committed) (j : J) : J :=
  Journal (m_read_only j) (m_database_block_size j) (m_sync_on_commit j) (j_log j) c (j_tx j).
Definition set_tx (t : transaction) (j : J) : J :=
  Journal (m_read_only j) (m_database_block_size j) (m_sync_on_commit j) (j_log j) (j_committed j) t.
Definition set_logfd (f : F) (l : log_state F) : log_state F :=
  Log f (m_log_size l) (m_buffer_offset l) (m_buffer_used l) (m_buffer l).

(** Calls on the log file and on the log state. *)
Definition on_log {A} (m : M (log_state F) A) : M J A := zoom j_log set_log m.
Definition on_file {A} (m : M F A) : M (log_state F) A := zoom m_logfd set_logfd m.

Definition in_transaction (j : J) : bool := m_in_transaction (j_tx j).
Definition database_size (j : J) : option Z := m_database_size (j_committed j).
Definition has_committed_changes (j : J) : bool :=
  match database_size j with Some _ => true | None => false end.

(** *** The log with its buffer *)

Definition read_internal (offset size : Z) : M (log_state F) bytes :=
  let* l := get in
  assert! (range_in_bounds (m_log_size l) offset size) ;;;
  if size =? 0 then ret [] else
  let* (data, offset, size) :=
    (if offset <? m_buffer_offset l then
       let read_size := u32 size in
       let read_size := if m_buffer_offset l <? u64 (offset + read_size)
                        then u32 (m_buffer_offset l - offset) else read_size in
       let* d := on_file (file_read offset read_size) in
       ret (d, u64 (offset + read_size), size - read_size)
     else ret ([], offset, size)) in
  if 0 <? size then
    assert! (m_buffer_offset l <=? offset) ;;;
    assert! (offset - m_buffer_offset l + size <=? m_buffer_used l) ;;;
    ret (data ++ slice (offset - m_buffer_offset l) size (m_buffer l))
  else ret data.

Definition write_internal (offset : Z) (data : bytes) : M (log_state F) unit :=
  let size := zlen data in
  let* l := get in
  assert! (range_in_bounds (m_log_size l) offset size) ;;;
  if size =? 0 then ret tt else
  let* (data, offset) :=
    (if offset <? m_buffer_offset l then
       let write_size := u32 size in
       let write_size := if m_buffer_offset l <? u64 (offset + write_size)
                         then u32 (m_buffer_offset l - offset) else write_size in
       on_file (file_write offset (slice 0 write_size data)) ;;;
       ret (drop (Z.to_nat write_size) data, u64 (offset + write_size))
     else ret (data, offset)) in
  if 0 <? zlen data then
    assert! (m_buffer_offset l <=? offset) ;;;
    assert! (offset - m_buffer_offset l + zlen data <=? m_buffer_used l) ;;;
    modify (fun l => Log (m_logfd l) (m_log_size l) (m_buffer_offset l) (m_buffer_used l)
      (splice (offset - m_buffer_offset l) data (m_buffer l)))
  else ret tt.

Definition flush_buffer : M (log_state F) unit :=
  let* l := get in
  assert! (m_buffer_used l <=? zlen (m_buffer l)) ;;;
  if 0 <? m_buffer_used l then
    on_file (file_write (m_buffer_offset l) (slice 0 (m_buffer_used l) (m_buffer l))) ;;;
    modify (fun l => Log (m_logfd l) (m_log_size l) (u64 (m_buffer_offset l + m_buffer_used l)) 0
      (m_buffer l)) ;;;
    let* l := get in
    assert! (m_buffer_offset l =? m_log_size l)
  else ret tt.

(** Every iteration appends at least one byte. *)
Fixpoint append_loop (fuel : nat) (data : bytes) : M (log_state F) unit :=
  if 0 <? zlen data then
    match fuel with
    | O => throw check_failure
    | S fuel =>
      let* l := get in
      (if m_buffer_used l =? zlen (m_buffer l) then flush_buffer else ret tt) ;;;
      let* l := get in
      assert! (m_buffer_used l <? zlen (m_buffer l)) ;;;
      let write := Z.min (zlen (m_buffer l) - m_buffer_used l) (zlen data) in
      modify (fun l => Log (m_logfd l) (u64 (m_log_size l + write)) (m_buffer_offset l)
        (u32 (m_buffer_used l + write)) (splice (m_buffer_used l) (slice 0 write data) (m_buffer l))) ;;;
      let* l := get in
      assert! (m_buffer_used l <=? zlen (m_buffer l)) ;;;
      append_loop fuel (drop (Z.to_nat write) data)
    end
  else ret tt.

Definition append_to_buffer (data : bytes) : M J unit :=
  let* ro := gets m_read_only in
  assert! (negb ro) ;;;
  on_log (append_loop (length data) data).

Definition flush_log : M J unit :=
  let* ro := gets m_read_only in
  assert! (negb ro) ;;;
  on_log flush_buffer.

Definition overwrite_log (offset : Z) (data : bytes) : M J unit :=
  let* ro := gets m_read_only in
  assert! (negb ro) ;;;
  on_log (write_internal offset data).

(** "Log size invariant." *)
Definition log_size_invariant (j : J) : bool :=
  u64 (file_size (m_logfd (j_log j)) + m_buffer_used (j_log j)) =? m_log_size (j_log j).
Definition assert_log_size : M J unit :=
  let* ok := gets log_size_invariant in
  assert! ok.

(** *** Transactions *)

Definition read (index : Z) : M J (option bytes) :=
  assert! (index_valid index) ;;;
  let* bs := gets m_database_block_size in
  let* t := gets j_tx in
  let* c := gets j_committed in
  match (if m_in_transaction t then m_uncommitted_block_positions t !! index else None) with
  | Some pos => let* d := on_log (read_internal pos bs) in ret (Some d)
  | None =>
    match m_block_positions c !! index with
    | Some pos => let* d := on_log (read_internal pos bs) in ret (Some d)
    | None => ret None
    end
  end.

Definition begin : M J unit :=
  let* t := gets j_tx in
  assert! (negb (m_in_transaction t)) ;;;
  assert! (bool_decide (m_uncommitted_block_positions t = ∅)) ;;;
  let* ro := gets m_read_only in
  assert! (negb ro) ;;;
  assert_log_size ;;;
  modify (fun j => set_tx (Transaction true (m_log_size (j_log j))
                             (m_uncommitted_block_positions (j_tx j))) j) ;;;
  append_to_buffer (encode_header record_begin).

(** Merges the uncommitted positions and erases the blocks that are outside
    of the new database. *)
Definition merge_positions (database_size : Z) (t : transaction) (c : committed) : committed :=
  Committed (Some database_size)
    (filter (fun kv => index_ltb kv.1 database_size = true)
       (m_uncommitted_block_positions t ∪ m_block_positions c)).

Definition commit (database_size : Z) : M J unit :=
  let* t := gets j_tx in
  assert! (m_in_transaction t) ;;;
  let* ro := gets m_read_only in
  assert! (negb ro) ;;;
  append_to_buffer (encode_commit database_size) ;;;
  flush_log ;;;
  let* sync := gets m_sync_on_commit in
  (if sync then on_log (on_file file_sync) else ret tt) ;;;
  assert_log_size ;;;
  modify (fun j => set_committed (merge_positions database_size (j_tx j) (j_committed j)) j) ;;;
  modify (set_tx no_transaction).

Definition abort : M J unit :=
  let* t := gets j_tx in
  assert! (m_in_transaction t) ;;;
  let* ro := gets m_read_only in
  assert! (negb ro) ;;;
  let* l := gets j_log in
  let tb := m_transaction_begin t in
  (if tb <? m_buffer_offset l then
     on_log (on_file (file_truncate tb)) ;;;
     modify (fun j => set_log (Log (m_logfd (j_log j)) tb tb 0 (m_buffer (j_log j))) j)
   else
     modify (fun j => set_log (Log (m_logfd (j_log j)) tb (m_buffer_offset (j_log j))
       (u32 (tb - m_buffer_offset (j_log j))) (m_buffer (j_log j))) j) ;;;
     assert_log_size) ;;;
  modify (set_tx no_transaction).

Definition write (index : Z) (data : bytes) : M J unit :=
  let* ro := gets m_read_only in
  assert! (negb ro) ;;;
  let* t := gets j_tx in
  assert! (m_in_transaction t) ;;;
  assert! (index_valid index) ;;;
  match m_uncommitted_block_positions t !! index with
  | Some pos => overwrite_log pos data
  | None =>
    append_to_buffer (encode_write_record index) ;;;
    append_to_buffer data ;;;
    modify (fun j =>
      let data_offset := u64 (m_log_size (j_log j) - m_database_block_size j) in
      set_tx (Transaction (m_in_transaction (j_tx j)) (m_transaction_begin (j_tx j))
        (<[index := data_offset]> (m_uncommitted_block_positions (j_tx j)))) j)
  end.

(** *** Restoring the state from the file *)

(** A [deferred] guard that is never disabled: [cleanup] always runs. *)
Definition finally {A} (m : M J A) (cleanup : J -> J) : M J A :=
  fun j => let (j', r) := m j in (cleanup j', r).

Definition reset_transaction (j : J) : J :=
  if m_in_transaction (j_tx j) then set_tx no_transaction j else j.

Definition read_log (pos size : Z) : M J bytes := on_log (on_file (file_read pos size)).

(** The loop of [restore_transaction]; [None] is the empty tuple [{}].  An
    iteration that does not return advances the offset. *)
Fixpoint restore_loop (fuel : nat) (offset size : Z) : M J (option Z) :=
  match fuel with
  | O => throw check_failure
  | S fuel =>
    let available := u64 (size - offset) in
    if available <? record_header_size then ret None else
    let* header := read_log offset record_header_size in
    let type := be_decode header in
    let* t := gets j_tx in
    let* bs := gets m_database_block_size in
    if negb (m_in_transaction t) then
      if negb (type =? record_begin) then ret None else
      modify (set_tx (Transaction true offset (m_uncommitted_block_positions t))) ;;;
      restore_loop fuel (u64 (offset + record_header_size)) size
    else if type =? record_write then
      if available <? write_record_size + bs then ret None else
      let* record := read_log offset write_record_size in
      assert! (be_decode (slice 0 1 record) =? record_write) ;;;
      let offset := u64 (offset + write_record_size) in
      modify (set_tx (Transaction true (m_transaction_begin t)
        (<[be_decode (slice 1 8 record) := offset]> (m_uncommitted_block_positions t)))) ;;;
      restore_loop fuel (u64 (offset + bs)) size
    else if type =? record_commit then
      if available <? commit_record_size then ret None else
      let* record := read_log offset commit_record_size in
      assert! (be_decode (slice 0 1 record) =? record_commit) ;;;
      modify (fun j => set_committed
        (merge_positions (be_decode (slice 1 8 record)) (j_tx j) (j_committed j)) j) ;;;
      ret (Some (u64 (offset + commit_record_size)))
    else if type =? record_abort then
      ret (Some (u64 (offset + record_header_size)))
    else ret None
  end.

Definition restore_transaction (offset size : Z) : M J (option Z) :=
  let* t := gets j_tx in
  assert! (negb (m_in_transaction t)) ;;;
  assert! (m_transaction_begin t =? 0) ;;;
  assert! (bool_decide (m_uncommitted_block_positions t = ∅)) ;;;
  finally (restore_loop (S (Z.to_nat size)) offset size) reset_transaction.

Fixpoint restore_transactions (fuel : nat) (offset log_size : Z) : M J Z :=
  if offset <? log_size then
    match fuel with
    | O => throw check_failure
    | S fuel =>
      let* next := restore_transaction offset log_size in
      match next with
      | None => ret offset
      | Some next_offset => restore_transactions fuel next_offset log_size
      end
    end
  else ret offset.

Definition restore : M J unit :=
  let* log_size := gets (fun j => file_size (m_logfd (j_log j))) in
  let* ro := gets m_read_only in
  let* bs := gets m_database_block_size in
  if log_size =? 0 then
    if ro then ret tt else
    on_log (on_file (file_write 0 (encode_log_header bs))) ;;;
    on_log (on_file file_sync) ;;;
    on_log (modify (fun l => Log (m_logfd l) log_header_size log_header_size (m_buffer_used l)
                               (m_buffer l)))
  else
    throw_if (log_size <? log_header_size) corruption_error ;;;
    let* header := read_log 0 log_header_size in
    throw_if (negb (bool_decide (slice 0 20 header = LOG_MAGIC))) corruption_error ;;;
    throw_if (negb (be_decode (slice 20 4 header) =? LOG_VERSION)) corruption_error ;;;
    throw_if (negb (be_decode (slice 24 4 header) =? bs)) corruption_error ;;;
    let* offset := restore_transactions (S (Z.to_nat log_size)) log_header_size log_size in
    (if negb ro then on_log (on_file (file_truncate offset)) ;;; on_log (on_file file_sync)
     else ret tt) ;;;
    on_log (modify (fun l => Log (m_logfd l) offset offset (m_buffer_used l) (m_buffer l))).

(** The constructor; the vector is filled with zeros. *)
Definition new_journal (f : F) (block_size buffer_size : Z) : J :=
  Journal (file_read_only f) block_size true (Log f 0 0 0 (zeros buffer_size))
    (Committed None ∅) no_transaction.
Definition make_journal (f : F) (block_size buffer_size : Z) : J * result unit :=
  (assert! (0 <? buffer_size) ;;; restore) (new_journal f block_size buffer_size).
End journal_ops.

(** ** Checkpoints *)

Section checkpoint_ops.
Context {F D : Type} `{File F} `{File D}.

(** The order of [std::map<block_index, u64>]. *)
Definition entry_le (p q : Z * Z) : Prop := index_ltb q.1 p.1 = false.
#[global] Instance entry_le_dec : RelDecision entry_le.
Proof. intros p q. unfold entry_le. apply _. Defined.
Definition sorted_entries (m : gmap Z Z) : list (Z * Z) := merge_sort entry_le (map_to_list m).

Definition on_journal {A} (m : M (journal F) A) : M (journal F * D) A :=
  zoom fst (fun j s => (j, s.2)) m.
Definition on_database {A} (m : M D A) : M (journal F * D) A :=
  zoom snd (fun d s => (s.1, d)) m.

Fixpoint copy_blocks (db_size_blocks bs : Z) (l : list (Z * Z)) : M (journal F * D) unit :=
  match l with
  | [] => ret tt
  | (index, offset_in_log) :: l =>
    assert! (index_valid index) ;;;
    assert! (index_ltb index db_size_blocks) ;;;
    let* offset_in_db := lift_result (checked_mul 64 index bs) in
    let* block := on_journal (on_log (read_internal offset_in_log bs)) in
    on_database (file_write offset_in_db block) ;;;
    copy_blocks db_size_blocks bs l
  end.

Definition checkpoint : M (journal F * D) bool :=
  let* j := gets fst in
  assert! (negb (in_transaction j)) ;;;
  match database_size j with
  | None => ret false
  | Some db_size_blocks =>
    on_journal (on_log (on_file file_sync)) ;;;
    let bs := m_database_block_size j in
    let* db_size_bytes := lift_result (checked_mul 64 db_size_blocks bs) in
    let* db_size := gets (fun s => file_size s.2) in
    let* changed := (if negb (db_size =? db_size_bytes)
                     then on_database (file_truncate db_size_bytes) ;;; ret true
                     else ret false) in
    copy_blocks db_size_blocks bs (sorted_entries (m_block_positions (j_committed j))) ;;;
    let changed := changed || (0 <? Z.of_nat (size (m_block_positions (j_committed j)))) in
    on_database file_sync ;;;
    on_journal (on_log (on_file (file_truncate log_header_size))) ;;;
    on_journal (on_log (on_file file_sync)) ;;;
    on_journal (modify (fun j =>
      set_committed (Committed None ∅)
        (set_log (Log (m_logfd (j_log j)) log_header_size log_header_size 0 (m_buffer (j_log j))) j))) ;;;
    ret changed
  end.
End checkpoint_ops.
