(* ===== verification/JournalLog.v ===== *)
(** * The log of the journal as one sequence of bytes

    The functions of src/engine/journal.ipp that read, overwrite, append and
    flush the log, whose tail is in memory, act on [log_bytes]: the flushed
    part of the file followed by the used part of the buffer. *)

From S2P Require Import Prelude MathOps Serialization Blocks Files Journal.

Section log_spec.
Context {F : Type} `{FileSpec F}.
Implicit Types (l : log_state F).

Definition log_bytes l : bytes :=
  slice 0 (m_buffer_offset l) (file_data (m_logfd l)) ++ slice 0 (m_buffer_used l) (m_buffer l).

(** A journal on a read-only file does not cut off what follows the last
    complete transaction, so its file may be longer. *)
Record log_inv l : Prop := {
  l_offset : 0 <= m_buffer_offset l <= zlen (file_data (m_logfd l));
  l_file : zlen (file_data (m_logfd l)) < 2 ^ 64;
  l_exact : file_read_only (m_logfd l) = false -> zlen (file_data (m_logfd l)) = m_buffer_offset l;
  l_used : 0 <= m_buffer_used l <= zlen (m_buffer l);
  l_buffer : 0 < zlen (m_buffer l) < 2 ^ 32;
  l_size : m_log_size l = m_buffer_offset l + m_buffer_used l;
  l_word : m_log_size l < 2 ^ 64
}.

Lemma length_log_bytes l : log_inv l -> zlen (log_bytes l) = m_log_size l.
Proof.
  intros []. unfold log_bytes. rewrite length_app, Nat2Z.inj_add, !length_slice; lia.
Qed.

Lemma wp_on_file {A} (m : M F A) l Q :
  wp m (m_logfd l) (fun a f => Q a (set_logfd f l)) -> wp (on_file m) l Q.
Proof. apply wp_zoom. Qed.

Lemma set_logfd_id l : set_logfd (m_logfd l) l = l.
Proof. by destruct l. Qed.

(** The part of an access that is in front of the buffer. *)
Lemma chunk_bounds off n bo :
  0 <= off < bo -> 0 < n < 2 ^ 32 ->
  let k := if bo <? off + n then u32 (bo - off) else n in
  0 < k <= n /\ off + k <= bo /\ (k = n \/ off + k = bo).
Proof.
  intros Ho Hn k. subst k. destruct (Z.ltb_spec bo (off + n)); [|lia].
  rewrite wrap_small by (unfold is_word; lia). lia.
Qed.

Lemma read_internal_spec l off n :
  log_inv l -> 0 <= off -> 0 <= n < 2 ^ 32 -> off + n <= m_log_size l ->
  wp (read_internal off n) l (fun d l' => d = slice off n (log_bytes l) /\ l' = l).
Proof.
  intros Hinv Ho Hn Hl. pose proof Hinv as []. unfold read_internal, log_bytes.
  do 3 wp_step. wp_step.
  { unfold range_in_bounds. apply andb_true_iff. split; apply Z.leb_le; lia. }
  destruct (Z.eqb_spec n 0) as [->|Hz]; [by wp_steps|].
  set (bo := m_buffer_offset l) in *. set (f := file_data (m_logfd l)) in *.
  assert (zlen (slice 0 bo f) = bo) as Hlf by (apply length_slice; lia).
  destruct (Z.ltb_spec off bo) as [Hlt|Hge].
  - rewrite (wrap_small 32 n), (wrap_small 64) by (unfold is_word; lia).
    set (k := if bo <? off + n then u32 (bo - off) else n).
    assert (0 < k <= n /\ off + k <= bo /\ (k = n \/ off + k = bo)) as (Hk1 & Hk2 & Hk3)
      by (apply chunk_bounds; lia). clearbody k.
    wp_step. wp_step. apply wp_on_file.
    eapply wp_mono; [apply file_read_spec; fold f; lia|]. cbn beta. intros d f' [-> ->].
    fold f. rewrite set_logfd_id. wp_steps. rewrite wrap_small by (unfold is_word; lia).
    assert (slice off n (slice 0 bo f ++ slice 0 (m_buffer_used l) (m_buffer l)) =
      slice off k f ++ slice (off + k - bo) (n - k) (m_buffer l)) as Hsl.
    { replace n with (k + (n - k)) at 1 by lia. rewrite slice_add by len.
      rewrite slice_app_l by lia. rewrite slice_slice by lia. f_equal.
      destruct Hk3 as [->|Hk3]; [by rewrite Z.sub_diag|].
      rewrite slice_app_r by lia. rewrite Hlf. rewrite slice_slice by lia. f_equal. }
    rewrite Hsl. destruct (Z.ltb_spec 0 (n - k)).
    + by wp_steps.
    + wp_steps. replace (n - k) with 0 by lia. by rewrite slice_zero, app_nil_r.
  - wp_steps. destruct (Z.ltb_spec 0 n); [|lia]. wp_steps. split; [|done]. simpl.
    rewrite slice_app_r by lia. rewrite Hlf. by rewrite slice_slice by lia.
Qed.

Lemma write_internal_spec l off data :
  log_inv l -> file_read_only (m_logfd l) = false ->
  0 <= off -> zlen data < 2 ^ 32 -> off + zlen data <= m_log_size l ->
  wp (write_internal off data) l (fun _ l' => log_inv l' /\
    log_bytes l' = splice off data (log_bytes l) /\ file_read_only (m_logfd l') = false /\
    m_buffer_offset l' = m_buffer_offset l /\ m_log_size l' = m_log_size l).
Proof.
  intros Hinv Hro Ho Hn Hl. pose proof Hinv as []. pose proof (l_exact0 Hro) as Hex.
  unfold write_internal, log_bytes. do 3 wp_step. wp_step.
  { unfold range_in_bounds. apply andb_true_iff. split; apply Z.leb_le; lia. }
  destruct (Z.eqb_spec (zlen data) 0) as [Hz|Hz].
  { wp_steps. destruct data; [|simpl in Hz; lia]. by rewrite splice_nil. }
  set (bo := m_buffer_offset l) in *. set (f := file_data (m_logfd l)) in *.
  rewrite (slice_all bo f) in * by lia.
  assert (zlen (slice 0 (m_buffer_used l) (m_buffer l)) = m_buffer_used l) as Hlb
    by (apply length_slice; lia).
  destruct (Z.ltb_spec off bo) as [Hlt|Hge].
  - rewrite (wrap_small 32 (zlen data)), (wrap_small 64) by (unfold is_word; lia).
    set (k := if bo <? off + zlen data then u32 (bo - off) else zlen data).
    assert (0 < k <= zlen data /\ off + k <= bo /\ (k = zlen data \/ off + k = bo))
      as (Hk1 & Hk2 & Hk3) by (apply chunk_bounds; lia). clearbody k.
    assert (zlen (slice 0 k data) = k) as Hlk by (apply length_slice; lia).
    wp_step. wp_step. apply wp_on_file.
    eapply wp_mono; [apply file_write_spec; try done; fold f; lia|]. cbn beta.
    intros _ f' [Hf' Hro']. fold f in Hf'. wp_steps. rewrite wrap_small by (unfold is_word; lia).
    assert (length (file_data f') = length f) as Hlen by (rewrite Hf'; apply length_splice; lia).
    assert (data = slice 0 k data ++ drop (Z.to_nat k) data) as Hsplit.
    { unfold slice. simpl. by rewrite drop_0, take_drop. }
    destruct (Z.ltb_spec 0 (zlen (drop (Z.to_nat k) data))) as [Hp|Hp].
    + assert (off + k = bo) as Hob by (rewrite length_drop in Hp; lia).
      assert (zlen data = k + zlen (drop (Z.to_nat k) data)) as Hld by (rewrite length_drop; lia).
      wp_steps. rewrite Hob, Z.sub_diag.
      assert (length (splice 0 (drop (Z.to_nat k) data) (m_buffer l)) = length (m_buffer l)) as Hbl
        by (apply length_splice; lia).
      split_and!; try done.
      * split; simpl; rewrite ?Hlen, ?Hbl; auto.
      * simpl. fold bo. rewrite slice_all by lia. rewrite Hf'.
        set (x := slice 0 k data) in *. set (y := drop (Z.to_nat k) data) in *.
        clearbody x y. subst data. clear Hbl.
        rewrite <- (splice_splice_adjacent off) by (rewrite ?length_app; lia).
        rewrite Hlk, Hob. rewrite splice_app_l by lia.
        rewrite splice_app_r by (rewrite length_splice; lia).
        f_equal. rewrite length_splice by lia. replace (bo - zlen f) with 0 by lia.
        symmetry. apply slice_splice_prefix; lia.
    + rewrite length_drop in Hp. assert (k = zlen data) as Hkd by lia.
      wp_steps. split_and!; try done.
      * split; simpl; rewrite ?Hlen; auto.
      * simpl. fold bo. rewrite slice_all by lia. rewrite Hf', Hkd, slice_all by done.
        by rewrite splice_app_l by lia.
  - wp_steps. destruct (Z.ltb_spec 0 (zlen data)); [|lia]. wp_steps. simpl.
    assert (length (splice (off - bo) data (m_buffer l)) = length (m_buffer l)) as Hbl
      by (apply length_splice; lia).
    split_and!; try done.
    + split; simpl; fold bo f; rewrite ?Hbl; auto.
    + fold f bo. rewrite slice_all by lia. rewrite splice_app_r by lia. f_equal.
      replace (off - zlen f) with (off - bo) by lia. symmetry. apply slice_splice_prefix; lia.
Qed.

Lemma flush_buffer_spec l :
  log_inv l -> file_read_only (m_logfd l) = false ->
  wp flush_buffer l (fun _ l' => log_inv l' /\ log_bytes l' = log_bytes l /\
    file_read_only (m_logfd l') = false /\ m_log_size l' = m_log_size l /\
    m_buffer_used l' = 0 /\ m_buffer_offset l' = m_log_size l /\ m_buffer l' = m_buffer l /\
    file_data (m_logfd l') = log_bytes l).
Proof.
  intros Hinv Hro. pose proof Hinv as []. pose proof (l_exact0 Hro) as Hex.
  unfold flush_buffer. do 3 wp_step. wp_step. unfold log_bytes.
  set (f := file_data (m_logfd l)) in *. set (u := m_buffer_used l) in *.
  assert (zlen (slice 0 u (m_buffer l)) = u) as Hu by (apply length_slice; lia).
  destruct (Z.ltb_spec 0 u) as [Hp|Hp].
  - wp_step. apply wp_on_file. eapply wp_mono; [apply file_write_spec; fold f; done || lia|].
    cbn beta. intros _ f' [Hf' Hro']. fold f in Hf'.
    assert (file_data f' = f ++ slice 0 u (m_buffer l)) as Hd.
    { rewrite Hf', <- Hex. unfold splice. rewrite Nat2Z.id, firstn_all, drop_ge by lia.
      by rewrite app_nil_r. }
    assert (zlen (file_data f') = m_log_size l) as Hlen by (rewrite Hd, length_app; lia).
    wp_step. wp_step. simpl. fold u.
    rewrite (wrap_small 64) by (unfold is_word; lia). rewrite <- l_size0.
    do 3 wp_step; simpl; [apply Z.eqb_refl|].
    rewrite (slice_all (m_buffer_offset l) f) by lia.
    split_and!; try done.
    + split; simpl; rewrite ?Hlen; try done; lia.
    + rewrite slice_all by lia. by rewrite slice_zero, app_nil_r.
  - wp_steps. fold f u. assert (u = 0) as Hu0 by lia. rewrite Hu0, slice_zero, app_nil_r.
    rewrite (slice_all (m_buffer_offset l) f) by lia.
    split_and!; try done; lia.
Qed.

Lemma append_loop_spec fuel : forall l data,
  log_inv l -> file_read_only (m_logfd l) = false -> m_log_size l + zlen data < 2 ^ 64 ->
  zlen data <= Z.of_nat fuel ->
  wp (append_loop fuel data) l (fun _ l' => log_inv l' /\ log_bytes l' = log_bytes l ++ data /\
    file_read_only (m_logfd l') = false /\ m_buffer_offset l <= m_buffer_offset l').
Proof.
  induction fuel as [|fuel IH]; intros l data Hinv Hro Hl Hf; cbn [append_loop];
    destruct (Z.ltb_spec 0 (zlen data)); try lia;
    try (wp_steps; destruct data; [|simpl in *; lia]; by rewrite app_nil_r).
  do 3 wp_step.
  eapply wp_mono with (Q := fun _ l1 => log_inv l1 /\ log_bytes l1 = log_bytes l /\
    file_read_only (m_logfd l1) = false /\ m_log_size l1 = m_log_size l /\
    m_buffer_offset l <= m_buffer_offset l1 /\ m_buffer_used l1 < zlen (m_buffer l1)).
  { pose proof Hinv as []. destruct (Z.eqb_spec (m_buffer_used l) (zlen (m_buffer l))).
    - eapply wp_mono; [by apply flush_buffer_spec|]. cbn beta.
      intros _ l1 (? & ? & ? & ? & -> & -> & -> & _). split_and!; try done; lia.
    - wp_steps. split_and!; try done. lia. }
  cbn beta. intros _ l1 (Hinv1 & Hb1 & Hro1 & Hs1 & Ho1 & Hu1). do 9 wp_step. simpl.
  pose proof Hinv1 as []. set (w := Z.min (zlen (m_buffer l1) - m_buffer_used l1) (zlen data)).
  assert (0 < w <= zlen data /\ m_buffer_used l1 + w <= zlen (m_buffer l1)) as [Hw1 Hw2] by lia.
  clearbody w. assert (zlen (slice 0 w data) = w) as Hlw by (apply length_slice; lia).
  assert (length (splice (m_buffer_used l1) (slice 0 w data) (m_buffer l1)) = length (m_buffer l1))
    as Hbl by (apply length_splice; lia).
  rewrite (wrap_small 64), (wrap_small 32) by (unfold is_word; lia).
  wp_step.
  set (l2 := Log _ _ _ _ _).
  assert (log_inv l2) as Hinv2 by (split; simpl; rewrite ?Hbl; auto; lia).
  assert (log_bytes l2 = log_bytes l ++ slice 0 w data) as Hb2.
  { rewrite <- Hb1. unfold log_bytes. simpl. rewrite <- app_assoc. f_equal.
    rewrite slice_add, slice_splice_disjoint by (rewrite ?Hbl; lia). f_equal. simpl.
    apply slice_splice_same; lia. }
  eapply wp_mono; [apply (IH l2 (drop (Z.to_nat w) data)); try done; simpl; len|]. cbn beta.
  intros _ l3 (Hinv3 & Hb3 & Hro3 & Ho3). split_and!; try done.
  - rewrite Hb3, Hb2, <- app_assoc. f_equal. unfold slice. simpl. by rewrite drop_0, take_drop.
  - simpl in Ho3. lia.
Qed.
End log_spec.
