(* ===== verification/JournalSpec.v ===== *)
(** * What the journal promises

    The abstract state of a journal is the list of committed transactions
    [txs] and the writes [ws] of the running transaction.  [represents] ties
    it to the model in Journal.v: the log is the encoding of these lists, and
    the positions point to the contents that replaying them gives.  The file
    is the only thing that survives a crash; [make_journal] recovers [txs]
    from it, whatever incomplete transaction follows. *)

From Stdlib Require Import Strings.Byte.
From stdpp Require Import sorting.
From S2P Require Import Prelude MathOps Serialization Blocks Files Journal JournalLog.

(** ** Transactions and their encoding *)

Record tx : Set := Tx { t_writes : list (Z * bytes); t_size : Z }.

Definition encode_write (w : Z * bytes) : bytes := encode_write_record w.1 ++ w.2.
Definition encode_writes (ws : list (Z * bytes)) : bytes := concat (map encode_write ws).
Definition encode_tx (t : tx) : bytes :=
  encode_header record_begin ++ encode_writes (t_writes t) ++ encode_commit (t_size t).
Definition encode_log (bs : Z) (txs : list tx) : bytes :=
  encode_log_header bs ++ concat (map encode_tx txs).

Definition wf_write (bs : Z) (w : Z * bytes) : Prop := 0 <= w.1 < invalid_value /\ zlen w.2 = bs.
Definition wf_tx (bs : Z) (t : tx) : Prop :=
  Forall (wf_write bs) (t_writes t) /\ 0 <= t_size t < invalid_value.

(** Replaying transactions: the most recent version of every block in the
    journal, and the committed size. *)
Definition apply_all {A} (ws : list (Z * A)) (c : gmap Z A) : gmap Z A :=
  foldl (fun c w => <[w.1 := w.2]> c) c ws.
Definition in_range {A} (n : Z) (c : gmap Z A) : gmap Z A :=
  filter (fun kv => index_ltb kv.1 n = true) c.
Definition replay_tx (db : gmap Z bytes * option Z) (t : tx) : gmap Z bytes * option Z :=
  (in_range (t_size t) (apply_all (t_writes t) db.1), Some (t_size t)).
Definition replay (txs : list tx) : gmap Z bytes * option Z := foldl replay_tx (∅, None) txs.

(** The writes of a running transaction: at most one per block. *)
Fixpoint set_write (ws : list (Z * bytes)) (i : Z) (d : bytes) : list (Z * bytes) :=
  match ws with
  | [] => [(i, d)]
  | w :: ws => if w.1 =? i then (i, d) :: ws else w :: set_write ws i d
  end.

(** The positions of the blocks of [ws] when the first record is at [off]. *)
Fixpoint positions (bs off : Z) (ws : list (Z * bytes)) : list (Z * Z) :=
  match ws with
  | [] => []
  | w :: ws => (w.1, off + write_record_size) :: positions bs (off + write_record_size + bs) ws
  end.

(** [m] holds the positions of the blocks of [c] in [log]. *)
Definition points (log : bytes) (bs : Z) (m : gmap Z Z) (c : gmap Z bytes) : Prop :=
  forall i, match m !! i, c !! i with
  | Some p, Some d => 0 <= p /\ p + bs <= zlen log /\ slice p bs log = d
  | None, None => True
  | _, _ => False
  end.

(** ** Lemmas on encodings *)

Lemma length_encode_header t : zlen (encode_header t) = 1.
Proof. done. Qed.
Lemma length_encode_commit n : zlen (encode_commit n) = 9.
Proof. unfold encode_commit. rewrite length_app, length_be_encode. done. Qed.
Lemma length_encode_write_record i : zlen (encode_write_record i) = 9.
Proof. unfold encode_write_record. rewrite length_app, length_be_encode. done. Qed.
Lemma length_encode_log_header bs : zlen (encode_log_header bs) = 28.
Proof. unfold encode_log_header. rewrite !length_app, !length_be_encode. done. Qed.
Lemma length_encode_write bs w : wf_write bs w -> zlen (encode_write w) = 9 + bs.
Proof.
  intros [_ Hw]. unfold encode_write. rewrite length_app, Nat2Z.inj_add.
  rewrite length_encode_write_record. lia.
Qed.
Lemma encode_writes_cons w ws : encode_writes (w :: ws) = encode_write w ++ encode_writes ws.
Proof. done. Qed.
Lemma encode_writes_app ws ws' : encode_writes (ws ++ ws') = encode_writes ws ++ encode_writes ws'.
Proof. unfold encode_writes. by rewrite map_app, concat_app. Qed.
Lemma length_encode_writes bs ws :
  Forall (wf_write bs) ws -> zlen (encode_writes ws) = zlen ws * (9 + bs).
Proof.
  induction 1 as [|w ws Hw Hws IH]; [done|]. rewrite encode_writes_cons, length_app, Nat2Z.inj_add.
  rewrite (length_encode_write bs) by done. cbn [length]. lia.
Qed.
Lemma encode_log_app bs txs t : encode_log bs (txs ++ [t]) = encode_log bs txs ++ encode_tx t.
Proof.
  unfold encode_log. rewrite map_app, concat_app. cbn [map concat].
  by rewrite app_nil_r, app_assoc.
Qed.
Lemma length_encode_log bs txs : 28 <= zlen (encode_log bs txs).
Proof.
  unfold encode_log. rewrite length_app, Nat2Z.inj_add, length_encode_log_header. lia.
Qed.

(** ** Lemmas on positions *)

Lemma apply_all_app {A} (ws ws' : list (Z * A)) c :
  apply_all (ws ++ ws') c = apply_all ws' (apply_all ws c).
Proof. apply foldl_app. Qed.

(** The loop over [m_uncommitted_block_positions] is a union. *)
Lemma apply_all_union {A} (ws : list (Z * A)) c c' : apply_all ws (c ∪ c') = apply_all ws c ∪ c'.
Proof.
  revert c. induction ws as [|w ws IH]; intros c; [done|]. simpl.
  rewrite <- IH. f_equal. by rewrite insert_union_l.
Qed.

Lemma apply_all_empty {A} (ws : list (Z * A)) c : apply_all ws c = apply_all ws ∅ ∪ c.
Proof. rewrite <- apply_all_union. by rewrite map_empty_union. Qed.

Lemma points_empty log bs : points log bs ∅ ∅.
Proof. intros i. by rewrite !lookup_empty. Qed.

Lemma points_extend log log' bs m c : points log bs m c -> points (log ++ log') bs m c.
Proof.
  intros Hp i. specialize (Hp i). destruct (m !! i), (c !! i); try done.
  destruct Hp as (? & ? & <-). rewrite length_app. split_and!; [done|lia|].
  destruct (decide (0 <= bs)); [by apply slice_app_l; lia|].
  unfold slice. by replace (Z.to_nat bs) with 0%nat by lia.
Qed.

Lemma points_insert log bs m c i p d :
  points log bs m c -> 0 <= p -> p + bs <= zlen log -> slice p bs log = d ->
  points log bs (<[i := p]> m) (<[i := d]> c).
Proof.
  intros Hp ??? j. destruct (decide (j = i)) as [->|].
  - by rewrite !lookup_insert_eq.
  - rewrite !lookup_insert_ne by done. apply Hp.
Qed.

Lemma points_union log bs m1 c1 m2 c2 :
  points log bs m1 c1 -> points log bs m2 c2 -> points log bs (m1 ∪ m2) (c1 ∪ c2).
Proof.
  intros H1 H2 i. specialize (H1 i). specialize (H2 i). rewrite !lookup_union.
  destruct (m1 !! i), (c1 !! i); try done;
    destruct (m2 !! i), (c2 !! i); try done.
Qed.

Lemma lookup_in_range {A} n (c : gmap Z A) i :
  in_range n c !! i = if index_ltb i n then c !! i else None.
Proof.
  unfold in_range. destruct (c !! i) as [a|] eqn:Hi.
  - destruct (index_ltb i n) eqn:Hn.
    + by apply map_lookup_filter_Some.
    + apply map_lookup_filter_None. right. simpl. intros ? ? ?. congruence.
  - destruct (index_ltb i n); apply map_lookup_filter_None; by left.
Qed.

Lemma points_in_range log bs m c n :
  points log bs m c -> points log bs (in_range n m) (in_range n c).
Proof.
  intros Hp i. rewrite !lookup_in_range. destruct (index_ltb i n); [apply Hp|done].
Qed.

(** The positions of the records of [ws] in a log that contains them. *)
Lemma points_positions bs ws : forall pre rest m c,
  Forall (wf_write bs) ws -> 0 <= bs ->
  points pre bs m c ->
  points (pre ++ encode_writes ws ++ rest) bs
    (apply_all (positions bs (zlen pre) ws) m) (apply_all ws c).
Proof.
  induction ws as [|w ws IH]; intros pre rest m c Hws Hbs Hp.
  - by apply points_extend.
  - apply Forall_cons in Hws as [Hw Hws]. pose proof (length_encode_write bs w Hw) as Hl.
    rewrite encode_writes_cons, <- !app_assoc, (app_assoc pre).
    assert (apply_all (positions bs (zlen pre) (w :: ws)) m =
      apply_all (positions bs (zlen (pre ++ encode_write w)) ws) (<[w.1 := zlen pre + 9]> m)) as ->.
    { unfold apply_all at 1. cbn [positions foldl]. unfold write_record_size.
      rewrite length_app, Nat2Z.inj_add, Hl. replace (zlen pre + 9 + bs) with (zlen pre + (9 + bs)) by lia. done. }
    change (apply_all (w :: ws) c) with (apply_all ws (<[w.1 := w.2]> c)).
    apply IH; [done..|]. destruct Hw as [_ Hd].
    apply points_insert; [by apply points_extend|lia|rewrite length_app; lia|].
    rewrite slice_app_r by lia. replace (zlen pre + 9 - zlen pre) with 9 by lia.
    unfold encode_write. rewrite slice_app_r by (by rewrite length_encode_write_record).
    rewrite length_encode_write_record. simpl. by apply slice_all.
Qed.

Lemma apply_all_notin {A} (ws : list (Z * A)) c i :
  i ∉ ws.*1 -> apply_all ws c !! i = c !! i.
Proof.
  revert c. induction ws as [|w ws IH]; intros c Hi; [done|].
  rewrite fmap_cons, not_elem_of_cons in Hi. destruct Hi as [Hne Hi].
  change (apply_all (w :: ws) c) with (apply_all ws (<[w.1 := w.2]> c)).
  rewrite IH by done. by rewrite lookup_insert_ne.
Qed.

Lemma apply_all_snoc {A} (ws : list (Z * A)) c i a :
  apply_all (ws ++ [(i, a)]) c = <[i := a]> (apply_all ws c).
Proof. by rewrite apply_all_app. Qed.

(** In a list without repeated keys every entry counts. *)
Lemma apply_all_middle {A} (ws1 ws2 : list (Z * A)) c i a :
  i ∉ ws2.*1 -> apply_all (ws1 ++ (i, a) :: ws2) c !! i = Some a.
Proof.
  intros Hi. rewrite apply_all_app.
  change (apply_all ((i, a) :: ws2) ?x) with (apply_all ws2 (<[i := a]> x)).
  rewrite apply_all_notin by done. apply lookup_insert_eq.
Qed.

Lemma positions_keys bs off ws : (positions bs off ws).*1 = ws.*1.
Proof. revert off. induction ws as [|w ws IH]; intros off; simpl; [done|]. by rewrite IH. Qed.

Lemma positions_app bs ws1 ws2 : forall off,
  positions bs off (ws1 ++ ws2) =
  positions bs off ws1 ++ positions bs (off + zlen ws1 * (9 + bs)) ws2.
Proof.
  induction ws1 as [|w ws1 IH]; intros off; simpl.
  - f_equal. lia.
  - rewrite IH. do 2 f_equal. unfold write_record_size. f_equal. lia.
Qed.

(** Replacing the data of a block does not move it. *)
Lemma positions_replace bs ws1 i d d' ws2 off :
  positions bs off (ws1 ++ (i, d) :: ws2) = positions bs off (ws1 ++ (i, d') :: ws2).
Proof. by rewrite !positions_app. Qed.

Lemma set_write_new ws i d : i ∉ ws.*1 -> set_write ws i d = ws ++ [(i, d)].
Proof.
  induction ws as [|w ws IH]; intros Hi; simpl; [done|].
  rewrite fmap_cons, not_elem_of_cons in Hi. destruct Hi as [Hne Hi].
  destruct (Z.eqb_spec w.1 i); [congruence|]. by rewrite IH.
Qed.

Lemma set_write_old ws i d : i ∈ ws.*1 ->
  exists ws1 d0 ws2, ws = ws1 ++ (i, d0) :: ws2 /\ set_write ws i d = ws1 ++ (i, d) :: ws2.
Proof.
  induction ws as [|[j d0] ws IH]; intros Hi; [by apply not_elem_of_nil in Hi|]. simpl.
  destruct (Z.eqb_spec j i) as [->|Hne].
  - by exists [], d0, ws.
  - destruct IH as (ws1 & d1 & ws2 & -> & ->).
    { rewrite fmap_cons, elem_of_cons in Hi. destruct Hi as [Hi|Hi]; [simpl in Hi; congruence|done]. }
    by exists ((j, d0) :: ws1), d1, ws2.
Qed.

Lemma keys_middle {A} (ws1 ws2 : list (Z * A)) i a :
  NoDup (ws1 ++ (i, a) :: ws2).*1 -> i ∉ ws1.*1 /\ i ∉ ws2.*1.
Proof.
  rewrite fmap_app, fmap_cons. intros (_ & Hd & Hn)%NoDup_app. simpl in *.
  apply NoDup_cons in Hn as [Hn _]. split; [|done]. intros Hi. eapply Hd; [exact Hi|]. set_solver.
Qed.

Lemma set_write_nodup ws i d : NoDup ws.*1 -> NoDup (set_write ws i d).*1.
Proof.
  intros Hn. destruct (decide (i ∈ ws.*1)) as [Hi|Hi].
  - destruct (set_write_old ws i d Hi) as (ws1 & d0 & ws2 & -> & ->).
    by rewrite fmap_app, fmap_cons in *.
  - rewrite set_write_new by done. rewrite fmap_app. apply NoDup_app. split_and!; [done| |].
    + intros j Hj. simpl. set_solver.
    + apply NoDup_singleton.
Qed.

Lemma set_write_wf bs ws i d :
  Forall (wf_write bs) ws -> wf_write bs (i, d) -> Forall (wf_write bs) (set_write ws i d).
Proof.
  intros Hws Hw. induction Hws as [|w ws Hw0 Hws IH]; simpl; [by constructor|].
  destruct (w.1 =? i); by constructor.
Qed.

(** [set_write] is an insertion into the map of writes. *)
Lemma apply_all_set_write ws i d :
  NoDup ws.*1 -> apply_all (set_write ws i d) ∅ = <[i := d]> (apply_all ws ∅).
Proof.
  intros Hn. destruct (decide (i ∈ ws.*1)) as [Hi|Hi].
  - destruct (set_write_old ws i d Hi) as (ws1 & d0 & ws2 & -> & ->).
    apply keys_middle in Hn as [Hn1 Hn2]. apply map_eq. intros j.
    destruct (decide (j = i)) as [->|Hne].
    + by rewrite lookup_insert_eq, apply_all_middle.
    + rewrite lookup_insert_ne by done. rewrite !apply_all_app.
      change (apply_all ((i, ?x) :: ws2) ?c) with (apply_all ws2 (<[i := x]> c)).
      rewrite !(apply_all_empty ws2 (<[i := _]> _)), !lookup_union.
      by rewrite !lookup_insert_ne.
  - rewrite set_write_new by done. apply apply_all_snoc.
Qed.

(** ** Representation *)

Section represents.
Context {F : Type} `{FileSpec F}.
Implicit Types (j : journal F).

(** The running transaction. *)
Definition running (j : journal F) (txs : list tx) (ws : list (Z * bytes)) : Prop :=
  let bs := m_database_block_size j in
  let tb := zlen (encode_log bs txs) in
  file_read_only (m_logfd (j_log j)) = false /\
  NoDup ws.*1 /\ Forall (wf_write bs) ws /\
  j_tx j = Transaction true tb (apply_all (positions bs (tb + 1) ws) ∅) /\
  log_bytes (j_log j) = encode_log bs txs ++ encode_header record_begin ++ encode_writes ws /\
  tb <= m_buffer_offset (j_log j).

Definition idle (j : journal F) (txs : list tx) : Prop :=
  j_tx j = no_transaction /\ m_buffer_used (j_log j) = 0 /\
  log_bytes (j_log j) = encode_log (m_database_block_size j) txs.

Record represents (j : journal F) (txs : list tx) (cur : option (list (Z * bytes))) : Prop := {
  r_log : log_inv (j_log j);
  r_read_only : m_read_only j = file_read_only (m_logfd (j_log j));
  r_bs : 0 < m_database_block_size j < 2 ^ 32;
  r_txs : Forall (wf_tx (m_database_block_size j)) txs;
  r_size : database_size j = (replay txs).2;
  r_points : points (encode_log (m_database_block_size j) txs) (m_database_block_size j)
    (m_block_positions (j_committed j)) (replay txs).1;
  r_cur : match cur with Some ws => running j txs ws | None => idle j txs end
}.

(** The current content of block [i] in the journal. *)
Definition lookup_block (txs : list tx) (cur : option (list (Z * bytes))) (i : Z) : option bytes :=
  match cur with
  | Some ws =>
    match apply_all ws ∅ !! i with Some d => Some d | None => (replay txs).1 !! i end
  | None => (replay txs).1 !! i
  end.

(** What the constructor fixes. *)
Definition same_config j' j : Prop :=
  m_database_block_size j' = m_database_block_size j /\ m_read_only j' = m_read_only j.

Lemma wp_on_log {A} (m : M (log_state F) A) j Q :
  wp m (j_log j) (fun a l => Q a (set_log l j)) -> wp (on_log m) j Q.
Proof. apply wp_zoom. Qed.

Lemma set_log_id j : set_log (j_log j) j = j.
Proof. by destruct j. Qed.

Lemma log_extends j txs cur : represents j txs cur ->
  exists rest, log_bytes (j_log j) = encode_log (m_database_block_size j) txs ++ rest.
Proof.
  intros Hr. pose proof (r_cur _ _ _ Hr) as Hc. destruct cur.
  - destruct Hc as (_ & _ & _ & _ & -> & _). by eexists.
  - destruct Hc as (_ & _ & ->). exists []. by rewrite app_nil_r.
Qed.

(** A block whose position is known can be read back. *)
Lemma read_position j txs cur m c i p :
  represents j txs cur -> points (log_bytes (j_log j)) (m_database_block_size j) m c ->
  m !! i = Some p ->
  wp (on_log (read_internal p (m_database_block_size j))) j (fun d j' => c !! i = Some d /\ j' = j).
Proof.
  intros Hr Hp Hm. specialize (Hp i). rewrite Hm in Hp. destruct (c !! i) as [d|]; [|done].
  destruct Hp as (Hp0 & Hpl & Hd). pose proof (r_log _ _ _ Hr) as Hl. pose proof (r_bs _ _ _ Hr).
  rewrite length_log_bytes in Hpl by done. apply wp_on_log.
  eapply wp_mono; [apply read_internal_spec; try done; lia|]. cbn beta.
  intros b l' [-> ->]. rewrite set_log_id. by rewrite Hd.
Qed.

Lemma running_points j txs ws : represents j txs (Some ws) ->
  points (log_bytes (j_log j)) (m_database_block_size j)
    (m_uncommitted_block_positions (j_tx j)) (apply_all ws ∅).
Proof.
  intros Hr. pose proof (r_bs _ _ _ Hr) as Hbs.
  destruct (r_cur _ _ _ Hr) as (_ & Hn & Hws & Htx & Hlog & _). rewrite Htx, Hlog. cbn [m_uncommitted_block_positions].
  set (bs := m_database_block_size j) in *.
  pose proof (points_positions bs ws (encode_log bs txs ++ encode_header record_begin) [] ∅ ∅ Hws
    ltac:(lia) (points_empty _ _)) as Hp.
  rewrite app_nil_r, <- app_assoc, length_app, Nat2Z.inj_add, length_encode_header in Hp. done.
Qed.

Lemma read_represents j txs cur i :
  represents j txs cur -> 0 <= i < invalid_value ->
  wp (read i) j (fun r j' => r = lookup_block txs cur i /\ j' = j).
Proof.
  intros Hr Hi. unfold read. wp_steps.
  { unfold index_valid. destruct (Z.eqb_spec i invalid_value); [lia|done]. }
  assert (forall (k : option bytes -> journal F -> Prop),
    (forall r, r = (replay txs).1 !! i -> k r j) ->
    wp (match m_block_positions (j_committed j) !! i with
        | Some pos =>
          let* d := on_log (read_internal pos (m_database_block_size j)) in ret (Some d)
        | None => ret None
        end) j k) as Hcommitted.
  { intros k Hk. pose proof (r_points _ _ _ Hr) as Hp.
    destruct (log_extends _ _ _ Hr) as [rest Hlog].
    apply (points_extend _ rest) in Hp. rewrite <- Hlog in Hp.
    destruct (m_block_positions (j_committed j) !! i) as [p|] eqn:Hm.
    - wp_step. eapply wp_mono; [by eapply read_position|]. cbn beta. intros d j' [Hd ->].
      wp_steps. by apply Hk.
    - wp_steps. apply Hk. specialize (Hp i). rewrite Hm in Hp. by destruct ((replay txs).1 !! i). }
  destruct cur as [ws|].
  - pose proof (running_points _ _ _ Hr) as Hp.
    pose proof (r_cur _ _ _ Hr) as (_ & _ & _ & Htx & _).
    rewrite Htx in *. cbn [m_in_transaction m_uncommitted_block_positions] in *.
    destruct (apply_all (positions _ _ ws) ∅ !! i) as [p|] eqn:Hm.
    + wp_step. eapply wp_mono; [by eapply read_position|]. cbn beta. intros d j' [Hd ->].
      wp_steps. split; [|done]. simpl. by rewrite Hd.
    + apply Hcommitted. intros r ->. split; [|done]. simpl.
      specialize (Hp i). rewrite Hm in Hp. by destruct (apply_all ws ∅ !! i).
  - destruct (r_cur _ _ _ Hr) as (Htx & _). rewrite Htx. cbn [m_in_transaction no_transaction].
    apply Hcommitted. by intros r ->.
Qed.

Lemma append_spec j data :
  log_inv (j_log j) -> m_read_only j = false -> file_read_only (m_logfd (j_log j)) = false ->
  m_log_size (j_log j) + zlen data < 2 ^ 64 ->
  wp (append_to_buffer data) j (fun _ j' => exists l, j' = set_log l j /\ log_inv l /\
    log_bytes l = log_bytes (j_log j) ++ data /\ file_read_only (m_logfd l) = false /\
    m_buffer_offset (j_log j) <= m_buffer_offset l).
Proof.
  intros Hl Hro Hf Hs. unfold append_to_buffer. wp_steps; [by rewrite Hro|]. apply wp_on_log.
  eapply wp_mono; [by apply append_loop_spec|]. cbn beta. intros _ l (? & ? & ? & ?). by exists l.
Qed.

Lemma exact_file l : log_inv l -> file_read_only (m_logfd l) = false ->
  log_bytes l = file_data (m_logfd l) ++ slice 0 (m_buffer_used l) (m_buffer l).
Proof.
  intros Hl Hro. unfold log_bytes. rewrite slice_all; [done|]. symmetry. by apply (l_exact _ Hl).
Qed.

Lemma assert_log_size_spec j :
  log_inv (j_log j) -> file_read_only (m_logfd (j_log j)) = false ->
  wp assert_log_size j (fun _ j' => j' = j).
Proof.
  intros Hl Hro. pose proof (l_size _ Hl). pose proof (l_word _ Hl).
  pose proof (l_used _ Hl). pose proof (l_offset _ Hl).
  unfold assert_log_size, log_size_invariant. wp_steps; [|done].
  rewrite file_size_spec, (l_exact _ Hl) by done. rewrite wrap_small by (unfold is_word; lia).
  apply Z.eqb_eq. lia.
Qed.

Lemma begin_represents j txs :
  represents j txs None -> file_read_only (m_logfd (j_log j)) = false ->
  m_log_size (j_log j) + 1 < 2 ^ 64 ->
  wp begin j (fun _ j' => represents j' txs (Some []) /\
    same_config j' j /\
    m_log_size (j_log j') = m_log_size (j_log j) + 1).
Proof.
  intros Hr Hro Hs. pose proof (r_log _ _ _ Hr) as Hl. pose proof (r_read_only _ _ _ Hr) as Hjro.
  destruct (r_cur _ _ _ Hr) as (Htx & Hu & Hlog). rewrite Hro in Hjro.
  assert (m_log_size (j_log j) = zlen (encode_log (m_database_block_size j) txs)) as Hsz.
  { by rewrite <- length_log_bytes, Hlog. }
  unfold begin. do 4 wp_step; [by rewrite Htx|]. do 2 wp_step; [by rewrite Htx|].
  do 3 wp_step. wp_step; [by rewrite Hjro|].
  wp_step. eapply wp_mono; [by apply assert_log_size_spec|]. cbn beta. intros _ ? ->.
  wp_steps. set (j1 := set_tx _ j).
  eapply wp_mono; [by apply (append_spec j1)|]. cbn beta.
  intros _ j' (l & -> & Hl' & Hb & Hro' & Ho). split_and!; [|done|].
  - destruct Hr. split; try done.
    { cbn. by rewrite Hjro, Hro'. }
    split_and!; try done.
    + constructor.
    + unfold j1. cbn. by rewrite Htx, Hsz.
    + cbn [set_log j_log]. rewrite Hb. unfold j1. cbn [set_tx j_log]. rewrite Hlog.
      unfold encode_writes. by rewrite !app_nil_r.
    + unfold j1 in Ho. cbn in *. pose proof (l_size _ Hl). lia.
  - cbn [set_log j_log]. rewrite <- !length_log_bytes by done. rewrite Hb. cbn [j1 set_tx j_log].
    rewrite length_app, Nat2Z.inj_add. done.
Qed.

Lemma running_begin j txs ws : represents j txs (Some ws) ->
  m_read_only j = false /\ m_in_transaction (j_tx j) = true /\
  m_transaction_begin (j_tx j) = zlen (encode_log (m_database_block_size j) txs) /\
  m_log_size (j_log j) =
    zlen (encode_log (m_database_block_size j) txs) + 1 + zlen (encode_writes ws).
Proof.
  intros Hr. destruct (r_cur _ _ _ Hr) as (Hro & _ & _ & Htx & Hlog & _).
  pose proof (r_log _ _ _ Hr) as Hl. rewrite (r_read_only _ _ _ Hr), Htx, <- length_log_bytes, Hlog by done.
  rewrite !length_app, !Nat2Z.inj_add, length_encode_header. split_and!; try done. lia.
Qed.

Lemma flush_log_spec j :
  log_inv (j_log j) -> m_read_only j = false -> file_read_only (m_logfd (j_log j)) = false ->
  wp flush_log j (fun _ j' => exists l, j' = set_log l j /\ log_inv l /\
    log_bytes l = log_bytes (j_log j) /\ file_read_only (m_logfd l) = false /\
    m_buffer_used l = 0 /\ file_data (m_logfd l) = log_bytes (j_log j)).
Proof.
  intros Hl Hro Hf. unfold flush_log. wp_steps; [by rewrite Hro|]. apply wp_on_log.
  eapply wp_mono; [by apply flush_buffer_spec|]. cbn beta.
  intros _ l (? & ? & ? & ? & ? & ? & ? & ?). by exists l.
Qed.

(** The committed positions after a commit, in memory and when restoring. *)
Lemma merge_positions_points bs txs ws n t c :
  0 < bs -> Forall (wf_write bs) ws ->
  points (encode_log bs txs) bs (m_block_positions c) (replay txs).1 ->
  m_uncommitted_block_positions t =
    apply_all (positions bs (zlen (encode_log bs txs) + 1) ws) ∅ ->
  points (encode_log bs (txs ++ [Tx ws n])) bs (m_block_positions (merge_positions n t c))
    (replay (txs ++ [Tx ws n])).1 /\
  m_database_size (merge_positions n t c) = (replay (txs ++ [Tx ws n])).2.
Proof.
  intros Hbs Hws Hp Ht. unfold replay. rewrite foldl_app. fold (replay txs). simpl. split; [|done].
  apply points_in_range. rewrite Ht, <- apply_all_empty, encode_log_app. unfold encode_tx. cbn [t_writes t_size].
  pose proof (points_positions bs ws (encode_log bs txs ++ encode_header record_begin)
    (encode_commit n) _ _ Hws ltac:(lia) (points_extend _ _ _ _ _ Hp)) as Hpos.
  rewrite length_app, Nat2Z.inj_add, length_encode_header in Hpos.
  by rewrite <- !app_assoc in Hpos.
Qed.

Lemma commit_represents j txs ws n :
  represents j txs (Some ws) -> 0 <= n < invalid_value -> m_log_size (j_log j) + 9 < 2 ^ 64 ->
  wp (commit n) j (fun _ j' => represents j' (txs ++ [Tx ws n]) None /\
    same_config j' j /\
    file_data (m_logfd (j_log j')) = encode_log (m_database_block_size j) (txs ++ [Tx ws n])).
Proof.
  intros Hr Hn Hs. pose proof (r_log _ _ _ Hr) as Hl. pose proof (r_bs _ _ _ Hr) as Hbs.
  destruct (running_begin _ _ _ Hr) as (Hjro & Hin & Htb & Hsz).
  destruct (r_cur _ _ _ Hr) as (Hro & Hnd & Hws & Htx & Hlog & Hbo).
  set (bs := m_database_block_size j) in *.
  unfold commit. do 4 wp_step. do 3 wp_step. wp_step; [by rewrite Hjro|].
  wp_step. eapply wp_mono; [apply append_spec; try done; by rewrite length_encode_commit|]. cbn beta.
  intros _ ? (l1 & -> & Hl1 & Hb1 & Hro1 & _).
  wp_step. eapply wp_mono; [by apply (flush_log_spec (set_log l1 j))|]. cbn beta.
  intros _ ? (l2 & -> & Hl2 & Hb2 & Hro2 & Hu2 & Hf2). cbn [set_log j_log] in *.
  wp_step. wp_step. wp_step.
  eapply wp_mono with (Q := fun _ j3 => j3 = set_log l2 (set_log l1 j)).
  { destruct (m_sync_on_commit _); [|by wp_steps]. apply wp_on_log, wp_on_file.
    eapply wp_mono; [apply file_sync_spec|]. cbn beta. intros _ f ->.
    cbn [set_log j_log]. by rewrite set_logfd_id. }
  cbn beta. intros _ ? ->. wp_step.
  eapply wp_mono; [by apply assert_log_size_spec|]. cbn beta. intros _ ? ->. wp_steps.
  assert (log_bytes l2 = encode_log bs (txs ++ [Tx ws n])) as Hfin.
  { rewrite Hb2, Hb1, Hlog, encode_log_app. unfold encode_tx. by rewrite <- !app_assoc. }
  split_and!; [|done|cbn; by rewrite Hf2, <- Hb2, Hfin].
  destruct (merge_positions_points bs txs ws n (j_tx j) (j_committed j)) as [Hp Hd];
    [lia|done|apply Hr|by rewrite Htx|].
  split; cbn [set_tx set_committed set_log j_log j_committed j_tx m_read_only m_database_block_size];
    try done.
  - by rewrite Hjro.
  - apply Forall_app. split; [apply Hr|]. repeat constructor; done || apply Hn.
Qed.

(** Overwriting the data of a block inside of an encoding. *)
Lemma splice_encode_writes bs pre ws1 i d d' ws2 :
  Forall (wf_write bs) ws1 -> zlen d = bs -> zlen d' = bs ->
  splice (zlen pre + zlen ws1 * (9 + bs) + 9) d' (pre ++ encode_writes (ws1 ++ (i, d) :: ws2)) =
  pre ++ encode_writes (ws1 ++ (i, d') :: ws2).
Proof.
  intros Hws Hd Hd'. pose proof (length_encode_writes bs ws1 Hws) as Hl.
  rewrite !encode_writes_app, !encode_writes_cons. unfold encode_write. cbn [fst snd].
  pose proof (length_encode_write_record i) as Hr.
  rewrite splice_app_r by (rewrite ?length_app; lia). f_equal.
  rewrite splice_app_r by (rewrite ?length_app; lia). f_equal.
  rewrite <- !app_assoc. rewrite splice_app_r by (rewrite ?length_app; lia). f_equal.
  replace (zlen pre + zlen ws1 * (9 + bs) + 9 - zlen pre - zlen (encode_writes ws1) -
    zlen (encode_write_record i)) with 0 by lia.
  rewrite splice_app_l by lia. f_equal. apply splice_all. lia.
Qed.

Lemma running_position j txs ws1 i d ws2 :
  represents j txs (Some (ws1 ++ (i, d) :: ws2)) ->
  m_uncommitted_block_positions (j_tx j) !! i =
    Some (zlen (encode_log (m_database_block_size j) txs) + 1 +
          zlen ws1 * (9 + m_database_block_size j) + 9).
Proof.
  intros Hr. destruct (r_cur _ _ _ Hr) as (_ & Hn & _ & Htx & _). rewrite Htx. cbn.
  apply keys_middle in Hn as [_ Hn]. rewrite positions_app.
  cbn [positions fst]. unfold write_record_size. rewrite apply_all_middle; [done|].
  by rewrite positions_keys.
Qed.

Lemma running_fresh j txs ws i :
  represents j txs (Some ws) -> i ∉ ws.*1 -> m_uncommitted_block_positions (j_tx j) !! i = None.
Proof.
  intros Hr Hi. destruct (r_cur _ _ _ Hr) as (_ & _ & _ & Htx & _). rewrite Htx. cbn.
  rewrite apply_all_notin by (by rewrite positions_keys). apply lookup_empty.
Qed.

Lemma write_represents j txs ws i d :
  represents j txs (Some ws) -> wf_write (m_database_block_size j) (i, d) ->
  m_log_size (j_log j) + 9 + m_database_block_size j < 2 ^ 64 ->
  wp (write i d) j (fun _ j' => represents j' txs (Some (set_write ws i d)) /\
    same_config j' j).
Proof.
  intros Hr Hw Hs. pose proof Hw as [Hi Hd]. cbn [fst snd] in *.
  pose proof (r_log _ _ _ Hr) as Hl. pose proof (r_bs _ _ _ Hr) as Hbs.
  destruct (running_begin _ _ _ Hr) as (Hjro & Hin & Htb & Hsz).
  pose proof (r_cur _ _ _ Hr) as (Hro & Hnd & Hws & Htx & Hlog & Hbo).
  set (bs := m_database_block_size j) in *.
  unfold write. do 4 wp_step; [by rewrite Hjro|]. do 4 wp_step. do 2 wp_step.
  { unfold index_valid. destruct (Z.eqb_spec i invalid_value); [lia|done]. }
  destruct (decide (i ∈ ws.*1)) as [Hk|Hk].
  - destruct (set_write_old ws i d Hk) as (ws1 & d0 & ws2 & -> & Hset).
    rewrite (running_position _ _ _ _ _ _ Hr). fold bs. unfold overwrite_log.
    do 4 wp_step; [by rewrite Hjro|]. apply wp_on_log.
    pose proof Hws as Hws'. apply Forall_app in Hws' as [Hws1 [[_ Hd0] _]%Forall_cons].
    cbn [snd] in Hd0.
    assert (zlen (encode_writes (ws1 ++ (i, d0) :: ws2)) >= (zlen ws1 + 1) * (9 + bs)) as Hroom.
    { rewrite (length_encode_writes bs) by done. rewrite length_app. cbn [length]. nia. }
    eapply wp_mono; [apply write_internal_spec; try done; nia|]. cbn beta.
    intros _ l' (Hl' & Hb' & Hro' & Ho' & Hs'). split; [|done]. rewrite Hset.
    destruct Hr. split; try done.
    { cbn. by rewrite Hjro. }
    split_and!; try done.
    + rewrite <- Hset. by apply set_write_nodup.
    + rewrite <- Hset. by apply set_write_wf.
    + cbn [set_log j_tx m_database_block_size]. fold bs. rewrite Htx. f_equal.
      by rewrite (positions_replace bs ws1 i d d0).
    + cbn [set_log j_log m_database_block_size]. fold bs. rewrite Hb', Hlog.
      pose proof (splice_encode_writes bs (encode_log bs txs ++ encode_header record_begin)
        ws1 i d0 d ws2 Hws1 Hd0 Hd) as He.
      rewrite <- !app_assoc, length_app, Nat2Z.inj_add, length_encode_header in He. done.
    + cbn. by rewrite Ho'.
  - rewrite (running_fresh _ _ _ _ Hr Hk), set_write_new by done.
    wp_step. eapply wp_mono; [apply append_spec; try done|].
    { rewrite length_encode_write_record. lia. }
    cbn beta. intros _ ? (l1 & -> & Hl1 & Hb1 & Hro1 & Ho1).
    assert (m_log_size l1 = m_log_size (j_log j) + 9) as Hs1.
    { rewrite <- !length_log_bytes by done.
      by rewrite Hb1, length_app, Nat2Z.inj_add, length_encode_write_record. }
    wp_step. eapply wp_mono; [apply (append_spec (set_log l1 j) d); try done; cbn; lia|]. cbn beta.
    intros _ ? (l2 & -> & Hl2 & Hb2 & Hro2 & Ho2). cbn [set_log j_log] in *.
    assert (m_log_size l2 = m_log_size l1 + bs) as Hs2.
    { rewrite <- !length_log_bytes by done. by rewrite Hb2, length_app, Nat2Z.inj_add, Hd. }
    wp_steps. split; [|done]. cbn [set_log j_log j_tx m_database_block_size]. fold bs.
    pose proof (l_word _ Hl2). pose proof (length_encode_log bs txs).
    rewrite (wrap_small 64) by (unfold is_word; lia).
    destruct Hr. split; try done.
    { cbn. by rewrite Hjro. }
    split_and!; try done.
    + rewrite <- set_write_new by done. by apply set_write_nodup.
    + apply Forall_app. split; [done|]. by constructor.
    + cbn [set_tx set_log j_tx m_database_block_size]. fold bs. rewrite Htx. f_equal.
      rewrite positions_app. cbn [positions fst]. rewrite apply_all_snoc. cbn. f_equal.
      rewrite (length_encode_writes bs) in Hsz by done. unfold write_record_size. lia.
    + cbn [set_tx set_log j_log m_database_block_size]. fold bs.
      rewrite Hb2, Hb1, Hlog, encode_writes_app, encode_writes_cons. unfold encode_write.
      cbn [fst snd]. unfold encode_writes at 3. cbn. by rewrite app_nil_r, <- !app_assoc.
    + cbn. fold bs. lia.
Qed.

Lemma abort_represents j txs ws :
  represents j txs (Some ws) ->
  wp abort j (fun _ j' => represents j' txs None /\
    same_config j' j).
Proof.
  intros Hr. pose proof (r_log _ _ _ Hr) as Hl. pose proof (r_bs _ _ _ Hr) as Hbs.
  destruct (running_begin _ _ _ Hr) as (Hjro & Hin & Htb & Hsz).
  pose proof (r_cur _ _ _ Hr) as (Hro & Hnd & Hws & Htx & Hlog & Hbo).
  set (bs := m_database_block_size j) in *. pose proof (length_encode_log bs txs) as Hpos.
  pose proof Hl as Hl'. destruct Hl' as [Hlo Hlf Hle Hlu Hlb Hls Hlw].
  unfold abort. do 4 wp_step. do 4 wp_step; [by rewrite Hjro|]. do 2 wp_step. rewrite Htb.
  set (tb := zlen (encode_log bs txs)) in *.
  assert (slice 0 tb (log_bytes (j_log j)) = encode_log bs txs) as Hcut.
  { rewrite Hlog, slice_app_l by lia. by apply slice_all. }
  assert (forall l, log_inv l -> file_read_only (m_logfd l) = false -> m_buffer_used l = 0 ->
    log_bytes l = encode_log bs txs ->
    represents (set_tx no_transaction (set_log l j)) txs None) as Hfin.
  { intros l Hinv Hrol Hul Hbl. destruct Hr. split; try done. cbn. by rewrite Hjro. }
  wp_step. destruct (Z.ltb_spec tb (m_buffer_offset (j_log j))) as [Hlt|Hge].
  - wp_step. apply wp_on_log, wp_on_file.
    eapply wp_mono; [apply file_truncate_spec; [done|lia]|]. cbn beta. intros _ f [Hf Hfro].
    wp_steps. split; [|done]. cbn [set_log set_logfd j_log m_logfd m_buffer].
    assert (file_data f = encode_log bs txs) as Hfd.
    { rewrite Hf, resize_shrink by lia. rewrite <- Hcut. unfold log_bytes.
      rewrite slice_app_l by (rewrite ?length_slice; lia). by rewrite slice_slice by lia. }
    apply (Hfin (Log f tb tb 0 (m_buffer (j_log j)))); try done.
    + split; cbn; rewrite ?Hfd; fold tb; try done; lia.
    + unfold log_bytes. cbn. rewrite Hfd, slice_zero, app_nil_r. by apply slice_all.
  - assert (tb = m_buffer_offset (j_log j)) as Heq by lia.
    wp_step. wp_step.
    rewrite Heq, Z.sub_diag. change (u32 0) with 0.
    set (l := Log _ _ _ _ _).
    assert (log_inv l) as Hinv by (split; cbn; try done; lia).
    eapply wp_mono; [by apply (assert_log_size_spec (set_log l j))|]. cbn beta. intros _ ? ->.
    wp_steps. split; [|done]. apply Hfin; try done.
    unfold log_bytes. cbn. rewrite slice_zero, app_nil_r. rewrite <- Hcut. unfold log_bytes.
    rewrite Heq, slice_app_l by (rewrite ?length_slice; lia). by rewrite slice_slice by lia.
Qed.
End represents.

(** ** Recovery *)

Lemma decode_header t : 0 <= t < 256 -> be_decode (encode_header t) = t.
Proof. intros. unfold encode_header, be_decode. cbn. rewrite byte_val_of. by apply Z.mod_small. Qed.

Lemma decode_record type z :
  0 <= type < 256 -> 0 <= z < invalid_value ->
  be_decode (slice 0 1 (encode_header type ++ be_encode 8 z)) = type /\
  be_decode (slice 1 8 (encode_header type ++ be_encode 8 z)) = z.
Proof.
  intros Ht Hz. split.
  - rewrite slice_app_l by (rewrite ?length_encode_header; lia). rewrite slice_all by done.
    by apply decode_header.
  - rewrite slice_app_r by (by rewrite length_encode_header). rewrite length_encode_header.
    rewrite slice_all by (by rewrite length_be_encode). apply be_decode_encode_small.
    unfold invalid_value, u64_max in Hz. lia.
Qed.

(** [junk] is what an interrupted write of a transaction leaves behind. *)
Definition incomplete (bs : Z) (junk : bytes) : Prop :=
  exists t missing, wf_tx bs t /\ missing <> [] /\ junk ++ missing = encode_tx t.

Section recovery.
Context {F : Type} `{FileSpec F}.
Implicit Types (j : journal F).

Abbreviation log_file j := (file_data (m_logfd (j_log j))).

Lemma read_log_spec j pos n :
  0 <= pos -> 0 < n < 2 ^ 32 -> pos + n <= zlen (log_file j) < 2 ^ 64 ->
  wp (read_log pos n) j (fun d j' => d = slice pos n (log_file j) /\ j' = j).
Proof.
  intros. unfold read_log. apply wp_zoom, wp_zoom.
  eapply wp_mono; [by apply file_read_spec|]. cbn beta. intros d f [-> ->].
  split; [done|]. rewrite set_logfd_id. by destruct j.
Qed.

(** One complete record at the front of what remains of the file. *)
Lemma slice_here (pre x rest : bytes) n :
  zlen x = n -> slice (zlen pre) n (pre ++ x ++ rest) = x.
Proof.
  intros <-. rewrite slice_app_r, Z.sub_diag, slice_app_l by lia. by apply slice_all.
Qed.

Definition tx_state j (tb : Z) (m : gmap Z Z) : Prop := j_tx j = Transaction true tb m.

(** The type byte of the record at [pre]. *)
Lemma next_type j pre type (x : bytes) :
  log_file j = pre ++ byte_of type :: x -> zlen (log_file j) < 2 ^ 64 -> 0 <= type < 256 ->
  wp (read_log (zlen pre) record_header_size) j (fun d j' => be_decode d = type /\ j' = j).
Proof.
  intros Hf Hl Ht. eapply wp_mono; [apply read_log_spec; unfold record_header_size; try lia|].
  { rewrite Hf, length_app. cbn [length]. split; [lia|]. rewrite Hf, length_app in Hl. cbn in Hl. lia. }
  cbn beta. intros d j' [-> ->]. split; [|done]. rewrite Hf.
  change (byte_of type :: x) with (encode_header type ++ x).
  unfold record_header_size. rewrite slice_here by done. by apply decode_header.
Qed.

Lemma available_word (pre x : bytes) :
  zlen (pre ++ x) < 2 ^ 64 -> u64 (zlen (pre ++ x) - zlen pre) = zlen x.
Proof.
  intros Hl. rewrite length_app in *. rewrite wrap_small; [lia|]. unfold is_word. lia.
Qed.

Lemma offset_word (pre x rest : bytes) n :
  zlen (pre ++ x ++ rest) < 2 ^ 64 -> zlen x = n -> u64 (zlen pre + n) = zlen (pre ++ x).
Proof.
  intros Hl <-. rewrite !length_app in *. rewrite wrap_small; [lia|]. unfold is_word. lia.
Qed.

(** The iteration that reads a complete write record. *)
Lemma restore_write_step j pre w tail tb m fuel (Q : option Z -> journal F -> Prop) :
  let bs := m_database_block_size j in
  log_file j = pre ++ encode_write w ++ tail -> zlen (log_file j) < 2 ^ 64 -> 0 < bs ->
  wf_write bs w -> tx_state j tb m ->
  wp (restore_loop fuel (zlen (pre ++ encode_write w)) (zlen (log_file j)))
    (set_tx (Transaction true tb (<[w.1 := zlen pre + 9]> m)) j) Q ->
  wp (restore_loop (S fuel) (zlen pre) (zlen (log_file j))) j Q.
Proof.
  intros bs Hf Hl Hbs Hw Htx Hnext. unfold tx_state in Htx. pose proof Hw as [Hi Hd].
  pose proof (length_encode_write bs w Hw) as Hlw.
  assert (u64 (zlen (log_file j) - zlen pre) = 9 + bs + zlen tail) as Hav.
  { rewrite Hf, available_word by (by rewrite <- Hf). rewrite length_app. lia. }
  cbn [restore_loop]. rewrite !Hav.
  rewrite (proj2 (Z.ltb_ge _ record_header_size)) by (unfold record_header_size; lia).
  wp_step. eapply wp_mono; [eapply (next_type j pre record_write); [exact Hf|done..]|]. cbn beta.
  intros d ? [-> ->]. do 4 wp_step. rewrite Htx. cbn [m_in_transaction negb].
  change (record_write =? record_write) with true. cbn match.
  unfold write_record_size. fold bs. destruct (Z.ltb_spec (9 + bs + zlen tail) (9 + bs)); [lia|].
  assert (log_file j = pre ++ encode_write_record w.1 ++ w.2 ++ tail) as Hf2.
  { rewrite Hf. unfold encode_write. by rewrite <- app_assoc. }
  pose proof (length_encode_write_record w.1) as Hlr.
  wp_step. eapply wp_mono; [apply read_log_spec; try lia|].
  { rewrite Hf2, !length_app in *. lia. }
  cbn beta. intros b ? [-> ->]. rewrite Hf2, slice_here by done. rewrite <- Hf2.
  destruct (decode_record record_write w.1) as [Hd1 Hd2]; [done..|].
  fold (encode_write_record w.1) in Hd1, Hd2. rewrite Hd1, Hd2. wp_steps.
  rewrite (offset_word pre (encode_write_record w.1) (w.2 ++ tail)) by (by rewrite <- ?Hf2).
  rewrite (offset_word (pre ++ encode_write_record w.1) w.2 tail)
    by (rewrite <- ?app_assoc, <- ?Hf2; done).
  rewrite <- (app_assoc pre). fold (encode_write w).
  replace (zlen (pre ++ encode_write_record w.1)) with (zlen pre + 9)
    by (rewrite length_app; lia).
  done.
Qed.

Lemma restore_loop_complete ws : forall fuel j pre rest tb m n,
  let bs := m_database_block_size j in
  log_file j = pre ++ encode_writes ws ++ encode_commit n ++ rest ->
  zlen (log_file j) < 2 ^ 64 -> 0 < bs < 2 ^ 32 -> Forall (wf_write bs) ws ->
  0 <= n < invalid_value -> tx_state j tb m -> (length ws < fuel)%nat ->
  wp (restore_loop fuel (zlen pre) (zlen (log_file j))) j (fun r j' =>
    r = Some (zlen (pre ++ encode_writes ws ++ encode_commit n)) /\
    exists t, t = Transaction true tb (apply_all (positions bs (zlen pre) ws) m) /\
      j' = set_committed (merge_positions n t (j_committed j)) (set_tx t j)).
Proof.
  induction ws as [|w ws IH]; intros fuel j pre rest tb m n bs Hf Hl Hbs Hws Hn Htx Hfuel;
    (destruct fuel as [|fuel]; [cbn [length] in Hfuel; lia|]).
  - change (encode_writes []) with (@nil byte) in *. rewrite app_nil_l in *.
    cbn [restore_loop]. rewrite Hf, available_word by (by rewrite <- Hf). rewrite <- Hf.
    unfold tx_state in Htx.
    pose proof (length_encode_commit n) as Hlc. rewrite length_app, Nat2Z.inj_add, Hlc.
    destruct (Z.ltb_spec (9 + zlen rest) record_header_size); [unfold record_header_size in *; lia|].
    wp_step. eapply wp_mono; [eapply (next_type j pre record_commit); [exact Hf|done..]|]. cbn beta.
    intros d ? [-> ->]. do 4 wp_step. rewrite Htx. cbn [m_in_transaction negb].
    change (record_commit =? record_write) with false.
    change (record_commit =? record_commit) with true. cbn match.
    destruct (Z.ltb_spec (9 + zlen rest) commit_record_size); [unfold commit_record_size in *; lia|].
    wp_step. eapply wp_mono; [apply read_log_spec; unfold commit_record_size; try lia|].
    { rewrite Hf, !length_app in *. lia. }
    cbn beta. intros b ? [-> ->]. unfold commit_record_size. rewrite Hf, slice_here by done.
    destruct (decode_record record_commit n) as [Hd1 Hd2]; [done..|].
    fold (encode_commit n) in Hd1, Hd2. rewrite Hd1, Hd2. wp_steps.
    rewrite (offset_word pre (encode_commit n) rest) by (done || congruence).
    split; [done|]. eexists. split; [reflexivity|]. cbn. rewrite Htx. destruct j; cbn in *. by subst.
  - apply Forall_cons in Hws as [Hw Hws]. rewrite encode_writes_cons, <- app_assoc in *.
    set (tail := encode_writes ws ++ encode_commit n ++ rest) in *.
    pose proof (length_encode_write bs w Hw) as Hlw.
    eapply (restore_write_step j pre w tail tb m); try done; [lia|]. fold bs.
    assert (Forall (wf_write (m_database_block_size j)) ws) as Hws' by done.
    specialize (IH fuel (set_tx (Transaction true tb (<[w.1 := zlen pre + 9]> m)) j)
      (pre ++ encode_write w) rest tb (<[w.1 := zlen pre + 9]> m) n).
    cbn [set_tx m_database_block_size j_log j_committed] in IH. fold bs in IH.
    eapply wp_mono; [apply IH; try done|].
    + by rewrite Hf, <- app_assoc.
    + cbn [length] in Hfuel. lia.
    + cbn beta. intros r j' (-> & t & -> & ->). split; [by rewrite <- !app_assoc|].
      eexists. split; [|done]. f_equal. cbn [positions]. unfold write_record_size.
      rewrite length_app, Nat2Z.inj_add, Hlw. unfold apply_all at 2. cbn [foldl fst snd].
      by replace (zlen pre + (9 + bs)) with (zlen pre + 9 + bs) by lia.
Qed.

Lemma tx_state_id j tb m : tx_state j tb m -> j = set_tx (Transaction true tb m) j.
Proof. unfold tx_state. destruct j; cbn. by intros ->. Qed.

(** A record that is cut off ends the scan. *)
Lemma restore_short j pre junk tb m fuel type x :
  let bs := m_database_block_size j in
  log_file j = pre ++ junk -> zlen (log_file j) < 2 ^ 64 -> tx_state j tb m ->
  (junk = [] \/ junk = byte_of type :: x /\
    (type = record_write /\ zlen junk < 9 + bs \/ type = record_commit /\ zlen junk < 9)) ->
  wp (restore_loop (S fuel) (zlen pre) (zlen (log_file j))) j (fun r j' => r = None /\ j' = j).
Proof.
  intros bs Hf Hl Htx Hcases. unfold tx_state in Htx.
  assert (u64 (zlen (log_file j) - zlen pre) = zlen junk) as Hav.
  { by rewrite Hf, available_word by (by rewrite <- Hf). }
  cbn [restore_loop]. rewrite !Hav. unfold write_record_size, commit_record_size.
  destruct Hcases as [->|[Hj Hshort]]; [by wp_steps|].
  rewrite (proj2 (Z.ltb_ge _ record_header_size))
    by (rewrite Hj; cbn [length]; unfold record_header_size; lia).
  rewrite Hj in Hf.
  assert (0 <= type < 256) as Hty by (destruct Hshort as [[-> _]|[-> _]]; done).
  wp_step. eapply wp_mono; [by eapply next_type|]. cbn beta. intros d ? [-> ->].
  do 4 wp_step. rewrite Htx. cbn [m_in_transaction negb]. fold bs.
  destruct Hshort as [[-> Hs]|[-> Hs]]; apply Z.ltb_lt in Hs.
  - change (record_write =? record_write) with true. cbn match. rewrite Hs. by wp_steps.
  - change (record_commit =? record_write) with false.
    change (record_commit =? record_commit) with true. cbn match. rewrite Hs. by wp_steps.
Qed.

Lemma app_longer (a b c d : bytes) :
  a ++ b = c ++ d -> zlen c <= zlen a -> exists k, a = c ++ k /\ k ++ b = d.
Proof.
  intros [(k & -> & ->)|(k & -> & ->)]%app_eq_inv Hl; [by exists k|].
  exists []. rewrite length_app in Hl. destruct k; [by rewrite !app_nil_r|cbn in Hl; lia].
Qed.

(** An interrupted transaction ends the scan. *)
Lemma restore_loop_incomplete ws : forall fuel j pre junk missing tb m n,
  let bs := m_database_block_size j in
  log_file j = pre ++ junk -> junk ++ missing = encode_writes ws ++ encode_commit n ->
  missing <> [] -> zlen (log_file j) < 2 ^ 64 -> 0 < bs -> Forall (wf_write bs) ws ->
  tx_state j tb m -> zlen junk < Z.of_nat fuel ->
  wp (restore_loop fuel (zlen pre) (zlen (log_file j))) j (fun r j' =>
    r = None /\ exists m', j' = set_tx (Transaction true tb m') j).
Proof.
  induction ws as [|w ws IH];
    intros fuel j pre junk missing tb m n bs Hf Hj Hm Hl Hbs Hws Htx Hfuel;
    (destruct fuel as [|fuel]; [lia|]);
    assert (0 < zlen missing) as Hmp by (destruct missing; [done|cbn; lia]).
  - change (encode_writes [] ++ encode_commit n) with
      (byte_of record_commit :: be_encode 8 n) in Hj.
    assert (zlen junk < 9) as Hlj.
    { apply (f_equal length) in Hj. rewrite length_app in Hj. cbn in Hj. lia. }
    eapply wp_mono; [eapply (restore_short j pre junk tb m fuel record_commit (tail junk)); try done|].
    + destruct junk as [|c junk]; [by left|right]. cbn in Hj. injection Hj as -> _. auto.
    + cbn beta. intros r ? [-> ->]. split; [done|]. eexists. by apply tx_state_id.
  - apply Forall_cons in Hws as [Hw Hws]. rewrite encode_writes_cons, <- app_assoc in Hj.
    pose proof (length_encode_write bs w Hw) as Hlw.
    destruct (decide (zlen junk < 9 + bs)) as [Hlt|Hge].
    + eapply wp_mono; [eapply (restore_short j pre junk tb m fuel record_write (tail junk)); try done|].
      * destruct junk as [|c junk]; [by left|right]. cbn in Hj. injection Hj as -> _. auto.
      * cbn beta. intros r ? [-> ->]. split; [done|]. eexists. by apply tx_state_id.
    + destruct (app_longer _ _ _ _ Hj) as (k & -> & Hk); [lia|]. rewrite length_app in Hfuel.
      eapply (restore_write_step j pre w k); try done.
      pose proof (IH fuel (set_tx (Transaction true tb (<[w.1 := zlen pre + 9]> m)) j)
        (pre ++ encode_write w) k missing tb (<[w.1 := zlen pre + 9]> m) n) as IH'.
      cbn [set_tx m_database_block_size j_log] in IH'. fold bs in IH'.
      eapply wp_mono; [apply IH'; try done|].
      * by rewrite Hf, <- app_assoc.
      * lia.
      * cbn beta. intros r ? (-> & m' & ->). split; [done|]. by eexists.
Qed.

Lemma wp_finally {A} (m : M (journal F) A) cleanup j Q :
  wp m j (fun r j' => Q r (cleanup j')) -> wp (finally m cleanup) j Q.
Proof. unfold wp, finally. by destruct (m j) as [j' [a|e]]. Qed.

(** The first iteration reads the begin record. *)
Lemma restore_begin_step j pre x fuel (Q : option Z -> journal F -> Prop) :
  log_file j = pre ++ encode_header record_begin ++ x -> zlen (log_file j) < 2 ^ 64 ->
  j_tx j = no_transaction ->
  wp (restore_loop fuel (zlen (pre ++ encode_header record_begin)) (zlen (log_file j)))
    (set_tx (Transaction true (zlen pre) ∅) j) Q ->
  wp (restore_loop (S fuel) (zlen pre) (zlen (log_file j))) j Q.
Proof.
  intros Hf Hl Htx Hnext. cbn [restore_loop].
  rewrite Hf, available_word by (by rewrite <- Hf). rewrite <- Hf.
  rewrite length_app, Nat2Z.inj_add, length_encode_header.
  rewrite (proj2 (Z.ltb_ge _ record_header_size)) by (unfold record_header_size; lia).
  wp_step. eapply wp_mono; [eapply (next_type j pre record_begin x); [exact Hf|done..]|]. cbn beta.
  intros d ? [-> ->]. do 4 wp_step. rewrite Htx. cbn [m_in_transaction no_transaction negb].
  change (record_begin =? record_begin) with true. cbn [negb]. do 2 wp_step.
  unfold record_header_size. rewrite (offset_word pre (encode_header record_begin) x)
    by (rewrite <- ?Hf; done). done.
Qed.

Lemma restore_transaction_start j offset size Q :
  j_tx j = no_transaction ->
  wp (restore_loop (S (Z.to_nat size)) offset size) j (fun r j' => Q r (reset_transaction j')) ->
  wp (restore_transaction offset size) j Q.
Proof.
  intros Htx Hw. unfold restore_transaction. do 2 wp_step. rewrite Htx. wp_steps.
  by apply wp_finally.
Qed.

Lemma restore_transaction_complete j pre t rest :
  let bs := m_database_block_size j in
  log_file j = pre ++ encode_tx t ++ rest -> zlen (log_file j) < 2 ^ 64 -> 0 < bs < 2 ^ 32 ->
  wf_tx bs t -> j_tx j = no_transaction ->
  wp (restore_transaction (zlen pre) (zlen (log_file j))) j (fun r j' =>
    r = Some (zlen (pre ++ encode_tx t)) /\
    j' = set_committed (merge_positions (t_size t) (Transaction true (zlen pre)
           (apply_all (positions bs (zlen pre + 1) (t_writes t)) ∅)) (j_committed j)) j).
Proof.
  intros bs Hf Hl Hbs [Hws Hn] Htx. unfold encode_tx in Hf. rewrite <- !app_assoc in Hf.
  apply restore_transaction_start; [done|]. eapply restore_begin_step; [exact Hf|done..|].
  pose proof (length_encode_writes bs _ Hws) as Hlw.
  pose proof (restore_loop_complete (t_writes t) (Z.to_nat (zlen (log_file j)))
    (set_tx (Transaction true (zlen pre) ∅) j) (pre ++ encode_header record_begin) rest
    (zlen pre) ∅ (t_size t)) as Hc. cbn [set_tx m_database_block_size j_log] in Hc.
  eapply wp_mono; [apply Hc; try done|].
  - by rewrite Hf, <- app_assoc.
  - pose proof (length_encode_commit (t_size t)).
    assert (zlen (t_writes t) <= zlen (encode_writes (t_writes t))) by nia.
    rewrite Hf, !length_app. lia.
  - cbn beta. intros r j' (-> & tx & -> & ->). split.
    + unfold encode_tx. by rewrite <- !app_assoc.
    + fold bs. rewrite length_app, Nat2Z.inj_add, length_encode_header.
      destruct j; cbn in *. by rewrite Htx.
Qed.

Lemma restore_transaction_incomplete j pre junk :
  let bs := m_database_block_size j in
  log_file j = pre ++ junk -> junk <> [] -> incomplete bs junk ->
  zlen (log_file j) < 2 ^ 64 -> 0 < bs -> j_tx j = no_transaction ->
  wp (restore_transaction (zlen pre) (zlen (log_file j))) j (fun r j' => r = None /\ j' = j).
Proof.
  intros bs Hf Hne (t & missing & [Hws Hn] & Hm & Hj) Hl Hbs Htx.
  destruct (app_longer _ _ (encode_header record_begin)
    (encode_writes (t_writes t) ++ encode_commit (t_size t)) Hj) as (k & -> & Hk).
  { rewrite length_encode_header. destruct junk; [done|cbn; lia]. }
  apply restore_transaction_start; [done|]. eapply restore_begin_step; [exact Hf|done..|].
  pose proof (restore_loop_incomplete (t_writes t) (Z.to_nat (zlen (log_file j)))
    (set_tx (Transaction true (zlen pre) ∅) j) (pre ++ encode_header record_begin) k missing
    (zlen pre) ∅ (t_size t)) as Hc. cbn [set_tx m_database_block_size j_log] in Hc.
  eapply wp_mono; [apply Hc; try done|].
  - by rewrite Hf, <- app_assoc.
  - rewrite Hf, !length_app. rewrite Nat2Z.inj_add, Nat2Z.inj_add, length_encode_header. lia.
  - cbn beta. intros r j' (-> & m & ->). split; [done|]. destruct j; cbn in *. by rewrite Htx.
Qed.

Lemma restore_transactions_spec todo : forall fuel j done_ junk,
  let bs := m_database_block_size j in
  log_file j = encode_log bs (done_ ++ todo) ++ junk -> incomplete bs junk ->
  zlen (log_file j) < 2 ^ 64 -> 0 < bs < 2 ^ 32 -> Forall (wf_tx bs) todo ->
  j_tx j = no_transaction -> (length todo < fuel)%nat ->
  points (encode_log bs done_) bs (m_block_positions (j_committed j)) (replay done_).1 ->
  database_size j = (replay done_).2 ->
  wp (restore_transactions fuel (zlen (encode_log bs done_)) (zlen (log_file j))) j (fun off j' =>
    off = zlen (encode_log bs (done_ ++ todo)) /\
    exists c, j' = set_committed c j /\
      points (encode_log bs (done_ ++ todo)) bs (m_block_positions c) (replay (done_ ++ todo)).1 /\
      m_database_size c = (replay (done_ ++ todo)).2).
Proof.
  induction todo as [|t todo IH];
    intros fuel j done_ junk bs Hf Hj Hl Hbs Hwf Htx Hfuel Hp Hd;
    (destruct fuel as [|fuel]; [lia|]); cbn [restore_transactions].
  - rewrite app_nil_r in *.
    assert (exists c, j = set_committed c j /\
      points (encode_log bs done_) bs (m_block_positions c) (replay done_).1 /\
      m_database_size c = (replay done_).2) as Hend.
    { exists (j_committed j). split_and!; try done. by destruct j. }
    destruct (Z.ltb_spec (zlen (encode_log bs done_)) (zlen (log_file j))) as [Hlt|Hge].
    + wp_step. eapply wp_mono; [apply (restore_transaction_incomplete j _ junk); try done; [|lia]|].
      * intros ->. rewrite app_nil_r in Hf. rewrite Hf in Hlt. lia.
      * cbn beta. intros r ? [-> ->]. by wp_steps.
    + by wp_steps.
  - apply Forall_cons in Hwf as [Hw Hwf].
    assert (encode_log bs (done_ ++ t :: todo) =
      encode_log bs done_ ++ encode_tx t ++ concat (map encode_tx todo)) as Hsplit.
    { unfold encode_log. rewrite map_app, concat_app. cbn [map concat]. by rewrite <- !app_assoc. }
    assert (log_file j =
      encode_log bs done_ ++ encode_tx t ++ concat (map encode_tx todo) ++ junk) as Hf2.
    { rewrite Hf, Hsplit. by rewrite <- !app_assoc. }
    rewrite (proj2 (Z.ltb_lt _ _)).
    2:{ rewrite Hf2, !length_app. unfold encode_tx. rewrite !length_app.
        pose proof (length_encode_commit (t_size t)). lia. }
    wp_step. eapply wp_mono; [by eapply restore_transaction_complete|]. cbn beta.
    intros r ? [-> ->]. rewrite <- encode_log_app. set (j1 := set_committed _ j).
    replace (done_ ++ t :: todo) with ((done_ ++ [t]) ++ todo) in * by (by rewrite <- app_assoc).
    destruct Hw as [Hws Hn]. destruct t as [ws n]. cbn [t_writes t_size] in *.
    destruct (merge_positions_points bs done_ ws n (Transaction true (zlen (encode_log bs done_))
      (apply_all (positions bs (zlen (encode_log bs done_) + 1) ws) ∅)) (j_committed j))
      as [Hp1 Hd1]; [lia|done..|].
    pose proof (IH fuel j1 (done_ ++ [Tx ws n]) junk) as IH'.
    cbn [j1 set_committed m_database_block_size j_log] in IH'. fold bs in IH'.
    eapply wp_mono; [apply IH'; try done; cbn [length] in Hfuel; lia|]. cbn beta.
    intros off ? (-> & c & -> & Hp2 & Hd2). split; [done|]. by exists c.
Qed.

Lemma header_fields bs :
  slice 0 20 (encode_log_header bs) = LOG_MAGIC /\
  slice 20 4 (encode_log_header bs) = be_encode 4 LOG_VERSION /\
  slice 24 4 (encode_log_header bs) = be_encode 4 bs.
Proof. split_and!; reflexivity. Qed.

Lemma incomplete_nil bs : incomplete bs [].
Proof.
  exists (Tx [] 0), (encode_tx (Tx [] 0)). split_and!; try done.
Qed.

(** Every transaction takes at least one byte of the log. *)
Lemma encode_log_count bs txs : zlen txs <= zlen (encode_log bs txs).
Proof.
  induction txs as [|t txs IH] using rev_ind; [pose proof (length_encode_log bs []); cbn in *; lia|].
  rewrite encode_log_app. unfold encode_tx. rewrite !length_app, !Nat2Z.inj_add.
  rewrite length_encode_header. cbn [length]. lia.
Qed.

(** A journal that has just been positioned at the end of [txs]. *)
Lemma idle_represents j txs :
  j_tx j = no_transaction -> m_buffer_used (j_log j) = 0 ->
  0 < zlen (m_buffer (j_log j)) < 2 ^ 32 ->
  m_buffer_offset (j_log j) = zlen (encode_log (m_database_block_size j) txs) ->
  m_log_size (j_log j) = m_buffer_offset (j_log j) ->
  slice 0 (m_buffer_offset (j_log j)) (log_file j) = encode_log (m_database_block_size j) txs ->
  (m_read_only j = false -> zlen (log_file j) = m_buffer_offset (j_log j)) ->
  m_read_only j = file_read_only (m_logfd (j_log j)) ->
  zlen (log_file j) < 2 ^ 64 -> 0 < m_database_block_size j < 2 ^ 32 ->
  Forall (wf_tx (m_database_block_size j)) txs ->
  points (encode_log (m_database_block_size j) txs) (m_database_block_size j)
    (m_block_positions (j_committed j)) (replay txs).1 ->
  database_size j = (replay txs).2 ->
  represents j txs None.
Proof.
  intros Htx Hu Hb Ho Hs Hlog Hex Hro Hl Hbs Hwf Hp Hd.
  assert (zlen (slice 0 (m_buffer_offset (j_log j)) (log_file j)) = m_buffer_offset (j_log j)) as Hlen
    by (by rewrite Hlog).
  assert (m_buffer_offset (j_log j) <= zlen (log_file j)) as Hle.
  { unfold slice in Hlen. rewrite length_take, length_drop in Hlen. lia. }
  split; try done.
  - split; try done; try lia. intros Hfro. apply Hex. congruence.
  - split_and!; try done. unfold log_bytes. by rewrite Hu, slice_zero, app_nil_r.
Qed.

(** Opening a journal file that ends with an incomplete transaction. *)
Lemma make_journal_recovers (f : F) bs buffer_size txs junk :
  file_data f = encode_log bs txs ++ junk -> incomplete bs junk ->
  zlen (file_data f) < 2 ^ 64 -> 0 < bs < 2 ^ 32 -> 0 < buffer_size < 2 ^ 32 ->
  Forall (wf_tx bs) txs ->
  exists j, make_journal f bs buffer_size = (j, Ok tt) /\ represents j txs None /\
    m_database_block_size j = bs /\ m_read_only j = file_read_only f /\
    (file_read_only f = false -> log_file j = encode_log bs txs).
Proof.
  intros Hf Hj Hl Hbs Hbuf Hwf. pose proof (length_encode_log bs txs) as Hlog.
  assert (wp (assert! (0 <? buffer_size) ;;; restore) (new_journal f bs buffer_size) (fun _ j =>
    represents j txs None /\ m_database_block_size j = bs /\ m_read_only j = file_read_only f /\
    (file_read_only f = false -> log_file j = encode_log bs txs))) as Hw.
  2:{ unfold make_journal. apply wp_run in Hw as (j & [] & -> & Hw). by exists j. }
  assert (28 <= zlen (file_data f)) as Hlf by (rewrite Hf, length_app; lia).
  do 2 wp_step. unfold restore. do 6 wp_step. cbn [new_journal j_log m_logfd m_read_only m_database_block_size].
  rewrite file_size_spec. destruct (Z.eqb_spec (zlen (file_data f)) 0); [lia|].
  do 2 wp_step. { unfold log_header_size. apply Z.ltb_ge. lia. }
  wp_step. eapply wp_mono; [apply read_log_spec; cbn; unfold log_header_size; lia|]. cbn beta.
  intros h ? [-> ->]. cbn [new_journal j_log m_logfd].
  assert (slice 0 log_header_size (file_data f) = encode_log_header bs) as ->.
  { rewrite Hf. unfold encode_log. rewrite <- app_assoc, slice_app_l by
      (rewrite ?length_encode_log_header; unfold log_header_size; lia).
    apply slice_all. by rewrite length_encode_log_header. }
  destruct (header_fields bs) as (-> & -> & ->).
  do 4 wp_step.
  do 2 wp_step. { rewrite be_decode_encode_small by lia. by rewrite Z.eqb_refl. }
  wp_step. pose proof (restore_transactions_spec txs (S (Z.to_nat (zlen (file_data f))))
    (new_journal f bs buffer_size) [] junk) as Hr.
  cbn [new_journal j_log m_logfd m_database_block_size app j_committed] in Hr.
  change (zlen (encode_log bs [])) with log_header_size in Hr.
  eapply wp_mono; [apply Hr; try done|].
  - pose proof (encode_log_count bs txs). rewrite Hf, length_app. lia.
  - cbn beta. intros off ? (-> & c & -> & Hp & Hd). wp_step.
    assert (zlen (encode_log bs txs) <= zlen (file_data f)) as Hle by (rewrite Hf, length_app; lia).
    assert (slice 0 (zlen (encode_log bs txs)) (file_data f) = encode_log bs txs) as Hcut
      by (rewrite Hf, slice_app_l by lia; by apply slice_all).
    set (j0 := set_committed c _).
    eapply wp_mono with (Q := fun _ j => exists f', j = set_log (set_logfd f' (j_log j0)) j0 /\
      file_read_only f' = file_read_only f /\ file_data f' =
        if file_read_only f then file_data f else encode_log bs txs).
    { destruct (file_read_only f) eqn:Hro; cbn [negb].
      - wp_steps. exists f. split_and!; try done.
      - wp_step. apply wp_on_log, wp_on_file.
        eapply wp_mono; [apply file_truncate_spec; [done|lia]|]. cbn beta. intros _ f' [Hf' Hro'].
        apply wp_on_log, wp_on_file. eapply wp_mono; [apply file_sync_spec|]. cbn beta.
        intros _ ? ->. exists f'. split_and!; [done|congruence|].
        rewrite Hf'. cbn [j0 set_committed new_journal j_log m_logfd]. rewrite resize_shrink by lia. done. }
    cbn beta. intros _ ? (f' & -> & Hro' & Hf'). apply wp_on_log. wp_step.
    split_and!; [|done|done|].
    + apply idle_represents; cbn [j0 set_log set_committed set_logfd new_journal j_log j_tx j_committed
        m_logfd m_buffer_used m_buffer_offset m_log_size m_buffer m_database_block_size m_read_only
        database_size]; try done.
      * by rewrite length_zeros by lia.
      * rewrite Hf'. destruct (file_read_only f); [done|]. by apply slice_all.
      * intros Hro. rewrite Hf', Hro. done.
      * rewrite Hf'. destruct (file_read_only f); lia.
    + intros Hro. cbn. by rewrite Hf', Hro.
Qed.
End recovery.
