(* ===== verification/Recovery.v ===== *)
(** * Journal sessions, crashes and checkpoints

    The operations of the journal are run as sessions against an abstract
    state (committed transactions, running transaction).  The file that a
    session leaves behind at any point reopens with the committed
    transactions, and a checkpoint moves them into the database file, also
    when an earlier checkpoint was interrupted. *)

From Stdlib Require Import Strings.Byte.
From stdpp Require Import sorting.
From S2P Require Import Prelude MathOps Serialization Blocks Files Journal JournalLog JournalSpec.

(** ** What a crash can leave of a log *)

(** A cut of the records of a running transaction is incomplete, and so is a
    cut of a transaction in front of the end of its commit record. *)
Lemma incomplete_prefix bs junk rest :
  incomplete bs (junk ++ rest) -> incomplete bs junk.
Proof.
  intros (t & missing & Ht & Hm & He). exists t, (rest ++ missing).
  split_and!; [done| |by rewrite app_assoc].
  destruct rest; [done|]. by rewrite <- app_comm_cons.
Qed.

Lemma incomplete_writes bs ws :
  Forall (wf_write bs) ws -> incomplete bs (encode_header record_begin ++ encode_writes ws).
Proof.
  intros Hws. exists (Tx ws 0), (encode_commit 0).
  split_and!; [by split|done|]. unfold encode_tx. cbn [t_writes t_size]. by rewrite <- app_assoc.
Qed.

(** [survives]: [data] is what remains of a log with committed transactions
    [txs] when at most the tail of an uncommitted one is lost. *)
Definition survives (bs : Z) (txs : list tx) (data : bytes) : Prop :=
  exists junk, data = encode_log bs txs ++ junk /\ incomplete bs junk.

Lemma slice_take n (l : bytes) : slice 0 n l = take (Z.to_nat n) l.
Proof. unfold slice. by rewrite drop_0. Qed.
Lemma slice_split n (l : bytes) : l = slice 0 n l ++ drop (Z.to_nat n) l.
Proof. rewrite slice_take. symmetry. apply take_drop. Qed.
Lemma slice_app_long n (l1 l2 : bytes) :
  zlen l1 <= n -> slice 0 n (l1 ++ l2) = l1 ++ slice 0 (n - zlen l1) l2.
Proof.
  intros. rewrite !slice_take, take_app. f_equal; [apply take_ge; lia|f_equal; lia].
Qed.

Lemma survives_prefix bs txs data k :
  survives bs txs data -> zlen (encode_log bs txs) <= k ->
  survives bs txs (slice 0 k data).
Proof.
  intros (junk & -> & Hj) Hk.
  exists (slice 0 (k - zlen (encode_log bs txs)) junk). split.
  - by apply slice_app_long.
  - eapply (incomplete_prefix _ _ (drop (Z.to_nat (k - zlen (encode_log bs txs))) junk)).
    by rewrite <- slice_split.
Qed.

Lemma survives_complete bs txs : survives bs txs (encode_log bs txs).
Proof. exists []. rewrite app_nil_r. split; [done|apply incomplete_nil]. Qed.

(** A cut of the log of [txs ++ [t]] that keeps the log of [txs]. *)
Lemma survives_cut bs txs t k :
  wf_tx bs t -> zlen (encode_log bs txs) <= k < zlen (encode_log bs (txs ++ [t])) ->
  survives bs txs (slice 0 k (encode_log bs (txs ++ [t]))).
Proof.
  intros Ht Hk. rewrite encode_log_app in *. set (n := zlen (encode_log bs txs)) in *.
  exists (slice 0 (k - n) (encode_tx t)). split.
  - apply slice_app_long. lia.
  - exists t, (drop (Z.to_nat (k - n)) (encode_tx t)).
    split_and!; [done| |symmetry; apply slice_split].
    intros Hd. apply (f_equal length) in Hd. rewrite length_drop in Hd.
    rewrite length_app in Hk. change (length []) with 0%nat in Hd. unfold n in *. lia.
Qed.

Section sessions.
Context {F : Type} `{FileSpec F}.
Implicit Types (j : journal F).

Abbreviation log_file j := (file_data (m_logfd (j_log j))).

(** ** Sessions *)

Inductive jop : Set :=
| JBegin
| JWrite (index : Z) (data : bytes)
| JRead (index : Z)
| JCommit (database_size : Z)
| JAbort.

(** Runs one operation; a read returns its result. *)
Definition jop_run (o : jop) : M (journal F) (option bytes) :=
  match o with
  | JBegin => begin ;;; ret None
  | JWrite i d => write i d ;;; ret None
  | JRead i => read i
  | JCommit n => commit n ;;; ret None
  | JAbort => abort ;;; ret None
  end.

Fixpoint jops_run (ops : list jop) : M (journal F) (list (option bytes)) :=
  match ops with
  | [] => ret []
  | o :: ops => let* r := jop_run o in let* rs := jops_run ops in ret (r :: rs)
  end.

(** The abstract journal.  [None]: the operation is not allowed. *)
Abbreviation astate := (list tx * option (list (Z * bytes)))%type.

Definition jop_spec (bs : Z) (o : jop) (s : astate) : option (astate * option bytes) :=
  match o, s.2 with
  | JBegin, None => Some ((s.1, Some []), None)
  | JWrite i d, Some ws =>
    if (0 <=? i) && (i <? invalid_value) && (zlen d =? bs)
    then Some ((s.1, Some (set_write ws i d)), None) else None
  | JRead i, _ =>
    if (0 <=? i) && (i <? invalid_value) then Some (s, lookup_block s.1 s.2 i) else None
  | JCommit n, Some ws =>
    if (0 <=? n) && (n <? invalid_value) then Some ((s.1 ++ [Tx ws n], None), None) else None
  | JAbort, Some _ => Some ((s.1, None), None)
  | _, _ => None
  end.

Fixpoint jops_spec (bs : Z) (ops : list jop) (s : astate) : option (astate * list (option bytes)) :=
  match ops with
  | [] => Some (s, [])
  | o :: ops =>
    match jop_spec bs o s with
    | Some (s', r) =>
      match jops_spec bs ops s' with Some (s'', rs) => Some (s'', r :: rs) | None => None end
    | None => None
    end
  end.

(** The length of the log. *)
Definition log_length (bs : Z) (s : astate) : Z :=
  zlen (encode_log bs s.1) +
  match s.2 with Some ws => 1 + zlen (encode_writes ws) | None => 0 end.

Lemma represents_length j txs cur :
  represents j txs cur -> m_log_size (j_log j) = log_length (m_database_block_size j) (txs, cur).
Proof.
  intros Hr. pose proof (r_log _ _ _ Hr) as Hl. rewrite <- length_log_bytes by done.
  pose proof (r_cur _ _ _ Hr) as Hc. unfold log_length. cbn [fst snd]. destruct cur as [ws|].
  - destruct Hc as (_ & _ & _ & _ & -> & _). rewrite !length_app, !Nat2Z.inj_add, length_encode_header. lia.
  - destruct Hc as (_ & _ & ->). lia.
Qed.

Lemma length_set_write ws i d : zlen (set_write ws i d) <= zlen ws + 1.
Proof.
  induction ws as [|w ws IH]; cbn [set_write length]; [lia|]. destruct (w.1 =? i); cbn [length]; lia.
Qed.

(** One operation adds at most a write record and a block to the log. *)
Lemma log_length_step bs o s s' r :
  0 < bs -> match s.2 with Some ws => Forall (wf_write bs) ws | None => True end ->
  jop_spec bs o s = Some (s', r) -> log_length bs s' <= log_length bs s + 9 + bs.
Proof.
  intros Hbs Hws Ho. destruct s as [txs cur]. unfold log_length. cbn [snd] in Hws.
  destruct o, cur as [ws|]; cbn [jop_spec fst snd] in *; simplify_eq; cbn [fst snd];
    repeat case_match; simplify_eq; cbn [fst snd] in *; simplify_eq; try lia.
  - change (encode_writes []) with (@nil byte). cbn [length]. lia.
  - pose proof (length_encode_writes bs ws Hws).
    apply andb_true_iff in H1 as [[Hi1 Hi2]%andb_true_iff Hd].
    assert (Forall (wf_write bs) (set_write ws index data)) as Hws'.
    { apply set_write_wf; [done|]. split; cbn [fst snd]; lia. }
    pose proof (length_encode_writes bs _ Hws'). pose proof (length_set_write ws index data).
    assert (zlen (set_write ws index data) * (9 + bs) <= (zlen ws + 1) * (9 + bs))
      by (apply Z.mul_le_mono_nonneg_r; lia). lia.
  - rewrite encode_log_app. unfold encode_tx. cbn [t_writes t_size].
    rewrite !length_app, !Nat2Z.inj_add, length_encode_commit, length_encode_header. lia.
Qed.

Lemma jop_refines j txs cur o s r :
  represents j txs cur -> m_read_only j = false ->
  jop_spec (m_database_block_size j) o (txs, cur) = Some (s, r) ->
  log_length (m_database_block_size j) (txs, cur) + 9 + m_database_block_size j < 2 ^ 64 ->
  wp (jop_run o) j (fun r' j' => r' = r /\ represents j' s.1 s.2 /\ same_config j' j).
Proof.
  intros Hr Hro Ho Hs. rewrite <- (represents_length _ _ _ Hr) in Hs.
  pose proof (r_bs _ _ _ Hr) as Hbs. pose proof (r_read_only _ _ _ Hr) as Hfro. rewrite Hro in Hfro.
  destruct o as [|i d|i|n|], cur as [ws|]; cbn [jop_spec jop_run fst snd] in *; simplify_eq;
    try (case_match; [|done]); simplify_eq.
  - wp_step. eapply wp_mono; [apply begin_represents; [done..|lia]|]. cbn beta.
    intros _ j' (? & ? & _). by wp_steps.
  - wp_step. eapply wp_mono; [apply write_represents; [done| |lia]|].
    { split; cbn [fst snd]; lia. }
    cbn beta. intros _ j' (? & ?). by wp_steps.
  - eapply wp_mono; [eapply read_represents; [done|lia]|]. cbn beta. by intros r ? [-> ->].
  - eapply wp_mono; [eapply read_represents; [done|lia]|]. cbn beta. by intros r ? [-> ->].
  - wp_step. eapply wp_mono; [apply commit_represents; [done|lia..]|]. cbn beta.
    intros _ j' (? & ? & _). by wp_steps.
  - wp_step. eapply wp_mono; [by eapply abort_represents|]. cbn beta.
    intros _ j' (? & ?). by wp_steps.
Qed.

Lemma jops_refines ops : forall j txs cur s rs,
  let bs := m_database_block_size j in
  represents j txs cur -> m_read_only j = false ->
  jops_spec bs ops (txs, cur) = Some (s, rs) ->
  log_length bs (txs, cur) + zlen ops * (9 + bs) < 2 ^ 64 ->
  wp (jops_run ops) j (fun rs' j' => rs' = rs /\ represents j' s.1 s.2 /\ same_config j' j).
Proof.
  induction ops as [|o ops IH]; intros j txs cur s rs bs Hr Hro Hs Hl; cbn [jops_spec jops_run] in *.
  - simplify_eq. by wp_steps.
  - destruct (jop_spec bs o (txs, cur)) as [[[txs1 cur1] r]|] eqn:Ho; [|done].
    destruct (jops_spec bs ops _) as [[s2 rs2]|] eqn:Hops; [|done]. simplify_eq.
    pose proof (r_bs _ _ _ Hr) as Hbs. fold bs in Hbs. cbn [length] in Hl.
    pose proof (log_length_step bs o (txs, cur) (txs1, cur1) r ltac:(lia)) as Hstep. premise Hstep.
    { cbn [snd]. destruct cur; [|done]. by destruct (r_cur _ _ _ Hr) as (_ & _ & ? & _). }
    specialize (Hstep Ho).
    wp_step. eapply wp_mono; [eapply jop_refines; try done; fold bs; nia|]. cbn beta.
    intros r' j1 (-> & Hr1 & [Hc1 Hc2]). cbn [fst snd] in Hr1. wp_step.
    eapply wp_mono; [apply (IH j1 txs1 cur1 s rs2); rewrite ?Hc1, ?Hc2; fold bs; try done; nia|].
    cbn beta. intros rs' j2 (-> & Hr2 & [Hc3 Hc4]). wp_steps.
    split_and!; [done..|split; congruence].
Qed.

(** The file that an operation leaves behind. *)
Lemma represents_survives j txs cur :
  represents j txs cur -> m_read_only j = false ->
  survives (m_database_block_size j) txs (log_file j).
Proof.
  intros Hr Hro. pose proof (r_log _ _ _ Hr) as Hl. pose proof (r_cur _ _ _ Hr) as Hc.
  pose proof (r_read_only _ _ _ Hr) as Hfro. rewrite Hro in Hfro. symmetry in Hfro.
  pose proof (exact_file _ Hl Hfro) as Hlog. destruct cur as [ws|].
  - destruct Hc as (_ & _ & Hws & _ & Hb & Ho). rewrite Hlog in Hb.
    pose proof (l_exact _ Hl Hfro) as Hex.
    assert (slice 0 (zlen (log_file j)) (log_bytes (j_log j)) = log_file j) as <-.
    { rewrite Hlog, slice_app_l by lia. by apply slice_all. }
    rewrite Hlog, Hb. apply survives_prefix; [|lia].
    exists (encode_header record_begin ++ encode_writes ws). split; [done|].
    by apply incomplete_writes.
  - destruct Hc as (_ & Hu & Hb). rewrite Hlog, Hu, slice_zero, app_nil_r in Hb.
    rewrite Hb. apply survives_complete.
Qed.

(** A new journal file. *)
Lemma make_journal_creates (f : F) bs buffer_size :
  file_data f = [] -> file_read_only f = false -> 0 < bs < 2 ^ 32 -> 0 < buffer_size < 2 ^ 32 ->
  exists j, make_journal f bs buffer_size = (j, Ok tt) /\ represents j [] None /\
    m_database_block_size j = bs /\ m_read_only j = false.
Proof.
  intros Hf Hro Hbs Hbuf.
  assert (wp (assert! (0 <? buffer_size) ;;; restore) (new_journal f bs buffer_size) (fun _ j =>
    represents j [] None /\ m_database_block_size j = bs /\ m_read_only j = false)) as Hw.
  2:{ unfold make_journal. apply wp_run in Hw as (j & [] & -> & Hw). by exists j. }
  do 2 wp_step. unfold restore. do 6 wp_step.
  cbn [new_journal j_log m_logfd m_read_only m_database_block_size].
  rewrite file_size_spec, Hf, Hro. change (zlen [] =? 0) with true. cbn match.
  pose proof (length_encode_log_header bs) as Hlh.
  wp_step. apply wp_on_log, wp_on_file.
  eapply wp_mono; [apply file_write_spec; cbn [new_journal j_log m_logfd]; rewrite ?Hf; cbn [length]; try done; lia|].
  cbn beta. cbn [new_journal j_log m_logfd]. intros _ f1 [Hf1 Hro1]. wp_step. apply wp_on_log, wp_on_file.
  eapply wp_mono; [apply file_sync_spec|]. cbn beta. intros _ ? ->. apply wp_on_log. wp_step.
  cbn [set_log set_logfd j_log m_logfd].
  assert (file_data f1 = encode_log bs []) as Hf2.
  { rewrite Hf1, Hf. unfold splice, encode_log. rewrite drop_nil. cbn. by rewrite !app_nil_r. }
  split_and!; [|done|done].
  apply idle_represents; cbn [set_log set_logfd new_journal j_log j_tx j_committed
    m_logfd m_buffer_used m_buffer_offset m_log_size m_buffer m_database_block_size m_read_only]; try done.
  - by rewrite length_zeros by lia.
  - rewrite Hf2. by apply slice_all.
  - intros _. by rewrite Hf2.
  - congruence.
  - by rewrite Hf2.
Qed.

(** A file on which a session can start. *)
Definition journal_file (bs : Z) (txs : list tx) (data : bytes) : Prop :=
  (data = [] /\ txs = []) \/ survives bs txs data.

Lemma make_journal_opens (f : F) bs buffer_size txs :
  journal_file bs txs (file_data f) -> file_read_only f = false ->
  zlen (file_data f) < 2 ^ 64 -> 0 < bs < 2 ^ 32 -> 0 < buffer_size < 2 ^ 32 ->
  Forall (wf_tx bs) txs ->
  exists j, make_journal f bs buffer_size = (j, Ok tt) /\ represents j txs None /\
    m_database_block_size j = bs /\ m_read_only j = false.
Proof.
  intros [[Hf ->]|(junk & Hf & Hj)] Hro Hl Hbs Hbuf Hwf; [by apply make_journal_creates|].
  destruct (make_journal_recovers f bs buffer_size txs junk) as (j & Hm & Hr & Hb & Hjro & _); [done..|].
  exists j. rewrite <- Hro. done.
Qed.

(** ** Recovery *)

(** Opening [f] gives the state that replaying [txs] gives. *)
Definition recovers (f : F) (bs buffer_size : Z) (txs : list tx) : Prop :=
  exists j, make_journal f bs buffer_size = (j, Ok tt) /\
    in_transaction j = false /\ database_size j = (replay txs).2 /\
    forall i, 0 <= i < invalid_value -> read i j = (j, Ok ((replay txs).1 !! i)).

Lemma survives_recovers f bs buffer_size txs :
  survives bs txs (file_data f) -> zlen (file_data f) < 2 ^ 64 ->
  0 < bs < 2 ^ 32 -> 0 < buffer_size < 2 ^ 32 -> Forall (wf_tx bs) txs ->
  recovers f bs buffer_size txs.
Proof.
  intros (junk & Hf & Hj) Hl Hbs Hbuf Hwf.
  destruct (make_journal_recovers f bs buffer_size txs junk) as (j & Hm & Hr & _); [done..|].
  exists j. split_and!; [done| |apply Hr|].
  - destruct (r_cur _ _ _ Hr) as [Htx _]. unfold in_transaction. by rewrite Htx.
  - intros i Hi. pose proof (read_represents _ _ _ i Hr Hi) as Hw.
    apply wp_run in Hw as (j' & r & -> & -> & ->). done.
Qed.

Lemma length_cut k (l : bytes) : zlen (slice 0 k l) <= zlen l.
Proof. rewrite slice_take, length_take. lia. Qed.

Section session_theorems.
Context (f : F) (bs buffer_size : Z) (txs : list tx) (ops : list jop)
  (txs' : list tx) (cur' : option (list (Z * bytes))) (rs : list (option bytes)).
Hypothesis file_ok : journal_file bs txs (file_data f).
Hypothesis writable : file_read_only f = false.
Hypothesis file_small : zlen (file_data f) < 2 ^ 64.
Hypothesis bs_ok : 0 < bs < 2 ^ 32.
Hypothesis buffer_ok : 0 < buffer_size < 2 ^ 32.
Hypothesis txs_ok : Forall (wf_tx bs) txs.
Hypothesis ops_ok : jops_spec bs ops (txs, None) = Some ((txs', cur'), rs).
Hypothesis log_small : log_length bs (txs, None) + zlen ops * (9 + bs) < 2 ^ 64.

Lemma session_runs :
  exists j0 j, make_journal f bs buffer_size = (j0, Ok tt) /\ jops_run ops j0 = (j, Ok rs) /\
    represents j txs' cur' /\ m_database_block_size j = bs /\ m_read_only j = false.
Proof using All.
  destruct (make_journal_opens f bs buffer_size txs) as (j0 & Hm & Hr & Hb & Hro); [done..|].
  pose proof (jops_refines ops j0 txs None (txs', cur') rs) as Hops. cbn zeta in Hops.
  rewrite Hb in Hops. specialize (Hops Hr Hro ops_ok log_small).
  apply wp_run in Hops as (j & rs' & Hrun & -> & Hr' & [Hc1 Hc2]).
  exists j0, j. split_and!; try done; congruence.
Qed.

(** C17: The journal as a client sees it.  Opening a journal file that
    holds the transactions [txs] and running any permitted sequence of
    operations (begin, write, read, commit, abort) succeeds, and returns what
    the list of transactions says: afterwards the journal reports the size of
    the last committed transaction, whether a transaction is running, and
    [read] finds for every block the write of the running transaction, else
    the last committed one, else nothing. *)
Theorem journal_session :
  exists j0 j, make_journal f bs buffer_size = (j0, Ok tt) /\ jops_run ops j0 = (j, Ok rs) /\
    database_size j = (replay txs').2 /\
    in_transaction j = (if cur' then true else false) /\
    forall i, 0 <= i < invalid_value -> read i j = (j, Ok (lookup_block txs' cur' i)).
Proof using All.
  destruct session_runs as (j0 & j & Hm & Hrun & Hr & _ & _). exists j0, j.
  split_and!; [done|done|apply Hr| |].
  - pose proof (r_cur _ _ _ Hr) as Hc. unfold in_transaction. destruct cur'.
    + by destruct Hc as (_ & _ & _ & -> & _).
    + by destruct Hc as [-> _].
  - intros i Hi. pose proof (read_represents _ _ _ i Hr Hi) as Hw.
    apply wp_run in Hw as (j' & r & -> & -> & ->). done.
Qed.

(** C14: Crash safety of the journal.  After any permitted sequence of
    operations, a crash may cut the log anywhere behind the last committed
    transaction; opening what is left with any buffer size restores exactly
    the committed transactions [txs'] and drops the incomplete one. *)
Theorem crash_recovery j0 j f' buffer_size' k :
  make_journal f bs buffer_size = (j0, Ok tt) -> jops_run ops j0 = (j, Ok rs) ->
  file_data f' = slice 0 k (log_file j) -> zlen (encode_log bs txs') <= k ->
  0 < buffer_size' < 2 ^ 32 ->
  recovers f' bs buffer_size' txs'.
Proof using All.
  intros Hm Hrun Hf Hk Hbuf. destruct session_runs as (j0' & j' & Hm' & Hrun' & Hr & Hb & Hro).
  rewrite Hm in Hm'. injection Hm' as <-. rewrite Hrun in Hrun'. injection Hrun' as <-.
  pose proof (represents_survives _ _ _ Hr Hro) as Hs.
  pose proof (r_txs _ _ _ Hr) as Hwf. rewrite Hb in Hs, Hwf.
  apply survives_recovers; try done.
  - rewrite Hf. by apply survives_prefix.
  - rewrite Hf. pose proof (length_cut k (log_file j)). pose proof (l_file _ (r_log _ _ _ Hr)). lia.
Qed.
End session_theorems.

(** C15: A commit is atomic.  [commit] succeeds, and if a crash leaves any
    proper part of what it wrote behind the committed log, recovery yields the
    transactions before the commit; if the log is complete, recovery yields
    them with the new transaction appended.  There is no state in between. *)
Theorem commit_atomic j txs ws n f' buffer_size' k :
  let bs := m_database_block_size j in
  represents j txs (Some ws) -> 0 <= n < invalid_value -> m_log_size (j_log j) + 9 < 2 ^ 64 ->
  zlen (encode_log bs txs) <= k -> 0 < buffer_size' < 2 ^ 32 ->
  exists j', commit n j = (j', Ok tt) /\
    (file_data f' = slice 0 k (log_file j') ->
     recovers f' bs buffer_size'
       (if k <? zlen (log_file j') then txs else txs ++ [Tx ws n])).
Proof.
  intros bs Hr Hn Hs Hk Hbuf. pose proof (commit_represents j txs ws n Hr Hn Hs) as Hc.
  apply wp_run in Hc as (j' & [] & Hrun & Hr' & [Hb _] & Hfile). exists j'. split; [done|].
  intros Hf. fold bs in Hfile, Hb.
  pose proof (l_file _ (r_log _ _ _ Hr')) as Hl. pose proof (length_cut k (log_file j')) as Hcut.
  pose proof (r_txs _ _ _ Hr') as Hwf. rewrite Hb in Hwf.
  pose proof (r_bs _ _ _ Hr'). rewrite Hb in *.
  destruct (Z.ltb_spec k (zlen (log_file j'))) as [Hlt|Hge]; apply survives_recovers; try done;
    try (rewrite Hf; lia).
  - rewrite Hf, Hfile in *. apply survives_cut; [|lia]. apply Forall_app in Hwf as [_ Hwf].
    by apply (proj1 (Forall_singleton _ _)) in Hwf.
  - by apply Forall_app in Hwf as [Hwf _].
  - rewrite Hf, slice_take, take_ge, Hfile by lia. apply survives_complete.
Qed.
End sessions.

(** ** A session on a memory file *)

Definition sample_journal_ops : list jop :=
  [JBegin; JWrite 0 [x01; x02; x03; x04]; JWrite 2 [x05; x06; x07; x08]; JRead 0; JCommit 3;
   JBegin; JWrite 1 [x09; x0a; x0b; x0c]; JWrite 0 [x0d; x0e; x0f; x10]; JRead 0].
Definition sample_txs : list tx :=
  [Tx [(0, [x01; x02; x03; x04]); (2, [x05; x06; x07; x08])] 3].
Definition sample_cur : list (Z * bytes) :=
  [(1, [x09; x0a; x0b; x0c]); (0, [x0d; x0e; x0f; x10])].
Definition sample_results : list (option bytes) :=
  [None; None; None; Some [x01; x02; x03; x04]; None; None; None; None; Some [x0d; x0e; x0f; x10]].

Definition sample_journal : journal memory_file.memory_file :=
  (make_journal memory_file.create_temp 4 8).1.
Definition sample_running : journal memory_file.memory_file :=
  (jops_run sample_journal_ops sample_journal).1.
(** The file after a crash that lost bytes of the running transaction. *)
Definition sample_crashed : memory_file.memory_file :=
  memory_file.MemoryFile (slice 0 70 (file_data (m_logfd (j_log sample_running)))) false.

Lemma journal_session_witness :
  exists j0 j, make_journal memory_file.create_temp 4 8 = (j0, Ok tt) /\
    jops_run sample_journal_ops j0 = (j, Ok sample_results) /\
    database_size j = Some 3 /\ in_transaction j = true /\
    forall i, 0 <= i < invalid_value ->
      read i j = (j, Ok (lookup_block sample_txs (Some sample_cur) i)).
Proof.
  apply (journal_session memory_file.create_temp 4 8 [] sample_journal_ops sample_txs
    (Some sample_cur) sample_results);
    [by left|reflexivity|reflexivity|lia|lia|constructor|vm_compute; reflexivity|
     vm_compute; reflexivity].
Defined.

Lemma crash_recovery_witness : recovers sample_crashed 4 16 sample_txs.
Proof.
  apply (crash_recovery memory_file.create_temp 4 8 [] sample_journal_ops sample_txs
    (Some sample_cur) sample_results) with (j0 := sample_journal) (j := sample_running) (k := 70);
    [by left|reflexivity|reflexivity|lia|lia|constructor|vm_compute; reflexivity|
     vm_compute; reflexivity|vm_compute; reflexivity|vm_compute; reflexivity|
     reflexivity|by vm_compute|lia].
Defined.

Lemma sample_running_represents :
  represents sample_running sample_txs (Some sample_cur) /\
  m_database_block_size sample_running = 4 /\ m_log_size (j_log sample_running) = 91.
Proof.
  split; [|by vm_compute].
  destruct (session_runs memory_file.create_temp 4 8 [] sample_journal_ops sample_txs
    (Some sample_cur) sample_results) as (j0 & j & Hm & Hrun & Hr & _);
    [by left|reflexivity|reflexivity|lia|lia|constructor|vm_compute; reflexivity|
     vm_compute; reflexivity|].
  replace sample_running with j; [done|].
  unfold sample_running, sample_journal. rewrite Hm. cbn [fst]. by rewrite Hrun.
Qed.

Lemma commit_atomic_witness :
  exists j', commit 3 sample_running = (j', Ok tt) /\
    (file_data sample_crashed = slice 0 70 (file_data (m_logfd (j_log j'))) ->
     recovers sample_crashed (m_database_block_size sample_running) 16
       (if 70 <? zlen (file_data (m_logfd (j_log j')))
        then sample_txs else sample_txs ++ [Tx sample_cur 3])).
Proof.
  destruct sample_running_represents as (Hr & Hb & Hl).
  apply (commit_atomic sample_running sample_txs sample_cur 3 sample_crashed 16 70).
  - exact Hr.
  - unfold invalid_value, u64_max. lia.
  - rewrite Hl. lia.
  - rewrite Hb. by vm_compute.
  - lia.
Defined.
