(* ===== verification/Checkpoint.v ===== *)
(** * Checkpoints (the function [checkpoint] of src/engine/journal.ipp)

    A checkpoint copies the committed blocks of the journal into the database
    file and empties the journal.  The result is the database of the
    specification ([checkpointed]), also after a checkpoint that was
    interrupted: the journal is emptied last, so the copy is repeated. *)

From Stdlib Require Import Strings.Byte.
From stdpp Require Import sorting.
From S2P Require Import Prelude MathOps Serialization Blocks Files Journal JournalLog JournalSpec Recovery.

(** ** Contents of the database file *)

(** The database of [n] blocks after the blocks of [c] were copied to [data]. *)
Definition checkpointed (bs n : Z) (c : gmap Z bytes) (data data' : bytes) : Prop :=
  zlen data' = n * bs /\
  forall i, 0 <= i < n ->
    slice (i * bs) bs data' =
      match c !! i with Some b => b | None => slice (i * bs) bs (resize (n * bs) data) end.

(** What an interrupted checkpoint leaves: blocks outside of the journal keep
    their contents, the others may have any. *)
Definition interrupted (bs n : Z) (c : gmap Z bytes) (data data' : bytes) : Prop :=
  data' = data \/
  zlen data' = n * bs /\
  forall i, 0 <= i < n -> c !! i = None ->
    slice (i * bs) bs data' = slice (i * bs) bs (resize (n * bs) data).

(** Files of whole blocks are equal if all of their blocks are. *)
Lemma blocks_eq bs (n : nat) : forall (a b : bytes),
  0 < bs -> zlen a = Z.of_nat n * bs -> zlen b = Z.of_nat n * bs ->
  (forall i, 0 <= i < Z.of_nat n -> slice (i * bs) bs a = slice (i * bs) bs b) -> a = b.
Proof.
  induction n as [|n IH]; intros a b Hbs Ha Hb Hs.
  - destruct a, b; cbn in Ha, Hb; try lia. done.
  - rewrite (slice_split (Z.of_nat n * bs) a), (slice_split (Z.of_nat n * bs) b).
    assert (forall c : bytes, zlen c = Z.of_nat (S n) * bs ->
      drop (Z.to_nat (Z.of_nat n * bs)) c = slice (Z.of_nat n * bs) bs c) as Hlast.
    { intros c Hc. unfold slice. rewrite take_ge; [done|]. rewrite length_drop. nia. }
    rewrite (Hlast a Ha), (Hlast b Hb), (Hs (Z.of_nat n)) by lia. f_equal.
    apply IH; [done|rewrite length_slice; nia..|].
    intros i Hi. rewrite !slice_slice by nia. rewrite Z.add_0_l. apply Hs. lia.
Qed.

Lemma checkpointed_unique bs n c data d1 d2 :
  0 < bs -> 0 <= n -> checkpointed bs n c data d1 -> checkpointed bs n c data d2 -> d1 = d2.
Proof.
  intros Hbs Hn [Hl1 H1] [Hl2 H2]. apply (blocks_eq bs (Z.to_nat n)); rewrite ?Z2Nat.id by lia; try done.
  intros i Hi. by rewrite H1, H2.
Qed.

(** Repeating the copy completes an interrupted one. *)
Lemma checkpointed_interrupted bs n c data data' data'' :
  interrupted bs n c data data' -> checkpointed bs n c data' data'' ->
  checkpointed bs n c data data''.
Proof.
  intros [->|[Hl Hs]] [Hl' Hs']; [done|]. split; [done|]. intros i Hi. rewrite Hs' by done.
  destruct (c !! i) eqn:Hc; [done|]. rewrite <- (Hs i Hi Hc).
  by rewrite (resize_id (n * bs) data') by done.
Qed.

(** ** The blocks of the journal *)

Definition wf_blocks (bs n : Z) (c : gmap Z bytes) : Prop :=
  forall i b, c !! i = Some b -> 0 <= i < n /\ zlen b = bs.

Lemma index_ltb_valid i n :
  0 <= i < invalid_value -> 0 <= n < invalid_value -> index_ltb i n = (i <? n).
Proof.
  intros Hi Hn. rewrite index_ltb_spec by (unfold is_word, invalid_value, u64_max in *; lia).
  unfold index_valid. destruct (Z.eqb_spec n invalid_value); [lia|].
  by destruct (Z.eqb_spec i invalid_value); [lia|].
Qed.

Lemma apply_all_wf bs ws (c : gmap Z bytes) :
  Forall (wf_write bs) ws ->
  (forall i b, c !! i = Some b -> 0 <= i < invalid_value /\ zlen b = bs) ->
  forall i b, apply_all ws c !! i = Some b -> 0 <= i < invalid_value /\ zlen b = bs.
Proof.
  intros Hws. revert c. induction Hws as [|w ws [Hw1 Hw2] Hws IH]; intros c Hc; [done|].
  apply (IH (<[w.1 := w.2]> c)). intros i b [[<- <-]|[_ Hb]]%lookup_insert_Some; [done|]. by apply Hc.
Qed.

Lemma replay_wf bs txs :
  Forall (wf_tx bs) txs ->
  (forall i b, (replay txs).1 !! i = Some b -> 0 <= i < invalid_value /\ zlen b = bs) /\
  (forall n, (replay txs).2 = Some n -> 0 <= n < invalid_value /\ wf_blocks bs n (replay txs).1).
Proof.
  intros Hwf. induction txs as [|t txs IH] using rev_ind.
  { split; [|done]. intros i b. unfold replay. cbn. by rewrite lookup_empty. }
  apply Forall_app in Hwf as [Hwf [Hws Hn]%(proj1 (Forall_singleton _ _))]. specialize (IH Hwf).
  unfold replay. rewrite foldl_app. fold (replay txs). cbn [foldl replay_tx fst snd].
  assert (forall i b, in_range (t_size t) (apply_all (t_writes t) (replay txs).1) !! i = Some b ->
    0 <= i < t_size t /\ zlen b = bs) as Hr.
  { intros i b. rewrite lookup_in_range. destruct (index_ltb i (t_size t)) eqn:Hi; [|done].
    intros Hb. apply (apply_all_wf bs) in Hb; [|done|apply (proj1 IH)]. destruct Hb as [Hb1 Hb2].
    rewrite index_ltb_valid in Hi by done. split; [lia|done]. }
  split.
  - intros i b Hb. apply Hr in Hb. split; [lia|apply Hb].
  - intros n [= <-]. by split.
Qed.

(** ** The copy *)

Section checkpoint_spec.
Context {F D : Type} `{FileSpec F} `{FileSpec D}.
Implicit Types (j : journal F) (d : D).

Lemma wp_on_journal {A} (m : M (journal F) A) j d Q :
  wp m j (fun a j' => Q a (j', d)) -> wp (on_journal m) (j, d) Q.
Proof. apply (wp_zoom fst (fun j s => (j, s.2)) m (j, d)). Qed.

Lemma wp_on_database {A} (m : M D A) j d Q :
  wp m d (fun a d' => Q a (j, d')) -> wp (on_database m) (j, d) Q.
Proof. apply (wp_zoom snd (fun d s => (s.1, d)) m (j, d)). Qed.

(** [l] lists positions of blocks of [c]. *)
Definition entries_ok j (c : gmap Z bytes) (l : list (Z * Z)) : Prop :=
  Forall (fun e => m_block_positions (j_committed j) !! e.1 = Some e.2) l.

Lemma slice_other_block bs n i k x (l : bytes) :
  0 < bs -> zlen l = n * bs -> 0 <= i < n -> 0 <= k < n -> i <> k -> zlen x = bs ->
  slice (i * bs) bs (splice (k * bs) x l) = slice (i * bs) bs l.
Proof.
  intros. apply slice_splice_disjoint; try nia.
Qed.

Lemma copy_blocks_spec j txs n : forall l d,
  let bs := m_database_block_size j in
  let c := (replay txs).1 in
  represents j txs None -> wf_blocks bs n c -> 0 <= n < invalid_value -> n * bs < 2 ^ 64 ->
  file_read_only d = false -> zlen (file_data d) = n * bs -> entries_ok j c l ->
  wp (copy_blocks n bs l) (j, d) (fun _ s => s.1 = j /\ file_read_only s.2 = false /\
    zlen (file_data s.2) = n * bs /\
    (l = [] -> file_data s.2 = file_data d) /\
    forall i, 0 <= i < n -> slice (i * bs) bs (file_data s.2) =
      if decide (i ∈ l.*1) then default [] (c !! i) else slice (i * bs) bs (file_data d)).
Proof.
  induction l as [|[k p] l IH]; intros d bs c Hr Hwf Hn Hmul Hro Hd Hl; cbn [copy_blocks].
  - wp_steps. split_and!; [done..|]. intros i Hi. rewrite decide_False; [done|]. by apply not_elem_of_nil.
  - apply Forall_cons in Hl as [He Hl]. cbn [fst snd] in He.
    pose proof (r_bs _ _ _ Hr) as Hbs. fold bs in Hbs.
    destruct (log_extends _ _ _ Hr) as [rest Hlog].
    pose proof (points_extend _ rest _ _ _ (r_points _ _ _ Hr)) as Hp. rewrite <- Hlog in Hp.
    assert (exists b, c !! k = Some b) as [b Hb].
    { specialize (Hp k). rewrite He in Hp. fold c in Hp. destruct (c !! k); [by eexists|done]. }
    destruct (Hwf k b Hb) as [Hk Hlb].
    do 2 wp_step. { unfold index_valid. destruct (Z.eqb_spec k invalid_value); [lia|done]. }
    do 2 wp_step. { rewrite index_ltb_valid by lia. lia. }
    assert (0 <= k * bs /\ k * bs + bs <= n * bs) as Hkb by nia.
    rewrite checked_mul_spec by (unfold is_word, invalid_value, u64_max in *; lia).
    rewrite (proj2 (Z.ltb_lt _ _)) by lia. do 2 wp_step. wp_step. apply wp_on_journal.
    eapply wp_mono; [by eapply read_position|]. cbn beta. intros b' ? [Hb' ->].
    fold c in Hb'. rewrite Hb in Hb'. injection Hb' as <-.
    wp_step. apply wp_on_database. eapply wp_mono; [apply file_write_spec; try done; lia|].
    cbn beta. intros _ d1 [Hd1 Hro1].
    assert (zlen (file_data d1) = n * bs) as Hl1 by (rewrite Hd1, length_splice; lia).
    eapply wp_mono; [by apply IH|]. cbn beta. fold bs. fold c.
    intros _ s (-> & Hro2 & Hl2 & _ & Hs). split_and!; [done..|].
    intros i Hi. rewrite Hs by done. rewrite fmap_cons. cbn [fst].
    destruct (decide (i ∈ l.*1)) as [Hin|Hin].
    + by rewrite decide_True by (by right).
    + destruct (decide (i = k)) as [->|Hne].
      * rewrite decide_True by left. rewrite Hd1, Hb. change (default [] (Some b)) with b.
        apply slice_splice_same; lia.
      * rewrite decide_False by (intros [?|?]%elem_of_cons; done).
        rewrite Hd1. apply (slice_other_block bs n); lia.
Qed.

Lemma sorted_entries_ok j (c : gmap Z bytes) :
  entries_ok j c (sorted_entries (m_block_positions (j_committed j))).
Proof.
  unfold entries_ok, sorted_entries. apply Forall_forall. intros [k p] He. cbn.
  rewrite merge_sort_Permutation in He. by apply elem_of_map_to_list.
Qed.

Lemma sorted_entries_keys (m : gmap Z Z) i : i ∈ (sorted_entries m).*1 <-> is_Some (m !! i).
Proof.
  unfold sorted_entries. rewrite merge_sort_Permutation, list_elem_of_fmap. split.
  - intros ([k p] & -> & He). cbn. apply elem_of_map_to_list in He. by eexists.
  - intros [p Hp]. exists (i, p). split; [done|]. by apply elem_of_map_to_list.
Qed.

Lemma positions_keys_replay j txs cur i :
  represents j txs cur -> is_Some (m_block_positions (j_committed j) !! i) <-> is_Some ((replay txs).1 !! i).
Proof.
  intros Hr. pose proof (r_points _ _ _ Hr i) as Hp.
  destruct (m_block_positions (j_committed j) !! i), ((replay txs).1 !! i); try done; rewrite !is_Some_alt; done.
Qed.

Lemma checkpoint_empty j d :
  represents j [] None -> wp checkpoint (j, d) (fun r s => r = false /\ s = (j, d)).
Proof.
  intros Hr. destruct (r_cur _ _ _ Hr) as [Htx _]. pose proof (r_size _ _ _ Hr) as Hs.
  unfold checkpoint. do 2 wp_step. cbn [fst]. do 2 wp_step.
  { unfold in_transaction. by rewrite Htx. }
  rewrite Hs. cbn. by wp_steps.
Qed.

(** The database file gets the committed size. *)
Lemma resize_database_spec j d sz :
  file_read_only d = false -> 0 <= sz < 2 ^ 64 ->
  wp (if negb (zlen (file_data d) =? sz) then on_database (file_truncate sz) ;;; ret true
      else ret false) (j, d) (fun changed s => exists d1, s = (j, d1) /\
    file_read_only d1 = false /\ file_data d1 = resize sz (file_data d) /\
    (changed = false -> file_data d = resize sz (file_data d))).
Proof.
  intros Hro Hsz. destruct (Z.eqb_spec (zlen (file_data d)) sz) as [He|He]; cbn [negb].
  - wp_steps. exists d. by rewrite (resize_id sz) by done.
  - wp_step. apply wp_on_database. eapply wp_mono; [by apply file_truncate_spec|]. cbn beta.
    intros _ d1 [Hd1 Hro1]. wp_steps. by exists d1.
Qed.

(** Resetting the journal to its header. *)
Lemma reset_journal_spec {A} j d txs (k : M (journal F * D) A) Q :
  represents j txs None -> m_read_only j = false ->
  (forall j', represents j' [] None -> same_config j' j -> wp k (j', d) Q) ->
  wp (on_journal (on_log (on_file (file_truncate log_header_size))) ;;;
      on_journal (on_log (on_file file_sync)) ;;;
      on_journal (modify (fun j => set_committed (Committed None ∅)
        (set_log (Log (m_logfd (j_log j)) log_header_size log_header_size 0 (m_buffer (j_log j))) j))) ;;;
      k) (j, d) Q.
Proof.
  intros Hr Hjro Hk. pose proof (r_read_only _ _ _ Hr) as Hfro. rewrite Hjro in Hfro.
  pose proof (r_log _ _ _ Hr) as Hl. destruct (r_cur _ _ _ Hr) as (Htx & Hu & Hlog).
  set (bs := m_database_block_size j) in *. pose proof (length_encode_log bs txs) as Hll.
  pose proof (exact_file _ Hl (eq_sym Hfro)) as Hfile. rewrite Hu, slice_zero, app_nil_r, Hlog in Hfile.
  wp_step. apply wp_on_journal, wp_on_log, wp_on_file.
  eapply wp_mono; [apply file_truncate_spec; [done|unfold log_header_size; lia]|]. cbn beta.
  intros _ f1 [Hf1 Hrof]. wp_step. apply wp_on_journal, wp_on_log, wp_on_file.
  eapply wp_mono; [apply file_sync_spec|]. cbn beta. intros _ ? ->.
  wp_step. apply wp_on_journal. wp_step. apply Hk; [|done].
  assert (file_data f1 = encode_log bs []) as Hf2.
  { rewrite Hf1, <- Hfile, resize_shrink by (unfold log_header_size; lia).
    unfold encode_log. cbn [map concat]. pose proof (length_encode_log_header bs).
    rewrite app_nil_r, slice_app_l by (unfold log_header_size; lia). by apply slice_all. }
  apply idle_represents; cbn; fold bs; rewrite ?Hf2; try done; try congruence.
  - apply (l_buffer _ Hl).
  - apply (r_bs _ _ _ Hr).
Qed.

(** The copy of all blocks makes the database of the specification. *)
Lemma copy_all_spec j d txs n :
  let bs := m_database_block_size j in
  let c := (replay txs).1 in
  let entries := sorted_entries (m_block_positions (j_committed j)) in
  represents j txs None -> (replay txs).2 = Some n -> n * bs < 2 ^ 64 ->
  file_read_only d = false -> zlen (file_data d) = n * bs ->
  wp (copy_blocks n bs entries) (j, d) (fun _ s => exists d', s = (j, d') /\
    file_read_only d' = false /\ checkpointed bs n c (file_data d) (file_data d') /\
    (size (m_block_positions (j_committed j)) = 0%nat -> file_data d' = file_data d)).
Proof.
  intros bs c entries Hr Hn Hmul Hro Hd. destruct (replay_wf bs txs (r_txs _ _ _ Hr)) as [_ Hwf].
  destruct (Hwf n Hn) as [Hnv Hblocks].
  eapply wp_mono; [apply (copy_blocks_spec j txs n); try done; apply sorted_entries_ok|].
  cbn beta. fold bs. fold c. intros _ [j' d'] (Hj & Hro' & Hl & Hnil & Hs). cbn [fst snd] in *.
  subst j'. exists d'. split_and!; [done..| |].
  - split; [done|]. intros i Hi. rewrite Hs by done.
    pose proof (sorted_entries_keys (m_block_positions (j_committed j)) i) as Hk.
    rewrite (positions_keys_replay _ _ _ i Hr) in Hk. fold entries c in Hk.
    destruct (c !! i) as [b|].
    + rewrite decide_True by (apply Hk; by eexists). done.
    + rewrite decide_False by (rewrite Hk; by intros [? ?]). by rewrite (resize_id (n * bs)) by done.
  - intros Hz. apply Hnil. apply map_size_empty_inv in Hz. unfold entries. by rewrite Hz.
Qed.

(** The whole checkpoint. *)
Lemma checkpoint_spec j d txs n :
  let bs := m_database_block_size j in
  represents j txs None -> m_read_only j = false -> (replay txs).2 = Some n -> n * bs < 2 ^ 64 ->
  file_read_only d = false -> zlen (file_data d) < 2 ^ 64 ->
  wp checkpoint (j, d) (fun changed s =>
    represents s.1 [] None /\ same_config s.1 j /\ file_read_only s.2 = false /\
    checkpointed bs n (replay txs).1 (file_data d) (file_data s.2) /\
    (changed = false -> file_data s.2 = file_data d)).
Proof.
  intros bs Hr Hjro Hn Hmul Hdro Hd. destruct (replay_wf bs txs (r_txs _ _ _ Hr)) as [_ Hwf].
  destruct (Hwf n Hn) as [Hnv _]. pose proof (r_bs _ _ _ Hr) as Hbs. fold bs in Hbs.
  destruct (r_cur _ _ _ Hr) as (Htx & _). unfold checkpoint. do 2 wp_step. cbn [fst]. do 2 wp_step.
  { unfold in_transaction. by rewrite Htx. }
  rewrite (r_size _ _ _ Hr), Hn. wp_step. apply wp_on_journal, wp_on_log, wp_on_file.
  eapply wp_mono; [apply file_sync_spec|]. cbn beta. intros _ ? ->. rewrite set_logfd_id, set_log_id.
  fold bs. rewrite checked_mul_spec by (unfold is_word, invalid_value, u64_max in *; lia).
  rewrite (proj2 (Z.ltb_lt _ _)) by done. do 2 wp_step. do 2 wp_step. cbn [snd].
  rewrite file_size_spec. wp_step. eapply wp_mono; [apply resize_database_spec; [done|nia]|]. cbn beta.
  intros ch s (d1 & -> & Hro1 & Hd1 & Hch).
  assert (zlen (file_data d1) = n * bs) as Hld1 by (rewrite Hd1; apply length_resize; nia).
  wp_step. eapply wp_mono; [by apply copy_all_spec|]. cbn beta. fold bs.
  intros _ ? (d2 & -> & Hro2 & Hcp & Hsame). wp_step. apply wp_on_database.
  eapply wp_mono; [apply file_sync_spec|]. cbn beta. intros _ ? ->.
  eapply reset_journal_spec; [done..|]. intros j' Hr' Hcfg. wp_steps. cbn [fst snd]. split_and!; try done.
  - rewrite Hd1 in Hcp. destruct Hcp as [Hl2 Hs2]. split; [done|]. intros i Hi. rewrite Hs2 by done.
    by rewrite (resize_id (n * bs) (resize _ _)) by (rewrite length_resize; nia).
  - intros [-> Hz]%orb_false_iff. rewrite Hsame, Hd1 by lia. symmetry. by apply Hch.
Qed.

(** Copying only some of the blocks. *)
Lemma copy_some_interrupted j txs n d d1 k :
  let bs := m_database_block_size j in
  represents j txs None -> (replay txs).2 = Some n -> n * bs < 2 ^ 64 ->
  file_read_only d1 = false -> file_data d1 = resize (n * bs) (file_data d) ->
  wp (copy_blocks n bs (take k (sorted_entries (m_block_positions (j_committed j))))) (j, d1)
    (fun _ s => s.1 = j /\ interrupted bs n (replay txs).1 (file_data d) (file_data s.2)).
Proof.
  intros bs Hr Hn Hmul Hro Hd1. destruct (replay_wf bs txs (r_txs _ _ _ Hr)) as [_ Hwf].
  destruct (Hwf n Hn) as [Hnv Hblocks]. pose proof (r_bs _ _ _ Hr) as Hbs. fold bs in Hbs.
  eapply wp_mono; [apply (copy_blocks_spec j txs n); try done|].
  - rewrite Hd1. apply length_resize. nia.
  - apply Forall_take, (sorted_entries_ok j ∅).
  - cbn beta. fold bs. intros _ s (-> & _ & Hl & _ & Hs). split; [done|]. right. split; [done|].
    intros i Hi Hc. rewrite Hs, <- Hd1 by done. rewrite decide_False; [done|]. intros Hin.
    assert (i ∈ (sorted_entries (m_block_positions (j_committed j))).*1) as Hk.
    { rewrite fmap_take in Hin. by eapply elem_of_take in Hin as (m & Hm & _);
        apply list_elem_of_lookup_2 in Hm. }
    rewrite sorted_entries_keys, (positions_keys_replay _ _ _ i Hr), Hc in Hk. by destruct Hk.
Qed.

Section checkpoint_theorems.
Context (f : F) (bs buffer_size n : Z) (txs : list tx) (d : D).
Hypothesis file_ok : survives bs txs (file_data f).
Hypothesis writable : file_read_only f = false.
Hypothesis file_small : zlen (file_data f) < 2 ^ 64.
Hypothesis bs_ok : 0 < bs < 2 ^ 32.
Hypothesis buffer_ok : 0 < buffer_size < 2 ^ 32.
Hypothesis txs_ok : Forall (wf_tx bs) txs.
Hypothesis size_ok : (replay txs).2 = Some n.
Hypothesis size_small : n * bs < 2 ^ 64.
Hypothesis db_small : zlen (file_data d) < 2 ^ 64.

Lemma reopen_checkpoint (d' : D) :
  file_read_only d' = false -> zlen (file_data d') < 2 ^ 64 ->
  exists j s changed, make_journal f bs buffer_size = (j, Ok tt) /\ checkpoint (j, d') = (s, Ok changed) /\
    represents s.1 [] None /\ m_database_block_size s.1 = bs /\ m_read_only s.1 = false /\
    checkpointed bs n (replay txs).1 (file_data d') (file_data s.2) /\
    (changed = false -> file_data s.2 = file_data d').
Proof using All.
  intros Hro Hl.
  destruct (make_journal_opens f bs buffer_size txs) as (j & Hm & Hr & Hb & Hjro); try done; [by right|].
  pose proof (checkpoint_spec j d' txs n) as Hw. cbn zeta in Hw. rewrite Hb in Hw.
  specialize (Hw Hr Hjro size_ok size_small Hro Hl).
  apply wp_run in Hw as (s & ch & Hrun & Hr' & [Hc1 Hc2] & _ & Hcp & Hsame).
  exists j, s, ch. split_and!; try done; congruence.
Qed.

(** C18: Reopening a journal with committed transactions and running
    [checkpoint] makes the database file exactly the database that replaying
    the transactions on the old file gives (size and every block), reports a
    change whenever the file changed, and leaves an empty journal from which
    nothing is recovered. *)
Theorem checkpoint_transfers :
  file_read_only d = false ->
  exists j j' d' changed, make_journal f bs buffer_size = (j, Ok tt) /\
    checkpoint (j, d) = ((j', d'), Ok changed) /\
    checkpointed bs n (replay txs).1 (file_data d) (file_data d') /\
    (changed = false -> file_data d' = file_data d) /\
    file_data (m_logfd (j_log j')) = encode_log bs [] /\
    recovers (m_logfd (j_log j')) bs buffer_size [].
Proof using All.
  intros Hro. destruct (reopen_checkpoint d Hro db_small) as
    (j & [j' d'] & ch & Hm & Hc & Hr & Hb & Hjro & Hcp & Hsame). cbn [fst snd] in *.
  assert (file_data (m_logfd (j_log j')) = encode_log bs []) as Hfile.
  { destruct (r_cur _ _ _ Hr) as (_ & Hu & Hlog). pose proof (r_read_only _ _ _ Hr) as Hf.
    rewrite exact_file, Hu, slice_zero, app_nil_r, Hb in Hlog; [done|apply Hr|congruence]. }
  exists j, j', d', ch. split_and!; try done.
  apply survives_recovers; try done; rewrite Hfile; [apply survives_complete|].
  unfold encode_log. cbn [map concat]. by rewrite app_nil_r, length_encode_log_header.
Qed.

(** C19: A checkpoint may be interrupted.  Copying any prefix of the
    committed blocks leaves a database that is [interrupted], and running the
    checkpoint again on any interrupted database, whichever blocks of the
    journal it already holds, produces the same file as the uninterrupted
    checkpoint. *)
Theorem checkpoint_resumes :
  file_read_only d = false ->
  exists j j' d' changed, make_journal f bs buffer_size = (j, Ok tt) /\
    checkpoint (j, d) = ((j', d'), Ok changed) /\
    (forall d1 k, file_read_only d1 = false -> file_data d1 = resize (n * bs) (file_data d) ->
       exists d2, copy_blocks n bs (take k (sorted_entries (m_block_positions (j_committed j)))) (j, d1)
         = ((j, d2), Ok tt) /\ interrupted bs n (replay txs).1 (file_data d) (file_data d2)) /\
    (forall d3, interrupted bs n (replay txs).1 (file_data d) (file_data d3) ->
       file_read_only d3 = false ->
       exists j4 d4 changed4, checkpoint (j, d3) = ((j4, d4), Ok changed4) /\ file_data d4 = file_data d').
Proof using All.
  intros Hro. destruct (reopen_checkpoint d Hro db_small) as
    (j & [j' d'] & ch & Hm & Hc & Hr & Hb & Hjro & Hcp & Hsame). cbn [fst snd] in *.
  exists j, j', d', ch. split_and!; [done..| |].
  - intros d1 k Hro1 Hd1.
    destruct (make_journal_opens f bs buffer_size txs) as (j0 & Hm0 & Hr0 & Hb0 & _); try done; [by right|].
    rewrite Hm in Hm0. injection Hm0 as <-.
    pose proof (copy_some_interrupted j txs n d d1 k Hr0) as Hw. cbn zeta in Hw. rewrite Hb0 in Hw.
    specialize (Hw size_ok size_small Hro1 Hd1).
    apply wp_run in Hw as ([j2 d2] & [] & Hrun & Hj & Hi). cbn [fst snd] in *. subst j2. by exists d2.
  - intros d3 Hi Hro3.
    assert (zlen (file_data d3) < 2 ^ 64) as Hl3 by (destruct Hi as [->|[-> _]]; lia).
    destruct (reopen_checkpoint d3 Hro3 Hl3) as
      (j0 & [j4 d4] & ch4 & Hm0 & Hc4 & _ & _ & _ & Hcp4 & _). cbn [fst snd] in *.
    rewrite Hm in Hm0. injection Hm0 as <-. exists j4, d4, ch4. split; [done|].
    destruct (replay_wf bs txs txs_ok) as [_ Hwf]. destruct (Hwf n size_ok) as [Hnv _].
    apply (checkpointed_unique bs n (replay txs).1 (file_data d)); [lia|lia| |done].
    by eapply checkpointed_interrupted.
Qed.
End checkpoint_theorems.
End checkpoint_spec.

(** ** A checkpoint after a crash *)

Definition sample_database : memory_file.memory_file :=
  memory_file.MemoryFile [x20; x21; x22; x23; x24; x25; x26; x27] false.

Lemma sample_crashed_survives : survives 4 sample_txs (file_data sample_crashed).
Proof.
  assert (slice 0 70 (file_data (m_logfd (j_log sample_running))) = file_data sample_crashed) as <-
    by reflexivity.
  destruct sample_running_represents as (Hr & Hb & _).
  pose proof (represents_survives _ _ _ Hr eq_refl) as Hs. rewrite Hb in Hs.
  apply survives_prefix; [done|]. by vm_compute.
Qed.

Lemma sample_txs_wf : Forall (wf_tx 4) sample_txs.
Proof.
  repeat constructor; cbn; unfold invalid_value, u64_max; lia.
Qed.

Lemma checkpoint_transfers_witness :
  exists j j' d' changed, make_journal sample_crashed 4 16 = (j, Ok tt) /\
    checkpoint (j, sample_database) = ((j', d'), Ok changed) /\
    checkpointed 4 3 (replay sample_txs).1 (file_data sample_database) (file_data d') /\
    (changed = false -> file_data d' = file_data sample_database) /\
    file_data (m_logfd (j_log j')) = encode_log 4 [] /\
    recovers (m_logfd (j_log j')) 4 16 [].
Proof.
  apply (checkpoint_transfers sample_crashed 4 16 3 sample_txs sample_database).
  all: try exact sample_crashed_survives; try exact sample_txs_wf; try reflexivity; try lia.
Defined.

Lemma checkpoint_resumes_witness :
  exists j j' d' changed, make_journal sample_crashed 4 16 = (j, Ok tt) /\
    checkpoint (j, sample_database) = ((j', d'), Ok changed) /\
    (forall d1 k, file_read_only d1 = false -> file_data d1 = resize (3 * 4) (file_data sample_database) ->
       exists d2, copy_blocks 3 4 (take k (sorted_entries (m_block_positions (j_committed j)))) (j, d1)
         = ((j, d2), Ok tt) /\
         interrupted 4 3 (replay sample_txs).1 (file_data sample_database) (file_data d2)) /\
    (forall d3, interrupted 4 3 (replay sample_txs).1 (file_data sample_database) (file_data d3) ->
       file_read_only d3 = false ->
       exists j4 d4 changed4, checkpoint (j, d3) = ((j4, d4), Ok changed4) /\
         file_data d4 = file_data d').
Proof.
  apply (checkpoint_resumes sample_crashed 4 16 3 sample_txs sample_database).
  all: try exact sample_crashed_survives; try exact sample_txs_wf; try reflexivity; try lia.
Defined.
