(* ===== verification/TransactionEngine.v ===== *)
(** * The transaction engine (src/engine/transaction_engine.{hpp,ipp})

    The block cache of EngineBase.v above a journal and a database file.  The
    members of the derived class are the backend of the cache: dirty blocks
    that leave the cache go to the journal, which decides at [commit] and
    [rollback] what they become. *)

From Stdlib Require Import Strings.Byte.
From S2P Require Import Prelude MathOps Blocks Files EngineBase Handles Journal JournalLog JournalSpec Recovery Checkpoint.

Module transaction_engine.

(** The members of the derived class. *)
Record tx_state (F D : Type) : Type := TxState {
  m_dbfd : D;
  m_journal : journal F;
  m_pinned_blocks : Z;
  m_dbfile_size : Z;
  m_transaction_started : bool;
  m_size : Z
}.
Arguments TxState {F D}.
Arguments m_dbfd {F D} _.
Arguments m_journal {F D} _.
Arguments m_pinned_blocks {F D} _.
Arguments m_dbfile_size {F D} _.
Arguments m_transaction_started {F D} _.
Arguments m_size {F D} _.

Section tx_ops.
Context {F D : Type} `{File F} `{File D}.
Abbreviation T := (tx_state F D).

Definition set_dbfd (d : D) (t : T) : T :=
  TxState d (m_journal t) (m_pinned_blocks t) (m_dbfile_size t) (m_transaction_started t) (m_size t).
Definition set_journal (j : journal F) (t : T) : T :=
  TxState (m_dbfd t) j (m_pinned_blocks t) (m_dbfile_size t) (m_transaction_started t) (m_size t).
Definition set_pinned_blocks (n : Z) (t : T) : T :=
  TxState (m_dbfd t) (m_journal t) n (m_dbfile_size t) (m_transaction_started t) (m_size t).
Definition set_dbfile_size (n : Z) (t : T) : T :=
  TxState (m_dbfd t) (m_journal t) (m_pinned_blocks t) n (m_transaction_started t) (m_size t).
Definition set_started (b : bool) (t : T) : T :=
  TxState (m_dbfd t) (m_journal t) (m_pinned_blocks t) (m_dbfile_size t) b (m_size t).
Definition set_size (n : Z) (t : T) : T :=
  TxState (m_dbfd t) (m_journal t) (m_pinned_blocks t) (m_dbfile_size t) (m_transaction_started t) n.

Definition journal_call {A} (m : M (journal F) A) : M T A := zoom m_journal set_journal m.
Definition dbfd_call {A} (m : M D A) : M T A := zoom m_dbfd set_dbfd m.
(** The call of [journal::checkpoint] with the database file. *)
Definition both_call {A} (m : M (journal F * D) A) : M T A :=
  zoom (fun t => (m_journal t, m_dbfd t)) (fun s t => set_dbfd s.2 (set_journal s.1 t)) m.

(** ** Virtual functions called by the cache *)

Definition tx_do_read (g : geometry) (index : Z) : M T bytes :=
  let* started := gets m_transaction_started in
  assert! started ;;;
  let* r := journal_call (Journal.read index) in
  match r with
  | Some d => ret d
  | None =>
    let* n := gets m_dbfile_size in
    if index <? n then dbfd_call (file_read (u64 (Z.shiftl index (g_block_size_log g))) (g_block_size g))
    else ret (zeros (g_block_size g))
  end.

Definition tx_do_write (g : geometry) (index : Z) (data : bytes) : M T unit :=
  let* started := gets m_transaction_started in
  assert! started ;;;
  let* active := gets (fun t => in_transaction (m_journal t)) in
  (if negb active then journal_call Journal.begin else ret tt) ;;;
  journal_call (Journal.write index data).

#[global] Instance tx_backend : Backend T := {| do_read := tx_do_read; do_write := tx_do_write |}.

Context `{!Malloc T}.
Abbreviation E := (engine_base T).

(** Access to the members of the derived class. *)
Definition members {A} (m : M T A) : M E A := zoom backend set_backend m.

(** ** The constructor *)

Definition default_journal_buffer_bytes : Z := 4 * 1024 * 1024.

(** The base class is constructed first, then the journal. *)
Definition open_engine (dbfd : D) (journalfd : F) (block_size cache_blocks buffer_size : Z) : result E :=
  let (j, restored) := make_journal journalfd block_size buffer_size in
  let size_bytes := file_size dbfd in
  let dbfile_size := size_bytes / block_size in
  match make_engine_base
          (TxState dbfd j 0 dbfile_size false (default dbfile_size (database_size j)))
          block_size cache_blocks (file_read_only journalfd), restored with
  | Err e, _ => Err e
  | Ok _, Err e => Err e
  | Ok s, Ok _ =>
    if negb (size_bytes mod block_size =? 0) && negb (has_committed_changes j)
    then Err corruption_error else Ok s
  end.
Definition make_transaction_engine (dbfd : D) (journalfd : F) (block_size cache_blocks : Z) : result E :=
  open_engine dbfd journalfd block_size cache_blocks default_journal_buffer_bytes.

(** ** Operations *)

Definition begin : M E unit :=
  let* t := gets backend in
  assert! (m_pinned_blocks t =? 0) ;;;
  throw_if (m_transaction_started t) bad_operation ;;;
  members (modify (set_started true)).

Definition commit : M E unit :=
  let* t := gets backend in
  throw_if (negb (m_transaction_started t)) bad_operation ;;;
  throw_if (0 <? m_pinned_blocks t) bad_operation ;;;
  EngineBase.flush ;;;
  let* t := gets backend in
  (if in_transaction (m_journal t) then members (journal_call (Journal.commit (m_size t))) else ret tt) ;;;
  members (modify (set_started false)).

(** [iterate_uncommitted] with the callback of [rollback]. *)
Fixpoint discard_uncommitted (l : list (Z * Z)) : M E unit :=
  match l with
  | [] => ret tt
  | (index, _) :: l => assert! (index_valid index) ;;; EngineBase.discard index ;;; discard_uncommitted l
  end.
Definition iterate_uncommitted : M E unit :=
  let* t := gets (fun s => j_tx (m_journal (backend s))) in
  assert! (m_in_transaction t) ;;;
  discard_uncommitted (sorted_entries (m_uncommitted_block_positions t)).

Definition rollback : M E unit :=
  let* t := gets backend in
  throw_if (negb (m_transaction_started t)) bad_operation ;;;
  throw_if (0 <? m_pinned_blocks t) bad_operation ;;;
  EngineBase.discard_dirty ;;;
  let* t := gets backend in
  (if in_transaction (m_journal t) then
     iterate_uncommitted ;;;
     members (journal_call Journal.abort)
   else ret tt) ;;;
  members (modify (fun t => set_size (default (m_dbfile_size t) (database_size (m_journal t))) t)) ;;;
  members (modify (set_started false)).

Definition checkpoint : M E unit :=
  let* t := gets backend in
  throw_if (m_transaction_started t) bad_operation ;;;
  throw_if (file_read_only (m_dbfd t)) bad_operation ;;;
  throw_if (file_read_only (m_logfd (j_log (m_journal t)))) bad_operation ;;;
  if negb (has_committed_changes (m_journal t)) then ret tt else
  assert! (negb (in_transaction (m_journal t))) ;;;
  assert! (bool_decide (database_size (m_journal t) = Some (m_size t))) ;;;
  let* _ := members (both_call Journal.checkpoint) in
  members (modify (fun t => set_dbfile_size (m_size t) t)).

Definition pin (index : Z) (initialize : bool) : M E unit :=
  let* t := gets backend in
  throw_if (negb (m_transaction_started t)) bad_operation ;;;
  throw_if (m_size t <=? index) bad_argument ;;;
  EngineBase.pin index initialize ;;;
  members (modify (fun t => set_pinned_blocks (u64 (m_pinned_blocks t + 1)) t)).

Definition unpin (index : Z) : M E unit :=
  let* t := gets backend in
  assert! (0 <? m_pinned_blocks t) ;;;
  EngineBase.unpin index ;;;
  members (modify (fun t => set_pinned_blocks (u64 (m_pinned_blocks t - 1)) t)).

Definition grow (n : Z) : M E unit :=
  let* t := gets backend in
  throw_if (negb (m_transaction_started t)) bad_operation ;;;
  let* sz := lift_result (checked_add 64 (m_size t) n) in
  members (modify (set_size sz)).

Definition size (s : E) : Z := m_size (backend s).

(** The engine interface (src/transaction_engine.cpp). *)
#[global] Instance tx_impl : Impl E := {|
  impl_geo := m_geo;
  do_size := size;
  do_grow := grow;
  do_flush := EngineBase.flush;
  do_pin := pin;
  do_unpin := unpin;
  do_dirty := EngineBase.dirty;
  do_flush_block := EngineBase.flush_index;
  pinned := pinned_data;
  store_pinned := EngineBase.store
|}.
End tx_ops.

(** ** The backend

    [N] bounds the number of blocks; the log has room for that many blocks,
    so that its size cannot overflow. *)
Section tx_backend_spec.
Context {F D : Type} `{FileSpec F} `{FileSpec D}.
Context (N : Z).
Abbreviation T := (tx_state F D).
Implicit Types (t : T) (j : journal F).

(** The block at a position of the log. *)
Definition log_block (j : journal F) (p : Z) : bytes :=
  slice p (m_database_block_size j) (log_bytes (j_log j)).
Definition journal_block (j : journal F) (i : Z) : option bytes :=
  match (if m_in_transaction (j_tx j) then m_uncommitted_block_positions (j_tx j) !! i else None) with
  | Some p => Some (log_block j p)
  | None =>
    match m_block_positions (j_committed j) !! i with
    | Some p => Some (log_block j p)
    | None => None
    end
  end.

(** The content of block [i] in the database file. *)
Definition db_block (g : geometry) t (i : Z) : bytes :=
  if (0 <=? i) && (i <? m_dbfile_size t)
  then slice (i * g_block_size g) (g_block_size g) (file_data (m_dbfd t))
  else zeros (g_block_size g).

Definition tx_block (g : geometry) t (i : Z) : bytes :=
  match journal_block (m_journal t) i with Some d => d | None => db_block g t i end.

Definition bounded_writes (n : Z) (cur : option (list (Z * bytes))) : Prop :=
  match cur with Some ws => Forall (fun w => 0 <= w.1 < n) ws | None => True end.

Record tx_repr (g : geometry) t (txs : list tx) (cur : option (list (Z * bytes))) : Prop := {
  x_journal : represents (m_journal t) txs cur;
  x_bs : m_database_block_size (m_journal t) = g_block_size g;
  x_db : 0 <= m_dbfile_size t /\ zlen (file_data (m_dbfd t)) = m_dbfile_size t * g_block_size g /\
    zlen (file_data (m_dbfd t)) < 2 ^ 64;
  x_grown : m_dbfile_size t <= default (m_dbfile_size t) (replay txs).2 <= m_size t;
  x_room : zlen (encode_log (g_block_size g) txs) + 10 + (N + 1) * (9 + g_block_size g) < 2 ^ 64;
  x_limit : 0 <= m_size t <= N /\ N < invalid_value;
  x_bounded : bounded_writes (m_size t) cur
}.

Lemma points_block j m c i :
  points (log_bytes (j_log j)) (m_database_block_size j) m c ->
  match m !! i with Some p => Some (log_block j p) | None => @None bytes end = c !! i.
Proof.
  intros Hp. specialize (Hp i). destruct (m !! i), (c !! i); try done.
  destruct Hp as (_ & _ & <-). done.
Qed.

Lemma journal_block_lookup j txs cur i :
  represents j txs cur -> journal_block j i = lookup_block txs cur i.
Proof.
  intros Hr. destruct (log_extends _ _ _ Hr) as [rest Hlog].
  pose proof (points_extend _ rest _ _ _ (r_points _ _ _ Hr)) as Hp. rewrite <- Hlog in Hp.
  apply (points_block _ _ _ i) in Hp. unfold journal_block. rewrite Hp.
  destruct cur as [ws|]; cbn [lookup_block].
  - pose proof (running_points _ _ _ Hr) as Hu. apply (points_block _ _ _ i) in Hu.
    destruct (r_cur _ _ _ Hr) as (_ & _ & _ & Htx & _). rewrite Htx in *. cbn [m_in_transaction m_uncommitted_block_positions] in *.
    rewrite <- Hu. by destruct (apply_all _ _ !! i).
  - destruct (r_cur _ _ _ Hr) as (Htx & _). by rewrite Htx.
Qed.

Lemma bounded_length (l : list Z) n :
  NoDup l -> Forall (fun k => 0 <= k < n) l -> zlen l <= Z.max 0 n.
Proof.
  intros Hn Hl. assert (l ⊆+ seqZ 0 n) as Hs.
  { apply NoDup_submseteq; [done|]. intros k Hk. rewrite Forall_forall in Hl.
    apply elem_of_seqZ. specialize (Hl k Hk). lia. }
  apply submseteq_length in Hs. rewrite length_seqZ in Hs. lia.
Qed.

Lemma lookup_block_length bs txs cur i d :
  Forall (wf_tx bs) txs ->
  match cur with Some ws => Forall (wf_write bs) ws | None => True end ->
  lookup_block txs cur i = Some d -> zlen d = bs.
Proof.
  intros Htxs Hcur Hd. pose proof (proj1 (replay_wf bs txs Htxs)) as Hc. destruct cur as [ws|]; cbn in Hd.
  - destruct (apply_all ws ∅ !! i) eqn:He; simplify_eq.
    + apply (apply_all_wf bs ws ∅ Hcur) in He; [apply He|]. intros ? ?. by rewrite lookup_empty.
    + by apply Hc in Hd as [_ ?].
  - by apply Hc in Hd as [_ ?].
Qed.

Lemma running_wf j txs cur : represents j txs cur ->
  match cur with Some ws => Forall (wf_write (m_database_block_size j)) ws | None => True end.
Proof.
  intros Hr. destruct cur; [|done]. by destruct (r_cur _ _ _ Hr) as (_ & _ & ? & _).
Qed.

Lemma length_tx_block g t txs cur i :
  wf_geometry g -> tx_repr g t txs cur -> zlen (tx_block g t i) = g_block_size g.
Proof.
  intros Hg Hr. destruct (geometry_pos g Hg) as (Hb & _). pose proof (x_journal _ _ _ _ Hr) as Hj.
  pose proof (running_wf _ _ _ Hj) as Hws. pose proof (r_txs _ _ _ Hj) as Htxs.
  rewrite (x_bs _ _ _ _ Hr) in *. unfold tx_block.
  rewrite (journal_block_lookup _ _ _ i Hj). destruct (lookup_block txs cur i) as [d|] eqn:Hd.
  - by eapply lookup_block_length.
  - destruct (x_db _ _ _ _ Hr) as (? & ? & ?). unfold db_block.
    destruct ((0 <=? i) && (i <? m_dbfile_size t)) eqn:Hi; [apply length_slice; nia|].
    apply length_zeros. lia.
Qed.

Lemma wp_journal_call {A} (m : M (journal F) A) t Q :
  wp m (m_journal t) (fun a j => Q a (set_journal j t)) -> wp (journal_call m) t Q.
Proof. apply wp_zoom. Qed.
Lemma wp_dbfd_call {A} (m : M D A) t Q :
  wp m (m_dbfd t) (fun a d => Q a (set_dbfd d t)) -> wp (dbfd_call m) t Q.
Proof. apply wp_zoom. Qed.
Lemma set_journal_id t : set_journal (m_journal t) t = t.
Proof. by destruct t. Qed.

Lemma lookup_set_write txs ws i d k : NoDup ws.*1 ->
  lookup_block txs (Some (set_write ws i d)) k =
  if decide (k = i) then Some d else lookup_block txs (Some ws) k.
Proof.
  intros Hn. cbn. rewrite apply_all_set_write by done. case_decide as Hk; [subst k|].
  - by rewrite lookup_insert_eq.
  - by rewrite lookup_insert_ne.
Qed.

(** A new journal with more writes leaves room for the rest. *)
Lemma writes_room g t txs ws :
  wf_geometry g -> tx_repr g t txs (Some ws) ->
  m_log_size (j_log (m_journal t)) + 9 + g_block_size g < 2 ^ 64.
Proof.
  intros Hg Hr. destruct (geometry_pos g Hg) as (Hb & _). pose proof (x_journal _ _ _ _ Hr) as Hj.
  rewrite (represents_length _ _ _ Hj). unfold log_length. cbn [fst snd].
  destruct (r_cur _ _ _ Hj) as (_ & Hn & Hws & _).
  rewrite (x_bs _ _ _ _ Hr) in *. rewrite (length_encode_writes (g_block_size g)) by done.
  pose proof (bounded_length ws.*1 (m_size t) Hn) as Hlen. premise Hlen.
  { apply Forall_fmap. exact (x_bounded _ _ _ _ Hr). }
  rewrite length_fmap in Hlen. pose proof (x_room _ _ _ _ Hr). pose proof (x_limit _ _ _ _ Hr). nia.
Qed.

Lemma tx_write_running g t txs ws i d :
  wf_geometry g -> tx_repr g t txs (Some ws) -> 0 <= i < m_size t -> zlen d = g_block_size g ->
  wp (journal_call (Journal.write i d)) t (fun _ t' => exists j, t' = set_journal j t /\
    tx_repr g t' txs (Some (set_write ws i d)) /\ JournalSpec.same_config j (m_journal t)).
Proof.
  intros Hg Hr Hi Hd. pose proof (writes_room g t txs ws Hg Hr) as Hroom.
  destruct Hr as [Hj Hbs Hdb Hgr Hro Hlim Hbnd]. apply wp_journal_call.
  eapply wp_mono; [apply write_represents; [done| |by rewrite Hbs]|].
  { split; cbn [fst snd]; [lia|congruence]. }
  cbn beta. intros _ j (Hj' & Hc). exists j. split_and!; [done| |done].
  split; try done; cbn [set_journal m_journal m_dbfd m_dbfile_size].
  - by rewrite (proj1 Hc).
  - cbn in *. clear -Hbnd Hi. induction Hbnd as [|w ws Hw Hws IH]; cbn; [by apply Forall_singleton|].
    destruct (w.1 =? i); by constructor.
Qed.

Lemma tx_write_spec g t txs cur i d :
  wf_geometry g -> m_transaction_started t = true -> tx_repr g t txs cur ->
  Journal.m_read_only (m_journal t) = false -> 0 <= i < m_size t -> zlen d = g_block_size g ->
  wp (tx_do_write g i d) t (fun _ t' => exists j, t' = set_journal j t /\
    tx_repr g t' txs (Some (set_write (default [] cur) i d)) /\
    JournalSpec.same_config j (m_journal t)).
Proof.
  intros Hg Hst Hr Hro Hi Hd. unfold tx_do_write. do 4 wp_step. do 2 wp_step.
  pose proof (x_journal _ _ _ _ Hr) as Hj. destruct (geometry_pos g Hg) as (Hb & _).
  unfold in_transaction. wp_step. destruct cur as [ws|]; cbn [default].
  - destruct (running_begin _ _ _ Hj) as (_ & -> & _). cbn [negb]. wp_step.
    by apply tx_write_running.
  - destruct (r_cur _ _ _ Hj) as (-> & _). cbn [negb m_in_transaction no_transaction].
    apply wp_journal_call. pose proof (represents_length _ _ _ Hj) as Hlen.
    rewrite (x_bs _ _ _ _ Hr) in Hlen. unfold log_length in Hlen. cbn [fst snd] in Hlen.
    pose proof (x_room _ _ _ _ Hr). pose proof (x_limit _ _ _ _ Hr).
    eapply wp_mono; [apply begin_represents; [done| |nia]|].
    { by rewrite <- (r_read_only _ _ _ Hj). }
    cbn beta. intros _ j1 (Hj1 & [Hc1 Hc2] & _).
    eapply wp_mono; [apply (tx_write_running g _ txs []); try done|].
    + destruct Hr. split; try done; cbn; [congruence|constructor].
    + cbn beta. intros _ ? (j2 & -> & Hr2 & [Hc3 Hc4]). exists j2. split_and!; [done|done|].
      cbn in *. split; congruence.
Qed.

Lemma tx_block_write g t txs cur i d j k :
  tx_repr g t txs cur -> tx_repr g (set_journal j t) txs (Some (set_write (default [] cur) i d)) ->
  tx_block g (set_journal j t) k = if decide (k = i) then d else tx_block g t k.
Proof.
  intros Hr Hr'. pose proof (x_journal _ _ _ _ Hr) as Hj. pose proof (x_journal _ _ _ _ Hr') as Hj'.
  cbn [set_journal m_journal] in Hj'. unfold tx_block. cbn [set_journal m_journal].
  rewrite (journal_block_lookup _ _ _ k Hj), (journal_block_lookup _ _ _ k Hj').
  assert (NoDup (default [] cur).*1 /\
    lookup_block txs (Some (default [] cur)) k = lookup_block txs cur k) as [Hn Hl].
  { destruct cur as [ws|]; cbn [default].
    - by destruct (r_cur _ _ _ Hj) as (_ & ? & _).
    - split; [constructor|]. cbn. by rewrite lookup_empty. }
  rewrite lookup_set_write, Hl by done. by case_decide.
Qed.

Lemma tx_read_spec g t txs cur i :
  wf_geometry g -> m_transaction_started t = true -> tx_repr g t txs cur -> 0 <= i < m_size t ->
  wp (tx_do_read g i) t (fun d t' => d = tx_block g t i /\ t' = t).
Proof.
  intros Hg Hst Hr Hi. unfold tx_do_read. do 4 wp_step. pose proof (x_journal _ _ _ _ Hr) as Hj.
  destruct (geometry_pos g Hg) as (Hb & Hp & Hk). pose proof (x_limit _ _ _ _ Hr).
  wp_step. apply wp_journal_call. eapply wp_mono; [apply read_represents; [done|lia]|]. cbn beta.
  intros r j [-> ->]. rewrite set_journal_id. unfold tx_block.
  rewrite (journal_block_lookup _ _ _ i Hj). destruct (lookup_block txs cur i) as [d|]; [by wp_steps|].
  do 2 wp_step. unfold db_block. rewrite (proj2 (Z.leb_le 0 i)) by lia. cbn [andb].
  destruct (x_db _ _ _ _ Hr) as (Hd0 & Hd1 & Hd2).
  destruct (Z.ltb_spec i (m_dbfile_size t)); [|by wp_steps].
  rewrite Z.shiftl_mul_pow2, <- Hp by done. rewrite wrap_small by (unfold is_word; nia).
  apply wp_dbfd_call. eapply wp_mono; [apply file_read_spec; nia|]. cbn beta.
  intros d' ? [-> ->]. split; [done|]. by destruct t.
Qed.

(** The virtual functions keep the committed transactions [txs] and all
    members but the journal. *)
Definition tx_inv (txs : list tx) (t0 : T) (g : geometry) t : Prop :=
  wf_geometry g /\ m_transaction_started t = true /\ set_journal (m_journal t) t0 = t /\
  exists cur, tx_repr g t txs cur.

#[local] Obligation Tactic := idtac.
Program Definition tx_backend_spec (txs : list tx) (t0 : T) : BackendSpec T := {|
  be_inv := tx_inv txs t0;
  be_writable := fun t => Journal.m_read_only (m_journal t) = false;
  be_fails := fun _ => False;
  be_in := fun _ t i => 0 <= i < m_size t;
  be_block := tx_block
|}.
Next Obligation.
  intros txs t0 g t i (Hg & _ & _ & cur & Hr) _. by eapply length_tx_block.
Qed.
Next Obligation.
  intros txs t0 g t i (Hg & Hst & Hf & cur & Hr) Hi keep. apply wp_wpx.
  eapply wp_mono; [by eapply tx_read_spec|]. cbn beta. intros d ? [-> ->]. split; [done|].
  split_and!; try done. by split_and!; [..|exists cur].
Qed.
Next Obligation.
  intros txs t0 g t i d (Hg & Hst & Hf & cur & Hr) Hw Hi Hd upd. apply wp_wpx.
  eapply wp_mono; [by eapply tx_write_spec|]. cbn beta. intros _ ? (j & -> & Hr' & [_ Hc]).
  split_and!; try done.
  - split_and!; try done; [by rewrite <- Hf|by eexists].
  - intros k. by eapply tx_block_write.
  - cbn in *. congruence.
Qed.
End tx_backend_spec.

(** ** The engine *)

Section tx_engine_spec.
Context {F D : Type} `{FileSpec F} `{FileSpec D}.
Context `{!Malloc (tx_state F D), !MallocSpec (tx_state F D)}.
Context (N : Z).
Abbreviation T := (tx_state F D).
Abbreviation E := (engine_base T).
Implicit Types (s : E) (t : T) (i : Z) (X : Z -> Prop) (txs : list tx).

Definition cache_inv X txs s : Prop :=
  @inv_except T tx_backend (tx_backend_spec N txs (backend s)) X s.

(** The content of block [i] as clients see it. *)
Definition content s i : bytes :=
  match m_blocks s !! i with Some blk => m_data blk | None => tx_block (m_geo s) (backend s) i end.

(** The content of block [i] after the transactions [txs]. *)
Definition committed (g : geometry) txs t i : bytes :=
  match (replay txs).1 !! i with Some d => d | None => db_block g t i end.
Definition committed_size txs t : Z := default (m_dbfile_size t) (replay txs).2.

Definition pins s (n : Z) : Prop :=
  exists P : gset Z, (forall i, i ∈ P <-> is_Some (pinned_data s i)) /\ n = Z.of_nat (base.size P).

(** During a transaction; [X] are pinned blocks without contents yet. *)
Record running_inv X txs s : Prop := {
  e_cache : cache_inv X txs s;
  e_pins : pins s (m_pinned_blocks (backend s))
}.

(** What stays the same while a transaction runs. *)
Record same_members s s' : Prop := {
  sm_geo : m_geo s' = m_geo s;
  sm_read_only : EngineBase.m_read_only s' = EngineBase.m_read_only s;
  sm_dbfd : m_dbfd (backend s') = m_dbfd (backend s);
  sm_dbfile_size : m_dbfile_size (backend s') = m_dbfile_size (backend s);
  sm_size : m_size (backend s') = m_size (backend s)
}.

Lemma cache_frame X txs t0 s :
  @inv_except T tx_backend (tx_backend_spec N txs t0) X s ->
  cache_inv X txs s /\ tx_inv N txs t0 (m_geo s) (backend s).
Proof.
  intros Hinv. assert (tx_inv N txs t0 (m_geo s) (backend s)) as Ht by apply Hinv. split; [|done].
  destruct Ht as (? & ? & _ & ?). destruct Hinv. split; try done. split_and!; try done.
  by destruct (backend s).
Qed.

(** Everything a cache operation leaves alone. *)
Lemma cache_members X txs s s' :
  @inv_except T tx_backend (tx_backend_spec N txs (backend s)) X s' ->
  @EngineBase.same_config T tx_backend (tx_backend_spec N txs (backend s)) s s' ->
  cache_inv X txs s' /\ same_members s s' /\
  m_pinned_blocks (backend s') = m_pinned_blocks (backend s) /\
  m_transaction_started (backend s') = m_transaction_started (backend s).
Proof.
  intros Hinv Hcfg. apply cache_frame in Hinv as [Hinv (_ & _ & Hf & _)]. split; [done|].
  pose proof (f_equal m_dbfd Hf). pose proof (f_equal m_dbfile_size Hf).
  pose proof (f_equal m_size Hf). pose proof (f_equal m_pinned_blocks Hf).
  pose proof (f_equal m_transaction_started Hf). destruct Hcfg. by split; [split|].
Qed.

(** A change of the members other than the journal. *)
Lemma cache_inv_update X txs s t' :
  cache_inv X txs s -> tx_inv N txs t' (m_geo s) t' ->
  m_journal t' = m_journal (backend s) -> m_dbfd t' = m_dbfd (backend s) ->
  m_dbfile_size t' = m_dbfile_size (backend s) -> m_size (backend s) <= m_size t' ->
  cache_inv X txs (set_backend t' s).
Proof.
  intros Hinv Ht Hj Hd Hds Hsz. destruct Hinv. split; try done.
  - intros Hro. cbn. rewrite Hj. by apply i_writable.
  - intros i blk Hi Hp. specialize (i_in i blk Hi Hp). cbn in *. lia.
  - intros i blk Hi Hn HX. rewrite (i_clean i blk Hi Hn HX). unfold stored. cbn.
    unfold tx_block, db_block. by rewrite Hj, Hd, Hds.
Qed.

Lemma pins_insert s s' i d n :
  pins s n -> pinned_data s i = None -> pinned_data s' i = Some d ->
  (forall j, j <> i -> pinned_data s' j = pinned_data s j) -> pins s' (n + 1).
Proof.
  intros (P & HP & ->) Hn Hs Ho. assert (i ∉ P) as Hi.
  { rewrite HP, Hn. by intros [? ?]. }
  exists ({[i]} ∪ P). split.
  - intros j. rewrite elem_of_union, elem_of_singleton, HP. destruct (decide (j = i)) as [->|Hne].
    + rewrite Hs. split; [by eexists|by left].
    + rewrite Ho by done. naive_solver.
  - rewrite size_union by set_solver. rewrite size_singleton. lia.
Qed.

Lemma pins_delete s s' i d n :
  pins s n -> pinned_data s i = Some d ->
  (forall j, pinned_data s' j = if decide (j = i) then None else pinned_data s j) ->
  0 < n /\ pins s' (n - 1).
Proof.
  intros (P & HP & ->) Hs Ho. assert (i ∈ P) as Hi by (rewrite HP, Hs; by eexists).
  assert (base.size P = S (base.size (P ∖ {[i]}))) as Hsz.
  { rewrite (union_difference_singleton_L i P Hi) at 1.
    rewrite size_union by set_solver. by rewrite size_singleton. }
  split; [lia|]. exists (P ∖ {[i]}). split; [|lia].
  intros j. rewrite elem_of_difference, elem_of_singleton, HP, Ho. case_decide; [|naive_solver].
  split; [by intros [_ ?]|by intros [? ?]].
Qed.

Lemma pins_same s s' n : pins s n -> (forall j, pinned_data s' j = pinned_data s j) -> pins s' n.
Proof. intros (P & HP & ->) Hs. exists P. split; [|done]. intros i. by rewrite HP, Hs. Qed.

Lemma pins_zero s i : pins s 0 -> pinned_data s i = None.
Proof.
  intros (P & HP & Hz). destruct (pinned_data s i) eqn:Hi; [|done].
  assert (i ∈ P) as Hin by (rewrite HP, Hi; by eexists).
  assert (base.size P = 0%nat) as Hz' by lia. apply size_empty_inv in Hz'. set_solver.
Qed.

(** *** Access to blocks *)

Lemma running_started X txs s : running_inv X txs s ->
  m_transaction_started (backend s) = true /\ wf_geometry (m_geo s) /\
  exists cur, tx_repr N (m_geo s) (backend s) txs cur.
Proof. intros [Hc _]. destruct (i_be _ _ Hc) as (? & ? & _ & ?). done. Qed.

(** The number of pinned blocks is small. *)
Lemma pins_bound X txs s n : cache_inv X txs s -> pins s n -> 0 <= n <= N.
Proof.
  intros Hc (P & HP & ->). destruct (i_be _ _ Hc) as (_ & _ & _ & cur & Hr).
  pose proof (bounded_length (elements P) (m_size (backend s)) (NoDup_elements P)) as Hl.
  premise Hl.
  - apply Forall_forall. intros i Hi%elem_of_elements. apply HP in Hi as [d Hd].
    unfold pinned_data in Hd. destruct (m_blocks s !! i) as [[d' p]|] eqn:Hb; [|done].
    destruct p; [|done]. exact (i_in _ _ Hc _ _ Hb (or_introl eq_refl)).
  - pose proof (x_limit _ _ _ _ _ Hr). change (base.size P) with (length (elements P)). lia.
Qed.

Lemma wp_members {A} (m : M T A) s Q :
  wp m (backend s) (fun a t => Q a (set_backend t s)) -> wp (members m) s Q.
Proof. apply wp_zoom. Qed.

(** Changing the counter of pinned blocks. *)
Lemma set_pins_spec X txs s n :
  cache_inv X txs s -> pins s n -> running_inv X txs
    (set_backend (set_pinned_blocks (u64 n) (backend s)) s).
Proof.
  intros Hc Hp. pose proof (pins_bound _ _ _ _ Hc Hp) as Hn.
  destruct (i_be _ _ Hc) as (Hg & Hst & _ & cur & Hr). pose proof (x_limit _ _ _ _ _ Hr).
  split.
  - apply cache_inv_update; try done. split_and!; try done. exists cur. by destruct Hr.
  - cbn. rewrite wrap_small by (unfold is_word, invalid_value, u64_max in *; lia). exact Hp.
Qed.

Lemma tx_pin_spec txs s i (init : bool) :
  running_inv (fun _ => False) txs s -> 0 <= i < m_size (backend s) -> pinned_data s i = None ->
  wp (pin i init) s (fun _ s' => exists d,
    running_inv (fun j => init = false /\ j = i) txs s' /\ same_members s s' /\
    m_blocks s' !! i = Some (Block d true) /\ zlen d = g_block_size (m_geo s) /\
    (init = true -> d = content s i) /\
    forall j, j <> i -> content s' j = content s j /\ pinned_data s' j = pinned_data s j).
Proof.
  intros Hrun Hi Hp. destruct (running_started _ _ _ Hrun) as (Hst & Hg & cur & Hr).
  destruct Hrun as [Hc Hpins]. unfold pin. do 2 wp_step. do 2 wp_step; [by rewrite Hst|].
  do 2 wp_step.
  wp_step. apply wpx_wp. eapply wpx_mono.
  { by apply (pin_spec (H0 := tx_backend_spec N txs (backend s)) s i init). }
  2:{ intros e s' [[] _]. }
  cbn beta. intros _ s' (d & Hinv & [Hcfg Hd Hl Ho] & Hlen & Hinit & _). apply wp_wpx.
  apply cache_members in Hinv as (Hinv & Hm & Hn & _); [|done].
  apply wp_members. wp_step. exists d.
  assert (pinned_data s' i = Some d) as Hd' by (unfold pinned_data; by rewrite Hd).
  split_and!; try done.
  - rewrite Hn. apply set_pins_spec; [done|]. by eapply pins_insert.
  - by destruct Hm.
  - intros j Hj. split; [|by apply Ho]. exact (Hl j Hj).
Qed.

Lemma tx_unpin_spec txs s i d :
  running_inv (fun _ => False) txs s -> m_blocks s !! i = Some (Block d true) ->
  wp (unpin i) s (fun _ s' => running_inv (fun _ => False) txs s' /\ same_members s s' /\
    (forall j, content s' j = content s j) /\
    (forall j, pinned_data s' j = if decide (j = i) then None else pinned_data s j)).
Proof.
  intros Hrun Hi. destruct Hrun as [Hc Hpins]. unfold unpin. do 2 wp_step.
  assert (pinned_data s i = Some d) as Hd by (unfold pinned_data; by rewrite Hi).
  do 2 wp_step. { destruct (pins_delete s (set_blocks (delete i (m_blocks s)) s) i d _ Hpins Hd) as [? _]; [|lia].
    intros j. unfold pinned_data. cbn. case_decide; subst; [by rewrite lookup_delete_eq|by rewrite lookup_delete_ne]. }
  wp_step. eapply wp_mono.
  { by apply (unpin_spec (H0 := tx_backend_spec N txs (backend s)) s i d). }
  cbn beta. intros _ s' (Hinv & Hcfg & Hl & Ho).
  apply cache_members in Hinv as (Hinv & Hm & Hn & _); [|done].
  apply wp_members. wp_step. destruct (pins_delete s s' i d _ Hpins Hd Ho) as [_ Hpins'].
  split_and!; try done.
  - rewrite Hn. by apply set_pins_spec.
  - by destruct Hm.
Qed.

(** The steps of [engine::overwrite]. *)
Lemma tx_store_dirty_spec txs s i d f :
  running_inv (fun j => j = i) txs s -> EngineBase.m_read_only s = false ->
  m_blocks s !! i = Some (Block d true) -> length (f d) = length d ->
  wp (store i f ;;; dirty i) s (fun _ s' => running_inv (fun _ => False) txs s' /\
    same_members s s' /\ m_blocks s' !! i = Some (Block (f d) true) /\
    forall j, j <> i -> content s' j = content s j /\ pinned_data s' j = pinned_data s j).
Proof.
  intros [Hc Hpins] Hro Hi Hlen. wp_step. eapply wp_mono.
  { by apply (store_spec (H0 := tx_backend_spec N txs (backend s)) (fun j => j = i) s i d f); [..|right|]. }
  cbn beta. intros _ s1 (Hinv1 & [Hcfg1 Hd1 Hl1 Ho1] & _).
  eapply wp_mono.
  { apply (dirty_spec (H0 := tx_backend_spec N txs (backend s)) s1 i (f d)); try done.
    by rewrite (k_read_only _ _ Hcfg1). }
  cbn beta. intros _ s2 (Hinv2 & _ & [Hcfg2 Hl2 Ho2] & Hb2).
  assert (@EngineBase.same_config T tx_backend (tx_backend_spec N txs (backend s)) s s2) as Hcfg by (by etrans).
  apply cache_members in Hinv2 as (Hinv2 & Hm & Hn & _); [|done].
  assert (forall j, pinned_data s2 j = if decide (j = i) then Some (f d) else pinned_data s j) as Hps.
  { intros j. rewrite Ho2. case_decide; subst; [unfold pinned_data; by rewrite Hd1|by apply Ho1]. }
  split_and!; [|done|by rewrite Hb2|].
  - split; [done|]. rewrite Hn. destruct Hpins as (P & HP & ->). exists P. split; [|done].
    intros j. rewrite HP, Hps. case_decide; [subst|done].
    unfold pinned_data. rewrite Hi. split; intros _; by eexists.
  - intros j Hj. split; [|by rewrite Hps, decide_False].
    transitivity (content s1 j); [exact (Hl2 j)|exact (Hl1 j Hj)].
Qed.

(** *** Transactions *)

(** Between transactions, as if one was running. *)
Definition live s : E := set_backend (set_started true (backend s)) s.

Record idle_inv txs s : Prop := {
  d_running : running_inv (fun _ => False) txs (live s);
  d_stopped : m_transaction_started (backend s) = false;
  d_repr : tx_repr N (m_geo s) (backend s) txs None;
  d_clean : m_dirty s = [];
  d_pins : m_pinned_blocks (backend s) = 0
}.

Lemma tx_repr_members g t t' txs cur :
  tx_repr N g t txs cur -> m_journal t' = m_journal t -> m_dbfd t' = m_dbfd t ->
  m_dbfile_size t' = m_dbfile_size t -> m_size t <= m_size t' <= N ->
  tx_repr N g t' txs cur.
Proof.
  intros [Hj Hbs Hdb Hgr Hro Hlim Hbnd] H1' H2' H3' H4'.
  split; rewrite ?H1', ?H2', ?H3'; try done; try lia.
  destruct cur as [ws|]; [|done]. cbn in *. eapply Forall_impl; [exact Hbnd|]. cbn. lia.
Qed.

Lemma tx_begin_spec txs s : idle_inv txs s ->
  wp begin s (fun _ s' => s' = live s /\ running_inv (fun _ => False) txs s').
Proof.
  intros [Hrun Hst _ _ Hp]. unfold begin. do 2 wp_step. do 2 wp_step.
  do 2 wp_step. apply wp_members. by wp_step.
Qed.

Lemma tx_grow_spec txs s n :
  running_inv (fun _ => False) txs s -> 0 <= n -> m_size (backend s) + n <= N ->
  wp (grow n) s (fun _ s' =>
    s' = set_backend (set_size (m_size (backend s) + n) (backend s)) s /\
    running_inv (fun _ => False) txs s').
Proof.
  intros Hrun Hn Hsz. destruct (running_started _ _ _ Hrun) as (Hst & Hg & cur & Hr).
  pose proof (x_limit _ _ _ _ _ Hr) as Hlim. unfold invalid_value, u64_max in Hlim.
  unfold grow. do 2 wp_step. do 2 wp_step; [by rewrite Hst|].
  rewrite checked_add_spec, (proj2 (Z.ltb_lt _ _)) by (unfold is_word; lia). do 2 wp_step.
  apply wp_members. wp_step. split; [done|]. destruct Hrun as [Hc Hp]. split; [|exact Hp].
  apply cache_inv_update; try done; [|cbn; lia]. split_and!; try done. exists cur.
  eapply tx_repr_members; try done. cbn. lia.
Qed.

(** Replacing the journal and the database below a clean cache. *)
Lemma cache_inv_replace txs txs' s t' :
  cache_inv (fun _ => False) txs s -> m_dirty s = [] -> (forall i, pinned_data s i = None) ->
  tx_inv N txs' t' (m_geo s) t' ->
  (EngineBase.m_read_only s = false -> Journal.m_read_only (m_journal t') = false) ->
  (forall i, is_Some (m_blocks s !! i) -> tx_block (m_geo s) t' i = tx_block (m_geo s) (backend s) i) ->
  cache_inv (fun _ => False) txs' (set_backend t' s).
Proof.
  intros Hc Hd Hp Ht Hro Hb. destruct Hc. split; try done.
  - intros i [d p] Hi [Hpin|Hin]; exfalso.
    + cbn in Hpin. subst p. specialize (Hp i). unfold pinned_data in Hp. cbn in Hi. by rewrite Hi in Hp.
    + cbn in Hin. rewrite Hd in Hin. by apply not_elem_of_nil in Hin.
  - intros i blk Hi Hn HX. rewrite (i_clean i blk Hi Hn HX). unfold stored. cbn. symmetry. apply Hb. by eexists.
Qed.

(** What a commit adds to the journal. *)
Lemma apply_all_bounded ws n i d :
  Forall (fun w : Z * bytes => 0 <= w.1 < n) ws -> apply_all ws ∅ !! i = Some d -> 0 <= i < n.
Proof.
  intros Hws Hd. destruct (decide (i ∈ ws.*1)) as [Hi|Hi].
  - apply list_elem_of_fmap in Hi as (w & -> & Hw). rewrite Forall_forall in Hws. by apply Hws.
  - by rewrite apply_all_notin, lookup_empty in Hd.
Qed.

Lemma replay_bounded bs txs n i d :
  Forall (wf_tx bs) txs -> match (replay txs).2 with Some m => m <= n | None => True end ->
  (replay txs).1 !! i = Some d -> 0 <= i < n.
Proof.
  intros Hwf Hm Hd. destruct (replay txs).2 as [m|] eqn:Hs.
  - destruct (proj2 (replay_wf bs txs Hwf) m Hs) as [_ Hb]. apply Hb in Hd. lia.
  - destruct txs as [|t txs _] using rev_ind; [cbn in Hd; by rewrite lookup_empty in Hd|].
    unfold replay in Hs. by rewrite foldl_app in Hs.
Qed.

Lemma lookup_commit bs txs ws n i :
  Forall (wf_tx bs) txs -> Forall (fun w => 0 <= w.1 < n) ws -> n < invalid_value ->
  match (replay txs).2 with Some m => m <= n | None => True end ->
  lookup_block (txs ++ [Tx ws n]) None i = lookup_block txs (Some ws) i.
Proof.
  intros Hwf Hws Hn Hm. cbn. unfold replay at 1. rewrite foldl_app. fold (replay txs).
  cbn [foldl replay_tx fst t_writes t_size]. rewrite lookup_in_range, apply_all_empty, lookup_union.
  destruct (apply_all ws ∅ !! i) as [d|] eqn:Hu.
  - apply (apply_all_bounded ws n) in Hu; [|done]. rewrite index_ltb_valid, (proj2 (Z.ltb_lt _ _)) by lia.
    by destruct ((replay txs).1 !! i).
  - destruct ((replay txs).1 !! i) as [d|] eqn:Hr; [|by destruct (index_ltb i n)].
    apply (replay_bounded bs txs n) in Hr; [|done..].
    by rewrite index_ltb_valid, (proj2 (Z.ltb_lt _ _)) by lia.
Qed.

Lemma content_committed g t txs i :
  tx_repr N g t txs None -> tx_block g t i = committed g txs t i.
Proof.
  intros Hr. unfold tx_block, committed.
  by rewrite (journal_block_lookup _ _ _ i (x_journal _ _ _ _ _ Hr)).
Qed.

Lemma commit_log_length g t txs ws n :
  wf_geometry g -> tx_repr N g t txs (Some ws) ->
  zlen (encode_log (g_block_size g) (txs ++ [Tx ws n])) <=
    zlen (encode_log (g_block_size g) txs) + 10 + N * (9 + g_block_size g).
Proof.
  intros Hg Hr. destruct (geometry_pos g Hg) as (Hb & _). pose proof (x_journal _ _ _ _ _ Hr) as Hj.
  destruct (r_cur _ _ _ Hj) as (_ & Hn & Hws & _). rewrite (x_bs _ _ _ _ _ Hr) in Hws.
  pose proof (bounded_length ws.*1 (m_size t) Hn) as Hlen. premise Hlen.
  { apply Forall_fmap. exact (x_bounded _ _ _ _ _ Hr). }
  rewrite length_fmap in Hlen. pose proof (x_limit _ _ _ _ _ Hr).
  rewrite encode_log_app. unfold encode_tx. cbn [t_writes t_size].
  rewrite !length_app, !Nat2Z.inj_add, length_encode_header, length_encode_commit.
  rewrite (length_encode_writes (g_block_size g)) by done. nia.
Qed.

Lemma idle_intro txs s t' :
  cache_inv (fun _ => False) txs (set_backend (set_started true t') s) -> m_dirty s = [] ->
  tx_repr N (m_geo s) t' txs None -> m_pinned_blocks t' = 0 -> (forall i, pinned_data s i = None) ->
  idle_inv txs (set_backend (set_started false t') s).
Proof.
  intros Hc Hd Hr Hp Hn. split; try done; [|by eapply tx_repr_members; try done; pose proof (x_limit _ _ _ _ _ Hr); cbn; lia].
  split; [exact Hc|]. cbn. rewrite Hp. exists ∅. split; [|done]. intros i.
  rewrite elem_of_empty. split; [done|]. change (pinned_data (live _) i) with (pinned_data s i).
  rewrite Hn. by intros [? ?].
Qed.

(** The journal after a commit, behind the same cache. *)
Lemma commit_journal_spec txs s ws :
  cache_inv (fun _ => False) txs s -> tx_repr N (m_geo s) (backend s) txs (Some ws) ->
  m_dirty s = [] -> (forall i, pinned_data s i = None) -> m_pinned_blocks (backend s) = 0 ->
  let bs := g_block_size (m_geo s) in
  zlen (encode_log bs txs) + 2 * (10 + (N + 1) * (9 + bs)) < 2 ^ 64 ->
  wp (members (journal_call (Journal.commit (m_size (backend s)))) ;;;
      members (modify (set_started false))) s (fun _ s' =>
    let txs' := txs ++ [Tx ws (m_size (backend s))] in
    exists j, s' = set_backend (set_started false (set_journal j (backend s))) s /\
      idle_inv txs' s' /\
      forall i, tx_block (m_geo s) (backend s') i = tx_block (m_geo s) (backend s) i).
Proof.
  intros Hc Hr Hd Hn Hp bs Hroom. destruct (i_be _ _ Hc) as (Hg & Hst & _ & _).
  pose proof (writes_room N _ _ _ _ Hg Hr) as Hlog. pose proof (x_limit _ _ _ _ _ Hr) as Hlim.
  destruct (geometry_pos _ Hg) as (Hb & _). pose proof (x_journal _ _ _ _ _ Hr) as Hj.
  pose proof (commit_log_length _ _ _ _ (m_size (backend s)) Hg Hr) as Hlen.
  wp_step. apply wp_members, wp_journal_call.
  eapply wp_mono; [apply commit_represents; [done|lia|lia]|]. cbn beta.
  intros _ j (Hj' & [Hc1 Hc2] & _). apply wp_members. wp_step. exists j. split; [done|].
  set (n := m_size (backend s)) in *.
  assert (forall i, tx_block (m_geo s) (set_journal j (backend s)) i = tx_block (m_geo s) (backend s) i) as Hblock.
  { intros i. unfold tx_block. cbn [set_journal m_journal].
    rewrite (journal_block_lookup _ _ _ i Hj), (journal_block_lookup _ _ _ i Hj').
    rewrite (lookup_commit (m_database_block_size (m_journal (backend s)))); try done; [apply Hj|apply Hr|lia|].
    pose proof (x_grown _ _ _ _ _ Hr) as Hgr. destruct (replay txs).2; [cbn in Hgr; lia|done]. }
  assert (tx_repr N (m_geo s) (set_journal j (backend s)) (txs ++ [Tx ws n]) None) as Hr'.
  { destruct Hr as [_ Hbs Hdb Hgr Hro _ _]. split; try done; cbn [set_journal m_journal m_dbfile_size m_dbfd m_size].
    - congruence.
    - unfold replay. rewrite foldl_app. cbn. fold n. lia.
    - fold bs in Hlen |- *. lia. }
  split; [|exact Hblock]. apply (idle_intro _ s); try done.
  apply (cache_inv_replace txs); try done.
  - split_and!; try done. exists None. eapply tx_repr_members; try done. cbn. lia.
  - intros Hro. cbn. rewrite Hc2. by apply (i_writable _ _ Hc).
  - intros i _. exact (Hblock i).
Qed.

Lemma content_replace s t' i :
  tx_block (m_geo s) t' i = tx_block (m_geo s) (backend s) i -> content (set_backend t' s) i = content s i.
Proof. intros Ht. unfold content. cbn. by rewrite Ht. Qed.

(** Nothing was written to the journal. *)
Lemma stop_spec txs s :
  cache_inv (fun _ => False) txs s -> tx_repr N (m_geo s) (backend s) txs None ->
  m_dirty s = [] -> (forall i, pinned_data s i = None) -> m_pinned_blocks (backend s) = 0 ->
  idle_inv txs (set_backend (set_started false (backend s)) s).
Proof.
  intros Hc Hr Hd Hn Hp. destruct (i_be _ _ Hc) as (Hg & Hst & _ & _).
  apply idle_intro; try done. apply cache_inv_update; try done. split_and!; try done.
  exists None. eapply tx_repr_members; try done. pose proof (x_limit _ _ _ _ _ Hr). cbn. lia.
Qed.

Lemma tx_commit_spec txs s :
  let bs := g_block_size (m_geo s) in
  running_inv (fun _ => False) txs s -> m_pinned_blocks (backend s) = 0 ->
  zlen (encode_log bs txs) + 2 * (10 + (N + 1) * (9 + bs)) < 2 ^ 64 ->
  wp commit s (fun _ s' => exists txs', idle_inv txs' s' /\ same_members s s' /\
    (txs' = txs \/ exists ws, txs' = txs ++ [Tx ws (m_size (backend s))]) /\
    zlen (encode_log bs txs') <= zlen (encode_log bs txs) + 10 + N * (9 + bs) /\
    (forall i, content s' i = content s i) /\
    (forall i, committed (m_geo s) txs' (backend s') i = content s i)).
Proof.
  intros bs Hrun Hp Hroom. destruct (running_started _ _ _ Hrun) as (Hst & Hg & _).
  destruct Hrun as [Hc Hpins]. rewrite Hp in Hpins.
  unfold commit. do 2 wp_step. do 2 wp_step; [by rewrite Hst|]. do 2 wp_step.
  wp_step. apply wpx_wp. eapply wpx_mono.
  { by apply (flush_spec (H0 := tx_backend_spec N txs (backend s)) s). }
  2:{ intros e s' [[] _]. }
  cbn beta. intros _ s1 (Hinv1 & [Hcfg Hl Ho] & Hd1 & Hb1 & _ & Hst1). apply wp_wpx.
  apply cache_members in Hinv1 as (Hc1 & Hm & Hn & Hs1); [|done].
  assert (forall i, pinned_data s1 i = None) as Hnp by (intros i; rewrite Ho; by apply pins_zero).
  destruct (i_be _ _ Hc1) as (Hg1 & _ & _ & cur & Hr1). rewrite Hp in Hn.
  pose proof (sm_geo _ _ Hm) as Hgeo. unfold bs in *. rewrite <- Hgeo in *.
  assert (forall i, content s1 i = content s i) as Hcont by exact Hl.
  assert (forall i, tx_block (m_geo s1) (backend s1) i = content s i) as Hstored by exact Hst1.
  pose proof (x_limit _ _ _ _ _ Hr1) as Hlim. destruct (geometry_pos _ Hg1) as (Hb & _).
  do 2 wp_step. pose proof (x_journal _ _ _ _ _ Hr1) as Hj. unfold in_transaction.
  destruct cur as [ws|].
  - destruct (running_begin _ _ _ Hj) as (_ & -> & _).
    eapply wp_mono; [by apply (commit_journal_spec txs s1 ws)|].
    cbn beta zeta. intros _ s' (j & -> & Hidle & Hblock). eexists. split; [exact Hidle|].
    cbn [set_backend backend] in Hblock. split_and!.
    + by destruct Hm.
    + right. exists ws. by rewrite (sm_size _ _ Hm).
    + by apply (commit_log_length _ _ _ _ _ Hg1 Hr1).
    + intros i. rewrite content_replace by done. apply Hcont.
    + intros i. pose proof (content_committed _ _ _ i (d_repr _ _ Hidle)) as Hci.
      cbn [set_backend backend m_geo] in *. by rewrite <- Hci, Hblock.
  - destruct (r_cur _ _ _ Hj) as (-> & _). cbn [m_in_transaction no_transaction].
    wp_step. wp_step. apply wp_members. wp_step. exists txs. split_and!.
    + by apply stop_spec.
    + by destruct Hm.
    + by left.
    + nia.
    + intros i. rewrite content_replace by done. apply Hcont.
    + intros i. etrans; [symmetry; exact (content_committed _ _ _ i Hr1)|apply Hstored].
Qed.

Lemma discard_uncommitted_spec txs l : forall s,
  cache_inv (fun _ => False) txs s -> m_dirty s = [] -> (forall i, pinned_data s i = None) ->
  Forall (fun e : Z * Z => 0 <= e.1 < invalid_value) l ->
  wp (discard_uncommitted l) s (fun _ s' => cache_inv (fun _ => False) txs s' /\
    same_members s s' /\ backend s' = backend s /\ m_dirty s' = [] /\
    forall i, m_blocks s' !! i = if decide (i ∈ l.*1) then None else m_blocks s !! i).
Proof.
  induction l as [|[k p] l IH]; intros s Hc Hd Hn Hl; cbn [discard_uncommitted].
  - wp_steps. split_and!; try done.
  - apply Forall_cons in Hl as [Hk Hl]. cbn [fst] in Hk. do 2 wp_step.
    { unfold index_valid. destruct (Z.eqb_spec k invalid_value); [lia|done]. }
    wp_step. eapply wp_mono.
    { by apply (discard_spec (H0 := tx_backend_spec N txs (backend s)) s k). }
    cbn beta. intros _ s1 (Hinv1 & Hcfg & Hbe & Hb1 & Hd1).
    apply cache_members in Hinv1 as (Hc1 & Hm1 & _); [|done].
    rewrite Hd in Hd1. eapply wp_mono; [apply IH; try done|].
    + intros i. unfold pinned_data. rewrite Hb1. specialize (Hn i). unfold pinned_data in Hn.
      destruct (decide (i = k)) as [->|]; [by rewrite lookup_delete_eq|by rewrite lookup_delete_ne].
    + cbn beta. intros _ s2 (Hc2 & Hm2 & Hbe2 & Hd2 & Hb2). split_and!; try done.
      * destruct Hm1, Hm2. split; congruence.
      * congruence.
      * intros i. rewrite Hb2, Hb1, fmap_cons. cbn [fst]. destruct (decide (i ∈ l.*1)).
        -- by rewrite decide_True by (by right).
        -- destruct (decide (i = k)) as [->|].
           ++ rewrite decide_True by left. apply lookup_delete_eq.
           ++ rewrite decide_False by (intros [?|?]%elem_of_cons; done). by apply lookup_delete_ne.
Qed.

Lemma is_Some_apply_all {A B} (l : list (Z * A)) (m : list (Z * B)) i :
  l.*1 = m.*1 -> is_Some (apply_all l ∅ !! i) <-> is_Some (apply_all m ∅ !! i).
Proof.
  intros Hk. assert (forall C (l : list (Z * C)), is_Some (apply_all l ∅ !! i) <-> i ∈ l.*1) as Hin.
  { intros C l0. destruct (decide (i ∈ l0.*1)) as [Hi|Hi].
    - split; [done|]. intros _. induction l0 as [|[k c] l0 IH] using rev_ind; [by apply not_elem_of_nil in Hi|].
      rewrite apply_all_snoc. destruct (decide (k = i)) as [->|Hne]; [rewrite lookup_insert_eq; by eexists|].
      rewrite lookup_insert_ne by done. apply IH. rewrite fmap_app in Hi. set_solver.
    - rewrite apply_all_notin, lookup_empty by done. split; [by intros [? ?]|done]. }
  by rewrite !Hin, Hk.
Qed.

Lemma uncommitted_keys j txs ws i : @represents F _ j txs (Some ws) ->
  i ∈ (sorted_entries (m_uncommitted_block_positions (j_tx j))).*1 <-> is_Some (apply_all ws ∅ !! i).
Proof.
  intros Hr. destruct (r_cur _ _ _ Hr) as (_ & _ & _ & -> & _). rewrite sorted_entries_keys. cbn.
  apply is_Some_apply_all, positions_keys.
Qed.

(** The journal after an abort, behind a cache without the blocks that were
    written to it. *)
Lemma abort_journal_spec txs s ws :
  cache_inv (fun _ => False) txs s -> tx_repr N (m_geo s) (backend s) txs (Some ws) ->
  m_dirty s = [] -> (forall i, pinned_data s i = None) ->
  wp (iterate_uncommitted ;;; members (journal_call Journal.abort)) s (fun _ s' =>
    cache_inv (fun _ => False) txs s' /\ same_members s s' /\ m_dirty s' = [] /\
    (forall i, pinned_data s' i = None) /\ m_pinned_blocks (backend s') = m_pinned_blocks (backend s) /\
    tx_repr N (m_geo s') (backend s') txs None).
Proof.
  intros Hc Hr Hd Hn. pose proof (x_journal _ _ _ _ _ Hr) as Hj.
  destruct (i_be _ _ Hc) as (Hg & Hst & _ & _). pose proof (x_limit _ _ _ _ _ Hr) as Hlim.
  destruct (running_begin _ _ _ Hj) as (_ & Hin & _). wp_step. unfold iterate_uncommitted. do 4 wp_step.
  eapply wp_mono; [apply (discard_uncommitted_spec txs); try done|].
  - apply Forall_forall. intros [k p] Hk. cbn.
    assert (k ∈ (sorted_entries (m_uncommitted_block_positions (j_tx (m_journal (backend s))))).*1) as Hk'.
    { apply list_elem_of_fmap. by exists (k, p). }
    apply (uncommitted_keys _ _ _ _ Hj) in Hk' as [d Hk'].
    apply (apply_all_bounded ws (m_size (backend s))) in Hk'; [lia|]. exact (x_bounded _ _ _ _ _ Hr).
  - cbn beta. intros _ s1 (Hc1 & Hm1 & Hbe & Hd1 & Hb1). apply wp_members, wp_journal_call.
    rewrite Hbe. eapply wp_mono; [by eapply abort_represents|]. cbn beta. intros _ j (Hj' & [Hc2 Hc3]).
    assert (tx_repr N (m_geo s) (set_journal j (backend s)) txs None) as Hr'.
    { destruct Hr. split; try done. cbn. congruence. }
    assert (forall i, pinned_data s1 i = None) as Hn1.
    { intros i. specialize (Hn i). unfold pinned_data in *. rewrite Hb1. by case_decide. }
    split_and!; try done; [|by destruct Hm1; split|by rewrite <- (sm_geo _ _ Hm1) in Hr'].
    apply (cache_inv_replace txs); try done.
    + rewrite (sm_geo _ _ Hm1). split_and!; try done. by exists None.
    + intros Hro. cbn. rewrite Hc3. apply (i_writable _ _ Hc). by rewrite <- (sm_read_only _ _ Hm1).
    + intros i [blk Hi]. rewrite Hbe. unfold tx_block. cbn [set_journal m_journal].
      rewrite (journal_block_lookup _ _ _ i Hj), (journal_block_lookup _ _ _ i Hj').
      rewrite Hb1 in Hi. destruct (decide (i ∈ _)) as [|Hk]; [done|].
      rewrite (uncommitted_keys _ _ _ _ Hj) in Hk. cbn.
      destruct (apply_all ws ∅ !! i); [by destruct Hk|done].
Qed.

(** Between transactions clients see what was committed. *)
Lemma idle_content txs s i : idle_inv txs s -> content s i = committed (m_geo s) txs (backend s) i.
Proof.
  intros Hi. rewrite <- content_committed by apply Hi. unfold content.
  destruct (m_blocks s !! i) as [blk|] eqn:Hb; [|done].
  refine (i_clean _ _ (e_cache _ _ _ (d_running _ _ Hi)) i blk Hb _ id).
  change (m_dirty (live s)) with (m_dirty s). rewrite (d_clean _ _ Hi). apply not_elem_of_nil.
Qed.

Lemma tx_rollback_spec txs s :
  running_inv (fun _ => False) txs s -> m_pinned_blocks (backend s) = 0 ->
  wp rollback s (fun _ s' => idle_inv txs s' /\ m_geo s' = m_geo s /\
    EngineBase.m_read_only s' = EngineBase.m_read_only s /\
    m_dbfd (backend s') = m_dbfd (backend s) /\ m_dbfile_size (backend s') = m_dbfile_size (backend s) /\
    m_size (backend s') = committed_size txs (backend s) /\
    (forall i, content s' i = committed (m_geo s) txs (backend s) i)).
Proof.
  intros Hrun Hp. destruct (running_started _ _ _ Hrun) as (Hst & Hg & _).
  destruct Hrun as [Hc Hpins]. rewrite Hp in Hpins.
  unfold rollback. do 2 wp_step. do 2 wp_step; [by rewrite Hst|]. do 2 wp_step. wp_step.
  eapply wp_mono.
  { apply (discard_dirty_spec (H0 := tx_backend_spec N txs (backend s)) s); [done|].
    intros i _. by apply pins_zero. }
  cbn beta. intros _ s1 (Hinv1 & Hcfg & Hbe & Hd1 & Ho & _).
  apply cache_members in Hinv1 as (Hc1 & Hm & Hn & Hs1); [|done].
  assert (forall i, pinned_data s1 i = None) as Hnp by (intros i; rewrite Ho; by apply pins_zero).
  destruct (i_be _ _ Hc1) as (Hg1 & _ & _ & cur & Hr1). do 2 wp_step. wp_step.
  eapply wp_mono with (Q := fun _ s2 =>
    cache_inv (fun _ => False) txs s2 /\ same_members s1 s2 /\ m_dirty s2 = [] /\
    (forall i, pinned_data s2 i = None) /\ m_pinned_blocks (backend s2) = m_pinned_blocks (backend s1) /\
    tx_repr N (m_geo s2) (backend s2) txs None).
  { pose proof (x_journal _ _ _ _ _ Hr1) as Hj. unfold in_transaction. destruct cur as [ws|].
    - destruct (running_begin _ _ _ Hj) as (_ & -> & _). by eapply abort_journal_spec.
    - destruct (r_cur _ _ _ Hj) as (-> & _). cbn [m_in_transaction no_transaction]. wp_step. by split_and!. }
  cbn beta. intros _ s2 (Hc2 & Hm2 & Hd2 & Hn2 & Hp2 & Hr2).
  wp_step. apply wp_members. wp_step. apply wp_members. wp_step.
  destruct (i_be _ _ Hc2) as (Hg2 & Hst2 & _ & _). pose proof (x_grown _ _ _ _ _ Hr2) as Hgr.
  pose proof (x_db _ _ _ _ _ Hr2) as Hdb. pose proof (x_limit _ _ _ _ _ Hr2) as Hlim.
  set (n := default (m_dbfile_size (backend s2)) _).
  assert (n = default (m_dbfile_size (backend s2)) (replay txs).2) as Hnn.
  { unfold n. cbn. by rewrite (r_size _ _ _ (x_journal _ _ _ _ _ Hr2)). }
  assert (tx_repr N (m_geo s2) (set_size n (backend s2)) txs None) as Hr3.
  { destruct Hr2. split; try done; cbn; lia. }
  assert (idle_inv txs (set_backend (set_started false (set_size n (backend s2))) s2)) as Hidle.
  { apply idle_intro; try done; [|cbn; congruence]. apply (cache_inv_replace txs); try done.
    - split_and!; try done. exists None. eapply tx_repr_members; try done. cbn. lia.
    - exact (i_writable _ _ Hc2). }
  pose proof (f_equal m_dbfd Hbe). pose proof (f_equal m_dbfile_size Hbe).
  destruct Hm as [Hg3 Hro3 Hdb3 Hds3 Hsz3], Hm2 as [Hg4 Hro4 Hdb4 Hds4 Hsz4].
  split_and!; try done; cbn; try congruence.
  - rewrite Hnn. unfold committed_size. congruence.
  - intros i. etrans; [exact (idle_content _ _ i Hidle)|]. unfold committed, db_block. cbn. by rewrite Hg4, Hg3, Hds4, Hds3, Hdb4, Hdb3.
Qed.

(** *** Checkpoints *)

Lemma slice_zeros off n m : 0 <= off -> 0 <= n -> off + n <= m -> slice off n (zeros m) = zeros n.
Proof.
  intros. unfold slice, zeros. rewrite drop_replicate, take_replicate. f_equal. lia.
Qed.

(** The database file takes over the blocks of the journal. *)
Lemma db_block_checkpointed g t txs d' j' n i :
  wf_geometry g -> tx_repr N g t txs None -> (replay txs).2 = Some n ->
  checkpointed (g_block_size g) n (replay txs).1 (file_data (m_dbfd t)) (file_data d') ->
  db_block g (set_dbfile_size n (set_dbfd d' (set_journal j' t))) i = committed g txs t i.
Proof.
  intros Hg Hr Hn [Hl Hs]. destruct (geometry_pos g Hg) as (Hb & _).
  destruct (x_db _ _ _ _ _ Hr) as (Hd0 & Hd1 & _). pose proof (x_grown _ _ _ _ _ Hr) as Hgr.
  rewrite Hn in Hgr. cbn in Hgr. pose proof (r_txs _ _ _ (x_journal _ _ _ _ _ Hr)) as Hwf.
  rewrite (x_bs _ _ _ _ _ Hr) in Hwf. destruct (proj2 (replay_wf _ _ Hwf) n Hn) as [_ Hc].
  unfold committed, db_block. cbn [set_dbfile_size set_dbfd m_dbfile_size m_dbfd].
  destruct ((0 <=? i) && (i <? n)) eqn:Hi.
  - rewrite Hs by lia. destruct ((replay txs).1 !! i) as [b|]; [done|].
    rewrite resize_grow by nia. destruct (Z.ltb_spec i (m_dbfile_size t)).
    + rewrite (proj2 (Z.leb_le 0 i)) by lia. cbn [andb]. apply slice_app_l; nia.
    + rewrite andb_false_r. rewrite slice_app_r by nia. apply slice_zeros; nia.
  - destruct ((replay txs).1 !! i) as [b|] eqn:Hci; [apply Hc in Hci; lia|].
    destruct ((0 <=? i) && (i <? m_dbfile_size t)) eqn:Hi2; [lia|done].
Qed.

Lemma after_checkpoint txs s j' d' :
  let n := m_size (backend s) in
  let t' := set_dbfile_size n (set_dbfd d' (set_journal j' (backend s))) in
  idle_inv txs s -> (replay txs).2 = Some n -> represents j' [] None ->
  m_database_block_size j' = g_block_size (m_geo s) -> Journal.m_read_only j' = false ->
  checkpointed (g_block_size (m_geo s)) n (replay txs).1
    (file_data (m_dbfd (backend s))) (file_data d') ->
  idle_inv [] (set_backend t' s) /\ forall i, content (set_backend t' s) i = content s i.
Proof.
  intros n t' Hidle Hn Hj Hbs Hjro Hcp. pose proof (d_repr _ _ Hidle) as Hr.
  pose proof (e_cache _ _ _ (d_running _ _ Hidle)) as Hc.
  pose proof (i_be _ _ Hc) as (Hg & _). cbn in Hg. destruct (geometry_pos _ Hg) as (Hb & _).
  pose proof (x_limit _ _ _ _ _ Hr) as Hlim. pose proof (x_room _ _ _ _ _ Hr) as Hroom.
  pose proof (length_encode_log (g_block_size (m_geo s)) txs) as Hll.
  assert (forall i, pinned_data s i = None) as Hnp.
  { intros i. pose proof (e_pins _ _ _ (d_running _ _ Hidle)) as Hp. cbn in Hp.
    rewrite (d_pins _ _ Hidle) in Hp. exact (pins_zero _ i Hp). }
  assert (forall i, tx_block (m_geo s) t' i = tx_block (m_geo s) (backend s) i) as Hblock.
  { intros i. rewrite (content_committed _ _ _ i Hr). unfold tx_block. cbn [t' m_journal set_dbfile_size set_dbfd set_journal].
    rewrite (journal_block_lookup _ _ _ i Hj). cbn. rewrite lookup_empty.
    by apply (db_block_checkpointed _ _ txs). }
  assert (tx_repr N (m_geo s) t' [] None) as Hr'.
  { assert (zlen (encode_log (g_block_size (m_geo s)) []) <= zlen (encode_log (g_block_size (m_geo s)) txs)) as Hle.
    { unfold encode_log. cbn [map concat]. rewrite app_nil_r, length_app. lia. }
    destruct Hcp as [Hl _]. split; try done; cbn; fold n; try lia. rewrite Hl. nia. }
  assert (t' = set_started false t') as Hst.
  { unfold t', set_started. cbn. by rewrite <- (d_stopped _ _ Hidle). }
  split; [|intros i; by apply content_replace]. rewrite Hst.
  apply idle_intro; try done; [|exact (d_clean _ _ Hidle)|exact (d_pins _ _ Hidle)].
  apply (cache_inv_replace txs [] (live s)); try done; [exact (d_clean _ _ Hidle)| |intros i _; exact (Hblock i)].
  split_and!; try done. exists None. eapply tx_repr_members; try done. cbn. lia.
Qed.

Lemma tx_checkpoint_spec txs s :
  idle_inv txs s -> file_read_only (m_dbfd (backend s)) = false ->
  Journal.m_read_only (m_journal (backend s)) = false ->
  committed_size txs (backend s) = m_size (backend s) ->
  wp checkpoint s (fun _ s' => idle_inv [] s' /\ m_geo s' = m_geo s /\
    EngineBase.m_read_only s' = EngineBase.m_read_only s /\
    m_size (backend s') = m_size (backend s) /\ committed_size [] (backend s') = m_size (backend s) /\
    file_read_only (m_dbfd (backend s')) = false /\
    Journal.m_read_only (m_journal (backend s')) = false /\
    (forall i, content s' i = content s i)).
Proof.
  intros Hidle Hdro Hjro Hsz. pose proof (d_repr _ _ Hidle) as Hr.
  pose proof (e_cache _ _ _ (d_running _ _ Hidle)) as Hc.
  pose proof (i_be _ _ Hc) as (Hg & _). cbn in Hg. pose proof (x_journal _ _ _ _ _ Hr) as Hj.
  pose proof (x_limit _ _ _ _ _ Hr) as Hlim. pose proof (x_room _ _ _ _ _ Hr) as Hroom.
  destruct (geometry_pos _ Hg) as (Hb & _). pose proof (x_db _ _ _ _ _ Hr) as Hdb.
  unfold checkpoint. do 2 wp_step. do 2 wp_step; [apply Hidle|]. do 2 wp_step.
  do 2 wp_step. { by rewrite <- (r_read_only _ _ _ Hj). }
  unfold has_committed_changes. rewrite (r_size _ _ _ Hj). destruct (replay txs).2 as [n|] eqn:Hn.
  - assert (n = m_size (backend s)) as -> by (unfold committed_size in Hsz; by rewrite Hn in Hsz).
    cbn [negb]. destruct (r_cur _ _ _ Hj) as (Htx & _). do 2 wp_step.
    { unfold in_transaction. by rewrite Htx. }
    do 2 wp_step. { by rewrite bool_decide_eq_true_2. }
    wp_step. apply wp_members, (wp_zoom (fun t => (m_journal t, m_dbfd t))).
    eapply wp_mono; [apply (checkpoint_spec _ _ txs (m_size (backend s))); try done|]; rewrite ?(x_bs _ _ _ _ _ Hr).
    + pose proof (length_encode_log (g_block_size (m_geo s)) txs). nia.
    + lia.
    + cbn beta. intros ch [j' d'] (Hj' & [Hc1 Hc2] & Hdro' & Hcp & _). cbn [fst snd] in *.
      apply wp_members. wp_step.
      destruct (after_checkpoint txs s j' d' Hidle Hn Hj') as [Hidle' Hcont]; [by rewrite Hc1, ?(x_bs _ _ _ _ _ Hr)|by rewrite Hc2|done|].
      split_and!; try done. cbn. congruence.
  - cbn [negb]. wp_step. assert (txs = []) as ->; [|by split_and!].
    destruct txs as [|t txs _] using rev_ind; [done|]. unfold replay in Hn. by rewrite foldl_app in Hn.
Qed.
End tx_engine_spec.
End transaction_engine.
