(* ===== verification/TxSessions.v ===== *)
(** * Sessions of the transaction engine

    The transaction engine of TransactionEngine.v simulates an abstract
    database: committed contents, contents as the running transaction sees
    them, and transactions that end with a commit, a rollback or a crash. *)

From Stdlib Require Import Strings.Byte.
From S2P Require Import Prelude MathOps Blocks Files EngineBase Handles Journal JournalLog JournalSpec Recovery.
From S2P Require Import Checkpoint TransactionEngine.
Import transaction_engine.

Section open_spec.
Context {F D : Type} `{FileSpec F} `{FileSpec D}.
Context `{!Malloc (tx_state F D), !MallocSpec (tx_state F D)}.
Context (N : Z).

Lemma empty_cache_inv txs (t : tx_state F D) g max pooled ro :
  tx_inv N txs t g t -> Journal.m_read_only (m_journal t) = ro -> 
  cache_inv N (fun _ => False) txs (EngineBase t g max pooled ro [] ∅ [] [] (Stats 0 0 0)).
Proof.
  intros Ht Hro. split; try done; try apply Ht.
  - cbn. congruence.
  - constructor.
  - intros i. split; [by intros ?%not_elem_of_nil|by intros [d ?]].
  - constructor.
  - by intros i ?%not_elem_of_nil.
  - by left.
Qed.

(** Opening the files of a database whose journal holds [txs]. *)
Lemma open_spec (d : D) (f : F) bs cache_blocks buffer_size txs n :
  is_u32 bs -> is_pow2 32 bs = true -> 0 <= cache_blocks < 2 ^ 64 -> 0 < buffer_size < 2 ^ 32 ->
  journal_file bs txs (file_data f) -> file_read_only f = false -> zlen (file_data f) < 2 ^ 64 ->
  Forall (wf_tx bs) txs ->
  zlen (file_data d) = n * bs -> zlen (file_data d) < 2 ^ 64 -> 0 <= n ->
  n <= default n (replay txs).2 <= N -> N < invalid_value ->
  zlen (encode_log bs txs) + 10 + (N + 1) * (9 + bs) < 2 ^ 64 ->
  exists s, open_engine d f bs cache_blocks buffer_size = Ok s /\ idle_inv N txs s /\
    g_block_size (m_geo s) = bs /\ m_dbfd (backend s) = d /\ m_dbfile_size (backend s) = n /\
    m_size (backend s) = default n (replay txs).2 /\
    EngineBase.m_read_only s = false /\ Journal.m_read_only (m_journal (backend s)) = false.
Proof.
  intros Hbs Hp2 Hcache Hbuf Hf Hro Hfl Hwf Hd Hdl Hn Hgr HN Hroom.
  pose proof (make_geometry_spec bs Hbs) as Hg. unfold make_geometry in Hg. rewrite Hp2 in Hg.
  destruct (log2 32 bs) as [l|] eqn:Hl; [|destruct Hg as [_ []]; by apply is_pow2_spec].
  destruct Hg as [Hg _]. destruct (geometry_pos _ Hg) as (Hb & _). cbn in Hb.
  destruct (make_journal_opens f bs buffer_size txs) as (j & Hm & Hj & Hjb & Hjro); [done..|].
  unfold open_engine. rewrite Hm. unfold make_engine_base. rewrite Hl, Hp2.
  rewrite file_size_spec, Hd, Z.mod_mul, Z.div_mul by lia. cbn [negb andb Z.eqb].
  rewrite (r_size _ _ _ Hj). eexists. split; [done|].
  assert (forall b, tx_repr N (Geometry bs l (u32 (bs - 1)))
    (TxState d j 0 n b (default n (replay txs).2)) txs None) as Hr.
  { intros b. split; try done; cbn; try lia. }
  split; [|split_and!; done]. split; try done; [|apply Hr]. split.
  - apply empty_cache_inv; [|by rewrite Hro]. split_and!; try done. exists None. apply Hr.
  - exists ∅. split; [|done]. intros i. rewrite elem_of_empty. split; [done|].
    unfold pinned_data. cbn. by intros [? ?].
Qed.
End open_spec.

(** ** The abstract database *)

(** Committed contents and size; contents and size that clients see. *)
Record adb : Type := Adb {
  a_committed : Z -> bytes;
  a_csize : Z;
  a_blocks : Z -> bytes;
  a_size : Z;
  a_started : bool
}.

Inductive top : Set :=
| TBegin
| TCommit
| TRollback
| TCheckpoint
| TGrow (n : Z)
| TRead (index : Z)
| TWrite (index : Z) (data : bytes).

Definition update (f : Z -> bytes) (i : Z) (d : bytes) : Z -> bytes :=
  fun j => if decide (j = i) then d else f j.

(** A commit of a transaction that wrote no block does not commit the size
    ([step_commit_empty]). *)
Inductive tstep (a : adb) : top -> option bytes -> adb -> Prop :=
| step_begin : tstep a TBegin None (Adb (a_committed a) (a_csize a) (a_blocks a) (a_size a) true)
| step_read i : tstep a (TRead i) (Some (a_blocks a i)) a
| step_write i d : tstep a (TWrite i d) None
    (Adb (a_committed a) (a_csize a) (update (a_blocks a) i d) (a_size a) (a_started a))
| step_grow n : tstep a (TGrow n) None
    (Adb (a_committed a) (a_csize a) (a_blocks a) (a_size a + n) (a_started a))
| step_commit : tstep a TCommit None (Adb (a_blocks a) (a_size a) (a_blocks a) (a_size a) false)
| step_commit_empty : (forall i, a_blocks a i = a_committed a i) ->
    tstep a TCommit None (Adb (a_committed a) (a_csize a) (a_blocks a) (a_size a) false)
| step_rollback : tstep a TRollback None
    (Adb (a_committed a) (a_csize a) (a_committed a) (a_csize a) false)
| step_checkpoint : tstep a TCheckpoint None a.

(** When an operation may be called: [bs] is the block size, [N] the bound on
    the size of the database. *)
Definition allowed (bs N : Z) (a : adb) (o : top) : Prop :=
  match o with
  | TBegin => a_started a = false
  | TCheckpoint => a_started a = false /\ a_csize a = a_size a
  | TCommit | TRollback => a_started a = true
  | TGrow n => a_started a = true /\ 0 <= n /\ a_size a + n <= N
  | TRead i => a_started a = true /\ 0 <= i < a_size a
  | TWrite i d => a_started a = true /\ 0 <= i < a_size a /\ zlen d = bs
  end.

Fixpoint safe (bs N : Z) (a : adb) (ops : list top) : Prop :=
  match ops with
  | [] => True
  | o :: ops => allowed bs N a o /\ forall r a', tstep a o r a' -> safe bs N a' ops
  end.

Inductive tsteps : adb -> list top -> list (option bytes) -> adb -> Prop :=
| tsteps_nil a : tsteps a [] [] a
| tsteps_cons a o r a' ops rs a'' :
    tstep a o r a' -> tsteps a' ops rs a'' -> tsteps a (o :: ops) (r :: rs) a''.

Section sessions.
Context {F D : Type} `{FileSpec F} `{FileSpec D}.
Context `{!Malloc (tx_state F D), !MallocSpec (tx_state F D)}.
Abbreviation E := (engine_base (tx_state F D)).
Implicit Types (s : E).

(** [engine::read] and [engine::overwrite] with handles that are dropped at
    once. *)
Definition read_block (i : Z) : M E bytes :=
  do_pin i true ;;;
  let* d := gets (fun s => default [] (pinned s i)) in
  do_unpin i ;;;
  ret d.
Definition write_block (i : Z) (data : bytes) : M E unit :=
  do_pin i false ;;;
  (store_pinned i (fun _ => data) ;;; do_dirty i) ;;;
  do_unpin i.

Definition top_run (o : top) : M E (option bytes) :=
  match o with
  | TBegin => begin ;;; ret None
  | TCommit => commit ;;; ret None
  | TRollback => rollback ;;; ret None
  | TCheckpoint => checkpoint ;;; ret None
  | TGrow n => do_grow n ;;; ret None
  | TRead i => let* d := read_block i in ret (Some d)
  | TWrite i d => write_block i d ;;; ret None
  end.

Fixpoint tops_run (ops : list top) : M E (list (option bytes)) :=
  match ops with
  | [] => ret []
  | o :: ops => let* r := top_run o in let* rs := tops_run ops in ret (r :: rs)
  end.

Context (N : Z).

(** Room in the log for [k] more transactions. *)
Definition log_room (bs : Z) (txs : list tx) (k : nat) : Prop :=
  zlen (encode_log bs txs) + (Z.of_nat k + 1) * (10 + (N + 1) * (9 + bs)) < 2 ^ 64.

Record simulates (bs : Z) (k : nat) (txs : list tx) (s : E) (a : adb) : Prop := {
  s_state : if a_started a
    then running_inv N (fun _ => False) txs s /\ m_pinned_blocks (backend s) = 0
    else idle_inv N txs s;
  s_bs : g_block_size (m_geo s) = bs;
  s_writable : EngineBase.m_read_only s = false /\
    Journal.m_read_only (m_journal (backend s)) = false /\ file_read_only (m_dbfd (backend s)) = false;
  s_committed : forall i, committed (m_geo s) txs (backend s) i = a_committed a i;
  s_csize : committed_size txs (backend s) = a_csize a;
  s_blocks : forall i, content s i = a_blocks a i;
  s_size : m_size (backend s) = a_size a;
  s_room : log_room bs txs k
}.

Lemma running_mono txs s (X Y : Z -> Prop) :
  running_inv N X txs s -> (forall i, X i -> Y i) -> running_inv N Y txs s.
Proof.
  intros [Hc Hp] HXY. split; [|done]. split; try apply Hc. intros i blk Hi Hnd HY.
  apply (i_clean _ _ Hc); auto.
Qed.

Lemma no_pins txs s :
  running_inv N (fun _ => False) txs s -> (forall i, pinned_data s i = None) ->
  m_pinned_blocks (backend s) = 0.
Proof.
  intros [_ (P & HP & ->)] Hn. assert (P = ∅) as ->; [|done].
  apply set_eq. intros i. rewrite HP, Hn. split; [by intros [? ?]|by intros ?%elem_of_empty].
Qed.

Lemma running_unpinned txs s i :
  running_inv N (fun _ => False) txs s -> m_pinned_blocks (backend s) = 0 -> pinned_data s i = None.
Proof. intros Hrun Hp. apply pins_zero. rewrite <- Hp. apply (e_pins _ _ _ _ Hrun). Qed.

Lemma same_members_trans s1 s2 s3 : same_members s1 s2 -> same_members s2 s3 -> same_members s1 s3.
Proof. intros [] []. split; congruence. Qed.

(** The unpin at the end of an access. *)
Lemma unpin_last txs s s1 i d :
  running_inv N (fun _ => False) txs s -> m_pinned_blocks (backend s) = 0 ->
  running_inv N (fun _ => False) txs s1 -> m_blocks s1 !! i = Some (Block d true) ->
  (forall j, j <> i -> pinned_data s1 j = pinned_data s j) ->
  wp (unpin i) s1 (fun _ s' => running_inv N (fun _ => False) txs s' /\
    m_pinned_blocks (backend s') = 0 /\ same_members s1 s' /\ forall j, content s' j = content s1 j).
Proof.
  intros Hrun Hp Hrun1 Hd Ho. eapply wp_mono; [by eapply (tx_unpin_spec N txs)|]. cbn beta.
  intros _ s' (Hrun' & Hm & Hc & Hps). split_and!; try done. eapply no_pins; [done|].
  intros j. rewrite Hps. case_decide; [done|]. rewrite Ho by done. by eapply running_unpinned.
Qed.

Lemma tx_read_block_spec txs s i :
  running_inv N (fun _ => False) txs s -> m_pinned_blocks (backend s) = 0 ->
  0 <= i < m_size (backend s) ->
  wp (read_block i) s (fun d s' => d = content s i /\
    running_inv N (fun _ => False) txs s' /\ m_pinned_blocks (backend s') = 0 /\
    same_members s s' /\ forall j, content s' j = content s j).
Proof.
  intros Hrun Hp Hi. pose proof (running_unpinned _ _ i Hrun Hp) as Hpi.
  unfold read_block. wp_step. eapply wp_mono; [by apply (tx_pin_spec N txs)|]. cbn beta.
  intros _ s1 (d & Hrun1 & Hm1 & Hd1 & _ & Hd & Ho).
  apply (running_mono _ _ _ (fun _ => False)) in Hrun1; [|by intros j [? _]].
  do 3 wp_step. cbn [pinned tx_impl]. eapply wp_mono; [eapply (unpin_last txs s s1); [done..|by apply Ho]|]. cbn beta.
  intros _ s' (Hrun' & Hp' & Hm & Hc). wp_step. unfold pinned_data. rewrite Hd1.
  split_and!; try done; [by apply Hd|by eapply same_members_trans|].
  intros j. rewrite Hc. destruct (decide (j = i)) as [->|Hne]; [|by apply Ho].
  unfold content at 1. rewrite Hd1. by apply Hd.
Qed.

Lemma write_block_spec txs s i d :
  running_inv N (fun _ => False) txs s -> m_pinned_blocks (backend s) = 0 ->
  EngineBase.m_read_only s = false -> 0 <= i < m_size (backend s) -> zlen d = g_block_size (m_geo s) ->
  wp (write_block i d) s (fun _ s' =>
    running_inv N (fun _ => False) txs s' /\ m_pinned_blocks (backend s') = 0 /\
    same_members s s' /\ forall j, content s' j = update (content s) i d j).
Proof.
  intros Hrun Hp Hro Hi Hl. pose proof (running_unpinned _ _ i Hrun Hp) as Hpi.
  unfold write_block. wp_step. eapply wp_mono; [by apply (tx_pin_spec N txs)|]. cbn beta.
  intros _ s1 (d1 & Hrun1 & Hm1 & Hd1 & Hl1 & _ & Ho1).
  apply (running_mono _ _ _ (fun j => j = i)) in Hrun1; [|by intros j [_ ?]].
  wp_step. eapply wp_mono; [apply (tx_store_dirty_spec N txs s1 i d1 (fun _ => d)); try done|].
  { by rewrite (sm_read_only _ _ Hm1). }
  { lia. }
  cbn beta. intros _ s2 (Hrun2 & Hm2 & Hd2 & Ho2).
  eapply wp_mono; [eapply (unpin_last txs s s2); [done..|]|].
  { intros j Hj. etrans; [by apply Ho2|by apply Ho1]. }
  cbn beta. intros _ s' (Hrun' & Hp' & Hm & Hc). split_and!; try done.
  { eapply same_members_trans; [done|]. by eapply same_members_trans. }
  intros j. rewrite Hc. unfold update. destruct (decide (j = i)) as [->|Hne].
  - unfold content. by rewrite Hd2.
  - etrans; [by apply Ho2|by apply Ho1].
Qed.

Lemma simulates_bounds bs k txs s a :
  simulates bs k txs s a -> 0 <= N /\ 0 < bs < 2 ^ 32 /\ Forall (wf_tx bs) txs.
Proof.
  intros Hs. assert (exists s', m_geo s' = m_geo s /\ running_inv N (fun _ => False) txs s') as (s' & Hg' & Hrun).
  { pose proof (s_state _ _ _ _ _ Hs) as Hst. destruct (a_started a); [exists s; by destruct Hst|].
    exists (live s). split; [done|]. apply Hst. }
  destruct (running_started _ _ _ _ Hrun) as (_ & Hg & cur & Hr). destruct (geometry_pos _ Hg) as (Hb & _).
  pose proof (x_limit _ _ _ _ _ Hr). pose proof (x_bs _ _ _ _ _ Hr) as Hxb.
  rewrite Hg', (s_bs _ _ _ _ _ Hs) in Hb, Hxb. split_and!; try lia.
  rewrite <- Hxb. apply (r_txs _ _ _ (x_journal _ _ _ _ _ Hr)).
Qed.

Lemma log_room_less bs txs k : 0 <= N -> 0 < bs -> log_room bs txs (S k) -> log_room bs txs k.
Proof. unfold log_room. intros HN Hb Hr. assert (0 <= (N + 1) * (9 + bs)) by nia. lia. Qed.

(** A step that keeps the transaction running. *)
Lemma simulates_running bs k txs s s' a blocks :
  simulates bs (S k) txs s a -> running_inv N (fun _ => False) txs s' ->
  m_pinned_blocks (backend s') = 0 -> same_members s s' -> (forall i, content s' i = blocks i) ->
  simulates bs k txs s' (Adb (a_committed a) (a_csize a) blocks (a_size a) true).
Proof.
  intros Hs Hrun Hp [Hg Hro Hd Hds Hsz] Hc. destruct (simulates_bounds _ _ _ _ _ Hs) as (HN & Hb & _).
  destruct Hs as [_ Hbs (Hw1 & Hw2 & Hw3) Hcom Hcs Hbl Hsize Hroom]. rewrite <- Hro in Hw1.
  split; cbn; try done.
  - congruence.
  - split_and!; [done| |congruence]. by apply (i_writable _ _ (e_cache _ _ _ _ Hrun)).
  - intros i. rewrite <- Hcom. unfold committed, db_block. by rewrite Hg, Hds, Hd.
  - rewrite <- Hcs. unfold committed_size. congruence.
  - congruence.
  - apply log_room_less; try done. lia.
Qed.

(** A step after which no transaction is running. *)
Lemma simulates_idle bs k txs s com csize blocks size :
  idle_inv N txs s -> g_block_size (m_geo s) = bs ->
  EngineBase.m_read_only s = false -> file_read_only (m_dbfd (backend s)) = false ->
  (forall i, committed (m_geo s) txs (backend s) i = com i) -> committed_size txs (backend s) = csize ->
  (forall i, content s i = blocks i) -> m_size (backend s) = size -> log_room bs txs k ->
  simulates bs k txs s (Adb com csize blocks size false).
Proof.
  intros Hi Hbs Hro Hd Hcom Hcs Hc Hs Hr. split; cbn; try done. split_and!; try done.
  by apply (i_writable _ _ (e_cache _ _ _ _ (d_running _ _ _ Hi))).
Qed.

Lemma commit_step bs k txs s a :
  simulates bs (S k) txs s a -> a_started a = true ->
  wp commit s (fun _ s' => exists txs' a', tstep a TCommit None a' /\ simulates bs k txs' s' a').
Proof.
  intros Hs Hst. destruct (simulates_bounds _ _ _ _ _ Hs) as (HN & Hb & _).
  destruct Hs as [Hrun Hbs (Hw1 & Hw2 & Hw3) Hcom Hcs Hbl Hsize Hroom]. rewrite Hst in Hrun.
  destruct Hrun as [Hrun Hp]. eapply wp_mono; [apply (tx_commit_spec N txs); try done|].
  { rewrite Hbs. unfold log_room in Hroom. assert (0 <= (N + 1) * (9 + bs)) by nia. lia. }
  cbn beta. rewrite Hbs. intros _ s' (txs' & Hidle & Hm & Htxs & Hlen & Hc & Hc').
  destruct Hm as [Hg Hro Hd Hds Hsz]. exists txs'.
  assert (log_room bs txs' k) as Hroom'.
  { unfold log_room in *. assert (0 <= N * (9 + bs)) by nia. lia. }
  destruct Htxs as [->|[ws ->]]; eexists.
  - split.
    + apply step_commit_empty. intros i. rewrite <- Hbl, <- Hcom, <- Hc'.
      unfold committed, db_block. by rewrite Hds, Hd.
    + apply simulates_idle; try done; try congruence.
      * intros i. rewrite <- Hcom. unfold committed, db_block. by rewrite Hg, Hds, Hd.
      * rewrite <- Hcs. unfold committed_size. congruence.
  - split; [apply step_commit|]. apply simulates_idle; try done; try congruence.
    unfold committed_size, replay. rewrite foldl_app. cbn. done.
Qed.

Lemma rollback_step bs k txs s a :
  simulates bs (S k) txs s a -> a_started a = true ->
  wp rollback s (fun _ s' => exists a', tstep a TRollback None a' /\ simulates bs k txs s' a').
Proof.
  intros Hs Hst. destruct (simulates_bounds _ _ _ _ _ Hs) as (HN & Hb & _).
  destruct Hs as [Hrun Hbs (Hw1 & Hw2 & Hw3) Hcom Hcs Hbl Hsize Hroom]. rewrite Hst in Hrun.
  destruct Hrun as [Hrun Hp]. eapply wp_mono; [by apply (tx_rollback_spec N txs)|].
  cbn beta. intros _ s' (Hidle & Hg & Hro & Hd & Hds & Hsz & Hc). eexists.
  split; [apply step_rollback|]. apply simulates_idle; try done; try congruence.
  - intros i. rewrite <- Hcom. unfold committed, db_block. by rewrite Hg, Hds, Hd.
  - rewrite <- Hcs. unfold committed_size. congruence.
  - apply log_room_less; try done. lia.
Qed.

Lemma checkpoint_step bs k txs s a :
  simulates bs (S k) txs s a -> a_started a = false -> a_csize a = a_size a ->
  wp checkpoint s (fun _ s' => simulates bs k [] s' a).
Proof.
  intros Hs Hst Heq. destruct (simulates_bounds _ _ _ _ _ Hs) as (HN & Hb & _).
  destruct Hs as [Hidle Hbs (Hw1 & Hw2 & Hw3) Hcom Hcs Hbl Hsize Hroom]. rewrite Hst in Hidle.
  eapply wp_mono; [apply (tx_checkpoint_spec N txs); try done; congruence|].
  cbn beta. intros _ s' (Hidle' & Hg & Hro & Hsz & Hcs' & Hd & Hj & Hc).
  assert (log_room bs [] k) as Hroom'.
  { apply log_room_less in Hroom; try done; [|lia]. unfold log_room in *.
    assert (zlen (encode_log bs []) <= zlen (encode_log bs txs)); [|lia].
    unfold encode_log. cbn [map concat]. rewrite app_nil_r, length_app. lia. }
  destruct a as [com cs bl sz st]. cbn in *. subst st. apply simulates_idle; try done; try congruence.
  - intros i. rewrite <- (idle_content _ _ _ i Hidle'), Hc, (idle_content _ _ _ i Hidle). apply Hcom.
  - cbn. congruence.
Qed.

(** Every allowed operation is simulated. *)
Lemma top_step bs k txs s a o :
  simulates bs (S k) txs s a -> allowed bs N a o ->
  wp (top_run o) s (fun r s' => exists txs' a', tstep a o r a' /\ simulates bs k txs' s' a').
Proof.
  intros Hs Ho. pose proof (s_state _ _ _ _ _ Hs) as Hst. pose proof (s_size _ _ _ _ _ Hs) as Hsz.
  pose proof (s_bs _ _ _ _ _ Hs) as Hbs. pose proof (s_blocks _ _ _ _ _ Hs) as Hbl.
  destruct o as [| | | |n|i|i d]; cbn [allowed top_run] in *; wp_step.
  - rewrite Ho in Hst. eapply wp_mono; [by apply (tx_begin_spec N txs)|]. cbn beta.
    intros _ ? [-> Hrun]. wp_step. exists txs. eexists. split; [apply step_begin|].
    eapply simulates_running; try done. apply (d_pins _ _ _ Hst).
  - eapply wp_mono; [by eapply commit_step|]. cbn beta. intros _ s' (txs' & a' & ? & ?). wp_step. by exists txs', a'.
  - eapply wp_mono; [by eapply rollback_step|]. cbn beta. intros _ s' (a' & ? & ?). wp_step. by exists txs, a'.
  - destruct Ho as [Ho1 Ho2]. eapply wp_mono; [by eapply checkpoint_step|]. cbn beta. intros _ s' Hs'. wp_step.
    exists [], a. split; [apply step_checkpoint|done].
  - destruct Ho as (Hos & Hn & Hle). rewrite Hos in Hst. destruct Hst as [Hrun Hp].
    eapply wp_mono; [apply (tx_grow_spec N txs); [done..|lia]|]. cbn beta. intros _ s' [-> Hrun']. wp_step.
    exists txs. eexists. split; [apply step_grow|]. rewrite Hos, <- Hsz.
    destruct (simulates_bounds _ _ _ _ _ Hs) as (HN & Hb & _). destruct Hs. split; try done.
    apply log_room_less; try done. lia.
  - destruct Ho as (Hos & Hi). rewrite Hos in Hst. destruct Hst as [Hrun Hp].
    eapply wp_mono; [apply (tx_read_block_spec txs); [done..|lia]|]. cbn beta.
    intros d s' (-> & Hrun' & Hp' & Hm & Hc). wp_step. rewrite Hbl. exists txs, a.
    split; [apply step_read|]. destruct a as [com cs bl sz st]. cbn in Hos. subst st.
    eapply (simulates_running bs k txs s s' (Adb com cs bl sz true)); try done. intros j. by rewrite Hc.
  - destruct Ho as (Hos & Hi & Hd). rewrite Hos in Hst. destruct Hst as [Hrun Hp].
    eapply wp_mono; [apply (write_block_spec txs); [done..|apply Hs|lia|congruence]|]. cbn beta.
    intros _ s' (Hrun' & Hp' & Hm & Hc). wp_step. exists txs. eexists. split; [apply step_write|].
    rewrite Hos. eapply simulates_running; try done. intros j. rewrite Hc. unfold update. by case_decide.
Qed.

Lemma tops_steps bs ops : forall txs s a,
  simulates bs (length ops) txs s a -> safe bs N a ops ->
  wp (tops_run ops) s (fun rs s' => exists txs' a', tsteps a ops rs a' /\ simulates bs 0 txs' s' a').
Proof.
  induction ops as [|o ops IH]; intros txs s a Hs Hsafe; cbn [tops_run safe length] in *.
  - wp_step. exists txs, a. split; [constructor|done].
  - destruct Hsafe as [Ho Hnext]. wp_step. eapply wp_mono; [by eapply top_step|]. cbn beta.
    intros r s1 (txs1 & a1 & Hstep & Hs1). wp_step. eapply wp_mono; [by eapply IH; [|eapply Hnext]|].
    cbn beta. intros rs s2 (txs2 & a2 & Hsteps & Hs2). wp_step. exists txs2, a2.
    split; [by econstructor|done].
Qed.

(** ** Crashes *)

(** What a crash leaves of the journal file: at most records of the running
    transaction are lost. *)
Definition crash_file s (f : F) : Prop :=
  let j := m_journal (backend s) in
  exists k, file_data f = slice 0 k (file_data (m_logfd (j_log j))) /\
    (if in_transaction j then m_transaction_begin (j_tx j)
     else zlen (file_data (m_logfd (j_log j)))) <= k.

Lemma simulates_repr bs k txs s a : simulates bs k txs s a ->
  exists cur, tx_repr N (m_geo s) (backend s) txs cur.
Proof.
  intros Hs. pose proof (s_state _ _ _ _ _ Hs) as Hst. destruct (a_started a).
  - destruct Hst as [Hrun _]. by destruct (running_started _ _ _ _ Hrun) as (_ & _ & ?).
  - exists None. apply (d_repr _ _ _ Hst).
Qed.

Lemma crash_survives bs k txs s a f :
  simulates bs k txs s a -> crash_file s f ->
  survives bs txs (file_data f) /\ zlen (file_data f) < 2 ^ 64.
Proof.
  intros Hs (c & Hf & Hc). destruct (simulates_repr _ _ _ _ _ Hs) as [cur Hr].
  pose proof (x_journal _ _ _ _ _ Hr) as Hj. pose proof (x_bs _ _ _ _ _ Hr) as Hb.
  rewrite (s_bs _ _ _ _ _ Hs) in Hb. destruct (s_writable _ _ _ _ _ Hs) as (_ & Hjro & _).
  pose proof (represents_survives _ _ _ Hj Hjro) as Hsv. rewrite Hb in Hsv.
  pose proof (length_cut c (file_data (m_logfd (j_log (m_journal (backend s)))))) as Hcut.
  pose proof (l_file _ (r_log _ _ _ Hj)) as Hl. split; [|rewrite Hf; lia].
  rewrite Hf. apply survives_prefix; [done|]. unfold in_transaction in Hc. destruct cur as [ws|].
  - destruct (running_begin _ _ _ Hj) as (_ & Hin & Htb & _). by rewrite Hin, Htb, Hb in Hc.
  - destruct (r_cur _ _ _ Hj) as (Htx & _). rewrite Htx in Hc. cbn in Hc.
    destruct Hsv as (junk & Hjunk & _). rewrite Hjunk, length_app in Hc. lia.
Qed.

Lemma reopen_simulates bs k txs s a f cache_blocks buffer_size :
  simulates bs k txs s a -> crash_file s f -> file_read_only f = false ->
  is_pow2 32 bs = true -> 0 <= cache_blocks < 2 ^ 64 -> 0 < buffer_size < 2 ^ 32 ->
  exists s', open_engine (m_dbfd (backend s)) f bs cache_blocks buffer_size = Ok s' /\
    simulates bs k txs s' (Adb (a_committed a) (a_csize a) (a_committed a) (a_csize a) false).
Proof.
  intros Hs Hcf Hro Hp2 Hcache Hbuf. destruct (crash_survives _ _ _ _ _ _ Hs Hcf) as [Hsv Hl].
  destruct (simulates_bounds _ _ _ _ _ Hs) as (HN & Hb & Hwf).
  destruct (simulates_repr _ _ _ _ _ Hs) as [cur Hr]. destruct (x_db _ _ _ _ _ Hr) as (Hd0 & Hd1 & Hd2).
  pose proof (x_grown _ _ _ _ _ Hr) as Hgr. pose proof (x_limit _ _ _ _ _ Hr) as Hlim.
  pose proof (x_room _ _ _ _ _ Hr) as Hroom. rewrite (s_bs _ _ _ _ _ Hs) in *.
  destruct (open_spec N (m_dbfd (backend s)) f bs cache_blocks buffer_size txs
    (m_dbfile_size (backend s))) as (s' & Hopen & Hidle & Hbs' & Hd' & Hds' & Hsz' & Hro' & _);
    try done; try lia; [split; lia|by right|].
  exists s'. split; [done|]. pose proof (s_committed _ _ _ _ _ Hs) as Hcom.
  assert (forall i, committed (m_geo s') txs (backend s') i = a_committed a i) as Hcom'.
  { intros i. rewrite <- Hcom. unfold committed, db_block. by rewrite Hbs', Hds', Hd', (s_bs _ _ _ _ _ Hs). }
  apply simulates_idle; try done.
  - rewrite Hd'. apply Hs.
  - rewrite <- (s_csize _ _ _ _ _ Hs). unfold committed_size. congruence.
  - intros i. by rewrite (idle_content _ _ _ i Hidle).
  - rewrite Hsz', <- (s_csize _ _ _ _ _ Hs). done.
  - apply Hs.
Qed.

(** ** Sessions on files *)

(** The database of a journal with transactions [txs] above a database file
    of [n] blocks. *)
Definition file_content (bs : Z) (txs : list tx) (n : Z) (data : bytes) (i : Z) : bytes :=
  match (replay txs).1 !! i with
  | Some b => b
  | None => if (0 <=? i) && (i <? n) then slice (i * bs) bs data else zeros bs
  end.
Definition initial (bs : Z) (txs : list tx) (n : Z) (data : bytes) : adb :=
  let c := file_content bs txs n data in
  let m := default n (replay txs).2 in
  Adb c m c m false.

Section session_theorems.
Context (d : D) (f : F) (bs cache_blocks buffer_size n : Z) (txs : list tx) (ops : list top).
Hypothesis bs_ok : is_u32 bs /\ is_pow2 32 bs = true.
Hypothesis cache_ok : 0 <= cache_blocks < 2 ^ 64.
Hypothesis buffer_ok : 0 < buffer_size < 2 ^ 32.
Hypothesis journal_ok : journal_file bs txs (file_data f) /\ Forall (wf_tx bs) txs.
Hypothesis journal_small : zlen (file_data f) < 2 ^ 64.
Hypothesis writable : file_read_only f = false /\ file_read_only d = false.
Hypothesis db_ok : zlen (file_data d) = n * bs /\ zlen (file_data d) < 2 ^ 64 /\ 0 <= n.
Hypothesis size_ok : n <= default n (replay txs).2 <= N /\ N < invalid_value.
Hypothesis room : log_room bs txs (length ops).
Hypothesis ops_ok : safe bs N (initial bs txs n (file_data d)) ops.

Lemma session_simulates :
  exists s0 s rs txs' a, open_engine d f bs cache_blocks buffer_size = Ok s0 /\
    tops_run ops s0 = (s, Ok rs) /\ tsteps (initial bs txs n (file_data d)) ops rs a /\
    simulates bs 0 txs' s a.
Proof using All.
  destruct bs_ok as [Hbs Hp2], journal_ok as [Hj Hwf], writable as [Hro Hdro],
    db_ok as (Hd1 & Hd2 & Hd3), size_ok as [Hgr HN].
  destruct (open_spec N d f bs cache_blocks buffer_size txs n) as
    (s0 & Hopen & Hidle & Hbs' & Hd' & Hds' & Hsz' & Hro' & _); try done.
  { assert (1 <= bs) by (apply is_pow2_spec in Hp2 as (k & Hk & ->); [pose proof (Z.pow_pos_nonneg 2 k); lia|lia|done]).
    unfold log_room in room. assert (0 <= (N + 1) * (9 + bs)) by nia. nia. }
  assert (forall i, committed (m_geo s0) txs (backend s0) i = file_content bs txs n (file_data d) i) as Hcom.
  { intros i. unfold committed, db_block, file_content. by rewrite Hbs', Hds', Hd'. }
  assert (simulates bs (length ops) txs s0 (initial bs txs n (file_data d))) as Hs.
  { apply simulates_idle; try done; try congruence.
    - unfold committed_size. congruence.
    - intros i. by rewrite (idle_content _ _ _ i Hidle). }
  pose proof (tops_steps bs ops _ _ _ Hs ops_ok) as Hw.
  apply wp_run in Hw as (s & rs & Hrun & txs' & a & Hsteps & Hs'). by exists s0, s, rs, txs', a.
Qed.

(** C1: The transaction engine refines an abstract transactional database.
    Opening any database and journal file and running any safe sequence of
    begin, grow, block reads and writes, commit, rollback and checkpoint, with
    any cache and buffer size, succeeds; every read returns the contents that
    the abstract database has at that point (a rollback restores the committed
    contents and size, a commit publishes the new ones; only the size of a
    transaction that wrote no block may stay uncommitted), and the engine's
    size and transaction flag are those of the abstract database. *)
Theorem transaction_session :
  exists s0 s rs a, open_engine d f bs cache_blocks buffer_size = Ok s0 /\
    tops_run ops s0 = (s, Ok rs) /\ tsteps (initial bs txs n (file_data d)) ops rs a /\
    size s = a_size a /\ m_transaction_started (backend s) = a_started a.
Proof using All.
  destruct session_simulates as (s0 & s & rs & txs' & a & Hopen & Hrun & Hsteps & Hs).
  exists s0, s, rs, a. split_and!; try done; [apply Hs|].
  pose proof (s_state _ _ _ _ _ Hs) as Hst. destruct (a_started a).
  - destruct Hst as [Hr _]. by destruct (running_started _ _ _ _ Hr).
  - apply Hst.
Qed.

End session_theorems.
End sessions.

(** ** Transactions that only grow the database *)

Section grow_only.
Context {F D : Type} `{FileSpec F} `{FileSpec D}.
Context `{!Malloc (tx_state F D), !MallocSpec (tx_state F D)}.
Context (N : Z).
Abbreviation E := (engine_base (tx_state F D)).

(** The commit finds no dirty block and no transaction in the journal. *)
Lemma commit_unwritten txs (s : E) :
  running_inv N (fun _ => False) txs s -> tx_repr N (m_geo s) (backend s) txs None ->
  m_pinned_blocks (backend s) = 0 -> m_dirty s = [] ->
  wp commit s (fun _ s' => s' = set_backend (set_started false (backend s)) s /\ idle_inv N txs s').
Proof.
  intros Hrun Hr Hp Hd. destruct (running_started _ _ _ _ Hrun) as (Hst & _).
  unfold commit, EngineBase.flush, assert_clean. do 2 wp_step. do 2 wp_step; [by rewrite Hst|].
  do 2 wp_step. do 3 wp_step. rewrite Hd. cbn [flush_list]. do 4 wp_step. wp_step; [by rewrite Hd|].
  do 3 wp_step. unfold in_transaction. destruct (r_cur _ _ _ (x_journal _ _ _ _ _ Hr)) as (-> & _).
  cbn [m_in_transaction no_transaction]. wp_step. apply wp_members. wp_step. split; [done|].
  apply stop_spec; try done; [apply Hrun|]. intros i. by eapply running_unpinned.
Qed.

(** C40: A transaction that only grows the database is not made durable.
    From an idle engine, begin, grow and commit succeed and the engine shows
    the larger size, but the journal is unchanged, the next [checkpoint]
    fails its assertion on the size, and a later rollback shrinks the database
    to the size before the committed transaction. *)
Theorem grow_only_commit (s : E) txs m n :
  idle_inv N txs s -> (replay txs).2 = Some m -> m = size s -> 0 < n -> size s + n <= N ->
  file_read_only (m_dbfd (backend s)) = false ->
  Journal.m_read_only (m_journal (backend s)) = false ->
  exists s1, (begin ;;; grow n ;;; commit) s = (s1, Ok tt) /\ size s1 = size s + n /\
    m_journal (backend s1) = m_journal (backend s) /\
    checkpoint s1 = (s1, Err assert_failure) /\
    exists s2, (begin ;;; rollback) s1 = (s2, Ok tt) /\ size s2 = size s.
Proof.
  intros Hidle Hm -> Hn Hle Hdro Hjro.
  assert (wp (begin ;;; grow n ;;; commit) s (fun _ s1 => idle_inv N txs s1 /\
    s1 = set_backend (set_started false (set_size (size s + n) (backend (live s)))) (live s))) as Hw.
  { wp_step. eapply wp_mono; [by apply (tx_begin_spec N txs)|]. cbn beta. intros _ ? [-> Hrun].
    wp_step. eapply wp_mono; [by apply (tx_grow_spec N txs); [|lia|]|]. cbn beta. intros _ ? [-> Hrun'].
    eapply wp_mono; [apply (commit_unwritten txs); try done|].
    - eapply tx_repr_members; [apply (d_repr _ _ _ Hidle)|done..|]. unfold size in *. cbn in *. lia.
    - apply (d_pins _ _ _ Hidle).
    - apply (d_clean _ _ _ Hidle).
    - cbn beta. intros _ s1 [-> Hi]. by split. }
  apply wp_run in Hw as (s1 & [] & Hrun & Hidle1 & Hs1). exists s1.
  pose proof (x_journal _ _ _ _ _ (d_repr _ _ _ Hidle)) as Hj.
  split_and!; [done|by rewrite Hs1|by rewrite Hs1| |].
  - rewrite Hs1. unfold checkpoint, throw_if, guard_else, bind, gets. cbn.
    rewrite Hdro, <- (r_read_only _ _ _ Hj), Hjro. unfold has_committed_changes.
    rewrite (r_size _ _ _ Hj), Hm. cbn. unfold in_transaction.
    destruct (r_cur _ _ _ Hj) as (Htx & _). rewrite Htx. cbn.
    rewrite bool_decide_eq_false_2; [done|]. intros [= Heq]. unfold size in *. lia.
  - assert (wp (begin ;;; rollback) s1 (fun _ s2 => size s2 = size s)) as Hw.
    { wp_step. eapply wp_mono; [by apply (tx_begin_spec N txs)|]. cbn beta. intros _ ? [-> Hrun1].
      eapply wp_mono; [apply (tx_rollback_spec N txs); [done|apply (d_pins _ _ _ Hidle1)]|]. cbn beta.
      intros _ s2 (_ & _ & _ & _ & _ & Hsz & _). unfold size at 1. rewrite Hsz. unfold committed_size. by rewrite Hm. }
    apply wp_run in Hw as (s2 & [] & Hrun2 & Hsz). by exists s2.
Qed.
End grow_only.

(** ** A session on memory files *)

Abbreviation mem := memory_file.memory_file.

#[local] Instance mem_malloc : Malloc (tx_state mem mem) := fun s => zeros (g_block_size (m_geo s)).
#[local] Instance mem_malloc_spec : MallocSpec (tx_state mem mem).
Proof. intros s Hg. destruct (geometry_pos _ Hg) as (? & _). apply length_zeros. lia. Qed.

Definition sample_tops : list top :=
  [TBegin; TGrow 3; TWrite 0 [x01; x02; x03; x04]; TWrite 1 [x05; x06; x07; x08]; TRead 0; TCommit;
   TBegin; TWrite 1 [x09; x0a; x0b; x0c]; TRead 1; TRollback; TBegin; TWrite 2 [x0d; x0e; x0f; x10]; TRead 1].

(** Unfolds one step of [safe]; a transaction that wrote a block is committed
    as a whole. *)
Ltac safe_step :=
  split; [cbn; split_and?; first [done|lia]|]; intros ? ? Hstep; inversion Hstep; subst; clear Hstep;
  try match goal with Heq : forall i, _ = _ |- _ => specialize (Heq 0); discriminate Heq end;
  cbn [a_committed a_csize a_blocks a_size a_started].

Lemma sample_tops_safe : safe 4 8 (initial 4 [] 0 []) sample_tops.
Proof. unfold sample_tops. do 13 safe_step. done. Qed.

Lemma transaction_session_witness :
  exists s0 s rs a, open_engine memory_file.create_temp memory_file.create_temp 4 1 16 = Ok s0 /\
    tops_run sample_tops s0 = (s, Ok rs) /\ tsteps (initial 4 [] 0 (file_data memory_file.create_temp)) sample_tops rs a /\
    size s = a_size a /\ m_transaction_started (backend s) = a_started a.
Proof.
  apply (transaction_session 8 memory_file.create_temp memory_file.create_temp 4 1 16 0 [] sample_tops).
  - by vm_compute.
  - lia.
  - lia.
  - split; [by left|constructor].
  - by vm_compute.
  - done.
  - by vm_compute.
  - by vm_compute.
  - by vm_compute.
  - exact sample_tops_safe.
Defined.


(** An engine on a journal file with one transaction. *)
Definition sample_engine : result (engine_base (tx_state mem mem)) :=
  open_engine (memory_file.MemoryFile [] false) sample_crashed 4 1 16.
Definition sample_idle : engine_base (tx_state mem mem) :=
  match sample_engine with
  | Ok s => s
  | Err _ => EngineBase (TxState memory_file.create_temp sample_journal 0 0 false 0) (Geometry 4 2 3)
               1 1 false [] ∅ [] [] (Stats 0 0 0)
  end.

Lemma sample_idle_inv : idle_inv 8 sample_txs sample_idle.
Proof.
  destruct (open_spec 8 (memory_file.MemoryFile [] false) sample_crashed 4 1 16 sample_txs 0)
    as (s & Hs & Hi & _);
    [by vm_compute|by vm_compute|lia|lia|right; exact sample_crashed_survives|done|by vm_compute
    |exact sample_txs_wf|by vm_compute|by vm_compute|lia|by vm_compute|by vm_compute|by vm_compute|].
  unfold sample_idle, sample_engine. by rewrite Hs.
Qed.

Lemma grow_only_commit_witness :
  exists s1, (begin ;;; grow 2 ;;; commit) sample_idle = (s1, Ok tt) /\ size s1 = size sample_idle + 2 /\
    m_journal (backend s1) = m_journal (backend sample_idle) /\
    checkpoint s1 = (s1, Err assert_failure) /\
    exists s2, (begin ;;; rollback) s1 = (s2, Ok tt) /\ size s2 = size sample_idle.
Proof.
  apply (grow_only_commit 8 sample_idle sample_txs 3 2);
    [exact sample_idle_inv|by vm_compute|by vm_compute|lia|by vm_compute|by vm_compute|by vm_compute].
Defined.
